(* ===== verification/_CoqProject ===== *)
-Q . S2P
Prelude.v
Bits.v
Storage.v
BitIO.v
Golomb.v
Blob.v
Attributes.v
ComponentPaths.v
CDA.v
Lexicon.v
Positional.v
RevIndex.v
CompressRdx.v
MakeComps.v
MakeFreqs.v
MakeRevCorpus.v
MakeLexicon.v
MakeAll.v
MakeAllCorrect.v
Huffcode.v
HuffHeap.v
HuffTree.v
HuffCanon.v
HuffEncode.v
HuffDecode.v
HuffCheck.v
Huffman.v
Struc.v
Align.v
Matchlist.v
MatchlistRows.v
MatchlistHalts.v
MatchlistSets.v
Lexhash.v
LexhashMap.v
LexhashSpec.v
Evaltree.v
Regex2dfa.v
RegexLang.v
RegexTables.v
RegexScan.v
RegexSymbols.v
RegexParse.v
EvaltreeText.v
RegexEval.v
RegexSem.v
RegexBuf.v
RegexWalk.v
RegexForm.v
RegexMerge.v
RegexDfa.v
RegexShape.v
RegexCount.v
RegexHalts.v
RegexTotal.v
SearchPattern.v
Bitfields.v
Ranges.v
RangesMatch.v
RangesSets.v
Symtab.v
Eval.v
EvalSample.v
EvalConditions.v
Simulate.v
SimulateTokens.v
SimulateRun.v
SimulateList.v
SimulateMatches.v
InitialMatches.v
InitialSets.v
InitialMatchlist.v
Query.v
QueryRun.v
QueryResults.v
Queries.v
