(* ===== verification/Prelude.v ===== *)
(** * The IMS Open Corpus Workbench: a verification library

    The Corpus Workbench stores annotated text corpora in indexed files and answers
    queries on them.  Its parts are the corpus library (src/cl), the query processor
    CQP (src/cqp) and command-line tools (src/utils) that encode, index and compress
    corpora.  This library models the core of the first two and of the indexing tools.

    ** How the code is modelled

    C code becomes functions into [res] (this file): a result, or a [fault] where the
    code has undefined behaviour, a failed assertion or an exit.  A theorem that
    says [f x = Ok y] therefore says as well that no array is left, no NULL pointer
    followed and no signed integer overflown on the way.  An array is the list of its
    cells, an [int] a [Z] whose arithmetic faults outside [[-2^31, 2^31)], an
    unsigned integer a [Z] modulo a power of two.  Files are the bytes that are
    written; records hold the fields of the structs, and linked structures live in an
    explicit heap (Lexhash).  A loop is a function from the variables it changes to
    the next ones or the exit; [loop] runs it for at most [fuel] = 2^64 rounds, more
    than a C array has cells.  The rules [loop_rule] and [loop_indexed] prove that a
    loop ends: a theorem that ends in [Ok] includes the termination of its loops.
    [halts] is for code that may fault, but does end.

    ** The files, in order

    Storage (below everything that is read or written)
    - Prelude: results, arrays, loops, machine integers, automation.
    - Bits: lists of bits and the numbers they denote.
    - Storage: cl/endian.c, and the integer half of cl/storage.c.
    - Blob: the MemBlob half of cl/storage.c (allocation, reading, writing files).
    - BitIO: cl/bitio.c, bit streams on files and in memory.
    - Golomb: cl/compression.c, Golomb codes on bit streams.

    Attributes and access (cl/attributes.c, cl/cdaccess.c)
    - Attributes: components, their states, and loading them with what they need.
    - ComponentPaths: the names of the components' files.
    - CDA: error numbers and the checks that all access functions share.
    - Lexicon: ids and strings ([cl_id2str], [cl_str2id] and others).
    - Positional: tokens, frequencies and the index, plain and compressed.
    - RevIndex: what the index returns, for types and lists of types; streams of positions.
    - Struc, Align: structural and alignment attributes.

    Building an index (cl/makecomps.c, utils/cwb-makeall.c)
    - MakeComps: the functions that create the components.
    - MakeFreqs, MakeRevCorpus, MakeLexicon: one theorem for each of them.
    - MakeAll, MakeAllCorrect: the tool that creates and checks them all.
    - CompressRdx: utils/cwb-compress-rdx.c, the compressed index.

    Compressing the tokens (utils/cwb-huffcode.c)
    - Huffcode: the tool.  HuffHeap, HuffTree, HuffCanon: its priority queue, the
      depths of the tree, and the canonical codes made from them.
    - HuffEncode, HuffDecode, HuffCheck: what is written, what the library reads
      back, and the check of the tool.  Huffman: the theorems.

    From queries to automata (cqp/tree.c, cqp/regex2dfa.c, cqp/parse_actions.c)
    - Evaltree: evaluation trees and [evaltree2searchstr].  Regex2dfa: the compiler from
      search strings to automata.  SearchPattern: [do_SearchPattern], which calls both.
    - RegexLang: weighted languages.  RegexTables, RegexSymbols, RegexScan, RegexParse: the
      hash tables, the scanner and the parser.  EvaltreeText: the search string.
    - RegexEval, RegexSem, RegexBuf, RegexWalk, RegexForm: one round of an evaluation,
      what it preserves, and the states that are formed from it.
    - RegexMerge, RegexDfa: equivalent states, and the tables of the automaton.
    - RegexShape, RegexCount, RegexHalts: why the construction ends.  RegexTotal: all of it
      together.

    Query processing (src/cqp) and containers
    - Matchlist: cqp/matchlist.c.  MatchlistRows, MatchlistHalts, MatchlistSets:
      merges of rows, termination, set algebra, and the sizes of the arrays.
    - Bitfields: cl/bitfields.c, and its refinement of finite sets.
    - Ranges: [RangeSetop] of cqp/ranges.c.  RangesMatch: marking and removing
      ranges, the matching strategies.  RangesSets: union, intersection, difference.
    - Symtab: cqp/symtab.c, the labels of a query.
    - Eval: conditions and columns (cqp/eval.c).  EvalConditions: their truth values.
    - Simulate: the simulation of an automaton on the corpus.  SimulateTokens, SimulateRun,
      SimulateList, SimulateMatches: a cycle, a corpus position, and a match list, for
      queries over tokens.  EvalSample: a corpus for examples.
    - InitialMatches: the first matches of a condition, a tag or an anchor
      ([calculate_initial_matchlist], [matchfirstpattern]).  InitialSets,
      InitialMatchlist: the cases of a condition, and the theorem.
    - Query: [simulate_dfa], the constraints on aligned corpora, and [do_StandardQuery]
      (cqp/parse_actions.c).  QueryRun, QueryResults: the lists of the first
      transitions, their union, and the ranges of the result.
    - Queries: from the tree of a query to its result, through the compiler.
    - Lexhash: cl/lexhash.c.  LexhashMap, LexhashSpec: primes and doubles, the
      representation, and the refinement of finite maps.

    ** How the components interact

    The tools write files that the library reads: the theorems meet there.
    [makeall_builds_index] and [compress_reversed_index_correct] show that the tools
    create files of which the access functions are proved to return the index, and
    [makeall_word_search] composes both: in a corpus that
    the tool has indexed, looking up a word and then its positions returns exactly
    the positions where the word stands.  In the same way [huffman_roundtrip] says
    that the compressed tokens answer every series of accesses as the plain ones.
    [do_SearchPattern_ok] goes from the tree of a query through its search string to the
    automaton, and [query_correct] on to the result: [do_StandardQuery] looks up the first
    matches in the index (InitialMatches), simulates the automaton (Simulate) from each of them,
    unites the match lists (Matchlist) and applies the matching strategy (Ranges), and
    each step uses the theorem of the one before.  Where one component is used through another's promise, the promise is
    a class: [BitWriter] and [BitReader] (BitIO) for bit streams on files and in memory,
    which the codes are proved against, [TokenAccess] (MakeRevCorpus) for the tokens of
    an attribute, plain or compressed, from which the index is built, [Names]
    (RegexSymbols) for what the parser may find in quotes, and [algebra] (RegexSem) for
    the laws that make the rewriting of equations right, with weighted languages
    and the measures of the termination proof as instances, and [Access] (Eval) with its
    laws [AccessLaws] (EvalConditions) for what conditions ask the corpus, [Index] with
    [IndexLaws] (InitialMatches, InitialSets) for what the first matches are looked up in, and
    [AlignAccess] (Query) for aligned corpora.

    ** What the theorems show

    - Round trips: integers, blobs, bit files, Golomb codes, compressed index and
      tokens, regions and positions.
    - Functional correctness of every access function, error cases included, and of
      every function that creates a component.
    - The automaton of a query accepts the sequences of patterns that match the query;
      its construction ends (cyclic equations included) and merges equivalent states.
    - Refinement: files implement interfaces, the lexicon hash implements finite
      maps, bit fields finite sets, match lists and query results the algebra of sets
      (but for the cases that the theorems exclude because the code gets them wrong).
    - The matching strategies leave the ranges they are specified to leave.
    - Conditions on the token itself have their truth values ([eval_bool_plain]); for queries
      over tokens the simulation finds the shortest or longest match from every position, and
      ends ([simulate_matches]).
    - The first matches of a condition that can be looked up are the positions where it holds
      ([calculate_initial_matchlist_exact]); a query returns the ranges its matching
      strategy selects from the matches ([do_StandardQuery_correct], [query_correct]).
    - Invariants: loading keeps components consistent; the block cache of
      [cl_cpos2id] stays valid.
    - Safety and bounds: prefix codes, depths of the Huffman tree, accesses behind the
      last alignment boundary, overflow in Golomb codes.
    - Termination: every call of [Setop] returns; the search for a prime ends.
    - Exactness of the checks that the tools run on their own output.

    Where the code does not do what it means to, a theorem or an example states
    what it does instead (for instance [collect_lengths_faults],
    [alignment_past_last_boundary], [intersection_with_inverted_wrong],
    [standard_keeps_overlaps], [evaltree2searchstr_repeat_zero], [zero_width_cycle]).

    ** Bounds

    Apart from [fuel], two loops have bounds of their own.  The construction of states
    takes up to exponentially many rounds: its bound [limit] is a parameter, and the
    theorems say that a bound exists with which every call returns.  The recursion of
    the Golomb and tree functions is structural.  [MAX_CHAR], [STACK_MAX] and the 10^5
    patterns that fit into the buffer of a number are bounds of the code.

    ** Parameters

    C does not fix the order in which the arguments of a call are evaluated; where the
    code depends on it ([left_first] in Regex2dfa) the theorems hold for both.  The file system (what [fopen], [stat] and [read] find), the contents of
    uninitialised memory, the address [malloc] returns and [realloc] for size 0 are
    arguments of the definitions that depend on them.

    ** Not modelled

    - The query language of CQP: its grammar and the actions of the parser
      (cqp/parse_actions.c but for [do_SearchPattern] and [do_StandardQuery]), macros and variables.
    - The rest of cqp/eval.c (MU and TAB queries), sorting (the rest of cqp/ranges.c), subcorpora
      (cqp/corpmanag.c).  The theorems on queries are for queries over tokens without a
      cut: tags, anchors and lookahead constraints, which consume no token, labels
      in conditions, cuts and aligned corpora are modelled, but not in them.
    - Output: concordances, print modes, tabulation (cqp/output.c, cqp/concordance.c,
      cqp/print-modes.c and others).  Pure input and output.
    - The registry (cl/registry.y, cl/corpus.c), regular expressions on strings
      (cl/regopt.c, which calls PCRE), character sets (cl/special-chars.c).
    - cwb-encode and the remaining tools; the CQi server and its clients.
    - editline is third-party code. *)

From Stdlib Require Import ZArith Lia Sorted.
From stdpp Require Import base tactics option list numbers.

#[global] Open Scope Z_scope.

#[global] Arguments Z.leb !_ !_ /.
#[global] Arguments Z.ltb !_ !_ /.
#[global] Arguments Z.eqb !_ !_ /.
#[global] Arguments Z.testbit _ _ : simpl never.
#[global] Arguments Z.shiftl _ _ : simpl never.
#[global] Arguments Z.shiftr _ _ : simpl never.
#[global] Arguments Z.land _ _ : simpl never.
#[global] Arguments Z.lor _ _ : simpl never.
#[global] Arguments Z.lxor _ _ : simpl never.

(** ** Results of C code

    A C operation of the model either returns normally or stops with a fault.
    Undefined behaviour, failed [assert]s and calls of [exit] are values of
    the error type, so that a theorem [f x = Ok y] says that none of them
    happens. *)
Inductive fault :=
| OutOfBounds      (* a read or write outside an array *)
| NullDeref        (* a NULL pointer is followed *)
| IntOverflow      (* signed overflow or an illegal shift count *)
| DivByZero        (* integer division by zero *)
| AssertFail       (* a failed assert() *)
| ExitCall         (* the code calls exit() *)
| OutOfFuel.       (* the bound on the steps of a loop is used up *)

#[export] Instance fault_eq_dec : EqDecision fault.
Proof. solve_decision. Defined.

Inductive res (A : Type) :=
| Ok (a : A)
| Err (f : fault).
Arguments Ok {A} a.
Arguments Err {A} f.

#[export] Instance res_ret : MRet res := fun A a => Ok a.
#[export] Instance res_bind : MBind res := fun A B k m =>
  match m with Ok a => k a | Err f => Err f end.
#[export] Instance res_fmap : FMap res := fun A B g m =>
  match m with Ok a => Ok (g a) | Err f => Err f end.

(** [assert(c)] of the C code. *)
Definition c_assert (c : bool) : res unit := if c then Ok () else Err AssertFail.

(** Following a pointer that may be NULL. *)
Definition deref {A} (p : option A) : res A :=
  match p with Some a => Ok a | None => Err NullDeref end.

Lemma bind_Ok {A B} (a : A) (k : A -> res B) : (Ok a ≫= k) = k a.
Proof. reflexivity. Qed.

Lemma bind_Err {A B} (f : fault) (k : A -> res B) : (Err f ≫= k) = Err f.
Proof. reflexivity. Qed.

Lemma deref_Some {A} (a : A) : deref (Some a) = Ok a.
Proof. reflexivity. Qed.

Lemma c_assert_true : c_assert true = Ok ().
Proof. reflexivity. Qed.

Lemma bind_Ok_inv {A B} (m : res A) (k : A -> res B) b :
  (m ≫= k) = Ok b -> exists a, m = Ok a /\ k a = Ok b.
Proof. destruct m; [eauto | discriminate]. Qed.

Lemma bind_assoc {A B C} (m : res A) (f : A -> res B) (g : B -> res C) :
  ((m ≫= f) ≫= g) = (m ≫= fun a => f a ≫= g).
Proof. by destruct m. Qed.

(** ** Arrays

    An allocated block is the list of its cells; an index is a [Z], as the
    code computes it, and an access outside the block is a fault. *)
Definition aget {A} (l : list A) (i : Z) : res A :=
  if i <? 0 then Err OutOfBounds
  else match l !! Z.to_nat i with Some x => Ok x | None => Err OutOfBounds end.

Definition aset {A} (l : list A) (i : Z) (x : A) : res (list A) :=
  if (i <? 0) || (Z.of_nat (length l) <=? i) then Err OutOfBounds
  else Ok (<[Z.to_nat i := x]> l).

(** Length as a [Z]. *)
Definition zlen {A} (l : list A) : Z := Z.of_nat (length l).

Lemma zlen_nonneg {A} (l : list A) : 0 <= zlen l.
Proof. unfold zlen; lia. Qed.

Lemma zlen_app {A} (l k : list A) : zlen (l ++ k) = zlen l + zlen k.
Proof. unfold zlen; rewrite length_app; lia. Qed.

Lemma zlen_cons {A} (x : A) (l : list A) : zlen (x :: l) = 1 + zlen l.
Proof. unfold zlen; simpl; lia. Qed.

Lemma zlen_nil {A} : zlen (@nil A) = 0.
Proof. reflexivity. Qed.

Lemma zlen_insert {A} (l : list A) i x : zlen (<[i:=x]> l) = zlen l.
Proof. unfold zlen; by rewrite length_insert. Qed.

Lemma zlen_replicate {A} n (x : A) : zlen (replicate n x) = Z.of_nat n.
Proof. unfold zlen; by rewrite length_replicate. Qed.

Lemma zlen_0_nil {A} (l : list A) : zlen l = 0 -> l = [].
Proof. destruct l; [done |]. rewrite zlen_cons. pose proof (zlen_nonneg l). lia. Qed.

Lemma aget_Ok {A} (l : list A) i x :
  aget l i = Ok x <-> 0 <= i /\ l !! Z.to_nat i = Some x.
Proof.
  unfold aget. destruct (Z.ltb_spec i 0).
  - split; [discriminate | lia].
  - destruct (l !! Z.to_nat i); split; intuition congruence.
Qed.

Lemma aget_lookup {A} (l : list A) i x :
  0 <= i -> l !! Z.to_nat i = Some x -> aget l i = Ok x.
Proof. intros; by apply aget_Ok. Qed.

Lemma aget_nat {A} (l : list A) (n : nat) x :
  l !! n = Some x -> aget l (Z.of_nat n) = Ok x.
Proof. intros; apply aget_lookup; [lia | by rewrite Nat2Z.id]. Qed.

Lemma aget_total {A} (l : list A) i :
  0 <= i < zlen l -> exists x, aget l i = Ok x /\ l !! Z.to_nat i = Some x.
Proof.
  unfold zlen; intros Hi.
  destruct (lookup_lt_is_Some_2 l (Z.to_nat i)) as [x Hx]; [lia |].
  exists x; split; [apply aget_lookup; [lia | done] | done].
Qed.

Lemma aget_oob {A} (l : list A) i : ~ (0 <= i < zlen l) -> aget l i = Err OutOfBounds.
Proof.
  unfold zlen, aget; intros Hi. destruct (Z.ltb_spec i 0); [done |].
  rewrite lookup_ge_None_2; [done | lia].
Qed.

Lemma aset_Ok {A} (l : list A) i x :
  0 <= i < zlen l -> aset l i x = Ok (<[Z.to_nat i := x]> l).
Proof.
  unfold zlen, aset; intros.
  rewrite (proj2 (Z.ltb_ge i 0)) by lia.
  by rewrite (proj2 (Z.leb_gt _ _)) by lia.
Qed.

Lemma aset_Ok_inv {A} (l : list A) i x l' :
  aset l i x = Ok l' -> 0 <= i < zlen l /\ l' = <[Z.to_nat i := x]> l.
Proof.
  unfold zlen, aset.
  destruct (Z.ltb_spec i 0); [discriminate |].
  destruct (Z.leb_spec (Z.of_nat (length l)) i); [discriminate |].
  simpl; intros [= <-]; split; [lia | done].
Qed.

Lemma aset_oob {A} (l : list A) i x : ~ (0 <= i < zlen l) -> aset l i x = Err OutOfBounds.
Proof.
  unfold zlen, aset; intros Hi. destruct (Z.ltb_spec i 0); [done |].
  by rewrite (proj2 (Z.leb_le _ _)) by lia.
Qed.

(** Reading at index [zlen l] of [l ++ x :: k], where a pointer walks a list. *)
Lemma aget_middle {A} (l k : list A) x i : i = zlen l -> aget (l ++ x :: k) i = Ok x.
Proof. intros ->. apply aget_nat. by rewrite list_lookup_middle. Qed.

Lemma aset_middle {A} (l k : list A) x y i :
  i = zlen l -> aset (l ++ x :: k) i y = Ok (l ++ y :: k).
Proof.
  intros ->. rewrite aset_Ok.
  - unfold zlen. by rewrite Nat2Z.id, insert_app_r_alt, Nat.sub_diag by lia.
  - rewrite zlen_app, zlen_cons. pose proof (zlen_nonneg k); pose proof (zlen_nonneg l); lia.
Qed.

Lemma aget_app {A} (l k : list A) i x : aget l i = Ok x -> aget (l ++ k) i = Ok x.
Proof. intros [Hi H]%aget_Ok. apply aget_Ok. split; [done | by apply lookup_app_l_Some]. Qed.

Lemma aget_app_inv {A} (l : list A) y i x :
  aget (l ++ [y]) i = Ok x -> aget l i = Ok x \/ (i = zlen l /\ x = y).
Proof.
  intros [Hi H]%aget_Ok. apply lookup_app_Some in H as [H|[Hl H]]; [left; by apply aget_Ok |].
  right. apply list_lookup_singleton_Some in H as [H ->]. unfold zlen. split; [lia | done].
Qed.

Lemma zlen_snoc {A} (l : list A) x : zlen (l ++ [x]) = zlen l + 1.
Proof. rewrite zlen_app. reflexivity. Qed.

Lemma aget_new {A} (l : list A) x : aget (l ++ [x]) (zlen l) = Ok x.
Proof. by apply aget_middle. Qed.

Lemma aget_range {A} (l : list A) i x : aget l i = Ok x -> 0 <= i < zlen l.
Proof. intros [Hi H]%aget_Ok. apply lookup_lt_Some in H. unfold zlen. lia. Qed.

Lemma aget_some {A} (l : list A) i : 0 <= i < zlen l -> exists x, aget l i = Ok x.
Proof. intros H. destruct (aget_total l i H) as (x & Hx & _). eauto. Qed.

Lemma aget_insert {A} (l : list A) i y : 0 <= i < zlen l -> aget (<[Z.to_nat i:=y]> l) i = Ok y.
Proof. intros H. apply aget_Ok. split; [lia |]. apply list_lookup_insert_eq. unfold zlen in H. lia. Qed.

Lemma aget_insert_ne {A} (l : list A) i j y : 0 <= i -> i <> j -> aget (<[Z.to_nat i:=y]> l) j = aget l j.
Proof.
  intros Hi Hij. unfold aget. destruct (Z.ltb_spec j 0); [done |]. by rewrite list_lookup_insert_ne by lia.
Qed.

Lemma aget_nil {A} i (x : A) : aget [] i <> Ok x.
Proof. intros [_ Hx]%aget_Ok. by rewrite lookup_nil in Hx. Qed.

Lemma aget_replicate {A} n i (x y : A) : aget (replicate n x) i = Ok y -> y = x.
Proof. intros [_ Hx]%aget_Ok. by apply lookup_replicate in Hx as [-> _]. Qed.

(** ** Loops

    A loop is a step function on the variables it changes: [inl s] goes round
    again, [inr r] leaves the loop ([break], a false condition or a [return]).
    The number of rounds is bounded by a [positive] that is consumed by
    halving, so that a large bound costs nothing when a model is evaluated. *)
Section Loop.
Context {S R : Type} (step : S -> res (S + R)).

Fixpoint rounds (p : positive) (s : S) : res (S + R) :=
  let next (m : res (S + R)) (k : S -> res (S + R)) :=
    r ← m; match r with inl s' => k s' | inr x => Ok (inr x) end in
  match p with
  | xH => step s
  | xO q => next (rounds q s) (rounds q)
  | xI q => next (step s) (fun s' => next (rounds q s') (rounds q))
  end.

Definition loop (p : positive) (s : S) : res R :=
  r ← rounds p s; match r with inl _ => Err OutOfFuel | inr x => Ok x end.

End Loop.

(** The total-correctness rule: an invariant kept by every round with a bound on
    the rounds to come that every round decreases, and the postcondition at the
    exit.  The bound is not a function of the state, for loops over linked data. *)
Section LoopIndexed.
Context {S R : Type} (step : S -> res (S + R)) (I : Z -> S -> Prop) (Q : R -> Prop).
Hypothesis step_ok : forall n s, I n s -> 0 <= n /\
  ((exists s' n', step s = Ok (inl s') /\ I n' s' /\ n' < n) \/ (exists r, step s = Ok (inr r) /\ Q r)).

Lemma rounds_indexed p : forall n s, I n s ->
  (exists s' n', rounds step p s = Ok (inl s') /\ I n' s' /\ n' + Zpos p <= n) \/
  (exists r, rounds step p s = Ok (inr r) /\ Q r).
Proof.
  induction p as [p IH|p IH|]; intros n s Hs; cbn [rounds].
  - destruct (step_ok n s Hs) as [_ [(s1 & n1 & -> & H1 & L1)|(r & -> & Hr)]]; cbn; [|eauto].
    destruct (IH n1 s1 H1) as [(s2 & n2 & -> & H2 & L2)|(r & -> & Hr)]; cbn; [|eauto].
    destruct (IH n2 s2 H2) as [(s3 & n3 & -> & H3 & L3)|(r & -> & Hr)]; [|eauto].
    left; exists s3, n3; repeat split; [done | lia].
  - destruct (IH n s Hs) as [(s1 & n1 & -> & H1 & L1)|(r & -> & Hr)]; cbn; [|eauto].
    destruct (IH n1 s1 H1) as [(s2 & n2 & -> & H2 & L2)|(r & -> & Hr)]; [|eauto].
    left; exists s2, n2; repeat split; [done | lia].
  - destruct (step_ok n s Hs) as [_ [(s1 & n1 & -> & H1 & L1)|(r & -> & Hr)]]; [|eauto].
    left; exists s1, n1; repeat split; [done | lia].
Qed.

Lemma loop_indexed p n s : I n s -> n < Zpos p -> exists r, loop step p s = Ok r /\ Q r.
Proof.
  intros Hs Hn. unfold loop.
  destruct (rounds_indexed p n s Hs) as [(s' & n' & -> & Hs' & Hl)|(r & -> & Hr)]; cbn; [|eauto].
  destruct (step_ok n' s' Hs') as [Hpos _]. lia.
Qed.
End LoopIndexed.

(** The rule with a measure of the state. *)
Section LoopRule.
Context {S R : Type} (step : S -> res (S + R)) (I : S -> Prop) (Q : R -> Prop) (m : S -> Z).
Hypothesis step_ok : forall s, I s -> 0 <= m s /\
  ((exists s', step s = Ok (inl s') /\ I s' /\ m s' < m s) \/
   (exists r, step s = Ok (inr r) /\ Q r)).

Lemma loop_rule p s : I s -> m s < Zpos p -> exists r, loop step p s = Ok r /\ Q r.
Proof.
  intros Hs Hm. apply (loop_indexed step (fun n t => I t /\ n = m t) Q) with (n := m s); [| done | done].
  intros n t [Ht ->]. destruct (step_ok t Ht) as [H0 [(t' & E & Ht' & Hlt)|Hr]]; (split; [done |]); [left | by right].
  by exists t', (m t').
Qed.
End LoopRule.

(** A loop that never leaves. *)
Lemma loop_diverges {S R : Type} (step : S -> res (S + R)) (I : S -> Prop) p s :
  (forall s, I s -> exists s', step s = Ok (inl s') /\ I s') -> I s -> loop step p s = Err OutOfFuel.
Proof.
  intros H Hs. assert (exists s', rounds step p s = Ok (inl s') /\ I s') as (s' & E & _); [| unfold loop; by rewrite E].
  revert s Hs. induction p as [p IH|p IH|]; intros s Hs; cbn [rounds]; [| | by apply H].
  - destruct (H s Hs) as (s1 & -> & H1). cbn. destruct (IH s1 H1) as (s2 & -> & H2). cbn. by apply IH.
  - destruct (IH s Hs) as (s1 & -> & H1). cbn. by apply IH.
Qed.

(** A loop that leaves in its first round, and the partial-correctness rule for
    code that is only known to have returned. *)
Section LoopMore.
Context {S R : Type} (step : S -> res (S + R)).

Lemma rounds_exit p s r : step s = Ok (inr r) -> rounds step p s = Ok (inr r).
Proof.
  revert s. induction p as [p IH|p IH|]; intros s H; cbn [rounds].
  - by rewrite H.
  - by rewrite IH.
  - done.
Qed.

Lemma loop_exit p s r : step s = Ok (inr r) -> loop step p s = Ok r.
Proof. intros H. unfold loop. by rewrite (rounds_exit p s r H). Qed.

Context (I : S -> Prop) (Q : R -> Prop).
Hypothesis step_inl : forall s s', I s -> step s = Ok (inl s') -> I s'.
Hypothesis step_inr : forall s r, I s -> step s = Ok (inr r) -> Q r.

Lemma rounds_returned p : forall s x, I s -> rounds step p s = Ok x ->
  match x with inl s' => I s' | inr r => Q r end.
Proof.
  induction p as [p IH|p IH|]; intros s x Hs H; cbn [rounds] in H.
  - apply bind_Ok_inv in H as ([s1|r] & H1 & H); [| injection H as <-; eauto].
    apply bind_Ok_inv in H as ([s2|r] & H2 & H); [| injection H as <-; apply (IH _ _ (step_inl _ _ Hs H1) H2)].
    apply (IH s2); [| done]. apply (IH _ _ (step_inl _ _ Hs H1) H2).
  - apply bind_Ok_inv in H as ([s1|r] & H1 & H); [| injection H as <-; apply (IH _ _ Hs H1)].
    apply (IH s1); [| done]. apply (IH _ _ Hs H1).
  - destruct x; eauto.
Qed.

Lemma loop_returned p s r : I s -> loop step p s = Ok r -> Q r.
Proof.
  intros Hs H. apply bind_Ok_inv in H as ([s1|x] & H1 & H); [discriminate | injection H as ->].
  apply (rounds_returned p s (inr r) Hs H1).
Qed.
End LoopMore.

(** A loop whose faults are results: the rules for loops that return apply to
    loops that fault. *)
Section Catch.
Context {S R : Type} (step : S -> res (S + R)).

Definition catch (s : S) : res (S + res R) :=
  match step s with
  | Ok (inl s') => Ok (inl s')
  | Ok (inr r) => Ok (inr (Ok r))
  | Err f => Ok (inr (Err f))
  end.

Definition uncatch (x : S + res R) : res (S + R) :=
  match x with inl s => Ok (inl s) | inr (Ok r) => Ok (inr r) | inr (Err f) => Err f end.

Lemma rounds_catch p s x : rounds catch p s = Ok x -> rounds step p s = uncatch x.
Proof.
  assert (forall s y, catch s = Ok y -> step s = uncatch y) as H1.
  { intros t y. unfold catch. destruct (step t) as [[t'|r]|f]; by intros [= <-]. }
  revert s x. induction p as [p IH|p IH|]; intros s x H; cbn [rounds] in *; [| | by apply H1].
  - apply bind_Ok_inv in H as ([s1|[r|f]] & E1 & H); rewrite (H1 _ _ E1); [| by injection H as <- ..].
    apply bind_Ok_inv in H as ([s2|[r|f]] & E2 & H); cbn; rewrite (IH _ _ E2); [| by injection H as <- ..].
    by apply IH.
  - apply bind_Ok_inv in H as ([s1|[r|f]] & E1 & H); rewrite (IH _ _ E1); [| by injection H as <- ..]. by apply IH.
Qed.

Lemma loop_catch p s r : loop catch p s = Ok r -> loop step p s = r.
Proof.
  unfold loop. intros H. apply bind_Ok_inv in H as ([s1|x] & E & H); [discriminate | injection H as ->].
  rewrite (rounds_catch p s _ E). by destruct r.
Qed.
End Catch.

#[global] Arguments loop {S R} step p s : simpl never.

(** The bound used for loops over C arrays: no C object has that many cells. *)
Definition fuel : positive := 2 ^ 64.
Lemma fuel_val : Zpos fuel = 2 ^ 64.
Proof. reflexivity. Qed.
#[global] Arguments fuel : simpl never.
#[global] Strategy opaque [fuel].

(** Simplify the sequencing of results and nothing else.  It rewrites instead of
    computing: a conversion between two [≫=] would make the kernel unfold the
    operation that is sequenced, down to its loops. *)
Create Rewrite HintDb res.
#[export] Hint Rewrite @bind_Ok @bind_Err @deref_Some : res.
#[export] Hint Rewrite c_assert_true : res.
Tactic Notation "res_cbn" := autorewrite with res; cbv beta iota.
Tactic Notation "res_cbn" "in" hyp(H) := autorewrite with res in H; cbv beta iota in H.

(** [for (i = lo; i < hi; i++)] with a body that neither breaks nor returns. *)
Section For.
Context {S : Type} (body : Z -> S -> res S).

Fixpoint for_n (n : nat) (i : Z) (s : S) : res S :=
  match n with
  | O => Ok s
  | Datatypes.S n' => s' ← body i s; for_n n' (i + 1) s'
  end.

Definition for_up (lo hi : Z) (s : S) : res S := for_n (Z.to_nat (hi - lo)) lo s.

Context (I : Z -> S -> Prop).

Lemma for_n_rule n lo s :
  (forall i s, lo <= i < lo + Z.of_nat n -> I i s ->
     exists s', body i s = Ok s' /\ I (i + 1) s') ->
  I lo s -> exists s', for_n n lo s = Ok s' /\ I (lo + Z.of_nat n) s'.
Proof.
  revert lo s. induction n as [|n IH]; intros lo s Hb Hs; cbn [for_n].
  - exists s. by rewrite Z.add_0_r.
  - destruct (Hb lo s) as (s1 & -> & H1); [lia | done |]. cbn.
    destruct (IH (lo + 1) s1) as (s2 & -> & H2); [| done |].
    + intros i t Hi Ht. apply Hb; [lia | done].
    + exists s2. split; [done |].
      by replace (lo + Z.of_nat (Datatypes.S n)) with (lo + 1 + Z.of_nat n) by lia.
Qed.

Lemma for_up_rule lo hi s :
  lo <= hi ->
  (forall i s, lo <= i < hi -> I i s -> exists s', body i s = Ok s' /\ I (i + 1) s') ->
  I lo s -> exists s', for_up lo hi s = Ok s' /\ I hi s'.
Proof.
  intros Hle Hb Hs. unfold for_up.
  destruct (for_n_rule (Z.to_nat (hi - lo)) lo s) as (s' & -> & H'); [| done |].
  - intros i t Hi Ht. apply Hb; [lia | done].
  - exists s'. split; [done |].
    by replace hi with (lo + Z.of_nat (Z.to_nat (hi - lo))) by lia.
Qed.
End For.

(** A [for] loop that faults in round [k]. *)
Section ForErr.
Context {S : Type} (body : Z -> S -> res S) (I : Z -> S -> Prop).

Lemma for_n_app a b lo s : for_n body (a + b) lo s = (for_n body a lo s ≫= for_n body b (lo + Z.of_nat a)).
Proof.
  revert lo s. induction a as [|a IH]; intros lo s; cbn [Nat.add for_n].
  - by rewrite bind_Ok, Z.add_0_r.
  - destruct (body lo s) as [s1|f]; [| done]. rewrite !bind_Ok, IH. do 2 f_equal. lia.
Qed.

Lemma for_up_err lo hi k s f :
  lo <= k < hi ->
  (forall i s, lo <= i < k -> I i s -> exists s', body i s = Ok s' /\ I (i + 1) s') ->
  (forall s, I k s -> body k s = Err f) ->
  I lo s -> for_up body lo hi s = Err f.
Proof.
  intros Hk Hok Herr Hs. unfold for_up.
  replace (Z.to_nat (hi - lo)) with (Z.to_nat (k - lo) + Datatypes.S (Z.to_nat (hi - k - 1)))%nat by lia.
  rewrite for_n_app. destruct (for_n_rule body I (Z.to_nat (k - lo)) lo s) as (s' & -> & H'); [| done |].
  - intros i t Hi. apply Hok. lia.
  - rewrite bind_Ok. cbn [for_n]. replace (lo + Z.of_nat (Z.to_nat (k - lo))) with k in * by lia.
    by rewrite Herr.
Qed.
End ForErr.

(** [for (i = hi; i > lo; i--)] *)
Section ForDown.
Context {S : Type} (body : Z -> S -> res S).

Definition for_down (hi lo : Z) (s : S) : res S :=
  for_n (fun k => body (- k)) (Z.to_nat (hi - lo)) (- hi) s.

Lemma for_down_rule (I : Z -> S -> Prop) hi lo s :
  lo <= hi ->
  (forall i s, lo < i <= hi -> I i s -> exists s', body i s = Ok s' /\ I (i - 1) s') ->
  I hi s -> exists s', for_down hi lo s = Ok s' /\ I lo s'.
Proof.
  intros Hle Hb Hs. unfold for_down.
  destruct (for_n_rule (fun k => body (- k)) (fun k => I (- k))
              (Z.to_nat (hi - lo)) (- hi) s) as (s' & -> & H').
  - intros i t Hi Ht. destruct (Hb (- i) t) as (t' & -> & Ht'); [lia | done |].
    exists t'. split; [done |]. by replace (- (i + 1)) with (- i - 1) by lia.
  - by rewrite Z.opp_involutive.
  - exists s'. split; [done |].
    by replace lo with (- (- hi + Z.of_nat (Z.to_nat (hi - lo)))) by lia.
Qed.
End ForDown.

(** ** Computations that end

    [halts P m]: [m] ends, with a result that satisfies [P] or with a fault of
    the code; it does not use up the bound on its loops. *)
Definition halts {A} (P : A -> Prop) (m : res A) : Prop :=
  match m with Ok a => P a | Err f => f <> OutOfFuel end.

Lemma halts_bind {A B} (P : A -> Prop) (Q : B -> Prop) (m : res A) (k : A -> res B) :
  halts P m -> (forall a, P a -> halts Q (k a)) -> halts Q (m ≫= k).
Proof. destruct m; [rewrite bind_Ok | rewrite bind_Err]; auto. Qed.

Lemma halts_impl {A} (P Q : A -> Prop) (m : res A) : halts P m -> (forall a, P a -> Q a) -> halts Q m.
Proof. destruct m; cbn; auto. Qed.

(** A bind whose first part only has to end. *)
Lemma halts_then {A B} (Q : B -> Prop) (m : res A) (k : A -> res B) :
  halts (fun _ => True) m -> (forall a, halts Q (k a)) -> halts Q (m ≫= k).
Proof. intros H1 H2. eapply halts_bind; [exact H1 | auto]. Qed.

Lemma halts_not_fuel {A} (P : A -> Prop) (m : res A) : halts P m -> m <> Err OutOfFuel.
Proof. intros H ->. by apply H. Qed.

Lemma halts_aget {A} (l : list A) i : halts (fun _ => True) (aget l i).
Proof. unfold aget. destruct (i <? 0); [done |]. by destruct (l !! Z.to_nat i). Qed.

Lemma halts_aset {A} (l : list A) i x : halts (fun _ => True) (aset l i x).
Proof. unfold aset. by destruct (_ || _). Qed.

Lemma halts_deref {A} (p : option A) : halts (fun _ => True) (deref p).
Proof. by destruct p. Qed.

Lemma halts_assert b : halts (fun _ => True) (c_assert b).
Proof. by destruct b. Qed.

Lemma halts_for_up {S} (body : Z -> S -> res S) lo hi s :
  (forall i s, halts (fun _ => True) (body i s)) -> halts (fun _ => True) (for_up body lo hi s).
Proof.
  intros Hb. unfold for_up. generalize (Z.to_nat (hi - lo)). intros n. revert lo s.
  induction n as [|n IH]; intros lo s; cbn [for_n]; [done |]. by apply halts_then.
Qed.

(** A loop ends if every round that goes on decreases a measure. *)
Lemma halts_loop {S R} (step : S -> res (S + R)) (I : S -> Prop) (m : S -> Z) p s :
  (forall s, I s -> 0 <= m s) ->
  (forall s, I s -> halts (fun r => match r with inl s' => I s' /\ m s' < m s | inr _ => True end) (step s)) ->
  I s -> m s < Zpos p -> halts (fun _ => True) (loop step p s).
Proof.
  intros Hm Hstep HI Hp.
  destruct (loop_rule (catch step) I (fun r => halts (fun _ => True) r) m) with (p := p) (s := s) as (r & E & Hr);
    [| done | done | by rewrite (loop_catch step p s r E)].
  intros t Ht. split; [by apply Hm |]. specialize (Hstep t Ht). unfold catch, halts in *.
  destruct (step t) as [[t'|r]|f]; [left | right | right]; eexists; (split; [reflexivity |]); done.
Qed.

Create HintDb halts.
#[export] Hint Resolve halts_aget halts_aset halts_deref halts_assert halts_for_up : halts.

(** ** Machine integers

    [unsigned char] and [unsigned int] wrap round; [int] is a value in
    [[-2^31, 2^31)] whose arithmetic faults on overflow. *)
Definition u8 (x : Z) : Z := x mod 2 ^ 8.
Definition u32 (x : Z) : Z := x mod 2 ^ 32.
Definition s32 (x : Z) : Z := let y := u32 x in if y <? 2 ^ 31 then y else y - 2 ^ 32.

Definition INT_MAX : Z := 2147483647.
Definition INT_MIN : Z := -2147483648.
Definition is_int (x : Z) : bool := (INT_MIN <=? x) && (x <=? INT_MAX).
Definition c_int (x : Z) : res Z := if is_int x then Ok x else Err IntOverflow.

(** Division and remainder of [int]s truncate towards zero. *)
Definition c_div (x y : Z) : res Z := if y =? 0 then Err DivByZero else c_int (Z.quot x y).
Definition c_rem (x y : Z) : res Z :=
  if y =? 0 then Err DivByZero else if is_int (Z.quot x y) then Ok (Z.rem x y) else Err IntOverflow.

Lemma is_int_spec x : is_int x = true <-> INT_MIN <= x <= INT_MAX.
Proof. unfold is_int. rewrite andb_true_iff, !Z.leb_le. done. Qed.

Lemma c_int_Ok x : INT_MIN <= x <= INT_MAX -> c_int x = Ok x.
Proof. intros H. unfold c_int. by rewrite (proj2 (is_int_spec x) H). Qed.

Lemma halts_c_int x : halts (fun y => y = x /\ INT_MIN <= x <= INT_MAX) (c_int x).
Proof. unfold c_int. destruct (is_int x) eqn:E; [| done]. by apply is_int_spec in E. Qed.

Lemma c_div_Ok x y : 0 <= x <= INT_MAX -> 0 < y -> c_div x y = Ok (x / y).
Proof.
  intros Hx Hy. unfold c_div. rewrite (proj2 (Z.eqb_neq y 0)) by lia.
  rewrite Z.quot_div_nonneg by lia. apply c_int_Ok. unfold INT_MIN, INT_MAX in *.
  split; [pose proof (Z.div_pos x y) |]; [lia |].
  transitivity x; [| lia]. apply Z.div_le_upper_bound; nia.
Qed.

Lemma u8_range x : 0 <= u8 x < 256.
Proof. apply Z.mod_pos_bound. lia. Qed.

Lemma u32_range x : 0 <= u32 x < 2 ^ 32.
Proof. apply Z.mod_pos_bound. lia. Qed.

Lemma u8_small x : 0 <= x < 256 -> u8 x = x.
Proof. apply Z.mod_small. Qed.

Lemma u32_small x : 0 <= x < 2 ^ 32 -> u32 x = x.
Proof. apply Z.mod_small. Qed.

Lemma s32_range x : INT_MIN <= s32 x <= INT_MAX.
Proof.
  unfold s32, INT_MIN, INT_MAX. pose proof (u32_range x).
  destruct (Z.ltb_spec (u32 x) (2 ^ 31)); lia.
Qed.

Lemma s32_u32 x : INT_MIN <= x <= INT_MAX -> s32 (u32 x) = x.
Proof.
  unfold s32, INT_MIN, INT_MAX, u32. intros H. rewrite Z.mod_mod by lia.
  destruct (Z.le_gt_cases 0 x).
  - rewrite Z.mod_small by lia. by rewrite (proj2 (Z.ltb_lt _ _)) by lia.
  - replace (x mod 2 ^ 32) with (x + 2 ^ 32)
      by (rewrite <- (Z.mod_small (x + 2 ^ 32) (2 ^ 32)) by lia;
          by rewrite <- Zplus_mod_idemp_r, Z.mod_same, Z.add_0_r by lia).
    rewrite (proj2 (Z.ltb_ge _ _)) by lia. lia.
Qed.

Lemma s32_small x : 0 <= x <= INT_MAX -> s32 x = x.
Proof.
  unfold s32, INT_MAX. intros H. rewrite u32_small by lia. by rewrite (proj2 (Z.ltb_lt _ _)) by lia.
Qed.

Lemma u32_s32 x : u32 (s32 x) = u32 x.
Proof.
  unfold s32. destruct (Z.ltb_spec (u32 x) (2 ^ 31)); unfold u32.
  - by rewrite Z.mod_mod by lia.
  - rewrite <- Zminus_mod_idemp_r, Z.mod_same, Z.sub_0_r by lia. by rewrite Z.mod_mod by lia.
Qed.

(** ** Automation *)
Create Rewrite HintDb zlen.
#[export] Hint Rewrite @zlen_app @zlen_cons @zlen_nil @zlen_insert @zlen_replicate : zlen.

(** Turn boolean comparisons of the code into propositions. *)
Ltac bool_to_prop :=
  repeat match goal with
  | H : (_ && _)%bool = true |- _ => apply andb_true_iff in H; destruct H
  | H : (_ || _)%bool = false |- _ => apply orb_false_iff in H; destruct H
  | H : negb _ = true |- _ => apply negb_true_iff in H
  | H : negb _ = false |- _ => apply negb_false_iff in H
  | H : (_ <? _) = true |- _ => apply Z.ltb_lt in H
  | H : (_ <? _) = false |- _ => apply Z.ltb_ge in H
  | H : (_ <=? _) = true |- _ => apply Z.leb_le in H
  | H : (_ <=? _) = false |- _ => apply Z.leb_gt in H
  | H : (_ =? _) = true |- _ => apply Z.eqb_eq in H
  | H : (_ =? _) = false |- _ => apply Z.eqb_neq in H
  end.

(** Case split on the [if]s of the goal whose test is an integer comparison. *)
Ltac case_Z :=
  match goal with
  | |- context [?a <? ?b] => destruct (Z.ltb_spec a b)
  | |- context [?a <=? ?b] => destruct (Z.leb_spec a b)
  | |- context [?a =? ?b] => destruct (Z.eqb_spec a b)
  end.

(** Step through a successful bind in a hypothesis. *)
Ltac inv_bind H :=
  let a := fresh "a" in let Ha := fresh "Ha" in
  apply bind_Ok_inv in H; destruct H as (a & Ha & H).

(** Apply the rule of the [for] loop (or loop) in the goal with an invariant;
    the first goals are the rule's premises, the last one the rest. *)
Tactic Notation "for_up_with" uconstr(I) ident(s) ident(E) ident(H) :=
  match goal with
  | |- context [for_up ?b ?lo ?hi ?s0] =>
      destruct (for_up_rule b I lo hi s0) as (s & E & H); [| | | rewrite E; res_cbn]
  end.

Tactic Notation "for_down_with" uconstr(I) ident(s) ident(E) ident(H) :=
  match goal with
  | |- context [for_down ?b ?hi ?lo ?s0] =>
      destruct (for_down_rule b I hi lo s0) as (s & E & H); [| | | rewrite E; res_cbn]
  end.

Tactic Notation "loop_with" uconstr(I) uconstr(Q) uconstr(m) ident(r) ident(E) ident(H) :=
  match goal with
  | |- context [loop ?st ?pp ?s0] =>
      destruct (loop_rule st I Q m) with (p := pp) (s := s0) as (r & E & H);
        [| | | rewrite E; res_cbn]
  end.

(** ** The library function [bsearch]

    [compar i] compares the key with element [i] of [nmemb]. *)
Definition bsearch_round (compar : Z -> res Z) (st : Z * Z) : res (Z * Z + option Z) :=
  let '(l, u) := st in
  if l <? u then
    let idx := (l + u) / 2 in
    c ← compar idx;
    if c <? 0 then Ok (inl (l, idx))
    else if 0 <? c then Ok (inl (idx + 1, u))
    else Ok (inr (Some idx))
  else Ok (inr None).

Definition bsearch (compar : Z -> res Z) (nmemb : Z) : res (option Z) :=
  loop (bsearch_round compar) fuel (0, nmemb).

Lemma bsearch_ok compar n (hit : Z -> Prop) :
  0 <= n < 2 ^ 31 ->
  (forall i, 0 <= i < n -> exists c, compar i = Ok c /\
     (c = 0 -> hit i) /\
     (c < 0 -> forall j, i <= j < n -> ~ hit j) /\ (0 < c -> forall j, 0 <= j <= i -> ~ hit j)) ->
  exists o, bsearch compar n = Ok o /\
    match o with Some i => 0 <= i < n /\ hit i | None => forall i, 0 <= i < n -> ~ hit i end.
Proof.
  intros Hn Hc. unfold bsearch.
  loop_with (fun '(l, u) => 0 <= l <= u /\ u <= n /\ forall i, 0 <= i < n -> i < l \/ u <= i -> ~ hit i)
    (fun o => match o with Some i => 0 <= i < n /\ hit i | None => forall i, 0 <= i < n -> ~ hit i end)
    (fun '(l, u) => u - l : Z) r E H.
  - intros [l u] (Hl & Hu & Hex). split; [lia |]. unfold bsearch_round.
    destruct (Z.ltb_spec l u) as [Hlt|Hge]; cycle 1.
    { right. eexists. split; [reflexivity |]. intros i Hi. apply Hex; lia. }
    set (idx := (l + u) / 2). assert (2 * idx <= l + u <= 2 * idx + 1) as Hidx by (subst idx; Z.div_mod_to_equations; lia).
    destruct (Hc idx ltac:(lia)) as (c & -> & H0 & Hlo & Hhi). res_cbn.
    destruct (Z.ltb_spec c 0) as [Hc0|Hc0].
    { left. eexists. split; [reflexivity |]. split; [| lia]. split; [lia |]. split; [lia |].
      intros i Hi [Hi'|Hi']; [apply Hex; lia | apply Hlo; lia]. }
    destruct (Z.ltb_spec 0 c) as [Hc1|Hc1].
    { left. eexists. split; [reflexivity |]. split; [| lia]. split; [lia |]. split; [lia |].
      intros i Hi [Hi'|Hi']; [apply Hhi; lia | apply Hex; lia]. }
    right. eexists. split; [reflexivity |]. split; [lia | apply H0; lia].
  - split; [lia |]. split; [lia |]. intros i Hi. lia.
  - rewrite fuel_val. lia.
  - by exists r.
Qed.

(** ** Sorted arrays *)

Lemma sorted_aget {A} (P : A -> A -> Prop) l : StronglySorted P l <->
  forall i j x y, i < j -> aget l i = Ok x -> aget l j = Ok y -> P x y.
Proof.
  split.
  - induction 1 as [|a l Hs IH Hf]; intros i j x y Hij Hi Hj; [by apply aget_nil in Hi |].
    pose proof (aget_range _ _ _ Hi) as Ri. pose proof (aget_range _ _ _ Hj) as Rj.
    assert (forall k z, 0 < k -> aget (a :: l) k = Ok z -> aget l (k - 1) = Ok z) as Htl.
    { intros k z Hk [_ E]%aget_Ok. apply aget_lookup; [lia |]. replace (Z.to_nat k) with (S (Z.to_nat (k - 1))) in E by lia. done. }
    destruct (Z.eq_dec i 0) as [->|Hne].
    + apply aget_Ok in Hi as [_ [= ->]]. rewrite List.Forall_forall in Hf. apply Hf. apply (Htl j y) in Hj; [| lia].
      apply aget_Ok in Hj as [_ Hj]. apply list_elem_of_In. by apply list_elem_of_lookup_2 in Hj.
    + apply (IH (i - 1) (j - 1)); [lia | apply Htl; [lia | done] | apply Htl; [lia | done]].
  - induction l as [|a l IH]; intros H; [constructor |]. constructor.
    + apply IH. intros i j x y Hij Hi Hj. pose proof (aget_range _ _ _ Hi). apply (H (i + 1) (j + 1)); [lia | |].
      * apply aget_Ok in Hi as [? Hi]. apply aget_lookup; [lia |]. by replace (Z.to_nat (i + 1)) with (S (Z.to_nat i)) by lia.
      * apply aget_Ok in Hj as [? Hj]. apply aget_lookup; [lia |]. by replace (Z.to_nat (j + 1)) with (S (Z.to_nat j)) by lia.
    + apply List.Forall_forall. intros y Hy%list_elem_of_In. apply list_elem_of_lookup in Hy as [j Hj].
      apply (H 0 (Z.of_nat (S j))); [lia | done | by apply aget_nat].
Qed.
