(* ===== verification/Bits.v ===== *)
(** * Bit sequences

    Lists of bits, most significant bit first: the abstract view of what the
    bit-level files and streams of cl/bitio.c carry.  [bits n x] are the [n]
    low bits of [x], [of_bits l] the number a sequence spells. *)

From Stdlib Require Import ZArith Lia.
From stdpp Require Import base tactics option list numbers.
From S2P Require Import Prelude.

Fixpoint bits (n : nat) (x : Z) : list bool :=
  match n with O => [] | S k => Z.testbit x (Z.of_nat k) :: bits k x end.

Definition snoc_bit (acc : Z) (b : bool) : Z := 2 * acc + Z.b2z b.

Definition of_bits (l : list bool) : Z := fold_left snoc_bit l 0.

(** The eight bits of each byte of a file, in order. *)
Definition byte_bits (l : list Z) : list bool := l ≫= bits 8.

Definition is_byte (x : Z) : Prop := 0 <= x < 256.

Lemma length_bits n x : length (bits n x) = n.
Proof. induction n; simpl; congruence. Qed.

Lemma zlen_bits n x : zlen (bits n x) = Z.of_nat n.
Proof. unfold zlen. by rewrite length_bits. Qed.

Lemma bits_ext n x y :
  (forall k, 0 <= k < Z.of_nat n -> Z.testbit x k = Z.testbit y k) -> bits n x = bits n y.
Proof.
  induction n as [|n IH]; intros H; [done |]. simpl. f_equal.
  - apply H; lia.
  - apply IH. intros; apply H; lia.
Qed.

Lemma bits_mod n m x : (n <= m)%nat -> bits n (x mod 2 ^ Z.of_nat m) = bits n x.
Proof. intros. apply bits_ext. intros k Hk. rewrite Z.mod_pow2_bits_low; [done | lia]. Qed.

Lemma bits_app m n x : bits (m + n) x = bits m (Z.shiftr x (Z.of_nat n)) ++ bits n x.
Proof.
  induction m as [|m IH]; [done |]. simpl. rewrite IH. f_equal.
  rewrite Z.shiftr_spec by lia. f_equal. lia.
Qed.

Lemma fold_snoc_bit l acc :
  fold_left snoc_bit l acc = acc * 2 ^ Z.of_nat (length l) + of_bits l.
Proof.
  revert acc. induction l as [|b l IH]; intros acc; [simpl; unfold of_bits; simpl; lia |].
  unfold of_bits. simpl. rewrite !IH. unfold snoc_bit.
  rewrite Nat2Z.inj_succ, Z.pow_succ_r by lia. ring.
Qed.

Lemma of_bits_app l k : of_bits (l ++ k) = of_bits l * 2 ^ Z.of_nat (length k) + of_bits k.
Proof. unfold of_bits at 1. rewrite fold_left_app. apply fold_snoc_bit. Qed.

Lemma of_bits_cons b l : of_bits (b :: l) = Z.b2z b * 2 ^ Z.of_nat (length l) + of_bits l.
Proof. apply (of_bits_app [b] l). Qed.

Lemma of_bits_snoc l b : of_bits (l ++ [b]) = 2 * of_bits l + Z.b2z b.
Proof. unfold of_bits. rewrite fold_left_app. reflexivity. Qed.

Lemma of_bits_range l : 0 <= of_bits l < 2 ^ Z.of_nat (length l).
Proof.
  induction l as [|b l IH]; [unfold of_bits; simpl; lia |].
  rewrite of_bits_cons. simpl length. rewrite Nat2Z.inj_succ, Z.pow_succ_r by lia.
  destruct b; simpl Z.b2z; lia.
Qed.

Lemma testbit_mod_split x n :
  0 <= n -> x mod 2 ^ (n + 1) = Z.b2z (Z.testbit x n) * 2 ^ n + x mod 2 ^ n.
Proof.
  intros Hn. rewrite Z.testbit_spec' by done.
  rewrite Z.pow_add_r, Z.pow_1_r by lia.
  assert (0 < 2 ^ n) by (apply Z.pow_pos_nonneg; lia).
  rewrite Z.rem_mul_r by lia. ring.
Qed.

Lemma of_bits_bits n x : of_bits (bits n x) = x mod 2 ^ Z.of_nat n.
Proof.
  induction n as [|n IH].
  - simpl. by rewrite Z.mod_1_r.
  - simpl bits. rewrite of_bits_cons, length_bits, IH, Nat2Z.inj_succ.
    unfold Z.succ. by rewrite testbit_mod_split by lia.
Qed.

Lemma of_bits_bits_small n x : 0 <= x < 2 ^ Z.of_nat n -> of_bits (bits n x) = x.
Proof. intros. rewrite of_bits_bits. by apply Z.mod_small. Qed.

Lemma bits_of_bits l : bits (length l) (of_bits l) = l.
Proof.
  induction l as [|b l IH]; [done |].
  simpl bits. pose proof (of_bits_range l) as R. f_equal.
  - rewrite of_bits_cons.
    rewrite Z.testbit_odd, Z.shiftr_div_pow2, Z.div_add_l, (Z.div_small (of_bits l)), Z.add_0_r by lia.
    by destruct b.
  - etransitivity; [| exact IH]. apply bits_ext. intros k Hk.
    rewrite of_bits_cons.
    rewrite <- (Z.mod_pow2_bits_low _ (Z.of_nat (length l))) by lia.
    rewrite Z.add_comm, Z_mod_plus_full. by rewrite Z.mod_pow2_bits_low by lia.
Qed.

Lemma bits_inj n x y :
  0 <= x < 2 ^ Z.of_nat n -> 0 <= y < 2 ^ Z.of_nat n -> bits n x = bits n y -> x = y.
Proof.
  intros Hx Hy H. rewrite <- (of_bits_bits_small n x), <- (of_bits_bits_small n y) by done.
  by rewrite H.
Qed.

Lemma bits_0 n : bits n 0 = replicate n false.
Proof. induction n; simpl; [done |]. by rewrite Z.testbit_0_l, IHn. Qed.

Lemma length_byte_bits l : length (byte_bits l) = (8 * length l)%nat.
Proof.
  unfold byte_bits. induction l as [|x l IH]; [done |].
  rewrite bind_cons, length_app, IH, length_bits. simpl. lia.
Qed.

Lemma byte_bits_app l k : byte_bits (l ++ k) = byte_bits l ++ byte_bits k.
Proof. apply bind_app. Qed.

Lemma byte_bits_singleton x : byte_bits [x] = bits 8 x.
Proof. reflexivity. Qed.

Lemma byte_bits_cons x l : byte_bits (x :: l) = bits 8 x ++ byte_bits l.
Proof. reflexivity. Qed.

Lemma byte_bits_inj l k :
  Forall is_byte l -> Forall is_byte k -> byte_bits l = byte_bits k -> l = k.
Proof.
  intros Hl. revert k. induction Hl as [|x l Hx Hl IH]; intros k Hk E.
  - destruct k; [done |]. apply (f_equal length) in E.
    rewrite !length_byte_bits in E. simpl in E. lia.
  - destruct Hk as [|y k Hy Hk]; [apply (f_equal length) in E;
      rewrite !length_byte_bits in E; simpl in E; lia |].
    rewrite !byte_bits_cons in E.
    apply app_inj_1 in E as [E1 E2]; [| by rewrite !length_bits].
    f_equal; [| by apply IH]. apply (bits_inj 8); done.
Qed.
