(* ===== verification/Storage.v ===== *)
(** * Integers on disk: cl/endian.c and cl/storage.c

    The 4 bytes an [int] occupies in memory (on a big- or a little-endian
    machine), the byte swap [cl_bswap32], a model of the stdio streams the
    corpus library writes, and [NwriteInt], [NreadInt], [NwriteInts],
    [NreadInts], which store 32-bit integers in network byte order. *)

From Stdlib Require Import ZArith Lia.
From stdpp Require Import base tactics option list numbers.
From S2P Require Import Prelude Bits.

(** ** Bytes of a 32-bit word *)

Definition byte_of (x : Z) (k : Z) : Z := Z.land (Z.shiftr x (8 * k)) 255.

(** Most significant byte first: network byte order. *)
Definition be_bytes (x : Z) : list Z := [byte_of x 3; byte_of x 2; byte_of x 1; byte_of x 0].

Definition of_be_bytes (l : list Z) : Z := fold_left (fun acc b => 256 * acc + b) l 0.

(** The memory image of an [unsigned int], and the value a memory image has. *)
Definition native_bytes (bigendian : bool) (x : Z) : list Z :=
  if bigendian then be_bytes x else reverse (be_bytes x).

Definition of_native_bytes (bigendian : bool) (l : list Z) : Z :=
  if bigendian then of_be_bytes l else of_be_bytes (reverse l).

(** [htonl] and [ntohl] of the system library: the result's memory image is
    the argument in network byte order, and conversely. *)
Definition htonl (bigendian : bool) (x : Z) : Z := of_native_bytes bigendian (be_bytes x).
Definition ntohl (bigendian : bool) (x : Z) : Z := of_be_bytes (native_bytes bigendian x).

(** ** cl/endian.c *)

(** Each step shifts the bytes collected so far and adds the next one; the
    result is the [int] those 32 bits denote.  The last shift leaves the range of [int] for most
    numbers, which C does not define: the model is the code as gcc and clang compile it, which keep the low 32 bits. *)
Definition cl_bswap32 (x : Z) : Z :=
  let y := Z.land x 255 in
  let y := s32 (Z.shiftl y 8 + Z.land (Z.shiftr x 8) 255) in
  let y := s32 (Z.shiftl y 8 + Z.land (Z.shiftr x 16) 255) in
  let y := s32 (Z.shiftl y 8 + Z.land (Z.shiftr x 24) 255) in
  y.

(** ** stdio streams

    A stream is its contents, the read offset, the number of bytes the device
    still accepts and the error indicator; [fwrite] and [fread] move one item
    of [n] bytes, [fflush] reports the failure of an earlier write. *)
Record FILE := mkFILE {
  contents : list Z;
  rpos : nat;
  quota : Z;
  failed : bool
}.

Definition fwrite1 (item : list Z) (f : FILE) : Z * FILE :=
  if zlen item <=? quota f
  then (1, mkFILE (contents f ++ item) (rpos f) (quota f - zlen item) (failed f))
  else (0, mkFILE (contents f) (rpos f) (quota f) true).

Definition fflush (f : FILE) : Z := if failed f then -1 else 0.

Definition fread1 (n : nat) (f : FILE) : option (list Z) * FILE :=
  if (rpos f + n <=? length (contents f))%nat
  then (Some (take n (drop (rpos f) (contents f))), mkFILE (contents f) (rpos f + n) (quota f) (failed f))
  else (None, mkFILE (contents f) (length (contents f)) (quota f) (failed f)).

(** ** cl/storage.c *)
Section Storage.
Context (bigendian : bool).

Definition NwriteInt (val : Z) (fd : FILE) : res FILE :=
  let word := htonl bigendian val in
  let (n, fd') := fwrite1 (native_bytes bigendian word) fd in
  if n =? 1 then Ok fd' else Err ExitCall.

Definition NreadInt (fd : FILE) : res (Z * FILE) :=
  match fread1 4 fd with
  | (Some b, fd') => Ok (s32 (ntohl bigendian (of_native_bytes bigendian b)), fd')
  | (None, _) => Err ExitCall
  end.

Definition NwriteInts (vals : list Z) (nr_vals : Z) (fd : FILE) : res FILE :=
  for_up (fun k fd =>
    v ← aget vals k;
    let word := htonl bigendian v in
    let (n, fd') := fwrite1 (native_bytes bigendian word) fd in
    if n =? 1 then Ok fd' else Err ExitCall) 0 nr_vals fd.

Definition NreadInts (vals : list Z) (nr_vals : Z) (fd : FILE) : res (list Z * FILE) :=
  for_up (fun k '(vals, fd) =>
    match fread1 4 fd with
    | (Some b, fd') =>
        vals' ← aset vals k (s32 (ntohl bigendian (of_native_bytes bigendian b)));
        Ok (vals', fd')
    | (None, _) => Err ExitCall
    end) 0 nr_vals (vals, fd).
End Storage.

(** ** Byte lemmas *)

Lemma byte_of_mod x k : 0 <= k -> byte_of x k = (x / 2 ^ (8 * k)) mod 256.
Proof.
  intros. unfold byte_of. rewrite Z.shiftr_div_pow2 by lia.
  change 255 with (Z.ones 8). by rewrite Z.land_ones by lia.
Qed.

Lemma byte_of_range x k : is_byte (byte_of x k).
Proof.
  unfold is_byte, byte_of. change 255 with (Z.ones 8). rewrite Z.land_ones by lia.
  apply Z.mod_pos_bound. lia.
Qed.

Lemma u32_bytes x :
  u32 x = byte_of x 0 + 2 ^ 8 * byte_of x 1 + 2 ^ 16 * byte_of x 2 + 2 ^ 24 * byte_of x 3.
Proof.
  rewrite !byte_of_mod by lia. unfold u32.
  change (8 * 0) with 0; change (8 * 1) with 8; change (8 * 2) with 16; change (8 * 3) with 24.
  rewrite Z.div_1_r. Z.div_mod_to_equations. lia.
Qed.

Lemma of_be_bytes_4 a b c d : of_be_bytes [a; b; c; d] = 2 ^ 24 * a + 2 ^ 16 * b + 2 ^ 8 * c + d.
Proof. unfold of_be_bytes. cbn [fold_left]. lia. Qed.

Lemma of_be_bytes_be_bytes x : of_be_bytes (be_bytes x) = u32 x.
Proof. unfold be_bytes. rewrite of_be_bytes_4, u32_bytes. lia. Qed.

Lemma byte_of_word a b c d :
  is_byte a -> is_byte b -> is_byte c -> is_byte d ->
  be_bytes (2 ^ 24 * a + 2 ^ 16 * b + 2 ^ 8 * c + d) = [a; b; c; d].
Proof.
  unfold is_byte, be_bytes. intros. rewrite !byte_of_mod by lia.
  change (8 * 0) with 0; change (8 * 1) with 8; change (8 * 2) with 16; change (8 * 3) with 24.
  rewrite Z.div_1_r.
  repeat f_equal; Z.div_mod_to_equations; lia.
Qed.

Lemma be_bytes_of_be_bytes l : length l = 4%nat -> Forall is_byte l -> be_bytes (of_be_bytes l) = l.
Proof.
  intros Hl Hb. destruct l as [|a [|b [|c [|d [|]]]]]; try done.
  rewrite of_be_bytes_4. inversion_clear Hb as [|? ? ? Hb1]; inversion_clear Hb1 as [|? ? ? Hb2].
  inversion_clear Hb2 as [|? ? ? Hb3]; inversion_clear Hb3. by apply byte_of_word.
Qed.

Lemma length_native_bytes be x : length (native_bytes be x) = 4%nat.
Proof. by destruct be. Qed.

Lemma native_bytes_range be x : Forall is_byte (native_bytes be x).
Proof.
  assert (Forall is_byte (be_bytes x)) by (repeat constructor; apply byte_of_range).
  destruct be; simpl; [done | by apply Forall_reverse].
Qed.

Lemma be_bytes_range x : Forall is_byte (be_bytes x).
Proof. apply (native_bytes_range true). Qed.

Lemma native_of_native be l :
  length l = 4%nat -> Forall is_byte l -> native_bytes be (of_native_bytes be l) = l.
Proof.
  intros Hl Hb. destruct be; simpl.
  - by apply be_bytes_of_be_bytes.
  - rewrite be_bytes_of_be_bytes, reverse_involutive; [done | by rewrite length_reverse |].
    by apply Forall_reverse.
Qed.

Lemma of_native_native be x : of_native_bytes be (native_bytes be x) = u32 x.
Proof.
  destruct be; simpl; [apply of_be_bytes_be_bytes |].
  unfold native_bytes. rewrite reverse_involutive. apply of_be_bytes_be_bytes.
Qed.

(** What [htonl] puts in memory, and what [ntohl] makes of it. *)
Lemma native_htonl be x : native_bytes be (htonl be x) = be_bytes x.
Proof. apply native_of_native; [done | apply be_bytes_range]. Qed.

Lemma ntohl_of_native be l :
  length l = 4%nat -> Forall is_byte l -> ntohl be (of_native_bytes be l) = of_be_bytes l.
Proof. intros. unfold ntohl. by rewrite native_of_native. Qed.

Lemma ntohl_htonl be x : ntohl be (htonl be x) = u32 x.
Proof. unfold ntohl. rewrite native_htonl. apply of_be_bytes_be_bytes. Qed.

Lemma byte_of_shift x k j : 0 <= k -> 0 <= j -> byte_of (Z.shiftr x (8 * k)) j = byte_of x (k + j).
Proof. intros. unfold byte_of. rewrite Z.shiftr_shiftr by lia. do 2 f_equal. lia. Qed.

Lemma byte_of_0 x : byte_of x 0 = Z.land x 255.
Proof. unfold byte_of. by rewrite Z.shiftr_0_r. Qed.

Lemma s32_byte_of x k : 0 <= k < 4 -> byte_of (s32 x) k = byte_of x k.
Proof.
  intros Hk. rewrite !byte_of_mod by lia.
  rewrite <- !Z.shiftr_div_pow2 by lia. change 256 with (2 ^ 8).
  apply Z.bits_inj'. intros n Hn.
  destruct (Z.ltb_spec n 8); [| by rewrite !Z.mod_pow2_bits_high by lia].
  rewrite !Z.mod_pow2_bits_low, !Z.shiftr_spec by lia.
  rewrite <- (Z.mod_pow2_bits_low (s32 x) 32), <- (Z.mod_pow2_bits_low x 32) by lia.
  by rewrite (u32_s32 x : s32 x mod 2 ^ 32 = x mod 2 ^ 32).
Qed.

Lemma be_bytes_s32 x : be_bytes (s32 x) = be_bytes x.
Proof. unfold be_bytes. by rewrite !s32_byte_of by lia. Qed.

(** One step of the swap: the bytes move up, a new low byte comes in. *)
Lemma byte_of_push y b :
  is_byte b -> let y' := s32 (Z.shiftl y 8 + b) in
  byte_of y' 0 = b /\ byte_of y' 1 = byte_of y 0 /\
  byte_of y' 2 = byte_of y 1 /\ byte_of y' 3 = byte_of y 2.
Proof.
  unfold is_byte. intros Hb. cbn zeta. rewrite !s32_byte_of by lia.
  rewrite !byte_of_mod, Z.shiftl_mul_pow2 by lia.
  change (8 * 0) with 0; change (8 * 1) with 8; change (8 * 2) with 16; change (8 * 3) with 24.
  rewrite !Z.div_1_r. repeat split; Z.div_mod_to_equations; lia.
Qed.

Lemma be_bytes_bswap32 x : be_bytes (cl_bswap32 x) = reverse (be_bytes x).
Proof.
  unfold cl_bswap32.
  change (Z.land (Z.shiftr x 8) 255) with (byte_of x 1).
  change (Z.land (Z.shiftr x 16) 255) with (byte_of x 2).
  change (Z.land (Z.shiftr x 24) 255) with (byte_of x 3).
  rewrite <- (byte_of_0 x).
  set (y1 := s32 (Z.shiftl (byte_of x 0) 8 + byte_of x 1)).
  set (y2 := s32 (Z.shiftl y1 8 + byte_of x 2)).
  destruct (byte_of_push (byte_of x 0) (byte_of x 1)) as (A0 & A1 & A2 & A3);
    [apply byte_of_range |].
  destruct (byte_of_push y1 (byte_of x 2)) as (B0 & B1 & B2 & B3); [apply byte_of_range |].
  destruct (byte_of_push y2 (byte_of x 3)) as (C0 & C1 & C2 & C3); [apply byte_of_range |].
  unfold be_bytes. cbn [reverse rev_append rev]. fold y1 in A0, A1.
  fold y2 in B0, B1, B2. rewrite C0, C1, C2, C3, B0, B1, B2, A0, A1.
  assert (byte_of (byte_of x 0) 0 = byte_of x 0) as ->; [| reflexivity].
  rewrite byte_of_0. change 255 with (Z.ones 8). rewrite Z.land_ones by lia.
  apply Z.mod_small, byte_of_range.
Qed.

Lemma be_bytes_inj x y : be_bytes x = be_bytes y -> u32 x = u32 y.
Proof. intros H. by rewrite <- !of_be_bytes_be_bytes, H. Qed.

(** [cl_bswap32] is the byte swap its name promises: the four bytes of the
    result are those of the argument in reverse order, the result is an [int],
    and swapping twice gives the argument back. *)
Theorem cl_bswap32_correct (x : Z) :
  INT_MIN <= x <= INT_MAX ->
  be_bytes (cl_bswap32 x) = reverse (be_bytes x) /\
  INT_MIN <= cl_bswap32 x <= INT_MAX /\
  cl_bswap32 (cl_bswap32 x) = x.
Proof.
  intros Hx. split; [apply be_bytes_bswap32 |]. split; [apply s32_range |].
  rewrite <- (s32_u32 x) by done.
  assert (u32 (cl_bswap32 (cl_bswap32 x)) = u32 x) as E.
  { apply be_bytes_inj. by rewrite !be_bytes_bswap32, reverse_involutive. }
  rewrite (s32_u32 x) by done. rewrite <- (s32_u32 x) at 2 by done. rewrite <- E.
  symmetry. apply s32_u32, s32_range.
Qed.

Lemma cl_bswap32_correct_witness : cl_bswap32 (cl_bswap32 (-559038737)) = -559038737.
Proof.
  destruct (cl_bswap32_correct (-559038737)) as (_ & _ & H); [vm_compute; split; discriminate |].
  exact H.
Defined.

(** *** Storing and loading integers *)

Lemma fwrite1_Ok item f :
  zlen item <= quota f ->
  fwrite1 item f = (1, mkFILE (contents f ++ item) (rpos f) (quota f - zlen item) (failed f)).
Proof. intros. unfold fwrite1. by rewrite (proj2 (Z.leb_le _ _)). Qed.

Lemma fread1_Ok pre item post f :
  contents f = pre ++ item ++ post -> rpos f = length pre ->
  fread1 (length item) f =
    (Some item, mkFILE (contents f) (length (pre ++ item)) (quota f) (failed f)).
Proof.
  intros Hc Hr. unfold fread1. rewrite Hc, Hr, !length_app.
  rewrite (proj2 (Nat.leb_le _ _)) by lia.
  by rewrite drop_app_length, take_app_length.
Qed.

Lemma NwriteInt_Ok be val fd :
  4 <= quota fd ->
  NwriteInt be val fd = Ok (mkFILE (contents fd ++ be_bytes val) (rpos fd) (quota fd - 4) (failed fd)).
Proof.
  intros Hq. unfold NwriteInt. rewrite native_htonl, fwrite1_Ok by (unfold zlen; simpl; lia).
  reflexivity.
Qed.

Lemma load_int be v : INT_MIN <= v <= INT_MAX ->
  s32 (ntohl be (of_native_bytes be (be_bytes v))) = v.
Proof.
  intros. rewrite ntohl_of_native, of_be_bytes_be_bytes by (done || apply be_bytes_range).
  by apply s32_u32.
Qed.

Lemma NreadInt_Ok be pre val post fd :
  INT_MIN <= val <= INT_MAX ->
  contents fd = pre ++ be_bytes val ++ post -> rpos fd = length pre ->
  NreadInt be fd =
    Ok (val, mkFILE (contents fd) (length (pre ++ be_bytes val)) (quota fd) (failed fd)).
Proof.
  intros Hv Hc Hr. unfold NreadInt.
  change 4%nat with (length (be_bytes val)). erewrite fread1_Ok by done. by rewrite load_int.
Qed.

Lemma NwriteInts_Ok be vals nr fd :
  0 <= nr <= zlen vals -> 4 * nr <= quota fd ->
  NwriteInts be vals nr fd =
    Ok (mkFILE (contents fd ++ (take (Z.to_nat nr) vals ≫= be_bytes)) (rpos fd)
           (quota fd - 4 * nr) (failed fd)).
Proof.
  intros Hn Hq. unfold NwriteInts.
  for_up_with (fun i f => f = mkFILE (contents fd ++ (take (Z.to_nat i) vals ≫= be_bytes)) (rpos fd)
                      (quota fd - 4 * i) (failed fd)) f E Hf.
  - lia.
  - intros i f Hi ->.
    destruct (aget_total vals i) as (v & -> & Hv); [lia |]. cbn.
    rewrite native_htonl, fwrite1_Ok by (unfold zlen; simpl; lia). cbn.
    eexists. split; [reflexivity |]. f_equal.
    + rewrite <- app_assoc. f_equal. replace (Z.to_nat (i + 1)) with (S (Z.to_nat i)) by lia.
      rewrite (take_S_r _ _ v) by done. rewrite bind_app. f_equal.
    + unfold zlen; simpl; lia.
  - simpl. rewrite app_nil_r, Z.sub_0_r. by destruct fd.
  - by rewrite Hf.
Qed.

Lemma length_bind_be_bytes vals : length (vals ≫= be_bytes) = (4 * length vals)%nat.
Proof.
  induction vals as [|v vals IH]; [done |].
  rewrite bind_cons, length_app, IH. simpl. lia.
Qed.

Lemma NreadInts_Ok be pre vals post buf fd :
  Forall (fun v => INT_MIN <= v <= INT_MAX) vals -> zlen buf = zlen vals ->
  contents fd = pre ++ (vals ≫= be_bytes) ++ post -> rpos fd = length pre ->
  NreadInts be buf (zlen vals) fd =
    Ok (vals, mkFILE (contents fd) (length (pre ++ (vals ≫= be_bytes))) (quota fd) (failed fd)).
Proof.
  intros Hv Hb Hc Hr. unfold NreadInts.
  for_up_with (fun i '(a, f) => a = take (Z.to_nat i) vals ++ drop (Z.to_nat i) buf /\
        f = mkFILE (contents fd) (length (pre ++ (take (Z.to_nat i) vals ≫= be_bytes))) (quota fd)
              (failed fd))
    af E Haf.
  - apply zlen_nonneg.
  - intros i [a f] Hi [-> ->].
    destruct (aget_total vals i Hi) as (v & _ & Hiv).
    assert (drop (Z.to_nat i) vals = v :: drop (S (Z.to_nat i)) vals) as Hd by by apply drop_S.
    assert (exists w, drop (Z.to_nat i) buf = w :: drop (S (Z.to_nat i)) buf) as [w Hw].
    { destruct (aget_total buf i) as (w & _ & Hw); [lia |]. exists w. by apply drop_S. }
    change 4%nat with (length (be_bytes v)).
    erewrite (fread1_Ok (pre ++ (take (Z.to_nat i) vals ≫= be_bytes)) (be_bytes v)
       ((drop (S (Z.to_nat i)) vals ≫= be_bytes) ++ post)); [| | done].
    + rewrite load_int by (eapply (Forall_lookup_1 _ _ _ _ Hv); done).
      assert (i = zlen (take (Z.to_nat i) vals)) as Hlen.
      { unfold zlen in *. rewrite length_take. lia. }
      rewrite Hw, aset_middle by done. cbn.
      eexists (_, _). split; [reflexivity |]. replace (Z.to_nat (i + 1)) with (S (Z.to_nat i)) by lia.
      rewrite (take_S_r _ _ v) by done. split; [by rewrite <- app_assoc |].
      by rewrite bind_app, <- app_assoc.
    + cbn. rewrite Hc. rewrite <- (take_drop (Z.to_nat i) vals) at 1.
      rewrite bind_app, Hd, bind_cons. by rewrite <- !app_assoc.
  - simpl. split; [done |]. rewrite app_nil_r, <- Hr. by destruct fd.
  - destruct af as [a f], Haf as [-> ->]. unfold zlen in *. rewrite !Nat2Z.id, firstn_all.
    by rewrite drop_ge, app_nil_r by lia.
Qed.

(** A vector of [int]s written by [NwriteInts] to a file with room for it
    is read back unchanged by [NreadInts], whatever the byte order of the
    machine that writes and of the one that reads: the stored bytes are those
    of each number, most significant first. *)
Theorem NwriteInts_NreadInts_roundtrip (be1 be2 : bool) (vals buf : list Z) (fd : FILE) :
  Forall (fun v => INT_MIN <= v <= INT_MAX) vals -> zlen buf = zlen vals ->
  4 * zlen vals <= quota fd -> rpos fd = length (contents fd) ->
  exists fd', NwriteInts be1 vals (zlen vals) fd = Ok fd' /\
    contents fd' = contents fd ++ (vals ≫= be_bytes) /\
    exists fd'', NreadInts be2 buf (zlen vals) fd' = Ok (vals, fd'') /\
      rpos fd'' = length (contents fd').
Proof.
  intros Hv Hb Hq Hr.
  rewrite NwriteInts_Ok by (pose proof (zlen_nonneg vals); lia).
  unfold zlen at 1. rewrite Nat2Z.id, firstn_all.
  eexists. split; [reflexivity |]. split; [done |].
  erewrite (NreadInts_Ok be2 (contents fd) vals []); [| done | done | | done].
  - eexists. split; [reflexivity |]. done.
  - simpl. by rewrite app_nil_r.
Qed.

Lemma NwriteInts_NreadInts_roundtrip_witness :
  exists fd', NwriteInts false [1; -2; INT_MIN] 3 (mkFILE [] 0 100 false) = Ok fd' /\
    exists fd'', NreadInts true [0; 0; 0] 3 fd' = Ok ([1; -2; INT_MIN], fd'').
Proof.
  destruct (NwriteInts_NreadInts_roundtrip false true [1; -2; INT_MIN] [0; 0; 0] (mkFILE [] 0 100 false))
    as (fd' & H1 & _ & fd'' & H2 & _);
    [repeat constructor; vm_compute; discriminate | done | vm_compute; discriminate | done |].
  exists fd'. split; [exact H1 |]. exists fd''. exact H2.
Defined.
