(* ===== verification/BitIO.v ===== *)
(** * Bit streams: cl/bitio.c

    [BFile] (a bit stream over a stdio file) and [BStream] (a bit stream over a
    block of memory) with all their operations.  The two structs differ only in
    what lies underneath (FILE pointer or base pointer), and so do their loops:
    the record and the read and write loops take the handle and the transfer of
    one byte as parameters.

    The interfaces [BitWriter] and [BitReader] say what the clients (the Golomb
    and Huffman coders) rely on; the instances at the end of the file discharge
    them for [BFile] and [BStream]. *)

From Stdlib Require Import ZArith Lia Ascii String.
From stdpp Require Import base tactics option list numbers.
From S2P Require Import Prelude Bits Storage.

Open Scope Z_scope.

(** ** Data *)

(** [struct _bfilebuf] and [struct _bstreambuf] *)
Record bitbuf (H : Type) := mkBit {
  handle : option H;       (* fd or base; NULL is None *)
  mode : ascii;
  buf : Z;                 (* unsigned char *)
  bits_in_buf : Z;
  position : Z             (* off_t *)
}.
Arguments mkBit {H} _ _ _ _ _.
Arguments handle {H} _.
Arguments mode {H} _.
Arguments buf {H} _.
Arguments bits_in_buf {H} _.
Arguments position {H} _.

Abbreviation BFile := (bitbuf FILE).
Abbreviation BStream := (bitbuf (list Z)).

(** [type[0]] of a C string *)
Definition char0 (s : string) : ascii :=
  match s with EmptyString => zero | String c _ => c end.

Definition is_mode (c : ascii) : bool := Ascii.eqb c "r" || Ascii.eqb c "w".

(** ** Opening, closing, positions *)

(** [fopened] is what [fopen(filename, passmode)] returned. *)
Definition BFopen (fopened : option FILE) (type : string) : res (Z * BFile) :=
  let m := char0 type in
  _ ← c_assert (is_mode m);
  Ok (if fopened is Some _ then 1 else 0, mkBit fopened m 0 0 0).

Definition BSopen (base : option (list Z)) (type : string) : res (Z * BStream) :=
  let bf := mkBit base (char0 type) 0 0 0 in
  _ ← c_assert (is_mode (mode bf));
  Ok (if handle bf is Some _ then 1 else 0, bf).

Definition BFposition (stream : option BFile) : res Z :=
  match stream with Some s => Ok (position s) | None => Err AssertFail end.

Definition BSposition (stream : option BStream) : res Z :=
  match stream with Some s => Ok (position s) | None => Err AssertFail end.

Definition BSseek (stream : BStream) (offset : Z) : Z * BStream :=
  (1, mkBit (handle stream) (mode stream) 0 0 offset).

(** ** Moving one byte *)

(** [fwrite(&stream->buf, 1, 1, stream->fd)]: the new file and whether the byte was written *)
Definition BF_put (byte : Z) (fd : option FILE) (pos : Z) : res (bool * option FILE) :=
  f ← deref fd;
  let (n, f') := fwrite1 [byte] f in
  Ok (n =? 1, Some f').

(** [stream->base[stream->position] = stream->buf] *)
Definition BS_put (byte : Z) (base : option (list Z)) (pos : Z) : res (bool * option (list Z)) :=
  b ← deref base;
  b' ← aset b pos byte;
  Ok (true, Some b').

(** [fread(&stream->buf, 1, 1, stream->fd)] *)
Definition BF_get (fd : option FILE) (pos : Z) : res (option Z * option FILE) :=
  f ← deref fd;
  match fread1 1 f with
  | (Some [x], f') => Ok (Some x, Some f')
  | (_, f') => Ok (None, Some f')
  end.

(** [stream->buf = stream->base[stream->position]] *)
Definition BS_get (base : option (list Z)) (pos : Z) : res (option Z * option (list Z)) :=
  b ← deref base;
  x ← aget b pos;
  Ok (Some x, base).

(** ** Writing and reading up to 8 bits *)

(** [1 << k] for an [int]: shifting by a negative amount or into the sign bit is undefined. *)
Definition c_shl1 (k : Z) : res Z :=
  if (0 <=? k) && (k <=? 30) then Ok (Z.shiftl 1 k) else Err IntOverflow.

Section BitOps.
Context {H : Type}.
Context (put : Z -> option H -> Z -> res (bool * option H)).
Context (get : option H -> Z -> res (option Z * option H)).

(** One round of [while (nbits > 0)] in BFwrite and BSwrite. *)
Definition write_round (data : Z) (st : Z * Z * bitbuf H)
  : res (Z * Z * bitbuf H + Z * bitbuf H) :=
  let '(nbits, mask, stream) := st in
  if 0 <? nbits then
    _ ← c_assert (negb (mask =? 0));
    _ ← c_assert (bits_in_buf stream <? 8);
    let n := bits_in_buf stream + 1 in
    let b := u8 (Z.shiftl (buf stream) 1) in
    let b := if negb (Z.land data mask =? 0) then Z.lor b 1 else b in
    if n =? 8 then
      r ← put b (handle stream) (position stream);
      let '(ok, h) := r in
      if (ok : bool) then
        Ok (inl (nbits - 1, Z.shiftr mask 1, mkBit h (mode stream) 0 0 (position stream + 1)))
      else Ok (inr (0, mkBit h (mode stream) b n (position stream)))
    else
      Ok (inl (nbits - 1, Z.shiftr mask 1,
               mkBit (handle stream) (mode stream) b n (position stream)))
  else Ok (inr (1, stream)).

Definition write_bits (data nbits : Z) (stream : bitbuf H) : res (Z * bitbuf H) :=
  m ← c_shl1 (nbits - 1);
  loop (write_round data) fuel (nbits, u8 m, stream).

(** One round of [while (nbits > 0)] in BFread and BSread. *)
Definition read_round (st : Z * Z * bitbuf H)
  : res (Z * Z * bitbuf H + Z * Z * bitbuf H) :=
  let '(nbits, data, stream) := st in
  if 0 <? nbits then
    filled ←
      (if bits_in_buf stream =? 0 then
         r ← get (handle stream) (position stream);
         let '(x, h) := r in
         Ok (match x with
             | Some x => (true, mkBit h (mode stream) x 8 (position stream + 1))
             | None => (false, mkBit h (mode stream) (buf stream) 0 (position stream))
             end)
       else Ok (true, stream));
    let '(ok, stream) := filled : bool * bitbuf H in
    if ok then
      let data := u8 (Z.shiftl data 1) in
      let data := if negb (Z.land (buf stream) (Z.shiftl 1 7) =? 0) then Z.lor data 1 else data in
      Ok (inl (nbits - 1, data,
               mkBit (handle stream) (mode stream) (u8 (Z.shiftl (buf stream) 1))
                     (bits_in_buf stream - 1) (position stream)))
    else Ok (inr (0, data, stream))
  else Ok (inr (1, data, stream)).

(** The return value, [*data] and the stream. *)
Definition read_bits (nbits : Z) (stream : bitbuf H) : res (Z * Z * bitbuf H) :=
  loop read_round fuel (nbits, 0, stream).
End BitOps.

Definition BFwrite (data nbits : Z) (stream : BFile) : res (Z * BFile) :=
  write_bits BF_put data nbits stream.

Definition BSwrite (data nbits : Z) (stream : BStream) : res (Z * BStream) :=
  write_bits BS_put data nbits stream.

Definition BFread (nbits : Z) (stream : BFile) : res (Z * Z * BFile) :=
  read_bits BF_get nbits stream.

Definition BSread (nbits : Z) (stream : BStream) : res (Z * Z * BStream) :=
  read_bits BS_get nbits stream.

(** ** Flushing and closing *)

Definition BFflush (stream : BFile) : res (Z * BFile) :=
  if Ascii.eqb (mode stream) "w" then
    if (0 <? bits_in_buf stream) && (bits_in_buf stream <? 8) then
      let b := u8 (Z.shiftl (buf stream) (8 - bits_in_buf stream)) in
      r ← BF_put b (handle stream) (position stream);
      f ← deref (snd r);
      Ok (if fflush f =? 0 then 1 else 0,
          mkBit (Some f) (mode stream) 0 0 (position stream + 1))
    else
      _ ← c_assert (bits_in_buf stream =? 0);
      Ok (0, stream)
  else if Ascii.eqb (mode stream) "r" then
    r ← BF_get (handle stream) (position stream);
    let '(x, h) := r in
    Ok (match x with
        | Some x => (1, mkBit h (mode stream) x 8 (position stream + 1))
        | None => (0, mkBit h (mode stream) (buf stream) 8 (position stream + 1))
        end)
  else Err AssertFail.

Definition BSflush (stream : BStream) : res (Z * BStream) :=
  if Ascii.eqb (mode stream) "w" then
    if (0 <? bits_in_buf stream) && (bits_in_buf stream <? 8) then
      let b := u8 (Z.shiftl (buf stream) (8 - bits_in_buf stream)) in
      r ← BS_put b (handle stream) (position stream);
      Ok (1, mkBit (snd r) (mode stream) 0 0 (position stream + 1))
    else
      _ ← c_assert (bits_in_buf stream =? 0);
      Ok (0, stream)
  else if Ascii.eqb (mode stream) "r" then
    r ← BS_get (handle stream) (position stream);
    let '(x, h) := r in
    Ok (match x with
        | Some x => (1, mkBit h (mode stream) x 8 (position stream + 1))
        | None => (0, stream)
        end)
  else Err AssertFail.

(** [fclose] succeeds unless the file has a pending write error. *)
Definition BFclose (stream : BFile) : res (Z * BFile) :=
  r ← (if Ascii.eqb (mode stream) "w" then BFflush stream else Ok (0, stream));
  let stream := r.2 in
  f ← deref (handle stream);
  Ok (if fflush f =? 0 then 1 else 0, stream).

Definition BSclose (stream : BStream) : res (Z * BStream) :=
  r ← (if Ascii.eqb (mode stream) "w" then BSflush stream else Ok (0, stream));
  let stream := r.2 in
  Ok (1, mkBit None (mode stream) (buf stream) (bits_in_buf stream) (position stream)).

(** ** Words of up to 32 bits *)
Section Words.
Context (bigendian : bool).

(** [for (i = 4 - bytes; i < 4; i++) if (!BFwrite(cdata[i], 8, stream)) return 0;] *)
Definition write_bytes_round (cdata : list Z) (st : Z * BFile) : res (Z * BFile + Z * BFile) :=
  let '(i, stream) := st in
  if i <? 4 then
    c ← aget cdata i;
    r ← BFwrite c 8 stream;
    let '(ok, stream) := r in
    Ok (if ok =? 0 then inr (0, stream) else inl (i + 1, stream))
  else Ok (inr (1, stream)).

Definition BFwriteWord (data nbits : Z) (stream : BFile) : res (Z * BFile) :=
  if (32 <? nbits) || (nbits <? 0) then Ok (0, stream)
  else
    let cdata := native_bytes bigendian (htonl bigendian (u32 data)) in
    let bytes := Z.quot nbits 8 in
    let rest := Z.rem nbits 8 in
    first ←
      (if negb (rest =? 0) then c ← aget cdata (3 - bytes); BFwrite c rest stream
       else Ok (1, stream));
    let '(ok, stream) := first in
    if ok =? 0 then Ok (0, stream)
    else loop (write_bytes_round cdata) fuel (4 - bytes, stream).

(** The reading loop also fills [cdata]; a failed read leaves the bits read so far there. *)
Definition read_bytes_round (st : Z * list Z * BFile)
  : res (Z * list Z * BFile + Z * list Z * BFile) :=
  let '(i, cdata, stream) := st in
  if i <? 4 then
    r ← BFread 8 stream;
    let '(ok, c, stream) := r in
    cdata ← aset cdata i c;
    Ok (if ok =? 0 then inr (0, cdata, stream) else inl (i + 1, cdata, stream))
  else Ok (inr (1, cdata, stream)).

(** The return value, [*data] and the stream; [data] is the old value of [*data]. *)
Definition BFreadWord (data nbits : Z) (stream : BFile) : res (Z * Z * BFile) :=
  if (32 <? nbits) || (nbits <? 0) then Ok (0, data, stream)
  else
    let cdata := native_bytes bigendian data in
    let bytes := Z.quot nbits 8 in
    let rest := Z.rem nbits 8 in
    first ←
      (if negb (rest =? 0) then
         r ← BFread rest stream;
         let '(ok, c, stream) := r in
         cdata ← aset cdata (3 - bytes) c;
         Ok (ok, cdata, stream)
       else Ok (1, cdata, stream));
    let '(ok, cdata, stream) := first : Z * list Z * BFile in
    if ok =? 0 then Ok (0, of_native_bytes bigendian cdata, stream)
    else
      r ← loop read_bytes_round fuel (4 - bytes, cdata, stream);
      let '(ok, cdata, stream) := r in
      Ok (ok, if ok =? 0 then of_native_bytes bigendian cdata
              else ntohl bigendian (of_native_bytes bigendian cdata), stream).
End Words.

(** ** Bit-level lemmas *)

Lemma land_pow2 a k : 0 <= k -> Z.land a (2 ^ k) = if Z.testbit a k then 2 ^ k else 0.
Proof.
  intros Hk. apply Z.bits_inj'. intros n Hn. rewrite Z.land_spec.
  destruct (Z.eq_dec n k) as [->|Hne].
  - rewrite Z.pow2_bits_true by done. rewrite andb_true_r.
    destruct (Z.testbit a k) eqn:E; [by rewrite Z.pow2_bits_true | by rewrite Z.testbit_0_l].
  - rewrite Z.pow2_bits_false by done. rewrite andb_false_r.
    destruct (Z.testbit a k); [by rewrite Z.pow2_bits_false | by rewrite Z.testbit_0_l].
Qed.

Lemma land_pow2_test a k : 0 <= k -> negb (Z.land a (2 ^ k) =? 0) = Z.testbit a k.
Proof.
  intros Hk. rewrite land_pow2 by done. destruct (Z.testbit a k); [| done].
  assert (0 < 2 ^ k) by (apply Z.pow_pos_nonneg; lia).
  by rewrite (proj2 (Z.eqb_neq _ _)) by lia.
Qed.

Lemma lor_1_even x : Z.even x = true -> Z.lor x 1 = x + 1.
Proof.
  intros Hx. rewrite <- Z.lxor_lor, <- Z.add_nocarry_lxor; [done | |];
    (apply Z.bits_inj'; intros n Hn; rewrite Z.land_spec, Z.testbit_0_l;
     destruct (Z.eq_dec n 0) as [->|];
     [rewrite Z.bit0_odd, <- Z.negb_even, Hx; done
     | change 1 with (2 ^ 0); rewrite Z.pow2_bits_false by lia; by rewrite andb_false_r]).
Qed.

(** Shifting a bit into the byte buffer, as the code writes it. *)
Definition push_bit (x : Z) (b : bool) : Z :=
  let y := u8 (Z.shiftl x 1) in if b then Z.lor y 1 else y.

Lemma push_bit_mod x b : push_bit x b = (2 * x + Z.b2z b) mod 256.
Proof.
  unfold push_bit, u8. rewrite Z.shiftl_mul_pow2, Z.pow_1_r by lia. change (2 ^ 8) with 256.
  destruct b; simpl Z.b2z.
  - rewrite lor_1_even.
    + Z.div_mod_to_equations. lia.
    + rewrite Zeven_mod, Z.eqb_eq. Z.div_mod_to_equations. lia.
  - f_equal. lia.
Qed.

Lemma push_bit_small x b : 0 <= x < 128 -> push_bit x b = snoc_bit x b.
Proof.
  intros. rewrite push_bit_mod. unfold snoc_bit. apply Z.mod_small.
  destruct b; simpl Z.b2z; lia.
Qed.

Lemma bits_snoc n x b : bits (S n) (snoc_bit x b) = bits n x ++ [b].
Proof.
  replace (S n) with (n + 1)%nat by lia. rewrite bits_app. f_equal.
  - apply bits_ext. intros k Hk. rewrite Z.shiftr_spec by lia. unfold snoc_bit.
    change (Z.of_nat 1) with 1. rewrite Z.add_1_r.
    destruct b; [by rewrite Z.testbit_odd_succ by lia |].
    simpl Z.b2z. rewrite Z.add_0_r. by rewrite Z.testbit_even_succ by lia.
  - unfold bits, snoc_bit. change (Z.of_nat 0) with 0. f_equal. destruct b; simpl Z.b2z.
    + apply Z.testbit_odd_0.
    + rewrite Z.add_0_r. apply Z.testbit_even_0.
Qed.

(** Dropping the top bit of the byte buffer when reading. *)
Lemma bits_8_shift x :
  bits 8 x = Z.testbit x 7 :: take 7 (bits 8 (u8 (Z.shiftl x 1))).
Proof.
  simpl bits. f_equal.
  assert (forall k, 0 <= k < 7 -> Z.testbit (u8 (Z.shiftl x 1)) (k + 1) = Z.testbit x k) as H.
  { intros k Hk. unfold u8. rewrite Z.mod_pow2_bits_low, Z.shiftl_spec by lia. f_equal. lia. }
  cbn [bits take Z.of_nat Pos.of_succ_nat Pos.succ].
  repeat apply (f_equal2 cons); try reflexivity; symmetry;
    [apply (H 6)|apply (H 5)|apply (H 4)|apply (H 3)|apply (H 2)|apply (H 1)|apply (H 0)]; lia.
Qed.

(** ** Interfaces

    What a client of the bit streams relies on: bits written are appended to
    what the stream holds, most significant bit first, as long as there is
    room; bits read are the next ones of the stream.  [rd_mid] holds after at
    least one bit of the current byte was read. *)
Class BitWriter (S : Type) := {
  wr_bits : Z -> Z -> S -> res (Z * S);
  wr_out : S -> list bool;
  wr_room : nat -> S -> Prop;
  wr_spec : forall data n m st, (1 <= n <= 8)%nat -> wr_room (n + m) st ->
    exists st', wr_bits data (Z.of_nat n) st = Ok (1, st') /\
      wr_out st' = wr_out st ++ bits n data /\ wr_room m st'
}.

Class BitReader (S : Type) := {
  rd_bits : Z -> S -> res (Z * Z * S);
  rd_in : S -> list bool;
  rd_ok : S -> Prop;
  rd_mid : S -> Prop;
  rd_spec : forall l r st, rd_ok st -> rd_in st = l ++ r ->
    exists st', rd_bits (Z.of_nat (length l)) st = Ok (1, u8 (of_bits l), st') /\
      rd_in st' = r /\ rd_ok st' /\ (l <> [] -> rd_mid st')
}.

(** ** The writing loop *)
Section WriteSpec.
Context {H : Type} (put : Z -> option H -> Z -> res (bool * option H)).
Context (sunk : option H -> Z -> list Z) (room : option H -> Z -> Z).
Hypothesis put_ok : forall b h pos, is_byte b -> 0 < room h pos ->
  exists h', put b h pos = Ok (true, h') /\
    sunk h' (pos + 1) = sunk h pos ++ [b] /\ room h' (pos + 1) = room h pos - 1.

Definition out_bits (st : bitbuf H) : list bool :=
  byte_bits (sunk (handle st) (position st)) ++ bits (Z.to_nat (bits_in_buf st)) (buf st).

Definition writable (n : nat) (st : bitbuf H) : Prop :=
  mode st = "w"%char /\ 0 <= bits_in_buf st < 8 /\ 0 <= buf st < 2 ^ bits_in_buf st /\
  bits_in_buf st + Z.of_nat n < 8 * room (handle st) (position st) + 8 /\
  position st = zlen (sunk (handle st) (position st)).

Lemma write_round_ok data k m st :
  writable (S k + m) st ->
  exists st', write_round put data (Z.of_nat (S k), 2 ^ Z.of_nat k, st) =
      Ok (inl (Z.of_nat k, Z.shiftr (2 ^ Z.of_nat k) 1, st')) /\
    out_bits st' = out_bits st ++ [Z.testbit data (Z.of_nat k)] /\ writable (k + m) st'.
Proof.
  intros (Hm & Hb & Hbuf & Hroom & Hpos). unfold write_round.
  rewrite (proj2 (Z.ltb_lt 0 (Z.of_nat (S k)))) by lia.
  assert (0 < 2 ^ Z.of_nat k) by (apply Z.pow_pos_nonneg; lia).
  rewrite (proj2 (Z.eqb_neq (2 ^ Z.of_nat k) 0)), (proj2 (Z.ltb_lt (bits_in_buf st) 8)) by lia.
  cbn. rewrite land_pow2_test by lia.
  change (if Z.testbit data (Z.of_nat k) then _ else _)
    with (push_bit (buf st) (Z.testbit data (Z.of_nat k))).
  assert (2 ^ bits_in_buf st <= 2 ^ 7) by (apply Z.pow_le_mono_r; lia).
  rewrite push_bit_small by lia. set (b := Z.testbit data (Z.of_nat k)).
  assert (0 <= snoc_bit (buf st) b < 2 ^ (bits_in_buf st + 1)).
  { rewrite Z.pow_add_r by lia. unfold snoc_bit. destruct b; simpl Z.b2z; lia. }
  assert (bits (Z.to_nat (bits_in_buf st + 1)) (snoc_bit (buf st) b) =
          bits (Z.to_nat (bits_in_buf st)) (buf st) ++ [b]) as Hbits.
  { rewrite <- bits_snoc. f_equal. lia. }
  replace (Z.of_nat (S k) - 1) with (Z.of_nat k) by lia.
  destruct (Z.eqb_spec (bits_in_buf st + 1) 8) as [E|E].
  - destruct (put_ok (snoc_bit (buf st) b) (handle st) (position st)) as (h & -> & Hs & Hr).
    { unfold is_byte. rewrite E in *. lia. }
    { lia. }
    cbn. eexists. split; [reflexivity |]. unfold out_bits, writable. cbn. rewrite Hs, Hr. split.
    + rewrite byte_bits_app, byte_bits_singleton, app_nil_r, <- app_assoc. f_equal.
      rewrite <- Hbits, E. reflexivity.
    + rewrite zlen_app, <- Hpos. split; [done |]. split; [lia |]. split; [lia |].
      split; [lia |]. done.
  - eexists. split; [reflexivity |]. unfold out_bits, writable. cbn. split.
    + by rewrite Hbits, app_assoc.
    + split; [done |]. split; [lia |]. split; [done |]. split; [lia | done].
Qed.

Lemma write_bits_ok data n m st :
  (1 <= n <= 8)%nat -> writable (n + m) st ->
  exists st', write_bits put data (Z.of_nat n) st = Ok (1, st') /\
    out_bits st' = out_bits st ++ bits n data /\ writable m st'.
Proof.
  intros Hn Hw. unfold write_bits, c_shl1.
  rewrite (proj2 (Z.leb_le 0 (Z.of_nat n - 1))), (proj2 (Z.leb_le (Z.of_nat n - 1) 30)) by lia.
  cbn. rewrite Z.shiftl_1_l.
  assert (2 ^ (Z.of_nat n - 1) <= 2 ^ 7) by (apply Z.pow_le_mono_r; lia).
  assert (0 < 2 ^ (Z.of_nat n - 1)) by (apply Z.pow_pos_nonneg; lia).
  rewrite u8_small by lia.
  loop_with
    (fun '(nb, mask, s) => exists k, (k <= n)%nat /\ nb = Z.of_nat k /\
       mask = match k with O => 0 | S j => 2 ^ Z.of_nat j end /\
       out_bits s ++ bits k data = out_bits st ++ bits n data /\ writable (k + m) s)
    (fun '(r, s) => r = 1 /\ out_bits s = out_bits st ++ bits n data /\ writable m s)
    (fun '(nb, mask, s) => nb : Z) r E Hr.
  - intros [[nb mask] s] (k & Hk & -> & -> & Ho & Hws). split; [lia |]. destruct k as [|k].
    + right. exists (1, s). split; [done |]. rewrite app_nil_r in Ho. done.
    + left. destruct (write_round_ok data k m s Hws) as (s' & -> & Ho' & Hw').
      eexists. split; [reflexivity |]. split; [| lia].
      exists k. split; [lia |]. split; [done |]. split; [| split; [| done]].
      * destruct k as [|j]; [done |]. rewrite Nat2Z.inj_succ, Z.pow_succ_r by lia.
        rewrite Z.shiftr_div_pow2, Z.pow_1_r, Z.mul_comm by lia. by rewrite Z.div_mul by lia.
      * rewrite Ho', <- app_assoc. exact Ho.
  - exists n. split; [lia |]. split; [done |]. split; [| done].
    destruct n as [|j]; [lia |]. f_equal. lia.
  - rewrite fuel_val. lia.
  - destruct r as [r s]. destruct Hr as (-> & Ho & Hws). eauto.
Qed.
End WriteSpec.

(** ** The reading loop *)
Section ReadSpec.
Context {H : Type} (get : option H -> Z -> res (option Z * option H)).
Context (rest : option H -> Z -> list Z).
Hypothesis get_ok : forall h pos x l, rest h pos = x :: l ->
  exists h', get h pos = Ok (Some x, Some h') /\ rest (Some h') (pos + 1) = l.

Definition in_bits (st : bitbuf H) : list bool :=
  take (Z.to_nat (bits_in_buf st)) (bits 8 (buf st)) ++
  byte_bits (rest (handle st) (position st)).

Definition readable (st : bitbuf H) : Prop :=
  mode st = "r"%char /\ 0 <= bits_in_buf st <= 8 /\ handle st <> None.

Lemma take_bits_8 n x :
  (n < 8)%nat -> take (S n) (bits 8 x) = Z.testbit x 7 :: take n (bits 8 (u8 (Z.shiftl x 1))).
Proof.
  intros. rewrite (bits_8_shift x). cbn [take]. f_equal. rewrite take_take. f_equal. lia.
Qed.

Lemma read_round_ok k data b l st :
  readable st -> in_bits st = b :: l ->
  exists st', read_round get (Z.of_nat (S k), data, st) =
      Ok (inl (Z.of_nat k, push_bit data b, st')) /\
    in_bits st' = l /\ readable st' /\ bits_in_buf st' < 8.
Proof.
  intros Hb Hin. unfold read_round.
  rewrite (proj2 (Z.ltb_lt 0 (Z.of_nat (S k)))) by lia.
  assert (exists s1, (if bits_in_buf st =? 0 then
         r ← get (handle st) (position st);
         let '(x, h) := r in
         Ok (match x with
             | Some x => (true, mkBit h (mode st) x 8 (position st + 1))
             | None => (false, mkBit h (mode st) (buf st) 0 (position st))
             end)
       else Ok (true, st)) = Ok (true, s1) /\ in_bits s1 = b :: l /\
       0 < bits_in_buf s1 <= 8 /\ mode s1 = "r"%char /\ handle s1 <> None)
    as (s1 & -> & Hin1 & Hb1 & Hm1 & Hh1).
  { destruct Hb as (Hm & Hb & Hh). destruct (Z.eqb_spec (bits_in_buf st) 0) as [E|E].
    - unfold in_bits in Hin. rewrite E in Hin. cbn [Z.to_nat take app] in Hin.
      destruct (rest (handle st) (position st)) as [|x tl] eqn:R; [done |].
      destruct (get_ok _ _ _ _ R) as (h & -> & Hr). cbn.
      eexists. split; [reflexivity |]. split; [| cbn; split; [lia | split; done]].
      unfold in_bits. cbn [handle position bits_in_buf buf]. rewrite Hr, <- Hin, byte_bits_cons.
      f_equal.
    - exists st. split; [done |]. split; [done |]. split; [lia |]. split; done. }
  cbn. change (Z.shiftl 1 7) with (2 ^ 7). rewrite land_pow2_test by lia.
  change (if Z.testbit (buf s1) 7 then _ else _) with (push_bit data (Z.testbit (buf s1) 7)).
  replace (Z.of_nat (S k) - 1) with (Z.of_nat k) by lia.
  unfold in_bits in Hin1.
  replace (Z.to_nat (bits_in_buf s1)) with (S (Z.to_nat (bits_in_buf s1 - 1))) in Hin1 by lia.
  rewrite take_bits_8 in Hin1 by lia. injection Hin1 as Hb7 Hl. rewrite Hb7.
  eexists. split; [reflexivity |]. split; [exact Hl |]. unfold readable. cbn. split; [split; [done | split; [lia | done]] | lia].
Qed.

Lemma read_bits_ok l r st :
  readable st -> in_bits st = l ++ r -> Z.of_nat (length l) < 2 ^ 64 ->
  exists st', read_bits get (Z.of_nat (length l)) st = Ok (1, u8 (of_bits l), st') /\
    in_bits st' = r /\ readable st' /\ (l <> [] -> bits_in_buf st' < 8).
Proof.
  intros Hb Hin Hlen. unfold read_bits.
  loop_with
    (fun '(nb, data, s) => exists l1 l2, l = l1 ++ l2 /\ nb = Z.of_nat (length l2) /\
       data = u8 (of_bits l1) /\ in_bits s = l2 ++ r /\ readable s /\ (l1 <> [] -> bits_in_buf s < 8))
    (fun '(ok, data, s) => ok = 1 /\ data = u8 (of_bits l) /\ in_bits s = r /\ readable s /\
       (l <> [] -> bits_in_buf s < 8))
    (fun '(nb, data, s) => nb : Z) x E Hr.
  - intros [[nb data] s] (l1 & l2 & -> & -> & -> & Hins & Hs & Hmid). split; [lia |].
    destruct l2 as [|b l2].
    + right. eexists (1, _, s). split; [reflexivity |]. by rewrite app_nil_r.
    + left. destruct (read_round_ok (length l2) (u8 (of_bits l1)) b (l2 ++ r) s Hs Hins)
        as (s' & Hstep & Hin' & Hs' & Hmid'). simpl length. rewrite Hstep.
      eexists. split; [reflexivity |]. split; [| lia].
      exists (l1 ++ [b]), l2. rewrite <- app_assoc. split; [done |]. split; [done |].
      split; [| by split]. rewrite push_bit_mod, of_bits_snoc. unfold u8. change (2 ^ 8) with 256.
      Z.div_mod_to_equations. lia.
  - exists [], l. done.
  - rewrite fuel_val. lia.
  - destruct x as [[ok data] s]. destruct Hr as (-> & -> & Hin' & Hs' & Hm'). eauto 10.
Qed.
End ReadSpec.

(** ** The two kinds of stream satisfy the interfaces *)

Definition BF_sunk (h : option FILE) (pos : Z) : list Z :=
  match h with Some f => contents f | None => [] end.
(** Bytes the file still takes; none after a write error. *)
Definition BF_room (h : option FILE) (pos : Z) : Z :=
  match h with Some f => if failed f then 0 else quota f | None => 0 end.
Definition BF_rest (h : option FILE) (pos : Z) : list Z :=
  match h with Some f => drop (rpos f) (contents f) | None => [] end.

Definition BS_sunk (h : option (list Z)) (pos : Z) : list Z :=
  match h with Some b => take (Z.to_nat pos) b | None => [] end.
Definition BS_room (h : option (list Z)) (pos : Z) : Z :=
  match h with Some b => if 0 <=? pos then zlen b - pos else 0 | None => 0 end.
Definition BS_rest (h : option (list Z)) (pos : Z) : list Z :=
  match h with Some b => if 0 <=? pos then drop (Z.to_nat pos) b else [] | None => [] end.

Lemma BF_put_ok b h pos : is_byte b -> 0 < BF_room h pos ->
  exists h', BF_put b h pos = Ok (true, h') /\
    BF_sunk h' (pos + 1) = BF_sunk h pos ++ [b] /\ BF_room h' (pos + 1) = BF_room h pos - 1.
Proof.
  intros _ Hr. destruct h as [f|]; simpl in Hr; [| lia].
  unfold BF_put. cbn. destruct (failed f) eqn:F; [lia |].
  rewrite fwrite1_Ok by (unfold zlen; simpl; lia). eexists. split; [reflexivity |].
  cbn. rewrite F. done.
Qed.

Lemma BF_get_ok h pos x l : BF_rest h pos = x :: l ->
  exists h', BF_get h pos = Ok (Some x, Some h') /\ BF_rest (Some h') (pos + 1) = l.
Proof.
  destruct h as [f|]; [| done]. simpl. intros Hd.
  unfold BF_get. cbn.
  assert (contents f = take (rpos f) (contents f) ++ [x] ++ l) as Hc.
  { change ([x] ++ l) with (x :: l). rewrite <- Hd. by rewrite take_drop. }
  assert (rpos f < length (contents f))%nat as Hlt.
  { apply (f_equal length) in Hd. rewrite length_drop in Hd. simpl in Hd. lia. }
  change 1%nat with (length [x]).
  erewrite (fread1_Ok (take (rpos f) (contents f)) [x] l); [| done | rewrite length_take; lia].
  eexists. split; [reflexivity |]. cbn. remember (take (rpos f) (contents f)) as pre.
  rewrite Hc. by rewrite app_assoc, drop_app_length.
Qed.

Lemma BS_put_ok b h pos : is_byte b -> 0 < BS_room h pos ->
  exists h', BS_put b h pos = Ok (true, h') /\
    BS_sunk h' (pos + 1) = BS_sunk h pos ++ [b] /\ BS_room h' (pos + 1) = BS_room h pos - 1.
Proof.
  intros _ Hr. destruct h as [l|]; simpl in Hr; [| lia].
  destruct (Z.leb_spec 0 pos); [| lia].
  unfold BS_put. cbn. rewrite aset_Ok by lia. cbn. eexists. split; [reflexivity |].
  cbn. rewrite (proj2 (Z.leb_le 0 (pos + 1))), (proj2 (Z.leb_le 0 pos)), zlen_insert by lia.
  split; [| lia].
  replace (Z.to_nat (pos + 1)) with (S (Z.to_nat pos)) by lia.
  rewrite (take_S_r _ _ b) by (apply list_lookup_insert_eq; unfold zlen in *; lia).
  by rewrite take_insert_ge by lia.
Qed.

Lemma BS_get_ok h pos x l : BS_rest h pos = x :: l ->
  exists h', BS_get h pos = Ok (Some x, Some h') /\ BS_rest (Some h') (pos + 1) = l.
Proof.
  destruct h as [b|]; [| done]. simpl. destruct (Z.leb_spec 0 pos); [| done]. intros Hd.
  unfold BS_get. cbn.
  assert (b !! Z.to_nat pos = Some x) as Hx.
  { rewrite <- (Nat.add_0_r (Z.to_nat pos)), <- lookup_drop, Hd. done. }
  rewrite (aget_lookup _ _ x) by done. cbn. eexists. split; [reflexivity |]. cbn.
  rewrite (proj2 (Z.leb_le 0 (pos + 1))) by lia.
  replace (Z.to_nat (pos + 1)) with (S (Z.to_nat pos)) by lia.
  rewrite (drop_S b x) in Hd by done. by injection Hd.
Qed.

Abbreviation BF_out := (out_bits BF_sunk).
Abbreviation BF_writable := (writable BF_sunk BF_room).
Abbreviation BF_in := (in_bits BF_rest).

Lemma BFwrite_ok data n m st :
  (1 <= n <= 8)%nat -> BF_writable (n + m) st ->
  exists st', BFwrite data (Z.of_nat n) st = Ok (1, st') /\
    BF_out st' = BF_out st ++ bits n data /\ BF_writable m st'.
Proof. apply (write_bits_ok BF_put BF_sunk BF_room BF_put_ok). Qed.

Lemma BFread_ok l r st :
  readable st -> BF_in st = l ++ r -> Z.of_nat (length l) < 2 ^ 64 ->
  exists st', BFread (Z.of_nat (length l)) st = Ok (1, u8 (of_bits l), st') /\
    BF_in st' = r /\ readable st'.
Proof.
  intros Hr Hin Hl. destruct (read_bits_ok BF_get BF_rest BF_get_ok l r st Hr Hin Hl) as (st' & H1 & H2 & H3 & _).
  eauto.
Qed.

#[export] Program Instance BFile_writer : BitWriter BFile := {|
  wr_bits := BFwrite; wr_out := BF_out; wr_room := BF_writable |}.
Next Obligation.
  intros data n m st Hn Hw. by apply BFwrite_ok.
Qed.

#[export] Program Instance BStream_writer : BitWriter BStream := {|
  wr_bits := BSwrite; wr_out := out_bits BS_sunk; wr_room := writable BS_sunk BS_room |}.
Next Obligation.
  intros data n m st Hn Hw. apply (write_bits_ok BS_put BS_sunk BS_room BS_put_ok); done.
Qed.

(** The reading instances keep the number of unread bits below [2^63], as the
    size of a file is. *)
#[export] Program Instance BFile_reader : BitReader BFile := {|
  rd_bits := BFread; rd_in := BF_in;
  rd_ok := fun st => readable st /\ Z.of_nat (length (BF_in st)) < 2 ^ 64;
  rd_mid := fun st => bits_in_buf st < 8 |}.
Next Obligation.
  intros l r st [Hr Hl] Hin. pose proof Hin as Hin'. rewrite Hin, length_app in Hl.
  destruct (read_bits_ok BF_get BF_rest BF_get_ok l r st Hr Hin) as (st' & H1 & H2 & H3 & H4); [lia |].
  exists st'. split; [done |]. split; [done |]. split; [| done]. split; [done |]. rewrite H2. lia.
Qed.

#[export] Program Instance BStream_reader : BitReader BStream := {|
  rd_bits := BSread; rd_in := in_bits BS_rest;
  rd_ok := fun st => readable st /\ Z.of_nat (length (in_bits BS_rest st)) < 2 ^ 64;
  rd_mid := fun st => bits_in_buf st < 8 |}.
Next Obligation.
  intros l r st [Hr Hl] Hin. pose proof Hin as Hin'. rewrite Hin, length_app in Hl.
  destruct (read_bits_ok BS_get BS_rest BS_get_ok l r st Hr Hin) as (st' & H1 & H2 & H3 & H4); [lia |].
  exists st'. split; [done |]. split; [done |]. split; [| done]. split; [done |]. rewrite H2. lia.
Qed.

(** ** Words *)
#[local] Arguments Nat.mul : simpl never.
#[local] Arguments Nat.add : simpl never.

Section WordSpec.
Context (bigendian : bool).

Lemma bits_byte_of n x k : (n <= 8)%nat -> 0 <= k ->
  bits n (byte_of x k) = bits n (Z.shiftr x (8 * k)).
Proof.
  intros. unfold byte_of. change 255 with (Z.ones (Z.of_nat 8)). rewrite Z.land_ones by lia.
  by apply bits_mod.
Qed.

Lemma be_bytes_lookup x (k : nat) :
  (k < 4)%nat -> be_bytes x !! (3 - k)%nat = Some (byte_of x (Z.of_nat k)).
Proof. intros. do 4 (destruct k as [|k]; [done |]). lia. Qed.

Lemma write_bytes_round_ok x j m st :
  (j < 4)%nat -> BF_writable (8 * S j + m) st ->
  exists st', write_bytes_round (be_bytes x) (Z.of_nat (3 - j), st) =
      Ok (inl (Z.of_nat (4 - j), st')) /\
    BF_out st' = BF_out st ++ bits 8 (Z.shiftr x (8 * Z.of_nat j)) /\ BF_writable (8 * j + m) st'.
Proof.
  intros Hj Hw. unfold write_bytes_round.
  rewrite (proj2 (Z.ltb_lt (Z.of_nat (3 - j)) 4)) by lia.
  rewrite (aget_nat _ _ _ (be_bytes_lookup x j Hj)). res_cbn.
  destruct (BFwrite_ok (byte_of x (Z.of_nat j)) 8 (8 * j + m) st) as (s' & Hs' & Ho' & Hw');
    [lia | by replace (8 + (8 * j + m))%nat with (8 * S j + m)%nat by lia |].
  change (Z.of_nat 8) with 8 in Hs'. rewrite Hs'. res_cbn.
  change (1 =? 0) with false. cbv iota.
  exists s'. split; [do 3 f_equal; lia |]. split; [| exact Hw'].
  by rewrite Ho', bits_byte_of by lia.
Qed.

Lemma write_bytes_loop x k m st :
  (k <= 4)%nat -> BF_writable (8 * k + m) st ->
  exists st', loop (write_bytes_round (be_bytes x)) fuel (Z.of_nat (4 - k), st) = Ok (1, st') /\
    BF_out st' = BF_out st ++ bits (8 * k) x /\ BF_writable m st'.
Proof.
  intros Hk Hw.
  loop_with
    (fun '(i, s) => exists j, (j <= k)%nat /\ i = Z.of_nat (4 - j) /\
       BF_out s ++ bits (8 * j) x = BF_out st ++ bits (8 * k) x /\ BF_writable (8 * j + m) s)
    (fun '(r, s) => r = 1 /\ BF_out s = BF_out st ++ bits (8 * k) x /\ BF_writable m s)
    (fun '(i, s) => 4 - i : Z) r E Hr.
  - intros [i s] (j & Hj & -> & Ho & Hs). split; [lia |].
    destruct j as [|j].
    + right. eexists (1, s). split; [reflexivity |]. by rewrite Nat.mul_0_r, app_nil_r in Ho.
    + left. destruct (write_bytes_round_ok x j m s) as (s' & Hs' & Ho' & Hw'); [lia | done |].
      replace (4 - S j)%nat with (3 - j)%nat by lia. rewrite Hs'.
      eexists. split; [reflexivity |]. split; [| lia].
      exists j. split; [lia |]. split; [done |]. split; [| done].
      rewrite Ho', <- Ho, <- app_assoc. f_equal.
      replace (8 * S j)%nat with (8 + 8 * j)%nat by lia.
      rewrite bits_app. do 3 f_equal. lia.
  - exists k. done.
  - rewrite fuel_val. lia.
  - destruct r as [r s]. destruct Hr as (-> & Ho & Hs). eauto.
Qed.

(** Appending a word: the low [n] bits, most significant first. *)
Lemma BFwriteWord_ok (data : Z) (n m : nat) (st : BFile) :
  (n <= 32)%nat -> BF_writable (n + m) st ->
  exists st', BFwriteWord bigendian data (Z.of_nat n) st = Ok (1, st') /\
    BF_out st' = BF_out st ++ bits n data /\ BF_writable m st'.
Proof.
  intros Hn Hw. unfold BFwriteWord.
  rewrite (proj2 (Z.ltb_ge 32 (Z.of_nat n))), (proj2 (Z.ltb_ge (Z.of_nat n) 0)) by lia.
  cbn [orb]. rewrite native_htonl, Z.quot_div_nonneg, Z.rem_mod_nonneg by lia.
  change 8 with (Z.of_nat 8). rewrite <- Nat2Z.inj_div, <- Nat2Z.inj_mod.
  set (q := (n / 8)%nat). set (r := (n mod 8)%nat).
  assert (n = r + 8 * q)%nat as Hqr by (unfold q, r; pose proof (Nat.div_mod_eq n 8); lia).
  assert (r < 8)%nat as Hr by (apply Nat.mod_upper_bound; lia).
  assert (bits n data = bits n (u32 data)) as ->.
  { unfold u32. symmetry. change 32 with (Z.of_nat 32). by apply bits_mod. }
  rewrite Hqr, bits_app in *. clearbody q r. clear n Hqr.
  assert (exists s1, (if negb (Z.of_nat r =? 0)
      then c ← aget (be_bytes (u32 data)) (3 - Z.of_nat q); BFwrite c (Z.of_nat r) st
      else Ok (1, st)) = Ok (1, s1) /\
      BF_out s1 = BF_out st ++ bits r (Z.shiftr (u32 data) (Z.of_nat (8 * q))) /\
      BF_writable (8 * q + m) s1) as (s1 & -> & Ho1 & Hw1).
  { destruct (Z.eqb_spec (Z.of_nat r) 0) as [E|E]; cbn [negb].
    - exists st. assert (r = 0%nat) as -> by lia. by rewrite app_nil_r.
    - replace (3 - Z.of_nat q) with (Z.of_nat (3 - q)) by lia.
      rewrite (aget_nat _ _ _ (be_bytes_lookup (u32 data) q ltac:(lia))). res_cbn.
      destruct (BFwrite_ok (byte_of (u32 data) (Z.of_nat q)) r (8 * q + m) st)
        as (s' & Hs' & Ho' & Hw'); [lia | by rewrite Nat.add_assoc |].
      exists s'. split; [exact Hs' |]. split; [| exact Hw'].
      rewrite Ho', bits_byte_of by lia. do 3 f_equal. lia. }
  res_cbn. change (1 =? 0) with false. cbv iota.
  destruct (write_bytes_loop (u32 data) q m s1) as (s' & Hs' & Ho' & Hw'); [lia | done |].
  replace (4 - Z.of_nat q) with (Z.of_nat (4 - q)) by lia.
  exists s'. split; [exact Hs' |]. split; [| done]. by rewrite Ho', Ho1, <- app_assoc.
Qed.
End WordSpec.

(** For every word and every requested width: a width of up to 32 bits
    appends exactly that many low bits of the word to the bit stream, most
    significant first, and reports success; any other width is refused and
    leaves the stream as it was.  The result does not depend on the byte order
    of the machine. *)
Theorem BFwriteWord_spec (bigendian : bool) (data nbits : Z) (m : nat) (st : BFile) :
  BF_writable (Z.to_nat nbits + m) st ->
  if (0 <=? nbits) && (nbits <=? 32) then
    exists st', BFwriteWord bigendian data nbits st = Ok (1, st') /\
      BF_out st' = BF_out st ++ bits (Z.to_nat nbits) data /\ BF_writable m st'
  else BFwriteWord bigendian data nbits st = Ok (0, st).
Proof.
  intros Hw. destruct (Z.leb_spec 0 nbits) as [H0|H0], (Z.leb_spec nbits 32) as [H1|H1]; cbn [andb].
  - pose proof (BFwriteWord_ok bigendian data (Z.to_nat nbits) m st ltac:(lia) Hw) as H.
    by rewrite Z2Nat.id in H by done.
  - unfold BFwriteWord. by rewrite (proj2 (Z.ltb_lt 32 nbits)) by done.
  - unfold BFwriteWord. rewrite (proj2 (Z.ltb_lt nbits 0)) by done. by rewrite orb_true_r.
  - lia.
Qed.

Lemma BFwriteWord_spec_witness :
  exists st', BFwriteWord false 700 11 (mkBit (Some (mkFILE [7] 0 100 false)) "w"%char 5 3 1) = Ok (1, st') /\
    BF_out st' = BF_out (mkBit (Some (mkFILE [7] 0 100 false)) "w"%char 5 3 1) ++ bits 11 700 /\
    BF_writable 2 st'.
Proof.
  apply (BFwriteWord_spec false 700 11 2 (mkBit (Some (mkFILE [7] 0 100 false)) "w"%char 5 3 1)).
  unfold writable. cbn. repeat split; lia.
Defined.

Section WordRead.
Context (bigendian : bool).

Lemma of_be_bytes_snoc l c : of_be_bytes (l ++ [c]) = 256 * of_be_bytes l + c.
Proof. unfold of_be_bytes. by rewrite fold_left_app. Qed.

Lemma of_be_bytes_zeros n : of_be_bytes (replicate n 0) = 0.
Proof.
  induction n as [|n IH]; [done |].
  by rewrite replicate_S_end, of_be_bytes_snoc, IH.
Qed.

Lemma of_bits_8 l k : length k = 8%nat -> of_bits (l ++ k) = 256 * of_bits l + of_bits k.
Proof. intros H. rewrite of_bits_app, H. change (2 ^ Z.of_nat 8) with 256. ring. Qed.

(** The bytes of [*data] filled so far spell the bits read so far. *)
Definition filled (i : nat) (l1 : list bool) (cdata : list Z) : Prop :=
  length cdata = 4%nat /\ Forall is_byte cdata /\ of_be_bytes (take i cdata) = of_bits l1.

Lemma u8_of_bits_byte l : length l = 8%nat -> u8 (of_bits l) = of_bits l.
Proof. intros H. apply u8_small. pose proof (of_bits_range l). rewrite H in *. done. Qed.

Lemma filled_step i l1 k cdata :
  (i < 4)%nat -> length k = 8%nat -> filled i l1 cdata ->
  filled (S i) (l1 ++ k) (<[i := u8 (of_bits k)]> cdata).
Proof.
  intros Hi Hk (Hl & Hb & Hv). split; [by rewrite length_insert |]. split.
  - apply Forall_insert; [done | apply u8_range].
  - rewrite (take_S_r _ _ (u8 (of_bits k))) by (apply list_lookup_insert_eq; lia).
    rewrite take_insert_ge, of_be_bytes_snoc, Hv, of_bits_8, u8_of_bits_byte by done. done.
Qed.

Lemma read_bytes_round_ok j l1 k r cdata st :
  (j < 4)%nat -> filled (3 - j) l1 cdata -> length k = 8%nat ->
  readable st -> BF_in st = k ++ r ->
  exists st', read_bytes_round (Z.of_nat (3 - j), cdata, st) =
      Ok (inl (Z.of_nat (4 - j), <[(3 - j)%nat := u8 (of_bits k)]> cdata, st')) /\
    filled (4 - j) (l1 ++ k) (<[(3 - j)%nat := u8 (of_bits k)]> cdata) /\
    BF_in st' = r /\ readable st'.
Proof.
  intros Hj Hf Hk Hr Hin. unfold read_bytes_round.
  rewrite (proj2 (Z.ltb_lt (Z.of_nat (3 - j)) 4)) by lia.
  destruct (BFread_ok k r st Hr Hin) as (st' & Hst & Hin' & Hr'); [lia |].
  rewrite Hk in Hst. change (Z.of_nat 8) with 8 in Hst. rewrite Hst. res_cbn.
  destruct Hf as (Hl & Hb & Hv).
  rewrite aset_Ok by (unfold zlen; lia). res_cbn. rewrite Nat2Z.id.
  exists st'. split; [do 4 f_equal; lia |]. split; [| done].
  replace (4 - j)%nat with (S (3 - j)) by lia. apply filled_step; [lia | done |].
  split; [done | done].
Qed.

Lemma read_bytes_loop k l1 l2 r cdata st :
  (k <= 4)%nat -> length l2 = (8 * k)%nat -> filled (4 - k) l1 cdata ->
  readable st -> BF_in st = l2 ++ r ->
  exists cdata' st', loop read_bytes_round fuel (Z.of_nat (4 - k), cdata, st) =
      Ok (1, cdata', st') /\
    filled 4 (l1 ++ l2) cdata' /\ BF_in st' = r /\ readable st'.
Proof.
  intros Hk Hl2 Hf Hr Hin.
  loop_with
    (fun '(i, cd, s) => exists j la lb, (j <= 4)%nat /\ i = Z.of_nat (4 - j) /\
       length lb = (8 * j)%nat /\ l1 ++ l2 = la ++ lb /\ filled (4 - j) la cd /\
       readable s /\ BF_in s = lb ++ r)
    (fun '(ok, cd, s) => ok = 1 /\ filled 4 (l1 ++ l2) cd /\ BF_in s = r /\ readable s)
    (fun '(i, cd, s) => 4 - i : Z) x E Hx.
  - intros [[i cd] s] (j & la & lb & Hj & -> & Hlb & Hall & Hfs & Hrs & Hins).
    split; [lia |]. destruct j as [|j].
    + right. destruct lb; [| simpl in Hlb; lia]. rewrite app_nil_r in Hall. rewrite Hall.
      eexists (1, cd, s). split; [reflexivity |]. done.
    + left. rewrite <- (take_drop 8 lb) in Hins, Hall.
      assert (length (take 8 lb) = 8%nat) as H8 by (rewrite length_take; lia).
      destruct (read_bytes_round_ok j la (take 8 lb) (drop 8 lb ++ r) cd s)
        as (s' & Hs' & Hf' & Hin' & Hr');
        [lia | by replace (3 - j)%nat with (4 - S j)%nat by lia | done | done
        | by rewrite Hins, app_assoc |].
      replace (4 - S j)%nat with (3 - j)%nat by lia. rewrite Hs'.
      eexists. split; [reflexivity |]. split; [| lia].
      exists j, (la ++ take 8 lb), (drop 8 lb). split; [lia |]. split; [done |].
      split; [rewrite length_drop; lia |]. split; [by rewrite <- app_assoc |]. done.
  - exists k, l1, l2. done.
  - rewrite fuel_val. lia.
  - destruct x as [[ok cd] s]. destruct Hx as (-> & Hfx & Hin' & Hr'). exists cd, s. done.
Qed.

Lemma be_zero : native_bytes bigendian 0 = [0; 0; 0; 0].
Proof. by destruct bigendian. Qed.

(** Reading [n] bits into a word that was 0. *)
Lemma BFreadWord_ok l r st :
  (length l <= 32)%nat -> readable st -> BF_in st = l ++ r ->
  exists st', BFreadWord bigendian 0 (Z.of_nat (length l)) st = Ok (1, of_bits l, st') /\
    BF_in st' = r /\ readable st'.
Proof.
  intros Hn Hr Hin. unfold BFreadWord. set (n := length l) in *.
  rewrite (proj2 (Z.ltb_ge 32 (Z.of_nat n))), (proj2 (Z.ltb_ge (Z.of_nat n) 0)) by lia.
  cbn [orb]. rewrite be_zero, Z.quot_div_nonneg, Z.rem_mod_nonneg by lia.
  change 8 with (Z.of_nat 8). rewrite <- Nat2Z.inj_div, <- Nat2Z.inj_mod.
  set (q := (n / 8)%nat). set (k := (n mod 8)%nat).
  assert (n = k + 8 * q)%nat as Hqr by (unfold q, k; pose proof (Nat.div_mod_eq n 8); lia).
  assert (k < 8)%nat as Hk by (apply Nat.mod_upper_bound; lia).
  clearbody q k.
  rewrite <- (take_drop k l) in Hin. rewrite <- app_assoc in Hin.
  assert (length (take k l) = k) as Hlk by (rewrite length_take; unfold n in *; lia).
  assert (length (drop k l) = (8 * q)%nat) as Hld by (rewrite length_drop; unfold n in *; lia).
  assert (exists cd s1, (if negb (Z.of_nat k =? 0)
      then r ← BFread (Z.of_nat k) st;
           let '(ok, c, stream) := r in
           cdata ← aset [0; 0; 0; 0] (3 - Z.of_nat q) c; Ok (ok, cdata, stream)
      else Ok (1, [0; 0; 0; 0], st)) = Ok (1, cd, s1) /\
      filled (4 - q) (take k l) cd /\ BF_in s1 = drop k l ++ r /\ readable s1)
    as (cd & s1 & -> & Hf1 & Hin1 & Hr1).
  { destruct (Z.eqb_spec (Z.of_nat k) 0) as [E|E]; cbn [negb].
    - assert (k = 0%nat) as -> by lia. exists [0; 0; 0; 0], st. split; [done |].
      split; [| split; done]. split; [done |]. split; [repeat constructor; done |].
      change [0; 0; 0; 0] with (replicate 4 0). rewrite take_replicate.
      by rewrite of_be_bytes_zeros.
    - destruct (BFread_ok (take k l) (drop k l ++ r) st Hr Hin) as (s' & Hs' & Hin' & Hr'); [lia |].
      rewrite Hlk in Hs'. rewrite Hs'. res_cbn.
      rewrite aset_Ok by (unfold zlen; simpl; lia). res_cbn.
      eexists _, s'. split; [reflexivity |]. split; [| done].
      replace (Z.to_nat (3 - Z.of_nat q)) with (3 - q)%nat by lia.
      split; [by rewrite length_insert |].
      split; [apply Forall_insert; [repeat constructor; done | apply u8_range] |].
      replace (4 - q)%nat with (S (3 - q)) by lia.
      rewrite (take_S_r _ _ (u8 (of_bits (take k l)))) by (apply list_lookup_insert_eq; simpl; lia).
      change [0; 0; 0; 0] with (replicate 4 0).
      rewrite take_insert_ge, of_be_bytes_snoc, take_replicate, of_be_bytes_zeros by done.
      rewrite u8_small; [lia |]. pose proof (of_bits_range (take k l)) as R. rewrite Hlk in R.
      assert (2 ^ Z.of_nat k <= 2 ^ 8) by (apply Z.pow_le_mono_r; lia). lia. }
  res_cbn. change (1 =? 0) with false. cbv iota.
  destruct (read_bytes_loop q (take k l) (drop k l) r cd s1) as (cd' & s' & Hs' & Hf' & Hin' & Hr');
    [lia | done | done | done | done |].
  replace (Z.of_nat 4 - Z.of_nat q) with (Z.of_nat (4 - q)) by lia.
  change (4 - Z.of_nat q) with (4 - Z.of_nat q).
  replace (4 - Z.of_nat q) with (Z.of_nat (4 - q)) by lia.
  rewrite Hs'. res_cbn. change (1 =? 0) with false. cbv iota.
  destruct Hf' as (Hl4 & Hb4 & Hv4). rewrite take_drop in Hv4.
  exists s'. split; [| done]. rewrite ntohl_of_native by done.
  rewrite take_ge in Hv4 by lia. by rewrite Hv4.
Qed.
End WordRead.

(** ** Flushing *)

(** Zero bits that complete the last byte. *)
Definition pad_bits (n : Z) : nat := Z.to_nat ((- n) mod 8).

Lemma bits_shl_pad n k x : bits (n + k) (Z.shiftl x (Z.of_nat k)) = bits n x ++ replicate k false.
Proof.
  rewrite bits_app, Z.shiftr_shiftl_l, Z.sub_diag, Z.shiftl_0_r by lia. f_equal.
  rewrite <- bits_0. apply bits_ext. intros i Hi. rewrite Z.shiftl_spec_low by lia.
  by rewrite Z.testbit_0_l.
Qed.

(** Flushing an output file completes the pending byte with zero bits and
    leaves the stream at a byte boundary; with nothing pending it does nothing
    and returns 0. *)
Lemma BFflush_write m st :
  BF_writable (7 + m) st ->
  exists st', BFflush st = Ok (if bits_in_buf st =? 0 then 0 else 1, st') /\
    BF_out st' = BF_out st ++ replicate (pad_bits (bits_in_buf st)) false /\
    BF_writable m st' /\ bits_in_buf st' = 0.
Proof.
  intros (Hm & Hb & Hbuf & Hroom & Hpos). unfold BFflush. rewrite Hm.
  change (Ascii.eqb "w" "w") with true. cbv iota.
  destruct (Z.eqb_spec (bits_in_buf st) 0) as [E|E].
  - rewrite E. change ((0 <? 0) && (0 <? 8)) with false. cbv iota.
    change (0 =? 0) with true. res_cbn. exists st. split; [done |].
    split; [by rewrite app_nil_r |]. split; [| done].
    split; [done |]. split; [done |]. split; [done |]. split; [lia | done].
  - rewrite (proj2 (Z.ltb_lt 0 (bits_in_buf st))), (proj2 (Z.ltb_lt (bits_in_buf st) 8)) by lia.
    cbn [andb]. set (n := bits_in_buf st) in *. set (b := u8 _).
    destruct (handle st) as [f|] eqn:Hh; [| simpl in Hroom; lia].
    simpl in Hroom. destruct (failed f) eqn:F; [lia |].
    unfold BF_put. res_cbn. rewrite fwrite1_Ok by (unfold zlen; simpl; lia). res_cbn. cbn [snd].
    res_cbn. unfold fflush. cbn [failed]. rewrite F. change (0 =? 0) with true. cbv iota.
    eexists. split; [reflexivity |].
    assert (pad_bits n = Z.to_nat (8 - n)) as Hp.
    { unfold pad_bits. f_equal. symmetry. apply (Z.mod_unique _ _ (-1)); lia. }
    unfold out_bits, writable. rewrite Hh. cbn [handle position bits_in_buf buf mode BF_sunk contents].
    split.
    + rewrite byte_bits_app, byte_bits_singleton, app_nil_r, <- app_assoc. f_equal.
      rewrite Hp. subst b. unfold u8. change 8%nat with (8 + 0)%nat at 1.
      change (2 ^ 8) with (2 ^ Z.of_nat 8). rewrite bits_mod by lia.
      rewrite <- bits_shl_pad. fold n. f_equal; [lia |]. f_equal. lia.
    + split; [| done]. split; [done |]. split; [lia |]. split; [lia |]. cbn [BF_room quota failed].
      change (zlen [b]) with 1. split; [lia |].
      rewrite zlen_app. change (zlen [b]) with 1. simpl in Hpos. lia.
Qed.

(** Flushing an input file drops what is left of the current byte. *)
Lemma BFflush_read pad l st :
  readable st -> bits_in_buf st < 8 -> (length pad < 8)%nat ->
  BF_in st = pad ++ byte_bits l -> l <> [] ->
  exists st', BFflush st = Ok (1, st') /\ BF_in st' = byte_bits l /\ readable st'.
Proof.
  intros (Hm & Hr & Hh) Hb Hpad Hin Hl. unfold BFflush. rewrite Hm.
  change (Ascii.eqb "r" "w") with false. change (Ascii.eqb "r" "r") with true. cbv iota.
  unfold in_bits in Hin.
  assert (length pad = Z.to_nat (bits_in_buf st) /\
          length (BF_rest (handle st) (position st)) = length l) as [Hlen HlenR].
  { apply (f_equal length) in Hin.
    rewrite !length_app, !length_byte_bits, length_take, length_bits in Hin. lia. }
  apply app_inj_1 in Hin as [_ Hin]; [| rewrite length_take, length_bits; lia].
  destruct (BF_rest (handle st) (position st)) as [|x tl] eqn:R;
    [destruct l; [done | simpl in HlenR; lia] |].
  destruct (BF_get_ok _ _ _ _ R) as (h & -> & Hrest). res_cbn.
  eexists. split; [reflexivity |]. unfold readable, in_bits.
  cbn [mode bits_in_buf buf handle position]. rewrite Hrest.
  change (take (Z.to_nat 8) (bits 8 x)) with (bits 8 x).
  rewrite <- byte_bits_cons. split; [done |]. split; [done |]. split; [lia | done].
Qed.

(** ** Whole files *)

Fixpoint write_words (be : bool) (ws : list (Z * nat)) (st : BFile) : res BFile :=
  match ws with
  | [] => Ok st
  | (d, n) :: ws =>
      r ← BFwriteWord be d (Z.of_nat n) st;
      if r.1 =? 0 then Err ExitCall else write_words be ws r.2
  end.

Fixpoint read_words (be : bool) (ns : list nat) (st : BFile) : res (list Z * BFile) :=
  match ns with
  | [] => Ok ([], st)
  | n :: ns =>
      r ← BFreadWord be 0 (Z.of_nat n) st;
      if r.1.1 =? 0 then Err ExitCall
      else rs ← read_words be ns r.2; Ok (r.1.2 :: rs.1, rs.2)
  end.

Definition words_bits (ws : list (Z * nat)) : list bool := ws ≫= fun '(d, n) => bits n d.

Lemma write_words_ok be ws m st :
  Forall (fun w => (w.2 <= 32)%nat) ws ->
  BF_writable (length (words_bits ws) + m) st ->
  exists st', write_words be ws st = Ok st' /\
    BF_out st' = BF_out st ++ words_bits ws /\ BF_writable m st'.
Proof.
  intros Hws. revert st. induction Hws as [|[d n] ws Hn Hws IH]; intros st Hw; simpl write_words.
  - exists st. by rewrite app_nil_r.
  - change (words_bits ((d, n) :: ws)) with (bits n d ++ words_bits ws) in *.
    rewrite length_app, length_bits, <- Nat.add_assoc in Hw.
    destruct (BFwriteWord_ok be d n _ st Hn Hw) as (s1 & -> & Ho1 & Hw1). res_cbn.
    cbn [fst snd]. change (1 =? 0) with false. cbv iota.
    destruct (IH s1 Hw1) as (s2 & -> & Ho2 & Hw2).
    exists s2. split; [done |]. split; [| done]. by rewrite Ho2, Ho1, <- app_assoc.
Qed.

Lemma read_words_ok be ws r st :
  Forall (fun w => (w.2 <= 32)%nat) ws -> readable st ->
  BF_in st = words_bits ws ++ r ->
  exists st', read_words be (snd <$> ws) st = Ok ((fun '(d, n) => d mod 2 ^ Z.of_nat n) <$> ws, st') /\
    BF_in st' = r.
Proof.
  intros Hws. revert st. induction Hws as [|[d n] ws Hn Hws IH]; intros st Hr Hin;
    rewrite ?fmap_nil, ?fmap_cons; cbn [read_words snd].
  - eexists. split; [reflexivity | done].
  - change (words_bits ((d, n) :: ws)) with (bits n d ++ words_bits ws) in Hin.
    rewrite <- app_assoc in Hin.
    destruct (BFreadWord_ok be (bits n d) _ st ltac:(by rewrite length_bits) Hr Hin)
      as (s1 & Hs1 & Hin1 & Hr1).
    rewrite length_bits, of_bits_bits in Hs1. rewrite Hs1. res_cbn. cbn [fst snd].
    change (1 =? 0) with false. cbv iota.
    destruct (IH s1 Hr1 Hin1) as (s2 & -> & Hin2). res_cbn. eauto.
Qed.

(** An empty file open for writing, and a file open for reading from its start. *)
Lemma BFopen_write q (m : nat) :
  Z.of_nat m < 8 * q + 8 ->
  exists st, BFopen (Some (mkFILE [] 0 q false)) "w" = Ok (1, st) /\
    BF_out st = [] /\ BF_writable m st.
Proof.
  intros Hq. eexists. split; [reflexivity |]. split; [done |].
  split; [done |]. split; [done |]. split; [cbn; lia |]. split; [cbn; lia | done].
Qed.

Lemma BFopen_read data q :
  exists st, BFopen (Some (mkFILE data 0 q false)) "r" = Ok (1, st) /\
    BF_in st = byte_bits data /\ readable st.
Proof. eexists. split; [reflexivity |]. split; [done |]. unfold readable. cbn. split; [done |]. split; [lia | done]. Qed.

Lemma pad_bits_spec k : exists j, k + Z.of_nat (pad_bits k) = 8 * j.
Proof.
  unfold pad_bits. rewrite Z2Nat.id by (apply Z.mod_pos_bound; lia).
  exists (- ((- k) / 8)). pose proof (Z.div_mod (- k) 8). lia.
Qed.

Lemma pad_bits_add j k : pad_bits (8 * j + k) = pad_bits k.
Proof.
  unfold pad_bits. f_equal. replace (- (8 * j + k)) with (- k + (- j) * 8) by lia. apply Z_mod_plus_full.
Qed.

(** At a byte boundary the position counts the bytes written. *)
Lemma BF_position_aligned m df :
  BF_writable m df -> bits_in_buf df = 0 -> zlen (BF_out df) = 8 * position df.
Proof.
  intros (_ & _ & _ & _ & Hpos) H0. unfold out_bits. rewrite H0. simpl bits. rewrite app_nil_r.
  rewrite Hpos at 2. unfold zlen. rewrite length_byte_bits. lia.
Qed.

(** Flushing completes the bits written since the last byte boundary. *)
Lemma BFflush_pads m df B g :
  BF_writable (7 + m) df -> BF_out df = B ++ g -> (8 | zlen B) ->
  exists r df', BFflush df = Ok (r, df') /\ BF_out df' = B ++ g ++ replicate (pad_bits (zlen g)) false /\
    BF_writable m df' /\ bits_in_buf df' = 0.
Proof.
  intros Hw Ho [j Hj]. pose proof Hw as (_ & Hbb & _).
  destruct (BFflush_write m df Hw) as (df' & E & Ho' & Hw' & H0).
  eexists _, df'. split; [exact E |]. split; [| done]. rewrite Ho', Ho, <- app_assoc. do 3 f_equal.
  apply (f_equal zlen) in Ho. unfold out_bits in Ho. rewrite !zlen_app, zlen_bits in Ho.
  assert (zlen (byte_bits (BF_sunk (handle df) (position df))) =
          8 * zlen (BF_sunk (handle df) (position df))) as Hby by (unfold zlen; rewrite length_byte_bits; lia).
  assert (zlen g = 8 * (zlen (BF_sunk (handle df) (position df)) - j) + bits_in_buf df) as -> by lia.
  by rewrite pad_bits_add.
Qed.

Lemma BFclose_write m st :
  BF_writable (15 + m) st ->
  exists st' f, BFclose st = Ok (1, st') /\ handle st' = Some f /\
    byte_bits (contents f) = BF_out st ++ replicate (pad_bits (bits_in_buf st)) false.
Proof.
  intros Hw. unfold BFclose. replace (15 + m)%nat with (7 + (8 + m))%nat in Hw by lia.
  destruct (BFflush_write (8 + m) st Hw) as (s1 & Hs1 & Ho1 & Hw1 & Hb1).
  destruct Hw as (Hm & _). rewrite Hm. change (Ascii.eqb "w" "w") with true. cbv iota.
  rewrite Hs1. res_cbn. cbn [snd]. destruct Hw1 as (_ & _ & _ & Hroom & _).
  unfold out_bits in Ho1 at 1. destruct (handle s1) as [f|] eqn:Hh; [| simpl in Hroom; lia].
  simpl in Hroom. destruct (failed f) eqn:F; [lia |]. res_cbn. unfold fflush. rewrite F.
  change (0 =? 0) with true. cbv iota. exists s1, f. split; [done |]. split; [done |].
  rewrite Hb1 in Ho1. simpl in Ho1. by rewrite app_nil_r in Ho1.
Qed.

(** Writing a list of words to a new file, as the data compressors do. *)
Definition save_words (be : bool) (ws : list (Z * nat)) (q : Z) : res (Z * BFile) :=
  o ← BFopen (Some (mkFILE [] 0 q false)) "w";
  st ← write_words be ws o.2;
  BFclose st.

(** Reading words of the given widths from a file. *)
Definition load_words (be : bool) (ns : list nat) (data : list Z) : res (list Z) :=
  o ← BFopen (Some (mkFILE data 0 0 false)) "r";
  rs ← read_words be ns o.2;
  Ok rs.1.

(** A file of words of any widths up to 32 bits: what is written by
    [BFopen], [BFwriteWord] and [BFclose] is read back by [BFopen] and
    [BFreadWord], each word modulo its width, whatever the byte orders of the
    writing and of the reading machine; every step reports success and the
    file has the least number of bytes that can hold the bits. *)
Theorem bit_file_roundtrip (be be' : bool) (ws : list (Z * nat)) (q : Z) :
  Forall (fun w => (w.2 <= 32)%nat) ws ->
  zlen (words_bits ws) + 15 < 8 * q + 8 ->
  exists st f, save_words be ws q = Ok (1, st) /\ handle st = Some f /\
    (8 * zlen (contents f) - 8 < zlen (words_bits ws) <= 8 * zlen (contents f)) /\
    load_words be' (snd <$> ws) (contents f) = Ok ((fun '(d, n) => d mod 2 ^ Z.of_nat n) <$> ws).
Proof.
  intros Hws Hq. unfold save_words, load_words.
  destruct (BFopen_write q (length (words_bits ws) + 15)) as (s0 & -> & Ho0 & Hw0);
    [unfold zlen in Hq; lia |]. res_cbn. cbn [snd].
  destruct (write_words_ok be ws 15 s0 Hws Hw0) as (s1 & -> & Ho1 & Hw1). res_cbn.
  rewrite Ho0 in Ho1. simpl in Ho1.
  assert (0 <= bits_in_buf s1 < 8) as Hb1 by (destruct Hw1 as (_ & ? & _); lia).
  destruct (BFclose_write 0 s1 Hw1) as (s2 & f & -> & Hf & Hbits).
  exists s2, f. split; [done |]. split; [done |]. rewrite Ho1 in Hbits. split.
  - unfold out_bits in Ho1. apply (f_equal length) in Hbits, Ho1.
    rewrite length_app, length_replicate, length_byte_bits in Hbits.
    rewrite length_app, length_bits, length_byte_bits in Ho1.
    unfold pad_bits in Hbits. unfold zlen.
    assert ((- bits_in_buf s1) mod 8 = 0 \/ bits_in_buf s1 <> 0) as Hz
      by (destruct (Z.eq_dec (bits_in_buf s1) 0) as [->|]; [by left | by right]).
    Z.div_mod_to_equations. lia.
  - destruct (BFopen_read (contents f) 0) as (s3 & -> & Hi3 & Hr3). res_cbn. cbn [snd].
    destruct (read_words_ok be' ws _ s3 Hws Hr3 (eq_trans Hi3 Hbits)) as (s4 & -> & _). res_cbn.
    done.
Qed.

Lemma bit_file_roundtrip_witness :
  exists st f, save_words false [(5, 3%nat); (-1, 17%nat); (70000, 32%nat)] 100 = Ok (1, st) /\
    handle st = Some f /\ 8 * zlen (contents f) - 8 < 52 <= 8 * zlen (contents f) /\
    load_words true [3%nat; 17%nat; 32%nat] (contents f) = Ok [5; 131071; 70000].
Proof.
  apply (bit_file_roundtrip false true [(5, 3%nat); (-1, 17%nat); (70000, 32%nat)] 100).
  - repeat constructor; simpl; lia.
  - vm_compute. reflexivity.
Defined.

(** [BFflush] on an output file pads the last byte with zero bits up to the
    next byte boundary; the reader's [BFflush] skips just these bits and
    positions the stream on the first bit of the next byte, whatever was left
    of the current one. *)
Theorem BFflush_aligned (out inp : BFile) (m : nat) (l : list Z) :
  BF_writable (7 + m) out -> bits_in_buf out <> 0 ->
  readable inp ->
  BF_in inp = replicate (pad_bits (bits_in_buf out)) false ++ byte_bits l -> l <> [] ->
  exists out' inp',
    BFflush out = Ok (1, out') /\ BFflush inp = Ok (1, inp') /\
    BF_out out' = BF_out out ++ replicate (pad_bits (bits_in_buf out)) false /\
    (8 | zlen (BF_out out')) /\ BF_in inp' = byte_bits l /\ BF_writable m out'.
Proof.
  intros Hw Hne Hr Hin Hl.
  destruct (BFflush_write m out Hw) as (out' & Ho & Hbits & Hw' & Hb0).
  rewrite (proj2 (Z.eqb_neq _ _) Hne) in Ho.
  assert (0 <= bits_in_buf out < 8) by (destruct Hw as (_ & ? & _); lia).
  assert (pad_bits (bits_in_buf out) = Z.to_nat (8 - bits_in_buf out)) as Hpad.
  { unfold pad_bits. f_equal. symmetry. apply (Z.mod_unique _ _ (-1)); lia. }
  destruct (BFflush_read (replicate (pad_bits (bits_in_buf out)) false) l inp) as (inp' & Hi & Hin' & _);
    [done | | rewrite length_replicate; lia | done | done |].
  { unfold in_bits, readable in *. destruct (Z.eq_dec (bits_in_buf inp) 8) as [E|]; [| lia].
    exfalso. apply (f_equal length) in Hin.
    rewrite !length_app, !length_byte_bits, length_take, length_bits, length_replicate, E in Hin. lia. }
  exists out', inp'. split; [done |]. split; [done |]. split; [done |]. split; [| done].
  exists (zlen (BF_sunk (handle out') (position out'))).
  unfold out_bits. rewrite Hb0. simpl bits. rewrite app_nil_r. unfold zlen.
  rewrite length_byte_bits. lia.
Qed.

Lemma BFflush_aligned_witness :
  exists out' inp',
    BFflush (mkBit (Some (mkFILE [7] 0 100 false)) "w"%char 5 3 1) = Ok (1, out') /\
    BFflush (mkBit (Some (mkFILE [160; 9] 1 0 false)) "r"%char 0 5 1) = Ok (1, inp') /\
    BF_out out' = BF_out (mkBit (Some (mkFILE [7] 0 100 false)) "w"%char 5 3 1) ++ replicate 5 false /\
    (8 | zlen (BF_out out')) /\ BF_in inp' = byte_bits [9] /\ BF_writable 3 out'.
Proof.
  apply (BFflush_aligned (mkBit (Some (mkFILE [7] 0 100 false)) "w"%char 5 3 1)
           (mkBit (Some (mkFILE [160; 9] 1 0 false)) "r"%char 0 5 1) 3 [9]).
  - unfold writable. cbn. repeat split; lia.
  - discriminate.
  - unfold readable. cbn. split; [reflexivity |]. split; [lia | discriminate].
  - reflexivity.
  - discriminate.
Defined.
