(* ===== verification/Golomb.v ===== *)
(** * Golomb codes: cl/compression.c

    The code that compresses the gaps between the occurrences of a word:
    [compute_ba], [write_golomb_code] and its two readers.  [golomb_bits] is the
    code word as a bit sequence, the specification both sides meet; the reader
    is proved against the interface [BitReader] and so holds for bit files and
    for bit streams in memory. *)

From Stdlib Require Import ZArith Lia Ascii String.
From stdpp Require Import base tactics option list numbers.
From S2P Require Import Prelude Bits Storage BitIO.

Open Scope Z_scope.

(** ** The parameter of the code *)

(** [compute_ba]; [pa ft corpus_size] is the rounded-up quotient of two
    logarithms of the C mathematics library, cast to [int]. *)
Definition compute_ba (pa : Z -> Z -> Z) (ft corpus_size : Z) : Z :=
  let pa := pa ft corpus_size in
  if 1 <? pa then pa else 2.

(** [ceil(log2(b * 1.0))] *)
Definition ceil_log2 (b : Z) : Z := Z.log2_up b.

(** ** Writing *)

Definition write_golomb_code (bigendian : bool) (x b : Z) (bf : BFile) : res (Z * BFile) :=
  q ← c_div x b;
  let res := x - q * b in
  let ub := ceil_log2 b in
  let lb := ub - 1 in
  bf ← for_up (fun _ bf => r ← BFwrite 1 1 bf; Ok r.2) 0 q bf;
  r ← BFwrite 0 1 bf;
  let bf := r.2 in
  top ← c_shl1 ub;
  let nr_sc := top - b in
  r ← (if res <? nr_sc then BFwriteWord bigendian (u32 res) lb bf
       else BFwriteWord bigendian (u32 (res + nr_sc)) ub bf);
  Ok (1, r.2).

(** ** Reading

    The two readers are the same function over the two kinds of bit stream;
    [rd] is [BFread] or [BSread]. *)
Section Read.
Context {S : Type} (rd : Z -> S -> res (Z * Z * S)).

(** [do { read(&bit, 1, s); if (bit) q++; } while (bit);] *)
Definition unary_round (st : Z * S) : res (Z * S + Z * S) :=
  let '(q, s) := st in
  r ← rd 1 s;
  let '(_, bit, s) := r in
  if negb (bit =? 0) then q ← c_int (q + 1); Ok (inl (q, s)) else Ok (inr (q, s)).

(** [r <<= 1; read(&bit, 1, s); r |= bit;] *)
Definition shift_in (st : Z * S) : res (Z * S) :=
  let '(r, s) := st in
  x ← rd 1 s;
  let '(_, bit, s) := x in
  Ok (Z.lor (u32 (Z.shiftl r 1)) bit, s).

Definition read_golomb (b : Z) (s : S) : res (Z * S) :=
  let ub := ceil_log2 b in
  let lb := ub - 1 in
  u ← loop unary_round fuel (0, s);
  let '(q, s) := u in
  top ← c_shl1 ub;
  let nr_sc := top - b in
  x ← for_up (fun _ => shift_in) 0 lb (0, s);
  let '(r, s) := x in
  x ← (if u32 nr_sc <=? r then
         x ← shift_in (r, s);
         let '(r, s) := x in Ok (u32 (r - nr_sc), s)
       else Ok (r, s));
  let '(r, s) := x in
  qb ← c_int (q * b);
  Ok (s32 (u32 (r + qb)), s).
End Read.

Definition read_golomb_code_bf (b : Z) (bf : BFile) : res (Z * BFile) := read_golomb BFread b bf.

Definition read_golomb_code_bs (b : Z) (bs : BStream) : res (Z * BStream) := read_golomb BSread b bs.

(** ** The code word *)

(** [2^ub - b]: so many remainders have the shorter code. *)
Definition short_codes (b : Z) : Z := 2 ^ Z.log2_up b - b.

Definition golomb_suffix (b x : Z) : list bool :=
  let ub := Z.to_nat (Z.log2_up b) in
  if x mod b <? short_codes b then bits (ub - 1) (x mod b) else bits ub (x mod b + short_codes b).

Definition golomb_bits (b x : Z) : list bool :=
  replicate (Z.to_nat (x / b)) true ++ [false] ++ golomb_suffix b x.

(** Parameters for which the [int] arithmetic of the code does not overflow. *)
Definition golomb_param (b : Z) : Prop := 2 <= b <= 2 ^ 30.

Lemma golomb_param_log b :
  golomb_param b -> 1 <= Z.log2_up b <= 30 /\ b <= 2 ^ Z.log2_up b < 2 * b.
Proof.
  intros [H1 H2]. pose proof (Z.log2_up_spec b ltac:(lia)) as [L U].
  assert (0 < Z.log2_up b) by (apply Z.log2_up_pos; lia).
  assert (Z.log2_up b <= 30) by (apply Z.log2_up_le_pow2; lia).
  split; [lia |]. split; [lia |].
  replace (Z.log2_up b) with (Z.succ (Z.pred (Z.log2_up b))) by lia.
  rewrite Z.pow_succ_r by lia. lia.
Qed.

Lemma c_shl1_Ok k : 0 <= k <= 30 -> c_shl1 k = Ok (2 ^ k).
Proof.
  intros. unfold c_shl1. rewrite (proj2 (Z.leb_le 0 k)), (proj2 (Z.leb_le k 30)) by lia.
  cbn [andb]. by rewrite Z.shiftl_1_l.
Qed.

(** ** Writing appends the code word *)

Lemma BFwrite_bit (b : bool) m bf :
  BF_writable (1 + m) bf ->
  exists bf', BFwrite (Z.b2z b) 1 bf = Ok (1, bf') /\
    BF_out bf' = BF_out bf ++ [b] /\ BF_writable m bf'.
Proof.
  intros Hw. destruct (BFwrite_ok (Z.b2z b) 1 m bf ltac:(lia) Hw) as (bf' & E & Ho & Hw').
  exists bf'. split; [exact E |]. split; [| done]. rewrite Ho. by destruct b.
Qed.

Lemma write_unary n m bf :
  BF_writable (n + m) bf ->
  exists bf', for_up (fun _ bf => r ← BFwrite 1 1 bf; Ok r.2) 0 (Z.of_nat n) bf = Ok bf' /\
    BF_out bf' = BF_out bf ++ replicate n true /\ BF_writable m bf'.
Proof.
  intros Hw.
  for_up_with
    (fun i s => exists k, i = Z.of_nat k /\ (k <= n)%nat /\
       BF_out s = BF_out bf ++ replicate k true /\ BF_writable (n - k + m) s) s E Hs.
  - lia.
  - intros i s Hi (k & -> & Hk & Ho & Hs).
    destruct (BFwrite_bit true (n - S k + m) s) as (s' & E & Ho' & Hs').
    { by replace (1 + (n - S k + m))%nat with (n - k + m)%nat by lia. }
    cbn [Z.b2z] in E. rewrite E. res_cbn. eexists. split; [reflexivity |]. cbn [snd]. exists (S k).
    split; [lia |]. split; [lia |]. split; [| done].
    by rewrite Ho', Ho, replicate_S_end, app_assoc.
  - exists 0%nat. rewrite Nat.sub_0_r, app_nil_r. split; [done |]. split; [lia | done].
  - destruct Hs as (k & Hk & _ & Ho & Hs). assert (k = n) as -> by lia.
    rewrite Nat.sub_diag in Hs. eauto.
Qed.

Lemma write_golomb_code_ok be x b m bf :
  golomb_param b -> 0 <= x <= INT_MAX ->
  BF_writable (length (golomb_bits b x) + m) bf ->
  exists bf', write_golomb_code be x b bf = Ok (1, bf') /\
    BF_out bf' = BF_out bf ++ golomb_bits b x /\ BF_writable m bf'.
Proof.
  intros Hb Hx Hw. destruct (golomb_param_log b Hb) as [Hub Hpow].
  assert (1 < b) as Hb1 by (unfold golomb_param in Hb; lia).
  unfold write_golomb_code. rewrite c_div_Ok by lia. res_cbn.
  assert (0 <= x / b) by (apply Z.div_pos; lia).
  assert (x - x / b * b = x mod b) as -> by (pose proof (Z.div_mod x b); lia).
  pose proof (Z.mod_pos_bound x b ltac:(lia)) as Hr.
  unfold golomb_bits in Hw |- *. rewrite !length_app, length_replicate in Hw.
  rewrite <- !Nat.add_assoc in Hw.
  destruct (write_unary _ _ _ Hw) as (b1 & E1 & Ho1 & Hw1). rewrite Z2Nat.id in E1 by done.
  rewrite E1. res_cbn.
  destruct (BFwrite_bit false _ b1 Hw1) as (b2 & E2 & Ho2 & Hw2).
  cbn [Z.b2z] in E2. rewrite E2. res_cbn. cbn [snd].
  unfold ceil_log2. rewrite c_shl1_Ok by lia. res_cbn.
  fold (short_codes b). rewrite Ho1 in Ho2.
  set (k := Z.to_nat (Z.log2_up b)).
  assert (Z.log2_up b = Z.of_nat k) as Hk by lia.
  unfold golomb_suffix in *. destruct (Z.ltb_spec (x mod b) (short_codes b)) as [Hs|Hs].
  - replace (Z.log2_up b - 1) with (Z.of_nat (k - 1)) by lia.
    destruct (BFwriteWord_ok be (u32 (x mod b)) (k - 1) m b2) as (b3 & -> & Ho3 & Hw3);
      [lia | by rewrite length_bits in Hw2 |].
    res_cbn. eexists. split; [reflexivity |]. split; [| exact Hw3]. cbn [snd].
    rewrite Ho3, Ho2, <- !app_assoc. do 3 f_equal.
    unfold u32. rewrite Z.mod_small by (unfold golomb_param in Hb; lia). done.
  - rewrite Hk.
    destruct (BFwriteWord_ok be (u32 (x mod b + short_codes b)) k m b2) as (b3 & -> & Ho3 & Hw3);
      [lia | by rewrite length_bits in Hw2 |].
    res_cbn. eexists. split; [reflexivity |]. split; [| exact Hw3]. cbn [snd].
    rewrite Ho3, Ho2, <- !app_assoc. do 3 f_equal.
    unfold u32. rewrite Z.mod_small by (unfold short_codes, golomb_param in *; lia).
    by rewrite Nat2Z.id.
Qed.

(** ** Reading inverts it *)
Section ReadOk.
Context {S : Type} `{R : BitReader S}.

Lemma rd_bit (b : bool) l s :
  rd_ok s -> rd_in s = b :: l ->
  exists s', rd_bits 1 s = Ok (1, Z.b2z b, s') /\ rd_in s' = l /\ rd_ok s' /\ rd_mid s'.
Proof.
  intros Hs Hin. destruct (rd_spec [b] l s Hs Hin) as (s' & E & Hin' & Hs' & Hm').
  exists s'. split; [| split; [done | split; [done | by apply Hm']]]. change (Z.of_nat (length [b])) with 1 in E. rewrite E. by destruct b.
Qed.

Lemma read_unary n l s :
  Z.of_nat n <= INT_MAX -> rd_ok s -> rd_in s = replicate n true ++ false :: l ->
  exists s', loop (unary_round rd_bits) fuel (0, s) = Ok (Z.of_nat n, s') /\
    rd_in s' = l /\ rd_ok s' /\ rd_mid s'.
Proof.
  intros Hn Hs Hin.
  loop_with
    (fun '(q, t) => exists k, (k <= n)%nat /\ q = Z.of_nat k /\ rd_ok t /\
       rd_in t = replicate (n - k) true ++ false :: l)
    (fun '(q, t) => q = Z.of_nat n /\ rd_in t = l /\ rd_ok t /\ rd_mid t)
    (fun '(q, t) => Z.of_nat n - q : Z) r E Hr.
  - intros [q t] (k & Hk & -> & Ht & Hint). split; [lia |]. unfold unary_round.
    destruct (n - k)%nat as [|j] eqn:Hj.
    + destruct (rd_bit false _ t Ht Hint) as (t' & -> & Hint' & Ht' & Hmt'). res_cbn.
      change (negb (Z.b2z false =? 0)) with false. cbv iota.
      right. eexists. split; [reflexivity |]. split; [lia | done].
    + destruct (rd_bit true _ t Ht Hint) as (t' & -> & Hint' & Ht' & _). res_cbn.
      change (negb (Z.b2z true =? 0)) with true. cbv iota.
      rewrite c_int_Ok by (unfold INT_MIN, INT_MAX in *; lia). res_cbn.
      left. eexists. split; [reflexivity |]. split; [| lia].
      exists (Datatypes.S k). split; [lia |]. split; [lia |]. split; [done |].
      by replace (n - Datatypes.S k)%nat with j by lia.
  - exists 0%nat. rewrite Nat.sub_0_r. split; [lia |]. done.
  - rewrite fuel_val. unfold INT_MAX in Hn. lia.
  - destruct r as [q t]. destruct Hr as (-> & Hint & Ht & Hmt). eauto.
Qed.

Lemma shift_in_ok r b l s :
  0 <= r < 2 ^ 31 -> rd_ok s -> rd_in s = b :: l ->
  exists s', shift_in rd_bits (r, s) = Ok (snoc_bit r b, s') /\ rd_in s' = l /\ rd_ok s' /\ rd_mid s'.
Proof.
  intros Hr Hs Hin. unfold shift_in.
  destruct (rd_bit b l s Hs Hin) as (s' & -> & Hin' & Hs'). res_cbn.
  exists s'. split; [| done]. do 2 f_equal. unfold snoc_bit.
  rewrite Z.shiftl_mul_pow2, Z.pow_1_r, u32_small by lia.
  destruct b; cbn [Z.b2z].
  - rewrite lor_1_even; [lia |]. by rewrite Z.mul_comm, Z.even_mul.
  - rewrite Z.lor_0_r. lia.
Qed.

Lemma read_binary k l s :
  (length k <= 31)%nat -> rd_ok s -> rd_mid s -> rd_in s = k ++ l ->
  exists s', for_up (fun _ => shift_in rd_bits) 0 (Z.of_nat (length k)) (0, s) =
      Ok (of_bits k, s') /\ rd_in s' = l /\ rd_ok s' /\ rd_mid s'.
Proof.
  intros Hk Hs Hms Hin.
  for_up_with
    (fun i '(r, t) => exists k1 k2, k = k1 ++ k2 /\ i = Z.of_nat (length k1) /\
       r = of_bits k1 /\ rd_in t = k2 ++ l /\ rd_ok t /\ rd_mid t) x E Hx.
  - lia.
  - intros i [r t] Hi (k1 & k2 & -> & -> & -> & Hint & Ht & Hmt).
    rewrite length_app in *. destruct k2 as [|b k2]; [simpl in Hi; lia |]. simpl length in Hk.
    destruct (shift_in_ok (of_bits k1) b (k2 ++ l) t) as (t' & -> & Hint' & Ht' & Hmt'); [| done | done |].
    + pose proof (of_bits_range k1).
      assert (2 ^ Z.of_nat (length k1) <= 2 ^ 31) by (apply Z.pow_le_mono_r; lia). lia.
    + eexists. split; [reflexivity |]. exists (k1 ++ [b]), k2.
      rewrite <- app_assoc, length_app, of_bits_snoc. split; [done |]. split; [simpl; lia |]. done.
  - exists [], k. done.
  - destruct x as [r t]. destruct Hx as (k1 & k2 & -> & Hl & -> & Hint & Ht & Hmt).
    rewrite length_app in Hl. destruct k2; [| simpl in Hl; lia]. rewrite app_nil_r in *. eauto.
Qed.

Lemma read_golomb_ok b x l s :
  golomb_param b -> 0 <= x <= INT_MAX -> rd_ok s -> rd_in s = golomb_bits b x ++ l ->
  exists s', read_golomb rd_bits b s = Ok (x, s') /\ rd_in s' = l /\ rd_ok s' /\ rd_mid s'.
Proof.
  intros Hb Hx Hs Hin. destruct (golomb_param_log b Hb) as [Hub Hpow].
  assert (1 < b) as Hb1 by (unfold golomb_param in Hb; lia).
  pose proof (Z.mod_pos_bound x b ltac:(lia)) as Hr.
  assert (0 <= x / b) as Hq by (apply Z.div_pos; lia).
  assert (x / b * b + x mod b = x) as Hdm by (pose proof (Z.div_mod x b); lia).
  unfold golomb_bits in Hin. rewrite <- !app_assoc in Hin.
  unfold read_golomb.
  destruct (read_unary (Z.to_nat (x / b)) (golomb_suffix b x ++ l) s)
    as (s1 & -> & Hin1 & Hs1 & Hm1); [nia | done | done |]. res_cbn.
  rewrite Z2Nat.id by done. unfold ceil_log2. rewrite c_shl1_Ok by lia. res_cbn.
  fold (short_codes b).
  assert (0 <= short_codes b < b) as Hsc by (unfold short_codes; lia).
  rewrite (u32_small (short_codes b)) by (unfold golomb_param in Hb; lia).
  assert (exists s2, (x0 ← for_up (fun _ => shift_in rd_bits) 0 (Z.log2_up b - 1) (0, s1);
     let '(r, s0) := x0 in
     if short_codes b <=? r then
       x1 ← shift_in rd_bits (r, s0); let '(r0, s3) := x1 in Ok (u32 (r0 - short_codes b), s3)
     else Ok (r, s0)) = Ok (x mod b, s2) /\ rd_in s2 = l /\ rd_ok s2 /\ rd_mid s2) as (s2 & E2 & Hin2 & Hs2 & Hm2).
  { set (k := Z.to_nat (Z.log2_up b)) in *. assert (Z.log2_up b = Z.of_nat k) as Hk by lia.
    unfold golomb_suffix in Hin1. fold k in Hin1.
    assert (2 ^ Z.log2_up b = 2 * 2 ^ (Z.of_nat (k - 1))) as Hdbl.
    { rewrite Hk, <- Z.pow_succ_r by lia. f_equal. lia. }
    destruct (Z.ltb_spec (x mod b) (short_codes b)) as [Hlt|Hge].
    - destruct (read_binary (bits (k - 1) (x mod b)) l s1) as (s2 & E & Hin2 & Hs2 & Hm2);
        [rewrite length_bits; lia | done | done | done |].
      rewrite length_bits in E. replace (Z.log2_up b - 1) with (Z.of_nat (k - 1)) by lia.
      rewrite of_bits_bits_small in E by (unfold short_codes in *; lia).
      rewrite E. res_cbn. rewrite (proj2 (Z.leb_gt _ _)) by lia. eauto.
    - replace k with ((k - 1) + 1)%nat in Hin1 by lia.
      rewrite bits_app, <- app_assoc in Hin1. set (y := x mod b + short_codes b) in *.
      assert (0 <= y < 2 ^ Z.log2_up b) as Hy by (unfold y, short_codes in *; lia).
      destruct (read_binary (bits (k - 1) (Z.shiftr y (Z.of_nat 1))) (bits 1 y ++ l) s1)
        as (s2 & E & Hin2 & Hs2 & Hm2); [rewrite length_bits; lia | done | done | done |].
      change (Z.of_nat 1) with 1 in E.
      rewrite length_bits in E. replace (Z.log2_up b - 1) with (Z.of_nat (k - 1)) by lia.
      rewrite Z.shiftr_div_pow2, Z.pow_1_r in E by lia.
      assert (0 <= y / 2 < 2 ^ Z.of_nat (k - 1)) as Hy2 by (Z.div_mod_to_equations; lia).
      rewrite of_bits_bits_small in E by done.
      rewrite E. res_cbn. rewrite (proj2 (Z.leb_le _ _)) by (Z.div_mod_to_equations; lia).
      assert (2 ^ Z.of_nat (k - 1) <= 2 ^ 31) by (apply Z.pow_le_mono_r; lia).
      destruct (shift_in_ok (y / 2) (Z.testbit y 0) l s2) as (s3 & E3 & Hin3 & Hs3 & Hm3);
        [lia | done | done |].
      rewrite E3. res_cbn. exists s3. split; [| done]. do 2 f_equal.
      assert (snoc_bit (y / 2) (Z.testbit y 0) = y) as ->.
      { unfold snoc_bit. rewrite Z.bit0_mod. Z.div_mod_to_equations. lia. }
      rewrite u32_small; unfold y; [lia |]. unfold golomb_param in Hb; lia. }
  destruct (for_up (fun _ => shift_in rd_bits) 0 (Z.log2_up b - 1) (0, s1)) as [[r s3]|];
    [| discriminate E2].
  revert E2. res_cbn. intros E2. rewrite E2. res_cbn.
  rewrite c_int_Ok by (unfold INT_MIN, INT_MAX in *; nia). res_cbn.
  exists s2. split; [| done]. do 2 f_equal.
  rewrite Z.add_comm, Hdm. apply s32_u32. unfold INT_MIN. lia.
Qed.
End ReadOk.

(** ** What the codes promise *)

Lemma compute_ba_ge_2 pa ft corpus_size : 2 <= compute_ba pa ft corpus_size.
Proof. unfold compute_ba. destruct (Z.ltb_spec 1 (pa ft corpus_size)); lia. Qed.

Lemma length_golomb_bits b x :
  golomb_param b -> 0 <= x ->
  x / b + Z.log2_up b <= zlen (golomb_bits b x) <= x / b + 1 + Z.log2_up b.
Proof.
  intros Hb Hx. destruct (golomb_param_log b Hb) as [Hub _].
  assert (0 <= x / b) by (apply Z.div_pos; unfold golomb_param in Hb; lia).
  unfold golomb_bits, golomb_suffix, zlen. rewrite !length_app, length_replicate. simpl length.
  destruct (_ <? _); rewrite length_bits; lia.
Qed.

(** C26. Golomb coding of a non-negative [int] with any parameter up to [2^30]
    that [compute_ba] can choose: the writer appends a code word of at most
    [x / b + 1 + ceil(log2 b)] bits, and from that code word, with anything after it,
    both the bit-file reader and the in-memory reader return [x] and stop
    exactly behind the code word. *)
Theorem golomb_code_roundtrip (be : bool) (pa : Z -> Z -> Z) (ft size x : Z) (m : nat) (bf : BFile) :
  let b := compute_ba pa ft size in
  b <= 2 ^ 30 -> 0 <= x <= INT_MAX ->
  BF_writable (Z.to_nat (x / b + 1 + Z.log2_up b) + m) bf ->
  exists bf' code,
    write_golomb_code be x b bf = Ok (1, bf') /\ BF_out bf' = BF_out bf ++ code /\
    zlen code <= x / b + 1 + Z.log2_up b /\ BF_writable m bf' /\
    (forall (s : BFile) rest, rd_ok s -> rd_in s = code ++ rest ->
       exists s', read_golomb_code_bf b s = Ok (x, s') /\ rd_in s' = rest) /\
    (forall (s : BStream) rest, rd_ok s -> rd_in s = code ++ rest ->
       exists s', read_golomb_code_bs b s = Ok (x, s') /\ rd_in s' = rest).
Proof.
  intros b Hb Hx Hw. pose proof (compute_ba_ge_2 pa ft size) as Hb2. fold b in Hb2.
  assert (golomb_param b) as Hp by done.
  pose proof (length_golomb_bits b x Hp ltac:(lia)) as [_ Hlen].
  set (len := length (golomb_bits b x)) in *.
  set (bound := Z.to_nat (x / b + 1 + Z.log2_up b)) in *.
  replace (bound + m)%nat with (len + (bound - len + m))%nat in Hw by (unfold zlen in Hlen; lia).
  destruct (write_golomb_code_ok be x b _ bf Hp Hx Hw) as (bf' & E & Ho & Hw').
  exists bf', (golomb_bits b x). split; [done |]. split; [done |]. split; [done |]. split.
  - destruct Hw' as (? & ? & ? & ? & ?). split; [done |]. split; [done |]. split; [done |].
    split; [lia | done].
  - split; intros s rest Hs Hin;
      destruct (read_golomb_ok b x rest s Hp Hx Hs Hin) as (s' & E' & Hin' & _); eauto.
Qed.

Lemma golomb_code_roundtrip_witness :
  exists bf' code,
    write_golomb_code true 39 10 (mkBit (Some (mkFILE [] 0 9 false)) "w"%char 0 0 0) = Ok (1, bf') /\
    BF_out bf' = [] ++ code /\ zlen code <= 39 / 10 + 1 + Z.log2_up 10 /\ BF_writable 9 bf' /\
    (forall (s : BFile) rest, rd_ok s -> rd_in s = code ++ rest ->
       exists s', read_golomb_code_bf 10 s = Ok (39, s') /\ rd_in s' = rest) /\
    (forall (s : BStream) rest, rd_ok s -> rd_in s = code ++ rest ->
       exists s', read_golomb_code_bs 10 s = Ok (39, s') /\ rd_in s' = rest).
Proof.
  apply (golomb_code_roundtrip true (fun _ _ => 10) 3 50 39 9
           (mkBit (Some (mkFILE [] 0 9 false)) "w"%char 0 0 0)).
  - vm_compute. discriminate.
  - vm_compute. split; discriminate.
  - unfold writable. vm_compute. repeat split; discriminate.
Defined.

(** A parameter above [2^30], which a word of frequency 1 gets in a corpus
    of more than about 1.5 billion tokens, makes the code shift 1 into the
    sign bit: writing a code word has undefined behaviour. *)
Theorem golomb_wide_parameter_overflows (be : bool) (b x : Z) (bf : BFile) :
  2 ^ 30 < b <= INT_MAX -> 0 <= x < b -> BF_writable 1 bf ->
  write_golomb_code be x b bf = Err IntOverflow.
Proof.
  intros Hb Hx Hw. unfold write_golomb_code.
  rewrite c_div_Ok, Z.div_small by (unfold INT_MAX in *; lia). res_cbn.
  change (for_up _ 0 0 bf) with (Ok bf). res_cbn.
  destruct (BFwrite_bit false 0 bf Hw) as (b2 & E2 & _).
  cbn [Z.b2z] in E2. rewrite E2. res_cbn.
  assert (30 < ceil_log2 b) as Hl by (apply Z.log2_up_lt_pow2; lia).
  unfold c_shl1. rewrite (proj2 (Z.leb_gt _ 30)) by done. rewrite andb_false_r. by res_cbn.
Qed.

Lemma golomb_wide_parameter_overflows_witness :
  write_golomb_code false 7 1488522235 (mkBit (Some (mkFILE [] 0 9 false)) "w"%char 0 0 0) = Err IntOverflow.
Proof.
  apply golomb_wide_parameter_overflows.
  - vm_compute. split; [reflexivity | discriminate].
  - lia.
  - unfold writable. vm_compute. repeat split; discriminate.
Defined.
