(* ===== verification/Blob.v ===== *)
(** * Memory blobs: the MemBlob half of cl/storage.c

    A blob is a block of bytes that the corpus library reads and writes as an
    array of [int]s of the machine ([iget], [iset]) whose contents are usually
    in network byte order ([nget] is [ntohl(data[i])]).  [ints_be] and
    [ints_native] are the bytes of an integer array on disk and in memory. *)

From Stdlib Require Import ZArith Lia.
From stdpp Require Import base tactics option list numbers.
From S2P Require Import Prelude Bits Storage.

(** ** Data *)

Definition UNALLOCATED : Z := 0.
Definition MMAPPED : Z := 1.
Definition MALLOCED : Z := 2.
Definition SIZE_BIT : Z := 0.
Definition SIZE_INT : Z := 4.

(** [struct TMblob] without the fields for paging, which are not in use. *)
Record MemBlob := mkBlob {
  size : Z;
  item_size : Z;
  nr_items : Z;
  data : option (list Z);
  allocation_method : Z
}.

Definition init_mblob : MemBlob := mkBlob 0 0 0 None UNALLOCATED.

(** [garbage] is what the allocated block holds before it is written. *)
Definition alloc_mblob (nr_items item_size : Z) (clear_blob : bool) (garbage : Z -> list Z)
  : res (Z * MemBlob) :=
  _ ← c_assert (0 <=? item_size);
  _ ← c_assert (0 <? nr_items);
  sz ← (if item_size =? SIZE_BIT then
          let size := Z.quot nr_items 8 in
          Ok (if size * 8 <? nr_items then size + 1 else size)
        else c_int (nr_items * item_size));
  Ok (1, mkBlob sz item_size nr_items
           (Some (if clear_blob then replicate (Z.to_nat sz) 0 else garbage sz)) MALLOCED).

Definition mfree (blob : MemBlob) : res MemBlob :=
  match data blob with
  | Some _ =>
      if (allocation_method blob =? UNALLOCATED) || (allocation_method blob =? MMAPPED) ||
         (allocation_method blob =? MALLOCED)
      then Ok init_mblob else Err AssertFail
  | None => Ok blob
  end.

(** Reading: [file] is what is on disk, [None] when it cannot be opened. *)
Definition read_file_into_blob (file : option (list Z)) (method item_size : Z) (blob : MemBlob)
  : Z * MemBlob :=
  if negb ((method =? MMAPPED) || (method =? MALLOCED)) then
    (0, mkBlob (size blob) item_size (nr_items blob) (data blob) method)
  else match file with
  | None => (0, mkBlob (size blob) item_size 0 None UNALLOCATED)
  | Some d =>
      (1, mkBlob (zlen d) item_size
            (u32 (if item_size =? SIZE_BIT then zlen d * 8 else zlen d / item_size)) (Some d) method)
  end.

(** ** [int] access *)
Section Access.
Context (bigendian : bool).

(** [data[i]] of an [int *]; the result is the bit pattern as an unsigned number. *)
Definition iget (d : list Z) (i : Z) : res Z :=
  if (0 <=? i) && (4 * i + 4 <=? zlen d)
  then Ok (of_native_bytes bigendian (take 4 (drop (Z.to_nat (4 * i)) d)))
  else Err OutOfBounds.

Definition iset (d : list Z) (i v : Z) : res (list Z) :=
  if (0 <=? i) && (4 * i + 4 <=? zlen d)
  then Ok (take (Z.to_nat (4 * i)) d ++ native_bytes bigendian v ++ drop (Z.to_nat (4 * i + 4)) d)
  else Err OutOfBounds.

(** [ntohl(data[i])], an unsigned value, and the same as an [int]. *)
Definition nget (d : list Z) (i : Z) : res Z :=
  w ← iget d i; Ok (ntohl bigendian w).

Definition nget_int (d : list Z) (i : Z) : res Z :=
  w ← nget d i; Ok (s32 w).

(** All the [int]s of a block, as an array. *)
Definition native_ints (d : list Z) : list Z :=
  (fun i => of_native_bytes bigendian (take 4 (drop (4 * i) d))) <$> seq 0 (length d / 4).

(** Writing: [opened] is the stream [fopen(filename, "wb")] returned.  The
    result is the return value and the stream that was closed. *)
Definition write_file_from_blob (opened : option FILE) (blob : MemBlob) (convert_to_nbo : bool)
  : res (Z * option FILE) :=
  match data blob with
  | None => Ok (0, None)
  | Some d =>
      if (size blob =? 0) || negb ((allocation_method blob =? MMAPPED) || (allocation_method blob =? MALLOCED))
      then Ok (0, None)
      else match opened with
      | None => Ok (0, None)
      | Some fd =>
          if convert_to_nbo then
            fd ← NwriteInts bigendian (native_ints d) (size blob / 4) fd;
            Ok (1, Some fd)
          else Ok (1, Some (snd (fwrite1 d fd)))
      end
  end.
End Access.

(** ** Integer arrays as bytes *)

Definition ints_be (vs : list Z) : list Z := vs ≫= be_bytes.
Definition ints_native (be : bool) (vs : list Z) : list Z := vs ≫= native_bytes be.

Section Chunks.
Context (f : Z -> list Z) (Hf : forall v, length (f v) = 4%nat).

Lemma length_chunks vs : length (vs ≫= f) = (4 * length vs)%nat.
Proof. induction vs as [|v vs IH]; [done |]. rewrite bind_cons, length_app, IH, Hf. simpl. lia. Qed.

Lemma drop_chunks vs i : drop (4 * i) (vs ≫= f) = drop i vs ≫= f.
Proof.
  revert i. induction vs as [|v vs IH]; intros i; [by destruct i |].
  destruct i as [|i]; [done |]. rewrite bind_cons. cbn [drop].
  replace (4 * S i)%nat with (length (f v) + 4 * i)%nat by (rewrite Hf; lia).
  by rewrite drop_app_add.
Qed.

Lemma take_chunks vs i : take (4 * i) (vs ≫= f) = take i vs ≫= f.
Proof.
  revert i. induction vs as [|v vs IH]; intros i; [by destruct i |].
  destruct i as [|i]; [done |]. rewrite bind_cons. cbn [take]. rewrite bind_cons.
  replace (4 * S i)%nat with (length (f v) + 4 * i)%nat by (rewrite Hf; lia).
  by rewrite take_app_add, IH.
Qed.

Lemma chunk_lookup vs rest i v :
  vs !! i = Some v -> take 4 (drop (4 * i) ((vs ≫= f) ++ rest)) = f v.
Proof.
  intros Hi. pose proof (lookup_lt_Some _ _ _ Hi).
  rewrite drop_app_le by (rewrite length_chunks; lia).
  rewrite drop_chunks, (drop_S vs v) by done. rewrite bind_cons, <- app_assoc.
  rewrite <- (Hf v) at 1. apply take_app_length.
Qed.
End Chunks.

Lemma length_ints_be vs : length (ints_be vs) = (4 * length vs)%nat.
Proof. by apply length_chunks. Qed.

Lemma length_ints_native be vs : length (ints_native be vs) = (4 * length vs)%nat.
Proof. apply length_chunks, length_native_bytes. Qed.

Lemma zlen_ints_be vs : zlen (ints_be vs) = 4 * zlen vs.
Proof. unfold zlen. rewrite length_ints_be. lia. Qed.

Lemma ints_be_app vs ws : ints_be (vs ++ ws) = ints_be vs ++ ints_be ws.
Proof. apply bind_app. Qed.

Section AccessOk.
Context (be : bool).

Lemma nget_ints_be vs rest (i : nat) v :
  vs !! i = Some v -> nget be (ints_be vs ++ rest) (Z.of_nat i) = Ok (u32 v).
Proof.
  intros Hi. pose proof (lookup_lt_Some _ _ _ Hi). unfold nget, iget.
  rewrite (proj2 (Z.leb_le 0 _)) by lia.
  rewrite (proj2 (Z.leb_le _ _)) by (rewrite zlen_app, zlen_ints_be; unfold zlen; lia).
  cbn [andb]. replace (Z.to_nat (4 * Z.of_nat i)) with (4 * i)%nat by lia.
  unfold ints_be. erewrite chunk_lookup by done. res_cbn.
  by rewrite ntohl_of_native, of_be_bytes_be_bytes by (done || apply be_bytes_range).
Qed.

Lemma nget_oob d i : ~ (0 <= i /\ 4 * i + 4 <= zlen d) -> nget be d i = Err OutOfBounds.
Proof.
  intros H. unfold nget, iget.
  destruct (Z.leb_spec 0 i), (Z.leb_spec (4 * i + 4) (zlen d)); try done. lia.
Qed.

(** Entries that are [int]s come back as they are. *)
Lemma nget_int_ints_be vs rest (i : nat) v :
  vs !! i = Some v -> INT_MIN <= v <= INT_MAX ->
  nget_int be (ints_be vs ++ rest) (Z.of_nat i) = Ok v.
Proof. intros Hi Hv. unfold nget_int. rewrite (nget_ints_be vs rest i v Hi). res_cbn. by rewrite s32_u32. Qed.

Lemma nget_nonneg vs rest (i : nat) v :
  vs !! i = Some v -> 0 <= v <= INT_MAX ->
  nget be (ints_be vs ++ rest) (Z.of_nat i) = Ok v.
Proof. intros Hi Hv. rewrite (nget_ints_be vs rest i v Hi), u32_small; [done | unfold INT_MAX in Hv; lia]. Qed.

Lemma iget_native vs rest (i : nat) v :
  vs !! i = Some v -> iget be (ints_native be vs ++ rest) (Z.of_nat i) = Ok (u32 v).
Proof.
  intros Hi. pose proof (lookup_lt_Some _ _ _ Hi). unfold iget.
  rewrite (proj2 (Z.leb_le 0 _)) by lia.
  rewrite (proj2 (Z.leb_le _ _)) by (rewrite zlen_app; unfold zlen; rewrite length_ints_native; lia).
  cbn [andb]. replace (Z.to_nat (4 * Z.of_nat i)) with (4 * i)%nat by lia.
  unfold ints_native. erewrite chunk_lookup by (done || apply length_native_bytes).
  by rewrite of_native_native.
Qed.

Lemma iset_native vs (i : nat) v :
  (i < length vs)%nat ->
  iset be (ints_native be vs) (Z.of_nat i) v = Ok (ints_native be (<[i := v]> vs)).
Proof.
  intros Hi. unfold iset.
  rewrite (proj2 (Z.leb_le 0 _)) by lia.
  rewrite (proj2 (Z.leb_le _ _)) by (unfold zlen; rewrite length_ints_native; lia).
  cbn [andb]. replace (Z.to_nat (4 * Z.of_nat i)) with (4 * i)%nat by lia.
  replace (Z.to_nat (4 * Z.of_nat i + 4)) with (4 * S i)%nat by lia.
  unfold ints_native. rewrite take_chunks, drop_chunks by apply length_native_bytes.
  rewrite insert_take_drop by done. by rewrite bind_app, bind_cons.
Qed.

Lemma native_ints_native vs : native_ints be (ints_native be vs) = u32 <$> vs.
Proof.
  apply list_eq. intros i. unfold native_ints. rewrite !list_lookup_fmap, length_ints_native.
  replace (4 * length vs / 4)%nat with (length vs) by (rewrite Nat.mul_comm, Nat.div_mul; lia).
  destruct (decide (i < length vs)%nat) as [Hi|Hi].
  - rewrite lookup_seq_lt by done. destruct (lookup_lt_is_Some_2 vs i Hi) as [v Hv].
    rewrite Hv. cbn [fmap option_fmap option_map]. f_equal.
    rewrite <- (app_nil_r (ints_native be vs)). unfold ints_native.
    rewrite Nat.add_0_l. erewrite chunk_lookup by (done || apply length_native_bytes).
    by rewrite of_native_native.
  - rewrite lookup_seq_ge, (lookup_ge_None_2 vs) by lia. done.
Qed.
End AccessOk.

Lemma be_bytes_u32 v : be_bytes (u32 v) = be_bytes v.
Proof.
  rewrite <- (be_bytes_of_be_bytes (be_bytes v)) by (done || apply be_bytes_range).
  by rewrite of_be_bytes_be_bytes.
Qed.

(** Writing an integer array appends its network-order bytes. *)
Lemma write_blob_ok be fd vs it n :
  vs <> [] -> 4 * zlen vs <= quota fd ->
  write_file_from_blob be (Some fd) (mkBlob (4 * zlen vs) it n (Some (ints_native be vs)) MALLOCED) true =
    Ok (1, Some (mkFILE (contents fd ++ ints_be vs) (rpos fd) (quota fd - 4 * zlen vs) (failed fd))).
Proof.
  intros Hne Hq. assert (0 < zlen vs) by (destruct vs; [done | unfold zlen; simpl; lia]).
  unfold write_file_from_blob. cbn [data size allocation_method].
  rewrite (proj2 (Z.eqb_neq _ _)) by lia. cbn [orb negb].
  change (negb ((MALLOCED =? MMAPPED) || (MALLOCED =? MALLOCED))) with false. cbv iota.
  assert (4 * zlen vs / 4 = zlen vs) as Hd by (Z.div_mod_to_equations; lia).
  assert (zlen (u32 <$> vs) = zlen vs) as Hl by (unfold zlen; by rewrite length_fmap).
  rewrite native_ints_native, Hd, NwriteInts_Ok by (cbn [quota]; lia).
  res_cbn. rewrite take_ge by (unfold zlen in *; lia).
  assert ((u32 <$> vs) ≫= be_bytes = ints_be vs) as ->; [| done].
  unfold ints_be. clear. induction vs as [|v vs IH]; [done |].
  rewrite fmap_cons, !bind_cons, IH. by rewrite be_bytes_u32.
Qed.

(** [write_file_from_blob] and [read_file_into_blob]: an array of [int]s in
    the memory of a machine of one byte order is stored in network byte order,
    and a machine of either byte order that maps the file finds, with
    [ntohl(data[i])], every element in its place, and the number of items. *)
Theorem blob_file_roundtrip (be1 be2 : bool) (vs : list Z) (method n q : Z) :
  Forall (fun v => INT_MIN <= v <= INT_MAX) vs -> vs <> [] ->
  method = MMAPPED \/ method = MALLOCED -> 4 * zlen vs <= q -> 4 * zlen vs < 2 ^ 32 ->
  exists f blob,
    write_file_from_blob be1 (Some (mkFILE [] 0 q false))
      (mkBlob (4 * zlen vs) SIZE_INT n (Some (ints_native be1 vs)) MALLOCED) true = Ok (1, Some f) /\
    read_file_into_blob (Some (contents f)) method SIZE_INT init_mblob = (1, blob) /\
    nr_items blob = zlen vs /\
    exists d, data blob = Some d /\
      (forall i v, vs !! i = Some v -> nget_int be2 d (Z.of_nat i) = Ok v) /\
      (forall i, ~ (0 <= i < zlen vs) -> nget_int be2 d i = Err OutOfBounds).
Proof.
  intros Hv Hne Hm Hq Hsz.
  assert (4 * zlen vs / 4 = zlen vs) as Hd by (Z.div_mod_to_equations; lia).
  pose proof (zlen_nonneg vs).
  eexists _, _. split; [by apply write_blob_ok |]. cbn [contents].
  unfold read_file_into_blob.
  assert (negb ((method =? MMAPPED) || (method =? MALLOCED)) = false) as ->
    by (destruct Hm as [-> | ->]; reflexivity).
  split; [reflexivity |]. cbn [nr_items data app]. change (SIZE_INT =? SIZE_BIT) with false. cbv iota.
  rewrite zlen_ints_be. split.
  - unfold SIZE_INT. rewrite Hd. apply u32_small. lia.
  - eexists. split; [reflexivity |]. split.
    + intros i v Hi. rewrite <- (app_nil_r (ints_be vs)). eapply nget_int_ints_be; [done |].
      by eapply (Forall_lookup_1 _ _ _ _ Hv).
    + intros i Hi. unfold nget_int. rewrite nget_oob; [done |]. rewrite zlen_ints_be. lia.
Qed.

Lemma blob_file_roundtrip_witness :
  exists f blob,
    write_file_from_blob false (Some (mkFILE [] 0 64 false))
      (mkBlob 12 SIZE_INT 3 (Some (ints_native false [7; -1; 70000])) MALLOCED) true = Ok (1, Some f) /\
    read_file_into_blob (Some (contents f)) MMAPPED SIZE_INT init_mblob = (1, blob) /\
    nr_items blob = 3 /\
    exists d, data blob = Some d /\
      (forall i v, [7; -1; 70000] !! i = Some v -> nget_int true d (Z.of_nat i) = Ok v) /\
      (forall i, ~ (0 <= i < 3) -> nget_int true d i = Err OutOfBounds).
Proof.
  apply (blob_file_roundtrip false true [7; -1; 70000] MMAPPED 3 64).
  - repeat constructor; vm_compute; discriminate.
  - discriminate.
  - by left.
  - vm_compute. discriminate.
  - vm_compute. reflexivity.
Defined.
