(* ===== verification/Attributes.v ===== *)
(** * Attributes and their components: cl/attributes.c

    A corpus attribute owns a vector of components, each the contents of one
    file of the corpus; a component is loaded from disk the first time an access
    function needs it.  Files are a map from paths to contents. *)

From Stdlib Require Import ZArith Lia String.
From stdpp Require Import base tactics option list numbers gmap strings.
From S2P Require Import Prelude Bits Storage Blob.

Open Scope Z_scope.

(** ** Data *)

(** [enum wattr_components]; [CompLast], the bound of the enumeration, is not a component. *)
Inductive ComponentID :=
| CompDirectory
| CompCorpus | CompRevCorpus | CompRevCorpusIdx | CompCorpusFreqs
| CompLexicon | CompLexiconIdx | CompLexiconSrt
| CompAlignData | CompXAlignData
| CompStrucData | CompStrucAVS | CompStrucAVX
| CompHuffSeq | CompHuffCodes | CompHuffSync
| CompCompRF | CompCompRFX.

#[export] Instance ComponentID_eq_dec : EqDecision ComponentID.
Proof. solve_decision. Defined.

(** The value of the enumeration constant. *)
Definition cid_index (cid : ComponentID) : nat :=
  match cid with
  | CompDirectory => 0
  | CompCorpus => 1 | CompRevCorpus => 2 | CompRevCorpusIdx => 3 | CompCorpusFreqs => 4
  | CompLexicon => 5 | CompLexiconIdx => 6 | CompLexiconSrt => 7
  | CompAlignData => 8 | CompXAlignData => 9
  | CompStrucData => 10 | CompStrucAVS => 11 | CompStrucAVX => 12
  | CompHuffSeq => 13 | CompHuffCodes => 14 | CompHuffSync => 15
  | CompCompRF => 16 | CompCompRFX => 17
  end.

#[export] Instance cid_index_inj : Inj eq eq cid_index.
Proof. intros [] []; done || discriminate. Qed.

#[export] Instance ComponentID_countable : Countable ComponentID.
Proof.
  refine (inj_countable cid_index (fun n => List.find (fun c => Nat.eqb (cid_index c) n)
    [CompDirectory; CompCorpus; CompRevCorpus; CompRevCorpusIdx; CompCorpusFreqs; CompLexicon;
     CompLexiconIdx; CompLexiconSrt; CompAlignData; CompXAlignData; CompStrucData; CompStrucAVS;
     CompStrucAVX; CompHuffSeq; CompHuffCodes; CompHuffSync; CompCompRF; CompCompRFX]) _).
  by intros [].
Defined.

Inductive ComponentState :=
| ComponentLoaded      (* valid and loaded *)
| ComponentUnloaded    (* valid and on disk *)
| ComponentDefined     (* valid but not yet created *)
| ComponentUndefined.  (* invalid *)

#[export] Instance ComponentState_eq_dec : EqDecision ComponentState.
Proof. solve_decision. Defined.

Record Component := mkComp {
  path : option string;
  comp_size : Z;
  comp_data : MemBlob
}.

Definition SYNCHRONIZATION : Z := 128.
Definition MAXCODELEN : Z := 32.

(** [struct _huffman_code_descriptor]; [symbols] points into the data of the
    component CompHuffCodes and is the part of that block it points to. *)
Record HCD := mkHCD {
  hcd_size : Z;            (* the id range of the item sequence *)
  hcd_length : Z;          (* the number of items in the sequence *)
  min_codelen : Z;
  max_codelen : Z;
  lcount : list Z;         (* number of codes of length i *)
  symindex : list Z;       (* starting point of codes of length i in symbols *)
  min_code : list Z;       (* minimal code of length i *)
  symbols : list Z         (* the code->id mapping table *)
}.

Definition ATT_NONE : Z := 0.
Definition ATT_POS : Z := 1.
Definition ATT_STRUC : Z := 2.
Definition ATT_ALIGN : Z := 4.
Definition ATT_DYN : Z := 64.

(** [union _Attribute]: the fields all attributes share, and those of
    positional attributes. *)
Record Attribute := mkAtt {
  type : Z;
  components : gmap ComponentID Component;
  hc : option HCD;
  this_block_nr : Z;
  this_block : list Z
}.

Definition set_components (a : Attribute) (m : gmap ComponentID Component) : Attribute :=
  mkAtt (type a) m (hc a) (this_block_nr a) (this_block a).

Definition set_hc (a : Attribute) (h : option HCD) : Attribute :=
  mkAtt (type a) (components a) h (this_block_nr a) (this_block a).

Definition set_block (a : Attribute) (nr : Z) (block : list Z) : Attribute :=
  mkAtt (type a) (components a) (hc a) nr block.

(** ** Operations *)
Section Operations.
Context (bigendian : bool) (disk : gmap string (list Z)).

Definition comp_component_state (cid : ComponentID) (comp : Component) : ComponentState :=
  match data (comp_data comp) with
  | Some _ => ComponentLoaded
  | None =>
      if decide (cid = CompDirectory) then ComponentDefined
      else match path comp with
      | None => ComponentUndefined
      | Some p => match disk !! p with None => ComponentDefined | Some _ => ComponentUnloaded end
      end
  end.

Definition component_state (attribute : Attribute) (cid : ComponentID) : ComponentState :=
  match components attribute !! cid with
  | None => ComponentUndefined
  | Some comp => comp_component_state cid comp
  end.

(** [state == ComponentLoaded || state == ComponentUnloaded] *)
Definition is_accessible (st : ComponentState) : bool :=
  match st with ComponentLoaded | ComponentUnloaded => true | _ => false end.

(** The decision of [cl_sequence_compressed] for a positional attribute. *)
Definition sequence_compressed (attribute : Attribute) : bool :=
  match hc attribute with
  | Some _ => true
  | None =>
      if decide (component_state attribute CompCorpus = ComponentLoaded) then false
      else if negb (is_accessible (component_state attribute CompHuffSeq)) then false
      else if negb (is_accessible (component_state attribute CompHuffCodes)) then false
      else if negb (is_accessible (component_state attribute CompHuffSync)) then false
      else true
  end.

(** [vals[i]] for [i < n], each converted with [ntohl]. *)
Fixpoint nget_ints (d : list Z) (from : Z) (n : nat) : res (list Z) :=
  match n with
  | O => Ok []
  | S n => v ← nget_int bigendian d from; vs ← nget_ints d (from + 1) n; Ok (v :: vs)
  end.

(** The [memcpy] of the header and the conversion of its fields.  The last field of the struct, a pointer that is
    overwritten at once, is copied as well, from bytes that belong to the symbols; that these bytes need not be there, if
    there is only one symbol, does not matter as long as the file is mapped in pages, and is left out. *)
Definition load_hcd (d : list Z) : res HCD :=
  size ← nget_int bigendian d 0;
  length ← nget_int bigendian d 1;
  min_codelen ← nget_int bigendian d 2;
  max_codelen ← nget_int bigendian d 3;
  lcount ← nget_ints d 4 (Z.to_nat MAXCODELEN);
  symindex ← nget_ints d (4 + MAXCODELEN) (Z.to_nat MAXCODELEN);
  min_code ← nget_ints d (4 + 2 * MAXCODELEN) (Z.to_nat MAXCODELEN);
  Ok (mkHCD size length min_codelen max_codelen lcount symindex min_code
        (drop (Z.to_nat (4 * (4 + 3 * MAXCODELEN))) d)).

Definition file_of (comp : Component) : option (list Z) :=
  match path comp with Some p => disk !! p | None => None end.

Definition load_component (attribute : Attribute) (cid : ComponentID) : res Attribute :=
  match components attribute !! cid with
  | None => Ok attribute
  | Some comp =>
      match comp_component_state cid comp with
      | ComponentUnloaded =>
          _ ← c_assert (if path comp is Some _ then true else false);
          if decide (cid = CompHuffCodes) then
            if sequence_compressed attribute then
              let '(ok, blob) := read_file_into_blob (file_of comp) MMAPPED SIZE_INT (comp_data comp) in
              if ok =? 0
              then Ok (set_components attribute (<[cid := mkComp (path comp) (comp_size comp) blob]> (components attribute)))
              else
                d ← deref (data blob);
                h ← load_hcd d;
                Ok (set_hc (set_components attribute
                      (<[cid := mkComp (path comp) (hcd_length h) blob]> (components attribute))) (Some h))
            else Ok attribute
          else
            let '(ok, blob) := read_file_into_blob (file_of comp) MMAPPED SIZE_INT (comp_data comp) in
            let size := if ok =? 0 then comp_size comp else s32 (nr_items blob) in
            Ok (set_components attribute (<[cid := mkComp (path comp) size blob]> (components attribute)))
      | ComponentDefined =>
          Ok (set_components attribute
                (<[cid := mkComp (path comp) 0 (comp_data comp)]> (components attribute)))
      | _ => Ok attribute
      end
  end.

(** As compiled by default: a component is never created, and a failure returns
    NULL instead of leaving the program. *)
Definition ensure_component (attribute : Attribute) (cid : ComponentID) (try_creation : bool)
  : res (option Component * Attribute) :=
  match components attribute !! cid with
  | None => Ok (None, attribute)
  | Some comp =>
      match comp_component_state cid comp with
      | ComponentLoaded => Ok (Some comp, attribute)
      | ComponentUnloaded =>
          attribute ← load_component attribute cid;
          match components attribute !! cid with
          | None => Err NullDeref
          | Some comp =>
              if decide (comp_component_state cid comp = ComponentLoaded)
              then Ok (Some comp, attribute) else Ok (None, attribute)
          end
      | ComponentDefined => Ok (None, attribute)
      | ComponentUndefined => Ok (Some comp, attribute)
      end
  end.

Definition find_component (attribute : Attribute) (cid : ComponentID) : option Component :=
  components attribute !! cid.

(** [drop_component] with [comp_drop_component]: the component is freed and
    taken out of the vector; with CompHuffCodes goes the descriptor block. *)
Definition drop_component (attribute : Attribute) (cid : ComponentID) : res Attribute :=
  match components attribute !! cid with
  | None => Ok attribute
  | Some comp =>
      let a := set_components attribute (delete cid (components attribute)) in
      let a := if decide (cid = CompHuffCodes) then set_hc a None else a in
      _ ← mfree (comp_data comp);
      Ok a
  end.
End Operations.

(** ** What an attribute gives access to

    [avail] is the data a component has or will have once it is loaded: the
    view of a corpus in which it does not matter which components happen to be
    in memory.  Loading is invisible in this view. *)
Section Available.
Context (bigendian : bool) (disk : gmap string (list Z)).

Definition comp_avail (cid : ComponentID) (comp : Component) : option (list Z) :=
  match data (comp_data comp) with
  | Some d => Some d
  | None => if decide (cid = CompDirectory) then None else file_of disk comp
  end.

Definition avail (a : Attribute) (cid : ComponentID) : option (list Z) :=
  components a !! cid ≫= comp_avail cid.

(** Number of [int]s of a block. *)
Definition nr_ints (d : list Z) : Z := zlen d / 4.

(** A loaded component knows its size, and no file has more than [INT_MAX] items. *)
Definition wf_attribute (a : Attribute) : Prop :=
  forall cid comp, components a !! cid = Some comp ->
    (forall d, comp_avail cid comp = Some d -> nr_ints d <= INT_MAX) /\
    (forall d, data (comp_data comp) = Some d -> cid <> CompHuffCodes -> comp_size comp = nr_ints d).

(** The component after [ensure_component], if its data is [d]. *)
Definition load_of (comp : Component) (d : list Z) : Component :=
  match data (comp_data comp) with
  | Some _ => comp
  | None => mkComp (path comp) (s32 (u32 (zlen d / 4))) (mkBlob (zlen d) SIZE_INT (u32 (zlen d / 4)) (Some d) MMAPPED)
  end.

(** [a'] is [a] with some more components loaded. *)
Record loads (a a' : Attribute) : Prop := mkLoads {
  loads_type : type a' = type a;
  loads_hc : hc a' = hc a;
  loads_nr : this_block_nr a' = this_block_nr a;
  loads_block : this_block a' = this_block a;
  loads_avail : forall cid, avail a' cid = avail a cid;
  loads_wf : wf_attribute a -> wf_attribute a';
  loads_loaded : forall cid, component_state disk a cid = ComponentLoaded ->
    component_state disk a' cid = ComponentLoaded;
  loads_comp : forall cid, components a' !! cid = components a !! cid \/
    exists comp d, components a !! cid = Some comp /\ data (comp_data comp) = None /\
      comp_avail cid comp = Some d /\ components a' !! cid = Some (load_of comp d)
}.

#[export] Instance loads_refl : Reflexive loads.
Proof. intros a. split; try done. by left. Qed.

#[export] Instance loads_trans : Transitive loads.
Proof.
  intros a b c [T1 H1 N1 B1 A1 W1 L1 C1] [T2 H2 N2 B2 A2 W2 L2 C2].
  split; try congruence; auto. intros cid.
  destruct (C1 cid) as [E1|(comp & d & Hc & Hd & Ha & E1)]; destruct (C2 cid) as [E2|(comp2 & d2 & Hc2 & Hd2 & Ha2 & E2)].
  - left. congruence.
  - right. exists comp2, d2. by rewrite <- E1.
  - right. exists comp, d. by rewrite E2.
  - exfalso. rewrite E1 in Hc2. injection Hc2 as <-. unfold load_of in Hd2. rewrite Hd in Hd2. done.
Qed.

Lemma is_accessible_avail a cid :
  is_accessible (component_state disk a cid) = true <-> is_Some (avail a cid).
Proof.
  unfold component_state, avail. destruct (components a !! cid) as [comp|]; cbn;
    [| split; [done | by intros [? ?]]].
  unfold comp_component_state, comp_avail, file_of. destruct (data (comp_data comp)); cbn; [by split; eauto |].
  destruct (decide (cid = CompDirectory)); cbn; [split; [done | by intros [? ?]] |].
  destruct (path comp) as [p|]; cbn; [| split; [done | by intros [? ?]]].
  destruct (disk !! p); cbn; split; eauto; [done | by intros [? ?]].
Qed.

(** Components other than those written [cid] keep their state. *)
Lemma component_state_insert a cid cid' comp :
  cid' <> cid ->
  component_state disk (set_components a (<[cid := comp]> (components a))) cid' =
  component_state disk a cid'.
Proof. intros H. unfold component_state. cbn [components set_components]. by rewrite lookup_insert_ne by done. Qed.

Lemma avail_insert a cid comp comp' :
  components a !! cid = Some comp -> comp_avail cid comp' = comp_avail cid comp ->
  forall cid', avail (set_components a (<[cid := comp']> (components a))) cid' = avail a cid'.
Proof.
  intros Hc Ha cid'. unfold avail. cbn [components set_components].
  destruct (decide (cid' = cid)) as [->|Hne].
  - by rewrite lookup_insert_eq, Hc.
  - by rewrite lookup_insert_ne by done.
Qed.

(** [ensure_component] succeeds on a component that has data or a file. *)
Lemma ensure_component_ok a cid d try_creation :
  cid <> CompDirectory -> cid <> CompHuffCodes ->
  avail a cid = Some d -> wf_attribute a ->
  exists comp a', ensure_component bigendian disk a cid try_creation = Ok (Some comp, a') /\
    data (comp_data comp) = Some d /\ comp_size comp = nr_ints d /\
    loads a a' /\ component_state disk a' cid = ComponentLoaded /\
    (forall cid', cid' <> cid -> component_state disk a' cid' = component_state disk a cid').
Proof.
  intros Hdir Hhc Ha Hwf. unfold ensure_component, avail in *.
  destruct (components a !! cid) as [comp|] eqn:Hc; [| done]. cbn in Ha.
  destruct (Hwf cid comp Hc) as [Hsz Hld]. pose proof (Hsz d Ha) as Hint.
  unfold comp_avail in Ha.
  destruct (data (comp_data comp)) as [d'|] eqn:Hd.
  - assert (comp_component_state disk cid comp = ComponentLoaded) as ->
      by (unfold comp_component_state; by rewrite Hd).
    injection Ha as ->. exists comp, a. split; [done |]. split; [done |].
    split; [by apply Hld |]. split; [reflexivity |]. split; [| done].
    unfold component_state. rewrite Hc. unfold comp_component_state. by rewrite Hd.
  - rewrite decide_False in Ha by done. unfold file_of in Ha.
    destruct (path comp) as [p|] eqn:Hp; [| done].
    assert (comp_component_state disk cid comp = ComponentUnloaded) as Hst0
      by (unfold comp_component_state; by rewrite Hd, decide_False, Hp, Ha by done).
    rewrite Hst0. unfold load_component. rewrite Hc, Hst0, Hp. cbv iota.
    change (c_assert true) with (Ok ()). res_cbn. rewrite decide_False by done.
    unfold file_of, read_file_into_blob. rewrite Hp, Ha.
    change (negb ((MMAPPED =? MMAPPED) || (MMAPPED =? MALLOCED))) with false. cbv iota zeta beta.
    change (1 =? 0) with false. cbv iota. res_cbn.
    set (comp' := mkComp _ _ _). set (a' := set_components _ _).
    unfold a' at 1. cbn [components set_components]. rewrite lookup_insert_eq.
    assert (comp_component_state disk cid comp' = ComponentLoaded) as Hst1 by done.
    rewrite Hst1, decide_True by done. exists comp', a'. split; [done |]. split; [done |].
    assert (comp_size comp' = nr_ints d) as Hsize.
    { unfold comp'. cbn [comp_size nr_items]. change (SIZE_INT =? SIZE_BIT) with false. cbv iota.
      change SIZE_INT with 4. fold (nr_ints d). apply s32_u32.
      pose proof (zlen_nonneg d). unfold nr_ints, INT_MIN in *. Z.div_mod_to_equations. lia. }
    assert (forall cid', avail a' cid' = avail a cid') as Hav.
    { apply (avail_insert a cid comp); [done |]. unfold comp_avail. cbn [comp_data data comp'].
      rewrite Hd, decide_False by done. unfold file_of. by rewrite Hp, Ha. }
    assert (component_state disk a' cid = ComponentLoaded) as Hst.
    { unfold component_state, a'. cbn [components set_components]. by rewrite lookup_insert_eq. }
    assert (forall cid', cid' <> cid -> component_state disk a' cid' = component_state disk a cid')
      as Hoth by (intros; by apply component_state_insert).
    split; [done |]. split; [| done]. split; try done.
    + intros _ cid' comp'' Hc'. unfold a' in Hc'. cbn [components set_components] in Hc'.
      destruct (decide (cid' = cid)) as [->|Hne].
      * rewrite lookup_insert_eq in Hc'. injection Hc' as <-. split.
        -- intros d'. unfold comp_avail. cbn [comp_data data comp']. congruence.
        -- intros d' [= <-] _. done.
      * rewrite lookup_insert_ne in Hc' by done. by apply Hwf.
    + intros cid' Hl. destruct (decide (cid' = cid)) as [->|Hne]; [done | by rewrite Hoth].
    + intros cid'. unfold a'. cbn [components set_components]. destruct (decide (cid' = cid)) as [->|Hne].
      * right. exists comp, d. split; [done |]. split; [done |]. split.
        -- unfold comp_avail. rewrite Hd, decide_False by done. unfold file_of. by rewrite Hp.
        -- rewrite lookup_insert_eq. unfold load_of. rewrite Hd, Hp. done.
      * left. by rewrite lookup_insert_ne by done.
Qed.
End Available.

(** [ensure_component]: a component that is in memory or has a file is
    returned with exactly the contents of the file and its number of [int]s,
    and is loaded afterwards; no other component changes state, and nothing
    that any component gives access to changes. *)
Theorem ensure_component_loads (be : bool) (disk : gmap string (list Z)) (a : Attribute)
    (cid : ComponentID) (try_creation : bool) (d : list Z) :
  cid <> CompDirectory -> cid <> CompHuffCodes ->
  avail disk a cid = Some d -> wf_attribute disk a ->
  exists comp a', ensure_component be disk a cid try_creation = Ok (Some comp, a') /\
    data (comp_data comp) = Some d /\ comp_size comp = nr_ints d /\
    wf_attribute disk a' /\ (forall cid', avail disk a' cid' = avail disk a cid') /\
    component_state disk a' cid = ComponentLoaded /\
    (forall cid', cid' <> cid -> component_state disk a' cid' = component_state disk a cid') /\
    ensure_component be disk a' cid try_creation = Ok (Some comp, a').
Proof.
  intros Hd Hh Ha Hwf.
  destruct (ensure_component_ok be disk a cid d try_creation Hd Hh Ha Hwf)
    as (comp & a' & E & Hdata & Hsize & L & Hst & Hoth).
  exists comp, a'. split; [done |]. split; [done |]. split; [done |].
  split; [by apply (loads_wf _ _ _ L) |]. split; [apply (loads_avail _ _ _ L) |]. split; [done |].
  split; [done |].
  revert E Hst Hdata. unfold ensure_component at 1.
  destruct (components a !! cid) as [c0|] eqn:Hc; [| done].
  unfold ensure_component, component_state.
  destruct (comp_component_state disk cid c0) eqn:Hs; intros E Hst Hdata.
  - injection E as -> ->. by rewrite Hc, Hs.
  - inv_bind E. destruct (components a0 !! cid) as [c1|] eqn:Hc1; [| done].
    destruct (decide _) as [Hl|]; [| done]. injection E as -> ->. by rewrite Hc1, Hl.
  - done.
  - injection E as -> ->. by rewrite Hc, Hs in Hst.
Qed.

Lemma ensure_component_loads_witness :
  let a := mkAtt ATT_POS {[ CompCorpus := mkComp (Some "word.corpus"%string) 0 init_mblob ]} None (-1) [] in
  let disk := {[ "word.corpus"%string := [0; 0; 0; 7; 0; 0; 0; 9] ]} in
  exists comp a', ensure_component true disk a CompCorpus false = Ok (Some comp, a') /\
    data (comp_data comp) = Some [0; 0; 0; 7; 0; 0; 0; 9] /\ comp_size comp = 2 /\
    wf_attribute disk a' /\ (forall cid', avail disk a' cid' = avail disk a cid') /\
    component_state disk a' CompCorpus = ComponentLoaded /\
    (forall cid', cid' <> CompCorpus -> component_state disk a' cid' = component_state disk a cid') /\
    ensure_component true disk a' CompCorpus false = Ok (Some comp, a').
Proof.
  intros a disk. apply (ensure_component_loads true disk a CompCorpus false [0; 0; 0; 7; 0; 0; 0; 9]).
  - discriminate.
  - discriminate.
  - vm_compute. reflexivity.
  - intros cid comp Hc. unfold a in Hc. cbn [components] in Hc.
    apply lookup_singleton_Some in Hc as [<- <-]. split; [| discriminate].
    intros d Hd. cbn in Hd. injection Hd as <-. vm_compute. discriminate.
Defined.

(** ** Attributes in memory

    An attribute all of whose components are loaded. *)
Definition loaded (d : list Z) : Component :=
  mkComp None (nr_ints d) (mkBlob (zlen d) SIZE_INT (nr_ints d) (Some d) MMAPPED).

Definition mem_attribute (ty : Z) (l : list (ComponentID * list Z)) : Attribute :=
  mkAtt ty (list_to_map ((fun p => (p.1, loaded p.2)) <$> l)) None (-1) [].

Lemma mem_attribute_wf disk ty l :
  Forall (fun p => nr_ints p.2 <= INT_MAX) l -> wf_attribute disk (mem_attribute ty l).
Proof.
  intros Hl cid comp Hc. cbn [components mem_attribute] in Hc.
  apply elem_of_list_to_map_2 in Hc. apply list_elem_of_fmap in Hc as ([c d] & [= -> ->] & Hin).
  rewrite Forall_forall in Hl. specialize (Hl _ Hin). cbn in Hl.
  split; intros d' Hd; cbn in Hd; injection Hd as <-; done.
Qed.
