(* ===== verification/ComponentPaths.v ===== *)
(** * File names of attribute components: cl/attributes.c

    [component_full_name] computes the path of a component from a pattern with
    [$NAME] references, into a static buffer that is shared by its recursive
    calls; [declare_component] and [declare_default_components] call it.  The
    buffer is part of the state here, and a [char *] is either a string of its
    own or the buffer, so that the aliasing of the code is visible. *)

From Stdlib Require Import ZArith Lia String Ascii.
From stdpp Require Import base tactics option list numbers gmap strings.
From S2P Require Import Prelude Bits Storage Blob Attributes.

Open Scope Z_scope.

(** ** Component specifications *)

Record component_field_spec := mkSpec {
  spec_id : ComponentID;
  spec_name : string;
  using_atts : Z;
  default_path : string
}.

Definition ATT_ALL : Z := 71.

(** [Component_Field_Specs] without its last element, which no lookup returns. *)
Definition Component_Field_Specs : list component_field_spec :=
  [ mkSpec CompDirectory "DIR" ATT_ALL "$APATH";
    mkSpec CompCorpus "CORPUS" ATT_POS "$DIR/$ANAME.corpus";
    mkSpec CompRevCorpus "REVCORP" ATT_POS "$CORPUS.rev";
    mkSpec CompRevCorpusIdx "REVCIDX" ATT_POS "$CORPUS.rdx";
    mkSpec CompCorpusFreqs "FREQS" ATT_POS "$CORPUS.cnt";
    mkSpec CompLexicon "LEXICON" ATT_POS "$DIR/$ANAME.lexicon";
    mkSpec CompLexiconIdx "LEXIDX" ATT_POS "$LEXICON.idx";
    mkSpec CompLexiconSrt "LEXSRT" ATT_POS "$LEXICON.srt";
    mkSpec CompAlignData "ALIGN" ATT_ALIGN "$DIR/$ANAME.alg";
    mkSpec CompXAlignData "XALIGN" ATT_ALIGN "$DIR/$ANAME.alx";
    mkSpec CompStrucData "STRUC" ATT_STRUC "$DIR/$ANAME.rng";
    mkSpec CompStrucAVS "STRAVS" ATT_STRUC "$DIR/$ANAME.avs";
    mkSpec CompStrucAVX "STRAVX" ATT_STRUC "$DIR/$ANAME.avx";
    mkSpec CompHuffSeq "CIS" ATT_POS "$DIR/$ANAME.huf";
    mkSpec CompHuffCodes "CISCODE" ATT_POS "$DIR/$ANAME.hcd";
    mkSpec CompHuffSync "CISSYNC" ATT_POS "$CIS.syn";
    mkSpec CompCompRF "CRC" ATT_POS "$DIR/$ANAME.crc";
    mkSpec CompCompRFX "CRCIDX" ATT_POS "$DIR/$ANAME.crx" ].

Definition find_cid_name (name : string) : option component_field_spec :=
  List.find (fun spec => bool_decide (spec_name spec = name)) Component_Field_Specs.

Definition find_cid_id (id : ComponentID) : option component_field_spec :=
  Component_Field_Specs !! cid_index id.

Definition cid_name (id : ComponentID) : string :=
  match find_cid_id id with None => "((NULL))" | Some spec => spec_name spec end.

(** [CompLast], the result for an unknown name, is [None]. *)
Definition component_id (name : string) : option ComponentID := spec_id <$> find_cid_name name.

Definition MayHaveComponent (attr_type : Z) (cid : ComponentID) : Z :=
  match find_cid_id cid with
  | Some spec => if negb (Z.land (using_atts spec) attr_type =? 0) then 1 else 0
  | None => 0
  end.

(** ** Characters and pointers *)

Definition CL_MAX_LINE_LENGTH : Z := 4096.
Definition NUL : ascii := ascii_of_nat 0.

Definition chars (s : string) : list ascii := list_ascii_of_string s.
Definition of_chars (l : list ascii) : string := string_of_list_ascii l.

(** [isupper] in the C locale. *)
Definition isupper (c : ascii) : bool := (65 <=? nat_of_ascii c)%nat && (nat_of_ascii c <=? 90)%nat.

(** A [char *] of this module: a string of its own, or the static buffer. *)
Inductive charptr := Str (s : string) | Buf.

Record PathState := mkPaths {
  buf : list ascii;
  comps : gmap ComponentID Component
}.

(** [p[i]] *)
Definition fetch (b : list ascii) (p : charptr) (i : Z) : res ascii :=
  match p with Str s => aget (chars s ++ [NUL]) i | Buf => aget b i end.

(** The string a pointer points to, as [cl_strdup] copies it. *)
Fixpoint c_chars (b : list ascii) : res (list ascii) :=
  match b with
  | [] => Err OutOfBounds
  | c :: b => if decide (c = NUL) then Ok [] else l ← c_chars b; Ok (c :: l)
  end.

Section Paths.
Context (home : option string).          (* getenv("HOME") *)
Context (aname : string).                (* attribute->any.name *)
Context (apath : option string).         (* attribute->any.path *)
Context (mother_path : option string).   (* attribute->any.mother->path *)

(** [while (isupper(c)) { rname[rpos++] = c; c = path[++ppos]; }]: the name
    collected and the position after it. *)
Definition rname_round (b : list ascii) (path : charptr) (st : Z * list ascii)
  : res (Z * list ascii + Z * list ascii) :=
  let '(ppos, rname) := st in
  c ← fetch b path ppos;
  if zlen rname <? CL_MAX_LINE_LENGTH then
    if isupper c then Ok (inl (ppos + 1, rname ++ [c])) else Ok (inr (ppos, rname))
  else Err OutOfBounds.

(** [for (rpos = 0; reference[rpos] != 0; rpos++) { buf[bpos] = reference[rpos]; bpos++; }] *)
Definition copy_round (reference : charptr) (st : Z * Z * list ascii)
  : res (Z * Z * list ascii + Z * list ascii) :=
  let '(rpos, bpos, b) := st in
  c ← fetch b reference rpos;
  if decide (c = NUL) then Ok (inr (bpos, b))
  else b ← aset b bpos c; Ok (inl (rpos + 1, bpos + 1, b)).

(** The value of the reference [$rname], NULL when there is none; [rec] is the
    recursive call. *)
Definition resolve (rec : PathState -> ComponentID -> res (option charptr * PathState))
    (s : PathState) (rname : string) : res (option charptr * PathState) :=
  if decide (rname = "HOME") then Ok (Str <$> home, s)
  else if decide (rname = "APATH") then
    Ok (Str <$> (match apath with Some p => Some p | None => mother_path end), s)
  else if decide (rname = "ANAME") then Ok (Some (Str aname), s)
  else match find_cid_name rname with
  | Some spec => rec s (spec_id spec)
  | None => Ok (None, s)
  end.

(** One round of [while ((c = path[ppos]) != 0)]. *)
Definition path_round (rec : PathState -> ComponentID -> res (option charptr * PathState))
    (path : charptr) (st : Z * Z * PathState) : res (Z * Z * PathState + Z * PathState) :=
  let '(ppos, bpos, s) := st in
  c ← fetch (buf s) path ppos;
  if decide (c = NUL) then Ok (inr (bpos, s))
  else if decide (c = "$"%char) then
    r ← loop (rname_round (buf s) path) fuel (ppos + 1, []);
    let '(ppos, rname) := r in
    let rname := of_chars rname in
    r ← resolve rec s rname;
    let '(reference, s) := r in
    let reference := match reference with Some p => p | None => Str rname end in
    r ← loop (copy_round reference) fuel (0, bpos, buf s);
    let '(bpos, b) := r in
    Ok (inl (ppos, bpos, mkPaths b (comps s)))
  else
    b ← aset (buf s) bpos c;
    Ok (inl (ppos + 1, bpos + 1, mkPaths b (comps s))).

Definition set_path (cid : ComponentID) (p : string) (comp : Component) (s : PathState) : PathState :=
  mkPaths (buf s) (<[cid := mkComp (Some p) (comp_size comp) (comp_data comp)]> (comps s)).

(** [declare_component] for an attribute that is not NULL, with the call of
    [component_full_name] as a parameter; a new component's [size] is whatever
    the allocated block holds. *)
Definition declare_with (full_name : PathState -> ComponentID -> option charptr -> res (option charptr * PathState))
    (junk : Z) (s : PathState) (cid : ComponentID) (path : option charptr) : res PathState :=
  match comps s !! cid with
  | None =>
      r ← full_name (mkPaths (buf s) (<[cid := mkComp None junk init_mblob]> (comps s))) cid path;
      Ok r.2
  | Some _ => Ok s
  end.

(** [component_full_name]; [n] bounds the depth of the recursion. *)
Fixpoint component_full_name (n : nat) (junk : Z) (s : PathState) (cid : ComponentID) (path : option charptr)
  : res (option charptr * PathState) :=
  match n with
  | O => Err OutOfFuel
  | S n =>
      let component := comps s !! cid in
      match component ≫= Attributes.path with
      | Some p => Ok (Some (Str p), s)
      | None =>
          match path, find_cid_id cid with
          | None, None => Ok (None, s)
          | _, spec =>
              path ← (match path, spec with
                      | Some p, _ => Ok p
                      | None, Some sp => Ok (Str (default_path sp))
                      | None, None => Err NullDeref
                      end);
              b ← aset (buf s) 0 NUL;
              r ← loop (path_round (fun s c => component_full_name n junk s c None) path) fuel
                    (0, 0, mkPaths b (comps s));
              let '(bpos, s) := r in
              b ← aset (buf s) bpos NUL;
              let s := mkPaths b (comps s) in
              s ← (match component with
                   | Some comp => l ← c_chars b; Ok (set_path cid (of_chars l) comp s)
                   | None => declare_with (component_full_name n junk) junk s cid (Some Buf)
                   end);
              Ok (Some Buf, s)
          end
      end
  end.

Definition declare_component (n : nat) (junk : Z) : PathState -> ComponentID -> option charptr -> res PathState :=
  declare_with (component_full_name n junk) junk.

(** [for (i = CompDirectory; i < CompLast; i++)] *)
Definition declare_default_components (n : nat) (junk : Z) (atype : Z) (s : PathState) : res PathState :=
  for_up (fun i s =>
    spec ← aget Component_Field_Specs i;
    if negb (Z.land (using_atts spec) atype =? 0) && (if comps s !! spec_id spec is None then true else false)
    then declare_component n junk s (spec_id spec) None
    else Ok s) 0 18 s.
End Paths.

(** ** What a pattern stands for

    [expand lk m p] replaces the references of the pattern [p] by [lk]; [m] is
    the name being read after a [$], if any.  [refs m p] are the names. *)
Section Expand.
Context (lk : list ascii -> list ascii).

Fixpoint expand (m : option (list ascii)) (p : list ascii) : list ascii :=
  match p, m with
  | [], None => []
  | [], Some r => lk r
  | c :: p, None => if decide (c = "$"%char) then expand (Some []) p else c :: expand None p
  | c :: p, Some r =>
      if isupper c then expand (Some (r ++ [c])) p
      else lk r ++ (if decide (c = "$"%char) then expand (Some []) p else c :: expand None p)
  end.

Fixpoint refs (m : option (list ascii)) (p : list ascii) : list (list ascii) :=
  match p, m with
  | [], None => []
  | [], Some r => [r]
  | c :: p, None => if decide (c = "$"%char) then refs (Some []) p else refs None p
  | c :: p, Some r =>
      if isupper c then refs (Some (r ++ [c])) p
      else r :: (if decide (c = "$"%char) then refs (Some []) p else refs None p)
  end.

(** The longest prefix of capital letters. *)
Fixpoint uppers (p : list ascii) : list ascii :=
  match p with [] => [] | c :: p => if isupper c then c :: uppers p else [] end.

Lemma expand_Some r p :
  expand (Some r) p = lk (r ++ uppers p) ++ expand None (drop (length (uppers p)) p).
Proof.
  revert r. induction p as [|c p IH]; intros r; cbn [expand uppers].
  - by rewrite drop_nil, !app_nil_r.
  - destruct (isupper c) eqn:Hc.
    + rewrite IH. cbn [length drop]. by rewrite <- (assoc_L (++)).
    + by rewrite app_nil_r.
Qed.

Lemma refs_Some r p :
  refs (Some r) p = (r ++ uppers p) :: refs None (drop (length (uppers p)) p).
Proof.
  revert r. induction p as [|c p IH]; intros r; cbn [refs uppers].
  - by rewrite drop_nil, app_nil_r.
  - destruct (isupper c) eqn:Hc.
    + rewrite IH. cbn [length drop]. by rewrite <- (assoc_L (++)).
    + by rewrite app_nil_r.
Qed.

Lemma uppers_prefix p : uppers p `prefix_of` p.
Proof.
  induction p as [|c p [k IH]]; cbn [uppers]; [done |]. destruct (isupper c); [| apply prefix_nil].
  exists k. cbn. by f_equal.
Qed.
End Expand.

(** ** The loops of [component_full_name] *)

Definition nul_free (l : list ascii) : Prop := Forall (fun c => c <> NUL) l.

Lemma fetch_Str b s k :
  (k <= length (chars s))%nat -> fetch b (Str s) (Z.of_nat k) = Ok (default NUL (chars s !! k)).
Proof.
  intros Hk. unfold fetch. apply aget_nat. destruct (chars s !! k) as [c|] eqn:E; cbn.
  - by apply lookup_app_l_Some.
  - apply lookup_ge_None in E. assert (k = length (chars s)) as -> by lia.
    by rewrite list_lookup_middle.
Qed.

Lemma uppers_lookup p j c : uppers p !! j = Some c -> p !! j = Some c /\ isupper c = true.
Proof.
  revert j. induction p as [|x p IH]; intros j; cbn [uppers]; [done |].
  destruct (isupper x) eqn:Hx; [| done].
  destruct j; cbn; [by intros [= ->] | apply IH].
Qed.

Lemma uppers_end p : isupper (default NUL (p !! length (uppers p))) = false.
Proof.
  induction p as [|x p IH]; cbn [uppers]; [done |]. by destruct (isupper x) eqn:Hx.
Qed.

Lemma rname_ok b s k :
  (k <= length (chars s))%nat -> zlen (chars s) < CL_MAX_LINE_LENGTH ->
  let U := uppers (drop k (chars s)) in
  loop (rname_round b (Str s)) fuel (Z.of_nat k, []) = Ok (Z.of_nat (k + length U), U).
Proof.
  intros Hk Hl U.
  assert (length U <= length (chars s) - k)%nat as HU.
  { rewrite <- length_drop. apply prefix_length, uppers_prefix. }
  loop_with (fun st => exists j, (j <= length U)%nat /\ st = (Z.of_nat (k + j), take j U))
    (fun r => r = (Z.of_nat (k + length U), U))
    (fun st => Z.of_nat (k + length U) - st.1) r E H; [| | | by rewrite H].
  - intros _ (j & Hj & ->). split; [cbn [fst]; lia |].
    unfold rname_round. rewrite fetch_Str by lia. res_cbn.
    replace (zlen (take j U) <? CL_MAX_LINE_LENGTH) with true
      by (symmetry; apply Z.ltb_lt; unfold zlen in *; rewrite length_take; lia).
    cbv iota. rewrite <- lookup_drop.
    destruct (decide (j = length U)) as [->|Hne].
    + right. eexists. split; [| reflexivity].
      pose proof (uppers_end (drop k (chars s))) as He. fold U in He. rewrite He.
      by rewrite take_ge by lia.
    + left. destruct (lookup_lt_is_Some_2 U j) as [c Hc]; [lia |].
      destruct (uppers_lookup _ _ _ Hc) as [-> Hup]. cbn [default]. unfold default, id. rewrite Hup.
      eexists. split; [reflexivity |]. split; [| cbn [fst]; lia].
      exists (S j). split; [lia |]. rewrite (take_S_r _ _ c) by done. f_equal. lia.
  - exists 0%nat. split; [lia |]. by rewrite Nat.add_0_r.
  - cbn [fst]. rewrite fuel_val. unfold zlen, CL_MAX_LINE_LENGTH in *. lia.
Qed.

Lemma copy_ok s pre rest :
  nul_free (chars s) -> zlen (chars s) <= zlen rest -> zlen rest <= INT_MAX ->
  loop (copy_round (Str s)) fuel (0, zlen pre, pre ++ rest) =
    Ok (zlen pre + zlen (chars s), pre ++ chars s ++ drop (length (chars s)) rest).
Proof.
  intros Hn Hl Hm. set (n := length (chars s)).
  loop_with (fun st => exists j, (j <= n)%nat /\
      st = (Z.of_nat j, zlen pre + Z.of_nat j, pre ++ take j (chars s) ++ drop j rest))
    (fun r => r = (zlen pre + Z.of_nat n, pre ++ chars s ++ drop n rest))
    (fun st => Z.of_nat n - st.1.1) r E H; [| | | by rewrite H].
  - intros _ (j & Hj & ->). split; [cbn [fst]; lia |].
    unfold copy_round. rewrite fetch_Str by (fold n; lia). res_cbn.
    destruct (decide (j = n)) as [->|Hne].
    + right. eexists. split; [| reflexivity].
      rewrite (lookup_ge_None_2 (chars s)) by (fold n; lia). cbn [default].
      rewrite decide_True by done. by rewrite take_ge by (fold n; lia).
    + left. destruct (lookup_lt_is_Some_2 (chars s) j) as [c Hc]; [fold n; lia |].
      rewrite Hc. unfold default, id. rewrite decide_False by apply (Forall_lookup_1 _ _ _ _ Hn Hc).
      destruct (lookup_lt_is_Some_2 rest j) as [x Hx]; [unfold zlen in *; fold n in Hl; lia |].
      rewrite (drop_S _ _ _ Hx), (assoc_L (++)), aset_middle
        by (rewrite zlen_app; unfold zlen; rewrite length_take; fold n; lia).
      res_cbn. eexists. split; [reflexivity |]. split; [| cbn [fst]; lia].
      exists (S j). split; [lia |]. rewrite (take_S_r _ _ c Hc), <- !(assoc_L (++)). cbn [app].
      replace (Z.of_nat (S j)) with (Z.of_nat j + 1) by lia. by rewrite Z.add_assoc.
  - exists 0%nat. split; [lia |]. by rewrite Z.add_0_r.
  - cbn [fst]. rewrite fuel_val. unfold zlen, INT_MAX in *. fold n in Hl. lia.
Qed.

Section FullName.
Context (home : option string) (aname : string) (apath mother_path : option string).

Abbreviation resolve := (resolve home aname apath mother_path).
Abbreviation path_round := (path_round home aname apath mother_path).
Abbreviation component_full_name := (component_full_name home aname apath mother_path).

(** [lk] is what the references [rs] resolve to when the components are [cs]. *)
Definition resolves (rec : PathState -> ComponentID -> res (option charptr * PathState))
    (cs : gmap ComponentID Component) (lk : list ascii -> list ascii) (rs : list (list ascii)) : Prop :=
  forall r b, r ∈ rs -> exists q t, resolve rec (mkPaths b cs) (of_chars r) = Ok (q, mkPaths b cs) /\
    default (Str (of_chars r)) q = Str t /\ chars t = lk r /\ nul_free (lk r).

Section PathLoop.
Context (rec : PathState -> ComponentID -> res (option charptr * PathState)).
Context (cs : gmap ComponentID Component) (lk : list ascii -> list ascii) (pat : string) (size : Z).
Context (Hpat : nul_free (chars pat)) (Hlen : zlen (chars pat) < CL_MAX_LINE_LENGTH).
Context (Hres : resolves rec cs lk (refs None (chars pat))).
Context (Hroom : zlen (expand lk None (chars pat)) < size <= INT_MAX).

(** [k] characters of the pattern are read and [out] is written. *)
Definition path_at (k : nat) (out : list ascii) (st : Z * Z * PathState) : Prop :=
  exists rest, st = (Z.of_nat k, zlen out, mkPaths (out ++ rest) cs) /\ zlen out + zlen rest = size /\
    (k <= length (chars pat))%nat /\ out ++ expand lk None (drop k (chars pat)) = expand lk None (chars pat) /\
    refs None (drop k (chars pat)) ⊆ refs None (chars pat).

Lemma path_round_end st out :
  path_at (length (chars pat)) out st ->
  exists rest, path_round rec (Str pat) st = Ok (inr (zlen out, mkPaths (out ++ rest) cs)) /\
    zlen out + zlen rest = size /\ out = expand lk None (chars pat).
Proof.
  intros (rest & -> & Hs & _ & He & _). exists rest. split; [| split; [done |]].
  - unfold path_round. cbv beta iota. rewrite fetch_Str by lia. res_cbn.
    rewrite (lookup_ge_None_2 (chars pat)) by lia. by rewrite decide_True by done.
  - rewrite drop_all in He. cbn [expand] in He. by rewrite app_nil_r in He.
Qed.

Lemma path_round_char st k out c :
  chars pat !! k = Some c -> c <> "$"%char -> path_at k out st ->
  exists st', path_round rec (Str pat) st = Ok (inl st') /\ path_at (S k) (out ++ [c]) st'.
Proof using Hpat Hroom.
  intros Hc Hd (rest & -> & Hs & Hk & He & Hrf).
  rewrite (drop_S _ _ _ Hc) in He, Hrf. cbn [expand refs] in He, Hrf. rewrite decide_False in He by done. rewrite decide_False in Hrf by done.
  assert (zlen out < size) as Hlt.
  { pose proof Hroom as Hr. rewrite <- He, zlen_app, zlen_cons in Hr.
    pose proof (zlen_nonneg (expand lk None (drop (S k) (chars pat)))). lia. }
  destruct rest as [|x rest]; [rewrite zlen_nil in Hs; lia |]. rewrite zlen_cons in Hs.
  unfold path_round. cbv beta iota. rewrite fetch_Str by done. res_cbn. rewrite Hc. unfold default, id.
  rewrite decide_False by apply (Forall_lookup_1 _ _ _ _ Hpat Hc). rewrite decide_False by done.
  cbn [buf]. rewrite aset_middle by done. res_cbn. eexists. split; [reflexivity |].
  exists rest. autorewrite with zlen. rewrite <- !(assoc_L (++)). cbn [app comps].
  split; [| split; [lia | split; [apply lookup_lt_Some in Hc; lia | done]]].
  repeat (f_equal; try lia).
Qed.

Lemma path_round_ref st k out :
  chars pat !! k = Some "$"%char -> path_at k out st ->
  exists st' k' out', path_round rec (Str pat) st = Ok (inl st') /\ (k < k')%nat /\ path_at k' out' st'.
Proof using Hpat Hlen Hres Hroom.
  intros Hc (rest & -> & Hs & Hk & He & Hrf). pose proof (lookup_lt_Some _ _ _ Hc) as Hlt.
  rewrite (drop_S _ _ _ Hc) in He, Hrf. cbn [expand refs] in He, Hrf. rewrite decide_True in He by done. rewrite decide_True in Hrf by done.
  rewrite expand_Some in He. rewrite refs_Some in Hrf. cbn [app] in He, Hrf.
  set (U := uppers (drop (S k) (chars pat))) in *. rewrite drop_drop in He, Hrf.
  assert (length U <= length (chars pat) - S k)%nat as HU.
  { rewrite <- length_drop. apply prefix_length, uppers_prefix. }
  destruct (Hres U (out ++ rest)) as (q & t & Er & Hq & Ht & Hf); [apply Hrf; constructor |].
  unfold path_round. cbv beta iota. rewrite fetch_Str by done. res_cbn. rewrite Hc. unfold default, id.
  rewrite decide_False by done. rewrite decide_True by done. cbn [buf].
  replace (Z.of_nat k + 1) with (Z.of_nat (S k)) by lia. rewrite rname_ok by (done || lia). res_cbn.
  fold U. rewrite Er. res_cbn. cbn [buf].
  change (match q with Some p => p | None => Str (of_chars U) end) with (default (Str (of_chars U)) q).
  rewrite Hq. rewrite <- Ht in Hf, He.
  assert (zlen out + zlen (chars t) < size) as Hr.
  { pose proof Hroom as Hr. rewrite <- He, !zlen_app in Hr.
    pose proof (zlen_nonneg (expand lk None (drop (S k + length U) (chars pat)))). lia. }
  rewrite copy_ok by (done || lia || (pose proof (zlen_nonneg out); lia)). res_cbn.
  do 3 eexists. split; [reflexivity |]. split; [| exists (drop (length (chars t)) rest);
    split; [rewrite (assoc_L (++)); repeat f_equal; by rewrite zlen_app |]]; [lia |].
  split; [rewrite zlen_app; unfold zlen in *; rewrite length_drop; lia |].
  split; [lia |]. split; [by rewrite <- (assoc_L (++)) |].
  intros x Hx. apply Hrf. by constructor.
Qed.

Lemma path_loop_ok b :
  zlen b = size ->
  exists rest, loop (path_round rec (Str pat)) fuel (0, 0, mkPaths b cs) =
    Ok (zlen (expand lk None (chars pat)), mkPaths (expand lk None (chars pat) ++ rest) cs) /\
    zlen (expand lk None (chars pat)) + zlen rest = size.
Proof using Hpat Hlen Hres Hroom.
  intros Hb.
  loop_with (fun st => exists k out, path_at k out st)
    (fun r => exists rest, r = (zlen (expand lk None (chars pat)), mkPaths (expand lk None (chars pat) ++ rest) cs) /\
       zlen (expand lk None (chars pat)) + zlen rest = size)
    (fun st => zlen (chars pat) - st.1.1) r E H.
  - intros st (k & out & Hst). assert (st.1.1 = Z.of_nat k /\ (k <= length (chars pat))%nat) as [Hp Hk].
    { destruct Hst as (rest & -> & _ & Hk & _). done. }
    split; [unfold zlen; lia |]. destruct (chars pat !! k) as [c|] eqn:Hc.
    + left. destruct (decide (c = "$"%char)) as [->|Hd].
      * destruct (path_round_ref st k out Hc Hst) as (st' & k' & out' & E & Hlt & Hst').
        exists st'. split; [done |]. split; [eauto |]. destruct Hst' as (? & -> & _). cbn [fst] in *. lia.
      * destruct (path_round_char st k out c Hc Hd Hst) as (st' & E & Hst').
        exists st'. split; [done |]. split; [eauto |]. destruct Hst' as (? & -> & _). cbn [fst] in *. lia.
    + right. apply lookup_ge_None in Hc. assert (k = length (chars pat)) as -> by lia.
      destruct (path_round_end st out Hst) as (rest & E & Hr & ->). eauto.
  - exists 0%nat, [], b. split; [done |]. change (zlen (@nil ascii)) with 0. split; [lia |]. split; [lia |]. done.
  - cbn [fst]. rewrite fuel_val. unfold CL_MAX_LINE_LENGTH in *. lia.
  - destruct H as (rest & -> & Hr). eauto.
Qed.
End PathLoop.

(** *** The whole function *)

Lemma c_chars_ok l rest : nul_free l -> c_chars (l ++ NUL :: rest) = Ok l.
Proof.
  induction 1 as [|c l Hc _ IH]; cbn [app c_chars]; [done |].
  rewrite decide_False by done. by rewrite IH.
Qed.

Lemma expand_nul_free lk m p :
  nul_free p -> (forall r, r ∈ refs m p -> nul_free (lk r)) -> nul_free (expand lk m p).
Proof.
  intros Hp. revert m. induction Hp as [|c p Hc Hp IH]; intros [r|] H; cbn [expand refs] in *.
  - apply H. set_solver.
  - constructor.
  - destruct (isupper c); [by apply IH |]. apply Forall_app. split; [apply H; set_solver |].
    destruct (decide _); [apply IH | constructor; [done | apply IH]]; set_solver.
  - destruct (decide _); [by apply IH | constructor; [done | by apply IH]].
Qed.

(** A component that has a path already. *)
Lemma full_name_known n junk s cid comp p path :
  comps s !! cid = Some comp -> Attributes.path comp = Some p ->
  component_full_name (S n) junk s cid path = Ok (Some (Str p), s).
Proof. intros Hc Hp. cbn [ComponentPaths.component_full_name]. rewrite Hc. cbn. by rewrite Hp. Qed.

(** A component that was declared and gets its path now. *)
Lemma full_name_new n junk s cid comp path pat lk :
  comps s !! cid = Some comp -> Attributes.path comp = None ->
  match path with Some q => q = Str pat | None => default_path <$> find_cid_id cid = Some pat end ->
  nul_free (chars pat) -> zlen (chars pat) < CL_MAX_LINE_LENGTH ->
  resolves (fun s c => component_full_name n junk s c None) (comps s) lk (refs None (chars pat)) ->
  zlen (expand lk None (chars pat)) < zlen (buf s) <= INT_MAX ->
  exists b, component_full_name (S n) junk s cid path =
      Ok (Some Buf, mkPaths b (<[cid := mkComp (Some (of_chars (expand lk None (chars pat))))
                                   (comp_size comp) (comp_data comp)]> (comps s))) /\
    zlen b = zlen (buf s).
Proof.
  intros Hc Hn Hp Hf Hl Hres Hroom. cbn [ComponentPaths.component_full_name]. rewrite Hc. cbn [mbind option_bind].
  rewrite Hn. set (E := expand lk None (chars pat)) in *. pose proof (zlen_nonneg E).
  assert (nul_free E) as HE.
  { apply expand_nul_free; [done |]. intros r Hr. by destruct (Hres r [] Hr) as (q & t & _ & _ & _ & ?). }
  assert (aset (buf s) 0 NUL = Ok (<[0%nat := NUL]> (buf s))) as Eb by (apply aset_Ok; lia).
  destruct (path_loop_ok _ (comps s) lk pat (zlen (buf s)) Hf Hl Hres Hroom (<[0%nat := NUL]> (buf s)))
    as (rest & Elp & Hz); [by rewrite zlen_insert |].
  destruct rest as [|x rest]; [fold E in Hz; rewrite zlen_nil in Hz; lia |].
  destruct path as [q|]; [subst q | destruct (find_cid_id cid) as [spec|]; [cbn in Hp; injection Hp as -> | done]];
    res_cbn; rewrite Eb; res_cbn; rewrite Elp; res_cbn; cbn [buf comps]; fold E;
    rewrite aset_middle by done; res_cbn; rewrite c_chars_ok by done; res_cbn;
    (exists (E ++ NUL :: rest); split; [reflexivity |]; fold E in Hz; rewrite zlen_cons in Hz; rewrite zlen_app, zlen_cons; lia).
Qed.
End FullName.

(** ** The default components *)

Lemma chars_app s t : chars (s +:+ t) = chars s ++ chars t.
Proof. unfold chars. induction s as [|c s IH]; [done |].
  change (list_ascii_of_string (String c s +:+ t)) with (c :: list_ascii_of_string (s +:+ t)). by rewrite IH. Qed.

Lemma of_chars_chars s : of_chars (chars s) = s.
Proof. apply string_of_list_ascii_of_string. Qed.

(** Where the data of a component is, for an attribute [n] in directory [d]. *)
Definition default_name (d n : string) (cid : ComponentID) : string :=
  match cid with
  | CompDirectory => d
  | CompCorpus => d +:+ "/" +:+ n +:+ ".corpus"
  | CompRevCorpus => d +:+ "/" +:+ n +:+ ".corpus.rev"
  | CompRevCorpusIdx => d +:+ "/" +:+ n +:+ ".corpus.rdx"
  | CompCorpusFreqs => d +:+ "/" +:+ n +:+ ".corpus.cnt"
  | CompLexicon => d +:+ "/" +:+ n +:+ ".lexicon"
  | CompLexiconIdx => d +:+ "/" +:+ n +:+ ".lexicon.idx"
  | CompLexiconSrt => d +:+ "/" +:+ n +:+ ".lexicon.srt"
  | CompAlignData => d +:+ "/" +:+ n +:+ ".alg"
  | CompXAlignData => d +:+ "/" +:+ n +:+ ".alx"
  | CompStrucData => d +:+ "/" +:+ n +:+ ".rng"
  | CompStrucAVS => d +:+ "/" +:+ n +:+ ".avs"
  | CompStrucAVX => d +:+ "/" +:+ n +:+ ".avx"
  | CompHuffSeq => d +:+ "/" +:+ n +:+ ".huf"
  | CompHuffCodes => d +:+ "/" +:+ n +:+ ".hcd"
  | CompHuffSync => d +:+ "/" +:+ n +:+ ".huf.syn"
  | CompCompRF => d +:+ "/" +:+ n +:+ ".crc"
  | CompCompRFX => d +:+ "/" +:+ n +:+ ".crx"
  end.

(** The components an attribute type has. *)
Definition has_component (ty : Z) (cid : ComponentID) : bool := MayHaveComponent ty cid =? 1.

Section Defaults.
Context (home : option string) (n d : string) (apath mother_path : option string).
Context (Hd : match apath with Some p => Some p | None => mother_path end = Some d).
Context (Hfd : nul_free (chars d)) (Hfn : nul_free (chars n)).
Context (junk ty : Z) (Hty : ty ∈ [ATT_POS; ATT_STRUC; ATT_ALIGN; ATT_DYN]).

Abbreviation component_full_name := (component_full_name home n apath mother_path).

Definition default_comp (cid : ComponentID) : Component :=
  mkComp (Some (default_name d n cid)) junk init_mblob.

(** The components whose number is below [k] are declared. *)
Definition defaults_below (k : nat) (cs : gmap ComponentID Component) : Prop :=
  forall cid, cs !! cid =
    if (cid_index cid <? k)%nat && has_component ty cid then Some (default_comp cid) else None.

(** What the references in the default paths stand for. *)
Definition default_lk (r : list ascii) : list ascii :=
  if decide (of_chars r = "APATH") then chars d
  else if decide (of_chars r = "ANAME") then chars n
  else match find_cid_name (of_chars r) with
  | Some sp => chars (default_name d n (spec_id sp))
  | None => r
  end.

Lemma default_name_nul_free cid : nul_free (chars (default_name d n cid)).
Proof using Hfd Hfn.
  destruct cid; cbn [default_name]; rewrite ?chars_app; rewrite ?Forall_app;
    (try done); unfold nul_free; rewrite ?Forall_app; repeat split; try done;
    repeat constructor; discriminate.
Qed.

Lemma default_name_length cid :
  zlen (chars (default_name d n cid)) <= zlen (chars d) + zlen (chars n) + 13.
Proof.
  pose proof (zlen_nonneg (chars n)).
  destruct cid; cbn [default_name]; rewrite ?chars_app; autorewrite with zlen; unfold zlen in *; cbn [chars list_ascii_of_string length]; lia.
Qed.

Lemma expand_default cid sp :
  find_cid_id cid = Some sp ->
  expand default_lk None (chars (default_path sp)) = chars (default_name d n cid).
Proof.
  assert (default_lk (chars "APATH") = chars d) as H1 by reflexivity.
  assert (default_lk (chars "ANAME") = chars n) as H2 by reflexivity.
  assert (default_lk (chars "DIR") = chars d) as H3 by reflexivity.
  assert (default_lk (chars "CORPUS") = chars (default_name d n CompCorpus)) as H4 by reflexivity.
  assert (default_lk (chars "LEXICON") = chars (default_name d n CompLexicon)) as H5 by reflexivity.
  assert (default_lk (chars "CIS") = chars (default_name d n CompHuffSeq)) as H6 by reflexivity.
  cbn [default_name] in H4, H5, H6. rewrite !chars_app in H4, H5, H6.
  generalize default_lk H1 H2 H3 H4 H5 H6. clear. intros lk.
  destruct cid; intros H1 H2 H3 H4 H5 H6 [= <-]; cbn [default_path default_name]; rewrite ?chars_app;
    revert H1 H2 H3 H4 H5 H6; generalize (chars d) (chars n); intros cd cn;
    lazy -[app]; cbn [app]; intros H1 H2 H3 H4 H5 H6; rewrite ?H1, ?H2, ?H3, ?H4, ?H5, ?H6;
    rewrite ?app_nil_r, <- ?(assoc_L (++)); cbn [app]; rewrite <- ?(assoc_L (++)); done.
Qed.

(** A reference that the default paths contain, when the components it may
    stand for are declared. *)
Definition ref_known (cs : gmap ComponentID Component) (r : list ascii) : Prop :=
  of_chars r <> "HOME" /\
  (of_chars r = "APATH" \/ of_chars r = "ANAME" \/
   exists sp, find_cid_name (of_chars r) = Some sp /\ cs !! spec_id sp = Some (default_comp (spec_id sp))).

Lemma refs_known_resolve k cs rs :
  Forall (ref_known cs) rs ->
  resolves home n apath mother_path (fun s c => component_full_name (S k) junk s c None) cs default_lk rs.
Proof using Hd Hfd Hfn.
  intros H r b Hr. apply (proj1 (Forall_forall _ _) H) in Hr as (Hh & Hc).
  unfold resolve, default_lk. rewrite decide_False by done.
  destruct (decide (of_chars r = "APATH")); [rewrite Hd; by exists (Some (Str d)), d |].
  destruct (decide (of_chars r = "ANAME")); [by exists (Some (Str n)), n |].
  destruct Hc as [?|[?|(sp & -> & Hc)]]; [done | done |].
  exists (Some (Str (default_name d n (spec_id sp)))), (default_name d n (spec_id sp)).
  split; [by eapply full_name_known |]. repeat split. apply default_name_nul_free.
Qed.

Lemma default_refs_known cid sp cs :
  find_cid_id cid = Some sp -> has_component ty cid = true ->
  (forall c, (cid_index c < cid_index cid)%nat -> has_component ty c = true -> cs !! c = Some (default_comp c)) ->
  Forall (ref_known cs) (refs None (chars (default_path sp))).
Proof using Hty.
  intros Hsp Ht Hcs.
  assert (has_component ty CompDirectory = true) as HD
    by (repeat (apply elem_of_cons in Hty as [->|Hty]; [done |]); by apply elem_of_nil in Hty).
  assert (Forall (fun r => of_chars r <> "HOME" /\ (of_chars r = "APATH" \/ of_chars r = "ANAME" \/
      exists sp', find_cid_name (of_chars r) = Some sp' /\ (cid_index (spec_id sp') < cid_index cid)%nat /\
        (spec_id sp' = CompDirectory \/ using_atts sp' = using_atts sp /\ find_cid_id (spec_id sp') = Some sp')))
    (refs None (chars (default_path sp)))) as H.
  { destruct cid; injection Hsp as <-; cbn [default_path];
      match goal with |- Forall _ ?l => let l' := eval vm_compute in l in change l with l' end;
      repeat (apply Forall_cons_2; [split; [discriminate |] |]); try apply Forall_nil_2;
      solve [by left | by right; left | right; right; eexists; split; [reflexivity |];
               split; [cbn; lia |]; solve [by left | by right]]. }
  apply (Forall_impl _ _ _ H). intros r (Hh & Hr). split; [done |].
  destruct Hr as [?|[?|(sp' & Hf & Hi & Hu)]]; [tauto | tauto |]. right; right. exists sp'. split; [done |].
  apply Hcs; [done |]. destruct Hu as [->|[Hu Hf']]; [done |].
  unfold has_component, MayHaveComponent in *. rewrite Hsp in Ht. rewrite Hf'. by rewrite Hu.
Qed.

Context (Hroom : zlen (chars d) + zlen (chars n) + 13 < CL_MAX_LINE_LENGTH).

Lemma declare_default_ok k b cs cid sp :
  find_cid_id cid = Some sp -> has_component ty cid = true -> cs !! cid = None ->
  (forall c, (cid_index c < cid_index cid)%nat -> has_component ty c = true -> cs !! c = Some (default_comp c)) ->
  zlen b = CL_MAX_LINE_LENGTH ->
  exists b', declare_component home n apath mother_path (S (S k)) junk (mkPaths b cs) cid None =
      Ok (mkPaths b' (<[cid := default_comp cid]> cs)) /\ zlen b' = CL_MAX_LINE_LENGTH.
Proof using Hd Hfd Hfn Hty Hroom.
  intros Hsp Ht Hc Hcs Hb. unfold declare_component, declare_with. cbn [comps buf]. rewrite Hc.
  pose proof (default_name_length cid) as Hlen.
  destruct (full_name_new home n apath mother_path (S k) junk
      (mkPaths b (<[cid := mkComp None junk init_mblob]> cs)) cid (mkComp None junk init_mblob) None
      (default_path sp) default_lk) as (b' & E & Hz); cbn [comps buf].
  - apply lookup_insert_eq.
  - done.
  - by rewrite Hsp.
  - destruct cid; injection Hsp as <-; repeat constructor; discriminate.
  - destruct cid; injection Hsp as <-; reflexivity.
  - apply refs_known_resolve, (default_refs_known cid); [done | done |].
    intros c Hi Hh. rewrite lookup_insert_ne by (intros ->; lia). by apply Hcs.
  - rewrite (expand_default cid) by done. rewrite Hb. unfold CL_MAX_LINE_LENGTH, INT_MAX in *. lia.
  - rewrite E. res_cbn. cbn [snd comps]. exists b'. split; [| by rewrite Hz].
    cbn [comp_size comp_data]. rewrite insert_insert_eq.
    rewrite (expand_default cid) by done. by rewrite of_chars_chars.
Qed.

(** The table is in the order of the enumeration. *)
Lemma spec_index j sp : Component_Field_Specs !! j = Some sp -> cid_index (spec_id sp) = j.
Proof. do 18 (destruct j as [|j]; [by intros [= <-] |]). discriminate. Qed.

Lemma declare_default_components_ok k b :
  zlen b = CL_MAX_LINE_LENGTH ->
  exists s, declare_default_components home n apath mother_path (S (S k)) junk ty (mkPaths b ∅) = Ok s /\
    zlen (buf s) = CL_MAX_LINE_LENGTH /\ defaults_below 18 (comps s).
Proof using Hd Hfd Hfn Hty Hroom.
  intros Hb. unfold declare_default_components.
  for_up_with (fun i s => zlen (buf s) = CL_MAX_LINE_LENGTH /\ defaults_below (Z.to_nat i) (comps s)) s E H.
  - lia.
  - intros i [b' cs] Hi (Hb' & Hcs). cbn [buf comps] in *.
    destruct (aget_total Component_Field_Specs i) as (sp & E & Hl); [exact Hi |]. rewrite E. res_cbn. clear E.
    pose proof (spec_index _ _ Hl) as Hix. set (cid := spec_id sp) in *.
    assert (find_cid_id cid = Some sp) as Hsp by (unfold find_cid_id; by rewrite Hix).
    assert (negb (Z.land (using_atts sp) ty =? 0) = has_component ty cid) as ->.
    { unfold has_component, MayHaveComponent. rewrite Hsp. by destruct (negb _). }
    assert (cs !! cid = None) as Hc by (rewrite (Hcs cid), Hix, Nat.ltb_irrefl; done).
    cbn [comps]. rewrite Hc, andb_true_r.
    assert (forall cs', (forall c, c <> cid -> cs' !! c = cs !! c) ->
      cs' !! cid = (if has_component ty cid then Some (default_comp cid) else None) ->
      defaults_below (Z.to_nat (i + 1)) cs') as Hnext.
    { intros cs' Ho Hn c. replace (Z.to_nat (i + 1)) with (S (Z.to_nat i)) by lia. destruct (decide (c = cid)) as [->|Hne].
      - rewrite Hn, Hix, (proj2 (Nat.ltb_lt _ _)) by lia. done.
      - rewrite Ho by done. rewrite (Hcs c).
        assert (cid_index c <> cid_index cid) by (intros ?; by apply Hne, (inj cid_index)).
        assert ((cid_index c <? S (Z.to_nat i))%nat = (cid_index c <? Z.to_nat i)%nat) as ->; [| done].
        apply eq_bool_prop_intro. rewrite !Is_true_true, !Nat.ltb_lt. lia. }
    destruct (has_component ty cid) eqn:Hh.
    + destruct (declare_default_ok k b' cs cid sp) as (b2 & -> & Hb2); try done.
      { intros c Hlt Hhc. rewrite (Hcs c), Hhc, (proj2 (Nat.ltb_lt _ _)) by lia. done. }
      eexists. split; [done |]. split; [done |]. cbn [comps]. apply Hnext.
      * intros c Hne. by rewrite lookup_insert_ne.
      * apply lookup_insert_eq.
    + eexists. split; [done |]. split; [done |]. apply Hnext; done.
  - split; [done |]. intros c. cbn. by rewrite lookup_empty.
  - by exists s.
Qed.
End Defaults.

(** After [declare_default_components] an attribute without components has
    exactly the components of its type, and the file name of each is the
    attribute's directory and name with the component's extension, whatever the
    directory and the name are, as long as the file names fit the line buffer. *)
Theorem declare_default_components_paths (home apath mother_path : option string) (n d : string)
    (junk ty : Z) (k : nat) (b : list ascii) :
  (match apath with Some p => Some p | None => mother_path end) = Some d ->
  nul_free (chars d) -> nul_free (chars n) ->
  ty ∈ [ATT_POS; ATT_STRUC; ATT_ALIGN; ATT_DYN] ->
  zlen (chars d) + zlen (chars n) + 13 < CL_MAX_LINE_LENGTH -> zlen b = CL_MAX_LINE_LENGTH ->
  exists s, declare_default_components home n apath mother_path (S (S k)) junk ty (mkPaths b ∅) = Ok s /\
    forall cid, comps s !! cid =
      (if MayHaveComponent ty cid =? 1
       then Some (mkComp (Some (default_name d n cid)) junk init_mblob) else None).
Proof.
  intros Hd Hfd Hfn Hty Hroom Hb.
  destruct (declare_default_components_ok home n d apath mother_path Hd Hfd Hfn junk ty Hty Hroom k b Hb)
    as (s & E & _ & Hs).
  exists s. split; [done |]. intros cid. rewrite (Hs cid). by destruct cid.
Qed.

Lemma declare_default_components_paths_witness :
  exists s, declare_default_components None "word" None (Some "/corpora/dickens"%string) 2 0 ATT_POS
      (mkPaths (replicate 4096 NUL) ∅) = Ok s /\
    (path <$> comps s !! CompHuffSync) = Some (Some "/corpora/dickens/word.huf.syn"%string).
Proof.
  destruct (declare_default_components_paths None None (Some "/corpora/dickens"%string) "word" "/corpora/dickens"
              0 ATT_POS 0 (replicate 4096 NUL)) as (s & E & H).
  - reflexivity.
  - repeat constructor; discriminate.
  - repeat constructor; discriminate.
  - repeat constructor.
  - vm_compute. reflexivity.
  - vm_compute. reflexivity.
  - exists s. split; [exact E |]. rewrite (H CompHuffSync). reflexivity.
Defined.

(** ** Components that were never declared

    [component_full_name] fills the static buffer, hands it as the path to
    [declare_component], and the nested call of itself empties it first. *)
Section Undeclared.
Context (home : option string) (aname : string) (apath mother_path : option string) (junk : Z).

Abbreviation component_full_name := (component_full_name home aname apath mother_path).

(** A component that [s] does not have is absent from [s'], or has the empty path. *)
Definition new_are_empty (s s' : PathState) : Prop :=
  forall c, comps s !! c = None ->
    comps s' !! c = None \/ exists comp, comps s' !! c = Some comp /\ path comp = Some ""%string.

Definition keeps (s s' : PathState) : Prop :=
  new_are_empty s s' /\ (forall c comp, comps s !! c = Some comp -> is_Some (comps s' !! c)) /\
  forall c comp p, comps s !! c = Some comp -> path comp = Some p ->
    exists comp', comps s' !! c = Some comp' /\ path comp' = Some p.

#[local] Instance keeps_refl : Reflexive keeps.
Proof. intros s. repeat split; [intros c Hc; by left | eauto | eauto]. Qed.

#[local] Instance keeps_trans : Transitive keeps.
Proof.
  intros s t u (N1 & S1 & P1) (N2 & S2 & P2). split; [| split].
  - intros c Hc. destruct (N1 c Hc) as [H|(comp & H & Hp)]; [by apply N2 |]. right. by eapply P2.
  - intros c comp Hc. destruct (S1 c comp Hc) as [comp' Hc']. by eapply S2.
  - intros c comp p Hc Hp. destruct (P1 c comp p Hc Hp) as (comp' & Hc' & Hp'). by eapply P2.
Qed.

Lemma keeps_buf s b : keeps s (mkPaths b (comps s)).
Proof. repeat split; [intros c Hc; by left | eauto | eauto]. Qed.

(** With the buffer itself as the path, the path that is stored is empty. *)
Lemma full_name_of_buf n s cid comp :
  comps s !! cid = Some comp -> path comp = None -> 0 < zlen (buf s) ->
  exists b, component_full_name (S n) junk s cid (Some Buf) =
    Ok (Some Buf, mkPaths b (<[cid := mkComp (Some ""%string) (comp_size comp) (comp_data comp)]> (comps s))).
Proof.
  destruct s as [b cs]. cbn [buf comps]. intros Hc Hp Hb.
  cbn [ComponentPaths.component_full_name comps buf]. rewrite Hc. cbn [mbind option_bind]. rewrite Hp.
  destruct b as [|x b]; [unfold zlen in Hb; cbn in Hb; lia |].
  res_cbn. change (x :: b) with ([] ++ x :: b). rewrite aset_middle by done. res_cbn. cbn [app].
  rewrite (loop_exit _ _ _ (0, mkPaths (NUL :: b) cs)) by reflexivity. res_cbn. cbn [buf comps].
  change (NUL :: b) with ([] ++ NUL :: b). rewrite aset_middle by done. res_cbn. rewrite c_chars_ok by constructor.
  res_cbn. eexists. reflexivity.
Qed.

Lemma path_round_keeps rec path s st st' :
  (forall t c q t', rec t c = Ok (q, t') -> keeps t t') ->
  keeps s st.2 -> path_round home aname apath mother_path rec path st = Ok st' ->
  match st' with inl x => keeps s x.2 | inr y => keeps s y.2 end.
Proof.
  intros Hrec Hk. destruct st as [[pp bp] t]. cbn [snd] in Hk. unfold path_round. intros H.
  inv_bind H. destruct (decide _); [by injection H as <- |]. destruct (decide _).
  - inv_bind H. destruct a0 as [pp' rname]. inv_bind H. destruct a0 as [q t']. inv_bind H. destruct a0 as [bp' b].
    injection H as <-. cbn [snd]. etransitivity; [| apply keeps_buf]. transitivity t; [done |].
    unfold resolve in Ha1. repeat (destruct (decide _); [injection Ha1 as _ <-; done |]).
    destruct (find_cid_name _); [by eapply Hrec | by injection Ha1 as _ <-].
  - inv_bind H. injection H as <-. cbn [snd]. etransitivity; [done | apply keeps_buf].
Qed.

Lemma full_name_keeps n : forall s cid path q s',
  component_full_name n junk s cid path = Ok (q, s') ->
  keeps s s' /\ (comps s !! cid = None -> exists comp, comps s' !! cid = Some comp /\ Attributes.path comp = Some ""%string).
Proof.
  induction n as [|n IH]; intros s cid path q s' H; [discriminate |].
  cbn [ComponentPaths.component_full_name] in H.
  destruct (comps s !! cid ≫= Attributes.path) as [p|] eqn:Hp.
  { injection H as _ <-. split; [done |]. intros Hc. by rewrite Hc in Hp. }
  assert (exists pth, (b ← aset (buf s) 0 NUL;
     r ← loop (path_round home aname apath mother_path (fun s c => component_full_name n junk s c None) pth) fuel
           (0, 0, mkPaths b (comps s));
     let '(bpos, s0) := r in
     b ← aset (buf s0) bpos NUL;
     let s0 := mkPaths b (comps s0) in
     s1 ← (match comps s !! cid with
           | Some comp => l ← c_chars b; Ok (set_path cid (of_chars l) comp s0)
           | None => declare_with (component_full_name n junk) junk s0 cid (Some Buf)
           end);
     Ok (Some Buf, s1)) = Ok (q, s')) as (pth & H').
  { destruct path as [pth|]; [exists pth; by inv_bind H; simplify_eq |].
    assert (exists sp, find_cid_id cid = Some sp) as [sp Hsp] by (destruct cid; by eexists).
    rewrite Hsp in H. exists (Str (default_path sp)). by inv_bind H; simplify_eq. }
  clear H. rename H' into H. inv_bind H. inv_bind H. destruct a0 as [bp t]. inv_bind H. inv_bind H. injection H as _ <-.
  assert (keeps s t) as Hk.
  { apply (loop_returned _ (fun st => keeps s st.2) (fun r => keeps s r.2)) in Ha0; [done | | | apply keeps_buf];
      intros st st' Hst Est; apply (path_round_keeps _ _ s) in Est; try done; intros; by eapply IH. }
  apply aset_Ok_inv in Ha1 as [Hbp ->].
  destruct (comps s !! cid) as [comp|] eqn:Hc.
  - inv_bind Ha2. injection Ha2 as <-. split; [| done]. destruct Hk as (N & Sm & P). unfold set_path. cbn [comps].
    split; [| split].
    + intros c Hcn. cbn [comps]. rewrite lookup_insert_ne by congruence. by apply N.
    + intros c x Hx. cbn [comps]. destruct (decide (c = cid)) as [->|]; [rewrite lookup_insert_eq; eauto |].
      rewrite lookup_insert_ne by done. by eapply Sm.
    + intros c x y Hx Hy. cbn [comps]. destruct (decide (c = cid)) as [->|].
      { rewrite Hc in Hx. injection Hx as ->. cbn in Hp. congruence. }
      rewrite lookup_insert_ne by done. by eapply P.
  - unfold declare_with in Ha2. cbn [comps buf] in Ha2.
    destruct (comps t !! cid) as [comp|] eqn:Ht.
    + injection Ha2 as <-. split; [etransitivity; [done | apply keeps_buf] |]. intros _. cbn [comps].
      destruct (proj1 Hk cid Hc) as [?|?]; [congruence | done].
    + inv_bind Ha2. injection Ha2 as <-. destruct n as [|n]; [discriminate |].
      destruct (full_name_of_buf n (mkPaths (<[Z.to_nat bp := NUL]> (buf t))
        (<[cid := mkComp None junk init_mblob]> (comps t))) cid (mkComp None junk init_mblob)) as [b' E].
      { apply lookup_insert_eq. } { done. } { cbn [buf]. rewrite zlen_insert. lia. }
      rewrite E in Ha1. injection Ha1 as <-. cbn [snd comps]. split; [| intros _; rewrite lookup_insert_eq; by eexists].
      destruct Hk as (N & Sm & P). split; [| split].
      * intros c Hcn. cbn [comps]. destruct (decide (c = cid)) as [->|]; [right; rewrite lookup_insert_eq; by eexists |].
        rewrite !lookup_insert_ne by done. by apply N.
      * intros c x Hx. cbn [comps]. rewrite !lookup_insert_ne by congruence. by eapply Sm.
      * intros c x y Hx. cbn [comps]. rewrite !lookup_insert_ne by congruence. by eapply P.
Qed.
End Undeclared.

(** A component that was not declared before [component_full_name] is called
    for it gets the empty string as its path, whatever pattern is given, because
    the nested call clears the static buffer it is handed as the pattern. *)
Theorem component_full_name_undeclared_empty (home : option string) (aname : string)
    (apath mother_path : option string) (junk : Z) (n : nat) (s s' : PathState) (cid : ComponentID)
    (path : option charptr) (q : option charptr) :
  comps s !! cid = None ->
  component_full_name home aname apath mother_path n junk s cid path = Ok (q, s') ->
  exists comp, comps s' !! cid = Some comp /\ Attributes.path comp = Some ""%string.
Proof. intros Hc H. by apply (full_name_keeps home aname apath mother_path junk n s cid path q s' H). Qed.

Lemma component_full_name_undeclared_empty_witness :
  exists s', component_full_name None "word" None (Some "/corpora/dickens"%string) 4 0
      (mkPaths (replicate 4096 NUL) ∅) CompCompRF (Some (Str "/backup/word.crc")) = Ok (Some Buf, s') /\
    exists comp, comps s' !! CompCompRF = Some comp /\ path comp = Some ""%string.
Proof.
  destruct (component_full_name None "word" None (Some "/corpora/dickens"%string) 4 0
      (mkPaths (replicate 4096 NUL) ∅) CompCompRF (Some (Str "/backup/word.crc"))) as [[q s']|f] eqn:E.
  - exists s'. split.
    + f_equal. f_equal. revert E. vm_compute. by intros [= <- _].
    + apply (component_full_name_undeclared_empty _ _ _ _ _ _ _ _ _ _ _ (lookup_empty _) E).
  - exfalso. revert E. vm_compute. discriminate.
Defined.
