(* ===== verification/CDA.v ===== *)
(** * The corpus data access layer: cl/cdaccess.c, common part

    Access functions work on an attribute, set [cl_errno] and may load
    components: they are computations over the state [CL].  [check_arg] is the
    macro of that name; an attribute handle may be NULL. *)

From Stdlib Require Import ZArith Lia String.
From stdpp Require Import base tactics option list numbers gmap strings.
From S2P Require Import Prelude Bits Storage Blob Attributes.

Open Scope Z_scope.

(** ** Error numbers (cl/cl.h) *)
Definition CDA_OK : Z := 0.
Definition CDA_ENULLATT : Z := -1.
Definition CDA_EATTTYPE : Z := -2.
Definition CDA_EIDORNG : Z := -3.
Definition CDA_EPOSORNG : Z := -4.
Definition CDA_EIDXORNG : Z := -5.
Definition CDA_ENOSTRING : Z := -6.
Definition CDA_ESTRUC : Z := -8.
Definition CDA_EALIGN : Z := -9.
Definition CDA_ENODATA : Z := -11.
Definition CDA_EOTHER : Z := -14.
Definition CDA_ENYI : Z := -15.
Definition CDA_EINTERNAL : Z := -19.
Definition CDA_CPOSUNDEF : Z := INT_MIN.

(** ** State and sequencing *)

Record CL := mkCL {
  att : option Attribute;
  cl_errno : Z
}.

Definition M (A : Type) : Type := CL -> res (A * CL).

#[export] Instance M_ret : MRet M := fun A a s => Ok (a, s).
#[export] Instance M_bind : MBind M := fun A B k m s =>
  match m s with Ok (a, s') => k a s' | Err f => Err f end.

Definition lift {A} (r : res A) : M A := fun s => a ← r; Ok (a, s).
Definition get_errno : M Z := fun s => Ok (cl_errno s, s).
Definition set_errno (e : Z) : M unit := fun s => Ok ((), mkCL (att s) e).
Definition attribute : M Attribute := fun s => a ← deref (att s); Ok (a, s).
Definition set_attribute (a : Attribute) : M unit := fun s => Ok ((), mkCL (Some a) (cl_errno s)).

(** [cl_errno = e; return v;] *)
Definition return_errno {A} (e : Z) (v : A) : M A := _ ← set_errno e; mret v.

(** [check_arg(attribute, atyp, rval)]; [rval] may be [cl_errno]. *)
Definition check_arg {A} (atyp : Z) (rval : Z -> A) (body : M A) : M A := fun s =>
  match att s with
  | None => return_errno CDA_ENULLATT (rval CDA_ENULLATT) s
  | Some a => if type a =? atyp then body s else return_errno CDA_EATTTYPE (rval CDA_EATTTYPE) s
  end.

Definition ensure (be : bool) (disk : gmap string (list Z)) (cid : ComponentID) : M (option Component) :=
  a ← attribute;
  r ← lift (ensure_component be disk a cid false);
  _ ← set_attribute r.2;
  mret r.1.

(** The bytes a loaded component points to. *)
Definition comp_bytes (c : Component) : res (list Z) := deref (data (comp_data c)).

Lemma bindM_Ok {A B} (m : M A) (k : A -> M B) s a s' : m s = Ok (a, s') -> (m ≫= k) s = k a s'.
Proof. intros H. unfold mbind, M_bind. by rewrite H. Qed.

Lemma bindM_Err {A B} (m : M A) (k : A -> M B) s f : m s = Err f -> (m ≫= k) s = Err f.
Proof. intros H. unfold mbind, M_bind. by rewrite H. Qed.

Lemma bindM_lift {A B} (r : res A) (a : A) (k : A -> M B) s : r = Ok a -> (lift r ≫= k) s = k a s.
Proof. by intros ->. Qed.

Lemma bindM_errno {B} e (k : unit -> M B) a e0 :
  (set_errno e ≫= k) (mkCL a e0) = k () (mkCL a e).
Proof. reflexivity. Qed.

Lemma bindM_get {B} (k : Z -> M B) a e : (get_errno ≫= k) (mkCL a e) = k e (mkCL a e).
Proof. reflexivity. Qed.

Lemma bindM_attribute {B} (k : Attribute -> M B) a e :
  (attribute ≫= k) (mkCL (Some a) e) = k a (mkCL (Some a) e).
Proof. reflexivity. Qed.

Lemma bindM_set {B} (k : unit -> M B) a a' e :
  (set_attribute a' ≫= k) (mkCL a e) = k () (mkCL (Some a') e).
Proof. reflexivity. Qed.

Lemma bindM_ret {A B} (v : A) (k : A -> M B) s : (mret v ≫= k) s = k v s.
Proof. reflexivity. Qed.

Lemma return_errno_run {A} e (v : A) a e0 : return_errno e v (mkCL a e0) = Ok (v, mkCL a e).
Proof. reflexivity. Qed.

Lemma mret_run {A} (v : A) (s : CL) : mret (M := M) v s = Ok (v, s).
Proof. reflexivity. Qed.

Lemma check_arg_ok {A} atyp rval (body : M A) a e :
  type a = atyp -> check_arg atyp rval body (mkCL (Some a) e) = body (mkCL (Some a) e).
Proof. intros <-. unfold check_arg. cbn [att]. by rewrite Z.eqb_refl. Qed.

(** Run the administrative steps of an access function. *)
Create Rewrite HintDb cda.
#[export] Hint Rewrite @bindM_errno @bindM_get @bindM_attribute @bindM_set @bindM_ret @return_errno_run
  @mret_run : cda.
Ltac cda := autorewrite with cda; cbv beta iota.

(** Lifted results and sub-calls whose outcome is known. *)
Tactic Notation "cda_lift" uconstr(H) := rewrite (bindM_lift _ _ _ _ H); cda.
Tactic Notation "cda_call" uconstr(H) := rewrite (bindM_Ok _ _ _ _ _ H); cda.

Section Ensure.
Context (be : bool) (disk : gmap string (list Z)).

Lemma ensure_ok a e cid d :
  cid <> CompDirectory -> cid <> CompHuffCodes ->
  avail disk a cid = Some d -> wf_attribute disk a ->
  exists comp a', ensure be disk cid (mkCL (Some a) e) = Ok (Some comp, mkCL (Some a') e) /\
    data (comp_data comp) = Some d /\ comp_size comp = nr_ints d /\ loads disk a a' /\
    component_state disk a' cid = ComponentLoaded /\
    (forall cid', cid' <> cid -> component_state disk a' cid' = component_state disk a cid').
Proof.
  intros Hd Hh Ha Hw.
  destruct (ensure_component_ok be disk a cid d false Hd Hh Ha Hw) as (comp & a' & E & H).
  exists comp, a'. split; [| exact H]. unfold ensure. cda. cda_lift E. done.
Qed.
End Ensure.

(** Ensure component [cid], with data [Ha : avail _ a cid = Some d]. *)
Tactic Notation "cda_ensure" constr(Ha) "as" ident(c) ident(a') ident(Hd) ident(Hs) ident(L) :=
  match type of Ha with
  | avail ?disk ?a ?cid = Some ?d =>
      match goal with
      | |- context [(ensure ?be disk cid ≫= _) (mkCL (Some a) ?e)] =>
          let E := fresh "E" in
          destruct (ensure_ok be disk a e cid d) as (c & a' & E & Hd & Hs & L & _ & _);
            [discriminate | discriminate | exact Ha | assumption | cda_call E]
      end
  end.

(** ** [for] loops of access functions *)
Section ForM.
Context {S : Type} (body : Z -> S -> M S).

Fixpoint forM_n (n : nat) (i : Z) (s : S) : M S :=
  match n with
  | O => mret s
  | Datatypes.S n => s ← body i s; forM_n n (i + 1) s
  end.

Definition forM_up (lo hi : Z) (s : S) : M S := forM_n (Z.to_nat (hi - lo)) lo s.

Lemma forM_up_rule (I : Z -> S -> CL -> Prop) lo hi s cl :
  lo <= hi ->
  (forall i s cl, lo <= i < hi -> I i s cl -> exists s' cl', body i s cl = Ok (s', cl') /\ I (i + 1) s' cl') ->
  I lo s cl -> exists s' cl', forM_up lo hi s cl = Ok (s', cl') /\ I hi s' cl'.
Proof.
  intros Hle Hb. unfold forM_up. remember (Z.to_nat (hi - lo)) as n eqn:Hn.
  revert lo s cl Hle Hn Hb. induction n as [|n IH]; intros lo s cl Hle Hn Hb HI; cbn [forM_n].
  - exists s, cl. split; [done |]. by replace hi with lo by lia.
  - destruct (Hb lo s cl) as (s1 & cl1 & E & H1); [lia | done |]. rewrite (bindM_Ok _ _ _ _ _ E).
    apply IH; [lia | lia | | done]. intros i t cl' Hi. apply Hb. lia.
Qed.
End ForM.

(** ** Loops with a [break] in access functions *)
Section LoopM.
Context {S R : Type} (step : S -> M (S + R)).

Definition stepM (x : S * CL) : res (S * CL + R * CL) :=
  r ← step x.1 x.2;
  match r with (inl s, cl) => Ok (inl (s, cl)) | (inr v, cl) => Ok (inr (v, cl)) end.

Definition loopM (p : positive) (s : S) : M R := fun cl => loop stepM p (s, cl).

Lemma loopM_rule (I : S -> CL -> Prop) (Q : R -> CL -> Prop) (m : S -> Z) p s cl :
  (forall s cl, I s cl -> 0 <= m s /\
     ((exists s' cl', step s cl = Ok (inl s', cl') /\ I s' cl' /\ m s' < m s) \/
      (exists r cl', step s cl = Ok (inr r, cl') /\ Q r cl'))) ->
  I s cl -> m s < Zpos p -> exists r cl', loopM p s cl = Ok (r, cl') /\ Q r cl'.
Proof.
  intros Hstep Hs Hm. unfold loopM.
  destruct (loop_rule stepM (fun x => I x.1 x.2) (fun r => Q r.1 r.2) (fun x => m x.1)) with (p := p) (s := (s, cl))
    as ([r cl'] & E & H); [| done | done | by exists r, cl'].
  intros [t tl] Ht. cbn [fst snd] in *. destruct (Hstep t tl Ht) as [Hp [(t' & tl' & E & Ht' & Hl)|(r & tl' & E & Hr)]];
    (split; [done |]); unfold stepM; cbn [fst snd]; rewrite E; res_cbn.
  - left. by exists (t', tl').
  - right. by exists (r, tl').
Qed.
End LoopM.

#[global] Arguments loopM {S R} step p s cl : simpl never.
