(* ===== verification/Lexicon.v ===== *)
(** * The lexicon of a positional attribute: cl/cdaccess.c

    The mapping between strings and lexicon ids: the string comparison
    [cl_strcmp], the access functions [cl_id2str], [cl_id2strlen], [cl_str2id]
    (binary search in the sorted index), [cl_sort2id], [cl_id2sort], [cl_max_id].
    The abstract view of a lexicon is its list of words, the id being the
    position in the list. *)

From Stdlib Require Import ZArith Lia String.
From stdpp Require Import base tactics option list numbers gmap strings sorting.
From S2P Require Import Prelude Bits Storage Blob Attributes CDA.

Open Scope Z_scope.

(** ** Strings *)

(** The value of a byte as a [signed char]. *)
Definition sc (x : Z) : Z := if x <? 128 then x else x - 256.

(** C strings are the bytes before the terminating zero. *)
Fixpoint cl_strcmp (s1 s2 : list Z) : Z :=
  match s1, s2 with
  | [], [] => 0
  | [], y :: _ => 0 - sc y
  | x :: _, [] => sc x - 0
  | x :: s1, y :: s2 => if sc x =? sc y then cl_strcmp s1 s2 else sc x - sc y
  end.

(** The C string that starts at an offset of a block. *)
Fixpoint until_nul (d : list Z) : res (list Z) :=
  match d with
  | [] => Err OutOfBounds
  | x :: d => if x =? 0 then Ok [] else s ← until_nul d; Ok (x :: s)
  end.

Definition c_string (d : list Z) (off : Z) : res (list Z) :=
  if (0 <=? off) && (off <=? zlen d) then until_nul (drop (Z.to_nat off) d) else Err OutOfBounds.

(** ** Access functions *)
Section Access.
Context (be : bool) (disk : gmap string (list Z)).

(** The returned pointer is the offset into the data of component CompLexicon. *)
Definition cl_id2str (id : Z) : M (option Z) :=
  check_arg ATT_POS (fun _ => None) (
    lex ← ensure be disk CompLexicon;
    lexidx ← ensure be disk CompLexiconIdx;
    match lex, lexidx with
    | Some lex, Some lexidx =>
        if (id <? 0) || (comp_size lexidx <=? id) then return_errno CDA_EIDORNG None
        else
          d ← lift (comp_bytes lexidx);
          off ← lift (nget be d id);
          return_errno CDA_OK (Some off)
    | _, _ => return_errno CDA_ENODATA None
    end).

(** One comparison of the binary search: [inr] holds the value and [cl_errno] at a return. *)
Definition str2id_round (srt idx lex id_string : list Z) (st : Z * Z * Z)
  : res (Z * Z * Z + Z * Z) :=
  let '(nr, low, high) := st in
  if 1000000 <=? nr then Ok (inr (CDA_EOTHER, CDA_EOTHER))
  else
    let mid := low + Z.quot (high - low) 2 in
    id ← nget be srt mid;
    off ← nget be idx id;
    str2 ← c_string lex off;
    let comp := cl_strcmp id_string str2 in
    if comp =? 0 then Ok (inr (s32 id, CDA_OK))
    else if mid =? low then Ok (inr (CDA_ENOSTRING, CDA_ENOSTRING))
    else if 0 <? comp then Ok (inl (nr + 1, mid, high))
    else Ok (inl (nr + 1, low, mid)).

Definition cl_str2id (id_string : list Z) : M Z :=
  check_arg ATT_POS (fun e => e) (
    lexidx ← ensure be disk CompLexiconIdx;
    lexsrt ← ensure be disk CompLexiconSrt;
    lex ← ensure be disk CompLexicon;
    match lexidx, lexsrt, lex with
    | Some lexidx, Some lexsrt, Some lex =>
        srt ← lift (comp_bytes lexsrt);
        idx ← lift (comp_bytes lexidx);
        strs ← lift (comp_bytes lex);
        r ← lift (loop (str2id_round srt idx strs id_string) fuel (0, 0, comp_size lexidx));
        return_errno r.2 r.1
    | _, _, _ => return_errno CDA_ENODATA CDA_ENODATA
    end).

Definition cl_id2strlen (id : Z) : M Z :=
  check_arg ATT_POS (fun e => e) (
    lexidx ← ensure be disk CompLexiconIdx;
    match lexidx with
    | None => return_errno CDA_ENODATA CDA_ENODATA
    | Some lexidx =>
        if (id <? 0) || (comp_size lexidx <=? id) then return_errno CDA_EIDORNG CDA_EIDORNG
        else if id + 1 =? comp_size lexidx then
          s ← cl_id2str id;
          match s with
          | Some off =>
              a ← attribute;
              lex ← lift (deref (components a !! CompLexicon));
              d ← lift (comp_bytes lex);
              str ← lift (c_string d off);
              return_errno CDA_OK (s32 (zlen str))
          | None =>
              e ← get_errno;
              if negb (e =? CDA_OK) then mret e else mret CDA_EOTHER
          end
        else
          d ← lift (comp_bytes lexidx);
          next ← lift (nget be d (id + 1));
          this ← lift (nget be d id);
          return_errno CDA_OK (s32 (u32 (u32 (next - this) - 1)))
    end).

Definition cl_sort2id (sort_index_position : Z) : M Z :=
  check_arg ATT_POS (fun e => e) (
    srtidx ← ensure be disk CompLexiconSrt;
    match srtidx with
    | None => return_errno CDA_ENODATA CDA_ENODATA
    | Some srtidx =>
        if (0 <=? sort_index_position) && (sort_index_position <? comp_size srtidx) then
          d ← lift (comp_bytes srtidx);
          id ← lift (nget_int be d sort_index_position);
          return_errno CDA_OK id
        else return_errno CDA_EIDXORNG CDA_EIDXORNG
    end).

Definition cl_id2sort (id : Z) : M Z :=
  check_arg ATT_POS (fun e => e) (
    srtidx ← ensure be disk CompLexiconSrt;
    match srtidx with
    | None => return_errno CDA_ENODATA CDA_ENODATA
    | Some srtidx =>
        if (0 <=? id) && (id <? comp_size srtidx)
        then _ ← set_errno CDA_OK; return_errno CDA_ENYI CDA_ENYI
        else lift (Err AssertFail)
    end).

Definition cl_max_id : M Z :=
  check_arg ATT_POS (fun e => e) (
    comp ← ensure be disk CompLexiconIdx;
    match comp with
    | None => return_errno CDA_ENODATA CDA_ENODATA
    | Some comp => return_errno CDA_OK (comp_size comp)
    end).
End Access.

(** ** [cl_strcmp] orders strings *)

(** A byte of a string. *)
Definition str_byte (x : Z) : Prop := 0 < x < 256.
Definition is_str (s : list Z) : Prop := Forall str_byte s.

Lemma sc_inj x y : str_byte x -> str_byte y -> sc x = sc y -> x = y.
Proof. unfold str_byte, sc. repeat case_Z; lia. Qed.

Lemma sc_nonzero x : str_byte x -> sc x <> 0.
Proof. unfold str_byte, sc. case_Z; lia. Qed.

Lemma cl_strcmp_antisym s1 s2 : cl_strcmp s2 s1 = - cl_strcmp s1 s2.
Proof.
  revert s2. induction s1 as [|x s1 IH]; intros [|y s2]; cbn [cl_strcmp]; try lia.
  rewrite (Z.eqb_sym (sc y)). destruct (_ =? _); [apply IH | lia].
Qed.

Lemma cl_strcmp_refl s : cl_strcmp s s = 0.
Proof. induction s as [|x s IH]; [done |]. cbn [cl_strcmp]. by rewrite Z.eqb_refl. Qed.

Lemma cl_strcmp_eq s1 s2 : is_str s1 -> is_str s2 -> cl_strcmp s1 s2 = 0 -> s1 = s2.
Proof.
  intros H1. revert s2. induction H1 as [|x s1 Hx H1 IH]; intros s2 [|y s2' Hy H2]; cbn [cl_strcmp].
  - done.
  - pose proof (sc_nonzero y Hy). lia.
  - pose proof (sc_nonzero x Hx). lia.
  - destruct (Z.eqb_spec (sc x) (sc y)) as [E|E]; [| lia].
    intros H. f_equal; [by apply sc_inj | by apply IH].
Qed.

Lemma cl_strcmp_trans s1 s2 s3 :
  is_str s1 -> is_str s2 -> is_str s3 ->
  cl_strcmp s1 s2 < 0 -> cl_strcmp s2 s3 < 0 -> cl_strcmp s1 s3 < 0.
Proof.
  intros H1. revert s2 s3. induction H1 as [|x s1 Hx H1 IH]; intros s2 s3 H2 H3;
    destruct H2 as [|y s2 Hy H2]; destruct H3 as [|z s3 Hz H3]; cbn [cl_strcmp]; try lia;
    repeat match goal with |- context [?a =? ?b] => destruct (Z.eqb_spec a b) end; try lia.
  by apply IH.
Qed.

Lemma cl_strcmp_trans_le s1 s2 s3 :
  is_str s1 -> is_str s2 -> is_str s3 ->
  cl_strcmp s1 s2 <= 0 -> cl_strcmp s2 s3 <= 0 -> cl_strcmp s1 s3 <= 0.
Proof.
  intros H1 H2 H3 H12 H23.
  destruct (decide (cl_strcmp s1 s2 = 0)) as [E|]; [by rewrite (cl_strcmp_eq s1 s2) |].
  destruct (decide (cl_strcmp s2 s3 = 0)) as [E|]; [by rewrite <- (cl_strcmp_eq s2 s3) |].
  pose proof (cl_strcmp_trans s1 s2 s3 H1 H2 H3). lia.
Qed.

(** ** The abstract lexicon *)

(** The file of component CompLexicon: the words, each with its terminator. *)
Definition lex_data (L : list (list Z)) : list Z := L ≫= fun w => w ++ [0].

Definition lex_offset (L : list (list Z)) (i : nat) : Z := zlen (lex_data (take i L)).

Definition lex_index (L : list (list Z)) : list Z := lex_offset L <$> seq 0 (length L).

(** The attribute has the lexicon [L]. *)
Record has_lexicon (disk : gmap string (list Z)) (a : Attribute) (L : list (list Z)) : Prop := {
  lex_type : type a = ATT_POS;
  lex_wf : wf_attribute disk a;
  lex_words : Forall is_str L;
  lex_strs : avail disk a CompLexicon = Some (lex_data L);
  lex_idx : avail disk a CompLexiconIdx = Some (ints_be (lex_index L));
  lex_small : zlen (lex_data L) <= INT_MAX
}.

(** [P] lists the ids in the order of their words. *)
Record has_sort_index (disk : gmap string (list Z)) (a : Attribute) (L : list (list Z)) (P : list nat) : Prop := {
  srt_data : avail disk a CompLexiconSrt = Some (ints_be (Z.of_nat <$> P));
  srt_perm : P ≡ₚ seq 0 (length L);
  srt_sorted : forall p q i j w v, (p <= q)%nat -> P !! p = Some i -> P !! q = Some j ->
    L !! i = Some w -> L !! j = Some v -> cl_strcmp w v <= 0
}.

Lemma nr_ints_be vs : nr_ints (ints_be vs) = zlen vs.
Proof. unfold nr_ints. rewrite zlen_ints_be. Z.div_mod_to_equations. lia. Qed.

Lemma zlen_lex_index L : zlen (lex_index L) = zlen L.
Proof. unfold lex_index, zlen. by rewrite length_fmap, length_seq. Qed.

Lemma lex_index_lookup L i : (i < length L)%nat -> lex_index L !! i = Some (lex_offset L i).
Proof. intros. unfold lex_index. by rewrite list_lookup_fmap, lookup_seq_lt by done. Qed.

Lemma lex_data_app L K : lex_data (L ++ K) = lex_data L ++ lex_data K.
Proof. apply bind_app. Qed.

Lemma lex_data_split L i w :
  L !! i = Some w -> lex_data L = lex_data (take i L) ++ w ++ 0 :: lex_data (drop (S i) L).
Proof.
  intros H. rewrite <- (take_drop_middle L i w) at 1 by done.
  rewrite lex_data_app. unfold lex_data at 2. rewrite bind_cons. by rewrite <- app_assoc.
Qed.

Lemma lex_offset_range L i : 0 <= lex_offset L i <= zlen (lex_data L).
Proof.
  unfold lex_offset. split; [apply zlen_nonneg |].
  rewrite <- (take_drop i L) at 2. rewrite lex_data_app, zlen_app.
  pose proof (zlen_nonneg (lex_data (drop i L))). lia.
Qed.

Lemma lex_offset_S L i w : L !! i = Some w -> lex_offset L (S i) = lex_offset L i + zlen w + 1.
Proof.
  intros H. unfold lex_offset. rewrite (take_S_r _ _ w) by done.
  rewrite lex_data_app, zlen_app. unfold lex_data at 2. rewrite bind_cons, !zlen_app.
  change (zlen ([] ≫= _)) with 0. change (zlen [0]) with 1. lia.
Qed.

Lemma until_nul_str w rest : is_str w -> until_nul (w ++ 0 :: rest) = Ok w.
Proof.
  induction 1 as [|x w Hx Hw IH]; [done |]. cbn [app until_nul].
  rewrite (proj2 (Z.eqb_neq x 0)) by (unfold str_byte in Hx; lia). rewrite IH. done.
Qed.

Lemma c_string_lex L i w :
  Forall is_str L -> L !! i = Some w -> c_string (lex_data L) (lex_offset L i) = Ok w.
Proof.
  intros HL Hi. unfold c_string. pose proof (lex_offset_range L i) as [H0 H1].
  rewrite (proj2 (Z.leb_le _ _) H0), (proj2 (Z.leb_le _ _) H1). cbn [andb].
  rewrite (lex_data_split L i w) by done. unfold lex_offset, zlen.
  rewrite Nat2Z.id, drop_app_length. apply until_nul_str.
  by eapply (Forall_lookup_1 _ _ _ _ HL).
Qed.

(** ** The access functions meet the abstract lexicon *)
Section Spec.
Context (be : bool) (disk : gmap string (list Z)).

Lemma has_lexicon_loads a a' L : loads disk a a' -> has_lexicon disk a L -> has_lexicon disk a' L.
Proof.
  intros Ld [T W Ws Ss Ix Sm]. split; try done.
  - by rewrite (loads_type _ _ _ Ld).
  - by apply (loads_wf _ _ _ Ld).
  - by rewrite (loads_avail _ _ _ Ld).
  - by rewrite (loads_avail _ _ _ Ld).
Qed.

Lemma has_sort_index_loads a a' L P :
  loads disk a a' -> has_sort_index disk a L P -> has_sort_index disk a' L P.
Proof. intros Ld [D Pm S]. split; [by rewrite (loads_avail _ _ _ Ld) | done | done]. Qed.

Lemma nget_lex_index L i :
  zlen (lex_data L) <= INT_MAX -> (i < length L)%nat ->
  nget be (ints_be (lex_index L)) (Z.of_nat i) = Ok (lex_offset L i).
Proof.
  intros HL Hi. rewrite <- (app_nil_r (ints_be _)). apply nget_nonneg.
  - by apply lex_index_lookup.
  - pose proof (lex_offset_range L i). lia.
Qed.

(** Both components of the lexicon are loaded in this state. *)
Lemma cl_id2str_ok a e L id :
  has_lexicon disk a L ->
  exists a', loads disk a a' /\ component_state disk a' CompLexicon = ComponentLoaded /\
    cl_id2str be disk id (mkCL (Some a) e) =
      Ok (if (id <? 0) || (zlen L <=? id) then (None, mkCL (Some a') CDA_EIDORNG)
          else (Some (lex_offset L (Z.to_nat id)), mkCL (Some a') CDA_OK)).
Proof.
  intros [T W Ws Ss Ix Sm]. unfold cl_id2str. rewrite check_arg_ok by done.
  destruct (ensure_ok be disk a e CompLexicon _ ltac:(done) ltac:(done) Ss W)
    as (lex & a1 & E1 & Hd1 & Hs1 & L1 & Hst1 & _). cda_call E1.
  pose proof (loads_wf _ _ _ L1 W) as W1. rewrite <- (loads_avail _ _ _ L1) in Ix.
  destruct (ensure_ok be disk a1 e CompLexiconIdx _ ltac:(done) ltac:(done) Ix W1)
    as (idx & a2 & E2 & Hd2 & Hs2 & L2 & _ & Hoth). cda_call E2.
  exists a2. split; [by transitivity a1 |].
  split; [rewrite Hoth by discriminate; exact Hst1 |].
  rewrite Hs2, nr_ints_be, zlen_lex_index.
  destruct (Z.ltb_spec id 0) as [H0|H0]; cbn [orb]; [by cda |].
  destruct (Z.leb_spec (zlen L) id) as [H1|H1]; [by cda |].
  assert (comp_bytes idx = Ok (ints_be (lex_index L))) as B by (unfold comp_bytes; by rewrite Hd2).
  cda_lift B.
  rewrite <- (Z2Nat.id id) at 1 by done.
  rewrite (bindM_lift _ _ _ _ (nget_lex_index L (Z.to_nat id) Sm ltac:(unfold zlen in *; lia))).
  by cda.
Qed.

Lemma component_avail a cid comp d :
  component_state disk a cid = ComponentLoaded -> avail disk a cid = Some d ->
  components a !! cid = Some comp -> comp_bytes comp = Ok d.
Proof.
  unfold component_state, avail. intros Hs Ha Hc. rewrite Hc in Hs, Ha. cbn in Ha.
  unfold comp_component_state in Hs. unfold comp_avail in Ha. unfold comp_bytes.
  destruct (data (comp_data comp)); [by injection Ha as -> |].
  destruct (decide _); [done |]. destruct (path comp); [| done]. by destruct (disk !! s).
Qed.

Lemma loaded_component a cid :
  component_state disk a cid = ComponentLoaded -> exists comp, components a !! cid = Some comp.
Proof. unfold component_state. destruct (components a !! cid); [eauto | done]. Qed.

Lemma cl_id2strlen_ok a e L id :
  has_lexicon disk a L ->
  exists a', loads disk a a' /\
    cl_id2strlen be disk id (mkCL (Some a) e) =
      Ok (match (if id <? 0 then None else L !! Z.to_nat id) with
          | Some w => (zlen w, mkCL (Some a') CDA_OK)
          | None => (CDA_EIDORNG, mkCL (Some a') CDA_EIDORNG)
          end).
Proof.
  intros HL. pose proof HL as [T W Ws Ss Ix Sm]. unfold cl_id2strlen. rewrite check_arg_ok by done.
  destruct (ensure_ok be disk a e CompLexiconIdx _ ltac:(done) ltac:(done) Ix W)
    as (idx & a1 & E1 & Hd1 & Hs1 & L1 & _). cda_call E1.
  rewrite Hs1, nr_ints_be, zlen_lex_index.
  destruct (Z.ltb_spec id 0) as [H0|H0]; cbn [orb]; [exists a1; split; [done | by cda] |].
  destruct (Z.leb_spec (zlen L) id) as [H1|H1].
  { exists a1. split; [done |]. cda. rewrite lookup_ge_None_2; [done | unfold zlen in *; lia]. }
  destruct (lookup_lt_is_Some_2 L (Z.to_nat id)) as [w Hw]; [unfold zlen in *; lia |]. rewrite Hw.
  assert (zlen w + lex_offset L (Z.to_nat id) + 1 <= INT_MAX) as Hsmall.
  { pose proof (lex_offset_S L _ w Hw). pose proof (lex_offset_range L (S (Z.to_nat id))). lia. }
  pose proof (lex_offset_range L (Z.to_nat id)) as [Hoff _]. pose proof (zlen_nonneg w).
  destruct (Z.eqb_spec (id + 1) (zlen L)) as [H2|H2].
  - destruct (cl_id2str_ok a1 e L id (has_lexicon_loads _ _ _ L1 HL)) as (a2 & L2 & Hst & E2).
    rewrite (proj2 (Z.ltb_ge id 0)), (proj2 (Z.leb_gt (zlen L) id)) in E2 by done.
    cda_call E2. exists a2. split; [by transitivity a1 |].
    destruct (loaded_component a2 CompLexicon Hst) as [lex Hlex].
    assert (comp_bytes lex = Ok (lex_data L)) as B.
    { eapply component_avail; [done | | done]. by rewrite (loads_avail _ _ _ L2), (loads_avail _ _ _ L1). }
    rewrite Hlex. cda_lift (eq_refl (Ok lex)). cda_lift B.
    cda_lift (c_string_lex L _ w Ws Hw).
    rewrite <- (u32_small (zlen w)), s32_u32 by (unfold INT_MIN, INT_MAX in *; lia).
    by rewrite u32_small by (unfold INT_MAX in *; lia).
  - exists a1. split; [done |].
    assert (comp_bytes idx = Ok (ints_be (lex_index L))) as B by (unfold comp_bytes; by rewrite Hd1).
    cda_lift B.
    pose proof (nget_lex_index L (S (Z.to_nat id)) Sm ltac:(unfold zlen in *; lia)) as Hn.
    replace (Z.of_nat (S (Z.to_nat id))) with (id + 1) in Hn by lia. cda_lift Hn.
    pose proof (nget_lex_index L (Z.to_nat id) Sm ltac:(unfold zlen in *; lia)) as Ht.
    rewrite Z2Nat.id in Ht by done. cda_lift Ht.
    rewrite (lex_offset_S L _ w Hw). do 2 f_equal.
    replace (lex_offset L (Z.to_nat id) + zlen w + 1 - lex_offset L (Z.to_nat id)) with (zlen w + 1) by lia.
    rewrite (u32_small (zlen w + 1)) by (unfold INT_MAX in *; lia).
    replace (zlen w + 1 - 1) with (zlen w) by lia.
    apply s32_u32. unfold INT_MIN. lia.
Qed.

(** ** Binary search *)

Lemma nget_sort_index (P : list nat) (i n : nat) :
  P !! i = Some n -> Z.of_nat n <= INT_MAX ->
  nget be (ints_be (Z.of_nat <$> P)) (Z.of_nat i) = Ok (Z.of_nat n).
Proof.
  intros Hi Hn. rewrite <- (app_nil_r (ints_be _)). apply nget_nonneg; [| lia].
  by rewrite list_lookup_fmap, Hi.
Qed.

Section Search.
Context (L : list (list Z)) (P : list nat) (w : list Z).
Context (HL : Forall is_str L) (Hsm : zlen (lex_data L) <= INT_MAX) (Hlen : zlen L <= INT_MAX).
Context (HP : P ≡ₚ seq 0 (length L)) (Hw : is_str w).
Hypothesis sorted : forall p q i j w v, (p <= q)%nat -> P !! p = Some i -> P !! q = Some j ->
  L !! i = Some w -> L !! j = Some v -> cl_strcmp w v <= 0.

Let round := str2id_round be (ints_be (Z.of_nat <$> P)) (ints_be (lex_index L)) (lex_data L) w.

Lemma sort_index_lookup k :
  (k < length L)%nat -> exists i v, P !! k = Some i /\ (i < length L)%nat /\ L !! i = Some v.
Proof using HP.
  intros Hk. pose proof (Permutation_length HP) as Hl. rewrite length_seq in Hl.
  destruct (lookup_lt_is_Some_2 P k) as [i Hi]; [lia |].
  assert (i < length L)%nat as Hil.
  { assert (i ∈ seq 0 (length L)) as Hin by (rewrite <- HP; by eapply list_elem_of_lookup_2).
    apply elem_of_seq in Hin. lia. }
  destruct (lookup_lt_is_Some_2 L i Hil) as [v Hv]. eauto.
Qed.

(** One comparison, with what it compares. *)
Lemma str2id_round_eq nr low high i v :
  nr < 1000000 -> 0 <= low < high -> high <= zlen L ->
  P !! Z.to_nat (low + (high - low) / 2) = Some i -> L !! i = Some v ->
  round (nr, low, high) =
    Ok (let mid := low + (high - low) / 2 in let comp := cl_strcmp w v in
        if comp =? 0 then inr (Z.of_nat i, CDA_OK)
        else if mid =? low then inr (CDA_ENOSTRING, CDA_ENOSTRING)
        else if 0 <? comp then inl (nr + 1, mid, high) else inl (nr + 1, low, mid)).
Proof using HL Hsm Hlen.
  intros Hnr Hlow Hhigh Hi Hv. unfold round, str2id_round.
  rewrite (proj2 (Z.leb_gt 1000000 nr)) by lia. rewrite Z.quot_div_nonneg by lia.
  set (mid := low + (high - low) / 2) in *.
  assert (0 <= mid) by (unfold mid; pose proof (Z.div_pos (high - low) 2); lia).
  pose proof (lookup_lt_Some _ _ _ Hv) as Hil.
  assert (Z.of_nat i <= INT_MAX) as Him by (unfold zlen in Hlen; lia).
  pose proof (nget_sort_index P (Z.to_nat mid) i Hi Him) as E1.
  rewrite Z2Nat.id in E1 by done. rewrite E1. res_cbn.
  rewrite (nget_lex_index L i Hsm Hil). res_cbn.
  rewrite (c_string_lex L i v HL Hv). res_cbn.
  rewrite <- (u32_small (Z.of_nat i)) by (unfold INT_MAX in Him; lia).
  rewrite s32_u32 by (unfold INT_MIN; lia). rewrite u32_small by (unfold INT_MAX in Him; lia).
  by repeat case_Z.
Qed.

(** The search interval contains every position of [w], and its size halves. *)
Definition str2id_inv (st : Z * Z * Z) : Prop :=
  let '(nr, low, high) := st in
  0 <= nr < 1000000 /\ 0 <= low < high /\ high <= zlen L /\ (high - low - 1) * 2 ^ nr <= zlen L - 1 /\
  (forall p i, P !! p = Some i -> L !! i = Some w -> low <= Z.of_nat p < high).

(** The result is an id of the word, or the word is not in the lexicon. *)
Definition str2id_post (r : Z * Z) : Prop :=
  (exists i, r = (Z.of_nat i, CDA_OK) /\ L !! i = Some w) \/
  (r = (CDA_ENOSTRING, CDA_ENOSTRING) /\ w ∉ L).

(** The interval after a comparison that did not end the search. *)
Lemma str2id_inv_step nr low high i v (c := cl_strcmp w v) (mid := low + (high - low) / 2) :
  str2id_inv (nr, low, high) ->
  P !! Z.to_nat mid = Some i -> L !! i = Some v -> c <> 0 -> mid <> low ->
  if 0 <? c then str2id_inv (nr + 1, mid, high) else str2id_inv (nr + 1, low, mid).
Proof using Hlen sorted.
  intros (Hnr & Hlow & Hhigh & Hhalf & Hin) Hi Hv Hc Hmid.
  assert (0 < 2 ^ nr) as Hpow by (apply Z.pow_pos_nonneg; lia).
  assert (low < mid < high) as Hm by (unfold mid in *; Z.div_mod_to_equations; lia).
  assert (nr + 1 < 1000000) as Hnr2.
  { destruct (Z.le_gt_cases 32 nr) as [Hge|]; [| lia].
    assert (2 ^ 32 <= 2 ^ nr) by (apply Z.pow_le_mono_r; lia). unfold INT_MAX in Hlen. nia. }
  assert (2 ^ (nr + 1) = 2 * 2 ^ nr) as Hdbl by (rewrite Z.pow_add_r by lia; lia).
  assert (2 * (mid - low) <= high - low /\ high - low <= 2 * (mid - low) + 1) as [Hd1 Hd2]
    by (unfold mid; Z.div_mod_to_equations; lia).
  destruct (Z.ltb_spec 0 c) as [Hpos|Hneg].
  - split; [lia |]. split; [lia |]. split; [lia |]. split; [rewrite Hdbl; nia |].
    intros p j Hp Hj. pose proof (Hin p j Hp Hj). split; [| lia].
    destruct (Z.le_gt_cases mid (Z.of_nat p)) as [|Hlt]; [done |]. exfalso.
    pose proof (sorted p (Z.to_nat mid) j i w v ltac:(lia) Hp Hi Hj Hv). unfold c in *. lia.
  - split; [lia |]. split; [lia |]. split; [lia |]. split; [rewrite Hdbl; nia |].
    intros p j Hp Hj. pose proof (Hin p j Hp Hj). split; [lia |].
    destruct (Z.lt_ge_cases (Z.of_nat p) mid) as [|Hge]; [done |]. exfalso.
    pose proof (sorted (Z.to_nat mid) p i j v w ltac:(lia) Hi Hp Hv Hj) as Hle.
    rewrite cl_strcmp_antisym in Hle. unfold c in *. lia.
Qed.

Lemma str2id_round_ok st :
  str2id_inv st ->
  (exists st', round st = Ok (inl st') /\ str2id_inv st' /\ st'.2 - st'.1.2 < st.2 - st.1.2) \/
  (exists r, round st = Ok (inr r) /\ str2id_post r).
Proof using All.
  destruct st as [[nr low] high]. intros Hinv. pose proof Hinv as (Hnr & Hlow & Hhigh & Hhalf & Hin).
  set (mid := low + (high - low) / 2).
  assert (low <= mid < high) as Hmid by (unfold mid; Z.div_mod_to_equations; lia).
  destruct (sort_index_lookup (Z.to_nat mid)) as (i & v & Hi & Hil & Hv); [unfold zlen in *; lia |].
  rewrite (str2id_round_eq nr low high i v) by (done || lia). cbn zeta. fold mid.
  destruct (Z.eqb_spec (cl_strcmp w v) 0) as [E|E].
  { right. eexists. split; [reflexivity |]. left. exists i. split; [done |].
    rewrite (cl_strcmp_eq w v); [done | done | | done]. by eapply (Forall_lookup_1 _ _ _ _ HL). }
  destruct (Z.eqb_spec mid low) as [El|El].
  - right. eexists. split; [reflexivity |]. right. split; [done |]. intros Hel.
    apply list_elem_of_lookup in Hel as [j Hj].
    assert (j ∈ P) as HjP.
    { rewrite HP. apply elem_of_seq. pose proof (lookup_lt_Some _ _ _ Hj). lia. }
    apply list_elem_of_lookup in HjP as [p Hp]. pose proof (Hin p j Hp Hj).
    assert (high = low + 1) by (unfold mid in El; Z.div_mod_to_equations; lia).
    assert (p = Z.to_nat mid) as -> by lia. rewrite Hi in Hp. injection Hp as <-.
    rewrite Hv in Hj. injection Hj as ->. by rewrite cl_strcmp_refl in E.
  - left. pose proof (str2id_inv_step nr low high i v Hinv Hi Hv E El) as Hstep. fold mid in Hstep.
    destruct (0 <? cl_strcmp w v); (eexists; split; [reflexivity |]; split; [done |]); cbn; lia.
Qed.

Lemma str2id_search :
  L <> [] -> exists r, loop round fuel (0, 0, zlen L) = Ok r /\ str2id_post r.
Proof using All.
  intros Hne. assert (0 < zlen L) by (destruct L; [done | unfold zlen; simpl; lia]).
  loop_with str2id_inv str2id_post (fun st : Z * Z * Z => st.2 - st.1.2) r E Hr.
  - intros st Hst. split; [| by apply str2id_round_ok].
    destruct st as [[nr low] high]. cbn. destruct Hst as (_ & ? & _). lia.
  - split; [lia |]. split; [lia |]. split; [lia |]. split; [rewrite Z.pow_0_r; lia |].
    intros p i Hp _. apply lookup_lt_Some in Hp. pose proof (Permutation_length HP) as Hl.
    rewrite length_seq in Hl. unfold zlen. lia.
  - rewrite fuel_val. cbn. unfold INT_MAX in Hlen. lia.
  - eauto.
Qed.
End Search.

Lemma has_lexicon_len a L : has_lexicon disk a L -> zlen L <= INT_MAX.
Proof.
  intros [T W Ws Ss Ix Sm]. unfold avail in Ix.
  destruct (components a !! CompLexiconIdx) as [comp|] eqn:Hc; [| done]. cbn in Ix.
  destruct (W _ _ Hc) as [Hn _]. specialize (Hn _ Ix). by rewrite nr_ints_be, zlen_lex_index in Hn.
Qed.

Lemma cl_str2id_ok a e L P w :
  has_lexicon disk a L -> has_sort_index disk a L P -> L <> [] -> is_str w ->
  exists a' v err, loads disk a a' /\
    cl_str2id be disk w (mkCL (Some a) e) = Ok (v, mkCL (Some a') err) /\
    ((exists i, v = Z.of_nat i /\ err = CDA_OK /\ L !! i = Some w) \/
     (v = CDA_ENOSTRING /\ err = CDA_ENOSTRING /\ w ∉ L)).
Proof.
  intros HL [Sd Sp So] Hne Hw. pose proof (has_lexicon_len a L HL) as Hlen.
  destruct HL as [T W Ws Ss Ix Sm]. unfold cl_str2id. rewrite check_arg_ok by done.
  destruct (ensure_ok be disk a e CompLexiconIdx _ ltac:(done) ltac:(done) Ix W)
    as (idx & a1 & E1 & Hd1 & Hs1 & L1 & _). cda_call E1.
  pose proof (loads_wf _ _ _ L1 W) as W1. rewrite <- (loads_avail _ _ _ L1) in Sd.
  destruct (ensure_ok be disk a1 e CompLexiconSrt _ ltac:(done) ltac:(done) Sd W1)
    as (srt & a2 & E2 & Hd2 & Hs2 & L2 & _). cda_call E2.
  pose proof (loads_wf _ _ _ L2 W1) as W2.
  rewrite <- (loads_avail _ _ _ L1), <- (loads_avail _ _ _ L2) in Ss.
  destruct (ensure_ok be disk a2 e CompLexicon _ ltac:(done) ltac:(done) Ss W2)
    as (lex & a3 & E3 & Hd3 & Hs3 & L3 & _). cda_call E3.
  rewrite (bindM_lift _ (ints_be (Z.of_nat <$> P))) by (unfold comp_bytes; by rewrite Hd2).
  rewrite (bindM_lift _ (ints_be (lex_index L))) by (unfold comp_bytes; by rewrite Hd1).
  rewrite (bindM_lift _ (lex_data L)) by (unfold comp_bytes; by rewrite Hd3).
  rewrite Hs1, nr_ints_be, zlen_lex_index.
  destruct (str2id_search L P w Ws Sm Hlen Sp Hw So Hne) as (r & Er & Hr).
  cda_lift Er. exists a3, r.1, r.2. split; [by transitivity a2; [transitivity a1 |] |].
  split; [done |]. destruct Hr as [(i & -> & Hi) | [-> Hn]]; [left; eauto | right; done].
Qed.
End Spec.

(** C14. Looking up a string: for every string, [cl_str2id] returns the id of
    the word in the lexicon, with [cl_errno] = CDA_OK, or, when the lexicon has
    no such word, CDA_ENOSTRING; the binary search always ends, well within
    its limit of a million comparisons, and reads nothing outside the
    components; the lexicon is unchanged. *)
Theorem cl_str2id_correct (be : bool) (disk : gmap string (list Z)) (a : Attribute) (e : Z)
    (L : list (list Z)) (P : list nat) (w : list Z) :
  has_lexicon disk a L -> has_sort_index disk a L P -> NoDup L -> L <> [] -> is_str w ->
  exists a', has_lexicon disk a' L /\ has_sort_index disk a' L P /\
    (forall i, L !! i = Some w ->
       cl_str2id be disk w (mkCL (Some a) e) = Ok (Z.of_nat i, mkCL (Some a') CDA_OK)) /\
    (w ∉ L -> cl_str2id be disk w (mkCL (Some a) e) = Ok (CDA_ENOSTRING, mkCL (Some a') CDA_ENOSTRING)).
Proof.
  intros HL HS Hnd Hne Hw.
  destruct (cl_str2id_ok be disk a e L P w HL HS Hne Hw) as (a' & v & err & Ld & E & H).
  exists a'. split; [by eapply has_lexicon_loads |]. split; [by eapply has_sort_index_loads |].
  rewrite E. split.
  - intros i Hi. destruct H as [(j & -> & -> & Hj) | (_ & _ & Hn)].
    + by rewrite (NoDup_lookup L i j w Hnd Hi Hj).
    + exfalso. apply Hn. by eapply list_elem_of_lookup_2.
  - intros Hn. destruct H as [(j & -> & -> & Hj) | (-> & -> & _)]; [| done].
    exfalso. apply Hn. by eapply list_elem_of_lookup_2.
Qed.

(** Ids back to strings: for an id of the lexicon [cl_id2str] points at the
    word and [cl_id2strlen] returns its length, computed from neighbouring
    index entries except for the last word; any other id gives NULL and
    CDA_EIDORNG. *)
Theorem cl_id2str_correct (be : bool) (disk : gmap string (list Z)) (a : Attribute) (e id : Z)
    (L : list (list Z)) :
  has_lexicon disk a L ->
  exists a1 a2 str, has_lexicon disk a1 L /\ has_lexicon disk a2 L /\
    avail disk a1 CompLexicon = Some str /\
    match (if id <? 0 then None else L !! Z.to_nat id) with
    | Some w => exists off, cl_id2str be disk id (mkCL (Some a) e) = Ok (Some off, mkCL (Some a1) CDA_OK) /\
        c_string str off = Ok w /\
        cl_id2strlen be disk id (mkCL (Some a) e) = Ok (zlen w, mkCL (Some a2) CDA_OK)
    | None => cl_id2str be disk id (mkCL (Some a) e) = Ok (None, mkCL (Some a1) CDA_EIDORNG) /\
        cl_id2strlen be disk id (mkCL (Some a) e) = Ok (CDA_EIDORNG, mkCL (Some a2) CDA_EIDORNG)
    end.
Proof.
  intros HL. destruct (cl_id2str_ok be disk a e L id HL) as (a1 & L1 & _ & E1).
  destruct (cl_id2strlen_ok be disk a e L id HL) as (a2 & L2 & E2).
  exists a1, a2, (lex_data L). split; [by eapply has_lexicon_loads |].
  split; [by eapply has_lexicon_loads |].
  split; [rewrite (loads_avail _ _ _ L1); apply HL |].
  destruct (Z.ltb_spec id 0) as [H0|H0]; cbn [orb] in E1; [done |].
  destruct (Z.leb_spec (zlen L) id) as [H1|H1].
  - rewrite lookup_ge_None_2 in * by (unfold zlen in *; lia). done.
  - destruct (lookup_lt_is_Some_2 L (Z.to_nat id)) as [w Hw]; [unfold zlen in *; lia |].
    rewrite Hw in *. eexists. split; [exact E1 |]. split; [| done].
    apply c_string_lex; [apply HL | done].
Qed.

(** [cl_strcmp] is a strict total order of strings that agrees with
    equality: swapping the arguments negates the result, it is 0 only for
    equal strings, and it is transitive; bytes from 128 on sort before all
    others, even before the end of a string. *)
Theorem cl_strcmp_total_order (s1 s2 s3 : list Z) :
  is_str s1 -> is_str s2 -> is_str s3 ->
  cl_strcmp s2 s1 = - cl_strcmp s1 s2 /\
  (cl_strcmp s1 s2 = 0 <-> s1 = s2) /\
  (cl_strcmp s1 s2 < 0 -> cl_strcmp s2 s3 < 0 -> cl_strcmp s1 s3 < 0) /\
  (forall x y rest, 128 <= x < 256 -> 0 < y < 128 -> cl_strcmp (s1 ++ x :: rest) (s1 ++ [y]) < 0 /\
     cl_strcmp (s1 ++ x :: rest) s1 < 0).
Proof.
  intros H1 H2 H3. split; [apply cl_strcmp_antisym |]. split.
  - split; [by apply cl_strcmp_eq | intros ->; apply cl_strcmp_refl].
  - split; [by apply cl_strcmp_trans |]. intros x y rest Hx Hy.
    clear H1. induction s1 as [|z s IH]; cbn [app cl_strcmp]; [| by rewrite Z.eqb_refl].
    assert (sc x = x - 256) as -> by (unfold sc; case_Z; lia).
    assert (sc y = y) as -> by (unfold sc; case_Z; lia).
    rewrite (proj2 (Z.eqb_neq _ _)) by lia. lia.
Qed.

Lemma cl_strcmp_total_order_witness :
  cl_strcmp [97] [98] < 0 /\ cl_strcmp [97; 228; 5] [97] < 0.
Proof.
  assert (forall x, 0 < x < 256 -> is_str [x]) as W by (intros x Hx; repeat constructor; apply Hx).
  destruct (cl_strcmp_total_order [97] [98] [99] (W 97 ltac:(lia)) (W 98 ltac:(lia)) (W 99 ltac:(lia)))
    as (_ & _ & _ & H).
  split; [vm_compute; reflexivity | apply (H 228 1 [5]); lia].
Defined.

(** A lexicon in memory, for evaluating the access functions. *)
Definition lex_components (L : list (list Z)) (P : list nat) : list (ComponentID * list Z) :=
  [(CompLexicon, lex_data L); (CompLexiconIdx, ints_be (lex_index L));
   (CompLexiconSrt, ints_be (Z.of_nat <$> P))].

Definition ex_words : list (list Z) := [[98]; [97; 98]; [97]; [228; 98]].
Definition ex_attribute : Attribute := mem_attribute ATT_POS (lex_components ex_words [3; 2; 1; 0]%nat).

Lemma ex_has_lexicon disk : has_lexicon disk ex_attribute ex_words.
Proof.
  split; try reflexivity.
  - apply mem_attribute_wf. repeat constructor; vm_compute; discriminate.
  - repeat (constructor; try (vm_compute; split; reflexivity)).
  - vm_compute. discriminate.
Defined.

Lemma ex_has_sort_index disk : has_sort_index disk ex_attribute ex_words [3; 2; 1; 0]%nat.
Proof.
  split; [reflexivity | |].
  - apply (reverse_Permutation [0; 1; 2; 3]%nat).
  - intros p q i j w v Hpq Hp Hq Hw Hv.
    pose proof (lookup_lt_Some _ _ _ Hp) as Hp4. pose proof (lookup_lt_Some _ _ _ Hq) as Hq4.
    simpl in Hp4, Hq4.
    do 4 (destruct p as [|p]; [do 4 (destruct q as [|q];
      [simplify_eq/=; vm_compute; (discriminate || lia) |]); lia |]). lia.
Defined.

Lemma cl_str2id_correct_witness :
  exists a', has_lexicon ∅ a' ex_words /\ has_sort_index ∅ a' ex_words [3; 2; 1; 0]%nat /\
    (forall i, ex_words !! i = Some [97; 98] ->
       cl_str2id true ∅ [97; 98] (mkCL (Some ex_attribute) 0) = Ok (Z.of_nat i, mkCL (Some a') CDA_OK)) /\
    ([97; 98] ∉ ex_words ->
       cl_str2id true ∅ [97; 98] (mkCL (Some ex_attribute) 0) =
         Ok (CDA_ENOSTRING, mkCL (Some a') CDA_ENOSTRING)).
Proof.
  apply (cl_str2id_correct true ∅ ex_attribute 0 ex_words [3; 2; 1; 0]%nat [97; 98]).
  - apply ex_has_lexicon.
  - apply ex_has_sort_index.
  - apply (bool_decide_unpack _). vm_compute. exact I.
  - discriminate.
  - repeat constructor; vm_compute; reflexivity.
Defined.

Lemma cl_id2str_correct_witness :
  exists a1 a2 str, has_lexicon ∅ a1 ex_words /\ has_lexicon ∅ a2 ex_words /\
    avail ∅ a1 CompLexicon = Some str /\
    exists off, cl_id2str false ∅ 3 (mkCL (Some ex_attribute) 0) = Ok (Some off, mkCL (Some a1) CDA_OK) /\
      c_string str off = Ok [228; 98] /\
      cl_id2strlen false ∅ 3 (mkCL (Some ex_attribute) 0) = Ok (2, mkCL (Some a2) CDA_OK).
Proof. apply (cl_id2str_correct false ∅ ex_attribute 0 3 ex_words), ex_has_lexicon. Defined.
