(* ===== verification/Positional.v ===== *)
(** * Positional attributes: cl/cdaccess.c

    The token stream (ids at corpus positions, plain or Huffman compressed), the
    frequencies, and the index from ids to corpus positions (plain or Golomb
    compressed), with the position streams.  Definitions only: the theorems are
    in the files that build the components (RevIndex, CompressRdx, Huffman). *)

From Stdlib Require Import ZArith Lia String Ascii.
From stdpp Require Import base tactics option list numbers gmap strings.
From S2P Require Import Prelude Bits Storage BitIO Golomb Blob Attributes CDA Lexicon.

Open Scope Z_scope.

Section Positional.
Context (be : bool) (disk : gmap string (list Z)).

(** The rounded quotient of logarithms in [compute_ba]. *)
Context (pa : Z -> Z -> Z).

(** [qsort(table, size, sizeof(int), intcompare)] *)
Context (qsort_ints : list Z -> list Z).

(** ** Compressed or not *)

Definition cl_sequence_compressed : M Z :=
  check_arg ATT_POS (fun e => e) (
    a ← attribute;
    mret (if sequence_compressed disk a then 1 else 0)).

Definition index_compressed (a : Attribute) : bool :=
  if decide (component_state disk a CompRevCorpus = ComponentLoaded /\
             component_state disk a CompRevCorpusIdx = ComponentLoaded) then false
  else if negb (is_accessible (component_state disk a CompCompRF)) then false
  else if negb (is_accessible (component_state disk a CompCompRFX)) then false
  else true.

Definition cl_index_compressed : M Z :=
  check_arg ATT_POS (fun e => e) (
    a ← attribute;
    mret (if index_compressed a then 1 else 0)).

(** ** Sizes and frequencies *)

Definition cl_max_cpos : M Z :=
  check_arg ATT_POS (fun e => e) (
    c ← cl_sequence_compressed;
    if c =? 1 then
      _ ← ensure be disk CompHuffCodes;
      a ← attribute;
      match hc a with
      | None => return_errno CDA_ENODATA CDA_ENODATA
      | Some h => return_errno CDA_OK (hcd_length h)
      end
    else
      corpus ← ensure be disk CompCorpus;
      match corpus with
      | None => return_errno CDA_ENODATA CDA_ENODATA
      | Some corpus => return_errno CDA_OK (comp_size corpus)
      end).

Definition cl_id2freq (id : Z) : M Z :=
  check_arg ATT_POS (fun e => e) (
    freqs ← ensure be disk CompCorpusFreqs;
    match freqs with
    | None => return_errno CDA_ENODATA CDA_ENODATA
    | Some freqs =>
        if (0 <=? id) && (id <? comp_size freqs) then
          d ← lift (comp_bytes freqs);
          f ← lift (nget_int be d id);
          return_errno CDA_OK f
        else return_errno CDA_EIDXORNG CDA_EIDXORNG
    end).

(** ** From ids to corpus positions *)

(** [while (res_ptr < size && last_pos > restrictor_list[res_ptr*2+1]) res_ptr++;]
    All quantities are unsigned. *)
Definition skip_round (rl : list Z) (rl_size last_pos : Z) (res_ptr : Z) : res (Z + Z) :=
  if res_ptr <? u32 rl_size then
    e ← aget rl (res_ptr * 2 + 1);
    if u32 e <? last_pos then Ok (inl (res_ptr + 1)) else Ok (inr res_ptr)
  else Ok (inr res_ptr).

(** One item of the compressed index. *)
Definition id2cpos_compressed_item (b : Z) (restrictor : option (list Z)) (rl_size : Z)
    (st : BStream * Z * Z * Z * list Z) : res (BStream * Z * Z * Z * list Z) :=
  let '(bs, last_pos, ins_ptr, res_ptr, buffer) := st in
  r ← read_golomb_code_bs b bs;
  let '(gap, bs) := r in
  let last_pos := u32 (last_pos + u32 gap) in
  match restrictor with
  | Some rl =>
      if 0 <? rl_size then
        res_ptr ← loop (skip_round rl rl_size last_pos) fuel res_ptr;
        if res_ptr <? u32 rl_size then
          s ← aget rl (res_ptr * 2);
          e ← aget rl (res_ptr * 2 + 1);
          if (u32 s <=? last_pos) && (last_pos <=? u32 e) then
            buffer ← aset buffer ins_ptr (s32 last_pos);
            Ok (bs, last_pos, ins_ptr + 1, res_ptr, buffer)
          else Ok (bs, last_pos, ins_ptr, res_ptr, buffer)
        else Ok (bs, last_pos, ins_ptr, res_ptr, buffer)
      else
        buffer ← aset buffer ins_ptr (s32 last_pos);
        Ok (bs, last_pos, ins_ptr + 1, res_ptr, buffer)
  | None =>
      buffer ← aset buffer ins_ptr (s32 last_pos);
      Ok (bs, last_pos, ins_ptr + 1, res_ptr, buffer)
  end.

(** The buffer and its length after it was reduced to the items kept. *)
Definition reduce_buffer (buffer : list Z) (ins_ptr freq : Z) : option (list Z) * Z :=
  if ins_ptr <? freq then
    (if ins_ptr =? 0 then None else Some (take (Z.to_nat ins_ptr) buffer), ins_ptr)
  else (Some buffer, freq).

Definition id2cpos_compressed (revcorp revcidx : list Z) (id freq size : Z)
    (restrictor : option (list Z)) (rl_size : Z) : res (option (list Z) * Z) :=
  let b := compute_ba pa freq size in
  offset ← nget be revcidx id;
  o ← BSopen (Some revcorp) "r";
  let bs := snd (BSseek o.2 offset) in
  r ← for_up (fun _ => id2cpos_compressed_item b restrictor rl_size) 0 freq
        (bs, 0, 0, 0, replicate (Z.to_nat freq) 0);
  let '(bs, _, ins_ptr, _, buffer) := r in
  _ ← BSclose bs;
  Ok (reduce_buffer buffer ins_ptr freq).

(** One round of the loop that keeps the items within the restrictor's ranges,
    moving them to the front of the same buffer. *)
Definition restrict_round (rl : list Z) (rl_size freq : Z) (st : list Z * Z * Z * Z)
  : res (list Z * Z * Z * Z + list Z * Z) :=
  let '(buffer, buf_ptr, res_ptr, ins_ptr) := st in
  if (buf_ptr <? freq) && (res_ptr <? rl_size) then
    x ← aget buffer buf_ptr;
    s ← aget rl (res_ptr * 2);
    if x <? s then Ok (inl (buffer, buf_ptr + 1, res_ptr, ins_ptr))
    else
      e ← aget rl (res_ptr * 2 + 1);
      if e <? x then Ok (inl (buffer, buf_ptr, res_ptr + 1, ins_ptr))
      else
        buffer ← aset buffer ins_ptr x;
        Ok (inl (buffer, buf_ptr + 1, res_ptr, ins_ptr + 1))
  else Ok (inr (buffer, ins_ptr)).

Definition id2cpos_plain (revcorp revcidx : list Z) (id freq : Z)
    (restrictor : option (list Z)) (rl_size : Z) : res (option (list Z) * Z) :=
  offset ← nget be revcidx id;
  buffer ← nget_ints be revcorp offset (Z.to_nat freq);
  match restrictor with
  | Some rl =>
      if 0 <? rl_size then
        r ← loop (restrict_round rl rl_size freq) fuel (buffer, 0, 0, 0);
        Ok (reduce_buffer r.1 r.2 freq)
      else Ok (Some buffer, freq)
  | None => Ok (Some buffer, freq)
  end.

(** The returned pointer and [*freq], whose old value is [freq0]. *)
Definition cl_id2cpos_oldstyle (id freq0 : Z) (restrictor : option (list Z)) (rl_size : Z)
  : M (option (list Z) * Z) :=
  check_arg ATT_POS (fun _ => (None, freq0)) (
    size ← cl_max_cpos;
    e ← get_errno;
    if (size <=? 0) || negb (e =? CDA_OK) then mret (None, freq0) else
    range ← cl_max_id be disk;
    e ← get_errno;
    if (range <=? 0) || negb (e =? CDA_OK) then mret (None, freq0) else
    if (id <? 0) || (range <=? id) then return_errno CDA_EIDORNG (None, 0) else
    freq ← cl_id2freq id;
    e ← get_errno;
    if (freq <? 0) || negb (e =? CDA_OK) then mret (None, freq) else
    c ← cl_index_compressed;
    if negb (c =? 0) then
      revcorp ← ensure be disk CompCompRF;
      revcidx ← ensure be disk CompCompRFX;
      match revcorp, revcidx with
      | Some revcorp, Some revcidx =>
          rc ← lift (comp_bytes revcorp);
          rx ← lift (comp_bytes revcidx);
          r ← lift (id2cpos_compressed rc rx id freq size restrictor rl_size);
          return_errno CDA_OK r
      | _, _ => return_errno CDA_ENODATA (None, 0)
      end
    else
      revcorp ← ensure be disk CompRevCorpus;
      revcidx ← ensure be disk CompRevCorpusIdx;
      match revcorp, revcidx with
      | Some revcorp, Some revcidx =>
          rc ← lift (comp_bytes revcorp);
          rx ← lift (comp_bytes revcidx);
          r ← lift (id2cpos_plain rc rx id freq restrictor rl_size);
          return_errno CDA_OK r
      | _, _ => return_errno CDA_ENODATA (None, 0)
      end).

(** ** Position streams *)

(** [struct _position_stream_rec_]; [base] is the part of the index [base] points to. *)
Record PositionStream := mkPS {
  ps_id : Z;
  id_freq : Z;
  ps_nr_items : Z;
  is_compressed : bool;
  ps_bs : BStream;
  ps_b : Z;
  ps_last_pos : Z;
  ps_base : option (list Z)
}.

Definition cl_new_stream (id : Z) : M (option PositionStream) :=
  check_arg ATT_POS (fun _ => None) (
    size ← cl_max_cpos;
    e ← get_errno;
    if (size <=? 0) || negb (e =? CDA_OK) then mret None else
    range ← cl_max_id be disk;
    e ← get_errno;
    if (range <=? 0) || negb (e =? CDA_OK) then mret None else
    if (id <? 0) || (range <=? id) then return_errno CDA_EIDORNG None else
    freq ← cl_id2freq id;
    e ← get_errno;
    if (freq <? 0) || negb (e =? CDA_OK) then mret None else
    c ← cl_index_compressed;
    let unset := mkBit None Ascii.zero 0 0 0 in
    if negb (c =? 0) then
      revcorp ← ensure be disk CompCompRF;
      revcidx ← ensure be disk CompCompRFX;
      match revcorp, revcidx with
      | Some revcorp, Some revcidx =>
          rc ← lift (comp_bytes revcorp);
          rx ← lift (comp_bytes revcidx);
          offset ← lift (nget_int be rx id);
          o ← lift (BSopen (Some rc) "r");
          let bs := snd (BSseek o.2 offset) in
          mret (Some (mkPS id freq 0 true bs (compute_ba pa freq size) 0 None))
      | _, _ => return_errno CDA_ENODATA None
      end
    else
      revcorp ← ensure be disk CompRevCorpus;
      revcidx ← ensure be disk CompRevCorpusIdx;
      match revcorp, revcidx with
      | Some revcorp, Some revcidx =>
          rc ← lift (comp_bytes revcorp);
          rx ← lift (comp_bytes revcidx);
          offset ← lift (nget be rx id);
          mret (Some (mkPS id freq 0 false unset 0 0 (Some (drop (Z.to_nat (4 * offset)) rc))))
      | _, _ => return_errno CDA_ENODATA None
      end).

(** The record as it is when it is freed: the flag is cleared before it is tested. *)
Definition cl_delete_stream (ps : PositionStream) : res (Z * PositionStream) :=
  let ps := mkPS (-1) (-1) (-1) false (ps_bs ps) (ps_b ps) (ps_last_pos ps) (ps_base ps) in
  if is_compressed ps then
    r ← BSclose (ps_bs ps);
    Ok (1, mkPS (ps_id ps) (id_freq ps) (ps_nr_items ps) (is_compressed ps) r.2 0 0 (ps_base ps))
  else
    Ok (1, mkPS (ps_id ps) (id_freq ps) (ps_nr_items ps) (is_compressed ps) (ps_bs ps) (ps_b ps)
             (ps_last_pos ps) None).

(** One item of a compressed stream; [out] are the items stored so far. *)
Definition read_stream_item (b : Z) (st : BStream * Z * list Z) : res (BStream * Z * list Z) :=
  let '(bs, last_pos, out) := st in
  r ← read_golomb_code_bs b bs;
  let '(gap, bs) := r in
  last_pos ← c_int (last_pos + gap);
  Ok (bs, last_pos, out ++ [last_pos]).

(** The return value, the items written to the buffer and the stream. *)
Definition cl_read_stream (ps : PositionStream) (buffer_size : Z) : res (Z * list Z * PositionStream) :=
  if id_freq ps <=? ps_nr_items ps then Ok (0, [], ps)
  else
    wanted ← c_int (ps_nr_items ps + buffer_size);
    let items_to_read := if id_freq ps <? wanted then id_freq ps - ps_nr_items ps else buffer_size in
    _ ← c_assert (0 <=? items_to_read);
    if items_to_read =? 0 then Ok (0, [], ps)
    else if is_compressed ps then
      r ← for_up (fun _ => read_stream_item (ps_b ps)) 0 items_to_read (ps_bs ps, ps_last_pos ps, []);
      let '(bs, last_pos, out) := r in
      Ok (items_to_read, out,
          mkPS (ps_id ps) (id_freq ps) (ps_nr_items ps + items_to_read) true bs (ps_b ps) last_pos (ps_base ps))
    else
      base ← deref (ps_base ps);
      out ← nget_ints be base (ps_nr_items ps) (Z.to_nat items_to_read);
      Ok (items_to_read, out,
          mkPS (ps_id ps) (id_freq ps) (ps_nr_items ps + items_to_read) false (ps_bs ps) (ps_b ps)
            (ps_last_pos ps) (ps_base ps)).

(** ** From corpus positions to ids *)

(** [while (v < min_code[l]) { read a bit; v <<= 1; if (bit) v++; l++; }]
    The comparison is unsigned.  [inr None] is the read error. *)
Definition huff_round (h : HCD) (st : BStream * Z * Z)
  : res (BStream * Z * Z + option (BStream * Z * Z)) :=
  let '(bs, v, l) := st in
  m ← aget (min_code h) l;
  if v <? u32 m then
    r ← BSread 1 bs;
    let '(ok, bit, bs) := r in
    if ok =? 0 then Ok (inr None)
    else
      let v := u32 (Z.shiftl v 1) in
      Ok (inl (bs, if negb (bit =? 0) then u32 (v + 1) else v, l + 1))
  else Ok (inr (Some (bs, v, l))).

(** Decode one item: [None] is the read error. *)
Definition huff_item (h : HCD) (bs : BStream) : res (option (Z * BStream)) :=
  r ← BSread 1 bs;
  let '(ok, bit, bs) := r in
  if ok =? 0 then Ok None
  else
    let v := if negb (bit =? 0) then 1 else 0 in
    r ← loop (huff_round h) fuel (bs, v, 1);
    match r with
    | None => Ok None
    | Some (bs, v, l) =>
        si ← aget (symindex h) l;
        mc ← aget (min_code h) l;
        item ← nget_int be (symbols h) (u32 (si + v - mc));
        Ok (Some (item, bs))
    end.

(** [for (i = 0; i < max; i++)]: the items are stored in the decompression block. *)
Definition huff_block_round (h : HCD) (max : Z) (st : Z * BStream * list Z)
  : res (Z * BStream * list Z + list Z * option BStream) :=
  let '(i, bs, block) := st in
  if i <? max then
    r ← huff_item h bs;
    match r with
    | None => Ok (inr (block, None))
    | Some (item, bs) => block ← aset block i item; Ok (inl (i + 1, bs, block))
    end
  else Ok (inr (block, Some bs)).

(** Read the block into the decompression buffer of the attribute; the block
    number is recorded before the block is decoded. *)
Definition huff_load_block (h : HCD) (cis sync : list Z) (block : Z) (a : Attribute)
  : res (bool * Attribute) :=
  let max := u32 (hcd_length h - block * SYNCHRONIZATION) in
  let max := if SYNCHRONIZATION <? max then SYNCHRONIZATION else max in
  offset ← nget be sync block;
  o ← BSopen (Some cis) "r";
  let bs := snd (BSseek o.2 offset) in
  r ← loop (huff_block_round h max) fuel (0, bs, this_block a);
  match r with
  | (items, None) => Ok (false, set_block a (s32 block) items)
  | (items, Some bs) => _ ← BSclose bs; Ok (true, set_block a (s32 block) items)
  end.

Definition cl_cpos2id (position : Z) : M Z :=
  check_arg ATT_POS (fun e => e) (
    c ← cl_sequence_compressed;
    if c =? 1 then
      cis ← ensure be disk CompHuffSeq;
      cis_map ← ensure be disk CompHuffCodes;
      cis_sync ← ensure be disk CompHuffSync;
      match cis, cis_map, cis_sync with
      | Some cis, Some _, Some cis_sync =>
          a ← attribute;
          h ← lift (deref (hc a));
          if (0 <=? position) && (position <? hcd_length h) then
            let block := Z.quot position SYNCHRONIZATION in
            let rest := Z.rem position SYNCHRONIZATION in
            ok ← (if negb (u32 (this_block_nr a) =? block) then
                    d ← lift (comp_bytes cis);
                    sy ← lift (comp_bytes cis_sync);
                    r ← lift (huff_load_block h d sy block a);
                    _ ← set_attribute r.2;
                    mret r.1
                  else mret true);
            if (ok : bool) then
              a ← attribute;
              _ ← lift (c_assert (rest <? SYNCHRONIZATION));
              v ← lift (aget (this_block a) rest);
              return_errno CDA_OK v
            else return_errno CDA_ENODATA CDA_ENODATA
          else return_errno CDA_EPOSORNG CDA_EPOSORNG
      | _, _, _ => return_errno CDA_ENODATA CDA_ENODATA
      end
    else
      corpus ← ensure be disk CompCorpus;
      match corpus with
      | None => return_errno CDA_ENODATA CDA_ENODATA
      | Some corpus =>
          if (0 <=? position) && (position <? comp_size corpus) then
            d ← lift (comp_bytes corpus);
            id ← lift (nget_int be d position);
            return_errno CDA_OK id
          else return_errno CDA_EPOSORNG CDA_EPOSORNG
      end).

Definition cl_cpos2str (position : Z) : M (option Z) :=
  check_arg ATT_POS (fun _ => None) (
    id ← cl_cpos2id position;
    e ← get_errno;
    if (id <? 0) || negb (e =? CDA_OK) then mret None else cl_id2str be disk id).

(** ** Lists of ids *)

(** The returned string, [*freq] and [*slen]. *)
Definition cl_id2all (index freq0 slen0 : Z) : M (option Z * Z * Z) :=
  check_arg ATT_POS (fun _ => (None, freq0, slen0)) (
    freq ← cl_id2freq index;
    e ← get_errno;
    if (freq <? 0) || negb (e =? CDA_OK) then mret (None, freq, slen0) else
    slen ← cl_id2strlen be disk index;
    e ← get_errno;
    if (slen <? 0) || negb (e =? CDA_OK) then mret (None, freq, slen) else
    s ← cl_id2str be disk index;
    mret (s, freq, slen)).

(** [for (k = 0; k < number_of_words; k++)]: [inr] is the early return. *)
Fixpoint idlist2freq_loop (word_ids : list Z) (sum : Z) : M (Z + Z) :=
  match word_ids with
  | [] => mret (inl sum)
  | id :: ids =>
      f ← cl_id2freq id;
      sum ← lift (c_int (sum + f));
      e ← get_errno;
      if negb (e =? CDA_OK) then mret (inr e) else idlist2freq_loop ids sum
  end.

Definition cl_idlist2freq (word_ids : option (list Z)) : M Z :=
  check_arg ATT_POS (fun e => e) (
    match word_ids with
    | None => return_errno CDA_ENODATA CDA_ENODATA
    | Some ids =>
        r ← idlist2freq_loop ids 0;
        match r with inl sum => return_errno CDA_OK sum | inr e => mret e end
    end).

(** [for (k = 0; k < number_of_words; k++)]: the table is filled from [p] on;
    [None] is the early return. *)
Fixpoint idlist2cpos_loop (lex_size : Z) (word_ids : list Z) (p : Z) (table : list Z)
  : M (option (Z * list Z)) :=
  match word_ids with
  | [] => mret (Some (p, table))
  | id :: ids =>
      if (id <? 0) || (lex_size <=? id) then return_errno CDA_EIDORNG None else
      r ← cl_id2cpos_oldstyle id 0 None 0;
      let '(start, freq) := r in
      e ← get_errno;
      if (freq <? 0) || negb (e =? CDA_OK) then mret None else
      src ← lift (if freq =? 0 then Ok [] else deref start);
      table ← lift (for_up (fun i t => x ← aget src i; aset t (p + i) x) 0 freq table);
      idlist2cpos_loop lex_size ids (p + freq) table
  end.

(** The returned table and [*size_of_table].  Without an attribute, or for one of another type, [*size_of_table] is
    not set; the 0 of the model stands for what it contains. *)
Definition cl_idlist2cpos_oldstyle (word_ids : option (list Z)) (sort : bool)
  : M (option (list Z) * Z) :=
  check_arg ATT_POS (fun _ => (None, 0)) (
    lexidx ← ensure be disk CompLexiconIdx;
    match lexidx, word_ids with
    | Some lexidx, Some ids =>
        size ← cl_idlist2freq (Some ids);
        e ← get_errno;
        if (size <? 0) || negb (e =? CDA_OK) then mret (None, 0) else
        if 0 <? size then
          r ← idlist2cpos_loop (comp_size lexidx) ids 0 (replicate (Z.to_nat size) 0);
          match r with
          | None => mret (None, 0)
          | Some (p, table) =>
              _ ← lift (c_assert (p =? size));
              return_errno CDA_OK (Some (if sort then qsort_ints table else table), size)
          end
        else return_errno CDA_OK (None, 0)
    | _, _ => return_errno CDA_ENODATA (None, 0)
    end).
End Positional.
