(* ===== verification/RevIndex.v ===== *)
(** * The index from ids to corpus positions

    The abstract index gives for every id the ascending list of its corpus
    positions (its postings).  This file proves that [cl_id2cpos_oldstyle]
    (cl/cdaccess.c) returns the postings, restricted to the ranges of the
    restrictor list if there is one, from the plain and the compressed index files,
    and that [cl_idlist2cpos_oldstyle] returns the postings of a list of ids. *)

From Stdlib Require Import ZArith Lia Ascii String Sorted.
From stdpp Require Import base tactics option list numbers gmap strings sorting.
From S2P Require Import Prelude.
From S2P Require Import Bits.
From S2P Require Import Storage.
From S2P Require Import BitIO.
From S2P Require Import Golomb.
From S2P Require Import Blob.
From S2P Require Import Attributes.
From S2P Require Import CDA.
From S2P Require Import Lexicon.
From S2P Require Import Positional.

Open Scope Z_scope.

(** ** Restrictor lists *)

Definition in_range (x : Z) (r : Z * Z) : bool := (r.1 <=? x) && (x <=? r.2).
Definition in_ranges (R : list (Z * Z)) (x : Z) : bool := existsb (in_range x) R.

(** The positions that lie in one of the ranges. *)
Definition restrict (R : list (Z * Z)) (ps : list Z) : list Z := List.filter (in_ranges R) ps.

(** The restrictor list in memory: start and end of each range. *)
Definition flat_ranges (R : list (Z * Z)) : list Z := R ≫= fun r => [r.1; r.2].

(** Ranges in the order of their starts. *)
Definition ranges_sorted (R : list (Z * Z)) : Prop := StronglySorted (fun r q => r.1 <= q.1) R.

Lemma flat_ranges_lookup R k r :
  R !! k = Some r ->
  aget (flat_ranges R) (Z.of_nat k * 2) = Ok r.1 /\ aget (flat_ranges R) (Z.of_nat k * 2 + 1) = Ok r.2.
Proof.
  intros Hk.
  assert (forall R k r, R !! k = Some r ->
    flat_ranges R !! (2 * k)%nat = Some r.1 /\ flat_ranges R !! (2 * k + 1)%nat = Some r.2) as H.
  { clear. induction R as [|q R IH]; intros k r Hk; [done |]. destruct k as [|k].
    - injection Hk as ->. done.
    - unfold flat_ranges. rewrite bind_cons.
      replace (2 * S k)%nat with (2 + 2 * k)%nat by lia. cbn. by apply IH. }
  destruct (H R k r Hk) as [H1 H2]. split.
  - replace (Z.of_nat k * 2) with (Z.of_nat (2 * k)) by lia. by apply aget_nat.
  - replace (Z.of_nat k * 2 + 1) with (Z.of_nat (2 * k + 1)) by lia. by apply aget_nat.
Qed.

Lemma in_ranges_app R Q x : in_ranges (R ++ Q) x = in_ranges R x || in_ranges Q x.
Proof. apply existsb_app. Qed.

Lemma in_ranges_before R x s :
  Forall (fun r => s <= r.1) R -> x < s -> in_ranges R x = false.
Proof.
  intros HR Hx. induction HR as [|r R Hr HR IH]; [done |]. cbn [in_ranges existsb].
  unfold in_range at 1. by rewrite (proj2 (Z.leb_gt r.1 x)) by lia.
Qed.

Lemma restrict_nil_all R ps : (forall x, x ∈ ps -> in_ranges R x = false) -> restrict R ps = [].
Proof.
  intros H. unfold restrict. induction ps as [|p ps IH]; [done |]. cbn [List.filter].
  rewrite H by left. apply IH. intros x Hx. apply H. by right.
Qed.

Lemma restrict_app R ps qs : restrict R (ps ++ qs) = restrict R ps ++ restrict R qs.
Proof. apply List.filter_app. Qed.

(** ** Restricting in place *)
Section Restrict.
Context (R : list (Z * Z)) (ps : list Z).
Context (HR : ranges_sorted R) (Hps : StronglySorted Z.le ps).
Context (HlenR : zlen R < 2 ^ 32) (Hlenp : zlen ps < 2 ^ 32).

(** The ranges split at [res_ptr], the positions at [buf_ptr]: what is kept of
    the first positions is at the front of the buffer, the others are still in
    their place, and no later position lies in an earlier range. *)
Definition restrict_inv (st : list Z * Z * Z * Z) : Prop :=
  let '(buffer, buf_ptr, res_ptr, ins_ptr) := st in
  exists p1 p2 R1 R2, ps = p1 ++ p2 /\ R = R1 ++ R2 /\
    buf_ptr = zlen p1 /\ res_ptr = zlen R1 /\ ins_ptr = zlen (restrict R p1) /\
    (exists junk, buffer = restrict R p1 ++ junk ++ p2) /\ zlen buffer = zlen ps /\
    (forall x, x ∈ p2 -> in_ranges R1 x = false).

Lemma restrict_round_ok st :
  restrict_inv st ->
  (exists st', restrict_round (flat_ranges R) (zlen R) (zlen ps) st = Ok (inl st') /\ restrict_inv st' /\
     st'.1.1.2 + st'.1.2 = st.1.1.2 + st.1.2 + 1) \/
  (exists buffer, restrict_round (flat_ranges R) (zlen R) (zlen ps) st =
     Ok (inr (buffer, zlen (restrict R ps))) /\
     take (length (restrict R ps)) buffer = restrict R ps /\ zlen buffer = zlen ps).
Proof using HR Hps.
  destruct st as [[[buffer bp] rp] ip].
  intros (p1 & p2 & R1 & R2 & Hp & HRe & -> & -> & -> & (junk & Hbuf) & Hblen & Hout).
  assert (zlen ps = zlen p1 + zlen p2) as Hzp by (rewrite Hp; apply zlen_app).
  assert (zlen R = zlen R1 + zlen R2) as HzR by (rewrite HRe; apply zlen_app).
  unfold restrict_round.
  destruct p2 as [|x p2].
  { right. rewrite (proj2 (Z.ltb_ge (zlen p1) _)) by (rewrite zlen_nil in Hzp; lia). cbn [andb].
    rewrite app_nil_r in *. subst p1. exists buffer. split; [done |]. split; [| done].
    by rewrite Hbuf, take_app_length. }
  rewrite (proj2 (Z.ltb_lt (zlen p1) _)) by (rewrite zlen_cons in Hzp; pose proof (zlen_nonneg p2); lia).
  destruct R2 as [|r R2].
  { right. rewrite (proj2 (Z.ltb_ge (zlen R1) _)) by (rewrite zlen_nil in HzR; lia). cbn [andb].
    rewrite app_nil_r in HRe. subst R1.
    assert (restrict R ps = restrict R p1) as ->.
    { rewrite Hp, restrict_app, (restrict_nil_all R (x :: p2)), app_nil_r; done. }
    exists buffer. split; [done |]. split; [by rewrite Hbuf, take_app_length | done]. }
  rewrite (proj2 (Z.ltb_lt (zlen R1) _)) by (rewrite zlen_cons in HzR; pose proof (zlen_nonneg R2); lia).
  cbn [andb].
  assert (zlen (restrict R p1 ++ junk) = zlen p1) as Hjunk.
  { rewrite Hp, Hbuf in Hblen. rewrite !zlen_app in *. lia. }
  rewrite Hbuf, app_assoc, aget_middle by done. res_cbn.
  assert (R !! length R1 = Some r) as Hr by (rewrite HRe; apply list_lookup_middle; done).
  destruct (flat_ranges_lookup R (length R1) r Hr) as [Hs He].
  fold (zlen R1) in Hs, He. rewrite Hs. res_cbn.
  unfold ranges_sorted in HR. rewrite HRe in HR. apply StronglySorted_app_1_r in HR.
  apply StronglySorted_inv in HR as [HR2 Hall].
  rewrite Hp in Hps. apply StronglySorted_app_1_r in Hps. apply StronglySorted_inv in Hps as [_ Hx].
  assert (forall q, q ∈ x :: p2 -> x <= q) as Hmin.
  { intros q Hq. apply elem_of_cons in Hq as [->|Hq]; [lia |]. rewrite Forall_forall in Hx. by apply Hx. }
  destruct (Z.ltb_spec x r.1) as [Hlt|Hge].
  { left. eexists. split; [reflexivity |]. split; [| cbn; lia].
    assert (in_ranges R x = false) as Hnot.
    { rewrite HRe, in_ranges_app, Hout by left. cbn [orb]. apply (in_ranges_before _ _ r.1); [| done].
      constructor; [lia | done]. }
    assert (restrict R (p1 ++ [x]) = restrict R p1) as Hk.
    { rewrite restrict_app. unfold restrict at 2. cbn [List.filter]. by rewrite Hnot, app_nil_r. }
    exists (p1 ++ [x]), p2, R1, (r :: R2). rewrite <- app_assoc, zlen_app, Hk.
    split; [done |]. split; [done |]. split; [done |]. split; [done |]. split; [done |].
    split; [exists (junk ++ [x]); by rewrite <- !app_assoc |].
    split; [by rewrite <- app_assoc, <- Hbuf |]. intros q Hq. apply Hout. by right. }
  rewrite He. res_cbn. destruct (Z.ltb_spec r.2 x) as [Hlt|Hle].
  { left. eexists. split; [reflexivity |]. split; [| cbn; lia].
    exists p1, (x :: p2), (R1 ++ [r]), R2. rewrite <- app_assoc, zlen_app.
    split; [done |]. split; [done |]. split; [done |]. split; [done |]. split; [done |].
    split; [exists junk; by rewrite <- app_assoc |].
    split; [by rewrite <- app_assoc, <- Hbuf |]. intros q Hq.
    rewrite in_ranges_app, Hout by done. cbn. unfold in_range.
    rewrite (proj2 (Z.leb_gt q r.2)) by (specialize (Hmin q Hq); lia). by rewrite andb_false_r. }
  assert (in_ranges R x = true) as Hyes.
  { rewrite HRe, in_ranges_app. cbn. unfold in_range.
    rewrite (proj2 (Z.leb_le r.1 x)), (proj2 (Z.leb_le x r.2)) by lia. by rewrite orb_true_r. }
  assert (restrict R (p1 ++ [x]) = restrict R p1 ++ [x]) as Hk.
  { rewrite restrict_app. unfold restrict at 2. cbn [List.filter]. by rewrite Hyes. }
  left. assert (exists j1 junk', junk ++ x :: p2 = j1 :: junk' ++ p2) as (j1 & junk' & Hj).
  { destruct junk as [|j junk]; [by exists x, [] |]. exists j, (junk ++ [x]). by rewrite <- app_assoc. }
  rewrite <- app_assoc, Hj, aset_middle by done. res_cbn.
  eexists. split; [reflexivity |]. split; [| cbn; lia].
  exists (p1 ++ [x]), p2, R1, (r :: R2). rewrite <- app_assoc, !zlen_app, Hk, zlen_app.
  split; [done |]. split; [done |]. split; [done |]. split; [done |]. split; [done |].
  split; [exists junk'; by rewrite <- app_assoc |]. split.
  - rewrite <- Hblen, Hbuf, Hj. by rewrite !zlen_app, !zlen_cons.
  - intros q Hq. apply Hout. by right.
Qed.

Lemma restrict_loop :
  exists buffer, loop (restrict_round (flat_ranges R) (zlen R) (zlen ps)) fuel (ps, 0, 0, 0) =
      Ok (buffer, zlen (restrict R ps)) /\
    take (length (restrict R ps)) buffer = restrict R ps /\ zlen buffer = zlen ps.
Proof using All.
  loop_with restrict_inv
    (fun r : list Z * Z => r.2 = zlen (restrict R ps) /\
       take (length (restrict R ps)) r.1 = restrict R ps /\ zlen r.1 = zlen ps)
    (fun st : list Z * Z * Z * Z => zlen ps + zlen R - (st.1.1.2 + st.1.2)) r E Hr.
  - intros st Hst. split.
    + destruct st as [[[b bp] rp] ip]. destruct Hst as (p1 & p2 & R1 & R2 & -> & -> & -> & -> & _).
      cbn. rewrite !zlen_app. pose proof (zlen_nonneg p2). pose proof (zlen_nonneg R2). lia.
    + destruct (restrict_round_ok st Hst) as [(st' & E & Hst' & Hm) | (b & E & Ht & Hl)].
      * left. exists st'. split; [done |]. split; [done |]. lia.
      * right. exists (b, zlen (restrict R ps)). done.
  - exists [], ps, [], R. split; [done |]. split; [done |]. split; [done |]. split; [done |].
    split; [done |]. split; [by exists [] |]. done.
  - rewrite fuel_val. cbn. lia.
  - destruct r as [b n]. cbn [fst snd] in Hr. destruct Hr as (-> & Ht & Hl). eauto.
Qed.
End Restrict.

(** ** Restricting while decoding *)

(** What a call with this restrictor list keeps: an empty list is no restriction. *)
Definition kept (restrictor : option (list (Z * Z))) (ps : list Z) : list Z :=
  match restrictor with
  | Some (r :: R) => restrict (r :: R) ps
  | _ => ps
  end.

Definition flat_restrictor (restrictor : option (list (Z * Z))) : option (list Z) := flat_ranges <$> restrictor.
Definition restrictor_size (restrictor : option (list (Z * Z))) : Z :=
  match restrictor with Some R => zlen R | None => 0 end.

(** Corpus positions as bounds, in the order of the starts. *)
Definition restrictor_ok (restrictor : option (list (Z * Z))) : Prop :=
  match restrictor with
  | Some R => ranges_sorted R /\ zlen R <= INT_MAX /\
      Forall (fun r => 0 <= r.1 <= INT_MAX /\ 0 <= r.2 <= INT_MAX) R
  | None => True
  end.

Lemma kept_length restrictor ps : (length (kept restrictor ps) <= length ps)%nat.
Proof.
  destruct restrictor as [[|r R]|]; cbn [kept]; try lia.
  unfold restrict. apply List.filter_length_le.
Qed.

(** The bits of ascending positions as Golomb-coded gaps. *)
Fixpoint gap_bits (b last : Z) (ps : list Z) : list bool :=
  match ps with [] => [] | p :: ps => golomb_bits b (p - last) ++ gap_bits b p ps end.

Lemma gap_bits_app b last ps qs x :
  gap_bits b last (ps ++ x :: qs) = gap_bits b last (ps ++ [x]) ++ gap_bits b x qs.
Proof.
  revert last. induction ps as [|p ps IH]; intros last; cbn [app gap_bits].
  - by rewrite app_nil_r.
  - by rewrite IH, app_assoc.
Qed.

Section Skip.
Context (R : list (Z * Z)) (x : Z).
Context (HR : Forall (fun r => 0 <= r.1 <= INT_MAX /\ 0 <= r.2 <= INT_MAX) R).
Context (Hlen : zlen R <= INT_MAX) (Hx : 0 <= x <= INT_MAX).

(** [res_ptr] stops at the first range that does not end before [x]. *)
Lemma skip_loop R1 R2 :
  R = R1 ++ R2 -> (forall y, x <= y -> in_ranges R1 y = false) ->
  exists R1' R2', loop (skip_round (flat_ranges R) (zlen R) x) fuel (zlen R1) = Ok (zlen R1') /\
    R = R1' ++ R2' /\ (forall y, x <= y -> in_ranges R1' y = false) /\
    (forall r R', R2' = r :: R' -> x <= r.2).
Proof using All.
  intros HRe Hout.
  loop_with
    (fun rp => exists A B, R = A ++ B /\ rp = zlen A /\ (forall y, x <= y -> in_ranges A y = false))
    (fun rp => exists A B, R = A ++ B /\ rp = zlen A /\ (forall y, x <= y -> in_ranges A y = false) /\
       (forall r R', B = r :: R' -> x <= r.2))
    (fun rp => zlen R - rp) rp E Hr.
  - intros rp (A & B & HAB & -> & HA). split.
    { rewrite HAB, zlen_app. pose proof (zlen_nonneg B). lia. }
    unfold skip_round. rewrite u32_small by (pose proof (zlen_nonneg R); unfold INT_MAX in *; lia).
    assert (zlen R = zlen A + zlen B) as Hz by (rewrite HAB; apply zlen_app).
    destruct B as [|r B].
    + right. rewrite (proj2 (Z.ltb_ge _ _)) by (rewrite zlen_nil in Hz; lia).
      eexists. split; [reflexivity |]. exists A, []. done.
    + rewrite zlen_cons in Hz. pose proof (zlen_nonneg B).
      rewrite (proj2 (Z.ltb_lt _ _)) by lia.
      assert (R !! length A = Some r) as Hl by (rewrite HAB; apply list_lookup_middle; done).
      destruct (flat_ranges_lookup R (length A) r Hl) as [_ He]. fold (zlen A) in He.
      rewrite He. res_cbn. pose proof (Forall_lookup_1 _ _ _ _ HR Hl) as [_ Hr2]. cbn in Hr2.
      rewrite u32_small by (unfold INT_MAX in *; lia).
      destruct (Z.ltb_spec r.2 x) as [Hlt|Hge].
      * left. eexists. split; [reflexivity |]. split; [| lia].
        exists (A ++ [r]), B. rewrite <- app_assoc, zlen_app. split; [done |]. split; [done |].
        intros y Hy. rewrite in_ranges_app, HA by done. cbn. unfold in_range.
        rewrite (proj2 (Z.leb_gt y r.2)) by lia. by rewrite andb_false_r.
      * right. eexists. split; [reflexivity |]. exists A, (r :: B).
        split; [done |]. split; [done |]. split; [done |]. by intros ? ? [= <- <-].
  - exists R1, R2. done.
  - rewrite fuel_val. pose proof (zlen_nonneg R1). unfold INT_MAX in Hlen. lia.
  - destruct Hr as (A & B & H1 & -> & H2 & H3). exists A, B. done.
Qed.
End Skip.

(** Whether the item at [x] is kept, as the code decides it. *)
Lemma restrict_step x R1 R2 r R :
  restrictor_ok (Some (r :: R)) -> r :: R = R1 ++ R2 -> 0 <= x <= INT_MAX ->
  (forall y, x <= y -> in_ranges R1 y = false) ->
  exists R1' R2', loop (skip_round (flat_ranges (r :: R)) (zlen (r :: R)) x) fuel (zlen R1) = Ok (zlen R1') /\
    r :: R = R1' ++ R2' /\ (forall y, x <= y -> in_ranges R1' y = false) /\
    (forall (A : Type) (yes no : res A),
      (if zlen R1' <? u32 (zlen (r :: R)) then
         s ← aget (flat_ranges (r :: R)) (zlen R1' * 2);
         e ← aget (flat_ranges (r :: R)) (zlen R1' * 2 + 1);
         if (u32 s <=? x) && (x <=? u32 e) then yes else no
       else no) = if in_ranges (r :: R) x then yes else no).
Proof.
  intros Hres HRe Hx Hout. destruct Hres as (Hsrt & HlR & Hbd).
  destruct (skip_loop (r :: R) x Hbd HlR Hx R1 R2 HRe Hout) as (A & B & -> & HAB & HA & HB).
  exists A, B. split; [done |]. split; [done |]. split; [done |]. intros T yes no.
  rewrite u32_small by (pose proof (zlen_nonneg (r :: R)); unfold INT_MAX in *; lia).
  assert (zlen (r :: R) = zlen A + zlen B) as Hz by (rewrite HAB; apply zlen_app).
  assert (in_ranges (r :: R) x = in_ranges B x) as ->
    by (rewrite HAB, in_ranges_app, (HA x) by lia; done).
  destruct B as [|q B].
  - rewrite (proj2 (Z.ltb_ge _ _)) by (rewrite zlen_nil in Hz; lia). done.
  - rewrite (zlen_cons q) in Hz. pose proof (zlen_nonneg B). rewrite (proj2 (Z.ltb_lt _ _)) by lia.
    assert ((r :: R) !! length A = Some q) as Hl by (rewrite HAB; apply list_lookup_middle; done).
    destruct (flat_ranges_lookup (r :: R) (length A) q Hl) as [Hs He]. fold (zlen A) in Hs, He.
    rewrite Hs. res_cbn. rewrite He. res_cbn.
    pose proof (Forall_lookup_1 _ _ _ _ Hbd Hl) as [Hq1 Hq2]. cbn in Hq1, Hq2.
    rewrite !u32_small by (unfold INT_MAX in *; lia).
    pose proof (HB q B eq_refl) as Hqx. rewrite (proj2 (Z.leb_le x q.2)) by lia. rewrite andb_true_r.
    cbn [in_ranges existsb]. unfold in_range at 1. rewrite (proj2 (Z.leb_le x q.2)) by lia.
    rewrite andb_true_r. destruct (Z.leb_spec q.1 x) as [|Hlt]; [done |]. cbn [orb].
    unfold ranges_sorted in Hsrt. rewrite HAB in Hsrt. apply StronglySorted_app_1_r in Hsrt.
    apply StronglySorted_inv in Hsrt as [_ Hall].
    fold (in_ranges B x). by rewrite (in_ranges_before B x q.1) by done.
Qed.

Section Decode.
Context (b : Z) (restrictor : option (list (Z * Z))) (ps : list Z) (rest : list bool).
Context (Hb : golomb_param b) (Hres : restrictor_ok restrictor).
Context (Hps : StronglySorted Z.le ps) (Hint : Forall (fun p => 0 <= p <= INT_MAX) ps).

Abbreviation decode_item := (id2cpos_compressed_item b (flat_restrictor restrictor) (restrictor_size restrictor)).

(** After the first [i] items: the stream stands at the next gap, and the
    buffer starts with what is kept of these items. *)
Definition decode_inv (i : Z) (st : BStream * Z * Z * Z * list Z) : Prop :=
  let '(bs, last_pos, ins_ptr, res_ptr, buffer) := st in
  exists p1 p2 R1 R2, ps = p1 ++ p2 /\ i = zlen p1 /\ rd_ok bs /\
    rd_in bs = gap_bits b last_pos p2 ++ rest /\
    0 <= last_pos /\ (forall x, x ∈ p2 -> last_pos <= x) /\
    ins_ptr = zlen (kept restrictor p1) /\
    (exists junk, buffer = kept restrictor p1 ++ junk) /\ zlen buffer = zlen ps /\
    default [] restrictor = R1 ++ R2 /\ res_ptr = zlen R1 /\
    (forall x, last_pos <= x -> in_ranges R1 x = false).

(** Storing an item behind the kept ones. *)
Lemma store_kept (l buffer : list Z) y :
  (exists junk, buffer = l ++ junk) -> zlen l < zlen buffer ->
  exists buffer', aset buffer (zlen l) y = Ok buffer' /\ zlen buffer' = zlen buffer /\
    exists junk, buffer' = (l ++ [y]) ++ junk.
Proof using.
  intros [junk ->] Hlt. rewrite zlen_app in Hlt. destruct junk as [|j junk]; [rewrite zlen_nil in Hlt; lia |].
  rewrite aset_middle by done. eexists. split; [reflexivity |]. rewrite !zlen_app, !zlen_cons.
  split; [done |]. exists junk. by rewrite <- app_assoc.
Qed.

Lemma kept_snoc p1 x :
  kept restrictor (p1 ++ [x]) =
    match restrictor with
    | Some (r :: R) => if in_ranges (r :: R) x then kept restrictor p1 ++ [x] else kept restrictor p1
    | _ => kept restrictor p1 ++ [x]
    end.
Proof using.
  clear Hb Hres Hps Hint. destruct restrictor as [[|r R]|]; cbn [kept]; try done.
  rewrite restrict_app. unfold restrict at 2. cbn [List.filter].
  destruct (in_ranges (r :: R) x); [done | by rewrite app_nil_r].
Qed.

Lemma kept_room p1 x p2 : ps = p1 ++ x :: p2 -> zlen (kept restrictor p1) < zlen ps.
Proof using.
  intros Hp. pose proof (kept_length restrictor p1). unfold zlen. rewrite Hp, length_app. simpl. lia.
Qed.

Lemma decode_step i st :
  decode_inv i st -> i < zlen ps -> exists st', decode_item st = Ok st' /\ decode_inv (i + 1) st'.
Proof using Hb Hres Hps Hint.
  destruct st as [[[[bs last] ip] rp] buffer].
  intros (p1 & p2 & R1 & R2 & Hp & -> & Hok & Hin & Hl0 & Hlast & -> & Hbuf & Hbl & HRe & -> & Hout) Hi.
  destruct p2 as [|x p2]; [rewrite Hp, app_nil_r in Hi; lia |].
  assert (0 <= x <= INT_MAX) as Hx.
  { rewrite Hp in Hint. apply Forall_app in Hint as [_ H]. by inversion H. }
  assert (last <= x) as Hlx by (apply Hlast; left).
  assert (forall y, y ∈ p2 -> x <= y) as Hnext.
  { rewrite Hp in Hps. apply StronglySorted_app_1_r, StronglySorted_inv in Hps as [_ H].
    intros y Hy. rewrite Forall_forall in H. by apply H. }
  cbn [gap_bits] in Hin. rewrite <- app_assoc in Hin.
  destruct (read_golomb_ok b (x - last) _ bs Hb ltac:(lia) Hok Hin) as (bs' & E & Hin' & Hok' & Hmid').
  unfold id2cpos_compressed_item. unfold read_golomb_code_bs.
  change BSread with (rd_bits (S := BStream)). rewrite E. res_cbn.
  rewrite (u32_small (x - last)) by (unfold INT_MAX in *; lia).
  replace (last + (x - last)) with x by lia. rewrite (u32_small x) by (unfold INT_MAX in *; lia).
  assert (s32 x = x) as Hs32.
  { rewrite <- (u32_small x) at 1 by (unfold INT_MAX in *; lia). apply s32_u32. unfold INT_MIN. lia. }
  assert (forall buffer' R1' R2', zlen buffer' = zlen ps ->
    (exists junk, buffer' = kept restrictor (p1 ++ [x]) ++ junk) ->
    default [] restrictor = R1' ++ R2' -> (forall y, x <= y -> in_ranges R1' y = false) ->
    decode_inv (zlen p1 + 1) (bs', x, zlen (kept restrictor (p1 ++ [x])), zlen R1', buffer')) as Hdone.
  { intros buffer' R1' R2' Hlen' Hj HR' Hout'. exists (p1 ++ [x]), p2, R1', R2'.
    rewrite <- app_assoc, zlen_app. split; [done |]. split; [done |]. split; [done |].
    split; [done |]. split; [lia |]. split; [done |]. done. }
  destruct (store_kept (kept restrictor p1) buffer x Hbuf) as (buffer' & Es & Hbl' & Hj').
  { rewrite Hbl. by eapply kept_room. }
  pose proof (kept_snoc p1 x) as Hsn.
  unfold flat_restrictor, restrictor_size. destruct restrictor as [[|r R]|] eqn:Hrr;
    cbn [fmap option_fmap option_map].
  - change (0 <? zlen []) with false. cbv iota. rewrite Hs32, Es. res_cbn.
    eexists. split; [reflexivity |]. rewrite <- (zlen_app (kept _ p1) [x]), <- Hsn.
    apply (Hdone _ R1 R2); [lia | by rewrite Hsn | done |]. intros y Hy. apply Hout. lia.
  - rewrite (proj2 (Z.ltb_lt 0 _)) by (rewrite zlen_cons; pose proof (zlen_nonneg R); lia).
    cbn [default] in HRe.
    destruct (restrict_step x R1 R2 r R Hres HRe Hx) as (A & B & -> & HAB & HA & Hdec).
    { intros y Hy. apply Hout. lia. }
    res_cbn. rewrite Hs32, Hdec. destruct (in_ranges (r :: R) x) eqn:Hir.
    + rewrite Es. res_cbn. eexists. split; [reflexivity |].
      rewrite <- (zlen_app (kept _ p1) [x]), <- Hsn.
      apply (Hdone _ A B); [lia | by rewrite Hsn | done | done].
    + eexists. split; [reflexivity |]. rewrite <- Hsn.
      apply (Hdone _ A B); [done | by rewrite Hsn | done | done].
  - rewrite Hs32, Es. res_cbn.
    eexists. split; [reflexivity |]. rewrite <- (zlen_app (kept _ p1) [x]), <- Hsn.
    apply (Hdone _ R1 R2); [lia | by rewrite Hsn | done |]. intros y Hy. apply Hout. lia.
Qed.
End Decode.

(** What the caller gets when [k] is kept of the postings [ps]. *)
Definition cpos_result (k ps : list Z) : option (list Z) * Z :=
  (if (zlen k =? 0) && (0 <? zlen ps) then None else Some k, zlen k).

Lemma reduce_buffer_ok buffer k ps :
  (length k <= length ps)%nat -> zlen buffer = zlen ps -> take (length k) buffer = k ->
  reduce_buffer buffer (zlen k) (zlen ps) = cpos_result k ps.
Proof.
  intros Hle Hbl Ht. unfold reduce_buffer, cpos_result.
  destruct (Z.ltb_spec (zlen k) (zlen ps)) as [Hlt|Hge].
  - destruct (Z.eqb_spec (zlen k) 0) as [E|E].
    + by rewrite (proj2 (Z.ltb_lt 0 _)) by lia.
    + cbn [andb]. do 2 f_equal. unfold zlen. by rewrite Nat2Z.id.
  - assert (length k = length ps) as Hl by (unfold zlen in *; lia).
    assert (buffer = k) as ->.
    { transitivity (take (length k) buffer); [| exact Ht].
      rewrite take_ge; [done |]. unfold zlen in Hbl. lia. }
    assert (zlen k = zlen ps) as Hz by (unfold zlen; lia). rewrite Hz.
    destruct (Z.eqb_spec (zlen ps) 0) as [E|E]; [| done].
    by rewrite (proj2 (Z.ltb_ge 0 _)) by lia.
Qed.

Section IndexFiles.
Context (be : bool) (pa : Z -> Z -> Z).

Lemma nget_ints_ok pre mid post :
  Forall (fun v => INT_MIN <= v <= INT_MAX) mid ->
  nget_ints be (ints_be (pre ++ mid ++ post)) (zlen pre) (length mid) = Ok mid.
Proof.
  intros Hm. revert pre. induction Hm as [|v mid Hv Hm IH]; intros pre; [done |].
  cbn [length nget_ints]. rewrite <- (app_nil_r (ints_be _)).
  unfold zlen. rewrite (nget_int_ints_be be _ [] (length pre) v); [| cbn [app]; by apply list_lookup_middle | done].
  res_cbn. rewrite app_nil_r. specialize (IH (pre ++ [v])).
  rewrite <- app_assoc, zlen_app in IH. cbn [app] in IH |- *.
  change (Z.of_nat (length pre) + 1) with (zlen pre + zlen [v]). by rewrite IH.
Qed.

Lemma id2cpos_plain_ok rx id off pre ps post restrictor :
  nget be rx id = Ok off -> off = zlen pre ->
  StronglySorted Z.le ps -> Forall (fun p => 0 <= p <= INT_MAX) ps -> zlen ps <= INT_MAX ->
  restrictor_ok restrictor ->
  id2cpos_plain be (ints_be (pre ++ ps ++ post)) rx id (zlen ps) (flat_restrictor restrictor)
    (restrictor_size restrictor) = Ok (cpos_result (kept restrictor ps) ps).
Proof.
  intros Ho -> Hs Hi Hl Hr. unfold id2cpos_plain. rewrite Ho. res_cbn.
  replace (Z.to_nat (zlen ps)) with (length ps) by (unfold zlen; lia).
  rewrite nget_ints_ok; cycle 1.
  { eapply Forall_impl; [exact Hi |]. intros p Hp. cbn in Hp. unfold INT_MIN. lia. }
  res_cbn.
  assert (Ok (Some ps, zlen ps) = Ok (cpos_result ps ps) :> res _) as Hall.
  { unfold cpos_result. destruct (Z.eqb_spec (zlen ps) 0) as [E|E]; [| done].
    by rewrite (proj2 (Z.ltb_ge 0 _)) by lia. }
  destruct restrictor as [[|r R]|]; cbn [flat_restrictor fmap option_fmap option_map restrictor_size kept];
    [exact Hall | | exact Hall].
  destruct Hr as (Hsrt & HlR & _).
  rewrite (proj2 (Z.ltb_lt 0 _)) by (rewrite zlen_cons; pose proof (zlen_nonneg R); lia).
  destruct (restrict_loop (r :: R) ps Hsrt Hs) as (buffer & E & Ht & Hbl);
    [unfold INT_MAX in *; lia | unfold INT_MAX in *; lia |].
  rewrite E. res_cbn. cbn [fst snd]. f_equal. apply reduce_buffer_ok; [| done | done].
  apply (kept_length (Some (r :: R)) ps).
Qed.

Lemma id2cpos_compressed_ok rc rx id off ps rest size restrictor :
  nget be rx id = Ok off -> 0 <= off -> zlen rc <= INT_MAX ->
  byte_bits (drop (Z.to_nat off) rc) = gap_bits (compute_ba pa (zlen ps) size) 0 ps ++ rest ->
  compute_ba pa (zlen ps) size <= 2 ^ 30 ->
  StronglySorted Z.le ps -> Forall (fun p => 0 <= p <= INT_MAX) ps ->
  restrictor_ok restrictor ->
  id2cpos_compressed be pa rc rx id (zlen ps) size (flat_restrictor restrictor)
    (restrictor_size restrictor) = Ok (cpos_result (kept restrictor ps) ps).
Proof.
  intros Ho Hoff Hrc Hbits Hb Hs Hi Hr. unfold id2cpos_compressed. rewrite Ho. res_cbn.
  set (b := compute_ba pa (zlen ps) size) in *.
  assert (golomb_param b) as Hp by (split; [apply compute_ba_ge_2 | done]).
  unfold BSopen. change (is_mode (mode _)) with true. res_cbn. cbn [BSseek snd handle mode].
  set (bs := mkBit _ _ _ _ _).
  assert (rd_in bs = gap_bits b 0 ps ++ rest) as Hin.
  { cbn. unfold in_bits. cbn. by rewrite (proj2 (Z.leb_le 0 off)) by done. }
  assert (rd_ok bs) as Hok.
  { cbn. split; [unfold readable; cbn; split; [done | split; [lia | done]] |].
    change (in_bits BS_rest bs) with (rd_in bs). rewrite Hin, <- Hbits, length_byte_bits, length_drop.
    unfold zlen, INT_MAX in Hrc. lia. }
  for_up_with (decode_inv b restrictor ps rest) st E Hst.
  - apply zlen_nonneg.
  - intros i st Hi' Hinv. apply decode_step; try done. lia.
  - exists [], ps, [], (default [] restrictor). split; [done |]. split; [done |]. split; [done |].
    split; [done |]. split; [done |]. split.
    { intros x Hx. rewrite Forall_forall in Hi. by apply Hi. }
    split; [by destruct restrictor as [[|]|] |].
    split; [exists (replicate (Z.to_nat (zlen ps)) 0); by destruct restrictor as [[|]|] |].
    split; [rewrite zlen_replicate; unfold zlen; lia |]. split; [done |]. split; done.
  - destruct st as [[[[bs' last] ip] rp] buffer].
    destruct Hst as (p1 & p2 & R1 & R2 & Hps & Hlen & Hok' & Hin' & _ & _ & -> & [junk Hbuf] & Hbl & _ & _ & _).
    assert (p2 = []) as ->.
    { rewrite Hps, zlen_app in Hlen. destruct p2; [done |]. rewrite zlen_cons in Hlen.
      pose proof (zlen_nonneg p2). lia. }
    rewrite app_nil_r in Hps. subst p1. unfold BSclose.
    destruct Hok' as [[Hm _] _]. rewrite Hm. change (Ascii.eqb "r" "w") with false. cbv iota. res_cbn. f_equal. apply reduce_buffer_ok; [apply kept_length | done |].
    by rewrite Hbuf, take_app_length.
Qed.
End IndexFiles.

(** ** The indexed attribute *)
Section Indexed.
Context (be : bool) (disk : gmap string (list Z)) (pa : Z -> Z -> Z).

(** [cl_max_cpos] will answer [n]: from the plain corpus, or from the
    descriptor block of a compressed one. *)
Inductive has_corpus_size (a : Attribute) (n : Z) : Prop :=
| size_plain d : sequence_compressed disk a = false -> avail disk a CompCorpus = Some d ->
    nr_ints d = n -> has_corpus_size a n
| size_huffman h : hc a = Some h -> hcd_length h = n ->
    component_state disk a CompHuffCodes = ComponentLoaded -> has_corpus_size a n.

(** Loads that leave the components of the plain index alone. *)
Definition loads_fwd (a a' : Attribute) : Prop :=
  loads disk a a' /\
  component_state disk a' CompRevCorpus = component_state disk a CompRevCorpus /\
  component_state disk a' CompRevCorpusIdx = component_state disk a CompRevCorpusIdx.

#[export] Instance loads_fwd_refl : Reflexive loads_fwd.
Proof. by intros a. Qed.

#[export] Instance loads_fwd_trans : Transitive loads_fwd.
Proof. intros a b c (L1 & R1 & X1) (L2 & R2 & X2). split; [by transitivity b |]. by rewrite R2, X2. Qed.

Lemma sequence_plain_loads a a' :
  loads disk a a' -> sequence_compressed disk a = false -> sequence_compressed disk a' = false.
Proof.
  intros L. unfold sequence_compressed. rewrite (loads_hc _ _ _ L).
  destruct (hc a); [done |]. destruct (decide _) as [Hl|_].
  { intros _. by rewrite decide_True by by apply (loads_loaded _ _ _ L). }
  destruct (decide _); [done |].
  assert (forall cid, is_accessible (component_state disk a' cid) =
                      is_accessible (component_state disk a cid)) as Hacc.
  { intros cid. apply eq_bool_prop_intro. split; intros H; apply Is_true_true in H; apply Is_true_true;
      apply is_accessible_avail; apply is_accessible_avail in H; by rewrite (loads_avail _ _ _ L) in *. }
  by rewrite !Hacc.
Qed.

Lemma has_corpus_size_loads a a' n : loads disk a a' -> has_corpus_size a n -> has_corpus_size a' n.
Proof.
  intros L [d Hs Ha Hn|h Hh Hn Hl].
  - apply (size_plain _ _ d); [by eapply sequence_plain_loads | by rewrite (loads_avail _ _ _ L) | done].
  - apply (size_huffman _ _ h); [by rewrite (loads_hc _ _ _ L) | done | by apply (loads_loaded _ _ _ L)].
Qed.

Lemma index_compressed_fwd a a' : loads_fwd a a' -> index_compressed disk a' = index_compressed disk a.
Proof.
  intros (L & HR & HX). unfold index_compressed. rewrite HR, HX.
  destruct (decide _); [done |].
  assert (forall cid, is_accessible (component_state disk a' cid) =
                      is_accessible (component_state disk a cid)) as Hacc.
  { intros cid. apply eq_bool_prop_intro. split; intros H; apply Is_true_true in H; apply Is_true_true;
      apply is_accessible_avail; apply is_accessible_avail in H; by rewrite (loads_avail _ _ _ L) in *. }
  by rewrite !Hacc.
Qed.

(** Ensuring a component outside the plain index. *)
Lemma ensure_fwd a e cid d :
  cid <> CompDirectory -> cid <> CompHuffCodes -> cid <> CompRevCorpus -> cid <> CompRevCorpusIdx ->
  avail disk a cid = Some d -> wf_attribute disk a ->
  exists comp a', ensure be disk cid (mkCL (Some a) e) = Ok (Some comp, mkCL (Some a') e) /\
    comp_bytes comp = Ok d /\ comp_size comp = nr_ints d /\ loads_fwd a a'.
Proof.
  intros H1 H2 H3 H4 Ha W.
  destruct (ensure_ok be disk a e cid d H1 H2 Ha W) as (c & a' & E & Hd & Hs & L & _ & Ho).
  exists c, a'. split; [done |]. split; [unfold comp_bytes; by rewrite Hd |]. split; [done |].
  split; [done |]. by rewrite !Ho.
Qed.

Lemma cl_max_cpos_ok a e n :
  type a = ATT_POS -> wf_attribute disk a -> has_corpus_size a n ->
  exists a', cl_max_cpos be disk (mkCL (Some a) e) = Ok (n, mkCL (Some a') CDA_OK) /\ loads_fwd a a'.
Proof.
  intros T W Hsz. unfold cl_max_cpos. rewrite check_arg_ok by done.
  assert (cl_sequence_compressed disk (mkCL (Some a) e) =
    Ok (if sequence_compressed disk a then 1 else 0, mkCL (Some a) e)) as Ec.
  { unfold cl_sequence_compressed. rewrite check_arg_ok by done. by cda. }
  cda_call Ec. destruct Hsz as [d Hs Ha Hn|h Hh Hn Hl].
  - rewrite Hs. change (0 =? 1) with false. cbv iota.
    destruct (ensure_fwd a e CompCorpus d) as (c & a' & E & _ & Hsize & L); try done.
    cda_call E. exists a'. split; [| done]. by rewrite Hsize, Hn.
  - unfold sequence_compressed. rewrite Hh. change (1 =? 1) with true. cbv iota.
    destruct (loaded_component disk a CompHuffCodes Hl) as [c Hc].
    assert (ensure be disk CompHuffCodes (mkCL (Some a) e) = Ok (Some c, mkCL (Some a) e)) as E.
    { unfold ensure. cda. assert (ensure_component be disk a CompHuffCodes false = Ok (Some c, a)) as Ee.
      { unfold ensure_component. rewrite Hc. unfold component_state in Hl. rewrite Hc in Hl. by rewrite Hl. }
      cda_lift Ee. done. }
    cda_call E. rewrite Hh. exists a. split; [by cda; rewrite Hn | done].
Qed.

(** An attribute of [n] tokens with the postings [Ps]. *)
Record has_postings (a : Attribute) (n : Z) (Ps : list (list Z)) : Prop := {
  ix_type : type a = ATT_POS;
  ix_wf : wf_attribute disk a;
  ix_size : has_corpus_size a n;
  ix_pos : 0 < n <= INT_MAX;
  ix_range : 0 < zlen Ps <= INT_MAX;
  ix_lex : exists d, avail disk a CompLexiconIdx = Some d /\ nr_ints d = zlen Ps;
  ix_freqs : avail disk a CompCorpusFreqs = Some (ints_be (zlen <$> Ps));
  ix_sorted : Forall (fun ps => StronglySorted Z.lt ps /\ Forall (fun p => 0 <= p < n) ps) Ps
}.

(** The plain index: the postings one after the other, and where each list starts. *)
Definition postings_offset (Ps : list (list Z)) (i : nat) : Z := zlen (concat (take i Ps)).

Record has_plain_index (a : Attribute) (Ps : list (list Z)) : Prop := {
  plain_flag : index_compressed disk a = false;
  plain_rev : avail disk a CompRevCorpus = Some (ints_be (concat Ps));
  plain_idx : avail disk a CompRevCorpusIdx =
    Some (ints_be (postings_offset Ps <$> seq 0 (length Ps)))
}.

(** The compressed index: for every id the byte offset of its Golomb-coded gaps. *)
Record has_compressed_index (a : Attribute) (n : Z) (Ps : list (list Z)) : Prop := {
  crc_flag : index_compressed disk a = true;
  crc_data : exists rc offs, avail disk a CompCompRF = Some rc /\ zlen rc <= INT_MAX /\
    avail disk a CompCompRFX = Some (ints_be offs) /\
    forall i ps, Ps !! i = Some ps ->
      compute_ba pa (zlen ps) n <= 2 ^ 30 /\
      exists off rest, offs !! i = Some off /\ 0 <= off <= INT_MAX /\
        byte_bits (drop (Z.to_nat off) rc) = gap_bits (compute_ba pa (zlen ps) n) 0 ps ++ rest
}.

Definition has_index (a : Attribute) (n : Z) (Ps : list (list Z)) : Prop :=
  has_postings a n Ps /\ (has_plain_index a Ps \/ has_compressed_index a n Ps).

Lemma has_postings_loads a a' n Ps : loads disk a a' -> has_postings a n Ps -> has_postings a' n Ps.
Proof.
  intros L [T W Sz Hp Hr Hl Hf Hs]. split; try done.
  - by rewrite (loads_type _ _ _ L).
  - by apply (loads_wf _ _ _ L).
  - by eapply has_corpus_size_loads.
  - by rewrite (loads_avail _ _ _ L).
  - by rewrite (loads_avail _ _ _ L).
Qed.

Lemma has_index_fwd a a' n Ps : loads_fwd a a' -> has_index a n Ps -> has_index a' n Ps.
Proof.
  intros Lf [Hp Hi]. pose proof Lf as (L & _). split; [by eapply has_postings_loads |].
  destruct Hi as [[Fl Rv Ix]|[Fl Dt]]; [left | right]; split.
  - by rewrite (index_compressed_fwd a a').
  - by rewrite (loads_avail _ _ _ L).
  - by rewrite (loads_avail _ _ _ L).
  - by rewrite (index_compressed_fwd a a').
  - destruct Dt as (rc & offs & H1 & H2 & H3 & H4). exists rc, offs. by rewrite !(loads_avail _ _ _ L).
Qed.

Lemma sorted_lt_le ps : StronglySorted Z.lt ps -> StronglySorted Z.le ps.
Proof.
  induction 1 as [|p ps Hs IH Hp]; constructor; [done |].
  eapply Forall_impl; [exact Hp |]. intros; cbn in *; lia.
Qed.

(** Ascending positions below [n] are at most [n]. *)
Lemma sorted_bounded ps lo n :
  StronglySorted Z.lt ps -> Forall (fun p => lo <= p < n) ps -> lo <= n -> zlen ps <= n - lo.
Proof.
  intros Hs. revert lo. induction Hs as [|p ps Hs IH Hp]; intros lo Hb Hlo; [rewrite zlen_nil; lia |].
  inversion_clear Hb as [|? ? Hp0 Hb']. rewrite zlen_cons.
  assert (zlen ps <= n - (p + 1)); [| lia].
  apply IH; [| lia]. rewrite Forall_forall in *. intros q Hq.
  specialize (Hp q Hq). specialize (Hb' q Hq). cbn in *. lia.
Qed.

Lemma index_plain_loads a a' :
  loads disk a a' -> index_compressed disk a = false -> index_compressed disk a' = false.
Proof.
  intros L. unfold index_compressed. destruct (decide _) as [[H1 H2]|_].
  { intros _. by rewrite decide_True by (split; by apply (loads_loaded _ _ _ L)). }
  destruct (decide _); [done |].
  assert (forall cid, is_accessible (component_state disk a' cid) =
                      is_accessible (component_state disk a cid)) as Hacc.
  { intros cid. apply eq_bool_prop_intro. split; intros H; apply Is_true_true in H; apply Is_true_true;
      apply is_accessible_avail; apply is_accessible_avail in H; by rewrite (loads_avail _ _ _ L) in *. }
  by rewrite !Hacc.
Qed.

Lemma has_plain_index_loads a a' Ps : loads disk a a' -> has_plain_index a Ps -> has_plain_index a' Ps.
Proof.
  intros L [Fl Rv Ix]. split; [by eapply index_plain_loads | |]; by rewrite (loads_avail _ _ _ L).
Qed.

Lemma postings_ok a n Ps i ps :
  has_postings a n Ps -> Ps !! i = Some ps ->
  StronglySorted Z.le ps /\ Forall (fun p => 0 <= p <= INT_MAX) ps /\ 0 <= zlen ps <= INT_MAX.
Proof.
  intros HP Hi. pose proof (Forall_lookup_1 _ _ _ _ (ix_sorted _ _ _ HP) Hi) as [Hs Hb]. cbn in Hs, Hb.
  pose proof (ix_pos _ _ _ HP). split; [by apply sorted_lt_le |]. split.
  - eapply Forall_impl; [exact Hb |]. intros p Hp. cbn in Hp. lia.
  - pose proof (sorted_bounded ps 0 n Hs Hb). pose proof (zlen_nonneg ps). lia.
Qed.

Lemma cl_id2freq_ok a e n Ps id :
  has_postings a n Ps ->
  exists a', loads_fwd a a' /\
    cl_id2freq be disk id (mkCL (Some a) e) =
      Ok (match (if id <? 0 then None else Ps !! Z.to_nat id) with
          | Some ps => (zlen ps, mkCL (Some a') CDA_OK)
          | None => (CDA_EIDXORNG, mkCL (Some a') CDA_EIDXORNG)
          end).
Proof.
  intros HP. unfold cl_id2freq. rewrite check_arg_ok by apply HP.
  destruct (ensure_fwd a e CompCorpusFreqs _ ltac:(done) ltac:(done) ltac:(done) ltac:(done)
              (ix_freqs _ _ _ HP) (ix_wf _ _ _ HP)) as (c & a' & E & Hb & Hs & L).
  cda_call E. exists a'. split; [done |]. rewrite Hs, nr_ints_be.
  assert (zlen (zlen <$> Ps) = zlen Ps) as Hz by (unfold zlen; by rewrite length_fmap). rewrite Hz.
  destruct (Z.ltb_spec id 0) as [H0|H0].
  { rewrite (proj2 (Z.leb_gt 0 id)) by lia. cbn [andb]. by cda. }
  rewrite (proj2 (Z.leb_le 0 id)) by lia. cbn [andb].
  destruct (Z.ltb_spec id (zlen Ps)) as [H1|H1]; cycle 1.
  { rewrite lookup_ge_None_2 by (unfold zlen in *; lia). by cda. }
  destruct (lookup_lt_is_Some_2 Ps (Z.to_nat id)) as [ps Hps]; [unfold zlen in *; lia |]. rewrite Hps.
  cda_lift Hb.
  assert (nget_int be (ints_be (zlen <$> Ps)) id = Ok (zlen ps)) as Eg.
  { rewrite <- (Z2Nat.id id) by done. rewrite <- (app_nil_r (ints_be _)).
    apply nget_int_ints_be; [by rewrite list_lookup_fmap, Hps |].
    pose proof (postings_ok a n Ps _ ps HP Hps) as (_ & _ & ?). unfold INT_MIN. lia. }
  cda_lift Eg. by cda.
Qed.

Lemma cl_max_id_ok a e n Ps :
  has_postings a n Ps ->
  exists a', loads_fwd a a' /\ cl_max_id be disk (mkCL (Some a) e) = Ok (zlen Ps, mkCL (Some a') CDA_OK).
Proof.
  intros HP. unfold cl_max_id. rewrite check_arg_ok by apply HP.
  destruct (ix_lex _ _ _ HP) as (d & Hd & Hn).
  destruct (ensure_fwd a e CompLexiconIdx d) as (c & a' & E & _ & Hs & L); try done; [apply HP |].
  cda_call E. exists a'. split; [done |]. by rewrite Hs, Hn.
Qed.

(** The common prefix of [cl_id2cpos_oldstyle] and [cl_new_stream]. *)
Lemma index_prefix a e n Ps :
  has_index a n Ps ->
  exists a1 a2, loads_fwd a a1 /\ loads_fwd a1 a2 /\
    cl_max_cpos be disk (mkCL (Some a) e) = Ok (n, mkCL (Some a1) CDA_OK) /\
    cl_max_id be disk (mkCL (Some a1) CDA_OK) = Ok (zlen Ps, mkCL (Some a2) CDA_OK) /\
    has_index a2 n Ps.
Proof.
  intros HI. destruct (cl_max_cpos_ok a e n) as (a1 & E1 & L1); [apply HI | apply HI | apply HI |].
  pose proof (has_index_fwd a a1 n Ps L1 HI) as HI1.
  destruct (cl_max_id_ok a1 CDA_OK n Ps) as (a2 & L2 & E2); [apply HI1 |].
  exists a1, a2. split; [done |]. split; [done |]. split; [done |]. split; [done |].
  by eapply has_index_fwd.
Qed.

Lemma postings_split (Ps : list (list Z)) i ps :
  Ps !! i = Some ps -> concat Ps = concat (take i Ps) ++ ps ++ concat (drop (S i) Ps).
Proof.
  intros Hi. rewrite <- (take_drop_middle Ps i ps) at 1 by done. by rewrite concat_app.
Qed.

Lemma nget_postings_offset (Ps : list (list Z)) id :
  zlen (concat Ps) <= INT_MAX -> 0 <= id < zlen Ps ->
  nget be (ints_be (postings_offset Ps <$> seq 0 (length Ps))) id = Ok (postings_offset Ps (Z.to_nat id)).
Proof.
  intros Htot Hid. rewrite <- (Z2Nat.id id) at 1 by lia. rewrite <- (app_nil_r (ints_be _)).
  apply nget_nonneg.
  - rewrite list_lookup_fmap, lookup_seq_lt by (unfold zlen in Hid; lia). done.
  - unfold postings_offset. rewrite <- (take_drop (Z.to_nat id) Ps), concat_app, zlen_app in Htot.
    pose proof (zlen_nonneg (concat (drop (Z.to_nat id) Ps))).
    pose proof (zlen_nonneg (concat (take (Z.to_nat id) Ps))). lia.
Qed.

Lemma id2cpos_plain_index a n Ps id ps restrictor :
  has_postings a n Ps -> zlen (concat Ps) <= INT_MAX -> 0 <= id -> Ps !! Z.to_nat id = Some ps ->
  restrictor_ok restrictor ->
  id2cpos_plain be (ints_be (concat Ps)) (ints_be (postings_offset Ps <$> seq 0 (length Ps))) id (zlen ps)
    (flat_restrictor restrictor) (restrictor_size restrictor) = Ok (cpos_result (kept restrictor ps) ps).
Proof.
  intros HP Htot Hid Hps HR. destruct (postings_ok a n Ps _ ps HP Hps) as (Hs & Hb & Hl).
  rewrite (postings_split Ps _ ps Hps).
  apply (id2cpos_plain_ok be _ id (postings_offset Ps (Z.to_nat id))); try done; [| lia].
  apply nget_postings_offset; [done |]. pose proof (lookup_lt_Some _ _ _ Hps). unfold zlen. lia.
Qed.

Lemma id2cpos_compressed_index a n Ps rc offs id ps restrictor :
  has_postings a n Ps -> zlen rc <= INT_MAX ->
  (forall i ps, Ps !! i = Some ps ->
     compute_ba pa (zlen ps) n <= 2 ^ 30 /\
     exists off rest, offs !! i = Some off /\ 0 <= off <= INT_MAX /\
       byte_bits (drop (Z.to_nat off) rc) = gap_bits (compute_ba pa (zlen ps) n) 0 ps ++ rest) ->
  0 <= id -> Ps !! Z.to_nat id = Some ps -> restrictor_ok restrictor ->
  id2cpos_compressed be pa rc (ints_be offs) id (zlen ps) n
    (flat_restrictor restrictor) (restrictor_size restrictor) = Ok (cpos_result (kept restrictor ps) ps).
Proof.
  intros HP Hrc Hdt Hid Hps HR. destruct (postings_ok a n Ps _ ps HP Hps) as (Hs & Hb & Hl).
  destruct (Hdt _ ps Hps) as (Hba & off & rest & Ho & Hoff & Hbits).
  apply (id2cpos_compressed_ok be pa rc _ id off ps rest); try done; [| lia].
  rewrite <- (Z2Nat.id id) by done. rewrite <- (app_nil_r (ints_be _)). by apply nget_nonneg.
Qed.

Lemma cl_id2cpos_ok a e n Ps id freq0 restrictor :
  has_index a n Ps -> zlen (concat Ps) <= INT_MAX -> restrictor_ok restrictor ->
  exists a', has_index a' n Ps /\
    cl_id2cpos_oldstyle be disk pa id freq0 (flat_restrictor restrictor) (restrictor_size restrictor)
        (mkCL (Some a) e) =
      Ok (match (if id <? 0 then None else Ps !! Z.to_nat id) with
          | Some ps => (cpos_result (kept restrictor ps) ps, mkCL (Some a') CDA_OK)
          | None => ((None, 0), mkCL (Some a') CDA_EIDORNG)
          end).
Proof.
  intros HI Htot HR. unfold cl_id2cpos_oldstyle. rewrite check_arg_ok by apply HI.
  destruct (index_prefix a e n Ps HI) as (a1 & a2 & L1 & L2 & E1 & E2 & HI2).
  pose proof (ix_pos _ _ _ (proj1 HI2)) as Hn. pose proof (ix_range _ _ _ (proj1 HI2)) as Hr.
  cda_call E1. change (negb (CDA_OK =? CDA_OK)) with false.
  rewrite (proj2 (Z.leb_gt n 0)) by lia. cbn [orb].
  cda_call E2. change (negb (CDA_OK =? CDA_OK)) with false.
  rewrite (proj2 (Z.leb_gt (zlen Ps) 0)) by lia. cbn [orb].
  destruct (Z.ltb_spec id 0) as [H0|H0]; cbn [orb]; [exists a2; by cda |].
  destruct (Z.leb_spec (zlen Ps) id) as [H1|H1].
  { exists a2. split; [done |]. cda. rewrite lookup_ge_None_2; [done | unfold zlen in *; lia]. }
  destruct (lookup_lt_is_Some_2 Ps (Z.to_nat id)) as [ps Hps]; [unfold zlen in *; lia |]. rewrite Hps.
  destruct (cl_id2freq_ok a2 CDA_OK n Ps id (proj1 HI2)) as (a3 & L3 & E3).
  rewrite (proj2 (Z.ltb_ge id 0)), Hps in E3 by done.
  pose proof (has_index_fwd _ _ _ _ L3 HI2) as HI3.
  destruct (postings_ok a3 n Ps _ ps (proj1 HI3) Hps) as (Hs & Hb & Hl).
  cda_call E3. change (negb (CDA_OK =? CDA_OK)) with false.
  rewrite (proj2 (Z.ltb_ge (zlen ps) 0)) by lia. cbn [orb].
  assert (cl_index_compressed disk (mkCL (Some a3) CDA_OK) =
    Ok (if index_compressed disk a3 then 1 else 0, mkCL (Some a3) CDA_OK)) as E4.
  { unfold cl_index_compressed. rewrite check_arg_ok by apply HI3. by cda. }
  cda_call E4. destruct HI3 as [HP3 [[Fl Rv Ix]|[Fl (rc & offs & Ha1 & Hrc & Ha2 & Hdt)]]]; rewrite Fl.
  - change (negb (0 =? 0)) with false. cbv iota.
    pose proof (ix_wf _ _ _ HP3) as W3.
    destruct (ensure_ok be disk a3 CDA_OK CompRevCorpus _ ltac:(done) ltac:(done) Rv W3)
      as (c4 & a4 & E5 & Hd4 & _ & L4 & _). cda_call E5.
    pose proof (loads_wf _ _ _ L4 W3) as W4. rewrite <- (loads_avail _ _ _ L4) in Ix.
    destruct (ensure_ok be disk a4 CDA_OK CompRevCorpusIdx _ ltac:(done) ltac:(done) Ix W4)
      as (c5 & a5 & E6 & Hd5 & _ & L5 & _). cda_call E6.
    rewrite (bindM_lift _ (ints_be (concat Ps))) by (unfold comp_bytes; by rewrite Hd4).
    rewrite (bindM_lift _ _) by (unfold comp_bytes; by rewrite Hd5).
    assert (loads disk a3 a5) as L35 by by transitivity a4.
    exists a5. split.
    { split; [by eapply has_postings_loads |]. left. apply (has_plain_index_loads a3); [done |].
      split; [done | done |]. by rewrite <- (loads_avail _ _ _ L4). }
    rewrite (bindM_lift _ _ _ _ (id2cpos_plain_index a3 n Ps id ps restrictor HP3 Htot H0 Hps HR)).
    by cda.
  - change (negb (1 =? 0)) with true. cbv iota.
    destruct (ensure_fwd a3 CDA_OK CompCompRF rc) as (c4 & a4 & E5 & Hb4 & _ & L4); try done; [apply HP3 |].
    cda_call E5. rewrite <- (loads_avail _ _ _ (proj1 L4)) in Ha2.
    destruct (ensure_fwd a4 CDA_OK CompCompRFX _ ltac:(done) ltac:(done) ltac:(done) ltac:(done) Ha2)
      as (c5 & a5 & E6 & Hb5 & _ & L5); [apply (loads_wf _ _ _ (proj1 L4)), HP3 |].
    cda_call E6. cda_lift Hb4. cda_lift Hb5.
    rewrite (bindM_lift _ _ _ _ (id2cpos_compressed_index a3 n Ps rc offs id ps restrictor HP3 Hrc Hdt H0 Hps HR)).
    exists a5. split; [| by cda]. apply (has_index_fwd a3); [by transitivity a4 |].
    split; [done |]. right. split; [done |]. exists rc, offs.
    by rewrite <- (loads_avail _ _ _ (proj1 L4) CompCompRFX).
Qed.

(** ** Position streams *)

(** The stream [st] has delivered the first [k] of the positions [ps]. *)
Record stream_at (ps : list Z) (k : nat) (st : PositionStream) : Prop := {
  at_freq : id_freq st = zlen ps;
  at_items : ps_nr_items st = Z.of_nat k;
  at_le : (k <= length ps)%nat;
  at_data :
    if is_compressed st then
      golomb_param (ps_b st) /\ 0 <= ps_last_pos st /\
      (forall x, x ∈ drop k ps -> ps_last_pos st <= x) /\
      rd_ok (ps_bs st) /\ exists rest, rd_in (ps_bs st) = gap_bits (ps_b st) (ps_last_pos st) (drop k ps) ++ rest
    else exists post, ps_base st = Some (ints_be (ps ++ post))
}.

Lemma read_compressed_items b qs bs last rest :
  golomb_param b -> StronglySorted Z.le qs -> Forall (fun p => 0 <= p <= INT_MAX) qs ->
  0 <= last -> (forall x, x ∈ qs -> last <= x) ->
  rd_ok bs -> rd_in bs = gap_bits b last qs ++ rest ->
  exists bs' last', for_up (fun _ => read_stream_item b) 0 (zlen qs) (bs, last, []) = Ok (bs', last', qs) /\
    rd_ok bs' /\ rd_in bs' = rest /\ 0 <= last' /\ (forall x, qs <> [] -> Forall (Z.ge x) qs -> last' <= x) /\
    last' = List.last qs last.
Proof.
  intros Hb Hs Hi Hl0 Hlast Hok Hin.
  for_up_with
    (fun i '(bs', last', out) => exists q2, qs = out ++ q2 /\ i = zlen out /\ rd_ok bs' /\
       rd_in bs' = gap_bits b last' q2 ++ rest /\ 0 <= last' /\ (forall x, x ∈ q2 -> last' <= x) /\
       last' = List.last out last) st E Hst.
  - apply zlen_nonneg.
  - intros i [[bs' last'] out] Hir (q2 & Hq & -> & Hok' & Hin' & Hl' & Hm' & Hlst).
    destruct q2 as [|x q2]; [rewrite Hq, app_nil_r in Hir; lia |].
    assert (0 <= x <= INT_MAX) as Hx.
    { rewrite Hq in Hi. apply Forall_app in Hi as [_ H]. by inversion H. }
    assert (last' <= x) as Hlx by (apply Hm'; left).
    cbn [gap_bits] in Hin'. rewrite <- app_assoc in Hin'.
    destruct (read_golomb_ok b (x - last') _ bs' Hb ltac:(lia) Hok' Hin') as (bs2 & E & Hin2 & Hok2 & Hmid').
    unfold read_stream_item, read_golomb_code_bs. change BSread with (rd_bits (S := BStream)).
    rewrite E. res_cbn. replace (last' + (x - last')) with x by lia.
    rewrite c_int_Ok by (unfold INT_MIN, INT_MAX in *; lia). res_cbn.
    eexists. split; [reflexivity |]. exists q2. rewrite <- app_assoc, zlen_app.
    split; [done |]. split; [done |]. split; [done |]. split; [done |]. split; [lia |]. split.
    + rewrite Hq in Hs. apply StronglySorted_app_1_r, StronglySorted_inv in Hs as [_ H].
      intros y Hy. rewrite Forall_forall in H. by apply H.
    + by rewrite last_last.
  - exists qs. done.
  - destruct st as [[bs' last'] out]. destruct Hst as (q2 & Hq & Hlen & Hok' & Hin' & Hl' & Hm' & Hlst).
    assert (q2 = []) as ->.
    { rewrite Hq, zlen_app in Hlen. destruct q2; [done |]. rewrite zlen_cons in Hlen.
      pose proof (zlen_nonneg q2). lia. }
    rewrite app_nil_r in Hq. subst out. exists bs', last'. split; [done |]. split; [done |].
    split; [done |]. split; [done |]. split; [| done].
    intros x Hne Hall. rewrite Hlst. rewrite Forall_forall in Hall.
    assert (List.last qs last ∈ qs) as Hel.
    { destruct qs as [|q qs]; [done |]. rewrite (app_removelast_last last Hne) at 2.
      apply elem_of_app. right. by left. }
    specialize (Hall _ Hel). lia.
Qed.

(** Reading up to [m] items. *)
Lemma cl_read_stream_ok ps k st m :
  StronglySorted Z.le ps -> Forall (fun p => 0 <= p <= INT_MAX) ps -> zlen ps <= INT_MAX ->
  stream_at ps k st -> Z.of_nat k + Z.of_nat m <= INT_MAX ->
  exists st', cl_read_stream be st (Z.of_nat m) =
      Ok (zlen (take m (drop k ps)), take m (drop k ps), st') /\
    stream_at ps (min (k + m) (length ps)) st'.
Proof.
  intros Hs Hi Hl [Hf Hn Hle Hd] Hm. unfold cl_read_stream. rewrite Hf, Hn.
  assert (zlen (take m (drop k ps)) = Z.min (Z.of_nat m) (zlen ps - Z.of_nat k)) as Hz.
  { unfold zlen. rewrite length_take, length_drop. lia. }
  destruct (Z.leb_spec (zlen ps) (Z.of_nat k)) as [Hend|Hmore].
  { rewrite drop_ge by (unfold zlen in Hend; lia). rewrite take_nil. exists st. split; [done |].
    replace (min (k + m) (length ps)) with k by (unfold zlen in Hend; lia). by split. }
  rewrite c_int_Ok by (unfold INT_MIN, INT_MAX in *; lia). res_cbn.
  assert ((if zlen ps <? Z.of_nat k + Z.of_nat m then zlen ps - Z.of_nat k else Z.of_nat m) =
          zlen (take m (drop k ps))) as -> by (case_Z; lia).
  rewrite (proj2 (Z.leb_le 0 _)) by apply zlen_nonneg. res_cbn.
  set (qs := take m (drop k ps)) in *.
  assert (min (k + m) (length ps) = k + length qs)%nat as Hk'.
  { unfold qs. rewrite length_take, length_drop. unfold zlen in Hmore. lia. }
  assert (drop k ps = qs ++ drop (k + length qs) ps) as Hsplit.
  { rewrite <- (take_drop m (drop k ps)) at 1. fold qs. f_equal. rewrite drop_drop.
    destruct (decide (m <= length ps - k)%nat) as [Hc|Hc].
    - do 2 f_equal. unfold qs. rewrite length_take, length_drop. lia.
    - rewrite !drop_ge; [done | unfold qs; rewrite length_take, length_drop; lia | lia]. }
  rewrite Hk'. destruct (Z.eqb_spec (zlen qs) 0) as [E0|E0].
  { assert (qs = []) as -> by (apply length_zero_iff_nil; unfold zlen in E0; lia).
    exists st. split; [done |]. cbn [length]. rewrite Nat.add_0_r. by split. }
  assert (qs <> []) as Hqne by (intros Hq; by rewrite Hq in E0).
  assert (k + length qs <= length ps)%nat as Hle' by lia.
  pose proof (take_drop k ps) as Hps. rewrite Hsplit in Hps.
  destruct (is_compressed st) eqn:Hc.
  - destruct Hd as (Hb & Hl0 & Hlast & Hok & rest & Hin).
    assert (Forall (fun p => 0 <= p <= INT_MAX) qs) as Hiq.
    { rewrite <- Hps in Hi. apply Forall_app in Hi as [_ Hi]. by apply Forall_app in Hi as [Hi _]. }
    assert (StronglySorted Z.le (qs ++ drop (k + length qs) ps)) as Hsq.
    { rewrite <- Hps in Hs. by apply StronglySorted_app_1_r in Hs. }
    rewrite Hsplit in Hin, Hlast.
    assert (exists rest', gap_bits (ps_b st) (ps_last_pos st) (qs ++ drop (k + length qs) ps) ++ rest =
      gap_bits (ps_b st) (ps_last_pos st) qs ++ rest' /\
      rest' = gap_bits (ps_b st) (List.last qs (ps_last_pos st)) (drop (k + length qs) ps) ++ rest)
      as (rest' & Hg & Hrest').
    { eexists. split; [| reflexivity]. rewrite app_assoc. f_equal.
      rewrite (app_removelast_last (ps_last_pos st) Hqne) at 1. rewrite <- app_assoc. cbn [app].
      rewrite gap_bits_app. by rewrite <- app_removelast_last. }
    destruct (read_compressed_items (ps_b st) qs (ps_bs st) (ps_last_pos st) rest')
      as (bs' & last' & E & Hok' & Hin' & Hl' & _ & Hlst); try done.
    { by apply StronglySorted_app_1_l in Hsq. }
    { intros x Hx. apply Hlast. apply elem_of_app. by left. }
    { by rewrite Hin, Hg. }
    rewrite E. res_cbn. eexists. split; [reflexivity |]. split; cbn; [done | unfold zlen; lia | done |].
    split; [done |]. split; [done |]. split.
    + intros x Hx. rewrite Hlst.
      revert Hx Hsq. generalize (drop (k + length qs) ps). intros tl Hx Hsq.
      rewrite (app_removelast_last (ps_last_pos st) Hqne), <- app_assoc in Hsq.
      apply StronglySorted_app_1_r in Hsq. cbn [app] in Hsq.
      apply StronglySorted_inv in Hsq as [_ Hall]. rewrite Forall_forall in Hall. by apply Hall.
    + split; [done |]. exists rest. eapply eq_trans; [exact Hin' |]. by rewrite Hrest', Hlst.
  - destruct Hd as [post Hbase]. rewrite Hbase. res_cbn.
    assert (nget_ints be (ints_be (ps ++ post)) (Z.of_nat k) (Z.to_nat (zlen qs)) = Ok qs) as ->.
    { replace (Z.to_nat (zlen qs)) with (length qs) by (unfold zlen; lia).
      replace (Z.of_nat k) with (zlen (take k ps)) by (unfold zlen; rewrite length_take; lia).
      rewrite <- Hps at 1. rewrite <- !app_assoc. apply nget_ints_ok.
      rewrite <- Hps in Hi. apply Forall_app in Hi as [_ Hi]. apply Forall_app in Hi as [Hi _].
      eapply Forall_impl; [exact Hi |]. intros p Hp. cbn in Hp. unfold INT_MIN. lia. }
    res_cbn. eexists. split; [reflexivity |].
    split; cbn; [done | unfold zlen; lia | done | by exists post].
Qed.

Lemma cl_new_stream_ok a e n Ps id ps :
  has_index a n Ps -> zlen (concat Ps) <= INT_MAX -> 0 <= id -> Ps !! Z.to_nat id = Some ps ->
  exists a' st, has_index a' n Ps /\
    cl_new_stream be disk pa id (mkCL (Some a) e) = Ok (Some st, mkCL (Some a') CDA_OK) /\
    stream_at ps 0 st.
Proof.
  intros HI Htot H0 Hps. unfold cl_new_stream. rewrite check_arg_ok by apply HI.
  destruct (index_prefix a e n Ps HI) as (a1 & a2 & L1 & L2 & E1 & E2 & HI2).
  pose proof (ix_pos _ _ _ (proj1 HI2)) as Hn. pose proof (ix_range _ _ _ (proj1 HI2)) as Hr.
  pose proof (lookup_lt_Some _ _ _ Hps) as Hid.
  cda_call E1. change (negb (CDA_OK =? CDA_OK)) with false.
  rewrite (proj2 (Z.leb_gt n 0)) by lia. cbn [orb].
  cda_call E2. change (negb (CDA_OK =? CDA_OK)) with false.
  rewrite (proj2 (Z.leb_gt (zlen Ps) 0)) by lia. cbn [orb].
  rewrite (proj2 (Z.ltb_ge id 0)), (proj2 (Z.leb_gt (zlen Ps) id)) by (done || unfold zlen; lia).
  cbn [orb].
  destruct (cl_id2freq_ok a2 CDA_OK n Ps id (proj1 HI2)) as (a3 & L3 & E3).
  rewrite (proj2 (Z.ltb_ge id 0)), Hps in E3 by done.
  pose proof (has_index_fwd _ _ _ _ L3 HI2) as HI3.
  destruct (postings_ok a3 n Ps _ ps (proj1 HI3) Hps) as (Hs & Hb & Hl).
  cda_call E3. change (negb (CDA_OK =? CDA_OK)) with false.
  rewrite (proj2 (Z.ltb_ge (zlen ps) 0)) by lia. cbn [orb].
  assert (cl_index_compressed disk (mkCL (Some a3) CDA_OK) =
    Ok (if index_compressed disk a3 then 1 else 0, mkCL (Some a3) CDA_OK)) as E4.
  { unfold cl_index_compressed. rewrite check_arg_ok by apply HI3. by cda. }
  cda_call E4. destruct HI3 as [HP3 [[Fl Rv Ix]|[Fl (rc & offs & Ha1 & Hrc & Ha2 & Hdt)]]]; rewrite Fl.
  - change (negb (0 =? 0)) with false. cbv iota. pose proof (ix_wf _ _ _ HP3) as W3.
    destruct (ensure_ok be disk a3 CDA_OK CompRevCorpus _ ltac:(done) ltac:(done) Rv W3)
      as (c4 & a4 & E5 & Hd4 & _ & L4 & _). cda_call E5.
    pose proof (loads_wf _ _ _ L4 W3) as W4. pose proof Ix as Ix4. rewrite <- (loads_avail _ _ _ L4) in Ix4.
    destruct (ensure_ok be disk a4 CDA_OK CompRevCorpusIdx _ ltac:(done) ltac:(done) Ix4 W4)
      as (c5 & a5 & E6 & Hd5 & _ & L5 & _). cda_call E6.
    rewrite (bindM_lift _ (ints_be (concat Ps))) by (unfold comp_bytes; by rewrite Hd4).
    rewrite (bindM_lift _ (ints_be (postings_offset Ps <$> seq 0 (length Ps))))
      by (unfold comp_bytes; by rewrite Hd5).
    rewrite (bindM_lift _ _ _ _ (nget_postings_offset Ps id Htot ltac:(unfold zlen; lia))).
    assert (loads disk a3 a5) as L35 by by transitivity a4.
    eexists a5, _. split; [| split; [by cda |]].
    { split; [by eapply has_postings_loads |]. left. by apply (has_plain_index_loads a3). }
    split; cbn; [done | done | lia |]. exists (concat (drop (S (Z.to_nat id)) Ps)). f_equal.
    rewrite (postings_split Ps _ ps Hps), ints_be_app. unfold postings_offset.
    rewrite <- zlen_ints_be. unfold zlen. by rewrite Nat2Z.id, drop_app_length.
  - change (negb (1 =? 0)) with true. cbv iota.
    destruct (ensure_fwd a3 CDA_OK CompCompRF rc) as (c4 & a4 & E5 & Hb4 & _ & L4); try done; [apply HP3 |].
    cda_call E5. pose proof Ha2 as Ha4. rewrite <- (loads_avail _ _ _ (proj1 L4)) in Ha4.
    destruct (ensure_fwd a4 CDA_OK CompCompRFX _ ltac:(done) ltac:(done) ltac:(done) ltac:(done) Ha4)
      as (c5 & a5 & E6 & Hb5 & _ & L5); [apply (loads_wf _ _ _ (proj1 L4)), HP3 |].
    cda_call E6. cda_lift Hb4. cda_lift Hb5.
    destruct (Hdt _ ps Hps) as (Hba & off & rest & Ho & Hoff & Hbits).
    assert (nget_int be (ints_be offs) id = Ok off) as Eo.
    { rewrite <- (Z2Nat.id id) by done. rewrite <- (app_nil_r (ints_be _)).
      apply nget_int_ints_be; [done |]. unfold INT_MIN. lia. }
    cda_lift Eo. unfold BSopen. change (is_mode (mode _)) with true.
    rewrite c_assert_true, bind_Ok. rewrite (bindM_lift _ _ _ _ eq_refl). cbn [BSseek snd handle mode].
    eexists a5, _. split; [| split; [by cda |]].
    { apply (has_index_fwd a3); [by transitivity a4 |]. split; [done |]. right. split; [done |].
      by exists rc, offs. }
    set (bs := mkBit _ _ _ _ _).
    assert (rd_in bs = gap_bits (compute_ba pa (zlen ps) n) 0 ps ++ rest) as Hin.
    { cbn. unfold in_bits. cbn. by rewrite (proj2 (Z.leb_le 0 off)) by lia. }
    split; cbn [id_freq ps_nr_items is_compressed ps_b ps_last_pos ps_bs]; [done | done | lia |].
    rewrite drop_0. split; [split; [apply compute_ba_ge_2 | done] |]. split; [done |]. split.
    + intros x Hx. rewrite Forall_forall in Hb. by apply Hb.
    + split; [| by exists rest]. cbn. split; [unfold readable; cbn; split; [done | split; [lia | done]] |].
      change (in_bits BS_rest bs) with (rd_in bs). rewrite Hin, <- Hbits, length_byte_bits, length_drop.
      unfold zlen, INT_MAX in Hrc. lia.
Qed.
End Indexed.

(** ** Theorems *)

(** C11. [cl_id2cpos_oldstyle] on an indexed attribute: for an id of the lexicon it
    returns its corpus positions in ascending order, restricted to those in
    the ranges of the restrictor list if one is given, and their number; for
    any other id NULL, 0 and CDA_EIDORNG.  The result is the same whether the
    index is stored plainly or compressed, and the index stays usable. *)
Theorem cl_id2cpos_correct (be : bool) (disk : gmap string (list Z)) (pa : Z -> Z -> Z)
    (a : Attribute) (e n id freq0 : Z) (Ps : list (list Z)) (restrictor : option (list (Z * Z))) :
  has_index disk pa a n Ps -> zlen (concat Ps) <= INT_MAX -> restrictor_ok restrictor ->
  exists a', has_index disk pa a' n Ps /\
    cl_id2cpos_oldstyle be disk pa id freq0 (flat_restrictor restrictor) (restrictor_size restrictor)
        (mkCL (Some a) e) =
      Ok (match (if id <? 0 then None else Ps !! Z.to_nat id) with
          | Some ps => (cpos_result (kept restrictor ps) ps, mkCL (Some a') CDA_OK)
          | None => ((None, 0), mkCL (Some a') CDA_EIDORNG)
          end).
Proof. apply cl_id2cpos_ok. Qed.

(** Reading a stream with buffers of the given sizes. *)
Fixpoint read_chunks (be : bool) (st : PositionStream) (sizes : list nat) : res (list (list Z)) :=
  match sizes with
  | [] => Ok []
  | m :: sizes =>
      r ← cl_read_stream be st (Z.of_nat m);
      let '(k, items, st) := r in
      _ ← c_assert (k =? zlen items);
      rest ← read_chunks be st sizes;
      Ok (items :: rest)
  end.

Lemma read_chunks_ok be ps sizes k st :
  StronglySorted Z.le ps -> Forall (fun p => 0 <= p <= INT_MAX) ps -> zlen ps <= INT_MAX ->
  stream_at ps k st -> zlen ps + Z.of_nat (sum_list sizes) <= INT_MAX ->
  exists chunks, read_chunks be st sizes = Ok chunks /\
    concat chunks = take (sum_list sizes) (drop k ps) /\ Forall2 (fun c m => (length c <= m)%nat) chunks sizes.
Proof.
  intros Hs Hi Hl. revert k st. induction sizes as [|m sizes IH]; intros k st Hst Hsum.
  - exists []. split; [done |]. split; [done | constructor].
  - change (sum_list (m :: sizes)) with (m + sum_list sizes)%nat in *. cbn [read_chunks].
    assert (k <= length ps)%nat as Hk by apply Hst.
    destruct (cl_read_stream_ok be ps k st m Hs Hi Hl Hst) as (st' & -> & Hst'); [unfold zlen in *; lia |].
    res_cbn. rewrite Z.eqb_refl. res_cbn.
    destruct (IH _ st' Hst') as (chunks & -> & Hc & Hf); [lia |]. res_cbn.
    eexists. split; [reflexivity |]. split.
    + cbn [concat]. rewrite Hc. rewrite <- take_take_drop, drop_drop. f_equal.
      destruct (decide (k + m <= length ps)%nat); [by rewrite Nat.min_l by done |].
      rewrite Nat.min_r by lia. by rewrite !drop_ge by lia.
    + constructor; [| done]. rewrite length_take. lia.
Qed.

(** C18. A position stream delivers the corpus positions of its id in ascending
    order, each exactly once, whatever the sizes of the buffers it is read
    with: the chunks put together are the first positions of the id, and all
    of them once the buffers are large enough in total.  This holds for plain
    and for compressed indexes. *)
Theorem position_stream_correct (be : bool) (disk : gmap string (list Z)) (pa : Z -> Z -> Z)
    (a : Attribute) (e n id : Z) (Ps : list (list Z)) (ps : list Z) (sizes : list nat) :
  has_index disk pa a n Ps -> zlen (concat Ps) <= INT_MAX -> 0 <= id -> Ps !! Z.to_nat id = Some ps ->
  zlen ps + Z.of_nat (sum_list sizes) <= INT_MAX ->
  exists a' st chunks, has_index disk pa a' n Ps /\
    cl_new_stream be disk pa id (mkCL (Some a) e) = Ok (Some st, mkCL (Some a') CDA_OK) /\
    read_chunks be st sizes = Ok chunks /\
    Forall2 (fun c m => (length c <= m)%nat) chunks sizes /\
    concat chunks = take (sum_list sizes) ps /\
    ((length ps <= sum_list sizes)%nat -> concat chunks = ps).
Proof.
  intros HI Htot H0 Hps Hsum.
  destruct (cl_new_stream_ok be disk pa a e n Ps id ps HI Htot H0 Hps) as (a' & st & HI' & E & Hst).
  destruct (postings_ok disk a n Ps _ ps (proj1 HI) Hps) as (Hs & Hi & Hl).
  destruct (read_chunks_ok be ps sizes 0 st Hs Hi (proj2 Hl) Hst Hsum) as (chunks & Ec & Hc & Hf).
  rewrite drop_0 in Hc. exists a', st, chunks. split; [done |]. split; [done |]. split; [done |].
  split; [done |]. split; [done |]. intros Hle. by rewrite Hc, take_ge.
Qed.

(** Closing a position stream on a compressed index does not close its bit
    stream, although the code means to: the flag that says the stream is
    compressed is cleared before it is tested. *)
Theorem cl_delete_stream_never_closes (ps : PositionStream) :
  exists ps', cl_delete_stream ps = Ok (1, ps') /\ ps_bs ps' = ps_bs ps /\
    ps_b ps' = ps_b ps /\ ps_last_pos ps' = ps_last_pos ps.
Proof. eexists. split; [reflexivity |]. done. Qed.

(** An index in memory, for evaluating the access functions. *)
Definition ex_postings : list (list Z) := [[0; 2; 5]; [1; 4]; [3]].

Definition ex_indexed : Attribute := mem_attribute ATT_POS
  [(CompCorpus, ints_be [0; 1; 0; 2; 1; 0]); (CompLexiconIdx, ints_be [0; 2; 4]);
   (CompCorpusFreqs, ints_be [3; 2; 1]); (CompRevCorpus, ints_be [0; 2; 5; 1; 4; 3]);
   (CompRevCorpusIdx, ints_be [0; 3; 5])].

Lemma ex_has_index disk pa : has_index disk pa ex_indexed 6 ex_postings.
Proof.
  split; [split | left; split; reflexivity].
  - reflexivity.
  - apply mem_attribute_wf. repeat constructor; vm_compute; discriminate.
  - apply (size_plain _ _ _ (ints_be [0; 1; 0; 2; 1; 0])); reflexivity.
  - vm_compute. split; [reflexivity | discriminate].
  - vm_compute. split; [reflexivity | discriminate].
  - eexists. split; reflexivity.
  - reflexivity.
  - repeat (constructor; try lia).
Defined.

Lemma cl_id2cpos_correct_witness :
  exists a', has_index ∅ (fun _ _ => 0) a' 6 ex_postings /\
    cl_id2cpos_oldstyle true ∅ (fun _ _ => 0) 0 0 (Some [1; 2; 4; 9]) 2 (mkCL (Some ex_indexed) 0) =
      Ok ((Some [2; 5], 2), mkCL (Some a') CDA_OK).
Proof.
  apply (cl_id2cpos_correct true ∅ (fun _ _ => 0) ex_indexed 0 6 0 0 ex_postings (Some [(1, 2); (4, 9)])).
  - apply ex_has_index.
  - vm_compute. discriminate.
  - split; [repeat (constructor; cbn; try lia) |]. split; [vm_compute; discriminate |].
    repeat constructor; vm_compute; discriminate.
Defined.

Lemma position_stream_correct_witness :
  exists a' st chunks, has_index ∅ (fun _ _ => 0) a' 6 ex_postings /\
    cl_new_stream true ∅ (fun _ _ => 0) 0 (mkCL (Some ex_indexed) 0) = Ok (Some st, mkCL (Some a') CDA_OK) /\
    read_chunks true st [2; 2]%nat = Ok chunks /\
    Forall2 (fun c m => (length c <= m)%nat) chunks [2; 2]%nat /\
    concat chunks = [0; 2; 5] /\ ((3 <= 4)%nat -> concat chunks = [0; 2; 5]).
Proof.
  apply (position_stream_correct true ∅ (fun _ _ => 0) ex_indexed 0 6 0 ex_postings [0; 2; 5] [2; 2]%nat).
  - apply ex_has_index.
  - vm_compute. discriminate.
  - lia.
  - reflexivity.
  - vm_compute. discriminate.
Defined.

(** [memcpy(&table[p], src, n * sizeof(int))] *)
Lemma copy_cells (src done_ tail : list Z) : (length src <= length tail)%nat ->
  for_up (fun i t => x ← aget src i; aset t (zlen done_ + i) x) 0 (zlen src) (done_ ++ tail) = Ok (done_ ++ src ++ drop (length src) tail).
Proof.
  intros Hl. pose proof (zlen_nonneg src). destruct (for_up_rule (fun i t => x ← aget src i; aset t (zlen done_ + i) x)
    (fun i t => 0 <= i /\ t = done_ ++ take (Z.to_nat i) src ++ drop (Z.to_nat i) tail) 0 (zlen src) (done_ ++ tail)) as (t & -> & _ & ->); [done | | |].
  - intros i t Hi (_ & ->). destruct (aget_some src i) as [x Ex]; [lia |]. rewrite Ex. cbn. apply aget_Ok in Ex as [_ Ex].
    destruct (lookup_lt_is_Some_2 tail (Z.to_nat i)) as [y Ey]; [unfold zlen in Hi; lia |].
    rewrite (drop_S tail y) by done. rewrite app_assoc. rewrite aset_middle.
    + eexists. split; [done |]. split; [lia |]. rewrite <- app_assoc. f_equal. replace (Z.to_nat (i + 1)) with (S (Z.to_nat i)) by lia.
      rewrite (take_S_r src _ x) by done. by rewrite <- app_assoc.
    + rewrite zlen_app. unfold zlen. rewrite length_take. unfold zlen in Hi. lia.
  - split; [lia |]. by rewrite take_0, drop_0.
  - f_equal. unfold zlen. rewrite Nat2Z.id. by rewrite take_ge by lia.
Qed.

Section IdList.
Context (be : bool) (disk : gmap string (list Z)) (pa : Z -> Z -> Z) (qsort_ints : list Z -> list Z).

Abbreviation has_index := (has_index disk pa).
Abbreviation loads_fwd := (loads_fwd disk).

(** The positions of a type. *)
Definition postings (Ps : list (list Z)) (id : Z) : list Z := default [] (Ps !! Z.to_nat id).

Definition valid_id (Ps : list (list Z)) (id : Z) : Prop := 0 <= id < zlen Ps.

#[global] Instance valid_id_dec Ps id : Decision (valid_id Ps id).
Proof. unfold valid_id. apply _. Defined.

Lemma valid_postings Ps id : valid_id Ps id -> (if id <? 0 then None else Ps !! Z.to_nat id) = Some (postings Ps id).
Proof.
  intros [H0 H1]. rewrite (proj2 (Z.ltb_ge id 0)) by done. unfold postings. destruct (lookup_lt_is_Some_2 Ps (Z.to_nat id)) as [ps ->]; [unfold zlen in H1; lia | done].
Qed.

Lemma invalid_postings Ps id : ~ valid_id Ps id -> (if id <? 0 then None else Ps !! Z.to_nat id) = None.
Proof.
  unfold valid_id. intros H. destruct (Z.ltb_spec id 0); [done |]. apply lookup_ge_None_2. unfold zlen in H. lia.
Qed.

(** All of them, type after type. *)
Definition all_postings (Ps : list (list Z)) (ids : list Z) : list Z := concat (postings Ps <$> ids).

Lemma idlist2freq_loop_ok a e n Ps ids sum : has_index a n Ps -> 0 <= sum -> sum + zlen (all_postings Ps ids) <= INT_MAX ->
  exists a' e', has_index a' n Ps /\ idlist2freq_loop be disk ids sum (mkCL (Some a) e) =
    Ok (if decide (Forall (valid_id Ps) ids) then (inl (sum + zlen (all_postings Ps ids)), mkCL (Some a') e') else (inr CDA_EIDXORNG, mkCL (Some a') CDA_EIDXORNG)).
Proof.
  revert a e sum. induction ids as [|id ids IH]; intros a e sum HI Hs Hmax.
  { exists a, e. split; [done |]. rewrite decide_True by done. cbn. by rewrite Z.add_0_r. }
  assert (zlen (all_postings Ps (id :: ids)) = zlen (postings Ps id) + zlen (all_postings Ps ids)) as El by (unfold all_postings; cbn; by rewrite zlen_app).
  pose proof (zlen_nonneg (postings Ps id)). pose proof (zlen_nonneg (all_postings Ps ids)).
  cbn [idlist2freq_loop]. destruct (cl_id2freq_ok be disk a e n Ps id (proj1 HI)) as (a1 & L1 & E1). assert (has_index a1 n Ps) as HI1 by (by eapply has_index_fwd).
  destruct (decide (valid_id Ps id)) as [Hv|Hv].
  - rewrite (valid_postings Ps id Hv) in E1. cda_call E1. assert (c_int (sum + zlen (postings Ps id)) = Ok (sum + zlen (postings Ps id))) as Ec by (apply c_int_Ok; unfold INT_MIN, INT_MAX in *; lia).
    cda_lift Ec. change (negb (CDA_OK =? CDA_OK)) with false. cbv iota.
    destruct (IH a1 CDA_OK (sum + zlen (postings Ps id)) HI1) as (a2 & e2 & HI2 & ->); [lia | lia |]. exists a2, e2. split; [done |].
    rewrite El. destruct (decide (Forall (valid_id Ps) ids)) as [Hf|Hf].
    + rewrite decide_True by (by constructor). by rewrite Z.add_assoc.
    + rewrite decide_False; [done |]. by intros [? ?]%Forall_cons.
  - rewrite (invalid_postings Ps id Hv) in E1. cda_call E1. assert (c_int (sum + CDA_EIDXORNG) = Ok (sum + CDA_EIDXORNG)) as Ec by (apply c_int_Ok; unfold CDA_EIDXORNG, INT_MIN, INT_MAX in *; lia).
    cda_lift Ec. change (negb (CDA_EIDXORNG =? CDA_OK)) with true. cbv iota. exists a1, CDA_EIDXORNG. split; [done |]. rewrite decide_False; [done |]. by intros [? ?]%Forall_cons.
Qed.

Lemma idlist2cpos_loop_ok a e n Ps ids done_ tail : has_index a n Ps -> zlen (concat Ps) <= INT_MAX -> Forall (valid_id Ps) ids -> zlen tail = zlen (all_postings Ps ids) ->
  exists a' e', has_index a' n Ps /\ idlist2cpos_loop be disk pa (zlen Ps) ids (zlen done_) (done_ ++ tail) (mkCL (Some a) e) =
    Ok (Some (zlen done_ + zlen (all_postings Ps ids), done_ ++ all_postings Ps ids), mkCL (Some a') e').
Proof.
  intros HI Htot Hf. revert a e HI done_ tail. induction Hf as [|id ids Hv Hf IH]; intros a e HI done_ tail Hlen.
  { exists a, e. split; [done |]. cbn in *. apply zlen_0_nil in Hlen as ->. by rewrite Z.add_0_r. }
  assert (all_postings Ps (id :: ids) = postings Ps id ++ all_postings Ps ids) as El by done. rewrite El, zlen_app in Hlen.
  cbn [idlist2cpos_loop]. pose proof Hv as [Hv0 Hv1]. rewrite (proj2 (Z.ltb_ge id 0)), (proj2 (Z.leb_gt (zlen Ps) id)) by done. cbn [orb].
  destruct (cl_id2cpos_ok be disk pa a e n Ps id 0 None HI Htot I) as (a1 & HI1 & E1). rewrite (valid_postings Ps id Hv) in E1.
  change (flat_restrictor None) with (@None (list Z)) in E1. change (restrictor_size None) with 0 in E1. change (kept None (postings Ps id)) with (postings Ps id) in E1. cda_call E1.
  pose proof (zlen_nonneg (postings Ps id)). unfold cpos_result. rewrite (proj2 (Z.ltb_ge (zlen _) 0)) by done. cda. change (negb (CDA_OK =? CDA_OK)) with false. cbn [orb].
  assert ((if zlen (postings Ps id) =? 0 then Ok [] else deref (if (zlen (postings Ps id) =? 0) && (0 <? zlen (postings Ps id)) then None else Some (postings Ps id))) = Ok (postings Ps id)) as Es.
  { destruct (Z.eqb_spec (zlen (postings Ps id)) 0) as [Ez|]; [by rewrite (zlen_0_nil _ Ez) | done]. }
  cda_lift Es. pose proof (copy_cells (postings Ps id) done_ tail) as Ec. pose proof (zlen_nonneg (all_postings Ps ids)).
  specialize (Ec ltac:(unfold zlen in *; lia)). cda_lift Ec. rewrite app_assoc, <- (zlen_app done_).
  destruct (IH a1 CDA_OK HI1 (done_ ++ postings Ps id) (drop (length (postings Ps id)) tail)) as (a2 & e2 & HI2 & ->).
  { unfold zlen in *. rewrite length_drop. lia. }
  exists a2, e2. split; [done |]. rewrite El, <- !app_assoc, !zlen_app. do 4 f_equal. lia.
Qed.

(** What is returned. *)
Definition idlist_result (Ps : list (list Z)) (ids : list Z) (sort : bool) : option (list Z) * Z :=
  let T := all_postings Ps ids in (if zlen T =? 0 then None else Some (if sort then qsort_ints T else T), zlen T).

Lemma cl_idlist2freq_ok a e n Ps ids : has_index a n Ps -> zlen (all_postings Ps ids) <= INT_MAX ->
  exists a', has_index a' n Ps /\ cl_idlist2freq be disk (Some ids) (mkCL (Some a) e) =
    Ok (if decide (Forall (valid_id Ps) ids) then (zlen (all_postings Ps ids), mkCL (Some a') CDA_OK) else (CDA_EIDXORNG, mkCL (Some a') CDA_EIDXORNG)).
Proof.
  intros HI HT. unfold cl_idlist2freq. rewrite check_arg_ok by apply HI. destruct (idlist2freq_loop_ok a e n Ps ids 0 HI) as (a2 & e2 & HI2 & E2); [lia | lia |].
  exists a2. split; [done |]. destruct (decide _) as [Hv|Hv]; cda_call E2; cda; done.
Qed.

Lemma cl_idlist2cpos_ok a e n Ps ids sort : has_index a n Ps -> zlen (concat Ps) <= INT_MAX -> zlen (all_postings Ps ids) <= INT_MAX ->
  exists a', has_index a' n Ps /\ cl_idlist2cpos_oldstyle be disk pa qsort_ints (Some ids) sort (mkCL (Some a) e) =
    Ok (if decide (Forall (valid_id Ps) ids) then (idlist_result Ps ids sort, mkCL (Some a') CDA_OK) else ((None, 0), mkCL (Some a') CDA_EIDXORNG)).
Proof.
  intros HI Htot HT. unfold cl_idlist2cpos_oldstyle. rewrite check_arg_ok by apply HI. destruct (ix_lex _ _ _ _ (proj1 HI)) as (d & Hd & Hn).
  destruct (ensure_fwd be disk a e CompLexiconIdx d) as (c & a1 & E & _ & Hc & L1); try done; [apply HI |].
  assert (has_index a1 n Ps) as HI1 by (by eapply has_index_fwd). cda_call E.
  destruct (cl_idlist2freq_ok a1 e n Ps ids HI1 HT) as (a2 & HI2 & E2).
  destruct (decide (Forall (valid_id Ps) ids)) as [Hv|Hv]; cda_call E2; cycle 1.
  { change (negb (CDA_EIDXORNG =? CDA_OK)) with true. rewrite orb_true_r. exists a2. by cda. }
  pose proof (zlen_nonneg (all_postings Ps ids)). change (negb (CDA_OK =? CDA_OK)) with false. rewrite (proj2 (Z.ltb_ge (zlen _) 0)) by done. cbn [orb]. unfold idlist_result.
  destruct (Z.ltb_spec 0 (zlen (all_postings Ps ids))) as [Hpos|Hz]; cycle 1.
  { rewrite (proj2 (Z.eqb_eq (zlen _) 0)) by lia. replace (zlen (all_postings Ps ids)) with 0 by lia. exists a2. by cda. }
  rewrite (proj2 (Z.eqb_neq (zlen _) 0)) by lia. rewrite Hc, Hn.
  destruct (idlist2cpos_loop_ok a2 CDA_OK n Ps ids [] (replicate (Z.to_nat (zlen (all_postings Ps ids))) 0) HI2 Htot Hv) as (a3 & e3 & HI3 & E3); [rewrite zlen_replicate; lia |].
  cbn [app] in E3. change (zlen []) with 0 in E3. rewrite Z.add_0_l in E3. cda_call E3. unfold c_assert. rewrite Z.eqb_refl. exists a3. by cda.
Qed.
End IdList.

(** C19. The positions of a list of types: on an indexed attribute, plain or compressed, for types of
    the lexicon [cl_idlist2freq] returns the number of all their positions, and
    [cl_idlist2cpos_oldstyle] returns these positions and their number: in ascending order if [sort] is
    set, else type by type in the order of the list; it returns NULL if there are none.  For a list with a number that is
    not one of a type both fail with the error CDA_EIDXORNG.  The index stays usable. *)
Theorem cl_idlist2cpos_correct (be : bool) (disk : gmap string (list Z)) (pa : Z -> Z -> Z) (qsort_ints : list Z -> list Z) (a : Attribute) (e n : Z) (Ps : list (list Z)) (ids : list Z) (sort : bool) :
  (forall l, qsort_ints l ≡ₚ l /\ StronglySorted Z.le (qsort_ints l)) -> has_index disk pa a n Ps -> zlen (concat Ps) <= INT_MAX -> zlen (all_postings Ps ids) <= INT_MAX ->
  exists a1 a2, has_index disk pa a1 n Ps /\ has_index disk pa a2 n Ps /\
  if decide (Forall (valid_id Ps) ids) then
    cl_idlist2freq be disk (Some ids) (mkCL (Some a) e) = Ok (zlen (all_postings Ps ids), mkCL (Some a1) CDA_OK) /\
    exists l, cl_idlist2cpos_oldstyle be disk pa qsort_ints (Some ids) sort (mkCL (Some a) e) = Ok ((if zlen l =? 0 then None else Some l, zlen l), mkCL (Some a2) CDA_OK) /\
      if sort then StronglySorted Z.le l /\ l ≡ₚ all_postings Ps ids else l = all_postings Ps ids
  else
    cl_idlist2freq be disk (Some ids) (mkCL (Some a) e) = Ok (CDA_EIDXORNG, mkCL (Some a1) CDA_EIDXORNG) /\
    cl_idlist2cpos_oldstyle be disk pa qsort_ints (Some ids) sort (mkCL (Some a) e) = Ok ((None, 0), mkCL (Some a2) CDA_EIDXORNG).
Proof.
  intros Hq HI Htot HT. destruct (cl_idlist2freq_ok be disk pa a e n Ps ids HI HT) as (a1 & HI1 & E1). destruct (cl_idlist2cpos_ok be disk pa qsort_ints a e n Ps ids sort HI Htot HT) as (a2 & HI2 & E2).
  exists a1, a2. do 2 (split; [done |]). destruct (decide _) as [Hv|Hv]; [| done]. split; [done |]. destruct (Hq (all_postings Ps ids)) as [Hp Hs].
  exists (if sort then qsort_ints (all_postings Ps ids) else all_postings Ps ids). assert (zlen (if sort then qsort_ints (all_postings Ps ids) else all_postings Ps ids) = zlen (all_postings Ps ids)) as ->
    by (destruct sort; [unfold zlen; by rewrite Hp | done]). split; [exact E2 | by destruct sort].
Qed.

(** The types 2 and 0 of the example. *)
Lemma cl_idlist2cpos_correct_witness : exists a1 a2, has_index ∅ (fun _ _ => 0) a1 6 ex_postings /\ has_index ∅ (fun _ _ => 0) a2 6 ex_postings /\
  cl_idlist2freq true ∅ (Some [2; 0]) (mkCL (Some ex_indexed) 0) = Ok (zlen (all_postings ex_postings [2; 0]), mkCL (Some a1) CDA_OK) /\
  exists l, cl_idlist2cpos_oldstyle true ∅ (fun _ _ => 0) (merge_sort Z.le) (Some [2; 0]) true (mkCL (Some ex_indexed) 0) = Ok ((if zlen l =? 0 then None else Some l, zlen l), mkCL (Some a2) CDA_OK) /\
    StronglySorted Z.le l /\ l ≡ₚ all_postings ex_postings [2; 0].
Proof.
  pose proof (cl_idlist2cpos_correct true ∅ (fun _ _ => 0) (merge_sort Z.le) ex_indexed 0 6 ex_postings [2; 0] true) as H.
  destruct H as (a1 & a2 & H1 & H2 & H3).
  - intros l. split; [apply merge_sort_Permutation | apply (StronglySorted_merge_sort Z.le)].
  - apply ex_has_index.
  - vm_compute. discriminate.
  - vm_compute. discriminate.
  - exists a1, a2. split; [done |]. split; [done |]. by rewrite decide_True in H3 by (repeat constructor; lia).
Defined.
