(* ===== verification/CompressRdx.v ===== *)
(** * Compressing the index: utils/cwb-compress-rdx.c

    [compress_reversed_index] writes the gaps between the occurrences of every
    lexicon entry as Golomb codes, each entry starting at a byte boundary, and
    the byte offsets to a second file; [decompress_check_reversed_index] reads
    the data back and compares it with the plain index.  The theorems: what is
    written is a compressed index of the same postings, which the access
    functions read like the plain one, and the check accepts it. *)

From Stdlib Require Import ZArith Lia Ascii String Sorted.
From stdpp Require Import base tactics option list numbers gmap strings sorting.
From S2P Require Import Prelude Bits Storage BitIO Golomb Blob Attributes CDA Lexicon Positional RevIndex.

Open Scope Z_scope.

(** ** The tool *)
Section Tool.
Context (be : bool) (disk : gmap string (list Z)) (pa : Z -> Z -> Z).

(** [compressrdx_cleanup(1)] *)
Definition compressrdx_abort {A} : M A := lift (Err ExitCall).

(** One occurrence: read the position, write the gap. *)
Definition compress_occurrence (b : Z) (st : PositionStream * Z * BFile) : res (PositionStream * Z * BFile) :=
  let '(ps, last_pos, data_file) := st in
  r ← cl_read_stream be ps 1;
  let '(k, items, ps) := r in
  if negb (k =? 1) then Err ExitCall
  else
    new_pos ← aget items 0;
    gap ← c_int (new_pos - last_pos);
    w ← write_golomb_code be gap b data_file;
    Ok (ps, new_pos, w.2).

(** One lexicon entry. *)
Definition compress_element (corpus_size i : Z) (st : BFile * FILE) : M (BFile * FILE) :=
  let '(data_file, index_file) := st in
  element_freq ← cl_id2freq be disk i;
  e ← get_errno;
  if (element_freq =? 0) || negb (e =? CDA_OK) then compressrdx_abort else
  ps ← cl_new_stream be disk pa i;
  e ← get_errno;
  match ps with
  | None => compressrdx_abort
  | Some ps =>
      if negb (e =? CDA_OK) then compressrdx_abort else
      let b := compute_ba pa element_freq corpus_size in
      fpos ← lift (BFposition (Some data_file));
      index_file ← lift (NwriteInt be (s32 fpos) index_file);
      r ← lift (for_up (fun _ => compress_occurrence b) 0 element_freq (ps, 0, data_file));
      let '(ps, _, data_file) := r in
      _ ← lift (cl_delete_stream ps);
      f ← lift (BFflush data_file);
      mret (f.2, index_file)
  end.

(** The data file after it was closed and the index file; [data_fd] and
    [index_fd] are what opening the two files returned. *)
Definition compress_reversed_index (data_fd index_fd : option FILE) : M (BFile * FILE) :=
  revcorp ← ensure be disk CompRevCorpus;
  if revcorp is None then compressrdx_abort else
  revcidx ← ensure be disk CompRevCorpusIdx;
  if revcidx is None then compressrdx_abort else
  nr_elements ← cl_max_id be disk;
  e ← get_errno;
  if (nr_elements <=? 0) || negb (e =? CDA_OK) then compressrdx_abort else
  corpus_size ← cl_max_cpos be disk;
  e ← get_errno;
  if (corpus_size <=? 0) || negb (e =? CDA_OK) then compressrdx_abort else
  o ← lift (BFopen data_fd "w");
  if o.1 =? 0 then compressrdx_abort else
  match index_fd with
  | None => compressrdx_abort
  | Some index_file =>
      r ← forM_up (compress_element corpus_size) 0 nr_elements (o.2, index_file);
      c ← lift (BFclose r.1);
      mret (c.2, r.2)
  end.

(** One occurrence of the check. *)
Definition check_occurrence (b : Z) (st : PositionStream * Z * BFile) : res (PositionStream * Z * BFile) :=
  let '(ps, pos, data_file) := st in
  g ← read_golomb_code_bf b data_file;
  let '(gap, data_file) := g in
  pos ← c_int (pos + gap);
  r ← cl_read_stream be ps 1;
  let '(k, items, ps) := r in
  if negb (k =? 1) then Err ExitCall
  else
    true_pos ← aget items 0;
    if negb (pos =? true_pos) then Err ExitCall else Ok (ps, pos, data_file).

Definition check_element (corpus_size i : Z) (data_file : BFile) : M BFile :=
  element_freq ← cl_id2freq be disk i;
  e ← get_errno;
  if (element_freq =? 0) || negb (e =? CDA_OK) then compressrdx_abort else
  ps ← cl_new_stream be disk pa i;
  e ← get_errno;
  match ps with
  | None => compressrdx_abort
  | Some ps =>
      if negb (e =? CDA_OK) then compressrdx_abort else
      let b := compute_ba pa element_freq corpus_size in
      r ← lift (for_up (fun _ => check_occurrence b) 0 element_freq (ps, 0, data_file));
      let '(ps, _, data_file) := r in
      _ ← lift (cl_delete_stream ps);
      f ← lift (BFflush data_file);
      mret f.2
  end.

(** The index file is only opened. *)
Definition decompress_check_reversed_index (data_fd index_fd : option FILE) : M unit :=
  nr_elements ← cl_max_id be disk;
  e ← get_errno;
  if (nr_elements <=? 0) || negb (e =? CDA_OK) then compressrdx_abort else
  corpus_size ← cl_max_cpos be disk;
  e ← get_errno;
  if (corpus_size <=? 0) || negb (e =? CDA_OK) then compressrdx_abort else
  o ← lift (BFopen data_fd "r");
  if o.1 =? 0 then compressrdx_abort else
  match index_fd with
  | None => compressrdx_abort
  | Some _ =>
      data_file ← forM_up (check_element corpus_size) 0 nr_elements o.2;
      _ ← lift (BFclose data_file);
      mret ()
  end.
End Tool.

(** ** One lexicon entry *)

(** Reading the next position of a stream. *)
Lemma read_next be ps k st x rest :
  StronglySorted Z.le ps -> Forall (fun p => 0 <= p <= INT_MAX) ps -> zlen ps <= INT_MAX ->
  stream_at ps k st -> drop k ps = x :: rest ->
  exists st', cl_read_stream be st 1 = Ok (1, [x], st') /\ stream_at ps (S k) st' /\ drop (S k) ps = rest.
Proof.
  intros Hs Hi Hl Hst Hd.
  assert (k < length ps)%nat as Hk.
  { destruct (decide (k < length ps)%nat); [done |]. rewrite drop_ge in Hd by lia. done. }
  destruct (cl_read_stream_ok be ps k st 1 Hs Hi Hl Hst) as (st' & E & Hst'); [unfold zlen in Hl; lia |].
  rewrite Hd in E. exists st'. split; [exact E |].
  rewrite Nat.min_l, Nat.add_1_r in Hst' by lia. split; [done |].
  rewrite <- Nat.add_1_r, <- drop_drop, Hd. done.
Qed.

Section Element.
Context (be : bool) (b : Z) (ps : list Z).
Context (Hb : golomb_param b) (Hs : StronglySorted Z.le ps).
Context (Hi : Forall (fun p => 0 <= p <= INT_MAX) ps) (Hl : zlen ps <= INT_MAX).

(** The position after [k] items of an ascending list. *)
Lemma next_position k x rest last :
  drop k ps = x :: rest -> (forall y, y ∈ drop k ps -> last <= y) ->
  0 <= x <= INT_MAX /\ last <= x /\ (forall y, y ∈ rest -> x <= y).
Proof using Hs Hi.
  intros Hd Hlast. rewrite <- (take_drop k ps), Hd in Hs, Hi.
  apply Forall_app in Hi as [_ Hi']. apply StronglySorted_app_1_r, StronglySorted_inv in Hs as [_ Hall].
  split; [by inversion Hi' |]. split; [apply Hlast; rewrite Hd; left |].
  intros y Hy. rewrite Forall_forall in Hall. by apply Hall.
Qed.

Lemma compress_occurrences m st df :
  stream_at ps 0 st -> BF_writable (length (gap_bits b 0 ps) + m) df ->
  exists st' last df', for_up (fun _ => compress_occurrence be b) 0 (zlen ps) (st, 0, df) = Ok (st', last, df') /\
    BF_out df' = BF_out df ++ gap_bits b 0 ps /\ BF_writable m df'.
Proof using All.
  intros Hst Hw.
  for_up_with
    (fun i '(s, last, d) => exists k, i = Z.of_nat k /\ stream_at ps k s /\ 0 <= last /\
       (forall y, y ∈ drop k ps -> last <= y) /\
       BF_out d ++ gap_bits b last (drop k ps) = BF_out df ++ gap_bits b 0 ps /\
       BF_writable (length (gap_bits b last (drop k ps)) + m) d) r E Hr.
  - apply zlen_nonneg.
  - intros i [[s last] d] Hir (k & -> & Hsk & Hl0 & Hlast & Ho & Hwd).
    destruct (drop k ps) as [|x rest] eqn:Hd.
    { apply (f_equal length) in Hd. rewrite length_drop in Hd. unfold zlen in Hir. simpl in Hd. lia. }
    destruct (read_next be ps k s x rest Hs Hi Hl Hsk Hd) as (s' & E & Hsk' & Hd').
    destruct (next_position k x rest last Hd) as (Hx & Hlx & Hnext); [by rewrite Hd |].
    unfold compress_occurrence. rewrite E. res_cbn. change (negb (1 =? 1)) with false. cbv iota.
    change (aget [x] 0) with (Ok x). res_cbn.
    rewrite c_int_Ok by (unfold INT_MIN, INT_MAX in *; lia). res_cbn.
    cbn [gap_bits] in Ho, Hwd. rewrite length_app, <- Nat.add_assoc in Hwd.
    destruct (write_golomb_code_ok be (x - last) b _ d Hb ltac:(lia) Hwd) as (d' & -> & Ho' & Hw').
    res_cbn. eexists. split; [reflexivity |]. exists (S k). rewrite Hd'.
    split; [lia |]. split; [done |]. split; [lia |]. split; [done |]. split; [| done].
    cbn [snd]. by rewrite Ho', <- app_assoc.
  - exists 0%nat. rewrite drop_0. split; [done |]. split; [done |]. split; [lia |]. split; [| done].
    intros y Hy. rewrite Forall_forall in Hi. by apply Hi.
  - destruct r as [[s last] d]. destruct Hr as (k & Hk & _ & _ & _ & Ho & Hwd).
    rewrite drop_ge in Ho, Hwd by (unfold zlen in Hk; lia). cbn [gap_bits] in Ho, Hwd.
    rewrite app_nil_r in Ho. exists s, last, d. done.
Qed.

Lemma check_occurrences st df rest :
  stream_at ps 0 st -> rd_ok df -> rd_in df = gap_bits b 0 ps ++ rest ->
  exists st' last df', for_up (fun _ => check_occurrence be b) 0 (zlen ps) (st, 0, df) = Ok (st', last, df') /\
    rd_in df' = rest /\ rd_ok df' /\ (ps <> [] -> rd_mid df').
Proof using All.
  intros Hst Hok Hin.
  for_up_with
    (fun i '(s, last, d) => exists k, i = Z.of_nat k /\ stream_at ps k s /\ 0 <= last /\
       (forall y, y ∈ drop k ps -> last <= y) /\ rd_ok d /\ (k <> 0%nat -> rd_mid d) /\
       rd_in d = gap_bits b last (drop k ps) ++ rest) r E Hr.
  - apply zlen_nonneg.
  - intros i [[s last] d] Hir (k & -> & Hsk & Hl0 & Hlast & Hokd & Hmd & Hind).
    destruct (drop k ps) as [|x tl] eqn:Hd.
    { apply (f_equal length) in Hd. rewrite length_drop in Hd. unfold zlen in Hir. simpl in Hd. lia. }
    destruct (read_next be ps k s x tl Hs Hi Hl Hsk Hd) as (s' & E & Hsk' & Hd').
    destruct (next_position k x tl last Hd) as (Hx & Hlx & Hnext); [by rewrite Hd |].
    cbn [gap_bits] in Hind. rewrite <- app_assoc in Hind.
    destruct (read_golomb_ok b (x - last) _ d Hb ltac:(lia) Hokd Hind) as (d' & Eg & Hin' & Hok' & Hmid').
    unfold check_occurrence, read_golomb_code_bf. change BFread with (rd_bits (S := BFile)).
    rewrite Eg. res_cbn. replace (last + (x - last)) with x by lia.
    rewrite c_int_Ok by (unfold INT_MIN, INT_MAX in *; lia). res_cbn.
    rewrite E. res_cbn. change (negb (1 =? 1)) with false. cbv iota.
    change (aget [x] 0) with (Ok x). res_cbn. rewrite Z.eqb_refl. cbn [negb].
    eexists. split; [reflexivity |]. exists (S k). rewrite Hd'.
    split; [lia |]. split; [done |]. split; [lia |]. done.
  - exists 0%nat. rewrite drop_0. split; [done |]. split; [done |]. split; [lia |]. split; [| done].
    intros y Hy. rewrite Forall_forall in Hi. by apply Hi.
  - destruct r as [[s last] d]. destruct Hr as (k & Hk & _ & _ & _ & Hokd & Hmd & Hind).
    rewrite drop_ge in Hind by (unfold zlen in Hk; lia). cbn [gap_bits app] in Hind.
    exists s, last, d. split; [done |]. split; [done |]. split; [done |]. intros Hpne. apply Hmd.
    destruct ps; [done |]. rewrite zlen_cons in Hk. pose proof (zlen_nonneg l). lia.
Qed.
End Element.

(** ** The whole index *)

(** The bits of one entry, completed to full bytes. *)
Definition elem_bits (pa : Z -> Z -> Z) (n : Z) (ps : list Z) : list bool :=
  let g := gap_bits (compute_ba pa (zlen ps) n) 0 ps in
  g ++ replicate (pad_bits (zlen g)) false.

Definition crc_bits (pa : Z -> Z -> Z) (n : Z) (Ps : list (list Z)) : list bool :=
  Ps ≫= elem_bits pa n.

(** Byte offset of entry [i]. *)
Definition crc_offset (pa : Z -> Z -> Z) (n : Z) (Ps : list (list Z)) (i : nat) : Z :=
  zlen (crc_bits pa n (take i Ps)) / 8.

(** Room for the entries: their codes and up to 7 bits of padding each. *)
Fixpoint crc_room (pa : Z -> Z -> Z) (n : Z) (Ps : list (list Z)) : nat :=
  match Ps with
  | [] => 0
  | ps :: Ps => length (gap_bits (compute_ba pa (zlen ps) n) 0 ps) + 7 + crc_room pa n Ps
  end.

Lemma cl_delete_stream_ok ps : exists ps', cl_delete_stream ps = Ok (1, ps').
Proof. eexists. reflexivity. Qed.

Lemma elem_bits_div8 pa n ps : (8 | zlen (elem_bits pa n ps)).
Proof.
  unfold elem_bits. rewrite zlen_app, zlen_replicate.
  destruct (pad_bits_spec (zlen (gap_bits (compute_ba pa (zlen ps) n) 0 ps))) as [j ->].
  by exists j; rewrite Z.mul_comm.
Qed.

Lemma crc_bits_app pa n Ps Qs : crc_bits pa n (Ps ++ Qs) = crc_bits pa n Ps ++ crc_bits pa n Qs.
Proof. apply bind_app. Qed.

Lemma crc_bits_div8 pa n Ps : (8 | zlen (crc_bits pa n Ps)).
Proof.
  induction Ps as [|ps Ps IH]; [by exists 0 |]. unfold crc_bits. rewrite bind_cons, zlen_app.
  apply Z.divide_add_r; [apply elem_bits_div8 | exact IH].
Qed.

Section Compress.
Context (be : bool) (disk : gmap string (list Z)) (pa : Z -> Z -> Z) (n : Z) (Ps : list (list Z)).
Context (Htot : zlen (concat Ps) <= INT_MAX).
Context (Hne : Forall (fun ps => ps <> []) Ps).
Context (Hba : Forall (fun ps => compute_ba pa (zlen ps) n <= 2 ^ 30) Ps).

(** The entry [i], its frequency and its stream. *)
Lemma open_element a e i :
  has_index disk pa a n Ps -> 0 <= i < zlen Ps ->
  exists ps a1 a2 st, Ps !! Z.to_nat i = Some ps /\ ps <> [] /\
    golomb_param (compute_ba pa (zlen ps) n) /\
    cl_id2freq be disk i (mkCL (Some a) e) = Ok (zlen ps, mkCL (Some a1) CDA_OK) /\
    cl_new_stream be disk pa i (mkCL (Some a1) CDA_OK) = Ok (Some st, mkCL (Some a2) CDA_OK) /\
    stream_at ps 0 st /\ has_index disk pa a2 n Ps /\
    StronglySorted Z.le ps /\ Forall (fun p => 0 <= p <= INT_MAX) ps /\ zlen ps <= INT_MAX /\ 0 < zlen ps.
Proof using Htot Hne Hba.
  intros HI Hi. destruct (lookup_lt_is_Some_2 Ps (Z.to_nat i)) as [ps Hps]; [unfold zlen in Hi; lia |].
  destruct (cl_id2freq_ok be disk a e n Ps i (proj1 HI)) as (a1 & L1 & E1).
  rewrite (proj2 (Z.ltb_ge i 0)), Hps in E1 by lia.
  pose proof (has_index_fwd _ _ _ _ _ _ L1 HI) as HI1.
  destruct (cl_new_stream_ok be disk pa a1 CDA_OK n Ps i ps HI1 Htot ltac:(lia) Hps) as (a2 & st & HI2 & E2 & Hst).
  destruct (postings_ok disk a n Ps _ ps (proj1 HI) Hps) as (Hs & Hb & Hl).
  pose proof (Forall_lookup_1 _ _ _ _ Hne Hps) as Hn. cbn in Hn.
  exists ps, a1, a2, st. split; [done |]. split; [done |].
  split; [split; [apply compute_ba_ge_2 | by apply (Forall_lookup_1 _ _ _ _ Hba Hps)] |].
  split; [done |]. split; [done |]. split; [done |]. split; [done |]. split; [done |]. split; [done |].
  split; [lia |]. destruct ps; [done |]. rewrite zlen_cons. pose proof (zlen_nonneg ps). lia.
Qed.

(** After [i] entries. *)
Definition compress_inv (m : nat) (i : Z) (st : BFile * FILE) (cl : CL) : Prop :=
  let '(df, ix) := st in let k := Z.to_nat i in
  BF_out df = crc_bits pa n (take k Ps) /\ bits_in_buf df = 0 /\
  BF_writable (crc_room pa n (drop k Ps) + m) df /\
  contents ix = ints_be (crc_offset pa n Ps <$> seq 0 k) /\ 4 * (zlen Ps - i) <= quota ix /\
  exists a e, cl = mkCL (Some a) e /\ has_index disk pa a n Ps.

Lemma compress_element_ok m i st cl :
  zlen (crc_bits pa n Ps) <= 8 * INT_MAX ->
  compress_inv m i st cl -> 0 <= i < zlen Ps ->
  exists st' cl', compress_element be disk pa n i st cl = Ok (st', cl') /\ compress_inv m (i + 1) st' cl'.
Proof using All.
  intros Hsize Hinv Hi. destruct st as [df ix].
  destruct Hinv as (Ho & H0 & Hw & Hc & Hq & a & e & -> & HI).
  destruct (open_element a e i HI Hi)
    as (ps & a1 & a2 & st & Hps & Hpne & Hgp & E1 & E2 & Hst & HI2 & Hs & Hb & Hl & Hpos).
  unfold compress_element. cda_call E1. change (negb (CDA_OK =? CDA_OK)) with false.
  rewrite (proj2 (Z.eqb_neq (zlen ps) 0)) by lia. cbn [orb].
  cda_call E2. change (negb (CDA_OK =? CDA_OK)) with false. cbv iota.
  set (k := Z.to_nat i) in *. assert (i = Z.of_nat k) as Hik by lia.
  assert (take (S k) Ps = take k Ps ++ [ps]) as Htk by (by apply take_S_r).
  assert (drop k Ps = ps :: drop (S k) Ps) as Hdk by (by apply drop_S).
  pose proof (crc_bits_div8 pa n (take k Ps)) as [j Hj].
  pose proof (BF_position_aligned _ df Hw H0) as Hposn. rewrite Ho, Hj in Hposn.
  assert (crc_offset pa n Ps k = position df) as Hoff.
  { unfold crc_offset. rewrite Hj, Z.div_mul; lia. }
  assert (0 <= position df <= INT_MAX) as Hpi.
  { pose proof (zlen_nonneg (crc_bits pa n (take k Ps))).
    rewrite <- (take_drop k Ps), crc_bits_app, zlen_app in Hsize.
    pose proof (zlen_nonneg (crc_bits pa n (drop k Ps))). lia. }
  rewrite (bindM_lift _ (position df)) by done.
  assert (s32 (position df) = position df) as Hs32.
  { rewrite <- (u32_small (position df)) at 1 by (unfold INT_MAX in *; lia). apply s32_u32. unfold INT_MIN. lia. }
  rewrite Hs32. rewrite (bindM_lift _ _ _ _ (NwriteInt_Ok be (position df) ix ltac:(lia))).
  rewrite Hdk in Hw. cbn [crc_room] in Hw.
  set (b := compute_ba pa (zlen ps) n) in *.
  destruct (compress_occurrences be b ps Hgp Hs Hb Hl (7 + (crc_room pa n (drop (S k) Ps) + m)) st df Hst)
    as (st' & last & df1 & E3 & Ho1 & Hw1).
  { by rewrite !Nat.add_assoc. }
  rewrite (bindM_lift _ _ _ _ E3).
  destruct (cl_delete_stream_ok st') as (st'' & E4).
  rewrite (bindM_lift _ _ _ _ E4).
  rewrite Ho in Ho1.
  destruct (BFflush_pads _ df1 _ _ Hw1 Ho1) as (r & df2 & E5 & Ho2 & Hw2 & H02); [by exists j |].
  rewrite (bindM_lift _ _ _ _ E5). cda.
  eexists _, _. split; [reflexivity |]. unfold compress_inv.
  replace (Z.to_nat (i + 1)) with (S k) by lia. cbn [snd contents quota]. split.
  { rewrite Ho2, Htk, crc_bits_app. f_equal.
    change (crc_bits pa n [ps]) with (elem_bits pa n ps ++ []). by rewrite app_nil_r. }
  split; [done |]. split; [done |]. split.
  { rewrite Hc, seq_S, fmap_app, ints_be_app. f_equal.
    change (ints_be _) with (be_bytes (crc_offset pa n Ps k) ++ []). by rewrite app_nil_r, Hoff. }
  split; [lia |]. eauto.
Qed.

(** The plain index is available, on disk or in memory. *)
Definition plain_available (a : Attribute) : Prop :=
  avail disk a CompRevCorpus = Some (ints_be (concat Ps)) /\
  avail disk a CompRevCorpusIdx = Some (ints_be (postings_offset Ps <$> seq 0 (length Ps))).

(** Once both components are loaded the plain index is used. *)
Lemma ensure_plain_index a e :
  has_postings disk a n Ps -> plain_available a ->
  exists c1 a1 c2 a2, ensure be disk CompRevCorpus (mkCL (Some a) e) = Ok (Some c1, mkCL (Some a1) e) /\
    ensure be disk CompRevCorpusIdx (mkCL (Some a1) e) = Ok (Some c2, mkCL (Some a2) e) /\
    has_index disk pa a2 n Ps.
Proof.
  intros HP [Hr Hx]. pose proof (ix_wf _ _ _ _ HP) as W.
  destruct (ensure_ok be disk a e CompRevCorpus _ ltac:(done) ltac:(done) Hr W)
    as (c1 & a1 & E1 & _ & _ & L1 & Hst1 & _).
  pose proof (loads_wf _ _ _ L1 W) as W1. pose proof Hx as Hx1. rewrite <- (loads_avail _ _ _ L1) in Hx1.
  destruct (ensure_ok be disk a1 e CompRevCorpusIdx _ ltac:(done) ltac:(done) Hx1 W1)
    as (c2 & a2 & E2 & _ & _ & L2 & Hst2 & _).
  assert (loads disk a a2) as L by by transitivity a1.
  exists c1, a1, c2, a2. split; [done |]. split; [done |]. split; [by eapply has_postings_loads |].
  left. split; [| by rewrite (loads_avail _ _ _ L) | by rewrite (loads_avail _ _ _ L)].
  unfold index_compressed. rewrite decide_True; [done |]. split; [by apply (loads_loaded _ _ _ L2) | done].
Qed.

(** The sizes both tools read first. *)
Lemma read_sizes a e :
  has_index disk pa a n Ps ->
  exists a1 a2, cl_max_id be disk (mkCL (Some a) e) = Ok (zlen Ps, mkCL (Some a1) CDA_OK) /\
    cl_max_cpos be disk (mkCL (Some a1) CDA_OK) = Ok (n, mkCL (Some a2) CDA_OK) /\
    has_index disk pa a2 n Ps /\ 0 < n /\ 0 < zlen Ps.
Proof.
  intros HI. destruct (cl_max_id_ok be disk a e n Ps (proj1 HI)) as (a1 & L1 & E1).
  pose proof (has_index_fwd _ _ _ _ _ _ L1 HI) as HI1.
  destruct (cl_max_cpos_ok be disk a1 CDA_OK n) as (a2 & E2 & L2); [apply HI1 | apply HI1 | apply HI1 |].
  exists a1, a2. split; [done |]. split; [done |]. split; [by eapply has_index_fwd |].
  pose proof (ix_pos _ _ _ _ (proj1 HI)). pose proof (ix_range _ _ _ _ (proj1 HI)). lia.
Qed.

Lemma compress_reversed_index_ok a e q q2 :
  has_postings disk a n Ps -> plain_available a ->
  Z.of_nat (crc_room pa n Ps) + 15 < 8 * q + 8 -> 4 * zlen Ps <= q2 ->
  zlen (crc_bits pa n Ps) <= 8 * INT_MAX ->
  exists df ix cl f,
    compress_reversed_index be disk pa (Some (mkFILE [] 0 q false)) (Some (mkFILE [] 0 q2 false))
      (mkCL (Some a) e) = Ok ((df, ix), cl) /\
    handle df = Some f /\ byte_bits (contents f) = crc_bits pa n Ps /\
    contents ix = ints_be (crc_offset pa n Ps <$> seq 0 (length Ps)).
Proof using All.
  intros HP Hpl Hq Hq2 Hsize. unfold compress_reversed_index.
  destruct (ensure_plain_index a e HP Hpl) as (c1 & a1 & c2 & a2 & E1 & E2 & HI2).
  cda_call E1. cda_call E2.
  destruct (read_sizes a2 e HI2) as (a3 & a4 & E3 & E4 & HI4 & Hn & Hlen).
  cda_call E3. change (negb (CDA_OK =? CDA_OK)) with false.
  rewrite (proj2 (Z.leb_gt (zlen Ps) 0)) by lia. cbn [orb].
  cda_call E4. change (negb (CDA_OK =? CDA_OK)) with false.
  rewrite (proj2 (Z.leb_gt n 0)) by lia. cbn [orb].
  destruct (BFopen_write q (crc_room pa n Ps + 15)) as (df0 & Eo & Ho0 & Hw0); [lia |].
  pose proof Eo as Eo'. injection Eo' as Hdf0.
  rewrite (bindM_lift _ _ _ _ Eo). cbn [fst snd]. change (1 =? 0) with false. cbv iota.
  destruct (forM_up_rule (compress_element be disk pa n) (compress_inv 15) 0 (zlen Ps) (df0, mkFILE [] 0 q2 false)
              (mkCL (Some a4) CDA_OK)) as (st & cl & Ef & Hinv).
  - lia.
  - intros i st cl Hi Hinv. apply compress_element_ok; [done | done | lia].
  - split; [done |]. split; [by rewrite <- Hdf0 |]. split; [done |]. split; [done |].
    split; [cbn; lia |]. eauto.
  - rewrite (bindM_Ok _ _ _ _ _ Ef). destruct st as [df ix].
    destruct Hinv as (Ho & H0 & Hw & Hc & _).
    replace (Z.to_nat (zlen Ps)) with (length Ps) in * by (unfold zlen; lia).
    rewrite firstn_all in Ho. rewrite drop_all in Hw. cbn [crc_room Nat.add] in Hw.
    destruct (BFclose_write 0 df Hw) as (df' & f & Ec & Hf & Hbits).
    rewrite (bindM_lift _ _ _ _ Ec). cda. eexists _, _, _, f. split; [reflexivity |]. cbn [fst snd].
    split; [done |]. rewrite H0 in Hbits. change (pad_bits 0) with 0%nat in Hbits.
    cbn [replicate] in Hbits. rewrite app_nil_r, Ho in Hbits. done.
Qed.

(** The data written is a compressed index of the same postings. *)
Lemma crc_data_ok rc :
  byte_bits rc = crc_bits pa n Ps -> zlen (crc_bits pa n Ps) <= 8 * INT_MAX ->
  zlen rc <= INT_MAX /\
  forall i ps, Ps !! i = Some ps ->
    compute_ba pa (zlen ps) n <= 2 ^ 30 /\
    exists off rest, (crc_offset pa n Ps <$> seq 0 (length Ps)) !! i = Some off /\ 0 <= off <= INT_MAX /\
      byte_bits (drop (Z.to_nat off) rc) = gap_bits (compute_ba pa (zlen ps) n) 0 ps ++ rest.
Proof using Hba.
  intros Hrc Hsize. assert (8 * zlen rc = zlen (crc_bits pa n Ps)) as Hlen.
  { rewrite <- Hrc. unfold zlen. rewrite length_byte_bits. lia. }
  assert (zlen rc <= INT_MAX) as Hrcl by lia. split; [done |].
  intros i ps Hi. split; [by apply (Forall_lookup_1 _ _ _ _ Hba Hi) |].
  pose proof (lookup_lt_Some _ _ _ Hi) as Hil.
  exists (crc_offset pa n Ps i). eexists. split; [by rewrite list_lookup_fmap, lookup_seq_lt by done |].
  pose proof (crc_bits_div8 pa n (take i Ps)) as [j Hj].
  assert (crc_offset pa n Ps i = j) as -> by (unfold crc_offset; rewrite Hj, Z.div_mul; lia).
  pose proof (zlen_nonneg (crc_bits pa n (take i Ps))).
  rewrite <- (take_drop_middle Ps i ps Hi), crc_bits_app in Hrc, Hlen.
  rewrite zlen_app in Hlen. pose proof (zlen_nonneg (crc_bits pa n (ps :: drop (S i) Ps))).
  split; [lia |].
  transitivity (crc_bits pa n (ps :: drop (S i) Ps)); cycle 1.
  { change (crc_bits pa n (ps :: drop (S i) Ps)) with (elem_bits pa n ps ++ crc_bits pa n (drop (S i) Ps)).
    unfold elem_bits. rewrite <- app_assoc. reflexivity. }
  rewrite <- (take_drop (Z.to_nat j) rc), byte_bits_app in Hrc.
  apply app_inj_1 in Hrc as [_ Hrc]; [done |].
  rewrite length_byte_bits, length_take. unfold zlen in *. lia.
Qed.

(** ** The check accepts the data *)

Lemma crc_drop rc i :
  byte_bits rc = crc_bits pa n Ps -> (i <= length Ps)%nat ->
  exists l, byte_bits l = crc_bits pa n (drop i Ps).
Proof using.
  intros Hrc Hi. pose proof (crc_bits_div8 pa n (take i Ps)) as [j Hj].
  exists (drop (Z.to_nat j) rc). rewrite <- (take_drop i Ps), crc_bits_app in Hrc.
  pose proof (f_equal length Hrc) as Hl. rewrite length_byte_bits, length_app in Hl.
  rewrite <- (take_drop (Z.to_nat j) rc), byte_bits_app in Hrc.
  apply app_inj_1 in Hrc as [_ Hrc]; [done |].
  rewrite length_byte_bits, length_take. unfold zlen in *. lia.
Qed.

Lemma gap_bits_nonempty b ps : ps <> [] -> gap_bits b 0 ps <> [].
Proof using.
  destruct ps as [|p ps]; [done |]. intros _. cbn [gap_bits]. unfold golomb_bits.
  destruct (replicate _ true); discriminate.
Qed.

Lemma BFflush_read_total df :
  mode df = "r"%char -> handle df <> None ->
  exists r df', BFflush df = Ok (r, df') /\ mode df' = "r"%char /\ handle df' <> None.
Proof using.
  intros Hm Hh. unfold BFflush. rewrite Hm. change (Ascii.eqb "r" "w") with false.
  change (Ascii.eqb "r" "r") with true. cbv iota.
  destruct (handle df) as [f|]; [| done]. unfold BF_get. res_cbn. unfold fread1.
  destruct (_ <=? _)%nat; [destruct (take _ _) as [|x [|y l]] |]; res_cbn;
    (eexists _, _; split; [reflexivity |]; cbn; done).
Qed.

Definition check_inv (i : Z) (df : BFile) (cl : CL) : Prop :=
  mode df = "r"%char /\ handle df <> None /\
  (i < zlen Ps -> rd_ok df /\ rd_in df = crc_bits pa n (drop (Z.to_nat i) Ps)) /\
  exists a e, cl = mkCL (Some a) e /\ has_index disk pa a n Ps.

Lemma check_element_ok rc i df cl :
  byte_bits rc = crc_bits pa n Ps -> check_inv i df cl -> 0 <= i < zlen Ps ->
  exists df' cl', check_element be disk pa n i df cl = Ok (df', cl') /\ check_inv (i + 1) df' cl'.
Proof using Htot Hne Hba.
  intros Hrc (Hm & Hh & Hdata & a & e & -> & HI) Hi.
  destruct (Hdata ltac:(lia)) as [Hok Hin].
  destruct (open_element a e i HI Hi)
    as (ps & a1 & a2 & st & Hps & Hpne & Hgp & E1 & E2 & Hst & HI2 & Hs & Hb & Hl & Hpos).
  unfold check_element. cda_call E1. change (negb (CDA_OK =? CDA_OK)) with false.
  rewrite (proj2 (Z.eqb_neq (zlen ps) 0)) by lia. cbn [orb].
  cda_call E2. change (negb (CDA_OK =? CDA_OK)) with false. cbv iota.
  rewrite (drop_S Ps ps _ Hps) in Hin.
  change (crc_bits pa n (ps :: drop (S (Z.to_nat i)) Ps))
    with (elem_bits pa n ps ++ crc_bits pa n (drop (S (Z.to_nat i)) Ps)) in Hin.
  unfold elem_bits in Hin. rewrite <- app_assoc in Hin. set (g := gap_bits _ 0 ps) in *.
  destruct (check_occurrences be _ ps Hgp Hs Hb Hl st df _ Hst Hok Hin)
    as (st' & last & df1 & E3 & Hin1 & Hok1 & Hmid1).
  rewrite (bindM_lift _ _ _ _ E3). destruct (cl_delete_stream_ok st') as (st'' & E4).
  rewrite (bindM_lift _ _ _ _ E4). destruct Hok1 as [(Hm1 & Hb1 & Hh1) Hlen1].
  destruct (BFflush_read_total df1 Hm1 Hh1) as (r & df2 & E5 & Hm2 & Hh2).
  rewrite (bindM_lift _ _ _ _ E5). cda. eexists _, _. split; [reflexivity |]. cbn [snd].
  split; [done |]. split; [done |]. split; [| by eauto]. intros Hi1.
  replace (Z.to_nat (i + 1)) with (S (Z.to_nat i)) by lia.
  destruct (crc_drop rc (S (Z.to_nat i)) Hrc) as [l Hbl]; [unfold zlen in Hi1; lia |].
  rewrite <- Hbl in Hin1 |- *.
  destruct (BFflush_read (replicate (pad_bits (zlen g)) false) l df1) as (df3 & E6 & Hin3 & Hr3).
  - by split.
  - by apply Hmid1.
  - rewrite length_replicate. unfold pad_bits. pose proof (Z.mod_pos_bound (- zlen g) 8). lia.
  - exact Hin1.
  - intros ->. symmetry in Hbl. destruct (drop (S (Z.to_nat i)) Ps) as [|ps' Ps'] eqn:Hd.
    { apply (f_equal length) in Hd. rewrite length_drop in Hd. unfold zlen in Hi1. simpl in Hd. lia. }
    assert (ps' <> []) as Hne'.
    { assert (ps' ∈ Ps) as Hel by (rewrite <- (take_drop (S (Z.to_nat i)) Ps), Hd; apply elem_of_app; right; left).
      rewrite Forall_forall in Hne. by apply Hne. }
    change (crc_bits pa n (ps' :: Ps')) with (elem_bits pa n ps' ++ crc_bits pa n Ps') in Hbl.
    unfold elem_bits in Hbl. apply app_eq_nil in Hbl as [Hbl _]. apply app_eq_nil in Hbl as [Hbl _].
    by apply gap_bits_nonempty in Hbl.
  - rewrite E5 in E6. injection E6 as -> ->. split; [| exact Hin3]. cbn. split; [done |].
    rewrite Hin3. cbn in Hlen1. change (BF_in df1) with (rd_in df1) in Hlen1.
    rewrite Hin1, length_app in Hlen1. lia.
Qed.

Lemma decompress_check_ok a e rc q ixf :
  has_index disk pa a n Ps -> byte_bits rc = crc_bits pa n Ps -> zlen rc <= INT_MAX ->
  exists cl, decompress_check_reversed_index be disk pa (Some (mkFILE rc 0 q false)) (Some ixf)
    (mkCL (Some a) e) = Ok ((), cl).
Proof using Htot Hne Hba.
  intros HI Hrc Hsz. unfold decompress_check_reversed_index.
  destruct (read_sizes a e HI) as (a3 & a4 & E3 & E4 & HI4 & Hn & Hlen).
  cda_call E3. change (negb (CDA_OK =? CDA_OK)) with false.
  rewrite (proj2 (Z.leb_gt (zlen Ps) 0)) by lia. cbn [orb].
  cda_call E4. change (negb (CDA_OK =? CDA_OK)) with false.
  rewrite (proj2 (Z.leb_gt n 0)) by lia. cbn [orb].
  destruct (BFopen_read rc q) as (df0 & Eo & Hin0 & Hr0).
  rewrite (bindM_lift _ _ _ _ Eo). cbn [fst snd]. change (1 =? 0) with false. cbv iota.
  destruct (forM_up_rule (check_element be disk pa n) check_inv 0 (zlen Ps) df0
              (mkCL (Some a4) CDA_OK)) as (df & cl & Ef & Hinv).
  - lia.
  - intros i df cl Hi Hinv. by apply (check_element_ok rc).
  - pose proof Hr0 as (Hm0 & _ & Hh0). split; [done |]. split; [done |]. split; [| eauto].
    intros _. cbn [Z.to_nat]. rewrite drop_0. split; [| cbn; by rewrite Hin0].
    cbn. split; [done |]. rewrite Hin0, length_byte_bits. unfold zlen, INT_MAX in Hsz. lia.
  - rewrite (bindM_Ok _ _ _ _ _ Ef). destruct Hinv as (Hm & Hh & _).
    unfold BFclose. rewrite Hm. change (Ascii.eqb "r" "w") with false. cbv iota. rewrite bind_Ok. cbn [snd].
    destruct (handle df) as [f|] eqn:Hf; [| done]. rewrite deref_Some, bind_Ok.
    rewrite (bindM_lift _ _ _ _ eq_refl). cda. eauto.
Qed.
End Compress.

(** ** Theorems *)

(** C23. Compressing the index of an attribute and reading it back: the tool
    writes two files such that every attribute with the same postings that
    finds them as its components CRC and CRCIDX returns, for every id and every
    restrictor list, exactly the positions of the plain index, on machines of
    either byte order. *)
Theorem compress_reversed_index_correct (be : bool) (disk : gmap string (list Z)) (pa : Z -> Z -> Z)
    (a : Attribute) (e n q q2 : Z) (Ps : list (list Z)) :
  has_postings disk a n Ps -> plain_available disk Ps a ->
  zlen (concat Ps) <= INT_MAX -> Forall (fun ps => ps <> []) Ps ->
  Forall (fun ps => compute_ba pa (zlen ps) n <= 2 ^ 30) Ps ->
  Z.of_nat (crc_room pa n Ps) + 15 < 8 * q + 8 -> 4 * zlen Ps <= q2 ->
  zlen (crc_bits pa n Ps) <= 8 * INT_MAX ->
  exists df ix cl f,
    compress_reversed_index be disk pa (Some (mkFILE [] 0 q false)) (Some (mkFILE [] 0 q2 false))
      (mkCL (Some a) e) = Ok ((df, ix), cl) /\ handle df = Some f /\
    forall be' disk' a' e' id freq0 restrictor,
      has_postings disk' a' n Ps -> index_compressed disk' a' = true ->
      avail disk' a' CompCompRF = Some (contents f) -> avail disk' a' CompCompRFX = Some (contents ix) ->
      restrictor_ok restrictor ->
      exists cl', cl_id2cpos_oldstyle be' disk' pa id freq0 (flat_restrictor restrictor)
          (restrictor_size restrictor) (mkCL (Some a') e') =
        Ok (match (if id <? 0 then None else Ps !! Z.to_nat id) with
            | Some ps => cpos_result (kept restrictor ps) ps
            | None => (None, 0)
            end, cl').
Proof.
  intros HP Hpl Htot Hne Hba Hq Hq2 Hsz.
  destruct (compress_reversed_index_ok be disk pa n Ps Htot Hne Hba a e q q2 HP Hpl Hq Hq2 Hsz)
    as (df & ix & cl & f & E & Hf & Hbits & Hix).
  exists df, ix, cl, f. split; [done |]. split; [done |].
  intros be' disk' a' e' id freq0 restrictor HP' Hc Ha1 Ha2 HR.
  assert (has_index disk' pa a' n Ps) as HI.
  { split; [done |]. right. split; [done |]. rewrite Hix in Ha2.
    destruct (crc_data_ok pa n Ps Hba _ Hbits Hsz) as [Hl Hd]. eauto 10. }
  destruct (cl_id2cpos_ok be' disk' pa a' e' n Ps id freq0 restrictor HI Htot HR) as (a'' & _ & ->).
  destruct (if id <? 0 then None else Ps !! Z.to_nat id); eauto.
Qed.

(** The validation pass [decompress_check_reversed_index] accepts what
    [compress_reversed_index] wrote: it reads every gap of every entry, skips the
    padding between entries, and ends without calling [exit]. *)
Theorem decompress_check_accepts (be be' : bool) (disk : gmap string (list Z)) (pa : Z -> Z -> Z)
    (a a' : Attribute) (e e' n q q2 : Z) (Ps : list (list Z)) :
  has_postings disk a n Ps -> plain_available disk Ps a -> has_index disk pa a' n Ps ->
  zlen (concat Ps) <= INT_MAX -> Forall (fun ps => ps <> []) Ps ->
  Forall (fun ps => compute_ba pa (zlen ps) n <= 2 ^ 30) Ps ->
  Z.of_nat (crc_room pa n Ps) + 15 < 8 * q + 8 -> 4 * zlen Ps <= q2 ->
  zlen (crc_bits pa n Ps) <= 8 * INT_MAX ->
  exists df ix cl f cl',
    compress_reversed_index be disk pa (Some (mkFILE [] 0 q false)) (Some (mkFILE [] 0 q2 false))
      (mkCL (Some a) e) = Ok ((df, ix), cl) /\ handle df = Some f /\
    decompress_check_reversed_index be' disk pa (Some (mkFILE (contents f) 0 0 false)) (Some ix)
      (mkCL (Some a') e') = Ok ((), cl').
Proof.
  intros HP Hpl HI' Htot Hne Hba Hq Hq2 Hsz.
  destruct (compress_reversed_index_ok be disk pa n Ps Htot Hne Hba a e q q2 HP Hpl Hq Hq2 Hsz)
    as (df & ix & cl & f & E & Hf & Hbits & Hix).
  destruct (crc_data_ok pa n Ps Hba _ Hbits Hsz) as [Hl _].
  destruct (decompress_check_ok be' disk pa n Ps Htot Hne Hba a' e' (contents f) 0 ix HI' Hbits Hl)
    as (cl' & E').
  eauto 10.
Qed.

Lemma compress_reversed_index_correct_witness :
  exists df ix cl f,
    compress_reversed_index true ∅ (fun _ _ => 3) (Some (mkFILE [] 0 99 false)) (Some (mkFILE [] 0 99 false))
      (mkCL (Some ex_indexed) 0) = Ok ((df, ix), cl) /\ handle df = Some f /\
    forall be' disk' a' e' id freq0 restrictor,
      has_postings disk' a' 6 ex_postings -> index_compressed disk' a' = true ->
      avail disk' a' CompCompRF = Some (contents f) -> avail disk' a' CompCompRFX = Some (contents ix) ->
      restrictor_ok restrictor ->
      exists cl', cl_id2cpos_oldstyle be' disk' (fun _ _ => 3) id freq0 (flat_restrictor restrictor)
          (restrictor_size restrictor) (mkCL (Some a') e') =
        Ok (match (if id <? 0 then None else ex_postings !! Z.to_nat id) with
            | Some ps => cpos_result (kept restrictor ps) ps
            | None => (None, 0)
            end, cl').
Proof.
  apply (compress_reversed_index_correct true ∅ (fun _ _ => 3) ex_indexed 0 6 99 99 ex_postings).
  - apply (ex_has_index ∅ (fun _ _ => 3)).
  - split; reflexivity.
  - vm_compute. discriminate.
  - repeat constructor; discriminate.
  - repeat constructor; vm_compute; discriminate.
  - vm_compute. reflexivity.
  - vm_compute. discriminate.
  - vm_compute. discriminate.
Defined.

Lemma decompress_check_accepts_witness :
  exists df ix cl f cl',
    compress_reversed_index true ∅ (fun _ _ => 3) (Some (mkFILE [] 0 99 false)) (Some (mkFILE [] 0 99 false))
      (mkCL (Some ex_indexed) 0) = Ok ((df, ix), cl) /\ handle df = Some f /\
    decompress_check_reversed_index false ∅ (fun _ _ => 3) (Some (mkFILE (contents f) 0 0 false)) (Some ix)
      (mkCL (Some ex_indexed) 0) = Ok ((), cl').
Proof.
  apply (decompress_check_accepts true false ∅ (fun _ _ => 3) ex_indexed ex_indexed 0 0 6 99 99 ex_postings).
  - apply (ex_has_index ∅ (fun _ _ => 3)).
  - split; reflexivity.
  - apply ex_has_index.
  - vm_compute. discriminate.
  - repeat constructor; discriminate.
  - repeat constructor; vm_compute; discriminate.
  - vm_compute. reflexivity.
  - vm_compute. discriminate.
  - vm_compute. discriminate.
Defined.
