(* ===== verification/MakeComps.v ===== *)
(** * Building index components: cl/makecomps.c

    [creat_freqs] counts the tokens of each type, [creat_rev_corpus] sorts the
    corpus positions by type id in several passes with a buffer of limited size,
    [creat_rev_corpus_idx] computes where the positions of each id start, and
    [creat_sort_lexicon] sorts the lexicon.  [create_component] of
    cl/attributes.c dispatches to them.  Definitions; the theorems are in
    MakeFreqs, MakeRevCorpus and MakeLexicon. *)

From Stdlib Require Import ZArith Lia String Ascii.
From stdpp Require Import base tactics option list numbers gmap strings.
From S2P Require Import Prelude Bits Storage BitIO Golomb Blob Attributes ComponentPaths CDA Lexicon Positional.

Open Scope Z_scope.

Definition BUFSIZE : Z := 65536.

Definition u64 (x : Z) : Z := x mod 2 ^ 64.

Section MakeComps.
Context (be : bool) (disk : gmap string (list Z)).

(** What the component file names are made of, and the static buffer of
    [component_full_name]; see ComponentPaths. *)
Context (home : option string) (aname : string) (apath mother_path : option string).

(** The contents of a block of [n] cells that [cl_malloc] returned. *)
Context (garbage : Z -> list Z).

(** [cl_memory_limit], in megabytes. *)
Context (cl_memory_limit : Z).

(** [qsort(base, n, sizeof(int), cmp)] on an array of [int]s; comparing may fault. *)
Context (qsort : (Z -> Z -> res Z) -> list Z -> res (list Z)).

Definition store_component (cid : ComponentID) (comp : Component) : M unit :=
  a ← attribute; set_attribute (set_components a (<[cid := comp]> (components a))).

Definition load_from (comp : Component) : option (list Z) := file_of disk comp.

(** [for (i = 0; i < n; i++) data[i] = htonl(data[i])] *)
Definition to_network (n : Z) (d : list Z) : res (list Z) :=
  for_up (fun i d => v ← iget be d i; iset be d i (htonl be v)) 0 n d.

(** ** Sorted lexicon *)

Definition scompare (lex idx : list Z) (i1 i2 : Z) : res Z :=
  o1 ← nget be idx i1;
  o2 ← nget be idx i2;
  s1 ← c_string lex o1;
  s2 ← c_string lex o2;
  Ok (cl_strcmp s1 s2).

(** The return value and the file that was written; [out] is the stream
    [fopen(lexsrt->path, "wb")] returns. *)
Definition creat_sort_lexicon (lexsrt : ComponentID) (out : option FILE) : M (Z * option FILE) :=
  a ← attribute;
  comp ← lift (deref (find_component a lexsrt));
  _ ← lift (c_assert (bool_decide (comp_component_state disk lexsrt comp = ComponentDefined)));
  lex ← ensure be disk CompLexicon;
  lexidx ← ensure be disk CompLexiconIdx;
  match lex, lexidx with
  | Some lex, Some lexidx =>
      _ ← lift (c_assert (if path comp is Some _ then true else false));
      _ ← lift (c_assert (0 <? size (comp_data lexidx)));
      idx ← lift (if data (comp_data lexidx) is Some d then Ok d else Err AssertFail);
      let '(ok, blob) := read_file_into_blob (load_from lexidx) MALLOCED SIZE_INT (comp_data comp) in
      if ok =? 0 then
        _ ← store_component lexsrt (mkComp (path comp) (comp_size comp) blob);
        mret (0, None)
      else
        _ ← lift (c_assert (size (comp_data lexidx) =? size blob));
        _ ← lift (c_assert (nr_items (comp_data lexidx) =? nr_items blob));
        _ ← lift (c_assert (item_size (comp_data lexidx) =? item_size blob));
        let sz := comp_size lexidx in
        d ← lift (deref (data blob));
        d ← lift (for_up (fun i d => iset be d i i) 0 (nr_items blob) d);
        strs ← lift (comp_bytes lex);
        l ← lift (qsort (scompare strs idx) (s32 <$> native_ints be (take (Z.to_nat (4 * sz)) d)));
        let d := ints_native be l ++ drop (Z.to_nat (4 * sz)) d in
        let blob := mkBlob (size blob) (item_size blob) (nr_items blob) (Some d) (allocation_method blob) in
        w ← lift (write_file_from_blob be out blob true);
        if w.1 =? 0 then
          _ ← store_component lexsrt (mkComp (path comp) sz blob);
          mret (0, w.2)
        else
          d ← lift (to_network (nr_items blob) d);
          _ ← store_component lexsrt (mkComp (path comp) sz
                (mkBlob (size blob) (item_size blob) (nr_items blob) (Some d) (allocation_method blob)));
          mret (1, w.2)
  | _, _ => lift (Err AssertFail)
  end.

(** ** Frequencies *)

(** [for (k = 0; k < i; k++) { ptr = ntohl(mc_buf[k]); ... }]: ids that are out of
    range are reported and not counted. *)
Definition count_ints (size : Z) (mc_buf : list Z) (i : Z) (d : list Z) : res (list Z) :=
  for_up (fun k d =>
    ptr ← nget_int be mc_buf k;
    if (0 <=? ptr) && (ptr <? size) then
      v ← iget be d ptr;
      v ← c_int (s32 v + 1);
      iset be d ptr v
    else Ok d) 0 i d.

(** [do { i = fread(mc_buf, sizeof(int), BUFSIZE, fd); ... } while (i == BUFSIZE)];
    [rest] is what is left of the file. *)
Definition count_round (size : Z) (st : list Z * list Z) : res (list Z * list Z + list Z) :=
  let '(rest, d) := st in
  let i := Z.min BUFSIZE (zlen rest / 4) in
  let mc_buf := take (Z.to_nat (4 * i)) rest in
  let rest := drop (Z.to_nat (4 * i)) rest in
  d ← count_ints size mc_buf i d;
  if i =? BUFSIZE then Ok (inl (rest, d)) else Ok (inr d).

(** [freqs] names the component the function is called with. *)
Definition creat_freqs (freqs : ComponentID) (buf : list ascii) (out : option FILE) : M (Z * option FILE) :=
  lexidx ← ensure be disk CompLexiconIdx;
  a ← attribute;
  comp ← lift (deref (find_component a freqs));
  _ ← lift (c_assert (if data (comp_data comp) is None then true else false));
  match lexidx with
  | None => lift (Err AssertFail)
  | Some lexidx =>
      comp ← lift (if decide (freqs = CompCorpusFreqs) then Ok comp
                   else match find_component a CompCorpusFreqs with Some c => Ok c | None => Err AssertFail end);
      let '(ok, blob) := read_file_into_blob (load_from lexidx) MALLOCED SIZE_INT (comp_data comp) in
      if ok =? 0 then
        _ ← store_component CompCorpusFreqs (mkComp (path comp) (comp_size comp) blob);
        mret (0, None)
      else
        let d := replicate (Z.to_nat (size blob)) 0 in
        _ ← lift (c_assert (size (comp_data lexidx) =? size blob));
        let sz := comp_size lexidx in
        n ← lift (component_full_name home aname apath mother_path 4 0 (mkPaths buf (components a)) CompCorpus None);
        _ ← set_attribute (set_components a (comps n.2));
        corpus_fn ← lift (match n.1 with
                          | Some (Str p) => Ok p
                          | Some Buf => l ← c_chars (ComponentPaths.buf n.2); Ok (of_chars l)
                          | None => Err AssertFail
                          end);
        match disk !! corpus_fn with
        | None => lift (Err ExitCall)
        | Some fd =>
            d ← lift (loop (count_round sz) fuel (fd, d));
            let blob := mkBlob (size blob) (item_size blob) (nr_items blob) (Some d) (allocation_method blob) in
            w ← lift (write_file_from_blob be out blob true);
            if w.1 =? 0 then
              _ ← store_component CompCorpusFreqs (mkComp (path comp) sz blob);
              mret (0, w.2)
            else
              d ← lift (to_network sz d);
              _ ← store_component CompCorpusFreqs (mkComp (path comp) sz
                    (mkBlob (size blob) (item_size blob) (nr_items blob) (Some d) (allocation_method blob)));
              mret (1, w.2)
        end
  end.

(** ** Reversed corpus *)

(** [for (secundus = primus + 1; secundus < lexsize; secundus++)]: the ids that fit
    into the buffer; pointers into the buffer are indices. *)
Definition fit_round (lexsize bufsize : Z) (st : Z * Z * list Z) : M (Z * Z * list Z + Z * Z * list Z) :=
  let '(secundus, buf_used, ptab) := st in
  if secundus <? lexsize then
    f ← cl_id2freq be disk secundus;
    n ← lift (c_int (buf_used + f));
    if bufsize <? u64 n then mret (inr (secundus, buf_used, ptab))
    else
      ptab ← lift (aset ptab secundus buf_used);
      mret (inl (secundus + 1, n, ptab))
  else mret (inr (secundus, buf_used, ptab)).

(** [for (cpos = 0; cpos < datasize; cpos++)] *)
Definition scan_token (lexsize primus secundus : Z) (cpos : Z) (st : list Z * list Z * FILE * Z)
  : M (list Z * list Z * FILE * Z) :=
  let '(buffer, ptab, fd, ints_written) := st in
  id ← cl_cpos2id be disk cpos;
  _ ← lift (c_assert ((0 <=? id) && (id <? lexsize)));
  if id =? primus then
    fd ← lift (NwriteInt be cpos fd);
    n ← lift (c_int (ints_written + 1));
    mret (buffer, ptab, fd, n)
  else if (primus <? id) && (id <=? secundus) then
    p ← lift (aget ptab id);
    buffer ← lift (aset buffer p cpos);
    ptab ← lift (aset ptab id (p + 1));
    mret (buffer, ptab, fd, ints_written)
  else mret (buffer, ptab, fd, ints_written).

(** [ptr += cl_id2freq(attr, id); if (ptr != ptab[id]) exit(1);] *)
Definition check_pointer (ptab : list Z) (id ptr : Z) : M Z :=
  f ← cl_id2freq be disk id;
  p ← lift (aget ptab id);
  if negb (ptr + f =? p) then lift (Err ExitCall) else mret (ptr + f).

(** One pass through the corpus. *)
Definition rev_pass (lexsize datasize bufsize : Z) (st : Z * Z * Z * Z * list Z * list Z * FILE)
  : M (Z * Z * Z * Z * list Z * list Z * FILE + Z * Z * Z * FILE) :=
  let '(primus, ints_written, pass, cpos, buffer, ptab, fd) := st in
  if primus <? lexsize then
    r ← loopM (fit_round lexsize bufsize) fuel (primus + 1, 0, ptab);
    let '(secundus, buf_used, ptab) := r in
    let secundus := secundus - 1 in
    pass ← lift (c_int (pass + 1));
    r ← forM_up (scan_token lexsize primus secundus) 0 datasize (buffer, ptab, fd, ints_written);
    let '(buffer, ptab, fd, ints_written) := r in
    _ ← forM_up (check_pointer ptab) (primus + 1) (secundus + 1) 0;
    fd ← lift (NwriteInts be buffer buf_used fd);
    ints_written ← lift (c_int (ints_written + buf_used));
    mret (inl (secundus + 1, ints_written, pass, Z.max 0 datasize, buffer, ptab, fd))
  else mret (inr (ints_written, cpos, pass, fd)).

(** The number of passes and the file that was written.  An allocation whose size
    comes from a negative number fails, and [cl_malloc] exits. *)
Definition creat_rev_corpus (revcorp : ComponentID) (out : option FILE) : M (Z * FILE) :=
  a ← attribute;
  comp ← lift (if find_component a revcorp is Some c then Ok c else Err AssertFail);
  _ ← lift (c_assert (if path comp is Some _ then true else false));
  _ ← lift (c_assert (if data (comp_data comp) is None then true else false));
  freqs ← ensure be disk CompCorpusFreqs;
  _ ← lift (c_assert (if freqs is Some _ then true else false));
  lexsize ← cl_max_id be disk;
  datasize ← cl_max_cpos be disk;
  if (lexsize <? 0) || (datasize <? 0) then lift (Err ExitCall) else
  let bufsize := if 0 <? cl_memory_limit then u64 (cl_memory_limit * (256 * 1024)) else datasize in
  let bufsize := if datasize <? bufsize then datasize else bufsize in
  match out with
  | None => lift (Err ExitCall)
  | Some fd =>
      r ← loopM (rev_pass lexsize datasize bufsize) fuel
            (0, 0, 0, 0, garbage bufsize, garbage lexsize, fd);
      let '(ints_written, cpos, pass, fd) := r in
      if negb (ints_written =? cpos) || negb (ints_written =? datasize) then lift (Err ExitCall)
      else mret (pass, fd)
  end.

(** ** Index of the reversed corpus *)

Definition rev_idx_round (freqs : list Z) (k : Z) (st : list Z * Z) : res (list Z * Z) :=
  let '(d, sum) := st in
  i ← nget_int be freqs k;
  d ← iset be d k (htonl be sum);
  sum ← c_int (sum + i);
  Ok (d, sum).

Definition creat_rev_corpus_idx (revcidx : ComponentID) (out : option FILE) : M (Z * option FILE) :=
  freqs ← ensure be disk CompCorpusFreqs;
  a ← attribute;
  comp ← lift (deref (find_component a revcidx));
  _ ← lift (c_assert (if path comp is Some _ then true else false));
  _ ← lift (c_assert (if data (comp_data comp) is None then true else false));
  match freqs with
  | None => lift (Err AssertFail)
  | Some freqs =>
      let sz := size (comp_data freqs) in
      let n := nr_items (comp_data freqs) in
      if 4 * n <? sz then lift (Err OutOfBounds) else
      let d := replicate (Z.to_nat sz) 0 ++ drop (Z.to_nat sz) (garbage (4 * n)) in
      fd ← lift (comp_bytes freqs);
      r ← lift (for_up (rev_idx_round fd) 0 (comp_size freqs) (d, 0));
      let blob := mkBlob sz SIZE_INT n (Some r.1) MALLOCED in
      w ← lift (write_file_from_blob be out blob false);
      _ ← store_component revcidx (mkComp (path comp) (s32 n) blob);
      if w.1 =? 0 then lift (Err ExitCall) else mret (1, w.2)
  end.
End MakeComps.

Lemma store_component_run cid comp a e :
  store_component cid comp (mkCL (Some a) e) =
    Ok (tt, mkCL (Some (set_components a (<[cid := comp]> (components a)))) e).
Proof. reflexivity. Qed.
