(* ===== verification/MakeFreqs.v ===== *)
(** * Token frequencies: the theorem about [creat_freqs]

    A corpus is the list [C] of the type ids of its tokens; [occ C i] are the
    positions of the id [i], and [freq_table C n] the number of them for every id
    below [n].  The loading of one component is described exactly here
    ([ensure_exact]), because the functions of MakeComps also use the sizes
    stored in the blob of a component. *)

From Stdlib Require Import ZArith Lia String Ascii Sorted.
From stdpp Require Import base tactics option list numbers gmap strings sorting.
From S2P Require Import Prelude Bits Storage Blob Attributes ComponentPaths CDA Lexicon Positional MakeComps.

Open Scope Z_scope.

(** ** Occurrences *)

Fixpoint occ_from (k : Z) (C : list Z) (i : Z) : list Z :=
  match C with
  | [] => []
  | c :: C => if c =? i then k :: occ_from (k + 1) C i else occ_from (k + 1) C i
  end.

Definition occ (C : list Z) (i : Z) : list Z := occ_from 0 C i.

Lemma occ_from_app k C D i : occ_from k (C ++ D) i = occ_from k C i ++ occ_from (k + zlen C) D i.
Proof.
  revert k. induction C as [|c C IH]; intros k; cbn [app occ_from].
  - by rewrite Z.add_0_r.
  - rewrite zlen_cons, IH, Z.add_assoc. by destruct (c =? i).
Qed.

Lemma occ_snoc C c i : occ (C ++ [c]) i = occ C i ++ (if c =? i then [zlen C] else []).
Proof. unfold occ. rewrite occ_from_app. cbn [occ_from]. rewrite Z.add_0_l. by destruct (c =? i). Qed.

Lemma occ_take_S C k c i :
  C !! k = Some c -> occ (take (S k) C) i = occ (take k C) i ++ (if c =? i then [Z.of_nat k] else []).
Proof.
  intros H. rewrite (take_S_r _ _ _ H), occ_snoc. unfold zlen. rewrite length_take_le; [done |].
  apply lookup_lt_Some in H. lia.
Qed.

Lemma occ_length C i : zlen (occ C i) <= zlen C.
Proof.
  unfold occ. generalize 0. induction C as [|c C IH]; intros k; cbn [occ_from]; [done |].
  rewrite zlen_cons. specialize (IH (k + 1)). destruct (c =? i); [rewrite zlen_cons |]; lia.
Qed.

Lemma occ_range C i : Forall (fun p => 0 <= p < zlen C) (occ C i).
Proof.
  induction C as [|c C IH] using rev_ind; [constructor |]. rewrite occ_snoc, zlen_app. change (zlen [c]) with 1.
  pose proof (zlen_nonneg C). apply Forall_app. split.
  - eapply Forall_impl; [exact IH |]. cbn. intros. lia.
  - destruct (c =? i); [| constructor]. constructor; [lia | constructor].
Qed.

Lemma occ_sorted C i : StronglySorted Z.lt (occ C i).
Proof.
  induction C as [|c C IH] using rev_ind; [constructor |]. rewrite occ_snoc.
  destruct (c =? i); [| by rewrite app_nil_r].
  apply StronglySorted_app_2; [| done | repeat constructor].
  intros x y Hx Hy. apply list_elem_of_singleton in Hy as ->.
  apply (proj1 (Forall_forall _ _) (occ_range C i)) in Hx. lia.
Qed.

Lemma occ_lookup C i p : p ∈ occ C i <-> 0 <= p /\ C !! Z.to_nat p = Some i.
Proof.
  induction C as [|c C IH] using rev_ind; [cbn; rewrite lookup_nil; split; [by intros ?%elem_of_nil | by intros [_ ?]] |].
  rewrite occ_snoc, elem_of_app, IH. unfold zlen. split.
  - intros [[Hp H]|H]; [split; [done | by apply lookup_app_l_Some] |].
    destruct (Z.eqb_spec c i) as [->|]; [| set_solver]. apply list_elem_of_singleton in H as ->.
    split; [lia |]. by rewrite Nat2Z.id, list_lookup_middle.
  - intros [Hp H]. apply lookup_app_Some in H as [H|[Hl H]]; [by left |]. right.
    destruct (Z.to_nat p - length C)%nat eqn:E; [| done]. cbn in H. injection H as ->.
    rewrite Z.eqb_refl. apply list_elem_of_singleton. lia.
Qed.

Definition freq_table (C : list Z) (n : nat) : list Z := (fun i => zlen (occ C (Z.of_nat i))) <$> seq 0 n.

Lemma zlen_freq_table C n : zlen (freq_table C n) = Z.of_nat n.
Proof. unfold zlen, freq_table. by rewrite length_fmap, length_seq. Qed.

Lemma freq_table_lookup C n i : (i < n)%nat -> freq_table C n !! i = Some (zlen (occ C (Z.of_nat i))).
Proof. intros. unfold freq_table. by rewrite list_lookup_fmap, lookup_seq_lt. Qed.

Lemma freq_table_nil n : freq_table [] n = replicate n 0.
Proof.
  apply list_eq. intros i. destruct (decide (i < n)%nat).
  - by rewrite freq_table_lookup, lookup_replicate_2.
  - rewrite !lookup_ge_None_2; [done | rewrite length_replicate; lia |].
    unfold freq_table. rewrite length_fmap, length_seq. lia.
Qed.

(** Counting one more token. *)
Lemma freq_table_snoc C c n :
  (c < n)%nat ->
  freq_table (C ++ [Z.of_nat c]) n = <[c := zlen (occ C (Z.of_nat c)) + 1]> (freq_table C n).
Proof.
  intros Hc. apply list_eq. intros i. destruct (decide (i < n)%nat).
  - rewrite freq_table_lookup, occ_snoc, zlen_app by done. destruct (decide (i = c)) as [->|Hne].
    + rewrite list_lookup_insert_eq by (unfold freq_table; rewrite length_fmap, length_seq; lia).
      by rewrite Z.eqb_refl.
    + rewrite list_lookup_insert_ne by done. rewrite freq_table_lookup by done.
      rewrite (proj2 (Z.eqb_neq _ _)) by lia. by rewrite Z.add_0_r.
  - rewrite !lookup_ge_None_2; [done | |]; rewrite ?length_insert; unfold freq_table;
      rewrite length_fmap, length_seq; lia.
Qed.

(** ** Loading a component, exactly *)

Section Load.
Context (be : bool) (disk : gmap string (list Z)).

Lemma ensure_exact a e cid comp d :
  cid <> CompDirectory -> cid <> CompHuffCodes ->
  components a !! cid = Some comp -> comp_avail disk cid comp = Some d ->
  ensure be disk cid (mkCL (Some a) e) =
    Ok (Some (load_of comp d), mkCL (Some (set_components a (<[cid := load_of comp d]> (components a)))) e).
Proof.
  intros Hd Hh Hc Ha. unfold ensure. cda.
  assert (ensure_component be disk a cid false =
    Ok (Some (load_of comp d), set_components a (<[cid := load_of comp d]> (components a)))) as E.
  { unfold ensure_component. rewrite Hc. unfold comp_avail, load_of in *.
    destruct (data (comp_data comp)) as [d'|] eqn:Ed.
    - unfold comp_component_state. rewrite Ed. rewrite insert_id by done. by destruct a.
    - rewrite decide_False in Ha by done. unfold file_of in Ha.
      destruct (path comp) as [p|] eqn:Hp; [| done].
      assert (comp_component_state disk cid comp = ComponentUnloaded) as Hst
        by (unfold comp_component_state; by rewrite Ed, decide_False, Hp, Ha).
      assert (load_component be disk a cid = Ok (set_components a (<[cid :=
        mkComp (Some p) (s32 (u32 (zlen d / 4))) (mkBlob (zlen d) SIZE_INT (u32 (zlen d / 4)) (Some d) MMAPPED)]>
          (components a)))) as El.
      { unfold load_component, file_of. rewrite Hc, Hst, Hp, Ha. res_cbn. by rewrite decide_False. }
      rewrite Hst, El. res_cbn. cbn [components set_components]. rewrite lookup_insert_eq. cbn [comp_data data path].
      by rewrite decide_True. }
  cda_lift E. done.
Qed.
End Load.

(** The sizes stored in a blob are those of its data. *)
Definition blob_sizes (comp : Component) : Prop :=
  forall d, data (comp_data comp) = Some d ->
    size (comp_data comp) = zlen d /\ nr_items (comp_data comp) = zlen d / 4 /\
    item_size (comp_data comp) = SIZE_INT /\ comp_size comp = zlen d / 4.

Lemma load_of_sizes comp d :
  blob_sizes comp -> (forall d', data (comp_data comp) = Some d' -> d' = d) -> zlen d / 4 <= INT_MAX ->
  data (comp_data (load_of comp d)) = Some d /\ size (comp_data (load_of comp d)) = zlen d /\
  nr_items (comp_data (load_of comp d)) = zlen d / 4 /\ item_size (comp_data (load_of comp d)) = SIZE_INT /\
  comp_size (load_of comp d) = zlen d / 4 /\ path (load_of comp d) = path comp.
Proof.
  intros Hb Hd Hm. unfold load_of. destruct (data (comp_data comp)) as [d'|] eqn:E.
  - rewrite (Hd d' eq_refl) in *. destruct (Hb d E) as (? & ? & ? & ?). done.
  - cbn. pose proof (zlen_nonneg d). assert (0 <= zlen d / 4) by (apply Z.div_pos; lia).
    unfold INT_MAX in *. rewrite u32_small by lia. repeat split; try done. rewrite <- (u32_small (zlen d / 4)) at 1 by lia.
    apply s32_u32. unfold INT_MIN, INT_MAX. lia.
Qed.

(** ** Counting *)
Section Counting.
Context (be : bool).

Lemma ints_native_zero n : ints_native be (replicate n 0) = replicate (4 * n) 0.
Proof.
  unfold ints_native. induction n as [|n IH]; [done |]. cbn [replicate]. rewrite bind_cons, IH.
  replace (4 * S n)%nat with (4 + 4 * n)%nat by lia. rewrite replicate_add. f_equal. by destruct be.
Qed.

Lemma ints_native_htonl vs : ints_native be (htonl be <$> vs) = ints_be vs.
Proof.
  unfold ints_native, ints_be. induction vs as [|v vs IH]; [done |].
  rewrite fmap_cons, !bind_cons, IH. by rewrite native_htonl.
Qed.

Lemma ints_be_u32 vs : ints_be (u32 <$> vs) = ints_be vs.
Proof.
  unfold ints_be. induction vs as [|v vs IH]; [done |].
  rewrite fmap_cons, !bind_cons, IH. by rewrite be_bytes_u32.
Qed.

(** Converting a table in memory to network byte order. *)
Lemma to_network_ok vs :
  to_network be (zlen vs) (ints_native be vs) = Ok (ints_be vs).
Proof.
  unfold to_network.
  for_up_with (fun i d => d = ints_native be ((htonl be <$> (u32 <$> take (Z.to_nat i) vs)) ++ drop (Z.to_nat i) vs)) d E H.
  - apply zlen_nonneg.
  - intros i d Hi ->. destruct (aget_total vs i Hi) as (v & _ & Hv). unfold zlen in Hi.
    set (k := Z.to_nat i) in *.
    assert (((htonl be <$> (u32 <$> take k vs)) ++ drop k vs) !! k = Some v) as Hl.
    { rewrite lookup_app_r; rewrite !length_fmap, length_take_le by lia; [| lia].
      by rewrite Nat.sub_diag, lookup_drop, Nat.add_0_r. }
    replace i with (Z.of_nat k) by lia. rewrite <- (app_nil_r (ints_native be _)).
    rewrite (iget_native be _ [] k v Hl). res_cbn. rewrite app_nil_r.
    rewrite iset_native by (apply lookup_lt_Some in Hl; done). eexists. split; [reflexivity |].
    replace (Z.to_nat (Z.of_nat k + 1)) with (S k) by lia. f_equal.
    rewrite insert_app_r_alt by (rewrite !length_fmap, length_take_le; lia).
    rewrite !length_fmap, length_take_le, Nat.sub_diag by lia.
    rewrite (drop_S _ _ _ Hv), (take_S_r _ _ _ Hv), !fmap_app. cbn. by rewrite <- (assoc_L (++)).
  - by rewrite drop_0.
  - rewrite H. unfold zlen. rewrite Nat2Z.id, take_ge, drop_ge, app_nil_r by lia. f_equal.
    by rewrite ints_native_htonl, ints_be_u32.
Qed.

Context (n : nat) (Hn : Z.of_nat n <= INT_MAX).

Lemma freq_table_bound C i v : freq_table C n !! i = Some v -> 0 <= v <= zlen C.
Proof.
  intros H. pose proof (lookup_lt_Some _ _ _ H) as Hi. unfold freq_table in Hi. rewrite length_fmap, length_seq in Hi.
  rewrite freq_table_lookup in H by done. injection H as <-. split; [apply zlen_nonneg | apply occ_length].
Qed.

Lemma count_ints_ok C cs :
  Forall (fun c => 0 <= c < Z.of_nat n) cs -> zlen C + zlen cs <= INT_MAX ->
  count_ints be (Z.of_nat n) (ints_be cs) (zlen cs) (ints_native be (freq_table C n)) =
    Ok (ints_native be (freq_table (C ++ cs) n)).
Proof using Hn.
  intros Hcs Hl. unfold count_ints.
  for_up_with (fun k d => d = ints_native be (freq_table (C ++ take (Z.to_nat k) cs) n)) d E H.
  - apply zlen_nonneg.
  - intros k d Hk ->. destruct (aget_total cs k Hk) as (c & _ & Hc). unfold zlen in Hk.
    set (j := Z.to_nat k) in *. replace k with (Z.of_nat j) by lia.
    pose proof (Forall_lookup_1 _ _ _ _ Hcs Hc) as Hcr. cbn in Hcr.
    rewrite <- (app_nil_r (ints_be cs)), (nget_int_ints_be be cs [] j c Hc) by (unfold INT_MIN, INT_MAX in *; lia).
    res_cbn. rewrite (proj2 (Z.leb_le 0 c)), (proj2 (Z.ltb_lt c _)) by lia. cbn [andb].
    set (D := C ++ take j cs). assert (zlen D <= INT_MAX - 1) as HD.
    { unfold D. rewrite zlen_app. unfold zlen in *. rewrite length_take_le by lia. lia. }
    set (x := Z.to_nat c). replace c with (Z.of_nat x) by lia.
    assert (freq_table D n !! x = Some (zlen (occ D (Z.of_nat x)))) as Hx by (apply freq_table_lookup; lia).
    rewrite <- (app_nil_r (ints_native be _)), (iget_native be _ [] x _ Hx), app_nil_r. res_cbn.
    pose proof (occ_length D (Z.of_nat x)). pose proof (zlen_nonneg (occ D (Z.of_nat x))).
    rewrite s32_u32 by (unfold INT_MIN, INT_MAX in *; lia).
    rewrite c_int_Ok by (unfold INT_MIN, INT_MAX in *; lia). res_cbn.
    rewrite iset_native by (by apply lookup_lt_Some in Hx). eexists. split; [reflexivity |].
    replace (Z.to_nat (Z.of_nat j + 1)) with (S j) by lia.
    rewrite (take_S_r _ _ _ Hc), (assoc_L (++)). fold D. replace c with (Z.of_nat x) by lia.
    by rewrite freq_table_snoc by lia.
  - by rewrite take_0, app_nil_r.
  - rewrite H. unfold zlen. by rewrite Nat2Z.id, take_ge by lia.
Qed.

Lemma count_loop_ok C :
  Forall (fun c => 0 <= c < Z.of_nat n) C -> zlen C <= INT_MAX ->
  loop (count_round be (Z.of_nat n)) fuel (ints_be C, replicate (4 * n) 0) =
    Ok (ints_native be (freq_table C n)).
Proof using Hn.
  intros HC Hl.
  loop_with (fun st => exists k, (k <= length C)%nat /\
      st = (ints_be (drop k C), ints_native be (freq_table (take k C) n)))
    (fun r => r = ints_native be (freq_table C n)) (fun st => zlen st.1) r E H; [| | | by rewrite H].
  - intros _ (k & Hk & ->). cbn [fst]. split; [apply zlen_nonneg |]. unfold count_round.
    rewrite zlen_ints_be, Z.mul_comm, Z.div_mul by lia.
    set (i := Z.min BUFSIZE (zlen (drop k C))). set (D := drop k C) in *. pose proof (zlen_nonneg D).
    assert (zlen (take (Z.to_nat i) D) = i) as Hi.
    { unfold zlen in *. rewrite length_take. unfold i, BUFSIZE in *. lia. }
    replace (Z.to_nat (4 * i)) with (4 * Z.to_nat i)%nat by lia.
    unfold ints_be. rewrite take_chunks, drop_chunks by done. fold (ints_be (take (Z.to_nat i) D)).
    fold (ints_be (drop (Z.to_nat i) D)).
    pose proof (count_ints_ok (take k C) (take (Z.to_nat i) D)) as E. rewrite Hi in E.
    rewrite E; clear E.
    2: { apply Forall_take, Forall_drop, HC. }
    2: { unfold D, zlen in *. rewrite length_take, length_drop in *. lia. }
    res_cbn. unfold D. rewrite take_take_drop.
    destruct (Z.eqb_spec i BUFSIZE) as [Hb|Hb]; cbv iota.
    + left. eexists. split; [reflexivity |]. rewrite drop_drop. split.
      * exists (k + Z.to_nat i)%nat. split; [| done]. unfold i, D, zlen in *. rewrite length_drop in *. lia.
      * cbn [fst]. rewrite <- drop_drop. fold D. fold (ints_be D). rewrite !zlen_ints_be.
        unfold zlen in *. rewrite length_drop. unfold i, BUFSIZE in *. lia.
    + right. eexists. split; [reflexivity |]. rewrite take_ge; [done |].
      unfold i, D, zlen in *. rewrite length_drop in *. lia.
  - exists 0%nat. split; [lia |]. by rewrite freq_table_nil, ints_native_zero.
  - cbn [fst]. rewrite fuel_val, zlen_ints_be. unfold INT_MAX in *. lia.
Qed.
End Counting.

(** ** [creat_freqs] *)

(** What the function works on: the lexicon index of [n] types, the corpus file
    of the tokens [C], and a frequency component without data. *)
Record freqs_input (disk : gmap string (list Z)) (a : Attribute) (n : nat) (C : list Z)
    (lcomp fcomp : Component) (dl : list Z) : Prop := {
  fi_lex : components a !! CompLexiconIdx = Some lcomp;
  fi_lex_data : comp_avail disk CompLexiconIdx lcomp = Some dl;
  fi_lex_file : file_of disk lcomp = Some dl;
  fi_lex_sizes : blob_sizes lcomp;
  fi_lex_len : zlen dl = 4 * Z.of_nat n;
  fi_freqs : components a !! CompCorpusFreqs = Some fcomp;
  fi_freqs_data : data (comp_data fcomp) = None;
  fi_corpus : exists ccomp p, components a !! CompCorpus = Some ccomp /\ path ccomp = Some p /\
    disk !! p = Some (ints_be C);
  fi_types : 0 < Z.of_nat n <= INT_MAX;
  fi_tokens : zlen C <= INT_MAX;
  fi_ids : Forall (fun c => 0 <= c < Z.of_nat n) C
}.

(** The frequency component after the call. *)
Definition freqs_component (fcomp : Component) (C : list Z) (n : nat) : Component :=
  mkComp (path fcomp) (Z.of_nat n)
    (mkBlob (4 * Z.of_nat n) SIZE_INT (Z.of_nat n) (Some (ints_be (freq_table C n))) MALLOCED).

Section CreatFreqs.
Context (be : bool) (disk : gmap string (list Z)).
Context (home : option string) (aname : string) (apath mother_path : option string) (buf : list ascii).

Lemma creat_freqs_ok a e n C lcomp fcomp dl fd :
  freqs_input disk a n C lcomp fcomp dl -> 4 * Z.of_nat n <= quota fd ->
  creat_freqs be disk home aname apath mother_path CompCorpusFreqs buf (Some fd) (mkCL (Some a) e) =
    Ok ((1, Some (mkFILE (contents fd ++ ints_be (freq_table C n)) (rpos fd) (quota fd - 4 * Z.of_nat n) (failed fd))),
        mkCL (Some (set_components a (<[CompCorpusFreqs := freqs_component fcomp C n]>
                     (<[CompLexiconIdx := load_of lcomp dl]> (components a))))) e).
Proof.
  intros [Hl Hld Hlf Hls Hll Hf Hfd (ccomp & p & Hc & Hcp & Hcd) Hn HC Hids] Hq. unfold creat_freqs.
  rewrite (bindM_Ok _ _ _ _ _ (ensure_exact be disk a e CompLexiconIdx lcomp dl ltac:(done) ltac:(done) Hl Hld)).
  destruct (load_of_sizes lcomp dl Hls) as (Ed & Es & En & Ei & Esz & Ep).
  { intros d' Hd'. unfold comp_avail in Hld. rewrite Hd' in Hld. by injection Hld. }
  { rewrite Hll. Z.div_mod_to_equations. lia. }
  assert (zlen dl / 4 = Z.of_nat n) as Hdiv by (rewrite Hll; Z.div_mod_to_equations; lia).
  rewrite Hdiv in *. cda. set (a1 := set_components a _). unfold find_component.
  assert (components a1 !! CompCorpusFreqs = Some fcomp) as Hf1 by (cbn; by rewrite lookup_insert_ne).
  assert (components a1 !! CompCorpus = Some ccomp) as Hc1 by (cbn; by rewrite lookup_insert_ne).
  rewrite Hf1. cda_lift (deref_Some fcomp). rewrite Hfd. cda_lift c_assert_true.
  rewrite decide_True by done. rewrite (bindM_lift _ fcomp) by done. unfold load_from, file_of. rewrite Ep.
  unfold file_of in Hlf. rewrite Hlf. unfold read_file_into_blob.
  change (negb ((MALLOCED =? MMAPPED) || (MALLOCED =? MALLOCED))) with false.
  change (SIZE_INT =? SIZE_BIT) with false. cbv iota beta. change (1 =? 0) with false. cbv iota. cbn [size].
  rewrite Es, Z.eqb_refl. cda_lift c_assert_true.
  rewrite (bindM_lift _ (Some (Str p), mkPaths buf (components a1))) by (by eapply full_name_known).
  cda. cbn [fst snd comps]. rewrite (bindM_lift _ p) by done. rewrite Hcd.
  assert (replicate (Z.to_nat (zlen dl)) 0 = replicate (4 * n) 0) as -> by (f_equal; lia).
  rewrite Esz. rewrite (bindM_lift _ _ _ _ (count_loop_ok be n ltac:(lia) C Hids HC)).
  assert (zlen (freq_table C n) = Z.of_nat n) as Hz by apply zlen_freq_table.
  cbn [item_size nr_items allocation_method].
  assert (forall k, write_file_from_blob be (Some fd)
     (mkBlob (zlen dl) SIZE_INT k (Some (ints_native be (freq_table C n))) MALLOCED) true =
     Ok (1, Some (mkFILE (contents fd ++ ints_be (freq_table C n)) (rpos fd) (quota fd - 4 * Z.of_nat n) (failed fd)))) as Ew.
  { intros k. rewrite Hll, <- Hz. apply write_blob_ok; [| lia]. intros H0. rewrite H0 in Hz. unfold zlen in Hz. cbn in Hz. lia. }
  rewrite (bindM_lift _ _ _ _ (Ew _)). cbn [fst snd]. change (1 =? 0) with false. cbv iota.
  pose proof (to_network_ok be (freq_table C n)) as Et. rewrite Hz in Et. rewrite (bindM_lift _ _ _ _ Et).
  unfold store_component. cda. cbn [components set_components]. f_equal. f_equal. f_equal. f_equal.
  unfold set_components. cbn [type components hc this_block_nr this_block]. f_equal. f_equal.
  unfold freqs_component. unfold SIZE_INT in *. rewrite Hdiv, u32_small, Hll by (unfold INT_MAX in *; lia). done.
Qed.
End CreatFreqs.

(** C36. [creat_freqs] counts: for every corpus of tokens whose ids are in the
    lexicon, however many blocks of BUFSIZE tokens it has, the file it writes and
    the component it leaves in memory hold, in network byte order, the number of
    occurrences of every id, and no other component changes what it gives access to. *)
Theorem creat_freqs_correct (be : bool) (disk : gmap string (list Z)) (home : option string) (aname : string)
    (apath mother_path : option string) (buf : list ascii) (a : Attribute) (e : Z) (n : nat) (C : list Z)
    (lcomp fcomp : Component) (dl : list Z) (fd : FILE) :
  freqs_input disk a n C lcomp fcomp dl -> 4 * Z.of_nat n <= quota fd ->
  exists fd' a',
    creat_freqs be disk home aname apath mother_path CompCorpusFreqs buf (Some fd) (mkCL (Some a) e) =
      Ok ((1, Some fd'), mkCL (Some a') e) /\
    contents fd' = contents fd ++ ints_be (freq_table C n) /\
    avail disk a' CompCorpusFreqs = Some (ints_be (freq_table C n)) /\
    component_state disk a' CompCorpusFreqs = ComponentLoaded /\
    forall cid, cid <> CompCorpusFreqs -> avail disk a' cid = avail disk a cid.
Proof.
  intros Hi Hq. do 2 eexists. split; [by eapply creat_freqs_ok |]. cbn [contents].
  split; [done |]. unfold avail, component_state. cbn [components set_components]. rewrite lookup_insert_eq.
  split; [done |]. split; [done |]. intros cid Hne. rewrite lookup_insert_ne by done.
  destruct (decide (cid = CompLexiconIdx)) as [->|Hnl]; [| by rewrite lookup_insert_ne].
  rewrite lookup_insert_eq. destruct Hi as [Hl Hld _ _ _ _ _ _ _ _ _]. rewrite Hl. cbn. rewrite Hld.
  unfold comp_avail, load_of. unfold comp_avail in Hld. destruct (data (comp_data lcomp)) eqn:E; [by rewrite E | done].
Qed.

Definition ex_corpus : list Z := [0; 1; 0; 2; 1; 0].
Definition ex_disk : gmap string (list Z) :=
  <["c.corpus" := ints_be ex_corpus]> (<["c.lexicon.idx" := ints_be [0; 2; 4]]> ∅).
Definition on_disk (p : string) : Component := mkComp (Some p) 0 init_mblob.
Definition ex_raw : Attribute :=
  mkAtt ATT_POS (<[CompCorpus := on_disk "c.corpus"]> (<[CompLexiconIdx := on_disk "c.lexicon.idx"]>
    (<[CompCorpusFreqs := on_disk "c.corpus.cnt"]> ∅))) None (-1) [].

Lemma creat_freqs_correct_witness :
  exists fd' a',
    creat_freqs false ex_disk None "word" None None CompCorpusFreqs [] (Some (mkFILE [] 0 12 false))
      (mkCL (Some ex_raw) 0) = Ok ((1, Some fd'), mkCL (Some a') 0) /\
    contents fd' = ints_be [3; 2; 1] /\ avail ex_disk a' CompCorpusFreqs = Some (ints_be [3; 2; 1]).
Proof.
  destruct (creat_freqs_correct false ex_disk None "word" None None [] ex_raw 0 3 ex_corpus
      (on_disk "c.lexicon.idx") (on_disk "c.corpus.cnt") (ints_be [0; 2; 4]) (mkFILE [] 0 12 false))
    as (fd' & a' & E & Hc & Ha & _).
  - split; try reflexivity.
    + intros d. discriminate.
    + exists (on_disk "c.corpus"), "c.corpus"%string. repeat split; reflexivity.
    + unfold INT_MAX. lia.
    + unfold INT_MAX. vm_compute. discriminate.
    + repeat constructor; lia.
  - cbn. lia.
  - exists fd', a'. split; [exact E |]. split; [exact Hc | exact Ha].
Defined.
