(* ===== verification/MakeRevCorpus.v ===== *)
(** * The reversed corpus: the theorem about [creat_rev_corpus]

    The function uses the corpus only through access functions; [TokenAccess]
    states what it needs of them.  Under that interface the multi-pass algorithm
    writes the positions of id 0, then those of id 1 and so on, for every size of
    its buffer. *)

From Stdlib Require Import ZArith Lia String Ascii Sorted.
From stdpp Require Import base tactics option list numbers gmap strings sorting.
From S2P Require Import Prelude Bits Storage BitIO Golomb Blob Attributes CDA Lexicon Positional RevIndex MakeComps MakeFreqs.

Open Scope Z_scope.

(** ** Postings of a corpus *)

(** The positions of the ids [i], ..., [i + k - 1], one id after the other. *)
Definition posts (C : list Z) (i k : nat) : list Z := concat ((fun j => occ C (Z.of_nat j)) <$> seq i k).

Lemma posts_S C i k : posts C i (S k) = posts C i k ++ occ C (Z.of_nat (i + k)).
Proof. unfold posts. rewrite seq_S, fmap_app, concat_app. cbn. by rewrite app_nil_r. Qed.

Lemma posts_add C i j k : posts C i (j + k) = posts C i j ++ posts C (i + j) k.
Proof. unfold posts. by rewrite seq_app, fmap_app, concat_app. Qed.

Lemma posts_cons C i k : posts C i (S k) = occ C (Z.of_nat i) ++ posts C (S i) k.
Proof. reflexivity. Qed.

Lemma zlen_posts_snoc C c k :
  0 <= c -> zlen (posts (C ++ [c]) 0 k) = zlen (posts C 0 k) + (if c <? Z.of_nat k then 1 else 0).
Proof.
  intros Hc. induction k as [|k IH].
  - rewrite (proj2 (Z.ltb_ge _ _)) by lia. done.
  - rewrite !posts_S, !zlen_app, IH, occ_snoc, zlen_app. cbn [Nat.add].
    destruct (Z.eqb_spec c (Z.of_nat k)) as [->|Hne].
    + rewrite (proj2 (Z.ltb_ge _ _)), (proj2 (Z.ltb_lt _ _)) by lia. unfold zlen. cbn. lia.
    + change (zlen (@nil Z)) with 0.
      destruct (Z.ltb_spec c (Z.of_nat k)), (Z.ltb_spec c (Z.of_nat (S k))); lia.
Qed.

(** Every token is counted once. *)
Lemma zlen_posts C n : Forall (fun c => 0 <= c < Z.of_nat n) C -> zlen (posts C 0 n) = zlen C.
Proof.
  induction C as [|c C IH] using rev_ind; intros H.
  - clear H. induction n as [|n IH]; [done |]. by rewrite posts_S, zlen_app, IH.
  - apply Forall_app in H as [HC Hc]. apply Forall_inv in Hc.
    rewrite zlen_posts_snoc, IH, zlen_app by (done || lia). by rewrite (proj2 (Z.ltb_lt _ _)) by lia.
Qed.

Lemma zlen_posts_le C n i k :
  Forall (fun c => 0 <= c < Z.of_nat n) C -> (i + k <= n)%nat -> zlen (posts C i k) <= zlen C.
Proof.
  intros HC Hik. rewrite <- (zlen_posts C n HC). replace n with (i + (k + (n - i - k)))%nat by lia.
  rewrite !posts_add, !zlen_app. cbn [Nat.add].
  pose proof (zlen_nonneg (posts C 0 i)). pose proof (zlen_nonneg (posts C (i + k) (n - i - k))). lia.
Qed.

Lemma occ_take_app C k i : occ C i = occ (take k C) i ++ occ_from (zlen (take k C)) (drop k C) i.
Proof. unfold occ. rewrite <- (take_drop k C) at 1. by rewrite occ_from_app. Qed.

(** ** Regions

    In an array of the positions of the ids [b], [b + 1], ..., those of [j] start
    at [off b j]. *)
Section Regions.
Context (C : list Z).

Definition off (b j : nat) : Z := zlen (posts C b (j - b)).

Lemma off_first b : off b b = 0.
Proof. unfold off. by rewrite Nat.sub_diag. Qed.

Lemma off_next b j : (b <= j)%nat -> off b (S j) = off b j + zlen (occ C (Z.of_nat j)).
Proof.
  intros. unfold off. replace (S j - b)%nat with (S (j - b)) by lia.
  rewrite posts_S, zlen_app. by replace (b + (j - b))%nat with j by lia.
Qed.

Lemma off_nonneg b j : 0 <= off b j.
Proof. apply zlen_nonneg. Qed.

Lemma off_mono b i j : (b <= i <= j)%nat -> off b i <= off b j.
Proof.
  intros H. unfold off. replace (j - b)%nat with ((i - b) + (j - i))%nat by lia.
  rewrite posts_add, zlen_app. pose proof (zlen_nonneg (posts C (b + (i - b)) (j - i))). lia.
Qed.

(** The regions of two ids are disjoint. *)
Lemma off_disjoint b i j x y :
  (b <= i)%nat -> (b <= j)%nat -> i <> j ->
  0 <= x < zlen (occ C (Z.of_nat i)) -> 0 <= y < zlen (occ C (Z.of_nat j)) -> off b i + x <> off b j + y.
Proof.
  intros Hi Hj Hne Hx Hy. destruct (decide (i < j)%nat).
  - pose proof (off_mono b (S i) j). rewrite off_next in * by done. lia.
  - pose proof (off_mono b (S j) i). rewrite off_next in * by done. lia.
Qed.

(** Cells that hold the positions of every id in its region. *)
Lemma cells_posts b s R :
  (b <= s)%nat -> off b s <= zlen R ->
  (forall j i x, (b <= j < s)%nat -> occ C (Z.of_nat j) !! i = Some x ->
     R !! (Z.to_nat (off b j) + i)%nat = Some x) ->
  take (Z.to_nat (off b s)) R = posts C b (s - b).
Proof.
  intros Hbs Hlen Hcell.
  assert (forall d, (b + d <= s)%nat -> take (Z.to_nat (off b (b + d))) R = posts C b d) as Hd;
    [| replace s with (b + (s - b))%nat at 1 by lia; apply Hd; lia].
  induction d as [|d IH]; intros Hle.
  - by rewrite Nat.add_0_r, off_first.
  - replace (b + S d)%nat with (S (b + d)) by lia. rewrite off_next, posts_S by lia.
    pose proof (off_nonneg b (b + d)). pose proof (zlen_nonneg (occ C (Z.of_nat (b + d)))).
    rewrite Z2Nat.inj_add, <- take_take_drop, IH by lia. f_equal.
    assert (off b (S (b + d)) <= zlen R) as Hb by (pose proof (off_mono b (S (b + d)) s); lia).
    rewrite off_next in Hb by lia.
    apply list_eq. intros i. unfold zlen in *. rewrite Nat2Z.id.
    destruct (decide (i < length (occ C (Z.of_nat (b + d))))%nat) as [Hi|Hi].
    + rewrite lookup_take_lt, lookup_drop by done. destruct (lookup_lt_is_Some_2 _ _ Hi) as [x Hx].
      rewrite Hx. apply (Hcell (b + d)%nat i x); [lia | done].
    + rewrite !lookup_ge_None_2; [done | lia |]. rewrite length_take. lia.
Qed.

(** Where a position is found. *)
Lemma posts_lookup b s j i x :
  (b <= j < s)%nat -> occ C (Z.of_nat j) !! i = Some x ->
  posts C b (s - b) !! (Z.to_nat (off b j) + i)%nat = Some x.
Proof.
  intros Hj Hx. replace (s - b)%nat with ((j - b) + S (s - S j))%nat by lia.
  rewrite posts_add, posts_cons. replace (b + (j - b))%nat with j by lia.
  unfold off, zlen. rewrite Nat2Z.id, lookup_app_r by lia.
  replace (length (posts C b (j - b)) + i - length (posts C b (j - b)))%nat with i by lia.
  by apply lookup_app_l_Some.
Qed.
End Regions.

(** ** What the access functions promise *)

(** In states that satisfy [Inv], the attribute is a corpus of the tokens [C]
    over [n] types. *)
Class TokenAccess (be : bool) (disk : gmap string (list Z)) (Inv : CL -> Prop) (C : list Z) (n : nat) : Prop := {
  ta_ids : Forall (fun c => 0 <= c < Z.of_nat n) C;
  ta_tokens : zlen C <= INT_MAX;
  ta_types : Z.of_nat n <= INT_MAX;
  ta_freqs cl : Inv cl -> exists c cl', ensure be disk CompCorpusFreqs cl = Ok (Some c, cl') /\ Inv cl';
  ta_max_id cl : Inv cl -> exists cl', cl_max_id be disk cl = Ok (Z.of_nat n, cl') /\ Inv cl';
  ta_max_cpos cl : Inv cl -> exists cl', cl_max_cpos be disk cl = Ok (zlen C, cl') /\ Inv cl';
  ta_id2freq cl i : Inv cl -> (i < n)%nat ->
    exists cl', cl_id2freq be disk (Z.of_nat i) cl = Ok (zlen (occ C (Z.of_nat i)), cl') /\ Inv cl';
  ta_cpos2id cl p c : Inv cl -> C !! p = Some c ->
    exists cl', cl_cpos2id be disk (Z.of_nat p) cl = Ok (c, cl') /\ Inv cl'
}.

Section RevCorpus.
Context (be : bool) (disk : gmap string (list Z)) (Inv : CL -> Prop) (C : list Z) (n : nat).
Context {TA : TokenAccess be disk Inv C n}.
Context (B : Z) (HB : 0 <= B <= zlen C).

(** *** The ids of a pass *)
Lemma fit_ok cl p ptab :
  Inv cl -> (p < n)%nat -> length ptab = n ->
  exists s ptab' cl',
    loopM (fit_round be disk (Z.of_nat n) B) fuel (Z.of_nat p + 1, 0, ptab) cl =
      Ok ((Z.of_nat s, off C (S p) s, ptab'), cl') /\
    Inv cl' /\ (p < s <= n)%nat /\ off C (S p) s <= B /\ length ptab' = n /\
    forall j, (p < j < s)%nat -> ptab' !! j = Some (off C (S p) j).
Proof using TA HB.
  intros HI Hp Hlen. pose proof (ta_ids (C := C)) as Hids. pose proof (ta_tokens (C := C)) as HC.
  pose proof (ta_types (C := C)) as Hn.
  destruct (loopM_rule (fit_round be disk (Z.of_nat n) B)
    (fun st cl => Inv cl /\ exists s ptab', st = (Z.of_nat s, off C (S p) s, ptab') /\ (p < s <= n)%nat /\
       off C (S p) s <= B /\ length ptab' = n /\ forall j, (p < j < s)%nat -> ptab' !! j = Some (off C (S p) j))
    (fun st cl => Inv cl /\ exists s ptab', st = (Z.of_nat s, off C (S p) s, ptab') /\ (p < s <= n)%nat /\
       off C (S p) s <= B /\ length ptab' = n /\ forall j, (p < j < s)%nat -> ptab' !! j = Some (off C (S p) j))
    (fun st => Z.of_nat n - st.1.1) fuel (Z.of_nat p + 1, 0, ptab) cl) as (r & cl' & E & HI' & s & ptab' & -> & H).
  - intros _ cl0 (HI0 & s & pt & -> & Hs & Hu & Hl & Hpt). cbn [fst]. split; [lia |]. unfold fit_round.
    destruct (Z.ltb_spec (Z.of_nat s) (Z.of_nat n)) as [Hlt|Hge]; cbv iota.
    2: { right. eexists _, _. split; [reflexivity |]. split; [done |]. by exists s, pt. }
    destruct (ta_id2freq cl0 s HI0) as (cl1 & E1 & HI1); [lia |]. rewrite (bindM_Ok _ _ _ _ _ E1).
    assert (off C (S p) s + zlen (occ C (Z.of_nat s)) = off C (S p) (S s)) as Hnext by (rewrite off_next by lia; done).
    assert (off C (S p) (S s) <= zlen C) by (apply (zlen_posts_le C n); [done | lia]).
    pose proof (off_nonneg C (S p) (S s)).
    rewrite Hnext, (bindM_lift _ (off C (S p) (S s))) by (apply c_int_Ok; unfold INT_MIN, INT_MAX in *; lia).
    unfold u64. rewrite Z.mod_small by (unfold INT_MAX in *; lia).
    destruct (Z.ltb_spec B (off C (S p) (S s))) as [Hb|Hb]; cbv iota.
    + right. eexists _, _. split; [reflexivity |]. split; [done |]. by exists s, pt.
    + left. rewrite (bindM_lift _ (<[s := off C (S p) s]> pt)).
      2: { rewrite aset_Ok, Nat2Z.id; [done |]. unfold zlen. lia. }
      eexists _, _. split; [reflexivity |]. split; [| cbn [fst]; lia]. split; [done |].
      exists (S s), (<[s := off C (S p) s]> pt). rewrite length_insert. split; [repeat f_equal; lia |].
      split; [lia |]. split; [done |]. split; [done |]. intros j Hj. destruct (decide (j = s)) as [->|].
      * apply list_lookup_insert_eq. lia.
      * rewrite list_lookup_insert_ne by done. apply Hpt. lia.
  - split; [done |]. exists (S p), ptab. rewrite off_first. split; [repeat f_equal; lia |].
    split; [lia |]. split; [lia |]. split; [done |]. intros j Hj. lia.
  - cbn [fst]. rewrite fuel_val. unfold INT_MAX in *. lia.
  - exists s, ptab', cl'. tauto.
Qed.

(** *** Scanning the corpus *)

(** [k] tokens are read in the pass for the ids [p], ..., [s - 1]: the positions of
    [p] are in the file, the others in their regions of the buffer. *)
Record scanned (p s : nat) (fd0 : FILE) (w0 : Z) (k : nat) (st : list Z * list Z * FILE * Z) : Prop := {
  sc_buffer : zlen st.1.1.1 = B;
  sc_ptab_len : length st.1.1.2 = n;
  sc_ptab j : (p < j < s)%nat ->
    st.1.1.2 !! j = Some (off C (S p) j + zlen (occ (take k C) (Z.of_nat j)));
  sc_cells j i x : (p < j < s)%nat -> occ (take k C) (Z.of_nat j) !! i = Some x ->
    st.1.1.1 !! (Z.to_nat (off C (S p) j) + i)%nat = Some x;
  sc_file : st.1.2 = mkFILE (contents fd0 ++ ints_be (occ (take k C) (Z.of_nat p))) (rpos fd0)
    (quota fd0 - 4 * zlen (occ (take k C) (Z.of_nat p))) (failed fd0);
  sc_written : st.2 = w0 + zlen (occ (take k C) (Z.of_nat p))
}.

(** The next token of id [c] is the next element of the positions of [c]. *)
Lemma occ_next k c : C !! k = Some c -> zlen (occ (take k C) c) < zlen (occ C c).
Proof.
  intros Hc. rewrite (occ_take_app C (S k) c), (occ_take_S _ _ _ _ Hc), Z.eqb_refl, !zlen_app.
  change (zlen [Z.of_nat k]) with 1. pose proof (zlen_nonneg (occ_from (zlen (take (S k) C)) (drop (S k) C) c)). lia.
Qed.

Lemma occ_take_other k c j : C !! k = Some c -> j <> c -> occ (take (S k) C) j = occ (take k C) j.
Proof. intros Hc Hne. rewrite (occ_take_S _ _ _ _ Hc), (proj2 (Z.eqb_neq _ _)) by congruence. apply app_nil_r. Qed.

Lemma occ_take_same k c : C !! k = Some c -> occ (take (S k) C) c = occ (take k C) c ++ [Z.of_nat k].
Proof. intros Hc. by rewrite (occ_take_S _ _ _ _ Hc), Z.eqb_refl. Qed.

Context (p s : nat) (Hps : (p < s <= n)%nat) (Hroom : off C (S p) s <= B).
Context (fd0 : FILE) (w0 : Z) (Hq : 4 * zlen (occ C (Z.of_nat p)) <= quota fd0).
Context (Hw : 0 <= w0 /\ w0 + zlen (occ C (Z.of_nat p)) <= INT_MAX).

(** A token of the id that goes to the file. *)
Lemma scan_primus k buffer ptab fd w :
  C !! k = Some (Z.of_nat p) -> scanned p s fd0 w0 k (buffer, ptab, fd, w) ->
  exists fd', NwriteInt be (Z.of_nat k) fd = Ok fd' /\ c_int (w + 1) = Ok (w + 1) /\
    scanned p s fd0 w0 (S k) (buffer, ptab, fd', w + 1).
Proof using Hps Hq Hw.
  intros Hc [H1 H2 H3 H4 H5 H6]. cbn [fst snd] in *. pose proof (occ_next _ _ Hc) as Hnx.
  pose proof (zlen_nonneg (occ (take k C) (Z.of_nat p))).
  eexists. split; [apply NwriteInt_Ok; rewrite H5; cbn [quota]; lia |].
  split; [apply c_int_Ok; unfold INT_MIN; lia |].
  split; cbn [fst snd]; try done.
  - intros j Hj. rewrite (occ_take_other _ _ _ Hc) by lia. by apply H3.
  - intros j i x Hj. rewrite (occ_take_other _ _ _ Hc) by lia. by apply H4.
  - rewrite H5, (occ_take_same _ _ Hc), ints_be_app, zlen_app. cbn [contents rpos quota failed].
    change (zlen [Z.of_nat k]) with 1. rewrite (assoc_L (++)). unfold ints_be at 3. rewrite bind_singleton.
    f_equal; lia.
  - rewrite H6, (occ_take_same _ _ Hc), zlen_app. change (zlen [Z.of_nat k]) with 1. lia.
Qed.

(** A token of an id that goes to the buffer. *)
Lemma scan_buffered k buffer ptab fd w (c : nat) :
  C !! k = Some (Z.of_nat c) -> (p < c < s)%nat -> scanned p s fd0 w0 k (buffer, ptab, fd, w) ->
  exists q buffer' ptab', aget ptab (Z.of_nat c) = Ok q /\ aset buffer q (Z.of_nat k) = Ok buffer' /\
    aset ptab (Z.of_nat c) (q + 1) = Ok ptab' /\ scanned p s fd0 w0 (S k) (buffer', ptab', fd, w).
Proof using Hps Hroom.
  intros Hc Hcs [H1 H2 H3 H4 H5 H6]. cbn [fst snd] in *. pose proof (occ_next _ _ Hc) as Hnx.
  set (m := zlen (occ (take k C) (Z.of_nat c))) in *. assert (0 <= m) by apply zlen_nonneg.
  pose proof (off_nonneg C (S p) c) as Hs0.
  assert (off C (S p) c + m < B) as Hin.
  { pose proof (off_mono C (S p) (S c) s ltac:(lia)) as Hm. rewrite off_next in Hm by lia. lia. }
  exists (off C (S p) c + m), (<[Z.to_nat (off C (S p) c + m) := Z.of_nat k]> buffer), (<[c := off C (S p) c + m + 1]> ptab).
  split; [apply aget_nat, H3; lia |]. split; [apply aset_Ok; lia |].
  split; [rewrite aset_Ok, Nat2Z.id; [done | unfold zlen; lia] |].
  split; cbn [fst snd]; try done.
  - by rewrite zlen_insert.
  - by rewrite length_insert.
  - intros j Hj. destruct (decide (j = c)) as [->|Hne].
    + rewrite list_lookup_insert_eq by lia. rewrite (occ_take_same _ _ Hc), zlen_app.
      change (zlen [Z.of_nat k]) with 1. fold m. f_equal. lia.
    + rewrite list_lookup_insert_ne by done. rewrite (occ_take_other _ _ _ Hc) by lia. by apply H3.
  - intros j i x Hj. destruct (decide (j = c)) as [->|Hne].
    + rewrite (occ_take_same _ _ Hc). intros Hx. apply lookup_app_Some in Hx as [Hx|[Hge Hx]].
      * pose proof (lookup_lt_Some _ _ _ Hx). rewrite list_lookup_insert_ne; [by apply H4 |].
        unfold m, zlen. lia.
      * destruct (i - length (occ (take k C) (Z.of_nat c)))%nat eqn:Ei; [| done]. cbn in Hx. injection Hx as <-.
        replace (Z.to_nat (off C (S p) c) + i)%nat with (Z.to_nat (off C (S p) c + m)) by (unfold m, zlen in *; lia).
        apply list_lookup_insert_eq. unfold zlen in *. lia.
    + rewrite (occ_take_other _ _ _ Hc) by lia. intros Hx. rewrite list_lookup_insert_ne; [by apply H4 |].
      pose proof (off_nonneg C (S p) j). apply lookup_lt_Some in Hx.
      pose proof (off_disjoint C (S p) c j m (Z.of_nat i) ltac:(lia) ltac:(lia) ltac:(done)) as Hdis.
      assert (zlen (occ (take k C) (Z.of_nat j)) <= zlen (occ C (Z.of_nat j))) as Hle.
      { rewrite (occ_take_app C k (Z.of_nat j)), zlen_app.
        pose proof (zlen_nonneg (occ_from (zlen (take k C)) (drop k C) (Z.of_nat j))). lia. }
      unfold zlen in Hle at 1. lia.
  - rewrite (occ_take_other _ _ _ Hc) by lia. done.
  - rewrite (occ_take_other _ _ _ Hc) by lia. done.
Qed.

(** Other tokens leave everything as it is. *)
Lemma scan_other k st (c : nat) :
  C !! k = Some (Z.of_nat c) -> c <> p -> ~ (p < c < s)%nat -> scanned p s fd0 w0 k st -> scanned p s fd0 w0 (S k) st.
Proof.
  intros Hc Hp Hr [H1 H2 H3 H4 H5 H6]. split; try done.
  - intros j Hj. rewrite (occ_take_other _ _ _ Hc) by lia. by apply H3.
  - intros j i x Hj. rewrite (occ_take_other _ _ _ Hc) by lia. by apply H4.
  - by rewrite (occ_take_other _ _ _ Hc) by lia.
  - by rewrite (occ_take_other _ _ _ Hc) by lia.
Qed.

Lemma scan_ok cl buffer ptab :
  Inv cl -> zlen buffer = B -> length ptab = n -> (forall j, (p < j < s)%nat -> ptab !! j = Some (off C (S p) j)) ->
  exists st cl',
    forM_up (scan_token be disk (Z.of_nat n) (Z.of_nat p) (Z.of_nat s - 1)) 0 (zlen C) (buffer, ptab, fd0, w0) cl =
      Ok (st, cl') /\ Inv cl' /\ scanned p s fd0 w0 (length C) st.
Proof using TA Hps Hroom Hq Hw.
  intros HI Hb Hpl Hpt. pose proof (ta_ids (C := C)) as Hids.
  destruct (forM_up_rule (scan_token be disk (Z.of_nat n) (Z.of_nat p) (Z.of_nat s - 1))
    (fun i st cl => Inv cl /\ scanned p s fd0 w0 (Z.to_nat i) st) 0 (zlen C) (buffer, ptab, fd0, w0) cl)
    as (st & cl' & E & HI' & H).
  - apply zlen_nonneg.
  - intros i [[[b pt] fd] w] cl0 Hi (HI0 & Hsc). set (k := Z.to_nat i) in *. unfold zlen in Hi.
    destruct (lookup_lt_is_Some_2 C k) as [c Hc]; [lia |].
    pose proof (Forall_lookup_1 _ _ _ _ Hids Hc) as Hcr. cbn in Hcr.
    replace i with (Z.of_nat k) by lia. replace (Z.to_nat (Z.of_nat k + 1)) with (S k) by lia.
    unfold scan_token. destruct (ta_cpos2id cl0 k c HI0 Hc) as (cl1 & E1 & HI1). rewrite (bindM_Ok _ _ _ _ _ E1).
    rewrite (proj2 (Z.leb_le 0 c)), (proj2 (Z.ltb_lt c _)) by lia. cda_lift c_assert_true.
    set (cn := Z.to_nat c). assert (c = Z.of_nat cn) as Hcn by lia. rewrite Hcn in *.
    destruct (Z.eqb_spec (Z.of_nat cn) (Z.of_nat p)) as [Hep|Hnp]; cbv iota.
    + assert (cn = p) as -> by lia. destruct (scan_primus k b pt fd w Hc Hsc) as (fd' & Ew & Ec & Hsc').
      cda_lift Ew. cda_lift Ec. eexists _, _. split; [reflexivity |]. done.
    + destruct (Z.ltb_spec (Z.of_nat p) (Z.of_nat cn)), (Z.leb_spec (Z.of_nat cn) (Z.of_nat s - 1)); cbn [andb].
      * destruct (scan_buffered k b pt fd w cn Hc ltac:(lia) Hsc) as (q & b' & pt' & Eg & Eb & Ep & Hsc').
        cda_lift Eg. cda_lift Eb. cda_lift Ep. eexists _, _. split; [reflexivity |]. done.
      * eexists _, _. split; [reflexivity |]. split; [done |]. by apply (scan_other k _ cn); [| lia | lia |].
      * eexists _, _. split; [reflexivity |]. split; [done |]. by apply (scan_other k _ cn); [| lia | lia |].
      * eexists _, _. split; [reflexivity |]. split; [done |]. by apply (scan_other k _ cn); [| lia | lia |].
  - split; [done |]. split; cbn [fst snd Z.to_nat take]; try done.
    + intros j Hj. rewrite Hpt by done. change (zlen (occ [] (Z.of_nat j))) with 0. by rewrite Z.add_0_r.
    + change (occ [] (Z.of_nat p)) with (@nil Z). change (ints_be []) with (@nil Z).
      change (4 * zlen (@nil Z)) with 0. rewrite app_nil_r, Z.sub_0_r. by destruct fd0.
    + change (zlen (occ [] (Z.of_nat p))) with 0. by rewrite Z.add_0_r.
  - exists st, cl'. unfold zlen in H. by rewrite Nat2Z.id in H.
Qed.

(** *** The end of a pass *)

(** All positions are in the buffer now. *)
Lemma scanned_buffer st :
  scanned p s fd0 w0 (length C) st ->
  take (Z.to_nat (off C (S p) s)) st.1.1.1 = posts C (S p) (s - S p).
Proof using Hps Hroom.
  intros [H1 _ _ H4 _ _]. destruct st as [[[b pt] fd] w]. cbn [fst snd] in *. rewrite take_ge in H4 by lia.
  apply cells_posts; [lia | lia |]. intros j i x Hj. apply H4. lia.
Qed.

Lemma check_ok cl st :
  Inv cl -> scanned p s fd0 w0 (length C) st ->
  exists v cl', forM_up (check_pointer be disk st.1.1.2) (Z.of_nat p + 1) (Z.of_nat s) 0 cl = Ok (v, cl') /\ Inv cl'.
Proof using TA Hps.
  intros HI [_ _ H3 _ _ _]. rewrite take_ge in H3 by lia.
  destruct (forM_up_rule (check_pointer be disk st.1.1.2)
    (fun i v cl => Inv cl /\ v = off C (S p) (Z.to_nat i)) (Z.of_nat p + 1) (Z.of_nat s) 0 cl) as (v & cl' & E & HI' & _).
  - lia.
  - intros i v cl0 Hi (HI0 & ->). set (j := Z.to_nat i) in *. replace i with (Z.of_nat j) by lia.
    unfold check_pointer. destruct (ta_id2freq cl0 j HI0) as (cl1 & E1 & HI1); [lia |].
    rewrite (bindM_Ok _ _ _ _ _ E1). rewrite (bindM_lift _ _ _ _ (aget_nat _ _ _ (H3 j ltac:(lia)))).
    rewrite Z.eqb_refl. cbn [negb]. eexists _, _. split; [reflexivity |]. split; [done |].
    replace (Z.to_nat (Z.of_nat j + 1)) with (S j) by lia. by rewrite off_next by lia.
  - split; [done |]. replace (Z.to_nat (Z.of_nat p + 1)) with (S p) by lia. by rewrite off_first.
  - by exists v, cl'.
Qed.
End RevCorpus.

(** ** All passes *)
Section Passes.
Context (be : bool) (disk : gmap string (list Z)) (Inv : CL -> Prop) (C : list Z) (n : nat).
Context {TA : TokenAccess be disk Inv C n}.
Context (B : Z) (HB : 0 <= B <= zlen C) (fd0 : FILE) (Hq : 4 * zlen C <= quota fd0).

(** The file with the positions of the first [p] ids. *)
Definition rev_file (p : nat) : FILE :=
  mkFILE (contents fd0 ++ ints_be (posts C 0 p)) (rpos fd0) (quota fd0 - 4 * zlen (posts C 0 p)) (failed fd0).

(** Before the pass that starts with id [p]. *)
Definition before_pass (p : nat) (st : Z * Z * Z * Z * list Z * list Z * FILE) (cl : CL) : Prop :=
  exists pass buffer ptab,
    st = (Z.of_nat p, zlen (posts C 0 p), pass, (if decide (p = 0%nat) then 0 else zlen C), buffer, ptab, rev_file p) /\
    Inv cl /\ (p <= n)%nat /\ zlen buffer = B /\ length ptab = n /\ 0 <= pass <= Z.of_nat p.

Lemma rev_pass_ok p st cl :
  before_pass p st cl -> (p < n)%nat ->
  exists s st' cl', rev_pass be disk (Z.of_nat n) (zlen C) B st cl = Ok (inl st', cl') /\
    (p < s)%nat /\ before_pass s st' cl'.
Proof using TA HB Hq.
  intros (pass & buffer & ptab & -> & HI & _ & Hb & Hpt & Hpass) Hp. unfold rev_pass.
  pose proof (ta_ids (C := C)) as Hids. pose proof (ta_tokens (C := C)) as HC. pose proof (ta_types (C := C)) as Hn.
  rewrite (proj2 (Z.ltb_lt _ _)) by lia.
  destruct (fit_ok be disk Inv C n B HB cl p ptab HI Hp Hpt) as (s & ptab1 & cl1 & E1 & HI1 & Hs & Hroom & Hpt1 & Hst).
  rewrite (bindM_Ok _ _ _ _ _ E1).
  rewrite (bindM_lift _ (pass + 1)) by (apply c_int_Ok; unfold INT_MIN, INT_MAX in *; lia).
  assert (zlen (posts C 0 (S p)) <= zlen C) as Hle by (apply (zlen_posts_le C n); [done | lia]).
  rewrite posts_S, zlen_app in Hle. cbn [Nat.add] in Hle.
  destruct (scan_ok be disk Inv C n B p s Hs Hroom (rev_file p) (zlen (posts C 0 p))) with (cl := cl1) (buffer := buffer) (ptab := ptab1)
    as (st2 & cl2 & E2 & HI2 & Hsc); try done.
  { cbn [quota rev_file]. lia. } { split; [apply zlen_nonneg | lia]. }
  rewrite (bindM_Ok _ _ _ _ _ E2). pose proof (scanned_buffer C n B p s Hs Hroom _ _ _ Hsc) as Hbuf.
  pose proof Hsc as Hsc0.
  destruct st2 as [[[buffer2 ptab2] fd2] w2]. destruct Hsc as [Hb2 Hp2 _ _ Hf2 Hw2]. cbn [fst snd] in *.
  rewrite take_ge in Hf2, Hw2 by lia.
  destruct (check_ok be disk Inv C n B p s Hs _ _ cl2 _ HI2 Hsc0) as (v & cl3 & E3 & HI3).
  cbn [fst snd] in E3. replace (Z.of_nat s - 1 + 1) with (Z.of_nat s) by lia. rewrite (bindM_Ok _ _ _ _ _ E3).
  pose proof (off_nonneg C (S p) s) as Hs0.
  assert (posts C 0 s = posts C 0 p ++ occ C (Z.of_nat p) ++ posts C (S p) (s - S p)) as Hposts.
  { replace s with (p + S (s - S p))%nat at 1 by lia. rewrite posts_add, posts_cons. done. }
  assert (zlen (posts C 0 s) <= zlen C) as Hle2 by (apply (zlen_posts_le C n); [done | lia]).
  assert (zlen (posts C 0 s) = zlen (posts C 0 p) + zlen (occ C (Z.of_nat p)) + off C (S p) s) as Hz.
  { rewrite Hposts, !zlen_app. unfold off. lia. }
  rewrite (bindM_lift _ (rev_file s)).
  2: { rewrite NwriteInts_Ok; [| rewrite Hb2; lia | rewrite Hf2; cbn [quota rev_file]; lia].
       rewrite Hbuf, Hf2. unfold rev_file. cbn [contents rpos quota failed]. rewrite Hz, Hposts, !ints_be_app.
       change (posts C (S p) (s - S p) ≫= be_bytes) with (ints_be (posts C (S p) (s - S p))).
       rewrite <- !(assoc_L (++)). do 2 f_equal; lia. }
  rewrite (bindM_lift _ (zlen (posts C 0 s))).
  2: { rewrite Hw2, <- Hz. apply c_int_Ok. pose proof (zlen_nonneg (posts C 0 s)). unfold INT_MIN, INT_MAX in *. lia. }
  pose proof (zlen_nonneg C). rewrite Z.max_r by lia.
  exists s. eexists _, _. split; [reflexivity |]. split; [lia |].
  exists (pass + 1), buffer2, ptab2. rewrite decide_False by lia.
  split; [done |]. split; [done |]. split; [lia |]. split; [done |]. split; [done | lia].
Qed.

Lemma passes_ok cl buffer ptab :
  Inv cl -> zlen buffer = B -> length ptab = n ->
  exists pass cl', loopM (rev_pass be disk (Z.of_nat n) (zlen C) B) fuel (0, 0, 0, 0, buffer, ptab, fd0) cl =
    Ok ((zlen C, zlen C, pass, rev_file n), cl') /\ Inv cl' /\ 0 <= pass <= Z.of_nat n.
Proof using TA HB Hq.
  intros HI Hb Hpt. pose proof (ta_ids (C := C)) as Hids. pose proof (ta_types (C := C)) as Hn.
  destruct (loopM_rule (rev_pass be disk (Z.of_nat n) (zlen C) B) (fun st cl => exists p, before_pass p st cl)
    (fun r cl => Inv cl /\ exists pass, r = (zlen C, zlen C, pass, rev_file n) /\ 0 <= pass <= Z.of_nat n)
    (fun st => Z.of_nat n - st.1.1.1.1.1.1) fuel (0, 0, 0, 0, buffer, ptab, fd0) cl)
    as (r & cl' & E & HI' & pass & -> & Hpass).
  - intros st cl0 (p & Hst). pose proof Hst as (pass & b & pt & -> & HI0 & Hp & Hb0 & Hpt0 & Hpass). cbn [fst].
    split; [lia |]. destruct (decide (p < n)%nat) as [Hlt|Hge].
    + left. destruct (rev_pass_ok p _ cl0 Hst Hlt) as (s & st' & cl1 & E & Hps & Hst').
      exists st', cl1. split; [done |]. split; [by exists s |].
      destruct Hst' as (? & ? & ? & -> & _). cbn [fst]. lia.
    + right. unfold rev_pass. rewrite (proj2 (Z.ltb_ge _ _)) by lia.
      assert (p = n) as -> by lia. rewrite (zlen_posts C n Hids).
      eexists _, _. split; [reflexivity |]. split; [done |]. exists pass. split; [| done].
      destruct (decide (n = 0%nat)) as [->|]; [| done].
      assert (C = []) as ->; [| done]. clear - Hids. destruct C as [|c C']; [done |]. apply Forall_inv in Hids. lia.
  - exists 0%nat, 0, buffer, ptab. rewrite decide_True by done. split.
    + unfold rev_file. change (posts C 0 0) with (@nil Z). change (ints_be []) with (@nil Z).
      change (4 * zlen (@nil Z)) with 0. rewrite app_nil_r, Z.sub_0_r. by destruct fd0.
    + split; [done |]. split; [lia |]. split; [done |]. split; [done | lia].
  - cbn [fst]. rewrite fuel_val. unfold INT_MAX in *. lia.
  - by exists pass, cl'.
Qed.
End Passes.

(** ** A corpus that is not compressed *)

(** The postings of a corpus: for every id its positions. *)
Definition occs (C : list Z) (n : nat) : list (list Z) := (fun i => occ C (Z.of_nat i)) <$> seq 0 n.

Lemma zlen_occs C n : zlen (occs C n) = Z.of_nat n.
Proof. unfold zlen, occs. by rewrite length_fmap, length_seq. Qed.

Lemma occs_lookup C n i : (i < n)%nat -> occs C n !! i = Some (occ C (Z.of_nat i)).
Proof. intros. unfold occs. by rewrite list_lookup_fmap, lookup_seq_lt. Qed.

Lemma occs_sorted C n :
  Forall (fun ps => StronglySorted Z.lt ps /\ Forall (fun p => 0 <= p < zlen C) ps) (occs C n).
Proof.
  unfold occs. apply Forall_fmap, Forall_true. intros i. unfold compose. split; [apply occ_sorted | apply occ_range].
Qed.

Lemma freq_table_occs C n : freq_table C n = zlen <$> occs C n.
Proof. unfold freq_table, occs. by rewrite <- list_fmap_compose. Qed.

(** The attribute has the token stream [C] as a plain file, and the frequencies. *)
Record plain_corpus (disk : gmap string (list Z)) (a : Attribute) (C : list Z) (n : nat) : Prop := {
  pc_post : has_postings disk a (zlen C) (occs C n);
  pc_seq : sequence_compressed disk a = false;
  pc_corpus : avail disk a CompCorpus = Some (ints_be C);
  pc_ids : Forall (fun c => 0 <= c < Z.of_nat n) C
}.

Section Plain.
Context (be : bool) (disk : gmap string (list Z)).

Lemma plain_corpus_loads a a' C n : loads disk a a' -> plain_corpus disk a C n -> plain_corpus disk a' C n.
Proof.
  intros L [Hp Hs Hc Hi]. split; [by eapply has_postings_loads | by eapply sequence_plain_loads | | done].
  by rewrite (loads_avail _ _ _ L).
Qed.

Lemma cl_cpos2id_plain_ok a e C n pos :
  plain_corpus disk a C n ->
  exists a', loads_fwd disk a a' /\
    cl_cpos2id be disk pos (mkCL (Some a) e) =
      Ok (match (if pos <? 0 then None else C !! Z.to_nat pos) with
          | Some c => (c, mkCL (Some a') CDA_OK)
          | None => (CDA_EPOSORNG, mkCL (Some a') CDA_EPOSORNG)
          end).
Proof.
  intros [HP Hs Hc Hi]. unfold cl_cpos2id. rewrite check_arg_ok by apply HP.
  assert (cl_sequence_compressed disk (mkCL (Some a) e) = Ok (0, mkCL (Some a) e)) as Ec.
  { unfold cl_sequence_compressed. rewrite check_arg_ok by apply HP. cda. by rewrite Hs. }
  cda_call Ec. change (0 =? 1) with false. cbv iota.
  destruct (ensure_fwd be disk a e CompCorpus (ints_be C)) as (c & a' & E & Hb & Hsz & L); try done; [apply HP |].
  cda_call E. exists a'. split; [done |]. rewrite Hsz, nr_ints_be.
  destruct (Z.ltb_spec pos 0) as [H0|H0].
  { rewrite (proj2 (Z.leb_gt 0 pos)) by lia. cbn [andb]. by cda. }
  rewrite (proj2 (Z.leb_le 0 pos)) by lia. cbn [andb].
  destruct (Z.ltb_spec pos (zlen C)) as [H1|H1]; cycle 1.
  { rewrite lookup_ge_None_2 by (unfold zlen in *; lia). by cda. }
  destruct (lookup_lt_is_Some_2 C (Z.to_nat pos)) as [x Hx]; [unfold zlen in *; lia |]. rewrite Hx.
  cda_lift Hb. pose proof (Forall_lookup_1 _ _ _ _ Hi Hx) as Hr. cbn in Hr.
  pose proof (ix_range _ _ _ _ HP) as Hn. rewrite zlen_occs in Hn.
  assert (nget_int be (ints_be C) pos = Ok x) as Eg.
  { rewrite <- (Z2Nat.id pos) by done. rewrite <- (app_nil_r (ints_be _)).
    apply nget_int_ints_be; [done |]. unfold INT_MIN, INT_MAX in *. lia. }
  cda_lift Eg. by cda.
Qed.

(** The states of the library that follow from such an attribute by loading. *)
Definition plain_state (a : Attribute) (cl : CL) : Prop :=
  exists a' e, cl = mkCL (Some a') e /\ loads disk a a'.

#[export] Instance plain_token_access a C n : plain_corpus disk a C n -> TokenAccess be disk (plain_state a) C n.
Proof.
  intros P0. pose proof (pc_post _ _ _ _ P0) as HP0.
  pose proof (ix_range _ _ _ _ HP0) as Hn. rewrite zlen_occs in Hn. pose proof (ix_pos _ _ _ _ HP0) as Hc.
  assert (forall a1 a2, loads disk a a1 -> loads disk a1 a2 -> forall e, plain_state a (mkCL (Some a2) e)) as Hnext.
  { intros a1 a2 L1 L2 e. exists a2, e. split; [done |]. by transitivity a1. }
  split; [apply P0 | lia | lia | | | | |].
  - intros _ (a1 & e & -> & L1). pose proof (pc_post _ _ _ _ (plain_corpus_loads _ _ _ _ L1 P0)) as HP.
    destruct (ensure_fwd be disk a1 e CompCorpusFreqs _ ltac:(done) ltac:(done) ltac:(done) ltac:(done)
                (ix_freqs _ _ _ _ HP) (ix_wf _ _ _ _ HP)) as (c & a2 & E & _ & _ & (L & _)).
    exists c, (mkCL (Some a2) e). eauto.
  - intros _ (a1 & e & -> & L1). pose proof (pc_post _ _ _ _ (plain_corpus_loads _ _ _ _ L1 P0)) as HP.
    destruct (cl_max_id_ok be disk a1 e _ _ HP) as (a2 & (L & _) & E). rewrite zlen_occs in E. eauto.
  - intros _ (a1 & e & -> & L1). pose proof (pc_post _ _ _ _ (plain_corpus_loads _ _ _ _ L1 P0)) as HP.
    destruct (cl_max_cpos_ok be disk a1 e (zlen C)) as (a2 & E & (L & _)); [apply HP | apply HP | apply HP | eauto].
  - intros _ i (a1 & e & -> & L1) Hi. pose proof (pc_post _ _ _ _ (plain_corpus_loads _ _ _ _ L1 P0)) as HP.
    destruct (cl_id2freq_ok be disk a1 e _ _ (Z.of_nat i) HP) as (a2 & (L & _) & E).
    rewrite (proj2 (Z.ltb_ge _ _)), Nat2Z.id, occs_lookup in E by lia. eauto.
  - intros _ p c (a1 & e & -> & L1) Hp. pose proof (plain_corpus_loads _ _ _ _ L1 P0) as P1.
    destruct (cl_cpos2id_plain_ok a1 e C n (Z.of_nat p) P1) as (a2 & (L & _) & E).
    rewrite (proj2 (Z.ltb_ge _ _)), Nat2Z.id, Hp in E by lia. eauto.
Qed.
End Plain.

(** ** [creat_rev_corpus] *)
Section CreatRevCorpus.
Context (be : bool) (disk : gmap string (list Z)) (garbage : Z -> list Z) (cl_memory_limit : Z).
Context (Hg : forall k, 0 <= k -> zlen (garbage k) = k).

Lemma creat_rev_corpus_ok Inv C n a e comp fd :
  TokenAccess be disk Inv C n -> Inv (mkCL (Some a) e) ->
  components a !! CompRevCorpus = Some comp -> path comp <> None -> data (comp_data comp) = None ->
  4 * zlen C <= quota fd ->
  exists pass cl', creat_rev_corpus be disk garbage cl_memory_limit CompRevCorpus (Some fd) (mkCL (Some a) e) =
      Ok ((pass, rev_file C fd n), cl') /\ Inv cl' /\ 0 <= pass <= Z.of_nat n.
Proof using Hg.
  intros TA HI Hc Hp Hd Hq. unfold creat_rev_corpus, find_component. cda. rewrite Hc.
  rewrite (bindM_lift _ comp) by done. destruct (path comp); [| done]. rewrite Hd.
  cda_lift c_assert_true. cda_lift c_assert_true.
  destruct (ta_freqs (mkCL (Some a) e) HI) as (c & cl1 & E1 & HI1). rewrite (bindM_Ok _ _ _ _ _ E1).
  rewrite (bindM_lift _ tt) by done.
  destruct (ta_max_id cl1 HI1) as (cl2 & E2 & HI2). rewrite (bindM_Ok _ _ _ _ _ E2).
  destruct (ta_max_cpos cl2 HI2) as (cl3 & E3 & HI3). rewrite (bindM_Ok _ _ _ _ _ E3).
  pose proof (zlen_nonneg C) as HC.
  rewrite (proj2 (Z.ltb_ge (Z.of_nat n) 0)), (proj2 (Z.ltb_ge (zlen C) 0)) by lia. cbn [orb].
  set (B0 := if 0 <? cl_memory_limit then _ else _). set (B := if zlen C <? B0 then _ else _).
  assert (0 <= B <= zlen C) as HB.
  { unfold B, B0. destruct (Z.ltb_spec 0 cl_memory_limit).
    - pose proof (Z.mod_pos_bound (cl_memory_limit * (256 * 1024)) (2 ^ 64) ltac:(lia)). unfold u64.
      case_Z; lia.
    - case_Z; lia. }
  destruct (passes_ok be disk Inv C n B HB fd Hq cl3 (garbage B) (garbage (Z.of_nat n)) HI3) as (pass & cl4 & E4 & HI4 & Hps).
  { apply Hg. lia. } { pose proof (Hg (Z.of_nat n) ltac:(lia)). unfold zlen in *. lia. }
  rewrite (bindM_Ok _ _ _ _ _ E4). rewrite !Z.eqb_refl. cbn [negb orb]. exists pass, cl4. done.
Qed.
End CreatRevCorpus.

(** C12. [creat_rev_corpus] sorts the corpus positions by type id: whatever the
    memory limit (so however many passes it makes), and for every kind of
    attribute whose access functions answer correctly, it neither faults nor
    exits, and the file it writes holds the positions of id 0 in ascending
    order, then those of id 1 and so on, in network byte order. *)
Theorem creat_rev_corpus_correct (be : bool) (disk : gmap string (list Z)) (garbage : Z -> list Z)
    (cl_memory_limit : Z) (Inv : CL -> Prop) (C : list Z) (n : nat) (a : Attribute) (e : Z)
    (comp : Component) (fd : FILE) :
  (forall k, 0 <= k -> zlen (garbage k) = k) ->
  TokenAccess be disk Inv C n -> Inv (mkCL (Some a) e) ->
  components a !! CompRevCorpus = Some comp -> path comp <> None -> data (comp_data comp) = None ->
  4 * zlen C <= quota fd ->
  exists pass fd' cl',
    creat_rev_corpus be disk garbage cl_memory_limit CompRevCorpus (Some fd) (mkCL (Some a) e) =
      Ok ((pass, fd'), cl') /\ Inv cl' /\ 0 <= pass <= Z.of_nat n /\
    contents fd' = contents fd ++ ints_be (concat (occs C n)) /\
    forall i, (i < n)%nat -> exists ps, occs C n !! i = Some ps /\ StronglySorted Z.lt ps /\
      forall p, p ∈ ps <-> 0 <= p /\ C !! Z.to_nat p = Some (Z.of_nat i).
Proof.
  intros Hg TA HI Hc Hp Hd Hq.
  destruct (creat_rev_corpus_ok be disk garbage cl_memory_limit Hg Inv C n a e comp fd TA HI Hc Hp Hd Hq)
    as (pass & cl' & E & HI' & Hps).
  exists pass, (rev_file C fd n), cl'. do 4 (split; [done |]). intros i Hi. exists (occ C (Z.of_nat i)).
  split; [by apply occs_lookup |]. split; [apply occ_sorted | apply occ_lookup].
Qed.

(** ** [creat_rev_corpus_idx] *)

(** Where the positions of each id start. *)
Definition rev_offsets (C : list Z) (n : nat) : list Z := (fun k => zlen (posts C 0 k)) <$> seq 0 n.

Lemma rev_offsets_postings C n : rev_offsets C n = postings_offset (occs C n) <$> seq 0 (length (occs C n)).
Proof.
  unfold rev_offsets. assert (length (occs C n) = n) as -> by (unfold occs; by rewrite length_fmap, length_seq).
  apply list_fmap_ext. intros k i Hk. apply lookup_seq in Hk as [-> Hk].
  unfold postings_offset, posts, occs. rewrite firstn_map || rewrite <- fmap_take. by rewrite take_seq, Nat.min_l by lia.
Qed.

Section RevIdx.
Context (be : bool) (C : list Z) (n : nat).
Context (HC : zlen C <= INT_MAX) (Hids : Forall (fun c => 0 <= c < Z.of_nat n) C).

Lemma rev_idx_ok :
  for_up (rev_idx_round be (ints_be (freq_table C n))) 0 (Z.of_nat n) (replicate (4 * n) 0, 0) =
    Ok (ints_be (rev_offsets C n), zlen C).
Proof using HC Hids.
  for_up_with (fun k st => st = (ints_native be ((htonl be <$> rev_offsets C (Z.to_nat k)) ++ replicate (n - Z.to_nat k) 0),
                                zlen (posts C 0 (Z.to_nat k)))) st E H.
  - lia.
  - intros i st Hi ->. set (k := Z.to_nat i) in *. replace i with (Z.of_nat k) by lia. unfold rev_idx_round.
    pose proof (occ_length C (Z.of_nat k)). pose proof (zlen_nonneg (occ C (Z.of_nat k))).
    rewrite <- (app_nil_r (ints_be _)), (nget_int_ints_be be _ [] k (zlen (occ C (Z.of_nat k))))
      by (apply freq_table_lookup; lia) || (unfold INT_MIN; lia).
    assert (length (htonl be <$> rev_offsets C k) = k) as Hl
      by (rewrite length_fmap; unfold rev_offsets; by rewrite length_fmap, length_seq).
    res_cbn. rewrite iset_native by (rewrite length_app, Hl, length_replicate; lia). res_cbn.
    assert (zlen (posts C 0 (S k)) <= zlen C) as Hle by (apply (zlen_posts_le C n); [done | lia]).
    rewrite posts_S, zlen_app in Hle. cbn [Nat.add] in Hle. pose proof (zlen_nonneg (posts C 0 k)).
    rewrite c_int_Ok by (unfold INT_MIN; lia). res_cbn. eexists. split; [reflexivity |].
    replace (Z.to_nat (Z.of_nat k + 1)) with (S k) by lia. rewrite posts_S, zlen_app. f_equal. f_equal.
    rewrite insert_app_r_alt by lia. rewrite Hl, Nat.sub_diag.
    replace (n - k)%nat with (S (n - S k)) by lia. cbn [replicate insert list_insert].
    unfold rev_offsets at 2. rewrite seq_S, !fmap_app. cbn. by rewrite <- (assoc_L (++)).
  - rewrite <- (ints_native_zero be). cbn [Z.to_nat]. by rewrite Nat.sub_0_r.
  - rewrite H, Nat2Z.id, Nat.sub_diag, (zlen_posts C n Hids), app_nil_r. f_equal. f_equal.
    apply ints_native_htonl.
Qed.
End RevIdx.

(** The index component after the call. *)
Definition revidx_component (comp : Component) (C : list Z) (n : nat) : Component :=
  mkComp (path comp) (Z.of_nat n)
    (mkBlob (4 * Z.of_nat n) SIZE_INT (Z.of_nat n) (Some (ints_be (rev_offsets C n))) MALLOCED).

Lemma zlen_rev_offsets C n : zlen (rev_offsets C n) = Z.of_nat n.
Proof. unfold zlen, rev_offsets. by rewrite length_fmap, length_seq. Qed.

Section CreatRevIdx.
Context (be : bool) (disk : gmap string (list Z)) (garbage : Z -> list Z).
Context (Hg : forall k, 0 <= k -> zlen (garbage k) = k).

Lemma creat_rev_corpus_idx_ok C n a e fcomp comp fd :
  zlen C <= INT_MAX -> Forall (fun c => 0 <= c < Z.of_nat n) C -> 0 < Z.of_nat n <= INT_MAX ->
  components a !! CompCorpusFreqs = Some fcomp ->
  comp_avail disk CompCorpusFreqs fcomp = Some (ints_be (freq_table C n)) -> blob_sizes fcomp ->
  components a !! CompRevCorpusIdx = Some comp -> path comp <> None -> data (comp_data comp) = None ->
  4 * Z.of_nat n <= quota fd ->
  creat_rev_corpus_idx be disk garbage CompRevCorpusIdx (Some fd) (mkCL (Some a) e) =
    Ok ((1, Some (mkFILE (contents fd ++ ints_be (rev_offsets C n)) (rpos fd) (quota fd - 4 * Z.of_nat n) (failed fd))),
        mkCL (Some (set_components a (<[CompRevCorpusIdx := revidx_component comp C n]>
          (<[CompCorpusFreqs := load_of fcomp (ints_be (freq_table C n))]> (components a))))) e).
Proof using Hg.
  intros HC Hids Hn Hf Hfa Hfs Hc Hp Hd Hq. unfold creat_rev_corpus_idx. set (df := ints_be (freq_table C n)) in *.
  rewrite (bindM_Ok _ _ _ _ _ (ensure_exact be disk a e CompCorpusFreqs fcomp df ltac:(done) ltac:(done) Hf Hfa)).
  assert (zlen df = 4 * Z.of_nat n) as Hdf by (unfold df; rewrite zlen_ints_be, zlen_freq_table; done).
  assert (zlen df / 4 = Z.of_nat n) as Hdiv by (rewrite Hdf; Z.div_mod_to_equations; lia).
  destruct (load_of_sizes fcomp df Hfs) as (Ed & Es & En & Ei & Esz & Ep).
  { intros d' Hd'. unfold comp_avail in Hfa. rewrite Hd' in Hfa. by injection Hfa. }
  { lia. }
  rewrite Hdiv in *. cda. unfold find_component. cbn [components set_components]. rewrite lookup_insert_ne by done.
  rewrite Hc. cda_lift (deref_Some comp). destruct (path comp) as [p|] eqn:Hpc; [| done]. rewrite Hd.
  cda_lift c_assert_true. cda_lift c_assert_true.
  rewrite Es, En, Esz, Hdf, (proj2 (Z.ltb_ge _ _)) by lia.
  unfold comp_bytes. rewrite Ed. rewrite (bindM_lift _ df) by done.
  assert (drop (Z.to_nat (4 * Z.of_nat n)) (garbage (4 * Z.of_nat n)) = []) as ->.
  { apply drop_ge. pose proof (Hg (4 * Z.of_nat n) ltac:(lia)). unfold zlen in *. lia. }
  rewrite app_nil_r. replace (Z.to_nat (4 * Z.of_nat n)) with (4 * n)%nat by lia.
  rewrite (bindM_lift _ _ _ _ (rev_idx_ok be C n HC Hids)). cbn [fst].
  rewrite (bindM_lift _ (1, Some (mkFILE (contents fd ++ ints_be (rev_offsets C n)) (rpos fd) (quota fd - 4 * Z.of_nat n) (failed fd)))).
  2: { unfold write_file_from_blob. cbn [data size allocation_method]. rewrite (proj2 (Z.eqb_neq _ _)) by lia.
       change (negb ((MALLOCED =? MMAPPED) || (MALLOCED =? MALLOCED))) with false. cbn [orb].
       rewrite fwrite1_Ok; rewrite zlen_ints_be, zlen_rev_offsets; [done | lia]. }
  cbn [fst snd]. rewrite (bindM_Ok _ _ _ _ _ (store_component_run _ _ _ _)). change (1 =? 0) with false. cbv iota. cda.
  assert (s32 (Z.of_nat n) = Z.of_nat n) as Hs32.
  { apply s32_small. lia. }
  unfold revidx_component. by rewrite Hs32, Hpc.
Qed.
End CreatRevIdx.

(** [creat_rev_corpus_idx] writes, for every id, the number of tokens whose id
    is smaller: the place where [creat_rev_corpus] puts the first position of the id. *)
Theorem creat_rev_corpus_idx_correct (be : bool) (disk : gmap string (list Z)) (garbage : Z -> list Z)
    (C : list Z) (n : nat) (a : Attribute) (e : Z) (fcomp comp : Component) (fd : FILE) :
  (forall k, 0 <= k -> zlen (garbage k) = k) ->
  zlen C <= INT_MAX -> Forall (fun c => 0 <= c < Z.of_nat n) C -> 0 < Z.of_nat n <= INT_MAX ->
  components a !! CompCorpusFreqs = Some fcomp ->
  comp_avail disk CompCorpusFreqs fcomp = Some (ints_be (freq_table C n)) -> blob_sizes fcomp ->
  components a !! CompRevCorpusIdx = Some comp -> path comp <> None -> data (comp_data comp) = None ->
  4 * Z.of_nat n <= quota fd ->
  exists fd' a' offs,
    creat_rev_corpus_idx be disk garbage CompRevCorpusIdx (Some fd) (mkCL (Some a) e) =
      Ok ((1, Some fd'), mkCL (Some a') e) /\
    contents fd' = contents fd ++ ints_be offs /\ avail disk a' CompRevCorpusIdx = Some (ints_be offs) /\
    length offs = n /\
    forall i off, offs !! i = Some off ->
      take (length (occ C (Z.of_nat i))) (drop (Z.to_nat off) (concat (occs C n))) = occ C (Z.of_nat i).
Proof.
  intros Hg HC Hids Hn Hf Hfa Hfs Hc Hp Hd Hq. eexists _, _, (rev_offsets C n).
  split; [by eapply creat_rev_corpus_idx_ok |]. split; [done |]. split.
  { unfold avail. cbn [components set_components]. by rewrite lookup_insert_eq. }
  assert (length (rev_offsets C n) = n) as Hl by (unfold rev_offsets; by rewrite length_fmap, length_seq).
  split; [done |]. intros i off Hoff. pose proof (lookup_lt_Some _ _ _ Hoff) as Hi. rewrite Hl in Hi.
  unfold rev_offsets in Hoff. rewrite list_lookup_fmap, lookup_seq_lt in Hoff by done. cbn in Hoff.
  injection Hoff as <-. unfold zlen. rewrite Nat2Z.id.
  assert (posts C 0 n = posts C 0 i ++ occ C (Z.of_nat i) ++ posts C (S i) (n - S i)) as Hsplit.
  { replace n with (i + S (n - S i))%nat at 1 by lia. by rewrite posts_add, posts_cons. }
  change (concat (occs C n)) with (posts C 0 n). rewrite Hsplit, drop_app_length. apply take_app_length.
Qed.

(** ** Examples *)

Definition ex_disk2 : gmap string (list Z) := <["c.corpus.cnt" := ints_be [3; 2; 1]]> ex_disk.
Definition ex_counted : Attribute :=
  mkAtt ATT_POS (<[CompRevCorpus := on_disk "c.corpus.rev"]>
    (<[CompRevCorpusIdx := on_disk "c.corpus.rdx"]> (components ex_raw))) None (-1) [].

(** The components of the example attribute. *)
Lemma ex_counted_components cid comp :
  components ex_counted !! cid = Some comp -> exists p, comp = on_disk p /\
    (forall d, ex_disk2 !! p = Some d -> nr_ints d <= 6).
Proof.
  destruct cid; vm_compute; intros H; try discriminate; injection H as <-; eexists;
    (split; [reflexivity |]); vm_compute; intros d Hd; try discriminate; injection Hd as <-; vm_compute; discriminate.
Qed.

Lemma ex_plain : plain_corpus ex_disk2 ex_counted ex_corpus 3.
Proof.
  split; [| reflexivity | reflexivity | repeat constructor; lia]. split; try reflexivity.
  - intros cid comp Hc. destruct (ex_counted_components cid comp Hc) as (p & -> & Hd). split; [| done].
    intros d. unfold comp_avail, on_disk. cbn [comp_data data init_mblob]. destruct (decide _); [done |].
    intros H. apply Hd in H. unfold INT_MAX. lia.
  - apply (size_plain _ _ _ (ints_be ex_corpus)); reflexivity.
  - unfold INT_MAX. vm_compute. split; [reflexivity | discriminate].
  - unfold INT_MAX. vm_compute. split; [reflexivity | discriminate].
  - eexists. split; reflexivity.
  - apply occs_sorted.
Qed.

(** With a buffer of no cells every pass handles one id. *)
Lemma creat_rev_corpus_correct_witness :
  exists pass fd' cl',
    creat_rev_corpus false ex_disk2 (fun k => replicate (Z.to_nat k) 0) 0 CompRevCorpus
      (Some (mkFILE [] 0 24 false)) (mkCL (Some ex_counted) 0) = Ok ((pass, fd'), cl') /\
    contents fd' = ints_be [0; 2; 5; 1; 4; 3].
Proof.
  destruct (creat_rev_corpus_correct false ex_disk2 (fun k => replicate (Z.to_nat k) 0) 0
    (plain_state ex_disk2 ex_counted) ex_corpus 3 ex_counted 0 (on_disk "c.corpus.rev") (mkFILE [] 0 24 false))
    as (pass & fd' & cl' & E & _ & _ & Hc & _).
  - intros k Hk. rewrite zlen_replicate. lia.
  - apply (plain_token_access false ex_disk2 ex_counted ex_corpus 3 ex_plain).
  - exists ex_counted, 0. split; [reflexivity |]. apply loads_refl.
  - reflexivity.
  - discriminate.
  - reflexivity.
  - vm_compute. discriminate.
  - exists pass, fd', cl'. split; [exact E | exact Hc].
Defined.

Lemma creat_rev_corpus_idx_correct_witness :
  exists fd' a' offs,
    creat_rev_corpus_idx true ex_disk2 (fun k => replicate (Z.to_nat k) 0) CompRevCorpusIdx
      (Some (mkFILE [] 0 24 false)) (mkCL (Some ex_counted) 0) = Ok ((1, Some fd'), mkCL (Some a') 0) /\
    contents fd' = ints_be offs /\ length offs = 3%nat.
Proof.
  destruct (creat_rev_corpus_idx_correct true ex_disk2 (fun k => replicate (Z.to_nat k) 0) ex_corpus 3 ex_counted 0
    (on_disk "c.corpus.cnt") (on_disk "c.corpus.rdx") (mkFILE [] 0 24 false)) as (fd' & a' & offs & E & Hc & _ & Hl & _).
  - intros k Hk. rewrite zlen_replicate. lia.
  - vm_compute. discriminate.
  - repeat constructor; lia.
  - unfold INT_MAX. lia.
  - reflexivity.
  - reflexivity.
  - intros d. discriminate.
  - reflexivity.
  - discriminate.
  - reflexivity.
  - cbn. lia.
  - exists fd', a', offs. split; [exact E |]. split; [exact Hc | exact Hl].
Defined.

(** [cl_cpos2id] on a corpus that is not compressed returns the id of the token at
    the position with [CDA_OK], and the range error for every other position. *)
Theorem cl_cpos2id_plain_correct (be : bool) (disk : gmap string (list Z)) (a : Attribute) (e : Z)
    (C : list Z) (n : nat) (pos : Z) :
  plain_corpus disk a C n ->
  exists a', plain_corpus disk a' C n /\
    cl_cpos2id be disk pos (mkCL (Some a) e) =
      Ok (match (if pos <? 0 then None else C !! Z.to_nat pos) with
          | Some c => (c, mkCL (Some a') CDA_OK)
          | None => (CDA_EPOSORNG, mkCL (Some a') CDA_EPOSORNG)
          end).
Proof.
  intros P. destruct (cl_cpos2id_plain_ok be disk a e C n pos P) as (a' & (L & _) & E).
  exists a'. split; [by eapply plain_corpus_loads | done].
Qed.

Lemma cl_cpos2id_plain_correct_witness :
  exists a', cl_cpos2id false ex_disk2 3 (mkCL (Some ex_counted) 7) = Ok (2, mkCL (Some a') CDA_OK).
Proof.
  destruct (cl_cpos2id_plain_correct false ex_disk2 ex_counted 7 ex_corpus 3 3 ex_plain) as (a' & _ & E).
  exists a'. exact E.
Defined.
