(* ===== verification/MakeLexicon.v ===== *)
(** * The sorted lexicon: the theorem about [creat_sort_lexicon]

    [qsort] of the C library is a parameter; [qsort_sorts] is what its
    documentation promises for a comparison function that orders the elements,
    and [insertion_sort] shows that the promise can be kept. *)

From Stdlib Require Import ZArith Lia String Ascii.
From stdpp Require Import base tactics option list numbers gmap strings.
From S2P Require Import Prelude Bits Storage Blob Attributes CDA Lexicon MakeComps MakeFreqs.

Open Scope Z_scope.

(** ** [qsort] *)

(** If the comparisons of the elements do not fault and form a total preorder,
    the array is permuted into ascending order. *)
Definition qsort_sorts (qsort : (Z -> Z -> res Z) -> list Z -> res (list Z)) : Prop :=
  forall cmp f l,
    (forall x y, x ∈ l -> y ∈ l -> cmp x y = Ok (f x y)) ->
    (forall x y, x ∈ l -> y ∈ l -> f x y <= 0 \/ f y x <= 0) ->
    (forall x y z, x ∈ l -> y ∈ l -> z ∈ l -> f x y <= 0 -> f y z <= 0 -> f x z <= 0) ->
    exists l', qsort cmp l = Ok l' /\ l' ≡ₚ l /\
      forall i j x y, (i <= j)%nat -> l' !! i = Some x -> l' !! j = Some y -> f x y <= 0.

Section InsertionSort.
Context (cmp : Z -> Z -> res Z).

Fixpoint insert_sorted (x : Z) (l : list Z) : res (list Z) :=
  match l with
  | [] => Ok [x]
  | y :: k => c ← cmp x y; if c <=? 0 then Ok (x :: y :: k) else k' ← insert_sorted x k; Ok (y :: k')
  end.

Fixpoint insertion_sort (l : list Z) : res (list Z) :=
  match l with [] => Ok [] | x :: k => k' ← insertion_sort k; insert_sorted x k' end.
End InsertionSort.

Section InsertionSortOk.
Context (cmp : Z -> Z -> res Z) (f : Z -> Z -> Z) (D : list Z).
Context (Hcmp : forall x y, x ∈ D -> y ∈ D -> cmp x y = Ok (f x y)).
Context (Htot : forall x y, x ∈ D -> y ∈ D -> f x y <= 0 \/ f y x <= 0).
Context (Htr : forall x y z, x ∈ D -> y ∈ D -> z ∈ D -> f x y <= 0 -> f y z <= 0 -> f x z <= 0).

(** Every element is in order with those after it, and with itself. *)
Inductive ascending : list Z -> Prop :=
| ascending_nil : ascending []
| ascending_cons x l : Forall (fun y => f x y <= 0) (x :: l) -> ascending l -> ascending (x :: l).

Lemma ascending_lookup l i j x y :
  ascending l -> (i <= j)%nat -> l !! i = Some x -> l !! j = Some y -> f x y <= 0.
Proof.
  intros Hl. revert i j. induction Hl as [|z l Hz Hl IH]; intros i j Hij; [done |].
  destruct i as [|i]; cbn.
  - intros [= ->] Hy. by apply (Forall_lookup_1 _ _ j y Hz).
  - destruct j as [|j]; [lia |]. cbn. apply IH. lia.
Qed.

Lemma f_refl x : x ∈ D -> f x x <= 0.
Proof using Htot. intros Hx. by destruct (Htot x x Hx Hx). Qed.

Lemma insert_sorted_ok x l :
  x ∈ D -> Forall (fun y => y ∈ D) l -> ascending l ->
  exists l', insert_sorted cmp x l = Ok l' /\ l' ≡ₚ x :: l /\ ascending l'.
Proof using Hcmp Htot Htr.
  intros Hx HD Hl. induction Hl as [|y l Hy Hl IH]; cbn [insert_sorted].
  - exists [x]. split; [done |]. split; [done |]. repeat constructor. by apply f_refl.
  - inversion_clear HD as [|? ? HyD HlD]. rewrite Hcmp by done. res_cbn.
    destruct (Z.leb_spec (f x y) 0) as [Hle|Hgt].
    + exists (x :: y :: l). split; [done |]. split; [done |]. constructor; [| by constructor].
      constructor; [by apply f_refl |]. constructor; [done |]. rewrite Forall_forall in *.
      intros z Hz. apply (Htr x y z); [done | done | by apply HlD | done |]. apply Hy. by constructor.
    + destruct IH as (l' & -> & Hp & Ha); [done |]. res_cbn. exists (y :: l'). split; [done |].
      split; [by rewrite Hp, Permutation_swap |]. constructor; [| done].
      assert (f y x <= 0) by (destruct (Htot x y); [done | done | lia | done]).
      inversion_clear Hy as [|? ? Hyy Hyl]. constructor; [done |]. rewrite Hp. by constructor.
Qed.

Lemma insertion_sort_ok l :
  Forall (fun y => y ∈ D) l -> exists l', insertion_sort cmp l = Ok l' /\ l' ≡ₚ l /\ ascending l'.
Proof using Hcmp Htot Htr.
  induction l as [|x l IH]; intros HD; cbn [insertion_sort].
  - exists []. split; [done |]. split; [done | constructor].
  - inversion_clear HD as [|? ? HxD HlD]. destruct IH as (k & -> & Hp & Ha); [done |]. res_cbn.
    destruct (insert_sorted_ok x k) as (l' & -> & Hp' & Ha'); [done | by rewrite Hp | done |].
    exists l'. split; [done |]. split; [by rewrite Hp', Hp | done].
Qed.
End InsertionSortOk.

Lemma insertion_sort_sorts : qsort_sorts insertion_sort.
Proof.
  intros cmp f l Hcmp Htot Htr.
  destruct (insertion_sort_ok cmp f l Hcmp Htot Htr l) as (l' & E & Hp & Ha); [by apply Forall_forall |].
  exists l'. split; [done |]. split; [done |]. intros i j x y. by apply ascending_lookup.
Qed.

(** ** [creat_sort_lexicon] *)

(** What the function works on: the lexicon [L], whose index is also the file of
    its component, and a component for the sorted index that has no data yet. *)
Record sort_input (disk : gmap string (list Z)) (a : Attribute) (L : list (list Z))
    (lcomp icomp scomp : Component) : Prop := {
  si_lex : components a !! CompLexicon = Some lcomp;
  si_lex_data : comp_avail disk CompLexicon lcomp = Some (lex_data L);
  si_idx : components a !! CompLexiconIdx = Some icomp;
  si_idx_data : comp_avail disk CompLexiconIdx icomp = Some (ints_be (lex_index L));
  si_idx_file : file_of disk icomp = Some (ints_be (lex_index L));
  si_idx_sizes : blob_sizes icomp;
  si_srt : components a !! CompLexiconSrt = Some scomp;
  si_srt_state : comp_component_state disk CompLexiconSrt scomp = ComponentDefined;
  si_srt_path : path scomp <> None;
  si_words : Forall is_str L;
  si_some : L <> [];
  si_small : zlen (lex_data L) <= INT_MAX
}.

Definition srt_component (scomp : Component) (P : list nat) : Component :=
  mkComp (path scomp) (zlen P)
    (mkBlob (4 * zlen P) SIZE_INT (zlen P) (Some (ints_be (Z.of_nat <$> P))) MALLOCED).

(** [P] lists the ids of the words of [L] in ascending order of the words. *)
Definition sorted_ids (L : list (list Z)) (P : list nat) : Prop :=
  P ≡ₚ seq 0 (length L) /\
  forall p q i j w v, (p <= q)%nat -> P !! p = Some i -> P !! q = Some j ->
    L !! i = Some w -> L !! j = Some v -> cl_strcmp w v <= 0.

Section CreatSort.
Context (be : bool) (disk : gmap string (list Z)).
Context (qsort : (Z -> Z -> res Z) -> list Z -> res (list Z)) (Hqsort : qsort_sorts qsort).

(** The ascending numbers the array is filled with. *)
Lemma fill_ok n d : zlen d = Z.of_nat n ->
  for_up (fun i d => iset be d i i) 0 (Z.of_nat n) (ints_native be d) =
    Ok (ints_native be (Z.of_nat <$> seq 0 n)).
Proof.
  intros Hd.
  for_up_with (fun i x => x = ints_native be ((Z.of_nat <$> seq 0 (Z.to_nat i)) ++ drop (Z.to_nat i) d)) x E H.
  - lia.
  - intros i x Hi ->. set (k := Z.to_nat i) in *. replace i with (Z.of_nat k) by lia. unfold zlen in Hd.
    assert (length (Z.of_nat <$> seq 0 k) = k) as Hl by (by rewrite length_fmap, length_seq).
    rewrite iset_native by (rewrite length_app, Hl, length_drop; lia). eexists. split; [reflexivity |].
    replace (Z.to_nat (Z.of_nat k + 1)) with (S k) by lia. f_equal.
    rewrite insert_app_r_alt by lia. rewrite Hl, Nat.sub_diag.
    destruct (lookup_lt_is_Some_2 d k) as [v Hv]; [lia |]. rewrite (drop_S _ _ _ Hv), seq_S, fmap_app.
    cbn. by rewrite <- (assoc_L (++)).
  - done.
  - rewrite H, Nat2Z.id, drop_ge, app_nil_r by (unfold zlen in Hd; lia). done.
Qed.

Lemma scompare_ok L i j w v :
  Forall is_str L -> zlen (lex_data L) <= INT_MAX -> L !! i = Some w -> L !! j = Some v ->
  scompare be (lex_data L) (ints_be (lex_index L)) (Z.of_nat i) (Z.of_nat j) = Ok (cl_strcmp w v).
Proof.
  intros HL Hs Hi Hj. unfold scompare.
  rewrite !nget_lex_index by (done || by eapply lookup_lt_Some). res_cbn.
  rewrite (c_string_lex L i w), (c_string_lex L j v) by done. by res_cbn.
Qed.

(** What [qsort] makes of the ids. *)
Lemma sort_ids_ok L :
  Forall is_str L -> zlen (lex_data L) <= INT_MAX ->
  exists P, qsort (scompare be (lex_data L) (ints_be (lex_index L))) (Z.of_nat <$> seq 0 (length L)) =
      Ok (Z.of_nat <$> P) /\ sorted_ids L P.
Proof using Hqsort.
  intros HL Hs.
  set (f x y := cl_strcmp (default [] (L !! Z.to_nat x)) (default [] (L !! Z.to_nat y))).
  assert (forall x, x ∈ Z.of_nat <$> seq 0 (length L) -> exists i w, x = Z.of_nat i /\ L !! i = Some w /\ is_str w) as Hin.
  { intros x Hx. apply list_elem_of_fmap in Hx as (i & -> & Hi). apply elem_of_seq in Hi.
    destruct (lookup_lt_is_Some_2 L i) as [w Hw]; [lia |]. exists i, w. split; [done |]. split; [done |].
    by eapply (Forall_lookup_1 _ _ _ _ HL). }
  destruct (Hqsort (scompare be (lex_data L) (ints_be (lex_index L))) f (Z.of_nat <$> seq 0 (length L)))
    as (l & E & Hp & Hs').
  - intros x y Hx Hy. apply Hin in Hx as (i & w & -> & Hi & _). apply Hin in Hy as (j & v & -> & Hj & _).
    unfold f. rewrite !Nat2Z.id, Hi, Hj. by apply scompare_ok.
  - intros x y _ _. unfold f. rewrite (cl_strcmp_antisym (default [] (L !! Z.to_nat x))). lia.
  - intros x y z Hx Hy Hz. apply Hin in Hx as (i & w & -> & Hi & Hw). apply Hin in Hy as (j & v & -> & Hj & Hv).
    apply Hin in Hz as (k & u & -> & Hk & Hu). unfold f. rewrite !Nat2Z.id, Hi, Hj, Hk. cbn.
    by apply cl_strcmp_trans_le.
  - assert (Z.of_nat <$> (Z.to_nat <$> l) = l) as Hl.
    { rewrite <- list_fmap_compose. rewrite <- (list_fmap_id l) at 2. apply list_fmap_ext.
      intros k x Hx. assert (x ∈ l) as Hx' by (apply list_elem_of_lookup; eauto). rewrite Hp in Hx'.
      apply Hin in Hx' as (i & w & -> & _). unfold compose, id. lia. }
    exists (Z.to_nat <$> l). rewrite Hl. split; [done |]. split.
    + rewrite Hp, <- list_fmap_compose. rewrite (list_fmap_ext _ id (seq 0 (length L))); [by rewrite list_fmap_id |].
      intros ? x _. unfold compose, id. lia.
    + intros p q i j w v Hpq H1 H2 Hi Hj. rewrite list_lookup_fmap in H1, H2.
      destruct (l !! p) as [x|] eqn:Ex; [| done]. destruct (l !! q) as [y|] eqn:Ey; [| done].
      cbn in H1, H2. injection H1 as <-. injection H2 as <-.
      pose proof (Hs' p q x y Hpq Ex Ey) as H. unfold f in H. by rewrite Hi, Hj in H.
Qed.

Lemma lex_data_len L : zlen L <= zlen (lex_data L).
Proof.
  induction L as [|w L IH]; [done |]. unfold lex_data. rewrite bind_cons, zlen_cons, !zlen_app.
  fold (lex_data L). change (zlen [0]) with 1. pose proof (zlen_nonneg w). lia.
Qed.

Lemma creat_sort_lexicon_ok a e L lcomp icomp scomp fd :
  sort_input disk a L lcomp icomp scomp -> 4 * zlen L <= quota fd ->
  exists P, sorted_ids L P /\
    creat_sort_lexicon be disk qsort CompLexiconSrt (Some fd) (mkCL (Some a) e) =
      Ok ((1, Some (mkFILE (contents fd ++ ints_be (Z.of_nat <$> P)) (rpos fd) (quota fd - 4 * zlen L) (failed fd))),
          mkCL (Some (set_components a (<[CompLexiconSrt := srt_component scomp P]>
            (<[CompLexiconIdx := load_of icomp (ints_be (lex_index L))]>
              (<[CompLexicon := load_of lcomp (lex_data L)]> (components a)))))) e).
Proof using Hqsort.
  intros [Hl Hld Hi Hid Hif His Hs Hss Hsp Hw Hne Hsm] Hq.
  destruct (sort_ids_ok L Hw Hsm) as (P & Eq & HP). exists P. split; [done |].
  assert (length P = length L) as HPl by (destruct HP as [Hp _]; rewrite Hp; apply length_seq).
  assert (zlen P = zlen L) as HPz by (unfold zlen; lia).
  pose proof (lex_data_len L) as HLn. assert (0 < zlen L) by (destruct L; [done | unfold zlen; cbn; lia]).
  unfold creat_sort_lexicon, find_component. cda. rewrite Hs. cda_lift (deref_Some scomp).
  rewrite bool_decide_eq_true_2 by done. cda_lift c_assert_true.
  rewrite (bindM_Ok _ _ _ _ _ (ensure_exact be disk a e CompLexicon lcomp _ ltac:(done) ltac:(done) Hl Hld)).
  set (a1 := set_components a _).
  assert (components a1 !! CompLexiconIdx = Some icomp) as Hi1 by (cbn; by rewrite lookup_insert_ne).
  rewrite (bindM_Ok _ _ _ _ _ (ensure_exact be disk a1 e CompLexiconIdx icomp _ ltac:(done) ltac:(done) Hi1 Hid)).
  set (di := ints_be (lex_index L)) in *.
  assert (zlen di = 4 * zlen L) as Hdi by (unfold di; by rewrite zlen_ints_be, zlen_lex_index).
  assert (zlen di / 4 = zlen L) as Hdiv by (rewrite Hdi; Z.div_mod_to_equations; lia).
  destruct (load_of_sizes icomp di His) as (Ed & Es & En & Ei & Esz & Ep).
  { intros d' Hd'. unfold comp_avail in Hid. rewrite Hd' in Hid. by injection Hid. }
  { lia. }
  rewrite Hdiv in *. destruct (path scomp) as [sp|] eqn:Hpath; [| done]. cda_lift c_assert_true.
  rewrite Es, Hdi, (proj2 (Z.ltb_lt _ _)) by lia. cda_lift c_assert_true.
  rewrite Ed. rewrite (bindM_lift _ di) by done. unfold load_from, file_of. rewrite Ep.
  unfold file_of in Hif. rewrite Hif. unfold read_file_into_blob.
  change (negb ((MALLOCED =? MMAPPED) || (MALLOCED =? MALLOCED))) with false.
  change (SIZE_INT =? SIZE_BIT) with false. cbv iota beta. change (1 =? 0) with false. cbv iota.
  cbn [size nr_items item_size data allocation_method]. unfold SIZE_INT in *. rewrite En, Ei, Hdiv, Hdi.
  rewrite u32_small by (unfold INT_MAX in *; lia). rewrite !Z.eqb_refl.
  do 3 (cda_lift c_assert_true). rewrite (bindM_lift _ di) by done.
  rewrite (bindM_lift _ (ints_native be (Z.of_nat <$> seq 0 (length L)))).
  2: { unfold di. rewrite <- (ints_native_htonl be). unfold zlen. apply fill_ok.
       unfold zlen. rewrite length_fmap. pose proof (zlen_lex_index L). unfold zlen in *. lia. }
  assert (comp_bytes (load_of lcomp (lex_data L)) = Ok (lex_data L)) as Elex.
  { unfold comp_bytes, load_of. unfold comp_avail in Hld. destruct (data (comp_data lcomp)) eqn:E; [| done].
    injection Hld as ->. by rewrite E. }
  rewrite (bindM_lift _ _ _ _ Elex). rewrite Esz.
  set (ids := Z.of_nat <$> seq 0 (length L)) in *.
  assert (zlen (ints_native be ids) = 4 * zlen L) as Hnl.
  { unfold zlen. rewrite length_ints_native. unfold ids. rewrite length_fmap, length_seq. lia. }
  rewrite (take_ge (ints_native be ids)), (drop_ge (ints_native be ids)) by (unfold zlen in *; lia).
  assert (s32 <$> native_ints be (ints_native be ids) = ids) as ->.
  { rewrite native_ints_native, <- list_fmap_compose. rewrite (list_fmap_ext _ id ids); [apply list_fmap_id |].
    intros k x Hx. unfold compose, id. apply s32_u32. unfold ids in Hx. rewrite list_lookup_fmap in Hx.
    destruct (seq 0 (length L) !! k) eqn:Ek; [| done]. apply lookup_seq in Ek as [-> Hk]. cbn in Hx.
    injection Hx as <-. unfold zlen, INT_MIN, INT_MAX in *. lia. }
  rewrite (bindM_lift _ _ _ _ Eq). rewrite app_nil_r.
  assert (zlen (Z.of_nat <$> P) = zlen L) as HPz' by (unfold zlen; rewrite length_fmap; lia).
  assert (forall k, write_file_from_blob be (Some fd)
     (mkBlob (4 * zlen L) 4 k (Some (ints_native be (Z.of_nat <$> P))) MALLOCED) true =
     Ok (1, Some (mkFILE (contents fd ++ ints_be (Z.of_nat <$> P)) (rpos fd) (quota fd - 4 * zlen L) (failed fd)))) as Ew.
  { intros k. rewrite <- HPz'. apply write_blob_ok; [| lia]. intros H0. rewrite H0 in HPz'. unfold zlen in HPz'. cbn in HPz'. unfold zlen in *. lia. }
  rewrite (bindM_lift _ _ _ _ (Ew _)). cbn [fst snd]. change (1 =? 0) with false. cbv iota.
  pose proof (to_network_ok be (Z.of_nat <$> P)) as Et. rewrite HPz' in Et. rewrite (bindM_lift _ _ _ _ Et).
  rewrite (bindM_Ok _ _ _ _ _ (store_component_run _ _ _ _)). cda.
  unfold srt_component. rewrite HPz, Hpath. unfold a1, set_components. cbn. done.
Qed.
End CreatSort.

(** C34. [creat_sort_lexicon] sorts: with a [qsort] that does what it documents, the
    file written and the component left in memory hold a permutation of the ids of
    the lexicon in ascending order of their words under [cl_strcmp], which is what
    the binary search of [cl_str2id] relies on, so that every word is found. *)
Theorem creat_sort_lexicon_correct (be : bool) (disk : gmap string (list Z))
    (qsort : (Z -> Z -> res Z) -> list Z -> res (list Z)) (a : Attribute) (e : Z) (L : list (list Z))
    (lcomp icomp scomp : Component) (fd : FILE) :
  qsort_sorts qsort -> sort_input disk a L lcomp icomp scomp -> 4 * zlen L <= quota fd ->
  exists P fd' a',
    creat_sort_lexicon be disk qsort CompLexiconSrt (Some fd) (mkCL (Some a) e) =
      Ok ((1, Some fd'), mkCL (Some a') e) /\
    contents fd' = contents fd ++ ints_be (Z.of_nat <$> P) /\ has_sort_index disk a' L P.
Proof.
  intros Hqs Hin Hq. destruct (creat_sort_lexicon_ok be disk qsort Hqs a e L lcomp icomp scomp fd Hin Hq)
    as (P & [Hp Hs] & E).
  eexists P, _, _. split; [exact E |]. split; [done |]. split; [| done | done].
  unfold avail. cbn [components set_components]. by rewrite lookup_insert_eq.
Qed.

Definition ex_lex_disk : gmap string (list Z) :=
  <["w.lexicon" := lex_data ex_words]> (<["w.lexicon.idx" := ints_be (lex_index ex_words)]> ∅).
Definition ex_lex_raw : Attribute :=
  mkAtt ATT_POS (<[CompLexicon := on_disk "w.lexicon"]> (<[CompLexiconIdx := on_disk "w.lexicon.idx"]>
    (<[CompLexiconSrt := on_disk "w.lexicon.srt"]> ∅))) None (-1) [].

Lemma creat_sort_lexicon_correct_witness :
  exists P fd' a',
    creat_sort_lexicon true ex_lex_disk insertion_sort CompLexiconSrt (Some (mkFILE [] 0 16 false))
      (mkCL (Some ex_lex_raw) 0) = Ok ((1, Some fd'), mkCL (Some a') 0) /\
    contents fd' = ints_be (Z.of_nat <$> P) /\ has_sort_index ex_lex_disk a' ex_words P.
Proof.
  apply (creat_sort_lexicon_correct true ex_lex_disk insertion_sort ex_lex_raw 0 ex_words
    (on_disk "w.lexicon") (on_disk "w.lexicon.idx") (on_disk "w.lexicon.srt") (mkFILE [] 0 16 false)).
  - exact insertion_sort_sorts.
  - split; try reflexivity.
    + intros d. discriminate.
    + discriminate.
    + repeat constructor; lia.
    + discriminate.
    + vm_compute. discriminate.
  - vm_compute. discriminate.
Defined.
