(* ===== verification/MakeAll.v ===== *)
(** * Building all components of an attribute: utils/cwb-makeall.c

    [create_component] of cl/attributes.c and the tool that calls it:
    [component_ok], [makeall_make_component], [validate_revcorp] and
    [makeall_do_attribute].  The state is the library's state and the files on
    disk, which the functions of MakeComps add to. *)

From Stdlib Require Import ZArith Lia String Ascii.
From stdpp Require Import base tactics option list numbers gmap strings.
From S2P Require Import Prelude Bits Storage BitIO Golomb Blob Attributes ComponentPaths CDA Lexicon Positional MakeComps.

Open Scope Z_scope.

(** ** State *)

Record World := mkWorld {
  lib : CL;
  files : gmap string (list Z)
}.

Definition W (A : Type) : Type := World -> res (A * World).

#[export] Instance W_ret : MRet W := fun A a w => Ok (a, w).
#[export] Instance W_bind : MBind W := fun A B k m w =>
  match m w with Ok (a, w') => k a w' | Err f => Err f end.

Definition raise {A} (f : fault) : W A := fun _ => Err f.

(** Run a function of the library, which sees the files as they are. *)
Definition with_files {A} (m : gmap string (list Z) -> M A) : W A := fun w =>
  match m (files w) (lib w) with Ok (a, cl) => Ok (a, mkWorld cl (files w)) | Err f => Err f end.

(** The file [p] after the stream for it was closed; nothing is written if it was
    never opened. *)
Definition close_file (p : string) (fd : option FILE) : W unit := fun w =>
  Ok ((), match fd with Some f => mkWorld (lib w) (<[p := contents f]> (files w)) | None => w end).

Section MakeAll.
Context (be : bool).
Context (home : option string) (aname : string) (apath mother_path : option string) (buf : list ascii).
Context (garbage : Z -> list Z) (cl_memory_limit : Z).
Context (qsort : (Z -> Z -> res Z) -> list Z -> res (list Z)).

(** [room p] is the number of bytes the device takes for the file [p]; [None] if
    the file cannot be created. *)
Context (room : string -> option Z).

Definition fopen_wb (p : string) : option FILE :=
  match room p with Some q => Some (mkFILE [] 0 q false) | None => None end.

(** ** cl/attributes.c *)

Definition state_of (cid : ComponentID) : W ComponentState :=
  with_files (fun disk => a ← attribute; mret (component_state disk a cid)).

Definition component_of (cid : ComponentID) : W (option Component) :=
  with_files (fun _ => a ← attribute; mret (find_component a cid)).

Definition create_component (cid : ComponentID) : W (option Component) :=
  comp ← component_of cid;
  st ← state_of cid;
  if decide (st = ComponentDefined) then
    match comp with
    | None => raise AssertFail
    | Some comp =>
        match data (comp_data comp), path comp with
        | None, Some p =>
            match cid with
            | CompDirectory => component_of cid
            | CompRevCorpus =>
                r ← with_files (fun disk => creat_rev_corpus be disk garbage cl_memory_limit cid (fopen_wb p));
                _ ← close_file p (Some r.2);
                component_of cid
            | CompRevCorpusIdx =>
                r ← with_files (fun disk => creat_rev_corpus_idx be disk garbage cid (fopen_wb p));
                _ ← close_file p r.2;
                component_of cid
            | CompLexiconSrt =>
                r ← with_files (fun disk => creat_sort_lexicon be disk qsort cid (fopen_wb p));
                _ ← close_file p r.2;
                component_of cid
            | CompCorpusFreqs =>
                r ← with_files (fun disk => creat_freqs be disk home aname apath mother_path cid buf (fopen_wb p));
                _ ← close_file p r.2;
                component_of cid
            | _ => mret None
            end
        | _, _ => raise AssertFail
        end
    end
  else mret None.

(** ** utils/cwb-makeall.c *)

Definition component_ok (cid : ComponentID) : W bool :=
  st ← state_of cid;
  match st with
  | ComponentLoaded | ComponentUnloaded => mret true
  | ComponentDefined => mret false
  | ComponentUndefined => raise ExitCall
  end.

Definition makeall_make_component (cid : ComponentID) : W unit :=
  ok ← component_ok cid;
  if (ok : bool) then mret ()
  else
    _ ← create_component cid;
    st ← state_of cid;
    if is_accessible st then mret () else raise ExitCall.

(** [for (i = 0; i < lexsize; i++) { ptab[i] = offset; offset += cl_id2freq(attr, i); }] *)
Definition init_offset (disk : gmap string (list Z)) (i : Z) (st : list Z * Z) : M (list Z * Z) :=
  let '(ptab, offset) := st in
  ptab ← lift (aset ptab i offset);
  f ← cl_id2freq be disk i;
  offset ← lift (c_int (offset + f));
  mret (ptab, offset).

(** The loop over the tokens; [inr false] is the return of 0. *)
Definition check_token (disk : gmap string (list Z)) (revcorp : list Z) (lexsize corpsize : Z) (st : Z * list Z)
  : M (Z * list Z + option (list Z)) :=
  let '(cpos, ptab) := st in
  if cpos <? corpsize then
    id ← cl_cpos2id be disk cpos;
    if (id <? 0) || (lexsize <=? id) then mret (inr None)
    else
      p ← lift (aget ptab id);
      v ← lift (nget be revcorp p);
      if negb (v =? u32 cpos) then mret (inr None)
      else
        q ← lift (c_int (p + 1));
        ptab ← lift (aset ptab id q);
        mret (inl (cpos + 1, ptab))
  else mret (inr (Some ptab)).

(** [offset += cl_id2freq(attr, i); if (ptab[i] != offset) return 0;] *)
Definition check_offset (disk : gmap string (list Z)) (lexsize : Z) (ptab : list Z) (st : Z * Z)
  : M (Z * Z + bool) :=
  let '(i, offset) := st in
  if i <? lexsize then
    f ← cl_id2freq be disk i;
    offset ← lift (c_int (offset + f));
    p ← lift (aget ptab i);
    if negb (p =? offset) then mret (inr false) else mret (inl (i + 1, offset))
  else mret (inr true).

Definition validate_revcorp (disk : gmap string (list Z)) : M bool :=
  revcorp ← ensure be disk CompRevCorpus;
  match revcorp with
  | None => mret false
  | Some revcorp =>
      lexsize ← cl_max_id be disk;
      corpsize ← cl_max_cpos be disk;
      if (lexsize <=? 0) || (corpsize <=? 0) then mret false else
      if negb (comp_size revcorp =? corpsize) then mret false else
      r ← forM_up (init_offset disk) 0 lexsize (replicate (Z.to_nat lexsize) 0, 0);
      d ← lift (comp_bytes revcorp);
      ptab ← loopM (check_token disk d lexsize corpsize) fuel (0, r.1);
      match ptab with
      | None => mret false
      | Some ptab => loopM (check_offset disk lexsize ptab) fuel (0, 0)
      end
  end.

(** [!component_ok(attr, c1) && !component_ok(attr, c2) && ...] *)
Fixpoint none_ok (cids : list ComponentID) : W bool :=
  match cids with
  | [] => mret true
  | cid :: cids => ok ← component_ok cid; if (ok : bool) then mret false else none_ok cids
  end.

Fixpoint all_ok (cids : list ComponentID) : W bool :=
  match cids with
  | [] => mret true
  | cid :: cids => ok ← component_ok cid; if (ok : bool) then all_ok cids else mret false
  end.

Definition validate_or_exit : W unit :=
  ok ← with_files validate_revcorp;
  if (ok : bool) then mret () else raise ExitCall.

(** [cid = None] stands for [CompLast]: all components.  Messages are not modelled. *)
Definition makeall_do_attribute (cid : option ComponentID) (validate : bool) : W unit :=
  match cid with
  | None =>
      lex ← all_ok [CompLexicon; CompLexiconIdx];
      if negb lex then
        none ← none_ok [CompLexicon; CompLexiconIdx; CompLexiconSrt; CompCorpus; CompCorpusFreqs; CompHuffSeq;
                        CompHuffCodes; CompHuffSync; CompRevCorpus; CompRevCorpusIdx; CompCompRF; CompCompRFX];
        if (none : bool) then mret () else raise ExitCall
      else
        _ ← makeall_make_component CompLexiconSrt;
        _ ← makeall_make_component CompCorpusFreqs;
        huff ← all_ok [CompHuffSeq; CompHuffCodes; CompHuffSync];
        _ ← (if (huff : bool) then mret () else makeall_make_component CompCorpus);
        crc ← all_ok [CompCompRF; CompCompRFX];
        if (crc : bool) then mret ()
        else
          _ ← makeall_make_component CompRevCorpusIdx;
          ok ← component_ok CompRevCorpus;
          if (ok : bool) then mret ()
          else
            _ ← makeall_make_component CompRevCorpus;
            if validate then validate_or_exit else mret ()
  | Some cid =>
      _ ← makeall_make_component cid;
      if validate && bool_decide (cid = CompRevCorpus) then validate_or_exit else mret ()
  end.
End MakeAll.
