(* ===== verification/MakeAllCorrect.v ===== *)
(** * cwb-makeall is correct

    [validate_revcorp] accepts a reversed corpus exactly if it is the right one,
    and [makeall_do_attribute] turns an encoded attribute (lexicon, lexicon index
    and token stream on disk) into one with a sorted lexicon, frequencies and an
    index of all positions, as the access functions of the library need them. *)

From Stdlib Require Import ZArith Lia String Ascii Sorted.
From stdpp Require Import base tactics option list numbers gmap strings.
From S2P Require Import Prelude Bits Storage BitIO Golomb Blob Attributes ComponentPaths CDA Lexicon Positional RevIndex MakeComps MakeFreqs MakeRevCorpus MakeLexicon MakeAll.

Open Scope Z_scope.

(** ** Validation *)
Section Validate.
Context (be : bool) (disk : gmap string (list Z)) (Inv : CL -> Prop) (C : list Z) (n : nat).
Context {TA : TokenAccess be disk Inv C n}.
Context (R : list Z) (HR : zlen R = zlen C) (HRi : Forall (fun v => INT_MIN <= v <= INT_MAX) R).

(** The offsets computed from the frequencies. *)
Lemma init_offsets_ok cl :
  Inv cl ->
  exists ptab cl', forM_up (init_offset be disk) 0 (Z.of_nat n) (replicate n 0, 0) cl = Ok ((ptab, zlen C), cl') /\
    Inv cl' /\ length ptab = n /\ forall j, (j < n)%nat -> ptab !! j = Some (off C 0 j).
Proof using TA.
  intros HI. pose proof (ta_ids (C := C)) as Hids. pose proof (ta_tokens (C := C)) as HC.
  destruct (forM_up_rule (init_offset be disk)
    (fun i st cl => Inv cl /\ length st.1 = n /\ st.2 = off C 0 (Z.to_nat i) /\
       forall j, (j < Z.to_nat i)%nat -> st.1 !! j = Some (off C 0 j)) 0 (Z.of_nat n) (replicate n 0, 0) cl)
    as ([ptab o] & cl' & E & HI' & Hl & Ho & Hp).
  - lia.
  - intros i [ptab o] cl0 Hi (HI0 & Hl & Ho & Hp). cbn [fst snd] in *. set (k := Z.to_nat i) in *.
    replace i with (Z.of_nat k) by lia. unfold init_offset.
    rewrite (bindM_lift _ (<[k := o]> ptab)).
    2: { rewrite aset_Ok, Nat2Z.id; [done |]. unfold zlen. lia. }
    destruct (ta_id2freq cl0 k HI0) as (cl1 & E1 & HI1); [lia |]. rewrite (bindM_Ok _ _ _ _ _ E1).
    pose proof (off_next C 0 k ltac:(lia)) as Hnx. rewrite <- Ho in Hnx.
    assert (off C 0 (S k) <= zlen C) by (unfold off; apply (zlen_posts_le C n); [done | lia]).
    pose proof (off_nonneg C 0 (S k)).
    rewrite (bindM_lift _ (off C 0 (S k))) by (rewrite <- Hnx; apply c_int_Ok; unfold INT_MIN; lia).
    eexists _, _. split; [reflexivity |]. replace (Z.to_nat (Z.of_nat k + 1)) with (S k) by lia. cbn [fst snd].
    split; [done |]. split; [by rewrite length_insert |]. split; [done |]. intros j Hj.
    destruct (decide (j = k)) as [->|]; [rewrite list_lookup_insert_eq by lia; by rewrite Ho |].
    rewrite list_lookup_insert_ne by done. apply Hp. lia.
  - cbn [fst snd]. split; [done |]. split; [apply length_replicate |]. split; [by rewrite off_first |]. intros j Hj. lia.
  - cbn [fst snd] in *. rewrite Nat2Z.id in *. exists ptab, cl'.
    assert (o = zlen C) as ->; [| done]. rewrite Ho. unfold off. rewrite Nat.sub_0_r. by apply zlen_posts.
Qed.

(** After [k] tokens, all of which were found where they should be. *)
Record matched (k : nat) (ptab : list Z) : Prop := {
  mt_len : length ptab = n;
  mt_ptab j : (j < n)%nat -> ptab !! j = Some (off C 0 j + zlen (occ (take k C) (Z.of_nat j)));
  mt_cells j i x : (j < n)%nat -> occ (take k C) (Z.of_nat j) !! i = Some x ->
    R !! (Z.to_nat (off C 0 j) + i)%nat = Some x
}.

Lemma matched_all ptab : matched (length C) ptab -> R = posts C 0 n.
Proof using TA HR.
  intros [_ _ Hc]. rewrite take_ge in Hc by lia. pose proof (ta_ids (C := C)) as Hids.
  assert (off C 0 n = zlen C) as Ho by (unfold off; rewrite Nat.sub_0_r; by apply zlen_posts).
  pose proof (cells_posts C 0 n R ltac:(lia)) as H. rewrite Nat.sub_0_r, Ho, take_ge in H by (unfold zlen in *; lia).
  apply H; [lia |]. intros j i x Hj. apply Hc. lia.
Qed.

(** The cell that is compared with the token at [k]. *)
Lemma expected_cell k c :
  C !! k = Some (Z.of_nat c) -> (c < n)%nat ->
  let m := length (occ (take k C) (Z.of_nat c)) in
  occ C (Z.of_nat c) !! m = Some (Z.of_nat k) /\ off C 0 c + Z.of_nat m < zlen C /\
  posts C 0 n !! (Z.to_nat (off C 0 c) + m)%nat = Some (Z.of_nat k).
Proof using TA.
  clear HR HRi. intros Hc Hcn m. pose proof (ta_ids (C := C)) as Hids.
  assert (occ C (Z.of_nat c) !! m = Some (Z.of_nat k)) as Hx.
  { rewrite (occ_take_app C (S k)), (occ_take_same C _ _ Hc), <- (assoc_L (++)). apply list_lookup_middle. done. }
  split; [done |]. pose proof (posts_lookup C 0 n c m _ ltac:(lia) Hx) as Hp. rewrite Nat.sub_0_r in Hp.
  split; [| done]. apply lookup_lt_Some in Hp. pose proof (zlen_posts C n Hids). pose proof (off_nonneg C 0 c).
  unfold zlen in *. lia.
Qed.

Lemma matched_next k ptab c :
  C !! k = Some (Z.of_nat c) -> (c < n)%nat -> matched k ptab ->
  R !! (Z.to_nat (off C 0 c) + length (occ (take k C) (Z.of_nat c)))%nat = Some (Z.of_nat k) ->
  matched (S k) (<[c := off C 0 c + zlen (occ (take k C) (Z.of_nat c)) + 1]> ptab).
Proof.
  intros Hc Hcn [Hl Hp Hcells] HRk. split.
  - by rewrite length_insert.
  - intros j Hj. destruct (decide (j = c)) as [->|Hne].
    + rewrite list_lookup_insert_eq by lia. rewrite (occ_take_same C _ _ Hc), zlen_app.
      change (zlen [Z.of_nat k]) with 1. f_equal. lia.
    + rewrite list_lookup_insert_ne by done. rewrite (occ_take_other C _ _ _ Hc) by lia. by apply Hp.
  - intros j i x Hj. destruct (decide (j = c)) as [->|Hne].
    + rewrite (occ_take_same C _ _ Hc). intros Hx. apply lookup_app_Some in Hx as [Hx|[Hge Hx]]; [by apply Hcells |].
      destruct (i - length (occ (take k C) (Z.of_nat c)))%nat eqn:Ei; [| done]. cbn in Hx. injection Hx as <-.
      by replace i with (length (occ (take k C) (Z.of_nat c))) by lia.
    + rewrite (occ_take_other C _ _ _ Hc) by lia. by apply Hcells.
Qed.

Lemma check_tokens_ok cl ptab :
  Inv cl -> length ptab = n -> (forall j, (j < n)%nat -> ptab !! j = Some (off C 0 j)) ->
  exists r cl', loopM (check_token be disk (ints_be R) (Z.of_nat n) (zlen C)) fuel (0, ptab) cl = Ok (r, cl') /\
    Inv cl' /\
    match r with
    | None => R <> posts C 0 n
    | Some ptab' => R = posts C 0 n /\ length ptab' = n /\ forall j, (j < n)%nat -> ptab' !! j = Some (off C 0 (S j))
    end.
Proof using TA HR HRi.
  intros HI Hl Hp. pose proof (ta_ids (C := C)) as Hids. pose proof (ta_tokens (C := C)) as HC.
  destruct (loopM_rule (check_token be disk (ints_be R) (Z.of_nat n) (zlen C))
    (fun st cl => Inv cl /\ exists k, st.1 = Z.of_nat k /\ (k <= length C)%nat /\ matched k st.2)
    (fun r cl => Inv cl /\ match r with
      | None => R <> posts C 0 n
      | Some ptab' => R = posts C 0 n /\ length ptab' = n /\ forall j, (j < n)%nat -> ptab' !! j = Some (off C 0 (S j))
      end) (fun st => zlen C - st.1) fuel (0, ptab) cl) as (r & cl' & E & HI' & Hr); [| | | by exists r, cl'].
  - intros [i pt] cl0 (HI0 & k & Hk & Hle & Hm). cbn [fst snd] in *. subst i. split; [unfold zlen; lia |].
    unfold check_token. destruct (Z.ltb_spec (Z.of_nat k) (zlen C)) as [Hlt|Hge].
    2: { right. eexists _, _. split; [reflexivity |]. split; [done |].
         assert (k = length C) as -> by (unfold zlen in *; lia). split; [by eapply matched_all |].
         destruct Hm as [Hl' Hp' _]. split; [done |]. intros j Hj. rewrite Hp' by done.
         by rewrite take_ge, off_next by lia. }
    destruct (lookup_lt_is_Some_2 C k) as [c Hc]; [unfold zlen in *; lia |].
    pose proof (Forall_lookup_1 _ _ _ _ Hids Hc) as Hcr. cbn in Hcr.
    destruct (ta_cpos2id cl0 k c HI0 Hc) as (cl1 & E1 & HI1). rewrite (bindM_Ok _ _ _ _ _ E1).
    rewrite (proj2 (Z.ltb_ge c 0)), (proj2 (Z.leb_gt _ c)) by lia. cbn [orb].
    set (cn := Z.to_nat c). assert (c = Z.of_nat cn) as Hcn by lia. rewrite Hcn in *.
    destruct (expected_cell k cn Hc ltac:(lia)) as (_ & Hb & Hpost).
    set (m := length (occ (take k C) (Z.of_nat cn))) in *.
    rewrite (bindM_lift _ _ _ _ (aget_nat _ _ _ (mt_ptab _ _ Hm cn ltac:(lia)))).
    change (zlen (occ (take k C) (Z.of_nat cn))) with (Z.of_nat m) in *. pose proof (off_nonneg C 0 cn).
    destruct (lookup_lt_is_Some_2 R (Z.to_nat (off C 0 cn) + m)) as [v Hv]; [unfold zlen in *; lia |].
    pose proof (Forall_lookup_1 _ _ _ _ HRi Hv) as Hvr. cbn in Hvr.
    rewrite (bindM_lift _ (u32 v)).
    2: { replace (off C 0 cn + Z.of_nat m) with (Z.of_nat (Z.to_nat (off C 0 cn) + m)) by lia.
         rewrite <- (app_nil_r (ints_be R)). by apply nget_ints_be. }
    rewrite (u32_small (Z.of_nat k)) by (unfold INT_MAX in *; lia).
    destruct (Z.eqb_spec (u32 v) (Z.of_nat k)) as [Heq|Hneq]; cbn [negb].
    + assert (v = Z.of_nat k) as ->.
      { rewrite <- (s32_u32 v) by done. rewrite Heq. apply s32_small. unfold zlen in *. lia. }
      left. rewrite (bindM_lift _ (off C 0 cn + Z.of_nat m + 1)) by (apply c_int_Ok; unfold INT_MIN; lia).
      rewrite (bindM_lift _ (<[cn := off C 0 cn + Z.of_nat m + 1]> pt)).
      2: { rewrite aset_Ok, Nat2Z.id; [done |]. destruct Hm as [Hl' _ _]. unfold zlen. lia. }
      eexists _, _. split; [reflexivity |]. split; [| cbn [fst]; lia]. split; [done |]. exists (S k). cbn [fst snd].
      split; [lia |]. split; [apply lookup_lt_Some in Hc; lia |]. apply matched_next; [done | lia | done | done].
    + right. eexists _, _. split; [reflexivity |]. split; [done |]. intros HRp. rewrite HRp, Hpost in Hv.
      injection Hv as <-. apply Hneq, u32_small. unfold INT_MAX in *. lia.
  - split; [done |]. exists 0%nat. cbn [fst snd]. split; [done |]. split; [lia |]. split; [done | |].
    + intros j Hj. rewrite Hp by done. change (zlen (occ (take 0 C) (Z.of_nat j))) with 0. by rewrite Z.add_0_r.
    + intros j i x Hj Hx. by apply lookup_nil_Some in Hx || (rewrite take_0 in Hx; done).
  - cbn [fst]. rewrite fuel_val. unfold INT_MAX in *. lia.
Qed.

Lemma check_offsets_ok cl ptab :
  Inv cl -> length ptab = n -> (forall j, (j < n)%nat -> ptab !! j = Some (off C 0 (S j))) ->
  exists cl', loopM (check_offset be disk (Z.of_nat n) ptab) fuel (0, 0) cl = Ok (true, cl') /\ Inv cl'.
Proof using TA.
  intros HI Hl Hp. pose proof (ta_ids (C := C)) as Hids. pose proof (ta_tokens (C := C)) as HC.
  pose proof (ta_types (C := C)) as Hn.
  destruct (loopM_rule (check_offset be disk (Z.of_nat n) ptab)
    (fun st cl => Inv cl /\ exists k, (k <= n)%nat /\ st = (Z.of_nat k, off C 0 k))
    (fun r cl => Inv cl /\ r = true) (fun st => Z.of_nat n - st.1) fuel (0, 0) cl) as (r & cl' & E & HI' & ->); [| | | by exists cl'].
  - intros _ cl0 (HI0 & k & Hk & ->). cbn [fst]. split; [lia |]. unfold check_offset.
    destruct (Z.ltb_spec (Z.of_nat k) (Z.of_nat n)) as [Hlt|Hge].
    2: { right. eexists _, _. split; [reflexivity |]. done. }
    left. destruct (ta_id2freq cl0 k HI0) as (cl1 & E1 & HI1); [lia |]. rewrite (bindM_Ok _ _ _ _ _ E1).
    rewrite <- off_next by lia.
    assert (off C 0 (S k) <= zlen C) by (unfold off; apply (zlen_posts_le C n); [done | lia]).
    pose proof (off_nonneg C 0 (S k)).
    rewrite (bindM_lift _ (off C 0 (S k))) by (apply c_int_Ok; unfold INT_MIN; lia).
    rewrite (bindM_lift _ _ _ _ (aget_nat _ _ _ (Hp k ltac:(lia)))). rewrite Z.eqb_refl. cbn [negb].
    eexists _, _. split; [reflexivity |]. split; [| cbn [fst]; lia]. split; [done |]. exists (S k).
    split; [lia |]. f_equal. lia.
  - split; [done |]. exists 0%nat. split; [lia |]. by rewrite off_first.
  - cbn [fst]. rewrite fuel_val. unfold INT_MAX in *. lia.
Qed.

Lemma validate_revcorp_ok cl c cl1 :
  ensure be disk CompRevCorpus cl = Ok (Some c, cl1) -> Inv cl1 ->
  comp_bytes c = Ok (ints_be R) -> comp_size c = zlen R -> 0 < Z.of_nat n -> 0 < zlen C ->
  exists cl', validate_revcorp be disk cl = Ok (bool_decide (R = posts C 0 n), cl') /\ Inv cl'.
Proof using TA HR HRi.
  intros E1 HI1 Hcb Hcs Hn HC. unfold validate_revcorp. rewrite (bindM_Ok _ _ _ _ _ E1).
  destruct (ta_max_id cl1 HI1) as (cl2 & E2 & HI2). rewrite (bindM_Ok _ _ _ _ _ E2).
  destruct (ta_max_cpos cl2 HI2) as (cl3 & E3 & HI3). rewrite (bindM_Ok _ _ _ _ _ E3).
  rewrite (proj2 (Z.leb_gt _ 0)), (proj2 (Z.leb_gt _ 0)) by lia. cbn [orb].
  rewrite Hcs, HR, Z.eqb_refl. cbn [negb]. rewrite Nat2Z.id.
  destruct (init_offsets_ok cl3 HI3) as (ptab & cl4 & E4 & HI4 & Hl & Hp). rewrite (bindM_Ok _ _ _ _ _ E4).
  rewrite (bindM_lift _ _ _ _ Hcb). cbn [fst].
  destruct (check_tokens_ok cl4 ptab HI4 Hl Hp) as (r & cl5 & E5 & HI5 & Hr). rewrite (bindM_Ok _ _ _ _ _ E5).
  destruct r as [ptab'|].
  - destruct Hr as (HRp & Hl' & Hp'). destruct (check_offsets_ok cl5 ptab' HI5 Hl' Hp') as (cl6 & E6 & HI6).
    exists cl6. by rewrite bool_decide_eq_true_2.
  - exists cl5. rewrite bool_decide_eq_false_2 by done. done.
Qed.
End Validate.

(** C33. [validate_revcorp] is exact: on a corpus whose access functions answer
    correctly, it accepts a reversed corpus of the right size if and only if it
    lists the positions of every id in order; it never faults and never exits. *)
Theorem validate_revcorp_exact (be : bool) (disk : gmap string (list Z)) (Inv : CL -> Prop) (C : list Z) (n : nat)
    (R : list Z) (cl : CL) (c : Component) (cl1 : CL) :
  TokenAccess be disk Inv C n -> zlen R = zlen C -> Forall (fun v => INT_MIN <= v <= INT_MAX) R ->
  ensure be disk CompRevCorpus cl = Ok (Some c, cl1) -> Inv cl1 ->
  comp_bytes c = Ok (ints_be R) -> comp_size c = zlen R -> 0 < Z.of_nat n -> 0 < zlen C ->
  exists cl' b, validate_revcorp be disk cl = Ok (b, cl') /\ Inv cl' /\ (b = true <-> R = concat (occs C n)).
Proof.
  intros TA HR HRi E HI Hb Hs Hn HC.
  destruct (validate_revcorp_ok be disk Inv C n R HR HRi cl c cl1 E HI Hb Hs Hn HC) as (cl' & Ev & HI').
  exists cl', (bool_decide (R = posts C 0 n)). split; [done |]. split; [done |]. apply bool_decide_eq_true.
Qed.

(** ** Attributes under construction *)

(** The extension of a component's file name. *)
Definition ext (cid : ComponentID) : string :=
  match cid with
  | CompDirectory => ""
  | CompCorpus => ".corpus" | CompRevCorpus => ".corpus.rev" | CompRevCorpusIdx => ".corpus.rdx"
  | CompCorpusFreqs => ".corpus.cnt" | CompLexicon => ".lexicon" | CompLexiconIdx => ".lexicon.idx"
  | CompLexiconSrt => ".lexicon.srt" | CompAlignData => ".alg" | CompXAlignData => ".alx"
  | CompStrucData => ".rng" | CompStrucAVS => ".avs" | CompStrucAVX => ".avx" | CompHuffSeq => ".huf"
  | CompHuffCodes => ".hcd" | CompHuffSync => ".huf.syn" | CompCompRF => ".crc" | CompCompRFX => ".crx"
  end.

Lemma default_name_inj d n cid cid' :
  cid <> CompDirectory -> cid' <> CompDirectory -> default_name d n cid = default_name d n cid' -> cid = cid'.
Proof.
  intros H1 H2.
  assert (forall c, c <> CompDirectory -> default_name d n c = d +:+ "/" +:+ n +:+ ext c) as Hx by (by intros []).
  rewrite !Hx by done. intros E. apply (inj (String.append d)), (inj (String.append "/")), (inj (String.append n)) in E.
  destruct cid, cid'; try reflexivity; discriminate.
Qed.

Section Built.
Context (d nm : string).

(** The files and the loaded components of the attribute hold [content]. *)
Record built (w : World) (content : ComponentID -> option (list Z)) (a : Attribute) (e : Z) : Prop := {
  bt_lib : lib w = mkCL (Some a) e;
  bt_type : type a = ATT_POS;
  bt_hc : hc a = None;
  bt_comp cid : has_component ATT_POS cid = true -> exists comp, components a !! cid = Some comp /\
    path comp = Some (default_name d nm cid) /\ blob_sizes comp /\
    forall x, data (comp_data comp) = Some x -> content cid = Some x;
  bt_none cid : has_component ATT_POS cid = false -> components a !! cid = None;
  bt_files cid : has_component ATT_POS cid = true -> cid <> CompDirectory ->
    files w !! default_name d nm cid = content cid;
  bt_small cid x : content cid = Some x -> nr_ints x <= INT_MAX;
  bt_dir : content CompDirectory = None
}.

Context (w : World) (content : ComponentID -> option (list Z)) (a : Attribute) (e : Z).
Context (Hb : built w content a e).

Lemma built_avail cid comp :
  components a !! cid = Some comp -> comp_avail (files w) cid comp = content cid.
Proof using Hb.
  intros Hc. destruct (has_component ATT_POS cid) eqn:Hh; [| by rewrite (bt_none _ _ _ _ Hb _ Hh) in Hc].
  destruct (bt_comp _ _ _ _ Hb cid Hh) as (comp' & Hc' & Hp & Hs & Hd). rewrite Hc in Hc'. injection Hc' as <-.
  unfold comp_avail. destruct (data (comp_data comp)) as [x|] eqn:E; [by rewrite (Hd x) |].
  destruct (decide (cid = CompDirectory)) as [->|Hne]; [by rewrite (bt_dir _ _ _ _ Hb) |].
  unfold file_of. rewrite Hp. by apply (bt_files _ _ _ _ Hb).
Qed.

Lemma built_get cid :
  has_component ATT_POS cid = true -> exists comp, components a !! cid = Some comp /\
    path comp = Some (default_name d nm cid) /\ blob_sizes comp /\ comp_avail (files w) cid comp = content cid /\
    (content cid = None -> data (comp_data comp) = None) /\
    (cid <> CompDirectory -> file_of (files w) comp = content cid).
Proof using Hb.
  intros Hh. destruct (bt_comp _ _ _ _ Hb cid Hh) as (comp & Hc & Hp & Hs & Hd). exists comp.
  split; [done |]. split; [done |]. split; [done |]. split; [by apply built_avail |]. split.
  - intros Hn. destruct (data (comp_data comp)) as [x|]; [| done]. specialize (Hd x eq_refl). congruence.
  - intros Hne. unfold file_of. rewrite Hp. by apply (bt_files _ _ _ _ Hb).
Qed.

Lemma built_avail_att cid : has_component ATT_POS cid = true -> avail (files w) a cid = content cid.
Proof using Hb.
  intros Hh. destruct (built_get cid Hh) as (comp & Hc & _ & _ & Ha & _). unfold avail. rewrite Hc. exact Ha.
Qed.

Lemma built_wf : wf_attribute (files w) a.
Proof using Hb.
  intros cid comp Hc. split.
  - intros x Hx. rewrite (built_avail cid comp Hc) in Hx. by apply (bt_small _ _ _ _ Hb cid).
  - intros x Hx Hne. destruct (has_component ATT_POS cid) eqn:Hh; [| by rewrite (bt_none _ _ _ _ Hb _ Hh) in Hc].
    destruct (built_get cid Hh) as (comp' & Hc' & _ & Hs & _). rewrite Hc in Hc'. injection Hc' as <-.
    by destruct (Hs x Hx) as (_ & _ & _ & ?).
Qed.

(** The state of a component tells whether it has content. *)
Lemma built_state cid :
  has_component ATT_POS cid = true -> cid <> CompDirectory ->
  match content cid with
  | Some _ => is_accessible (component_state (files w) a cid) = true
  | None => component_state (files w) a cid = ComponentDefined
  end.
Proof using Hb.
  intros Hh Hne. destruct (built_get cid Hh) as (comp & Hc & Hp & _ & Ha & Hd & Hf).
  destruct (content cid) as [x|] eqn:Ex.
  - apply is_accessible_avail. unfold avail. rewrite Hc. cbn. rewrite Ha. by eexists.
  - unfold component_state, comp_component_state. rewrite Hc, Hd, decide_False, Hp by done.
    specialize (Hf Hne). unfold file_of in Hf. rewrite Hp in Hf. by rewrite Hf.
Qed.

Lemma built_accessible cid x :
  has_component ATT_POS cid = true -> cid <> CompDirectory -> content cid = Some x ->
  component_ok cid w = Ok (true, w).
Proof using Hb.
  intros Hh Hne Hx. pose proof (built_state cid Hh Hne) as Hs. rewrite Hx in Hs.
  unfold component_ok, state_of, with_files, mbind, W_bind. rewrite (bt_lib _ _ _ _ Hb). cbn.
  rewrite <- (bt_lib _ _ _ _ Hb). destruct w as [l f]. cbn in *. by destruct (component_state f a cid).
Qed.

Lemma built_missing cid :
  has_component ATT_POS cid = true -> cid <> CompDirectory -> content cid = None ->
  component_ok cid w = Ok (false, w).
Proof using Hb.
  intros Hh Hne Hx. pose proof (built_state cid Hh Hne) as Hs. rewrite Hx in Hs.
  unfold component_ok, state_of, with_files, mbind, W_bind. rewrite (bt_lib _ _ _ _ Hb). cbn.
  rewrite <- (bt_lib _ _ _ _ Hb). destruct w as [l f]. cbn in *. by rewrite Hs.
Qed.

(** Loading components changes nothing. *)
Lemma built_loads a' e' :
  loads (files w) a a' -> built (mkWorld (mkCL (Some a') e') (files w)) content a' e'.
Proof using Hb.
  intros L. split; cbn [lib files]; try done.
  - by rewrite (loads_type _ _ _ L), (bt_type _ _ _ _ Hb).
  - by rewrite (loads_hc _ _ _ L), (bt_hc _ _ _ _ Hb).
  - intros cid Hh. destruct (bt_comp _ _ _ _ Hb cid Hh) as (comp & Hc & Hp & Hs & Hd).
    destruct (loads_comp _ _ _ L cid) as [E|(comp' & x & Hc' & Hd' & Ha & E)]; [rewrite E; by exists comp |].
    rewrite Hc in Hc'. injection Hc' as <-. exists (load_of comp x). split; [done |].
    pose proof (built_avail cid comp Hc) as Hav. rewrite Ha in Hav.
    unfold load_of. rewrite Hd'. cbn. split; [done |].
    pose proof (bt_small _ _ _ _ Hb cid x (eq_sym Hav)) as Hx. unfold nr_ints in Hx. pose proof (zlen_nonneg x).
    assert (0 <= zlen x / 4) by (apply Z.div_pos; lia).
    split; [| congruence]. intros y [= <-]. cbn. rewrite u32_small by (unfold INT_MAX in *; lia).
    repeat split. apply s32_small. lia.
  - intros cid Hh. destruct (loads_comp _ _ _ L cid) as [E|(comp' & x & Hc' & _)].
    + rewrite E. by apply (bt_none _ _ _ _ Hb).
    + by rewrite (bt_none _ _ _ _ Hb _ Hh) in Hc'.
  - apply (bt_files _ _ _ _ Hb).
  - apply (bt_small _ _ _ _ Hb).
  - apply (bt_dir _ _ _ _ Hb).
Qed.

(** A new file appears. *)
Definition with_content (cid : ComponentID) (x : list Z) : ComponentID -> option (list Z) :=
  fun c => if decide (c = cid) then Some x else content c.

Lemma built_file cid x :
  has_component ATT_POS cid = true -> cid <> CompDirectory -> content cid = None -> nr_ints x <= INT_MAX ->
  built (mkWorld (lib w) (<[default_name d nm cid := x]> (files w))) (with_content cid x) a e.
Proof using Hb.
  intros Hh Hne Hn Hx. unfold with_content. split; cbn [lib files]; try apply Hb.
  - intros c Hc. destruct (bt_comp _ _ _ _ Hb c Hc) as (comp & H1 & H2 & H3 & H4). exists comp.
    repeat (split; [done |]). intros y Hy. specialize (H4 y Hy). destruct (decide (c = cid)) as [->|]; [congruence | done].
  - intros c Hc Hcd. destruct (decide (c = cid)) as [->|Hcc]; [apply lookup_insert_eq |].
    rewrite lookup_insert_ne; [by apply (bt_files _ _ _ _ Hb) |]. intros E. apply Hcc. symmetry.
    by apply (default_name_inj d nm).
  - intros c y. destruct (decide (c = cid)) as [->|]; [congruence | apply (bt_small _ _ _ _ Hb)].
  - rewrite decide_False by done. apply (bt_dir _ _ _ _ Hb).
Qed.

(** A component gets its content in memory. *)
Lemma built_set cid comp x :
  has_component ATT_POS cid = true -> content cid = Some x -> path comp = Some (default_name d nm cid) ->
  blob_sizes comp -> data (comp_data comp) = Some x ->
  let a' := set_components a (<[cid := comp]> (components a)) in
  built (mkWorld (mkCL (Some a') e) (files w)) content a' e.
Proof using Hb.
  intros Hh Hx Hp Hs Hd a'. split; cbn [lib files]; try apply Hb; [done | |].
  - intros c Hc. unfold a'. cbn [components set_components]. destruct (decide (c = cid)) as [->|Hne].
    + rewrite lookup_insert_eq. exists comp. repeat (split; [done |]). congruence.
    + rewrite lookup_insert_ne by done. by apply (bt_comp _ _ _ _ Hb).
  - intros c Hc. unfold a'. cbn [components set_components]. rewrite lookup_insert_ne by (intros ->; congruence).
    by apply (bt_none _ _ _ _ Hb).
Qed.
End Built.

(** ** Running the tool *)

Lemma bindW_Ok {A B} (m : W A) (k : A -> W B) w x w' : m w = Ok (x, w') -> (m ≫= k) w = k x w'.
Proof. intros H. unfold mbind, W_bind. by rewrite H. Qed.

Lemma with_files_run {A} (m : gmap string (list Z) -> M A) w x cl :
  m (files w) (lib w) = Ok (x, cl) -> with_files m w = Ok (x, mkWorld cl (files w)).
Proof. intros H. unfold with_files. by rewrite H. Qed.

Lemma component_of_run w a e cid : lib w = mkCL (Some a) e -> component_of cid w = Ok (components a !! cid, w).
Proof. destruct w. cbn. by intros ->. Qed.

Lemma state_of_run w a e cid : lib w = mkCL (Some a) e -> state_of cid w = Ok (component_state (files w) a cid, w).
Proof. destruct w. cbn. by intros ->. Qed.

Lemma loads_load_of disk a cid comp x :
  cid <> CompDirectory -> cid <> CompHuffCodes -> components a !! cid = Some comp ->
  comp_avail disk cid comp = Some x -> wf_attribute disk a ->
  loads disk a (set_components a (<[cid := load_of comp x]> (components a))).
Proof.
  intros Hd Hh Hc Ha Hw. pose proof (ensure_exact true disk a 0 cid comp x Hd Hh Hc Ha) as E1.
  destruct (ensure_ok true disk a 0 cid x Hd Hh) as (c & a' & E2 & _ & _ & L & _); [| done |].
  { unfold avail. by rewrite Hc. }
  rewrite E1 in E2. by injection E2 as _ <-.
Qed.

Section Tool.
Context (be : bool).
Context (home : option string) (nm d : string) (apath mother_path : option string) (sbuf : list ascii).
Context (garbage : Z -> list Z) (cl_memory_limit : Z).
Context (qsort : (Z -> Z -> res Z) -> list Z -> res (list Z)).
Context (room : string -> option Z).
Context (Hg : forall k, 0 <= k -> zlen (garbage k) = k) (Hqsort : qsort_sorts qsort).

Abbreviation create :=
  (create_component be home nm apath mother_path sbuf garbage cl_memory_limit qsort room).
Abbreviation make :=
  (makeall_make_component be home nm apath mother_path sbuf garbage cl_memory_limit qsort room).
Abbreviation do_attribute :=
  (makeall_do_attribute be home nm apath mother_path sbuf garbage cl_memory_limit qsort room).

(** A component that exists is not made again; one that is missing is created. *)
Lemma make_present w content a e cid x :
  built d nm w content a e -> has_component ATT_POS cid = true -> cid <> CompDirectory -> content cid = Some x ->
  make cid w = Ok ((), w).
Proof.
  intros Hb Hh Hne Hx. unfold makeall_make_component.
  by rewrite (bindW_Ok _ _ _ _ _ (built_accessible d nm w content a e Hb cid x Hh Hne Hx)).
Qed.

Lemma make_missing w content a e cid r w' content' a' e' x :
  built d nm w content a e -> has_component ATT_POS cid = true -> cid <> CompDirectory -> content cid = None ->
  create cid w = Ok (r, w') -> built d nm w' content' a' e' -> content' cid = Some x ->
  make cid w = Ok ((), w').
Proof.
  intros Hb Hh Hne Hx Ec Hb' Hx'. unfold makeall_make_component.
  rewrite (bindW_Ok _ _ _ _ _ (built_missing d nm w content a e Hb cid Hh Hne Hx)).
  rewrite (bindW_Ok _ _ _ _ _ Ec). rewrite (bindW_Ok _ _ _ _ _ (state_of_run _ _ _ cid (bt_lib _ _ _ _ _ _ Hb'))).
  pose proof (built_state d nm w' content' a' e' Hb' cid Hh Hne) as Hs. rewrite Hx' in Hs. by rewrite Hs.
Qed.

(** The first half of [create_component]: the component is found and has a path. *)
Lemma create_start w content a e cid :
  built d nm w content a e -> has_component ATT_POS cid = true -> cid <> CompDirectory -> content cid = None ->
  exists comp, components a !! cid = Some comp /\ path comp = Some (default_name d nm cid) /\
    data (comp_data comp) = None /\ component_state (files w) a cid = ComponentDefined /\
    component_of cid w = Ok (Some comp, w) /\ state_of cid w = Ok (ComponentDefined, w).
Proof.
  intros Hb Hh Hne Hx. destruct (built_get d nm w content a e Hb cid Hh) as (comp & Hc & Hp & _ & _ & Hd & _).
  pose proof (built_state d nm w content a e Hb cid Hh Hne) as Hs. rewrite Hx in Hs.
  exists comp. split; [done |]. split; [done |]. split; [by apply Hd |]. split; [done |].
  rewrite (component_of_run _ _ _ _ (bt_lib _ _ _ _ _ _ Hb)), (state_of_run _ _ _ _ (bt_lib _ _ _ _ _ _ Hb)).
  by rewrite Hc, Hs.
Qed.

(** *** The sorted lexicon *)
Lemma make_srt w content a e L q :
  built d nm w content a e ->
  content CompLexicon = Some (lex_data L) -> content CompLexiconIdx = Some (ints_be (lex_index L)) ->
  content CompLexiconSrt = None ->
  Forall is_str L -> L <> [] -> zlen (lex_data L) <= INT_MAX ->
  room (default_name d nm CompLexiconSrt) = Some q -> 4 * zlen L <= q ->
  exists P w' a', make CompLexiconSrt w = Ok ((), w') /\ sorted_ids L P /\
    built d nm w' (with_content content CompLexiconSrt (ints_be (Z.of_nat <$> P))) a' e.
Proof using Hqsort.
  intros Hb Hl Hi Hs Hw Hne Hsm Hr Hq.
  destruct (built_get d nm w content a e Hb CompLexicon eq_refl) as (lcomp & Hlc & _ & _ & Hla & _ & _).
  destruct (built_get d nm w content a e Hb CompLexiconIdx eq_refl) as (icomp & Hic & _ & His & Hia & _ & Hif).
  destruct (create_start w content a e CompLexiconSrt Hb eq_refl ltac:(done) Hs) as (scomp & Hsc & Hsp & Hsd & Hst & Ec & Es).
  rewrite Hl in Hla. rewrite Hi in Hia. specialize (Hif ltac:(done)). rewrite Hi in Hif.
  destruct (creat_sort_lexicon_ok be (files w) qsort Hqsort a e L lcomp icomp scomp (mkFILE [] 0 q false)) as (P & HP & Eq).
  { split; try done; [| by rewrite Hsp]. unfold component_state in Hst. by rewrite Hsc in Hst. }
  { done. }
  set (x := ints_be (Z.of_nat <$> P)) in *. set (a2 := set_components a _) in Eq.
  assert (length P = length L) as HPl by (destruct HP as [Hp _]; rewrite Hp; apply length_seq).
  pose proof (lex_data_len L) as HLn.
  assert (nr_ints x <= INT_MAX) as Hx by (unfold x; rewrite nr_ints_be; unfold zlen in *; rewrite length_fmap; lia).
  set (w' := mkWorld (mkCL (Some a2) e) (<[default_name d nm CompLexiconSrt := x]> (files w))).
  assert (create CompLexiconSrt w = Ok (components a2 !! CompLexiconSrt, w')) as Ecr.
  { unfold create_component. rewrite (bindW_Ok _ _ _ _ _ Ec), (bindW_Ok _ _ _ _ _ Es).
    rewrite decide_True, Hsd, Hsp by done. unfold fopen_wb. rewrite Hr.
    rewrite <- (bt_lib _ _ _ _ _ _ Hb) in Eq.
    rewrite (bindW_Ok _ _ _ _ _ (with_files_run _ _ _ _ Eq)). cbn [snd].
    apply (component_of_run _ _ e). done. }
  assert (built d nm w' (with_content content CompLexiconSrt x) a2 e) as Hb'.
  { set (a1 := set_components a (<[CompLexicon := load_of lcomp (lex_data L)]> (components a))).
    assert (loads (files w) a a1) as L1 by (apply loads_load_of; try done; exact (built_wf d nm w content a e Hb)).
    pose proof (built_loads d nm w content a e Hb a1 e L1) as Hb1.
    assert (loads (files w) a1 (set_components a1 (<[CompLexiconIdx := load_of icomp (ints_be (lex_index L))]> (components a1)))) as L2.
    { apply loads_load_of; try done; [cbn; by rewrite lookup_insert_ne |]. exact (built_wf d nm _ _ _ _ Hb1). }
    pose proof (built_loads d nm _ content a1 e Hb1 _ e L2) as Hb2.
    pose proof (built_file d nm _ content _ e Hb2 CompLexiconSrt x eq_refl ltac:(done) Hs Hx) as Hb3.
    apply (built_set d nm _ _ _ e Hb3 CompLexiconSrt (srt_component scomp P) x); try done.
    intros y. cbn. intros [= <-]. fold x. unfold x. rewrite zlen_ints_be.
    assert (zlen (Z.of_nat <$> P) = zlen P) as -> by (unfold zlen; by rewrite length_fmap).
    repeat split; Z.div_mod_to_equations; lia. }
  exists P, w', a2. split; [| done].
  apply (make_missing w content a e CompLexiconSrt _ w' _ a2 e x Hb eq_refl ltac:(done) Hs Ecr Hb').
  unfold with_content. by rewrite decide_True.
Qed.

(** *** The frequencies *)
Lemma make_freqs w content a e C n dl q :
  built d nm w content a e ->
  content CompLexiconIdx = Some dl -> zlen dl = 4 * Z.of_nat n -> content CompCorpus = Some (ints_be C) ->
  content CompCorpusFreqs = None -> 0 < Z.of_nat n <= INT_MAX -> zlen C <= INT_MAX ->
  Forall (fun c => 0 <= c < Z.of_nat n) C ->
  room (default_name d nm CompCorpusFreqs) = Some q -> 4 * Z.of_nat n <= q ->
  exists w' a', make CompCorpusFreqs w = Ok ((), w') /\
    built d nm w' (with_content content CompCorpusFreqs (ints_be (freq_table C n))) a' e.
Proof.
  intros Hb Hi Hdl Hc Hf Hn HC Hids Hr Hq.
  destruct (built_get d nm w content a e Hb CompLexiconIdx eq_refl) as (icomp & Hic & _ & His & Hia & _ & Hif).
  destruct (built_get d nm w content a e Hb CompCorpus eq_refl) as (ccomp & Hcc & Hcp & _ & _ & _ & _).
  destruct (create_start w content a e CompCorpusFreqs Hb eq_refl ltac:(done) Hf) as (fcomp & Hfc & Hfp & Hfd & Hst & Ec & Es).
  rewrite Hi in Hia. specialize (Hif ltac:(done)). rewrite Hi in Hif.
  assert (freqs_input (files w) a n C icomp fcomp dl) as Hin.
  { split; try done. exists ccomp, (default_name d nm CompCorpus). split; [done |]. split; [done |].
    rewrite (bt_files _ _ _ _ _ _ Hb) by done. done. }
  pose proof (creat_freqs_ok be (files w) home nm apath mother_path sbuf a e n C icomp fcomp dl (mkFILE [] 0 q false) Hin Hq) as Eq.
  set (x := ints_be (freq_table C n)) in *. set (a2 := set_components a _) in Eq.
  assert (nr_ints x <= INT_MAX) as Hx by (unfold x; rewrite nr_ints_be, zlen_freq_table; lia).
  set (w' := mkWorld (mkCL (Some a2) e) (<[default_name d nm CompCorpusFreqs := x]> (files w))).
  assert (create CompCorpusFreqs w = Ok (components a2 !! CompCorpusFreqs, w')) as Ecr.
  { unfold create_component. rewrite (bindW_Ok _ _ _ _ _ Ec), (bindW_Ok _ _ _ _ _ Es).
    rewrite decide_True, Hfd, Hfp by done. unfold fopen_wb. rewrite Hr.
    rewrite <- (bt_lib _ _ _ _ _ _ Hb) in Eq.
    rewrite (bindW_Ok _ _ _ _ _ (with_files_run _ _ _ _ Eq)). cbn [snd].
    apply (component_of_run _ _ e). done. }
  assert (built d nm w' (with_content content CompCorpusFreqs x) a2 e) as Hb'.
  { set (a1 := set_components a (<[CompLexiconIdx := load_of icomp dl]> (components a))).
    assert (loads (files w) a a1) as L1 by (apply loads_load_of; try done; exact (built_wf d nm w content a e Hb)).
    pose proof (built_loads d nm w content a e Hb a1 e L1) as Hb1.
    pose proof (built_file d nm _ content _ e Hb1 CompCorpusFreqs x eq_refl ltac:(done) Hf Hx) as Hb3.
    apply (built_set d nm _ _ _ e Hb3 CompCorpusFreqs (freqs_component fcomp C n) x); try done.
    intros y. cbn. intros [= <-]. rewrite zlen_ints_be, zlen_freq_table.
    repeat split; Z.div_mod_to_equations; lia. }
  exists w', a2. split; [| done].
  apply (make_missing w content a e CompCorpusFreqs _ w' _ a2 e x Hb eq_refl ltac:(done) Hf Ecr Hb').
  unfold with_content. by rewrite decide_True.
Qed.

(** *** The index of the reversed corpus *)
Lemma make_revidx w content a e C n q :
  built d nm w content a e -> content CompCorpusFreqs = Some (ints_be (freq_table C n)) ->
  content CompRevCorpusIdx = None -> 0 < Z.of_nat n <= INT_MAX -> zlen C <= INT_MAX ->
  Forall (fun c => 0 <= c < Z.of_nat n) C ->
  room (default_name d nm CompRevCorpusIdx) = Some q -> 4 * Z.of_nat n <= q ->
  exists w' a', make CompRevCorpusIdx w = Ok ((), w') /\
    built d nm w' (with_content content CompRevCorpusIdx (ints_be (rev_offsets C n))) a' e.
Proof using Hg.
  intros Hb Hf Hi Hn HC Hids Hr Hq.
  destruct (built_get d nm w content a e Hb CompCorpusFreqs eq_refl) as (fcomp & Hfc & _ & Hfs & Hfa & _ & _).
  destruct (create_start w content a e CompRevCorpusIdx Hb eq_refl ltac:(done) Hi) as (icomp & Hic & Hip & Hid & Hst & Ec & Es).
  rewrite Hf in Hfa. assert (path icomp <> None) as Hip' by (by rewrite Hip).
  pose proof (creat_rev_corpus_idx_ok be (files w) garbage Hg C n a e fcomp icomp (mkFILE [] 0 q false)
    HC Hids Hn Hfc Hfa Hfs Hic Hip' Hid Hq) as Eq.
  set (x := ints_be (rev_offsets C n)) in *. set (a2 := set_components a _) in Eq.
  assert (nr_ints x <= INT_MAX) as Hx by (unfold x; rewrite nr_ints_be, zlen_rev_offsets; lia).
  set (w' := mkWorld (mkCL (Some a2) e) (<[default_name d nm CompRevCorpusIdx := x]> (files w))).
  assert (create CompRevCorpusIdx w = Ok (components a2 !! CompRevCorpusIdx, w')) as Ecr.
  { unfold create_component. rewrite (bindW_Ok _ _ _ _ _ Ec), (bindW_Ok _ _ _ _ _ Es).
    rewrite decide_True, Hid, Hip by done. unfold fopen_wb. rewrite Hr.
    rewrite <- (bt_lib _ _ _ _ _ _ Hb) in Eq.
    rewrite (bindW_Ok _ _ _ _ _ (with_files_run _ _ _ _ Eq)). cbn [snd].
    apply (component_of_run _ _ e). done. }
  assert (built d nm w' (with_content content CompRevCorpusIdx x) a2 e) as Hb'.
  { set (a1 := set_components a (<[CompCorpusFreqs := load_of fcomp (ints_be (freq_table C n))]> (components a))).
    assert (loads (files w) a a1) as L1 by (apply loads_load_of; try done; exact (built_wf d nm w content a e Hb)).
    pose proof (built_loads d nm w content a e Hb a1 e L1) as Hb1.
    pose proof (built_file d nm _ content _ e Hb1 CompRevCorpusIdx x eq_refl ltac:(done) Hi Hx) as Hb3.
    apply (built_set d nm _ _ _ e Hb3 CompRevCorpusIdx (revidx_component icomp C n) x); try done.
    intros y. cbn. intros [= <-]. rewrite zlen_ints_be, zlen_rev_offsets.
    repeat split; Z.div_mod_to_equations; lia. }
  exists w', a2. split; [| done].
  apply (make_missing w content a e CompRevCorpusIdx _ w' _ a2 e x Hb eq_refl ltac:(done) Hi Ecr Hb').
  unfold with_content. by rewrite decide_True.
Qed.

(** *** The reversed corpus *)

(** The token stream is not compressed. *)
Lemma built_sequence w content a e :
  built d nm w content a e -> content CompHuffSeq = None -> sequence_compressed (files w) a = false.
Proof.
  intros Hb Hh. unfold sequence_compressed. rewrite (bt_hc _ _ _ _ _ _ Hb).
  pose proof (built_state d nm w content a e Hb CompHuffSeq eq_refl ltac:(done)) as Hs. rewrite Hh in Hs.
  rewrite Hs. by destruct (decide _).
Qed.

Lemma built_plain w content a e C n dl :
  built d nm w content a e -> content CompHuffSeq = None -> content CompLexiconIdx = Some dl ->
  zlen dl = 4 * Z.of_nat n -> content CompCorpus = Some (ints_be C) ->
  content CompCorpusFreqs = Some (ints_be (freq_table C n)) ->
  0 < Z.of_nat n <= INT_MAX -> 0 < zlen C <= INT_MAX -> Forall (fun c => 0 <= c < Z.of_nat n) C ->
  plain_corpus (files w) a C n.
Proof.
  intros Hb Hh Hi Hdl Hc Hf Hn HC Hids. pose proof (built_sequence w content a e Hb Hh) as Hs.
  assert (forall cid, has_component ATT_POS cid = true -> avail (files w) a cid = content cid) as Hav
    by (intros; by apply (built_avail_att d nm w content a e)).
  split; [split | done | by rewrite Hav, Hc | done].
  - apply Hb.
  - exact (built_wf d nm w content a e Hb).
  - apply (size_plain _ _ _ (ints_be C)); [done | by rewrite Hav, Hc | apply nr_ints_be].
  - done.
  - by rewrite zlen_occs.
  - exists dl. rewrite Hav, Hi by done. split; [done |]. rewrite zlen_occs. unfold nr_ints. rewrite Hdl.
    Z.div_mod_to_equations. lia.
  - by rewrite Hav, Hf, freq_table_occs by done.
  - apply occs_sorted.
Qed.

Lemma make_rev w content a e C n q :
  built d nm w content a e -> plain_corpus (files w) a C n -> content CompRevCorpus = None ->
  zlen C <= INT_MAX -> Forall (fun c => 0 <= c < Z.of_nat n) C ->
  room (default_name d nm CompRevCorpus) = Some q -> 4 * zlen C <= q ->
  exists w' a' e', make CompRevCorpus w = Ok ((), w') /\
    built d nm w' (with_content content CompRevCorpus (ints_be (concat (occs C n)))) a' e'.
Proof using Hg.
  intros Hb Hpc Hrc HC Hids Hr Hq.
  destruct (create_start w content a e CompRevCorpus Hb eq_refl ltac:(done) Hrc) as (comp & Hc & Hp & Hd & Hst & Ec & Es).
  destruct (creat_rev_corpus_ok be (files w) garbage cl_memory_limit Hg (plain_state (files w) a) C n a e comp
    (mkFILE [] 0 q false)) as (pass & cl' & Eq & (a' & e' & -> & L) & _); try done.
  { by apply plain_token_access. } { by exists a, e. } { by rewrite Hp. }
  set (x := ints_be (concat (occs C n))).
  assert (nr_ints x <= INT_MAX) as Hx.
  { unfold x. rewrite nr_ints_be. change (concat (occs C n)) with (posts C 0 n). by rewrite zlen_posts. }
  set (w' := mkWorld (mkCL (Some a') e') (<[default_name d nm CompRevCorpus := x]> (files w))).
  assert (create CompRevCorpus w = Ok (components a' !! CompRevCorpus, w')) as Ecr.
  { unfold create_component. rewrite (bindW_Ok _ _ _ _ _ Ec), (bindW_Ok _ _ _ _ _ Es).
    rewrite decide_True, Hd, Hp by done. unfold fopen_wb. rewrite Hr.
    rewrite <- (bt_lib _ _ _ _ _ _ Hb) in Eq.
    rewrite (bindW_Ok _ _ _ _ _ (with_files_run _ _ _ _ Eq)). cbn [snd].
    apply (component_of_run _ _ e'). done. }
  assert (built d nm w' (with_content content CompRevCorpus x) a' e') as Hb'.
  { pose proof (built_loads d nm w content a e Hb a' e' L) as Hb1.
    apply (built_file d nm _ content _ e' Hb1 CompRevCorpus x); try done. }
  exists w', a', e'. split; [| done].
  apply (make_missing w content a e CompRevCorpus _ w' _ a' e' x Hb eq_refl ltac:(done) Hrc Ecr Hb').
  unfold with_content. by rewrite decide_True.
Qed.

(** *** Validation of what was built *)
Lemma validate_built w content a e C n :
  built d nm w content a e -> plain_corpus (files w) a C n ->
  content CompRevCorpus = Some (ints_be (concat (occs C n))) ->
  exists a' e', validate_or_exit be w = Ok ((), mkWorld (mkCL (Some a') e') (files w)) /\
    built d nm (mkWorld (mkCL (Some a') e') (files w)) content a' e'.
Proof.
  intros Hb Hpc Hrc. pose proof (pc_post _ _ _ _ Hpc) as HP. pose proof (pc_ids _ _ _ _ Hpc) as Hids.
  pose proof (ix_pos _ _ _ _ HP) as HC. pose proof (ix_range _ _ _ _ HP) as Hn. rewrite zlen_occs in Hn.
  destruct (ensure_ok be (files w) a e CompRevCorpus (ints_be (concat (occs C n)))) as (c & a1 & E & Hd & Hsz & L & _); try done.
  { rewrite (built_avail_att d nm w content a e Hb) by done. done. }
  { exact (built_wf d nm w content a e Hb). }
  destruct (validate_revcorp_ok be (files w) (plain_state (files w) a) C n (concat (occs C n))
    (TA := plain_token_access be (files w) a C n Hpc)) with (cl := mkCL (Some a) e) (c := c) (cl1 := mkCL (Some a1) e)
    as (cl2 & Ev & (a2 & e2 & -> & L2)); try done.
  { change (concat (occs C n)) with (posts C 0 n). by rewrite zlen_posts. }
  { apply Forall_concat. apply (Forall_impl _ _ _ (occs_sorted C n)). intros ps [_ Hps].
    apply (Forall_impl _ _ _ Hps). intros p Hp. unfold INT_MIN. lia. }
  { by exists a1, e. }
  { unfold comp_bytes. by rewrite Hd. }
  { by rewrite Hsz, nr_ints_be. }
  { lia. } { lia. }
  change (concat (occs C n)) with (posts C 0 n) in Ev. rewrite bool_decide_eq_true_2 in Ev by done.
  exists a2, e2. split; [| exact (built_loads d nm w content a e Hb a2 e2 L2)].
  unfold validate_or_exit. rewrite <- (bt_lib _ _ _ _ _ _ Hb) in Ev.
  by rewrite (bindW_Ok _ _ _ _ _ (with_files_run _ _ _ _ Ev)).
Qed.

(** *** The whole attribute *)

(** What [cwb-encode] leaves: the default components, with files for the lexicon,
    its index and the token stream. *)
Definition enc_content (L : list (list Z)) (C : list Z) (cid : ComponentID) : option (list Z) :=
  match cid with
  | CompLexicon => Some (lex_data L)
  | CompLexiconIdx => Some (ints_be (lex_index L))
  | CompCorpus => Some (ints_be C)
  | _ => None
  end.

Record encoded (w : World) (a : Attribute) (e junk : Z) (L : list (list Z)) (C : list Z) : Prop := {
  en_lib : lib w = mkCL (Some a) e;
  en_type : type a = ATT_POS;
  en_hc : hc a = None;
  en_comps cid : components a !! cid =
    if MayHaveComponent ATT_POS cid =? 1 then Some (mkComp (Some (default_name d nm cid)) junk init_mblob) else None;
  en_files cid : has_component ATT_POS cid = true -> cid <> CompDirectory ->
    files w !! default_name d nm cid = enc_content L C cid;
  en_words : Forall is_str L;
  en_some : L <> [];
  en_small : zlen (lex_data L) <= INT_MAX;
  en_tokens : 0 < zlen C <= INT_MAX;
  en_ids : Forall (fun c => 0 <= c < zlen L) C
}.

(** There is room for the files that are created. *)
Definition enough_room (L : list (list Z)) (C : list Z) : Prop :=
  forall cid, exists q, room (default_name d nm cid) = Some q /\ 4 * zlen L <= q /\ 4 * zlen C <= q.

Lemma encoded_built w a e junk L C : encoded w a e junk L C -> built d nm w (enc_content L C) a e.
Proof.
  intros [Hl Ht Hh Hc Hf Hw Hs Hsm Htk Hi]. pose proof (lex_data_len L). pose proof (zlen_nonneg (lex_data L)).
  split; try done.
  - intros cid Hh'. rewrite Hc. unfold has_component in Hh'. rewrite Hh'. eexists. split; [reflexivity |].
    split; [done |]. split; intros x; cbn; discriminate.
  - intros cid Hh'. rewrite Hc. unfold has_component in Hh'. by rewrite Hh'.
  - intros cid x. destruct cid; cbn; intros [= <-]; rewrite ?nr_ints_be, ?zlen_lex_index; [lia | | lia].
    unfold nr_ints. transitivity (zlen (lex_data L)); [| done]. apply Z.div_le_upper_bound; lia.
Qed.

Lemma all_ok_missing w content a e cid cids :
  built d nm w content a e -> has_component ATT_POS cid = true -> cid <> CompDirectory -> content cid = None ->
  all_ok (cid :: cids) w = Ok (false, w).
Proof.
  intros Hb Hh Hne Hx. cbn [all_ok]. by rewrite (bindW_Ok _ _ _ _ _ (built_missing d nm w content a e Hb cid Hh Hne Hx)).
Qed.

Lemma makeall_ok w a e junk L C validate :
  encoded w a e junk L C -> enough_room L C ->
  exists P w' a' e', do_attribute None validate w = Ok ((), w') /\ sorted_ids L P /\
    built d nm w' (fun cid => match cid with
      | CompLexiconSrt => Some (ints_be (Z.of_nat <$> P))
      | CompCorpusFreqs => Some (ints_be (freq_table C (length L)))
      | CompRevCorpusIdx => Some (ints_be (rev_offsets C (length L)))
      | CompRevCorpus => Some (ints_be (concat (occs C (length L))))
      | _ => enc_content L C cid
      end) a' e' /\ plain_corpus (files w') a' C (length L).
Proof using Hg Hqsort.
  intros Hen Hroom. pose proof (encoded_built _ _ _ _ _ _ Hen) as Hb0.
  destruct Hen as [_ _ _ _ _ Hw Hs Hsm Htk Hi]. set (n := length L).
  assert (zlen L = Z.of_nat n) as HL by done. rewrite HL in Hi.
  pose proof (lex_data_len L) as HLd. assert (0 < Z.of_nat n <= INT_MAX) as Hn by (destruct L; [done | cbn in n; lia]).
  assert (zlen (ints_be (lex_index L)) = 4 * Z.of_nat n) as Hdl by (by rewrite zlen_ints_be, zlen_lex_index).
  destruct (Hroom CompLexiconSrt) as (q1 & R1 & Q1 & _).
  destruct (Hroom CompCorpusFreqs) as (q2 & R2 & Q2 & _).
  destruct (Hroom CompRevCorpusIdx) as (q3 & R3 & Q3 & _).
  destruct (Hroom CompRevCorpus) as (q4 & R4 & _ & Q4).
  rewrite HL in *.
  destruct (make_srt w _ a e L q1 Hb0 eq_refl eq_refl eq_refl Hw Hs Hsm R1 ltac:(lia)) as (P & w1 & a1 & E1 & HP & Hb1).
  destruct (make_freqs w1 _ a1 e C n _ q2 Hb1 eq_refl Hdl eq_refl eq_refl Hn ltac:(lia) Hi R2 Q2) as (w2 & a2 & E2 & Hb2).
  destruct (make_revidx w2 _ a2 e C n q3 Hb2 eq_refl eq_refl Hn ltac:(lia) Hi R3 Q3) as (w3 & a3 & E3 & Hb3).
  pose proof (built_plain w3 _ a3 e C n _ Hb3 eq_refl eq_refl Hdl eq_refl eq_refl Hn Htk Hi) as Hp3.
  destruct (make_rev w3 _ a3 e C n q4 Hb3 Hp3 eq_refl ltac:(lia) Hi R4 Q4) as (w4 & a4 & e4 & E4 & Hb4).
  pose proof (built_plain w4 _ a4 e4 C n _ Hb4 eq_refl eq_refl Hdl eq_refl eq_refl Hn Htk Hi) as Hp4.
  set (content := fun cid => match cid with
      | CompLexiconSrt => Some (ints_be (Z.of_nat <$> P))
      | CompCorpusFreqs => Some (ints_be (freq_table C n))
      | CompRevCorpusIdx => Some (ints_be (rev_offsets C n))
      | CompRevCorpus => Some (ints_be (concat (occs C n)))
      | _ => enc_content L C cid
      end).
  assert (forall w a e, built d nm w (with_content (with_content (with_content (with_content (enc_content L C)
    CompLexiconSrt (ints_be (Z.of_nat <$> P))) CompCorpusFreqs (ints_be (freq_table C n)))
    CompRevCorpusIdx (ints_be (rev_offsets C n))) CompRevCorpus (ints_be (concat (occs C n)))) a e ->
    built d nm w content a e) as Hconv.
  { intros w0 a0 e0 [H1 H2 H3 H4 H5 H6 H7 H8]. split; try done.
    - intros cid Hh. destruct (H4 cid Hh) as (comp & G1 & G2 & G3 & G4). exists comp. repeat (split; [done |]).
      intros x Hx. rewrite <- (G4 x Hx). by destruct cid.
    - intros cid Hh Hne. rewrite (H6 cid Hh Hne). by destruct cid.
    - intros cid x Hx. apply (H7 cid x). rewrite <- Hx. by destruct cid. }
  assert (exists w5 a5 e5, (if validate then validate_or_exit be w4 else Ok ((), w4)) = Ok ((), w5) /\
    built d nm w5 content a5 e5 /\ plain_corpus (files w5) a5 C n) as (w5 & a5 & e5 & E5 & Hb5 & Hp5).
  { destruct validate; [| exists w4, a4, e4; split; [done |]; split; [by apply Hconv | done]].
    destruct (validate_built w4 _ a4 e4 C n Hb4 Hp4 eq_refl) as (a5 & e5 & E5 & Hb5).
    eexists _, a5, e5. split; [exact E5 |]. split; [by apply Hconv |].
    exact (built_plain _ _ a5 e5 C n _ Hb5 eq_refl eq_refl Hdl eq_refl eq_refl Hn Htk Hi). }
  exists P, w5, a5, e5. split; [| done].
  unfold makeall_do_attribute.
  rewrite (bindW_Ok _ _ w true w).
  2: { cbn [all_ok]. rewrite (bindW_Ok _ _ _ _ _ (built_accessible d nm w _ a e Hb0 CompLexicon _ eq_refl ltac:(done) eq_refl)).
       by rewrite (bindW_Ok _ _ _ _ _ (built_accessible d nm w _ a e Hb0 CompLexiconIdx _ eq_refl ltac:(done) eq_refl)). }
  cbn [negb]. rewrite (bindW_Ok _ _ _ _ _ E1), (bindW_Ok _ _ _ _ _ E2).
  rewrite (bindW_Ok _ _ w2 false w2) by exact (all_ok_missing w2 _ a2 e CompHuffSeq _ Hb2 eq_refl ltac:(done) eq_refl).
  rewrite (bindW_Ok _ _ _ _ _ (make_present w2 _ a2 e CompCorpus _ Hb2 eq_refl ltac:(done) eq_refl)).
  rewrite (bindW_Ok _ _ w2 false w2) by exact (all_ok_missing w2 _ a2 e CompCompRF _ Hb2 eq_refl ltac:(done) eq_refl).
  rewrite (bindW_Ok _ _ _ _ _ E3).
  rewrite (bindW_Ok _ _ _ _ _ (built_missing d nm w3 _ a3 e Hb3 CompRevCorpus eq_refl ltac:(done) eq_refl)).
  rewrite (bindW_Ok _ _ _ _ _ E4). by destruct validate.
Qed.
End Tool.

(** What the finished attribute satisfies. *)
Lemma built_indexes d nm w content a e L C P pa :
  built d nm w content a e -> plain_corpus (files w) a C (length L) -> sorted_ids L P ->
  content CompLexicon = Some (lex_data L) -> content CompLexiconIdx = Some (ints_be (lex_index L)) ->
  content CompLexiconSrt = Some (ints_be (Z.of_nat <$> P)) -> content CompCompRF = None ->
  content CompRevCorpus = Some (ints_be (concat (occs C (length L)))) ->
  content CompRevCorpusIdx = Some (ints_be (rev_offsets C (length L))) ->
  Forall is_str L -> zlen (lex_data L) <= INT_MAX ->
  has_lexicon (files w) a L /\ has_sort_index (files w) a L P /\
  has_index (files w) pa a (zlen C) (occs C (length L)) /\ has_plain_index (files w) a (occs C (length L)).
Proof.
  intros Hb Hp [HP1 HP2] Hl Hi Hs Hrf Hr Hx Hw Hsm.
  assert (forall cid, has_component ATT_POS cid = true -> avail (files w) a cid = content cid) as Hav
    by (intros; by apply (built_avail_att d nm w content a e)).
  assert (has_plain_index (files w) a (occs C (length L))) as Hpi.
  { split.
    - unfold index_compressed. destruct (decide _); [done |].
      pose proof (built_state d nm w content a e Hb CompCompRF eq_refl ltac:(done)) as Hst. rewrite Hrf in Hst.
      by rewrite Hst.
    - by rewrite Hav, Hr.
    - by rewrite Hav, Hx, rev_offsets_postings by done. }
  split; [| split; [| split; [split; [apply Hp | by left] | done]]].
  - split; [apply Hb | exact (built_wf d nm w content a e Hb) | done | by rewrite Hav | by rewrite Hav | done].
  - split; [by rewrite Hav | done | done].
Qed.

(** C13. [makeall_do_attribute] builds everything: from the default components of an
    encoded attribute with the words [L] and the tokens [C], with or without
    validation, whatever the memory limit and the byte order, it neither faults
    nor exits, and afterwards the attribute has the sorted lexicon that
    [cl_str2id] needs and the index that [cl_id2cpos] needs: the four files on disk are the
    ids in the order of their words, the frequency of every id, the offsets of the ids in the
    reversed corpus, and the positions of all ids, and the access functions find them. *)
Theorem makeall_builds_index (be : bool) (home : option string) (nm d : string) (apath mother_path : option string)
    (sbuf : list ascii) (garbage : Z -> list Z) (cl_memory_limit : Z)
    (qsort : (Z -> Z -> res Z) -> list Z -> res (list Z)) (room : string -> option Z)
    (w : World) (a : Attribute) (e junk : Z) (L : list (list Z)) (C : list Z) (validate : bool) (pa : Z -> Z -> Z) :
  (forall k, 0 <= k -> zlen (garbage k) = k) -> qsort_sorts qsort ->
  encoded nm d w a e junk L C -> enough_room nm d room L C ->
  exists P w' a' e',
    makeall_do_attribute be home nm apath mother_path sbuf garbage cl_memory_limit qsort room None validate w =
      Ok ((), w') /\ lib w' = mkCL (Some a') e' /\
    files w' !! default_name d nm CompLexiconSrt = Some (ints_be (Z.of_nat <$> P)) /\
    files w' !! default_name d nm CompCorpusFreqs = Some (ints_be (freq_table C (length L))) /\
    files w' !! default_name d nm CompRevCorpusIdx = Some (ints_be (rev_offsets C (length L))) /\
    files w' !! default_name d nm CompRevCorpus = Some (ints_be (concat (occs C (length L)))) /\
    has_lexicon (files w') a' L /\ has_sort_index (files w') a' L P /\
    has_index (files w') pa a' (zlen C) (occs C (length L)).
Proof.
  intros Hg Hq Hen Hroom.
  destruct (makeall_ok be home nm d apath mother_path sbuf garbage cl_memory_limit qsort room Hg Hq w a e junk L C
    validate Hen Hroom) as (P & w' & a' & e' & E & HP & Hb & Hp).
  destruct (built_indexes d nm w' _ a' e' L C P pa Hb Hp HP eq_refl eq_refl eq_refl eq_refl eq_refl eq_refl
    (en_words _ _ _ _ _ _ _ _ Hen) (en_small _ _ _ _ _ _ _ _ Hen)) as (H1 & H2 & H3 & _).
  exists P, w', a', e'. split; [done |]. split; [apply Hb |].
  rewrite !(bt_files _ _ _ _ _ _ Hb) by done. done.
Qed.

(** C1. Words are found after [cwb-makeall]: on an encoded attribute with the words
    [L], each different, and the tokens [C], building the components, looking a
    word up with [cl_str2id] and asking [cl_id2cpos] for its id returns exactly
    the corpus positions of the tokens that are this word, in ascending order. *)
Theorem makeall_word_search (be : bool) (home : option string) (nm d : string) (apath mother_path : option string)
    (sbuf : list ascii) (garbage : Z -> list Z) (cl_memory_limit : Z)
    (qsort : (Z -> Z -> res Z) -> list Z -> res (list Z)) (room : string -> option Z)
    (w : World) (a : Attribute) (e junk : Z) (L : list (list Z)) (C : list Z) (validate : bool) (pa : Z -> Z -> Z)
    (word : list Z) (i : nat) :
  (forall k, 0 <= k -> zlen (garbage k) = k) -> qsort_sorts qsort ->
  encoded nm d w a e junk L C -> enough_room nm d room L C -> NoDup L -> L !! i = Some word ->
  exists w' a' e' a1 a2 ps,
    makeall_do_attribute be home nm apath mother_path sbuf garbage cl_memory_limit qsort room None validate w =
      Ok ((), w') /\ lib w' = mkCL (Some a') e' /\
    cl_str2id be (files w') word (lib w') = Ok (Z.of_nat i, mkCL (Some a1) CDA_OK) /\
    cl_id2cpos_oldstyle be (files w') pa (Z.of_nat i) 0 None 0 (mkCL (Some a1) CDA_OK) =
      Ok ((Some ps, zlen ps), mkCL (Some a2) CDA_OK) /\
    StronglySorted Z.lt ps /\ forall p, p ∈ ps <-> 0 <= p /\ C !! Z.to_nat p = Some (Z.of_nat i).
Proof.
  intros Hg Hq Hen Hroom Hnd Hi.
  destruct (makeall_ok be home nm d apath mother_path sbuf garbage cl_memory_limit qsort room Hg Hq w a e junk L C
    validate Hen Hroom) as (P & w' & a' & e' & E & HP & Hb & Hp).
  pose proof (en_words _ _ _ _ _ _ _ _ Hen) as Hw.
  destruct (built_indexes d nm w' _ a' e' L C P pa Hb Hp HP eq_refl eq_refl eq_refl eq_refl eq_refl eq_refl
    Hw (en_small _ _ _ _ _ _ _ _ Hen)) as (HL & HS & _ & HX).
  destruct (cl_str2id_ok be (files w') a' e' L P word HL HS (en_some _ _ _ _ _ _ _ _ Hen))
    as (a1 & v & err & L1 & E1 & Hv); [by apply (Forall_lookup_1 _ _ _ _ Hw Hi) |].
  destruct Hv as [(j & -> & -> & Hj)|(_ & _ & Hno)]; [| by exfalso; apply Hno, list_elem_of_lookup_2 with i].
  rewrite (NoDup_lookup L j i word Hnd Hj Hi) in *.
  assert (has_index (files w') pa a1 (zlen C) (occs C (length L))) as HI1.
  { split; [eapply has_postings_loads; [exact L1 | apply Hp] | left; by eapply has_plain_index_loads]. }
  destruct (cl_id2cpos_ok be (files w') pa a1 CDA_OK (zlen C) (occs C (length L)) (Z.of_nat i) 0 None HI1)
    as (a2 & _ & E2); [| done |].
  { change (concat (occs C (length L))) with (posts C 0 (length L)). rewrite zlen_posts; [| apply Hp].
    pose proof (en_tokens _ _ _ _ _ _ _ _ Hen). lia. }
  rewrite (proj2 (Z.ltb_ge _ _)), Nat2Z.id, occs_lookup in E2 by (lia || by eapply lookup_lt_Some).
  exists w', a', e', a1, a2, (occ C (Z.of_nat i)). split; [done |]. split; [apply Hb |].
  rewrite (bt_lib _ _ _ _ _ _ Hb). split; [done |]. split; [| split; [apply occ_sorted | apply occ_lookup]].
  cbn [flat_restrictor restrictor_size kept fmap option_fmap option_map] in E2. rewrite E2. unfold cpos_result.
  destruct (Z.eqb_spec (zlen (occ C (Z.of_nat i))) 0) as [->|]; done.
Qed.

(** ** Examples *)

Definition ex_tokens : list Z := [0; 1; 0; 2; 1; 3].
Definition ex_name (cid : ComponentID) : string := default_name "/d" "word" cid.
Definition ex_encoded_disk : gmap string (list Z) :=
  <[ex_name CompLexicon := lex_data ex_words]> (<[ex_name CompLexiconIdx := ints_be (lex_index ex_words)]>
    (<[ex_name CompCorpus := ints_be ex_tokens]> ∅)).
Definition ex_encoded_att : Attribute :=
  mkAtt ATT_POS (list_to_map ((fun sp => (spec_id sp, mkComp (Some (ex_name (spec_id sp))) 0 init_mblob)) <$>
    List.filter (fun sp => MayHaveComponent ATT_POS (spec_id sp) =? 1) Component_Field_Specs)) None (-1) [].
Definition ex_world : World := mkWorld (mkCL (Some ex_encoded_att) 0) ex_encoded_disk.

Lemma ex_encoded : encoded "word" "/d" ex_world ex_encoded_att 0 0 ex_words ex_tokens.
Proof.
  split; try reflexivity.
  - intros []; reflexivity.
  - intros [] Hc Hd; try reflexivity; discriminate.
  - repeat constructor; lia.
  - discriminate.
  - vm_compute. discriminate.
  - vm_compute. split; [reflexivity | discriminate].
  - repeat constructor; vm_compute; try discriminate; reflexivity.
Qed.

Lemma makeall_builds_index_witness :
  exists P w' a' e',
    makeall_do_attribute false None "word" None None [] (fun k => replicate (Z.to_nat k) 0) 0 insertion_sort
      (fun _ => Some 100) None true ex_world = Ok ((), w') /\ lib w' = mkCL (Some a') e' /\
    files w' !! "/d/word.corpus.cnt" = Some (ints_be [2; 2; 1; 1]) /\
    files w' !! "/d/word.corpus.rdx" = Some (ints_be [0; 2; 4; 5]) /\
    files w' !! "/d/word.corpus.rev" = Some (ints_be [0; 2; 1; 4; 3; 5]) /\
    has_sort_index (files w') a' ex_words P.
Proof.
  destruct (makeall_builds_index false None "word" "/d" None None [] (fun k => replicate (Z.to_nat k) 0) 0
    insertion_sort (fun _ => Some 100) ex_world ex_encoded_att 0 0 ex_words ex_tokens true (fun _ _ => 0))
    as (P & w' & a' & e' & E & Hl & _ & Hf & Hi & Hr & _ & Hs & _).
  - intros k Hk. rewrite zlen_replicate. lia.
  - exact insertion_sort_sorts.
  - exact ex_encoded.
  - intros cid. exists 100. split; [reflexivity |]. split; vm_compute; discriminate.
  - exists P, w', a', e'. split; [exact E |]. split; [exact Hl |]. split; [exact Hf |]. split; [exact Hi |]. split; [exact Hr | exact Hs].
Defined.

Lemma makeall_word_search_witness :
  exists w' a1 a2,
    makeall_do_attribute false None "word" None None [] (fun k => replicate (Z.to_nat k) 0) 0 insertion_sort
      (fun _ => Some 100) None true ex_world = Ok ((), w') /\
    cl_str2id false (files w') [97; 98] (lib w') = Ok (1, mkCL (Some a1) CDA_OK) /\
    exists ps, cl_id2cpos_oldstyle false (files w') (fun _ _ => 0) 1 0 None 0 (mkCL (Some a1) CDA_OK) =
      Ok ((Some ps, zlen ps), mkCL (Some a2) CDA_OK).
Proof.
  destruct (makeall_word_search false None "word" "/d" None None [] (fun k => replicate (Z.to_nat k) 0) 0
    insertion_sort (fun _ => Some 100) ex_world ex_encoded_att 0 0 ex_words ex_tokens true (fun _ _ => 0) [97; 98] 1)
    as (w' & a' & e' & a1 & a2 & ps & E & _ & E1 & E2 & _).
  - intros k Hk. rewrite zlen_replicate. lia.
  - exact insertion_sort_sorts.
  - exact ex_encoded.
  - intros cid. exists 100. split; [reflexivity |]. split; vm_compute; discriminate.
  - apply (bool_decide_unpack _). vm_compute. exact I.
  - reflexivity.
  - exists w', a1, a2. split; [exact E |]. split; [exact E1 |]. exists ps. exact E2.
Defined.

Lemma validate_revcorp_exact_witness :
  exists cl' b, validate_revcorp true ex_disk2 (mkCL (Some (set_components ex_counted
      (<[CompRevCorpus := loaded (ints_be [0; 2; 5; 1; 3; 4])]> (components ex_counted)))) 0) = Ok (b, cl') /\
    (b = true <-> [0; 2; 5; 1; 3; 4] = [0; 2; 5; 1; 4; 3]).
Proof.
  set (a := set_components ex_counted _).
  assert (plain_corpus ex_disk2 a ex_corpus 3) as Hp.
  { destruct ex_plain as [[T W Sz Ps Rg Lx Fq So] Sq Co Id]. split; [| reflexivity | reflexivity | exact Id].
    split; [exact T | | apply (size_plain _ _ _ (ints_be ex_corpus)); reflexivity | exact Ps | exact Rg
           | eexists; split; reflexivity | reflexivity | exact So].
    intros cid comp Hc. unfold a in Hc. cbn [components set_components] in Hc.
    destruct (decide (cid = CompRevCorpus)) as [->|Hne].
    - rewrite lookup_insert_eq in Hc. injection Hc as <-. split; intros x [= <-]; vm_compute; try done.
    - rewrite lookup_insert_ne in Hc by done. by apply W. }
  destruct (validate_revcorp_exact true ex_disk2 (plain_state ex_disk2 a) ex_corpus 3 [0; 2; 5; 1; 3; 4]
    (mkCL (Some a) 0) (loaded (ints_be [0; 2; 5; 1; 3; 4])) (mkCL (Some a) 0)) as (cl' & b & E & _ & H).
  - apply (plain_token_access true ex_disk2 a ex_corpus 3 Hp).
  - reflexivity.
  - repeat constructor; vm_compute; discriminate.
  - reflexivity.
  - exists a, 0. split; [reflexivity |]. apply loads_refl.
  - reflexivity.
  - reflexivity.
  - lia.
  - vm_compute. reflexivity.
  - exists cl', b. split; [exact E | exact H].
Defined.
