(* ===== verification/Huffcode.v ===== *)
(** * Compressing the token stream: utils/cwb-huffcode.c

    [compute_code_lengths] builds a Huffman tree over the types of an attribute
    (in an array that is a heap of pointers in front and the cells of the tree
    behind), derives canonical codes from the depths of the leaves, and writes
    the code of every token; every 128 tokens the stream is aligned to a byte
    and its position noted in a second file.  [decode_check_huff] decodes the
    files and compares them with the corpus.  Definitions; the theorems are in
    HuffHeap, HuffTree, HuffCanon and Huffman.

    The names of the three output files go to [fopen] only: the operations take
    what opening the files returned.  Of the messages, those that tell the
    outcome of the check are modelled; the protocol of the [-v] option is not,
    nor the number of bits that is computed for it. *)

From Stdlib Require Import ZArith Lia Ascii String.
From stdpp Require Import base tactics option list numbers gmap strings.
From S2P Require Import Prelude Bits Storage BitIO Golomb Blob Attributes CDA Lexicon Positional.

Open Scope Z_scope.

(** ** The heap

    [heap] is an array of [unsigned int]; [sift] and the variables [pos], [cl]
    and [code] see its cells as [int]s. *)

Definition hget (heap : list Z) (i : Z) : res Z := x ← aget heap i; Ok (s32 x).
Definition hset (heap : list Z) (i v : Z) : res (list Z) := aset heap i (u32 v).

(** [while (child <= heap_size)]; the heap and the number of swaps. *)
Definition sift_round (heap_size : Z) (st : list Z * Z * Z * Z) : res (list Z * Z * Z * Z + list Z * Z) :=
  let '(heap, node, child, swaps) := st in
  if child <=? heap_size then
    child ←
      (if child <? heap_size then
         p ← hget heap child; x ← hget heap p;
         q ← hget heap (child - 1); y ← hget heap q;
         if x <? y then c_int (child + 1) else Ok child
       else Ok child);
    p ← hget heap (node - 1); x ← hget heap p;
    q ← hget heap (child - 1); y ← hget heap q;
    if y <? x then
      heap ← hset heap (child - 1) p;
      heap ← hset heap (node - 1) q;
      next ← c_int (child * 2);
      Ok (inl (heap, child, next, swaps + 1))
    else Ok (inr (heap, swaps))
  else Ok (inr (heap, swaps)).

Definition sift (heap : list Z) (heap_size node : Z) : res (list Z * Z) :=
  child ← c_int (node * 2);
  loop (sift_round heap_size) fuel (heap, node, child, 0).

(** [for (i = hc->size/2; i > 0; i--) sift(heap, h, i);] *)
Definition make_heap (heap : list Z) (h : Z) : res (list Z) :=
  for_down (fun i heap => r ← sift heap h i; Ok r.1) (h / 2) 0 heap.

(** The loop that swaps a new element up; the comparison is unsigned. *)
Definition swap_up_round (st : list Z * Z * Z) : res (list Z * Z * Z + list Z) :=
  let '(heap, parent, current) := st in
  if 0 <? parent then
    p ← aget heap (parent - 1); x ← aget heap p;
    c ← aget heap (current - 1); y ← aget heap c;
    if y <? x then
      let tmp := s32 p in
      heap ← aset heap (parent - 1) c;
      heap ← hset heap (current - 1) tmp;
      Ok (inl (heap, Z.shiftr parent 1, parent))
    else Ok (inr heap)
  else Ok (inr heap).

(** Remove the topmost item: its cell, the heap and its size. *)
Definition remove_top (st : list Z * Z) : res (Z * (list Z * Z)) :=
  let '(heap, h) := st in
  pos ← hget heap 0;
  let h := h - 1 in
  x ← aget heap h;
  heap ← aset heap 0 x;
  r ← sift heap h 1;
  Ok (pos, (r.1, h)).

(** [while (h > 1)]: the two smallest nodes get a common parent in cell [h + 1]. *)
Definition merge_round (st : list Z * Z) : res (list Z * Z + list Z) :=
  let '(heap, h) := st in
  if 1 <? h then
    r ← remove_top (heap, h);
    let '(pos0, st) := r in
    r ← remove_top st;
    let '(pos1, (heap, h)) := r in
    heap ← aset heap h (u32 (h + 1));
    x ← aget heap pos0;
    y ← aget heap pos1;
    heap ← aset heap (h + 1) (u32 (x + y));
    heap ← aset heap pos1 (u32 (h + 1));
    heap ← aset heap pos0 (u32 (h + 1));
    let h := h + 1 in
    heap ← loop swap_up_round fuel (heap, Z.shiftr h 1, h);
    Ok (inl (heap, h))
  else Ok (inr heap).

(** Phase 3: pointers to the parents become depths. *)
Definition depth_round (i : Z) (heap : list Z) : res (list Z) :=
  p ← aget heap i;
  d ← aget heap p;
  aset heap i (u32 (d + 1)).

Definition tree_depths (heap : list Z) (size : Z) : res (list Z) :=
  heap ← aset heap 0 (u32 (-1));
  heap ← aset heap 1 0;
  for_up depth_round 2 (size * 2) heap.

(** Phases 1 to 3 on the initialized array. *)
Definition huffman_depths (heap : list Z) (size : Z) : res (list Z) :=
  heap ← make_heap heap size;
  heap ← loop merge_round fuel (heap, size);
  tree_depths heap size.

(** ** Code lengths and codes *)

(** The fields of the descriptor that are set while the lengths are collected. *)
Record lengths := mkLengths {
  len_of : list Z;         (* codelength *)
  len_min : Z;             (* hc->min_codelen *)
  len_max : Z;             (* hc->max_codelen *)
  len_count : list Z       (* hc->lcount *)
}.

Definition collect_round (heap : list Z) (size i : Z) (st : lengths) : res lengths :=
  cl ← hget heap (i + size);
  cl ← (if cl =? 0 then _ ← c_assert (size =? 1); Ok 1 else Ok cl);
  codelength ← aset (len_of st) i (u32 cl);
  let mx := if len_max st <? cl then cl else len_max st in
  let mn := if cl <? len_min st then cl else len_min st in
  n ← aget (len_count st) cl;
  n ← c_int (n + 1);
  lcount ← aset (len_count st) cl n;
  Ok (mkLengths codelength mn mx lcount).

Definition codes_zero : list Z := replicate (Z.to_nat MAXCODELEN) 0.

Definition collect_lengths (heap : list Z) (size : Z) : res lengths :=
  for_up (collect_round heap size) 0 size
    (mkLengths (replicate (Z.to_nat size) 0) 100 0 codes_zero).

(** [for (i = hc->max_codelen-1; i > 0; i--)] *)
Definition min_code_round (lcount : list Z) (i : Z) (min_code : list Z) : res (list Z) :=
  m ← aget min_code (i + 1);
  n ← aget lcount (i + 1);
  s ← c_int (m + n);
  aset min_code i (Z.shiftr s 1).

(** [for (i = hc->min_codelen+1; i <= hc->max_codelen; i++)] *)
Definition symindex_round (lcount : list Z) (i : Z) (symindex : list Z) : res (list Z) :=
  x ← aget symindex (i - 1);
  n ← aget lcount (i - 1);
  s ← c_int (x + n);
  aset symindex i s.

Definition code_tables (l : lengths) : res (list Z * list Z) :=
  min_code ← aset codes_zero (len_max l) 0;
  min_code ← for_down (min_code_round (len_count l)) (len_max l - 1) 0 min_code;
  symindex ← aset codes_zero (len_min l) 0;
  symindex ← for_up (symindex_round (len_count l)) (len_min l + 1) (len_max l + 1) symindex;
  Ok (min_code, symindex).

(** The code of item [i] goes to [heap[i]], the item to its place in the second
    half of the array; the state is the array, [next_code] and [issued_codes]. *)
Definition issue_round (codelength symindex : list Z) (size i : Z) (st : list Z * list Z * list Z)
  : res (list Z * list Z * list Z) :=
  let '(heap, next_code, issued) := st in
  cl ← aget codelength i;
  c ← aget next_code cl;
  heap ← aset heap i (u32 c);
  c ← c_int (c + 1);
  next_code ← aset next_code cl c;
  s ← aget symindex cl;
  k ← aget issued cl;
  j ← c_int (size + s + k);
  heap ← aset heap j (u32 i);
  k ← c_int (k + 1);
  issued ← aset issued cl k;
  Ok (heap, next_code, issued).

Definition issue_codes (heap codelength min_code symindex : list Z) (size : Z) : res (list Z) :=
  r ← for_up (issue_round codelength symindex size) 0 size (heap, min_code, codes_zero);
  Ok r.1.1.

(** ** Files of descriptors

    In this tool [symbols] is the array of [int]s itself. *)
Section Tool.
Context (be : bool) (disk : gmap string (list Z)).

(** The contents of a block of [n] cells that [cl_malloc] returned. *)
Context (garbage : Z -> list Z).

(** The return value and the file; [fd] is what [fopen(filename, "wb")] returned. *)
Definition WriteHCD (fd : option FILE) (h : HCD) : res (Z * option FILE) :=
  match fd with
  | None => Ok (0, None)
  | Some fd =>
      fd ← NwriteInt be (hcd_size h) fd;
      fd ← NwriteInt be (hcd_length h) fd;
      fd ← NwriteInt be (min_codelen h) fd;
      fd ← NwriteInt be (max_codelen h) fd;
      fd ← NwriteInts be (lcount h) MAXCODELEN fd;
      fd ← NwriteInts be (symindex h) MAXCODELEN fd;
      fd ← NwriteInts be (min_code h) MAXCODELEN fd;
      fd ← NwriteInts be (symbols h) (hcd_size h) fd;
      Ok (1, Some fd)
  end.

(** [h] is the uninitialized variable of the caller. *)
Definition ReadHCD (fd : option FILE) (h : HCD) : res (Z * HCD) :=
  match fd with
  | None => Ok (0, h)
  | Some fd =>
      r ← NreadInt be fd; let '(size, fd) := r in
      r ← NreadInt be fd; let '(length, fd) := r in
      r ← NreadInt be fd; let '(min_codelen, fd) := r in
      r ← NreadInt be fd; let '(max_codelen, fd) := r in
      r ← NreadInts be (lcount h) MAXCODELEN fd; let '(lcount, fd) := r in
      r ← NreadInts be (symindex h) MAXCODELEN fd; let '(symindex, fd) := r in
      r ← NreadInts be (min_code h) MAXCODELEN fd; let '(min_code, fd) := r in
      r ← NreadInts be (garbage size) size fd; let '(symbols, fd) := r in
      Ok (1, mkHCD size length min_codelen max_codelen lcount symindex min_code symbols)
  end.

(** ** Compression *)

Definition huffcode_exit {A} : M A := lift (Err ExitCall).

Definition need (cid : ComponentID) : M unit :=
  c ← ensure be disk cid;
  match c with None => huffcode_exit | Some _ => mret () end.

(** [for (i = 0; i < hc->size; i++)]: pointers in front, frequencies behind. *)
Definition init_round (size i : Z) (heap : list Z) : M (list Z) :=
  heap ← lift (aset heap i (u32 (size + i)));
  f ← cl_id2freq be disk i;
  f ← lift (c_int (f + 1));
  lift (aset heap (size + i) (u32 f)).

(** One token. *)
Definition encode_token (codelength heap : list Z) (size i : Z) (st : BFile * FILE) : M (BFile * FILE) :=
  let '(bfd, sync) := st in
  st ← lift (if Z.rem i SYNCHRONIZATION =? 0 then
               bfd ← (if 0 <? i then r ← BFflush bfd; Ok r.2 else Ok bfd);
               pos ← BFposition (Some bfd);
               sync ← NwriteInt be (s32 pos) sync;
               Ok (bfd, sync)
             else Ok (bfd, sync));
  let '(bfd, sync) := st in
  id ← cl_cpos2id be disk i;
  e ← get_errno;
  if (id <? 0) || negb (e =? CDA_OK) then huffcode_exit
  else
    _ ← lift (c_assert ((0 <=? id) && (id <? size)));
    cl ← lift (aget codelength id);
    code ← lift (aget heap id);
    w ← lift (BFwriteWord be code (s32 cl) bfd);
    if w.1 =? 0 then huffcode_exit else mret (w.2, sync).

(** What the tool wrote: the descriptor block, the closed data file, the sync file. *)
Record hufffiles := mkHuffFiles { hcd_file : FILE; huf_file : BFile; sync_file : FILE }.

(** [hcd_fd], [huf_fd] and [sync_fd] are what opening the three files returned;
    [None] is the end without any output.  [sum_bits], which is only printed, is left out. *)
Definition compute_code_lengths (hcd_fd huf_fd sync_fd : option FILE) : M (option hufffiles) :=
  _ ← need CompCorpus;
  _ ← need CompLexicon;
  _ ← need CompLexiconIdx;
  _ ← need CompCorpusFreqs;
  size ← cl_max_id be disk;
  e ← get_errno;
  if (size <=? 0) || negb (e =? CDA_OK) then huffcode_exit else
  length ← cl_max_cpos be disk;
  e ← get_errno;
  if (length <=? 0) || negb (e =? CDA_OK) then huffcode_exit else
  cells ← lift (c_int (size * 2));
  heap ← forM_up (init_round size) 0 size (garbage cells);
  heap ← lift (huffman_depths heap size);
  l ← lift (collect_lengths heap size);
  if MAXCODELEN <=? len_max l then huffcode_exit else
  if (len_max l =? 0) && (len_min l =? 100) then mret None else
  t ← lift (code_tables l);
  let '(min_code, symindex) := t in
  heap ← lift (issue_codes heap (len_of l) min_code symindex size);
  corp ← ensure be disk CompCorpus;
  _ ← lift (c_assert (if corp is Some _ then true else false));
  let h := mkHCD size length (len_min l) (len_max l) (len_count l) symindex min_code
             (s32 <$> drop (Z.to_nat size) heap) in
  w ← lift (WriteHCD hcd_fd h);
  match w with
  | (_, None) => huffcode_exit
  | (_, Some hcd) =>
      o ← lift (BFopen huf_fd "w");
      if o.1 =? 0 then huffcode_exit else
      match sync_fd with
      | None => huffcode_exit
      | Some sync =>
          r ← forM_up (encode_token (len_of l) heap size) 0 length (o.2, sync);
          c ← lift (BFclose r.1);
          mret (Some (mkHuffFiles hcd c.2 r.2))
      end
  end.

(** ** Decompression and error checking *)

(** What the check tells the user. *)
Inductive message :=
| WrongToken (item pos true_item : Z)   (* ERROR: wrong token ... Aborted. *)
| ReadError                             (* ERROR reading file ... Aborted. *)
| CanDelete.                            (* You can delete the file ... now. *)

(** [while (v < hc.min_code[l])]: [None] is the [return] after a read error. *)
Definition check_bit_round (h : HCD) (st : BFile * Z * Z) : res (BFile * Z * Z + option (BFile * Z * Z)) :=
  let '(bfd, v, l) := st in
  m ← aget (min_code h) l;
  if v <? m then
    r ← BFread 1 bfd;
    let '(ok, bit, bfd) := r in
    if ok =? 0 then Ok (inr None)
    else
      v ← c_int (Z.shiftl v 1);
      Ok (inl (bfd, if negb (bit =? 0) then v + 1 else v, l + 1))
  else Ok (inr (Some (bfd, v, l))).

(** One token: [inr] is the [return] after a read error. *)
Definition check_token_round (h : HCD) (st : Z * BFile * FILE * list message)
  : M (Z * BFile * FILE * list message + list message) :=
  let '(pos, bfd, sync, out) := st in
  if pos <? hcd_length h then
    st ← lift (if Z.rem pos SYNCHRONIZATION =? 0 then
                 offset ← BFposition (Some bfd);
                 bfd ← (if 0 <? pos then r ← BFflush bfd; Ok r.2 else Ok bfd);
                 r ← NreadInt be sync;
                 if negb (s32 offset =? r.1) then Err ExitCall else Ok (bfd, r.2)
               else Ok (bfd, sync));
    let '(bfd, sync) := st in
    r ← lift (BFread 1 bfd);
    let '(ok, bit, bfd) := r in
    if ok =? 0 then huffcode_exit else
    let v := if negb (bit =? 0) then 1 else 0 in
    r ← lift (loop (check_bit_round h) fuel (bfd, v, 1));
    match r with
    | None => mret (inr (out ++ [ReadError]))
    | Some (bfd, v, l) =>
        s ← lift (aget (symindex h) l);
        m ← lift (aget (min_code h) l);
        j ← lift (c_int (s + v - m));
        item ← lift (aget (symbols h) j);
        true_item ← cl_cpos2id be disk pos;
        let out := if negb (item =? true_item) then out ++ [WrongToken item pos true_item] else out in
        mret (inl (pos + 1, bfd, sync, out))
    end
  else
    _ ← lift (BFclose bfd);
    mret (inr (out ++ [CanDelete])).

(** The messages of the check. *)
Definition decode_check_huff (hcd_fd huf_fd sync_fd : option FILE) (h0 : HCD) : M (list message) :=
  r ← lift (ReadHCD hcd_fd h0);
  let '(ok, h) := r in
  if ok =? 0 then huffcode_exit else
  o ← lift (BFopen huf_fd "r");
  if o.1 =? 0 then huffcode_exit else
  match sync_fd with
  | None => huffcode_exit
  | Some sync =>
      size ← cl_max_cpos be disk;
      if negb (size =? hcd_length h) then huffcode_exit
      else loopM (check_token_round h) fuel (0, o.2, sync, [])
  end.
End Tool.
