(* ===== verification/HuffHeap.v ===== *)
(** * The heap of cwb-huffcode

    The front part of the array is a binary heap of pointers into the back part,
    ordered by the cells they point to.  [sift], the initial construction, the
    removal of the top and the swapping up of a new element permute the pointers,
    leave the cells alone and establish the heap order, so that the pointer on
    top is one to a smallest cell. *)

From Stdlib Require Import ZArith Lia.
From stdpp Require Import base tactics option list numbers gmap.
From S2P Require Import Prelude Storage Attributes Huffcode.

Open Scope Z_scope.

(** ** Cells *)

Definition cell (l : list Z) (i : Z) : Z := nth (Z.to_nat i) l 0.

(** All cells are [int]s that are not negative: reading them as [int] or as
    [unsigned int] is the same. *)
Definition ints_only (l : list Z) : Prop := Forall (fun x => 0 <= x <= INT_MAX) l.

Lemma cell_lookup l i x : 0 <= i -> l !! Z.to_nat i = Some x -> cell l i = x.
Proof. intros _ H. unfold cell. apply nth_lookup_Some with (d := 0) in H. done. Qed.

Lemma lookup_cell l i : 0 <= i < zlen l -> l !! Z.to_nat i = Some (cell l i).
Proof.
  intros Hi. destruct (aget_total l i Hi) as (x & _ & Hx). by rewrite (cell_lookup l i x) by (done || lia).
Qed.

Lemma aget_cell l i : 0 <= i < zlen l -> aget l i = Ok (cell l i).
Proof. intros Hi. apply aget_lookup; [lia | by apply lookup_cell]. Qed.

Lemma cell_small l i : ints_only l -> 0 <= i < zlen l -> 0 <= cell l i <= INT_MAX.
Proof. intros Hl Hi. apply (Forall_lookup_1 _ _ _ _ Hl (lookup_cell l i Hi)). Qed.

Lemma hget_cell l i : ints_only l -> 0 <= i < zlen l -> hget l i = Ok (cell l i).
Proof.
  intros Hl Hi. unfold hget. rewrite aget_cell by done. res_cbn.
  by rewrite s32_small by by apply cell_small.
Qed.

Lemma cell_app_l l k i : 0 <= i < zlen l -> cell (l ++ k) i = cell l i.
Proof. unfold zlen. intros Hi. unfold cell. apply app_nth1. lia. Qed.

Lemma cell_app_r l k i : zlen l <= i -> cell (l ++ k) i = cell k (i - zlen l).
Proof.
  unfold zlen. intros Hi. unfold cell. rewrite app_nth2 by lia. f_equal. lia.
Qed.

Lemma cell_insert l i v j :
  0 <= i < zlen l -> 0 <= j -> cell (<[Z.to_nat i := v]> l) j = if j =? i then v else cell l j.
Proof.
  intros Hi Hj. unfold zlen in Hi. unfold cell. rewrite !nth_lookup. destruct (Z.eqb_spec j i) as [->|Hne].
  - by rewrite list_lookup_insert_eq by lia.
  - by rewrite list_lookup_insert_ne by lia.
Qed.

Lemma ints_only_insert l i v : ints_only l -> 0 <= v <= INT_MAX -> ints_only (<[i := v]> l).
Proof. intros. by apply Forall_insert. Qed.

Lemma hset_Ok l i v : 0 <= i < zlen l -> 0 <= v <= INT_MAX -> hset l i v = Ok (<[Z.to_nat i := v]> l).
Proof. intros Hi Hv. unfold hset. rewrite u32_small by (unfold INT_MAX in Hv; lia). by apply aset_Ok. Qed.

(** ** Swapping two elements *)

Lemma insert_Permutation (l : list Z) i x y : l !! i = Some x -> x :: <[i := y]> l ≡ₚ y :: l.
Proof.
  intros H. pose proof (lookup_lt_Some _ _ _ H) as Hi.
  pose proof (delete_Permutation l i x H) as E1.
  pose proof (delete_Permutation (<[i := y]> l) i y (list_lookup_insert_eq l i y Hi)) as E2.
  assert (delete i (<[i := y]> l) = delete i l) as Ed.
  { rewrite !delete_take_drop. by rewrite take_insert_ge, drop_insert_lt by lia. }
  rewrite Ed in E2. etransitivity; [apply perm_skip, E2 |]. symmetry.
  etransitivity; [apply perm_skip, E1 |]. apply Permutation_swap.
Qed.

Definition swap (P : list Z) (a b : Z) : list Z :=
  <[Z.to_nat (a - 1) := cell P (b - 1)]> (<[Z.to_nat (b - 1) := cell P (a - 1)]> P).

Lemma swap_zlen P a b : zlen (swap P a b) = zlen P.
Proof. unfold swap. by rewrite !zlen_insert. Qed.

Lemma swap_Permutation P a b : 1 <= a <= zlen P -> 1 <= b <= zlen P -> a <> b -> swap P a b ≡ₚ P.
Proof.
  intros Ha Hb Hne. unfold swap. set (x := cell P (a - 1)). set (y := cell P (b - 1)).
  pose proof (insert_Permutation P (Z.to_nat (b - 1)) y x (lookup_cell P (b - 1) ltac:(lia))) as H1.
  assert (x :: <[Z.to_nat (a - 1) := y]> (<[Z.to_nat (b - 1) := x]> P) ≡ₚ y :: <[Z.to_nat (b - 1) := x]> P) as H2.
  { apply insert_Permutation. rewrite list_lookup_insert_ne by lia. apply lookup_cell. lia. }
  rewrite H1 in H2. by apply Permutation_cons_inv in H2.
Qed.

(** ** Heap order, with nodes numbered from 1 *)

Definition key (K : Z -> Z) (P : list Z) (i : Z) : Z := K (cell P (i - 1)).

Definition child_of (p i : Z) : Prop := i = 2 * p \/ i = 2 * p + 1.

(** The order holds between every node from [s] on and its children. *)
Definition heap_from (K : Z -> Z) (s : Z) (P : list Z) : Prop :=
  forall p i, 1 <= p -> s <= p -> child_of p i -> i <= zlen P -> key K P p <= key K P i.

Lemma key_swap K P a b i :
  1 <= a <= zlen P -> 1 <= b <= zlen P -> 1 <= i ->
  key K (swap P a b) i = if i =? a then key K P b else if i =? b then key K P a else key K P i.
Proof.
  intros Ha Hb Hi. unfold key, swap. rewrite !cell_insert by (rewrite ?zlen_insert; lia).
  destruct (Z.eqb_spec i a), (Z.eqb_spec (i - 1) (a - 1)); try lia.
  destruct (Z.eqb_spec i b), (Z.eqb_spec (i - 1) (b - 1)); lia.
Qed.

Lemma heap_top K P i : heap_from K 1 P -> 1 <= i <= zlen P -> key K P 1 <= key K P i.
Proof.
  intros H. induction (Z.lt_wf 0 i) as [i _ IH]. intros Hi.
  destruct (Z.eq_dec i 1) as [->|Hne]; [lia |].
  assert (child_of (i / 2) i) as Hc by (unfold child_of; Z.div_mod_to_equations; lia).
  assert (1 <= i / 2 < i) as Hp by (Z.div_mod_to_equations; lia).
  etransitivity; [apply (IH (i / 2)); lia | apply H; [lia | lia | done | lia]].
Qed.

Lemma heap_top_elem K P p : heap_from K 1 P -> p ∈ P -> K (cell P 0) <= K p.
Proof.
  intros H Hp. apply list_elem_of_lookup in Hp as [i Hi]. pose proof (lookup_lt_Some _ _ _ Hi).
  pose proof (heap_top K P (Z.of_nat i + 1) H ltac:(unfold zlen; lia)) as Ht. unfold key in Ht.
  rewrite (cell_lookup P (Z.of_nat i + 1 - 1) p) in Ht; [exact Ht | lia |]. rewrite <- Hi. f_equal. lia.
Qed.

Lemma heap_from_ext K K' s P : (forall p, p ∈ P -> K' p = K p) -> heap_from K s P -> heap_from K' s P.
Proof.
  intros HK H p i Hp Hs Hc Hi. unfold key.
  assert (forall j, 1 <= j <= zlen P -> K' (cell P (j - 1)) = K (cell P (j - 1))) as E.
  { intros j Hj. apply HK. eapply list_elem_of_lookup_2. apply (lookup_cell P (j - 1)). lia. }
  unfold child_of in Hc. rewrite !E by lia. by apply H.
Qed.

Lemma heap_from_leaves K s P : zlen P < 2 * s -> heap_from K s P.
Proof. intros Hs p i H1 H2 [-> | ->] Hi; lia. Qed.

(** ** Sifting

    The array is [P ++ D]: the heap and the cells behind it. *)
(** The cell a pointer [p] points to, if the heap has [h] elements. *)
Definition weight (h : Z) (D : list Z) (p : Z) : Z := cell D (p - h).

Section Sift.
Context (P0 D : list Z).
#[local] Abbreviation W := (weight (zlen P0) D).
Context (Hsmall : ints_only (P0 ++ D)) (Hmax : zlen (P0 ++ D) <= INT_MAX) (Htwice : 2 * zlen P0 <= INT_MAX - 2).
Context (Hrange : Forall (fun p => zlen P0 <= p < zlen (P0 ++ D)) P0).

(** A permutation of the pointers, and what reading it gives. *)
Lemma perm_facts P :
  P ≡ₚ P0 -> zlen P = zlen P0 /\ ints_only (P ++ D) /\ zlen (P ++ D) = zlen (P0 ++ D) /\
    Forall (fun p => zlen P0 <= p < zlen (P0 ++ D)) P.
Proof using Hsmall Hrange.
  intros HP. assert (zlen P = zlen P0) as E by (unfold zlen; by rewrite (Permutation_length HP)).
  split; [done |]. split; [unfold ints_only; by rewrite HP |]. split; [rewrite !zlen_app; lia |].
  by rewrite HP.
Qed.

Lemma read_pointer P i :
  P ≡ₚ P0 -> 1 <= i <= zlen P0 ->
  hget (P ++ D) (i - 1) = Ok (cell P (i - 1)) /\ hget (P ++ D) (cell P (i - 1)) = Ok (key W P i) /\
  0 <= cell P (i - 1) <= INT_MAX.
Proof using Hsmall Hmax Hrange.
  intros HP Hi. destruct (perm_facts P HP) as (E & Hs & El & Hr).
  pose proof (Forall_lookup_1 _ _ _ _ Hr (lookup_cell P (i - 1) ltac:(lia))) as Hc. cbn in Hc.
  pose proof (zlen_nonneg D). rewrite zlen_app in Hc. split; [| split].
  - rewrite hget_cell, cell_app_l by (rewrite ?zlen_app; done || lia). done.
  - rewrite hget_cell, cell_app_r by (rewrite ?zlen_app; done || lia). unfold key, weight. by rewrite E.
  - rewrite zlen_app in Hmax. pose proof (zlen_nonneg P0). lia.
Qed.

Lemma write_swap P a b :
  P ≡ₚ P0 -> 1 <= a <= zlen P0 -> 1 <= b <= zlen P0 ->
  (heap ← hset (P ++ D) (b - 1) (cell P (a - 1)); hset heap (a - 1) (cell P (b - 1))) = Ok (swap P a b ++ D).
Proof using Hsmall Hmax Hrange.
  intros HP Ha Hb. destruct (perm_facts P HP) as (E & Hs & El & Hr).
  destruct (read_pointer P a HP Ha) as (_ & _ & Ra). destruct (read_pointer P b HP Hb) as (_ & _ & Rb).
  pose proof (zlen_nonneg D).
  rewrite hset_Ok by (rewrite ?zlen_app; lia). res_cbn.
  rewrite hset_Ok by (rewrite ?zlen_insert, ?zlen_app; lia). unfold swap, zlen in *.
  rewrite insert_app_l by lia. rewrite insert_app_l by (rewrite length_insert; lia). done.
Qed.

(** Before a round: only [node] may be greater than its children. *)
Definition sift_inv (start : Z) (P : list Z) (node : Z) : Prop :=
  P ≡ₚ P0 /\ start <= node /\ 1 <= node <= Z.max 1 (zlen P0) /\
  (forall p i, 1 <= p -> start <= p -> p <> node -> child_of p i -> i <= zlen P0 ->
     key W P p <= key W P i) /\
  (forall q i, 1 <= q -> start <= q -> child_of q node -> child_of node i -> i <= zlen P0 ->
     key W P q <= key W P i).

Lemma sift_inv_swap start P node c :
  sift_inv start P node -> child_of node c -> c <= zlen P0 ->
  key W P c < key W P node ->
  (forall i, child_of node i -> i <= zlen P0 -> key W P c <= key W P i) ->
  sift_inv start (swap P node c) c.
Proof using Hsmall Hrange.
  intros (HP & Hs & Hn & Hord & Hup) Hc Hcl Hlt Hmin. destruct (perm_facts P HP) as (E & _).
  assert (1 <= node < c) as Hnc by (unfold child_of in Hc; lia).
  split; [rewrite swap_Permutation by lia; done |]. split; [lia |]. split; [lia |]. split.
  - intros p i Hp Hsp Hpc Hci Hi.
    assert (1 <= i) by (unfold child_of in Hci; lia).
    rewrite !key_swap by lia.
    destruct (Z.eqb_spec p node) as [->|Hpn].
    + destruct (Z.eqb_spec i node); [unfold child_of in Hci; lia |].
      destruct (Z.eqb_spec i c); [lia | by apply Hmin].
    + destruct (Z.eqb_spec p c); [done |]. destruct (Z.eqb_spec i node) as [->|Hin].
      * by apply (Hup p c).
      * destruct (Z.eqb_spec i c) as [->|]; [unfold child_of in Hci, Hc; lia | by apply Hord].
  - intros q i Hq Hsq Hqc Hci Hi. assert (q = node) as -> by (unfold child_of in Hqc, Hc; lia).
    assert (c < i) by (unfold child_of in Hci; lia). rewrite !key_swap by lia.
    rewrite Z.eqb_refl. destruct (Z.eqb_spec i node); [lia |]. destruct (Z.eqb_spec i c); [lia |].
    apply Hord; lia || done.
Qed.

(** The child that is selected. *)
Lemma select_child P node :
  P ≡ₚ P0 -> 1 <= node -> 2 * node <= zlen P0 ->
  exists c, (if 2 * node <? zlen P0 then
               p ← hget (P ++ D) (2 * node); x ← hget (P ++ D) p;
               q ← hget (P ++ D) (2 * node - 1); y ← hget (P ++ D) q;
               if x <? y then c_int (2 * node + 1) else Ok (2 * node)
             else Ok (2 * node)) = Ok c /\
    child_of node c /\ c <= zlen P0 /\
    (forall i, child_of node i -> i <= zlen P0 -> key W P c <= key W P i).
Proof using Hsmall Hmax Htwice Hrange.
  intros HP Hn Hl. destruct (Z.ltb_spec (2 * node) (zlen P0)).
  - destruct (read_pointer P (2 * node + 1) HP ltac:(lia)) as (E1 & E2 & _).
    destruct (read_pointer P (2 * node) HP ltac:(lia)) as (E3 & E4 & _).
    replace (2 * node + 1 - 1) with (2 * node) in * by lia.
    rewrite E1. res_cbn. rewrite E2. res_cbn. rewrite E3. res_cbn. rewrite E4. res_cbn.
    rewrite c_int_Ok by (unfold INT_MIN, INT_MAX in *; lia).
    destruct (Z.ltb_spec (key W P (2 * node + 1)) (key W P (2 * node)));
      (eexists; split; [reflexivity |]; split; [unfold child_of; lia |]; split; [lia |];
       intros i [-> | ->] Hi; lia).
  - exists (2 * node). split; [done |]. split; [unfold child_of; lia |]. split; [lia |].
    intros i [-> | ->] Hi; lia.
Qed.

Lemma sift_round_ok start P node sw :
  sift_inv start P node ->
  (2 * node <= zlen P0 /\ exists P' c sw',
     sift_round (zlen P0) (P ++ D, node, 2 * node, sw) = Ok (inl (P' ++ D, c, 2 * c, sw')) /\
     sift_inv start P' c /\ node < c) \/
  (exists sw', sift_round (zlen P0) (P ++ D, node, 2 * node, sw) = Ok (inr (P ++ D, sw')) /\
     heap_from W start P).
Proof using Hsmall Hmax Htwice Hrange.
  intros HI. pose proof HI as (HP & Hs & Hn & Hord & Hup). destruct (perm_facts P HP) as (E & _).
  unfold sift_round. destruct (Z.leb_spec (2 * node) (zlen P0)) as [Hc|Hc].
  - destruct (select_child P node HP ltac:(lia) Hc) as (c & Ec & Hch & Hcl & Hmin).
    rewrite Ec. res_cbn. destruct (read_pointer P node HP ltac:(lia)) as (E1 & E2 & _).
    assert (1 <= c) by (unfold child_of in Hch; lia).
    destruct (read_pointer P c HP ltac:(lia)) as (E3 & E4 & _).
    rewrite E1. res_cbn. rewrite E2. res_cbn. rewrite E3. res_cbn. rewrite E4. res_cbn.
    destruct (Z.ltb_spec (key W P c) (key W P node)) as [Hlt|Hge].
    + left. split; [done |]. exists (swap P node c), c, (sw + 1).
      pose proof (write_swap P node c HP ltac:(lia) ltac:(lia)) as Hw.
      inv_bind Hw. rewrite Ha. res_cbn. rewrite Hw. res_cbn. rewrite c_int_Ok by (unfold INT_MIN, INT_MAX in *; lia).
      res_cbn. split; [by rewrite (Z.mul_comm c 2) |]. split; [by apply sift_inv_swap | unfold child_of in Hch; lia].
    + right. exists sw. split; [done |]. intros p i Hp Hsp Hci Hi. rewrite E in Hi.
      destruct (Z.eq_dec p node) as [->|]; [etransitivity; [exact Hge | by apply Hmin] | by apply Hord].
  - right. exists sw. split; [done |]. intros p i Hp Hsp Hci Hi. rewrite E in Hi.
    destruct (Z.eq_dec p node) as [->|]; [unfold child_of in Hci; lia | by apply Hord].
Qed.

Lemma sift_ok node :
  1 <= node <= Z.max 1 (zlen P0) -> heap_from W (node + 1) P0 ->
  exists P sw, sift (P0 ++ D) (zlen P0) node = Ok (P ++ D, sw) /\ P ≡ₚ P0 /\ heap_from W node P.
Proof using Hsmall Hmax Htwice Hrange.
  intros Hn H0. unfold sift. rewrite c_int_Ok by (unfold INT_MIN, INT_MAX in *; lia). res_cbn.
  loop_with (fun '(h, nd, ch, sw) => exists P, h = P ++ D /\ ch = 2 * nd /\ sift_inv node P nd)
    (fun r : list Z * Z => exists P, r.1 = P ++ D /\ P ≡ₚ P0 /\ heap_from W node P)
    (fun st : list Z * Z * Z * Z => Z.max 1 (zlen P0) - st.1.1.2) r E Hr.
  - intros [[[h nd] ch] sw] (P & -> & -> & HI). cbn [fst snd]. pose proof HI as (_ & _ & Hnd & _).
    split; [lia |].
    destruct (sift_round_ok node P nd sw HI) as [(Hc & P' & c & sw' & E & HI' & Hlt)|(sw' & E & Hh)].
    + left. eexists. split; [exact E |]. cbn [fst snd]. split; [by exists P' | lia].
    + right. eexists. split; [exact E |]. exists P. split; [done |]. split; [apply HI | done].
  - exists P0. split; [done |]. split; [lia |]. split; [done |]. split; [lia |]. split; [done |]. split.
    + intros p i Hp Hs Hne Hci Hi. apply H0; lia || done.
    + intros q i Hq Hs Hqn Hci Hi. unfold child_of in *. lia.
  - cbn [fst snd]. rewrite fuel_val. unfold INT_MAX in Htwice. pose proof (zlen_nonneg P0). lia.
  - destruct r as [h sw]. destruct Hr as (P & Hh & HP & Ho). cbn in Hh. subst h. by exists P, sw.
Qed.
End Sift.

(** ** The heap operations *)

(** The array consists of a heap [P], of pointers behind it, and cells. *)
Record heap_array (P D : list Z) : Prop := {
  ha_ints : ints_only (P ++ D);
  ha_max : zlen (P ++ D) <= INT_MAX;
  ha_twice : 2 * zlen P <= INT_MAX - 2;
  ha_range : Forall (fun p => zlen P <= p < zlen (P ++ D)) P
}.

Lemma heap_array_perm P P' D : P' ≡ₚ P -> heap_array P D -> heap_array P' D /\ zlen P' = zlen P.
Proof.
  intros HP [H1 H2 H3 H4]. destruct (perm_facts P D H1 H4 P' HP) as (E & Hs & El & Hr).
  split; [| done]. split; [done | lia | lia | by rewrite E, El].
Qed.

Lemma make_heap_ok P0 D :
  heap_array P0 D ->
  exists P, make_heap (P0 ++ D) (zlen P0) = Ok (P ++ D) /\ P ≡ₚ P0 /\ heap_from (weight (zlen P0) D) 1 P.
Proof.
  intros HA. unfold make_heap.
  destruct (for_down_rule (fun i heap => r ← sift heap (zlen P0) i; Ok r.1)
    (fun i h => exists P, h = P ++ D /\ P ≡ₚ P0 /\ heap_from (weight (zlen P0) D) (i + 1) P)
    (zlen P0 / 2) 0 (P0 ++ D)) as (h & E & P & -> & HP & Ho).
  - pose proof (zlen_nonneg P0). apply Z.div_pos; lia.
  - intros i h Hi (P & -> & HP & Ho). destruct (heap_array_perm P0 P D HP HA) as [[H1 H2 H3 H4] El].
    rewrite <- El in Ho |- *.
    destruct (sift_ok P D H1 H2 H3 H4 i) as (P' & sw & E & HP' & Ho'); [Z.div_mod_to_equations; lia | done |].
    rewrite E. res_cbn. eexists. split; [reflexivity |]. cbn [fst]. exists P'. split; [done |].
    split; [by rewrite HP' |]. by replace (i - 1 + 1) with i by lia.
  - exists P0. split; [done |]. split; [done |]. apply heap_from_leaves. Z.div_mod_to_equations. lia.
  - exists P. rewrite E. done.
Qed.

Lemma ints_only_app P D : ints_only (P ++ D) <-> ints_only P /\ ints_only D.
Proof. apply Forall_app. Qed.

(** Removing the top: the last pointer takes its place and is sifted down; its
    old cell is free. *)
Lemma remove_top_ok P D :
  heap_array P D -> P <> [] -> heap_from (weight (zlen P) D) 1 P ->
  exists x P' l, remove_top (P ++ D, zlen P) = Ok (x, (P' ++ l :: D, zlen P - 1)) /\
    x :: P' ≡ₚ P /\ heap_array P' (l :: D) /\ heap_from (weight (zlen P) D) 1 P' /\
    (forall p, p ∈ P -> weight (zlen P) D x <= weight (zlen P) D p).
Proof.
  intros HA Hne Ho. pose proof HA as [H1 H2 H3 H4].
  destruct (exists_last Hne) as (Q & l & EP). set (x := cell P 0).
  assert (0 < zlen P) as Hpos by (rewrite EP, zlen_app; pose proof (zlen_nonneg Q); change (zlen [l]) with 1; lia).
  assert (zlen Q = zlen P - 1) as EQ by (rewrite EP, zlen_app; change (zlen [l]) with 1; lia).
  set (Q' := <[0%nat := l]> Q).
  assert (x :: Q' ≡ₚ P) as HQ.
  { subst x Q'. rewrite EP. destruct Q as [|y Q]; [done |]. cbn. by rewrite (Permutation_app_comm Q [l]). }
  assert (zlen Q' = zlen P - 1) as EQ' by (subst Q'; by rewrite zlen_insert).
  assert (P ++ D = Q ++ l :: D) as EPD by (by rewrite EP, <- app_assoc).
  assert (exists f, <[0%nat := l]> (P ++ D) = f /\ f = Q' ++ l :: D) as (f & Ef & Ef').
  { eexists. split; [done |]. rewrite EPD. subst Q'. destruct Q; [done |]. by rewrite insert_app_l by (cbn; lia). }
  assert (zlen (Q' ++ l :: D) = zlen (P ++ D)) as El by (rewrite !zlen_app, zlen_cons; lia).
  assert (Forall (fun p => zlen P <= p < zlen (P ++ D)) Q' /\ l ∈ P) as [HrQ HlP].
  { split; [| rewrite EP; apply elem_of_app; right; left].
    apply Forall_forall. intros p Hp. rewrite Forall_forall in H4. apply H4. rewrite <- HQ. by right. }
  assert (heap_array Q' (l :: D)) as HA'.
  { split; [| lia | lia |].
    - rewrite EPD in H1. apply ints_only_app in H1 as [HiQ HiD]. apply ints_only_app. split; [| done].
      apply ints_only_insert; [done |]. by inversion HiD.
    - rewrite El. eapply Forall_impl; [exact HrQ |]. cbn. lia. }
  assert (forall p, zlen P <= p -> weight (zlen Q') (l :: D) p = weight (zlen P) D p) as HW.
  { intros p Hp. unfold weight. rewrite EQ'. unfold cell. replace (Z.to_nat (p - (zlen P - 1))) with (S (Z.to_nat (p - zlen P))) by lia. done. }
  assert (heap_from (weight (zlen Q') (l :: D)) 2 Q') as Ho'.
  { apply (heap_from_ext (weight (zlen P) D)).
    - intros p Hp. apply HW. rewrite Forall_forall in HrQ. by apply HrQ, Hp.
    - intros p i Hp Hp2 Hc Hi. assert (forall j, 2 <= j <= zlen Q' -> cell Q' (j - 1) = cell P (j - 1)) as Ec.
      { intros j Hj. subst Q'. rewrite EP, cell_app_l by lia. change 0%nat with (Z.to_nat 0).
        rewrite cell_insert by lia. by rewrite (proj2 (Z.eqb_neq _ _)) by lia. }
      unfold key, child_of in *. rewrite !Ec by lia. apply Ho; unfold child_of; lia. }
  pose proof HA' as [G1 G2 G3 G4]. unfold remove_top.
  pose proof (zlen_nonneg D).
  rewrite hget_cell by (rewrite ?zlen_app; done || lia). rewrite cell_app_l by lia. fold x. res_cbn.
  assert (aget (P ++ D) (zlen P - 1) = Ok l) as -> by (rewrite EPD; apply aget_middle; lia). res_cbn.
  rewrite aset_Ok by (rewrite zlen_app; lia). change (Z.to_nat 0) with 0%nat. rewrite Ef, Ef'. res_cbn.
  destruct (sift_ok Q' (l :: D) G1 G2 G3 G4 1 ltac:(lia) Ho') as (P' & sw & E & HP' & Ho'').
  rewrite EQ' in E. rewrite E. res_cbn. cbn [fst]. exists x, P', l. split; [done |].
  destruct (heap_array_perm Q' P' (l :: D) HP' HA') as [HA'' _].
  split; [by rewrite HP' |]. split; [done |]. split.
  - eapply heap_from_ext; [| exact Ho'']. intros p Hp. symmetry. apply HW. rewrite HP' in Hp.
    rewrite Forall_forall in HrQ. by apply HrQ, Hp.
  - intros p Hp. apply (heap_top_elem (weight (zlen P) D) P p Ho Hp).
Qed.

(** Swapping up the last element. *)
Section SwapUp.
Context (P0 D : list Z) (HA : heap_array P0 D).
#[local] Abbreviation W := (weight (zlen P0) D).

Definition swap_up_inv (P : list Z) (cur : Z) : Prop :=
  P ≡ₚ P0 /\ 1 <= cur <= zlen P0 /\
  (forall p i, 1 <= p -> i <> cur -> child_of p i -> i <= zlen P0 -> key W P p <= key W P i) /\
  (forall q i, 1 <= q -> child_of q cur -> child_of cur i -> i <= zlen P0 -> key W P q <= key W P i).

Lemma swap_up_inv_swap P p cur :
  swap_up_inv P cur -> child_of p cur -> 1 <= p -> key W P cur < key W P p -> swap_up_inv (swap P p cur) p.
Proof using HA.
  intros (HP & Hc & Hord & Hup) Hpc Hp Hlt. destruct (heap_array_perm P0 P D HP HA) as [_ E].
  assert (p < cur) by (unfold child_of in Hpc; lia).
  split; [rewrite swap_Permutation by lia; done |]. split; [lia |]. split.
  - intros q i Hq Hip Hqi Hi. assert (1 <= i) by (unfold child_of in Hqi; lia). rewrite !key_swap by lia.
    destruct (Z.eqb_spec i p); [done |]. destruct (Z.eqb_spec q p) as [->|Hqp].
    + destruct (Z.eqb_spec i cur); [lia |]. etransitivity; [apply Z.lt_le_incl, Hlt | by apply Hord].
    + destruct (Z.eqb_spec q cur) as [->|Hqc].
      * destruct (Z.eqb_spec i cur); [unfold child_of in Hqi; lia | by apply (Hup p i)].
      * destruct (Z.eqb_spec i cur) as [->|]; [unfold child_of in *; lia | by apply Hord].
  - intros q i Hq Hqp Hpi Hi. assert (1 <= i) by (unfold child_of in Hpi; lia). rewrite !key_swap by lia.
    assert (key W P q <= key W P p) as Hqp' by (apply Hord; unfold child_of in *; lia).
    destruct (Z.eqb_spec q p); [unfold child_of in Hqp; lia |]. destruct (Z.eqb_spec i p); [unfold child_of in Hpi; lia |].
    destruct (Z.eqb_spec q cur); [unfold child_of in *; lia |]. destruct (Z.eqb_spec i cur); [done |].
    etransitivity; [exact Hqp' | by apply Hord].
Qed.

Lemma shiftr_parent cur : 2 <= cur -> child_of (Z.shiftr cur 1) cur /\ 1 <= Z.shiftr cur 1 < cur.
Proof using. rewrite Z.shiftr_div_pow2, Z.pow_1_r by lia. unfold child_of. intros. Z.div_mod_to_equations. lia. Qed.

Lemma swap_up_round_ok P cur :
  swap_up_inv P cur ->
  (exists P', swap_up_round (P ++ D, Z.shiftr cur 1, cur) =
      Ok (inl (P' ++ D, Z.shiftr (Z.shiftr cur 1) 1, Z.shiftr cur 1)) /\
     swap_up_inv P' (Z.shiftr cur 1) /\ 1 <= Z.shiftr cur 1 < cur) \/
  (swap_up_round (P ++ D, Z.shiftr cur 1, cur) = Ok (inr (P ++ D)) /\ heap_from W 1 P).
Proof using HA.
  intros HI. pose proof HI as (HP & Hc & Hord & Hup). pose proof HA as [H1 H2 H3 H4].
  destruct (heap_array_perm P0 P D HP HA) as [[G1 G2 G3 G4] E]. unfold swap_up_round.
  pose proof (zlen_nonneg D). rewrite zlen_app in *.
  destruct (Z.ltb_spec 0 (Z.shiftr cur 1)) as [Hpar|Hpar].
  - destruct (shiftr_parent cur) as [Hch Hpl].
    { destruct (Z.eq_dec cur 1) as [->|]; [done | lia]. }
    set (p := Z.shiftr cur 1) in *.
    pose proof (Forall_lookup_1 _ _ _ _ G4 (lookup_cell P (p - 1) ltac:(lia))) as Rp. cbn in Rp.
    assert (forall i, 1 <= i <= zlen P0 -> aget (P ++ D) (i - 1) = Ok (cell P (i - 1)) /\
              aget (P ++ D) (cell P (i - 1)) = Ok (key W P i)) as Hget.
    { intros i Hi. pose proof (Forall_lookup_1 _ _ _ _ G4 (lookup_cell P (i - 1) ltac:(lia))) as Hci. cbn in Hci.
      rewrite E in Hci. split.
      - rewrite aget_cell, cell_app_l by (rewrite ?zlen_app; lia). done.
      - rewrite aget_cell, cell_app_r by (rewrite ?zlen_app; lia). unfold key, weight. by rewrite E. }
    destruct (Hget p ltac:(lia)) as [-> A2]. res_cbn. rewrite A2. res_cbn.
    destruct (Hget cur ltac:(lia)) as [-> A4]. res_cbn. rewrite A4. res_cbn.
    destruct (Z.ltb_spec (key W P cur) (key W P p)) as [Hlt|Hge].
    + left. exists (swap P p cur). rewrite s32_small by lia.
      rewrite aset_Ok by (rewrite zlen_app; lia). res_cbn.
      rewrite hset_Ok by (rewrite ?zlen_insert, ?zlen_app; lia). res_cbn. split.
      * unfold zlen in *. rewrite insert_app_l by lia. rewrite insert_app_l by (rewrite length_insert; lia).
        unfold swap. rewrite list_insert_insert_ne by lia. done.
      * split; [apply swap_up_inv_swap; done || lia | lia].
    + right. split; [done |]. intros q i Hq _ Hqi Hi. rewrite E in Hi.
      destruct (Z.eq_dec i cur) as [->|]; [| by apply Hord].
      assert (q = p) as -> by (unfold child_of in *; lia). done.
  - right. split; [done |]. intros q i Hq _ Hqi Hi. rewrite E in Hi.
    destruct (Z.eq_dec i cur) as [->|]; [| by apply Hord].
    destruct (shiftr_parent cur) as [_ ?]; [unfold child_of in Hqi; lia | lia].
Qed.

Lemma swap_up_ok :
  (forall p i, 1 <= p -> i <> zlen P0 -> child_of p i -> i <= zlen P0 -> key W P0 p <= key W P0 i) ->
  0 < zlen P0 ->
  exists P, loop swap_up_round fuel (P0 ++ D, Z.shiftr (zlen P0) 1, zlen P0) = Ok (P ++ D) /\
    P ≡ₚ P0 /\ heap_from W 1 P.
Proof using HA.
  intros Hord Hpos. pose proof HA as [H1 H2 H3 H4].
  loop_with (fun '(h, par, cur) => exists P, h = P ++ D /\ par = Z.shiftr cur 1 /\ swap_up_inv P cur)
    (fun h : list Z => exists P, h = P ++ D /\ P ≡ₚ P0 /\ heap_from W 1 P)
    (fun st : list Z * Z * Z => st.2) h E Hh.
  - intros [[h par] cur] (P & -> & -> & HI). cbn [snd]. pose proof HI as (HP & Hc & _). split; [lia |].
    destruct (swap_up_round_ok P cur HI) as [(P' & E & HI' & Hl)|[E Ho]]; rewrite E.
    + left. eexists. split; [reflexivity |]. split; [by exists P' | cbn [snd]; lia].
    + right. eexists. split; [reflexivity |]. by exists P.
  - exists P0. split; [done |]. split; [done |]. split; [done |]. split; [lia |]. split; [done |].
    intros q i Hq Hqc Hci Hi. unfold child_of in *. lia.
  - cbn [snd]. rewrite fuel_val. unfold INT_MAX in H3. lia.
  - destruct Hh as (P & -> & HP & Ho). by exists P.
Qed.
End SwapUp.
