(* ===== verification/HuffTree.v ===== *)
(** * The Huffman tree of cwb-huffcode

    What the three phases of the construction compute: a binary tree of [2 n - 1]
    nodes over the [n] items, in which every inner node has two children and
    the cells of the nodes hold their depths.  Because the two smallest nodes
    are merged in every round, a tree of height [k] needs a total frequency of
    [2 * fib (k + 2)]. *)

From Stdlib Require Import ZArith Lia.
From stdpp Require Import base tactics option list numbers gmap sorting.
From S2P Require Import Prelude Storage Attributes Huffcode HuffHeap.

Open Scope Z_scope.

(** ** Sums, pairs and Fibonacci numbers *)

Definition zsum (l : list Z) : Z := foldr Z.add 0 l.

Lemma zsum_cons x l : zsum (x :: l) = x + zsum l.
Proof. reflexivity. Qed.

Lemma zsum_app l k : zsum (l ++ k) = zsum l + zsum k.
Proof. induction l as [|x l IH]; [done |]. cbn [app]. rewrite !zsum_cons. lia. Qed.

#[export] Instance zsum_perm : Proper ((≡ₚ) ==> eq) zsum.
Proof. intros l k H. induction H; rewrite ?zsum_cons; lia. Qed.

Lemma zsum_nonneg l : Forall (fun x => 0 <= x) l -> 0 <= zsum l.
Proof. induction 1; [done |]. rewrite zsum_cons. lia. Qed.

Lemma zsum_elem l x : Forall (fun x => 0 <= x) l -> x ∈ l -> x <= zsum l.
Proof.
  intros Hl Hx. apply list_elem_of_split in Hx as (l1 & l2 & ->). apply Forall_app in Hl as [H1 H2].
  inversion_clear H2. rewrite zsum_app, zsum_cons. pose proof (zsum_nonneg l1 H1).
  pose proof (zsum_nonneg l2 ltac:(done)). lia.
Qed.

(** Every element twice. *)
Definition dup (l : list Z) : list Z := l ≫= fun p => [p; p].

Lemma elem_of_dup p l : p ∈ dup l <-> p ∈ l.
Proof.
  unfold dup. rewrite list_elem_of_bind. split.
  - intros (y & Hp & Hy). apply elem_of_cons in Hp as [-> | Hp]; [done |].
    by apply list_elem_of_singleton in Hp as ->.
  - intros Hp. exists p. split; [left | done].
Qed.

Definition fib (n : nat) : Z := (Nat.iter n (fun p : Z * Z => (p.2, p.1 + p.2)) (0, 1)).1.

Lemma fib_step n : fib (S (S n)) = fib (S n) + fib n.
Proof. unfold fib. simpl. lia. Qed.

Lemma fib_nonneg n : 0 <= fib n /\ 0 <= fib (S n).
Proof. induction n as [|n [H1 H2]]; [split; vm_compute; discriminate |]. rewrite fib_step. lia. Qed.

Lemma fib_mono n m : (n <= m)%nat -> fib n <= fib m.
Proof.
  induction 1 as [|m _ IH]; [lia |]. destruct m as [|m].
  - pose proof (fib_nonneg 0). change (fib 0) with 0 in IH. change (fib 1) with 1. lia.
  - rewrite fib_step. pose proof (fib_nonneg m). lia.
Qed.

(** ** The forest

    During the construction the cells from [zlen P] on are the nodes of a
    forest.  Its roots are the elements of [P], their cells hold their weights;
    the cell of any other node holds the index of its parent.  [H] is the
    height of the nodes, [last] the weight of the greater of the two nodes
    merged last. *)
Abbreviation W P D := (weight (zlen P) D).

Record forest (n total : Z) (P D : list Z) (H : Z -> nat) (last : Z) : Prop := {
  fo_array : heap_array P D;
  fo_len : zlen P + zlen D = 2 * n;
  fo_roots : 1 <= zlen P <= n;
  fo_nodup : NoDup P;
  fo_order : heap_from (W P D) 1 P;
  fo_total : zsum (W P D <$> P) = total;
  fo_child : forall i, zlen P <= i < 2 * n -> i ∉ P ->
    zlen P <= W P D i < n /\ W P D i < i /\ (H i < H (W P D i))%nat;
  fo_pairs : W P D <$> filter (.∉ P) (seqZ (zlen P) (2 * n - zlen P)) ≡ₚ dup (seqZ (zlen P) (n - zlen P));
  fo_last : forall p, p ∈ P -> last <= W P D p;
  fo_fib : forall p, p ∈ P -> 2 * fib (H p + 2) <= W P D p;
  fo_last_fib : forall p, p ∈ P -> H p = 0%nat \/ 2 * fib (H p + 1) <= last
}.

(** *** The start *)

Lemma filter_none {A} (Q : A -> Prop) `{!forall x, Decision (Q x)} (l : list A) :
  (forall x, x ∈ l -> ~ Q x) -> filter Q l = [].
Proof.
  induction l as [|x l IH]; intros HQ; [done |]. rewrite filter_cons_False by (apply HQ; left).
  apply IH. intros y Hy. apply HQ. by right.
Qed.

Lemma filter_all {A} (Q : A -> Prop) `{!forall x, Decision (Q x)} (l : list A) :
  (forall x, x ∈ l -> Q x) -> filter Q l = l.
Proof.
  induction l as [|x l IH]; intros HQ; [done |]. rewrite filter_cons_True by (apply HQ; left).
  f_equal. apply IH. intros y Hy. apply HQ. by right.
Qed.

Lemma seqZ_zlen m n : 0 <= n -> zlen (seqZ m n) = n.
Proof. intros. unfold zlen. rewrite length_seqZ. lia. Qed.

Lemma forest_start n freqs :
  1 <= n -> zlen freqs = n -> Forall (fun w => 2 <= w) freqs -> zsum freqs <= INT_MAX -> 2 * n <= INT_MAX - 2 ->
  exists P, make_heap (seqZ n n ++ freqs) n = Ok (P ++ freqs) /\ zlen P = n /\
    forest n (zsum freqs) P freqs (fun _ => 0%nat) 0.
Proof.
  intros Hn Hl Hf Hs Hmax.
  assert (Forall (fun x => 0 <= x) freqs) as Hf0 by (eapply Forall_impl; [exact Hf | cbn; lia]).
  assert (heap_array (seqZ n n) freqs) as HA.
  { split.
    - apply ints_only_app. split; apply Forall_forall; intros x Hx.
      + apply elem_of_seqZ in Hx. lia.
      + split; [by apply (proj1 (Forall_forall _ _) Hf0) |]. pose proof (zsum_elem freqs x Hf0 Hx). lia.
    - rewrite zlen_app, seqZ_zlen by lia. lia.
    - rewrite seqZ_zlen by lia. lia.
    - rewrite zlen_app, seqZ_zlen by lia. apply Forall_forall. intros x Hx. apply elem_of_seqZ in Hx. lia. }
  destruct (make_heap_ok _ _ HA) as (P & E & HP & Ho). rewrite seqZ_zlen in E, Ho by lia.
  destruct (heap_array_perm _ P freqs HP HA) as [HA' El]. rewrite seqZ_zlen in El by lia.
  assert (forall i, n <= i < 2 * n -> i ∈ P) as Hall.
  { intros i Hi. rewrite HP. apply elem_of_seqZ. lia. }
  assert (W P freqs <$> seqZ n n = freqs) as EW.
  { apply list_eq_same_length with (n := length freqs).
    - done.
    - rewrite length_fmap. pose proof (seqZ_zlen n n ltac:(lia)). unfold zlen in *. lia.
    - intros i x y Hi Hx Hy. rewrite list_lookup_fmap in Hx.
      rewrite lookup_seqZ_lt in Hx by (unfold zlen in Hl; lia). cbn in Hx. injection Hx as <-.
      unfold weight. rewrite El. replace (n + Z.of_nat i - n) with (Z.of_nat i) by lia.
      rewrite (cell_lookup freqs (Z.of_nat i) y); [done | lia | by rewrite Nat2Z.id]. }
  exists P. split; [done |]. split; [done |]. split; try done.
  - by rewrite El, Hl, Z.add_diag.
  - lia.
  - rewrite HP. apply NoDup_seqZ.
  - by rewrite El.
  - rewrite El in EW |- *. by rewrite HP, EW.
  - intros i Hi Hni. rewrite El in Hi. by destruct Hni; apply Hall.
  - rewrite El, Z.sub_diag. replace (filter _ _) with (@nil Z); [done |]. symmetry.
    apply filter_none. intros x Hx. apply elem_of_seqZ in Hx. intros []. apply Hall. lia.
  - intros p Hp. unfold weight. rewrite El. rewrite HP in Hp. apply elem_of_seqZ in Hp.
    apply (Forall_lookup_1 _ _ _ _ Hf0 (lookup_cell freqs (p - n) ltac:(lia))).
  - intros p Hp. change (2 * fib (0 + 2)) with 2. unfold weight. rewrite El.
    rewrite HP in Hp. apply elem_of_seqZ in Hp.
    apply (Forall_lookup_1 _ _ _ _ Hf (lookup_cell freqs (p - n) ltac:(lia))).
  - intros p _. by left.
Qed.

(** *** One round *)

Lemma weight_shift h l D p : h <= p -> weight (h - 1) (l :: D) p = weight h D p.
Proof.
  intros Hp. unfold weight, cell. by replace (Z.to_nat (p - (h - 1))) with (S (Z.to_nat (p - h))) by lia.
Qed.

Lemma aset_app_r {A} (Q D : list A) i v :
  zlen Q <= i < zlen Q + zlen D -> aset (Q ++ D) i v = Ok (Q ++ <[Z.to_nat (i - zlen Q) := v]> D).
Proof.
  intros Hi. rewrite aset_Ok by (rewrite zlen_app; pose proof (zlen_nonneg Q); lia).
  unfold zlen in *. rewrite insert_app_r_alt by lia. do 3 f_equal. lia.
Qed.

(** The new forest. *)
Section Merge.
Context (n total : Z) (P D : list Z) (H : Z -> nat) (last : Z) (F : forest n total P D H last).
Context (Htot : total <= INT_MAX).
Context (x y : Z) (P2 : list Z) (Hxy : x :: y :: P2 ≡ₚ P).
Context (Hmin : W P D x <= W P D y) (Hmin2 : forall p, p ∈ P2 -> W P D y <= W P D p).
#[local] Abbreviation m := (zlen P).
#[local] Abbreviation w := (W P D).

Definition merged_cells : list Z :=
  (w x + w y) :: <[Z.to_nat (x - m) := m - 1]> (<[Z.to_nat (y - m) := m - 1]> D).

Definition merged_height (j : Z) : nat := if (j =? m - 1)%Z then S (Nat.max (H x) (H y)) else H j.

#[local] Abbreviation w' := (weight (m - 1) merged_cells).

Lemma merge_roots :
  zlen P = 2 + zlen P2 /\ x <> y /\ (x ∉ P2) /\ (y ∉ P2) /\ NoDup P2 /\
  (forall p, p ∈ P <-> p = x \/ p = y \/ p ∈ P2) /\ (forall p, p ∈ P -> m <= p < m + zlen D).
Proof using All.
  pose proof (fo_nodup _ _ _ _ _ _ F) as HN. rewrite <- Hxy in HN.
  apply NoDup_cons in HN as [Hx HN]. apply NoDup_cons in HN as [Hy HN].
  rewrite elem_of_cons in Hx. split.
  { unfold zlen. rewrite <- (Permutation_length Hxy). cbn [length]. lia. }
  split; [intros ->; auto |]. split; [auto |]. split; [done |]. split; [done |]. split.
  - intros p. rewrite <- Hxy, !elem_of_cons. done.
  - intros p Hp. pose proof (ha_range _ _ (fo_array _ _ _ _ _ _ F)) as Hr. rewrite zlen_app in Hr.
    by apply (proj1 (Forall_forall _ _) Hr).
Qed.

Lemma merged_weight j :
  m - 1 <= j ->
  w' j = if j =? m - 1 then w x + w y else if (j =? x) || (j =? y) then m - 1 else w j.
Proof using All.
  destruct merge_roots as (_ & _ & _ & _ & _ & Hel & Hr). intros Hj.
  pose proof (Hr x ltac:(apply Hel; auto)) as Hx. pose proof (Hr y ltac:(apply Hel; auto)) as Hy.
  unfold merged_cells. destruct (Z.eqb_spec j (m - 1)) as [->|Hne].
  - unfold weight at 1. by rewrite Z.sub_diag.
  - rewrite weight_shift by lia. unfold weight at 1.
    rewrite !cell_insert by (rewrite ?zlen_insert; lia).
    destruct (Z.eqb_spec (j - m) (x - m)), (Z.eqb_spec j x); try lia; [done |]. cbn [orb].
    destruct (Z.eqb_spec (j - m) (y - m)), (Z.eqb_spec j y); try lia; done.
Qed.

Lemma merged_weight_root p : p ∈ P2 -> w' p = w p.
Proof using All.
  destruct merge_roots as (_ & _ & Hx & Hy & _ & Hel & Hr). intros Hp.
  pose proof (Hr p ltac:(apply Hel; auto)). rewrite merged_weight by lia.
  rewrite (proj2 (Z.eqb_neq p (m - 1))) by lia.
  rewrite (proj2 (Z.eqb_neq p x)), (proj2 (Z.eqb_neq p y)) by (intros ->; done). done.
Qed.

(** The weights of the roots are not negative and small. *)
Lemma root_weights : (forall p, p ∈ P -> 0 <= w p) /\ 0 <= w x + w y <= total.
Proof using All.
  assert (forall p, p ∈ P -> 0 <= w p) as Hw.
  { intros p Hp. pose proof (fo_fib _ _ _ _ _ _ F p Hp). pose proof (fib_nonneg (H p + 2)). lia. }
  split; [done |]. pose proof (fo_total _ _ _ _ _ _ F) as Ht.
  assert (zsum (w <$> P) = zsum (w <$> x :: y :: P2)) as Hs.
  { generalize w. intros g. by rewrite Hxy. }
  rewrite Hs in Ht. cbn [fmap list_fmap] in Ht. rewrite !zsum_cons in Ht.
  destruct merge_roots as (_ & _ & _ & _ & _ & Hel & _).
  pose proof (Hw x ltac:(apply Hel; auto)). pose proof (Hw y ltac:(apply Hel; auto)).
  assert (0 <= zsum (w <$> P2)); [| lia].
  apply zsum_nonneg, Forall_fmap, Forall_forall. intros p Hp. apply Hw, Hel. auto.
Qed.

Lemma merged_pairs P' :
  P' ≡ₚ (m - 1) :: P2 ->
  w' <$> filter (.∉ P') (seqZ (m - 1) (2 * n - (m - 1))) ≡ₚ dup (seqZ (m - 1) (n - (m - 1))).
Proof using All.
  intros HP'. destruct merge_roots as (Hlen & Hne & Hx & Hy & HN & Hel & Hr).
  pose proof (fo_len _ _ _ _ _ _ F) as Hl. pose proof (fo_roots _ _ _ _ _ _ F) as Hroots.
  pose proof (Hr x ltac:(apply Hel; auto)) as Rx. pose proof (Hr y ltac:(apply Hel; auto)) as Ry.
  pose proof (zlen_nonneg P2).
  assert (filter (.∉ P') (seqZ (m - 1) (2 * n - (m - 1))) ≡ₚ x :: y :: filter (.∉ P) (seqZ m (2 * n - m))) as ->.
  { apply NoDup_Permutation.
    - apply NoDup_filter, NoDup_seqZ.
    - apply NoDup_cons. split.
      { rewrite elem_of_cons, list_elem_of_filter. intros [?|[Hn _]]; [done |]. apply Hn, Hel. auto. }
      apply NoDup_cons. split; [| apply NoDup_filter, NoDup_seqZ].
      rewrite list_elem_of_filter. intros [Hn _]. apply Hn, Hel. auto.
    - intros j. rewrite !elem_of_cons, !list_elem_of_filter, HP', elem_of_cons, !elem_of_seqZ, Hel. split.
      + intros [Hj1 Hj2]. destruct (decide (j = x)); [auto |]. destruct (decide (j = y)); [auto |].
        right. right. split; [tauto | lia].
      + intros [-> | [-> | [Hj1 Hj2]]].
        * split; [intros [?|?]; [lia | done] | lia].
        * split; [intros [?|?]; [lia | done] | lia].
        * split; [intros [?|?]; [lia | tauto] | lia]. }
  cbn [fmap list_fmap]. rewrite !merged_weight by lia.
  rewrite (proj2 (Z.eqb_neq x (m - 1))), (proj2 (Z.eqb_neq y (m - 1))), !Z.eqb_refl, orb_true_r by lia. cbn [orb].
  replace (n - (m - 1)) with (Z.succ (n - m)) by lia. rewrite (seqZ_cons (m - 1)) by lia.
  replace (Z.succ (m - 1)) with m by lia. replace (Z.pred (Z.succ (n - m))) with (n - m) by lia.
  change (dup (m - 1 :: seqZ m (n - m))) with ([m - 1; m - 1] ++ dup (seqZ m (n - m))). cbn [app].
  do 2 apply perm_skip. rewrite <- (fo_pairs _ _ _ _ _ _ F). apply reflexive_eq, list_fmap_ext.
  intros i j Hj. apply list_elem_of_lookup_2, list_elem_of_filter in Hj as [Hj Hs]. apply elem_of_seqZ in Hs.
  rewrite merged_weight by lia. rewrite Hel in Hj.
  rewrite (proj2 (Z.eqb_neq j (m - 1))), (proj2 (Z.eqb_neq j x)), (proj2 (Z.eqb_neq j y)) by (lia || tauto). done.
Qed.

Lemma merged_forest P' :
  P' ≡ₚ (m - 1) :: P2 -> heap_array P' merged_cells -> heap_from w' 1 P' ->
  forest n total P' merged_cells merged_height (w y).
Proof using All.
  intros HP' HA' Ho'. destruct merge_roots as (Hlen & Hne & Hx & Hy & HN & Hel & Hr).
  pose proof (fo_len _ _ _ _ _ _ F) as Hl. pose proof (fo_roots _ _ _ _ _ _ F) as Hroots.
  pose proof (Hr x ltac:(apply Hel; auto)) as Rx. pose proof (Hr y ltac:(apply Hel; auto)) as Ry.
  pose proof (zlen_nonneg P2) as HP2.
  assert (zlen P' = m - 1) as El.
  { unfold zlen at 1. rewrite (Permutation_length HP'). cbn [length]. unfold zlen in *. lia. }
  assert (forall p, p ∈ P' <-> p = m - 1 \/ p ∈ P2) as Hel' by (intros p; by rewrite HP', elem_of_cons).
  assert (merged_height (m - 1) = S (Nat.max (H x) (H y))) as Hh1 by (unfold merged_height; by rewrite Z.eqb_refl).
  assert (forall j, m <= j -> merged_height j = H j) as Hh.
  { intros j Hj. unfold merged_height. by rewrite (proj2 (Z.eqb_neq _ _)) by lia. }
  assert (w' (m - 1) = w x + w y) as Hw1 by (rewrite merged_weight, Z.eqb_refl by lia; done).
  assert (forall p, p ∈ P2 -> m <= p) as Hge by (intros p Hp; apply Hr, Hel; auto).
  destruct root_weights as [Hnn Hsum].
  pose proof (fo_last _ _ _ _ _ _ F) as Hlast. pose proof (fo_fib _ _ _ _ _ _ F) as Hfib.
  pose proof (fo_last_fib _ _ _ _ _ _ F) as Hlf.
  split.
  - done.
  - rewrite El. unfold merged_cells. rewrite zlen_cons, !zlen_insert. lia.
  - lia.
  - rewrite HP'. apply NoDup_cons. split; [| done]. intros Hp. apply Hge in Hp. lia.
  - by rewrite El.
  - rewrite El. transitivity (zsum (w' <$> (m - 1) :: P2)); [by rewrite HP' |].
    cbn [fmap list_fmap]. rewrite zsum_cons, Hw1. rewrite <- (fo_total _ _ _ _ _ _ F).
    transitivity (zsum (w <$> x :: y :: P2)); [| generalize w; intros g; by rewrite Hxy].
    cbn [fmap list_fmap]. rewrite !zsum_cons, Z.add_assoc. do 2 f_equal. apply list_fmap_ext.
    intros i p Hp. apply merged_weight_root. by eapply list_elem_of_lookup_2.
  - intros j Hj Hnj. rewrite El in *. rewrite Hel' in Hnj.
    assert (m <= j) as Hmj by (assert (j <> m - 1) by tauto; lia).
    rewrite merged_weight, (proj2 (Z.eqb_neq j (m - 1))), (Hh j) by lia.
    destruct (Z.eqb_spec j x) as [->|Hjx]; cbn [orb]; [rewrite Hh1; lia |].
    destruct (Z.eqb_spec j y) as [->|Hjy]; [rewrite Hh1; lia |].
    destruct (fo_child _ _ _ _ _ _ F j ltac:(lia)) as (Hc1 & Hc2 & Hc3); [rewrite Hel; tauto |].
    rewrite (Hh (w j)) by lia. lia.
  - rewrite El. by apply merged_pairs.
  - intros p Hp. rewrite El. apply Hel' in Hp as [-> | Hp].
    + rewrite Hw1. pose proof (Hnn x ltac:(apply Hel; auto)). lia.
    + rewrite merged_weight_root by done. by apply Hmin2.
  - intros p Hp. rewrite El. apply Hel' in Hp as [-> | Hp].
    + rewrite Hw1, Hh1. pose proof (Hfib x ltac:(apply Hel; auto)) as Fx. pose proof (Hfib y ltac:(apply Hel; auto)) as Fy.
      pose proof (Hlast x ltac:(apply Hel; auto)) as Lx. pose proof (Hlast y ltac:(apply Hel; auto)) as Ly.
      assert (forall a b ha, 2 * fib (ha + 2) <= a -> 2 <= b -> (ha = 0%nat \/ 2 * fib (ha + 1) <= b) ->
                2 * fib (S ha + 2) <= a + b) as Hstep.
      { intros a b ha Ha Hb Hor. replace (S ha + 2)%nat with (S (S (ha + 1))) by lia. rewrite fib_step.
        replace (S (ha + 1)) with (ha + 2)%nat by lia.
        destruct Hor as [-> | Hor]; [change (fib (0 + 1)) with 1 |]; lia. }
      assert (forall k, 2 <= 2 * fib (k + 2)) as Hf2.
      { intros k. change 2 with (2 * fib 2) at 1. apply Z.mul_le_mono_nonneg_l; [lia | apply fib_mono; lia]. }
      pose proof (Hf2 (H x)). pose proof (Hf2 (H y)).
      destruct (Nat.max_spec (H x) (H y)) as [[_ ->]|[_ ->]].
      * rewrite Z.add_comm. apply Hstep; [done | lia |].
        destruct (Hlf y ltac:(apply Hel; auto)); [auto | right; lia].
      * apply Hstep; [done | lia |]. destruct (Hlf x ltac:(apply Hel; auto)); [auto | right; lia].
    + rewrite merged_weight_root, Hh by auto. apply Hfib, Hel. auto.
  - intros p Hp. apply Hel' in Hp as [-> | Hp].
    + right. rewrite Hh1. replace (S (Nat.max (H x) (H y)) + 1)%nat with ((Nat.max (H x) (H y)) + 2)%nat by lia.
      pose proof (Hfib x ltac:(apply Hel; auto)) as Fx. pose proof (Hfib y ltac:(apply Hel; auto)) as Fy.
      destruct (Nat.max_spec (H x) (H y)) as [[_ ->]|[_ ->]]; lia.
    + rewrite Hh by auto. destruct (Hlf p ltac:(apply Hel; auto)) as [?|?]; [auto | right].
      pose proof (Hlast y ltac:(apply Hel; auto)). lia.
Qed.
End Merge.

(** The two removals. *)
Lemma two_smallest n total P D H last :
  forest n total P D H last -> 1 < zlen P ->
  exists x y P2 l1 l2 st,
    remove_top (P ++ D, zlen P) = Ok (x, st) /\
    remove_top st = Ok (y, (P2 ++ l2 :: l1 :: D, zlen P - 2)) /\
    x :: y :: P2 ≡ₚ P /\ heap_array P2 (l2 :: l1 :: D) /\ heap_from (W P D) 1 P2 /\
    W P D x <= W P D y /\ (forall p, p ∈ P2 -> W P D y <= W P D p).
Proof.
  intros F Hm. pose proof (fo_array _ _ _ _ _ _ F) as HA.
  assert (P <> []) as Hne by (intros ->; change (zlen (@nil Z)) with 0 in Hm; lia).
  destruct (remove_top_ok P D HA Hne (fo_order _ _ _ _ _ _ F)) as (x & P1 & l1 & E1 & Hp1 & HA1 & Ho1 & Hx).
  assert (zlen P1 = zlen P - 1) as El by (unfold zlen; rewrite <- (Permutation_length Hp1); cbn [length]; lia).
  assert (forall p, p ∈ P1 -> zlen P <= p) as Hge.
  { intros p Hp. apply (proj1 (Forall_forall _ _) (ha_range _ _ HA)). rewrite <- Hp1. by right. }
  assert (forall p, p ∈ P1 -> W P1 (l1 :: D) p = W P D p) as HW.
  { intros p Hp. rewrite El. apply weight_shift. by apply Hge. }
  assert (P1 <> []) as Hne1 by (intros ->; change (zlen (@nil Z)) with 0 in El; lia).
  destruct (remove_top_ok P1 (l1 :: D) HA1 Hne1) as (y & P2 & l2 & E2 & Hp2 & HA2 & Ho2 & Hy).
  { by apply (heap_from_ext (W P D)). }
  assert (forall p, p ∈ P2 -> p ∈ P1) as Hsub by (intros p Hp; rewrite <- Hp2; by right).
  assert (y ∈ P1) as Hy1 by (rewrite <- Hp2; left).
  exists x, y, P2, l1, l2, (P1 ++ l1 :: D, zlen P - 1).
  split; [done |]. rewrite El in E2. replace (zlen P - 2) with (zlen P - 1 - 1) by lia. split; [done |].
  split; [by rewrite Hp2 |]. split; [done |]. split.
  - eapply heap_from_ext; [| exact Ho2]. intros p Hp. symmetry. apply HW. auto.
  - split; [apply Hx; rewrite <- Hp1; by right |]. intros p Hp.
    rewrite <- !HW by auto. apply Hy. auto.
Qed.

Lemma merge_round_ok n total P D H last :
  forest n total P D H last -> total <= INT_MAX -> 1 < zlen P ->
  exists P' D' H' last', merge_round (P ++ D, zlen P) = Ok (inl (P' ++ D', zlen P')) /\
    zlen P' = zlen P - 1 /\ forest n total P' D' H' last'.
Proof.
  intros F Htot Hm. unfold merge_round. rewrite (proj2 (Z.ltb_lt 1 (zlen P))) by done.
  destruct (two_smallest n total P D H last F Hm) as (x & y & P2 & l1 & l2 & st & E1 & E2 & Hxy & HA2 & Ho2 & Hmin & Hmin2).
  rewrite E1, bind_Ok. cbv beta iota zeta. rewrite E2, bind_Ok. cbv beta iota zeta.
  destruct (merge_roots n total P D H last F Htot x y P2 Hxy Hmin Hmin2) as (Hlen & Hne & Hx & Hy & HN & Hel & Hr).
  destruct (root_weights n total P D H last F Htot x y P2 Hxy Hmin Hmin2) as [Hnn Hsum].
  pose proof (ha_max _ _ (fo_array _ _ _ _ _ _ F)) as Hmax. rewrite zlen_app in Hmax.
  pose proof (ha_twice _ _ (fo_array _ _ _ _ _ _ F)) as Htw.
  pose proof (Hr x ltac:(apply Hel; auto)) as Rx. pose proof (Hr y ltac:(apply Hel; auto)) as Ry.
  pose proof (zlen_nonneg P2) as H2. set (m := zlen P) in *. set (w := weight m D) in *.
  rewrite aset_middle by lia. res_cbn. replace (u32 (m - 2 + 1)) with (m - 1)
    by (rewrite u32_small by (unfold INT_MAX in *; lia); lia).
  assert (P2 ++ (m - 1) :: l1 :: D = (P2 ++ [m - 1]) ++ l1 :: D) as -> by (by rewrite <- app_assoc).
  set (Q := P2 ++ [m - 1]).
  assert (zlen Q = m - 1) as EQ by (subst Q; rewrite zlen_app; change (zlen [m - 1]) with 1; lia).
  assert (forall p v k, m <= p < m + zlen D -> aget (Q ++ k :: v) p = aget v (p - m)) as Hget.
  { intros p v k Hp. unfold aget. rewrite (proj2 (Z.ltb_ge p 0)), (proj2 (Z.ltb_ge (p - m) 0)) by lia.
    rewrite lookup_app_r by (unfold zlen in *; lia).
    replace (Z.to_nat p - length Q)%nat with (S (Z.to_nat (p - m))) by (unfold zlen in *; lia). done. }
  rewrite (Hget x) by lia. rewrite (aget_cell D (x - m)) by lia. res_cbn.
  rewrite (Hget y) by lia. rewrite (aget_cell D (y - m)) by lia. res_cbn.
  change (cell D (x - m)) with (w x). change (cell D (y - m)) with (w y).
  rewrite aset_middle by lia. res_cbn. rewrite u32_small by (unfold INT_MAX in *; lia).
  assert (forall p v k u, m <= p < m + zlen v -> aset (Q ++ k :: v) p u = Ok (Q ++ k :: <[Z.to_nat (p - m) := u]> v)) as Hset.
  { intros p v k u Hp. rewrite aset_app_r by (rewrite zlen_cons; lia).
    replace (Z.to_nat (p - zlen Q)) with (S (Z.to_nat (p - m))) by lia. done. }
  rewrite Hset by lia. res_cbn. rewrite Hset by (rewrite zlen_insert; lia). res_cbn.
  change ((w x + w y) :: <[Z.to_nat (x - m) := m - 1]> (<[Z.to_nat (y - m) := m - 1]> D))
    with (merged_cells P D x y).
  set (D' := merged_cells P D x y).
  assert (heap_array Q D') as HAQ.
  { pose proof HA2 as [G1 G2 G3 G4]. rewrite !zlen_app, !zlen_cons in *.
    apply ints_only_app in G1 as [G1 G1']. inversion_clear G1' as [|? ? _ G1'']. inversion_clear G1'' as [|? ? _ G1'].
    split.
    - apply ints_only_app. split.
      + apply ints_only_app. split; [done |]. constructor; [lia | constructor].
      + apply Forall_cons. split; [change (0 <= w x + w y <= INT_MAX); lia |].
        apply ints_only_insert; [apply ints_only_insert; [done | lia] | lia].
    - subst D'. unfold merged_cells. rewrite zlen_app, zlen_cons, !zlen_insert. lia.
    - lia.
    - subst D'. unfold merged_cells. rewrite zlen_app, zlen_cons, !zlen_insert, EQ. apply Forall_app. split.
      + apply Forall_forall. intros p Hp. pose proof (Hr p ltac:(apply Hel; auto)). lia.
      + constructor; [lia | constructor]. }
  replace (m - 2 + 1) with (zlen Q) by lia.
  destruct (swap_up_ok Q D' HAQ) as (P' & E & HP' & Ho').
  - intros p i Hp Hi Hc Hil. rewrite EQ in *. unfold key.
    assert (forall j, 1 <= j <= m - 2 -> cell Q (j - 1) = cell P2 (j - 1) /\ cell P2 (j - 1) ∈ P2) as Hj.
    { intros j Hj. split; [subst Q; rewrite cell_app_l by lia; done |].
      eapply list_elem_of_lookup_2, lookup_cell. lia. }
    unfold child_of in Hc. destruct (Hj p ltac:(lia)) as [-> J1]. destruct (Hj i ltac:(lia)) as [-> J2].
    rewrite !(merged_weight_root n total P D H last F Htot x y P2 Hxy Hmin Hmin2) by done.
    apply (Ho2 p i Hp Hp Hc). lia.
  - lia.
  - rewrite E, bind_Ok. exists P', D', (merged_height P H x y), (w y).
    assert (zlen P' = zlen Q) as El' by (unfold zlen; by rewrite (Permutation_length HP')).
    rewrite El'. split; [done |]. split; [lia |].
    destruct (heap_array_perm Q P' D' HP' HAQ) as [HA' _]. rewrite EQ in Ho'.
    apply (merged_forest n total P D H last F Htot x y P2 Hxy Hmin Hmin2 P'); [| done | done].
    rewrite HP'. subst Q. by rewrite Permutation_app_comm.
Qed.

Lemma merge_loop n total P D H last :
  forest n total P D H last -> total <= INT_MAX ->
  exists D' H' last', loop merge_round fuel (P ++ D, zlen P) = Ok (1 :: D') /\
    forest n total [1] D' H' last'.
Proof.
  intros F Htot.
  loop_with (fun '(heap, h) => exists P D H last, heap = P ++ D /\ h = zlen P /\ forest n total P D H last)
    (fun heap : list Z => exists D' H' last', heap = 1 :: D' /\ forest n total [1] D' H' last')
    (fun st : list Z * Z => st.2) heap E Hh.
  - intros [heap h] (P1 & D1 & H1 & last1 & -> & -> & F1). cbn [snd]. pose proof (fo_roots _ _ _ _ _ _ F1) as Hr.
    split; [lia |]. destruct (Z.ltb_spec 1 (zlen P1)) as [Hlt|Hge].
    + left. destruct (merge_round_ok n total P1 D1 H1 last1 F1 Htot Hlt) as (P2 & D2 & H2 & last2 & E & El & F2).
      eexists. split; [exact E |]. split; [by exists P2, D2, H2, last2 | cbn [snd]; lia].
    + right. unfold merge_round. rewrite (proj2 (Z.ltb_ge 1 (zlen P1))) by done. eexists. split; [reflexivity |].
      destruct P1 as [|p [|q P1]]; [change (zlen (@nil Z)) with 0 in Hr; lia | |
        rewrite !zlen_cons in Hge; pose proof (zlen_nonneg P1); lia].
      destruct (decide (p = 1)) as [->|Hp]; [by exists D1, H1, last1 |]. exfalso.
      change (zlen [p]) with 1 in *.
      destruct (fo_child _ _ _ _ _ _ F1 1) as (Hc1 & Hc2 & _).
      * change (zlen [p]) with 1. lia.
      * rewrite list_elem_of_singleton. auto.
      * change (zlen [p]) with 1 in *. lia.
  - by exists P, D, H, last.
  - cbn [snd]. rewrite fuel_val. pose proof (ha_twice _ _ (fo_array _ _ _ _ _ _ F)). unfold INT_MAX in *. lia.
  - destruct Hh as (D' & H' & last' & -> & F'). by exists D', H', last'.
Qed.

(** ** Depths *)

(** A binary tree with the root 1, the inner nodes below [n] and the leaves [n],
    ..., [2 n - 1]: [par] is the parent of a node, [d] its depth, at most [k]. *)
Record huff_tree (n : Z) (d par : Z -> Z) (k : nat) : Prop := {
  ht_root : d 1 = 0;
  ht_child : forall i, 2 <= i < 2 * n -> 1 <= par i < n /\ par i < i /\ d i = d (par i) + 1;
  ht_pairs : par <$> seqZ 2 (2 * n - 2) ≡ₚ dup (seqZ 1 (n - 1));
  ht_depth : forall i, 1 <= i < 2 * n -> 0 <= d i <= Z.of_nat k /\ d i < i
}.

Section Depths.
Context (n total : Z) (D : list Z) (H : Z -> nat) (last : Z) (F : forest n total [1] D H last).

Lemma root_facts :
  zlen D = 2 * n - 1 /\ 1 <= n /\ 2 * n <= INT_MAX /\
  (forall i, 2 <= i < 2 * n -> 1 <= cell D (i - 1) < n /\ cell D (i - 1) < i /\ (H i < H (cell D (i - 1)))%nat) /\
  (fun i => cell D (i - 1)) <$> seqZ 2 (2 * n - 2) ≡ₚ dup (seqZ 1 (n - 1)) /\
  2 * fib (H 1 + 2) <= total.
Proof using F.
  pose proof (fo_len _ _ _ _ _ _ F) as Hl. pose proof (fo_roots _ _ _ _ _ _ F) as Hr.
  pose proof (ha_max _ _ (fo_array _ _ _ _ _ _ F)) as Hm. rewrite zlen_app in Hm.
  change (zlen [1]) with 1 in *. split; [lia |]. split; [lia |]. split; [lia |]. split; [| split].
  - intros i Hi. apply (fo_child _ _ _ _ _ _ F i); [change (zlen [1]) with 1; lia |].
    rewrite list_elem_of_singleton. lia.
  - pose proof (fo_pairs _ _ _ _ _ _ F) as Hp. change (zlen [1]) with 1 in Hp. rewrite <- Hp.
    rewrite (seqZ_cons 1) by lia. rewrite filter_cons_False by (intros Hn; apply Hn; left).
    change (Z.succ 1) with 2. replace (Z.pred (2 * n - 1)) with (2 * n - 2) by lia.
    rewrite filter_all; [done |]. intros x Hx. apply elem_of_seqZ in Hx.
    rewrite list_elem_of_singleton. lia.
  - pose proof (fo_fib _ _ _ _ _ _ F 1 ltac:(left)) as Hf. pose proof (fo_total _ _ _ _ _ _ F) as Ht.
    change (zsum (W [1] D <$> [1])) with (W [1] D 1 + 0) in Ht. lia.
Qed.

Lemma tree_depths_ok :
  exists heap, tree_depths (1 :: D) n = Ok heap /\ zlen heap = 2 * n /\
    huff_tree n (cell heap) (fun i => cell D (i - 1)) (H 1) /\ 2 * fib (H 1 + 2) <= total.
Proof using F.
  destruct root_facts as (Hl & Hn & Hmax & Hc & Hp & Hf). unfold tree_depths.
  assert (zlen (1 :: D) = 2 * n) as El by (rewrite zlen_cons; lia).
  rewrite aset_Ok by lia. res_cbn. rewrite aset_Ok by (rewrite zlen_insert; lia). res_cbn.
  destruct (for_up_rule depth_round (fun i l => zlen l = 2 * n /\
      (forall j, i <= j < 2 * n -> cell l j = cell D (j - 1)) /\ cell l 1 = 0 /\
      (forall j, 2 <= j < i -> cell l j = cell l (cell D (j - 1)) + 1) /\
      (forall j, 1 <= j < i -> 0 <= cell l j <= Z.of_nat (H 1) - Z.of_nat (H j) /\ cell l j < j))
    2 (n * 2) (<[Z.to_nat 1 := 0]> (<[Z.to_nat 0 := u32 (-1)]> (1 :: D))))
    as (heap & E & El' & _ & H1 & H2 & H3).
  - lia.
  - intros i l Hi (L1 & L2 & L3 & L4 & L5). unfold depth_round.
    destruct (Hc i ltac:(lia)) as (C1 & C2 & C3). set (p := cell D (i - 1)) in *.
    rewrite aget_cell, L2 by lia. res_cbn. fold p. rewrite aget_cell by lia. res_cbn.
    destruct (L5 p ltac:(lia)) as [L6 L7]. rewrite u32_small by (unfold INT_MAX in *; lia).
    rewrite aset_Ok by lia. eexists. split; [reflexivity |].
    assert (forall j, 0 <= j -> cell (<[Z.to_nat i := cell l p + 1]> l) j = if j =? i then cell l p + 1 else cell l j)
      as Hcell by (intros; apply cell_insert; lia).
    split; [by rewrite zlen_insert |]. split; [| split; [| split]].
    + intros j Hj. rewrite Hcell, (proj2 (Z.eqb_neq j i)) by lia. apply L2. lia.
    + rewrite Hcell, (proj2 (Z.eqb_neq 1 i)) by lia. done.
    + intros j Hj. destruct (Hc j ltac:(lia)) as (J1 & J2 & J3). rewrite !Hcell by lia.
      rewrite (proj2 (Z.eqb_neq (cell D (j - 1)) i)) by lia. destruct (Z.eqb_spec j i) as [->|]; [done | apply L4; lia].
    + intros j Hj. rewrite Hcell by lia. destruct (Z.eqb_spec j i) as [->|]; [lia | apply L5; lia].
  - split; [by rewrite !zlen_insert |].
    assert (forall j, 0 <= j -> cell (<[Z.to_nat 1 := 0]> (<[Z.to_nat 0 := u32 (-1)]> (1 :: D))) j =
      if j =? 1 then 0 else if j =? 0 then u32 (-1) else cell (1 :: D) j) as Hcell.
    { intros j Hj. rewrite cell_insert by (rewrite ?zlen_insert; lia). by rewrite cell_insert by lia. }
    split; [| split; [| split]].
    + intros j Hj. rewrite Hcell, (proj2 (Z.eqb_neq j 1)), (proj2 (Z.eqb_neq j 0)) by lia.
      unfold cell. by replace (Z.to_nat j) with (S (Z.to_nat (j - 1))) by lia.
    + by rewrite Hcell by lia.
    + lia.
    + intros j Hj. replace j with 1 by lia. rewrite Hcell by lia. change (1 =? 1) with true. cbv iota. lia.
  - rewrite E. exists heap. split; [done |]. split; [done |]. split; [| done]. split; [done | | done |].
    + intros i Hi. destruct (Hc i Hi) as (C1 & C2 & _). split; [done |]. split; [done |]. apply H2. lia.
    + intros i Hi. destruct (H3 i ltac:(lia)). lia.
Qed.
End Depths.

(** The construction as a whole. *)
Lemma huffman_depths_ok n freqs :
  1 <= n -> zlen freqs = n -> Forall (fun w => 2 <= w) freqs -> zsum freqs <= INT_MAX -> 2 * n <= INT_MAX - 2 ->
  exists heap par k, huffman_depths (seqZ n n ++ freqs) n = Ok heap /\ zlen heap = 2 * n /\
    huff_tree n (cell heap) par k /\ 2 * fib (k + 2) <= zsum freqs.
Proof.
  intros Hn Hl Hf Hs Hmax. unfold huffman_depths.
  destruct (forest_start n freqs Hn Hl Hf Hs Hmax) as (P & E1 & El & F). rewrite E1. res_cbn.
  destruct (merge_loop n (zsum freqs) P freqs _ 0 F Hs) as (D & H & last & E2 & F').
  rewrite El in E2. rewrite E2. res_cbn. destruct (tree_depths_ok n (zsum freqs) D H last F') as (heap & E3 & E4 & T & Hfib).
  exists heap, (fun i => cell D (i - 1)), (H 1). done.
Qed.
