(* ===== verification/HuffCanon.v ===== *)
(** * Canonical codes of cwb-huffcode

    From the depths of the leaves to the tables of the descriptor block.  The
    number of inner nodes of depth [l] is the smallest code of length [l]; the
    items with codes of one length get consecutive codes in the order of their
    ids.  Every proper prefix of a code is smaller than the smallest code of
    its length, which is how the decoder knows where a code ends. *)

From Stdlib Require Import ZArith Lia.
From stdpp Require Import base tactics option list numbers gmap sorting.
From S2P Require Import Prelude Bits Storage Attributes Huffcode HuffHeap HuffTree.

Open Scope Z_scope.

(** ** Counting *)

Definition cnt (l : Z) (xs : list Z) : Z := zlen (filter (fun x => x = l) xs).
Definition below (l : Z) (xs : list Z) : Z := zlen (filter (fun x => x < l) xs).

Lemma cnt_nil l : cnt l [] = 0.
Proof. reflexivity. Qed.

Lemma cnt_cons l x xs : cnt l (x :: xs) = (if decide (x = l) then 1 else 0) + cnt l xs.
Proof. unfold cnt. rewrite filter_cons. destruct (decide _); [by rewrite zlen_cons | done]. Qed.

Lemma below_cons l x xs : below l (x :: xs) = (if decide (x < l) then 1 else 0) + below l xs.
Proof. unfold below. rewrite filter_cons. destruct (decide _); [by rewrite zlen_cons | done]. Qed.

Lemma cnt_app l xs ys : cnt l (xs ++ ys) = cnt l xs + cnt l ys.
Proof. unfold cnt. by rewrite filter_app, zlen_app. Qed.

#[export] Instance cnt_perm l : Proper ((≡ₚ) ==> eq) (cnt l).
Proof.
  intros xs ys H. unfold cnt, zlen. f_equal. apply Permutation_length. by rewrite H.
Qed.

Lemma cnt_bound l xs : 0 <= cnt l xs <= zlen xs.
Proof.
  induction xs as [|x xs IH]; [done |]. rewrite cnt_cons, zlen_cons. destruct (decide _); lia.
Qed.

Lemma below_bound l xs : 0 <= below l xs.
Proof. apply zlen_nonneg. Qed.

Lemma below_succ l xs : below (l + 1) xs = below l xs + cnt l xs.
Proof.
  induction xs as [|x xs IH]; [done |]. rewrite !below_cons, cnt_cons, IH.
  repeat destruct (decide _); lia.
Qed.

Lemma below_mono l m xs : l <= m -> below l xs <= below m xs.
Proof.
  intros Hlm. induction xs as [|x xs IH]; [done |]. rewrite !below_cons.
  repeat destruct (decide _); lia.
Qed.

Lemma below_le l xs : below l xs <= zlen xs.
Proof.
  induction xs as [|x xs IH]; [done |]. rewrite below_cons, zlen_cons. destruct (decide _); lia.
Qed.

Lemma below_min l xs : Forall (fun x => l <= x) xs -> below l xs = 0.
Proof.
  induction 1 as [|x xs Hx Hxs IH]; [done |]. rewrite below_cons, IH. by rewrite decide_False by lia.
Qed.

Lemma cnt_zero l xs : l ∉ xs -> cnt l xs = 0.
Proof.
  intros Hl. unfold cnt. rewrite filter_none; [done |]. intros x Hx ->. done.
Qed.

Lemma cnt_dup l xs : cnt l (dup xs) = 2 * cnt l xs.
Proof.
  induction xs as [|x xs IH]; [done |]. change (dup (x :: xs)) with ([x; x] ++ dup xs).
  rewrite cnt_app, IH, !cnt_cons, cnt_nil. lia.
Qed.

Lemma fmap_dup (f : Z -> Z) xs : f <$> dup xs = dup (f <$> xs).
Proof.
  induction xs as [|x xs IH]; [done |]. change (dup (x :: xs)) with ([x; x] ++ dup xs).
  by rewrite fmap_app, IH.
Qed.

Lemma cnt_succ l xs : cnt l ((fun x => x + 1) <$> xs) = cnt (l - 1) xs.
Proof.
  induction xs as [|x xs IH]; [done |]. rewrite fmap_cons, !cnt_cons, IH. repeat destruct (decide _); lia.
Qed.

Lemma cnt_take_lt l xs i : 0 <= i < zlen xs -> cell xs i = l -> cnt l (take (Z.to_nat i) xs) < cnt l xs.
Proof.
  intros Hi Hc. rewrite <- (take_drop (Z.to_nat i) xs) at 2.
  rewrite (drop_S _ _ _ (lookup_cell xs i Hi)), cnt_app, cnt_cons, Hc, decide_True by done.
  pose proof (cnt_bound l (drop (S (Z.to_nat i)) xs)). lia.
Qed.

Lemma cnt_take_succ l xs i :
  0 <= i < zlen xs ->
  cnt l (take (Z.to_nat (i + 1)) xs) = cnt l (take (Z.to_nat i) xs) + (if decide (cell xs i = l) then 1 else 0).
Proof.
  intros Hi. replace (Z.to_nat (i + 1)) with (S (Z.to_nat i)) by lia.
  rewrite (take_S_r _ _ _ (lookup_cell xs i Hi)), cnt_app, cnt_cons, cnt_nil. lia.
Qed.

Lemma cnt_take_mono l xs i j :
  0 <= i <= j -> cnt l (take (Z.to_nat i) xs) <= cnt l (take (Z.to_nat j) xs).
Proof.
  intros Hij. rewrite <- (take_drop (Z.to_nat i) (take (Z.to_nat j) xs)), take_take, Nat.min_l, cnt_app by lia.
  pose proof (cnt_bound l (drop (Z.to_nat i) (take (Z.to_nat j) xs))). lia.
Qed.

(** ** Levels of the tree *)
Section Levels.
Context (n : Z) (d par : Z -> Z) (k : nat) (T : huff_tree n d par k) (Hn : 1 <= n).

(** The depths of the leaves, and the number of inner nodes of a level. *)
Definition leaf_depths : list Z := d <$> seqZ n n.
Definition inner (l : Z) : Z := cnt l (d <$> seqZ 1 (n - 1)).

Lemma all_depths : d <$> seqZ 1 (2 * n - 1) = (d <$> seqZ 1 (n - 1)) ++ leaf_depths.
Proof using Hn.
  unfold leaf_depths. rewrite <- fmap_app. replace (2 * n - 1) with ((n - 1) + n) by lia.
  rewrite seqZ_app by lia. by replace (1 + (n - 1)) with n by lia.
Qed.

Lemma level_split l : inner l + cnt l leaf_depths = (if decide (l = 0) then 1 else 0) + 2 * inner (l - 1).
Proof using All.
  unfold inner. rewrite <- cnt_app, <- all_depths, (seqZ_cons 1) by lia. rewrite fmap_cons, cnt_cons, (ht_root _ _ _ _ T).
  change (Z.succ 1) with 2. replace (Z.pred (2 * n - 1)) with (2 * n - 2) by lia.
  assert (d <$> seqZ 2 (2 * n - 2) = (fun x => x + 1) <$> (d <$> (par <$> seqZ 2 (2 * n - 2)))) as ->.
  { rewrite <- !list_fmap_compose. apply list_fmap_ext. intros i x Hx.
    apply list_elem_of_lookup_2, elem_of_seqZ in Hx. cbn. apply (ht_child _ _ _ _ T). lia. }
  rewrite cnt_succ, (ht_pairs _ _ _ _ T), fmap_dup, cnt_dup. repeat destruct (decide _); lia.
Qed.

Lemma inner_bound l : 0 <= inner l <= n - 1.
Proof using Hn.
  unfold inner. pose proof (cnt_bound l (d <$> seqZ 1 (n - 1))) as Hb.
  assert (zlen (d <$> seqZ 1 (n - 1)) = n - 1) as E by (unfold zlen; rewrite length_fmap, length_seqZ; lia). lia.
Qed.

Lemma leaf_depths_zlen : zlen leaf_depths = n.
Proof using Hn. unfold leaf_depths, zlen. rewrite length_fmap, length_seqZ. lia. Qed.

(** Below an inner node there is a leaf. *)
Lemma inner_leaf p : 1 <= p < n -> exists i, n <= i < 2 * n /\ d p < d i.
Proof using All.
  intros Hp. remember (Z.to_nat (n - p)) as m eqn:Hm. revert p Hp Hm.
  induction (lt_wf m) as [m _ IH]. intros p Hp ->.
  assert (p ∈ par <$> seqZ 2 (2 * n - 2)) as Hin.
  { rewrite (ht_pairs _ _ _ _ T), elem_of_dup, elem_of_seqZ. lia. }
  apply list_elem_of_fmap in Hin as (i & -> & Hi). apply elem_of_seqZ in Hi.
  destruct (ht_child _ _ _ _ T i ltac:(lia)) as (C1 & C2 & C3).
  destruct (Z.le_gt_cases n i) as [Hle|Hgt]; [exists i; lia |].
  destruct (IH (Z.to_nat (n - i)) ltac:(lia) i ltac:(lia) eq_refl) as (j & Hj & Hd). exists j. lia.
Qed.

Lemma inner_top l : Forall (fun x => x <= l) leaf_depths -> forall m, l <= m -> inner m = 0.
Proof using All.
  intros Hl m Hm. unfold inner. apply cnt_zero. intros Hin.
  apply list_elem_of_fmap in Hin as (p & -> & Hp). apply elem_of_seqZ in Hp.
  destruct (inner_leaf p ltac:(lia)) as (i & Hi & Hd).
  assert (d i <= l); [| lia]. apply (proj1 (Forall_forall _ _) Hl). unfold leaf_depths.
  apply list_elem_of_fmap. exists i. split; [done |]. apply elem_of_seqZ. lia.
Qed.

Lemma level_room : forall l, 0 <= l -> inner l + cnt l leaf_depths <= 2 ^ l.
Proof using All.
  apply natlike_ind.
  - rewrite level_split. change (0 - 1) with (-1). rewrite decide_True by done.
    assert (inner (-1) = 0) as ->; [| done]. unfold inner. apply cnt_zero. intros Hin.
    apply list_elem_of_fmap in Hin as (p & Hd & Hp). apply elem_of_seqZ in Hp.
    pose proof (ht_depth _ _ _ _ T p ltac:(lia)). lia.
  - intros l Hl IH. rewrite level_split, decide_False by lia.
    replace (Z.succ l - 1) with l by lia. rewrite Z.pow_succ_r by lia.
    pose proof (cnt_bound l leaf_depths). lia.
Qed.
End Levels.

(** ** Lengths *)

Lemma cell_ext l k : zlen l = zlen k -> (forall i, 0 <= i < zlen l -> cell l i = cell k i) -> l = k.
Proof.
  intros Hl Hc. apply (list_eq_same_length l k (length l)); [unfold zlen in Hl; lia | done |].
  intros i x y Hi Hx Hy. specialize (Hc (Z.of_nat i) ltac:(unfold zlen; lia)).
  rewrite (cell_lookup l _ x), (cell_lookup k _ y) in Hc; rewrite ?Nat2Z.id; done || lia.
Qed.

Lemma cell_replicate n x i : 0 <= i < Z.of_nat n -> cell (replicate n x) i = x.
Proof. intros Hi. apply cell_lookup; [lia |]. apply lookup_replicate_2. lia. Qed.

Lemma cell_elem l i : 0 <= i < zlen l -> cell l i ∈ l.
Proof. intros Hi. eapply list_elem_of_lookup_2, lookup_cell. done. Qed.

(** The greatest and the smallest element, [0] and [100] if there is none. *)
Definition extremes (xs : list Z) (mn mx : Z) : Prop :=
  (xs = [] /\ mx = 0 /\ mn = 100) \/ (mn ∈ xs /\ mx ∈ xs /\ Forall (fun x => mn <= x <= mx) xs).

Lemma extremes_snoc xs mn mx x :
  1 <= x <= 100 -> extremes xs mn mx ->
  extremes (xs ++ [x]) (if x <? mn then x else mn) (if mx <? x then x else mx).
Proof.
  intros Hx He. right. setoid_rewrite elem_of_app. setoid_rewrite list_elem_of_singleton.
  destruct He as [(-> & -> & ->)|(H1 & H2 & H3)].
  - rewrite (proj2 (Z.ltb_lt 0 x)) by lia. cbn [app].
    destruct (Z.ltb_spec x 100); (split; [right; lia |]; split; [auto |]; constructor; [lia | constructor]).
  - assert (mn <= mx) as Hle by (apply (proj1 (Forall_forall _ _) H3) in H1; lia).
    split; [destruct (x <? mn); auto |]. split; [destruct (mx <? x); auto |].
    apply Forall_app. split.
    + eapply Forall_impl; [exact H3 |]. cbn. intros y Hy. repeat case_Z; lia.
    + constructor; [| constructor]. repeat case_Z; lia.
Qed.

(** What [collect_lengths] sees of a leaf of depth [x]. *)
Definition fix_length (x : Z) : Z := if x =? 0 then 1 else x.

Section Collect.
Context (heap lens : list Z) (n : Z).
Context (Hl : zlen lens = n) (Hh : zlen heap = 2 * n) (Hn : n <= INT_MAX).
Context (Hpos : Forall (fun x => 1 <= x <= INT_MAX) lens).
Context (Hcells : forall i, 0 <= i < n -> 0 <= cell heap (n + i) <= INT_MAX /\
  cell lens i = fix_length (cell heap (n + i)) /\ (cell heap (n + i) = 0 -> n = 1)).

Definition collect_inv (i : Z) (st : lengths) : Prop :=
  zlen (len_of st) = n /\ (forall j, 0 <= j < i -> cell (len_of st) j = cell lens j) /\
  zlen (len_count st) = MAXCODELEN /\
  (forall l, 0 <= l < MAXCODELEN -> cell (len_count st) l = cnt l (take (Z.to_nat i) lens)) /\
  extremes (take (Z.to_nat i) lens) (len_min st) (len_max st).

(** The length of item [i] as the loop computes it. *)
Lemma read_length i :
  0 <= i < n ->
  (cl ← hget heap (i + n); if cl =? 0 then _ ← c_assert (n =? 1); Ok 1 else Ok cl) = Ok (cell lens i) /\
  1 <= cell lens i <= INT_MAX.
Proof using All.
  intros Hi. destruct (Hcells i Hi) as (Hr & He & Hz).
  pose proof (Forall_lookup_1 _ _ _ _ Hpos (lookup_cell lens i ltac:(lia))) as Hp. cbn in Hp. split; [| done].
  unfold hget. rewrite Z.add_comm, aget_cell by lia. res_cbn. rewrite s32_small by done. rewrite He.
  unfold fix_length. destruct (Z.eqb_spec (cell heap (n + i)) 0) as [E|E]; [| done].
  rewrite (Hz E). reflexivity.
Qed.

Lemma collect_round_ok i st :
  0 <= i < n -> cell lens i < MAXCODELEN -> collect_inv i st ->
  exists st', collect_round heap n i st = Ok st' /\ collect_inv (i + 1) st'.
Proof using All.
  intros Hi Hlt (I1 & I2 & I3 & I4 & I5). destruct (read_length i Hi) as [Er Hp].
  unfold collect_round. inv_bind Er. rewrite Ha. res_cbn. rewrite Er. res_cbn.
  set (cl := cell lens i) in *. unfold MAXCODELEN in *.
  rewrite u32_small by (unfold INT_MAX in *; lia). rewrite aset_Ok by lia. res_cbn.
  rewrite aget_cell by lia. res_cbn. rewrite I4 by lia.
  assert (zlen (take (Z.to_nat i) lens) = i) as Et by (unfold zlen in *; rewrite length_take; lia).
  pose proof (cnt_bound cl (take (Z.to_nat i) lens)) as Hb.
  rewrite c_int_Ok by (unfold INT_MIN, INT_MAX in *; lia). res_cbn. rewrite aset_Ok by lia. res_cbn.
  eexists. split; [reflexivity |]. unfold collect_inv. cbn [len_of len_min len_max len_count].
  rewrite !zlen_insert. split; [done |]. split; [| split; [done |]; split].
  - intros j Hj. rewrite cell_insert by lia. destruct (Z.eqb_spec j i) as [->|]; [done | apply I2; lia].
  - intros l Hl'. unfold MAXCODELEN in Hl'. rewrite cnt_take_succ by lia. rewrite cell_insert by lia. fold cl.
    destruct (Z.eqb_spec l cl) as [->|]; [by rewrite decide_True by done |].
    rewrite decide_False by lia. rewrite I4 by lia. lia.
  - replace (Z.to_nat (i + 1)) with (S (Z.to_nat i)) by lia.
    rewrite (take_S_r _ _ _ (lookup_cell lens i ltac:(lia))). fold cl. apply extremes_snoc; [lia | done].
Qed.

Lemma collect_start : collect_inv 0 (mkLengths (replicate (Z.to_nat n) 0) 100 0 codes_zero).
Proof using Hl Hh.
  unfold collect_inv. cbn [len_of len_min len_max len_count]. rewrite zlen_replicate.
  pose proof (zlen_nonneg lens). split; [lia |]. split; [lia |]. split; [done |]. split; [| by left].
  intros l Hl'. unfold codes_zero. rewrite cell_replicate by (unfold MAXCODELEN in *; lia). done.
Qed.

Lemma collect_lengths_ok :
  0 < n -> Forall (fun x => x < MAXCODELEN) lens ->
  exists st, collect_lengths heap n = Ok st /\ len_of st = lens /\ zlen (len_count st) = MAXCODELEN /\
    (forall l, 0 <= l < MAXCODELEN -> cell (len_count st) l = cnt l lens) /\
    len_min st ∈ lens /\ len_max st ∈ lens /\ Forall (fun x => len_min st <= x <= len_max st) lens.
Proof using All.
  intros Hn0 Hlt. unfold collect_lengths.
  destruct (for_up_rule (collect_round heap n) collect_inv 0 n
    (mkLengths (replicate (Z.to_nat n) 0) 100 0 codes_zero)) as (st & E & I1 & I2 & I3 & I4 & I5).
  - lia.
  - intros i st Hi. apply collect_round_ok; [lia |].
    apply (Forall_lookup_1 _ _ _ _ Hlt (lookup_cell lens i ltac:(lia))).
  - apply collect_start.
  - rewrite take_ge in I4, I5 by (unfold zlen in Hl; lia). exists st. split; [done |]. split.
    { apply cell_ext; [lia |]. intros i Hi. apply I2. lia. }
    split; [done |]. split; [done |].
    destruct I5 as [(-> & _)|(H1 & H2 & H3)]; [change (zlen (@nil Z)) with 0 in Hl; lia | done].
Qed.

(** The counter of a code of 32 bits or more is not a cell of the array, and the
    test of the length comes after the loop. *)
Lemma collect_lengths_overflow i :
  0 <= i < n -> MAXCODELEN <= cell lens i -> collect_lengths heap n = Err OutOfBounds.
Proof using All.
  intros Hi Hlong.
  destruct (list_find (fun x => MAXCODELEN <= x) lens) as [[k x]|] eqn:Hf; cycle 1.
  { apply list_find_None in Hf. destruct (proj1 (Forall_forall _ _) Hf (cell lens i)); [| done].
    apply cell_elem. lia. }
  apply list_find_Some in Hf as (Hk & Hx & Hfirst). pose proof (lookup_lt_Some _ _ _ Hk) as Hkl.
  unfold zlen in Hl. apply (for_up_err _ collect_inv 0 n (Z.of_nat k)).
  - lia.
  - intros j st Hj. apply collect_round_ok; [lia |]. apply Z.nle_gt.
    apply (Hfirst (Z.to_nat j) (cell lens j)); [| lia]. apply lookup_cell. unfold zlen. lia.
  - intros st (I1 & I2 & I3 & I4 & I5). unfold collect_round.
    destruct (read_length (Z.of_nat k) ltac:(lia)) as [Er Hp].
    inv_bind Er. rewrite Ha. res_cbn. rewrite Er. res_cbn. rewrite aset_Ok by lia. res_cbn.
    rewrite aget_oob; [done |]. rewrite I3.
    rewrite (cell_lookup lens (Z.of_nat k) x) by (rewrite ?Nat2Z.id; done || lia). lia.
  - apply collect_start.
Qed.
End Collect.

(** ** Prefix codes *)

(** Lengths that are those of a prefix code: [inn l] is the smallest code of
    length [l], and the number of inner nodes of this depth. *)
Record prefix_lengths (lens : list Z) (mn mx : Z) (inn : Z -> Z) : Prop := {
  pl_range : Forall (fun x => mn <= x <= mx) lens;
  pl_mn : 1 <= mn;
  pl_mx : mn <= mx < MAXCODELEN;
  pl_top : inn mx = 0;
  pl_step : forall l, 1 <= l < mx -> inn (l + 1) + cnt (l + 1) lens = 2 * inn l;
  pl_room : forall l, 1 <= l <= mx -> 0 <= inn l /\ inn l + cnt l lens <= 2 ^ l;
  pl_int : forall l, 1 <= l <= mx -> inn l + cnt l lens <= INT_MAX
}.

(** The lengths of the codes of [n] items from the depths of the leaves. *)
Lemma prefix_lengths_tree n d par k mn mx :
  huff_tree n d par k -> 1 <= n -> 2 * n <= INT_MAX ->
  let lens := fix_length <$> leaf_depths n d in
  mn ∈ lens -> mx ∈ lens -> Forall (fun x => mn <= x <= mx) lens -> mx < MAXCODELEN ->
  exists inn, prefix_lengths lens mn mx inn.
Proof.
  intros T Hn Hmax lens Hmn Hmx Hr Hlt.
  assert (mn <= mx) as Hle by (apply (proj1 (Forall_forall _ _) Hr) in Hmn; lia).
  destruct (Z.eq_dec n 1) as [->|Hne].
  - assert (lens = [1]) as El.
    { subst lens. change (leaf_depths 1 d) with [d 1]. by rewrite (ht_root _ _ _ _ T). }
    rewrite El in *. apply list_elem_of_singleton in Hmn as ->. apply list_elem_of_singleton in Hmx as ->.
    exists (fun _ => 0). split; try done.
    + intros l Hl. lia.
    + intros l Hl. replace l with 1 by lia. vm_compute. split; discriminate.
    + intros l Hl. replace l with 1 by lia. vm_compute. discriminate.
  - assert (lens = leaf_depths n d) as El.
    { subst lens. rewrite <- (list_fmap_id (leaf_depths n d)) at 2. apply list_fmap_ext.
      intros i x Hx. apply list_elem_of_lookup_2, list_elem_of_fmap in Hx as (j & -> & Hj).
      apply elem_of_seqZ in Hj. unfold fix_length. destruct (ht_child _ _ _ _ T j ltac:(lia)) as (C1 & _ & C3).
      destruct (ht_depth _ _ _ _ T (par j) ltac:(lia)). rewrite (proj2 (Z.eqb_neq _ _)) by lia. done. }
    rewrite El in *. exists (inner n d).
    assert (1 <= mn) as Hmn1.
    { apply list_elem_of_fmap in Hmn as (j & -> & Hj). apply elem_of_seqZ in Hj.
      destruct (ht_child _ _ _ _ T j ltac:(lia)) as (C1 & _ & C3).
      destruct (ht_depth _ _ _ _ T (par j) ltac:(lia)). lia. }
    split; try done.
    + apply (inner_top n d par k T Hn mx); [| lia]. eapply Forall_impl; [exact Hr | cbn; lia].
    + intros l Hl. rewrite (level_split n d par k T Hn), decide_False by lia. by replace (l + 1 - 1) with l by lia.
    + intros l Hl. split; [apply inner_bound, Hn | apply (level_room n d par k T Hn); lia].
    + intros l Hl. pose proof (inner_bound n d Hn l). pose proof (cnt_bound l (leaf_depths n d)) as Hb.
      rewrite leaf_depths_zlen in Hb by done. lia.
Qed.

(** The place of item [i] among the items sorted by the length of their codes,
    and its code. *)
Definition rank (lens : list Z) (i : Z) : Z := cnt (cell lens i) (take (Z.to_nat i) lens).
Definition place (lens : list Z) (i : Z) : Z := below (cell lens i) lens + rank lens i.
Definition code_of (lens : list Z) (inn : Z -> Z) (i : Z) : Z := inn (cell lens i) + rank lens i.

Lemma rank_bound lens i : 0 <= i < zlen lens -> 0 <= rank lens i < cnt (cell lens i) lens.
Proof.
  intros Hi. split; [apply cnt_bound | by apply cnt_take_lt].
Qed.

Lemma place_bound lens i : 0 <= i < zlen lens -> 0 <= place lens i < zlen lens.
Proof.
  intros Hi. pose proof (rank_bound lens i Hi). unfold place. pose proof (below_bound (cell lens i) lens).
  pose proof (below_succ (cell lens i) lens). pose proof (below_le (cell lens i + 1) lens). lia.
Qed.

Lemma place_inj lens i j :
  0 <= i < zlen lens -> 0 <= j < zlen lens -> i <> j -> place lens i <> place lens j.
Proof.
  assert (forall i j, 0 <= i < zlen lens -> 0 <= j < zlen lens -> cell lens i < cell lens j ->
            place lens i < place lens j) as Hlt.
  { intros a b Ha Hb Hc. pose proof (rank_bound lens a Ha). pose proof (rank_bound lens b Hb). unfold place.
    pose proof (below_succ (cell lens a) lens). pose proof (below_mono (cell lens a + 1) (cell lens b) lens). lia. }
  assert (forall i j, 0 <= i < zlen lens -> i < j -> cell lens i = cell lens j -> rank lens i < rank lens j) as Hrk.
  { intros a b Ha Hab Hc. unfold rank. rewrite <- Hc.
    pose proof (cnt_take_succ (cell lens a) lens a Ha) as Hs. rewrite decide_True in Hs by done.
    pose proof (cnt_take_mono (cell lens a) lens (a + 1) b). lia. }
  intros Hi Hj Hne. destruct (Z.lt_total (cell lens i) (cell lens j)) as [H|[H|H]].
  - pose proof (Hlt i j Hi Hj H). lia.
  - unfold place. rewrite H. destruct (Z.lt_total i j) as [Hij|[Hij|Hij]]; [| done |].
    + pose proof (Hrk i j Hi Hij H). lia.
    + pose proof (Hrk j i Hj Hij (eq_sym H)). lia.
  - pose proof (Hlt j i Hj Hi H). lia.
Qed.

Section Tables.
Context (lens : list Z) (mn mx : Z) (inn : Z -> Z) (PL : prefix_lengths lens mn mx inn).

Lemma code_range i :
  0 <= i < zlen lens -> inn (cell lens i) <= code_of lens inn i < inn (cell lens i) + cnt (cell lens i) lens /\
    mn <= cell lens i <= mx /\ 0 <= code_of lens inn i < 2 ^ cell lens i.
Proof using PL.
  intros Hi. pose proof (rank_bound lens i Hi). unfold code_of.
  pose proof (Forall_lookup_1 _ _ _ _ (pl_range _ _ _ _ PL) (lookup_cell lens i Hi)) as Hr. cbn in Hr.
  pose proof (pl_mn _ _ _ _ PL). destruct (pl_room _ _ _ _ PL (cell lens i)); [lia |]. lia.
Qed.

(** Every prefix that is shorter than a code is smaller than the codes of its length. *)
Lemma code_prefix i l :
  0 <= i < zlen lens -> 1 <= l < cell lens i ->
  Z.shiftr (code_of lens inn i) (cell lens i - l) < inn l.
Proof using PL.
  intros Hi Hl. destruct (code_range i Hi) as (Hc & Hm & _). set (c := code_of lens inn i) in *.
  assert (forall k, 0 <= k < cell lens i ->
            Z.shiftr c k < inn (cell lens i - k) + cnt (cell lens i - k) lens) as Hk.
  { intros k [Hk0 Hk]. revert Hk. pattern k. apply natlike_ind; [| | done].
    - intros _. rewrite Z.shiftr_0_r, Z.sub_0_r. lia.
    - intros j Hj IH Hlt. specialize (IH ltac:(lia)).
      pose proof (pl_step _ _ _ _ PL (cell lens i - Z.succ j) ltac:(lia)) as Hs.
      replace (cell lens i - Z.succ j + 1) with (cell lens i - j) in Hs by lia.
      replace (Z.succ j) with (j + 1) at 1 by lia. rewrite <- Z.shiftr_shiftr, (Z.shiftr_div_pow2 _ 1), Z.pow_1_r by lia.
      pose proof (cnt_bound (cell lens i - Z.succ j) lens). Z.div_mod_to_equations. lia. }
  specialize (Hk (cell lens i - l - 1) ltac:(lia)).
  replace (cell lens i - (cell lens i - l - 1)) with (l + 1) in Hk by lia.
  rewrite (pl_step _ _ _ _ PL l) in Hk by lia.
  replace (cell lens i - l) with ((cell lens i - l - 1) + 1) by lia.
  rewrite <- Z.shiftr_shiftr, (Z.shiftr_div_pow2 _ 1), Z.pow_1_r by lia. Z.div_mod_to_equations. lia.
Qed.

Context (l : lengths) (Hof : len_of l = lens) (Hmn : len_min l = mn) (Hmx : len_max l = mx).
Context (Hcl : zlen (len_count l) = MAXCODELEN).
Context (Hcount : forall j, 0 <= j < MAXCODELEN -> cell (len_count l) j = cnt j lens).

Lemma code_tables_ok :
  zlen lens <= INT_MAX ->
  exists min_code symindex, code_tables l = Ok (min_code, symindex) /\
    zlen min_code = MAXCODELEN /\ (forall j, 1 <= j <= mx -> cell min_code j = inn j) /\
    zlen symindex = MAXCODELEN /\ (forall j, mn <= j <= mx -> cell symindex j = below j lens) /\
    ints_only min_code /\ ints_only symindex.
Proof using All.
  intros Hsz. pose proof (pl_mn _ _ _ _ PL) as H1. pose proof (pl_mx _ _ _ _ PL) as H2.
  assert (zlen codes_zero = MAXCODELEN) as Hz by done.
  assert (ints_only codes_zero) as Iz by (apply Forall_replicate; unfold INT_MAX; lia). unfold code_tables. rewrite Hmn, Hmx.
  rewrite (aset_Ok codes_zero mx), (aset_Ok codes_zero mn) by lia. res_cbn.
  destruct (for_down_rule (min_code_round (len_count l))
    (fun i t => zlen t = MAXCODELEN /\ ints_only t /\ forall j, i < j <= mx -> 1 <= j -> cell t j = inn j)
    (mx - 1) 0 (<[Z.to_nat mx := 0]> codes_zero)) as (mc & Emc & Lmc & Imc & Cmc).
  - lia.
  - intros i t Hi (Lt & It & Ct). unfold min_code_round. rewrite !aget_cell by lia. res_cbn.
    rewrite Ct, Hcount by lia. rewrite (pl_step _ _ _ _ PL i) by lia.
    destruct (pl_room _ _ _ _ PL i) as [R1 _]; [lia |]. pose proof (pl_int _ _ _ _ PL (i + 1) ltac:(lia)) as R2.
    rewrite (pl_step _ _ _ _ PL i) in R2 by lia.
    rewrite c_int_Ok by (unfold INT_MIN; lia). res_cbn. rewrite aset_Ok by lia.
    eexists. split; [reflexivity |]. rewrite zlen_insert. split; [done |].
    assert (Z.shiftr (2 * inn i) 1 = inn i) as Es by (rewrite Z.shiftr_div_pow2, Z.pow_1_r, Z.mul_comm, Z.div_mul by lia; done).
    rewrite Es. split; [apply ints_only_insert; [done | lia] |]. intros j Hj Hj1.
    rewrite cell_insert by lia. destruct (Z.eqb_spec j i) as [->|]; [done | apply Ct; lia].
  - rewrite zlen_insert. split; [done |]. split; [by apply ints_only_insert |]. intros j Hj Hj1. replace j with mx by lia.
    rewrite cell_insert, Z.eqb_refl by lia. symmetry. apply (pl_top _ _ _ _ PL).
  - rewrite Emc. res_cbn.
    destruct (for_up_rule (symindex_round (len_count l))
      (fun i t => zlen t = MAXCODELEN /\ ints_only t /\ forall j, mn <= j < i -> cell t j = below j lens)
      (mn + 1) (mx + 1) (<[Z.to_nat mn := 0]> codes_zero)) as (si & Esi & Lsi & Isi & Csi).
    + lia.
    + intros i t Hi (Lt & It & Ct). unfold symindex_round. rewrite !aget_cell by lia. res_cbn. rewrite Ct, Hcount by lia. rewrite <- below_succ.
      pose proof (below_bound (i - 1 + 1) lens). pose proof (below_le (i - 1 + 1) lens).
      rewrite c_int_Ok by (unfold INT_MIN; lia). res_cbn. rewrite aset_Ok by lia.
      eexists. split; [reflexivity |]. rewrite zlen_insert. split; [done |]. split; [apply ints_only_insert; [done | lia] |]. intros j Hj.
      rewrite cell_insert by lia. destruct (Z.eqb_spec j i) as [->|]; [| apply Ct; lia].
      by replace (i - 1 + 1) with i by lia.
    + rewrite zlen_insert. split; [done |]. split; [by apply ints_only_insert |]. intros j Hj. replace j with mn by lia.
      rewrite cell_insert, Z.eqb_refl by lia. symmetry. apply below_min.
      eapply Forall_impl; [exact (pl_range _ _ _ _ PL) | cbn; lia].
    + rewrite Esi. res_cbn. exists mc, si. split; [done |]. split; [done |]. split; [| split; [done |]].
      * intros j Hj. apply Cmc; lia.
      * split; [| done]. intros j Hj. apply Csi. lia.
Qed.
End Tables.

Section Issue.
Context (lens : list Z) (mn mx : Z) (inn : Z -> Z) (PL : prefix_lengths lens mn mx inn).
Context (n : Z) (Hn : zlen lens = n) (Hmax : 2 * n <= INT_MAX).
Context (heap0 min_code symindex : list Z) (H0 : zlen heap0 = 2 * n).
Context (Lmc : zlen min_code = MAXCODELEN) (Cmc : forall j, 1 <= j <= mx -> cell min_code j = inn j).
Context (Lsi : zlen symindex = MAXCODELEN) (Csi : forall j, mn <= j <= mx -> cell symindex j = below j lens).

Definition issue_inv (i : Z) (st : list Z * list Z * list Z) : Prop :=
  let '(heap, next_code, issued) := st in
  zlen heap = 2 * n /\ zlen next_code = MAXCODELEN /\ zlen issued = MAXCODELEN /\
  (forall l, mn <= l <= mx -> cell next_code l = inn l + cnt l (take (Z.to_nat i) lens)) /\
  (forall l, mn <= l <= mx -> cell issued l = cnt l (take (Z.to_nat i) lens)) /\
  (forall j, 0 <= j < i -> cell heap j = code_of lens inn j /\ cell heap (n + place lens j) = j).

Lemma issue_round_ok i st :
  0 <= i < n -> issue_inv i st ->
  exists st', issue_round lens symindex n i st = Ok st' /\ issue_inv (i + 1) st'.
Proof using All.
  intros Hi. destruct st as [[heap next_code] issued]. intros (L1 & L2 & L3 & C1 & C2 & C3).
  pose proof (pl_mn _ _ _ _ PL) as Hmn. pose proof (pl_mx _ _ _ _ PL) as Hmx.
  destruct (code_range lens mn mx inn PL i ltac:(lia)) as (Hc & Hl & _).
  pose proof (rank_bound lens i ltac:(lia)) as Hrk. pose proof (place_bound lens i ltac:(lia)) as Hpl.
  destruct (pl_room _ _ _ _ PL (cell lens i)) as [R1 _]; [lia |].
  pose proof (pl_int _ _ _ _ PL (cell lens i) ltac:(lia)) as R2.
  unfold issue_round. rewrite aget_cell by lia. res_cbn. set (cl := cell lens i) in *.
  rewrite (aget_cell next_code) by lia. res_cbn. rewrite (C1 cl) by lia.
  change (cnt cl (take (Z.to_nat i) lens)) with (rank lens i). change (inn cl + rank lens i) with (code_of lens inn i).
  set (c := code_of lens inn i) in *.
  rewrite (u32_small c), (u32_small i) by (unfold INT_MAX in *; lia). rewrite (aset_Ok heap) by lia. res_cbn.
  rewrite (c_int_Ok (c + 1)) by (unfold INT_MIN; lia). res_cbn. rewrite (aset_Ok next_code) by lia. res_cbn.
  rewrite (aget_cell symindex) by lia. res_cbn. rewrite (aget_cell issued) by lia. res_cbn.
  rewrite (Csi cl), (C2 cl) by lia. change (cnt cl (take (Z.to_nat i) lens)) with (rank lens i).
  replace (n + below cl lens + rank lens i) with (n + place lens i) by (unfold place; fold cl; lia).
  rewrite (c_int_Ok (n + place lens i)) by (unfold INT_MIN; lia). res_cbn.
  rewrite aset_Ok by (rewrite zlen_insert; lia). res_cbn.
  pose proof (cnt_bound cl lens).
  rewrite (c_int_Ok (rank lens i + 1)) by (unfold INT_MIN; lia). res_cbn. rewrite (aset_Ok issued) by lia. res_cbn.
  eexists. split; [reflexivity |]. unfold issue_inv. rewrite !zlen_insert.
  split; [done |]. split; [done |]. split; [done |]. split; [| split].
  - intros l Hll. rewrite cnt_take_succ by lia. fold cl. rewrite cell_insert by lia.
    destruct (Z.eqb_spec l cl) as [->|]; [rewrite decide_True by done; subst c; unfold code_of, rank; fold cl; lia |].
    rewrite decide_False, C1 by lia. lia.
  - intros l Hll. rewrite cnt_take_succ by lia. fold cl. rewrite cell_insert by lia.
    destruct (Z.eqb_spec l cl) as [->|]; [rewrite decide_True by done; unfold rank; fold cl; lia |].
    rewrite decide_False, C2 by lia. lia.
  - intros j Hj. pose proof (place_bound lens j ltac:(lia)) as Hpj.
    rewrite !cell_insert by (rewrite ?zlen_insert; lia).
    rewrite (proj2 (Z.eqb_neq j (n + place lens i))), (proj2 (Z.eqb_neq (n + place lens j) i)) by lia.
    destruct (Z.eqb_spec j i) as [->|Hne].
    + rewrite Z.eqb_refl. done.
    + pose proof (place_inj lens j i ltac:(lia) ltac:(lia) Hne).
      rewrite (proj2 (Z.eqb_neq _ _)) by lia. apply C3. lia.
Qed.

(** The codes in front, the items behind, sorted by code. *)
Lemma issue_codes_ok :
  0 <= n -> exists heap, issue_codes heap0 lens min_code symindex n = Ok heap /\ zlen heap = 2 * n /\
    forall i, 0 <= i < n -> cell heap i = code_of lens inn i /\ cell heap (n + place lens i) = i.
Proof using All.
  intros H. unfold issue_codes. pose proof (pl_mn _ _ _ _ PL) as Hmn. pose proof (pl_mx _ _ _ _ PL) as Hmx.
  destruct (for_up_rule (issue_round lens symindex n) issue_inv 0 n (heap0, min_code, codes_zero))
    as (st & E & HI).
  - done.
  - intros i st Hi. apply issue_round_ok. lia.
  - split; [done |]. split; [done |]. split; [done |]. split; [| split; [| lia]].
    + intros l Hl. cbn [Z.to_nat take]. rewrite cnt_nil, Cmc by lia. lia.
    + intros l Hl. unfold codes_zero. apply cell_replicate. unfold MAXCODELEN in *. lia.
  - rewrite E. res_cbn. destruct st as [[heap nc] isd]. destruct HI as (L1 & _ & _ & _ & _ & C).
    exists heap. done.
Qed.
End Issue.

(** ** The descriptor *)

(** The tables of a descriptor block for codes of the lengths [lens]. *)
Record codebook (n : Z) (lens : list Z) (mn mx : Z) (inn : Z -> Z) (min_code symindex symbols : list Z) : Prop := {
  cb_prefix : prefix_lengths lens mn mx inn;
  cb_n : zlen lens = n;
  cb_max : 2 * n <= INT_MAX;
  cb_min_code_len : zlen min_code = MAXCODELEN;
  cb_min_code : forall j, 1 <= j <= mx -> cell min_code j = inn j;
  cb_min_code_ints : ints_only min_code;
  cb_symindex_len : zlen symindex = MAXCODELEN;
  cb_symindex : forall j, mn <= j <= mx -> cell symindex j = below j lens;
  cb_symindex_ints : ints_only symindex;
  cb_symbols_len : zlen symbols = n;
  cb_symbols : forall i, 0 <= i < n -> cell symbols (place lens i) = i;
  cb_symbols_ints : Forall (fun x => INT_MIN <= x <= INT_MAX) symbols
}.

Lemma cell_drop l k i : 0 <= k -> 0 <= i -> cell (drop (Z.to_nat k) l) i = cell l (k + i).
Proof.
  intros Hk Hi. unfold cell. rewrite !nth_lookup, lookup_drop. do 2 f_equal. lia.
Qed.

Lemma cell_fmap f l i : 0 <= i < zlen l -> cell (f <$> l) i = f (cell l i).
Proof.
  intros Hi. apply cell_lookup; [lia |]. by rewrite list_lookup_fmap, (lookup_cell l i Hi).
Qed.

Lemma leaf_depths_cell n d i : 0 <= i < n -> cell (leaf_depths n d) i = d (n + i).
Proof.
  intros Hi. apply cell_lookup; [lia |]. unfold leaf_depths. rewrite list_lookup_fmap, lookup_seqZ_lt by lia.
  cbn. by rewrite Z2Nat.id by lia.
Qed.

(** From the tree to the depths that are collected. *)
Lemma collect_depths n heap par k :
  huff_tree n (cell heap) par k -> 1 <= n -> 2 * n <= INT_MAX -> zlen heap = 2 * n ->
  let lens := fix_length <$> leaf_depths n (cell heap) in
  zlen lens = n /\ Forall (fun x => 1 <= x <= INT_MAX) lens /\
  (forall i, 0 <= i < n -> cell lens i = fix_length (cell heap (n + i))) /\
  (forall i, 0 <= i < n -> 0 <= cell heap (n + i) <= INT_MAX /\
     cell lens i = fix_length (cell heap (n + i)) /\ (cell heap (n + i) = 0 -> n = 1)).
Proof.
  intros T Hn Hmax Hh lens.
  assert (zlen (leaf_depths n (cell heap)) = n) as El by by apply leaf_depths_zlen.
  assert (zlen lens = n) as El' by (subst lens; unfold zlen in *; by rewrite length_fmap).
  assert (forall i, 0 <= i < n -> cell lens i = fix_length (cell heap (n + i))) as Hc.
  { intros i Hi. subst lens. rewrite cell_fmap by lia. by rewrite leaf_depths_cell. }
  assert (forall i, 0 <= i < n -> 0 <= cell heap (n + i) <= INT_MAX /\ (cell heap (n + i) = 0 -> n = 1)) as Hd.
  { intros i Hi. destruct (ht_depth _ _ _ _ T (n + i) ltac:(lia)) as [H1 H2]. split; [lia |].
    intros H0. destruct (Z.eq_dec n 1); [done |].
    destruct (ht_child _ _ _ _ T (n + i) ltac:(lia)) as (C1 & _ & C3).
    destruct (ht_depth _ _ _ _ T (par (n + i)) ltac:(lia)). lia. }
  split; [done |]. split; [| split; [done |]].
  - apply Forall_forall. intros x Hx. apply list_elem_of_lookup in Hx as [i Hi].
    pose proof (lookup_lt_Some _ _ _ Hi). unfold zlen in El'.
    rewrite <- (cell_lookup lens (Z.of_nat i) x) by (rewrite ?Nat2Z.id; done || lia). rewrite Hc by lia.
    destruct (Hd (Z.of_nat i) ltac:(lia)). unfold fix_length. case_Z; lia.
  - intros i Hi. destruct (Hd i Hi). auto.
Qed.

(** Everything [compute_code_lengths] does between the frequencies and the
    files, for codes that are not too long. *)
Lemma huffman_codes_ok n heap par k :
  huff_tree n (cell heap) par k -> 1 <= n -> 2 * n <= INT_MAX -> zlen heap = 2 * n ->
  let lens := fix_length <$> leaf_depths n (cell heap) in
  Forall (fun x => x < MAXCODELEN) lens ->
  exists l mn mx inn min_code symindex heap',
    collect_lengths heap n = Ok l /\ len_of l = lens /\ len_min l = mn /\ len_max l = mx /\ 1 <= mx < MAXCODELEN /\
    zlen (len_count l) = MAXCODELEN /\ ints_only (len_count l) /\
    code_tables l = Ok (min_code, symindex) /\
    issue_codes heap lens min_code symindex n = Ok heap' /\ zlen heap' = 2 * n /\
    (forall i, 0 <= i < n -> cell heap' i = code_of lens inn i) /\
    codebook n lens mn mx inn min_code symindex (s32 <$> drop (Z.to_nat n) heap').
Proof.
  intros T Hn Hmax Hh lens Hlt.
  destruct (collect_depths n heap par k T Hn Hmax Hh) as (Hl & Hpos & Hc & Hcells). fold lens in Hl, Hpos, Hc, Hcells.
  destruct (collect_lengths_ok heap lens n Hl Hh ltac:(lia) Hpos Hcells ltac:(lia) Hlt)
    as (l & E1 & Hof & Hcl & Hcount & Hmn & Hmx & Hr).
  assert (len_max l < MAXCODELEN) as Hmlt by (by apply (proj1 (Forall_forall _ _) Hlt) in Hmx).
  destruct (prefix_lengths_tree n (cell heap) par k (len_min l) (len_max l) T Hn Hmax Hmn Hmx Hr Hmlt) as (inn & PL).
  fold lens in PL. pose proof (pl_mn _ _ _ _ PL). pose proof (pl_mx _ _ _ _ PL).
  destruct (code_tables_ok lens _ _ inn PL l Hof eq_refl eq_refl Hcl Hcount ltac:(lia))
    as (mc & si & E2 & Lmc & Cmc & Lsi & Csi & Imc & Isi).
  destruct (issue_codes_ok lens _ _ inn PL n Hl Hmax heap mc si Hh Lmc Cmc Lsi Csi ltac:(lia))
    as (heap' & E3 & Lh & Ch).
  exists l, (len_min l), (len_max l), inn, mc, si, heap'. do 5 (split; [done || lia |]). split; [done |]. split.
  { apply Forall_forall. intros x Hx. apply list_elem_of_lookup in Hx as [j Hj].
    pose proof (lookup_lt_Some _ _ _ Hj). unfold zlen in Hcl.
    rewrite <- (cell_lookup (len_count l) (Z.of_nat j) x) by (rewrite ?Nat2Z.id; done || lia).
    rewrite Hcount by lia. pose proof (cnt_bound (Z.of_nat j) lens). lia. }
  split; [done |]. split; [done |]. split; [done |]. split; [apply Ch |].
  assert (zlen (drop (Z.to_nat n) heap') = n) as Ld by (unfold zlen in *; rewrite length_drop; lia).
  split; try done.
  - unfold zlen in *. by rewrite length_fmap.
  - intros i Hi. pose proof (place_bound lens i ltac:(lia)). rewrite cell_fmap, cell_drop by lia.
    destruct (Ch i Hi) as [_ ->]. apply s32_small. lia.
  - apply Forall_fmap, Forall_forall. intros x _. apply s32_range.
Qed.
