(* ===== verification/HuffEncode.v ===== *)
(** * Writing the compressed token stream

    [stream] is the bit sequence of the tokens read so far: their codes, with
    padding to a full byte before every block of 128 tokens.  The theorem about
    [compute_code_lengths]: it writes the descriptor block of a codebook, the
    bits of the stream, and the byte offsets of the blocks. *)

From Stdlib Require Import ZArith Lia Ascii String.
From stdpp Require Import base tactics option list numbers gmap strings sorting.
From S2P Require Import Prelude Bits Storage BitIO Golomb Blob Attributes CDA Lexicon Positional RevIndex MakeComps MakeFreqs MakeRevCorpus Huffcode HuffHeap HuffTree HuffCanon.

Open Scope Z_scope.

(** ** The stream *)

Definition align (s : list bool) : list bool := s ++ replicate (pad_bits (zlen s)) false.

Lemma align_div8 s : (8 | zlen (align s)).
Proof.
  unfold align. rewrite zlen_app, zlen_replicate. destruct (pad_bits_spec (zlen s)) as [j ->].
  exists j. lia.
Qed.

Lemma align_length s : zlen s <= zlen (align s) <= zlen s + 7.
Proof.
  unfold align. rewrite zlen_app, zlen_replicate. unfold pad_bits. pose proof (Z.mod_pos_bound (- zlen s) 8). lia.
Qed.

Lemma align_nil : align [] = [].
Proof. reflexivity. Qed.

Section Stream.
Context (tok : Z -> list bool) (C : list Z).

Definition at_sync (i : nat) : bool := Z.rem (Z.of_nat i) SYNCHRONIZATION =? 0.

Fixpoint stream (i : nat) : list bool :=
  match i with
  | O => []
  | S j => (if at_sync j then align (stream j) else stream j) ++ tok (cell C (Z.of_nat j))
  end.

(** The stream before token [i], and the offset of block [b]. *)
Definition synced (i : nat) : list bool := if at_sync i then align (stream i) else stream i.
Definition sync_offset (b : nat) : Z := zlen (align (stream (128 * b))) / 8.
Definition blocks (i : nat) : nat := ((i + 127) / 128)%nat.

Lemma stream_S i : stream (S i) = synced i ++ tok (cell C (Z.of_nat i)).
Proof. reflexivity. Qed.

Lemma at_sync_mod i : at_sync i = (i mod 128 =? 0)%nat.
Proof.
  unfold at_sync, SYNCHRONIZATION. rewrite Z.rem_mod_nonneg by lia.
  change 128 with (Z.of_nat 128). rewrite <- Nat2Z.inj_mod.
  destruct (Nat.eqb_spec (i mod 128) 0), (Z.eqb_spec (Z.of_nat (i mod 128)) 0); try done; lia.
Qed.

Lemma at_sync_block b : at_sync (128 * b) = true.
Proof. rewrite at_sync_mod, Nat.mul_comm, Nat.Div0.mod_mul. done. Qed.

Lemma at_sync_inside b k : (0 < k < 128)%nat -> at_sync (128 * b + k) = false.
Proof.
  intros Hk. rewrite at_sync_mod. apply Nat.eqb_neq. rewrite Nat.add_comm, Nat.mul_comm, Nat.Div0.mod_add.
  rewrite Nat.mod_small; lia.
Qed.

Lemma blocks_S i : blocks (S i) = if at_sync i then S (blocks i) else blocks i.
Proof.
  rewrite at_sync_mod. unfold blocks. pose proof (Nat.div_mod_eq i 128). pose proof (Nat.div_mod_eq (i + 127) 128).
  pose proof (Nat.div_mod_eq (S i + 127) 128). pose proof (Nat.mod_upper_bound i 128).
  pose proof (Nat.mod_upper_bound (i + 127) 128). pose proof (Nat.mod_upper_bound (S i + 127) 128).
  destruct (Nat.eqb_spec (i mod 128) 0); lia.
Qed.

Lemma blocks_sync i : at_sync i = true -> i = (128 * blocks i)%nat.
Proof.
  rewrite at_sync_mod, Nat.eqb_eq. unfold blocks. intros H. pose proof (Nat.div_mod_eq i 128).
  pose proof (Nat.div_mod_eq (i + 127) 128). pose proof (Nat.mod_upper_bound (i + 127) 128). lia.
Qed.

Lemma blocks_mono i j : (i <= j)%nat -> (blocks i <= blocks j)%nat.
Proof. induction 1 as [|j _ IH]; [done |]. rewrite blocks_S. destruct (at_sync j); lia. Qed.

Lemma stream_mono i j : (i <= j)%nat -> (stream i) `prefix_of` (stream j).
Proof.
  induction 1 as [|j _ IH]; [done |]. etransitivity; [exact IH |]. rewrite stream_S. unfold synced, align.
  destruct (at_sync j); [rewrite <- app_assoc |]; by eexists.
Qed.

Lemma synced_prefix i j : (i < j)%nat -> (synced i) `prefix_of` (stream j).
Proof.
  intros H. etransitivity; [| apply (stream_mono (S i)); lia]. rewrite stream_S. by eexists.
Qed.

(** Inside a block the codes follow one another. *)
Lemma stream_block b k :
  (k < 128)%nat ->
  stream (128 * b + S k) = align (stream (128 * b)) ++ (seq (128 * b) (S k) ≫= fun i => tok (cell C (Z.of_nat i))).
Proof.
  induction k as [|k IH]; intros Hk.
  - rewrite Nat.add_1_r, stream_S. unfold synced. rewrite at_sync_block. cbn [seq mbind list_bind].
    by rewrite app_nil_r.
  - rewrite Nat.add_succ_r, stream_S. unfold synced. rewrite at_sync_inside by lia. rewrite IH by lia.
    rewrite (seq_S (S k)), bind_app, <- app_assoc. f_equal. f_equal. cbn [mbind list_bind].
    by rewrite app_nil_r.
Qed.

Lemma stream_bound m i :
  (forall j, (j < i)%nat -> zlen (tok (cell C (Z.of_nat j))) <= m) -> zlen (stream i) <= (m + 7) * Z.of_nat i.
Proof.
  induction i as [|i IH]; intros Hm; [rewrite Z.mul_0_r; done |].
  rewrite stream_S, zlen_app, Nat2Z.inj_succ, Z.mul_succ_r.
  pose proof (Hm i ltac:(lia)). specialize (IH ltac:(intros; apply Hm; lia)).
  unfold synced. pose proof (align_length (stream i)). destruct (at_sync i); lia.
Qed.
End Stream.

(** The code of an item, most significant bit first. *)
Definition code_bits (lens : list Z) (inn : Z -> Z) (c : Z) : list bool :=
  bits (Z.to_nat (cell lens c)) (code_of lens inn c).

(** ** Writing the tokens *)

Lemma BF_writable_le m m' df : (m' <= m)%nat -> BF_writable m df -> BF_writable m' df.
Proof. intros Hle (H1 & H2 & H3 & H4 & H5). split; [done |]. split; [done |]. split; [done |]. split; [lia | done]. Qed.

Section Encode.
Context (be : bool) (disk : gmap string (list Z)) (C : list Z) (n : nat).
Context (lens : list Z) (mn mx : Z) (inn : Z -> Z) (PL : prefix_lengths lens mn mx inn) (Hlens : zlen lens = Z.of_nat n).
Context (heap : list Z) (Hheap : zlen heap = 2 * Z.of_nat n).
Context (Hcodes : forall i, 0 <= i < Z.of_nat n -> cell heap i = code_of lens inn i).
Context (Hids : Forall (fun c => 0 <= c < Z.of_nat n) C).
Context (Hbits : 38 * zlen C <= 8 * INT_MAX).

#[local] Abbreviation tok := (code_bits lens inn).
#[local] Abbreviation str := (stream tok C).

Lemma token_code c :
  0 <= c < Z.of_nat n ->
  1 <= cell lens c <= 31 /\ 0 <= code_of lens inn c < 2 ^ 31.
Proof using PL Hlens.
  intros Hc. destruct (code_range lens mn mx inn PL c ltac:(lia)) as (_ & H2 & H3).
  pose proof (pl_mn _ _ _ _ PL). pose proof (pl_mx _ _ _ _ PL). unfold MAXCODELEN in *. split; [lia |].
  assert (2 ^ cell lens c <= 2 ^ 31) by (apply Z.pow_le_mono_r; lia). lia.
Qed.

Lemma tok_length c : 0 <= c < Z.of_nat n -> zlen (tok c) <= 31.
Proof using PL Hlens.
  intros Hc. unfold code_bits. rewrite zlen_bits. destruct (token_code c); lia.
Qed.

Lemma token_id k : (k < length C)%nat -> C !! k = Some (cell C (Z.of_nat k)) /\ 0 <= cell C (Z.of_nat k) < Z.of_nat n.
Proof using Hids.
  intros Hk. pose proof (lookup_cell C (Z.of_nat k) ltac:(unfold zlen; lia)) as Hl. rewrite Nat2Z.id in Hl.
  split; [done |]. apply (Forall_lookup_1 _ _ _ _ Hids Hl).
Qed.

Lemma str_size k : (k <= length C)%nat -> zlen (align (str k)) <= 8 * INT_MAX + 7.
Proof using PL Hlens Hids Hbits.
  intros Hk. pose proof (align_length (str k)).
  pose proof (stream_bound tok C 31 k) as Hb. unfold zlen in Hbits.
  assert (zlen (str k) <= (31 + 7) * Z.of_nat k); [| lia].
  apply Hb. intros j Hj. apply tok_length. apply token_id. lia.
Qed.

(** Before token [i]. *)
Definition encode_inv (i : Z) (st : BFile * FILE) (cl : CL) : Prop :=
  let k := Z.to_nat i in
  BF_out st.1 = str k /\ (k = 0%nat -> bits_in_buf st.1 = 0) /\
  BF_writable (38 * (length C - k) + 15) st.1 /\
  contents st.2 = ints_be (sync_offset tok C <$> seq 0 (blocks k)) /\
  4 * (Z.of_nat (blocks (length C)) - Z.of_nat (blocks k)) <= quota st.2 /\
  exists a e, cl = mkCL (Some a) e /\ plain_corpus disk a C n.

(** The synchronization in front of a block. *)
Lemma encode_sync k bfd sync m :
  (k < length C)%nat -> BF_out bfd = str k -> (k = 0%nat -> bits_in_buf bfd = 0) -> BF_writable (7 + m) bfd ->
  contents sync = ints_be (sync_offset tok C <$> seq 0 (blocks k)) ->
  4 * (Z.of_nat (blocks (length C)) - Z.of_nat (blocks k)) <= quota sync ->
  exists bfd' sync',
    (if Z.rem (Z.of_nat k) SYNCHRONIZATION =? 0 then
       bfd ← (if 0 <? Z.of_nat k then r ← BFflush bfd; Ok r.2 else Ok bfd);
       pos ← BFposition (Some bfd);
       sync ← NwriteInt be (s32 pos) sync;
       Ok (bfd, sync)
     else Ok (bfd, sync)) = Ok (bfd', sync') /\
    BF_out bfd' = synced tok C k /\ BF_writable m bfd' /\
    contents sync' = ints_be (sync_offset tok C <$> seq 0 (blocks (S k))) /\
    4 * (Z.of_nat (blocks (length C)) - Z.of_nat (blocks (S k))) <= quota sync'.
Proof using PL Hlens Hids Hbits.
  intros Hk Ho H0 Hw Hc Hq. fold (at_sync k). unfold synced.
  pose proof (blocks_mono (S k) (length C) ltac:(lia)) as Hb. rewrite blocks_S in Hb |- *.
  destruct (at_sync k) eqn:Hs; cycle 1.
  { exists bfd, sync. split; [done |]. split; [done |]. split; [| done].
    apply (BF_writable_le (7 + m)); [lia | done]. }
  assert (exists bfd', (if 0 <? Z.of_nat k then r ← BFflush bfd; Ok r.2 else Ok bfd) = Ok bfd' /\
    BF_out bfd' = align (str k) /\ BF_writable m bfd' /\ bits_in_buf bfd' = 0) as (bfd' & E & Ho' & Hw' & H0').
  { destruct (Z.ltb_spec 0 (Z.of_nat k)) as [Hpos|Hpos].
    - destruct (BFflush_pads m bfd [] (str k) Hw Ho) as (r & bfd' & -> & Ho' & Hw' & H0'); [by exists 0 |].
      res_cbn. eexists. split; [reflexivity |]. cbn [snd]. done.
    - assert (k = 0%nat) as -> by lia. exists bfd. split; [done |].
      split; [by rewrite Ho |]. split; [apply (BF_writable_le (7 + m)); [lia | done] | by apply H0]. }
  rewrite E. res_cbn. unfold BFposition. res_cbn.
  pose proof (BF_position_aligned m bfd' Hw' H0') as Hp. rewrite Ho' in Hp.
  pose proof (str_size k ltac:(lia)) as Hsz. pose proof (zlen_nonneg (align (str k))).
  assert (position bfd' = sync_offset tok C (blocks k)) as Hoff.
  { unfold sync_offset. rewrite <- (blocks_sync k Hs), Hp, Z.mul_comm, Z.div_mul by lia. done. }
  rewrite s32_small by lia. rewrite NwriteInt_Ok by lia. res_cbn.
  eexists _, _. split; [reflexivity |]. cbn [contents quota]. split; [done |]. split; [done |]. split; [| lia].
  rewrite Hc, seq_S, fmap_app, ints_be_app, Hoff. f_equal.
Qed.

Lemma encode_token_ok i st cl :
  0 <= i < zlen C -> encode_inv i st cl ->
  exists st' cl', encode_token be disk lens heap (Z.of_nat n) i st cl = Ok (st', cl') /\ encode_inv (i + 1) st' cl'.
Proof using All.
  intros Hi. destruct st as [bfd sync]. intros (Ho & H0 & Hw & Hc & Hq & a & e & -> & P). cbn [fst snd] in *.
  remember (Z.to_nat i) as k eqn:Hk. assert (i = Z.of_nat k) as -> by lia.
  assert (k < length C)%nat as Hkl by (unfold zlen in Hi; lia).
  destruct (token_id k Hkl) as [Hck Hcr]. set (c := cell C (Z.of_nat k)) in *.
  unfold encode_token.
  destruct (encode_sync k bfd sync (31 + (38 * (length C - S k) + 15)) Hkl Ho H0) as (bfd1 & sync1 & E1 & Ho1 & Hw1 & Hc1 & Hq1).
  { apply (BF_writable_le (38 * (length C - k) + 15)); [lia | done]. }
  { done. } { done. }
  rewrite (bindM_lift _ _ _ _ E1).
  destruct (cl_cpos2id_plain_ok be disk a e C n (Z.of_nat k) P) as (a' & (L & _) & E2).
  rewrite (proj2 (Z.ltb_ge (Z.of_nat k) 0)), Nat2Z.id, Hck in E2 by lia.
  rewrite (bindM_Ok _ _ _ _ _ E2). cda. change (negb (CDA_OK =? CDA_OK)) with false.
  rewrite (proj2 (Z.ltb_ge c 0)) by lia. cbn [orb].
  rewrite (proj2 (Z.leb_le 0 c)), (proj2 (Z.ltb_lt c (Z.of_nat n))) by lia. cbn [andb].
  cda_lift c_assert_true.
  rewrite (bindM_lift _ _ _ _ (aget_cell lens c ltac:(lia))).
  rewrite (bindM_lift _ _ _ _ (aget_cell heap c ltac:(lia))). rewrite Hcodes by lia.
  destruct (token_code c Hcr) as [Hl Hcd]. rewrite s32_small by (unfold INT_MAX; lia).
  destruct (BFwriteWord_ok be (code_of lens inn c) (Z.to_nat (cell lens c))
              (38 * (length C - S k) + 15) bfd1 ltac:(lia)) as (bfd2 & E3 & Ho2 & Hw2).
  { apply (BF_writable_le (31 + (38 * (length C - S k) + 15))); [lia | done]. }
  rewrite Z2Nat.id in E3 by lia. rewrite (bindM_lift _ _ _ _ E3). cbn [fst snd]. change (1 =? 0) with false. cbv iota.
  eexists _, _. split; [reflexivity |]. unfold encode_inv. replace (Z.to_nat (Z.of_nat k + 1)) with (S k) by lia.
  cbn [fst snd]. split; [by rewrite Ho2, Ho1 |]. split; [lia |]. split; [done |]. split; [done |]. split; [done |].
  exists a', CDA_OK. split; [done |]. by eapply plain_corpus_loads.
Qed.
End Encode.

(** ** The descriptor file *)

Definition hcd_ints (h : HCD) : list Z :=
  [hcd_size h; hcd_length h; min_codelen h; max_codelen h] ++ lcount h ++ symindex h ++ min_code h ++ symbols h.

(** Well-formed contents of a descriptor. *)
Record hcd_ok (h : HCD) : Prop := {
  ho_size : INT_MIN <= hcd_size h <= INT_MAX;
  ho_length : INT_MIN <= hcd_length h <= INT_MAX;
  ho_min : INT_MIN <= min_codelen h <= INT_MAX;
  ho_max : INT_MIN <= max_codelen h <= INT_MAX;
  ho_lcount : zlen (lcount h) = MAXCODELEN /\ ints_only (lcount h);
  ho_symindex : zlen (symindex h) = MAXCODELEN /\ ints_only (symindex h);
  ho_min_code : zlen (min_code h) = MAXCODELEN /\ ints_only (min_code h);
  ho_symbols : zlen (symbols h) = hcd_size h /\ Forall (fun x => INT_MIN <= x <= INT_MAX) (symbols h)
}.

Lemma NwriteInts_all be vals nr fd :
  zlen vals = nr -> 4 * nr <= quota fd ->
  NwriteInts be vals nr fd = Ok (mkFILE (contents fd ++ ints_be vals) (rpos fd) (quota fd - 4 * nr) (failed fd)).
Proof.
  intros <- Hq. rewrite NwriteInts_Ok by (pose proof (zlen_nonneg vals); lia).
  rewrite take_ge by (unfold zlen; lia). done.
Qed.

Lemma WriteHCD_ok be h q :
  hcd_ok h -> 4 * zlen (hcd_ints h) <= q ->
  exists fd, WriteHCD be (Some (mkFILE [] 0 q false)) h = Ok (1, Some fd) /\ contents fd = ints_be (hcd_ints h).
Proof.
  intros [Hs Hl Hmn Hmx [Hc1 _] [Hc2 _] [Hc3 _] [Hc4 _]] Hq.
  unfold hcd_ints in Hq |- *. rewrite !zlen_app in Hq.
  change (zlen [hcd_size h; hcd_length h; min_codelen h; max_codelen h]) with 4 in Hq.
  pose proof (zlen_nonneg (symbols h)). unfold MAXCODELEN in *.
  assert (forall l v k, 4 <= k -> NwriteInt be v (mkFILE l 0 k false) = Ok (mkFILE (l ++ be_bytes v) 0 (k - 4) false)) as W1.
  { intros l v k Hk. by rewrite NwriteInt_Ok by (cbn [quota]; lia). }
  assert (forall l vs m k, zlen vs = m -> 4 * m <= k ->
    NwriteInts be vs m (mkFILE l 0 k false) = Ok (mkFILE (l ++ ints_be vs) 0 (k - 4 * m) false)) as W2.
  { intros l vs m k Hz Hk. by rewrite NwriteInts_all by (cbn [quota]; lia). }
  unfold WriteHCD, MAXCODELEN. do 4 (rewrite W1 by lia; rewrite bind_Ok). do 3 (rewrite W2 by lia; rewrite bind_Ok).
  rewrite W2 by lia. rewrite bind_Ok.
  eexists. split; [reflexivity |]. cbn [contents]. rewrite !ints_be_app, <- !app_assoc. reflexivity.
Qed.

Lemma BFclose_aligned m df :
  BF_writable (15 + m) df ->
  exists df' f, BFclose df = Ok (1, df') /\ handle df' = Some f /\ byte_bits (contents f) = align (BF_out df).
Proof.
  intros Hw. destruct (BFclose_write m df Hw) as (df' & f & E & Hf & Hb). exists df', f. split; [done |].
  split; [done |]. rewrite Hb. unfold align. do 2 f_equal. unfold out_bits. rewrite zlen_app, zlen_bits.
  destruct Hw as (_ & Hbb & _). rewrite Z2Nat.id by lia. unfold zlen. rewrite length_byte_bits, Nat2Z.inj_mul.
  change (Z.of_nat 8) with 8. by rewrite pad_bits_add.
Qed.

Lemma zsum_occ C i m :
  zsum ((fun j => zlen (occ C (Z.of_nat j)) + 1) <$> seq i m) = zlen (posts C i m) + Z.of_nat m.
Proof.
  revert i. induction m as [|m IH]; intros i; [done |].
  cbn [seq]. rewrite fmap_cons, zsum_cons, posts_cons, zlen_app, IH. lia.
Qed.

(** ** The whole tool *)
Section Tool.
Context (be : bool) (disk : gmap string (list Z)) (garbage : Z -> list Z).
Context (Hg : forall k, 0 <= k -> zlen (garbage k) = k).

Lemma need_ok a e cid d :
  cid <> CompDirectory -> cid <> CompHuffCodes -> avail disk a cid = Some d -> wf_attribute disk a ->
  exists a', need be disk cid (mkCL (Some a) e) = Ok (tt, mkCL (Some a') e) /\ loads disk a a'.
Proof.
  intros H1 H2 Ha W. destruct (ensure_ok be disk a e cid d H1 H2 Ha W) as (c & a' & E & _ & _ & L & _).
  exists a'. split; [| done]. unfold need. by cda_call E.
Qed.

Context (C : list Z) (n : nat).

(** The weights of the leaves: one more than the frequencies. *)
Definition weights : list Z := (fun i => zlen (occ C (Z.of_nat i)) + 1) <$> seq 0 n.

Lemma zlen_weights : zlen weights = Z.of_nat n.
Proof using. unfold weights, zlen. by rewrite length_fmap, length_seq. Qed.

Lemma weights_cell i : 0 <= i < Z.of_nat n -> cell weights i = zlen (occ C i) + 1.
Proof using.
  intros Hi. apply cell_lookup; [lia |]. unfold weights. rewrite list_lookup_fmap, lookup_seq_lt by lia.
  cbn. by rewrite Z2Nat.id by lia.
Qed.

Lemma zsum_weights : Forall (fun c => 0 <= c < Z.of_nat n) C -> zsum weights = zlen C + Z.of_nat n.
Proof using.
  intros Hids. rewrite <- (zlen_posts C n Hids). apply zsum_occ.
Qed.

Lemma init_heap_ok a e :
  plain_corpus disk a C n -> zlen C < INT_MAX -> 2 * Z.of_nat n <= INT_MAX ->
  exists a' e', forM_up (init_round be disk (Z.of_nat n)) 0 (Z.of_nat n) (garbage (2 * Z.of_nat n)) (mkCL (Some a) e) =
    Ok (seqZ (Z.of_nat n) (Z.of_nat n) ++ weights, mkCL (Some a') e') /\ plain_corpus disk a' C n.
Proof using Hg.
  intros P HC Hn. set (N := Z.of_nat n) in *.
  destruct (forM_up_rule (init_round be disk N) (fun i h cl => zlen h = 2 * N /\
      (forall j, 0 <= j < i -> cell h j = N + j /\ cell h (N + j) = zlen (occ C j) + 1) /\
      exists a e, cl = mkCL (Some a) e /\ plain_corpus disk a C n) 0 N (garbage (2 * N)) (mkCL (Some a) e))
    as (h & cl & E & Hl & Hc & a' & e' & -> & P').
  - lia.
  - intros i h cl Hi (Hl & Hc & a1 & e1 & -> & P1). unfold init_round.
    rewrite u32_small by (unfold INT_MAX in *; lia).
    rewrite (bindM_lift _ _ _ _ (aset_Ok h i (N + i) ltac:(lia))).
    destruct (cl_id2freq_ok be disk a1 e1 _ _ i (pc_post _ _ _ _ P1)) as (a2 & (L & _) & E).
    rewrite (proj2 (Z.ltb_ge i 0)), occs_lookup, Z2Nat.id in E by lia. rewrite (bindM_Ok _ _ _ _ _ E).
    pose proof (occ_length C i) as Ho. pose proof (zlen_nonneg (occ C i)).
    rewrite (bindM_lift _ _ _ _ (c_int_Ok (zlen (occ C i) + 1) ltac:(unfold INT_MIN; lia))).
    rewrite u32_small by (unfold INT_MAX in *; lia).
    unfold lift. rewrite aset_Ok by (rewrite zlen_insert; lia). res_cbn.
    eexists _, _. split; [reflexivity |]. rewrite !zlen_insert. split; [done |]. split.
    + intros j Hj. rewrite !cell_insert by (rewrite ?zlen_insert; lia).
      rewrite (proj2 (Z.eqb_neq j (N + i))), (proj2 (Z.eqb_neq (N + j) i)) by lia.
      destruct (Z.eqb_spec j i) as [->|Hne]; [rewrite Z.eqb_refl; done |].
      rewrite (proj2 (Z.eqb_neq (N + j) (N + i))) by lia. apply Hc. lia.
    + exists a2, CDA_OK. split; [done |]. by eapply plain_corpus_loads.
  - rewrite Hg by lia. split; [lia |]. split; [lia |]. by exists a, e.
  - exists a', e'. split; [| done]. rewrite E. do 2 f_equal. apply cell_ext.
    { rewrite zlen_app, seqZ_zlen, zlen_weights by lia. lia. }
    intros i Hi. destruct (Z.lt_ge_cases i N).
    + rewrite cell_app_l by (rewrite seqZ_zlen; lia). destruct (Hc i ltac:(lia)) as [-> _].
      symmetry. apply cell_lookup; [lia |]. rewrite lookup_seqZ_lt by lia. f_equal. lia.
    + rewrite cell_app_r by (rewrite seqZ_zlen; lia). rewrite seqZ_zlen, weights_cell by lia.
      destruct (Hc (i - N) ltac:(lia)) as [_ Hw]. by replace (N + (i - N)) with i in Hw by lia.
Qed.

(** No code is longer than what the tool supports. *)
Definition codes_fit : Prop := forall heap,
  huffman_depths (seqZ (Z.of_nat n) (Z.of_nat n) ++ weights) (Z.of_nat n) = Ok heap ->
  Forall (fun x => x < MAXCODELEN) (fix_length <$> leaf_depths (Z.of_nat n) (cell heap)).

Context (Hids : Forall (fun c => 0 <= c < Z.of_nat n) C) (Hn : (0 < n)%nat).
Context (Hocc : Forall (fun ps => ps <> []) (occs C n)).

Lemma weights_pos : Forall (fun w => 2 <= w) weights.
Proof using Hocc Hn.
  apply Forall_fmap, Forall_forall. intros i Hi. apply elem_of_seq in Hi. cbn.
  pose proof (Forall_lookup_1 _ _ _ _ Hocc (occs_lookup C n i ltac:(lia))) as Hne. cbn in Hne.
  destruct (occ C (Z.of_nat i)); [done |]. rewrite zlen_cons. pose proof (zlen_nonneg l). lia.
Qed.

Lemma types_le_tokens : Z.of_nat n <= zlen C.
Proof using Hids Hn Hocc.
  pose proof (zsum_weights Hids) as Hz. pose proof weights_pos as Hw. revert Hz. rewrite <- zlen_weights.
  assert (forall l, Forall (fun w => 2 <= w) l -> 2 * zlen l <= zsum l) as Hl; [| specialize (Hl _ Hw); lia].
  induction 1 as [|x l Hx Hl IH]; [done |]. rewrite zlen_cons, zsum_cons. lia.
Qed.

Lemma run_tree :
  zlen C + Z.of_nat n <= INT_MAX - 2 ->
  exists heap par k, huffman_depths (seqZ (Z.of_nat n) (Z.of_nat n) ++ weights) (Z.of_nat n) = Ok heap /\
    zlen heap = 2 * Z.of_nat n /\ huff_tree (Z.of_nat n) (cell heap) par k /\
    2 * fib (k + 2) <= zlen C + Z.of_nat n.
Proof using Hids Hn Hocc.
  intros Htot. pose proof types_le_tokens. rewrite <- (zsum_weights Hids).
  apply huffman_depths_ok; [lia | apply zlen_weights | apply weights_pos | rewrite zsum_weights by done; lia | lia].
Qed.

(** A tree of height 32 needs more than eleven million tokens and types. *)
Lemma codes_fit_small : zlen C + Z.of_nat n < 2 * fib 34 -> codes_fit.
Proof using Hids Hn Hocc.
  intros Hsmall heap E. assert (2 * fib 34 <= INT_MAX - 2) as Hf by (vm_compute; discriminate).
  destruct (run_tree ltac:(lia)) as (heap' & par & k & E' & Hh & T & Hk). rewrite E in E'. injection E' as <-.
  assert (k <= 31)%nat as Hk31.
  { destruct (decide (k <= 31)%nat); [done |]. pose proof (fib_mono 34 (k + 2) ltac:(lia)). lia. }
  apply Forall_fmap, Forall_fmap, Forall_forall. intros i Hi. apply elem_of_seqZ in Hi. cbn.
  destruct (ht_depth _ _ _ _ T i ltac:(lia)). unfold fix_length, MAXCODELEN. case_Z; lia.
Qed.

(** The output files of the tool for a codebook [h]. *)
Record huff_output (h : HCD) (lens : list Z) (inn : Z -> Z) (files : hufffiles) : Prop := {
  hu_ok : hcd_ok h;
  hu_size : hcd_size h = Z.of_nat n;
  hu_length : hcd_length h = zlen C;
  hu_book : exists mn mx, codebook (Z.of_nat n) lens mn mx inn (min_code h) (symindex h) (symbols h);
  hu_hcd : contents (hcd_file files) = ints_be (hcd_ints h);
  hu_huf : exists f, handle (huf_file files) = Some f /\
    byte_bits (contents f) = align (stream (code_bits lens inn) C (length C));
  hu_sync : contents (sync_file files) =
    ints_be (sync_offset (code_bits lens inn) C <$> seq 0 (blocks (length C)))
}.

(** From the start to the frequencies in the heap. *)
Lemma compute_start a e dl :
  plain_corpus disk a C n -> avail disk a CompLexicon = Some dl ->
  exists a', loads disk a a' /\ plain_corpus disk a' C n /\
    (forall A (k : M A), (_ ← need be disk CompCorpus; _ ← need be disk CompLexicon;
       _ ← need be disk CompLexiconIdx; _ ← need be disk CompCorpusFreqs; k) (mkCL (Some a) e) = k (mkCL (Some a') e)).
Proof using All.
  intros P Hl. pose proof (pc_post _ _ _ _ P) as HP. pose proof (ix_wf _ _ _ _ HP) as W0.
  destruct (ix_lex _ _ _ _ HP) as (dx & Hx & _).
  destruct (need_ok a e CompCorpus _ ltac:(done) ltac:(done) (pc_corpus _ _ _ _ P) W0) as (a1 & E1 & L1).
  pose proof (loads_wf _ _ _ L1 W0) as W1.
  destruct (need_ok a1 e CompLexicon dl ltac:(done) ltac:(done)) as (a2 & E2 & L2);
    [by rewrite (loads_avail _ _ _ L1) | done |].
  assert (loads disk a a2) as L02 by by transitivity a1.
  destruct (need_ok a2 e CompLexiconIdx dx ltac:(done) ltac:(done)) as (a3 & E3 & L3);
    [by rewrite (loads_avail _ _ _ L02) | by apply (loads_wf _ _ _ L02) |].
  assert (loads disk a a3) as L03 by by transitivity a2.
  destruct (need_ok a3 e CompCorpusFreqs (ints_be (zlen <$> occs C n)) ltac:(done) ltac:(done)) as (a4 & E4 & L4);
    [rewrite (loads_avail _ _ _ L03); apply HP | by apply (loads_wf _ _ _ L03) |].
  assert (loads disk a a4) as L04 by by transitivity a3.
  exists a4. split; [done |]. split; [by eapply plain_corpus_loads |]. intros A k.
  by rewrite (bindM_Ok _ _ _ _ _ E1), (bindM_Ok _ _ _ _ _ E2), (bindM_Ok _ _ _ _ _ E3), (bindM_Ok _ _ _ _ _ E4).
Qed.

(** The codes are written with [hc] and the encoding loop. *)
Lemma compute_code_lengths_ok a e dl q1 q2 q3 :
  plain_corpus disk a C n -> avail disk a CompLexicon = Some dl ->
  zlen C + Z.of_nat n <= INT_MAX - 2 -> codes_fit -> 38 * zlen C <= 8 * INT_MAX ->
  4 * (100 + Z.of_nat n) <= q1 -> 38 * zlen C + 15 < 8 * q2 + 8 -> 4 * Z.of_nat (blocks (length C)) <= q3 ->
  exists h lens inn files a' e',
    compute_code_lengths be disk garbage (Some (mkFILE [] 0 q1 false)) (Some (mkFILE [] 0 q2 false))
      (Some (mkFILE [] 0 q3 false)) (mkCL (Some a) e) = Ok (Some files, mkCL (Some a') e') /\
    huff_output h lens inn files /\ plain_corpus disk a' C n.
Proof using All.
  intros P Hl Htot Hfit Hbits Hq1 Hq2 Hq3. unfold compute_code_lengths. pose proof types_le_tokens as Htt.
  destruct (compute_start a e dl P Hl) as (a1 & _ & P1 & E1). rewrite E1. clear E1.
  destruct (cl_max_id_ok be disk a1 e _ _ (pc_post _ _ _ _ P1)) as (a2 & (L2 & _) & E2). rewrite zlen_occs in E2.
  cda_call E2. change (negb (CDA_OK =? CDA_OK)) with false. rewrite (proj2 (Z.leb_gt (Z.of_nat n) 0)) by lia. cbn [orb].
  pose proof (plain_corpus_loads _ _ _ _ _ L2 P1) as P2. pose proof (pc_post _ _ _ _ P2) as HP2.
  destruct (cl_max_cpos_ok be disk a2 CDA_OK (zlen C) (ix_type _ _ _ _ HP2) (ix_wf _ _ _ _ HP2) (ix_size _ _ _ _ HP2))
    as (a3 & E3 & (L3 & _)).
  cda_call E3. change (negb (CDA_OK =? CDA_OK)) with false. rewrite (proj2 (Z.leb_gt (zlen C) 0)) by lia. cbn [orb].
  pose proof (plain_corpus_loads _ _ _ _ _ L3 P2) as P3.
  rewrite (bindM_lift _ _ _ _ (c_int_Ok (Z.of_nat n * 2) ltac:(unfold INT_MIN; lia))). rewrite (Z.mul_comm (Z.of_nat n) 2).
  destruct (init_heap_ok a3 CDA_OK P3 ltac:(lia) ltac:(lia)) as (a4 & e4 & E4 & P4). rewrite (bindM_Ok _ _ _ _ _ E4).
  destruct (run_tree Htot) as (heap & par & k & E5 & Hh & T & _). rewrite (bindM_lift _ _ _ _ E5).
  destruct (huffman_codes_ok (Z.of_nat n) heap par k T ltac:(lia) ltac:(lia) Hh (Hfit heap E5))
    as (l & mn & mx & inn & mc & si & heap' & E6 & Hof & Hmn & Hmx & Hmr & Hcl & Hci & E7 & E8 & Hh' & Hcodes & B).
  set (lens := fix_length <$> _) in *.
  rewrite (bindM_lift _ _ _ _ E6), Hmx, (proj2 (Z.leb_gt MAXCODELEN mx)), (proj2 (Z.eqb_neq mx 0)) by lia. cbn [andb].
  rewrite (bindM_lift _ _ _ _ E7). rewrite Hof. rewrite (bindM_lift _ _ _ _ E8).
  destruct (ensure_fwd be disk a4 e4 CompCorpus _ ltac:(done) ltac:(done) ltac:(done) ltac:(done)
              (pc_corpus _ _ _ _ P4) (ix_wf _ _ _ _ (pc_post _ _ _ _ P4))) as (c & a5 & E9 & _ & _ & (L5 & _)).
  rewrite (bindM_Ok _ _ _ _ _ E9). pose proof (plain_corpus_loads _ _ _ _ _ L5 P4) as P5. cda_lift c_assert_true.
  rewrite Hmn. set (h := mkHCD _ _ _ _ _ _ _ _).
  pose proof (cb_prefix _ _ _ _ _ _ _ _ B) as PL. pose proof (pl_mn _ _ _ _ PL). pose proof (pl_mx _ _ _ _ PL).
  assert (hcd_ok h) as Hok.
  { destruct B. split; cbn [h hcd_size hcd_length min_codelen max_codelen lcount symindex min_code symbols];
      try (unfold INT_MIN, MAXCODELEN, INT_MAX in *; lia); done. }
  destruct (WriteHCD_ok be h q1 Hok) as (hf & E10 & Hhf).
  { unfold hcd_ints. rewrite !zlen_app. destruct Hok as [_ _ _ _ [-> _] [-> _] [-> _] [-> _]].
    cbn [h hcd_size]. unfold MAXCODELEN. change (zlen [_; _; _; _]) with 4. lia. }
  rewrite (bindM_lift _ _ _ _ E10).
  destruct (BFopen_write q2 (38 * length C + 15)) as (df0 & E11 & Ho0 & Hw0); [unfold zlen in Hq2; lia |].
  pose proof E11 as E11'. injection E11' as Hdf0. rewrite (bindM_lift _ _ _ _ E11). cbn [fst snd].
  change (1 =? 0) with false. cbv iota.
  destruct (forM_up_rule (encode_token be disk lens heap' (Z.of_nat n)) (encode_inv disk C n lens inn) 0 (zlen C)
              (df0, mkFILE [] 0 q3 false) (mkCL (Some a5) e4)) as ([df sy] & cl & E12 & Hinv).
  - lia.
  - intros i st cl Hi Hinv.
    apply (encode_token_ok be disk C n lens mn mx inn PL (cb_n _ _ _ _ _ _ _ _ B) heap' Hh' Hcodes Hids Hbits); [lia | done].
  - split; [done |]. split; [intros _; by rewrite <- Hdf0 |]. split; [cbn [fst]; by rewrite Nat.sub_0_r |].
    split; [done |]. split; [cbn [snd quota]; change (blocks 0) with 0%nat; lia |]. by exists a5, e4.
  - rewrite (bindM_Ok _ _ _ _ _ E12). destruct Hinv as (Ho & _ & Hw & Hc & _ & a6 & e6 & -> & P6). cbn [fst snd] in *.
    replace (Z.to_nat (zlen C)) with (length C) in * by (unfold zlen; lia). rewrite Nat.sub_diag, Nat.mul_0_r in Hw.
    destruct (BFclose_aligned 0 df Hw) as (df' & f & E13 & Hf & Hb). rewrite (bindM_lift _ _ _ _ E13). cda.
    exists h, lens, inn. eexists _, a6, e6. split; [reflexivity |]. split; [| done].
    split; cbn [hcd_file huf_file sync_file snd]; [done | done | done | by exists mn, mx | done | | done].
    exists f. split; [done |]. by rewrite Hb, Ho.
Qed.
End Tool.
