(* ===== verification/HuffDecode.v ===== *)
(** * Reading the compressed token stream

    Decoding one code of the stream, loading the block of 128 tokens a position
    is in, and [cl_cpos2id] on a compressed attribute, with the state of its
    decompression buffer; and the check of cwb-huffcode that decodes the whole
    stream.  The files are those described in HuffEncode. *)

From Stdlib Require Import ZArith Lia Ascii String.
From stdpp Require Import base tactics option list numbers gmap strings sorting.
From S2P Require Import Prelude Bits Storage BitIO Golomb Blob Attributes CDA Lexicon Positional RevIndex MakeComps MakeFreqs MakeRevCorpus Huffcode HuffHeap HuffTree HuffCanon HuffEncode.

Open Scope Z_scope.

(** ** One code *)

Definition book (n : Z) (h : HCD) (lens : list Z) (inn : Z -> Z) : Prop :=
  exists mn mx, codebook n lens mn mx inn (min_code h) (symindex h) (symbols h).

Section Walk.
Context (n : Z) (h : HCD) (lens : list Z) (inn : Z -> Z) (B : book n h lens inn).

Lemma book_code c :
  0 <= c < n ->
  1 <= cell lens c < MAXCODELEN /\ 0 <= code_of lens inn c < 2 ^ cell lens c /\
  cell (min_code h) (cell lens c) <= code_of lens inn c /\
  (forall l, 1 <= l <= cell lens c -> 0 <= cell (min_code h) l <= INT_MAX) /\
  (forall l, 1 <= l < cell lens c -> Z.shiftr (code_of lens inn c) (cell lens c - l) < cell (min_code h) l) /\
  cell (symindex h) (cell lens c) + code_of lens inn c - cell (min_code h) (cell lens c) = place lens c /\
  0 <= cell (symindex h) (cell lens c) <= INT_MAX /\ 0 <= place lens c < n /\ cell (symbols h) (place lens c) = c.
Proof using B.
  intros Hc. destruct B as (mn & mx & [PL Hn Hmax L1 C1 I1 L2 C2 I2 L3 C3 I3]).
  destruct (code_range lens mn mx inn PL c ltac:(lia)) as (H1 & H2 & H3).
  pose proof (pl_mn _ _ _ _ PL). pose proof (pl_mx _ _ _ _ PL).
  split; [lia |]. split; [done |]. split; [rewrite C1 by lia; lia |].
  split; [intros l Hl; apply cell_small; [done | lia] |]. split.
  { intros l Hl. rewrite C1 by lia. apply (code_prefix lens mn mx inn PL); lia. }
  split; [rewrite C1, C2 by lia; unfold place, code_of; lia |].
  split; [apply cell_small; [done | lia] |]. split; [rewrite <- Hn; apply place_bound; lia | by apply C3].
Qed.

(** The bits of a code that were not read yet. *)
Lemma code_push c l :
  0 <= c < n -> 1 <= l < cell lens c ->
  let code := code_of lens inn c in
  exists b, bits (Z.to_nat (cell lens c - l)) code = b :: bits (Z.to_nat (cell lens c - (l + 1))) code /\
    snoc_bit (Z.shiftr code (cell lens c - l)) b = Z.shiftr code (cell lens c - (l + 1)) /\
    0 <= Z.shiftr code (cell lens c - l) < 2 ^ l.
Proof using B.
  intros Hc Hl code. destruct (book_code c Hc) as (HL & Hr & _). set (L := cell lens c) in *. fold code in Hr.
  exists (Z.testbit code (L - (l + 1))).
  replace (Z.to_nat (L - l)) with (S (Z.to_nat (L - (l + 1)))) by lia. cbn [bits]. rewrite Z2Nat.id by lia.
  split; [done |]. split.
  - unfold snoc_bit. set (j := L - (l + 1)). replace (L - l) with (j + 1) by lia. rewrite <- Z.shiftr_shiftr by lia.
    rewrite (Z.shiftr_div_pow2 _ 1), Z.pow_1_r by lia.
    assert (Z.testbit code j = Z.testbit (Z.shiftr code j) 0) as -> by (rewrite Z.shiftr_spec by lia; f_equal; lia).
    rewrite Z.bit0_mod. set (x := Z.shiftr code j). pose proof (Z.div_mod x 2). lia.
  - rewrite Z.shiftr_div_pow2 by lia. split; [apply Z.div_pos; lia |].
    apply Z.div_lt_upper_bound; [lia |]. rewrite <- Z.pow_add_r, Z.sub_add by lia. lia.
Qed.

(** A loop that compares the bits read so far with [min_code] and appends the
    next bit decodes a code up to its last bit. *)
Context {S : Type} `{R : BitReader S} (step : S * Z * Z -> res (S * Z * Z + option (S * Z * Z))).
Hypothesis step_more : forall s v l b r,
  0 <= l < zlen (min_code h) -> 0 <= v < 2 ^ 30 -> v < cell (min_code h) l <= INT_MAX -> rd_ok s -> rd_in s = b :: r ->
  exists s', step (s, v, l) = Ok (inl (s', snoc_bit v b, l + 1)) /\ rd_in s' = r /\ rd_ok s' /\ rd_mid s'.
Hypothesis step_done : forall s v l,
  0 <= l < zlen (min_code h) -> 0 <= cell (min_code h) l <= INT_MAX -> cell (min_code h) l <= v -> step (s, v, l) = Ok (inr (Some (s, v, l))).

Lemma walk_ok c b k r s :
  0 <= c < n -> code_bits lens inn c = b :: k -> rd_ok s -> rd_mid s -> rd_in s = k ++ r ->
  exists s', loop step fuel (s, Z.b2z b, 1) = Ok (Some (s', code_of lens inn c, cell lens c)) /\
    rd_in s' = r /\ rd_ok s' /\ rd_mid s'.
Proof using All.
  intros Hc Hcode Hs Hmid Hin. destruct (book_code c Hc) as (HL & Hr & Hmin & Hint & Hpre & _).
  assert (zlen (min_code h) = MAXCODELEN) as Hlen by (by destruct B as (? & ? & []); done).
  assert (forall l, 1 <= l <= cell lens c -> 2 ^ l <= 2 ^ 31) as Hpow by (unfold MAXCODELEN in *; intros; apply Z.pow_le_mono_r; lia).
  set (code := code_of lens inn c) in *. set (L := cell lens c) in *.
  assert (k = bits (Z.to_nat (L - 1)) code /\ Z.b2z b = Z.shiftr code (L - 1)) as [-> Hb].
  { unfold code_bits in Hcode. fold L code in Hcode. replace (Z.to_nat L) with (Datatypes.S (Z.to_nat (L - 1))) in Hcode by lia.
    cbn [bits] in Hcode. injection Hcode as <- <-. split; [done |]. rewrite Z2Nat.id by lia.
    rewrite Z.testbit_spec', Z.shiftr_div_pow2 by lia. apply Z.mod_small. split; [apply Z.div_pos; lia |].
    apply Z.div_lt_upper_bound; [lia |]. rewrite <- (Z.pow_1_r 2) at 2. rewrite <- Z.pow_add_r by lia.
    rewrite Z.sub_add. lia. }
  rewrite Hb.
  loop_with (fun '(t, v, l) => 1 <= l <= L /\ v = Z.shiftr code (L - l) /\ rd_ok t /\ rd_mid t /\
               rd_in t = bits (Z.to_nat (L - l)) code ++ r)
    (fun o => exists t, o = Some (t, code, L) /\ rd_in t = r /\ rd_ok t /\ rd_mid t)
    (fun '(t, v, l) => L - l : Z) o E H.
  - intros [[t v] l] (Hl & -> & Ht & Hmt & Hint'). split; [lia |].
    destruct (Z.eq_dec l L) as [->|Hne].
    + right. rewrite Z.sub_diag, Z.shiftr_0_r in *. rewrite step_done by (auto with lia; lia).
      eexists. split; [reflexivity |]. by exists t.
    + left. destruct (code_push c l Hc ltac:(lia)) as (b' & Hbits & Hpush & Hvr). fold L code in Hbits, Hpush, Hvr.
      rewrite Hbits in Hint'. pose proof (Hpre l ltac:(lia)) as Hlt. pose proof (Hint l ltac:(lia)).
      assert (0 <= Z.shiftr code (L - l) < 2 ^ 30) as Hsmall.
      { split; [lia |]. apply (Z.lt_le_trans _ (2 ^ l)); [lia |]. apply Z.pow_le_mono_r; unfold MAXCODELEN in *; lia. }
      destruct (step_more t (Z.shiftr code (L - l)) l b' (bits (Z.to_nat (L - (l + 1))) code ++ r)
                  ltac:(lia) Hsmall ltac:(lia) Ht Hint') as (t' & -> & Hin' & Ht' & Hmt').
      eexists. split; [reflexivity |]. split; [split; [lia |]; split; [by rewrite Hpush |]; done | lia].
  - split; [lia |]. done.
  - rewrite fuel_val. unfold MAXCODELEN in *. lia.
  - destruct H as (t & -> & H). by exists t.
Qed.
End Walk.

(** ** One token *)
Section Item.
Context (be : bool) (n : Z) (h : HCD) (lens : list Z) (inn : Z -> Z) (B : book n h lens inn).

(** The descriptor as it is in memory: the symbols are the bytes of the file. *)
Definition mem_hcd : HCD :=
  mkHCD (hcd_size h) (hcd_length h) (min_codelen h) (max_codelen h) (lcount h) (symindex h) (min_code h)
    (ints_be (symbols h)).

Lemma push_nonzero v b : 0 <= v < 2 ^ 30 ->
  (if negb (Z.b2z b =? 0) then Z.shiftl v 1 + 1 else Z.shiftl v 1) = snoc_bit v b.
Proof using. intros Hv. unfold snoc_bit. rewrite Z.shiftl_mul_pow2, Z.pow_1_r by lia. destruct b; cbn; lia. Qed.

Lemma huff_round_more (s : BStream) v l b r :
  0 <= l < zlen (min_code h) -> 0 <= v < 2 ^ 30 -> v < cell (min_code h) l <= INT_MAX -> rd_ok s -> rd_in s = b :: r ->
  exists s', huff_round mem_hcd (s, v, l) = Ok (inl (s', snoc_bit v b, l + 1)) /\ rd_in s' = r /\ rd_ok s' /\ rd_mid s'.
Proof using.
  intros Hl Hv Hm Hs Hin. unfold huff_round. cbn [min_code mem_hcd]. rewrite aget_cell by done. res_cbn.
  rewrite u32_small by (unfold INT_MAX in *; lia). rewrite (proj2 (Z.ltb_lt _ _)) by lia.
  destruct (rd_bit b r s Hs Hin) as (s' & E & H). change (rd_bits 1 s) with (BSread 1 s) in E. rewrite E. res_cbn.
  change (1 =? 0) with false. cbv iota. exists s'. split; [| done].
  rewrite (u32_small (Z.shiftl v 1)) by (rewrite Z.shiftl_mul_pow2, Z.pow_1_r by lia; lia).
  rewrite <- push_nonzero by done. do 4 f_equal. case_match; [| done].
  rewrite u32_small; [done | rewrite Z.shiftl_mul_pow2, Z.pow_1_r by lia; lia].
Qed.

Lemma huff_round_done (s : BStream) v l :
  0 <= l < zlen (min_code h) -> 0 <= cell (min_code h) l <= INT_MAX -> cell (min_code h) l <= v ->
  huff_round mem_hcd (s, v, l) = Ok (inr (Some (s, v, l))).
Proof using.
  intros Hl Hm Hv. unfold huff_round. cbn [min_code mem_hcd]. rewrite aget_cell by done. res_cbn.
  rewrite u32_small by (unfold INT_MAX in *; lia). by rewrite (proj2 (Z.ltb_ge _ _)) by lia.
Qed.

Lemma code_bits_cons c : 0 <= c < n -> exists b k, code_bits lens inn c = b :: k.
Proof using B.
  intros Hc. destruct (book_code n h lens inn B c Hc) as (HL & _). unfold code_bits.
  replace (Z.to_nat (cell lens c)) with (S (Z.to_nat (cell lens c - 1))) by lia. by eexists _, _.
Qed.

Lemma huff_item_ok c r (s : BStream) :
  0 <= c < n -> rd_ok s -> rd_in s = code_bits lens inn c ++ r ->
  exists s', huff_item be mem_hcd s = Ok (Some (c, s')) /\ rd_in s' = r /\ rd_ok s'.
Proof using B.
  intros Hc Hs Hin. destruct (code_bits_cons c Hc) as (b & k & Hcode). rewrite Hcode in Hin. cbn [app] in Hin.
  unfold huff_item. destruct (rd_bit b (k ++ r) s Hs Hin) as (s1 & E1 & Hin1 & Hs1 & Hm1).
  change (rd_bits 1 s) with (BSread 1 s) in E1. rewrite E1. res_cbn. change (1 =? 0) with false. cbv iota.
  replace (if negb (Z.b2z b =? 0) then 1 else 0) with (Z.b2z b) by by destruct b.
  destruct (walk_ok n h lens inn B (huff_round mem_hcd) huff_round_more huff_round_done c b k r s1 Hc Hcode Hs1 Hm1 Hin1)
    as (s2 & -> & Hin2 & Hs2 & _). res_cbn.
  destruct (book_code n h lens inn B c Hc) as (HL & Hcr & Hmin & Hint & _ & Hp & Hsi & Hpl & Hsym).
  pose proof B as (mn & mx & []). cbn [symindex min_code symbols mem_hcd].
  rewrite !aget_cell by lia. res_cbn. rewrite Hp, u32_small by (unfold INT_MAX in *; lia).
  rewrite <- (app_nil_r (ints_be _)), <- (Z2Nat.id (place lens c)) by lia.
  rewrite (nget_int_ints_be be _ [] _ c); cycle 1.
  { rewrite <- Hsym at 2. apply lookup_cell. lia. }
  { unfold INT_MIN, INT_MAX in *. lia. }
  res_cbn. by exists s2.
Qed.
End Item.

(** ** One block *)

(** The offset of a block and the bits from there on. *)
Lemma byte_bits_drop k l : byte_bits (drop k l) = drop (8 * k) (byte_bits l).
Proof.
  revert l. induction k as [|k IH]; intros l; [by rewrite !drop_0 |].
  destruct l as [|x l]; [by rewrite !drop_nil |]. cbn [drop]. rewrite IH, byte_bits_cons.
  replace (8 * S k)%nat with (length (bits 8 x) + 8 * k)%nat by (rewrite length_bits; lia).
  by rewrite drop_app_add.
Qed.

Section Block.
Context (be : bool) (n : Z) (h : HCD) (lens : list Z) (inn : Z -> Z) (B : book n h lens inn).
Context (C : list Z) (Hids : Forall (fun c => 0 <= c < n) C) (Hlen : hcd_length h = zlen C).
Context (Hbits : 38 * zlen C <= 8 * INT_MAX).
Context (d : list Z) (Hd : byte_bits d = align (stream (code_bits lens inn) C (length C))).

#[local] Abbreviation tok := (code_bits lens inn).

(** The number of tokens in block [b]. *)
Definition block_size (b : nat) : nat := (128 `min` (length C - 128 * b))%nat.

Lemma tokens_bits b k :
  (128 * b + k <= length C)%nat ->
  (seq (128 * b) k ≫= fun i => tok (cell C (Z.of_nat i))) = (take k (drop (128 * b) C) ≫= tok).
Proof using.
  intros Hk. rewrite <- (list_fmap_bind (fun i => cell C (Z.of_nat i)) tok). f_equal. apply list_eq. intros i.
  rewrite list_lookup_fmap. destruct (decide (i < k)%nat) as [Hi|Hi].
  - rewrite lookup_seq_lt, lookup_take_lt, lookup_drop by done. cbn.
    rewrite <- (lookup_cell C) by (unfold zlen; lia). by rewrite Nat2Z.id.
  - rewrite lookup_seq_ge, lookup_take_ge by lia. done.
Qed.

(** The bits from the offset of a block on start with the codes of its tokens. *)
Lemma block_bits b :
  (128 * b < length C)%nat ->
  let o := sync_offset tok C b in
  0 <= o <= INT_MAX /\ o * 8 = zlen (align (stream tok C (128 * b))) /\
  exists r, byte_bits (drop (Z.to_nat o) d) = (take (block_size b) (drop (128 * b) C) ≫= tok) ++ r.
Proof using All.
  intros Hb o.
  assert (o * 8 = zlen (align (stream tok C (128 * b)))) as Ho.
  { subst o. unfold sync_offset. pose proof (align_div8 (stream tok C (128 * b))) as [j Hj]. rewrite Hj.
    rewrite Z.div_mul by lia. done. }
  pose proof B as (mn & mx & [PL Hn _ _ _ _ _ _ _ _ _ _]).
  pose proof (str_size C (Z.to_nat n) lens mn mx inn PL) as Hsz.
  assert (zlen (align (stream tok C (128 * b))) <= 8 * INT_MAX + 7) as Hle.
  { destruct C as [|c0 C']; [cbn in Hb; lia |].
    assert (0 <= n) by (pose proof (Forall_inv Hids); cbn in *; lia).
    apply Hsz; [lia | | done | lia]. by rewrite Z2Nat.id by lia. }
  pose proof (zlen_nonneg (align (stream tok C (128 * b)))).
  split; [lia |]. split; [done |].
  rewrite byte_bits_drop, Hd. replace (8 * Z.to_nat o)%nat with (length (align (stream tok C (128 * b)))) by (unfold zlen in *; lia).
  assert (0 < block_size b)%nat as Hpos by (unfold block_size; lia).
  assert (stream tok C (128 * b + block_size b) `prefix_of` align (stream tok C (length C))) as [r Hr].
  { transitivity (stream tok C (length C)); [apply stream_mono; unfold block_size; lia | by eexists]. }
  exists r. rewrite Hr. replace (block_size b) with (S (block_size b - 1)) by lia.
  rewrite stream_block by (unfold block_size; lia). rewrite tokens_bits by (unfold block_size in *; lia).
  by rewrite <- app_assoc, drop_app_length.
Qed.

(** Decoding the tokens of a block into the buffer. *)
Lemma huff_block_loop (ts : list Z) r bs block :
  Forall (fun c => 0 <= c < n) ts -> (length ts <= length block)%nat -> zlen block = SYNCHRONIZATION ->
  rd_ok bs -> rd_in bs = (ts ≫= tok) ++ r ->
  exists bs' block', loop (huff_block_round be (mem_hcd h) (zlen ts)) fuel (0, bs, block) = Ok (block', Some bs') /\
    rd_ok bs' /\ zlen block' = SYNCHRONIZATION /\ take (length ts) block' = ts.
Proof using B.
  clear Hids Hlen Hbits d Hd C. intros Hts Hle Hbl Hok Hin.
  loop_with (fun '(i, t, bl) => 0 <= i <= zlen ts /\ zlen bl = SYNCHRONIZATION /\ take (Z.to_nat i) bl = take (Z.to_nat i) ts /\
               rd_ok t /\ rd_in t = (drop (Z.to_nat i) ts ≫= tok) ++ r)
    (fun o => exists t bl, o = (bl, Some t) /\ rd_ok t /\ zlen bl = SYNCHRONIZATION /\ take (length ts) bl = ts)
    (fun '(i, t, bl) => zlen ts - i : Z) o E H.
  - intros [[i t] bl] (Hi & Hl & Htk & Ht & Hint). split; [lia |]. unfold huff_block_round.
    destruct (Z.ltb_spec i (zlen ts)) as [Hlt|Hge].
    + left. destruct (lookup_lt_is_Some_2 ts (Z.to_nat i)) as [c Hc]; [unfold zlen in *; lia |].
      rewrite (drop_S _ _ _ Hc) in Hint. cbn [mbind list_bind] in Hint. rewrite <- app_assoc in Hint.
      destruct (huff_item_ok be n h lens inn B c _ t (Forall_lookup_1 _ _ _ _ Hts Hc) Ht Hint) as (t' & -> & Hin' & Ht').
      res_cbn. unfold SYNCHRONIZATION in *. rewrite aset_Ok by (unfold zlen in *; lia). res_cbn.
      eexists. split; [reflexivity |]. split; [| lia]. rewrite zlen_insert.
      replace (Z.to_nat (i + 1)) with (S (Z.to_nat i)) by lia. do 2 (split; [lia |]). split; [| done].
      rewrite (take_S_r _ _ _ Hc), (take_S_r _ _ c) by (apply list_lookup_insert_eq; unfold zlen in *; lia).
      by rewrite take_insert_ge, Htk by lia.
    + right. assert (i = zlen ts) as -> by lia. eexists. split; [reflexivity |]. exists t, bl. split; [done |].
      split; [done |]. split; [done |]. unfold zlen in Htk. rewrite Nat2Z.id in Htk. by rewrite Htk, firstn_all.
  - pose proof (zlen_nonneg ts). split; [lia |]. split; [done |]. split; [done |]. split; [done |]. by rewrite drop_0.
  - rewrite fuel_val. unfold SYNCHRONIZATION, zlen in *. lia.
  - destruct H as (t & bl & -> & H). eauto.
Qed.

Lemma huff_load_block_ok b a :
  (128 * b < length C)%nat -> zlen (this_block a) = SYNCHRONIZATION -> zlen C <= INT_MAX ->
  exists block, huff_load_block be (mem_hcd h) d (ints_be (sync_offset tok C <$> seq 0 (blocks (length C)))) (Z.of_nat b) a =
      Ok (true, set_block a (Z.of_nat b) block) /\
    zlen block = SYNCHRONIZATION /\ take (block_size b) block = take (block_size b) (drop (128 * b) C).
Proof using All.
  intros Hb Hbl HC. destruct (block_bits b Hb) as (Ho & Ho8 & r & Hr). set (o := sync_offset tok C b) in *.
  unfold huff_load_block. cbn [hcd_length mem_hcd]. rewrite Hlen. unfold SYNCHRONIZATION in *.
  rewrite (u32_small (zlen C - Z.of_nat b * 128)) by (unfold INT_MAX, zlen in *; lia).
  assert ((if 128 <? zlen C - Z.of_nat b * 128 then 128 else zlen C - Z.of_nat b * 128) = Z.of_nat (block_size b)) as Hmax.
  { unfold block_size, zlen. case_Z; lia. }
  rewrite Hmax. clear Hmax.
  assert (b < blocks (length C))%nat as Hbb.
  { pose proof (blocks_mono (S (128 * b)) (length C) ltac:(lia)) as Hm. rewrite blocks_S, at_sync_block in Hm.
    pose proof (blocks_sync _ (at_sync_block b)). lia. }
  assert (nget be (ints_be (sync_offset tok C <$> seq 0 (blocks (length C)))) (Z.of_nat b) = Ok o) as ->.
  { rewrite <- (app_nil_r (ints_be _)). rewrite (nget_ints_be be _ [] b o).
    - by rewrite u32_small by (unfold INT_MAX in *; lia).
    - rewrite list_lookup_fmap, lookup_seq_lt by done. done. }
  res_cbn. unfold BSopen. change (is_mode (mode _)) with true. res_cbn. cbn [BSseek snd handle mode].
  set (bs := mkBit _ _ _ _ _). set (ts := take (block_size b) (drop (128 * b) C)) in *.
  assert (length ts = block_size b) as Hts by (subst ts; rewrite length_take, length_drop; unfold block_size; lia).
  assert (rd_in bs = (ts ≫= tok) ++ r) as Hin.
  { cbn. unfold in_bits. cbn. by rewrite (proj2 (Z.leb_le 0 o)) by lia. }
  assert (rd_ok bs) as Hok.
  { cbn. split; [unfold readable; cbn; split; [done | split; [lia | done]] |].
    change (in_bits BS_rest bs) with (rd_in bs). rewrite Hin, <- Hr, byte_bits_drop, Hd.
    rewrite length_drop. pose proof B as (mn & mx & [PL Hn _ _ _ _ _ _ _ _ _ _]).
    pose proof (str_size C (Z.to_nat n) lens mn mx inn PL) as Hsz.
    assert (0 <= n) by (rewrite <- Hn; apply zlen_nonneg).
    specialize (Hsz ltac:(lia) ltac:(by rewrite Z2Nat.id by lia) Hbits (length C) ltac:(lia)). unfold zlen, INT_MAX in Hsz. lia. }
  destruct (huff_block_loop ts r bs (this_block a)) as (bs' & block & E & ((Hm & _) & _) & Hbl' & Htk); [| | done | done | done |].
  { by apply Forall_take, Forall_drop. }
  { rewrite Hts. unfold zlen, block_size in *. lia. }
  unfold zlen in E at 1. rewrite Hts in E. rewrite E. res_cbn. unfold BSclose.
  rewrite Hm. change (Ascii.eqb "r" "w") with false. cbv iota. res_cbn. rewrite s32_small by (unfold zlen, INT_MAX in *; lia).
  exists block. split; [done |]. split; [done |]. by rewrite <- Hts.
Qed.
End Block.

(** ** The descriptor block *)

Lemma load_hcd_ok be h : hcd_ok h -> load_hcd be (ints_be (hcd_ints h)) = Ok (mem_hcd h).
Proof.
  intros [Hs Hl Hmn Hmx [Hc1 Hi1] [Hc2 Hi2] [Hc3 Hi3] [Hc4 Hi4]]. unfold load_hcd, hcd_ints.
  assert (forall l, ints_only l -> Forall (fun v => INT_MIN <= v <= INT_MAX) l) as Hint.
  { intros l Hl'. eapply Forall_impl; [exact Hl' |]. intros x Hx. cbn in Hx. unfold INT_MIN. lia. }
  set (hd := [hcd_size h; hcd_length h; min_codelen h; max_codelen h]).
  set (all := hd ++ _).
  assert (forall (i : nat) v, hd !! i = Some v -> INT_MIN <= v <= INT_MAX ->
            nget_int be (ints_be all) (Z.of_nat i) = Ok v) as Hhd.
  { intros i v Hi Hv. rewrite <- (app_nil_r (ints_be all)). apply nget_int_ints_be; [| done].
    unfold all. by rewrite (lookup_app_l_Some _ _ _ _ Hi). }
  pose proof (Hhd 0%nat _ eq_refl Hs) as E0. pose proof (Hhd 1%nat _ eq_refl Hl) as E1.
  pose proof (Hhd 2%nat _ eq_refl Hmn) as E2. pose proof (Hhd 3%nat _ eq_refl Hmx) as E3.
  change (Z.of_nat 0) with 0 in E0. change (Z.of_nat 1) with 1 in E1. change (Z.of_nat 2) with 2 in E2.
  change (Z.of_nat 3) with 3 in E3. rewrite E0, E1, E2, E3.
  assert (forall pre mid post, all = pre ++ mid ++ post -> ints_only mid -> zlen mid = MAXCODELEN ->
            nget_ints be (ints_be all) (zlen pre) (Z.to_nat MAXCODELEN) = Ok mid) as Hget.
  { intros pre mid post -> Hm Hz. replace (Z.to_nat MAXCODELEN) with (length mid) by (unfold zlen in Hz; lia).
    apply nget_ints_ok. by apply Hint. }
  unfold MAXCODELEN in *.
  assert (zlen (hd ++ lcount h) = 4 + 32) as Z1 by (rewrite zlen_app, Hc1; done).
  assert (zlen (hd ++ lcount h ++ symindex h) = 4 + 2 * 32) as Z2 by (rewrite !zlen_app, Hc1, Hc2; done).
  assert (zlen (hd ++ lcount h ++ symindex h ++ min_code h) = 4 + 3 * 32) as Z3 by (rewrite !zlen_app, Hc1, Hc2, Hc3; done).
  pose proof (Hget hd (lcount h) _ eq_refl Hi1 Hc1) as G1. change (zlen hd) with 4 in G1.
  pose proof (Hget (hd ++ lcount h) (symindex h) (min_code h ++ symbols h) ltac:(unfold all; by rewrite <- app_assoc) Hi2 Hc2) as G2.
  pose proof (Hget (hd ++ lcount h ++ symindex h) (min_code h) (symbols h) ltac:(unfold all; by rewrite <- !app_assoc) Hi3 Hc3) as G3.
  rewrite Z1 in G2. rewrite Z2 in G3. res_cbn. rewrite G1. res_cbn. rewrite G2. res_cbn. rewrite G3. res_cbn.
  unfold mem_hcd. do 2 f_equal.
  unfold all. rewrite !app_assoc, ints_be_app, <- !app_assoc.
  rewrite <- Z3. replace (Z.to_nat (4 * _)) with (length (ints_be (hd ++ lcount h ++ symindex h ++ min_code h))); [by rewrite drop_app_length |].
  pose proof (zlen_ints_be (hd ++ lcount h ++ symindex h ++ min_code h)) as Hz. unfold zlen in *. lia.
Qed.

(** ** [cl_cpos2id] on a compressed attribute *)
Section Access.
Context (be : bool) (disk : gmap string (list Z)) (C : list Z) (n : Z) (h : HCD) (lens : list Z) (inn : Z -> Z).

#[local] Abbreviation tok := (code_bits lens inn).

(** The descriptor describes a code for the tokens [C]. *)
Record huff_book : Prop := {
  hb_book : book n h lens inn;
  hb_hcd : hcd_ok h;
  hb_length : hcd_length h = zlen C;
  hb_ids : Forall (fun c => 0 <= c < n) C;
  hb_bits : 38 * zlen C <= 8 * INT_MAX
}.

(** The decompression buffer is unused, or holds the tokens of its block. *)
Definition buffer_ok (a : Attribute) : Prop :=
  zlen (this_block a) = SYNCHRONIZATION /\
  (this_block_nr a = -1 \/
   exists b, this_block_nr a = Z.of_nat b /\ (128 * b < length C)%nat /\
     take (block_size C b) (this_block a) = take (block_size C b) (drop (128 * b) C)).

(** The attribute has the files of the compressed token stream, and the
    descriptor block is in memory or will be loaded with the first access. *)
Record huff_corpus (a : Attribute) : Prop := {
  hf_type : type a = ATT_POS;
  hf_wf : wf_attribute disk a;
  hf_seq : exists d, avail disk a CompHuffSeq = Some d /\ byte_bits d = align (stream tok C (length C));
  hf_sync : avail disk a CompHuffSync = Some (ints_be (sync_offset tok C <$> seq 0 (blocks (length C))));
  hf_codes : avail disk a CompHuffCodes = Some (ints_be (hcd_ints h));
  hf_state :
    (hc a = None /\ component_state disk a CompCorpus <> ComponentLoaded /\
       component_state disk a CompHuffCodes = ComponentUnloaded) \/
    (hc a = Some (mem_hcd h) /\ component_state disk a CompHuffCodes = ComponentLoaded);
  hf_block : buffer_ok a
}.

Lemma huff_compressed a : huff_corpus a -> sequence_compressed disk a = true.
Proof using.
  intros [T W (d & Hd & _) Hs Hc Hst _]. unfold sequence_compressed.
  destruct Hst as [(-> & Hcorp & _)|[-> _]]; [| done]. rewrite decide_False by done.
  assert (forall cid, is_Some (avail disk a cid) -> is_accessible (component_state disk a cid) = true) as Hacc
    by (intros; by apply is_accessible_avail).
  by rewrite (Hacc CompHuffSeq), (Hacc CompHuffCodes), (Hacc CompHuffSync) by (by rewrite ?Hd, ?Hc, ?Hs).
Qed.

Lemma huff_corpus_loads a a' :
  loads disk a a' -> component_state disk a' CompCorpus = component_state disk a CompCorpus ->
  component_state disk a' CompHuffCodes = component_state disk a CompHuffCodes -> huff_corpus a -> huff_corpus a'.
Proof using.
  intros L HC HH [T W Hd Hs Hc Hst [Hb1 Hb2]]. split.
  - by rewrite (loads_type _ _ _ L).
  - by apply (loads_wf _ _ _ L).
  - by rewrite (loads_avail _ _ _ L).
  - by rewrite (loads_avail _ _ _ L).
  - by rewrite (loads_avail _ _ _ L).
  - by rewrite (loads_hc _ _ _ L), HC, HH.
  - unfold buffer_ok. by rewrite (loads_nr _ _ _ L), (loads_block _ _ _ L).
Qed.

Lemma ensure_huff_file a e cid d :
  cid = CompHuffSeq \/ cid = CompHuffSync -> avail disk a cid = Some d -> huff_corpus a ->
  exists c a', ensure be disk cid (mkCL (Some a) e) = Ok (Some c, mkCL (Some a') e) /\
    comp_bytes c = Ok d /\ loads disk a a' /\ huff_corpus a'.
Proof using.
  intros Hcid Ha H. destruct (ensure_ok be disk a e cid d) as (c & a' & E & Hd & _ & L & _ & Ho);
    [by destruct Hcid as [-> | ->] | by destruct Hcid as [-> | ->] | done | apply H |].
  exists c, a'. split; [done |]. split; [unfold comp_bytes; by rewrite Hd |]. split; [done |].
  apply (huff_corpus_loads a); [done | | | done]; apply Ho; by destruct Hcid as [-> | ->].
Qed.

(** Loading the descriptor block. *)
Lemma ensure_huff_codes a e :
  hcd_ok h -> huff_corpus a ->
  exists c a', ensure be disk CompHuffCodes (mkCL (Some a) e) = Ok (Some c, mkCL (Some a') e) /\
    huff_corpus a' /\ hc a' = Some (mem_hcd h) /\ component_state disk a' CompHuffCodes = ComponentLoaded /\
    (forall cid, avail disk a' cid = avail disk a cid) /\
    (forall cid, cid <> CompHuffCodes -> component_state disk a' cid = component_state disk a cid).
Proof using.
  intros Hok H. pose proof (huff_compressed a H) as Hseq. destruct H as [T W Hd Hs Hc Hst Hb].
  assert (exists c, components a !! CompHuffCodes = Some c) as [c Hcc].
  { unfold avail in Hc. destruct (components a !! CompHuffCodes); [eauto | done]. }
  assert (component_state disk a CompHuffCodes = comp_component_state disk CompHuffCodes c) as Hcs
    by (unfold component_state; by rewrite Hcc).
  destruct Hst as [(Hn & Hcorp & Hl)|[Hh Hl]]; rewrite Hcs in Hl.
  - assert (data (comp_data c) = None /\ exists p, path c = Some p /\ disk !! p = Some (ints_be (hcd_ints h))) as (Hdn & p & Hp & Hf).
    { unfold avail in Hc. rewrite Hcc in Hc. cbn in Hc. revert Hl Hc. unfold comp_component_state, comp_avail, file_of.
      destruct (data (comp_data c)); [done |]. rewrite !decide_False by done. destruct (path c) as [p|]; [| done]. eauto. }
    set (c' := mkComp (path c) (hcd_length h) (mkBlob (zlen (ints_be (hcd_ints h))) SIZE_INT
       (u32 (zlen (ints_be (hcd_ints h)) / SIZE_INT)) (Some (ints_be (hcd_ints h))) MMAPPED)).
    set (a' := set_hc (set_components a (<[CompHuffCodes := c']> (components a))) (Some (mem_hcd h))).
    assert (load_component be disk a CompHuffCodes = Ok a') as E.
    { unfold load_component. rewrite Hcc, Hl, Hp. change (c_assert true) with (Ok ()). res_cbn.
      rewrite decide_True, Hseq by done. unfold file_of, read_file_into_blob. rewrite Hp, Hf.
      change (negb ((MMAPPED =? MMAPPED) || (MMAPPED =? MALLOCED))) with false. cbv iota zeta beta.
      change (1 =? 0) with false. cbv iota. cbn [data]. res_cbn. rewrite (load_hcd_ok be h Hok). res_cbn.
      unfold a', c'. by rewrite Hp. }
    assert (component_state disk a' CompHuffCodes = ComponentLoaded) as Hload.
    { unfold component_state, a'. cbn [components set_components set_hc]. by rewrite lookup_insert_eq. }
    assert (forall cid, avail disk a' cid = avail disk a cid) as Hav.
    { intros cid. change (avail disk a' cid) with (avail disk (set_components a (<[CompHuffCodes := c']> (components a))) cid).
      apply (avail_insert disk a CompHuffCodes c); [done |]. unfold comp_avail, c', file_of. cbn [comp_data data].
      by rewrite Hdn, decide_False, Hp by done. }
    assert (forall cid, cid <> CompHuffCodes -> component_state disk a' cid = component_state disk a cid) as Hoth
      by (intros; by apply (component_state_insert disk a CompHuffCodes cid c')).
    exists c', a'. split.
    { unfold ensure. cda. assert (ensure_component be disk a CompHuffCodes false = Ok (Some c', a')) as Ee.
      { unfold ensure_component. rewrite Hcc, Hl, E. res_cbn. unfold a'. cbn [components set_components set_hc].
        rewrite lookup_insert_eq. by rewrite decide_True by done. }
      cda_lift Ee. done. }
    split; [| done]. split; try (rewrite Hav; done); try done; [| by right].
    intros cid comp Hl'. unfold a' in Hl'. cbn [components set_components set_hc] in Hl'.
    destruct (decide (cid = CompHuffCodes)) as [->|Hne].
    + rewrite lookup_insert_eq in Hl'. injection Hl' as <-. split; [| done]. intros d' Hd'.
      destruct (W _ _ Hcc) as [Hw _]. apply Hw. rewrite <- Hd'. unfold comp_avail, c', file_of. cbn [comp_data data].
      by rewrite Hdn, decide_False, Hp by done.
    + rewrite lookup_insert_ne in Hl' by done. by apply W.
  - exists c, a. split.
    { unfold ensure. cda. assert (ensure_component be disk a CompHuffCodes false = Ok (Some c, a)) as Ee.
      { unfold ensure_component. by rewrite Hcc, Hl. }
      cda_lift Ee. done. }
    rewrite Hcs, Hl. split; [| done]. split; try done. right. by rewrite Hcs, Hl.
Qed.

(** The block of a position, and the place of its token in it. *)
Lemma position_block pos :
  0 <= pos < zlen C ->
  let b := Z.to_nat (Z.quot pos SYNCHRONIZATION) in
  Z.quot pos SYNCHRONIZATION = Z.of_nat b /\ 0 <= Z.rem pos SYNCHRONIZATION < SYNCHRONIZATION /\
  (128 * b + Z.to_nat (Z.rem pos SYNCHRONIZATION))%nat = Z.to_nat pos /\ (128 * b < length C)%nat /\
  (Z.to_nat (Z.rem pos SYNCHRONIZATION) < block_size C b)%nat.
Proof using.
  intros Hp b. subst b. unfold SYNCHRONIZATION, block_size, zlen in *.
  rewrite Z.quot_div_nonneg, Z.rem_mod_nonneg by lia. pose proof (Z.div_mod pos 128). pose proof (Z.mod_pos_bound pos 128).
  pose proof (Z.div_pos pos 128). lia.
Qed.

Lemma block_token a b r c :
  (r < block_size C b)%nat -> take (block_size C b) (this_block a) = take (block_size C b) (drop (128 * b) C) ->
  C !! (128 * b + r)%nat = Some c -> aget (this_block a) (Z.of_nat r) = Ok c.
Proof using.
  intros Hr Ht Hc. apply aget_nat. rewrite <- (lookup_take_lt (this_block a) (block_size C b)) by done.
  by rewrite Ht, lookup_take_lt, lookup_drop by done.
Qed.

Lemma cl_cpos2id_huff_ok a e pos :
  huff_book -> huff_corpus a ->
  exists a', huff_corpus a' /\ hc a' = Some (mem_hcd h) /\ (forall cid, avail disk a' cid = avail disk a cid) /\
    cl_cpos2id be disk pos (mkCL (Some a) e) =
      Ok (match (if pos <? 0 then None else C !! Z.to_nat pos) with
          | Some c => (c, mkCL (Some a') CDA_OK)
          | None => (CDA_EPOSORNG, mkCL (Some a') CDA_EPOSORNG)
          end).
Proof using.
  intros [B Hok Hlen Hids Hbits] H. unfold cl_cpos2id. rewrite check_arg_ok by apply H.
  assert (cl_sequence_compressed disk (mkCL (Some a) e) = Ok (1, mkCL (Some a) e)) as Ec.
  { unfold cl_sequence_compressed. rewrite check_arg_ok by apply H. cda. by rewrite (huff_compressed a H). }
  cda_call Ec. change (1 =? 1) with true. cbv iota.
  destruct (hf_seq a H) as (d & Hd & Hstr).
  destruct (ensure_huff_file a e CompHuffSeq d ltac:(by left) Hd H) as (c1 & a1 & E1 & Hb1 & L1 & H1). cda_call E1.
  destruct (ensure_huff_codes a1 e Hok H1) as (c2 & a2 & E2 & H2 & Hh2 & _ & Av2 & _). cda_call E2.
  destruct (ensure_huff_file a2 e CompHuffSync _ ltac:(by right) (hf_sync _ H2) H2) as (c3 & a3 & E3 & Hb3 & L3 & H3). cda_call E3.
  assert (hc a3 = Some (mem_hcd h)) as Hh3 by (by rewrite (loads_hc _ _ _ L3)).
  assert (forall cid, avail disk a3 cid = avail disk a cid) as Av3
    by (intros; by rewrite (loads_avail _ _ _ L3), Av2, (loads_avail _ _ _ L1)).
  rewrite Hh3. cda_lift (deref_Some (mem_hcd h)). change (hcd_length (mem_hcd h)) with (hcd_length h). rewrite Hlen.
  destruct (Z.ltb_spec pos 0) as [H0|H0].
  { rewrite (proj2 (Z.leb_gt 0 pos)) by lia. cbn [andb]. exists a3. cda. done. }
  rewrite (proj2 (Z.leb_le 0 pos)) by lia. cbn [andb].
  destruct (Z.ltb_spec pos (zlen C)) as [Hlt|Hge]; cycle 1.
  { rewrite lookup_ge_None_2 by (unfold zlen in *; lia). exists a3. cda. done. }
  destruct (lookup_lt_is_Some_2 C (Z.to_nat pos)) as [c Hc]; [unfold zlen in *; lia |]. rewrite Hc.
  destruct (position_block pos ltac:(lia)) as (Hq & Hr & Hsum & Hb & Hrb).
  remember (Z.to_nat (Z.quot pos SYNCHRONIZATION)) as b eqn:Eb. clear Eb. rewrite Hq. set (r := Z.rem pos SYNCHRONIZATION) in *.
  rewrite <- Hsum in Hc. pose proof (ho_length h Hok) as HC. rewrite Hlen in HC.
  assert (forall a', huff_corpus a' -> take (block_size C b) (this_block a') = take (block_size C b) (drop (128 * b) C) ->
    (_ ← lift (c_assert (r <? SYNCHRONIZATION)); v ← lift (aget (this_block a') r); return_errno CDA_OK v)
      (mkCL (Some a') e) = Ok (c, mkCL (Some a') CDA_OK)) as Hend.
  { intros a' H' Ht. rewrite (proj2 (Z.ltb_lt r _)) by lia. cda_lift c_assert_true.
    pose proof (block_token a' b (Z.to_nat r) c Hrb Ht Hc) as Ev. rewrite Z2Nat.id in Ev by lia. cda_lift Ev. by cda. }
  destruct (hf_block _ H3) as [Hbl Hcache].
  destruct (Z.eqb_spec (u32 (this_block_nr a3)) (Z.of_nat b)) as [Heq|Hne]; cbn [negb]; cda.
  - exists a3. split; [done |]. split; [done |]. split; [done |]. apply Hend; [done |].
    destruct Hcache as [Hm|(b' & Hb' & Hlt' & Ht)].
    + rewrite Hm in Heq. change (u32 (-1)) with 4294967295 in Heq. unfold zlen, INT_MAX in *. lia.
    + rewrite Hb', u32_small in Heq by (unfold zlen, INT_MAX in *; lia). assert (b' = b) as -> by lia. done.
  - destruct (huff_load_block_ok be n h lens inn B C Hids Hlen Hbits d Hstr b a3 Hb Hbl ltac:(lia)) as (block & E4 & Hbl' & Ht).
    set (a4 := set_block a3 (Z.of_nat b) block) in *.
    assert ((d ← lift (comp_bytes c1); sy ← lift (comp_bytes c3); r ← lift (huff_load_block be (mem_hcd h) d sy (Z.of_nat b) a3);
       _ ← set_attribute r.2; mret r.1) (mkCL (Some a3) e) = Ok (true, mkCL (Some a4) e)) as E5.
    { cda_lift Hb1. cda_lift Hb3. cda_lift E4. done. }
    cda_call E5.
    assert (huff_corpus a4) as H4.
    { destruct H3 as [T3 W3 D3 S3 C3 St3 B3]. split; try done. split; [done |]. right. by exists b. }
    exists a4. split; [done |]. split; [done |]. split; [done |]. by apply Hend.
Qed.
End Access.
