(* ===== verification/HuffCheck.v ===== *)
(** * The check of cwb-huffcode: [decode_check_huff]

    The files of a compressed token stream are decoded from the start to the
    end and compared with the token stream of the attribute.  The messages are
    one for every token that differs, and the permission to delete the
    uncompressed file. *)

From Stdlib Require Import ZArith Lia Ascii String.
From stdpp Require Import base tactics option list numbers gmap strings sorting.
From S2P Require Import Prelude Bits Storage BitIO Golomb Blob Attributes CDA Lexicon Positional RevIndex MakeComps MakeFreqs MakeRevCorpus Huffcode HuffHeap HuffTree HuffCanon HuffEncode HuffDecode.

Open Scope Z_scope.

(** ** Files that know their position

    The position of an input file and the bytes that are left add up to its
    size. *)
Definition BF_total (size : Z) (st : BFile) : Prop := position st + zlen (BF_rest (handle st) (position st)) = size.

Lemma BF_get_total size h pos x h' :
  BF_get h pos = Ok (Some x, h') -> pos + zlen (BF_rest h pos) = size -> pos + 1 + zlen (BF_rest h' (pos + 1)) = size.
Proof.
  intros E Hs. destruct (BF_rest h pos) as [|y l] eqn:R.
  - exfalso. unfold BF_get in E. destruct h as [f|]; [| done]. cbn in E, R.
    unfold fread1 in E. assert (length (contents f) <= rpos f)%nat as Hle.
    { apply (f_equal length) in R. rewrite length_drop in R. cbn in R. lia. }
    rewrite (proj2 (Nat.leb_gt _ _)) in E by lia. done.
  - destruct (BF_get_ok h pos y l R) as (h1 & E' & Hr). rewrite E' in E. injection E as <- <-.
    rewrite Hr. rewrite zlen_cons in Hs. lia.
Qed.

Lemma BFread_total size n st d st' :
  BFread n st = Ok (1, d, st') -> BF_total size st -> BF_total size st'.
Proof.
  intros E Hs. unfold BFread, read_bits in E.
  apply (loop_returned (read_round BF_get) (fun '(_, _, t) => BF_total size t) (fun '(ok, _, t) => ok = 1 -> BF_total size t))
    in E; [by apply E | | | done].
  - intros [[nb dt] t] [[nb' dt'] t'] Ht. unfold read_round. destruct (0 <? nb); [| done].
    destruct (bits_in_buf t =? 0).
    + destruct (BF_get (handle t) (position t)) as [[[x|] h']|] eqn:G; res_cbn; try done.
      intros [= _ _ <-]. unfold BF_total. cbn [position handle]. by eapply BF_get_total.
    + res_cbn. intros [= _ _ <-]. done.
  - intros [[nb dt] t] [[ok dt'] t'] Ht. unfold read_round. destruct (0 <? nb).
    + destruct (bits_in_buf t =? 0).
      * destruct (BF_get (handle t) (position t)) as [[[x|] h']|]; res_cbn; try done. intros [= <- _ _]. done.
      * res_cbn. done.
    + intros [= _ _ <-]. done.
Qed.

(** A reader that also keeps the count. *)
#[local] Program Instance BFile_counted (size : Z) : BitReader BFile := {|
  rd_bits := BFread; rd_in := BF_in;
  rd_ok := fun st => readable st /\ Z.of_nat (length (BF_in st)) < 2 ^ 64 /\ BF_total size st;
  rd_mid := fun st => bits_in_buf st < 8 |}.
Next Obligation.
  intros size l r st (Hr & Hl & Ht) Hin. destruct (rd_spec (BitReader := BFile_reader) l r st (conj Hr Hl) Hin) as (st' & E & Hin' & [Hr' Hl'] & Hm).
  exists st'. split; [done |]. split; [done |]. split; [| done]. split; [done |]. split; [done |].
  by eapply BFread_total.
Qed.

(** The position of a file some bits of which were read. *)
Lemma BF_position_read size st l r :
  readable st -> BF_total size st -> bits_in_buf st < 8 -> 8 * size = zlen (l ++ r) -> BF_in st = r ->
  position st * 8 = zlen (align l).
Proof.
  intros (_ & Hb & _) Ht H8 Hs Hin. unfold BF_total in Ht. rewrite zlen_app, <- Hin in Hs. unfold in_bits in Hs.
  rewrite zlen_app in Hs. set (rest := BF_rest _ _) in *.
  assert (zlen (byte_bits rest) = 8 * zlen rest) as Hr by (unfold zlen; rewrite length_byte_bits; lia).
  assert (zlen (take (Z.to_nat (bits_in_buf st)) (bits 8 (buf st))) = bits_in_buf st) as Hk
    by (unfold zlen; rewrite length_take, length_bits; lia).
  unfold align. rewrite zlen_app, zlen_replicate. unfold pad_bits.
  assert ((- zlen l) mod 8 = bits_in_buf st) as ->; [| lia].
  symmetry. apply (Z.mod_unique _ _ (- position st)); lia.
Qed.

(** ** One token *)
Section Token.
Context (n : Z) (h : HCD) (lens : list Z) (inn : Z -> Z) (B : book n h lens inn) (size : Z).

#[local] Existing Instance BFile_counted.

Lemma check_bit_more (s : BFile) v l b r :
  0 <= l < zlen (min_code h) -> 0 <= v < 2 ^ 30 -> v < cell (min_code h) l <= INT_MAX ->
  rd_ok (BitReader := BFile_counted size) s -> rd_in (BitReader := BFile_counted size) s = b :: r ->
  exists s', check_bit_round h (s, v, l) = Ok (inl (s', snoc_bit v b, l + 1)) /\
    rd_in (BitReader := BFile_counted size) s' = r /\ rd_ok (BitReader := BFile_counted size) s' /\
    rd_mid (BitReader := BFile_counted size) s'.
Proof using.
  intros Hl Hv Hm Hs Hin. unfold check_bit_round. rewrite aget_cell by done. res_cbn. rewrite (proj2 (Z.ltb_lt _ _)) by lia.
  destruct (rd_bit (R := BFile_counted size) b r s Hs Hin) as (s' & E & H).
  change (BFread 1 s = Ok (1, Z.b2z b, s')) in E. rewrite E. res_cbn. change (1 =? 0) with false. cbv iota.
  exists s'. split; [| done].
  rewrite c_int_Ok by (rewrite Z.shiftl_mul_pow2, Z.pow_1_r by lia; unfold INT_MIN, INT_MAX; lia). res_cbn.
  by rewrite push_nonzero by done.
Qed.

Lemma check_bit_done (s : BFile) v l :
  0 <= l < zlen (min_code h) -> 0 <= cell (min_code h) l <= INT_MAX -> cell (min_code h) l <= v ->
  check_bit_round h (s, v, l) = Ok (inr (Some (s, v, l))).
Proof using.
  intros Hl Hm Hv. unfold check_bit_round. rewrite aget_cell by done. res_cbn. by rewrite (proj2 (Z.ltb_ge _ _)) by lia.
Qed.

(** Decoding the next code. *)
Lemma check_code_ok c r (s : BFile) :
  0 <= c < n -> rd_ok (BitReader := BFile_counted size) s -> BF_in s = code_bits lens inn c ++ r ->
  exists bit s1 s2, BFread 1 s = Ok (1, bit, s1) /\
    loop (check_bit_round h) fuel (s1, if negb (bit =? 0) then 1 else 0, 1) =
      Ok (Some (s2, code_of lens inn c, cell lens c)) /\
    BF_in s2 = r /\ rd_ok (BitReader := BFile_counted size) s2 /\ bits_in_buf s2 < 8.
Proof using B.
  intros Hc Hs Hin. destruct (code_bits_cons n h lens inn B c Hc) as (b & k & Hcode). rewrite Hcode in Hin. cbn [app] in Hin.
  destruct (rd_bit (R := BFile_counted size) b (k ++ r) s Hs Hin) as (s1 & E1 & Hin1 & Hs1 & Hm1).
  destruct (walk_ok n h lens inn B (R := BFile_counted size) (check_bit_round h) check_bit_more check_bit_done c b k r s1
              Hc Hcode Hs1 Hm1 Hin1) as (s2 & E2 & Hin2 & Hs2 & Hm2).
  exists (Z.b2z b), s1, s2. split; [done |].
  replace (if negb (Z.b2z b =? 0) then 1 else 0) with (Z.b2z b) by by destruct b. done.
Qed.
End Token.

(** ** Reading the descriptor *)

Lemma ReadHCD_ok be garbage q h h0 :
  hcd_ok h -> 0 <= hcd_size h -> (forall k, 0 <= k -> zlen (garbage k) = k) ->
  zlen (lcount h0) = MAXCODELEN -> zlen (symindex h0) = MAXCODELEN -> zlen (min_code h0) = MAXCODELEN ->
  ReadHCD be garbage (Some (mkFILE (ints_be (hcd_ints h)) 0 q false)) h0 = Ok (1, h).
Proof.
  intros [Hs Hl Hmn Hmx [Hc1 Hi1] [Hc2 Hi2] [Hc3 Hi3] [Hc4 Hi4]] Hpos Hg L1 L2 L3. unfold ReadHCD, hcd_ints.
  assert (forall l, ints_only l -> Forall (fun v => INT_MIN <= v <= INT_MAX) l) as Hint.
  { intros l Hl'. eapply Forall_impl; [exact Hl' |]. intros x Hx. cbn in Hx. unfold INT_MIN. lia. }
  set (all := [hcd_size h; hcd_length h; min_codelen h; max_codelen h] ++ lcount h ++ symindex h ++ min_code h ++ symbols h).
  assert (forall pre v post, all = pre ++ v :: post -> INT_MIN <= v <= INT_MAX ->
    NreadInt be (mkFILE (ints_be all) (length (ints_be pre)) q false) =
      Ok (v, mkFILE (ints_be all) (length (ints_be (pre ++ [v]))) q false)) as R1.
  { intros pre v post -> Hv. rewrite (NreadInt_Ok be (ints_be pre) v (ints_be post)); [| done | | done].
    - cbn [contents quota failed]. do 3 f_equal. rewrite ints_be_app. do 2 f_equal.
    - cbn [contents]. by rewrite ints_be_app. }
  assert (forall pre vs post buf, all = pre ++ vs ++ post -> Forall (fun v => INT_MIN <= v <= INT_MAX) vs -> zlen buf = zlen vs ->
    NreadInts be buf (zlen vs) (mkFILE (ints_be all) (length (ints_be pre)) q false) =
      Ok (vs, mkFILE (ints_be all) (length (ints_be (pre ++ vs))) q false)) as R2.
  { intros pre vs post buf -> Hv Hb. rewrite (NreadInts_Ok be (ints_be pre) vs (ints_be post)); [| done | done | | done].
    - cbn [contents quota failed]. do 3 f_equal. rewrite ints_be_app. do 2 f_equal.
    - cbn [contents]. by rewrite !ints_be_app. }
  change 0%nat with (length (ints_be [])).
  rewrite (R1 [] (hcd_size h) _ eq_refl Hs). res_cbn. cbn [app].
  rewrite (R1 [hcd_size h] (hcd_length h) _ eq_refl Hl). res_cbn. cbn [app].
  rewrite (R1 [hcd_size h; hcd_length h] (min_codelen h) _ eq_refl Hmn). res_cbn. cbn [app].
  rewrite (R1 [hcd_size h; hcd_length h; min_codelen h] (max_codelen h) _ eq_refl Hmx). res_cbn. cbn [app].
  set (hd := [hcd_size h; hcd_length h; min_codelen h; max_codelen h]) in *.
  rewrite <- Hc1 at 1. rewrite (R2 hd (lcount h) _ _ eq_refl (Hint _ Hi1)) by by rewrite L1. res_cbn.
  rewrite <- Hc2 at 1. rewrite (R2 (hd ++ lcount h) (symindex h) (min_code h ++ symbols h)) by
    first [by apply Hint | by rewrite L2 | unfold all; by rewrite <- app_assoc]. res_cbn.
  rewrite <- Hc3 at 1. rewrite (R2 ((hd ++ lcount h) ++ symindex h) (min_code h) (symbols h)) by
    first [by apply Hint | by rewrite L3 | unfold all; by rewrite <- !app_assoc]. res_cbn.
  rewrite <- Hc4 at 2. rewrite (R2 (((hd ++ lcount h) ++ symindex h) ++ min_code h) (symbols h) []) by
    first [done | by rewrite Hg, Hc4 by lia | unfold all; by rewrite app_nil_r, <- !app_assoc]. res_cbn.
  by destruct h.
Qed.

(** ** The whole file *)
Section Check.
Context (be : bool) (disk : gmap string (list Z)) (garbage : Z -> list Z) (Hg : forall k, 0 <= k -> zlen (garbage k) = k).
Context (C : list Z) (n : Z) (h : HCD) (lens : list Z) (inn : Z -> Z) (HB : huff_book C n h lens inn).
Context (bytes : list Z) (Hbytes : byte_bits bytes = align (stream (code_bits lens inn) C (length C))).

(** The attribute has the tokens [D], one for each token of [C]. *)
Context (Inv : CL -> Prop) (D : list Z) (m : nat) {TA : TokenAccess be disk Inv D m} (HD : length D = length C).

#[local] Abbreviation tok := (code_bits lens inn).

(** What is said about the first [k] tokens. *)
Definition token_errors (k : nat) : list message :=
  seq 0 k ≫= fun i =>
    let p := Z.of_nat i in
    if cell C p =? cell D p then [] else [WrongToken (cell C p) p (cell D p)].

Lemma token_errors_S k : token_errors (S k) = token_errors k ++
  (if cell C (Z.of_nat k) =? cell D (Z.of_nat k) then [] else [WrongToken (cell C (Z.of_nat k)) (Z.of_nat k) (cell D (Z.of_nat k))]).
Proof using. unfold token_errors. rewrite seq_S, bind_app. cbn [mbind list_bind]. by rewrite app_nil_r. Qed.

Definition sync_ints : list Z := sync_offset tok C <$> seq 0 (blocks (length C)).

(** Before token [k]. *)
Record check_inv (k : nat) (bfd : BFile) (sync : FILE) : Prop := {
  ci_bits : align (stream tok C (length C)) = stream tok C k ++ BF_in bfd;
  ci_ok : rd_ok (BitReader := BFile_counted (zlen bytes)) bfd;
  ci_mid : bits_in_buf bfd < 8;
  ci_sync : contents sync = ints_be sync_ints;
  ci_rpos : rpos sync = length (ints_be (sync_offset tok C <$> seq 0 (blocks k)))
}.

Lemma check_sync k bfd sync :
  (k < length C)%nat -> check_inv k bfd sync ->
  exists bfd' sync',
    (if Z.rem (Z.of_nat k) SYNCHRONIZATION =? 0 then
       offset ← BFposition (Some bfd);
       bfd ← (if 0 <? Z.of_nat k then r ← BFflush bfd; Ok r.2 else Ok bfd);
       r ← NreadInt be sync;
       if negb (s32 offset =? r.1) then Err ExitCall else Ok (bfd, r.2)
     else Ok (bfd, sync)) = Ok (bfd', sync') /\
    align (stream tok C (length C)) = synced tok C k ++ BF_in bfd' /\
    rd_ok (BitReader := BFile_counted (zlen bytes)) bfd' /\
    contents sync' = ints_be sync_ints /\
    rpos sync' = length (ints_be (sync_offset tok C <$> seq 0 (blocks (S k)))).
Proof using HB Hbytes.
  clear HD. intros Hk [Hbits (Hr & Hl & Ht) Hmid Hc Hp]. fold (at_sync k). unfold synced. rewrite blocks_S.
  destruct (at_sync k) eqn:Hs; [| by exists bfd, sync].
  pose proof (blocks_sync k Hs) as Hkb. set (b := blocks k) in *.
  destruct HB as [B Hok Hlen Hids H38].
  destruct (block_bits be n h lens inn B C Hids Hlen H38 bytes Hbytes b ltac:(lia)) as (Ho & Ho8 & r & Hrest).
  set (o := sync_offset tok C b) in *. rewrite <- Hkb in Ho8.
  assert (8 * zlen bytes = zlen (stream tok C k ++ BF_in bfd)) as Hsz
    by (rewrite <- Hbits, <- Hbytes; unfold zlen; rewrite length_byte_bits; lia).
  pose proof (BF_position_read (zlen bytes) bfd _ _ Hr Ht Hmid Hsz eq_refl) as Hpos.
  assert (position bfd = o) as Hpo by lia. unfold BFposition. res_cbn. rewrite Hpo, s32_small by done.
  assert (exists bfd', (if 0 <? Z.of_nat k then r ← BFflush bfd; Ok r.2 else Ok bfd) = Ok bfd' /\
    align (stream tok C (length C)) = align (stream tok C k) ++ BF_in bfd' /\
    rd_ok (BitReader := BFile_counted (zlen bytes)) bfd') as (bfd' & -> & Hin' & Hok').
  { destruct (Z.ltb_spec 0 (Z.of_nat k)) as [Hpk|Hpk]; cycle 1.
    { assert (k = 0%nat) as -> by lia. exists bfd. split; [reflexivity |]. split; [exact Hbits |].
      exact (conj Hr (conj Hl Ht)). }
    assert (align (stream tok C (length C)) = align (stream tok C k) ++ byte_bits (drop (Z.to_nat o) bytes)) as Hal.
    { rewrite byte_bits_drop, Hbytes. replace (8 * Z.to_nat o)%nat with (length (align (stream tok C k))) by (unfold zlen in *; lia).
      rewrite <- (take_drop (length (align (stream tok C k))) (align (stream tok C (length C)))) at 1. f_equal.
      destruct (synced_prefix tok C k (length C) Hk) as [x Hx]. unfold synced in Hx. rewrite Hs in Hx.
      unfold align at 2. rewrite Hx, <- app_assoc. by rewrite take_app_length. }
    assert (BF_in bfd = replicate (pad_bits (zlen (stream tok C k))) false ++ byte_bits (drop (Z.to_nat o) bytes)) as Hin.
    { unfold align at 2 in Hal. rewrite Hbits, <- app_assoc in Hal. by apply app_inv_head in Hal. }
    destruct (BFflush_read (replicate (pad_bits (zlen (stream tok C k))) false) (drop (Z.to_nat o) bytes) bfd Hr Hmid) as (bfd' & E & Hin' & Hr').
    - rewrite length_replicate. unfold pad_bits. pose proof (Z.mod_pos_bound (- zlen (stream tok C k)) 8). lia.
    - done.
    - intros Hnil. rewrite Hnil in Hrest. symmetry in Hrest. apply app_eq_nil in Hrest as [Hrest _].
      destruct (lookup_lt_is_Some_2 C (128 * b)) as [c Hcb]; [lia |].
      pose proof (Forall_lookup_1 _ _ _ _ Hids Hcb) as Hcr. cbn in Hcr.
      destruct (code_bits_cons n h lens inn B c Hcr) as (b0 & k0 & Hcode).
      rewrite (drop_S _ _ _ Hcb) in Hrest. unfold block_size in Hrest.
      replace (128 `min` (length C - 128 * b))%nat with (S (127 `min` (length C - S (128 * b))))%nat in Hrest by lia.
      cbn [take mbind list_bind] in Hrest. by rewrite Hcode in Hrest.
    - rewrite E. res_cbn. exists bfd'. split; [done |]. cbn [snd]. split; [by rewrite Hin' |].
      split; [done |]. split.
      + rewrite Hin'. rewrite Hin in Hl. rewrite length_app in Hl. lia.
      + unfold BFflush in E. destruct Hr as (Hm & _). rewrite Hm in E.
        change (Ascii.eqb "r" "w") with false in E. change (Ascii.eqb "r" "r") with true in E. cbv iota in E.
        destruct (BF_get (handle bfd) (position bfd)) as [[[x|] h']|] eqn:G; res_cbn; [| done | done].
        rewrite bind_Ok in E. injection E as <-. unfold BF_total. cbn [position handle]. by eapply BF_get_total. }
  res_cbn. assert (b < blocks (length C))%nat as Hbb.
  { pose proof (blocks_mono (S k) (length C) ltac:(lia)) as Hm. rewrite blocks_S, Hs in Hm. done. }
  assert (sync_ints = (sync_offset tok C <$> seq 0 b) ++ o :: (sync_offset tok C <$> seq (S b) (blocks (length C) - S b))) as Hsplit.
  { unfold sync_ints. replace (blocks (length C)) with (b + S (blocks (length C) - S b))%nat at 1 by lia.
    rewrite seq_app, fmap_app. done. }
  rewrite (NreadInt_Ok be (ints_be (sync_offset tok C <$> seq 0 b)) o (ints_be (sync_offset tok C <$> seq (S b) (blocks (length C) - S b))));
    [| unfold INT_MIN; lia | rewrite Hc, Hsplit, ints_be_app; done | done].
  res_cbn. cbn [fst snd]. rewrite Z.eqb_refl. cbn [negb]. cbv iota. eexists _, _. split; [reflexivity |].
  split; [done |]. split; [done |]. cbn [contents rpos]. split; [done |].
  rewrite seq_S, fmap_app, ints_be_app. done.
Qed.

Lemma check_token_ok k bfd sync cl :
  (k < length C)%nat -> check_inv k bfd sync -> Inv cl ->
  exists bfd' sync' cl', check_token_round be disk h (Z.of_nat k, bfd, sync, token_errors k) cl =
      Ok (inl (Z.of_nat (S k), bfd', sync', token_errors (S k)), cl') /\ check_inv (S k) bfd' sync' /\ Inv cl'.
Proof using All.
  intros Hk Hinv Hcl. destruct (check_sync k bfd sync Hk Hinv) as (bfd1 & sync1 & E1 & Hbits & Hok & Hc & Hr).
  pose proof HB as [B Hh Hlen Hids H38]. unfold check_token_round. rewrite Hlen.
  rewrite (proj2 (Z.ltb_lt (Z.of_nat k) (zlen C))) by (unfold zlen; lia). rewrite (bindM_lift _ _ _ _ E1).
  pose proof (lookup_cell C (Z.of_nat k) ltac:(unfold zlen; lia)) as Hck. rewrite Nat2Z.id in Hck.
  pose proof (Forall_lookup_1 _ _ _ _ Hids Hck) as Hcr. cbn in Hcr. set (c := cell C (Z.of_nat k)) in *.
  destruct (stream_mono tok C (S k) (length C) ltac:(lia)) as [x Hx].
  assert (BF_in bfd1 = tok c ++ x ++ replicate (pad_bits (zlen (stream tok C (length C)))) false) as Hin.
  { unfold align in Hbits. rewrite Hx in Hbits at 1. rewrite stream_S, <- !app_assoc in Hbits.
    apply app_inv_head in Hbits. done. }
  destruct (check_code_ok n h lens inn B (zlen bytes) c _ bfd1 Hcr Hok Hin) as (bit & s1 & s2 & E2 & E3 & Hin2 & Hok2 & Hmid2).
  rewrite (bindM_lift _ _ _ _ E2). change (1 =? 0) with false. cbv beta iota zeta. rewrite (bindM_lift _ _ _ _ E3).
  destruct (book_code n h lens inn B c Hcr) as (HL & Hcd & Hmin & Hint & _ & Hp & Hsi & Hpl & Hsym).
  pose proof B as (mn & mx & [_ _ Hmax Lmc _ _ Lsi _ _ Lsy _ _]).
  rewrite (bindM_lift _ _ _ _ (aget_cell (symindex h) (cell lens c) ltac:(lia))).
  rewrite (bindM_lift _ _ _ _ (aget_cell (min_code h) (cell lens c) ltac:(lia))). rewrite Hp.
  rewrite (bindM_lift _ _ _ _ (c_int_Ok (place lens c) ltac:(unfold INT_MIN, INT_MAX in *; lia))).
  rewrite (bindM_lift _ _ _ _ (aget_cell (symbols h) (place lens c) ltac:(lia))). rewrite Hsym.
  pose proof (lookup_cell D (Z.of_nat k) ltac:(unfold zlen; lia)) as Hdk. rewrite Nat2Z.id in Hdk.
  destruct (ta_cpos2id cl k _ Hcl Hdk) as (cl' & E4 & Hcl'). rewrite (bindM_Ok _ _ _ _ _ E4).
  eexists s2, sync1, cl'. split; [| split; [| done]].
  - rewrite mret_run, token_errors_S. fold c. replace (Z.of_nat (S k)) with (Z.of_nat k + 1) by lia.
    destruct (c =? cell D (Z.of_nat k)); cbn [negb]; [by rewrite app_nil_r | done].
  - split; try done. rewrite Hin2, stream_S, <- app_assoc. rewrite Hbits, Hin. done.
Qed.

Lemma decode_check_huff_ok q1 q2 q3 h0 cl :
  Inv cl -> 0 < zlen C ->
  zlen (lcount h0) = MAXCODELEN -> zlen (symindex h0) = MAXCODELEN -> zlen (min_code h0) = MAXCODELEN ->
  exists cl', decode_check_huff be disk garbage (Some (mkFILE (ints_be (hcd_ints h)) 0 q1 false))
      (Some (mkFILE bytes 0 q2 false)) (Some (mkFILE (ints_be sync_ints) 0 q3 false)) h0 cl =
    Ok (token_errors (length C) ++ [CanDelete], cl').
Proof using All.
  intros Hcl Hpos L1 L2 L3. pose proof HB as [B Hh Hlen Hids H38]. unfold decode_check_huff.
  assert (hcd_size h = n /\ 0 <= n) as [Hsize Hn].
  { destruct B as (mn & mx & [_ Hn _ _ _ _ _ _ _ Ls _ _]). destruct (ho_symbols h Hh) as [Hs _]. rewrite <- Hs, Ls.
    split; [done |]. rewrite <- Ls. apply zlen_nonneg. }
  pose proof (ReadHCD_ok be garbage q1 h h0 Hh ltac:(lia) Hg L1 L2 L3) as E1. rewrite (bindM_lift _ _ _ _ E1).
  change (1 =? 0) with false. cbv beta iota zeta.
  assert (exists bfd, BFopen (Some (mkFILE bytes 0 q2 false)) "r" = Ok (1, bfd) /\ check_inv 0 bfd (mkFILE (ints_be sync_ints) 0 q3 false))
    as (bfd & E2 & Hinv).
  { unfold BFopen. change (is_mode (char0 "r")) with true. res_cbn. eexists. split; [reflexivity |].
    assert (BF_in (mkBit (Some (mkFILE bytes 0 q2 false)) (char0 "r") 0 0 0) = byte_bits bytes) as Hin by reflexivity.
    assert (zlen (stream tok C (length C)) <= 8 * INT_MAX + 7) as Hsz.
    { destruct B as (mn & mx & [PL Hln _ _ _ _ _ _ _ _ _ _]).
      pose proof (str_size C (Z.to_nat n) lens mn mx inn PL ltac:(lia) ltac:(by rewrite Z2Nat.id by lia) H38 (length C) ltac:(lia)) as Hs.
      pose proof (align_length (stream tok C (length C))). lia. }
    split; [rewrite Hin; done | | done | done | done].
    split; [unfold readable; cbn; split; [done | split; [lia | done]] |]. split; [| unfold BF_total; cbn; by rewrite drop_0].
    rewrite Hin, Hbytes. pose proof (align_length (stream tok C (length C))). unfold zlen, INT_MAX in *. lia. }
  rewrite (bindM_lift _ _ _ _ E2). cbn [fst snd]. change (1 =? 0) with false. cbv iota.
  destruct (ta_max_cpos cl Hcl) as (cl1 & E3 & Hcl1). rewrite (bindM_Ok _ _ _ _ _ E3).
  assert (zlen D = hcd_length h) as HDh by (rewrite Hlen; unfold zlen; by rewrite HD).
  rewrite HDh, Z.eqb_refl. cbn [negb]. cbv iota.
  destruct (loopM_rule (check_token_round be disk h)
    (fun '(pos, b, s, out) c => exists k, pos = Z.of_nat k /\ (k <= length C)%nat /\ check_inv k b s /\ out = token_errors k /\ Inv c)
    (fun out _ => out = token_errors (length C) ++ [CanDelete])
    (fun '(pos, _, _, _) => zlen C - pos) fuel (0, bfd, mkFILE (ints_be sync_ints) 0 q3 false, []) cl1) as (out & cl' & E4 & ->).
  - intros [[[pos b] s] out] c (k & -> & Hk & Hi & -> & Hc). split; [unfold zlen; lia |].
    destruct (decide (k < length C)%nat) as [Hlt|Hge].
    + left. destruct (check_token_ok k b s c Hlt Hi Hc) as (b' & s' & c' & E & Hi' & Hc').
      eexists _, c'. split; [exact E |]. split; [| lia]. exists (S k). split; [done |]. split; [lia |]. done.
    + right. assert (k = length C) as -> by lia. unfold check_token_round. rewrite Hlen.
      rewrite (proj2 (Z.ltb_ge (Z.of_nat (length C)) (zlen C))) by done.
      destruct (ci_ok _ _ _ Hi) as ((Hm & _ & Hhd) & _).
      assert (exists r, BFclose b = Ok r) as [r E5].
      { unfold BFclose. rewrite Hm. change (Ascii.eqb "r" "w") with false. cbv iota. res_cbn. cbn [snd].
        destruct (handle b); [| done]. res_cbn. eauto. }
      rewrite (bindM_lift _ _ _ _ E5). eexists _, c. split; [apply mret_run |]. done.
  - exists 0%nat. split; [done |]. split; [lia |]. done.
  - rewrite fuel_val. pose proof (ho_length h Hh) as Hb. rewrite Hlen in Hb. unfold INT_MAX in Hb. lia.
  - exists cl'. exact E4.
Qed.
End Check.
