(* ===== verification/Huffman.v ===== *)
(** * The compressed token stream: results

    The theorems about cwb-huffcode and about reading what it writes: the round
    trip through the files, the prefix property of the codes, the bounds under
    which the codes fit, the check of the files, and the compressed attribute
    as an implementation of the interface of token access. *)

From Stdlib Require Import ZArith Lia Ascii String.
From stdpp Require Import base tactics option list numbers gmap strings sorting.
From S2P Require Import Prelude Bits Storage BitIO Golomb Blob Attributes CDA Lexicon Positional RevIndex MakeComps MakeFreqs MakeRevCorpus Huffcode HuffHeap HuffTree HuffCanon HuffEncode HuffDecode HuffCheck.

Open Scope Z_scope.

(** ** Reading a compressed corpus *)

(** The answer of an access function for a position: the token and the error number. *)
Definition token_answer (C : list Z) (p : Z) : Z * Z :=
  match (if p <? 0 then None else C !! Z.to_nat p) with
  | Some c => (c, CDA_OK)
  | None => (CDA_EPOSORNG, CDA_EPOSORNG)
  end.

(** A series of accesses, in any order of the positions. *)
Fixpoint cpos2ids (be : bool) (disk : gmap string (list Z)) (ps : list Z) : M (list (Z * Z)) :=
  match ps with
  | [] => mret []
  | p :: ps => v ← cl_cpos2id be disk p; e ← get_errno; r ← cpos2ids be disk ps; mret ((v, e) :: r)
  end.

Lemma cpos2ids_huff be disk C n h lens inn ps a e :
  huff_book C n h lens inn -> huff_corpus disk C h lens inn a ->
  exists a' e', cpos2ids be disk ps (mkCL (Some a) e) = Ok (token_answer C <$> ps, mkCL (Some a') e') /\
    huff_corpus disk C h lens inn a'.
Proof.
  intros HB. revert a e. induction ps as [|p ps IH]; intros a e H; cbn [cpos2ids]; [by exists a, e |].
  destruct (cl_cpos2id_huff_ok be disk C n h lens inn a e p HB H) as (a1 & H1 & _ & _ & E).
  assert (cl_cpos2id be disk p (mkCL (Some a) e) = Ok ((token_answer C p).1, mkCL (Some a1) (token_answer C p).2)) as E'.
  { rewrite E. unfold token_answer. by destruct (if p <? 0 then _ else _). }
  cda_call E'. destruct (IH a1 (token_answer C p).2 H1) as (a2 & e2 & E2 & H2). cda_call E2.
  exists a2, e2. split; [| done]. rewrite fmap_cons. by destruct (token_answer C p).
Qed.

(** An attribute nothing of which is in memory, with the three files. *)
Record fresh_compressed (disk : gmap string (list Z)) (a : Attribute) (seq codes sync : list Z) : Prop := {
  fc_type : type a = ATT_POS;
  fc_wf : wf_attribute disk a;
  fc_seq : avail disk a CompHuffSeq = Some seq;
  fc_codes : avail disk a CompHuffCodes = Some codes;
  fc_sync : avail disk a CompHuffSync = Some sync;
  fc_hc : hc a = None;
  fc_unloaded : component_state disk a CompHuffCodes = ComponentUnloaded;
  fc_corpus : component_state disk a CompCorpus <> ComponentLoaded;
  fc_block : this_block_nr a = -1 /\ zlen (this_block a) = SYNCHRONIZATION
}.

Lemma huff_output_book C n h lens inn files :
  huff_output C n h lens inn files -> Forall (fun c => 0 <= c < Z.of_nat n) C -> 38 * zlen C <= 8 * INT_MAX ->
  huff_book C (Z.of_nat n) h lens inn.
Proof. by intros []; split. Qed.

Lemma fresh_huff_corpus disk a C n h lens inn files f :
  huff_output C n h lens inn files -> handle (huf_file files) = Some f ->
  fresh_compressed disk a (contents f) (contents (hcd_file files)) (contents (sync_file files)) ->
  huff_corpus disk C h lens inn a.
Proof.
  intros [_ _ _ _ Hh (f' & Hf & Hs) Hy] Hf' [T W Fs Fc Fy Fh Fu Fk [Fn Fb]]. rewrite Hf' in Hf. injection Hf as <-.
  split; try done.
  - by exists (contents f).
  - by rewrite Fy, Hy.
  - by rewrite Fc, Hh.
  - by left.
  - split; [done | by left].
Qed.

(** C9. Round trip of the compressed token stream. On an encoded attribute with
    [n] types whose codes are short enough, [compute_code_lengths] succeeds, and
    the three files it writes, given to an attribute on a machine of either
    byte order, make [cl_cpos2id] answer every series of positions, in any
    order, as the uncompressed corpus does: the id with [CDA_OK] for a position
    of the corpus, [CDA_EPOSORNG] for every other one. *)
Theorem huffman_roundtrip (be be' : bool) (disk disk' : gmap string (list Z)) (garbage : Z -> list Z)
    (C : list Z) (n : nat) (a : Attribute) (e : Z) (dl : list Z) (q1 q2 q3 : Z) :
  (forall k, 0 <= k -> zlen (garbage k) = k) ->
  plain_corpus disk a C n -> avail disk a CompLexicon = Some dl -> (0 < n)%nat ->
  Forall (fun ps => ps <> []) (occs C n) ->
  zlen C + Z.of_nat n <= INT_MAX - 2 -> 38 * zlen C <= 8 * INT_MAX -> codes_fit C n ->
  4 * (100 + Z.of_nat n) <= q1 -> 38 * zlen C + 15 < 8 * q2 + 8 -> 4 * Z.of_nat (blocks (length C)) <= q3 ->
  exists files f a' e',
    compute_code_lengths be disk garbage (Some (mkFILE [] 0 q1 false)) (Some (mkFILE [] 0 q2 false))
      (Some (mkFILE [] 0 q3 false)) (mkCL (Some a) e) = Ok (Some files, mkCL (Some a') e') /\
    handle (huf_file files) = Some f /\
    forall b e0 ps,
      fresh_compressed disk' b (contents f) (contents (hcd_file files)) (contents (sync_file files)) ->
      exists b' e'', cpos2ids be' disk' ps (mkCL (Some b) e0) = Ok (token_answer C <$> ps, mkCL (Some b') e'').
Proof.
  intros Hg P Hl Hn Hocc Htot Hbits Hfit Hq1 Hq2 Hq3. pose proof (pc_ids _ _ _ _ P) as Hids.
  destruct (compute_code_lengths_ok be disk garbage Hg C n Hids Hn Hocc a e dl q1 q2 q3 P Hl Htot Hfit Hbits Hq1 Hq2 Hq3)
    as (h & lens & inn & files & a' & e' & E & HO & _).
  pose proof (huff_output_book _ _ _ _ _ _ HO Hids Hbits) as HB.
  destruct (hu_huf _ _ _ _ _ _ HO) as (f & Hf & _).
  exists files, f, a', e'. split; [done |]. split; [done |]. intros b e0 ps F.
  destruct (cpos2ids_huff be' disk' C _ h lens inn ps b e0 HB (fresh_huff_corpus _ _ _ _ _ _ _ _ _ HO Hf F))
    as (b' & e'' & E' & _). by exists b', e''.
Qed.

(** ** The codes *)

(** No code is a prefix of the code of another item: a codebook for [n] items
    can be decoded from left to right. *)
Theorem codebook_prefix_free (n : Z) (h : HCD) (lens : list Z) (inn : Z -> Z) (c d : Z) :
  book n h lens inn -> 0 <= c < n -> 0 <= d < n -> c <> d ->
  ~ (code_bits lens inn d) `prefix_of` (code_bits lens inn c).
Proof.
  intros B Hc Hd Hcd [k E]. apply Hcd. clear Hcd.
  destruct (book_code n h lens inn B c Hc) as (HLc & Hrc & _ & _ & Hpre & Hpc & _ & _ & Hsc).
  destruct (book_code n h lens inn B d Hd) as (HLd & Hrd & Hmd & _ & _ & Hpd & _ & _ & Hsd).
  unfold code_bits in E. assert (cell lens d <= cell lens c) as Hle.
  { apply (f_equal length) in E. rewrite length_app, !length_bits in E. lia. }
  replace (Z.to_nat (cell lens c)) with (Z.to_nat (cell lens d) + Z.to_nat (cell lens c - cell lens d))%nat in E by lia.
  rewrite bits_app in E. apply app_inj_1 in E as [E _]; [| by rewrite !length_bits]. rewrite Z2Nat.id in E by lia.
  assert (Z.shiftr (code_of lens inn c) (cell lens c - cell lens d) = code_of lens inn d) as Eq.
  { apply (bits_inj (Z.to_nat (cell lens d))); [| by rewrite Z2Nat.id by lia | done]. rewrite Z2Nat.id by lia.
    rewrite Z.shiftr_div_pow2 by lia. split; [apply Z.div_pos; lia |].
    apply Z.div_lt_upper_bound; [lia |]. rewrite <- Z.pow_add_r, Z.sub_add by lia. lia. }
  destruct (Z.eq_dec (cell lens c) (cell lens d)) as [El|Hne].
  - rewrite El, Z.sub_diag, Z.shiftr_0_r in Eq. rewrite El, Eq, Hpd in Hpc. rewrite <- Hsc, <- Hpc. done.
  - pose proof (Hpre (cell lens d) ltac:(lia)). lia.
Qed.

(** C30. The codes fit: in a corpus whose number of tokens and types together is
    below 11,405,774 every leaf of the tree has a depth below [MAXCODELEN]. *)
Theorem small_corpus_codes_fit (C : list Z) (n : nat) :
  Forall (fun c => 0 <= c < Z.of_nat n) C -> (0 < n)%nat -> Forall (fun ps => ps <> []) (occs C n) ->
  zlen C + Z.of_nat n < 11405774 ->
  exists heap, huffman_depths (seqZ (Z.of_nat n) (Z.of_nat n) ++ weights C n) (Z.of_nat n) = Ok heap /\
    Forall (fun d => 0 <= d < MAXCODELEN) (leaf_depths (Z.of_nat n) (cell heap)).
Proof.
  intros Hids Hn Hocc Hs. assert (2 * fib 34 = 11405774) as Hf by reflexivity.
  destruct (run_tree C n Hids Hn Hocc) as (heap & par & k & E & Hh & T & Hk); [unfold INT_MAX; lia |].
  exists heap. split; [done |]. assert (k <= 31)%nat as Hk31.
  { destruct (decide (k <= 31)%nat); [done |]. pose proof (fib_mono 34 (k + 2) ltac:(lia)). lia. }
  apply Forall_fmap, Forall_forall. intros i Hi. apply elem_of_seqZ in Hi. cbn.
  destruct (ht_depth _ _ _ _ T i ltac:(lia)). unfold MAXCODELEN. lia.
Qed.

(** The depths that [collect_lengths] cannot store. Whatever the weights,
    the tree is built; the collection of the lengths writes outside
    [hc->lcount] exactly when a leaf has a depth of [MAXCODELEN] or more, before
    the test that is meant to refuse such codes. *)
Theorem collect_lengths_faults (n : Z) (freqs : list Z) :
  1 <= n -> zlen freqs = n -> Forall (fun w => 2 <= w) freqs -> zsum freqs <= INT_MAX -> 2 * n <= INT_MAX - 2 ->
  exists heap, huffman_depths (seqZ n n ++ freqs) n = Ok heap /\
    (collect_lengths heap n = Err OutOfBounds <-> Exists (fun d => MAXCODELEN <= d) (leaf_depths n (cell heap))).
Proof.
  intros Hn Hl Hw Hs Hmax. destruct (huffman_depths_ok n freqs Hn Hl Hw Hs Hmax) as (heap & par & k & E & Hh & T & _).
  exists heap. split; [done |].
  destruct (collect_depths n heap par k T Hn ltac:(lia) Hh) as (Hll & Hpos & Hc & Hcells).
  set (lens := fix_length <$> leaf_depths n (cell heap)) in *.
  assert (forall i, 0 <= i < n -> (MAXCODELEN <= cell lens i <-> MAXCODELEN <= cell heap (n + i))) as Hfix.
  { intros i Hi. rewrite (Hc i Hi). unfold fix_length, MAXCODELEN. case_Z; lia. }
  split.
  - intros Herr. destruct (decide (Exists (fun d => MAXCODELEN <= d) (leaf_depths n (cell heap)))) as [|Hno]; [done |].
    exfalso. apply not_Exists_Forall in Hno; [| intros; apply _].
    assert (Forall (fun x => x < MAXCODELEN) lens) as Hlt.
    { apply Forall_forall. intros x Hx. apply list_elem_of_lookup in Hx as [j Hj].
      pose proof (lookup_lt_Some _ _ _ Hj) as Hjl. unfold zlen in Hll.
      rewrite <- (cell_lookup lens (Z.of_nat j) x) by (rewrite ?Nat2Z.id; done || lia).
      apply Z.nle_gt. rewrite Hfix by lia. rewrite <- leaf_depths_cell by lia.
      apply (proj1 (Forall_forall _ _) Hno). apply cell_elem. rewrite (leaf_depths_zlen n) by lia. lia. }
    destruct (collect_lengths_ok heap lens n Hll Hh ltac:(lia) Hpos Hcells ltac:(lia) Hlt) as (l & E' & _).
    congruence.
  - intros Hex. apply Exists_exists in Hex as (d & Hd & Hlong). unfold leaf_depths in Hd.
    apply list_elem_of_fmap in Hd as (i & -> & Hi). apply elem_of_seqZ in Hi.
    apply (collect_lengths_overflow heap lens n Hll Hh ltac:(lia) Hpos Hcells (i - n)); [lia |].
    apply Hfix; [lia |]. by replace (n + (i - n)) with i by lia.
Qed.

(** ** The check *)

(** C29. The messages of [decode_check_huff]. If the files hold the tokens [C] and
    the attribute has the tokens [D], as many as the files, then the check
    reads the files to the end without an error; it reports every position at
    which the tokens differ, and then, whatever it reported, that the
    uncompressed corpus can be deleted. *)
Theorem decode_check_messages (be : bool) (disk : gmap string (list Z)) (garbage : Z -> list Z)
    (C D : list Z) (n : Z) (m : nat) (h h0 : HCD) (lens : list Z) (inn : Z -> Z) (bytes : list Z)
    (Inv : CL -> Prop) (cl : CL) (q1 q2 q3 : Z) :
  (forall k, 0 <= k -> zlen (garbage k) = k) ->
  huff_book C n h lens inn -> byte_bits bytes = align (stream (code_bits lens inn) C (length C)) ->
  TokenAccess be disk Inv D m -> length D = length C -> Inv cl -> 0 < zlen C ->
  zlen (lcount h0) = MAXCODELEN -> zlen (symindex h0) = MAXCODELEN -> zlen (min_code h0) = MAXCODELEN ->
  exists cl', decode_check_huff be disk garbage (Some (mkFILE (ints_be (hcd_ints h)) 0 q1 false))
      (Some (mkFILE bytes 0 q2 false))
      (Some (mkFILE (ints_be (sync_offset (code_bits lens inn) C <$> seq 0 (blocks (length C)))) 0 q3 false)) h0 cl =
    Ok ((seq 0 (length C) ≫= fun i =>
           if cell C (Z.of_nat i) =? cell D (Z.of_nat i) then []
           else [WrongToken (cell C (Z.of_nat i)) (Z.of_nat i) (cell D (Z.of_nat i))]) ++ [CanDelete], cl').
Proof. intros Hg HB Hb TA HD Hcl Hpos L1 L2 L3. by eapply decode_check_huff_ok. Qed.

Lemma no_token_errors C k : token_errors C C k = [].
Proof.
  induction k as [|k IH]; [done |]. rewrite token_errors_S, IH, Z.eqb_refl. done.
Qed.

(** C28. The check accepts what the tool wrote: [decode_check_huff] on the three
    files of [compute_code_lengths] and the same attribute says that the
    uncompressed corpus can be deleted, and nothing else. *)
Theorem decode_check_accepts (be : bool) (disk : gmap string (list Z)) (garbage : Z -> list Z)
    (C : list Z) (n : nat) (a : Attribute) (e : Z) (dl : list Z) (q1 q2 q3 : Z) (h0 : HCD) :
  (forall k, 0 <= k -> zlen (garbage k) = k) ->
  plain_corpus disk a C n -> avail disk a CompLexicon = Some dl -> (0 < n)%nat ->
  Forall (fun ps => ps <> []) (occs C n) ->
  zlen C + Z.of_nat n <= INT_MAX - 2 -> 38 * zlen C <= 8 * INT_MAX -> codes_fit C n ->
  4 * (100 + Z.of_nat n) <= q1 -> 38 * zlen C + 15 < 8 * q2 + 8 -> 4 * Z.of_nat (blocks (length C)) <= q3 ->
  zlen (lcount h0) = MAXCODELEN -> zlen (symindex h0) = MAXCODELEN -> zlen (min_code h0) = MAXCODELEN ->
  exists files f cl' cl'',
    compute_code_lengths be disk garbage (Some (mkFILE [] 0 q1 false)) (Some (mkFILE [] 0 q2 false))
      (Some (mkFILE [] 0 q3 false)) (mkCL (Some a) e) = Ok (Some files, cl') /\
    handle (huf_file files) = Some f /\
    decode_check_huff be disk garbage (Some (mkFILE (contents (hcd_file files)) 0 q1 false))
      (Some (mkFILE (contents f) 0 q2 false)) (Some (mkFILE (contents (sync_file files)) 0 q3 false)) h0 cl' =
      Ok ([CanDelete], cl'').
Proof.
  intros Hg P Hl Hn Hocc Htot Hbits Hfit Hq1 Hq2 Hq3 L1 L2 L3. pose proof (pc_ids _ _ _ _ P) as Hids.
  pose proof (types_le_tokens C n Hids Hn Hocc) as Htt.
  destruct (compute_code_lengths_ok be disk garbage Hg C n Hids Hn Hocc a e dl q1 q2 q3 P Hl Htot Hfit Hbits Hq1 Hq2 Hq3)
    as (h & lens & inn & files & a' & e' & E & HO & P').
  pose proof (huff_output_book _ _ _ _ _ _ HO Hids Hbits) as HB.
  destruct HO as [_ _ _ _ Hh (f & Hf & Hs) Hy].
  destruct (decode_check_huff_ok be disk garbage Hg C (Z.of_nat n) h lens inn HB (contents f) Hs (plain_state disk a') C n
              (TA := plain_token_access be disk a' C n P') eq_refl q1 q2 q3 h0 (mkCL (Some a') e'))
    as (cl'' & E'); [by exists a', e' | lia | done | done | done |].
  exists files, f, (mkCL (Some a') e'), cl''. split; [done |]. split; [done |]. rewrite Hh, Hy.
  by rewrite no_token_errors in E'.
Qed.

(** ** The compressed attribute as a corpus *)
Section Compressed.
Context (be : bool) (disk : gmap string (list Z)) (C : list Z) (n : nat) (h : HCD) (lens : list Z) (inn : Z -> Z).

Definition compressed_state (cl : CL) : Prop :=
  exists a e, cl = mkCL (Some a) e /\ huff_corpus disk C h lens inn a /\ hc a = Some (mem_hcd h) /\
    has_postings disk a (zlen C) (occs C n).

Lemma huff_loaded_loads a a' :
  loads disk a a' -> huff_corpus disk C h lens inn a -> hc a = Some (mem_hcd h) -> huff_corpus disk C h lens inn a'.
Proof using.
  intros L [T W Hd Hs Hc Hst [Hb1 Hb2]] Hh. split; try (by rewrite (loads_avail _ _ _ L)).
  - by rewrite (loads_type _ _ _ L).
  - by apply (loads_wf _ _ _ L).
  - right. rewrite (loads_hc _ _ _ L). split; [done |]. apply (loads_loaded _ _ _ L). destruct Hst as [(? & _)|[_ ?]]; congruence.
  - unfold buffer_ok. by rewrite (loads_nr _ _ _ L), (loads_block _ _ _ L).
Qed.

Lemma compressed_loads a a' e :
  loads disk a a' -> huff_corpus disk C h lens inn a -> hc a = Some (mem_hcd h) -> has_postings disk a (zlen C) (occs C n) ->
  compressed_state (mkCL (Some a') e).
Proof using.
  intros L H Hh HP. exists a', e. split; [done |]. split; [by eapply huff_loaded_loads |].
  split; [by rewrite (loads_hc _ _ _ L) | by eapply has_postings_loads].
Qed.

Lemma huff_postings a :
  huff_book C (Z.of_nat n) h lens inn -> huff_corpus disk C h lens inn a -> hc a = Some (mem_hcd h) ->
  0 < zlen C <= INT_MAX -> 0 < Z.of_nat n <= INT_MAX ->
  (exists d, avail disk a CompLexiconIdx = Some d /\ nr_ints d = zlen (occs C n)) ->
  avail disk a CompCorpusFreqs = Some (ints_be (zlen <$> occs C n)) ->
  has_postings disk a (zlen C) (occs C n).
Proof using.
  intros HB H Hh HC Hn Hl Hf. split; try done.
  - apply H.
  - apply H.
  - apply (size_huffman _ _ _ (mem_hcd h)); [done | apply HB |].
    destruct (hf_state _ _ _ _ _ _ H) as [(? & _)|[_ ?]]; congruence.
  - by rewrite zlen_occs.
  - apply occs_sorted.
Qed.
End Compressed.

(** A compressed attribute is a corpus: with the descriptor block in memory,
    the frequencies and the lexicon index, it implements the interface of token
    access with the tokens of the compressed stream, so that everything that is
    built on the interface (the reversed corpus, the check of the files) can be
    built from the compressed corpus alone. *)
Theorem compressed_token_access (be : bool) (disk : gmap string (list Z)) (C : list Z) (n : nat) (h : HCD)
    (lens : list Z) (inn : Z -> Z) :
  huff_book C (Z.of_nat n) h lens inn -> zlen C <= INT_MAX -> Z.of_nat n <= INT_MAX ->
  TokenAccess be disk (compressed_state disk C n h lens inn) C n.
Proof.
  intros HB HC Hn. split; [apply HB | done | done | | | | |].
  - intros _ (a & e & -> & H & Hh & HP).
    destruct (ensure_fwd be disk a e CompCorpusFreqs _ ltac:(done) ltac:(done) ltac:(done) ltac:(done)
                (ix_freqs _ _ _ _ HP) (ix_wf _ _ _ _ HP)) as (c & a2 & E & _ & _ & (L & _)).
    exists c, (mkCL (Some a2) e). split; [done |]. by eapply compressed_loads.
  - intros _ (a & e & -> & H & Hh & HP).
    destruct (cl_max_id_ok be disk a e _ _ HP) as (a2 & (L & _) & E). rewrite zlen_occs in E.
    eexists. split; [exact E |]. by eapply compressed_loads.
  - intros _ (a & e & -> & H & Hh & HP).
    destruct (cl_max_cpos_ok be disk a e (zlen C)) as (a2 & E & (L & _)); [apply HP | apply HP | apply HP |].
    eexists. split; [exact E |]. by eapply compressed_loads.
  - intros _ i (a & e & -> & H & Hh & HP) Hi.
    destruct (cl_id2freq_ok be disk a e _ _ (Z.of_nat i) HP) as (a2 & (L & _) & E).
    rewrite (proj2 (Z.ltb_ge _ _)), Nat2Z.id, occs_lookup in E by lia.
    eexists. split; [exact E |]. by eapply compressed_loads.
  - intros _ p c (a & e & -> & H & Hh & HP) Hp.
    destruct (cl_cpos2id_huff_ok be disk C _ h lens inn a e (Z.of_nat p) HB H) as (a2 & H2 & Hh2 & Hav & E).
    rewrite (proj2 (Z.ltb_ge _ _)), Nat2Z.id, Hp in E by lia.
    eexists. split; [exact E |]. exists a2, CDA_OK. split; [done |]. split; [done |]. split; [done |].
    destruct HP as [_ _ _ Hp1 Hp2 Hp3 Hp4 _]. rewrite zlen_occs in Hp2.
    apply (huff_postings disk C n h lens inn); try done; by rewrite !Hav.
Qed.

(** ** Examples *)

Definition ex_disk3 : gmap string (list Z) := <["c.lexicon" := [97; 0; 98; 0; 99; 0]]> ex_disk2.
Definition ex_encoded : Attribute :=
  mkAtt ATT_POS (<[CompLexicon := on_disk "c.lexicon"]> (components ex_counted)) None (-1) [].
Definition ex_garbage (k : Z) : list Z := replicate (Z.to_nat k) 7.

Lemma ex_encoded_components cid comp :
  components ex_encoded !! cid = Some comp -> exists p, comp = on_disk p /\
    (forall d, ex_disk3 !! p = Some d -> nr_ints d <= 6).
Proof.
  destruct cid; vm_compute; intros H; try discriminate; injection H as <-; eexists;
    (split; [reflexivity |]); vm_compute; intros d Hd; try discriminate; injection Hd as <-; vm_compute; discriminate.
Qed.

Lemma ex_encoded_plain : plain_corpus ex_disk3 ex_encoded ex_corpus 3.
Proof.
  split; [| reflexivity | reflexivity | repeat constructor; lia]. split; try reflexivity.
  - intros cid comp Hc. destruct (ex_encoded_components cid comp Hc) as (p & -> & Hd). split; [| done].
    intros d. unfold comp_avail, on_disk. cbn [comp_data data init_mblob]. destruct (decide _); [done |].
    intros H. apply Hd in H. unfold INT_MAX. lia.
  - apply (size_plain _ _ _ (ints_be ex_corpus)); reflexivity.
  - unfold INT_MAX. vm_compute. split; [reflexivity | discriminate].
  - unfold INT_MAX. vm_compute. split; [reflexivity | discriminate].
  - eexists. split; reflexivity.
  - apply occs_sorted.
Qed.

Lemma ex_occs : Forall (fun ps => ps <> []) (occs ex_corpus 3).
Proof. vm_compute. repeat constructor; discriminate. Qed.

Lemma ex_ids : Forall (fun c => 0 <= c < 3) ex_corpus.
Proof. repeat constructor; lia. Qed.

Lemma ex_codes_fit : codes_fit ex_corpus 3.
Proof. apply codes_fit_small; [apply ex_ids | lia | apply ex_occs | reflexivity]. Qed.

(** A codebook for the example, and an attribute with the files. *)
Definition ex_lens : list Z := [1; 2; 2].
Definition ex_inn (l : Z) : Z := if l =? 1 then 1 else 0.
Definition ex_hcd : HCD :=
  mkHCD 3 6 1 2 ([0; 1; 2] ++ replicate 29 0) ([0; 0; 1] ++ replicate 29 0) ([0; 1] ++ replicate 30 0) [0; 1; 2].
Definition ex_huf : list Z := [148; 128].

Lemma ex_table_ints l : forallb (fun x => (0 <=? x) && (x <=? INT_MAX)) l = true -> ints_only l.
Proof.
  intros H. apply List.Forall_forall. intros x Hx. apply (proj1 (List.forallb_forall _ _) H) in Hx.
  apply andb_true_iff in Hx as [H1 H2]. apply Z.leb_le in H1, H2. done.
Qed.

Lemma ex_huff_book : huff_book ex_corpus 3 ex_hcd ex_lens ex_inn.
Proof.
  split; [| | reflexivity | apply ex_ids | vm_compute; discriminate].
  - exists 1, 2. split.
    + split; [repeat constructor; lia | lia | unfold MAXCODELEN; lia | reflexivity | | |].
      * intros l Hl. assert (l = 1) as -> by lia. reflexivity.
      * intros l Hl. assert (l = 1 \/ l = 2) as [-> | ->] by lia; vm_compute; split; discriminate.
      * intros l Hl. assert (l = 1 \/ l = 2) as [-> | ->] by lia; vm_compute; discriminate.
    + reflexivity.
    + vm_compute. discriminate.
    + reflexivity.
    + intros j Hj. assert (j = 1 \/ j = 2) as [-> | ->] by lia; reflexivity.
    + apply ex_table_ints. reflexivity.
    + reflexivity.
    + intros j Hj. assert (j = 1 \/ j = 2) as [-> | ->] by lia; reflexivity.
    + apply ex_table_ints. reflexivity.
    + reflexivity.
    + intros i Hi. assert (i = 0 \/ i = 1 \/ i = 2) as [-> | [-> | ->]] by lia; reflexivity.
    + repeat constructor; vm_compute; discriminate.
  - split; [split; vm_compute; discriminate .. | | | | ].
    + split; [reflexivity | apply ex_table_ints; reflexivity].
    + split; [reflexivity | apply ex_table_ints; reflexivity].
    + split; [reflexivity | apply ex_table_ints; reflexivity].
    + split; [reflexivity |]. repeat constructor; vm_compute; discriminate.
Qed.

Definition ex_disk4 : gmap string (list Z) :=
  <["c.huf" := ex_huf]> (<["c.hcd" := ints_be (hcd_ints ex_hcd)]> (<["c.huf.syn" := [0; 0; 0; 0]]> ex_disk3)).
Definition ex_compressed : Attribute :=
  mkAtt ATT_POS (<[CompHuffSeq := on_disk "c.huf"]> (<[CompHuffCodes := on_disk "c.hcd"]>
    (<[CompHuffSync := on_disk "c.huf.syn"]> (components ex_encoded)))) None (-1) (replicate 128 0).

Lemma ex_compressed_components cid comp :
  components ex_compressed !! cid = Some comp -> exists p, comp = on_disk p /\
    (forall d, ex_disk4 !! p = Some d -> nr_ints d <= 103).
Proof.
  destruct cid; vm_compute; intros H; try discriminate; injection H as <-; eexists;
    (split; [reflexivity |]); vm_compute; intros d Hd; try discriminate; injection Hd as <-; vm_compute; discriminate.
Qed.

Lemma ex_fresh : fresh_compressed ex_disk4 ex_compressed ex_huf (ints_be (hcd_ints ex_hcd)) [0; 0; 0; 0].
Proof.
  split; try reflexivity; try discriminate; [| by split].
  intros cid comp Hc. destruct (ex_compressed_components cid comp Hc) as (p & -> & Hd). split; [| done].
  intros d. unfold comp_avail, on_disk. cbn [comp_data data init_mblob]. destruct (decide _); [done |].
  intros H. apply Hd in H. unfold INT_MAX. lia.
Qed.

Lemma huffman_roundtrip_witness :
  exists files f a' e' b' e'',
    compute_code_lengths true ex_disk3 ex_garbage (Some (mkFILE [] 0 412 false)) (Some (mkFILE [] 0 100 false))
      (Some (mkFILE [] 0 4 false)) (mkCL (Some ex_encoded) 0) = Ok (Some files, mkCL (Some a') e') /\
    handle (huf_file files) = Some f /\ contents f = [148; 128] /\
    cpos2ids false ex_disk4 [3; 0; -1; 5; 6] (mkCL (Some ex_compressed) 0) =
      Ok ([(2, CDA_OK); (0, CDA_OK); (CDA_EPOSORNG, CDA_EPOSORNG); (0, CDA_OK); (CDA_EPOSORNG, CDA_EPOSORNG)],
          mkCL (Some b') e'').
Proof.
  destruct (huffman_roundtrip true false ex_disk3 ex_disk4 ex_garbage ex_corpus 3 ex_encoded 0 [97; 0; 98; 0; 99; 0] 412 100 4)
    as (files & f & a' & e' & E & Hf & R).
  - intros k Hk. unfold ex_garbage. rewrite zlen_replicate. lia.
  - apply ex_encoded_plain.
  - reflexivity.
  - lia.
  - apply ex_occs.
  - vm_compute. discriminate.
  - vm_compute. discriminate.
  - apply ex_codes_fit.
  - vm_compute. discriminate.
  - vm_compute. reflexivity.
  - vm_compute. discriminate.
  - pose proof E as E0. vm_compute in E0. injection E0 as <- <- <-. cbn in Hf. injection Hf as <-.
    destruct (R ex_compressed 0 [3; 0; -1; 5; 6] ex_fresh) as (b' & e'' & E').
    eexists _, _, _, _, b', e''. split; [exact E |]. split; [reflexivity |]. split; [reflexivity | exact E'].
Defined.

Lemma codebook_prefix_free_witness : ~ (code_bits ex_lens ex_inn 1) `prefix_of` (code_bits ex_lens ex_inn 2).
Proof.
  apply (codebook_prefix_free 3 ex_hcd ex_lens ex_inn 2 1); [apply ex_huff_book | lia | lia | lia].
Defined.

Lemma small_corpus_codes_fit_witness :
  exists heap, huffman_depths [3; 4; 5; 4; 3; 2] 3 = Ok heap /\
    Forall (fun d => 0 <= d < MAXCODELEN) (leaf_depths 3 (cell heap)).
Proof.
  apply (small_corpus_codes_fit ex_corpus 3); [apply ex_ids | lia | apply ex_occs | reflexivity].
Defined.

(** Weights that are Fibonacci numbers give a tree that is a single branch. *)
Definition ex_fibonacci : list Z := [2; 2] ++ (fib <$> seq 4 31).

Lemma collect_lengths_faults_witness :
  exists heap, huffman_depths (seqZ 33 33 ++ ex_fibonacci) 33 = Ok heap /\ collect_lengths heap 33 = Err OutOfBounds.
Proof.
  destruct (collect_lengths_faults 33 ex_fibonacci) as (heap & E & H).
  - lia.
  - reflexivity.
  - repeat constructor; vm_compute; discriminate.
  - vm_compute. discriminate.
  - vm_compute. discriminate.
  - exists heap. split; [exact E |]. apply H.
    assert (forallb (fun d => d <? 32) (leaf_depths 33 (cell heap)) = false) as Hb.
    { vm_compute in E. injection E as <-. vm_compute. reflexivity. }
    destruct (decide (Exists (fun d => MAXCODELEN <= d) (leaf_depths 33 (cell heap)))) as [|Hno]; [done |]. exfalso.
    apply not_Exists_Forall in Hno; [| intros; apply _].
    rewrite (proj2 (List.forallb_forall _ _)) in Hb; [done |].
    intros x Hx. apply Z.ltb_lt, Z.nle_gt. apply list_elem_of_In in Hx. by apply (proj1 (Forall_forall _ _) Hno).
Defined.

Definition ex_hcd0 : HCD := mkHCD 0 0 0 0 (replicate 32 0) (replicate 32 0) (replicate 32 0) [].

(** The first two tokens of the attribute are others than in the files. *)
Definition ex_tokens : list Z := [1; 0; 0; 2; 1; 0].

Lemma decode_check_messages_witness :
  exists cl', decode_check_huff true ex_disk3 ex_garbage (Some (mkFILE (ints_be (hcd_ints ex_hcd)) 0 0 false))
      (Some (mkFILE [52; 128] 0 0 false)) (Some (mkFILE [0; 0; 0; 0] 0 0 false)) ex_hcd0 (mkCL (Some ex_encoded) 0) =
    Ok ([WrongToken 1 0 0; WrongToken 0 1 1; CanDelete], cl').
Proof.
  destruct (decode_check_messages true ex_disk3 ex_garbage ex_tokens ex_corpus 3 3 ex_hcd ex_hcd0 ex_lens ex_inn
           [52; 128] (plain_state ex_disk3 ex_encoded) (mkCL (Some ex_encoded) 0) 0 0 0) as (cl' & E).
  - intros k Hk. unfold ex_garbage. rewrite zlen_replicate. lia.
  - destruct ex_huff_book as [B Hh _ _ _]. split; [done | done | reflexivity | | vm_compute; discriminate].
    repeat constructor; lia.
  - vm_compute. reflexivity.
  - apply (plain_token_access true ex_disk3 ex_encoded ex_corpus 3 ex_encoded_plain).
  - reflexivity.
  - exists ex_encoded, 0. split; [reflexivity | apply loads_refl].
  - reflexivity.
  - reflexivity.
  - reflexivity.
  - reflexivity.
  - exists cl'. assert (sync_offset (code_bits ex_lens ex_inn) ex_tokens <$> seq 0 (blocks (length ex_tokens)) = [0]) as Hs
      by (vm_compute; reflexivity).
    rewrite Hs in E. exact E.
Defined.

Lemma decode_check_accepts_witness :
  exists files f cl' cl'',
    compute_code_lengths true ex_disk3 ex_garbage (Some (mkFILE [] 0 412 false)) (Some (mkFILE [] 0 100 false))
      (Some (mkFILE [] 0 4 false)) (mkCL (Some ex_encoded) 0) = Ok (Some files, cl') /\
    handle (huf_file files) = Some f /\
    decode_check_huff true ex_disk3 ex_garbage (Some (mkFILE (contents (hcd_file files)) 0 412 false))
      (Some (mkFILE (contents f) 0 100 false)) (Some (mkFILE (contents (sync_file files)) 0 4 false)) ex_hcd0 cl' =
      Ok ([CanDelete], cl'').
Proof.
  apply (decode_check_accepts true ex_disk3 ex_garbage ex_corpus 3 ex_encoded 0 [97; 0; 98; 0; 99; 0] 412 100 4 ex_hcd0).
  - intros k Hk. unfold ex_garbage. rewrite zlen_replicate. lia.
  - apply ex_encoded_plain.
  - reflexivity.
  - lia.
  - apply ex_occs.
  - vm_compute. discriminate.
  - vm_compute. discriminate.
  - apply ex_codes_fit.
  - vm_compute. discriminate.
  - vm_compute. reflexivity.
  - vm_compute. discriminate.
  - reflexivity.
  - reflexivity.
  - reflexivity.
Defined.

Lemma compressed_token_access_witness :
  TokenAccess true ex_disk4 (compressed_state ex_disk4 ex_corpus 3 ex_hcd ex_lens ex_inn) ex_corpus 3 /\
  exists cl, compressed_state ex_disk4 ex_corpus 3 ex_hcd ex_lens ex_inn cl.
Proof.
  split.
  - apply (compressed_token_access true ex_disk4 ex_corpus 3 ex_hcd ex_lens ex_inn); [apply ex_huff_book | |];
      vm_compute; discriminate.
  - destruct ex_fresh as [T W Fs Fc Fy Fh Fu Fk [Fn Fb]].
    destruct (cl_cpos2id_huff_ok true ex_disk4 ex_corpus 3 ex_hcd ex_lens ex_inn ex_compressed 0 0 ex_huff_book)
      as (a & H & Hh & Hav & _).
    { split; try assumption; [exists ex_huf; split; [assumption | reflexivity] | left; by split | split; [assumption | by left]]. }
    exists (mkCL (Some a) 0), a, 0. split; [reflexivity |]. split; [exact H |]. split; [exact Hh |].
    apply (huff_postings _ _ _ ex_hcd ex_lens ex_inn); [apply ex_huff_book | exact H | exact Hh | | | |].
    + vm_compute. split; [reflexivity | discriminate].
    + vm_compute. split; [reflexivity | discriminate].
    + rewrite Hav. eexists. split; reflexivity.
    + rewrite Hav. reflexivity.
Defined.

(** ** One access *)

(** C40. [cl_cpos2id] on a compressed attribute returns the id of the token at the
    position with [CDA_OK] and the range error outside the corpus, whichever
    block the decompression buffer holds, and leaves an attribute with the same
    data and a buffer that is valid again. *)
Theorem cl_cpos2id_compressed_correct (be : bool) (disk : gmap string (list Z)) (C : list Z) (n : Z) (h : HCD)
    (lens : list Z) (inn : Z -> Z) (a : Attribute) (e pos : Z) :
  huff_book C n h lens inn -> huff_corpus disk C h lens inn a ->
  exists a', huff_corpus disk C h lens inn a' /\ (forall cid, avail disk a' cid = avail disk a cid) /\
    cl_cpos2id be disk pos (mkCL (Some a) e) =
      Ok ((token_answer C pos).1, mkCL (Some a') (token_answer C pos).2).
Proof.
  intros HB H. destruct (cl_cpos2id_huff_ok be disk C n h lens inn a e pos HB H) as (a' & H' & _ & Hav & E).
  exists a'. split; [done |]. split; [done |]. rewrite E. unfold token_answer. by destruct (if pos <? 0 then _ else _).
Qed.

Lemma ex_huff_corpus : huff_corpus ex_disk4 ex_corpus ex_hcd ex_lens ex_inn ex_compressed.
Proof.
  destruct ex_fresh as [T W Fs Fc Fy Fh Fu Fk [Fn Fb]].
  split; try assumption; [exists ex_huf; split; [assumption | reflexivity] | left; by split | split; [assumption | by left]].
Qed.

Lemma cl_cpos2id_compressed_correct_witness :
  exists a', huff_corpus ex_disk4 ex_corpus ex_hcd ex_lens ex_inn a' /\
    cl_cpos2id true ex_disk4 3 (mkCL (Some ex_compressed) 0) = Ok (2, mkCL (Some a') CDA_OK).
Proof.
  destruct (cl_cpos2id_compressed_correct true ex_disk4 ex_corpus 3 ex_hcd ex_lens ex_inn ex_compressed 0 3 ex_huff_book ex_huff_corpus)
    as (a' & H & _ & E).
  exists a'. split; [exact H | exact E].
Defined.
