(* ===== verification/Struc.v ===== *)
(** * Structural attributes: cl/cdaccess.c

    The regions of a structural attribute are pairs of corpus positions in the
    component CompStrucData, found by binary search; their annotations are
    strings in CompStrucAVS, found by binary search for the number of the region
    in CompStrucAVX.  Results that the C functions store through pointers are
    returned next to the value, the old contents are arguments.  The field
    [has_attribute_values], which only structural attributes have, is passed to
    and returned by the functions that use it. *)

From Stdlib Require Import ZArith Lia String.
From stdpp Require Import base tactics option list numbers gmap strings sorting.
From S2P Require Import Prelude Bits Storage BitIO Golomb Blob Attributes CDA Lexicon Positional RevIndex MakeComps MakeFreqs.

Open Scope Z_scope.

Section Structural.
Context (be : bool) (disk : gmap string (list Z)).

(** ** Regions *)

(** [while (low <= high)]: [Some k] is the pointer [&data[k]]. *)
Definition mark_round (data : list Z) (position : Z) (st : Z * Z * Z) : res (Z * Z * Z + option Z) :=
  let '(nr, low, high) := st in
  if low <=? high then
    nr ← c_int (nr + 1);
    if 100000 <? nr then Ok (inr None)
    else
      sum ← c_int (low + high);
      let mid := Z.quot sum 2 in
      start ← nget be data (mid * 2);
      let comp := s32 (u32 position - start) in
      if comp =? 0 then Ok (inr (Some (mid * 2)))
      else if 0 <? comp then
        stop ← nget be data (mid * 2 + 1);
        if u32 position <=? stop then Ok (inr (Some (mid * 2)))
        else Ok (inl (nr, mid + 1, high))
      else if mid =? low then Ok (inr None)
      else Ok (inl (nr, low, mid - 1))
  else Ok (inr None).

Definition get_previous_mark (data : list Z) (size position : Z) : res (option Z) :=
  let max := Z.quot size 2 in
  loop (mark_round data position) fuel (0, 0, max - 1).

(** The return value, [*struc_start] and [*struc_end], whose old values are [start0] and [end0]. *)
Definition cl_cpos2struc2cpos (position start0 end0 : Z) : M (Z * Z * Z) :=
  check_arg ATT_STRUC (fun e => (e, start0, end0)) (
    struc_data ← ensure be disk CompStrucData;
    match struc_data with
    | None => return_errno CDA_ENODATA (0, 0, 0)
    | Some c =>
        d ← lift (comp_bytes c);
        val ← lift (get_previous_mark d (comp_size c) position);
        match val with
        | Some k =>
            s ← lift (nget_int be d k);
            e ← lift (nget_int be d (k + 1));
            return_errno CDA_OK (1, s, e)
        | None => return_errno CDA_ESTRUC (0, 0, 0)
        end
    end).

(** The return value and [*struc_num]. *)
Definition cl_cpos2struc_oldstyle (position num0 : Z) : M (Z * Z) :=
  check_arg ATT_STRUC (fun e => (e, num0)) (
    struc_data ← ensure be disk CompStrucData;
    match struc_data with
    | None => return_errno CDA_ENODATA (0, num0)
    | Some c =>
        d ← lift (comp_bytes c);
        val ← lift (get_previous_mark d (comp_size c) position);
        match val with
        | Some k => return_errno CDA_OK (1, Z.quot k 2)
        | None => return_errno CDA_ESTRUC (0, num0)
        end
    end).

Definition cl_cpos2struc (cpos : Z) : M Z :=
  r ← cl_cpos2struc_oldstyle cpos (-1);
  if negb (r.1 =? 0) then mret r.2 else get_errno.

Definition STRUC_INSIDE : Z := 1.
Definition STRUC_LBOUND : Z := 2.
Definition STRUC_RBOUND : Z := 4.

Definition cl_cpos2boundary (cpos : Z) : M Z :=
  r ← cl_cpos2struc2cpos cpos (-1) (-1);
  let '(ok, start, stop) := r in
  if negb (ok =? 0) then
    let flags := STRUC_INSIDE in
    let flags := if cpos =? start then Z.lor flags STRUC_LBOUND else flags in
    let flags := if cpos =? stop then Z.lor flags STRUC_RBOUND else flags in
    mret flags
  else
    e ← get_errno;
    if e =? CDA_ESTRUC then mret 0 else mret e.

Definition cl_struc2cpos (struc_num start0 end0 : Z) : M (Z * Z * Z) :=
  check_arg ATT_STRUC (fun e => (e, start0, end0)) (
    struc_data ← ensure be disk CompStrucData;
    match struc_data with
    | None => return_errno CDA_ENODATA (0, start0, end0)
    | Some c =>
        if (struc_num <? 0) || (Z.quot (comp_size c) 2 <=? struc_num)
        then return_errno CDA_EIDXORNG (0, start0, end0)
        else
          d ← lift (comp_bytes c);
          s ← lift (nget_int be d (struc_num * 2));
          e ← lift (nget_int be d (struc_num * 2 + 1));
          return_errno CDA_OK (1, s, e)
    end).

Definition cl_max_struc_oldstyle (nr0 : Z) : M (Z * Z) :=
  check_arg ATT_STRUC (fun e => (e, nr0)) (
    struc_data ← ensure be disk CompStrucData;
    match struc_data with
    | None => return_errno CDA_ENODATA (0, nr0)
    | Some c => return_errno CDA_OK (1, Z.quot (comp_size c) 2)
    end).

Definition cl_max_struc : M Z :=
  r ← cl_max_struc_oldstyle (-1);
  if negb (r.1 =? 0) then mret r.2 else get_errno.

(** ** Annotations *)

(** The return value and the field; it is negative until it is known. *)
Definition cl_struc_values (has_attribute_values : Z) : M (Z * Z) :=
  check_arg ATT_STRUC (fun e => (e, has_attribute_values)) (
    a ← attribute;
    let h :=
      if has_attribute_values <? 0 then
        if is_accessible (component_state disk a CompStrucAVS) && is_accessible (component_state disk a CompStrucAVX)
        then 1 else 0
      else has_attribute_values in
    return_errno CDA_OK (h, h)).

(** [s_v_comp] on the key, an [int], and element [i] of the index. *)
Definition s_v_comp (id : Z) (avx : list Z) (i : Z) : res Z :=
  v ← nget be avx (i * 2);
  Ok (s32 (u32 id - v)).

(** The returned pointer into the strings, and the field. *)
Definition cl_struc2str (struc_num has_attribute_values : Z) : M (option Z * Z) :=
  check_arg ATT_STRUC (fun _ => (None, has_attribute_values)) (
    r ← cl_struc_values has_attribute_values;
    let '(ok, h) := r in
    e ← get_errno;
    if negb (ok =? 0) && (e =? CDA_OK) then
      avs ← ensure be disk CompStrucAVS;
      avx ← ensure be disk CompStrucAVX;
      match avs, avx with
      | Some avs, Some avx =>
          d ← lift (comp_bytes avx);
          idx ← lift (bsearch (s_v_comp struc_num d) (Z.quot (comp_size avx) 2));
          match idx with
          | Some i =>
              offset ← lift (nget_int be d (i * 2 + 1));
              if (0 <=? offset) && (offset <? size (comp_data avs))
              then return_errno CDA_OK (Some offset, h)
              else return_errno CDA_EINTERNAL (None, h)
          | None => return_errno CDA_EIDXORNG (None, h)
          end
      | _, _ => return_errno CDA_ENODATA (None, h)
      end
    else mret (None, h)).

(** [struc] may be NULL. *)
Definition structure_value_at_position (position has_attribute_values : Z) : M (option Z * Z) := fun s =>
  match att s with
  | None => Ok ((None, has_attribute_values), s)
  | Some _ =>
      (r ← cl_cpos2struc_oldstyle position (-1);
       if r.1 =? 0 then mret (None, has_attribute_values)
       else cl_struc2str r.2 has_attribute_values) s
  end.
End Structural.

(** ** Binary search

    A step that looks at the middle of the interval and either answers or
    excludes the middle and all cells on one side of it: the interval halves
    with every round, so that far fewer rounds are made than the counter
    allows. *)
Section Bisect.
Context {R : Type} (step : Z * Z * Z -> res (Z * Z * Z + R)) (max : Z) (hit : Z -> Prop) (Q : R -> Prop).
Hypothesis max_int : 0 <= max < 2 ^ 31.
Hypothesis step_in : forall nr low high, 0 <= nr <= 40 -> 0 <= low <= high -> high < max ->
  (forall i, 0 <= i < max -> i < low \/ high < i -> ~ hit i) ->
  let mid := (low + high) / 2 in
  (exists r, step (nr, low, high) = Ok (inr r) /\ Q r) \/
  (step (nr, low, high) = Ok (inl (nr + 1, mid + 1, high)) /\ forall i, 0 <= i <= mid -> ~ hit i) \/
  (step (nr, low, high) = Ok (inl (nr + 1, low, mid - 1)) /\ forall i, mid <= i < max -> ~ hit i).
Hypothesis step_out : forall nr low high, high < low -> (forall i, 0 <= i < max -> ~ hit i) ->
  exists r, step (nr, low, high) = Ok (inr r) /\ Q r.

Lemma bisect_ok : exists r, loop step fuel (0, 0, max - 1) = Ok r /\ Q r.
Proof using All.
  loop_with (fun '(nr, low, high) => 0 <= nr <= 40 /\ 0 <= low <= high + 1 /\ high < max /\
      (low <= high -> (high - low + 1) * 2 ^ nr <= max) /\
      (forall i, 0 <= i < max -> i < low \/ high < i -> ~ hit i))
    Q (fun '(nr, low, high) => high - low + 1 : Z) r E H.
  - intros [[nr low] high] (Hnr & Hlow & Hhigh & Hsz & Hex). split; [lia |].
    destruct (Z.lt_ge_cases high low) as [Hlt|Hge].
    + right. apply step_out; [done |]. intros i Hi. apply Hex; lia.
    + specialize (Hsz Hge). set (mid := (low + high) / 2).
      assert (2 * mid <= low + high <= 2 * mid + 1) as Hmid by (subst mid; Z.div_mod_to_equations; lia).
      assert (0 < 2 ^ nr) as Hpow by (apply Z.pow_pos_nonneg; lia).
      assert (nr < 32) as Hnr'.
      { apply (Z.pow_lt_mono_r_iff 2); [lia | lia |]. nia. }
      assert (2 ^ (nr + 1) = 2 * 2 ^ nr) as Hpow' by (rewrite Z.pow_add_r by lia; lia).
      destruct (step_in nr low high Hnr ltac:(lia) Hhigh Hex) as [(r & E & Hr)|[[E Hx]|[E Hx]]]; fold mid in E, Hx || idtac.
      * right. by exists r.
      * left. eexists. split; [exact E |]. split; [| lia]. split; [lia |]. split; [lia |]. split; [done |].
        split; [rewrite Hpow'; nia |]. intros i Hi [Hi'|Hi']; [apply Hx; lia | apply Hex; lia].
      * left. eexists. split; [exact E |]. split; [| lia]. split; [lia |]. split; [lia |]. split; [lia |].
        split; [rewrite Hpow'; nia |]. intros i Hi [Hi'|Hi']; [apply Hex; lia | apply Hx; lia].
  - split; [lia |]. split; [lia |]. split; [lia |]. split; [rewrite Z.pow_0_r; lia |]. intros i Hi. lia.
  - rewrite fuel_val. lia.
  - by exists r.
Qed.
End Bisect.

(** ** The regions of an attribute *)

Definition is_cpos (x : Z) : Prop := 0 <= x <= INT_MAX.

(** Regions in ascending order that do not overlap. *)
Definition regions_ok (R : list (Z * Z)) : Prop :=
  Forall (fun r => 0 <= r.1 <= r.2 /\ r.2 <= INT_MAX) R /\ StronglySorted (fun r q => r.2 < q.1) R.

(** Position [pos] is in region [i]. *)
Definition region_at (R : list (Z * Z)) (pos : Z) (i : nat) : Prop :=
  exists r, R !! i = Some r /\ r.1 <= pos <= r.2.

Lemma regions_bounds R i r : regions_ok R -> R !! i = Some r -> 0 <= r.1 <= r.2 /\ r.2 <= INT_MAX.
Proof. intros [H _] Hi. apply (Forall_lookup_1 _ _ _ _ H Hi). Qed.

Lemma StronglySorted_pair {A} (P : A -> A -> Prop) l i j x y :
  StronglySorted P l -> l !! i = Some x -> l !! j = Some y -> (i < j)%nat -> P x y.
Proof.
  intros H. revert i j. induction H as [|z l H IH Hz]; intros i j Hi Hj Hlt; [done |].
  destruct j as [|j]; [lia |]. destruct i as [|i].
  - injection Hi as ->. apply (Forall_lookup_1 _ _ _ _ Hz Hj).
  - apply (IH i j); [done | done | lia].
Qed.

Lemma regions_apart R i j r q :
  regions_ok R -> R !! i = Some r -> R !! j = Some q -> (i < j)%nat -> r.2 < q.1.
Proof. intros [_ H] Hi Hj Hlt. apply (StronglySorted_pair _ _ _ _ _ _ H Hi Hj Hlt). Qed.

Lemma region_at_unique R pos i j : regions_ok R -> region_at R pos i -> region_at R pos j -> i = j.
Proof.
  intros HR (r & Hi & Hr) (q & Hj & Hq). destruct (Nat.lt_total i j) as [H|[H|H]]; [| done |].
  - pose proof (regions_apart R i j r q HR Hi Hj H). lia.
  - pose proof (regions_apart R j i q r HR Hj Hi H). lia.
Qed.

Lemma nget_aget be vs i v : aget vs i = Ok v -> 0 <= v <= INT_MAX ->
  nget be (ints_be vs) i = Ok v /\ nget_int be (ints_be vs) i = Ok v.
Proof.
  intros Hi Hv. apply aget_Ok in Hi as [H0 Hi]. rewrite <- (Z2Nat.id i) by done.
  rewrite <- (app_nil_r (ints_be vs)). rewrite (nget_ints_be be vs [] _ v Hi).
  rewrite (nget_int_ints_be be vs [] _ v Hi) by (unfold INT_MIN; lia).
  rewrite u32_small by (unfold INT_MAX in Hv; lia). done.
Qed.

Lemma zlen_flat_ranges R : zlen (flat_ranges R) = 2 * zlen R.
Proof.
  induction R as [|r R IH]; [done |]. unfold flat_ranges in *. rewrite bind_cons, zlen_app, IH.
  change (zlen [r.1; r.2]) with 2. rewrite zlen_cons. lia.
Qed.

Section StrucOk.
Context (be : bool).

Lemma nget_regions R i r :
  regions_ok R -> R !! i = Some r ->
  nget be (ints_be (flat_ranges R)) (Z.of_nat i * 2) = Ok r.1 /\
  nget be (ints_be (flat_ranges R)) (Z.of_nat i * 2 + 1) = Ok r.2 /\
  nget_int be (ints_be (flat_ranges R)) (Z.of_nat i * 2) = Ok r.1 /\
  nget_int be (ints_be (flat_ranges R)) (Z.of_nat i * 2 + 1) = Ok r.2.
Proof using.
  intros HR Hi. pose proof (regions_bounds R i r HR Hi). destruct (flat_ranges_lookup R i r Hi) as [H1 H2].
  destruct (nget_aget be _ _ _ H1 ltac:(lia)) as [N1 N2]. destruct (nget_aget be _ _ _ H2 ltac:(lia)) as [N3 N4]. done.
Qed.

(** A difference of positions, computed with unsigned numbers. *)
Lemma s32_diff x y : is_cpos x -> is_cpos y -> s32 (u32 x - y) = x - y.
Proof using.
  unfold is_cpos. intros Hx Hy. rewrite (u32_small x) by (unfold INT_MAX in *; lia).
  transitivity (s32 (u32 (x - y))); [unfold s32, u32; by rewrite Z.mod_mod by lia | apply s32_u32; unfold INT_MIN, INT_MAX in *; lia].
Qed.

Lemma get_previous_mark_ok R pos :
  regions_ok R -> zlen R < 2 ^ 30 -> is_cpos pos ->
  exists o, get_previous_mark be (ints_be (flat_ranges R)) (2 * zlen R) pos = Ok o /\
    match o with
    | Some k => exists i, k = Z.of_nat i * 2 /\ region_at R pos i
    | None => forall i, ~ region_at R pos i
    end.
Proof using.
  intros HR Hlen Hpos. pose proof (zlen_nonneg R). unfold get_previous_mark.
  rewrite Z.quot_div_nonneg, (Z.mul_comm 2), Z.div_mul by lia.
  assert (forall i : Z, 0 <= i < zlen R -> exists r, R !! Z.to_nat i = Some r) as Hlk.
  { intros i Hi. apply lookup_lt_is_Some_2. unfold zlen in Hi. lia. }
  apply (bisect_ok _ (zlen R) (fun i => region_at R pos (Z.to_nat i))); [lia | |].
  - intros nr low high Hnr Hl Hh Hex mid.
    assert (2 * mid <= low + high <= 2 * mid + 1) as Hmid by (subst mid; Z.div_mod_to_equations; lia).
    remember (mark_round be _ pos (nr, low, high)) as o eqn:Ho. unfold mark_round in Ho.
    rewrite (proj2 (Z.leb_le low high)) in Ho by lia.
    rewrite (c_int_Ok (nr + 1)) in Ho by (unfold INT_MIN, INT_MAX; lia). res_cbn in Ho. rewrite (proj2 (Z.ltb_ge 100000 _)) in Ho by lia.
    rewrite (c_int_Ok (low + high)) in Ho by (unfold INT_MIN, INT_MAX; lia). res_cbn in Ho. rewrite Z.quot_div_nonneg in Ho by lia. fold mid in Ho.
    destruct (Hlk mid ltac:(lia)) as [r Hr]. destruct (nget_regions R _ r HR Hr) as (N1 & N2 & _).
    rewrite Z2Nat.id in N1, N2 by lia. rewrite N1 in Ho. res_cbn in Ho.
    destruct (regions_bounds R _ r HR Hr) as [Hb1 Hb2]. rewrite s32_diff in Ho by (unfold is_cpos; lia || done).
    assert (forall i q, 0 <= i < zlen R -> R !! Z.to_nat i = Some q -> i < mid -> q.2 < r.1) as Hbelow.
    { intros i q Hi Hq Hlt. apply (regions_apart R (Z.to_nat i) (Z.to_nat mid)); (done || lia). }
    assert (forall i q, 0 <= i < zlen R -> R !! Z.to_nat i = Some q -> mid < i -> r.2 < q.1) as Habove.
    { intros i q Hi Hq Hlt. apply (regions_apart R (Z.to_nat mid) (Z.to_nat i)); (done || lia). }
    destruct (Z.eqb_spec (pos - r.1) 0) as [H0|H0].
    { left. eexists. split; [exact Ho |]. exists (Z.to_nat mid). split; [lia |]. exists r. split; [done | lia]. }
    destruct (Z.ltb_spec 0 (pos - r.1)) as [H1|H1].
    + rewrite N2 in Ho. res_cbn in Ho. unfold is_cpos in Hpos. rewrite u32_small in Ho by (unfold INT_MAX in *; lia).
      destruct (Z.leb_spec pos r.2) as [H2|H2].
      * left. eexists. split; [exact Ho |]. exists (Z.to_nat mid). split; [lia |]. exists r. split; [done | lia].
      * right. left. split; [done |]. intros i Hi (q & Hq & Hin).
        destruct (Z.eq_dec i mid) as [->|Hne]; [rewrite Hr in Hq; injection Hq as <-; lia |].
        pose proof (Hbelow i q ltac:(lia) Hq ltac:(lia)). lia.
    + assert (forall i, mid <= i < zlen R -> ~ region_at R pos (Z.to_nat i)) as Hno.
      { intros i Hi (q & Hq & Hin). destruct (Z.eq_dec i mid) as [->|Hne]; [rewrite Hr in Hq; injection Hq as <-; lia |].
        pose proof (Habove i q ltac:(lia) Hq ltac:(lia)). lia. }
      destruct (Z.eqb_spec mid low) as [Heq|Hne].
      * left. eexists. split; [exact Ho |]. intros i Hin. pose proof Hin as (q & Hq & _).
        pose proof (lookup_lt_Some _ _ _ Hq) as Hil. destruct (Z.lt_ge_cases (Z.of_nat i) low).
        -- apply (Hex (Z.of_nat i)); [unfold zlen; lia | by left | by rewrite Nat2Z.id].
        -- apply (Hno (Z.of_nat i)); [unfold zlen; lia | by rewrite Nat2Z.id].
      * right. right. by split.
  - intros nr low high Hlt Hex. unfold mark_round. rewrite (proj2 (Z.leb_gt low high)) by lia.
    eexists. split; [reflexivity |]. intros i Hin. pose proof Hin as (q & Hq & _). pose proof (lookup_lt_Some _ _ _ Hq).
    apply (Hex (Z.of_nat i)); [unfold zlen; lia | by rewrite Nat2Z.id].
Qed.
End StrucOk.

(** ** Access *)

(** The number of the region a position is in. *)
Definition region_of (R : list (Z * Z)) (pos : Z) : option nat :=
  fst <$> list_find (fun r : Z * Z => r.1 <= pos /\ pos <= r.2) R.

Lemma region_of_Some R pos i : regions_ok R -> region_at R pos i -> region_of R pos = Some i.
Proof.
  intros HR (r & Hi & Hr). unfold region_of.
  destruct (list_find _ R) as [[j q]|] eqn:E.
  - apply list_find_Some in E as (Hj & Hq & _). cbn. f_equal.
    apply (region_at_unique R pos); [done | by exists q | by exists r].
  - apply list_find_None in E. pose proof (Forall_lookup_1 _ _ _ _ E Hi) as H. cbn in H. lia.
Qed.

Lemma region_of_None R pos : (forall i, ~ region_at R pos i) -> region_of R pos = None.
Proof.
  intros H. unfold region_of. destruct (list_find _ R) as [[j q]|] eqn:E; [| done].
  apply list_find_Some in E as (Hj & Hq & _). exfalso. apply (H j). by exists q.
Qed.

Lemma region_of_at R pos i : region_of R pos = Some i -> region_at R pos i.
Proof.
  unfold region_of. destruct (list_find _ R) as [[j q]|] eqn:E; [| done]. intros [= <-].
  apply list_find_Some in E as (Hj & Hq & _). by exists q.
Qed.

(** The structural attribute has the regions [R]. *)
Record has_regions (disk : gmap string (list Z)) (a : Attribute) (R : list (Z * Z)) : Prop := {
  hr_type : type a = ATT_STRUC;
  hr_wf : wf_attribute disk a;
  hr_data : avail disk a CompStrucData = Some (ints_be (flat_ranges R));
  hr_regions : regions_ok R
}.

Section StrucAccess.
Context (be : bool) (disk : gmap string (list Z)).

Lemma has_regions_loads a a' R : loads disk a a' -> has_regions disk a R -> has_regions disk a' R.
Proof using.
  intros L [T W D HR]. split; [by rewrite (loads_type _ _ _ L) | by apply (loads_wf _ _ _ L) | | done].
  by rewrite (loads_avail _ _ _ L).
Qed.

(** Loading the regions. *)
Lemma ensure_regions a e R :
  has_regions disk a R ->
  exists c a', ensure be disk CompStrucData (mkCL (Some a) e) = Ok (Some c, mkCL (Some a') e) /\
    comp_bytes c = Ok (ints_be (flat_ranges R)) /\ comp_size c = 2 * zlen R /\ zlen R < 2 ^ 30 /\ loads disk a a'.
Proof using.
  intros [T W D HR]. destruct (ensure_ok be disk a e CompStrucData _ ltac:(done) ltac:(done) D W) as (c & a' & E & Hd & Hs & L & _).
  exists c, a'. split; [done |]. split; [unfold comp_bytes; by rewrite Hd |].
  rewrite Hs, nr_ints_be, zlen_flat_ranges. split; [done |]. split; [| done].
  unfold avail in D. destruct (components a !! CompStrucData) as [comp|] eqn:Hc; [| done]. cbn in D.
  destruct (W _ _ Hc) as [Hm _]. specialize (Hm _ D). rewrite nr_ints_be, zlen_flat_ranges in Hm. unfold INT_MAX in Hm. lia.
Qed.

Lemma cl_cpos2struc2cpos_ok a e R pos s0 e0 :
  has_regions disk a R -> is_cpos pos ->
  exists a', loads disk a a' /\
    cl_cpos2struc2cpos be disk pos s0 e0 (mkCL (Some a) e) =
      Ok (match region_of R pos ≫= (fun i => R !! i) with
          | Some r => ((1, r.1, r.2), mkCL (Some a') CDA_OK)
          | None => ((0, 0, 0), mkCL (Some a') CDA_ESTRUC)
          end).
Proof using.
  intros H Hpos. unfold cl_cpos2struc2cpos. rewrite check_arg_ok by apply H.
  destruct (ensure_regions a e R H) as (c & a' & E & Hb & Hs & Hlen & L). cda_call E. exists a'. split; [done |].
  cda_lift Hb. rewrite Hs. destruct (get_previous_mark_ok be R pos (hr_regions _ _ _ H) Hlen Hpos) as (o & Em & Ho).
  cda_lift Em. destruct o as [k|].
  - destruct Ho as (i & -> & Hat). rewrite (region_of_Some R pos i) by (apply H || done). destruct Hat as (r & Hi & Hr). cbn.
    rewrite Hi. destruct (nget_regions be R i r (hr_regions _ _ _ H) Hi) as (_ & _ & N1 & N2). cda_lift N1. cda_lift N2. by cda.
  - rewrite (region_of_None R pos) by done. by cda.
Qed.

Lemma cl_cpos2struc_oldstyle_ok a e R pos n0 :
  has_regions disk a R -> is_cpos pos ->
  exists a', loads disk a a' /\
    cl_cpos2struc_oldstyle be disk pos n0 (mkCL (Some a) e) =
      Ok (match region_of R pos with
          | Some i => ((1, Z.of_nat i), mkCL (Some a') CDA_OK)
          | None => ((0, n0), mkCL (Some a') CDA_ESTRUC)
          end).
Proof using.
  intros H Hpos. unfold cl_cpos2struc_oldstyle. rewrite check_arg_ok by apply H.
  destruct (ensure_regions a e R H) as (c & a' & E & Hb & Hs & Hlen & L). cda_call E. exists a'. split; [done |].
  cda_lift Hb. rewrite Hs. destruct (get_previous_mark_ok be R pos (hr_regions _ _ _ H) Hlen Hpos) as (o & Em & Ho).
  cda_lift Em. destruct o as [k|].
  - destruct Ho as (i & -> & Hat). rewrite (region_of_Some R pos i) by (apply H || done).
    rewrite Z.quot_div_nonneg, Z.div_mul by lia. by cda.
  - rewrite (region_of_None R pos) by done. by cda.
Qed.

Lemma cl_struc2cpos_ok a e R num s0 e0 :
  has_regions disk a R ->
  exists a', loads disk a a' /\
    cl_struc2cpos be disk num s0 e0 (mkCL (Some a) e) =
      Ok (match (if num <? 0 then None else R !! Z.to_nat num) with
          | Some r => ((1, r.1, r.2), mkCL (Some a') CDA_OK)
          | None => ((0, s0, e0), mkCL (Some a') CDA_EIDXORNG)
          end).
Proof using.
  intros H. unfold cl_struc2cpos. rewrite check_arg_ok by apply H.
  destruct (ensure_regions a e R H) as (c & a' & E & Hb & Hs & Hlen & L). cda_call E. exists a'. split; [done |].
  pose proof (zlen_nonneg R) as Hz. rewrite Hs, Z.quot_div_nonneg, (Z.mul_comm 2), Z.div_mul by lia.
  destruct (Z.ltb_spec num 0) as [H0|H0]; cbn [orb]; [by cda |].
  destruct (Z.leb_spec (zlen R) num) as [H1|H1].
  - rewrite lookup_ge_None_2 by (unfold zlen in H1; lia). by cda.
  - destruct (lookup_lt_is_Some_2 R (Z.to_nat num)) as [r Hr]; [unfold zlen in H1; lia |]. rewrite Hr.
    destruct (nget_regions be R _ r (hr_regions _ _ _ H) Hr) as (_ & _ & N1 & N2). rewrite Z2Nat.id in N1, N2 by lia.
    cda_lift Hb. cda_lift N1. cda_lift N2. by cda.
Qed.

Lemma cl_max_struc_ok a e R :
  has_regions disk a R ->
  exists a', loads disk a a' /\ cl_max_struc be disk (mkCL (Some a) e) = Ok (zlen R, mkCL (Some a') CDA_OK).
Proof using.
  intros H. unfold cl_max_struc.
  destruct (ensure_regions a e R H) as (c & a' & E & Hb & Hs & Hlen & L). exists a'. split; [done |].
  assert (cl_max_struc_oldstyle be disk (-1) (mkCL (Some a) e) = Ok ((1, zlen R), mkCL (Some a') CDA_OK)) as Em.
  { unfold cl_max_struc_oldstyle. rewrite check_arg_ok by apply H. cda_call E. pose proof (zlen_nonneg R).
    rewrite Hs, Z.quot_div_nonneg, (Z.mul_comm 2), Z.div_mul by lia. by cda. }
  cda_call Em. done.
Qed.
End StrucAccess.

(** What [cl_cpos2boundary] should answer. *)
Definition boundary_flags (R : list (Z * Z)) (pos : Z) : Z :=
  match region_of R pos ≫= (fun i => R !! i) with
  | Some r => 1 + (if pos =? r.1 then 2 else 0) + (if pos =? r.2 then 4 else 0)
  | None => 0
  end.

(** C20. Regions of a structural attribute. For every corpus position,
    [cl_cpos2struc] returns the number of the region the position is in, or
    [CDA_ESTRUC] if it is in none; [cl_cpos2struc2cpos] returns the bounds of
    this region; [cl_cpos2boundary] tells inside, start and end of it. *)
Theorem cl_cpos2struc_correct (be : bool) (disk : gmap string (list Z)) (a : Attribute) (e : Z)
    (R : list (Z * Z)) (pos : Z) :
  has_regions disk a R -> is_cpos pos ->
  exists a1 a2 a3, has_regions disk a1 R /\ has_regions disk a2 R /\ has_regions disk a3 R /\
    cl_cpos2struc be disk pos (mkCL (Some a) e) =
      Ok (match region_of R pos with
          | Some i => (Z.of_nat i, mkCL (Some a1) CDA_OK)
          | None => (CDA_ESTRUC, mkCL (Some a1) CDA_ESTRUC)
          end) /\
    cl_cpos2struc2cpos be disk pos 0 0 (mkCL (Some a) e) =
      Ok (match region_of R pos ≫= (fun i => R !! i) with
          | Some r => ((1, r.1, r.2), mkCL (Some a2) CDA_OK)
          | None => ((0, 0, 0), mkCL (Some a2) CDA_ESTRUC)
          end) /\
    exists e', cl_cpos2boundary be disk pos (mkCL (Some a) e) = Ok (boundary_flags R pos, mkCL (Some a3) e').
Proof.
  intros H Hpos. destruct (cl_cpos2struc_oldstyle_ok be disk a e R pos (-1) H Hpos) as (a1 & L1 & E1).
  destruct (cl_cpos2struc2cpos_ok be disk a e R pos 0 0 H Hpos) as (a2 & L2 & E2).
  destruct (cl_cpos2struc2cpos_ok be disk a e R pos (-1) (-1) H Hpos) as (a3 & L3 & E3).
  exists a1, a2, a3. split; [by eapply has_regions_loads |]. split; [by eapply has_regions_loads |].
  split; [by eapply has_regions_loads |]. split; [| split; [exact E2 |]].
  - unfold cl_cpos2struc, mbind, M_bind. rewrite E1. by destruct (region_of R pos).
  - unfold cl_cpos2boundary, boundary_flags, mbind at 1, M_bind. rewrite E3.
    destruct (region_of R pos ≫= _) as [r|].
    + change (negb (1 =? 0)) with true. cbv beta iota zeta.
      destruct (pos =? r.1), (pos =? r.2); by eexists.
    + by eexists.
Qed.

(** Numbers of regions. [cl_max_struc] is the number of regions;
    [cl_struc2cpos] returns the bounds of a region by its number and
    [CDA_EIDXORNG] for a number that is out of range; every position between
    the bounds leads back to the number. *)
Theorem cl_struc2cpos_correct (be : bool) (disk : gmap string (list Z)) (a : Attribute) (e : Z)
    (R : list (Z * Z)) (num s0 e0 : Z) :
  has_regions disk a R ->
  exists a1 a2, has_regions disk a1 R /\ has_regions disk a2 R /\
    cl_max_struc be disk (mkCL (Some a) e) = Ok (zlen R, mkCL (Some a1) CDA_OK) /\
    ((num < 0 \/ zlen R <= num) -> cl_struc2cpos be disk num s0 e0 (mkCL (Some a) e) =
       Ok ((0, s0, e0), mkCL (Some a2) CDA_EIDXORNG)) /\
    (0 <= num < zlen R -> exists start stop,
       cl_struc2cpos be disk num s0 e0 (mkCL (Some a) e) = Ok ((1, start, stop), mkCL (Some a2) CDA_OK) /\
       start <= stop /\
       forall pos, start <= pos <= stop -> exists a3,
         cl_cpos2struc be disk pos (mkCL (Some a2) CDA_OK) = Ok (num, mkCL (Some a3) CDA_OK)).
Proof.
  intros H. destruct (cl_max_struc_ok be disk a e R H) as (a1 & L1 & E1).
  destruct (cl_struc2cpos_ok be disk a e R num s0 e0 H) as (a2 & L2 & E2).
  assert (has_regions disk a2 R) as H2 by by eapply has_regions_loads.
  exists a1, a2. split; [by eapply has_regions_loads |]. split; [done |]. split; [done |]. rewrite E2. split.
  - intros [H0|H0].
    + by rewrite (proj2 (Z.ltb_lt num 0)) by done.
    + pose proof (zlen_nonneg R). rewrite (proj2 (Z.ltb_ge num 0)) by lia.
      by rewrite lookup_ge_None_2 by (unfold zlen in H0; lia).
  - intros Hn. rewrite (proj2 (Z.ltb_ge num 0)) by lia.
    destruct (lookup_lt_is_Some_2 R (Z.to_nat num)) as [r Hr]; [unfold zlen in Hn; lia |]. rewrite Hr.
    pose proof (hr_regions _ _ _ H) as HR. pose proof (regions_bounds R _ r HR Hr) as Hb.
    exists r.1, r.2. split; [done |]. split; [lia |]. intros pos Hpos.
    destruct (cl_cpos2struc_oldstyle_ok be disk a2 CDA_OK R pos (-1) H2 ltac:(unfold is_cpos; lia)) as (a3 & _ & E3).
    exists a3. unfold cl_cpos2struc, mbind, M_bind. rewrite E3.
    rewrite (region_of_Some R pos (Z.to_nat num) HR) by (by exists r). change (negb (1 =? 0)) with true. cbv iota. cbn [snd].
    by rewrite Z2Nat.id by lia.
Qed.

(** The checks of the attribute that are lost. The functions with the new
    calling conventions take the error number that the old ones return for a
    missing attribute or one of another type for success: [cl_cpos2boundary]
    says that every position is inside a region, and [cl_cpos2struc] and
    [cl_max_struc] return their initial -1, whatever the error was. *)
Theorem struc_access_wrong_attribute (be : bool) (disk : gmap string (list Z)) (a : option Attribute) (e pos : Z) :
  0 <= pos -> (match a with Some a => type a <> ATT_STRUC | None => True end) ->
  let err := match a with Some _ => CDA_EATTTYPE | None => CDA_ENULLATT end in
  cl_cpos2boundary be disk pos (mkCL a e) = Ok (STRUC_INSIDE, mkCL a err) /\
  cl_cpos2struc be disk pos (mkCL a e) = Ok (-1, mkCL a err) /\
  cl_max_struc be disk (mkCL a e) = Ok (-1, mkCL a err).
Proof.
  intros Hpos Ha err.
  assert (forall A (rval : Z -> A) body, check_arg ATT_STRUC rval body (mkCL a e) = Ok (rval err, mkCL a err)) as Hc.
  { intros A rval body. unfold check_arg. destruct a as [a|]; cbn [att]; [| done].
    rewrite (proj2 (Z.eqb_neq _ _)) by done. done. }
  assert (negb (err =? 0) = true) as Hn by (unfold err; by destruct a).
  split; [| split].
  - unfold cl_cpos2boundary, cl_cpos2struc2cpos. rewrite (bindM_Ok _ _ _ _ _ (Hc _ _ _)), Hn.
    rewrite !(proj2 (Z.eqb_neq pos (-1))) by lia. done.
  - unfold cl_cpos2struc, cl_cpos2struc_oldstyle. rewrite (bindM_Ok _ _ _ _ _ (Hc _ _ _)). cbn [fst snd]. by rewrite Hn.
  - unfold cl_max_struc, cl_max_struc_oldstyle. rewrite (bindM_Ok _ _ _ _ _ (Hc _ _ _)). cbn [fst snd]. by rewrite Hn.
Qed.

(** ** Annotations *)

(** The regions with these numbers have annotations, at these offsets in [strs]. *)
Record has_annotations (disk : gmap string (list Z)) (a : Attribute) (X : list (Z * Z)) (strs : list Z) : Prop := {
  hx_type : type a = ATT_STRUC;
  hx_wf : wf_attribute disk a;
  hx_strs : avail disk a CompStrucAVS = Some strs;
  hx_index : avail disk a CompStrucAVX = Some (ints_be (flat_ranges X));
  hx_sizes : forall c, components a !! CompStrucAVS = Some c -> blob_sizes c;
  hx_range : Forall (fun x => is_cpos x.1 /\ is_cpos x.2) X;
  hx_sorted : StronglySorted (fun x y => x.1 < y.1) X
}.

(** The offset of the annotation of region [num]. *)
Definition annotation_of (X : list (Z * Z)) (num : Z) : option Z :=
  snd ∘ snd <$> list_find (fun x : Z * Z => x.1 = num) X.

Section AnnotationAccess.
Context (be : bool) (disk : gmap string (list Z)).

Lemma s_v_comp_sign num v :
  INT_MIN <= num <= INT_MAX -> is_cpos v ->
  let c := s32 (u32 num - v) in
  (c = 0 <-> num = v) /\ (is_cpos num -> c = num - v).
Proof using.
  intros Hn Hv c. split; [| intros; by apply s32_diff]. subst c. unfold is_cpos, INT_MIN, INT_MAX in *.
  unfold s32, u32. destruct (Z.lt_ge_cases num 0) as [H|H].
  - assert (num mod 2 ^ 32 = num + 2 ^ 32) as -> by (rewrite <- (Z.mod_small (num + 2 ^ 32) (2 ^ 32)) by lia; Z.div_mod_to_equations; lia).
    rewrite Z.mod_small by lia. case_Z; lia.
  - rewrite (Z.mod_small num) by lia. destruct (Z.lt_ge_cases num v).
    + assert ((num - v) mod 2 ^ 32 = num - v + 2 ^ 32) as -> by (rewrite <- (Z.mod_small (num - v + 2 ^ 32) (2 ^ 32)) by lia; Z.div_mod_to_equations; lia).
      case_Z; lia.
    + rewrite Z.mod_small by lia. case_Z; lia.
Qed.

Lemma nget_index X i x :
  Forall (fun x => is_cpos x.1 /\ is_cpos x.2) X -> X !! i = Some x ->
  nget be (ints_be (flat_ranges X)) (Z.of_nat i * 2) = Ok x.1 /\
  nget_int be (ints_be (flat_ranges X)) (Z.of_nat i * 2 + 1) = Ok x.2.
Proof using.
  intros HX Hi. destruct (Forall_lookup_1 _ _ _ _ HX Hi) as [H1 H2]. destruct (flat_ranges_lookup X i x Hi) as [G1 G2].
  destruct (nget_aget be _ _ _ G1 H1) as [N1 _]. destruct (nget_aget be _ _ _ G2 H2) as [_ N2]. done.
Qed.

Lemma search_annotation X num :
  Forall (fun x => is_cpos x.1 /\ is_cpos x.2) X -> StronglySorted (fun x y => x.1 < y.1) X -> zlen X < 2 ^ 31 ->
  INT_MIN <= num <= INT_MAX ->
  exists o, bsearch (s_v_comp be num (ints_be (flat_ranges X))) (zlen X) = Ok o /\
    match o with
    | Some i => exists x, X !! Z.to_nat i = Some x /\ 0 <= i /\ x.1 = num /\ annotation_of X num = Some x.2
    | None => annotation_of X num = None
    end.
Proof using.
  intros HX Hs Hlen Hnum. pose proof (zlen_nonneg X).
  assert (forall i j x y, X !! i = Some x -> X !! j = Some y -> (i < j)%nat -> x.1 < y.1) as Hlt.
  { intros i j x y Hi Hj. apply (StronglySorted_pair _ _ _ _ _ _ Hs Hi Hj). }
  destruct (bsearch_ok (s_v_comp be num (ints_be (flat_ranges X))) (zlen X)
              (fun i => exists x, X !! Z.to_nat i = Some x /\ x.1 = num)) as (o & E & Ho).
  - lia.
  - intros i Hi. destruct (lookup_lt_is_Some_2 X (Z.to_nat i)) as [x Hx]; [unfold zlen in Hi; lia |].
    destruct (nget_index X _ x HX Hx) as [N _]. rewrite Z2Nat.id in N by lia. unfold s_v_comp. rewrite N. res_cbn.
    eexists. split; [reflexivity |]. destruct (Forall_lookup_1 _ _ _ _ HX Hx) as [Hx1 _].
    destruct (s_v_comp_sign num x.1 Hnum Hx1) as [H0 Hd]. split; [intros Hc; exists x; split; [done |]; symmetry; by apply H0 |].
    assert (forall j y, X !! Z.to_nat j = Some y -> y.1 = num -> is_cpos num) as Hc.
    { intros j y Hy <-. apply (Forall_lookup_1 _ _ _ _ HX Hy). }
    split; intros Hsg j Hj (y & Hy & Hyn); rewrite (Hd (Hc j y Hy Hyn)) in Hsg;
      (destruct (Z.eq_dec i j) as [->|Hne]; [rewrite Hx in Hy; injection Hy as ->; lia |]).
    + pose proof (Hlt (Z.to_nat i) (Z.to_nat j) x y Hx Hy ltac:(lia)). lia.
    + pose proof (Hlt (Z.to_nat j) (Z.to_nat i) y x Hy Hx ltac:(lia)). lia.
  - exists o. split; [done |]. unfold annotation_of. destruct o as [i|].
    + destruct Ho as (Hi & x & Hx & Hn). exists x. split; [done |]. split; [lia |]. split; [done |].
      destruct (list_find (fun x : Z * Z => x.1 = num) X) as [[j y]|] eqn:Hf.
      * apply list_find_Some in Hf as (Hj & Hy & _). cbn. do 2 f_equal.
        destruct (Nat.lt_total j (Z.to_nat i)) as [Hl|[->|Hl]]; [| congruence |].
        -- pose proof (Hlt _ _ _ _ Hj Hx Hl). lia.
        -- pose proof (Hlt _ _ _ _ Hx Hj Hl). lia.
      * apply list_find_None in Hf. pose proof (Forall_lookup_1 _ _ _ _ Hf Hx) as Hf'. cbn in Hf'. lia.
    + destruct (list_find (fun x : Z * Z => x.1 = num) X) as [[j y]|] eqn:Hf; [| done].
      apply list_find_Some in Hf as (Hj & Hy & _). pose proof (lookup_lt_Some _ _ _ Hj). exfalso.
      apply (Ho (Z.of_nat j)); [unfold zlen; lia |]. exists y. by rewrite Nat2Z.id.
Qed.

Lemma has_annotations_loads a a' X strs :
  loads disk a a' -> (forall c, components a' !! CompStrucAVS = Some c -> blob_sizes c) ->
  has_annotations disk a X strs -> has_annotations disk a' X strs.
Proof using.
  intros L Hc [T W S I _ HR HS]. split; try done; try (by rewrite (loads_avail _ _ _ L)).
  - by rewrite (loads_type _ _ _ L).
  - by apply (loads_wf _ _ _ L).
Qed.

Lemma cl_struc2str_ok a e X strs num h :
  has_annotations disk a X strs -> INT_MIN <= num <= INT_MAX -> h < 0 \/ h = 1 ->
  exists a', has_annotations disk a' X strs /\
    cl_struc2str be disk num h (mkCL (Some a) e) =
      Ok (match annotation_of X num with
          | Some off => if off <? zlen strs then ((Some off, 1), mkCL (Some a') CDA_OK)
                        else ((None, 1), mkCL (Some a') CDA_EINTERNAL)
          | None => ((None, 1), mkCL (Some a') CDA_EIDXORNG)
          end).
Proof using.
  intros H Hnum Hh. pose proof H as [T W S I Hsz HR HS]. unfold cl_struc2str. rewrite check_arg_ok by done.
  assert (cl_struc_values disk h (mkCL (Some a) e) = Ok ((1, 1), mkCL (Some a) CDA_OK)) as Ev.
  { unfold cl_struc_values. rewrite check_arg_ok by done. cda.
    rewrite (proj2 (is_accessible_avail disk a CompStrucAVS)) by (rewrite S; eauto).
    rewrite (proj2 (is_accessible_avail disk a CompStrucAVX)) by (rewrite I; eauto). cbn [andb].
    destruct Hh as [Hh | ->]; [rewrite (proj2 (Z.ltb_lt h 0)) by done; done | done]. }
  cda_call Ev. change (negb (1 =? 0) && (CDA_OK =? CDA_OK)) with true. cbv iota.
  destruct (ensure_ok be disk a CDA_OK CompStrucAVS strs ltac:(done) ltac:(done) S W) as (c1 & a1 & E1 & Hd1 & _ & L1 & _).
  pose proof S as S'. unfold avail in S'. destruct (components a !! CompStrucAVS) as [comp|] eqn:Hcomp; [| done]. cbn in S'.
  pose proof (ensure_exact be disk a CDA_OK CompStrucAVS comp strs ltac:(done) ltac:(done) Hcomp S') as Ex.
  rewrite E1 in Ex. injection Ex as Hc1 Ha1.
  destruct (load_of_sizes comp strs (Hsz comp eq_refl)) as (_ & Hsize & Hni & His & Hcs & _).
  { intros d' Hd'. unfold comp_avail in S'. rewrite Hd' in S'. congruence. }
  { by apply (proj1 (W _ _ Hcomp)). }
  cda_call E1.
  assert (avail disk a1 CompStrucAVX = Some (ints_be (flat_ranges X))) as I1 by (by rewrite (loads_avail _ _ _ L1)).
  destruct (ensure_ok be disk a1 CDA_OK CompStrucAVX _ ltac:(done) ltac:(done) I1 (loads_wf _ _ _ L1 W))
    as (c2 & a2 & E2 & Hd2 & Hs2 & L2 & _).
  cda_call E2. assert (loads disk a a2) as L by (by transitivity a1).
  exists a2. split.
  { apply (has_annotations_loads a); [done | | done]. intros c Hc.
    destruct (loads_comp _ _ _ L2 CompStrucAVS) as [Ec|(c0 & d0 & Hc0 & Hn0 & _ & _)].
    - rewrite Ec, Ha1 in Hc. cbn [components set_components] in Hc. rewrite lookup_insert_eq in Hc. injection Hc as <-.
      intros d. unfold load_of. destruct (data (comp_data comp)) as [d'|] eqn:Edat.
      + intros Hd. by apply (Hsz comp eq_refl).
      + cbn. intros [= <-]. unfold load_of in Hsize, Hni, His, Hcs. rewrite Edat in Hsize, Hni, His, Hcs. done.
    - exfalso. rewrite Ha1 in Hc0. cbn [components set_components] in Hc0. rewrite lookup_insert_eq in Hc0. injection Hc0 as <-.
      rewrite <- Hc1 in Hn0. congruence. }
  assert (comp_bytes c2 = Ok (ints_be (flat_ranges X))) as Hb2 by (unfold comp_bytes; by rewrite Hd2). cda_lift Hb2.
  rewrite Hs2, nr_ints_be, zlen_flat_ranges. pose proof (zlen_nonneg X).
  rewrite Z.quot_div_nonneg, (Z.mul_comm 2), Z.div_mul by lia.
  assert (zlen X < 2 ^ 31) as HX31.
  { unfold avail in I. destruct (components a !! CompStrucAVX) as [cx|] eqn:Hcx; [| done]. cbn in I.
    pose proof (proj1 (W _ _ Hcx) _ I) as Hm. rewrite nr_ints_be, zlen_flat_ranges in Hm. unfold INT_MAX in Hm. lia. }
  destruct (search_annotation X num HR HS HX31 Hnum) as (o & E3 & Ho). cda_lift E3.
  destruct o as [i|]; [| rewrite Ho; by cda].
  destruct Ho as (x & Hx & Hi & Hxn & ->). destruct (nget_index X _ x HR Hx) as [_ N]. rewrite Z2Nat.id in N by lia. cda_lift N.
  destruct (Forall_lookup_1 _ _ _ _ HR Hx) as [_ [Hx2 _]]. rewrite (proj2 (Z.leb_le 0 x.2)) by done. cbn [andb].
  rewrite Hc1, Hsize. destruct (x.2 <? zlen strs); by cda.
Qed.
End AnnotationAccess.

(** Annotations. [cl_struc2str] returns the address of the string that the
    index of annotated regions gives for the number of the region, [CDA_EIDXORNG]
    for a region that has no entry, and [CDA_EINTERNAL] for an offset outside the
    strings; whether there are annotations is noted on the first call. *)
Theorem cl_struc2str_correct (be : bool) (disk : gmap string (list Z)) (a : Attribute) (e : Z)
    (X : list (Z * Z)) (strs : list Z) (num h : Z) :
  has_annotations disk a X strs -> INT_MIN <= num <= INT_MAX -> h < 0 \/ h = 1 ->
  exists a', has_annotations disk a' X strs /\
    cl_struc2str be disk num h (mkCL (Some a) e) =
      Ok (match annotation_of X num with
          | Some off => if off <? zlen strs then ((Some off, 1), mkCL (Some a') CDA_OK)
                        else ((None, 1), mkCL (Some a') CDA_EINTERNAL)
          | None => ((None, 1), mkCL (Some a') CDA_EIDXORNG)
          end).
Proof. apply cl_struc2str_ok. Qed.

(** ** Examples *)

Definition ex_regions : list (Z * Z) := [(0, 3); (4, 4); (10, 12)].
Definition ex_struc : Attribute := mem_attribute ATT_STRUC [(CompStrucData, ints_be (flat_ranges ex_regions))].

Lemma ex_has_regions : has_regions ∅ ex_struc ex_regions.
Proof.
  split; [reflexivity | | reflexivity |].
  - apply mem_attribute_wf. repeat constructor; vm_compute; discriminate.
  - split; repeat constructor; cbn; unfold INT_MAX; lia.
Qed.

Lemma cl_cpos2struc_correct_witness :
  (exists a', cl_cpos2struc true ∅ 11 (mkCL (Some ex_struc) 0) = Ok (2, mkCL (Some a') CDA_OK)) /\
  (exists a' e', cl_cpos2boundary true ∅ 4 (mkCL (Some ex_struc) 0) = Ok (7, mkCL (Some a') e')) /\
  (exists a', cl_cpos2struc2cpos true ∅ 7 0 0 (mkCL (Some ex_struc) 0) = Ok ((0, 0, 0), mkCL (Some a') CDA_ESTRUC)).
Proof.
  assert (forall p, 0 <= p < 100 -> is_cpos p) as Hp by (intros p Hp; unfold is_cpos, INT_MAX; lia).
  split; [| split].
  - destruct (cl_cpos2struc_correct true ∅ ex_struc 0 ex_regions 11 ex_has_regions (Hp 11 ltac:(lia)))
      as (a1 & _ & _ & _ & _ & _ & E & _). exists a1. exact E.
  - destruct (cl_cpos2struc_correct true ∅ ex_struc 0 ex_regions 4 ex_has_regions (Hp 4 ltac:(lia)))
      as (_ & _ & a3 & _ & _ & _ & _ & _ & e' & E). exists a3, e'. exact E.
  - destruct (cl_cpos2struc_correct true ∅ ex_struc 0 ex_regions 7 ex_has_regions (Hp 7 ltac:(lia)))
      as (_ & a2 & _ & _ & _ & _ & _ & E & _). exists a2. exact E.
Defined.

Lemma cl_struc2cpos_correct_witness :
  (exists a', cl_max_struc false ∅ (mkCL (Some ex_struc) 0) = Ok (3, mkCL (Some a') CDA_OK)) /\
  (exists a', cl_struc2cpos false ∅ 3 5 6 (mkCL (Some ex_struc) 0) = Ok ((0, 5, 6), mkCL (Some a') CDA_EIDXORNG)).
Proof.
  destruct (cl_struc2cpos_correct false ∅ ex_struc 0 ex_regions 3 5 6 ex_has_regions) as (a1 & a2 & _ & _ & E1 & E2 & _).
  split; [exists a1; exact E1 |]. exists a2. apply E2. right. vm_compute. discriminate.
Defined.

Lemma struc_access_wrong_attribute_witness :
  cl_cpos2boundary true ∅ 7 (mkCL (Some (mem_attribute ATT_POS [])) 0) = Ok (1, mkCL (Some (mem_attribute ATT_POS [])) CDA_EATTTYPE).
Proof.
  destruct (struc_access_wrong_attribute true ∅ (Some (mem_attribute ATT_POS [])) 0 7) as (E & _);
    [lia | discriminate | exact E].
Defined.

(** Regions 0 and 2 have annotations. *)
Definition ex_annotated : Attribute :=
  mem_attribute ATT_STRUC [(CompStrucAVS, [110; 112; 0; 118; 112; 0; 0; 0]); (CompStrucAVX, ints_be (flat_ranges [(0, 3); (2, 0)]))].

Lemma cl_struc2str_correct_witness :
  exists a', has_annotations ∅ a' [(0, 3); (2, 0)] [110; 112; 0; 118; 112; 0; 0; 0] /\
    cl_struc2str true ∅ 0 (-1) (mkCL (Some ex_annotated) 0) = Ok ((Some 3, 1), mkCL (Some a') CDA_OK).
Proof.
  apply (cl_struc2str_correct true ∅ ex_annotated 0 [(0, 3); (2, 0)] [110; 112; 0; 118; 112; 0; 0; 0] 0 (-1)).
  - split; try reflexivity.
    + apply mem_attribute_wf. repeat constructor; vm_compute; discriminate.
    + intros c Hc. vm_compute in Hc. injection Hc as <-. intros d Hd. injection Hd as <-. repeat split; reflexivity.
    + repeat constructor; cbn; unfold INT_MAX; lia.
    + repeat constructor; cbn; lia.
  - unfold INT_MIN, INT_MAX. lia.
  - left. lia.
Defined.
