(* ===== verification/Align.v ===== *)
(** * Alignment attributes: cl/cdaccess.c

    Two file formats: CompAlignData lists boundaries (source, target), so that
    region [i] lies between boundaries [i] and [i + 1] without gaps;
    CompXAlignData lists regions (source start and end, target start and end).
    The functions use the second format if its component is there. *)

From Stdlib Require Import ZArith Lia String.
From stdpp Require Import base tactics option list numbers gmap strings sorting.
From S2P Require Import Prelude Bits Storage BitIO Golomb Blob Attributes CDA Lexicon Positional RevIndex Struc.

Open Scope Z_scope.

Section Alignment.
Context (be : bool) (disk : gmap string (list Z)).

Definition alignment_round (data : list Z) (size position : Z) (st : Z * Z * Z) : res (Z * Z * Z + Z) :=
  let '(nr, low, high) := st in
  if low <=? high then
    nr ← c_int (nr + 1);
    if 100000 <? nr then Ok (inr (-1))
    else
      sum ← c_int (low + high);
      let mid := Z.quot sum 2 in
      start ← nget be data (mid * 2);
      let comp := s32 (u32 position - start) in
      if comp =? 0 then Ok (inr mid)
      else if 0 <? comp then
        inside ←
          (if mid * 2 <? size then
             next ← nget be data ((mid + 1) * 2);
             Ok (u32 position <? next)
           else Ok false);
        if (inside : bool) then Ok (inr mid) else Ok (inl (nr, mid + 1, high))
      else if mid =? low then Ok (inr (-1))
      else Ok (inl (nr, low, mid - 1))
  else Ok (inr (-1)).

Definition get_alignment (data : list Z) (size position : Z) : res Z :=
  let max := Z.quot size 2 in
  loop (alignment_round data size position) fuel (0, 0, max - 1).

Definition extended_round (data : list Z) (position : Z) (st : Z * Z * Z) : res (Z * Z * Z + Z) :=
  let '(nr, low, high) := st in
  if low <=? high then
    nr ← c_int (nr + 1);
    if 100000 <? nr then Ok (inr (-1))
    else
      sum ← c_int (low + high);
      let mid := Z.quot sum 2 in
      start ← nget_int be data (mid * 4);
      stop ← nget_int be data (mid * 4 + 1);
      if start <=? position then
        if position <=? stop then Ok (inr mid) else Ok (inl (nr, mid + 1, high))
      else Ok (inl (nr, low, mid - 1))
  else Ok (inr CDA_EALIGN).

Definition get_extended_alignment (data : list Z) (size position : Z) : res Z :=
  let max := Z.quot size 4 in
  loop (extended_round data position) fuel (0, 0, max - 1).

(** The return value and the starts and ends in the source and the target; the
    old contents of the locations are [old]. *)
Definition cl_cpos2alg2cpos_oldstyle (position : Z) (old : Z * Z * Z * Z) : M (Z * (Z * Z * Z * Z)) :=
  check_arg ATT_ALIGN (fun e => (e, old)) (
    let none := (-1, -1, -1, -1) in
    align_data ← ensure be disk CompAlignData;
    match align_data with
    | None => return_errno CDA_ENODATA (0, none)
    | Some c =>
        d ← lift (comp_bytes c);
        alg ← lift (get_alignment d (comp_size c) position);
        if 0 <=? alg then
          let val := alg * 2 in
          s ← lift (nget_int be d val);
          t ← lift (nget_int be d (val + 1));
          ends ← lift (if comp_size c <=? val + 3 then Ok (-1, -1)
                       else e ← nget be d (val + 2); f ← nget be d (val + 3); Ok (s32 (e - 1), s32 (f - 1)));
          return_errno CDA_OK (1, (s, ends.1, t, ends.2))
        else return_errno CDA_EPOSORNG (0, none)
    end).

Definition cl_has_extended_alignment : M Z :=
  check_arg ATT_ALIGN (fun e => e) (
    a ← attribute;
    mret (if is_accessible (component_state disk a CompXAlignData) then 1 else 0)).

Definition cl_max_alg : M Z :=
  x ← cl_has_extended_alignment;
  if x =? 0 then
    align_data ← ensure be disk CompAlignData;
    match align_data with
    | None => return_errno CDA_ENODATA CDA_ENODATA
    | Some c => n ← lift (c_int (Z.quot (comp_size c) 2 - 1)); return_errno CDA_OK n
    end
  else
    align_data ← ensure be disk CompXAlignData;
    match align_data with
    | None => return_errno CDA_ENODATA CDA_ENODATA
    | Some c => return_errno CDA_OK (Z.quot (comp_size c) 4)
    end.

Definition cl_cpos2alg (cpos : Z) : M Z :=
  x ← cl_has_extended_alignment;
  if x =? 0 then
    align_data ← ensure be disk CompAlignData;
    match align_data with
    | None => return_errno CDA_ENODATA CDA_ENODATA
    | Some c =>
        d ← lift (comp_bytes c);
        alg ← lift (get_alignment d (comp_size c) cpos);
        if 0 <=? alg then return_errno CDA_OK alg
        else return_errno CDA_EPOSORNG CDA_EPOSORNG
    end
  else
    align_data ← ensure be disk CompXAlignData;
    match align_data with
    | None => return_errno CDA_ENODATA CDA_ENODATA
    | Some c =>
        d ← lift (comp_bytes c);
        alg ← lift (get_extended_alignment d (comp_size c) cpos);
        if 0 <=? alg then return_errno CDA_OK alg
        else return_errno CDA_EALIGN alg
    end.

(** The return value and the starts and ends in the source and the target. *)
Definition cl_alg2cpos (alg : Z) : M (Z * (Z * Z * Z * Z)) :=
  let none := (-1, -1, -1, -1) in
  x ← cl_has_extended_alignment;
  if x =? 0 then
    align_data ← ensure be disk CompAlignData;
    match align_data with
    | None => return_errno CDA_ENODATA (0, none)
    | Some c =>
        size ← lift (c_int (Z.quot (comp_size c) 2 - 1));
        if (alg <? 0) || (size <=? alg) then return_errno CDA_EIDXORNG (0, none)
        else
          d ← lift (comp_bytes c);
          let val := alg * 2 in
          s ← lift (nget_int be d val);
          t ← lift (nget_int be d (val + 1));
          e ← lift (nget be d (val + 2));
          f ← lift (nget be d (val + 3));
          return_errno CDA_OK (1, (s, s32 (e - 1), t, s32 (f - 1)))
    end
  else
    align_data ← ensure be disk CompXAlignData;
    match align_data with
    | None => return_errno CDA_ENODATA (0, none)
    | Some c =>
        let size := Z.quot (comp_size c) 4 in
        if (alg <? 0) || (size <=? alg) then return_errno CDA_EIDXORNG (0, none)
        else
          d ← lift (comp_bytes c);
          let val := alg * 4 in
          s ← lift (nget_int be d val);
          e ← lift (nget_int be d (val + 1));
          t ← lift (nget_int be d (val + 2));
          f ← lift (nget_int be d (val + 3));
          return_errno CDA_OK (1, (s, e, t, f))
    end.
End Alignment.

(** ** Boundaries *)

(** Boundaries in ascending order of the source. *)
Definition boundaries_ok (B : list (Z * Z)) : Prop :=
  Forall (fun b => is_cpos b.1 /\ is_cpos b.2) B /\ StronglySorted (fun b c => b.1 < c.1) B.

(** Boundary [i] is the last one that is not behind the position. *)
Definition last_boundary (B : list (Z * Z)) (pos : Z) (i : nat) : Prop :=
  exists b, B !! i = Some b /\ b.1 <= pos /\ (forall c, B !! S i = Some c -> pos < c.1).

Lemma boundaries_lt B i j b c :
  boundaries_ok B -> B !! i = Some b -> B !! j = Some c -> (i < j)%nat -> b.1 < c.1.
Proof. intros [_ H] Hi Hj Hlt. apply (StronglySorted_pair _ _ _ _ _ _ H Hi Hj Hlt). Qed.

Lemma last_boundary_unique B pos i j : boundaries_ok B -> last_boundary B pos i -> last_boundary B pos j -> i = j.
Proof.
  intros HB. assert (forall i j, last_boundary B pos i -> last_boundary B pos j -> ~ (i < j)%nat) as Hlt.
  { intros k l (b & Hb & Hbp & Hn) (c & Hc & Hcp & _) Hkl.
    destruct (lookup_lt_is_Some_2 B (S k)) as [q Hq]; [apply lookup_lt_Some in Hc; lia |]. pose proof (Hn q Hq).
    destruct (decide (S k = l)) as [<-|Hne]; [rewrite Hc in Hq; injection Hq as <-; lia |].
    pose proof (boundaries_lt B _ _ _ _ HB Hq Hc ltac:(lia)). lia. }
  intros Hi Hj. pose proof (Hlt i j Hi Hj). pose proof (Hlt j i Hj Hi). lia.
Qed.

(** What the search answers: a boundary that is the position itself is found;
    the last boundary has no next one, and is compared with what is behind the
    data. *)
Definition alignment_answer (B : list (Z * Z)) (pos : Z) (r : res Z) : Prop :=
  (exists i b, last_boundary B pos i /\ B !! i = Some b /\
     r = if (b.1 =? pos) || (Z.of_nat i <? zlen B - 1) then Ok (Z.of_nat i) else Err OutOfBounds) \/
  ((forall i, ~ last_boundary B pos i) /\ r = Ok (-1)).

Section Boundaries.
Context (be : bool).

(** One round, in terms of the boundaries. *)
Lemma alignment_round_mid B pos nr low high b :
  boundaries_ok B -> zlen B < 2 ^ 30 -> is_cpos pos -> 0 <= nr <= 40 -> 0 <= low <= high -> high < zlen B ->
  let mid := (low + high) / 2 in
  B !! Z.to_nat mid = Some b ->
  alignment_round be (ints_be (flat_ranges B)) (zlen B * 2) pos (nr, low, high) =
    if b.1 =? pos then Ok (inr mid)
    else if b.1 <? pos then
      match B !! S (Z.to_nat mid) with
      | Some c => if pos <? c.1 then Ok (inr mid) else Ok (inl (nr + 1, mid + 1, high))
      | None => Err OutOfBounds
      end
    else if mid =? low then Ok (inr (-1)) else Ok (inl (nr + 1, low, mid - 1)).
Proof using.
  intros [HR _] Hlen Hpos Hnr Hl Hh mid Hb.
  assert (2 * mid <= low + high <= 2 * mid + 1) as Hmid by (subst mid; Z.div_mod_to_equations; lia).
  unfold alignment_round. rewrite (proj2 (Z.leb_le low high)) by lia.
  rewrite (c_int_Ok (nr + 1)) by (unfold INT_MIN, INT_MAX; lia). res_cbn. rewrite (proj2 (Z.ltb_ge 100000 _)) by lia.
  rewrite (c_int_Ok (low + high)) by (unfold INT_MIN, INT_MAX; lia). res_cbn. rewrite Z.quot_div_nonneg by lia. fold mid.
  destruct (Forall_lookup_1 _ _ _ _ HR Hb) as [Hb1 _].
  destruct (nget_index be B _ b HR Hb) as [N1 _]. rewrite Z2Nat.id in N1 by lia. rewrite N1. res_cbn.
  rewrite s32_diff by done. replace (pos - b.1 =? 0) with (b.1 =? pos) by (repeat case_Z; lia).
  replace (0 <? pos - b.1) with (b.1 <? pos) by (repeat case_Z; lia).
  rewrite (proj2 (Z.ltb_lt (mid * 2) (zlen B * 2))) by lia.
  destruct (B !! S (Z.to_nat mid)) as [c|] eqn:Hc.
  - destruct (Forall_lookup_1 _ _ _ _ HR Hc) as [Hc1 _]. destruct (nget_index be B _ c HR Hc) as [N2 _].
    replace (Z.of_nat (S (Z.to_nat mid))) with (mid + 1) in N2 by lia. rewrite N2. res_cbn.
    unfold is_cpos in Hpos. rewrite u32_small by (unfold INT_MAX in *; lia). done.
  - apply lookup_ge_None in Hc. rewrite nget_oob by (rewrite zlen_ints_be, zlen_flat_ranges; unfold zlen in *; lia). done.
Qed.

Lemma no_boundary_all B pos low :
  (forall i, 0 <= i < zlen B -> i < low -> ~ last_boundary B pos (Z.to_nat i)) ->
  (forall i, 0 <= i < zlen B -> low <= i -> ~ last_boundary B pos (Z.to_nat i)) ->
  forall i, ~ last_boundary B pos i.
Proof using.
  intros H1 H2 i Hin. pose proof Hin as (q & Hq & _). pose proof (lookup_lt_Some _ _ _ Hq) as Hil.
  destruct (Z.lt_ge_cases (Z.of_nat i) low).
  - apply (H1 (Z.of_nat i)); [unfold zlen; lia | done | by rewrite Nat2Z.id].
  - apply (H2 (Z.of_nat i)); [unfold zlen; lia | done | by rewrite Nat2Z.id].
Qed.

Lemma get_alignment_ok B pos :
  boundaries_ok B -> zlen B < 2 ^ 30 -> is_cpos pos ->
  alignment_answer B pos (get_alignment be (ints_be (flat_ranges B)) (2 * zlen B) pos).
Proof using.
  intros HB Hlen Hpos. pose proof (zlen_nonneg B). unfold get_alignment.
  rewrite Z.quot_div_nonneg, (Z.mul_comm 2), Z.div_mul by lia.
  destruct (bisect_ok (catch (alignment_round be (ints_be (flat_ranges B)) (zlen B * 2) pos)) (zlen B)
              (fun i => last_boundary B pos (Z.to_nat i)) (alignment_answer B pos)) as (r & E & Hr).
  - lia.
  - intros nr low high Hnr Hl Hh Hex mid.
    assert (2 * mid <= low + high <= 2 * mid + 1) as Hmid by (subst mid; Z.div_mod_to_equations; lia).
    destruct (lookup_lt_is_Some_2 B (Z.to_nat mid)) as [b Hb]; [unfold zlen in *; lia |].
    unfold catch. rewrite (alignment_round_mid B pos nr low high b) by done. fold mid.
    assert (forall i c, mid < i -> B !! Z.to_nat i = Some c -> b.1 < c.1) as Habove.
    { intros i c Hlt Hc. apply (boundaries_lt B (Z.to_nat mid) (Z.to_nat i)); (done || lia). }
    assert (forall r, b.1 <= pos -> (forall c, B !! S (Z.to_nat mid) = Some c -> pos < c.1) ->
      r = (if (b.1 =? pos) || (Z.of_nat (Z.to_nat mid) <? zlen B - 1) then Ok (Z.of_nat (Z.to_nat mid)) else Err OutOfBounds) ->
      alignment_answer B pos r) as Hhit.
    { intros r Hle Hnext ->. left. exists (Z.to_nat mid), b. split; [by exists b | done]. }
    destruct (Z.eqb_spec b.1 pos) as [H0|H0].
    { left. eexists. split; [reflexivity |]. apply Hhit; [lia | | by rewrite Z2Nat.id by lia].
      intros c Hc. subst pos. apply (Habove (mid + 1)); [lia |]. by replace (Z.to_nat (mid + 1)) with (S (Z.to_nat mid)) by lia. }
    destruct (Z.ltb_spec b.1 pos) as [H1|H1].
    + destruct (B !! S (Z.to_nat mid)) as [c|] eqn:Hc.
      * pose proof (lookup_lt_Some _ _ _ Hc) as Hcl. destruct (Z.ltb_spec pos c.1) as [H2|H2].
        -- left. eexists. split; [reflexivity |]. apply Hhit; [lia | by intros c' [= <-] |].
           cbn [orb]. rewrite (proj2 (Z.ltb_lt (Z.of_nat _) _)), Z2Nat.id by (unfold zlen; lia). done.
        -- right. left. split; [done |]. intros i Hi (d & Hd & Hdp & Hnext).
           destruct (lookup_lt_is_Some_2 B (S (Z.to_nat i))) as [c' Hc']; [lia |]. pose proof (Hnext c' Hc').
           destruct (Z.eq_dec i mid) as [->|Hne]; [rewrite Hc in Hc'; injection Hc' as <-; lia |].
           pose proof (boundaries_lt B _ _ c' c HB Hc' Hc ltac:(lia)). lia.
      * apply lookup_ge_None in Hc as Hge. left. eexists. split; [reflexivity |]. apply Hhit; [lia | done |].
        cbn [orb]. rewrite (proj2 (Z.ltb_ge _ _)) by (unfold zlen; lia). done.
    + assert (forall i, mid <= i < zlen B -> ~ last_boundary B pos (Z.to_nat i)) as Hno.
      { intros i Hi (d & Hd & Hdp & _). destruct (Z.eq_dec i mid) as [->|Hne]; [rewrite Hb in Hd; injection Hd as <-; lia |].
        pose proof (Habove i d ltac:(lia) Hd). lia. }
      destruct (Z.eqb_spec mid low) as [Heq|Hne]; [| by right; right].
      left. eexists. split; [reflexivity |]. right. split; [| done]. apply (no_boundary_all B pos low).
      * intros i Hi Hlt. apply Hex; [lia | by left].
      * intros i Hi Hge. apply Hno. lia.
  - intros nr low high Hlt Hex. unfold catch, alignment_round. rewrite (proj2 (Z.leb_gt low high)) by lia.
    eexists. split; [reflexivity |]. right. split; [| done]. apply (no_boundary_all B pos 0); intros i Hi _; by apply Hex.
  - by rewrite (loop_catch _ _ _ _ E).
Qed.
End Boundaries.

(** ** Extended alignments *)

(** Source start and end, target start and end. *)
Definition flat_alignments (X : list (Z * Z * (Z * Z))) : list Z :=
  X ≫= fun x => [x.1.1; x.1.2; x.2.1; x.2.2].

(** The source regions are in ascending order and do not overlap. *)
Definition alignments_ok (X : list (Z * Z * (Z * Z))) : Prop :=
  regions_ok (fst <$> X) /\ Forall (fun x => is_cpos x.2.1 /\ is_cpos x.2.2) X.

Lemma zlen_flat_alignments X : zlen (flat_alignments X) = 4 * zlen X.
Proof.
  induction X as [|x X IH]; [done |]. unfold flat_alignments in *. rewrite bind_cons, zlen_app, IH.
  change (zlen [_; _; _; _]) with 4. rewrite zlen_cons. lia.
Qed.

Lemma flat_alignments_lookup X i x (k : nat) :
  X !! i = Some x -> (k < 4)%nat ->
  flat_alignments X !! (4 * i + k)%nat = [x.1.1; x.1.2; x.2.1; x.2.2] !! k.
Proof.
  revert i. induction X as [|y X IH]; intros i Hi Hk; [done |].
  unfold flat_alignments. rewrite bind_cons. destruct i as [|i].
  - injection Hi as ->. rewrite Nat.mul_0_r, Nat.add_0_l. by rewrite lookup_app_l by done.
  - rewrite lookup_app_r by (cbn; lia). replace (4 * S i + k - length _)%nat with (4 * i + k)%nat by (cbn; lia). by apply IH.
Qed.

Section Extended.
Context (be : bool).

Lemma nget_alignments X i x :
  alignments_ok X -> X !! i = Some x ->
  let k := Z.of_nat i * 4 in
  nget_int be (ints_be (flat_alignments X)) k = Ok x.1.1 /\ nget_int be (ints_be (flat_alignments X)) (k + 1) = Ok x.1.2 /\
  nget_int be (ints_be (flat_alignments X)) (k + 2) = Ok x.2.1 /\ nget_int be (ints_be (flat_alignments X)) (k + 3) = Ok x.2.2.
Proof using.
  intros [HR HT] Hi k.
  assert ((fst <$> X) !! i = Some x.1) as Hx by (by rewrite list_lookup_fmap, Hi).
  pose proof (regions_bounds _ i x.1 HR Hx) as Hb. destruct (Forall_lookup_1 _ _ _ _ HT Hi) as [Ht1 Ht2].
  assert (forall (j : nat) v, (j < 4)%nat -> [x.1.1; x.1.2; x.2.1; x.2.2] !! j = Some v -> is_cpos v ->
            nget_int be (ints_be (flat_alignments X)) (k + Z.of_nat j) = Ok v) as H.
  { intros j v Hj Hv Hc. apply nget_aget; [| done]. replace (k + Z.of_nat j) with (Z.of_nat (4 * i + j)) by lia.
    apply aget_nat. by rewrite (flat_alignments_lookup X i x j Hi Hj). }
  pose proof (H 0%nat _ ltac:(lia) eq_refl ltac:(unfold is_cpos; lia)) as G0. rewrite Z.add_0_r in G0.
  split; [exact G0 |]. split; [apply (H 1%nat); [lia | done | unfold is_cpos; lia] |].
  split; [by apply (H 2%nat); [lia | |] | by apply (H 3%nat); [lia | |]].
Qed.

Lemma get_extended_alignment_ok X pos :
  alignments_ok X -> zlen X < 2 ^ 29 ->
  get_extended_alignment be (ints_be (flat_alignments X)) (4 * zlen X) pos =
    Ok (match region_of (fst <$> X) pos with Some i => Z.of_nat i | None => CDA_EALIGN end).
Proof using.
  intros HX Hlen. pose proof HX as [HR _]. pose proof (zlen_nonneg X). unfold get_extended_alignment.
  rewrite Z.quot_div_nonneg, (Z.mul_comm 4), Z.div_mul by lia.
  destruct (bisect_ok (extended_round be (ints_be (flat_alignments X)) pos) (zlen X)
              (fun i => region_at (fst <$> X) pos (Z.to_nat i))
              (fun r => r = match region_of (fst <$> X) pos with Some i => Z.of_nat i | None => CDA_EALIGN end)) as (r & -> & ->);
    [lia | | | done].
  - intros nr low high Hnr Hl Hh Hex mid.
    assert (2 * mid <= low + high <= 2 * mid + 1) as Hmid by (subst mid; Z.div_mod_to_equations; lia).
    destruct (lookup_lt_is_Some_2 X (Z.to_nat mid)) as [x Hx]; [unfold zlen in *; lia |].
    remember (extended_round _ _ _ (nr, low, high)) as o eqn:Ho. unfold extended_round in Ho.
    rewrite (proj2 (Z.leb_le low high)) in Ho by lia.
    rewrite (c_int_Ok (nr + 1)) in Ho by (unfold INT_MIN, INT_MAX; lia). res_cbn in Ho. rewrite (proj2 (Z.ltb_ge 100000 _)) in Ho by lia.
    rewrite (c_int_Ok (low + high)) in Ho by (unfold INT_MIN, INT_MAX; lia). res_cbn in Ho. rewrite Z.quot_div_nonneg in Ho by lia. fold mid in Ho.
    destruct (nget_alignments X _ x HX Hx) as (N1 & N2 & _). rewrite Z2Nat.id in N1, N2 by lia.
    rewrite N1 in Ho. res_cbn in Ho. rewrite N2 in Ho. res_cbn in Ho.
    assert ((fst <$> X) !! Z.to_nat mid = Some x.1) as Hm by (by rewrite list_lookup_fmap, Hx).
    assert (forall i y, 0 <= i -> (fst <$> X) !! Z.to_nat i = Some y -> i < mid -> y.2 < x.1.1) as Hbelow.
    { intros i y Hi Hy Hlt. apply (regions_apart (fst <$> X) (Z.to_nat i) (Z.to_nat mid)); (done || lia). }
    assert (forall i y, (fst <$> X) !! Z.to_nat i = Some y -> mid < i -> x.1.2 < y.1) as Habove.
    { intros i y Hy Hlt. apply (regions_apart (fst <$> X) (Z.to_nat mid) (Z.to_nat i)); (done || lia). }
    pose proof (regions_bounds _ _ _ HR Hm).
    destruct (Z.leb_spec x.1.1 pos) as [H1|H1]; [destruct (Z.leb_spec pos x.1.2) as [H2|H2] |].
    + left. eexists. split; [exact Ho |]. rewrite (region_of_Some _ pos (Z.to_nat mid) HR) by (by exists x.1).
      by rewrite Z2Nat.id by lia.
    + right. left. split; [done |]. intros i Hi (q & Hq & Hin).
      destruct (Z.eq_dec i mid) as [->|Hne]; [rewrite Hm in Hq; injection Hq as <-; lia |].
      pose proof (Hbelow i q ltac:(lia) Hq ltac:(lia)). lia.
    + right. right. split; [done |]. intros i Hi (q & Hq & Hin).
      destruct (Z.eq_dec i mid) as [->|Hne]; [rewrite Hm in Hq; injection Hq as <-; lia |].
      pose proof (Habove i q Hq ltac:(lia)). lia.
  - intros nr low high Hlt Hex. unfold extended_round. rewrite (proj2 (Z.leb_gt low high)) by lia.
    eexists. split; [reflexivity |]. rewrite region_of_None; [done |]. intros i Hin. pose proof Hin as (q & Hq & _).
    pose proof (lookup_lt_Some _ _ _ Hq) as Hil. rewrite length_fmap in Hil.
    apply (Hex (Z.of_nat i)); [unfold zlen; lia | by rewrite Nat2Z.id].
Qed.
End Extended.

(** ** Access *)

(** Aligned by boundaries: there is no component of the second format. *)
Record has_boundaries (disk : gmap string (list Z)) (a : Attribute) (B : list (Z * Z)) : Prop := {
  hb_type : type a = ATT_ALIGN;
  hb_wf : wf_attribute disk a;
  hb_data : avail disk a CompAlignData = Some (ints_be (flat_ranges B));
  hb_plain : avail disk a CompXAlignData = None;
  hb_order : boundaries_ok B
}.

Record has_alignments (disk : gmap string (list Z)) (a : Attribute) (X : list (Z * Z * (Z * Z))) : Prop := {
  ha_type : type a = ATT_ALIGN;
  ha_wf : wf_attribute disk a;
  ha_data : avail disk a CompXAlignData = Some (ints_be (flat_alignments X));
  ha_order : alignments_ok X
}.

Section AlignAccess.
Context (be : bool) (disk : gmap string (list Z)).

Lemma has_boundaries_loads a a' B : loads disk a a' -> has_boundaries disk a B -> has_boundaries disk a' B.
Proof using.
  intros L [T W D P O]. split; try done; try (by rewrite (loads_avail _ _ _ L)).
  - by rewrite (loads_type _ _ _ L).
  - by apply (loads_wf _ _ _ L).
Qed.

Lemma has_alignments_loads a a' X : loads disk a a' -> has_alignments disk a X -> has_alignments disk a' X.
Proof using.
  intros L [T W D O]. split; try done; try (by rewrite (loads_avail _ _ _ L)).
  - by rewrite (loads_type _ _ _ L).
  - by apply (loads_wf _ _ _ L).
Qed.

Lemma has_extended a e :
  type a = ATT_ALIGN ->
  cl_has_extended_alignment disk (mkCL (Some a) e) =
    Ok (if decide (is_Some (avail disk a CompXAlignData)) then 1 else 0, mkCL (Some a) e).
Proof using.
  intros T. unfold cl_has_extended_alignment. rewrite check_arg_ok by done. cda.
  destruct (decide _) as [H|H].
  - by rewrite (proj2 (is_accessible_avail disk a CompXAlignData) H).
  - destruct (is_accessible _) eqn:E; [| done]. exfalso. apply H. by apply is_accessible_avail.
Qed.

Lemma not_extended a e B :
  has_boundaries disk a B -> cl_has_extended_alignment disk (mkCL (Some a) e) = Ok (0, mkCL (Some a) e).
Proof using.
  intros H. rewrite has_extended by apply H. rewrite (hb_plain _ _ _ H). by rewrite decide_False by (by intros [? ?]).
Qed.

Lemma is_extended a e X :
  has_alignments disk a X -> cl_has_extended_alignment disk (mkCL (Some a) e) = Ok (1, mkCL (Some a) e).
Proof using.
  intros H. rewrite has_extended by apply H. rewrite (ha_data _ _ _ H). by rewrite decide_True by eauto.
Qed.

Lemma component_ints a cid vs : wf_attribute disk a -> avail disk a cid = Some (ints_be vs) -> zlen vs <= INT_MAX.
Proof using.
  intros W D. unfold avail in D. destruct (components a !! cid) as [c|] eqn:Hc; [| done]. cbn in D.
  destruct (W _ _ Hc) as [Hm _]. specialize (Hm _ D). by rewrite nr_ints_be in Hm.
Qed.

Lemma ensure_boundaries a e B :
  has_boundaries disk a B ->
  exists c a', ensure be disk CompAlignData (mkCL (Some a) e) = Ok (Some c, mkCL (Some a') e) /\
    comp_bytes c = Ok (ints_be (flat_ranges B)) /\ comp_size c = 2 * zlen B /\ zlen B < 2 ^ 30 /\ loads disk a a'.
Proof using.
  intros [T W D P O]. destruct (ensure_ok be disk a e CompAlignData _ ltac:(done) ltac:(done) D W) as (c & a' & E & Hd & Hs & L & _).
  pose proof (component_ints a CompAlignData _ W D) as Hz. rewrite zlen_flat_ranges in Hz. unfold INT_MAX in Hz.
  exists c, a'. split; [done |]. split; [unfold comp_bytes; by rewrite Hd |].
  rewrite Hs, nr_ints_be, zlen_flat_ranges. split; [done |]. split; [lia | done].
Qed.

Lemma ensure_alignments a e X :
  has_alignments disk a X ->
  exists c a', ensure be disk CompXAlignData (mkCL (Some a) e) = Ok (Some c, mkCL (Some a') e) /\
    comp_bytes c = Ok (ints_be (flat_alignments X)) /\ comp_size c = 4 * zlen X /\ zlen X < 2 ^ 29 /\ loads disk a a'.
Proof using.
  intros [T W D O]. destruct (ensure_ok be disk a e CompXAlignData _ ltac:(done) ltac:(done) D W) as (c & a' & E & Hd & Hs & L & _).
  pose proof (component_ints a CompXAlignData _ W D) as Hz. rewrite zlen_flat_alignments in Hz. unfold INT_MAX in Hz.
  exists c, a'. split; [done |]. split; [unfold comp_bytes; by rewrite Hd |].
  rewrite Hs, nr_ints_be, zlen_flat_alignments. split; [done |]. split; [lia | done].
Qed.

Lemma cl_alg2cpos_boundaries a e B alg :
  has_boundaries disk a B ->
  exists a', loads disk a a' /\
    cl_alg2cpos be disk alg (mkCL (Some a) e) =
      Ok (match (if alg <? 0 then None else B !! Z.to_nat alg), (if alg <? 0 then None else B !! S (Z.to_nat alg)) with
          | Some b, Some c => ((1, (b.1, c.1 - 1, b.2, c.2 - 1)), mkCL (Some a') CDA_OK)
          | _, _ => ((0, (-1, -1, -1, -1)), mkCL (Some a') CDA_EIDXORNG)
          end).
Proof using.
  intros H. unfold cl_alg2cpos. cda_call (not_extended a e B H). change (0 =? 0) with true. cbv iota.
  destruct (ensure_boundaries a e B H) as (c & a' & E & Hb & Hs & Hlen & L). cda_call E. exists a'. split; [done |].
  pose proof (zlen_nonneg B) as Hz. rewrite Hs, Z.quot_div_nonneg, (Z.mul_comm 2), Z.div_mul by lia.
  rewrite (bindM_lift _ _ _ _ (c_int_Ok (zlen B - 1) ltac:(unfold INT_MIN, INT_MAX; lia))).
  destruct (Z.ltb_spec alg 0) as [H0|H0]; cbn [orb]; [by cda |].
  destruct (Z.leb_spec (zlen B - 1) alg) as [H1|H1].
  - rewrite (lookup_ge_None_2 B (S (Z.to_nat alg))) by (unfold zlen in H1; lia). cda. by destruct (B !! _).
  - destruct (lookup_lt_is_Some_2 B (Z.to_nat alg)) as [b Hb1]; [unfold zlen in H1; lia |].
    destruct (lookup_lt_is_Some_2 B (S (Z.to_nat alg))) as [d Hd1]; [unfold zlen in H1; lia |]. rewrite Hb1, Hd1.
    destruct (hb_order _ _ _ H) as [HR _].
    destruct (Forall_lookup_1 _ _ _ _ HR Hb1) as [B1 B2]. destruct (Forall_lookup_1 _ _ _ _ HR Hd1) as [D1 D2].
    destruct (flat_ranges_lookup B _ _ Hb1) as [F1 F2]. destruct (flat_ranges_lookup B _ _ Hd1) as [F3 F4].
    rewrite Z2Nat.id in F1, F2 by lia. replace (Z.of_nat (S (Z.to_nat alg)) * 2) with (alg * 2 + 2) in F3, F4 by lia.
    replace (alg * 2 + 2 + 1) with (alg * 2 + 3) in F4 by lia.
    cda_lift Hb. cda_lift (proj2 (nget_aget be _ _ _ F1 B1)). cda_lift (proj2 (nget_aget be _ _ _ F2 B2)).
    cda_lift (proj1 (nget_aget be _ _ _ F3 D1)). cda_lift (proj1 (nget_aget be _ _ _ F4 D2)).
    unfold is_cpos in *. assert (forall x, 0 <= x <= INT_MAX -> s32 (x - 1) = x - 1) as Hm1.
    { intros x Hx. pose proof (s32_diff x 1) as Hsd. unfold is_cpos in Hsd. rewrite u32_small in Hsd by (unfold INT_MAX in *; lia).
      apply Hsd; unfold INT_MAX in *; lia. }
    by rewrite !Hm1 by lia.
Qed.

Lemma cl_alg2cpos_alignments a e X alg :
  has_alignments disk a X ->
  exists a', loads disk a a' /\
    cl_alg2cpos be disk alg (mkCL (Some a) e) =
      Ok (match (if alg <? 0 then None else X !! Z.to_nat alg) with
          | Some x => ((1, (x.1.1, x.1.2, x.2.1, x.2.2)), mkCL (Some a') CDA_OK)
          | None => ((0, (-1, -1, -1, -1)), mkCL (Some a') CDA_EIDXORNG)
          end).
Proof using.
  intros H. unfold cl_alg2cpos. cda_call (is_extended a e X H). change (1 =? 0) with false. cbv iota.
  destruct (ensure_alignments a e X H) as (c & a' & E & Hb & Hs & Hlen & L). cda_call E. exists a'. split; [done |].
  pose proof (zlen_nonneg X) as Hz. rewrite Hs, Z.quot_div_nonneg, (Z.mul_comm 4), Z.div_mul by lia.
  destruct (Z.ltb_spec alg 0) as [H0|H0]; cbn [orb]; [by cda |].
  destruct (Z.leb_spec (zlen X) alg) as [H1|H1].
  - rewrite (lookup_ge_None_2 X) by (unfold zlen in H1; lia). by cda.
  - destruct (lookup_lt_is_Some_2 X (Z.to_nat alg)) as [x Hx]; [unfold zlen in H1; lia |]. rewrite Hx.
    destruct (nget_alignments be X _ x (ha_order _ _ _ H) Hx) as (N1 & N2 & N3 & N4). rewrite Z2Nat.id in N1, N2, N3, N4 by lia.
    cda_lift Hb. cda_lift N1. cda_lift N2. cda_lift N3. cda_lift N4. by cda.
Qed.
Lemma cl_cpos2alg_boundaries a e B pos :
  has_boundaries disk a B -> is_cpos pos ->
  exists a1, loads disk a a1 /\ cl_max_alg be disk (mkCL (Some a) e) = Ok (zlen B - 1, mkCL (Some a1) CDA_OK) /\
    exists r, get_alignment be (ints_be (flat_ranges B)) (2 * zlen B) pos = r /\ alignment_answer B pos r /\
    cl_cpos2alg be disk pos (mkCL (Some a) e) =
      match r with
      | Ok r => Ok (if 0 <=? r then (r, mkCL (Some a1) CDA_OK) else (CDA_EPOSORNG, mkCL (Some a1) CDA_EPOSORNG))
      | Err f => Err f
      end.
Proof using.
  intros H Hpos. destruct (ensure_boundaries a e B H) as (c & a1 & E1 & Hb & Hs & Hlen & L1).
  exists a1. split; [done |]. split.
  { unfold cl_max_alg. cda_call (not_extended a e B H). change (0 =? 0) with true. cbv iota. cda_call E1.
    pose proof (zlen_nonneg B). rewrite Hs, Z.quot_div_nonneg, (Z.mul_comm 2), Z.div_mul by lia.
    by rewrite (bindM_lift _ _ _ _ (c_int_Ok (zlen B - 1) ltac:(unfold INT_MIN, INT_MAX; lia))). }
  eexists. split; [reflexivity |]. split; [apply get_alignment_ok; [apply H | done | done] |].
  unfold cl_cpos2alg. cda_call (not_extended a e B H). change (0 =? 0) with true. cbv iota. cda_call E1.
  cda_lift Hb. rewrite Hs. destruct (get_alignment be _ (2 * zlen B) pos) as [r|f] eqn:Er; cycle 1.
  { by rewrite (bindM_Err _ _ _ f) by done. }
  rewrite (bindM_lift _ _ _ _ eq_refl). by destruct (0 <=? r).
Qed.
End AlignAccess.

(** C35. Extended alignments. [cl_cpos2alg] returns the number of the aligned
    region whose source side contains the position and [CDA_EALIGN] if there is
    none, without a fault for any position; [cl_alg2cpos] returns the four
    positions of a region by its number, and [CDA_EIDXORNG] for a number that
    [cl_max_alg] excludes.  The attribute has extended alignments; an
    attribute that is missing is the subject of [alignment_null_attribute]. *)
Theorem extended_alignment_correct (be : bool) (disk : gmap string (list Z)) (a : Attribute) (e pos alg : Z)
    (X : list (Z * Z * (Z * Z))) :
  has_alignments disk a X ->
  exists a1 a2 a3, has_alignments disk a1 X /\ has_alignments disk a2 X /\ has_alignments disk a3 X /\
    cl_cpos2alg be disk pos (mkCL (Some a) e) =
      Ok (match region_of (fst <$> X) pos with
          | Some i => (Z.of_nat i, mkCL (Some a1) CDA_OK)
          | None => (CDA_EALIGN, mkCL (Some a1) CDA_EALIGN)
          end) /\
    cl_alg2cpos be disk alg (mkCL (Some a) e) =
      Ok (match (if alg <? 0 then None else X !! Z.to_nat alg) with
          | Some x => ((1, (x.1.1, x.1.2, x.2.1, x.2.2)), mkCL (Some a2) CDA_OK)
          | None => ((0, (-1, -1, -1, -1)), mkCL (Some a2) CDA_EIDXORNG)
          end) /\
    cl_max_alg be disk (mkCL (Some a) e) = Ok (zlen X, mkCL (Some a3) CDA_OK).
Proof.
  intros H. destruct (cl_alg2cpos_alignments be disk a e X alg H) as (a2 & L2 & E2).
  destruct (ensure_alignments be disk a e X H) as (c & a1 & E1 & Hb & Hs & Hlen & L1).
  exists a1, a2, a1. split; [by eapply has_alignments_loads |]. split; [by eapply has_alignments_loads |].
  split; [by eapply has_alignments_loads |]. split; [| split; [done |]].
  - unfold cl_cpos2alg. cda_call (is_extended disk a e X H). change (1 =? 0) with false. cbv iota. cda_call E1.
    cda_lift Hb. rewrite Hs. cda_lift (get_extended_alignment_ok be X pos (ha_order _ _ _ H) Hlen).
    destruct (region_of (fst <$> X) pos) as [i|]; [by rewrite (proj2 (Z.leb_le 0 (Z.of_nat i))) by lia; cda | done].
  - unfold cl_max_alg. cda_call (is_extended disk a e X H). change (1 =? 0) with false. cbv iota. cda_call E1.
    pose proof (zlen_nonneg X). rewrite Hs, Z.quot_div_nonneg, (Z.mul_comm 4), Z.div_mul by lia. by cda.
Qed.

(** Alignment by boundaries. A position from boundary [i] up to the next
    boundary is in region [i]: [cl_cpos2alg] returns [i], and [cl_alg2cpos] of
    this number returns the two boundaries as bounds of the source and target
    region; a position in front of the first boundary gives [CDA_EPOSORNG], and
    there is one region less than there are boundaries. *)
Theorem alignment_regions_correct (be : bool) (disk : gmap string (list Z)) (a : Attribute) (e pos : Z)
    (B : list (Z * Z)) :
  has_boundaries disk a B -> is_cpos pos ->
  exists a1, has_boundaries disk a1 B /\
    cl_max_alg be disk (mkCL (Some a) e) = Ok (zlen B - 1, mkCL (Some a1) CDA_OK) /\
    (forall i b c, B !! i = Some b -> B !! S i = Some c -> b.1 <= pos < c.1 ->
       cl_cpos2alg be disk pos (mkCL (Some a) e) = Ok (Z.of_nat i, mkCL (Some a1) CDA_OK) /\
       exists a2, has_boundaries disk a2 B /\
         cl_alg2cpos be disk (Z.of_nat i) (mkCL (Some a1) CDA_OK) =
           Ok ((1, (b.1, c.1 - 1, b.2, c.2 - 1)), mkCL (Some a2) CDA_OK)) /\
    (Forall (fun b => pos < b.1) B ->
       cl_cpos2alg be disk pos (mkCL (Some a) e) = Ok (CDA_EPOSORNG, mkCL (Some a1) CDA_EPOSORNG)).
Proof.
  intros H Hpos. destruct (cl_cpos2alg_boundaries be disk a e B pos H Hpos) as (a1 & L1 & Emax & r & Hr & Ha & Hc).
  pose proof (has_boundaries_loads disk a a1 B L1 H) as H1. pose proof (hb_order _ _ _ H) as HB.
  exists a1. split; [done |]. split; [done |]. split.
  - intros i b c Hi Hi' Hin.
    assert (last_boundary B pos i) as Hlast.
    { exists b. split; [done |]. split; [lia |]. intros c' Hc'. rewrite Hi' in Hc'. injection Hc' as <-. lia. }
    destruct Ha as [(j & d & Hj & Hd & ->)|(Hno & _)]; [| by destruct (Hno i)].
    assert (j = i) as -> by by apply (last_boundary_unique B pos).
    pose proof (lookup_lt_Some _ _ _ Hi') as Hl. rewrite (proj2 (Z.ltb_lt (Z.of_nat i) _)), orb_true_r in Hc by (unfold zlen; lia).
    split; [by rewrite Hc, (proj2 (Z.leb_le 0 (Z.of_nat i))) by lia |].
    destruct (cl_alg2cpos_boundaries be disk a1 CDA_OK B (Z.of_nat i) H1) as (a2 & L2 & E2).
    rewrite (proj2 (Z.ltb_ge _ _)), Nat2Z.id, Hi, Hi' in E2 by lia.
    exists a2. split; [by eapply has_boundaries_loads | done].
  - intros Hall. destruct Ha as [(j & d & (d' & Hd' & Hdp & _) & Hd & _)|(Hno & ->)]; [| done].
    pose proof (Forall_lookup_1 _ _ _ _ Hall Hd') as Hf. cbn in Hf. lia.
Qed.

(** Positions at and behind the last boundary, where no region is. At the
    last boundary [cl_cpos2alg] returns a number that [cl_max_alg] and
    [cl_alg2cpos] exclude; behind it, the search reads an entry behind the end
    of the data. *)
Theorem alignment_past_last_boundary (be : bool) (disk : gmap string (list Z)) (a : Attribute) (e pos : Z)
    (B : list (Z * Z)) (b : Z * Z) :
  has_boundaries disk a (B ++ [b]) -> is_cpos pos -> b.1 <= pos ->
  exists a1, cl_max_alg be disk (mkCL (Some a) e) = Ok (zlen B, mkCL (Some a1) CDA_OK) /\
    if b.1 =? pos then
      cl_cpos2alg be disk pos (mkCL (Some a) e) = Ok (zlen B, mkCL (Some a1) CDA_OK) /\
      exists a2, cl_alg2cpos be disk (zlen B) (mkCL (Some a1) CDA_OK) =
        Ok ((0, (-1, -1, -1, -1)), mkCL (Some a2) CDA_EIDXORNG)
    else cl_cpos2alg be disk pos (mkCL (Some a) e) = Err OutOfBounds.
Proof.
  intros H Hpos Hle. destruct (cl_cpos2alg_boundaries be disk a e _ pos H Hpos) as (a1 & L1 & Emax & r & Hr & Ha & Hc).
  pose proof (has_boundaries_loads disk a a1 _ L1 H) as H1. pose proof (hb_order _ _ _ H) as HB.
  assert (zlen (B ++ [b]) - 1 = zlen B) as Hz by (rewrite zlen_app; change (zlen [b]) with 1; lia). rewrite Hz in Emax.
  exists a1. split; [done |].
  assert ((B ++ [b]) !! length B = Some b) as Hb by (by apply list_lookup_middle).
  assert (last_boundary (B ++ [b]) pos (length B)) as Hlast.
  { exists b. split; [done |]. split; [done |]. intros c Hc'. apply lookup_lt_Some in Hc'. rewrite length_app in Hc'. cbn in Hc'. lia. }
  destruct Ha as [(j & d & Hj & Hd & ->)|(Hno & _)]; [| by destruct (Hno (length B))].
  assert (j = length B) as -> by by apply (last_boundary_unique (B ++ [b]) pos).
  rewrite Hb in Hd. injection Hd as <-. rewrite Hz in Hc. unfold zlen in Hc. rewrite Z.ltb_irrefl, orb_false_r in Hc.
  destruct (b.1 =? pos) eqn:Heq; [| done].
  split; [by rewrite Hc, (proj2 (Z.leb_le 0 _)) by lia |].
  destruct (cl_alg2cpos_boundaries be disk a1 CDA_OK _ (zlen B) H1) as (a2 & _ & E2).
  unfold zlen in E2 at 2 3 4 5. rewrite (proj2 (Z.ltb_ge _ _)), Nat2Z.id, Hb in E2 by lia.
  rewrite lookup_ge_None_2 in E2 by (rewrite length_app; cbn; lia). by exists a2.
Qed.

(** A missing attribute is not noticed: [cl_has_extended_alignment] returns an
    error number, which counts as true, and the component of NULL is asked for. *)
Lemma alignment_null_attribute (be : bool) (disk : gmap string (list Z)) (pos e : Z) :
  cl_cpos2alg be disk pos (mkCL None e) = Err NullDeref /\
  cl_max_alg be disk (mkCL None e) = Err NullDeref /\
  cl_alg2cpos be disk pos (mkCL None e) = Err NullDeref.
Proof. split; [done | split; done]. Qed.

(** ** Examples *)

Definition ex_alignments : list (Z * Z * (Z * Z)) := [((0, 4), (0, 6)); ((7, 9), (7, 7))].
Definition ex_extended : Attribute :=
  mem_attribute ATT_ALIGN [(CompXAlignData, ints_be (flat_alignments ex_alignments))].

Lemma extended_alignment_correct_witness :
  exists a1 a2 a3,
    cl_cpos2alg true ∅ 8 (mkCL (Some ex_extended) 0) = Ok (1, mkCL (Some a1) CDA_OK) /\
    cl_alg2cpos true ∅ 1 (mkCL (Some ex_extended) 0) = Ok ((1, (7, 9, 7, 7)), mkCL (Some a2) CDA_OK) /\
    cl_max_alg true ∅ (mkCL (Some ex_extended) 0) = Ok (2, mkCL (Some a3) CDA_OK).
Proof.
  destruct (extended_alignment_correct true ∅ ex_extended 0 8 1 ex_alignments) as (a1 & a2 & a3 & _ & _ & _ & E1 & E2 & E3).
  - split; try reflexivity.
    + apply mem_attribute_wf. repeat constructor; vm_compute; discriminate.
    + split; [split; repeat constructor; cbn; unfold INT_MAX; lia |]. repeat constructor; cbn; unfold INT_MAX; lia.
  - exists a1, a2, a3. split; [exact E1 | split; [exact E2 | exact E3]].
Defined.

Definition ex_boundaries : list (Z * Z) := [(0, 0); (5, 7); (9, 8)].
Definition ex_aligned : Attribute :=
  mem_attribute ATT_ALIGN [(CompAlignData, ints_be (flat_ranges ex_boundaries))].

Lemma ex_has_boundaries : has_boundaries ∅ ex_aligned ex_boundaries.
Proof.
  split; try reflexivity.
  - apply mem_attribute_wf. repeat constructor; vm_compute; discriminate.
  - split; repeat constructor; cbn; unfold INT_MAX; lia.
Qed.

Lemma alignment_regions_correct_witness :
  exists a1 a2, cl_cpos2alg false ∅ 6 (mkCL (Some ex_aligned) 0) = Ok (1, mkCL (Some a1) CDA_OK) /\
    cl_alg2cpos false ∅ 1 (mkCL (Some a1) CDA_OK) = Ok ((1, (5, 8, 7, 7)), mkCL (Some a2) CDA_OK).
Proof.
  destruct (alignment_regions_correct false ∅ ex_aligned 0 6 ex_boundaries ex_has_boundaries) as (a1 & _ & _ & H & _);
    [unfold is_cpos, INT_MAX; lia |].
  destruct (H 1%nat (5, 7) (9, 8) eq_refl eq_refl) as (E1 & a2 & _ & E2); [cbn; lia |].
  exists a1, a2. split; [exact E1 | exact E2].
Defined.

Lemma alignment_past_last_boundary_witness :
  (exists a1, cl_cpos2alg false ∅ 9 (mkCL (Some ex_aligned) 0) = Ok (2, mkCL (Some a1) CDA_OK)) /\
  cl_cpos2alg false ∅ 10 (mkCL (Some ex_aligned) 0) = Err OutOfBounds.
Proof.
  split.
  - destruct (alignment_past_last_boundary false ∅ ex_aligned 0 9 [(0, 0); (5, 7)] (9, 8) ex_has_boundaries) as (a1 & _ & E & _);
      [unfold is_cpos, INT_MAX; lia | cbn; lia |]. exists a1. exact E.
  - destruct (alignment_past_last_boundary false ∅ ex_aligned 0 10 [(0, 0); (5, 7)] (9, 8) ex_has_boundaries) as (a1 & _ & E);
      [unfold is_cpos, INT_MAX; lia | cbn; lia |]. exact E.
Defined.
