(* ===== verification/Matchlist.v ===== *)
(** * Match lists: cqp/matchlist.c

    A match list is a table of matches in up to four parallel arrays (start, end,
    target and keyword positions), each of which may be missing.  A deleted
    match has the start -1; an inverted list stands for the positions that are
    not in it.  [Setop] stores its result in the first list and may change the
    second; both are returned. *)

From Stdlib Require Import ZArith Lia.
From stdpp Require Import base tactics option list numbers sorting.
From S2P Require Import Prelude.

Open Scope Z_scope.

(** ** Data *)

Record Matchlist := mkML {
  start : option (list Z);
  ends : option (list Z);                (* the field [end] *)
  target_positions : option (list Z);
  keyword_positions : option (list Z);
  tabsize : Z;
  matches_whole_corpus : bool;
  is_inverted : bool
}.

Inductive MLSetOp := Union | Intersection | Complement | Identity | Uniq | Reduce.

Definition init_matchlist : Matchlist := mkML None None None None 0 false false.

(** The arrays are freed and the fields reset. *)
Definition free_matchlist (m : Matchlist) : Matchlist := init_matchlist.

Definition set_inverted (m : Matchlist) (b : bool) : Matchlist :=
  mkML (start m) (ends m) (target_positions m) (keyword_positions m) (tabsize m) (matches_whole_corpus m) b.

(** ** Arrays that may be missing *)

Definition oget (a : option (list Z)) (i : Z) : res Z := l ← deref a; aget l i.

Definition oset (a : option (list Z)) (i v : Z) : res (option (list Z)) :=
  l ← deref a; l ← aset l i v; Ok (Some l).

(** [if (dst) dst[k] = src[i];] *)
Definition copy_cell (dst : option (list Z)) (k : Z) (src : option (list Z)) (i : Z) : res (option (list Z)) :=
  match dst with
  | None => Ok None
  | Some _ => v ← oget src i; oset dst k v
  end.

Section Setop.

(** The contents of allocated memory, and what [realloc] returns for 0 bytes. *)
Context (garbage : Z -> list Z) (realloc0 : option (list Z)).

(** The size of the corpus of the query: [None] if there is no evaluation
    environment, or its corpus or the word attribute cannot be accessed. *)
Context (corpus_size : option Z).

Definition cl_realloc (a : option (list Z)) (k : Z) : res (option (list Z)) :=
  if k =? 0 then Ok realloc0
  else
    l ← deref a;
    if zlen l <? k then Ok (Some (l ++ garbage (k - zlen l))) else Ok (Some (take (Z.to_nat k) l)).

(** [if (a) a = realloc(a, k);] *)
Definition shrink (a : option (list Z)) (k : Z) : res (option (list Z)) :=
  match a with None => Ok None | Some _ => cl_realloc a k end.

Definition shrink_all (m : Matchlist) (k : Z) : res Matchlist :=
  s ← cl_realloc (start m) k;
  e ← shrink (ends m) k;
  t ← shrink (target_positions m) k;
  w ← shrink (keyword_positions m) k;
  Ok (mkML s e t w (tabsize m) (matches_whole_corpus m) (is_inverted m)).

(** The list [tmp]: the arrays that both lists have.  [cl_malloc] of a negative
    size, which is converted to a huge one, leaves the program. *)
Definition alloc_both (a b : option (list Z)) (n : Z) : option (list Z) :=
  match a, b with Some _, Some _ => Some (garbage n) | _, _ => None end.

Definition tmp_arrays (list1 list2 : Matchlist) (n : Z) : Matchlist :=
  mkML (Some (garbage n)) (alloc_both (ends list1) (ends list2) n)
    (alloc_both (target_positions list1) (target_positions list2) n)
    (alloc_both (keyword_positions list1) (keyword_positions list2) n) n false false.

Definition new_tmp (list1 list2 : Matchlist) (n : Z) : res Matchlist :=
  if n <? 0 then Err ExitCall else Ok (tmp_arrays list1 list2 n).

(** [tmp.start[k] = src->start[i]; if (tmp.end) tmp.end[k] = src->end[i]; ...] *)
Definition copy_item (tmp : Matchlist) (k : Z) (src : Matchlist) (i : Z) : res Matchlist :=
  v ← oget (start src) i;
  s ← oset (start tmp) k v;
  e ← copy_cell (ends tmp) k (ends src) i;
  t ← copy_cell (target_positions tmp) k (target_positions src) i;
  w ← copy_cell (keyword_positions tmp) k (keyword_positions src) i;
  Ok (mkML s e t w (tabsize tmp) (matches_whole_corpus tmp) (is_inverted tmp)).

(** The result in list1. *)
Definition install (tmp : Matchlist) (k : Z) : Matchlist :=
  mkML (start tmp) (ends tmp) (target_positions tmp) (keyword_positions tmp) k false false.

Definition empty_list : Matchlist := mkML None None None None 0 false false.

(** [x < n && x's cell == -1] *)
Definition deleted_at (m : Matchlist) (i : Z) : res bool :=
  if i <? tabsize m then v ← oget (start m) i; Ok (v =? -1) else Ok false.

(** ** Union *)

(** One round of the merging loop: indices into both lists and the result. *)
Definition union_round (list1 list2 : Matchlist) (st : Z * Z * Z * Matchlist)
  : res (Z * Z * Z * Matchlist + Z * Matchlist) :=
  let '(i, j, k, tmp) := st in
  if (i <? tabsize list1) || (j <? tabsize list2) then
    d1 ← deleted_at list1 i;
    if (d1 : bool) then Ok (inl (i + 1, j, k, tmp)) else
    d2 ← deleted_at list2 j;
    if (d2 : bool) then Ok (inl (i, j + 1, k, tmp)) else
    first ← (if tabsize list2 <=? j then Ok true
             else if i <? tabsize list1 then
               x ← oget (start list1) i; y ← oget (start list2) j; Ok (x <? y)
             else Ok false);
    if (first : bool) then
      tmp ← copy_item tmp k list1 i;
      Ok (inl (i + 1, j, k + 1, tmp))
    else
    second ← (if tabsize list1 <=? i then Ok true
              else if j <? tabsize list2 then
                x ← oget (start list1) i; y ← oget (start list2) j; Ok (y <? x)
              else Ok false);
    if (second : bool) then
      tmp ← copy_item tmp k list2 j;
      Ok (inl (i, j + 1, k + 1, tmp))
    else
      same ← (match ends tmp with
              | None => Ok true
              | Some _ => x ← oget (ends list1) i; y ← oget (ends list2) j; Ok (x =? y)
              end);
      if (same : bool) then
        tmp ← copy_item tmp k list1 i;
        Ok (inl (i + 1, j + 1, k + 1, tmp))
      else
        x ← oget (ends list1) i; y ← oget (ends list2) j;
        if x <? y then
          tmp ← copy_item tmp k list1 i;
          Ok (inl (i + 1, j, k + 1, tmp))
        else
          (* the start was copied from list1, where it is the same *)
          tmp ← copy_item tmp k list2 j;
          Ok (inl (i, j + 1, k + 1, tmp))
  else Ok (inr (k, tmp)).

Definition union_merge (list1 list2 : Matchlist) : res Matchlist :=
  n ← c_int (tabsize list1 + tabsize list2);
  tmp ← new_tmp list1 list2 n;
  r ← loop (union_round list1 list2) fuel (0, 0, 0, tmp);
  let '(k, tmp) := r in
  _ ← c_assert (k <=? n);
  tmp ← (if k <? n then shrink_all tmp k else Ok tmp);
  Ok (install tmp k).

(** ** Intersection *)

Definition intersection_round (list1 list2 : Matchlist) (st : Z * Z * Z * Matchlist)
  : res (Z * Z * Z * Matchlist + Z * Matchlist) :=
  let '(i, j, k, tmp) := st in
  if (i <? tabsize list1) && (j <? tabsize list2) then
    x ← oget (start list1) i; y ← oget (start list2) j;
    if x <? y then Ok (inl (i + 1, j, k, tmp))
    else if y <? x then Ok (inl (i, j + 1, k, tmp))
    else
      same ← (match ends tmp with
              | None => Ok true
              | Some _ => e ← oget (ends list1) i; f ← oget (ends list2) j; Ok (e =? f)
              end);
      if (same : bool) then
        tmp ← copy_item tmp k list1 i;
        Ok (inl (i + 1, j + 1, k + 1, tmp))
      else
        e ← oget (ends list1) i; f ← oget (ends list2) j;
        if e <? f then Ok (inl (i + 1, j, k, tmp)) else Ok (inl (i, j + 1, k, tmp))
  else Ok (inr (k, tmp)).

Definition intersection_merge (list1 list2 : Matchlist) : res Matchlist :=
  let n :=
    if is_inverted list1 then tabsize list2
    else if is_inverted list2 then tabsize list1
    else if tabsize list1 <? tabsize list2 then tabsize list1 else tabsize list2 in
  tmp ← new_tmp list1 list2 n;
  r ← loop (intersection_round list1 list2) fuel (0, 0, 0, tmp);
  let '(k, tmp) := r in
  _ ← c_assert (k <=? n);
  if k =? 0 then Ok empty_list
  else
    tmp ← (if k <? n then shrink_all tmp k else Ok tmp);
    Ok (install tmp k).

(** ** Complement *)

(** [for (k = 0; k < i; k++)]: the indices into the source and the target. *)
Definition complement_round (list1 : Matchlist) (k : Z) (st : Z * Z * list Z) : res (Z * Z * list Z) :=
  let '(j, t, out) := st in
  take_k ← (if tabsize list1 <=? j then Ok true else x ← oget (start list1) j; Ok (k <? x));
  if (take_k : bool) then
    out ← aset out t k;
    Ok (j, t + 1, out)
  else
    x ← oget (start list1) j;
    if k =? x then Ok (j + 1, t, out) else Err AssertFail.

(** The return value and the list. *)
Definition setop_complement (list1 : Matchlist) : res (Z * Matchlist) :=
  match ends list1 with
  | Some _ => Ok (0, list1)
  | None =>
      if is_inverted list1 then Ok (1, set_inverted list1 false)
      else match corpus_size with
      | None => Ok (0, list1)
      | Some i =>
          n ← c_int (i - tabsize list1);
          if n <? 0 then Err ExitCall
          else if n =? 0 then Ok (1, empty_list)
          else if n =? i then
            all ← for_up (fun k l => aset l k k) 0 n (garbage n);
            Ok (1, mkML (Some all) None None None n true false)
          else
            r ← for_up (complement_round list1) 0 i (0, 0, garbage n);
            let '(_, t, out) := r in
            _ ← c_assert (t =? n);
            Ok (1, mkML (Some out) None None None n false false)
      end
  end.

(** ** Identity, Uniq and Reduce *)

(** [memcpy] of [n] cells into a new array. *)
Definition copy_array (a : option (list Z)) (n : Z) : res (option (list Z)) :=
  match a with
  | None => Ok None
  | Some l => if (n <? 0) || (zlen l <? n) then Err OutOfBounds else Ok (Some (take (Z.to_nat n) l))
  end.

Definition setop_identity (list2 : Matchlist) : res Matchlist :=
  s ← copy_array (start list2) (tabsize list2);
  e ← copy_array (ends list2) (tabsize list2);
  t ← copy_array (target_positions list2) (tabsize list2);
  w ← copy_array (keyword_positions list2) (tabsize list2);
  Ok (mkML s e t w (tabsize list2) (matches_whole_corpus list2) (is_inverted list2)).

(** One round of the loops that keep some items, in the same arrays. *)
Definition uniq_round (i : Z) (st : Z * Matchlist) : res (Z * Matchlist) :=
  let '(ins, m) := st in
  new ← (if ins =? 0 then Ok true
         else
           x ← oget (start m) i; y ← oget (start m) (ins - 1);
           if negb (x =? y) then Ok true
           else match ends m with
           | None => Ok false
           | Some _ => e ← oget (ends m) i; f ← oget (ends m) (ins - 1); Ok (negb (e =? f))
           end);
  if (new : bool) then m ← copy_item m ins m i; Ok (ins + 1, m) else Ok (ins, m).

Definition setop_uniq (list1 : Matchlist) : res Matchlist :=
  match start list1 with
  | Some _ =>
      if 0 <? tabsize list1 then
        r ← for_up uniq_round 0 (tabsize list1) (0, list1);
        let '(ins, m) := r in
        if negb (ins =? tabsize list1) then m ← shrink_all m ins; Ok (install m ins) else Ok m
      else Ok list1
  | None => Ok list1
  end.

Definition reduce_round (i : Z) (st : Z * Matchlist) : res (Z * Matchlist) :=
  let '(ins, m) := st in
  x ← oget (start m) i;
  if negb (x =? -1) then m ← copy_item m ins m i; Ok (ins + 1, m) else Ok (ins, m).

Definition setop_reduce (list1 : Matchlist) : res Matchlist :=
  match start list1 with
  | Some _ =>
      if 0 <? tabsize list1 then
        r ← for_up reduce_round 0 (tabsize list1) (0, list1);
        let '(ins, m) := r in
        if ins =? 0 then Ok empty_list
        else if negb (ins =? tabsize list1) then m ← shrink_all m ins; Ok (install m ins) else Ok m
      else Ok list1
  | None => Ok list1
  end.

(** ** The operation *)

(** The return value and both lists.  [depth] bounds the nesting of the calls. *)
Fixpoint Setop_at (depth : nat) (list1 : Matchlist) (operation : MLSetOp) (list2 : Matchlist)
  : res (Z * Matchlist * Matchlist) :=
  match depth with
  | O => Err OutOfFuel
  | S depth =>
      match operation with
      | Union =>
          match start list2, start list1 with
          | None, _ =>
              if is_inverted list2 then Setop_at depth list1 Identity list2 else Ok (1, list1, list2)
          | _, None =>
              if is_inverted list1 then Ok (1, list1, list2) else Setop_at depth list1 Identity list2
          | Some _, Some _ =>
              if is_inverted list1 && is_inverted list2 then
                r ← Setop_at depth (set_inverted list1 false) Intersection (set_inverted list2 false);
                let '(_, list1, list2) := r in
                Ok (1, set_inverted list1 true, list2)
              else
                list1 ← (if is_inverted list1 then
                           r ← Setop_at depth (set_inverted list1 false) Complement init_matchlist; Ok r.1.2
                         else Ok list1);
                list2 ← (if is_inverted list2 then
                           r ← Setop_at depth (set_inverted list2 false) Complement init_matchlist; Ok r.1.2
                         else Ok list2);
                m ← union_merge list1 list2;
                Ok (1, m, list2)
          end
      | Intersection =>
          if (tabsize list1 =? 0) && is_inverted list1 then Setop_at depth list1 Identity list2
          else if (tabsize list2 =? 0) && is_inverted list2 then Ok (1, list1, list2)
          else if (tabsize list1 =? 0) || (tabsize list2 =? 0) then Ok (1, empty_list, list2)
          else if is_inverted list1 && is_inverted list2 then
            r ← Setop_at depth (set_inverted list1 false) Union (set_inverted list2 false);
            let '(_, list1, list2) := r in
            Ok (1, set_inverted list1 true, list2)
          else
            m ← intersection_merge list1 list2;
            Ok (1, m, list2)
      | Complement => r ← setop_complement list1; Ok (r.1, r.2, list2)
      | Identity => m ← setop_identity list2; Ok (1, m, list2)
      | Uniq => m ← setop_uniq list1; Ok (1, m, list2)
      | Reduce => m ← setop_reduce list1; Ok (1, m, list2)
      end
  end.

(** Three levels are enough: an operation on inverted lists calls the other one
    on lists that are not inverted, which calls Identity at most. *)
Definition Setop : Matchlist -> MLSetOp -> Matchlist -> res (Z * Matchlist * Matchlist) := Setop_at 3.
End Setop.
