(* ===== verification/MatchlistRows.v ===== *)
(** * Match lists: the rows of a list and the operations on them

    The rows of a match list (cqp/matchlist.c), the merges that are the reference
    for union and intersection, and the lemmas on the loops of [Setop]: Union,
    Intersection, Uniq, Reduce and Identity compute on the arrays what the
    reference functions compute on the rows. *)

From Stdlib Require Import ZArith Lia.
From stdpp Require Import base tactics option list numbers sorting.
From S2P Require Import Prelude Matchlist.

Open Scope Z_scope.

(** ** Rows and columns *)

Record row := Row { r_start : Z; r_end : Z; r_target : Z; r_keyword : Z }.

(** Which of the arrays a list has, apart from the starts. *)
Record cols := Cols { has_end : bool; has_target : bool; has_keyword : bool }.

Definition column (b : bool) (f : row -> Z) (rows : list row) : option (list Z) :=
  if b then Some (f <$> rows) else None.

Definition columns (m : Matchlist) (c : cols) (rows : list row) : Prop :=
  start m = Some (r_start <$> rows) /\ ends m = column (has_end c) r_end rows /\
  target_positions m = column (has_target c) r_target rows /\
  keyword_positions m = column (has_keyword c) r_keyword rows.

Definition freed (m : Matchlist) : Prop :=
  start m = None /\ ends m = None /\ target_positions m = None /\ keyword_positions m = None.

Definition is_some {A} (o : option A) : bool := match o with Some _ => true | None => false end.

Definition cols_of (m : Matchlist) : cols :=
  Cols (is_some (ends m)) (is_some (target_positions m)) (is_some (keyword_positions m)).

(** A list holds [rows] in the first cells of its arrays. *)
Definition repr (m : Matchlist) (rows : list row) : Prop :=
  tabsize m = zlen rows /\ ((rows = [] /\ freed m) \/ exists rest, columns m (cols_of m) (rows ++ rest)).

Definition both (c1 c2 : cols) : cols :=
  Cols (has_end c1 && has_end c2) (has_target c1 && has_target c2) (has_keyword c1 && has_keyword c2).

(** [c]'s arrays are among those of [c']. *)
Definition within (c c' : cols) : Prop :=
  (has_end c = true -> has_end c' = true) /\ (has_target c = true -> has_target c' = true) /\
  (has_keyword c = true -> has_keyword c' = true).

Lemma within_both_l c1 c2 : within (both c1 c2) c1.
Proof. repeat split; simpl; intros H; by apply andb_true_iff in H as []. Qed.

Lemma within_both_r c1 c2 : within (both c1 c2) c2.
Proof. repeat split; simpl; intros H; by apply andb_true_iff in H as []. Qed.

Lemma within_refl c : within c c.
Proof. by repeat split. Qed.

(** ** Cells *)

Lemma oget_map (f : row -> Z) rows i x :
  0 <= i -> rows !! Z.to_nat i = Some x -> oget (Some (f <$> rows)) i = Ok (f x).
Proof. intros Hi Hx. unfold oget. res_cbn. apply aget_lookup; [done |]. by rewrite list_lookup_fmap, Hx. Qed.

Lemma oset_map (f : row -> Z) rows i x :
  0 <= i < zlen rows ->
  oset (Some (f <$> rows)) i (f x) = Ok (Some (f <$> <[Z.to_nat i := x]> rows)).
Proof.
  intros Hi. unfold oset. res_cbn. rewrite aset_Ok by (unfold zlen; rewrite length_fmap; exact Hi).
  res_cbn. by rewrite list_fmap_insert.
Qed.

Lemma copy_cell_column (f : row -> Z) b b' rows k rows' i x :
  (b = true -> b' = true) -> 0 <= k < zlen rows -> 0 <= i -> rows' !! Z.to_nat i = Some x ->
  copy_cell (column b f rows) k (column b' f rows') i = Ok (column b f (<[Z.to_nat k := x]> rows)).
Proof.
  intros Hb Hk Hi Hx. unfold copy_cell, column. destruct b; [| done].
  rewrite Hb by done. rewrite (oget_map f rows' i x) by done. res_cbn. by apply oset_map.
Qed.

(** [copy_item] copies the arrays the target has. *)
Lemma copy_item_ok tmp c rows k src c' rows' i x :
  columns tmp c rows -> columns src c' rows' -> within c c' ->
  0 <= k < zlen rows -> 0 <= i -> rows' !! Z.to_nat i = Some x ->
  exists tmp', copy_item tmp k src i = Ok tmp' /\ columns tmp' c (<[Z.to_nat k := x]> rows) /\
    tabsize tmp' = tabsize tmp /\ is_inverted tmp' = is_inverted tmp.
Proof.
  intros (S1 & E1 & T1 & K1) (S2 & E2 & T2 & K2) (He & Ht & Hk) Hrange Hi Hx.
  unfold copy_item. rewrite S1, S2, E1, E2, T1, T2, K1, K2.
  rewrite (oget_map r_start rows' i x) by done. res_cbn. rewrite oset_map by done. res_cbn.
  rewrite (copy_cell_column r_end _ _ rows k rows' i x) by done. res_cbn.
  rewrite (copy_cell_column r_target _ _ rows k rows' i x) by done. res_cbn.
  rewrite (copy_cell_column r_keyword _ _ rows k rows' i x) by done. res_cbn.
  eexists. split; [reflexivity | by repeat split].
Qed.

(** At the end of what has been written. *)
Lemma copy_item_next tmp c out cell rest k src c' rows' i x :
  columns tmp c (out ++ cell :: rest) -> columns src c' rows' -> within c c' ->
  k = zlen out -> 0 <= i -> rows' !! Z.to_nat i = Some x ->
  exists tmp', copy_item tmp k src i = Ok tmp' /\ columns tmp' c ((out ++ [x]) ++ rest) /\
    tabsize tmp' = tabsize tmp /\ is_inverted tmp' = is_inverted tmp.
Proof.
  intros Ht Hs Hw Hk Hi Hx.
  destruct (copy_item_ok tmp c (out ++ cell :: rest) k src c' rows' i x) as (tmp' & E & H & Hn); try done.
  - pose proof (zlen_nonneg out). pose proof (zlen_nonneg rest). autorewrite with zlen. lia.
  - exists tmp'. split; [done |]. split; [| done].
    replace (Z.to_nat k) with (length out + 0)%nat in H by (unfold zlen in Hk; lia).
    rewrite insert_app_r in H. by rewrite <- app_assoc.
Qed.

(** ** Reallocation *)

Lemma shrink_column realloc0 garbage f b rows rest :
  rows <> [] ->
  shrink garbage realloc0 (column b f (rows ++ rest)) (zlen rows) = Ok (column b f rows).
Proof.
  intros Hne. unfold shrink, column, cl_realloc. destruct b; [| done].
  assert (0 < zlen rows) by (destruct rows; [done |]; rewrite zlen_cons; pose proof (zlen_nonneg rows); lia).
  rewrite (proj2 (Z.eqb_neq _ 0)) by lia. res_cbn.
  rewrite (proj2 (Z.ltb_ge _ _)) by (unfold zlen; rewrite length_fmap, length_app; lia).
  do 2 f_equal. unfold zlen. rewrite Nat2Z.id, fmap_app, take_app_le by (rewrite length_fmap; lia).
  apply take_ge. by rewrite length_fmap.
Qed.

Lemma shrink_all_columns realloc0 garbage m c rows rest :
  columns m c (rows ++ rest) -> rows <> [] ->
  exists m', shrink_all garbage realloc0 m (zlen rows) = Ok m' /\ columns m' c rows /\
    tabsize m' = tabsize m.
Proof.
  intros (S1 & E1 & T1 & K1) Hne. unfold shrink_all. rewrite S1, E1, T1, K1.
  pose proof (shrink_column realloc0 garbage r_start true rows rest Hne) as Hs. cbn in Hs. rewrite Hs. res_cbn.
  rewrite !shrink_column by done. res_cbn. eexists. by split.
Qed.

Lemma shrink_all_zero realloc0 garbage m c rows :
  columns m c rows ->
  exists m' rest, shrink_all garbage realloc0 m 0 = Ok m' /\
    (freed m' \/ columns m' c rest).
Proof.
  intros (S1 & E1 & T1 & K1). unfold shrink_all, cl_realloc, shrink. rewrite S1, E1, T1, K1. cbn.
  exists (mkML realloc0 (if has_end c then realloc0 else None) (if has_target c then realloc0 else None)
            (if has_keyword c then realloc0 else None) (tabsize m) (matches_whole_corpus m) (is_inverted m)).
  exists ((fun v => Row v v v v) <$> default [] realloc0). split.
  - unfold column. by destruct (has_end c), (has_target c), (has_keyword c).
  - destruct realloc0 as [g|]; [right | left; unfold freed; by destruct (has_end c), (has_target c), (has_keyword c)].
    unfold columns, column; cbn. rewrite <- !list_fmap_compose.
    assert (forall h : Z -> Z, (forall v, h v = v) -> h <$> g = g) as Hid.
    { intros h Hh. induction g as [|v g IH]; cbn; [done |]. by rewrite Hh, IH. }
    rewrite !Hid by done. by destruct (has_end c), (has_target c), (has_keyword c).
Qed.

(** ** The reference merges *)

(** Matches are compared by their start and, if [he], by their end. *)
Definition key (he : bool) (r : row) : Z * Z := (r_start r, if he then r_end r else 0).

Definition kcmp (a b : Z * Z) : comparison :=
  match a.1 ?= b.1 with Eq => a.2 ?= b.2 | c => c end.

(** The rows that have not been deleted. *)
Definition live (rows : list row) : list row := filter (fun r => r_start r <> -1) rows.

Fixpoint merge (he : bool) (l1 : list row) : list row -> list row :=
  fix go l2 :=
    match l1, l2 with
    | [], _ => l2
    | _, [] => l1
    | x :: l1', y :: l2' =>
        match kcmp (key he x) (key he y) with
        | Lt => x :: merge he l1' l2
        | Gt => y :: go l2'
        | Eq => x :: merge he l1' l2'
        end
    end.

Fixpoint inter (he : bool) (l1 : list row) : list row -> list row :=
  fix go l2 :=
    match l1, l2 with
    | [], _ => []
    | _, [] => []
    | x :: l1', y :: l2' =>
        match kcmp (key he x) (key he y) with
        | Lt => inter he l1' l2
        | Gt => go l2'
        | Eq => x :: inter he l1' l2'
        end
    end.

Lemma merge_nil_l he l2 : merge he [] l2 = l2.
Proof. by destruct l2. Qed.

Lemma merge_nil_r he l1 : merge he l1 [] = l1.
Proof. by destruct l1. Qed.

Lemma merge_cons he x l1 y l2 :
  merge he (x :: l1) (y :: l2) =
  match kcmp (key he x) (key he y) with
  | Lt => x :: merge he l1 (y :: l2)
  | Gt => y :: merge he (x :: l1) l2
  | Eq => x :: merge he l1 l2
  end.
Proof. reflexivity. Qed.

Lemma inter_nil_r he l1 : inter he l1 [] = [].
Proof. by destruct l1. Qed.

Lemma inter_nil_l he l2 : inter he [] l2 = [].
Proof. by destruct l2. Qed.

Lemma inter_cons he x l1 y l2 :
  inter he (x :: l1) (y :: l2) =
  match kcmp (key he x) (key he y) with
  | Lt => inter he l1 (y :: l2)
  | Gt => inter he (x :: l1) l2
  | Eq => x :: inter he l1 l2
  end.
Proof. reflexivity. Qed.

Lemma live_cons x l : live (x :: l) = if decide (r_start x <> -1) then x :: live l else live l.
Proof. reflexivity. Qed.

(** The remainder of a list at index [i]. *)
Lemma drop_next {A} (l : list A) (i : Z) :
  0 <= i < zlen l -> exists x, l !! Z.to_nat i = Some x /\
    drop (Z.to_nat i) l = x :: drop (Z.to_nat (i + 1)) l.
Proof.
  intros Hi. destruct (aget_total l i Hi) as (x & _ & Hx). exists x. split; [done |].
  rewrite (drop_S l x) by done. by replace (Z.to_nat (i + 1)) with (S (Z.to_nat i)) by lia.
Qed.

Lemma drop_end {A} (l : list A) (i : Z) : zlen l <= i -> drop (Z.to_nat i) l = [].
Proof. unfold zlen. intros. apply drop_ge. lia. Qed.

(** ** The merging loops *)

(** The rows of a list that the result, with the arrays [c], can be copied from. *)
Definition source (m : Matchlist) (c : cols) (rows : list row) : Prop :=
  tabsize m = zlen rows /\
  (rows = [] \/ exists c' rest, columns m c' (rows ++ rest) /\ within c c').

Section Loops.
Context (list1 list2 : Matchlist) (c : cols) (rows1 rows2 : list row).
Hypothesis Hs1 : source list1 c rows1.
Hypothesis Hs2 : source list2 c rows2.

Lemma source_columns m rows i x :
  source m c rows -> rows !! Z.to_nat i = Some x ->
  exists c' all, columns m c' all /\ within c c' /\ all !! Z.to_nat i = Some x.
Proof.
  intros (_ & [->|(c' & rest & Hc & Hw)]) Hx; [done |].
  exists c', (rows ++ rest). repeat split; try apply Hc; try apply Hw. by apply lookup_app_l_Some.
Qed.

Lemma source_start m rows i x :
  source m c rows -> 0 <= i -> rows !! Z.to_nat i = Some x -> oget (start m) i = Ok (r_start x).
Proof.
  intros H Hi Hx. destruct (source_columns m rows i x H Hx) as (c' & all & (-> & _) & _ & Ha).
  by apply oget_map.
Qed.

Lemma source_end m rows i x :
  source m c rows -> has_end c = true -> 0 <= i -> rows !! Z.to_nat i = Some x -> oget (ends m) i = Ok (r_end x).
Proof.
  intros H He Hi Hx. destruct (source_columns m rows i x H Hx) as (c' & all & (_ & -> & _) & (Hw & _) & Ha).
  rewrite Hw by done. by apply oget_map.
Qed.

Lemma deleted_at_ok m rows i x :
  source m c rows -> 0 <= i -> rows !! Z.to_nat i = Some x ->
  deleted_at m i = Ok (r_start x =? -1).
Proof.
  intros H Hi Hx. unfold deleted_at. destruct H as [Ht H].
  assert (i < zlen rows) by (apply lookup_lt_Some in Hx; unfold zlen; lia).
  rewrite Ht, (proj2 (Z.ltb_lt _ _)) by done.
  rewrite (source_start m rows i x) by done. by res_cbn.
Qed.

Lemma deleted_at_end m rows i : source m c rows -> zlen rows <= i -> deleted_at m i = Ok false.
Proof. intros [Ht _] Hi. unfold deleted_at. by rewrite Ht, (proj2 (Z.ltb_ge _ _)). Qed.

(** Copying a row of a source to the end of what has been written. *)
Lemma copy_source tmp out rest m rows i x :
  columns tmp c (out ++ rest) -> zlen out < zlen (out ++ rest) ->
  source m c rows -> 0 <= i -> rows !! Z.to_nat i = Some x ->
  exists tmp' rest', copy_item tmp (zlen out) m i = Ok tmp' /\ columns tmp' c ((out ++ [x]) ++ rest') /\
    zlen ((out ++ [x]) ++ rest') = zlen (out ++ rest) /\ tabsize tmp' = tabsize tmp.
Proof.
  intros Ht Hlen Hs Hi Hx. destruct rest as [|cell rest]; [by rewrite app_nil_r in Hlen; apply Z.lt_irrefl in Hlen |].
  destruct (source_columns m rows i x Hs Hx) as (c' & all & Hc & Hw & Ha).
  destruct (copy_item_next tmp c out cell rest (zlen out) m c' all i x) as (tmp' & E & H & Hn & _); try done.
  exists tmp', rest. split; [done |]. split; [done |]. split; [| done]. autorewrite with zlen; lia.
Qed.

(** What has been copied ([out]) and what is left of both lists. *)
Definition merging (f : list row -> list row -> list row) (n : Z) (st : Z * Z * Z * Matchlist) : Prop :=
  let '(i, j, k, tmp) := st in
  exists out rest, columns tmp c (out ++ rest) /\ k = zlen out /\ zlen (out ++ rest) = n /\
    0 <= i <= zlen rows1 /\ 0 <= j <= zlen rows2 /\
    f rows1 rows2 = out ++ f (drop (Z.to_nat i) rows1) (drop (Z.to_nat j) rows2).

Definition merged (f : list row -> list row -> list row) (n : Z) (r : Z * Matchlist) : Prop :=
  exists rest, columns r.2 c (f rows1 rows2 ++ rest) /\ r.1 = zlen (f rows1 rows2) /\
    zlen (f rows1 rows2 ++ rest) = n.

Definition left_over (st : Z * Z * Z * Matchlist) : Z :=
  let '(i, j, _, _) := st in (zlen rows1 - i) + (zlen rows2 - j).

(** The next state of a merge: a row is skipped or copied. *)
Lemma merging_skip f n i j i' j' k tmp :
  merging f n (i, j, k, tmp) -> 0 <= i' <= zlen rows1 -> 0 <= j' <= zlen rows2 ->
  f (drop (Z.to_nat i) rows1) (drop (Z.to_nat j) rows2) =
  f (drop (Z.to_nat i') rows1) (drop (Z.to_nat j') rows2) ->
  merging f n (i', j', k, tmp).
Proof.
  intros (out & rest & H1 & H2 & H3 & _ & _ & H4) Hi Hj E. exists out, rest. rewrite H4, E.
  by repeat (split; [done |]).
Qed.

Lemma merging_copy f n i j i' j' k tmp m rows p x :
  merging f n (i, j, k, tmp) -> 0 <= i' <= zlen rows1 -> 0 <= j' <= zlen rows2 ->
  zlen (f rows1 rows2) <= n ->
  source m c rows -> 0 <= p -> rows !! Z.to_nat p = Some x ->
  f (drop (Z.to_nat i) rows1) (drop (Z.to_nat j) rows2) =
  x :: f (drop (Z.to_nat i') rows1) (drop (Z.to_nat j') rows2) ->
  exists tmp', copy_item tmp k m p = Ok tmp' /\ merging f n (i', j', k + 1, tmp').
Proof.
  intros (out & rest & H1 & -> & H3 & _ & _ & H4) Hi Hj Hn Hs Hp Hx E.
  destruct (copy_source tmp out rest m rows p x) as (tmp' & rest' & Ec & Hc & Hl & _); try done.
  { rewrite H3. rewrite H4, E, zlen_app, zlen_cons in Hn.
    pose proof (zlen_nonneg (f (drop (Z.to_nat i') rows1) (drop (Z.to_nat j') rows2))). lia. }
  exists tmp'. split; [done |]. exists (out ++ [x]), rest'. split; [done |].
  split; [rewrite zlen_app, zlen_cons, zlen_nil; lia |]. split; [by rewrite Hl |].
  split; [done |]. split; [done |]. by rewrite H4, E, <- app_assoc.
Qed.

Lemma merge_length he l1 : forall l2, zlen (merge he l1 l2) <= zlen l1 + zlen l2.
Proof.
  induction l1 as [|x l1 IH1]; intros l2; [rewrite merge_nil_l, zlen_nil; lia |].
  induction l2 as [|y l2 IH2]; [rewrite merge_nil_r, zlen_nil; lia |].
  rewrite merge_cons. rewrite !zlen_cons in *. pose proof (IH1 l2). pose proof (IH1 (y :: l2)) as H2.
  rewrite zlen_cons in H2. destruct (kcmp _ _); rewrite zlen_cons; lia.
Qed.

Lemma live_length l : zlen (live l) <= zlen l.
Proof. induction l as [|x l IH]; [done |]. rewrite live_cons. case_decide; rewrite ?zlen_cons; lia. Qed.

Lemma inter_length he l1 : forall l2, zlen (inter he l1 l2) <= zlen l1 /\ zlen (inter he l1 l2) <= zlen l2.
Proof.
  induction l1 as [|x l1 IH1]; intros l2; [rewrite inter_nil_l, zlen_nil; pose proof (zlen_nonneg l2); lia |].
  induction l2 as [|y l2 IH2]; [rewrite inter_nil_r, zlen_nil; pose proof (zlen_nonneg (x :: l1)); lia |].
  rewrite inter_cons. rewrite !zlen_cons in *. pose proof (IH1 l2). pose proof (IH1 (y :: l2)) as H2.
  rewrite zlen_cons in H2. destruct (kcmp _ _); rewrite ?zlen_cons; lia.
Qed.

(** The keys of two rows, compared the way the code does. *)
Lemma kcmp_key he x y :
  kcmp (key he x) (key he y) =
  if r_start x <? r_start y then Lt else if r_start y <? r_start x then Gt
  else if he then r_end x ?= r_end y else Eq.
Proof.
  unfold kcmp, key; cbn. destruct (Z.compare_spec (r_start x) (r_start y)) as [E|E|E].
  - rewrite E, Z.ltb_irrefl. by destruct he.
  - by rewrite (proj2 (Z.ltb_lt _ _) E).
  - by rewrite (proj2 (Z.ltb_ge (r_start x) (r_start y))), (proj2 (Z.ltb_lt _ _) E) by lia.
Qed.

Definition union_rows (l1 l2 : list row) : list row := merge (has_end c) (live l1) (live l2).
Definition inter_rows (l1 l2 : list row) : list row := inter (has_end c) l1 l2.

Lemma ends_tmp tmp all : columns tmp c all -> is_Some (ends tmp) <-> has_end c = true.
Proof. intros (_ & -> & _). unfold column. destruct (has_end c); split; intros H; try done; by destruct H. Qed.

(** The test on the ends, when the starts are equal. *)
Lemma same_end_ok tmp all i j x y :
  columns tmp c all -> 0 <= i -> rows1 !! Z.to_nat i = Some x -> 0 <= j -> rows2 !! Z.to_nat j = Some y ->
  (match ends tmp with
   | None => Ok true
   | Some _ => e ← oget (ends list1) i; f ← oget (ends list2) j; Ok (e =? f)
   end) = Ok (if has_end c then r_end x =? r_end y else true).
Proof.
  intros Hc Hi Hx Hj Hy. destruct (ends tmp) as [e|] eqn:Ee.
  - assert (has_end c = true) as He by (apply (ends_tmp tmp _ Hc); rewrite Ee; by eexists).
    rewrite (source_end _ rows1 i x), (source_end _ rows2 j y), He by done. by res_cbn.
  - destruct (has_end c) eqn:He; [| done]. destruct (proj2 (ends_tmp tmp _ Hc) He) as [? E2]. by rewrite Ee in E2.
Qed.

Ltac skip_row f n i j :=
  eexists; split; [reflexivity |]; split; [apply (merging_skip f n i j); try done; try lia | cbn; lia].

Ltac copy_row f n i j i' j' k tmp m rows p x :=
  let tmp' := fresh "tmp" in let HI := fresh "HI" in
  destruct (merging_copy f n i j i' j' k tmp m rows p x) as (tmp' & -> & HI);
  [try (done || lia) .. | res_cbn; eexists; split; [reflexivity |]; split; [exact HI | cbn; lia]].

Definition next_state (f : list row -> list row -> list row) (n : Z) (st : Z * Z * Z * Matchlist)
    (o : res (Z * Z * Z * Matchlist + Z * Matchlist)) : Prop :=
  exists st', o = Ok (inl st') /\ merging f n st' /\ left_over st' < left_over st.

Lemma union_round_both n i j k tmp :
  merging union_rows n (i, j, k, tmp) -> zlen (union_rows rows1 rows2) <= n -> i < zlen rows1 -> j < zlen rows2 ->
  next_state union_rows n (i, j, k, tmp) (union_round list1 list2 (i, j, k, tmp)).
Proof.
  intros HI Hn Li Lj. pose proof HI as (out & rest & Hc & Hk & Hl & Hi & Hj & Hf).
  unfold next_state, union_round. rewrite (proj1 Hs1), (proj1 Hs2), (proj2 (Z.ltb_lt i _) Li), (proj2 (Z.ltb_lt j _) Lj), (proj2 (Z.leb_gt _ _) Li), (proj2 (Z.leb_gt _ _) Lj). cbn [orb].
  destruct (drop_next rows1 i) as (x & Hx & Dx); [lia |]. destruct (drop_next rows2 j) as (y & Hy & Dy); [lia |].
  rewrite (deleted_at_ok _ rows1 i x) by (done || lia). res_cbn.
  destruct (Z.eqb_spec (r_start x) (-1)) as [Ex|Ex].
  { skip_row union_rows n i j. unfold union_rows. rewrite Dx, live_cons. by case_decide. }
  rewrite (deleted_at_ok _ rows2 j y) by (done || lia). res_cbn.
  destruct (Z.eqb_spec (r_start y) (-1)) as [Ey|Ey].
  { skip_row union_rows n i j. unfold union_rows. rewrite Dy, live_cons. by case_decide. }
  rewrite (source_start _ rows1 i x), (source_start _ rows2 j y) by (done || lia). res_cbn.
  pose proof (merge_cons (has_end c) x (live (drop (Z.to_nat (i + 1)) rows1)) y (live (drop (Z.to_nat (j + 1)) rows2))) as Hw.
  assert (live (drop (Z.to_nat i) rows1) = x :: live (drop (Z.to_nat (i + 1)) rows1)) as Lx
    by (rewrite Dx, live_cons; by case_decide).
  assert (live (drop (Z.to_nat j) rows2) = y :: live (drop (Z.to_nat (j + 1)) rows2)) as Ly
    by (rewrite Dy, live_cons; by case_decide).
  rewrite <- Lx, <- Ly, kcmp_key in Hw. clear Lx Ly.
  destruct (Z.ltb_spec (r_start x) (r_start y)).
  { copy_row union_rows n i j (i + 1) j k tmp list1 rows1 i x. }
  res_cbn. destruct (Z.ltb_spec (r_start y) (r_start x)).
  { copy_row union_rows n i j i (j + 1) k tmp list2 rows2 j y. }
  rewrite (same_end_ok tmp _ i j x y Hc) by (done || lia). res_cbn. destruct (has_end c) eqn:He.
  2: { copy_row union_rows n i j (i + 1) (j + 1) k tmp list1 rows1 i x. unfold union_rows. by rewrite He. }
  rewrite (source_end _ rows1 i x), (source_end _ rows2 j y) by (done || lia). res_cbn.
  destruct (Z.compare_spec (r_end x) (r_end y)) as [E|E|E].
  - rewrite (proj2 (Z.eqb_eq _ _) E).
    copy_row union_rows n i j (i + 1) (j + 1) k tmp list1 rows1 i x. unfold union_rows. by rewrite He.
  - rewrite (proj2 (Z.eqb_neq _ _)), (proj2 (Z.ltb_lt _ _) E) by lia.
    copy_row union_rows n i j (i + 1) j k tmp list1 rows1 i x. unfold union_rows. by rewrite He.
  - rewrite (proj2 (Z.eqb_neq _ _)), (proj2 (Z.ltb_ge _ _)) by lia.
    copy_row union_rows n i j i (j + 1) k tmp list2 rows2 j y. unfold union_rows. by rewrite He.
Qed.

Lemma union_round_left n i j k tmp :
  merging union_rows n (i, j, k, tmp) -> zlen (union_rows rows1 rows2) <= n -> i < zlen rows1 -> zlen rows2 <= j ->
  next_state union_rows n (i, j, k, tmp) (union_round list1 list2 (i, j, k, tmp)).
Proof.
  intros HI Hn Li Lj. pose proof HI as (out & rest & Hc & Hk & Hl & Hi & Hj & Hf).
  unfold next_state, union_round. rewrite (proj1 Hs1), (proj1 Hs2), (proj2 (Z.ltb_lt i _) Li), (proj2 (Z.leb_le _ _) Lj). cbn [orb].
  destruct (drop_next rows1 i) as (x & Hx & Dx); [lia |].
  rewrite (deleted_at_ok _ rows1 i x) by (done || lia). res_cbn.
  destruct (Z.eqb_spec (r_start x) (-1)) as [Ex|Ex].
  { skip_row union_rows n i j. unfold union_rows. rewrite Dx, live_cons. by case_decide. }
  rewrite (deleted_at_end _ rows2 j) by done. res_cbn.
  copy_row union_rows n i j (i + 1) j k tmp list1 rows1 i x.
  unfold union_rows. rewrite Dx, (drop_end rows2 j), live_cons, decide_True by done. by rewrite !merge_nil_r.
Qed.

Lemma union_round_right n i j k tmp :
  merging union_rows n (i, j, k, tmp) -> zlen (union_rows rows1 rows2) <= n -> zlen rows1 <= i -> j < zlen rows2 ->
  next_state union_rows n (i, j, k, tmp) (union_round list1 list2 (i, j, k, tmp)).
Proof.
  intros HI Hn Li Lj. pose proof HI as (out & rest & Hc & Hk & Hl & Hi & Hj & Hf).
  unfold next_state, union_round.
  rewrite (proj1 Hs1), (proj1 Hs2), (proj2 (Z.ltb_lt j _) Lj), (proj2 (Z.leb_gt _ _) Lj), (proj2 (Z.ltb_ge i _) Li), (proj2 (Z.leb_le _ _) Li), orb_true_r.
  destruct (drop_next rows2 j) as (y & Hy & Dy); [lia |].
  rewrite (deleted_at_end _ rows1 i) by done. res_cbn.
  rewrite (deleted_at_ok _ rows2 j y) by (done || lia). res_cbn.
  destruct (Z.eqb_spec (r_start y) (-1)) as [Ey|Ey].
  { skip_row union_rows n i j. unfold union_rows. rewrite Dy, live_cons. by case_decide. }
  res_cbn. copy_row union_rows n i j i (j + 1) k tmp list2 rows2 j y.
  unfold union_rows. rewrite Dy, (drop_end rows1 i), live_cons, decide_True by done. by rewrite !merge_nil_l.
Qed.

Lemma union_round_ok n st :
  merging union_rows n st -> zlen (union_rows rows1 rows2) <= n ->
  0 <= left_over st /\
  (next_state union_rows n st (union_round list1 list2 st) \/
   (exists r, union_round list1 list2 st = Ok (inr r) /\ merged union_rows n r)).
Proof.
  destruct st as [[[i j] k] tmp]. intros HI Hn. pose proof HI as (out & rest & Hc & Hk & Hl & Hi & Hj & Hf).
  split; [cbn; lia |]. destruct (Z.lt_ge_cases i (zlen rows1)), (Z.lt_ge_cases j (zlen rows2)).
  - left. by apply union_round_both.
  - left. by apply union_round_left.
  - left. by apply union_round_right.
  - right. unfold union_round.
    rewrite (proj1 Hs1), (proj1 Hs2), (proj2 (Z.ltb_ge _ _)), (proj2 (Z.ltb_ge _ _)) by done. cbn [orb].
    eexists. split; [done |]. exists rest. rewrite Hf. unfold union_rows.
    rewrite !drop_end by done. change (live []) with (@nil row). by rewrite merge_nil_l, app_nil_r.
Qed.

Lemma intersection_round_ok n st :
  merging inter_rows n st -> zlen (inter_rows rows1 rows2) <= n ->
  0 <= left_over st /\
  (next_state inter_rows n st (intersection_round list1 list2 st) \/
   (exists r, intersection_round list1 list2 st = Ok (inr r) /\ merged inter_rows n r)).
Proof.
  destruct st as [[[i j] k] tmp]. intros HI Hn. pose proof HI as (out & rest & Hc & Hk & Hl & Hi & Hj & Hf).
  split; [cbn; lia |]. unfold next_state, intersection_round. rewrite (proj1 Hs1), (proj1 Hs2).
  destruct (Z.ltb_spec i (zlen rows1)) as [Li|Li]; cbn [andb];
    [| right; eexists; split; [done |]; exists rest; rewrite Hf; unfold inter_rows;
       rewrite (drop_end rows1 i), inter_nil_l, app_nil_r by done; done].
  destruct (Z.ltb_spec j (zlen rows2)) as [Lj|Lj];
    [| right; eexists; split; [done |]; exists rest; rewrite Hf; unfold inter_rows;
       rewrite (drop_end rows2 j), inter_nil_r, app_nil_r by done; done].
  left. destruct (drop_next rows1 i) as (x & Hx & Dx); [lia |]. destruct (drop_next rows2 j) as (y & Hy & Dy); [lia |].
  rewrite (source_start _ rows1 i x), (source_start _ rows2 j y) by (done || lia). res_cbn.
  pose proof (inter_cons (has_end c) x (drop (Z.to_nat (i + 1)) rows1) y (drop (Z.to_nat (j + 1)) rows2)) as Hw.
  rewrite <- Dx, <- Dy, kcmp_key in Hw.
  destruct (Z.ltb_spec (r_start x) (r_start y)); [by skip_row inter_rows n i j |].
  destruct (Z.ltb_spec (r_start y) (r_start x)); [by skip_row inter_rows n i j |].
  rewrite (same_end_ok tmp _ i j x y Hc) by (done || lia). res_cbn. destruct (has_end c) eqn:He.
  2: { copy_row inter_rows n i j (i + 1) (j + 1) k tmp list1 rows1 i x. unfold inter_rows. by rewrite He. }
  rewrite (source_end _ rows1 i x), (source_end _ rows2 j y) by (done || lia). res_cbn.
  destruct (Z.compare_spec (r_end x) (r_end y)) as [E|E|E].
  - rewrite (proj2 (Z.eqb_eq _ _) E).
    copy_row inter_rows n i j (i + 1) (j + 1) k tmp list1 rows1 i x. unfold inter_rows. by rewrite He.
  - rewrite (proj2 (Z.eqb_neq _ _)), (proj2 (Z.ltb_lt _ _) E) by lia. skip_row inter_rows n i j. unfold inter_rows. by rewrite He.
  - rewrite (proj2 (Z.eqb_neq _ _)), (proj2 (Z.ltb_ge _ _)) by lia. skip_row inter_rows n i j. unfold inter_rows. by rewrite He.
Qed.
End Loops.

(** ** Union and Intersection of two lists *)

Lemma cols_of_columns m c rows : columns m c rows -> cols_of m = c.
Proof. intros (_ & H1 & H2 & H3). unfold cols_of. rewrite H1, H2, H3. by destruct c as [[] [] []]. Qed.

Lemma cols_of_freed m : freed m -> cols_of m = Cols false false false.
Proof. intros (_ & H1 & H2 & H3). unfold cols_of. by rewrite H1, H2, H3. Qed.

Lemma repr_source m rows c : repr m rows -> within c (cols_of m) -> source m c rows.
Proof. intros [Hn [[-> Hf]|[rest Hc]]] Hw; split; eauto. Qed.

Section Merges.
Context (garbage : Z -> list Z) (realloc0 : option (list Z)).
Hypothesis garbage_length : forall n, 0 <= n -> zlen (garbage n) = n.

Definition garbage_rows (n : Z) : list row := (fun v => Row v v v v) <$> garbage n.

Lemma garbage_rows_length n : 0 <= n -> zlen (garbage_rows n) = n.
Proof. intros H. unfold zlen, garbage_rows. rewrite length_fmap. by apply garbage_length. Qed.

Lemma garbage_column n (f : row -> Z) : (forall v, f (Row v v v v) = v) -> f <$> garbage_rows n = garbage n.
Proof.
  intros Hf. unfold garbage_rows. rewrite <- list_fmap_compose.
  induction (garbage n) as [|v g IH]; cbn; [done |]. by rewrite Hf, IH.
Qed.

Lemma tmp_arrays_columns m1 m2 n :
  columns (tmp_arrays garbage m1 m2 n) (both (cols_of m1) (cols_of m2)) (garbage_rows n).
Proof.
  unfold columns, tmp_arrays, column, alloc_both; cbn. rewrite !garbage_column by done.
  repeat split; by repeat case_match.
Qed.

(** The arrays are cut to the rows that were written; they are freed or may be,
    if there are none. *)
Lemma shrink_repr tmp c rows rest n :
  columns tmp c (rows ++ rest) -> zlen (rows ++ rest) = n ->
  exists tmp', (if zlen rows <? n then shrink_all garbage realloc0 tmp (zlen rows) else Ok tmp) = Ok tmp' /\
    repr (install tmp' (zlen rows)) rows /\ within (cols_of (install tmp' (zlen rows))) c /\
    (cols_of (install tmp' (zlen rows)) = c \/ freed (install tmp' (zlen rows))).
Proof.
  intros Hc Hn. destruct (Z.ltb_spec (zlen rows) n) as [L|L].
  - destruct (decide (rows = [])) as [->|Hne].
    + destruct (shrink_all_zero realloc0 garbage tmp c _ Hc) as (m' & rest' & E & H).
      exists m'. split; [exact E |]. split.
      * split; [done |]. destruct H as [H|H]; [by left; split |].
        right. exists rest'. by rewrite (cols_of_columns m' c rest' H : cols_of (install m' (zlen [])) = c).
      * destruct H as [H|H]; [split; [by rewrite (cols_of_freed m' H : cols_of (install m' (zlen [])) = _) | by right] |].
        rewrite (cols_of_columns m' c rest' H : cols_of (install m' (zlen [])) = c). split; [apply within_refl | by left].
    + destruct (shrink_all_columns realloc0 garbage tmp c rows rest Hc Hne) as (m' & E & H & _).
      exists m'. split; [exact E |].
      rewrite <- (app_nil_r rows) in H. rewrite (cols_of_columns m' c _ H : cols_of (install m' (zlen rows)) = c).
      split; [| split; [apply within_refl | by left]]. split; [done |]. right. exists [].
      by rewrite (cols_of_columns m' c _ H : cols_of (install m' (zlen rows)) = c).
  - exists tmp. split; [done |]. rewrite (cols_of_columns tmp c _ Hc : cols_of (install tmp (zlen rows)) = c).
    split; [| split; [apply within_refl | by left]]. split; [done |]. right. exists rest.
    by rewrite (cols_of_columns tmp c _ Hc : cols_of (install tmp (zlen rows)) = c).
Qed.

Context (m1 m2 : Matchlist) (rows1 rows2 : list row).
Hypothesis H1 : repr m1 rows1.
Hypothesis H2 : repr m2 rows2.

Definition plain (m : Matchlist) : Prop := matches_whole_corpus m = false /\ is_inverted m = false.

Lemma merging_start c f n :
  c = both (cols_of m1) (cols_of m2) -> 0 <= n -> merging c rows1 rows2 f n (0, 0, 0, tmp_arrays garbage m1 m2 n).
Proof.
  intros -> Hn. exists [], (garbage_rows n).
  split; [apply tmp_arrays_columns |]. split; [done |]. split; [by apply garbage_rows_length |].
  pose proof (zlen_nonneg rows1). pose proof (zlen_nonneg rows2). split; [lia |]. split; [lia |].
  by rewrite !drop_0.
Qed.

Lemma merge_fuel :
  zlen rows1 + zlen rows2 <= 2 * INT_MAX ->
  forall n, left_over rows1 rows2 (0, 0, 0, tmp_arrays garbage m1 m2 n) < Zpos fuel.
Proof. intros H n. rewrite fuel_val. cbn. unfold INT_MAX in H. lia. Qed.

Lemma union_merge_ok c :
  c = both (cols_of m1) (cols_of m2) -> zlen rows1 + zlen rows2 <= INT_MAX ->
  exists m, union_merge garbage realloc0 m1 m2 = Ok m /\ repr m (union_rows c rows1 rows2) /\
    (within (cols_of m) c /\ (cols_of m = c \/ freed m)) /\ plain m.
Proof.
  intros Ec Hn. pose proof (zlen_nonneg rows1). pose proof (zlen_nonneg rows2).
  assert (source m1 c rows1) as S1 by (apply repr_source; [done | subst; apply within_both_l]).
  assert (source m2 c rows2) as S2 by (apply repr_source; [done | subst; apply within_both_r]).
  unfold union_merge. rewrite (proj1 S1), (proj1 S2), c_int_Ok by (unfold INT_MIN; lia). res_cbn.
  pose proof (merge_length (has_end c) (live rows1) (live rows2)) as Hl.
  pose proof (live_length rows1). pose proof (live_length rows2).
  fold (union_rows c rows1 rows2) in Hl.
  unfold new_tmp. rewrite (proj2 (Z.ltb_ge _ _)) by lia. res_cbn.
  loop_with (merging c rows1 rows2 (union_rows c) (zlen rows1 + zlen rows2))
    (merged c rows1 rows2 (union_rows c) (zlen rows1 + zlen rows2)) (left_over rows1 rows2) r E Hr.
  - intros st Hst. destruct (union_round_ok m1 m2 c rows1 rows2 S1 S2 _ st Hst) as [Hm Ho]; [lia |].
    split; [done | exact Ho].
  - apply merging_start; [done | lia].
  - apply merge_fuel; unfold INT_MAX in *; lia.
  - destruct r as [k tmp]. destruct Hr as (rest & Hc & Hk & Hlen). cbn in Hc, Hk. subst k.
    rewrite (proj2 (Z.leb_le _ _)) by lia. res_cbn.
    destruct (shrink_repr tmp c _ rest _ Hc Hlen) as (tmp' & -> & Hrep & Hw). res_cbn.
    eexists. split; [reflexivity |]. split; [done |]. by split.
Qed.

Lemma intersection_merge_ok c :
  c = both (cols_of m1) (cols_of m2) -> zlen rows1 <= INT_MAX -> zlen rows2 <= INT_MAX ->
  exists m, intersection_merge garbage realloc0 m1 m2 = Ok m /\ repr m (inter_rows c rows1 rows2) /\
    within (cols_of m) c /\ plain m.
Proof.
  intros Ec Hn1 Hn2. pose proof (zlen_nonneg rows1). pose proof (zlen_nonneg rows2).
  assert (source m1 c rows1) as S1 by (apply repr_source; [done | subst; apply within_both_l]).
  assert (source m2 c rows2) as S2 by (apply repr_source; [done | subst; apply within_both_r]).
  unfold intersection_merge. rewrite (proj1 S1), (proj1 S2).
  pose proof (inter_length (has_end c) rows1 rows2) as Hl. fold (inter_rows c rows1 rows2) in Hl.
  match goal with |- context [new_tmp garbage m1 m2 ?e] => remember e as n eqn:En end.
  assert (zlen (inter_rows c rows1 rows2) <= n /\ 0 <= n) as [Hb Hn0].
  { subst n. repeat case_match; bool_to_prop; lia. }
  unfold new_tmp. rewrite (proj2 (Z.ltb_ge _ _)) by lia. res_cbn.
  loop_with (merging c rows1 rows2 (inter_rows c) n) (merged c rows1 rows2 (inter_rows c) n) (left_over rows1 rows2) r E Hr.
  - intros st Hst. destruct (intersection_round_ok m1 m2 c rows1 rows2 S1 S2 _ st Hst) as [Hm Ho]; [lia |].
    split; [done | exact Ho].
  - by apply merging_start.
  - apply merge_fuel; unfold INT_MAX in *; lia.
  - destruct r as [k tmp]. destruct Hr as (rest & Hc & Hk & Hlen). cbn in Hc, Hk. subst k.
    rewrite (proj2 (Z.leb_le _ _)) by lia. res_cbn.
    destruct (Z.eqb_spec (zlen (inter_rows c rows1 rows2)) 0) as [Hz|Hz].
    + eexists. split; [reflexivity |]. split; [| by split].
      apply Z.eqb_eq in Hz. destruct (inter_rows c rows1 rows2) eqn:Ei; [| rewrite zlen_cons in Hz; pose proof (zlen_nonneg l); apply Z.eqb_eq in Hz; lia].
      split; [done |]. left. by repeat split.
    + destruct (shrink_repr tmp c _ rest _ Hc Hlen) as (tmp' & -> & Hrep & Hw & _). res_cbn.
      eexists. split; [reflexivity |]. split; [done |]. by split.
Qed.
End Merges.

(** ** The merges as set operations *)

Definition klt (a b : Z * Z) : Prop := a.1 < b.1 \/ (a.1 = b.1 /\ a.2 < b.2).

Lemma kcmp_spec a b : CompareSpec (a = b) (klt a b) (klt b a) (kcmp a b).
Proof.
  destruct a as [a1 a2], b as [b1 b2]. unfold kcmp, klt; cbn.
  destruct (Z.compare_spec a1 b1); [| constructor; lia ..].
  destruct (Z.compare_spec a2 b2); constructor; [by subst | lia ..].
Qed.

#[export] Instance klt_trans : Transitive klt.
Proof. intros [] [] []; unfold klt; cbn; lia. Qed.

Lemma klt_irrefl a : ~ klt a a.
Proof. unfold klt. lia. Qed.

(** In increasing order, without duplicates. *)
Definition ordered (he : bool) (rows : list row) : Prop := StronglySorted klt (key he <$> rows).

Lemma ordered_inv he x rows :
  ordered he (x :: rows) -> ordered he rows /\ Forall (klt (key he x)) (key he <$> rows).
Proof. apply StronglySorted_inv. Qed.

Lemma merge_elem he p l1 : forall l2,
  p ∈ key he <$> merge he l1 l2 <-> p ∈ key he <$> l1 \/ p ∈ key he <$> l2.
Proof.
  induction l1 as [|x l1 IH1]; intros l2; [rewrite merge_nil_l, fmap_nil, elem_of_nil; tauto |].
  induction l2 as [|y l2 IH2]; [rewrite merge_nil_r, fmap_nil, elem_of_nil; tauto |].
  rewrite merge_cons. destruct (kcmp_spec (key he x) (key he y)) as [E| |]; rewrite ?fmap_cons, ?elem_of_cons.
  - rewrite IH1, E. tauto.
  - rewrite IH1, fmap_cons, elem_of_cons. tauto.
  - rewrite IH2, fmap_cons, elem_of_cons. tauto.
Qed.

Lemma merge_rows he r l1 : forall l2, r ∈ merge he l1 l2 -> r ∈ l1 \/ r ∈ l2.
Proof.
  induction l1 as [|x l1 IH1]; intros l2; [rewrite merge_nil_l; by right |].
  induction l2 as [|y l2 IH2]; [rewrite merge_nil_r; by left |].
  rewrite merge_cons. specialize (IH1 l2) as IHe. specialize (IH1 (y :: l2)).
  destruct (kcmp _ _); rewrite !elem_of_cons; rewrite !elem_of_cons in *; tauto.
Qed.

Lemma merge_ordered he l1 : forall l2, ordered he l1 -> ordered he l2 -> ordered he (merge he l1 l2).
Proof.
  induction l1 as [|x l1 IH1]; intros l2 O1 O2; [by rewrite merge_nil_l |].
  induction l2 as [|y l2 IH2]; [by rewrite merge_nil_r |].
  pose proof (ordered_inv _ _ _ O1) as [O1' F1]. pose proof (ordered_inv _ _ _ O2) as [O2' F2].
  rewrite Forall_forall in F1, F2.
  rewrite merge_cons. destruct (kcmp_spec (key he x) (key he y)) as [E|L|L]; unfold ordered; rewrite fmap_cons.
  - constructor; [by apply IH1 |]. apply Forall_forall. intros p. rewrite merge_elem. intros [|]; [auto | rewrite E; auto].
  - constructor; [by apply IH1 |]. apply Forall_forall. intros p. rewrite merge_elem, fmap_cons, elem_of_cons.
    intros [|[->|]]; [auto | done |]. etrans; [exact L | auto].
  - constructor; [by apply IH2 |]. apply Forall_forall. intros p. rewrite merge_elem, fmap_cons, elem_of_cons.
    intros [[->|]|]; [done | | auto]. etrans; [exact L | auto].
Qed.

Lemma inter_elem he p l1 : forall l2, ordered he l1 -> ordered he l2 ->
  p ∈ key he <$> inter he l1 l2 <-> p ∈ key he <$> l1 /\ p ∈ key he <$> l2.
Proof.
  induction l1 as [|x l1 IH1]; intros l2 O1 O2; [rewrite inter_nil_l, fmap_nil, elem_of_nil; tauto |].
  induction l2 as [|y l2 IH2]; [rewrite inter_nil_r, fmap_nil, elem_of_nil; tauto |].
  pose proof (ordered_inv _ _ _ O1) as [O1' F1]. pose proof (ordered_inv _ _ _ O2) as [O2' F2].
  rewrite Forall_forall in F1, F2.
  assert (forall q, klt p q -> q = p -> False) as Hirr by (intros q H ->; by apply klt_irrefl in H).
  rewrite inter_cons. destruct (kcmp_spec (key he x) (key he y)) as [E|L|L]; rewrite ?fmap_cons, ?elem_of_cons.
  - rewrite IH1 by done. rewrite E. split; [tauto |].
    intros [[->|Hp] [Hq|Hq]]; try (by left); try (by right).
  - rewrite IH1 by done. rewrite fmap_cons, elem_of_cons. split; [tauto |]. intros [[->|Hp] Hq]; [| tauto].
    destruct Hq as [Hq|Hq]; [rewrite Hq in L | apply F2 in Hq; pose proof (klt_trans _ _ _ L Hq) as L'];
      [by apply klt_irrefl in L | by apply klt_irrefl in L'].
  - rewrite IH2 by done. rewrite fmap_cons, elem_of_cons. split; [tauto |]. intros [Hp [->|Hq]]; [| tauto].
    destruct Hp as [Hp|Hp]; [rewrite Hp in L | apply F1 in Hp; pose proof (klt_trans _ _ _ L Hp) as L'];
      [by apply klt_irrefl in L | by apply klt_irrefl in L'].
Qed.

Lemma inter_rows_sub he r l1 : forall l2, r ∈ inter he l1 l2 -> r ∈ l1.
Proof.
  induction l1 as [|x l1 IH1]; intros l2; [by rewrite inter_nil_l |].
  induction l2 as [|y l2 IH2]; [rewrite inter_nil_r, elem_of_nil; done |].
  rewrite inter_cons. destruct (kcmp _ _); [| intros H; right; by eapply IH1 | exact IH2].
  rewrite !elem_of_cons. intros [->|H]; [by left | right; by eapply IH1].
Qed.

Lemma inter_ordered he l1 : forall l2, ordered he l1 -> ordered he (inter he l1 l2).
Proof.
  induction l1 as [|x l1 IH1]; intros l2 O1; [by rewrite inter_nil_l |].
  induction l2 as [|y l2 IH2]; [rewrite inter_nil_r; constructor |].
  pose proof (ordered_inv _ _ _ O1) as [O1' F1].
  rewrite inter_cons. destruct (kcmp _ _); [| by apply IH1 | done].
  unfold ordered. rewrite fmap_cons. constructor; [by apply IH1 |].
  rewrite Forall_forall in *. intros p (r & -> & Hr)%list_elem_of_fmap. apply F1, list_elem_of_fmap.
  exists r. split; [done | by eapply inter_rows_sub].
Qed.

(** ** Reduce and Uniq: keeping some rows in place *)

(** Copying a row down over rows that were dropped. *)
Lemma copy_down m c kept mid x todo k i :
  columns m c (kept ++ mid ++ x :: todo) -> k = zlen kept -> i = zlen kept + zlen mid ->
  exists m' mid', copy_item m k m i = Ok m' /\ columns m' c ((kept ++ [x]) ++ mid' ++ todo) /\
    zlen mid' = zlen mid /\ tabsize m' = tabsize m /\ is_inverted m' = is_inverted m.
Proof.
  intros Hc -> ->. pose proof (zlen_nonneg kept). pose proof (zlen_nonneg mid). pose proof (zlen_nonneg todo).
  destruct (copy_item_ok m c (kept ++ mid ++ x :: todo) (zlen kept) m c _ (zlen kept + zlen mid) x Hc Hc)
    as (m' & E & H' & Hn & Hi); [apply within_refl | autorewrite with zlen; lia | lia | |].
  { rewrite app_assoc. apply list_lookup_middle. unfold zlen. rewrite length_app. lia. }
  unfold zlen in H' at 1. rewrite Nat2Z.id, insert_app_r_alt, Nat.sub_diag in H' by done.
  exists m'. destruct mid as [|y mid]; cbn in H'.
  - exists []. split; [done |]. split; [by rewrite <- app_assoc |]. done.
  - exists (mid ++ [x]). split; [done |]. split; [by rewrite <- !app_assoc in * |].
    split; [autorewrite with zlen; lia | done].
Qed.

(** The loops' state: the rows kept, the rows that no longer matter and the rows to come. *)
Definition in_place (f : list row -> list row -> list row) (m0 : Matchlist) (rows rest : list row) (i : Z) (st : Z * Matchlist) : Prop :=
  let '(ins, m) := st in
  exists kept mid, columns m (cols_of m0) (kept ++ mid ++ drop (Z.to_nat i) rows ++ rest) /\
    ins = zlen kept /\ 0 <= i <= zlen rows /\ zlen kept + zlen mid = i /\
    f [] rows = kept ++ f kept (drop (Z.to_nat i) rows) /\
    tabsize m = tabsize m0 /\ is_inverted m = is_inverted m0.

Lemma in_place_next f m0 rows rest i ins m :
  in_place f m0 rows rest i (ins, m) -> i < zlen rows ->
  exists x kept mid, rows !! Z.to_nat i = Some x /\ ins = zlen kept /\
    columns m (cols_of m0) (kept ++ mid ++ x :: drop (Z.to_nat (i + 1)) rows ++ rest) /\
    f [] rows = kept ++ f kept (x :: drop (Z.to_nat (i + 1)) rows) /\ zlen kept + zlen mid = i /\
    (f kept (x :: drop (Z.to_nat (i + 1)) rows) = f kept (drop (Z.to_nat (i + 1)) rows) ->
     in_place f m0 rows rest (i + 1) (ins, m)) /\
    (f kept (x :: drop (Z.to_nat (i + 1)) rows) = x :: f (kept ++ [x]) (drop (Z.to_nat (i + 1)) rows) ->
     exists m', copy_item m ins m i = Ok m' /\ in_place f m0 rows rest (i + 1) (ins + 1, m')).
Proof.
  intros (kept & mid & Hc & -> & Hi & Hsum & Hf & Hn & Hinv) L.
  destruct (drop_next rows i) as (x & Hx & Dx); [lia |]. rewrite Dx in Hc, Hf. cbn [app] in Hc.
  exists x, kept, mid. do 5 (split; [done |]). split.
  - intros E. exists kept, (mid ++ [x]). rewrite <- app_assoc. split; [done |]. split; [done |]. split; [lia |].
    split; [autorewrite with zlen; lia |]. by rewrite Hf, E.
  - intros E. destruct (copy_down m (cols_of m0) kept mid x (drop (Z.to_nat (i + 1)) rows ++ rest) (zlen kept) i)
      as (m' & mid' & -> & Hc' & Hl & Hn' & Hinv'); [done | done | lia |].
    exists m'. split; [done |]. exists (kept ++ [x]), mid'. split; [done |].
    split; [autorewrite with zlen; lia |]. split; [lia |]. split; [autorewrite with zlen; lia |].
    split; [by rewrite Hf, E, <- app_assoc |]. by rewrite Hn', Hinv'.
Qed.

Lemma in_place_start f m rows rest :
  columns m (cols_of m) (rows ++ rest) -> in_place f m rows rest 0 (0, m).
Proof.
  intros Hc. exists [], []. split; [by rewrite drop_0 |]. pose proof (zlen_nonneg rows).
  by repeat (split; [done || lia |]).
Qed.

Lemma in_place_end f m0 rows rest ins m :
  in_place f m0 rows rest (zlen rows) (ins, m) -> (forall kept, f kept [] = []) ->
  exists rest', columns m (cols_of m0) (f [] rows ++ rest') /\ ins = zlen (f [] rows) /\
    tabsize m = tabsize m0 /\ is_inverted m = is_inverted m0.
Proof.
  intros (kept & mid & Hc & -> & _ & _ & Hf & Hn & Hinv) Hnil.
  rewrite drop_end in Hc, Hf by lia. rewrite Hnil, app_nil_r in Hf. rewrite Hf. by exists (mid ++ [] ++ rest).
Qed.

Definition live_from (kept todo : list row) : list row := live todo.

Lemma reduce_round_ok m0 rows rest i st :
  0 <= i < zlen rows -> in_place live_from m0 rows rest i st ->
  exists st', reduce_round i st = Ok st' /\ in_place live_from m0 rows rest (i + 1) st'.
Proof.
  destruct st as [ins m]. intros Hi HI.
  destruct (in_place_next _ _ _ _ _ _ _ HI) as (x & kept & mid & Hx & _ & (Hs & _) & _ & Hsum & Hskip & Hcopy); [lia |].
  unfold reduce_round. rewrite Hs, (oget_map r_start _ i x) by (lia || (rewrite app_assoc; apply list_lookup_middle; unfold zlen in *; rewrite length_app; lia)).
  res_cbn. unfold live_from in *. rewrite live_cons in *. destruct (Z.eqb_spec (r_start x) (-1)) as [E|E]; cbn [negb].
  - rewrite decide_False in Hskip by lia. eauto.
  - rewrite decide_True in Hcopy by done. destruct Hcopy as (m' & -> & H); [done |]. res_cbn. eauto.
Qed.

(** Uniq drops the rows with the key of the row that was kept last. *)
Fixpoint uniq_rows (he : bool) (prev : option row) (rows : list row) : list row :=
  match rows with
  | [] => []
  | x :: rows =>
      if decide (key he <$> prev = Some (key he x)) then uniq_rows he prev rows
      else x :: uniq_rows he (Some x) rows
  end.

Definition uniq_from (he : bool) (kept todo : list row) : list row := uniq_rows he (last kept) todo.

(** The row kept last is the one below the insertion point. *)
Lemma last_kept m c kept rest ins :
  columns m c (kept ++ rest) -> ins = zlen kept -> ins <> 0 ->
  exists y, last kept = Some y /\ oget (start m) (ins - 1) = Ok (r_start y) /\
    (has_end c = true -> oget (ends m) (ins - 1) = Ok (r_end y)).
Proof.
  intros (Hs & He & _) -> Hne. destruct kept as [|y kept _] using rev_ind; [done |].
  exists y. rewrite last_snoc. autorewrite with zlen.
  replace (zlen kept + (1 + 0) - 1) with (zlen kept) by lia.
  assert (((kept ++ [y]) ++ rest) !! Z.to_nat (zlen kept) = Some y) as Hy.
  { rewrite <- app_assoc. apply list_lookup_middle. unfold zlen. lia. }
  pose proof (zlen_nonneg kept). split; [done |]. rewrite Hs, He.
  split; [by apply oget_map |]. unfold column. intros ->. by apply oget_map.
Qed.

Lemma uniq_round_ok m0 rows rest i st :
  0 <= i < zlen rows -> in_place (uniq_from (has_end (cols_of m0))) m0 rows rest i st ->
  exists st', uniq_round i st = Ok st' /\ in_place (uniq_from (has_end (cols_of m0))) m0 rows rest (i + 1) st'.
Proof.
  destruct st as [ins m]. intros Hi HI. set (he := has_end (cols_of m0)) in *.
  destruct (in_place_next _ _ _ _ _ _ _ HI) as (x & kept & mid & Hx & Hins & Hc & _ & Hsum & Hskip & Hcopy); [lia |].
  assert ((kept ++ mid ++ x :: drop (Z.to_nat (i + 1)) rows ++ rest) !! Z.to_nat i = Some x) as Hxi.
  { rewrite app_assoc. apply list_lookup_middle. unfold zlen in *. rewrite length_app. lia. }
  assert (exists b : bool,
    (if ins =? 0 then Ok true
     else
       x ← oget (start m) i; y ← oget (start m) (ins - 1);
       if negb (x =? y) then Ok true
       else match ends m with
       | None => Ok false
       | Some _ => e ← oget (ends m) i; f ← oget (ends m) (ins - 1); Ok (negb (e =? f))
       end) = Ok b /\ (b = true <-> key he <$> last kept <> Some (key he x))) as (b & Eb & Hb).
  { destruct (Z.eqb_spec ins 0) as [Ez|Ez].
    { exists true. split; [done |]. destruct kept; [done | rewrite zlen_cons in Hins; pose proof (zlen_nonneg kept); lia]. }
    destruct (last_kept m _ _ _ ins Hc Hins Ez) as (y & Hl & Hys & Hye). rewrite Hl, Hys. cbn [fmap option_fmap option_map].
    destruct Hc as (Hs0 & He0 & _). rewrite Hs0, He0. rewrite He0 in Hye.
    rewrite (oget_map r_start _ i x) by (done || lia). res_cbn. unfold key.
    fold he. fold he in Hye. destruct (Z.eqb_spec (r_start x) (r_start y)) as [Es|Es]; cbn [negb].
    2: { exists true. split; [done |]. split; [| done]. intros _ [=]. congruence. }
    unfold column in *. destruct he.
    - rewrite (oget_map r_end _ i x) by (done || lia). rewrite Es. res_cbn.
      rewrite Hye by done. res_cbn. exists (negb (r_end x =? r_end y)). split; [done |].
      destruct (Z.eqb_spec (r_end x) (r_end y)); cbn; split; try done; congruence.
    - exists false. split; [done |]. split; [done |]. congruence. }
  unfold uniq_round. rewrite Eb. res_cbn. unfold uniq_from in *. cbn [uniq_rows] in *. destruct b.
  - rewrite decide_False in Hcopy by (by apply Hb). destruct Hcopy as (m' & -> & H); [by rewrite last_snoc |]. res_cbn. eauto.
  - rewrite decide_True in Hskip. { eauto. }
    destruct (decide (key he <$> last kept = Some (key he x))); [done |]. exfalso. by apply Hb in n.
Qed.

Lemma columns_repr m rows rest : columns m (cols_of m) (rows ++ rest) -> tabsize m = zlen rows -> repr m rows.
Proof. intros Hc Hn. split; [done |]. right. by exists rest. Qed.

Lemma live_id rows : zlen (live rows) = zlen rows -> live rows = rows.
Proof.
  induction rows as [|x rows IH]; [done |]. rewrite live_cons. case_decide; rewrite ?zlen_cons.
  - intros. f_equal. apply IH. lia.
  - pose proof (live_length rows). lia.
Qed.

Lemma uniq_length he prev rows : zlen (uniq_rows he prev rows) <= zlen rows.
Proof.
  revert prev. induction rows as [|x rows IH]; intros prev; cbn [uniq_rows]; [done |].
  case_decide; rewrite ?zlen_cons; [specialize (IH prev) | specialize (IH (Some x))]; lia.
Qed.

Section InPlace.
Context (garbage : Z -> list Z) (realloc0 : option (list Z)).

(** The list is cut to the rows that were kept, and loses its flags if some were not. *)
Lemma in_place_finish f m0 rows rest st out :
  in_place f m0 rows rest (zlen rows) st -> (forall kept, f kept [] = []) -> f [] rows = out -> out <> [] ->
  zlen out <= zlen rows -> tabsize m0 = zlen rows ->
  exists m, (let '(ins, m) := st in
             if negb (ins =? tabsize m0) then m' ← shrink_all garbage realloc0 m ins; Ok (install m' ins) else Ok m) = Ok m /\
    repr m out /\ cols_of m = cols_of m0 /\ (zlen out < zlen rows -> plain m) /\
    (zlen out = zlen rows -> is_inverted m = is_inverted m0).
Proof.
  destruct st as [ins m]. intros HI Hnil <- Hne Hle Hn.
  destruct (in_place_end _ _ _ _ _ _ HI Hnil) as (rest' & Hc & -> & Ht & Hinv). rewrite Hn.
  pose proof (cols_of_columns _ _ _ Hc) as Ecols.
  destruct (Z.eqb_spec (zlen (f [] rows)) (zlen rows)) as [E|E]; cbn [negb].
  - exists m. split; [done |]. split; [| split; [done |]; split; [lia | done]].
    apply columns_repr with rest'; [by rewrite Ecols | congruence].
  - destruct (shrink_all_columns realloc0 garbage m _ _ _ Hc Hne) as (m' & -> & Hc' & _). res_cbn.
    eexists. split; [reflexivity |].
    assert (cols_of (install m' (zlen (f [] rows))) = cols_of m0) as E' by exact (cols_of_columns _ _ _ Hc').
    split; [| split; [done |]; split; [done | lia]].
    apply columns_repr with []; [rewrite app_nil_r, E'; exact Hc' | done].
Qed.

Lemma setop_reduce_ok m0 rows :
  repr m0 rows ->
  exists m, setop_reduce garbage realloc0 m0 = Ok m /\ repr m (live rows) /\ (within (cols_of m) (cols_of m0) /\ (cols_of m = cols_of m0 \/ freed m)) /\
    (zlen (live rows) < zlen rows -> plain m) /\ (zlen (live rows) = zlen rows -> is_inverted m = is_inverted m0).
Proof.
  intros H0. pose proof H0 as [Hn Hrows]. unfold setop_reduce.
  assert (rows = [] -> exists m, Ok m0 = Ok m /\ repr m (live rows) /\ (within (cols_of m) (cols_of m0) /\ (cols_of m = cols_of m0 \/ freed m)) /\
    (zlen (live rows) < zlen rows -> plain m) /\ (zlen (live rows) = zlen rows -> is_inverted m = is_inverted m0)) as Hnone.
  { intros ->. exists m0. change (live []) with (@nil row). split; [done |]. split; [done |]. split; [split; [apply within_refl | by left] |]. done. }
  destruct Hrows as [[-> (Hs & _)]|(rest & Hc)]; [rewrite Hs; by apply Hnone |].
  pose proof Hc as (-> & _). rewrite Hn. destruct (Z.ltb_spec 0 (zlen rows)) as [L|L].
  2: { apply Hnone, zlen_0_nil. pose proof (zlen_nonneg rows). lia. }
  for_up_with (in_place live_from m0 rows rest) st E Hst;
    [lia | intros i st Hi HI; by apply reduce_round_ok | by apply in_place_start |].
  destruct (decide (live rows = [])) as [Ez|Ene].
  - destruct st as [ins m]. destruct (in_place_end _ _ _ _ _ _ Hst) as (rest' & Hc' & -> & Ht & Hinv); [done |].
    unfold live_from. rewrite Ez. cbn. exists empty_list. split; [done |].
    split; [split; [done |]; left; by repeat split |]. split; [split; [by repeat split | right; by repeat split] |]. split; [done |].
    rewrite zlen_nil. lia.
  - destruct (in_place_finish _ _ _ _ _ (live rows) Hst) as (m & E' & H1 & H2 & H3 & H4); try done; [apply live_length |].
    destruct st as [ins m']. destruct (in_place_end _ _ _ _ _ _ Hst) as (_ & _ & Hins & _); [done |].
    exists m. rewrite Hn in E'. rewrite (proj2 (Z.eqb_neq ins 0)).
    + split; [exact E' |]. rewrite H2. split; [done |]. split; [split; [apply within_refl | by left] |]. by split.
    + rewrite Hins. unfold live_from. intros Hz%zlen_0_nil. done.
Qed.

Lemma setop_uniq_ok m0 rows :
  repr m0 rows ->
  let out := uniq_rows (has_end (cols_of m0)) None rows in
  exists m, setop_uniq garbage realloc0 m0 = Ok m /\ repr m out /\ cols_of m = cols_of m0 /\
    (zlen out < zlen rows -> plain m) /\ (zlen out = zlen rows -> is_inverted m = is_inverted m0).
Proof.
  intros H0 out. pose proof H0 as [Hn Hrows]. unfold setop_uniq.
  assert (rows = [] -> exists m, Ok m0 = Ok m /\ repr m out /\ cols_of m = cols_of m0 /\
    (zlen out < zlen rows -> plain m) /\ (zlen out = zlen rows -> is_inverted m = is_inverted m0)) as Hnone.
  { intros Er. subst out. rewrite Er in *. exists m0. by repeat (split; [done |]). }
  destruct Hrows as [[Er (Hs & _)]|(rest & Hc)]; [rewrite Hs; by apply Hnone |].
  pose proof Hc as (-> & _). rewrite Hn. destruct (Z.ltb_spec 0 (zlen rows)) as [L|L].
  2: { apply Hnone, zlen_0_nil. pose proof (zlen_nonneg rows). lia. }
  for_up_with (in_place (uniq_from (has_end (cols_of m0))) m0 rows rest) st E Hst;
    [lia | intros i st Hi HI; by apply uniq_round_ok | by apply in_place_start |].
  destruct (in_place_finish _ _ _ _ _ out Hst) as (m & E' & H1 & H2 & H3 & H4); try done.
  - subst out. destruct rows; [done | cbn; case_decide; done].
  - apply uniq_length.
  - destruct st as [ins m']. exists m. by rewrite Hn in E'.
Qed.
End InPlace.

(** ** Identity *)

Lemma copy_array_column b f rows rest :
  copy_array (column b f (rows ++ rest)) (zlen rows) = Ok (column b f rows).
Proof.
  unfold copy_array, column. destruct b; [| done]. pose proof (zlen_nonneg rows).
  rewrite (proj2 (Z.ltb_ge _ _)), (proj2 (Z.ltb_ge _ _)) by (unfold zlen; rewrite ?length_fmap, ?length_app; lia).
  cbn [orb]. do 2 f_equal. unfold zlen.
  rewrite Nat2Z.id, fmap_app, take_app_le by (rewrite length_fmap; lia). apply take_ge. by rewrite length_fmap.
Qed.

Lemma setop_identity_ok m0 rows :
  repr m0 rows ->
  exists m, setop_identity m0 = Ok m /\ repr m rows /\ cols_of m = cols_of m0 /\ is_inverted m = is_inverted m0.
Proof.
  intros [Hn [[-> (H1 & H2 & H3 & H4)]|(rest & H1 & H2 & H3 & H4)]]; unfold setop_identity.
  - rewrite H1, H2, H3, H4, Hn. cbn. eexists. split; [reflexivity |]. unfold cols_of; cbn. rewrite H2, H3, H4.
    split; [| done]. split; [done |]. left. by repeat split.
  - rewrite H1, H2, H3, H4, Hn. pose proof (copy_array_column true r_start rows rest) as Hs. cbn [column] in Hs.
    rewrite Hs. res_cbn. rewrite !copy_array_column. res_cbn. eexists. split; [reflexivity |].
    assert (forall a b c d f g, cols_of (mkML d (column (has_end a) r_end b) (column (has_target a) r_target b)
      (column (has_keyword a) r_keyword b) c f g) = a) as Hcols.
    { intros [[] [] []] b c d f g; reflexivity. }
    rewrite Hcols. split; [| done]. split; [done |]. right. exists []. rewrite app_nil_r, Hcols. by repeat split.
Qed.
