(* ===== verification/MatchlistHalts.v ===== *)
(** * Match lists: every call of Setop returns

    The termination of the loops and of the recursion of [Setop]
    (cqp/matchlist.c), for any lists. *)

From Stdlib Require Import ZArith Lia.
From stdpp Require Import base tactics option list numbers sorting.
From S2P Require Import Prelude Matchlist.

Open Scope Z_scope.

(** ** Every call returns *)

Section Halts.
Context (garbage : Z -> list Z) (realloc0 : option (list Z)) (corpus_size : option Z).

Lemma halts_oget a i : halts (fun _ => True) (oget a i).
Proof. apply halts_then; eauto with halts. Qed.

Lemma halts_oset a i v : halts (fun _ => True) (oset a i v).
Proof. apply halts_then; [eauto with halts |]. intros l. by apply halts_then; [eauto with halts |]. Qed.

Hint Resolve halts_oget halts_oset : halts.

Lemma halts_copy_cell d k s i : halts (fun _ => True) (copy_cell d k s i).
Proof. destruct d; [| done]. apply halts_then; eauto with halts. Qed.

Hint Resolve halts_copy_cell : halts.

Ltac ends_here := repeat (first [apply halts_then; [solve [eauto with halts] |]; intros ? | done]).

Lemma halts_copy_item tmp k src i : halts (fun _ => True) (copy_item tmp k src i).
Proof. unfold copy_item. ends_here. Qed.

Lemma halts_shrink a k : halts (fun _ => True) (shrink garbage realloc0 a k).
Proof. unfold shrink, cl_realloc. destruct a; [| done]. case_match; [done |]. rewrite deref_Some, bind_Ok. by case_match. Qed.

Lemma halts_shrink_all m k : halts (fun _ => True) (shrink_all garbage realloc0 m k).
Proof.
  unfold shrink_all. apply halts_then; [| intros; repeat (apply halts_then; [apply halts_shrink |]; intros); done].
  unfold cl_realloc. case_match; [done |]. apply halts_then; [eauto with halts |]. intros l. by case_match.
Qed.

Lemma halts_deleted_at m i : halts (fun _ => True) (deleted_at m i).
Proof. unfold deleted_at. case_match; ends_here. Qed.

Lemma halts_same_end tmp a b i j :
  halts (fun _ => True) (match ends tmp with
    | None => Ok true
    | Some _ => e ← oget a i; f ← oget b j; Ok (e =? f)
    end).
Proof. destruct (ends tmp); ends_here. Qed.

Lemma halts_new_tmp l1 l2 n : halts (fun t => True) (new_tmp garbage l1 l2 n).
Proof. unfold new_tmp. by case_match. Qed.

Hint Resolve halts_new_tmp halts_copy_item halts_shrink halts_shrink_all halts_deleted_at halts_same_end : halts.

(** The rows that the loops have not reached. *)
Definition unread (list1 list2 : Matchlist) (st : Z * Z * Z * Matchlist) : Z :=
  let '(i, j, _, _) := st in Z.max 0 (tabsize list1 - i) + Z.max 0 (tabsize list2 - j).

Definition advances (list1 list2 : Matchlist) (st : Z * Z * Z * Matchlist) (r : Z * Z * Z * Matchlist + Z * Matchlist) : Prop :=
  match r with inl st' => True /\ unread list1 list2 st' < unread list1 list2 st | inr _ => True end.

Lemma union_round_halts list1 list2 st : halts (advances list1 list2 st) (union_round list1 list2 st).
Proof.
  destruct st as [[[i j] k] tmp]. unfold union_round.
  destruct (Z.ltb_spec i (tabsize list1)) as [Li|Li], (Z.ltb_spec j (tabsize list2)) as [Lj|Lj]; cbn [orb]; [| | | done].
  all: unfold deleted_at; rewrite ?(proj2 (Z.ltb_lt _ _) Li), ?(proj2 (Z.ltb_lt _ _) Lj),
    ?(proj2 (Z.ltb_ge _ _) Li), ?(proj2 (Z.ltb_ge _ _) Lj), ?(proj2 (Z.leb_le _ _) Li), ?(proj2 (Z.leb_le _ _) Lj),
    ?(proj2 (Z.leb_gt _ _) Li), ?(proj2 (Z.leb_gt _ _) Lj); rewrite ?bind_Ok.
  all: repeat match goal with
    | |- halts _ (match ?b with true => _ | false => _ end) => destruct b eqn:?
    | |- halts _ (Ok _) => cbn [halts advances unread]; lia
    | |- halts _ _ => apply halts_then; [solve [eauto with halts | ends_here] | intros ?]
    end.
Qed.

Lemma intersection_round_halts list1 list2 st : halts (advances list1 list2 st) (intersection_round list1 list2 st).
Proof.
  destruct st as [[[i j] k] tmp]. unfold intersection_round.
  destruct (Z.ltb_spec i (tabsize list1)) as [Li|Li], (Z.ltb_spec j (tabsize list2)) as [Lj|Lj]; cbn [andb]; [| done ..].
  repeat match goal with
    | |- halts _ (match ?b with true => _ | false => _ end) => destruct b eqn:?
    | |- halts _ (Ok _) => cbn [halts advances unread]; lia
    | |- halts _ _ => apply halts_then; [solve [eauto with halts | ends_here] | intros ?]
    end.
Qed.

(** The number of matches is an [int]. *)
Definition int_size (m : Matchlist) : Prop := tabsize m <= INT_MAX.

Lemma halts_merge_loop list1 list2 round st :
  (forall st, halts (advances list1 list2 st) (round st)) -> int_size list1 -> int_size list2 ->
  0 <= st.1.1.1 -> 0 <= st.1.1.2 -> halts (fun _ => True) (loop round fuel st).
Proof.
  unfold int_size, INT_MAX. intros Hround H1 H2 Hi Hj.
  apply (halts_loop round (fun _ => True) (unread list1 list2)); [| | done |].
  - intros [[[i j] k] tmp] _. cbn. lia.
  - intros t _. apply Hround.
  - rewrite fuel_val. destruct st as [[[i j] k] tmp]. cbn in *. lia.
Qed.

Lemma union_merge_halts list1 list2 :
  int_size list1 -> int_size list2 -> halts (fun _ => True) (union_merge garbage realloc0 list1 list2).
Proof.
  intros H1 H2. unfold union_merge. eapply halts_bind; [apply halts_c_int |]. intros n _.
  apply halts_then; [eauto with halts |]. intros tmp0.
  apply halts_then; [by eapply halts_merge_loop; [apply union_round_halts | | | |] |]. intros [k tmp].
  apply halts_then; [eauto with halts |]. intros _. apply halts_then; [case_match; [eauto with halts | done] | done].
Qed.

Lemma intersection_merge_halts list1 list2 :
  int_size list1 -> int_size list2 -> halts (fun _ => True) (intersection_merge garbage realloc0 list1 list2).
Proof.
  intros H1 H2. unfold intersection_merge.
  apply halts_then; [eauto with halts |]. intros tmp0.
  apply halts_then; [by eapply halts_merge_loop; [apply intersection_round_halts | | | |] |]. intros [k tmp].
  apply halts_then; [eauto with halts |]. intros _. case_match; [done |].
  apply halts_then; [case_match; [eauto with halts | done] | done].
Qed.

Lemma setop_complement_halts m :
  int_size m -> halts (fun r => int_size r.2) (setop_complement garbage corpus_size m).
Proof.
  intros Hm. unfold setop_complement. destruct (ends m); [done |]. destruct (is_inverted m); [done |].
  destruct corpus_size as [i|]; [| done]. eapply halts_bind; [apply halts_c_int |]. intros n (-> & Hn).
  case_match; [done |]. case_match; [done |]. case_match.
  - apply halts_then; [eauto with halts |]. intros l. apply Hn.
  - apply halts_then.
    + apply halts_for_up. intros k [[j t] out]. unfold complement_round.
      apply halts_then; [case_match; [done | ends_here] |]. intros b. case_match; ends_here. by case_match.
    + intros [[j t] out]. apply halts_then; [eauto with halts |]. intros _. apply Hn.
Qed.

Lemma setop_identity_halts m : halts (fun _ => True) (setop_identity m).
Proof.
  assert (forall a n, halts (fun _ => True) (copy_array a n)) as H by (intros [l|] n; cbn; [by case_match | done]).
  unfold setop_identity. by repeat (apply halts_then; [apply H |]; intros ?).
Qed.

Lemma setop_uniq_halts m : halts (fun _ => True) (setop_uniq garbage realloc0 m).
Proof.
  unfold setop_uniq. destruct (start m); [| done]. case_match; [| done]. apply halts_then.
  - apply halts_for_up. intros i [ins m']. unfold uniq_round. apply halts_then; [| intros []; ends_here].
    case_match; [done |]. ends_here. case_match; [done |]. case_match; ends_here.
  - intros [ins m']. case_match; ends_here.
Qed.

Lemma setop_reduce_halts m : halts (fun _ => True) (setop_reduce garbage realloc0 m).
Proof.
  unfold setop_reduce. destruct (start m); [| done]. case_match; [| done]. apply halts_then.
  - apply halts_for_up. intros i [ins m']. unfold reduce_round. ends_here. case_match; ends_here.
  - intros [ins m']. case_match; [done |]. case_match; ends_here.
Qed.

Lemma Setop_identity_halts d m1 m2 : halts (fun _ => True) (Setop_at garbage realloc0 corpus_size (S d) m1 Identity m2).
Proof. cbn [Setop_at]. apply halts_then; [apply setop_identity_halts | done]. Qed.

Lemma Setop_complement_halts d m m2 :
  int_size m -> halts (fun r => int_size r.1.2) (Setop_at garbage realloc0 corpus_size (S d) m Complement m2).
Proof. intros Hm. cbn [Setop_at]. eapply halts_bind; [by apply setop_complement_halts |]. by intros [v r] Hr. Qed.

(** Union and Intersection of lists that are not inverted call Identity at most. *)
Lemma Setop_union_halts d m1 m2 :
  int_size m1 -> int_size m2 -> is_inverted m1 = false -> is_inverted m2 = false ->
  halts (fun _ => True) (Setop_at garbage realloc0 corpus_size (S (S d)) m1 Union m2).
Proof.
  intros H1 H2 V1 V2. change (S (S d)) with (S (S d)). cbn [Setop_at]. rewrite V1, V2. cbn [andb].
  destruct (start m2); [| done]. destruct (start m1); [| apply (Setop_identity_halts d m1)].
  rewrite !bind_Ok. apply halts_then; [by apply union_merge_halts | done].
Qed.

Lemma Setop_intersection_halts d m1 m2 :
  int_size m1 -> int_size m2 -> is_inverted m1 = false -> is_inverted m2 = false ->
  halts (fun _ => True) (Setop_at garbage realloc0 corpus_size (S d) m1 Intersection m2).
Proof.
  intros H1 H2 V1 V2. cbn [Setop_at]. rewrite V1, V2, !andb_false_r.
  case_match; [done |]. apply halts_then; [by apply intersection_merge_halts | done].
Qed.

Lemma Setop_halts m1 op m2 :
  int_size m1 -> int_size m2 -> halts (fun _ => True) (Setop garbage realloc0 corpus_size m1 op m2).
Proof.
  intros H1 H2. unfold Setop.
  assert (forall m, int_size m -> int_size (if is_inverted m then set_inverted m false else m)) as Hflag by (intros m; by case_match).
  destruct op; [| | | apply (Setop_identity_halts 2) | cbn; apply halts_then; [apply setop_uniq_halts | done]
    | cbn; apply halts_then; [apply setop_reduce_halts | done]].
  - pose proof (Setop_intersection_halts 1 (set_inverted m1 false) (set_inverted m2 false) H1 H2 eq_refl eq_refl) as Hi.
    assert (forall m, int_size m -> halts int_size (if is_inverted m then
        r ← Setop_at garbage realloc0 corpus_size 2 (set_inverted m false) Complement init_matchlist; Ok r.1.2 else Ok m)) as Hc.
    { intros m Hm. case_match; [| done]. eapply halts_bind; [by apply Setop_complement_halts |]. by intros r Hr. }
    remember 2%nat as d. cbn [Setop_at]. subst d.
    destruct (start m2); [| case_match; [apply (Setop_identity_halts 1) | done]].
    destruct (start m1); [| case_match; [done | apply (Setop_identity_halts 1)]].
    case_match; [apply halts_then; [done | by intros [[] ]] |].
    eapply halts_bind; [by apply Hc |]. intros l1 Hl1. eapply halts_bind; [by apply Hc |]. intros l2 Hl2.
    apply halts_then; [by apply union_merge_halts | done].
  - pose proof (Setop_union_halts 0 (set_inverted m1 false) (set_inverted m2 false) H1 H2 eq_refl eq_refl) as Hu.
    remember 2%nat as d. cbn [Setop_at]. subst d.
    case_match; [apply (Setop_identity_halts 1) |]. case_match; [done |]. case_match; [done |].
    case_match; [apply halts_then; [done | by intros [[] ]] |]. apply halts_then; [by apply intersection_merge_halts | done].
  - eapply halts_impl; [by apply (Setop_complement_halts 2) | done].
Qed.
End Halts.
