(* ===== verification/MatchlistSets.v ===== *)
(** * Match lists: Setop as set algebra

    [Setop] (cqp/matchlist.c) on initial match lists is the algebra of sets of
    corpus positions, inverted lists included; on match lists with ends it merges
    ranges; and it returns for every pair of lists.  [exact]: every array of a match
    list that is there has [tabsize] cells; the operations preserve it ([Setop_exact]). *)

From Stdlib Require Import ZArith Lia.
From stdpp Require Import base tactics option list numbers sorting.
From S2P Require Import Prelude.
From S2P Require Import Matchlist.
From S2P Require Import MatchlistRows.
From S2P Require Import MatchlistHalts.

Open Scope Z_scope.

(** ** Complement *)

Lemma ordered_false rows : ordered false rows <-> StronglySorted Z.lt (r_start <$> rows).
Proof.
  unfold ordered. induction rows as [|x rows IH]; cbn; [split; constructor |].
  split; intros [Hs Hf]%StronglySorted_inv; (constructor; [by apply IH |]); rewrite Forall_forall in Hf; apply Forall_forall.
  - intros p (r & -> & Hr)%list_elem_of_fmap. destruct (Hf (key false r)) as [H|[_ H]]; [by apply list_elem_of_fmap; eexists | done | done].
  - intros p (r & -> & Hr)%list_elem_of_fmap. left. apply (Hf (r_start r)). apply list_elem_of_fmap. by eexists.
Qed.

(** Distinct numbers of an interval are at most as many as it has. *)
Lemma sorted_count l a b :
  StronglySorted Z.lt l -> Forall (fun p => a <= p < b) l -> a <= b -> zlen l <= b - a.
Proof.
  revert a. induction l as [|x l IH]; intros a Hs Hf Hab; [rewrite zlen_nil; lia |].
  apply StronglySorted_inv in Hs as [Hs Hx]. apply Forall_cons in Hf as [Hr Hf]. rewrite zlen_cons.
  assert (Forall (fun p => x + 1 <= p < b) l) as Hf'.
  { rewrite Forall_forall in *. intros p Hp. specialize (Hx p Hp). specialize (Hf p Hp). lia. }
  specialize (IH (x + 1) Hs Hf'). lia.
Qed.

Definition position_row (p : Z) : row := Row p p p p.

(** The positions of the corpus that do not start a match. *)
Definition compl_rows (N : Z) (rows : list row) : list row :=
  position_row <$> filter (fun p => p ∉ r_start <$> rows) (seqZ 0 N).

(** An initial match list: corpus positions in order, no ends. *)
Definition initial (N : Z) (m : Matchlist) (rows : list row) : Prop :=
  repr m rows /\ ends m = None /\ ordered false rows /\ Forall (fun r => 0 <= r_start r < N) rows.

Lemma position_rows_start (l : list Z) : r_start <$> (position_row <$> l) = l.
Proof. rewrite <- list_fmap_compose. induction l as [|x l IH]; cbn; [done |]. by rewrite IH. Qed.

Lemma seqZ_sorted a n : StronglySorted Z.lt (seqZ a n).
Proof.
  destruct (Z.le_gt_cases n 0) as [H|H]; [rewrite seqZ_nil by done; constructor |].
  revert a. pattern n. apply natlike_ind; [| | lia].
  - intros a. rewrite seqZ_nil by done. constructor.
  - intros m Hm IH a. rewrite seqZ_cons by lia. replace (Z.pred (Z.succ m)) with m by lia.
    constructor; [apply IH |]. apply Forall_forall. intros p Hp%elem_of_seqZ. lia.
Qed.

Lemma sorted_filter (P : Z -> Prop) `{!forall x, Decision (P x)} l :
  StronglySorted Z.lt l -> StronglySorted Z.lt (filter P l).
Proof.
  induction l as [|x l IH]; [done |]. intros [Hs Hx]%StronglySorted_inv. rewrite filter_cons.
  case_decide; [| by apply IH]. constructor; [by apply IH |].
  rewrite Forall_forall in *. intros p [_ Hp]%list_elem_of_filter. by apply Hx.
Qed.

Lemma compl_rows_initial N m rows :
  repr m (compl_rows N rows) -> ends m = None -> initial N m (compl_rows N rows).
Proof.
  intros Hr He. split; [done |]. split; [done |]. unfold compl_rows. split.
  - rewrite ordered_false, position_rows_start. apply sorted_filter, seqZ_sorted.
  - apply Forall_forall. intros r (p & -> & [_ Hp%elem_of_seqZ]%list_elem_of_filter)%list_elem_of_fmap. cbn. lia.
Qed.

Section ComplementLoop.
Context (m : Matchlist) (rows : list row) (N : Z).
Hypothesis Hinit : initial N m rows.

Let starts := r_start <$> rows.

Definition complementing (k : Z) (st : Z * Z * list Z) : Prop :=
  let '(j, t, out) := st in
  exists written tail, out = written ++ tail /\ t = zlen written /\ zlen out = N - zlen rows /\
    written = filter (fun p => p ∉ starts) (seqZ 0 k) /\ 0 <= j <= zlen rows /\ zlen written = k - j /\
    Forall (fun p => p < k) (take (Z.to_nat j) starts) /\ Forall (fun p => k <= p) (drop (Z.to_nat j) starts).

Lemma starts_sorted : StronglySorted Z.lt starts.
Proof. destruct Hinit as (_ & _ & H & _). by apply ordered_false in H. Qed.

Lemma starts_length : zlen starts = zlen rows.
Proof. unfold zlen, starts. by rewrite length_fmap. Qed.

Lemma starts_range : Forall (fun p => 0 <= p < N) starts.
Proof. destruct Hinit as (_ & _ & _ & H). unfold starts. by apply Forall_fmap. Qed.

Lemma filter_next k : 0 <= k ->
  filter (fun p => p ∉ starts) (seqZ 0 (k + 1)) =
  filter (fun p => p ∉ starts) (seqZ 0 k) ++ (if decide (k ∉ starts) then [k] else []).
Proof. intros Hk. rewrite seqZ_app by lia. rewrite filter_app. reflexivity. Qed.

Lemma complement_round_ok k st :
  0 <= k < N -> complementing k st ->
  exists st', complement_round m k st = Ok st' /\ complementing (k + 1) st'.
Proof.
  destruct st as [[j t] out]. intros Hk (written & tail & -> & -> & Hlen & Hw & Hj & Hc & Hlt & Hge).
  pose proof Hinit as ([Hn Hr] & _). pose proof starts_sorted as Hss. pose proof starts_length as Hsl.
  assert (source m (Cols false false false) rows) as Hsrc by (apply repr_source; [apply Hinit | done]).
  assert (k ∉ starts -> zlen rows - j < N - k -> exists st',
    (o ← aset (written ++ tail) (zlen written) k; Ok (j, zlen written + 1, o)) = Ok st' /\ complementing (k + 1) st') as Htake.
  { intros Hnot Hroom. destruct tail as [|cell tail]; [rewrite app_nil_r in Hlen; lia |].
    rewrite aset_middle by done. res_cbn. eexists. split; [reflexivity |]. exists (written ++ [k]), tail.
    rewrite <- app_assoc. split; [done |]. split; [autorewrite with zlen; lia |].
    split; [autorewrite with zlen in *; lia |].
    split; [by rewrite filter_next, decide_True, <- Hw by (done || lia) |].
    split; [done |]. split; [autorewrite with zlen; lia |].
    split; rewrite Forall_forall in *; [intros p Hp; specialize (Hlt p Hp); lia |].
    intros p Hp. specialize (Hge p Hp). assert (p <> k); [| lia]. intros ->. apply Hnot.
    rewrite <- (take_drop (Z.to_nat j) starts). apply elem_of_app. by right. }
  unfold complement_round. rewrite Hn. destruct (Z.leb_spec (zlen rows) j) as [L|L]; res_cbn.
  { apply Htake; [| lia]. rewrite <- (take_drop (Z.to_nat j) starts), drop_end, app_nil_r by lia.
    rewrite Forall_forall in Hlt. intros Hin%Hlt. lia. }
  destruct (drop_next starts j) as (x & Hx & Dx); [lia |]. rewrite Dx in Hge. apply Forall_cons in Hge as [Hkx Hge].
  assert (StronglySorted Z.lt (x :: drop (Z.to_nat (j + 1)) starts)) as Hsx.
  { rewrite <- Dx. rewrite <- (take_drop (Z.to_nat j) starts) in Hss. by apply StronglySorted_app_1_r in Hss. }
  apply StronglySorted_inv in Hsx as [Hsx Hxlt].
  assert (oget (start m) j = Ok x) as Hget.
  { unfold starts in Hx. rewrite list_lookup_fmap in Hx. destruct (rows !! Z.to_nat j) as [r|] eqn:Er; [| done].
    injection Hx as <-. apply (source_start (Cols false false false) m rows j r); [done | lia | done]. }
  rewrite Hget. res_cbn. destruct (Z.ltb_spec k x) as [Lk|Lk].
  - apply Htake.
    + rewrite <- (take_drop (Z.to_nat j) starts), Dx, elem_of_app, elem_of_cons.
      rewrite Forall_forall in Hlt, Hxlt. intros [Hin%Hlt|[->|Hin%Hxlt]]; lia.
    + assert (zlen (drop (Z.to_nat j) starts) <= N - (k + 1)) as Hcount.
      * rewrite Dx. apply sorted_count; [by constructor | | lia]. pose proof starts_range as Hsr. rewrite <- (take_drop (Z.to_nat j) starts), Dx in Hsr.
        apply Forall_app in Hsr as [_ Hsr]. rewrite Forall_forall in *. intros p Hp. specialize (Hsr p Hp).
        apply elem_of_cons in Hp as [->|Hp]; [lia |]. specialize (Hxlt p Hp). lia.
      * unfold zlen in Hcount, Hsl. rewrite length_drop in Hcount. unfold zlen in *. lia.
  - assert (k = x) as -> by lia. rewrite Z.eqb_refl. eexists. split; [reflexivity |].
    exists written, tail. split; [done |]. split; [done |]. split; [done |].
    assert (x ∈ starts) as Hin by (rewrite <- (take_drop (Z.to_nat j) starts), Dx; apply elem_of_app; right; by left).
    split; [rewrite filter_next, decide_False, app_nil_r by (lia || (intros Hno; by apply Hno)); done |].
    split; [lia |]. split; [lia |].
    replace (Z.to_nat (j + 1)) with (S (Z.to_nat j)) in * by lia. rewrite (take_S_r _ _ x) by done. split.
    + apply Forall_app. split; [| by repeat constructor; lia]. eapply Forall_impl; [exact Hlt | intros; cbn in *; lia].
    + eapply Forall_impl; [exact Hxlt | intros; cbn in *; lia].
Qed.
End ComplementLoop.

Lemma complement_loop m rows N out :
  0 <= N -> initial N m rows -> zlen out = N - zlen rows ->
  exists st, for_up (complement_round m) 0 N (0, 0, out) = Ok st /\ complementing rows N N st.
Proof.
  intros HN Hi Hout. pose proof (zlen_nonneg rows).
  destruct (for_up_rule (complement_round m) (complementing rows N) 0 N (0, 0, out)) as (st & E & H'); [done | | | eauto].
  { intros k st Hk. by apply complement_round_ok. }
  { exists [], out. repeat (split; [done || lia || constructor |]).
    rewrite drop_0. apply Forall_forall. intros p Hp. destruct Hi as (_ & _ & _ & Hr).
    apply list_elem_of_fmap in Hp as (r & -> & Hp). rewrite Forall_forall in Hr. by apply Hr. }
Qed.

(** At the end of the loop the target has been filled. *)
Lemma complementing_end m rows N j t out :
  initial N m rows -> complementing rows N N (j, t, out) ->
  t = N - zlen rows /\ out = filter (fun p => p ∉ r_start <$> rows) (seqZ 0 N).
Proof.
  intros Hi (written & tail & -> & -> & Hlen & Hw & Hj & Hc & Hlt & Hge).
  pose proof (starts_range m rows N Hi) as Hr. pose proof (starts_length rows) as Hsl.
  assert (zlen (r_start <$> rows) <= j) as Hjn.
  { destruct (Z.le_gt_cases (zlen (r_start <$> rows)) j) as [|L]; [done |].
    destruct (drop_next (r_start <$> rows) j) as (x & Hx & Dx); [lia |]. rewrite Dx in Hge.
    apply Forall_cons in Hge as [Hge _]. apply list_elem_of_lookup_2 in Hx. rewrite Forall_forall in Hr.
    apply Hr in Hx. lia. }
  split; [lia |]. rewrite zlen_app in Hlen. pose proof (zlen_nonneg tail).
  assert (tail = []) as -> by (apply zlen_0_nil; lia). by rewrite app_nil_r.
Qed.

Lemma initial_count N m rows : 0 <= N -> initial N m rows -> zlen rows <= N.
Proof.
  intros HN Hi. pose proof (sorted_count _ 0 N (starts_sorted m rows N Hi) (starts_range m rows N Hi) HN) as H.
  rewrite (starts_length rows) in H. lia.
Qed.

(** The loop that fills in the whole corpus. *)
Lemma fill_loop n g :
  0 <= n -> zlen g = n -> for_up (fun k l => aset l k k) 0 n g = Ok (seqZ 0 n).
Proof.
  intros Hn Hg.
  destruct (for_up_rule (fun k l => aset l k k)
    (fun k l => exists tail, l = seqZ 0 k ++ tail /\ zlen l = n) 0 n g) as (l & -> & tail & -> & Hl); [done | | |].
  - intros k l Hk (tail & -> & Hl). rewrite zlen_app in Hl. unfold zlen in Hl at 1. rewrite length_seqZ in Hl.
    destruct tail as [|cell tail]; [rewrite zlen_nil in Hl; lia |].
    rewrite aset_middle by (unfold zlen; rewrite length_seqZ; lia). eexists. split; [reflexivity |].
    exists tail. rewrite (seqZ_app 0 k 1), <- app_assoc by lia. split; [done |].
    rewrite zlen_app, zlen_cons in *. unfold zlen at 1. rewrite length_seqZ. lia.
  - exists g. by rewrite seqZ_nil.
  - rewrite zlen_app in Hl. unfold zlen in Hl at 1. rewrite length_seqZ in Hl.
    rewrite (zlen_0_nil tail) by lia. by rewrite app_nil_r.
Qed.

Lemma repr_positions l (m : Matchlist) :
  start m = Some l -> ends m = None -> target_positions m = None -> keyword_positions m = None ->
  tabsize m = zlen l -> repr m (position_row <$> l).
Proof.
  intros H1 H2 H3 H4 H5. split; [by rewrite H5; unfold zlen; rewrite length_fmap |]. right. exists [].
  unfold columns, cols_of, column. rewrite H1, H2, H3, H4. cbn. by rewrite app_nil_r, position_rows_start.
Qed.

Lemma setop_complement_ok garbage N m rows :
  (forall n, 0 <= n -> zlen (garbage n) = n) -> 0 <= N <= INT_MAX ->
  initial N m rows -> is_inverted m = false ->
  exists m', setop_complement garbage (Some N) m = Ok (1, m') /\ initial N m' (compl_rows N rows) /\ is_inverted m' = false.
Proof.
  intros Hg HN Hi Hinv. pose proof Hi as ([Hn _] & He & _). pose proof (initial_count N m rows (proj1 HN) Hi) as Hle.
  pose proof (zlen_nonneg rows). unfold setop_complement. rewrite He, Hinv, Hn, c_int_Ok by (unfold INT_MIN; lia). res_cbn.
  destruct (complement_loop m rows N (garbage (N - zlen rows))) as ([[j t] out] & Eloop & Hend); [lia | done | rewrite Hg; lia |].
  pose proof (complementing_end m rows N j t out Hi Hend) as [-> Hout].
  assert (zlen out = N - zlen rows) as Hlen by (by destruct Hend as (? & ? & _ & _ & ? & _)).
  rewrite (proj2 (Z.ltb_ge _ _)) by lia. destruct (Z.eqb_spec (N - zlen rows) 0) as [Ez|Ez].
  { eexists. split; [reflexivity |]. split; [| done]. apply compl_rows_initial; [| done].
    unfold compl_rows. rewrite <- Hout, (zlen_0_nil out) by lia. split; [done |]. left. by repeat split. }
  destruct (Z.eqb_spec (N - zlen rows) N) as [En|En].
  - rewrite fill_loop by (rewrite ?Hg; lia). res_cbn. eexists. split; [reflexivity |]. split; [| done].
    apply compl_rows_initial; [| done]. assert (rows = []) as -> by (apply zlen_0_nil; lia).
    rewrite En. unfold compl_rows. change (r_start <$> []) with (@nil Z).
    assert (forall l : list Z, filter (fun p => p ∉ []) l = l) as Hall.
    { intros l. induction l as [|x l IH]; [done |]. rewrite filter_cons, decide_True, IH; [done | apply not_elem_of_nil]. }
    rewrite Hall. apply repr_positions; try done. cbn. unfold zlen. rewrite length_seqZ. lia.
  - rewrite Eloop. res_cbn. rewrite Z.eqb_refl. res_cbn. eexists. split; [reflexivity |]. split; [| done].
    apply compl_rows_initial; [| done]. unfold compl_rows. rewrite <- Hout. by apply repr_positions.
Qed.

(** ** Initial match lists as sets of positions *)

(** Whether a match list stands for a set with the position in it. *)
Definition ml_matches (m : Matchlist) (p : Z) : bool :=
  xorb (is_inverted m) (bool_decide (p ∈ take (Z.to_nat (tabsize m)) (default [] (start m)))).

(** What each operation means for membership in the two sets. *)
Definition membership (op : MLSetOp) (a b : bool) : bool :=
  match op with
  | Union => a || b
  | Intersection => a && b
  | Complement => negb a
  | Identity => b
  | Uniq | Reduce => a
  end.

Definition is_initial (N : Z) (m : Matchlist) : Prop := exists rows, initial N m rows.

Lemma repr_starts m rows : repr m rows -> take (Z.to_nat (tabsize m)) (default [] (start m)) = r_start <$> rows.
Proof.
  intros [-> [[-> (-> & _)]|(rest & -> & _)]]; [done |]. cbn. unfold zlen.
  rewrite Nat2Z.id, fmap_app, take_app_le by (rewrite length_fmap; lia). apply take_ge. by rewrite length_fmap.
Qed.

Lemma initial_matches N m rows p :
  initial N m rows -> ml_matches m p = xorb (is_inverted m) (bool_decide (p ∈ r_start <$> rows)).
Proof. intros (Hr & _). unfold ml_matches. by rewrite (repr_starts m rows Hr). Qed.

Lemma key_starts (p : Z) (rows : list row) : (p, 0) ∈ key false <$> rows <-> p ∈ r_start <$> rows.
Proof.
  rewrite !list_elem_of_fmap. split; intros (r & E & Hr); exists r; [by injection E as -> | by rewrite E].
Qed.

Lemma live_nonneg N rows : Forall (fun r => 0 <= r_start r < N) rows -> live rows = rows.
Proof.
  induction 1 as [|x rows Hx _ IH]; [done |]. rewrite live_cons, IH, decide_True; [done | lia].
Qed.

Lemma uniq_ordered he prev rows :
  ordered he rows -> (forall y, prev = Some y -> Forall (klt (key he y)) (key he <$> rows)) -> uniq_rows he prev rows = rows.
Proof.
  revert prev. induction rows as [|x rows IH]; intros prev Ho Hp; cbn [uniq_rows]; [done |].
  apply ordered_inv in Ho as [Ho Hx]. rewrite decide_False.
  - by rewrite IH; [| | intros y [= <-]].
  - destruct prev as [y|]; [| done]. intros [= E1 E2]. specialize (Hp y eq_refl).
    apply Forall_cons in Hp as [Hp _]. apply (klt_irrefl (key he x)). unfold key in *. by rewrite E1, E2 in Hp.
Qed.

(** A set of the model, given by its flag. *)
Lemma xorb_matches N m rows inv p :
  initial N m rows -> is_inverted m = inv -> ml_matches m p = xorb inv (bool_decide (p ∈ r_start <$> rows)).
Proof. intros H <-. by apply (initial_matches N). Qed.

Section Algebra.
Context (garbage : Z -> list Z) (realloc0 : option (list Z)) (N : Z).
Hypothesis garbage_length : forall n, 0 <= n -> zlen (garbage n) = n.
Hypothesis corpus_bound : 0 <= N /\ 2 * N <= INT_MAX.

Let run := Setop_at garbage realloc0 (Some N).

(** The call returns 1 with an initial list in list1 that has the matches [f]. *)
Definition computes (o : res (Z * Matchlist * Matchlist)) (f : Z -> bool) : Prop :=
  exists m m', o = Ok (1, m, m') /\ is_initial N m /\ is_initial N m' /\
    forall p, 0 <= p < N -> ml_matches m p = f p.

Lemma computes_ext o f g : computes o f -> (forall p, 0 <= p < N -> f p = g p) -> computes o g.
Proof.
  intros (m & m' & -> & H1 & H2 & H) E. exists m, m'. repeat split; try done. intros p Hp. by rewrite H, E.
Qed.

Lemma initial_union c rows1 rows2 m m1 m2 :
  initial N m1 rows1 -> initial N m2 rows2 -> repr m (union_rows c rows1 rows2) -> ends m = None -> has_end c = false ->
  initial N m (union_rows c rows1 rows2) /\
  forall p, p ∈ r_start <$> union_rows c rows1 rows2 <-> p ∈ r_start <$> rows1 \/ p ∈ r_start <$> rows2.
Proof.
  intros (_ & _ & O1 & F1) (_ & _ & O2 & F2) Hr He Hc. unfold union_rows in *. rewrite Hc in *.
  rewrite (live_nonneg N rows1), (live_nonneg N rows2) in * by done. split.
  - split; [done |]. split; [done |]. split; [by apply merge_ordered |].
    rewrite Forall_forall in *. intros r Hr'. apply merge_rows in Hr' as []; auto.
  - intros p. by rewrite <- !key_starts, merge_elem.
Qed.

Lemma union_merge_computes m1 m2 rows1 rows2 :
  initial N m1 rows1 -> initial N m2 rows2 ->
  exists m, union_merge garbage realloc0 m1 m2 = Ok m /\ is_initial N m /\ is_inverted m = false /\
    forall p, ml_matches m p = bool_decide (p ∈ r_start <$> rows1) || bool_decide (p ∈ r_start <$> rows2).
Proof.
  intros I1 I2. pose proof (initial_count N m1 rows1 (proj1 corpus_bound) I1). pose proof (initial_count N m2 rows2 (proj1 corpus_bound) I2).
  destruct (union_merge_ok garbage realloc0 garbage_length m1 m2 rows1 rows2 (proj1 I1) (proj1 I2) _ eq_refl)
    as (m & E & Hr & ((Hw & _) & _) & _ & Hinv); [lia |].
  assert (has_end (both (cols_of m1) (cols_of m2)) = false) as Hc by (cbn; by rewrite (proj1 (proj2 I1))).
  assert (ends m = None) as He.
  { destruct (ends m) eqn:Em; [| done]. cbn in Hw, Hc. rewrite Em, Hc in Hw. by discriminate Hw. }
  destruct (initial_union _ _ _ m m1 m2 I1 I2 Hr He Hc) as [Hi Hp]. exists m. split; [done |]. split; [by eexists |].
  split; [done |]. intros p. rewrite (xorb_matches N m _ false p Hi Hinv), xorb_false_l.
  rewrite <- bool_decide_or. by apply bool_decide_ext.
Qed.

Lemma intersection_merge_computes m1 m2 rows1 rows2 :
  initial N m1 rows1 -> initial N m2 rows2 ->
  exists m, intersection_merge garbage realloc0 m1 m2 = Ok m /\ is_initial N m /\ is_inverted m = false /\
    forall p, ml_matches m p = bool_decide (p ∈ r_start <$> rows1) && bool_decide (p ∈ r_start <$> rows2).
Proof.
  intros I1 I2. pose proof (initial_count N m1 rows1 (proj1 corpus_bound) I1). pose proof (initial_count N m2 rows2 (proj1 corpus_bound) I2).
  destruct (intersection_merge_ok garbage realloc0 garbage_length m1 m2 rows1 rows2 (proj1 I1) (proj1 I2) _ eq_refl)
    as (m & E & Hr & (Hw & _) & _ & Hinv); [lia | lia |].
  assert (has_end (both (cols_of m1) (cols_of m2)) = false) as Hc by (cbn; by rewrite (proj1 (proj2 I1))).
  assert (ends m = None) as He.
  { destruct (ends m) eqn:Em; [| done]. cbn in Hw, Hc. rewrite Em, Hc in Hw. by discriminate Hw. }
  destruct I1 as (R1 & E1 & O1 & F1), I2 as (R2 & E2 & O2 & F2). unfold inter_rows in Hr. rewrite Hc in Hr.
  assert (initial N m (inter false rows1 rows2)) as Hi.
  { split; [done |]. split; [done |]. split; [by apply inter_ordered |].
    rewrite Forall_forall in *. intros r Hr'. by eapply F1, inter_rows_sub. }
  exists m. split; [done |]. split; [by eexists |].
  split; [done |]. intros p. rewrite (xorb_matches N m _ false p Hi Hinv), xorb_false_l.
  rewrite <- bool_decide_and. apply bool_decide_ext. by rewrite <- !key_starts, inter_elem.
Qed.

Lemma empty_initial : initial N empty_list [].
Proof. split; [split; [done |]; left; by repeat split |]. repeat split; constructor. Qed.

Lemma identity_computes m1 m2 d :
  is_initial N m2 -> computes (run (S d) m1 Identity m2) (ml_matches m2).
Proof.
  intros [rows I2]. unfold run; cbn [Setop_at].
  destruct (setop_identity_ok m2 rows (proj1 I2)) as (m & -> & Hr & Hc & Hinv). res_cbn.
  assert (initial N m rows) as Hi.
  { split; [done |]. split; [| apply I2]. unfold cols_of in Hc. injection Hc as Hc _ _.
    rewrite (proj1 (proj2 I2)) in Hc. by destruct (ends m). }
  exists m, m2. split; [done |]. split; [by eexists |]. split; [by eexists |].
  intros p _. by rewrite (initial_matches N m rows), (initial_matches N m2 rows), Hinv.
Qed.

(** The flag is the only field that [set_inverted] changes. *)
Lemma set_inverted_initial m rows b : initial N m rows -> initial N (set_inverted m b) rows.
Proof. done. Qed.

Lemma intersection_plain m1 m2 rows1 rows2 d :
  initial N m1 rows1 -> initial N m2 rows2 -> is_inverted m1 = false -> is_inverted m2 = false ->
  exists m, run (S d) m1 Intersection m2 = Ok (1, m, m2) /\ is_initial N m /\ is_inverted m = false /\
    forall p, ml_matches m p = bool_decide (p ∈ r_start <$> rows1) && bool_decide (p ∈ r_start <$> rows2).
Proof.
  intros I1 I2 V1 V2. unfold run; cbn [Setop_at]. rewrite V1, V2, !andb_false_r, (proj1 (proj1 I1)), (proj1 (proj1 I2)).
  destruct ((zlen rows1 =? 0) || (zlen rows2 =? 0)) eqn:Ez.
  - eexists. split; [reflexivity |]. split; [eexists; apply empty_initial |]. split; [done |]. intros p.
    apply orb_true_iff in Ez as [Ez%Z.eqb_eq%zlen_0_nil|Ez%Z.eqb_eq%zlen_0_nil]; rewrite Ez; cbn; by rewrite ?andb_false_r.
  - destruct (intersection_merge_computes m1 m2 rows1 rows2 I1 I2) as (m & -> & H). res_cbn. by exists m.
Qed.

Lemma complement_plain m rows d m2 :
  initial N m rows -> is_inverted m = false ->
  exists m' rows', run (S d) m Complement m2 = Ok (1, m', m2) /\ initial N m' rows' /\ is_inverted m' = false /\
    forall p, 0 <= p < N -> bool_decide (p ∈ r_start <$> rows') = negb (bool_decide (p ∈ r_start <$> rows)).
Proof.
  intros I V. unfold run; cbn [Setop_at].
  destruct (setop_complement_ok garbage N m rows garbage_length) as (m' & -> & Hi & Hv); [lia | done | done |].
  res_cbn. exists m', (compl_rows N rows). split; [done |]. split; [done |]. split; [done |]. intros p Hp.
  unfold compl_rows. rewrite position_rows_start, <- bool_decide_not. apply bool_decide_ext.
  rewrite list_elem_of_filter, elem_of_seqZ. split; [tauto |]. intros. split; [done | lia].
Qed.

Lemma complement_computes m1 m2 d :
  is_initial N m1 -> is_initial N m2 -> computes (run (S d) m1 Complement m2) (fun p => negb (ml_matches m1 p)).
Proof.
  intros [rows1 I1] I2. destruct (is_inverted m1) eqn:V1.
  - unfold run; cbn [Setop_at]. unfold setop_complement. rewrite (proj1 (proj2 I1)), V1. res_cbn.
    exists (set_inverted m1 false), m2. split; [done |]. split; [by exists rows1 |]. split; [done |]. intros p _.
    rewrite (xorb_matches N m1 rows1 true p), (xorb_matches N (set_inverted m1 false) rows1 false p) by done.
    by destruct (bool_decide _).
  - destruct (complement_plain m1 rows1 d m2 I1 V1) as (m' & rows' & E & Hi & Hv & Hp). exists m', m2.
    split; [done |]. split; [by exists rows' |]. split; [done |]. intros p Hr.
    rewrite (xorb_matches N m' rows' false p), (xorb_matches N m1 rows1 false p) by done. by rewrite !xorb_false_l, Hp.
Qed.

Lemma no_start m rows : initial N m rows -> start m = None -> rows = [].
Proof. intros ([_ [[-> _]|(rest & -> & _)]] & _); done. Qed.

(** An inverted list is replaced by its complement before a union. *)
Lemma uninvert m rows d :
  initial N m rows ->
  exists m' rows', (if is_inverted m then
      r ← run (S d) (set_inverted m false) Complement init_matchlist; Ok r.1.2 else Ok m) = Ok m' /\
    initial N m' rows' /\ forall p, 0 <= p < N -> bool_decide (p ∈ r_start <$> rows') = ml_matches m p.
Proof.
  intros I. destruct (is_inverted m) eqn:V.
  - destruct (complement_plain (set_inverted m false) rows d init_matchlist) as (m' & rows' & -> & Hi & _ & Hp); [done | done |].
    res_cbn. exists m', rows'. split; [done |]. split; [done |]. intros p Hr. rewrite Hp by done.
    by rewrite (xorb_matches N m rows true p).
  - exists m, rows. split; [done |]. split; [done |]. intros p _. by rewrite (xorb_matches N m rows false p).
Qed.

Lemma union_computes m1 m2 d :
  is_initial N m1 -> is_initial N m2 ->
  computes (run (S (S d)) m1 Union m2) (fun p => ml_matches m1 p || ml_matches m2 p).
Proof.
  intros [rows1 I1] [rows2 I2].
  assert (forall m rows p, initial N m rows -> start m = None -> ml_matches m p = is_inverted m) as Hnull.
  { intros m rows p I E. rewrite (initial_matches N m rows p I), (no_start m rows I E). by destruct (is_inverted m). }
  unfold run. cbn [Setop_at]. destruct (start m2) as [s2|] eqn:E2.
  2: { destruct (is_inverted m2) eqn:V2.
       - eapply computes_ext; [apply (identity_computes m1 m2 d); by exists rows2 |]. intros p _. cbn.
         by rewrite (Hnull m2 rows2 p I2 E2), V2, orb_true_r.
       - exists m1, m2. split; [done |]. split; [by exists rows1 |]. split; [by exists rows2 |]. intros p _.
         by rewrite (Hnull m2 rows2 p I2 E2), V2, orb_false_r. }
  destruct (start m1) as [s1|] eqn:E1.
  2: { destruct (is_inverted m1) eqn:V1.
       - exists m1, m2. split; [done |]. split; [by exists rows1 |]. split; [by exists rows2 |]. intros p _.
         by rewrite (Hnull m1 rows1 p I1 E1), V1.
       - eapply computes_ext; [apply (identity_computes m1 m2 d); by exists rows2 |]. intros p _. cbn.
         by rewrite (Hnull m1 rows1 p I1 E1), V1. }
  destruct (is_inverted m1 && is_inverted m2) eqn:V.
  - apply andb_true_iff in V as [V1 V2].
    destruct (intersection_plain (set_inverted m1 false) (set_inverted m2 false) rows1 rows2 d) as (m & E & [rows Hi] & Hv & Hp); try done.
    unfold run in E; cbn [Setop_at] in E. rewrite E. res_cbn. exists (set_inverted m true), (set_inverted m2 false).
    split; [done |]. split; [by exists rows |]. split; [by exists rows2 |]. intros p _.
    specialize (Hp p). rewrite (xorb_matches N m rows false p) in Hp by done.
    rewrite (xorb_matches N _ rows true p), (xorb_matches N m1 rows1 true p), (xorb_matches N m2 rows2 true p) by done.
    rewrite xorb_false_l in Hp. rewrite Hp. by repeat destruct (bool_decide _).
  - destruct (uninvert m1 rows1 d I1) as (n1 & rws1 & Eu1 & J1 & P1).
    destruct (uninvert m2 rows2 d I2) as (n2 & rws2 & Eu2 & J2 & P2).
    unfold run in Eu1, Eu2; cbn [Setop_at] in Eu1, Eu2. rewrite Eu1. res_cbn. rewrite Eu2. res_cbn.
    destruct (union_merge_computes n1 n2 rws1 rws2 J1 J2) as (m & -> & Hi & Hv & Hp). res_cbn.
    exists m, n2. split; [done |]. split; [done |]. split; [by exists rws2 |]. intros p Hr. by rewrite Hp, P1, P2.
Qed.

Lemma intersection_computes m1 m2 d :
  is_initial N m1 -> is_initial N m2 -> is_inverted m1 = is_inverted m2 \/ tabsize m1 = 0 \/ tabsize m2 = 0 ->
  computes (run (S (S d)) m1 Intersection m2) (fun p => ml_matches m1 p && ml_matches m2 p).
Proof.
  intros [rows1 I1] [rows2 I2] Hmix.
  assert (forall m rows p, initial N m rows -> tabsize m = 0 -> ml_matches m p = is_inverted m) as Hnull.
  { intros m rows p I E. rewrite (proj1 (proj1 I)) in E. apply zlen_0_nil in E. rewrite (initial_matches N m rows p I), E. by destruct (is_inverted m). }
  destruct (is_inverted m1) eqn:V1, (is_inverted m2) eqn:V2.
  4: { destruct (intersection_plain m1 m2 rows1 rows2 (S d) I1 I2 V1 V2) as (m & E & Hi & _ & Hp). exists m, m2.
       split; [done |]. split; [done |]. split; [by exists rows2 |]. intros p _.
       by rewrite Hp, (xorb_matches N m1 rows1 false p), (xorb_matches N m2 rows2 false p). }
  all: unfold run; cbn [Setop_at]; rewrite V1, V2, ?andb_true_r, ?andb_false_r.
  all: destruct (Z.eqb_spec (tabsize m1) 0) as [Z1|Z1]; cbn [orb].
  1,3: eapply computes_ext; [apply (identity_computes m1 m2 d); by exists rows2 | intros p _; cbn; by rewrite (Hnull m1 rows1 p I1 Z1), V1].
  all: destruct (Z.eqb_spec (tabsize m2) 0) as [Z2|Z2].
  all: try (exists m1, m2; split; [done |]; split; [by exists rows1 |]; split; [by exists rows2 |]; intros p _;
    rewrite (Hnull m2 rows2 p I2 Z2), V2, andb_true_r; done).
  all: try (eexists _, m2; split; [reflexivity |]; split; [eexists; apply empty_initial |]; split; [by exists rows2 |]; intros p _;
    (rewrite (Hnull m2 rows2 p I2 Z2), V2, andb_false_r || rewrite (Hnull m1 rows1 p I1 Z1), V1, andb_false_l); done).
  - assert (start m1 <> None /\ start m2 <> None) as [S1 S2].
    { split; intros Es; [apply Z1; rewrite (proj1 (proj1 I1)), (no_start m1 rows1 I1 Es) | apply Z2; rewrite (proj1 (proj1 I2)), (no_start m2 rows2 I2 Es)]; done. }
    cbn [andb]. cbn [set_inverted start is_inverted]. destruct (start m2) as [s2|] eqn:E2; [| done]. destruct (start m1) as [s1|] eqn:E1; [| done].
    cbn [andb]. res_cbn.
    destruct (union_merge_computes (set_inverted m1 false) (set_inverted m2 false) rows1 rows2) as (m & E & [rows Hi] & Hv & Hp); try done.
    unfold set_inverted in E. rewrite E1, E2 in E. unfold set_inverted. rewrite ?E1, ?E2, E. res_cbn.
    exists (set_inverted m true), (set_inverted m2 false).
    split; [by unfold set_inverted; rewrite E2 |]. split; [by exists rows |]. split; [by exists rows2 |]. intros p _.
    specialize (Hp p). rewrite (xorb_matches N m rows false p) in Hp by done.
    rewrite (xorb_matches N _ rows true p), (xorb_matches N m1 rows1 true p), (xorb_matches N m2 rows2 true p) by done.
    rewrite xorb_false_l in Hp. rewrite Hp. by repeat destruct (bool_decide _).
  - destruct Hmix as [|[|]]; [done .. |]; done.
  - destruct Hmix as [|[|]]; [done .. |]; done.
Qed.
End Algebra.

(** ** The properties *)

(** C22. On initial match lists Setop is set algebra: for lists of distinct corpus
    positions in order, either of which may be inverted, every operation returns
    1 and leaves in list1 an initial list that stands for the union, the
    intersection, the complement of list1, a copy of list2, or (Uniq and Reduce)
    the same set.  Excluded is only the intersection of a list with an inverted
    one when neither is empty, which the code gets wrong. *)
Theorem setop_set_algebra garbage realloc0 N op m1 m2 :
  (forall n, 0 <= n -> zlen (garbage n) = n) -> 0 <= N /\ 2 * N <= INT_MAX ->
  is_initial N m1 -> is_initial N m2 ->
  (op = Intersection -> is_inverted m1 = is_inverted m2 \/ tabsize m1 = 0 \/ tabsize m2 = 0) ->
  exists m m2', Setop garbage realloc0 (Some N) m1 op m2 = Ok (1, m, m2') /\
    is_initial N m /\ is_initial N m2' /\
    forall p, 0 <= p < N -> ml_matches m p = membership op (ml_matches m1 p) (ml_matches m2 p).
Proof.
  intros Hg HN I1 I2 Hmix. unfold Setop. destruct op; cbn [membership].
  - by apply (union_computes garbage realloc0 N Hg HN m1 m2 1).
  - by apply (intersection_computes garbage realloc0 N Hg HN m1 m2 1); [| | apply Hmix].
  - by apply (complement_computes garbage realloc0 N Hg HN m1 m2 2).
  - by apply (identity_computes garbage realloc0 N m1 m2 2).
  - destruct I1 as [rows (Hr & He & Ho & Hf)].
    destruct (setop_uniq_ok garbage realloc0 m1 rows Hr) as (m & E & Hrm & Hc & _ & Hinv).
    assert (has_end (cols_of m1) = false) as Hend by (cbn; by rewrite He).
    rewrite Hend, uniq_ordered in * by done. cbn [Setop_at]. rewrite E. res_cbn.
    assert (initial N m rows) as Hi.
    { split; [done |]. split; [| done]. unfold cols_of in Hc. injection Hc as Hc _ _. rewrite He in Hc. by destruct (ends m). }
    exists m, m2. split; [done |]. split; [by exists rows |]. split; [done |]. intros p _.
    by rewrite (initial_matches N m rows), (initial_matches N m1 rows), Hinv.
  - destruct I1 as [rows (Hr & He & Ho & Hf)].
    destruct (setop_reduce_ok garbage realloc0 m1 rows Hr) as (m & E & Hrm & ((Hw & _) & _) & _ & Hinv).
    rewrite (live_nonneg N rows) in * by done. cbn [Setop_at]. rewrite E. res_cbn.
    assert (initial N m rows) as Hi.
    { split; [done |]. split; [| done]. cbn in Hw. rewrite He in Hw. destruct (ends m); [by discriminate Hw | done]. }
    exists m, m2. split; [done |]. split; [by exists rows |]. split; [done |]. intros p _.
    by rewrite (initial_matches N m rows), (initial_matches N m1 rows), Hinv.
Qed.

(** C32. Union and Intersection of match lists with ends (and target and keyword
    positions): the result has the rows of the reference merge of both lists,
    without the deleted matches for Union; if both lists are in order of start and
    end, so is the result, and its ranges are the union (the intersection) of the
    ranges of both. *)
Theorem setop_ranges garbage realloc0 corpus_size m1 m2 rows1 rows2 :
  (forall n, 0 <= n -> zlen (garbage n) = n) -> repr m1 rows1 -> repr m2 rows2 ->
  start m1 <> None -> start m2 <> None -> is_inverted m1 = false -> is_inverted m2 = false ->
  0 < zlen rows1 -> 0 < zlen rows2 -> zlen rows1 + zlen rows2 <= INT_MAX ->
  let he := is_some (ends m1) && is_some (ends m2) in
  (exists m, Setop garbage realloc0 corpus_size m1 Union m2 = Ok (1, m, m2) /\
     repr m (merge he (live rows1) (live rows2)) /\
     (ordered he (live rows1) -> ordered he (live rows2) ->
      ordered he (merge he (live rows1) (live rows2)) /\
      forall k, k ∈ key he <$> merge he (live rows1) (live rows2) <->
        k ∈ key he <$> live rows1 \/ k ∈ key he <$> live rows2)) /\
  (exists m, Setop garbage realloc0 corpus_size m1 Intersection m2 = Ok (1, m, m2) /\
     repr m (inter he rows1 rows2) /\
     (ordered he rows1 -> ordered he rows2 ->
      ordered he (inter he rows1 rows2) /\
      forall k, k ∈ key he <$> inter he rows1 rows2 <-> k ∈ key he <$> rows1 /\ k ∈ key he <$> rows2)).
Proof.
  intros Hg R1 R2 S1 S2 V1 V2 N1 N2 Hn he. split.
  - destruct (union_merge_ok garbage realloc0 Hg m1 m2 rows1 rows2 R1 R2 _ eq_refl Hn) as (m & E & Hr & _).
    exists m. split; [| split; [exact Hr |]].
    + unfold Setop; cbn [Setop_at]. destruct (start m2); [| done]. destruct (start m1); [| done].
      rewrite V1, V2. cbn [andb]. rewrite !bind_Ok. rewrite E. by res_cbn.
    + intros O1 O2. split; [by apply merge_ordered |]. intros k. apply merge_elem.
  - destruct (intersection_merge_ok garbage realloc0 Hg m1 m2 rows1 rows2 R1 R2 _ eq_refl) as (m & E & Hr & _); [lia .. |].
    exists m. split; [| split; [exact Hr |]].
    + unfold Setop; cbn [Setop_at]. rewrite V1, V2, !andb_false_r, (proj1 R1), (proj1 R2).
      rewrite (proj2 (Z.eqb_neq _ _)), (proj2 (Z.eqb_neq _ _)) by lia. cbn [orb]. rewrite E. by res_cbn.
    + intros O1 O2. split; [by apply inter_ordered |]. intros k. by apply inter_elem.
Qed.

(** C37. Setop returns: for any two lists, well formed or not, with any contents of
    their arrays, the recursion and the loops come to an end, with a result or in
    a fault (an access outside an array, a failed assertion), never by the bound on
    the loops or on the depth of the calls. *)
Theorem setop_returns garbage realloc0 corpus_size m1 op m2 :
  tabsize m1 <= INT_MAX -> tabsize m2 <= INT_MAX ->
  Setop garbage realloc0 corpus_size m1 op m2 <> Err OutOfFuel.
Proof. intros H1 H2. eapply halts_not_fuel. by apply Setop_halts. Qed.

(** ** Witnesses *)

Definition some_garbage (n : Z) : list Z := replicate (Z.to_nat n) (-7).

Lemma some_garbage_length n : 0 <= n -> zlen (some_garbage n) = n.
Proof. intros H. unfold some_garbage. rewrite zlen_replicate. lia. Qed.

Definition positions (l : list Z) (inv : bool) : Matchlist := mkML (Some l) None None None (zlen l) false inv.

Lemma positions_initial N l inv :
  StronglySorted Z.lt l -> Forall (fun p => 0 <= p < N) l -> is_initial N (positions l inv).
Proof.
  intros Hs Hf. exists (position_row <$> l). split; [by apply repr_positions |]. split; [done |].
  rewrite ordered_false, position_rows_start. split; [done |]. by apply Forall_fmap.
Qed.

Lemma setop_set_algebra_witness :
  exists m m2', Setop some_garbage None (Some 5) (positions [1; 3] false) Union (positions [0; 3] true) = Ok (1, m, m2') /\
    is_initial 5 m /\ is_initial 5 m2' /\
    forall p, 0 <= p < 5 -> ml_matches m p =
      membership Union (ml_matches (positions [1; 3] false) p) (ml_matches (positions [0; 3] true) p).
Proof.
  apply (setop_set_algebra some_garbage None 5 Union).
  - apply some_garbage_length.
  - unfold INT_MAX. lia.
  - apply positions_initial; repeat first [lia | constructor].
  - apply positions_initial; repeat first [lia | constructor].
  - discriminate.
Defined.

Definition ranges (l : list (Z * Z)) : Matchlist :=
  mkML (Some l.*1) (Some l.*2) None None (zlen l) false false.

Definition range_rows (l : list (Z * Z)) : list row := (fun p => Row p.1 p.2 0 0) <$> l.

Lemma ranges_repr l : repr (ranges l) (range_rows l).
Proof.
  split; [by unfold range_rows, zlen; rewrite length_fmap |]. right. exists []. rewrite app_nil_r.
  unfold columns, range_rows; cbn. rewrite <- !list_fmap_compose. done.
Qed.

Lemma setop_ranges_witness :
  let he := is_some (ends (ranges [(1, 4); (2, 2)])) && is_some (ends (ranges [(1, 3); (1, 4)])) in
  let rows1 := range_rows [(1, 4); (2, 2)] in let rows2 := range_rows [(1, 3); (1, 4)] in
  (exists m, Setop some_garbage None None (ranges [(1, 4); (2, 2)]) Union (ranges [(1, 3); (1, 4)]) =
       Ok (1, m, ranges [(1, 3); (1, 4)]) /\
     repr m (merge he (live rows1) (live rows2)) /\
     (ordered he (live rows1) -> ordered he (live rows2) ->
      ordered he (merge he (live rows1) (live rows2)) /\
      forall k, k ∈ key he <$> merge he (live rows1) (live rows2) <->
        k ∈ key he <$> live rows1 \/ k ∈ key he <$> live rows2)) /\
  (exists m, Setop some_garbage None None (ranges [(1, 4); (2, 2)]) Intersection (ranges [(1, 3); (1, 4)]) =
       Ok (1, m, ranges [(1, 3); (1, 4)]) /\
     repr m (inter he rows1 rows2) /\
     (ordered he rows1 -> ordered he rows2 ->
      ordered he (inter he rows1 rows2) /\
      forall k, k ∈ key he <$> inter he rows1 rows2 <-> k ∈ key he <$> rows1 /\ k ∈ key he <$> rows2)).
Proof.
  apply (setop_ranges some_garbage None None (ranges [(1, 4); (2, 2)]) (ranges [(1, 3); (1, 4)])
    (range_rows [(1, 4); (2, 2)]) (range_rows [(1, 3); (1, 4)])).
  - apply some_garbage_length.
  - apply ranges_repr.
  - apply ranges_repr.
  - discriminate.
  - discriminate.
  - reflexivity.
  - reflexivity.
  - reflexivity.
  - reflexivity.
  - vm_compute. discriminate.
Defined.

Lemma setop_returns_witness :
  Setop some_garbage None (Some 9) (mkML (Some []) None None None 7 false true) Union (ranges [(1, 3)]) <> Err OutOfFuel.
Proof. apply setop_returns; vm_compute; discriminate. Defined.

(** The ranges of the example, computed. *)
Example union_of_ranges :
  Setop some_garbage None None (ranges [(1, 4); (2, 2)]) Union (ranges [(1, 3); (1, 4)]) =
  Ok (1, ranges [(1, 3); (1, 4); (2, 2)], ranges [(1, 3); (1, 4)]).
Proof. reflexivity. Qed.

(** An inverted list in an intersection is taken for a list that is not: the
    intersection of {1, 2} with the complement of {2} should be {1}. *)
Example intersection_with_inverted_wrong :
  Setop some_garbage None (Some 5) (positions [1; 2] false) Intersection (positions [2] true) =
  Ok (1, positions [2] false, positions [2] true).
Proof. reflexivity. Qed.

(** ** What a result satisfies, if there is one *)
Definition gives {A} (P : A -> Prop) (m : res A) : Prop := forall a, m = Ok a -> P a.

Lemma gives_Ok {A} (P : A -> Prop) a : P a -> gives P (Ok a).
Proof. by intros H b [= <-]. Qed.

Lemma gives_Err {A} (P : A -> Prop) f : gives P (Err f).
Proof. by intros b. Qed.

Lemma gives_bind {A B} (P : A -> Prop) (Q : B -> Prop) (m : res A) (k : A -> res B) : gives P m -> (forall a, P a -> gives Q (k a)) -> gives Q (m ≫= k).
Proof. intros Hm Hk b (a & E & Eb)%bind_Ok_inv. by apply (Hk a); [apply Hm |]. Qed.

Lemma gives_any {A} (m : res A) : gives (fun _ => True) m.
Proof. done. Qed.

Lemma gives_for_up {S} (body : Z -> S -> res S) (P : S -> Prop) lo hi s : (forall i s, P s -> gives P (body i s)) -> P s -> gives P (for_up body lo hi s).
Proof.
  intros Hb. unfold for_up. generalize (Z.to_nat (hi - lo)). intros n. revert lo s. induction n as [|n IH]; intros lo s Hs; cbn [for_n]; [by apply gives_Ok |].
  eapply gives_bind; [by apply Hb |]. intros t Ht. by apply IH.
Qed.

Lemma gives_loop {S R} (step : S -> res (S + R)) (I : S -> Prop) (Q : R -> Prop) p s :
  (forall s, I s -> gives (fun r => match r with inl t => I t | inr r => Q r end) (step s)) -> I s -> gives Q (loop step p s).
Proof.
  intros Hs HI r E. apply (loop_returned step I Q) with (p := p) (s := s); [| | done | done].
  - intros t t' Ht Et. exact (Hs t Ht _ Et).
  - intros t r' Ht Et. exact (Hs t Ht _ Et).
Qed.

(** The next computation of a sequence, with or without what it gives. *)
Ltac gives_skip := eapply gives_bind; [apply gives_any |]; intros ? _.

(** ** Arrays *)
Definition sized (n : Z) (a : option (list Z)) : Prop := forall l, a = Some l -> zlen l = n.

Definition arrays (n : Z) (m : Matchlist) : Prop := sized n (start m) /\ sized n (ends m) /\ sized n (target_positions m) /\ sized n (keyword_positions m).

Definition exact (m : Matchlist) : Prop := arrays (tabsize m) m.

Lemma sized_None n : sized n None.
Proof. done. Qed.

Lemma sized_Some n l : zlen l = n -> sized n (Some l).
Proof. by intros H k [= <-]. Qed.

Lemma oset_sized n a i v : sized n a -> gives (sized n) (oset a i v).
Proof.
  intros Ha. unfold oset. destruct a as [l|]; [| apply gives_Err]. cbn [deref]. rewrite bind_Ok. intros b (l' & (_ & ->)%aset_Ok_inv & [= <-])%bind_Ok_inv.
  apply sized_Some. rewrite zlen_insert. by apply Ha.
Qed.

Lemma copy_cell_sized n a k s i : sized n a -> gives (sized n) (copy_cell a k s i).
Proof. intros Ha. destruct a as [l|]; [| by apply gives_Ok]. unfold copy_cell. gives_skip. by apply oset_sized. Qed.

Lemma copy_item_arrays n tmp k src i : arrays n tmp -> gives (fun m => arrays n m /\ tabsize m = tabsize tmp) (copy_item tmp k src i).
Proof.
  intros (H1 & H2 & H3 & H4). unfold copy_item. gives_skip. eapply gives_bind; [by apply oset_sized |]. intros s Hs.
  eapply gives_bind; [by apply copy_cell_sized |]. intros e He. eapply gives_bind; [by apply copy_cell_sized |]. intros t Ht.
  eapply gives_bind; [by apply copy_cell_sized |]. intros w Hw. by apply gives_Ok.
Qed.

Section Sizes.
Context (garbage : Z -> list Z) (realloc0 : option (list Z)) (corpus_size : option Z).
Hypothesis (Hgarbage : forall n, 0 <= n -> zlen (garbage n) = n) (Hrealloc : sized 0 realloc0).

Lemma cl_realloc_sized a k : 0 <= k -> gives (sized k) (cl_realloc garbage realloc0 a k).
Proof.
  intros Hk. unfold cl_realloc. destruct (Z.eqb_spec k 0) as [->|]; [by apply gives_Ok |]. gives_skip. destruct (Z.ltb_spec (zlen a0) k) as [Hlt|Hge]; apply gives_Ok, sized_Some.
  - rewrite zlen_app, Hgarbage by lia. lia.
  - unfold zlen in *. rewrite length_take. lia.
Qed.

Lemma shrink_all_arrays m k : 0 <= k -> gives (arrays k) (shrink_all garbage realloc0 m k).
Proof.
  intros Hk. unfold shrink_all. eapply gives_bind; [by apply cl_realloc_sized |]. intros s Hs.
  assert (forall a, gives (sized k) (shrink garbage realloc0 a k)) as Hsh by (intros [l|]; [by apply cl_realloc_sized | by apply gives_Ok]).
  eapply gives_bind; [apply Hsh |]. intros e He. eapply gives_bind; [apply Hsh |]. intros t Ht. eapply gives_bind; [apply Hsh |]. intros w Hw. by apply gives_Ok.
Qed.

Lemma empty_exact : exact empty_list.
Proof. by repeat split. Qed.

Lemma install_exact m k : arrays k m -> exact (install m k).
Proof. done. Qed.

Lemma exact_inverted m b : exact m -> exact (set_inverted m b).
Proof. done. Qed.

Lemma exact_plain s n whole inv : zlen s = n -> exact (mkML (Some s) None None None n whole inv).
Proof. intros Hs. split; [by apply sized_Some |]. done. Qed.

Lemma tmp_arrays_sized m1 m2 n : 0 <= n -> arrays n (tmp_arrays garbage m1 m2 n).
Proof.
  intros Hn. assert (forall a b, sized n (alloc_both garbage a b n)) as Ha by (intros [a|] [b|]; try done; apply sized_Some; by apply Hgarbage).
  split; [apply sized_Some; by apply Hgarbage |]. split; [apply Ha |]. split; apply Ha.
Qed.

(** ** The operations *)
Definition merge_inv (n : Z) (st : Z * Z * Z * Matchlist) : Prop := let '(_, _, k, tmp) := st in 0 <= k /\ arrays n tmp.
Definition merge_end (n : Z) (r : Z * Matchlist) : Prop := 0 <= r.1 /\ arrays n r.2.

Lemma copied n tmp k src i (i' j' : Z) : 0 <= k -> arrays n tmp -> gives (fun r => match r with inl st => merge_inv n st | inr r => merge_end n r end)
  (t ← copy_item tmp k src i; Ok (inl (i', j', k + 1, t))).
Proof. intros Hk Ht. eapply gives_bind; [by apply copy_item_arrays |]. intros t [Ha _]. apply gives_Ok. split; [lia | done]. Qed.

Lemma union_round_sized n m1 m2 st : merge_inv n st -> gives (fun r => match r with inl st => merge_inv n st | inr r => merge_end n r end) (Matchlist.union_round m1 m2 st).
Proof.
  destruct st as [[[i j] k] tmp]. intros [Hk Ht]. unfold Matchlist.union_round. destruct (_ || _); [| by apply gives_Ok]. gives_skip. case_match; [by apply gives_Ok |].
  gives_skip. case_match; [by apply gives_Ok |]. gives_skip. case_match; [by apply copied |]. gives_skip. case_match; [by apply copied |].
  gives_skip. case_match; [by apply copied |]. gives_skip. gives_skip. case_match; by apply copied.
Qed.

Lemma intersection_round_sized n m1 m2 st : merge_inv n st -> gives (fun r => match r with inl st => merge_inv n st | inr r => merge_end n r end) (intersection_round m1 m2 st).
Proof.
  destruct st as [[[i j] k] tmp]. intros [Hk Ht]. unfold intersection_round. destruct (_ && _); [| by apply gives_Ok]. gives_skip. gives_skip. case_match; [by apply gives_Ok |].
  case_match; [by apply gives_Ok |]. gives_skip. case_match; [by apply copied |]. gives_skip. gives_skip. case_match; by apply gives_Ok.
Qed.

Lemma shrunk_lists n k tmp : 0 <= k <= n -> arrays n tmp -> gives (fun t => exact (install t k)) (if k <? n then shrink_all garbage realloc0 tmp k else Ok tmp).
Proof.
  intros Hk Ht. destruct (Z.ltb_spec k n) as [Hlt|Hge]; [by apply shrink_all_arrays; lia |]. apply gives_Ok, install_exact. by replace k with n by lia.
Qed.

Lemma union_merge_exact m1 m2 : gives exact (union_merge garbage realloc0 m1 m2).
Proof.
  unfold union_merge. gives_skip. eapply gives_bind with (P := fun t => 0 <= a /\ arrays a t).
  { unfold new_tmp. destruct (Z.ltb_spec a 0); [apply gives_Err |]. apply gives_Ok. split; [done | by apply tmp_arrays_sized]. }
  intros tmp [Ha Ht]. eapply gives_bind; [apply (gives_loop _ (merge_inv a) (merge_end a)); [intros st; apply union_round_sized | done] |].
  intros [k t] [Hk Hx]. cbn in Hk, Hx. eapply gives_bind with (P := fun _ => k <= a).
  { unfold c_assert. destruct (Z.leb_spec k a); [by apply gives_Ok | apply gives_Err]. }
  intros _ Hle. eapply gives_bind; [by apply shrunk_lists |]. intros u Hu. by apply gives_Ok.
Qed.

Lemma intersection_merge_exact m1 m2 : gives exact (intersection_merge garbage realloc0 m1 m2).
Proof.
  unfold intersection_merge. match goal with |- context [new_tmp garbage m1 m2 ?n] => set (a := n) end. eapply gives_bind with (P := fun t => 0 <= a /\ arrays a t).
  { unfold new_tmp. destruct (Z.ltb_spec a 0); [apply gives_Err |]. apply gives_Ok. split; [done | by apply tmp_arrays_sized]. }
  intros tmp [Ha Ht]. eapply gives_bind; [apply (gives_loop _ (merge_inv a) (merge_end a)); [intros st; apply intersection_round_sized | done] |].
  intros [k t] [Hk Hx]. cbn in Hk, Hx. eapply gives_bind with (P := fun _ => k <= a).
  { unfold c_assert. destruct (Z.leb_spec k a); [by apply gives_Ok | apply gives_Err]. }
  intros _ Hle. destruct (k =? 0); [by apply gives_Ok |]. eapply gives_bind; [by apply shrunk_lists |]. intros u Hu. by apply gives_Ok.
Qed.

Lemma in_place_exact (round : Z -> Z * Matchlist -> res (Z * Matchlist)) m : (forall i st, 0 <= st.1 -> arrays (tabsize m) st.2 -> tabsize st.2 = tabsize m ->
    gives (fun st' => 0 <= st'.1 /\ arrays (tabsize m) st'.2 /\ tabsize st'.2 = tabsize m) (round i st)) -> exact m ->
  gives (fun st => 0 <= st.1 /\ arrays (tabsize m) st.2 /\ tabsize st.2 = tabsize m) (for_up round 0 (tabsize m) (0, m)).
Proof. intros Hr Hm. apply gives_for_up; [| done]. intros i st (H1 & H2 & H3). by apply Hr. Qed.

Lemma kept_item n i ins m0 m : 0 <= ins -> arrays n m -> tabsize m = n -> gives (fun st => 0 <= st.1 /\ arrays n st.2 /\ tabsize st.2 = n)
  (m' ← copy_item m ins m0 i; Ok (ins + 1, m')).
Proof. intros Hi Ha Hn. eapply gives_bind; [by apply copy_item_arrays |]. intros t [Ht Et]. apply gives_Ok. cbn. rewrite Et. split; [lia | done]. Qed.

Lemma shrink_end ins n m : 0 <= ins -> arrays n m -> tabsize m = n ->
  gives exact (if negb (ins =? n) then m' ← shrink_all garbage realloc0 m ins; Ok (install m' ins) else Ok m).
Proof.
  intros Hi Ha Hn. destruct (negb (ins =? n)); [| apply gives_Ok; unfold exact; by rewrite Hn]. eapply gives_bind; [by apply shrink_all_arrays |]. intros t Ht. by apply gives_Ok.
Qed.

Lemma setop_reduce_exact m : exact m -> gives exact (setop_reduce garbage realloc0 m).
Proof.
  intros Hm. unfold setop_reduce. destruct (start m); [| by apply gives_Ok]. destruct (0 <? tabsize m); [| by apply gives_Ok].
  eapply gives_bind; [apply in_place_exact; [| done] |].
  - intros i [ins t] Hi Ha Hn. unfold reduce_round. gives_skip. destruct (negb _); [by apply kept_item | by apply gives_Ok].
  - intros [ins t] (Hi & Ha & Hn). cbn in Hi, Ha, Hn. destruct (ins =? 0); [by apply gives_Ok |]. by apply shrink_end.
Qed.

Lemma setop_uniq_exact m : exact m -> gives exact (setop_uniq garbage realloc0 m).
Proof.
  intros Hm. unfold setop_uniq. destruct (start m); [| by apply gives_Ok]. destruct (0 <? tabsize m); [| by apply gives_Ok].
  eapply gives_bind; [apply in_place_exact; [| done] |].
  - intros i [ins t] Hi Ha Hn. unfold uniq_round. gives_skip. case_match; [by apply kept_item | by apply gives_Ok].
  - intros [ins t] (Hi & Ha & Hn). cbn in Hi, Ha, Hn. by apply shrink_end.
Qed.

Lemma setop_identity_exact m : gives exact (setop_identity m).
Proof.
  assert (forall a, gives (sized (tabsize m)) (copy_array a (tabsize m))) as Hc.
  { intros [l|]; [| by apply gives_Ok]. cbn. destruct (Z.ltb_spec (tabsize m) 0), (Z.ltb_spec (zlen l) (tabsize m)); try apply gives_Err. apply gives_Ok, sized_Some.
    unfold zlen in *. rewrite length_take. lia. }
  unfold setop_identity. eapply gives_bind; [apply Hc |]. intros s Hs. eapply gives_bind; [apply Hc |]. intros e He. eapply gives_bind; [apply Hc |]. intros t Ht.
  eapply gives_bind; [apply Hc |]. intros w Hw. by apply gives_Ok.
Qed.

Lemma gives_aset_size n l i v : zlen l = n -> gives (fun l' : list Z => zlen l' = n) (aset l i v).
Proof. intros Hl l' (_ & ->)%aset_Ok_inv. by rewrite zlen_insert. Qed.

Lemma setop_complement_exact m : exact m -> gives (fun r => exact r.2) (setop_complement garbage corpus_size m).
Proof.
  intros Hm. unfold setop_complement. destruct (ends m); [by apply gives_Ok |]. destruct (is_inverted m); [by apply gives_Ok |]. destruct corpus_size as [i|]; [| by apply gives_Ok].
  gives_skip. destruct (Z.ltb_spec a 0); [apply gives_Err |]. destruct (a =? 0); [apply gives_Ok, empty_exact |]. destruct (a =? i).
  - eapply gives_bind; [apply (gives_for_up _ (fun l => zlen l = a)); [intros k l; apply gives_aset_size | by apply Hgarbage] |]. intros l Hl. by apply gives_Ok, exact_plain.
  - eapply gives_bind; [apply (gives_for_up _ (fun st => zlen st.2 = a)); [| by apply Hgarbage] |].
    + intros k [[j t] out] Ho. unfold complement_round. gives_skip. case_match.
      * eapply gives_bind; [by apply gives_aset_size |]. intros l Hl. by apply gives_Ok.
      * gives_skip. case_match; [by apply gives_Ok | apply gives_Err].
    + intros [[j t] out] Ho. gives_skip. by apply gives_Ok, exact_plain.
Qed.

Lemma Setop_at_exact d : forall m1 op m2, exact m1 -> exact m2 -> gives (fun r => exact r.1.2) (Setop_at garbage realloc0 corpus_size d m1 op m2).
Proof.
  induction d as [|d IH]; intros m1 op m2 H1 H2; cbn [Setop_at]; [apply gives_Err |]. destruct op.
  - destruct (start m2) as [s2|].
    + destruct (start m1) as [s1|].
      * destruct (_ && _).
        -- eapply gives_bind; [apply IH; by apply exact_inverted |]. intros [[? t] ?] Ht. by apply gives_Ok.
        -- gives_skip. gives_skip. eapply gives_bind; [apply union_merge_exact |]. intros t Ht. by apply gives_Ok.
      * destruct (is_inverted m1); [by apply gives_Ok | by apply IH].
    + destruct (is_inverted m2); [by apply IH | by apply gives_Ok].
  - destruct (_ && _); [by apply IH |]. destruct (_ && _); [by apply gives_Ok |]. destruct (_ || _); [apply gives_Ok, empty_exact |]. destruct (_ && _).
    + eapply gives_bind; [apply IH; by apply exact_inverted |]. intros [[? t] ?] Ht. by apply gives_Ok.
    + eapply gives_bind; [apply intersection_merge_exact |]. intros t Ht. by apply gives_Ok.
  - eapply gives_bind; [by apply setop_complement_exact |]. intros r Hr. by apply gives_Ok.
  - eapply gives_bind; [apply setop_identity_exact |]. intros r Hr. by apply gives_Ok.
  - eapply gives_bind; [by apply setop_uniq_exact |]. intros r Hr. by apply gives_Ok.
  - eapply gives_bind; [by apply setop_reduce_exact |]. intros r Hr. by apply gives_Ok.
Qed.

Lemma Setop_exact m1 op m2 r : exact m1 -> exact m2 -> Setop garbage realloc0 corpus_size m1 op m2 = Ok r -> exact r.1.2.
Proof. intros H1 H2. by apply Setop_at_exact. Qed.
End Sizes.
