(* ===== verification/Lexhash.v ===== *)
(** * Lexicon hashes: cl/lexhash.c

    A hash table from strings to entries with a frequency, an id and a payload.
    Each bucket is a linked list; the entries live in a heap and are relinked in
    place when the table grows.  Doubles are IEEE binary64 numbers, computed by
    the Standard Library's SpecFloat. *)

From Stdlib Require Import ZArith Lia SpecFloat.
From stdpp Require Import base tactics option list numbers gmap.
From S2P Require Import Prelude.

Open Scope Z_scope.

(** ** Doubles *)

Definition double : Type := spec_float.

Definition int_to_double (n : Z) : double := binary_normalize 53 1024 n 0 false.
Definition dmul (x y : double) : double := SFmul 53 1024 x y.
Definition ddiv (x y : double) : double := SFdiv 53 1024 x y.

(** [x > y], false if one of them is not a number. *)
Definition dgt (x y : double) : bool := SFltb y x.

(** [floor]. *)
Definition dfloor (x : double) : double :=
  match x with
  | S754_finite s m e => if 0 <=? e then x else int_to_double (Z.shiftr (cond_Zopp s (Zpos m)) (- e))
  | _ => x
  end.

(** The conversion [(int) x], which truncates. *)
Definition double_to_int (x : double) : res Z :=
  match x with
  | S754_zero _ => Ok 0
  | S754_finite s m e =>
      c_int (cond_Zopp s (if 0 <=? e then Zpos m * 2 ^ e else Zpos m / 2 ^ (- e)))
  | _ => Err IntOverflow
  end.

Definition DEFAULT_NR_OF_BUCKETS : Z := 250000.
Definition DEFAULT_FILLRATE_LIMIT : double := int_to_double 2.
Definition DEFAULT_FILLRATE_TARGET : double := ddiv (int_to_double 4) (int_to_double 10).
Definition MAX_BUCKETS : Z := 1000000007.

(** ** Primes and hash values *)

(** [for (i = 2; i*i <= n; i++)] *)
Definition is_prime_round (n i : Z) : res (Z + bool) :=
  sq ← c_int (i * i);
  if sq <=? n then
    r ← c_rem n i;
    if r =? 0 then Ok (inr false) else Ok (inl (i + 1))
  else Ok (inr true).

Definition is_prime (n : Z) : res bool := loop (is_prime_round n) fuel 2.

Definition find_prime_round (n : Z) : res (Z + Z) :=
  if 0 <? n then
    p ← is_prime n;
    if (p : bool) then Ok (inr n) else n ← c_int (n + 1); Ok (inl n)
  else Ok (inr 0).

Definition find_prime (n : Z) : res Z := loop find_prime_round fuel n.

(** A string is the list of its bytes, without the terminating NUL. *)
Definition hash_step (result c : Z) : Z := Z.lxor (Z.lxor (u32 (result * 33)) (Z.shiftr result 27)) c.

Definition hash_string (string : list Z) : Z := foldl hash_step 0 string.

(** ** Entries and the hash *)

Record payload := mkPayload { pointer : Z; numeric : double; integer : Z }.

Record entry := mkEntry { next : Z; freq : Z; id : Z; data : payload; key : list Z }.

(** The allocated entries; 0 is the NULL pointer. *)
Abbreviation heap := (gmap Z entry).

Definition hget (h : heap) (p : Z) : res entry :=
  match h !! p with Some e => Ok e | None => Err NullDeref end.

Definition set_next (e : entry) (p : Z) : entry := mkEntry p (freq e) (id e) (data e) (key e).

Definition set_freq (e : entry) (f : Z) : entry := mkEntry (next e) f (id e) (data e) (key e).

Section Lexhash.

(** The address of a new entry, and the type of cleanup functions. *)
Context (malloc : heap -> Z) {cleanup : Type}.

Record lexhash := mkLexhash {
  table : list Z;
  buckets : Z;
  next_id : Z;
  entries : Z;
  cleanup_func : option cleanup;
  auto_grow : bool;
  fillrate_limit : double;
  fillrate_target : double;
  iter_bucket : Z;
  iter_point : Z
}.

Definition cl_new_lexhash (b : Z) : res lexhash :=
  let b := if b <=? 0 then DEFAULT_NR_OF_BUCKETS else b in
  p ← find_prime b;
  Ok (mkLexhash (replicate (Z.to_nat p) 0) p 0 0 None true DEFAULT_FILLRATE_LIMIT DEFAULT_FILLRATE_TARGET (-1) 0).

(** Calls of cleanup functions are recorded with the entry they get. *)
Abbreviation cleanups := (list (cleanup * entry)).

Definition cl_delete_lexhash_entry (hash : lexhash) (p : Z) (st : heap * cleanups) : res (heap * cleanups) :=
  e ← hget st.1 p;
  let calls := match cleanup_func hash with Some f => st.2 ++ [(f, e)] | None => st.2 end in
  Ok (delete p st.1, calls).

(** [while (entry != NULL)] *)
Definition delete_round (hash : lexhash) (st : Z * (heap * cleanups)) : res (Z * (heap * cleanups) + heap * cleanups) :=
  let '(p, s) := st in
  if p =? 0 then Ok (inr s)
  else
    e ← hget s.1 p;
    s ← cl_delete_lexhash_entry hash p s;
    Ok (inl (next e, s)).

(** The argument may be NULL, but is then followed after the loops. *)
Definition cl_delete_lexhash (h : heap) (hash : option lexhash) : res (heap * cleanups) :=
  match hash with
  | None => Err NullDeref
  | Some hash =>
      for_up (fun i s => p ← aget (table hash) i; loop (delete_round hash) fuel (p, s)) 0 (buckets hash) (h, [])
  end.

Definition cl_lexhash_set_cleanup_function (hash : option lexhash) (func : option cleanup) : option lexhash :=
  match hash with
  | None => None
  | Some l => Some (mkLexhash (table l) (buckets l) (next_id l) (entries l) func (auto_grow l) (fillrate_limit l)
                      (fillrate_target l) (iter_bucket l) (iter_point l))
  end.

Definition cl_lexhash_auto_grow (hash : option lexhash) (flag : bool) : option lexhash :=
  match hash with
  | None => None
  | Some l => Some (mkLexhash (table l) (buckets l) (next_id l) (entries l) (cleanup_func l) flag (fillrate_limit l)
                      (fillrate_target l) (iter_bucket l) (iter_point l))
  end.

Definition min_target : double := ddiv (int_to_double 1) (int_to_double 100).

Definition cl_lexhash_auto_grow_fillrate (hash : option lexhash) (limit target : double) : option lexhash :=
  match hash with
  | None => None
  | Some l =>
      let t := if dgt target min_target then target else min_target in
      let least := dmul (int_to_double 2) t in
      Some (mkLexhash (table l) (buckets l) (next_id l) (entries l) (cleanup_func l) (auto_grow l)
              (if dgt limit least then limit else least) t (iter_bucket l) (iter_point l))
  end.

(** ** Growing *)

Definition set_table (l : lexhash) (t : list Z) (b : Z) : lexhash :=
  mkLexhash t b (next_id l) (entries l) (cleanup_func l) (auto_grow l) (fillrate_limit l) (fillrate_target l)
    (iter_bucket l) (iter_point l).

Definition set_auto_grow (l : lexhash) (flag : bool) : lexhash :=
  mkLexhash (table l) (buckets l) (next_id l) (entries l) (cleanup_func l) flag (fillrate_limit l) (fillrate_target l)
    (iter_bucket l) (iter_point l).

(** An entry is moved to its bucket in temp: the heap, temp's table and temp's
    number of entries. *)
Definition move_round (new_buckets : Z) (st : Z * (heap * list Z * Z)) : res (Z * (heap * list Z * Z) + heap * list Z * Z) :=
  let '(p, (h, t, n)) := st in
  if p =? 0 then Ok (inr (h, t, n))
  else
    e ← hget h p;
    let offset := hash_string (key e) mod new_buckets in
    head ← aget t offset;
    let h := <[p := set_next e head]> h in
    t ← aset t offset p;
    n ← c_int (n + 1);
    Ok (inl (next e, (h, t, n))).

(** The return value, the heap and the hash. *)
Definition cl_lexhash_check_grow (h : heap) (hash : lexhash) : res (Z * heap * lexhash) :=
  let old_buckets := buckets hash in
  let fill_rate := ddiv (int_to_double (entries hash)) (int_to_double old_buckets) in
  if auto_grow hash && dgt fill_rate (fillrate_limit hash) then
    let target_size := dfloor (ddiv (int_to_double (entries hash)) (fillrate_target hash)) in
    let too_big := dgt target_size (int_to_double MAX_BUCKETS) in
    let hash := if too_big then set_auto_grow hash false else hash in
    if too_big && dgt (int_to_double old_buckets) (ddiv target_size (int_to_double 2)) then Ok (0, h, hash)
    else
      let target_size := if too_big then int_to_double MAX_BUCKETS else target_size in
      new_buckets ← double_to_int target_size;
      temp ← cl_new_lexhash new_buckets;
      r ← for_up (fun idx s => p ← aget (table hash) idx; loop (move_round (buckets temp)) fuel (p, s))
            0 old_buckets (h, table temp, 0);
      let '(h, t, n) := r in
      _ ← c_assert (n =? entries hash);
      Ok (1, h, set_table hash t (buckets temp))
  else Ok (0, h, hash).

(** ** Lookup, insertion and deletion *)

Definition find_round (h : heap) (token : list Z) (p : Z) : res (Z + Z) :=
  if p =? 0 then Ok (inr 0)
  else
    e ← hget h p;
    if decide (key e = token) then Ok (inr p) else Ok (inl (next e)).

(** The entry and the offset of its bucket. *)
Definition cl_lexhash_find_i (h : heap) (hash : lexhash) (token : list Z) : res (Z * Z) :=
  _ ← c_assert (0 <? buckets hash);
  let offset := hash_string token mod buckets hash in
  p ← aget (table hash) offset;
  p ← loop (find_round h token) fuel p;
  Ok (p, offset).

Definition cl_lexhash_find (h : heap) (hash : lexhash) (token : list Z) : res Z :=
  r ← cl_lexhash_find_i h hash token; Ok r.1.

(** [while (insert_point->next != NULL)] *)
Definition last_round (h : heap) (p : Z) : res (Z + Z) :=
  e ← hget h p;
  if next e =? 0 then Ok (inr p) else Ok (inl (next e)).

Definition new_entry (n : Z) (token : list Z) : entry := mkEntry 0 1 n (mkPayload 0 (S754_zero false) 0) token.

Definition set_counts (l : lexhash) (n k : Z) : lexhash :=
  mkLexhash (table l) (buckets l) n k (cleanup_func l) (auto_grow l) (fillrate_limit l) (fillrate_target l)
    (iter_bucket l) (iter_point l).

(** Appending the entry to its bucket. *)
Definition insert_entry (h : heap) (hash : lexhash) (offset p : Z) : res (heap * lexhash) :=
  insert_point ← aget (table hash) offset;
  if insert_point =? 0 then
    t ← aset (table hash) offset p;
    Ok (h, set_table hash t (buckets hash))
  else
    q ← loop (last_round h) fuel insert_point;
    e ← hget h q;
    Ok (<[q := set_next e p]> h, hash).

Definition cl_lexhash_add (h : heap) (hash : lexhash) (token : list Z) : res (Z * heap * lexhash) :=
  r ← cl_lexhash_find_i h hash token;
  let '(p, offset) := r in
  if negb (p =? 0) then
    e ← hget h p;
    Ok (p, <[p := set_freq e (u32 (freq e + 1))]> h, hash)
  else
    let p := malloc h in
    let h := <[p := new_entry (next_id hash) token]> h in
    n ← c_int (next_id hash + 1);
    r ← insert_entry h hash offset p;
    let '(h, hash) := r in
    k ← c_int (entries hash + 1);
    let hash := set_counts hash n k in
    if auto_grow hash && dgt (int_to_double (entries hash)) (dmul (fillrate_limit hash) (int_to_double (buckets hash))) then
      r ← cl_lexhash_check_grow h hash;
      Ok (p, r.1.2, r.2)
    else Ok (p, h, hash).

Definition cl_lexhash_id (h : heap) (hash : lexhash) (token : list Z) : res Z :=
  r ← cl_lexhash_find_i h hash token;
  if r.1 =? 0 then Ok (-1) else e ← hget h r.1; Ok (id e).

(** The frequency is unsigned and returned as an [int]. *)
Definition cl_lexhash_freq (h : heap) (hash : lexhash) (token : list Z) : res Z :=
  r ← cl_lexhash_find_i h hash token;
  if r.1 =? 0 then Ok 0 else e ← hget h r.1; Ok (s32 (freq e)).

(** [while (previous->next != entry)] *)
Definition previous_round (h : heap) (p q : Z) : res (Z + Z) :=
  e ← hget h q;
  if next e =? p then Ok (inr q) else Ok (inl (next e)).

Definition unlink (h : heap) (hash : lexhash) (offset p : Z) : res (heap * lexhash) :=
  e ← hget h p;
  first ← aget (table hash) offset;
  if first =? p then
    t ← aset (table hash) offset (next e);
    Ok (h, set_table hash t (buckets hash))
  else
    q ← loop (previous_round h p) fuel first;
    d ← hget h q;
    Ok (<[q := set_next d (next e)]> h, hash).

Definition cl_lexhash_del (h : heap) (hash : lexhash) (token : list Z) : res (Z * heap * lexhash * cleanups) :=
  r ← cl_lexhash_find_i h hash token;
  let '(p, offset) := r in
  if p =? 0 then Ok (0, h, hash, [])
  else
    e ← hget h p;
    r ← unlink h hash offset p;
    let '(h, hash) := r in
    s ← cl_delete_lexhash_entry hash p (h, []);
    k ← c_int (entries hash - 1);
    Ok (s32 (freq e), s.1, set_counts hash (next_id hash) k, s.2).

Definition cl_lexhash_size (hash : option lexhash) : Z :=
  match hash with Some l => entries l | None => 0 end.

(** ** The iterator *)

Definition set_iter (l : lexhash) (b p : Z) : lexhash :=
  mkLexhash (table l) (buckets l) (next_id l) (entries l) (cleanup_func l) (auto_grow l) (fillrate_limit l)
    (fillrate_target l) b p.

Definition cl_lexhash_iterator_reset (hash : lexhash) : res lexhash :=
  _ ← c_assert (0 <? buckets hash);
  Ok (set_iter hash (-1) 0).

(** [while (point == NULL)]: the bucket and the entry, 0 at the end. *)
Definition iterator_round (hash : lexhash) (st : Z * Z) : res (Z * Z + Z * Z) :=
  let '(b, p) := st in
  if p =? 0 then
    b ← c_int (b + 1);
    if buckets hash <=? b then Ok (inr (b, 0))
    else p ← aget (table hash) b; Ok (inl (b, p))
  else Ok (inr (b, p)).

Definition cl_lexhash_iterator_next (h : heap) (hash : lexhash) : res (Z * lexhash) :=
  r ← loop (iterator_round hash) fuel (iter_bucket hash, iter_point hash);
  let '(b, p) := r in
  if p =? 0 then Ok (0, set_iter hash b (iter_point hash))
  else e ← hget h p; Ok (p, set_iter hash b (next e)).
End Lexhash.
