(* ===== verification/LexhashMap.v ===== *)
(** * Lexicon hashes: the operations on the representation

    [find_prime] (cl/lexhash.c) returns the next prime for every size a table can
    have, and the doubles in [cl_lexhash_check_grow] give a size that is one.

    A well-formed hash represents a finite map from strings to
    values.  Each operation keeps the hash well formed and changes the map as its
    name says; growing the table does not change it. *)

From Stdlib Require Import ZArith Lia SpecFloat Znumtheory.
From stdpp Require Import base tactics option list numbers gmap.
From S2P Require Import Prelude.
From S2P Require Import Lexhash.

Open Scope Z_scope.

(** ** Primes *)

(** What [is_prime] tests: 1 passes as well. *)
Definition no_divisor (n : Z) : Prop := forall i, 2 <= i -> i * i <= n -> n mod i <> 0.

Lemma is_prime_ok n : 1 <= n <= MAX_BUCKETS -> exists b : bool, is_prime n = Ok b /\ (b = true <-> no_divisor n).
Proof.
  intros Hn. unfold MAX_BUCKETS in Hn. unfold is_prime.
  apply (loop_rule (is_prime_round n) (fun i => 2 <= i <= 31624 /\ forall j, 2 <= j < i -> n mod j <> 0)
    (fun b => b = true <-> no_divisor n) (fun i => 31624 - i)).
  - intros i [Hi Hnot]. split; [lia |]. unfold is_prime_round.
    rewrite c_int_Ok by (unfold INT_MIN, INT_MAX; nia). res_cbn.
    destruct (Z.leb_spec (i * i) n) as [Hle|Hgt].
    + unfold c_rem. rewrite (proj2 (Z.eqb_neq i 0)) by lia.
      assert (is_int (Z.quot n i) = true) as ->.
      { apply is_int_spec. rewrite Z.quot_div_nonneg by lia. unfold INT_MIN, INT_MAX.
        pose proof (Z.div_pos n i). pose proof (Z.div_le_upper_bound n i n). nia. }
      res_cbn. rewrite Z.rem_mod_nonneg by lia. destruct (Z.eqb_spec (n mod i) 0) as [E|E].
      * right. eexists. split; [reflexivity |]. split; [done |]. intros Hd. by apply (Hd i) in E; [| lia |].
      * left. exists (i + 1). split; [done |]. assert (i <> 31624) by nia.
        split; [| lia]. split; [lia |]. intros j Hj. destruct (decide (j = i)) as [->|]; [done | apply Hnot; lia].
    + right. eexists. split; [reflexivity |]. split; [| done]. intros _ j Hj Hjj. apply Hnot. nia.
  - split; [lia |]. intros j Hj. lia.
  - rewrite fuel_val. lia.
Qed.

Lemma no_divisor_prime n : 1 < n -> no_divisor n <-> prime n.
Proof.
  intros Hn. split.
  - intros Hd. apply prime_alt. split; [done |]. intros d Hd1 [k Hk].
    destruct (Z.le_gt_cases (d * d) n).
    + apply (Hd d); [lia | done |]. rewrite Hk. apply Z.mod_mul. lia.
    + assert (2 <= k) by nia. apply (Hd k); [done | nia |]. rewrite Hk, Z.mul_comm. apply Z.mod_mul. lia.
  - intros Hp i Hi Hii Hmod. apply prime_alt in Hp as [_ Hp]. apply (Hp i); [nia |].
    apply Z.mod_divide; [lia | done].
Qed.

Lemma max_buckets_prime : is_prime MAX_BUCKETS = Ok true.
Proof. by vm_compute. Qed.

(** The smallest size that is at least [n] and passes the test; there is one up
    to the maximal size, so that the search ends without an overflow. *)
Lemma find_prime_ok n : 0 < n <= MAX_BUCKETS ->
  exists p, find_prime n = Ok p /\ n <= p <= MAX_BUCKETS /\ no_divisor p /\ forall q, n <= q < p -> ~ no_divisor q.
Proof.
  intros Hn. unfold find_prime.
  apply (loop_rule find_prime_round (fun m => n <= m <= MAX_BUCKETS /\ forall q, n <= q < m -> ~ no_divisor q)
    (fun p => n <= p <= MAX_BUCKETS /\ no_divisor p /\ forall q, n <= q < p -> ~ no_divisor q) (fun m => MAX_BUCKETS - m)).
  - intros m [Hm Hnot]. split; [lia |]. unfold find_prime_round. rewrite (proj2 (Z.ltb_lt 0 m)) by lia.
    destruct (is_prime_ok m) as (b & Eb & Hb); [lia |]. rewrite Eb. res_cbn. destruct b.
    + right. eexists. split; [reflexivity |]. split; [done |]. split; [by apply Hb | done].
    + left. exists (m + 1). assert (m <> MAX_BUCKETS).
      { intros ->. rewrite max_buckets_prime in Eb. discriminate. }
      rewrite c_int_Ok by (unfold INT_MIN, INT_MAX, MAX_BUCKETS in *; lia). split; [done |].
      split; [| lia]. split; [lia |]. intros q Hq. destruct (decide (q = m)) as [->|]; [| apply Hnot; lia].
      intros Hd. by apply Hb in Hd.
  - split; [lia |]. intros q Hq. lia.
  - rewrite fuel_val. unfold MAX_BUCKETS in *. lia.
Qed.

(** ** Doubles *)

(** Not negative, with a mantissa of at most 53 bits. *)
Definition nonneg_double (x : double) : Prop :=
  match x with
  | S754_zero _ | S754_infinity false => True
  | S754_finite false m _ => Zpos m < 2 ^ 53
  | _ => False
  end.

Lemma shr_1_half r : 0 <= shr_m r -> shr_m (shr_1 r) = shr_m r / 2.
Proof.
  destruct r as [[|[p|p|]|p] b s]; cbn; intros H; try done.
  - rewrite (Pos2Z.inj_xI p). Z.div_mod_to_equations; lia.
  - rewrite (Pos2Z.inj_xO p). Z.div_mod_to_equations; lia.
Qed.

Lemma iter_shr p r : 0 <= shr_m r -> shr_m (SpecFloat.iter_pos shr_1 p r) = shr_m r / 2 ^ Zpos p.
Proof.
  assert (forall a k, 0 <= a -> 0 <= k -> 0 <= a / 2 ^ k) as Hpos by (intros; apply Z.div_pos; lia).
  revert r. induction p as [p IH|p IH|]; intros r Hr; cbn [SpecFloat.iter_pos].
  - assert (0 <= shr_m (shr_1 r)) as H1 by (rewrite shr_1_half by done; apply Z.div_pos; lia).
    assert (0 <= shr_m (SpecFloat.iter_pos shr_1 p (shr_1 r))) as H2 by (rewrite IH by done; apply Hpos; lia).
    rewrite IH, IH, shr_1_half, !Z.div_div by (done || lia). f_equal.
    rewrite (Pos2Z.inj_xI p), Z.pow_add_r, Z.pow_1_r by lia.
    replace (2 * Zpos p) with (Zpos p + Zpos p) by lia. rewrite Z.pow_add_r by lia. lia.
  - assert (0 <= shr_m (SpecFloat.iter_pos shr_1 p r)) as H2 by (rewrite IH by done; apply Hpos; lia).
    rewrite IH, IH, Z.div_div by (done || lia). f_equal. rewrite (Pos2Z.inj_xO p).
    replace (2 * Zpos p) with (Zpos p + Zpos p) by lia. rewrite Z.pow_add_r by lia. lia.
  - by rewrite shr_1_half.
Qed.

Lemma shr_bound r e n : 0 <= shr_m r -> shr_m (fst (shr r e n)) = shr_m r / 2 ^ Z.max 0 n.
Proof.
  intros Hr. destruct n as [|p|p]; cbn; [| by rewrite iter_shr |]; by rewrite Z.div_1_r.
Qed.

Lemma digits_bound m : Zpos m < 2 ^ Zpos (digits2_pos m).
Proof.
  induction m as [m IH|m IH|]; cbn [digits2_pos]; [| | reflexivity];
    rewrite Pos2Z.inj_succ, Z.pow_succ_r by lia; lia.
Qed.

Lemma Zdigits_bound m : 0 <= m -> m < 2 ^ Zdigits2 m /\ 0 <= Zdigits2 m.
Proof. destruct m as [|m|m]; cbn [Zdigits2]; intros H; [done | split; [apply digits_bound | lia] | lia]. Qed.

Lemma shr_record_m m l : shr_m (shr_record_of_loc m l) = m.
Proof. by destruct l as [|[]]. Qed.

(** After the adjustment of the exponent the mantissa has at most 53 bits. *)
Lemma shr_fexp_bound m e l :
  0 <= m -> 0 <= shr_m (fst (shr_fexp 53 1024 m e l)) < 2 ^ 53.
Proof.
  intros Hm. unfold shr_fexp. rewrite shr_bound, shr_record_m by (by rewrite shr_record_m).
  destruct (Zdigits_bound m Hm) as [Hd Hd0]. set (d := Zdigits2 m) in *.
  set (n := fexp 53 1024 (d + e) - e). assert (d - 53 <= n) by (unfold n, fexp, emin; lia).
  split; [apply Z.div_pos; lia |]. apply Z.div_lt_upper_bound; [lia |].
  apply (Z.lt_le_trans _ (2 ^ d)); [done |]. rewrite <- Z.pow_add_r by lia. apply Z.pow_le_mono_r; lia.
Qed.

Lemma round_aux_nonneg m e l : 0 <= m -> nonneg_double (binary_round_aux 53 1024 false m e l).
Proof.
  intros Hm. unfold binary_round_aux.
  pose proof (shr_fexp_bound m e l Hm) as H1. destruct (shr_fexp 53 1024 m e l) as [r1 e1]. cbn [fst] in H1.
  assert (0 <= round_nearest_even (shr_m r1) (loc_of_shr_record r1)) as Hr.
  { unfold round_nearest_even. repeat case_match; lia. }
  pose proof (shr_fexp_bound _ e1 loc_Exact Hr) as H2.
  destruct (shr_fexp 53 1024 (round_nearest_even (shr_m r1) (loc_of_shr_record r1)) e1 loc_Exact) as [r2 e2].
  cbn [fst] in H2. destruct (shr_m r2) as [|m2|m2]; [done | | lia]. destruct (e2 <=? 1024 - 53); [apply H2 | done].
Qed.

Lemma int_to_double_nonneg n : 0 <= n -> nonneg_double (int_to_double n).
Proof.
  intros Hn. unfold int_to_double, binary_normalize. destruct n as [|n|n]; [done | | lia].
  unfold binary_round. destruct (shl_align n 0 _) as [mz ez]. by apply round_aux_nonneg.
Qed.

(** The target fill rate of a hash is a positive number. *)
Definition positive_double (x : double) : Prop :=
  match x with S754_finite false _ _ => True | _ => False end.

Lemma ddiv_nonneg x y : nonneg_double x -> positive_double y -> nonneg_double (ddiv x y).
Proof.
  destruct x as [s|[]| |[] mx ex], y as [s'|s'| |[] my ey]; try done. intros _ _. unfold ddiv, SFdiv.
  unfold SFdiv_core_binary.
  match goal with |- context [Z.div_eucl ?a ?b] => set (a' := a); pose proof (Z_div_mod a' b) as H end.
  assert (0 <= a') as Ha by (unfold a'; repeat case_match; try lia; apply Z.shiftl_nonneg; lia).
  destruct (Z.div_eucl a' (Zpos my)) as [q r]. destruct H as [H1 H2]; [lia |]. apply round_aux_nonneg. nia.
Qed.

Lemma dfloor_nonneg x : nonneg_double x -> nonneg_double (dfloor x).
Proof.
  destruct x as [s|[]| |[] m e]; try done. intros Hx. cbn [dfloor]. case_match; [done |].
  apply int_to_double_nonneg, Z.shiftr_nonneg. done.
Qed.

Lemma MAX_BUCKETS_double : int_to_double MAX_BUCKETS = S754_finite false 8388608058720256 (-23).
Proof. by vm_compute. Qed.

Lemma compare_cont_le c m : Pos.compare_cont Eq c m <> Lt -> (m <= c)%positive.
Proof. change (Pos.compare_cont Eq c m) with (c ?= m)%positive. intros H. apply Pos.ge_le. exact H. Qed.

(** A size that is not greater than the maximum can be cast to an [int]. *)
Lemma double_to_int_ok x :
  nonneg_double x -> dgt x (int_to_double MAX_BUCKETS) = false ->
  exists b, double_to_int x = Ok b /\ 0 <= b <= MAX_BUCKETS.
Proof.
  rewrite MAX_BUCKETS_double. destruct x as [s|[]| |[] m e]; try done; cbn [nonneg_double].
  - intros _ _. by exists 0.
  - intros Hm Hgt. unfold dgt, SFltb, SFcompare in Hgt. cbn [double_to_int cond_Zopp].
    assert (e <= -23 /\ Zpos m / 2 ^ (- e) <= MAX_BUCKETS) as [He Hb].
    { destruct (Z.compare_spec (-23) e) as [<-|L|L].
      - split; [lia |]. apply Z.div_le_upper_bound; [lia |]. unfold MAX_BUCKETS.
        apply (Z.le_trans _ 8388608058720256); [| by vm_compute].
        apply Pos2Z.pos_le_pos, compare_cont_le. intros E. by rewrite E in Hgt.
      - done.
      - split; [lia |]. apply Z.div_le_upper_bound; [lia |]. unfold MAX_BUCKETS.
        apply (Z.le_trans _ (2 ^ 53)); [lia |]. apply (Z.le_trans _ (2 ^ 24 * 1000000007)); [lia |].
        apply Z.mul_le_mono_nonneg_r; [lia |]. apply Z.pow_le_mono_r; lia. }
    rewrite (proj2 (Z.leb_gt 0 e)) by lia. assert (0 <= Zpos m / 2 ^ (- e)) by (apply Z.div_pos; lia).
    rewrite c_int_Ok by (unfold INT_MIN, INT_MAX, MAX_BUCKETS in *; lia). eauto.
Qed.

(** The number of buckets a table with [n] entries grows to. *)
Lemma grow_size_ok n target :
  0 <= n -> positive_double target ->
  let size := dfloor (ddiv (int_to_double n) target) in
  exists b, double_to_int (if dgt size (int_to_double MAX_BUCKETS) then int_to_double MAX_BUCKETS else size) = Ok b /\
    0 <= b <= MAX_BUCKETS.
Proof.
  intros Hn Ht size. assert (nonneg_double size) as Hs.
  { by apply dfloor_nonneg, ddiv_nonneg; [apply int_to_double_nonneg |]. }
  destruct (dgt size (int_to_double MAX_BUCKETS)) eqn:E; [| by apply double_to_int_ok].
  exists MAX_BUCKETS. split; [by vm_compute |]. done.
Qed.

Lemma default_target_positive : positive_double DEFAULT_FILLRATE_TARGET.
Proof. by vm_compute. Qed.

Lemma fillrate_positive {F} (hash hash' : @lexhash F) limit target :
  (forall s, target <> S754_infinity s) ->
  cl_lexhash_auto_grow_fillrate (Some hash) limit target = Some hash' -> positive_double (fillrate_target hash').
Proof.
  intros Hfin [= <-]. cbn [fillrate_target]. destruct (dgt target min_target) eqn:E; [| by vm_compute].
  assert (min_target = S754_finite false 5764607523034235 (-59)) as Em by by vm_compute.
  unfold dgt, SFltb, SFcompare in E. rewrite Em in E. destruct target as [s|s| |[] m e]; try done. by destruct (Hfin s).
Qed.

(** ** Linked lists in the heap *)

Fixpoint chain (h : heap) (p : Z) (l : list Z) : Prop :=
  match l with
  | [] => p = 0
  | q :: l => p = q /\ q <> 0 /\ exists e, h !! q = Some e /\ chain h (next e) l
  end.

Lemma hget_Ok h p e : h !! p = Some e -> hget h p = Ok e.
Proof. unfold hget. by intros ->. Qed.

Lemma chain_frame h h' p l :
  chain h p l -> (forall q e, q ∈ l -> h !! q = Some e -> exists e', h' !! q = Some e' /\ next e' = next e) -> chain h' p l.
Proof.
  revert p. induction l as [|q l IH]; intros p; cbn; [done |].
  intros (-> & Hq & e & He & Hc) Hf. split; [done |]. split; [done |].
  destruct (Hf q e) as (e' & He' & Hn); [by left | done |]. exists e'. rewrite Hn. split; [done |].
  apply IH; [done |]. intros r d Hr. apply Hf. by right.
Qed.

Lemma chain_insert h p l q e : chain h p l -> q ∉ l -> chain (<[q := e]> h) p l.
Proof.
  intros Hc Hq. apply (chain_frame h); [done |]. intros r d Hr Hd. exists d.
  rewrite lookup_insert_ne; [done | by intros ->].
Qed.

Lemma chain_delete h p l q : chain h p l -> q ∉ l -> chain (delete q h) p l.
Proof.
  intros Hc Hq. apply (chain_frame h); [done |]. intros r d Hr Hd. exists d.
  rewrite lookup_delete_ne; [done | by intros ->].
Qed.

Lemma chain_elem h p l q : chain h p l -> q ∈ l -> q <> 0 /\ exists e, h !! q = Some e.
Proof.
  revert p. induction l as [|r l IH]; intros p; cbn; [by intros _ ?%not_elem_of_nil |].
  intros (-> & Hr & e & He & Hc) [->|Hq]%elem_of_cons; [eauto | by apply (IH (next e))].
Qed.

(** The list behind an element. *)
Lemma chain_app h p l1 q l2 :
  chain h p (l1 ++ q :: l2) -> exists e, h !! q = Some e /\ q <> 0 /\ chain h (next e) l2 /\ chain h q (q :: l2).
Proof.
  revert p. induction l1 as [|r l1 IH]; intros p; cbn.
  - intros (-> & Hq & e & He & Hc). exists e. repeat split; try done. by exists e.
  - intros (-> & _ & e & _ & Hc). by apply (IH (next e)).
Qed.

(** Linking an element to another list: used to append and to unlink. *)
Lemma chain_relink h p l1 q d rest r l2 :
  chain h p (l1 ++ q :: rest) -> h !! q = Some d -> NoDup (l1 ++ [q]) -> chain h r l2 -> q ∉ l2 ->
  chain (<[q := set_next d r]> h) p (l1 ++ q :: l2).
Proof.
  revert p. induction l1 as [|x l1 IH]; intros p; cbn.
  - intros (-> & Hq & _) Hd _ Hl2 Hnot. split; [done |]. split; [done |].
    exists (set_next d r). rewrite lookup_insert_eq. split; [done |]. by apply chain_insert.
  - intros (-> & Hx & e & He & Hc) Hd [Hnx Hnd]%NoDup_cons Hl2 Hnot. split; [done |]. split; [done |].
    exists e. rewrite lookup_insert_ne; [split; [done | by apply IH] |].
    intros ->. apply Hnx, elem_of_app. right. by left.
Qed.

(** ** The table of buckets *)



Lemma join_insert (lists : list (list Z)) i l :
  lists !! i = Some l ->
  exists rest, mjoin lists ≡ₚ l ++ rest /\ forall l', mjoin (<[i := l']> lists) ≡ₚ l' ++ rest.
Proof.
  intros Hi. exists (mjoin (take i lists ++ drop (S i) lists)). split.
  - rewrite <- (take_drop_middle lists i l Hi) at 1. rewrite !join_app. cbn [mjoin list_join]. 
    rewrite app_assoc, (Permutation_app_comm _ l), <- app_assoc. done.
  - intros l'. rewrite insert_take_drop by (by apply lookup_lt_Some in Hi).
    rewrite !join_app. cbn [mjoin list_join]. rewrite app_assoc, (Permutation_app_comm _ l'), <- app_assoc. done.
Qed.

Record value := mkValue { v_freq : Z; v_id : Z; v_data : payload }.

Definition val_of (e : entry) : value := mkValue (freq e) (id e) (data e).

(** What an entry says, without its place in the table. *)
Definition content (e : entry) : list Z * value := (key e, val_of e).

Section Map.
Context (malloc : heap -> Z) {cleanup : Type}.
Hypothesis malloc_new : forall h, h !! malloc h = None /\ malloc h <> 0.

Abbreviation hash_t := (@lexhash cleanup).

Record wf (h : heap) (hash : hash_t) (lists : list (list Z)) : Prop := mkWf {
  wf_buckets : 0 < buckets hash <= MAX_BUCKETS;
  wf_size : zlen (table hash) = buckets hash;
  wf_chains : Forall2 (chain h) (table hash) lists;
  wf_nodup : NoDup (mjoin lists);
  wf_place : forall b l p e, lists !! b = Some l -> p ∈ l -> h !! p = Some e ->
    hash_string (key e) mod buckets hash = Z.of_nat b;
  wf_keys : forall p q e d, p ∈ mjoin lists -> q ∈ mjoin lists -> h !! p = Some e -> h !! q = Some d ->
    key e = key d -> p = q;
  wf_entries : entries hash = zlen (mjoin lists);
  wf_bound : entries hash <= INT_MAX;
  wf_target : positive_double (fillrate_target hash)
}.

(** The map that the entries in the table stand for. *)
Definition models (h : heap) (lists : list (list Z)) (M : gmap (list Z) value) : Prop :=
  forall k v, M !! k = Some v <-> exists p e, p ∈ mjoin lists /\ h !! p = Some e /\ content e = (k, v).

Definition represents (h : heap) (hash : hash_t) (M : gmap (list Z) value) : Prop :=
  exists lists, wf h hash lists /\ models h lists M /\ entries hash = Z.of_nat (size M).

Lemma wf_lookup h hash lists off :
  wf h hash lists -> 0 <= off < buckets hash ->
  exists p l, table hash !! Z.to_nat off = Some p /\ aget (table hash) off = Ok p /\
    lists !! Z.to_nat off = Some l /\ chain h p l.
Proof.
  intros W Hoff. destruct (aget_total (table hash) off) as (p & Ha & Hp); [rewrite (wf_size _ _ _ W); lia |].
  destruct (Forall2_lookup_l _ _ _ _ _ (wf_chains _ _ _ W) Hp) as (l & Hl & Hc). by exists p, l.
Qed.

Lemma bucket_elem (lists : list (list Z)) b l p : lists !! b = Some l -> p ∈ l -> p ∈ mjoin lists.
Proof. intros Hl Hp. apply list_elem_of_join. exists l. split; [done |]. by eapply list_elem_of_lookup_2. Qed.

Lemma elem_bucket (lists : list (list Z)) p : p ∈ mjoin lists -> exists b l, lists !! b = Some l /\ p ∈ l.
Proof. intros (l & Hp & (b & Hb)%list_elem_of_lookup_1)%list_elem_of_join. by exists b, l. Qed.

Lemma elem_heap h hash lists p : wf h hash lists -> p ∈ mjoin lists -> p <> 0 /\ exists e, h !! p = Some e.
Proof.
  intros W (b & l & Hl & Hp)%elem_bucket.
  destruct (Forall2_lookup_r _ _ _ _ _ (wf_chains _ _ _ W) Hl) as (q & _ & Hc). by apply (chain_elem h q l).
Qed.

Lemma bucket_length (lists : list (list Z)) b l : lists !! b = Some l -> zlen l <= zlen (mjoin lists).
Proof.
  intros Hl. destruct (join_insert lists b l Hl) as (rest & Hp & _). unfold zlen.
  rewrite (Permutation_length Hp), length_app. lia.
Qed.

Lemma bucket_nodup h hash lists b l : wf h hash lists -> lists !! b = Some l -> NoDup l.
Proof.
  intros W Hl. destruct (join_insert lists b l Hl) as (rest & Hp & _).
  pose proof (wf_nodup _ _ _ W) as Hnd. rewrite Hp in Hnd. by apply NoDup_app in Hnd as [? _].
Qed.

Lemma bucket_disjoint h hash lists b b' l l' q :
  wf h hash lists -> lists !! b = Some l -> lists !! b' = Some l' -> b' <> b -> q ∈ l -> q ∉ l'.
Proof.
  intros W Hl Hl' Hne Hq Hq'. pose proof (wf_nodup _ _ _ W) as Hnd.
  destruct (join_insert lists _ _ Hl) as (rest & Hperm & Hins). rewrite Hperm in Hnd.
  apply NoDup_app in Hnd as (_ & Hdis & _). apply (Hdis q Hq).
  specialize (Hins []). cbn in Hins. rewrite <- Hins. eapply bucket_elem; [| exact Hq'].
  by rewrite list_lookup_insert_ne.
Qed.

(** ** Lookup *)

Lemma chain_end h l : chain h 0 l -> l = [].
Proof. destruct l; [done |]. by intros (<- & Hz & _). Qed.

Lemma find_loop h token p l :
  chain h p l -> zlen l <= INT_MAX ->
  exists r, loop (find_round h token) fuel p = Ok r /\
    ((r = 0 /\ forall q e, q ∈ l -> h !! q = Some e -> key e <> token) \/
     (r ∈ l /\ r <> 0 /\ exists e, h !! r = Some e /\ key e = token)).
Proof.
  intros Hc Hl. eapply (loop_indexed _ (fun n q => exists l1 l2, l = l1 ++ l2 /\ chain h q l2 /\ n = zlen l2 /\
      forall r e, r ∈ l1 -> h !! r = Some e -> key e <> token)) with (n := zlen l).
  - intros n q (l1 & l2 & -> & Hq & -> & Hnot). split; [apply zlen_nonneg |]. unfold find_round.
    destruct l2 as [|x l2]; cbn in Hq.
    + right. exists 0. subst q. rewrite Z.eqb_refl. split; [done |]. left. split; [done |].
      rewrite app_nil_r. done.
    + destruct Hq as (-> & Hx & e & He & Hq). rewrite (proj2 (Z.eqb_neq x 0) Hx), (hget_Ok h x e He). res_cbn.
      case_decide as E.
      * right. exists x. split; [done |]. right. split; [apply elem_of_app; right; by left |]. eauto.
      * left. exists (next e), (zlen l2). split; [done |]. split; [| rewrite zlen_cons; lia].
        exists (l1 ++ [x]), l2. rewrite <- app_assoc. repeat split; [done |].
        intros r d [Hr|Hr%list_elem_of_singleton]%elem_of_app Hd; [by apply (Hnot r) |].
        subst r. rewrite He in Hd. by injection Hd as <-.
  - exists [], l. repeat split; [done |]. intros r e Hr. by apply not_elem_of_nil in Hr.
  - rewrite fuel_val. unfold INT_MAX in Hl. lia.
Qed.

Lemma hash_offset (hash : hash_t) token : 0 < buckets hash -> 0 <= hash_string token mod buckets hash < buckets hash.
Proof. intros. by apply Z.mod_pos_bound. Qed.

(** Lookup finds the entry of the token, and its bucket. *)
Lemma find_i_ok h hash lists M token :
  wf h hash lists -> models h lists M ->
  let off := hash_string token mod buckets hash in
  exists p l, cl_lexhash_find_i h hash token = Ok (p, off) /\ lists !! Z.to_nat off = Some l /\
    ((p = 0 /\ M !! token = None /\ forall q e, q ∈ mjoin lists -> h !! q = Some e -> key e <> token) \/
     (p ∈ l /\ p <> 0 /\ exists e, h !! p = Some e /\ key e = token /\ M !! token = Some (val_of e))).
Proof.
  intros W HM off. pose proof (wf_buckets _ _ _ W) as Hb. pose proof (hash_offset hash token (proj1 Hb)) as Hoff.
  destruct (wf_lookup h hash lists off W Hoff) as (p & l & _ & Ha & Hl & Hc).
  destruct (find_loop h token p l Hc) as (r & E & Hr).
  { pose proof (bucket_length lists _ l Hl). pose proof (wf_entries _ _ _ W). pose proof (wf_bound _ _ _ W). lia. }
  exists r, l. unfold cl_lexhash_find_i. rewrite (proj2 (Z.ltb_lt _ _) (proj1 Hb)). res_cbn. fold off. rewrite Ha. res_cbn.
  rewrite E. res_cbn. split; [done |]. split; [done |]. destruct Hr as [[-> Hnot]|(Hrl & Hr0 & e & He & Hk)].
  - left. assert (forall q e, q ∈ mjoin lists -> h !! q = Some e -> key e <> token) as Hall.
    { intros q e Hq He Hk. destruct (elem_bucket lists q Hq) as (b & lb & Hlb & Hqb).
      pose proof (wf_place _ _ _ W b lb q e Hlb Hqb He) as Hplace. rewrite Hk in Hplace. fold off in Hplace.
      assert (b = Z.to_nat off) as -> by lia. rewrite Hl in Hlb. injection Hlb as ->. by apply (Hnot q e). }
    split; [done |]. split; [| done]. apply eq_None_not_Some. intros [v Hv]. apply HM in Hv as (q & e & Hq & He & Hc').
    apply (Hall q e Hq He). by injection Hc'.
  - right. split; [done |]. split; [done |]. exists e. split; [done |]. split; [done |]. apply HM.
    exists r, e. split; [by eapply bucket_elem |]. split; [done |]. unfold content. by rewrite Hk.
Qed.

(** Changing the value of an entry, in place. *)
Lemma wf_update h hash lists p e e' :
  wf h hash lists -> h !! p = Some e -> next e' = next e -> key e' = key e -> wf (<[p := e']> h) hash lists.
Proof.
  intros W He Hn Hk.
  assert (forall q d, <[p := e']> h !! q = Some d -> exists d0, h !! q = Some d0 /\ key d0 = key d) as Hold.
  { intros q d. destruct (decide (q = p)) as [->|].
    - rewrite lookup_insert_eq. intros [= <-]. by exists e.
    - rewrite lookup_insert_ne by done. by exists d. }
  destruct W as [W1 W2 W3 W4 W5 W6 W7 W8 W9]. constructor; try done.
  - eapply Forall2_impl; [exact W3 |]. intros q l Hc. apply (chain_frame h); [done |]. intros r d Hr Hd.
    destruct (decide (r = p)) as [->|]; [| exists d; by rewrite lookup_insert_ne].
    exists e'. rewrite lookup_insert_eq. split; [done |]. rewrite He in Hd. by injection Hd as <-.
  - intros b l q d Hl Hq (d0 & Hd0 & <-)%Hold. by apply (W5 b l q).
  - intros q r d1 d2 Hq Hr (d0 & Hd0 & <-)%Hold (d3 & Hd3 & <-)%Hold. by apply W6.
Qed.

Lemma models_update h hash lists M p e e' :
  wf h hash lists -> models h lists M -> p ∈ mjoin lists -> h !! p = Some e -> key e' = key e ->
  models (<[p := e']> h) lists (<[key e := val_of e']> M).
Proof.
  intros W HM Hp He Hk k v. destruct (decide (k = key e)) as [->|Hne].
  - rewrite lookup_insert_eq. split.
    + intros [= <-]. exists p, e'. rewrite lookup_insert_eq. split; [done |]. split; [done |]. unfold content. by rewrite Hk.
    + intros (q & d & Hq & Hd & Hc). destruct (decide (q = p)) as [->|Hqp].
      * rewrite lookup_insert_eq in Hd. injection Hd as <-. unfold content in Hc. congruence.
      * rewrite lookup_insert_ne in Hd by done. injection Hc as Hkd _. exfalso. apply Hqp.
        by apply (wf_keys _ _ _ W q p d e).
  - rewrite lookup_insert_ne by done. rewrite (HM k v). split; intros (q & d & Hq & Hd & Hc); exists q, d; (split; [done |]).
    + split; [| done]. rewrite lookup_insert_ne; [done |]. intros <-. rewrite He in Hd. injection Hd as <-.
      unfold content in Hc. congruence.
    + split; [| done]. rewrite lookup_insert_ne in Hd; [done |]. intros <-. rewrite lookup_insert_eq in Hd.
      injection Hd as <-. unfold content in Hc. congruence.
Qed.

(** ** Insertion *)

Lemma content_key (h h' : heap) q e' :
  content <$> h' !! q = content <$> h !! q -> h' !! q = Some e' -> exists e, h !! q = Some e /\ key e = key e'.
Proof.
  intros Hc He'. rewrite He' in Hc. destruct (h !! q) as [e|]; [| done]. injection Hc as Hk _. by exists e.
Qed.

Lemma models_content h lists M :
  models h lists M <-> forall k v, M !! k = Some v <-> exists p, p ∈ mjoin lists /\ content <$> h !! p = Some (k, v).
Proof.
  split; intros H k v; rewrite (H k v); split.
  - intros (p & e & Hp & He & Hc). exists p. rewrite He. cbn. by rewrite Hc.
  - intros (p & Hp & (e & He & Hc)%fmap_Some). by exists p, e.
  - intros (p & Hp & (e & He & Hc)%fmap_Some). by exists p, e.
  - intros (p & e & Hp & He & Hc). exists p. rewrite He. cbn. by rewrite Hc.
Qed.

Lemma last_loop h p l0 q :
  chain h p (l0 ++ [q]) -> zlen (l0 ++ [q]) <= INT_MAX -> loop (last_round h) fuel p = Ok q.
Proof.
  intros Hc Hl.
  destruct (loop_indexed (last_round h) (fun n r => exists l1 l2, l0 ++ [q] = l1 ++ l2 /\ l2 <> [] /\ chain h r l2 /\ n = zlen l2)
    (fun r => r = q)) with (p := fuel) (n := zlen (l0 ++ [q])) (s := p) as (r & E & ->); [| | | done].
  - intros n r (l1 & l2 & E & Hne & Hr & ->). split; [apply zlen_nonneg |]. unfold last_round.
    destruct l2 as [|x l2]; [done |]. destruct Hr as (-> & Hx & e & He & Hr). rewrite (hget_Ok h x e He). res_cbn.
    destruct l2 as [|y l2]; cbn in Hr.
    + right. exists x. rewrite Hr, Z.eqb_refl. split; [done |]. by apply app_inj_tail in E as [_ ->].
    + left. destruct Hr as (Hy & Hy0 & Hr). rewrite Hy, (proj2 (Z.eqb_neq y 0) Hy0). exists y, (zlen (y :: l2)).
      split; [done |]. split; [| rewrite !zlen_cons; lia]. exists (l1 ++ [x]), (y :: l2). by rewrite <- app_assoc.
  - exists [], (l0 ++ [q]). by destruct l0.
  - rewrite fuel_val. unfold INT_MAX in Hl. lia.
Qed.

(** What does not depend on the counts. *)
Lemma insert_entry_shape h hash lists p e off l :
  wf h hash lists -> h !! p = None -> p <> 0 -> next e = 0 -> 0 <= off < buckets hash ->
  lists !! Z.to_nat off = Some l ->
  exists h' t, insert_entry (<[p := e]> h) hash off p = Ok (h', set_table hash t (buckets hash)) /\
    zlen t = buckets hash /\ Forall2 (chain h') t (<[Z.to_nat off := l ++ [p]]> lists) /\
    (forall q, q <> p -> content <$> h' !! q = content <$> h !! q) /\ content <$> h' !! p = Some (content e).
Proof.
  intros W Hp Hp0 Hn Hoff Hl.
  assert (p ∉ mjoin lists) as Hfresh by (intros (_ & d & Hd)%(elem_heap h hash lists p W); by rewrite Hp in Hd).
  assert (Forall2 (chain (<[p := e]> h)) (table hash) lists) as Hch.
  { apply Forall2_same_length_lookup. split; [by eapply Forall2_length, (wf_chains _ _ _ W) |].
    intros b q lb Hq Hlb. apply chain_insert; [by apply (Forall2_lookup_lr _ _ _ _ _ _ (wf_chains _ _ _ W) Hq Hlb) |].
    intros Hin. apply Hfresh. by eapply bucket_elem. }
  destruct (wf_lookup h hash lists off W Hoff) as (first & l' & Ht & Ha & Hl' & Hc). rewrite Hl in Hl'. injection Hl' as <-.
  assert (chain (<[p := e]> h) p [p]) as Hsingle.
  { cbn. split; [done |]. split; [done |]. exists e. rewrite lookup_insert_eq. by rewrite Hn. }
  assert (forall q, q <> p -> content <$> <[p := e]> h !! q = content <$> h !! q) as Hother by (intros q Hq; by rewrite lookup_insert_ne).
  unfold insert_entry. rewrite Ha. res_cbn. destruct (Z.eqb_spec first 0) as [->|Hf].
  - apply chain_end in Hc as ->. rewrite aset_Ok by (rewrite (wf_size _ _ _ W); lia). res_cbn.
    eexists _, _. split; [reflexivity |]. split; [by rewrite zlen_insert, (wf_size _ _ _ W) |].
    split; [by apply Forall2_insert |]. split; [done |]. by rewrite lookup_insert_eq.
  - destruct (decide (l = [])) as [->|Hne]; [done |]. destruct (exists_last Hne) as (l0 & q & ->).
    pose proof (proj1 (Forall2_same_length_lookup _ _ _) Hch) as [_ Hlk]. pose proof (Hlk _ _ _ Ht Hl) as Hc'.
    rewrite (last_loop _ first l0 q Hc').
    2: { pose proof (bucket_length lists _ _ Hl). pose proof (wf_entries _ _ _ W). pose proof (wf_bound _ _ _ W). lia. }
    res_cbn. destruct (chain_elem _ _ _ q Hc') as (Hq0 & d & Hd); [apply elem_of_app; right; by left |].
    rewrite (hget_Ok _ q d Hd). res_cbn. exists (<[q := set_next d p]> (<[p := e]> h)), (table hash).
    assert (q ∈ mjoin lists) as Hqin by (eapply bucket_elem; [exact Hl | apply elem_of_app; right; by left]).
    assert (q <> p) as Hqp by (intros ->; done).
    split; [by destruct hash |]. split; [apply (wf_size _ _ _ W) |]. split; [| split].
    + apply Forall2_same_length_lookup. rewrite length_insert. split; [by eapply Forall2_length, Hch |].
      intros b r lb Hr Hlb. destruct (decide (b = Z.to_nat off)) as [->|Hb].
      * rewrite list_lookup_insert_eq in Hlb by (by eapply lookup_lt_Some). injection Hlb as <-.
        rewrite Ht in Hr. injection Hr as <-. rewrite <- app_assoc. cbn [app].
        apply (chain_relink _ first l0 q d [] p [p]); [done | done | by eapply bucket_nodup | done |].
        intros Hin%list_elem_of_singleton. done.
      * rewrite list_lookup_insert_ne in Hlb by done. apply chain_insert; [by apply (Hlk b) |].
        apply (bucket_disjoint h hash lists _ b _ lb q W Hl Hlb); [done | apply elem_of_app; right; by left].
    + intros r Hr. destruct (decide (r = q)) as [->|].
      * rewrite lookup_insert_eq. rewrite lookup_insert_ne in Hd by done. by rewrite Hd.
      * rewrite lookup_insert_ne by done. by apply Hother.
    + rewrite lookup_insert_ne, lookup_insert_eq by done. done.
Qed.

(** The representation with the new entry. *)
Lemma wf_insert h hash lists M token n p off l h' t :
  wf h hash lists -> models h lists M -> M !! token = None ->
  (forall q e, q ∈ mjoin lists -> h !! q = Some e -> key e <> token) ->
  off = hash_string token mod buckets hash -> lists !! Z.to_nat off = Some l -> h !! p = None -> p <> 0 ->
  zlen t = buckets hash -> Forall2 (chain h') t (<[Z.to_nat off := l ++ [p]]> lists) ->
  (forall q, q <> p -> content <$> h' !! q = content <$> h !! q) -> content <$> h' !! p = Some (content (new_entry n token)) ->
  entries hash < INT_MAX ->
  let hash' := set_counts (set_table hash t (buckets hash)) (n + 1) (entries hash + 1) in
  wf h' hash' (<[Z.to_nat off := l ++ [p]]> lists) /\
  models h' (<[Z.to_nat off := l ++ [p]]> lists) (<[token := val_of (new_entry n token)]> M).
Proof.
  intros W HM Hnone Hnot -> Hl Hp Hp0 Ht Hch Hother Hnew Hmax hash'.
  pose proof (hash_offset hash token (proj1 (wf_buckets _ _ _ W))) as Hoff. set (off := hash_string token mod buckets hash) in *.
  destruct (join_insert lists _ _ Hl) as (rest & Hperm & Hins). specialize (Hins (l ++ [p])).
  assert (mjoin (<[Z.to_nat off := l ++ [p]]> lists) ≡ₚ p :: mjoin lists) as Hall.
  { rewrite Hins, Hperm, <- app_assoc, Permutation_app_comm. cbn. by rewrite (Permutation_app_comm l). }
  assert (p ∉ mjoin lists) as Hfresh by (intros (_ & d & Hd)%(elem_heap h hash lists p W); by rewrite Hp in Hd).
  assert (forall q e, q ∈ mjoin lists -> h' !! q = Some e -> exists d, h !! q = Some d /\ key d = key e) as Hold.
  { intros q e Hq He. apply (content_key h h' q e); [| done]. apply Hother. by intros ->. }
  assert (forall e, h' !! p = Some e -> key e = token) as Hkey.
  { intros e He. rewrite He in Hnew. by injection Hnew. }
  split.
  - destruct W as [W1 W2 W3 W4 W5 W6 W7 W8 W9]. constructor; try done.
    + rewrite Hall. by constructor.
    + intros b lb q e Hlb Hq He. cbn [hash' buckets set_counts set_table]. destruct (decide (b = Z.to_nat off)) as [->|Hb].
      * rewrite list_lookup_insert_eq in Hlb by (by eapply lookup_lt_Some). injection Hlb as <-.
        apply elem_of_app in Hq as [Hq|Hq%list_elem_of_singleton].
        -- destruct (Hold q e) as (d & Hd & <-); [by eapply bucket_elem | done |]. by apply (W5 _ l q).
        -- subst q. rewrite (Hkey e He). fold off. lia.
      * rewrite list_lookup_insert_ne in Hlb by done.
        destruct (Hold q e) as (d & Hd & <-); [by eapply bucket_elem | done |]. by apply (W5 _ lb q).
    + intros q r e d Hq Hr He Hd Hkk. rewrite Hall, elem_of_cons in Hq, Hr.
      destruct Hq as [->|Hq], Hr as [->|Hr]; [done | | | ].
      * exfalso. destruct (Hold r d Hr Hd) as (d0 & Hd0 & Hk0). apply (Hnot r d0 Hr Hd0). by rewrite Hk0, <- Hkk, (Hkey e He).
      * exfalso. destruct (Hold q e Hq He) as (e0 & He0 & Hk0). apply (Hnot q e0 Hq He0). by rewrite Hk0, Hkk, (Hkey d Hd).
      * destruct (Hold q e Hq He) as (e0 & He0 & Hk0), (Hold r d Hr Hd) as (d0 & Hd0 & Hk1).
        apply (W6 q r e0 d0); try done. congruence.
    + cbn [hash' entries set_counts]. rewrite W7. unfold zlen. rewrite (Permutation_length Hall). cbn [length]. lia.
    + cbn [hash' entries set_counts]. lia.
  - rewrite models_content in *. intros k v. destruct (decide (k = token)) as [->|Hk].
    + rewrite lookup_insert_eq. split.
      * intros [= <-]. exists p. split; [rewrite Hall; by left |]. done.
      * intros (q & Hq & Hc). rewrite Hall, elem_of_cons in Hq. destruct Hq as [->|Hq]; [rewrite Hnew in Hc; unfold content in Hc; cbn in Hc; congruence |].
        rewrite Hother in Hc by (by intros ->). exfalso. assert (M !! token = Some v) by (apply HM; eauto). congruence.
    + rewrite lookup_insert_ne by done. rewrite HM. split; intros (q & Hq & Hc); exists q.
      * split; [rewrite Hall; by right |]. rewrite Hother; [done |]. by intros ->.
      * rewrite Hall, elem_of_cons in Hq. destruct Hq as [->|Hq]; [rewrite Hnew in Hc; unfold content in Hc; cbn in Hc; congruence |].
        split; [done |]. rewrite <- Hother; [done |]. by intros ->.
Qed.

(** ** Growing *)

(** Entries are being moved to a table with [nb] buckets: the entries [l] of the
    bucket at hand and the buckets [rl] are still to be moved. *)
Definition moving (h0 : heap) (all : list Z) (nb : Z) (l rt : list Z) (rl : list (list Z)) (st : heap * list Z * Z) : Prop :=
  let '(h, t, n) := st in
  exists tl, Forall2 (chain h) t tl /\ zlen t = nb /\
    (forall b lb q e, tl !! b = Some lb -> q ∈ lb -> h !! q = Some e -> hash_string (key e) mod nb = Z.of_nat b) /\
    mjoin tl ++ l ++ mjoin rl ≡ₚ all /\ n = zlen (mjoin tl) /\
    (forall q, content <$> h !! q = content <$> h0 !! q) /\ Forall2 (chain h) rt rl.

Lemma Forall2_chain_insert h t tl p e :
  Forall2 (chain h) t tl -> p ∉ mjoin tl -> Forall2 (chain (<[p := e]> h)) t tl.
Proof.
  intros H Hp. apply Forall2_same_length_lookup. split; [by eapply Forall2_length |].
  intros b q lb Hq Hlb. apply chain_insert; [by apply (Forall2_lookup_lr _ _ _ _ _ _ H Hq Hlb) |].
  intros Hin. apply Hp. by eapply bucket_elem.
Qed.

Lemma move_step h0 all nb l rt rl h t n p e :
  NoDup all -> zlen all <= INT_MAX -> 0 < nb -> moving h0 all nb (p :: l) rt rl (h, t, n) ->
  h !! p = Some e -> p <> 0 -> chain h (next e) l ->
  exists st', move_round nb (p, (h, t, n)) = Ok (inl (next e, st')) /\ moving h0 all nb l rt rl st' /\ chain st'.1.1 (next e) l.
Proof.
  intros Hnd Hmax Hnb (tl & Hch & Ht & Hplace & Hperm & -> & Hcon & Hrest) He Hp Hl.
  assert (Z.of_nat (length all) = zlen (mjoin tl) + 1 + zlen l + zlen (mjoin rl)) as Hlen.
  { rewrite <- (Permutation_length Hperm). unfold zlen. rewrite !length_app. cbn [length]. lia. }
  pose proof (zlen_nonneg l). pose proof (zlen_nonneg (mjoin rl)). pose proof (zlen_nonneg (mjoin tl)).
  rewrite <- Hperm in Hnd. apply NoDup_app in Hnd as (_ & Hdis & Hnd2). cbn [app] in Hnd2. apply NoDup_cons in Hnd2 as [Hpl Hnd2].
  assert (p ∉ mjoin tl) as Hptl by (intros Hin; apply (Hdis p Hin); by left).
  assert ((p ∉ l) /\ (p ∉ mjoin rl)) as [Hpl1 Hprl] by (rewrite elem_of_app in Hpl; tauto).
  set (off := hash_string (key e) mod nb). assert (0 <= off < nb) as Hoff by (by apply Z.mod_pos_bound).
  destruct (aget_total t off) as (head & Ha & Hhead); [lia |].
  destruct (Forall2_lookup_l _ _ _ _ _ Hch Hhead) as (lb & Hlb & Hclb).
  unfold move_round. rewrite (proj2 (Z.eqb_neq p 0) Hp), (hget_Ok h p e He). res_cbn. fold off. rewrite Ha. res_cbn.
  rewrite aset_Ok by lia. res_cbn. rewrite c_int_Ok by (unfold INT_MIN, zlen in *; lia). res_cbn.
  destruct (join_insert tl _ _ Hlb) as (rest & Hpt & Hins). specialize (Hins (p :: lb)).
  assert (mjoin (<[Z.to_nat off := p :: lb]> tl) ≡ₚ p :: mjoin tl) as Hnew by (rewrite Hins, Hpt; done).
  eexists. split; [reflexivity |]. split; [| by apply chain_insert].
  exists (<[Z.to_nat off := p :: lb]> tl). split; [| split; [| split; [| split; [| split; [| split]]]]].
  - apply Forall2_insert; [by apply Forall2_chain_insert |]. cbn. split; [done |]. split; [done |].
    exists (set_next e head). rewrite lookup_insert_eq. split; [done |]. apply chain_insert; [done |].
    intros Hin. apply Hptl. by eapply bucket_elem.
  - by rewrite zlen_insert.
  - intros b lc q d Hlc Hq Hd.
    assert (q = p \/ q <> p) as [->|Hqp] by (destruct (decide (q = p)); tauto).
    + rewrite lookup_insert_eq in Hd. injection Hd as <-. cbn [key set_next]. fold off.
      destruct (decide (b = Z.to_nat off)) as [->|Hb]; [lia |].
      rewrite list_lookup_insert_ne in Hlc by done. exfalso. apply Hptl. by eapply bucket_elem.
    + rewrite lookup_insert_ne in Hd by done. destruct (decide (b = Z.to_nat off)) as [->|Hb].
      * rewrite list_lookup_insert_eq in Hlc by (by eapply lookup_lt_Some). injection Hlc as <-.
        apply elem_of_cons in Hq as [->|Hq]; [done |]. by apply (Hplace _ lb q d).
      * rewrite list_lookup_insert_ne in Hlc by done. by apply (Hplace _ lc q d).
  - rewrite Hnew, <- Hperm. cbn. by rewrite Permutation_middle.
  - unfold zlen. rewrite (Permutation_length Hnew). cbn [length]. lia.
  - intros q. rewrite <- Hcon. destruct (decide (q = p)) as [->|]; [| by rewrite lookup_insert_ne].
    by rewrite lookup_insert_eq, He.
  - by apply Forall2_chain_insert.
Qed.

Lemma move_bucket h0 all nb l rt rl p st :
  NoDup all -> zlen all <= INT_MAX -> 0 < nb -> moving h0 all nb l rt rl st -> chain st.1.1 p l ->
  exists st', loop (move_round nb) fuel (p, st) = Ok st' /\ moving h0 all nb [] rt rl st'.
Proof.
  intros Hnd Hmax Hnb Hm Hc.
  apply (loop_indexed (move_round nb) (fun n s => exists l', moving h0 all nb l' rt rl s.2 /\ chain s.2.1.1 s.1 l' /\ n = zlen l')
    (fun st' => moving h0 all nb [] rt rl st')) with (n := zlen l).
  - intros n [q [[h t] k]] (l' & Hm' & Hc' & ->). split; [apply zlen_nonneg |]. cbn [fst snd] in *.
    destruct l' as [|x l']; cbn in Hc'.
    + right. subst q. eexists. split; [reflexivity | done].
    + left. destruct Hc' as (-> & Hx & e & He & Hc').
      destruct (move_step h0 all nb l' rt rl h t k x e Hnd Hmax Hnb Hm' He Hx Hc') as (st' & -> & Hm2 & Hc2).
      exists (next e, st'), (zlen l'). split; [done |]. split; [by exists l' | rewrite zlen_cons; lia].
  - by exists l.
  - rewrite fuel_val. destruct st as [[h t] n]. destruct Hm as (tl & _ & _ & _ & Hperm & _).
    assert (zlen l <= zlen all); [| unfold INT_MAX in Hmax; lia].
    unfold zlen. rewrite <- (Permutation_length Hperm), !length_app. lia.
Qed.

(** All buckets, one after the other. *)
Lemma move_all h hash lists nb :
  wf h hash lists -> 0 < nb <= MAX_BUCKETS ->
  exists st, for_up (fun idx s => p ← aget (table hash) idx; loop (move_round nb) fuel (p, s)) 0 (buckets hash)
    (h, replicate (Z.to_nat nb) 0, 0) = Ok st /\ moving h (mjoin lists) nb [] [] [] st.
Proof.
  intros W Hnb. pose proof (wf_buckets _ _ _ W) as Hb.
  assert (length (table hash) = length lists) as Hlen by (by eapply Forall2_length, (wf_chains _ _ _ W)).
  destruct (for_up_rule (fun idx s => p ← aget (table hash) idx; loop (move_round nb) fuel (p, s))
    (fun idx st => moving h (mjoin lists) nb [] (drop (Z.to_nat idx) (table hash)) (drop (Z.to_nat idx) lists) st)
    0 (buckets hash) (h, replicate (Z.to_nat nb) 0, 0)) as (st & E & Hst).
  - lia.
  - intros idx [[h1 t] n] Hidx Hm. destruct (wf_lookup h hash lists idx W) as (p & l & Ht & Ha & Hl & _); [lia |].
    rewrite (drop_S _ _ _ Ht), (drop_S _ _ _ Hl) in Hm.
    destruct Hm as (tl & H1 & H2 & H3 & H4 & H5 & H6 & [Hc H7]%Forall2_cons).
    rewrite Ha. res_cbn. replace (Z.to_nat (idx + 1)) with (S (Z.to_nat idx)) by lia.
    apply (move_bucket h (mjoin lists) nb l); [apply (wf_nodup _ _ _ W) | | lia | | exact Hc].
    + rewrite <- (wf_entries _ _ _ W). apply (wf_bound _ _ _ W).
    + exists tl. cbn [app mjoin list_join] in H4. by repeat (split; [done |]).
  - rewrite !drop_0. exists (replicate (Z.to_nat nb) []).
    assert (forall k, mjoin (replicate k (@nil Z)) = []) as Hnil by (induction k; [done | cbn; done]).
    split; [| split; [| split; [| split; [| split; [| split]]]]].
    + clear. induction (Z.to_nat nb); constructor; [done | done].
    + rewrite zlen_replicate. lia.
    + intros b lb q e [-> _]%lookup_replicate Hq. by apply not_elem_of_nil in Hq.
    + by rewrite Hnil.
    + by rewrite Hnil.
    + done.
    + apply (wf_chains _ _ _ W).
  - exists st. split; [done |]. pose proof (wf_size _ _ _ W) as Hs. unfold zlen in Hs.
    rewrite !drop_ge in Hst by lia. done.
Qed.

(** Moving the entries keeps the map. *)
Lemma wf_moved h hash lists M nb h' t n :
  wf h hash lists -> models h lists M -> 0 < nb <= MAX_BUCKETS -> moving h (mjoin lists) nb [] [] [] (h', t, n) ->
  n = entries hash /\ exists tl, wf h' (set_table hash t nb) tl /\ models h' tl M.
Proof.
  intros W HM Hnb (tl & Hch & Ht & Hplace & Hperm & -> & Hcon & _).
  assert (mjoin tl ≡ₚ mjoin lists) as Hp by (rewrite <- Hperm; cbn; by rewrite app_nil_r).
  assert (zlen (mjoin tl) = zlen (mjoin lists)) as Hlen by (unfold zlen; by rewrite (Permutation_length Hp)).
  split; [by rewrite (wf_entries _ _ _ W) |]. exists tl. split.
  - destruct W as [W1 W2 W3 W4 W5 W6 W7 W8 W9]. constructor; try done.
    + by rewrite Hp.
    + intros p q e d Hpi Hqi He Hd Hk. rewrite Hp in Hpi, Hqi.
      destruct (content_key h h' p e (Hcon p) He) as (e0 & He0 & Hk0), (content_key h h' q d (Hcon q) Hd) as (d0 & Hd0 & Hk1).
      apply (W6 p q e0 d0); try done. congruence.
    + cbn. by rewrite W7.
  - rewrite models_content in *. intros k v. rewrite HM. split; intros (p & Hpi & Hc); exists p.
    + by rewrite Hp, Hcon.
    + by rewrite Hp, Hcon in *.
Qed.

Lemma cl_new_lexhash_ok b :
  b <= MAX_BUCKETS -> exists hash : hash_t, cl_new_lexhash b = Ok hash /\ 0 < buckets hash <= MAX_BUCKETS /\
    table hash = replicate (Z.to_nat (buckets hash)) 0 /\ next_id hash = 0 /\ entries hash = 0 /\
    fillrate_target hash = DEFAULT_FILLRATE_TARGET /\ (0 < b -> b <= buckets hash /\ no_divisor (buckets hash)).
Proof.
  intros Hb. unfold cl_new_lexhash. set (b' := if b <=? 0 then DEFAULT_NR_OF_BUCKETS else b).
  assert (0 < b' <= MAX_BUCKETS) as Hb'.
  { unfold b'. destruct (Z.leb_spec b 0); [unfold DEFAULT_NR_OF_BUCKETS, MAX_BUCKETS; lia | lia]. }
  destruct (find_prime_ok b' Hb') as (p & -> & Hp & Hd & _). res_cbn. eexists. split; [reflexivity |]. cbn.
  split; [lia |]. split; [done |]. split; [done |]. split; [done |]. split; [done |]. intros Hpos.
  unfold b' in *. rewrite (proj2 (Z.leb_gt _ _) Hpos) in Hp. split; [lia | done].
Qed.

Lemma set_auto_grow_wf h hash lists b : wf h hash lists -> wf h (set_auto_grow hash b) lists.
Proof. intros []. by constructor. Qed.

(** Growing does not change the map, nor the ids and the number of entries. *)
Lemma check_grow_ok h hash lists M :
  wf h hash lists -> models h lists M ->
  exists v h' hash' lists', cl_lexhash_check_grow h hash = Ok (v, h', hash') /\ wf h' hash' lists' /\ models h' lists' M /\
    next_id hash' = next_id hash /\ entries hash' = entries hash /\ (forall q, content <$> h' !! q = content <$> h !! q) /\
    cleanup_func hash' = cleanup_func hash.
Proof.
  intros W HM. unfold cl_lexhash_check_grow. destruct (auto_grow hash && _).
  2: { exists 0, h, hash, lists. by repeat (split; [done |]). }
  assert (0 <= entries hash) as Hn by (rewrite (wf_entries _ _ _ W); apply zlen_nonneg).
  destruct (grow_size_ok (entries hash) (fillrate_target hash) Hn (wf_target _ _ _ W)) as (b & Eb & Hb).
  cbv zeta in Eb. set (size := dfloor (ddiv (int_to_double (entries hash)) (fillrate_target hash))) in *.
  assert (forall hash1, wf h hash1 lists -> table hash1 = table hash -> buckets hash1 = buckets hash ->
    next_id hash1 = next_id hash -> entries hash1 = entries hash -> cleanup_func hash1 = cleanup_func hash ->
    exists v h' hash' lists', (temp ← cl_new_lexhash b;
      r ← for_up (fun idx s => p ← aget (table hash1) idx; loop (move_round (buckets temp)) fuel (p, s)) 0 (buckets hash) (h, table (temp : hash_t), 0);
      let '(h, t, n) := r in
      _ ← c_assert (n =? entries hash1); Ok (1, h, set_table hash1 t (buckets temp))) = Ok (v, h', hash') /\
    wf h' hash' lists' /\ models h' lists' M /\
    next_id hash' = next_id hash /\ entries hash' = entries hash /\ (forall q, content <$> h' !! q = content <$> h !! q) /\
    cleanup_func hash' = cleanup_func hash) as Hgrow.
  { intros hash1 W1 Et Ebk Eid En Ec. destruct (cl_new_lexhash_ok b) as (temp & -> & Hnb & Ett & _); [lia |]. res_cbn.
    rewrite Ett, <- Ebk. destruct (move_all h hash1 lists (buckets temp) W1 Hnb) as ([[h' t] n] & -> & Hm). res_cbn.
    destruct (wf_moved _ _ _ _ _ _ _ _ W1 HM Hnb Hm) as (-> & tl & W' & HM'). rewrite Z.eqb_refl. res_cbn.
    exists 1, h', (set_table hash1 t (buckets temp)), tl. destruct Hm as (_ & _ & _ & _ & _ & _ & Hcon & _).
    by repeat (split; [done |]). }
  destruct (dgt size (int_to_double MAX_BUCKETS)).
  - cbn [andb]. destruct (dgt (int_to_double (buckets hash)) (ddiv size (int_to_double 2))).
    + exists 0, h, (set_auto_grow hash false), lists. split; [done |]. split; [by apply set_auto_grow_wf |].
      by repeat (split; [done |]).
    + rewrite Eb. res_cbn. apply (Hgrow (set_auto_grow hash false)); [by apply set_auto_grow_wf | reflexivity ..].
  - cbn [andb]. rewrite Eb. res_cbn. by apply (Hgrow hash).
Qed.

(** ** The operations on the map *)

Definition zero_payload : payload := mkPayload 0 (S754_zero false) 0.

(** The value of a token that is added to a map with the next id [n]. *)
Definition added (M : gmap (list Z) value) (n : Z) (token : list Z) : value :=
  match M !! token with
  | Some v => mkValue (u32 (v_freq v + 1)) (v_id v) (v_data v)
  | None => mkValue 1 n zero_payload
  end.

Lemma models_elem h hash lists M token :
  wf h hash lists -> models h lists M -> M !! token <> None ->
  forall p e, h !! p = Some e -> key e = token -> p ∈ mjoin lists -> M !! token = Some (val_of e).
Proof.
  intros W HM _ p e He Hk Hp. apply HM. exists p, e. split; [done |]. split; [done |]. unfold content. by rewrite Hk.
Qed.

Lemma cl_lexhash_find_ok h hash M token :
  represents h hash M ->
  exists p, cl_lexhash_find h hash token = Ok p /\
    match M !! token with
    | None => p = 0
    | Some v => p <> 0 /\ exists e, h !! p = Some e /\ key e = token /\ val_of e = v
    end.
Proof.
  intros (lists & W & HM & _). destruct (find_i_ok h hash lists M token W HM) as (p & l & E & Hl & H).
  exists p. unfold cl_lexhash_find. rewrite E. res_cbn. split; [done |].
  destruct H as [(-> & -> & _)|(Hp & Hp0 & e & He & Hk & ->)]; [done |]. split; [done |]. by exists e.
Qed.

Lemma cl_lexhash_id_ok h hash M token :
  represents h hash M ->
  cl_lexhash_id h hash token = Ok (match M !! token with Some v => v_id v | None => -1 end).
Proof.
  intros (lists & W & HM & _). destruct (find_i_ok h hash lists M token W HM) as (p & l & E & Hl & H).
  unfold cl_lexhash_id. rewrite E. res_cbn. cbn [fst]. destruct H as [(-> & -> & _)|(Hp & Hp0 & e & He & Hk & ->)]; [done |].
  rewrite (proj2 (Z.eqb_neq p 0) Hp0), (hget_Ok h p e He). by res_cbn.
Qed.

Lemma cl_lexhash_freq_ok h hash M token :
  represents h hash M ->
  cl_lexhash_freq h hash token = Ok (match M !! token with Some v => s32 (v_freq v) | None => 0 end).
Proof.
  intros (lists & W & HM & _). destruct (find_i_ok h hash lists M token W HM) as (p & l & E & Hl & H).
  unfold cl_lexhash_freq. rewrite E. res_cbn. cbn [fst]. destruct H as [(-> & -> & _)|(Hp & Hp0 & e & He & Hk & ->)]; [done |].
  rewrite (proj2 (Z.eqb_neq p 0) Hp0), (hget_Ok h p e He). by res_cbn.
Qed.

(** Adding: the entry that is returned has the value of the token in the new map. *)
Lemma cl_lexhash_add_ok h hash M token :
  represents h hash M -> entries hash < INT_MAX -> 0 <= next_id hash < INT_MAX ->
  let v := added M (next_id hash) token in
  exists p h' hash', cl_lexhash_add malloc h hash token = Ok (p, h', hash') /\ represents h' hash' (<[token := v]> M) /\
    next_id hash' = match M !! token with Some _ => next_id hash | None => next_id hash + 1 end /\
    p <> 0 /\ content <$> h' !! p = Some (token, v) /\ cleanup_func hash' = cleanup_func hash.
Proof.
  intros (lists & W & HM & Hsize) Hmax Hid v. destruct (find_i_ok h hash lists M token W HM) as (p & l & E & Hl & H).
  unfold cl_lexhash_add. rewrite E. res_cbn.
  destruct H as [(-> & Hnone & Hnot)|(Hp & Hp0 & e & He & Hk & HMv)].
  - assert (v = val_of (new_entry (next_id hash) token)) as Ev by (unfold v, added; by rewrite Hnone).
    clearbody v. subst v. rewrite Hnone. cbn [Z.eqb negb]. destruct (malloc_new h) as [Hnew Hnew0]. set (p := malloc h) in *.
    rewrite (c_int_Ok (next_id hash + 1)) by (unfold INT_MIN; lia). res_cbn.
    pose proof (hash_offset hash token (proj1 (wf_buckets _ _ _ W))) as Hoff.
    destruct (insert_entry_shape h hash lists p (new_entry (next_id hash) token) _ l W Hnew Hnew0 eq_refl Hoff Hl)
      as (h1 & t & -> & Ht & Hch & Hother & Hself). res_cbn. cbn [entries set_table].
    rewrite (c_int_Ok (entries hash + 1)) by (rewrite (wf_entries _ _ _ W) in *; pose proof (zlen_nonneg (mjoin lists)); unfold INT_MIN; lia).
    res_cbn. destruct (wf_insert h hash lists M token (next_id hash) p _ l h1 t W HM Hnone Hnot eq_refl Hl Hnew Hnew0 Ht Hch Hother Hself Hmax)
      as [W1 HM1].
    assert (entries hash + 1 = Z.of_nat (size (<[token := val_of (new_entry (next_id hash) token)]> M))) as Hs1 by (rewrite map_size_insert_None by done; lia).
    match goal with |- context [if ?b then _ else _] => destruct b end.
    + destruct (check_grow_ok _ _ _ _ W1 HM1) as (r & h2 & hash2 & lists2 & -> & W2 & HM2 & Hid2 & Hen2 & Hcon2 & Hcl2). res_cbn.
      exists p, h2, hash2. split; [done |]. split; [exists lists2; split; [done |]; split; [done |]; by rewrite Hen2 |].
      split; [by rewrite Hid2 |]. split; [done |]. split; [by rewrite Hcon2, Hself | by rewrite Hcl2].
    + exists p, h1, (set_counts (set_table hash t (buckets hash)) (next_id hash + 1) (entries hash + 1)).
      split; [done |]. split; [eexists; split; [done |]; split; [done | exact Hs1] |]. by repeat (split; [done |]).
  - assert (v = val_of (set_freq e (u32 (freq e + 1)))) as Ev by (unfold v, added; by rewrite HMv).
    clearbody v. subst v. rewrite HMv. rewrite (proj2 (Z.eqb_neq p 0) Hp0). cbn [negb].
    rewrite (hget_Ok h p e He). res_cbn. set (e' := set_freq e (u32 (freq e + 1))).
    exists p, (<[p := e']> h), hash. split; [done |].
    assert (p ∈ mjoin lists) as Hpin by (by eapply bucket_elem).
    pose proof (models_update h hash lists M p e e' W HM Hpin He eq_refl) as HM'. rewrite Hk in HM'.
    split; [exists lists; split; [by eapply wf_update |]; split; [exact HM' |] |].
    + rewrite Hsize. by rewrite map_size_insert, HMv.
    + split; [done |]. split; [done |]. split; [| done]. rewrite lookup_insert_eq. cbn. unfold content. cbn [key e' set_freq]. by rewrite Hk.
Qed.

(** ** Deletion *)

Lemma previous_loop h first l0 q p l2 :
  chain h first ((l0 ++ [q]) ++ p :: l2) -> p ∉ l0 ++ [q] -> zlen (l0 ++ [q]) <= INT_MAX ->
  loop (previous_round h p) fuel first = Ok q.
Proof.
  intros Hc Hnot Hl.
  destruct (loop_indexed (previous_round h p)
    (fun n r => exists a b, l0 ++ [q] = a ++ b /\ b <> [] /\ chain h r (b ++ p :: l2) /\ n = zlen b)
    (fun r => r = q)) with (p := fuel) (n := zlen (l0 ++ [q])) (s := first) as (r & E & ->); [| | | done].
  - intros n r (a & b & E & Hne & Hr & ->). split; [apply zlen_nonneg |]. unfold previous_round.
    destruct b as [|x b]; [done |]. destruct Hr as (-> & Hx & e & He & Hr). rewrite (hget_Ok h x e He). res_cbn.
    destruct b as [|y b]; cbn in Hr; destruct Hr as (Hn & Hn0 & Hr); rewrite Hn.
    + right. exists x. rewrite Z.eqb_refl. split; [done |]. by apply app_inj_tail in E as [_ ->].
    + left. rewrite (proj2 (Z.eqb_neq y p)).
      * exists y, (zlen (y :: b)). split; [done |]. split; [| rewrite !zlen_cons; lia].
        exists (a ++ [x]), (y :: b). by rewrite <- app_assoc.
      * intros ->. apply Hnot. rewrite E. apply elem_of_app. right. right. by left.
  - exists [], (l0 ++ [q]). by destruct l0.
  - rewrite fuel_val. unfold INT_MAX in Hl. lia.
Qed.

Lemma unlink_shape h hash lists p off l1 l2 :
  wf h hash lists -> 0 <= off < buckets hash -> lists !! Z.to_nat off = Some (l1 ++ p :: l2) ->
  exists h' t, unlink h hash off p = Ok (h', set_table hash t (buckets hash)) /\ zlen t = buckets hash /\
    Forall2 (chain h') t (<[Z.to_nat off := l1 ++ l2]> lists) /\ (forall q, content <$> h' !! q = content <$> h !! q) /\
    (forall e, h !! p = Some e -> h' !! p = Some e).
Proof.
  intros W Hoff Hl. destruct (wf_lookup h hash lists off W Hoff) as (first & l' & Ht & Ha & Hl' & Hc).
  rewrite Hl in Hl'. injection Hl' as <-. pose proof (bucket_nodup h hash lists _ _ W Hl) as Hnd.
  pose proof (wf_chains _ _ _ W) as Hch. pose proof (proj1 (Forall2_same_length_lookup _ _ _) Hch) as [Hlen Hlk].
  destruct (chain_app h first l1 p l2 Hc) as (e & He & Hp0 & Hc2 & _). unfold unlink.
  rewrite (hget_Ok h p e He), Ha. res_cbn. destruct l1 as [|x l1].
  - cbn in Hc. destruct Hc as (-> & _). rewrite Z.eqb_refl, aset_Ok by (rewrite (wf_size _ _ _ W); lia). res_cbn.
    exists h, (<[Z.to_nat off := next e]> (table hash)). split; [done |].
    split; [by rewrite zlen_insert, (wf_size _ _ _ W) |]. split; [by apply Forall2_insert | done].
  - assert (first = x) as -> by (by destruct Hc). assert (x <> p).
    { intros ->. cbn in Hnd. apply NoDup_cons in Hnd as [Hnd _]. apply Hnd, elem_of_app. right. by left. }
    rewrite (proj2 (Z.eqb_neq x p)) by done. destruct (exists_last (l := x :: l1)) as (l0 & q & E); [done |]. rewrite E in *.
    assert (p ∉ l0 ++ [q]) as Hpn.
    { apply NoDup_app in Hnd as (_ & Hdis & _). intros Hin. apply (Hdis p Hin). by left. }
    assert (zlen (l0 ++ [q]) <= INT_MAX) as Hmax.
    { pose proof (bucket_length lists _ _ Hl) as Hbl. rewrite zlen_app in Hbl. pose proof (zlen_nonneg (p :: l2)).
      pose proof (wf_entries _ _ _ W). pose proof (wf_bound _ _ _ W). lia. }
    rewrite (previous_loop h x l0 q p l2 Hc Hpn Hmax). res_cbn.
    pose proof Hc as Hcq. rewrite <- app_assoc in Hcq. cbn [app] in Hcq.
    destruct (chain_app h x l0 q (p :: l2) Hcq) as (d & Hd & _).
    rewrite (hget_Ok h q d Hd). res_cbn. exists (<[q := set_next d (next e)]> h), (table hash).
    assert (q <> p) as Hqp by (intros ->; apply Hpn, elem_of_app; right; by left).
    split; [by destruct hash |]. split; [apply (wf_size _ _ _ W) |]. split; [| split].
    + apply Forall2_same_length_lookup. rewrite length_insert. split; [done |]. intros b r lb Hr Hlb.
      destruct (decide (b = Z.to_nat off)) as [->|Hb].
      * rewrite list_lookup_insert_eq in Hlb by (by eapply lookup_lt_Some). injection Hlb as <-.
        rewrite Ht in Hr. injection Hr as <-. rewrite <- app_assoc. cbn [app].
        apply (chain_relink h x l0 q d (p :: l2) (next e) l2); [done | done | | done |].
        -- by apply NoDup_app in Hnd as [? _].
        -- apply NoDup_app in Hnd as (_ & Hdis & _). intros Hin. apply (Hdis q); [apply elem_of_app; right; by left | by right].
      * rewrite list_lookup_insert_ne in Hlb by done. apply chain_insert; [by apply (Hlk b) |].
        apply (bucket_disjoint h hash lists _ b _ lb q W Hl Hlb); [done |]. apply elem_of_app. left. apply elem_of_app. right. by left.
    + intros r. destruct (decide (r = q)) as [->|]; [| by rewrite lookup_insert_ne]. by rewrite lookup_insert_eq, Hd.
    + intros e' He'. by rewrite lookup_insert_ne.
Qed.

(** The representation without an entry that was unlinked and freed. *)
Lemma wf_remove h hash lists M off l1 p l2 e h1 t :
  wf h hash lists -> models h lists M -> lists !! off = Some (l1 ++ p :: l2) -> h !! p = Some e ->
  zlen t = buckets hash -> Forall2 (chain h1) t (<[off := l1 ++ l2]> lists) ->
  (forall q, content <$> h1 !! q = content <$> h !! q) ->
  wf (delete p h1) (set_counts (set_table hash t (buckets hash)) (next_id hash) (entries hash - 1)) (<[off := l1 ++ l2]> lists) /\
  models (delete p h1) (<[off := l1 ++ l2]> lists) (delete (key e) M).
Proof.
  intros W HM Hl He Ht Hch Hcon. destruct (join_insert lists _ _ Hl) as (rest & Hperm & Hins). specialize (Hins (l1 ++ l2)).
  set (lists' := <[off := l1 ++ l2]> lists) in *.
  assert (mjoin lists ≡ₚ p :: mjoin lists') as Hall by (rewrite Hperm, Hins; cbn; by rewrite <- Permutation_middle).
  assert (NoDup (p :: mjoin lists')) as [Hpn Hnd]%NoDup_cons by (rewrite <- Hall; apply (wf_nodup _ _ _ W)).
  assert (zlen (mjoin lists) = 1 + zlen (mjoin lists')) as Hlen.
  { unfold zlen. rewrite (Permutation_length Hall). cbn [length]. lia. }
  assert (forall q, q ∈ mjoin lists' -> content <$> delete p h1 !! q = content <$> h !! q) as Hcon'.
  { intros q Hq. rewrite lookup_delete_ne; [apply Hcon |]. by intros ->. }
  assert (forall q, q ∈ mjoin lists' -> q ∈ mjoin lists) as Hsub by (intros q Hq; rewrite Hall; by right).
  split.
  - destruct W as [W1 W2 W3 W4 W5 W6 W7 W8 W9]. constructor; try done.
    + cbn [table set_counts set_table]. apply Forall2_same_length_lookup. split; [by eapply Forall2_length |].
      intros b q lb Hq Hlb. apply chain_delete; [by apply (Forall2_lookup_lr _ _ _ _ _ _ Hch Hq Hlb) |].
      intros Hin. apply Hpn. by eapply bucket_elem.
    + intros b lb q d Hlb Hq Hd.
      destruct (content_key h (delete p h1) q d) as (d0 & Hd0 & <-); [apply Hcon'; by eapply bucket_elem | done |].
      unfold lists' in Hlb. destruct (decide (b = off)) as [->|Hb].
      * rewrite list_lookup_insert_eq in Hlb by (by eapply lookup_lt_Some). injection Hlb as <-.
        apply (W5 _ (l1 ++ p :: l2) q d0); [done | | done]. rewrite elem_of_app, elem_of_cons. apply elem_of_app in Hq. tauto.
      * rewrite list_lookup_insert_ne in Hlb by done. by apply (W5 _ lb q d0).
    + intros q r d1 d2 Hq Hr Hd1 Hd2 Hkk.
      destruct (content_key h (delete p h1) q d1 (Hcon' q Hq) Hd1) as (e1 & He1 & Hk1).
      destruct (content_key h (delete p h1) r d2 (Hcon' r Hr) Hd2) as (e2 & He2 & Hk2).
      apply (W6 q r e1 e2); [by apply Hsub .. | done | done |]. congruence.
    + cbn [entries set_counts]. lia.
    + cbn [entries set_counts]. lia.
  - rewrite models_content in *. intros k v. rewrite lookup_delete_Some, HM. split.
    + intros (Hne & q & Hq & Hc). rewrite Hall, elem_of_cons in Hq. destruct Hq as [->|Hq].
      * rewrite He in Hc. injection Hc as Hc _. congruence.
      * exists q. by rewrite Hcon'.
    + intros (q & Hq & Hc). rewrite Hcon' in Hc by done. split; [| exists q; split; [by apply Hsub | done]].
      intros <-. apply fmap_Some in Hc as (d & Hd & Hcd). injection Hcd as Hkd _.
      assert (p = q) as ->; [| done]. apply (wf_keys _ _ _ W p q e d); [rewrite Hall; by left | by apply Hsub | done .. ].
Qed.

(** Deleting a token: the entry is freed after the cleanup function has seen it. *)
Lemma cl_lexhash_del_ok h hash M token :
  represents h hash M ->
  exists h' hash' calls,
    cl_lexhash_del h hash token = Ok (match M !! token with Some v => s32 (v_freq v) | None => 0 end, h', hash', calls) /\
    represents h' hash' (delete token M) /\ next_id hash' = next_id hash /\ cleanup_func hash' = cleanup_func hash /\
    (fun c => (c.1, content c.2)) <$> calls =
      match M !! token, cleanup_func hash with Some v, Some f => [(f, (token, v))] | _, _ => [] end.
Proof.
  intros (lists & W & HM & Hsize). destruct (find_i_ok h hash lists M token W HM) as (p & l & E & Hl & H).
  unfold cl_lexhash_del. rewrite E. res_cbn. destruct H as [(-> & Hnone & _)|(Hp & Hp0 & e & He & Hk & HMv)].
  - rewrite Hnone. exists h, hash, []. split; [done |]. split; [| done]. rewrite delete_id by done. by exists lists.
  - rewrite HMv, (proj2 (Z.eqb_neq p 0) Hp0), (hget_Ok h p e He). res_cbn.
    apply list_elem_of_split in Hp as (l1 & l2 & ->).
    pose proof (hash_offset hash token (proj1 (wf_buckets _ _ _ W))) as Hoff.
    destruct (unlink_shape h hash lists p _ l1 l2 W Hoff Hl) as (h1 & t & -> & Ht & Hch & Hcon & Hself). res_cbn.
    unfold cl_delete_lexhash_entry. cbn [fst]. rewrite (hget_Ok h1 p e (Hself e He)). res_cbn. cbn [fst snd entries set_table].
    destruct (wf_remove h hash lists M _ l1 p l2 e h1 t W HM Hl He Ht Hch Hcon) as [W1 HM1]. rewrite Hk in HM1.
    assert (0 < entries hash) as Hpos.
    { rewrite (wf_entries _ _ _ W). assert (p ∈ mjoin lists) as Hp by (eapply bucket_elem; [exact Hl |]; apply elem_of_app; right; by left).
      destruct (mjoin lists) as [|x m]; [by apply not_elem_of_nil in Hp |]. rewrite zlen_cons. pose proof (zlen_nonneg m). lia. }
    pose proof (wf_bound _ _ _ W).
    rewrite (c_int_Ok (entries hash - 1)) by (unfold INT_MIN; lia). res_cbn.
    eexists _, _, _. split; [reflexivity |]. split; [| split; [done |]; split; [done |]].
    + eexists. split; [exact W1 |]. split; [exact HM1 |].
      cbn [entries set_counts]. assert (1 + size (delete token M) = size M)%nat as Hs; [| lia].
      rewrite <- (insert_delete_id M token (val_of e) HMv) at 2. rewrite map_size_insert_None by apply lookup_delete_eq. lia.
    + unfold content. cbn [cleanup_func set_table]. destruct (cleanup_func hash); [cbn; by rewrite Hk | done].
Qed.
End Map.
