(* ===== verification/LexhashSpec.v ===== *)
(** * Lexicon hashes: the refinement of finite maps

    Any sequence of operations on a new hash (cl/lexhash.c) answers as a finite
    map from strings to frequencies and ids would, whatever the number of buckets
    and however often the table grows.  The iterator visits every entry once, and
    deleting a hash frees every entry. *)

From Stdlib Require Import ZArith Lia SpecFloat.
From stdpp Require Import base tactics option list numbers gmap.
From S2P Require Import Prelude Lexhash LexhashMap.

Open Scope Z_scope.

Section Spec.
Context (malloc : heap -> Z) {cleanup : Type}.
Hypothesis malloc_new : forall h, h !! malloc h = None /\ malloc h <> 0.

Abbreviation hash_t := (@lexhash cleanup).

(** ** A new hash *)

Lemma new_represents h b :
  b <= MAX_BUCKETS -> exists hash : hash_t, cl_new_lexhash b = Ok hash /\ represents h hash ∅ /\ next_id hash = 0 /\ entries hash = 0.
Proof.
  intros Hb. destruct (@cl_new_lexhash_ok cleanup b Hb) as (hash & E & Hbk & Ht & Hid & Hen & Htar & _).
  exists hash. split; [exact E |]. split; [| split; assumption].
  assert (forall k, mjoin (replicate k (@nil Z)) = []) as Hnil by (induction k; [done | cbn; done]).
  exists (replicate (Z.to_nat (buckets hash)) []). split; [| split].
  - apply mkWf; rewrite ?Hnil; [exact Hbk | | | | | | | rewrite Hen; unfold INT_MAX; lia |].
    + rewrite Ht, zlen_replicate. lia.
    + rewrite Ht. clear. induction (Z.to_nat (buckets hash)); by constructor.
    + constructor.
    + intros c l p e [-> _]%lookup_replicate Hp. by apply not_elem_of_nil in Hp.
    + intros p q e d Hp. by apply not_elem_of_nil in Hp.
    + by rewrite Hen.
    + rewrite Htar. apply default_target_positive.
  - intros k v. rewrite lookup_empty, Hnil. split; [done |]. intros (p & e & Hp & _). by apply not_elem_of_nil in Hp.
  - by rewrite Hen.
Qed.

(** ** Settings *)

Lemma settings_represents h (hash hash' : hash_t) M :
  represents h hash M -> table hash' = table hash -> buckets hash' = buckets hash -> entries hash' = entries hash ->
  positive_double (fillrate_target hash') -> represents h hash' M.
Proof.
  intros (lists & [W1 W2 W3 W4 W5 W6 W7 W8 W9] & HM & Hs) Et Eb Ee Hp. exists lists. rewrite Ee. split; [| done].
  constructor; rewrite ?Et, ?Eb, ?Ee; done.
Qed.

Lemma represents_target h hash M : represents h (hash : hash_t) M -> positive_double (fillrate_target hash).
Proof. intros (lists & W & _). apply (wf_target _ _ _ W). Qed.

(** ** The iterator *)

(** The entries that the iterator will return. *)
Definition iterating (h : heap) (hash : hash_t) (lists : list (list Z)) (rest : list Z) : Prop :=
  -1 <= iter_bucket hash < buckets hash /\
  exists l, chain h (iter_point hash) l /\ rest = l ++ mjoin (drop (Z.to_nat (iter_bucket hash + 1)) lists).

Lemma set_iter_wf h hash lists b p : wf h (hash : hash_t) lists -> wf h (set_iter hash b p) lists.
Proof. intros []. by constructor. Qed.

Lemma iterator_loop h (hash : hash_t) lists rest :
  wf h hash lists -> iterating h hash lists rest ->
  exists r, loop (iterator_round hash) fuel (iter_bucket hash, iter_point hash) = Ok r /\
    ((rest = [] /\ r.2 = 0) \/
     (-1 <= r.1 < buckets hash /\ r.2 <> 0 /\ exists l, chain h r.2 l /\ rest = l ++ mjoin (drop (Z.to_nat (r.1 + 1)) lists))).
Proof.
  intros W (Hb0 & l0 & Hc0 & Hr0). pose proof (wf_buckets _ _ _ W) as Hbk. unfold MAX_BUCKETS in Hbk.
  assert (length lists = Z.to_nat (buckets hash)) as Hlen.
  { pose proof (wf_size _ _ _ W) as Hs. unfold zlen in Hs. rewrite <- (Forall2_length _ _ _ (wf_chains _ _ _ W)). lia. }
  apply (loop_rule (iterator_round hash)
    (fun s => -1 <= s.1 < buckets hash /\ exists l, chain h s.2 l /\ rest = l ++ mjoin (drop (Z.to_nat (s.1 + 1)) lists)) _
    (fun s => buckets hash - s.1)).
  - intros [b p] (Hb & l & Hc & Hr). cbn [fst snd] in *. split; [lia |]. unfold iterator_round.
    destruct (Z.eqb_spec p 0) as [->|Hp]; [| right; exists (b, p); split; [done |]; right; by eauto].
    apply chain_end in Hc as ->. cbn [app] in Hr.
    rewrite c_int_Ok by (unfold INT_MIN, INT_MAX; lia). res_cbn. destruct (Z.leb_spec (buckets hash) (b + 1)).
    + right. exists (b + 1, 0). split; [done |]. left. split; [| done]. rewrite Hr, drop_ge by lia. done.
    + destruct (wf_lookup h hash lists (b + 1) W) as (q & lb & _ & -> & Hl & Hcq); [lia |]. res_cbn.
      left. exists (b + 1, q). split; [done |]. cbn [fst snd]. split; [| lia]. split; [lia |]. exists lb. split; [done |].
      rewrite Hr, (drop_S _ _ _ Hl). by replace (Z.to_nat (b + 1 + 1)) with (S (Z.to_nat (b + 1))) by lia.
  - cbn [fst snd]. eauto.
  - rewrite fuel_val. cbn [fst]. lia.
Qed.

Lemma iterator_next_ok h (hash : hash_t) lists rest :
  wf h hash lists -> iterating h hash lists rest ->
  match rest with
  | [] => exists hash', cl_lexhash_iterator_next h hash = Ok (0, hash')
  | q :: rest' => exists hash', cl_lexhash_iterator_next h hash = Ok (q, hash') /\ wf h hash' lists /\ iterating h hash' lists rest'
  end.
Proof.
  intros W Hit. destruct (iterator_loop h hash lists rest W Hit) as ([b p] & E & H). unfold cl_lexhash_iterator_next.
  rewrite E. res_cbn. cbn [fst snd] in H. destruct H as [(-> & ->)|(Hb & Hp & l & Hc & ->)].
  - cbn [Z.eqb]. by eexists.
  - rewrite (proj2 (Z.eqb_neq p 0) Hp). destruct l as [|q l]; [by cbn in Hc |]. destruct Hc as (-> & _ & e & He & Hc).
    rewrite (hget_Ok h q e He). res_cbn. cbn [app]. eexists. split; [reflexivity |].
    split; [by apply set_iter_wf |]. split; [done |]. by exists l.
Qed.

(** Calling the iterator [n] times. *)
Fixpoint iterate (n : nat) (h : heap) (hash : hash_t) : res (list Z) :=
  match n with
  | O => Ok []
  | S n => r ← cl_lexhash_iterator_next h hash; ps ← iterate n h r.2; Ok (r.1 :: ps)
  end.

Lemma iterate_ok h lists rest hash :
  wf h hash lists -> iterating h hash lists rest -> iterate (S (length rest)) h hash = Ok (rest ++ [0]).
Proof.
  revert hash. induction rest as [|q rest IH]; intros hash W Hit; pose proof (iterator_next_ok h hash lists _ W Hit) as H.
  - destruct H as (hash' & E). cbn [iterate length]. rewrite E. by res_cbn.
  - destruct H as (hash' & E & W' & Hit'). cbn [length]. remember (S (length rest)) as n eqn:En. cbn [iterate].
    rewrite E. res_cbn. cbn [snd]. subst n. rewrite (IH hash' W' Hit'). by res_cbn.
Qed.

(** ** Deleting the hash *)

Definition freed_from (h : heap) (ps : list Z) (h' : heap) : Prop :=
  forall q, h' !! q = if decide (q ∈ ps) then None else h !! q.

(** The calls of the cleanup function for the entries [ps]. *)
Definition cleanup_calls (h : heap) (hash : hash_t) (ps : list Z) : list (cleanup * entry) :=
  match cleanup_func hash with Some f => omap (fun p => (f,.) <$> h !! p) ps | None => [] end.

Lemma cleanup_calls_app h hash ps qs : cleanup_calls h hash (ps ++ qs) = cleanup_calls h hash ps ++ cleanup_calls h hash qs.
Proof. unfold cleanup_calls. destruct (cleanup_func hash); [apply omap_app | done]. Qed.

Lemma cleanup_calls_one h hash p e :
  h !! p = Some e -> cleanup_calls h hash [p] = match cleanup_func hash with Some f => [(f, e)] | None => [] end.
Proof. intros He. unfold cleanup_calls. destruct (cleanup_func hash); [| done]. cbn [omap list_omap]. by rewrite He. Qed.

Lemma delete_bucket h hash ps l p h1 calls :
  chain h p l -> NoDup (ps ++ l) -> zlen l <= INT_MAX -> freed_from h ps h1 -> calls = cleanup_calls h hash ps ->
  exists h2, loop (delete_round hash) fuel (p, (h1, calls)) = Ok (h2, cleanup_calls h hash (ps ++ l)) /\ freed_from h (ps ++ l) h2.
Proof.
  intros Hc Hnd Hlen Hf ->.
  destruct (loop_indexed (delete_round hash) (fun n s => exists l1 l2, l = l1 ++ l2 /\ chain h s.1 l2 /\
      freed_from h (ps ++ l1) s.2.1 /\ s.2.2 = cleanup_calls h hash (ps ++ l1) /\ n = zlen l2)
    (fun r => freed_from h (ps ++ l) r.1 /\ r.2 = cleanup_calls h hash (ps ++ l)))
    with (p := fuel) (n := zlen l) (s := (p, (h1, cleanup_calls h hash ps))) as ([h2 calls] & E & H2 & Hcalls).
  - intros n [q [h2 calls]] (l1 & l2 & -> & Hq & Hf2 & Hcalls & ->). split; [apply zlen_nonneg |]. cbn [fst snd] in *.
    unfold delete_round. destruct l2 as [|x l2]; cbn in Hq.
    + right. subst q. exists (h2, calls). rewrite app_nil_r. by split.
    + left. destruct Hq as (-> & Hx & e & He & Hq). rewrite (proj2 (Z.eqb_neq x 0) Hx). cbn [fst].
      assert (x ∉ ps ++ l1) as Hxn.
      { rewrite app_assoc in Hnd. apply NoDup_app in Hnd as (_ & Hdis & _). intros Hin. apply (Hdis x Hin). by left. }
      assert (h2 !! x = Some e) as He2 by (rewrite Hf2, decide_False by done; exact He).
      rewrite (hget_Ok h2 x e He2). res_cbn. unfold cl_delete_lexhash_entry. cbn [fst snd]. rewrite (hget_Ok h2 x e He2). res_cbn.
      eexists _, (zlen l2). split; [reflexivity |]. split; [| rewrite zlen_cons; lia].
      exists (l1 ++ [x]), l2. cbn [fst snd]. split; [by rewrite <- app_assoc |]. split; [done |]. split; [| split; [| done]].
      * intros r. rewrite app_assoc. destruct (decide (r = x)) as [->|Hr].
        -- rewrite lookup_delete_eq, decide_True; [done |]. apply elem_of_app. right. by left.
        -- rewrite lookup_delete_ne, Hf2 by done. destruct (decide (r ∈ ps ++ l1)) as [Hin|Hin].
           ++ rewrite decide_True; [done |]. apply elem_of_app. by left.
           ++ rewrite decide_False; [done |]. rewrite elem_of_app, list_elem_of_singleton. tauto.
      * rewrite app_assoc, cleanup_calls_app, (cleanup_calls_one h hash x e He), Hcalls.
        by destruct (cleanup_func hash); rewrite ?app_nil_r.
  - exists [], l. rewrite app_nil_r. by repeat (split; [done |]).
  - rewrite fuel_val. unfold INT_MAX in Hlen. lia.
  - exists h2. cbn [fst snd] in *. rewrite E. by subst calls.
Qed.

Lemma cl_delete_lexhash_ok h (hash : hash_t) lists :
  wf h hash lists ->
  exists h', cl_delete_lexhash h (Some hash) = Ok (h', cleanup_calls h hash (mjoin lists)) /\ freed_from h (mjoin lists) h'.
Proof.
  intros W. pose proof (wf_buckets _ _ _ W) as Hb.
  assert (length lists = Z.to_nat (buckets hash)) as Hlen.
  { pose proof (wf_size _ _ _ W) as Hs. unfold zlen in Hs. rewrite <- (Forall2_length _ _ _ (wf_chains _ _ _ W)). lia. }
  destruct (for_up_rule (fun i s => p ← aget (table hash) i; loop (delete_round hash) fuel (p, s))
    (fun i s => freed_from h (mjoin (take (Z.to_nat i) lists)) s.1 /\ s.2 = cleanup_calls h hash (mjoin (take (Z.to_nat i) lists)))
    0 (buckets hash) (h, [])) as ([h' calls] & E & H1 & H2).
  - lia.
  - intros i [h1 calls] Hi [Hf Hcalls]. cbn [fst snd] in *.
    destruct (wf_lookup h hash lists i W Hi) as (p & l & _ & -> & Hl & Hc). res_cbn.
    assert (mjoin (take (Z.to_nat (i + 1)) lists) = mjoin (take (Z.to_nat i) lists) ++ l) as ->.
    { replace (Z.to_nat (i + 1)) with (S (Z.to_nat i)) by lia. rewrite (take_S_r _ _ _ Hl), join_app. cbn. by rewrite app_nil_r. }
    destruct (delete_bucket h hash (mjoin (take (Z.to_nat i) lists)) l p h1 calls Hc) as (h2 & -> & Hf2); try done.
    + pose proof (wf_nodup _ _ _ W) as Hnd. rewrite <- (take_drop_middle lists _ l Hl), join_app in Hnd. cbn in Hnd.
      rewrite app_assoc in Hnd. by apply NoDup_app in Hnd as [? _].
    + pose proof (bucket_length lists _ _ Hl). pose proof (wf_entries _ _ _ W). pose proof (wf_bound _ _ _ W). lia.
    + eexists. split; [reflexivity | by split].
  - split; [| unfold cleanup_calls; cbn; by destruct (cleanup_func hash)].
    intros q. cbn. rewrite decide_False; [done | apply not_elem_of_nil].
  - exists h'. unfold cl_delete_lexhash. rewrite E. cbn [fst snd] in *. rewrite take_ge in * by lia. by subst calls.
Qed.

(** ** Sequences of operations *)

Inductive op :=
| Add (token : list Z)
| Del (token : list Z)
| Find (token : list Z)
| Id (token : list Z)
| Freq (token : list Z)
| Size
| AutoGrow (flag : bool)
| FillRate (limit target : double)
| Cleanup (f : option cleanup).

(** The sizes of target fill rates that are not infinite. *)
Definition admissible (o : op) : Prop :=
  match o with FillRate _ target => forall s, target <> S754_infinity s | _ => True end.

(** The frequency and the id of the entry that a pointer leads to. *)
Definition answer (h : heap) (p : Z) : res (list Z) :=
  if p =? 0 then Ok [] else e ← hget h p; Ok [freq e; id e].

Definition step (o : op) (st : heap * hash_t) : res (heap * hash_t * list Z) :=
  let '(h, hash) := st in
  let set (m : option hash_t) := hash ← deref m; Ok (h, hash, []) in
  match o with
  | Add token => r ← cl_lexhash_add malloc h hash token; let '(p, h, hash) := r in a ← answer h p; Ok (h, hash, a)
  | Del token => r ← cl_lexhash_del h hash token; let '(f, h, hash, _) := r in Ok (h, hash, [f])
  | Find token => p ← cl_lexhash_find h hash token; a ← answer h p; Ok (h, hash, a)
  | Id token => i ← cl_lexhash_id h hash token; Ok (h, hash, [i])
  | Freq token => f ← cl_lexhash_freq h hash token; Ok (h, hash, [f])
  | Size => Ok (h, hash, [cl_lexhash_size (Some hash)])
  | AutoGrow flag => set (cl_lexhash_auto_grow (Some hash) flag)
  | FillRate limit target => set (cl_lexhash_auto_grow_fillrate (Some hash) limit target)
  | Cleanup f => set (cl_lexhash_set_cleanup_function (Some hash) f)
  end.

Fixpoint run (ops : list op) (st : heap * hash_t) : res (list (list Z)) :=
  match ops with
  | [] => Ok []
  | o :: ops => r ← step o st; let '(h, hash, a) := r in rest ← run ops (h, hash); Ok (a :: rest)
  end.

(** The specification: a finite map and the number of ids that were given out. *)
Definition spec_state : Type := gmap (list Z) value * Z.

Definition spec_step (o : op) (st : spec_state) : spec_state * list Z :=
  let '(M, n) := st in
  match o with
  | Add token =>
      let v := added M n token in
      ((<[token := v]> M, match M !! token with Some _ => n | None => n + 1 end), [v_freq v; v_id v])
  | Del token => ((delete token M, n), [match M !! token with Some v => s32 (v_freq v) | None => 0 end])
  | Find token => ((M, n), match M !! token with Some v => [v_freq v; v_id v] | None => [] end)
  | Id token => ((M, n), [match M !! token with Some v => v_id v | None => -1 end])
  | Freq token => ((M, n), [match M !! token with Some v => s32 (v_freq v) | None => 0 end])
  | Size => ((M, n), [Z.of_nat (size M)])
  | _ => ((M, n), [])
  end.

Fixpoint spec_run (ops : list op) (st : spec_state) : list (list Z) :=
  match ops with
  | [] => []
  | o :: ops => let '(st, a) := spec_step o st in a :: spec_run ops st
  end.

(** The relation between both states, with room for [k] more operations. *)
Definition simulates (k : Z) (st : heap * hash_t) (sp : spec_state) : Prop :=
  represents st.1 st.2 sp.1 /\ next_id st.2 = sp.2 /\ 0 <= sp.2 /\ sp.2 + k <= INT_MAX /\ entries st.2 + k <= INT_MAX.

Lemma answer_ok h p e : p <> 0 -> h !! p = Some e -> answer h p = Ok [freq e; id e].
Proof. intros Hp He. unfold answer. rewrite (proj2 (Z.eqb_neq p 0) Hp), (hget_Ok h p e He). by res_cbn. Qed.

Lemma size_entries h hash M : represents h (hash : hash_t) M -> entries hash = Z.of_nat (size M).
Proof. by intros (lists & _ & _ & H). Qed.

Lemma size_insert_le (M : gmap (list Z) value) k v : (size (<[k := v]> M) <= size M + 1)%nat.
Proof. rewrite map_size_insert. destruct (M !! k); cbn; lia. Qed.

Lemma step_ok o k st sp :
  admissible o -> simulates (1 + k) st sp -> 0 <= k ->
  exists st', step o st = Ok (st', (spec_step o sp).2) /\ simulates k st' (spec_step o sp).1.
Proof.
  destruct st as [h hash], sp as [M n]. unfold simulates; cbn [fst snd]. intros Hadm (HR & Hid & Hn & Hmax & Hent) Hk.
  assert (forall hash' : hash_t, table hash' = table hash -> buckets hash' = buckets hash -> entries hash' = entries hash ->
    next_id hash' = next_id hash -> positive_double (fillrate_target hash') -> simulates k (h, hash') (M, n)) as Hset.
  { intros hash' Et Eb Ee Ei Hp. unfold simulates; cbn [fst snd].
    split; [by apply (settings_represents h hash) |]. rewrite Ei, Ee. split; [done |]. split; [done |]. lia. }
  assert (simulates k (h, hash) (M, n)) as Hsame by (apply Hset; try reflexivity; by eapply represents_target).
  destruct o as [token|token|token|token|token| |flag|limit target|f]; cbn [step spec_step fst snd].
  - destruct (cl_lexhash_add_ok malloc malloc_new h hash M token HR) as (p & h' & hash' & E & HR' & Hid' & Hp & Hcon & _); [lia | lia |].
    rewrite E. res_cbn. apply fmap_Some in Hcon as (e & He & Hc). rewrite (answer_ok h' p e Hp He). res_cbn.
    rewrite Hid in Hc. assert (freq e = v_freq (added M n token) /\ id e = v_id (added M n token)) as [-> ->].
    { unfold content in Hc. injection Hc as _ Hc. by rewrite Hc. }
    exists (h', hash'). split; [done |]. unfold simulates; cbn [fst snd]. rewrite Hid in HR', Hid'.
    split; [done |]. split; [done |]. rewrite (size_entries _ _ _ HR'). rewrite (size_entries _ _ _ HR) in Hent.
    pose proof (size_insert_le M token (added M n token)). destruct (M !! token); lia.
  - destruct (cl_lexhash_del_ok h hash M token HR) as (h' & hash' & calls & E & HR' & Hid' & _). rewrite E. res_cbn.
    exists (h', hash'). split; [done |]. unfold simulates; cbn [fst snd]. split; [done |]. split; [congruence |].
    rewrite (size_entries _ _ _ HR'). rewrite (size_entries _ _ _ HR) in Hent. split; [done |].
    assert (size (delete token M) <= size M)%nat by (rewrite map_size_delete; destruct (M !! token); cbn; lia). lia.
  - destruct (cl_lexhash_find_ok h hash M token HR) as (p & E & Hp). rewrite E. res_cbn. exists (h, hash). split; [| done].
    destruct (M !! token) as [v|]; [| by subst p].
    destruct Hp as (Hp & e & He & _ & <-). rewrite (answer_ok h p e Hp He). by res_cbn.
  - rewrite (cl_lexhash_id_ok h hash M token HR). res_cbn. by exists (h, hash).
  - rewrite (cl_lexhash_freq_ok h hash M token HR). res_cbn. by exists (h, hash).
  - exists (h, hash). cbn [cl_lexhash_size]. by rewrite (size_entries _ _ _ HR).
  - eexists (h, _). split; [reflexivity |]. apply Hset; try reflexivity. by apply (represents_target h hash M).
  - eexists (h, _). split; [reflexivity |]. apply Hset; try reflexivity. by eapply (fillrate_positive hash).
  - eexists (h, _). split; [reflexivity |]. apply Hset; try reflexivity. by apply (represents_target h hash M).
Qed.

Lemma run_ok ops st sp :
  Forall admissible ops -> simulates (zlen ops) st sp -> run ops st = Ok (spec_run ops sp).
Proof.
  revert st sp. induction ops as [|o ops IH]; intros st sp Hadm Hsim; [done |].
  apply Forall_cons in Hadm as [Ho Hadm]. rewrite zlen_cons in Hsim. cbn [run spec_run].
  destruct (step_ok o (zlen ops) st sp Ho Hsim (zlen_nonneg ops)) as ([h hash] & -> & Hsim'). res_cbn.
  destruct (spec_step o sp) as [sp' a]. cbn [fst snd] in *. rewrite (IH _ _ Hadm Hsim'). by res_cbn.
Qed.
End Spec.

(** ** The properties *)

(** C17. A lexicon hash refines a finite map: for any number of buckets up to the
    maximum and any sequence of operations (fewer than 2^31), the run from a new
    hash returns without a fault and answers every operation as the map from
    strings to frequencies and ids does.  Growing the table, the settings and the
    cleanup function never show in an answer; ids are never given out twice. *)
Theorem lexhash_refines_map (malloc : heap -> Z) {cleanup : Type} (b : Z) (ops : list (@op cleanup)) (h : heap) :
  (forall h, h !! malloc h = None /\ malloc h <> 0) -> b <= MAX_BUCKETS ->
  Forall admissible ops -> zlen ops <= INT_MAX ->
  exists hash, cl_new_lexhash b = Ok hash /\ run malloc ops (h, hash) = Ok (spec_run ops (∅, 0)).
Proof.
  intros Hm Hb Hadm Hlen. destruct (@new_represents cleanup h b Hb) as (hash & E & HR & Hid & Hen).
  exists hash. split; [done |]. apply (run_ok malloc Hm); [done |]. unfold simulates; cbn [fst snd].
  by rewrite Hid, Hen.
Qed.

(** C38. The iterator, after a reset, returns every entry of the hash once and then
    NULL; deleting the hash calls the cleanup function once for each of these
    entries, with the entry, frees them all and nothing else. *)
Theorem lexhash_entries_once (h : heap) {cleanup : Type} (hash : @lexhash cleanup) (M : gmap (list Z) value) :
  represents h hash M ->
  exists ps hash' h', cl_lexhash_iterator_reset hash = Ok hash' /\ iterate (S (length ps)) h hash' = Ok (ps ++ [0]) /\
    NoDup ps /\ (fun p => content <$> h !! p) <$> ps ≡ₚ Some <$> map_to_list M /\
    cl_delete_lexhash h (Some hash) = Ok (h', cleanup_calls h hash ps) /\
    forall q, h' !! q = if decide (q ∈ ps) then None else h !! q.
Proof.
  intros (lists & W & HM & Hs). destruct (cl_delete_lexhash_ok h hash lists W) as (h' & Ed & Hf).
  exists (mjoin lists), (set_iter hash (-1) 0), h'.
  unfold cl_lexhash_iterator_reset. rewrite (proj2 (Z.ltb_lt _ _) (proj1 (wf_buckets _ _ _ W))). res_cbn.
  split; [done |]. split.
  { apply (iterate_ok h lists); [by apply set_iter_wf |]. split; [pose proof (wf_buckets _ _ _ W); cbn; lia |]. by exists []. }
  split; [apply (wf_nodup _ _ _ W) |]. split; [| by split].
  rewrite models_content in HM. apply NoDup_Permutation.
  - apply NoDup_fmap_2_strong; [| apply (wf_nodup _ _ _ W)]. intros p q Hp Hq E.
    destruct (elem_heap h hash lists p W Hp) as (_ & e & He), (elem_heap h hash lists q W Hq) as (_ & d & Hd).
    rewrite He, Hd in E. injection E as Hk _. by apply (wf_keys _ _ _ W p q e d).
  - apply NoDup_fmap_2; [by intros x y [= ->] | apply NoDup_map_to_list].
  - intros [[k v]|]; rewrite !list_elem_of_fmap; split.
    + intros (p & E & Hp). exists (k, v). split; [done |]. apply elem_of_map_to_list, HM. by exists p.
    + intros ([k' v'] & [= <- <-] & (p & Hp & E)%elem_of_map_to_list%HM). by exists p.
    + intros (p & E & Hp). destruct (elem_heap h hash lists p W Hp) as (_ & e & He). by rewrite He in E.
    + by intros ([k v] & ? & _).
Qed.

(** [find_prime] returns for every size up to the maximal number of buckets: the
    smallest number at least as large that no number divides (a prime, unless it
    is 1), at most the maximum itself; no product overflows on the way. *)
Theorem find_prime_correct (n : Z) :
  0 < n <= MAX_BUCKETS ->
  exists p, find_prime n = Ok p /\ n <= p <= MAX_BUCKETS /\ (1 < p -> Znumtheory.prime p) /\
    (p = 1 \/ forall q, 1 < q -> n <= q < p -> ~ Znumtheory.prime q).
Proof.
  intros Hn. destruct (find_prime_ok n Hn) as (p & E & Hp & Hd & Hleast). exists p.
  split; [done |]. split; [done |]. split; [by intros H; apply no_divisor_prime |].
  right. intros q Hq Hr Hprime. apply (Hleast q Hr). by apply no_divisor_prime.
Qed.

(** ** Witnesses *)

(** The smallest address behind all entries. *)
Definition next_address (h : heap) : Z := 1 + foldr Z.max 0 (map_to_list h).*1.

Lemma next_address_new h : h !! next_address h = None /\ next_address h <> 0.
Proof.
  assert (forall l : list Z, 0 <= foldr Z.max 0 l /\ forall p, p ∈ l -> p <= foldr Z.max 0 l) as Hmax.
  { induction l as [|q l [IH1 IH2]]; cbn; [split; [lia | by intros p ?%not_elem_of_nil] |].
    split; [lia |]. intros p [->|Hp%IH2]%elem_of_cons; lia. }
  destruct (Hmax (map_to_list h).*1) as [H1 H2]. unfold next_address. split; [| lia].
  apply eq_None_not_Some. intros [e He]. assert (1 + foldr Z.max 0 (map_to_list h).*1 ∈ (map_to_list h).*1) as Hin; [| apply H2 in Hin; lia].
  apply list_elem_of_fmap. exists (1 + foldr Z.max 0 (map_to_list h).*1, e). split; [done |]. by apply elem_of_map_to_list.
Qed.

(** One bucket, so that the table has to grow. *)
Definition some_ops : list (@op unit) :=
  [FillRate (int_to_double 1) (int_to_double 1); Add [97]; Add [98]; Add [97]; Cleanup (Some ()); Add [99]; Del [98]; Add [98]; Freq [97]; Id [98]; Size].

Lemma lexhash_refines_map_witness :
  exists hash, @cl_new_lexhash unit 1 = Ok hash /\ run next_address some_ops (∅, hash) = Ok (spec_run some_ops (∅, 0)).
Proof.
  apply (lexhash_refines_map next_address 1 some_ops ∅).
  - apply next_address_new.
  - unfold MAX_BUCKETS. lia.
  - by repeat constructor.
  - vm_compute. discriminate.
Defined.

Example some_answers : spec_run some_ops (∅, 0) = [[]; [1; 0]; [1; 1]; [2; 0]; []; [1; 2]; [1]; [1; 3]; [2]; [3]; [3]].
Proof. by vm_compute. Qed.

Definition two_entries : heap := {[ 1 := mkEntry 2 3 0 zero_payload [97]; 2 := mkEntry 0 1 1 zero_payload [98] ]}.

Definition two_hash : @lexhash unit :=
  mkLexhash [1] 1 2 2 (Some ()) true DEFAULT_FILLRATE_LIMIT DEFAULT_FILLRATE_TARGET (-1) 0.

Definition two_map : gmap (list Z) value := {[ [97] := mkValue 3 0 zero_payload; [98] := mkValue 1 1 zero_payload ]}.

Lemma two_represents : represents two_entries two_hash two_map.
Proof.
  exists [[1; 2]]. split; [| split; [| done]].
  - apply mkWf; [unfold MAX_BUCKETS; cbn; lia | done | | | | | done | done | apply default_target_positive].
    + repeat constructor; try done. exists (mkEntry 2 3 0 zero_payload [97]). repeat split; try done.
      by exists (mkEntry 0 1 1 zero_payload [98]).
    + by apply (bool_decide_unpack _).
    + intros [|[|b]] l p e Hl Hp He; [| done | done]. cbn [buckets two_hash]. by rewrite Z.mod_1_r.
    + intros p q e d Hp Hq He Hd Hk. cbn in Hp, Hq. rewrite !elem_of_cons, elem_of_nil in Hp, Hq.
      destruct Hp as [->|[->|[]]], Hq as [->|[->|[]]]; try done; cbv in He, Hd; injection He as <-; injection Hd as <-; done.
  - intros k v. unfold two_map. split.
    + intros [[<- <-]|[Hne [<- <-]%lookup_singleton_Some]]%lookup_insert_Some.
      * exists 1, (mkEntry 2 3 0 zero_payload [97]). split; [by apply (bool_decide_unpack _) | done].
      * exists 2, (mkEntry 0 1 1 zero_payload [98]). split; [by apply (bool_decide_unpack _) | done].
    + intros (p & e & Hp & He & Hc). cbn in Hp. rewrite !elem_of_cons, elem_of_nil in Hp.
      destruct Hp as [->|[->|[]]]; cbv in He; injection He as <-; injection Hc as <- <-; done.
Qed.

Lemma lexhash_entries_once_witness :
  exists ps hash' h', cl_lexhash_iterator_reset two_hash = Ok hash' /\ iterate (S (length ps)) two_entries hash' = Ok (ps ++ [0]) /\
    NoDup ps /\ (fun p => content <$> two_entries !! p) <$> ps ≡ₚ Some <$> map_to_list two_map /\
    cl_delete_lexhash two_entries (Some two_hash) = Ok (h', cleanup_calls two_entries two_hash ps) /\
    forall q, h' !! q = if decide (q ∈ ps) then None else two_entries !! q.
Proof. apply lexhash_entries_once, two_represents. Defined.

Lemma find_prime_correct_witness :
  exists p, find_prime 250000 = Ok p /\ 250000 <= p <= MAX_BUCKETS /\ (1 < p -> Znumtheory.prime p) /\
    (p = 1 \/ forall q, 1 < q -> 250000 <= q < p -> ~ Znumtheory.prime q).
Proof. apply find_prime_correct. unfold MAX_BUCKETS. lia. Defined.

(** Deleting a missing hash follows the NULL pointer, although the loops are
    guarded against it. *)
Example delete_null_hash : @cl_delete_lexhash unit ∅ None = Err NullDeref.
Proof. reflexivity. Qed.

(** Near the largest [int] the test of a prime squares a number that is too big. *)
Example is_prime_overflow : is_prime INT_MAX = Err IntOverflow.
Proof. by vm_compute. Qed.
