(* ===== verification/Evaltree.v ===== *)
(** * Evaluation trees: the search string of cqp/tree.c

    The regular expression of a query is a tree over the numbers of its patterns.
    [evaltree2searchstr] prints it for the parser of regex2dfa.c.  A string is the
    list of its bytes without the NUL; buffers have the size the code computes,
    so that every byte written is checked. *)

From Stdlib Require Import ZArith Lia Ascii String.
From stdpp Require Import base tactics option list numbers.
From S2P Require Import Prelude.

Open Scope Z_scope.

Definition repeat_inf : Z := -1.
Definition repeat_none : Z := -2.

Inductive re_ops := re_od_concat | re_oi_concat | re_disj | re_repeat.

(** A tree is a pointer: [Null], or one of the members of the union; the other
    two types belong to MU and TAB queries. *)
Inductive Evaltree :=
| Null
| Node (op_id : re_ops) (left right : Evaltree) (min max : Z)
| Leaf (patindex : Z)
| MeetUnion
| Tabular.

(** ** Strings *)

(** The bytes of a string constant. *)
Definition bytes (s : string) : list Z := (fun c => Z.of_N (N_of_ascii c)) <$> list_ascii_of_string s.

(** The decimal digits of a positive number, before those of [acc]. *)
Fixpoint digits (n : nat) (x : Z) (acc : list Z) : list Z :=
  match n with
  | O => acc
  | S n => if x =? 0 then acc else digits n (x / 10) ((48 + x mod 10) :: acc)
  end.

(** [%d] *)
Definition print_int (x : Z) : list Z :=
  if x =? 0 then bytes "0" else if x <? 0 then bytes "-" ++ digits 10 (- x) [] else digits 10 x [].

Definition c_malloc_size (n : Z) : res Z := if n <? 0 then Err ExitCall else Ok n.

(** [sprintf] into a buffer: the string and its NUL have to fit. *)
Definition sprintf (size : Z) (text : list Z) : res (list Z) :=
  if zlen text <? size then Ok text else Err OutOfBounds.

(** [result[p++] = c] in a buffer of some size: the bytes written so far. *)
Definition put (size : Z) (result : list Z) (c : Z) : res (list Z) :=
  if zlen result <? size then Ok (result ++ [c]) else Err OutOfBounds.

(** [for (l = 0; text[l]; l++) { result[p] = text[l]; p++; }] *)
Fixpoint puts (size : Z) (result text : list Z) : res (list Z) :=
  match text with [] => Ok result | c :: text => result ← put size result c; puts size result text end.

(** [result[p] = '\0'] *)
Definition put_nul (size : Z) (result : list Z) : res (list Z) :=
  if zlen result <? size then Ok result else Err OutOfBounds.

(** ** [evaltree2searchstr] *)

(** The repetitions that are printed one by one, into a buffer of [size] bytes. *)
Definition write_repeat (size : Z) (left : option (list Z)) (min remain : Z) : res (list Z) :=
  result ← for_up (fun _ r => l ← deref left; r ← puts size r l; put size r 32) 0 min [];
  result ← (if remain =? repeat_inf then
              r ← puts size result (bytes "( ");
              l ← deref left;
              r ← puts size r l;
              puts size r (bytes " )*")
            else
              r ← for_up (fun _ r => r ← put size r 91; l ← deref left; r ← puts size r l; put size r 32) 0 remain result;
              for_up (fun _ r => put size r 93) 0 remain r);
  put_nul size result.

(** The size of the buffer and its contents. *)
Definition print_repeat (left : option (list Z)) (len_l min max : Z) : res (list Z * Z) :=
  remain ← (if max =? repeat_inf then Ok repeat_inf else c_int (max - min));
  n1 ← c_int (len_l + 1);
  length ← c_int (min * n1);
  length ← (if remain =? repeat_inf then a ← c_int (length + len_l); c_int (a + 5)
            else a ← c_int (len_l + 4); b ← c_int (remain * a); c_int (length + b));
  size ← c_malloc_size length;
  result ← write_repeat size left min remain;
  Ok (result, length).

(** The string (if the pointer is not NULL) and the size of its buffer.  Memory
    for [*length] bytes is allocated; a negative number of them leaves the
    program.  NULL is no argument for [%s]. *)
Fixpoint evaltree2searchstr (etptr : Evaltree) : res (option (list Z) * Z) :=
  match etptr with
  | Null => Ok (None, 0)
  | Node op l r min max =>
      match op with
      | re_od_concat | re_oi_concat =>
          _ ← c_assert (min =? repeat_none);
          x ← evaltree2searchstr l;
          y ← evaltree2searchstr r;
          n ← c_int (x.2 + y.2); length ← c_int (n + 1);
          size ← c_malloc_size length;
          left ← deref x.1; right ← deref y.1;
          result ← sprintf size (left ++ bytes " " ++ right);
          Ok (Some result, length)
      | re_disj =>
          _ ← c_assert (min =? repeat_none);
          x ← evaltree2searchstr l;
          y ← evaltree2searchstr r;
          n ← c_int (x.2 + y.2); length ← c_int (n + 7);
          size ← c_malloc_size length;
          left ← deref x.1; right ← deref y.1;
          result ← sprintf size (bytes "( " ++ left ++ bytes " | " ++ right ++ bytes " )");
          Ok (Some result, length)
      | re_repeat =>
          _ ← c_assert (negb (min =? repeat_none));
          x ← evaltree2searchstr l;
          if (min =? 0) && (max =? repeat_inf) then
            length ← c_int (x.2 + 5); size ← c_malloc_size length; left ← deref x.1;
            result ← sprintf size (bytes "( " ++ left ++ bytes " )*");
            Ok (Some result, length)
          else if (min =? 1) && (max =? repeat_inf) then
            length ← c_int (x.2 + 5); size ← c_malloc_size length; left ← deref x.1;
            result ← sprintf size (bytes "( " ++ left ++ bytes " )+");
            Ok (Some result, length)
          else if (min =? 0) && (max =? 1) then
            length ← c_int (x.2 + 4); size ← c_malloc_size length; left ← deref x.1;
            result ← sprintf size (bytes "[ " ++ left ++ bytes " ]");
            Ok (Some result, length)
          else
            r ← print_repeat x.1 x.2 min max;
            Ok (Some r.1, r.2)
      end
  | Leaf patindex =>
      numstr ← sprintf 10 (bytes " " ++ [34] ++ print_int patindex ++ [34] ++ bytes " ");
      Ok (Some numstr, zlen numstr + 1)
  | MeetUnion | Tabular => Err AssertFail
  end.
