(* ===== verification/Regex2dfa.v ===== *)
(** * From token expressions to automata: cqp/regex2dfa.c

    A regular expression over patterns is parsed into equations (one for every
    subexpression; equal ones are shared by a hash table), the states of an
    automaton are formed from sets of equations, and equivalent states are
    merged.  The pointers of the code are indices: a symbol into [Symbols], an
    expression into [Exps]; the chain of a bucket is the list of its members,
    the last one entered first.  The class (the number of an equation) and the
    number of a state are not bounded: a table with 2^31 of them does not fit into
    memory. *)

From Stdlib Require Import ZArith Lia Ascii String.
From stdpp Require Import base tactics option list numbers.
From S2P Require Import Prelude.

Open Scope Z_scope.

(** ** Data *)

Inductive Lexical :=
| EndT | CommaT | RParT | RBrT | EqualT | BarT | ZeroT | OneT | IdenT | LParT | LBrT | PlusT | StarT.

Inductive StackTag := RULE | EQU | PAR | OPT | OR | AND.

#[export] Instance Lexical_eq_dec : EqDecision Lexical.
Proof. solve_decision. Defined.

(** The tag of an expression with the member of the union that it selects. *)
Inductive expr :=
| SymX (Leaf : Z)
| ZeroX
| OneX
| AndX (Arg0 Arg1 : Z)
| OrX (Arg0 Arg1 : Z)
| StarX (Arg0 : Z)
| PlusX (Arg0 : Z)
| OptX (Arg0 : Z).

#[export] Instance expr_eq_dec : EqDecision expr.
Proof. solve_decision. Defined.

Record exp := mkExp { body : expr; Hash_of : Z; Class_of : Z }.

(** The name is a string without its NUL. *)
Record symbol := mkSymbol { Name : list Z; SHash : Z }.

Record equation := mkEquation { Value : Z; EHash : Z; OnStack : bool }.

(** [SList] has [States] members, [ShList] has [Shifts]. *)
Record state := mkState { Class : Z; SList : list Z; Empty : bool; ShList : list (Z * Z) }.

(** [RHS] has [Size] members. *)
Record item := mkItem { LHS_of : Z; RHS_of : list Z }.

Record tables := mkTables {
  HashTab : list (list Z);
  Symbols : list symbol;
  ExpHash : list (list Z);
  Exps : list exp;
  EquTab : list equation
}.

Definition HASH_MAX : Z := 512.
Definition NN : Z := 512.
Definition STACK_MAX : Z := 200.
Definition MAX_CHAR : Z := 16384.
Definition MAX_ERRORS : Z := 25.

(** ** The scanner *)

(** [searchstr] ends in a NUL; [ChArr] is the part of the array before [ChP]. *)
Record scanner := mkScanner {
  searchstr : list Z;
  currpos : Z;
  ChArr : list Z;
  LastW : Z;
  ERRORS : Z
}.

Definition chr (c : ascii) : Z := Z.of_N (N_of_ascii c).

Definition EOF : Z := -1.
Definition QUOTE : Z := 34.

Definition GET (s : scanner) : res (scanner * Z) :=
  ch ← aget (searchstr s) (currpos s);
  if ch =? 0 then Ok (s, EOF)
  else Ok (mkScanner (searchstr s) (currpos s + 1) (ChArr s) (LastW s) (ERRORS s), ch).

Definition UNGET (s : scanner) : scanner :=
  if negb (currpos s =? 0) then mkScanner (searchstr s) (currpos s - 1) (ChArr s) (LastW s) (ERRORS s) else s.

(** The message is printed to stderr. *)
Definition REGEX2DFA_ERROR (s : scanner) : res scanner :=
  let n := ERRORS s + 1 in
  if n =? MAX_ERRORS then Err ExitCall
  else Ok (mkScanner (searchstr s) (currpos s) (ChArr s) (LastW s) n).

(** The classes of characters in the C locale. *)
Definition isspace (c : Z) : bool := (c =? 32) || ((9 <=? c) && (c <=? 13)).
Definition isdigit (c : Z) : bool := (48 <=? c) && (c <=? 57).
Definition isalpha (c : Z) : bool := ((65 <=? c) && (c <=? 90)) || ((97 <=? c) && (c <=? 122)).
Definition isalnum (c : Z) : bool := isalpha c || isdigit c.

(** [LastW = ChP] *)
Definition start_word (s : scanner) : scanner :=
  mkScanner (searchstr s) (currpos s) (ChArr s) (zlen (ChArr s)) (ERRORS s).

(** The test for space, and [*ChP = Ch] with [ChP++]. *)
Definition put_char (s : scanner) (Ch : Z) : res scanner :=
  if zlen (ChArr s) =? MAX_CHAR then Err ExitCall
  else Ok (mkScanner (searchstr s) (currpos s) (ChArr s ++ [Ch]) (LastW s) (ERRORS s)).

Definition space_round (s : scanner) : res (scanner + scanner * Z) :=
  r ← GET s; if isspace r.2 then Ok (inl r.1) else Ok (inr r).

Definition in_name (Ch : Z) : bool := isalnum Ch || (Ch =? chr "_") || (Ch =? chr "$").

Definition name_round (st : scanner * Z) : res (scanner * Z + scanner * Z) :=
  let '(s, Ch) := st in
  if in_name Ch then s ← put_char s Ch; r ← GET s; Ok (inl r) else Ok (inr (s, Ch)).

Definition quote_round (st : scanner * Z) : res (scanner * Z + scanner * Z) :=
  let '(s, Ch) := st in
  if negb (Ch =? QUOTE) && negb (Ch =? EOF) then s ← put_char s Ch; r ← GET s; Ok (inl r)
  else Ok (inr (s, Ch)).

(** The tokens of one character. *)
Definition single (Ch : Z) : option Lexical :=
  if Ch =? EOF then Some EndT
  else if Ch =? chr "|" then Some BarT
  else if Ch =? chr "(" then Some LParT
  else if Ch =? chr ")" then Some RParT
  else if Ch =? chr "[" then Some LBrT
  else if Ch =? chr "]" then Some RBrT
  else if Ch =? chr "0" then Some ZeroT
  else if Ch =? chr "1" then Some OneT
  else if Ch =? chr "*" then Some StarT
  else if Ch =? chr "+" then Some PlusT
  else if Ch =? chr "=" then Some EqualT
  else if Ch =? chr "," then Some CommaT
  else None.

Definition LEX (s : scanner) : res (scanner * Lexical) :=
  r ← loop space_round fuel s;
  let '(s, Ch) := r in
  match single Ch with
  | Some L => Ok (s, L)
  | None =>
      if isalpha Ch || (Ch =? chr "_") || (Ch =? chr "$") then
        r ← loop name_round fuel (start_word s, Ch);
        let '(s, Ch) := r in
        let s := if negb (Ch =? EOF) then UNGET s else s in
        s ← put_char s 0;
        Ok (s, IdenT)
      else if Ch =? QUOTE then
        r ← GET s;
        r ← loop quote_round fuel (start_word r.1, r.2);
        let '(s, Ch) := r in
        if Ch =? EOF then Err ExitCall
        else s ← put_char s 0; Ok (s, IdenT)
      else s ← REGEX2DFA_ERROR s; Ok (s, EndT)
  end.

(** The string that starts at a position of [ChArr]. *)
Fixpoint until_nul (l : list Z) : res (list Z) :=
  match l with
  | [] => Err OutOfBounds
  | c :: l => if c =? 0 then Ok [] else w ← until_nul l; Ok (c :: w)
  end.

Definition last_word (s : scanner) : res (list Z) :=
  if (LastW s <? 0) then Err NullDeref else until_nul (drop (Z.to_nat (LastW s)) (ChArr s)).

(** ** Symbols *)

(** [char] is signed. *)
Definition schar (c : Z) : Z := if c <? 128 then c else c - 256.

(** [H = (H << 1) ^ *T]; a negative number must not be shifted. *)
Definition Hash_step (H c : Z) : res Z :=
  if H <? 0 then Err IntOverflow else x ← c_int (Z.shiftl H 1); Ok (Z.lxor x (schar c)).

Fixpoint Hash_from (H : Z) (Str : list Z) : res Z :=
  match Str with [] => Ok (Z.land H 255) | c :: T => H ← Hash_step H c; Hash_from H T end.

Definition Hash (Str : list Z) : res Z := Hash_from 0 Str.

(** The sign of [strcmp], which compares unsigned characters. *)
Fixpoint strcmp (s t : list Z) : Z :=
  match s, t with
  | [], [] => 0
  | [], _ :: _ => -1
  | _ :: _, [] => 1
  | x :: s, y :: t => if x <? y then -1 else if y <? x then 1 else strcmp s t
  end.

Fixpoint find_symbol (Sy : list symbol) (Str : list Z) (chain : list Z) : res (option Z) :=
  match chain with
  | [] => Ok None
  | p :: chain =>
      sym ← aget Sy p;
      if strcmp (Name sym) Str =? 0 then Ok (Some p) else find_symbol Sy Str chain
  end.

Definition LookUp (t : tables) (Str : list Z) : res (tables * Z) :=
  H ← Hash Str;
  chain ← aget (HashTab t) H;
  found ← find_symbol (Symbols t) Str chain;
  match found with
  | Some p => Ok (t, p)
  | None =>
      let p := zlen (Symbols t) in
      tab ← aset (HashTab t) H (p :: chain);
      Ok (mkTables tab (Symbols t ++ [mkSymbol Str H]) (ExpHash t) (Exps t) (EquTab t), p)
  end.

(** ** Expressions and equations *)

(** The products are [long]. *)
Definition DUP (A B : Z) : res Z :=
  sum ← c_int (A + B);
  L ← (if sum <? NN then Ok (Z.quot (sum * (sum + 1)) 2 + A)
       else
         let sum := 2 * (NN - 1) - sum in
         let A := NN - 1 - A in
         Ok (NN * NN - 1 - (Z.quot (sum * (sum + 1)) 2 + A)));
  c_int (Z.quot L NN).

(** The hash value of an expression with this tag and these arguments. *)
Definition exp_hash (t : tables) (e : expr) : res Z :=
  match e with
  | SymX p => s ← aget (Symbols t) p; Ok (256 + SHash s)
  | ZeroX => Ok 0
  | OneX => Ok 1
  | PlusX q => v ← aget (EquTab t) q; Ok (2 + Z.quot (EHash v * 10) 512)
  | StarX q => v ← aget (EquTab t) q; Ok (12 + Z.quot (EHash v * 20) 512)
  | OptX q => v ← aget (EquTab t) q; Ok (32 + Z.quot (EHash v) 16)
  | OrX q0 q1 =>
      v0 ← aget (EquTab t) q0; v1 ← aget (EquTab t) q1; d ← DUP (EHash v0) (EHash v1); Ok (64 + Z.quot d 8)
  | AndX q0 q1 =>
      v0 ← aget (EquTab t) q0; v1 ← aget (EquTab t) q1; d ← DUP (EHash v0) (EHash v1); Ok (128 + Z.quot d 4)
  end.

(** [HP->Body.Arg[0]] and [HP->Body.Arg[1]], whatever the tag is; a symbol is
    not an array, and expressions without arguments have none. *)
Definition arg0 (e : expr) : res Z :=
  match e with
  | AndX q _ | OrX q _ | StarX q | PlusX q | OptX q => Ok q
  | SymX _ | ZeroX | OneX => Err NullDeref
  end.

Definition arg1 (e : expr) : res Z :=
  match e with
  | AndX _ q | OrX _ q => Ok q
  | StarX _ | PlusX _ | OptX _ => Err OutOfBounds
  | SymX _ | ZeroX | OneX => Err NullDeref
  end.

Definition leaf_of (e : expr) : res Z := match e with SymX p => Ok p | _ => Err NullDeref end.

(** The comparison of a member of the chain with the arguments.  The code does
    not look at the tag. *)
Definition same_exp (e HP : expr) : res bool :=
  match e with
  | SymX p => x ← leaf_of HP; Ok (p =? x)
  | ZeroX | OneX => Ok true
  | PlusX q | StarX q | OptX q => x ← arg0 HP; Ok (q =? x)
  | OrX q0 q1 | AndX q0 q1 =>
      x ← arg0 HP; if q0 =? x then y ← arg1 HP; Ok (q1 =? y) else Ok false
  end.

Fixpoint find_exp (Ex : list exp) (e : expr) (chain : list Z) : res (option Z) :=
  match chain with
  | [] => Ok None
  | p :: chain =>
      HP ← aget Ex p;
      same ← same_exp e (body HP);
      if (same : bool) then Ok (Some p) else find_exp Ex e chain
  end.

(** [E->Class = Q], [EquTab[Q].Value = HP]. *)
Definition set_class (t : tables) (p Q : Z) : res tables :=
  E ← aget (Exps t) p;
  l ← aset (Exps t) p (mkExp (body E) (Hash_of E) Q);
  Ok (mkTables (HashTab t) (Symbols t) (ExpHash t) l (EquTab t)).

Definition set_value (t : tables) (Q p : Z) : res tables :=
  v ← aget (EquTab t) Q;
  l ← aset (EquTab t) Q (mkEquation p (EHash v) (OnStack v));
  Ok (mkTables (HashTab t) (Symbols t) (ExpHash t) (Exps t) l).

(** A new expression at the head of its chain. *)
Definition enter_exp (t : tables) (E : exp) : res tables :=
  chain ← aget (ExpHash t) (Hash_of E);
  tab ← aset (ExpHash t) (Hash_of E) (zlen (Exps t) :: chain);
  Ok (mkTables (HashTab t) (Symbols t) tab (Exps t ++ [E]) (EquTab t)).

(** [LHS "=" Exp]: the symbol stands for the class [Q]. *)
Definition Store (t : tables) (Sym Q : Z) : res tables :=
  s ← aget (Symbols t) Sym;
  let H := 256 + SHash s in
  chain ← aget (ExpHash t) H;
  found ← find_exp (Exps t) (SymX Sym) chain;
  match found with
  | Some p => set_class t p Q
  | None => enter_exp t (mkExp (SymX Sym) H Q)
  end.

(** The class of the expression; [Q] is -1, or the class whose equation gets it
    as its value. *)
Definition MakeExp (t : tables) (Q : Z) (e : expr) : res (tables * Z) :=
  H ← exp_hash t e;
  chain ← aget (ExpHash t) H;
  found ← find_exp (Exps t) e chain;
  match found with
  | Some p =>
      HP ← aget (Exps t) p;
      t ← (if negb (Q =? -1) && negb (Q =? Class_of HP) then set_value t Q p else Ok t);
      Ok (t, Class_of HP)
  | None =>
      let p := zlen (Exps t) in
      if Q =? -1 then
        let Q := zlen (EquTab t) in
        t ← enter_exp t (mkExp e H Q);
        Ok (mkTables (HashTab t) (Symbols t) (ExpHash t) (Exps t) (EquTab t ++ [mkEquation p H false]), Q)
      else
        t ← enter_exp t (mkExp e H Q);
        t ← set_value t Q p;
        Ok (t, Q)
  end.

(** ** The parser *)

(** The member of a list at a row or column; rows and columns in the order of
    the enumerations. *)
Definition tag_row (T : StackTag) : string :=
  match T with
  | RULE => ".ABCH|&&&&&+*"
  | EQU => "I=BCH|&&&&&+*"
  | PAR => "DD)FH|&&&&&+*"
  | OPT => "EEG]H|&&&&&+*"
  | OR => "vvvvv|&&&&&+*"
  | AND => "xxxxxx&&&&&+*"
  end%string.

Definition column (L : Lexical) : nat :=
  match L with
  | EndT => 0 | CommaT => 1 | RParT => 2 | RBrT => 3 | EqualT => 4 | BarT => 5 | ZeroT => 6 | OneT => 7
  | IdenT => 8 | LParT => 9 | LBrT => 10 | PlusT => 11 | StarT => 12
  end.

Definition Action (T : StackTag) (L : Lexical) : res ascii :=
  match String.get (column L) (tag_row T) with Some c => Ok c | None => Err OutOfBounds end.

(** The stack, the top first.  The message for a stack that is full is printed
    before the program is left. *)
Abbreviation stack := (list (StackTag * Z)).

Definition PUSH (SP : stack) (T : StackTag) (Q : Z) : res stack :=
  if STACK_MAX <=? zlen SP then Err ExitCall else Ok ((T, Q) :: SP).

Definition TOP (SP : stack) : res StackTag :=
  match SP with [] => Err OutOfBounds | (T, _) :: _ => Ok T end.

Definition POP (SP : stack) : res (stack * Z) :=
  match SP with [] => Err OutOfBounds | (_, Q) :: SP => Ok (SP, Q) end.

(** The labels of the code. *)
Inductive label := LHS | EXP | END.

Record parser := mkParser {
  lexer : scanner;
  tabs : tables;
  SP : stack;
  ID : option Z;
  RHS : Z;
  Look : Lexical               (* the variable [L] *)
}.

(** The code from the label [LHS] to the next one. *)
Definition at_LHS (p : parser) : res (label * parser) :=
  r ← LEX (lexer p);
  let '(s, L) := r in
  match L with
  | IdenT =>
      w ← last_word s;
      r ← LookUp (tabs p) w;
      let '(t, id) := r in
      r ← LEX s;
      let '(s, L) := r in
      match L with
      | EqualT =>
          sp ← PUSH (SP p) EQU (-1);
          r ← LEX s;
          Ok (EXP, mkParser r.1 t sp (Some id) (RHS p) r.2)
      | _ =>
          sp ← PUSH (SP p) RULE (-1);
          r ← MakeExp t (-1) (SymX id);
          Ok (END, mkParser s r.1 sp (Some id) r.2 L)
      end
  | _ =>
      sp ← PUSH (SP p) RULE (-1);
      Ok (EXP, mkParser s (tabs p) sp (ID p) (RHS p) L)
  end.

(** A token is read, and the code goes on at a label. *)
Definition shift (l : label) (p : parser) : res (label * parser) :=
  r ← LEX (lexer p); Ok (l, mkParser r.1 (tabs p) (SP p) (ID p) (RHS p) r.2).

Definition with_stack (p : parser) (sp : stack) : parser :=
  mkParser (lexer p) (tabs p) sp (ID p) (RHS p) (Look p).

Definition with_exp (p : parser) (r : tables * Z) : parser :=
  mkParser (lexer p) r.1 (SP p) (ID p) r.2 (Look p).

Definition with_lexer (p : parser) (s : scanner) : parser :=
  mkParser s (tabs p) (SP p) (ID p) (RHS p) (Look p).

(** The code from [EXP]; the result -1 for a corrupt expression. *)
Definition at_EXP (p : parser) : res (label * parser + parser * Z) :=
  match Look p with
  | LParT => sp ← PUSH (SP p) PAR (-1); n ← shift EXP (with_stack p sp); Ok (inl n)
  | LBrT => sp ← PUSH (SP p) OPT (-1); n ← shift EXP (with_stack p sp); Ok (inl n)
  | ZeroT => r ← MakeExp (tabs p) (-1) ZeroX; n ← shift END (with_exp p r); Ok (inl n)
  | OneT => r ← MakeExp (tabs p) (-1) OneX; n ← shift END (with_exp p r); Ok (inl n)
  | IdenT =>
      w ← last_word (lexer p);
      r ← LookUp (tabs p) w;
      r ← MakeExp r.1 (-1) (SymX r.2);
      n ← shift END (with_exp p r); Ok (inl n)
  | _ => s ← REGEX2DFA_ERROR (lexer p); Ok (inr (with_lexer p s, -1))
  end.

(** [MakeOpt]: the stack is popped, the expression is made optional. *)
Definition make_opt (p : parser) : res parser :=
  r ← POP (SP p);
  x ← MakeExp (tabs p) (-1) (OptX (RHS p));
  Ok (with_stack (with_exp p x) r.1).

(** [REGEX2DFA_ERROR] in the parser. *)
Definition complain (p : parser) : res parser :=
  s ← REGEX2DFA_ERROR (lexer p); Ok (with_lexer p s).

(** The [switch] at [END], for an entry of the table. *)
Definition act (a : ascii) (p : parser) : res (label * parser + parser * Z) :=
  match a with
  | "A" | "H" | "I" => p ← complain p; Err ExitCall
  | "B" | "C" => p ← complain p; n ← shift END p; Ok (inl n)
  | "D" => p ← complain p; r ← POP (SP p); Ok (inl (END, with_stack p r.1))
  | "E" => p ← complain p; p ← make_opt p; Ok (inl (END, p))
  | "F" => p ← complain p; r ← POP (SP p); n ← shift END (with_stack p r.1); Ok (inl n)
  | "G" => p ← complain p; n ← shift END p; p ← make_opt n.2; Ok (inl (END, p))
  | "." => r ← POP (SP p); Ok (inr (with_stack p r.1, RHS p))
  | ")" => r ← POP (SP p); n ← shift END (with_stack p r.1); Ok (inl n)
  | "]" => n ← shift END p; p ← make_opt n.2; Ok (inl (END, p))
  | "=" =>
      id ← deref (ID p);
      t ← Store (tabs p) id (RHS p);
      r ← POP (SP p);
      Ok (inl (LHS, mkParser (lexer p) t r.1 (ID p) (RHS p) (Look p)))
  | "v" =>
      r ← POP (SP p);
      x ← MakeExp (tabs p) (-1) (OrX r.2 (RHS p));
      Ok (inl (END, with_stack (with_exp p x) r.1))
  | "x" =>
      r ← POP (SP p);
      x ← MakeExp (tabs p) (-1) (AndX r.2 (RHS p));
      Ok (inl (END, with_stack (with_exp p x) r.1))
  | "*" => x ← MakeExp (tabs p) (-1) (StarX (RHS p)); n ← shift END (with_exp p x); Ok (inl n)
  | "+" => x ← MakeExp (tabs p) (-1) (PlusX (RHS p)); n ← shift END (with_exp p x); Ok (inl n)
  | "|" => sp ← PUSH (SP p) OR (RHS p); n ← shift EXP (with_stack p sp); Ok (inl n)
  | "&" => sp ← PUSH (SP p) AND (RHS p); Ok (inl (EXP, with_stack p sp))
  | _ => Err AssertFail
  end%char.

(** The code from [END]. *)
Definition at_END (p : parser) : res (label * parser + parser * Z) :=
  T ← TOP (SP p);
  a ← Action T (Look p);
  act a p.

Definition parse_round (st : label * parser) : res (label * parser + parser * Z) :=
  match st.1 with
  | LHS => n ← at_LHS st.2; Ok (inl n)
  | EXP => at_EXP st.2
  | END => at_END st.2
  end.

Definition Parse (s : scanner) (t : tables) : res (parser * Z) :=
  loop parse_round fuel (LHS, mkParser s t [] None 0 EndT).

(** ** States *)

(** Entries of [IBuf] are sorted by the names of their symbols: the index for a
    name, and whether it is there already. *)
Fixpoint find_item (Sy : list symbol) (name : list Z) (buf : list item) : res (nat * bool) :=
  match buf with
  | [] => Ok (0%nat, false)
  | it :: buf =>
      s ← aget Sy (LHS_of it);
      let Diff := strcmp (Name s) name in
      if Diff =? 0 then Ok (0%nat, true)
      else if 0 <? Diff then Ok (0%nat, false)
      else r ← find_item Sy name buf; Ok (S r.1, r.2)
  end.

(** The members behind an index move up by one. *)
Definition insert_at {A} (i : nat) (x : A) (l : list A) : list A := take i l ++ x :: drop i l.

(** The insertion of a class into a sorted list without repetitions. *)
Fixpoint insert_class (Q : Z) (l : list Z) : list Z :=
  match l with
  | [] => [Q]
  | x :: l' => if x =? Q then l else if Q <? x then Q :: l else x :: insert_class Q l'
  end.

Definition AddBuf (Sy : list symbol) (p Q : Z) (buf : list item) : res (list item) :=
  sym ← aget Sy p;
  r ← find_item Sy (Name sym) buf;
  let '(i, found) := r in
  let buf := if (found : bool) then buf else insert_at i (mkItem p []) buf in
  IP ← aget buf (Z.of_nat i);
  aset buf (Z.of_nat i) (mkItem (LHS_of IP) (insert_class Q (RHS_of IP))).

(** The state with these classes, if there is one. *)
Fixpoint find_state (tab : list state) (classes : list Z) (D : Z) : option Z :=
  match tab with
  | [] => None
  | DP :: tab => if decide (classes = SList DP) then Some D else find_state tab classes (D + 1)
  end.

(** [Empty] and [ShList] of a new state are set when its turn comes. *)
Definition AddState (tab : list state) (classes : list Z) : list state * Z :=
  match find_state tab classes 0 with
  | Some D => (tab, D)
  | None => (tab ++ [mkState (zlen tab) classes false []], zlen tab)
  end.

Definition set_stack (t : tables) (Q : Z) (b : bool) : res tables :=
  v ← aget (EquTab t) Q;
  l ← aset (EquTab t) Q (mkEquation (Value v) (EHash v) b);
  Ok (mkTables (HashTab t) (Symbols t) (ExpHash t) (Exps t) l).

Definition PushQ (Q : Z) (st : tables * list Z) : res (tables * list Z) :=
  let '(t, xs) := st in
  v ← aget (EquTab t) Q;
  if OnStack v then Ok st else t ← set_stack t Q true; Ok (t, xs ++ [Q]).

Definition PopQ (st : tables * list Z) : res (tables * list Z) :=
  let '(t, xs) := st in
  Q ← aget xs (zlen xs - 1);
  t ← set_stack t Q false;
  Ok (t, take (length xs - 1) xs).

Fixpoint push_list (l : list Z) (st : tables * list Z) : res (tables * list Z) :=
  match l with [] => Ok st | Q :: l => st ← PushQ Q st; push_list l st end.

(** [E = EquTab[Q].Value] *)
Definition value_exp (t : tables) (Q : Z) : res exp := v ← aget (EquTab t) Q; aget (Exps t) (Value v).

Record walk := mkWalk { wtab : tables; XStack : list Z; IBuf : list item; wEmpty : bool }.

Definition with_tables (w : walk) (t : tables) : walk := mkWalk t (XStack w) (IBuf w) (wEmpty w).

(** [AddBuf], then [break]. *)
Definition shift_item (w : walk) (p Q : Z) : res (walk + walk) :=
  b ← AddBuf (Symbols (wtab w)) p Q (IBuf w); Ok (inr (mkWalk (wtab w) (XStack w) b (wEmpty w))).

(** [goto EVALUATE] *)
Definition again (w : walk) (m : res (tables * Z)) : res (walk + walk) :=
  r ← m; Ok (inl (with_tables w r.1)).

Section Automaton.

(** C does not fix the order in which the arguments of a call are evaluated; the
    number of rounds the loops may take. *)
Context (left_first : bool) (limit : positive).

Definition both (f g : tables -> res (tables * Z)) (t : tables) : res (tables * Z * Z) :=
  if left_first then a ← f t; b ← g a.1; Ok (b.1, a.2, b.2)
  else b ← g t; a ← f b.1; Ok (a.1, a.2, b.2).

(** The [switch] after the label [EVALUATE]. *)
Definition evaluate_round (qX : Z) (w : walk) : res (walk + walk) :=
  let t := wtab w in
  E ← value_exp t qX;
  match body E with
  | SymX p => r ← MakeExp t (-1) OneX; shift_item (with_tables w r.1) p r.2
  | OneX => Ok (inr (mkWalk t (XStack w) (IBuf w) true))
  | ZeroX => Ok (inr w)
  | OptX Q1 => again w (r ← MakeExp t (-1) OneX; MakeExp r.1 qX (OrX r.2 Q1))
  | PlusX Q1 => again w (r ← MakeExp t (-1) (StarX Q1); MakeExp r.1 qX (AndX Q1 r.2))
  | StarX Q1 =>
      again w (r ← both (fun t => MakeExp t (-1) OneX) (fun t => MakeExp t (-1) (PlusX Q1)) t;
               MakeExp r.1.1 qX (OrX r.1.2 r.2))
  | OrX Q1 Q2 =>
      st ← PushQ Q1 (t, XStack w); st ← PushQ Q2 st;
      Ok (inr (mkWalk st.1 st.2 (IBuf w) (wEmpty w)))
  | AndX Q1 Q2 =>
      E1 ← value_exp t Q1;
      match body E1 with
      | SymX p => shift_item w p Q2
      | OneX => v ← aget (EquTab t) Q2; t ← set_value t qX (Value v); Ok (inl (with_tables w t))
      | ZeroX => r ← MakeExp t qX ZeroX; Ok (inr (with_tables w r.1))
      | OptX A => again w (r ← MakeExp t (-1) (AndX A Q2); MakeExp r.1 qX (OrX Q2 r.2))
      | PlusX A => again w (r ← MakeExp t (-1) (OrX Q2 qX); MakeExp r.1 qX (AndX A r.2))
      | StarX A => again w (r ← MakeExp t (-1) (AndX A qX); MakeExp r.1 qX (OrX Q2 r.2))
      | OrX A B =>
          again w (r ← both (fun t => MakeExp t (-1) (AndX A Q2)) (fun t => MakeExp t (-1) (AndX B Q2)) t;
                   MakeExp r.1.1 qX (OrX r.1.2 r.2))
      | AndX A B => again w (r ← MakeExp t (-1) (AndX B Q2); MakeExp r.1 qX (AndX A r.2))
      end
  end.

(** [for (X = 0; X < Xs; X++)] *)
Definition walk_round (st : walk * Z) : res (walk * Z + walk) :=
  let '(w, X) := st in
  if X <? zlen (XStack w) then
    qX ← aget (XStack w) X;
    w ← loop (evaluate_round qX) limit w;
    Ok (inl (w, X + 1))
  else Ok (inr w).

(** [while (Xs > 0) PopQ();] *)
Definition pop_round (st : tables * list Z) : res (tables * list Z + tables) :=
  if 0 <? zlen st.2 then st ← PopQ st; Ok (inl st) else Ok (inr st.1).

(** The states for the right-hand sides of [IBuf]. *)
Fixpoint add_shifts (buf : list item) (tab : list state) : list state * list (Z * Z) :=
  match buf with
  | [] => (tab, [])
  | it :: buf =>
      let '(tab, D) := AddState tab (RHS_of it) in
      let '(tab, sh) := add_shifts buf tab in
      (tab, (LHS_of it, D) :: sh)
  end.

(** [for (S = 0; S < Ss; S++)] *)
Definition form_round (st : tables * list state * Z) : res (tables * list state * Z + tables * list state) :=
  let '(t, tab, n) := st in
  if n <? zlen tab then
    SP ← aget tab n;
    st ← push_list (SList SP) (t, []);
    w ← loop walk_round limit (mkWalk st.1 st.2 [] false, 0);
    t ← loop pop_round limit (wtab w, XStack w);
    let '(tab, sh) := add_shifts (IBuf w) tab in
    SP ← aget tab n;
    tab ← aset tab n (mkState (Class SP) (SList SP) (wEmpty w) sh);
    Ok (inl (t, tab, n + 1))
  else Ok (inr (t, tab)).

(** A list of shifts may be empty: [malloc] of size 0 is assumed not to fail. *)
Definition FormState (t : tables) (Q : Z) : res (tables * list state) :=
  loop form_round limit (t, (AddState [] [Q]).1, 0).

(** ** Equivalent states *)

Definition class_of (tab : list state) (n : Z) : res Z := SP ← aget tab n; Ok (Class SP).

Definition set_state_class (tab : list state) (n c : Z) : res (list state) :=
  SP ← aget tab n; aset tab n (mkState c (SList SP) (Empty SP) (ShList SP)).

(** [L ^= R; R ^= L; L ^= R;] *)
Definition xor_swap (L R : Z) : Z * Z :=
  let L := Z.lxor L R in let R := Z.lxor R L in let L := Z.lxor L R in (L, R).

Definition AddEquiv (tab : list state) (L R : Z) (ETab : list (Z * Z)) : res (list (Z * Z)) :=
  L ← class_of tab L;
  R ← class_of tab R;
  if L =? R then Ok ETab
  else
    let '(L, R) := if R <? L then xor_swap L R else (L, R) in
    if decide ((L, R) ∈ ETab) then Ok ETab else Ok (ETab ++ [(L, R)]).

(** [for (Sh = 0; Sh < QL->Shifts; Sh++)]; both lists have the same length. *)
Fixpoint add_equivs (tab : list state) (l r : list (Z * Z)) (ETab : list (Z * Z)) : res (list (Z * Z)) :=
  match l, r with
  | (_, x) :: l, (_, y) :: r => ETab ← AddEquiv tab x y ETab; add_equivs tab l r ETab
  | [], _ => Ok ETab
  | _ :: _, [] => Err OutOfBounds
  end.

(** [for (E = 0; E < Es; E++)]: [None] for [goto NOT_EQUAL]. *)
Definition equiv_round (tab : list state) (st : Z * list (Z * Z)) : res (Z * list (Z * Z) + option (list (Z * Z))) :=
  let '(n, ETab) := st in
  if n <? zlen ETab then
    p ← aget ETab n;
    QL ← aget tab p.1;
    QR ← aget tab p.2;
    if negb (eqb (Empty QL) (Empty QR)) || negb (zlen (ShList QL) =? zlen (ShList QR)) then Ok (inr None)
    else if decide ((ShList QL).*1 = (ShList QR).*1) then
      ETab ← add_equivs tab (ShList QL) (ShList QR) ETab; Ok (inl (n + 1, ETab))
    else Ok (inr None)
  else Ok (inr (Some ETab)).

(** [for (S1 = 0; S1 < S; S1++)]: the equivalent pairs if the loop is left. *)
Definition partner_round (tab : list state) (n : Z) (S1 : Z) : res (Z + option (list (Z * Z))) :=
  if S1 <? n then
    c ← class_of tab S1;
    if negb (c =? S1) then Ok (inl (S1 + 1))
    else
      ETab ← AddEquiv tab n S1 [];
      r ← loop (equiv_round tab) limit (0, ETab);
      match r with
      | Some ETab => Ok (inr (Some ETab))
      | None => Ok (inl (S1 + 1))
      end
  else Ok (inr None).

(** [QR->Class = QL->Class] for all pairs. *)
Fixpoint merge_pairs (ETab : list (Z * Z)) (tab : list state) : res (list state) :=
  match ETab with
  | [] => Ok tab
  | (QL, QR) :: ETab => c ← class_of tab QL; tab ← set_state_class tab QR c; merge_pairs ETab tab
  end.

Definition merge_body (n : Z) (tab : list state) : res (list state) :=
  c ← class_of tab n;
  if negb (c =? n) then Ok tab
  else
    r ← loop (partner_round tab n) limit 0;
    match r with Some ETab => merge_pairs ETab tab | None => Ok tab end.

(** The classes are numbered. *)
Definition number_body (n : Z) (st : Z * list state) : res (Z * list state) :=
  let '(Classes, tab) := st in
  c ← class_of tab n;
  if c =? n then tab ← set_state_class tab n Classes; Ok (Classes + 1, tab)
  else k ← class_of tab c; tab ← set_state_class tab n k; Ok (Classes, tab).

Definition MergeStates (tab : list state) : res (list state) :=
  tab ← for_up merge_body 0 (zlen tab) tab;
  r ← for_up number_body 0 (zlen tab) (0, tab);
  Ok r.2.

(** ** The automaton *)

Record DFA := mkDFA {
  Max_States : Z;
  Max_Input : Z;
  TransTable : list (list Z);
  Final : list bool;
  E_State : Z
}.

Definition init_dfa (d : DFA) : DFA := mkDFA 0 0 [] [] (E_State d).

(** The memory is returned. *)
Definition free_dfa (d : DFA) : DFA := mkDFA 0 0 [] [] (E_State d).

(** [atoi]. *)
Fixpoint digits_value (n : Z) (s : list Z) : Z :=
  match s with
  | [] => n
  | c :: s => if isdigit c then digits_value (n * 10 + (c - 48)) s else n
  end.

Fixpoint skip_space (s : list Z) : list Z :=
  match s with [] => [] | c :: s' => if isspace c then skip_space s' else s end.

Definition atoi (s : list Z) : res Z :=
  match skip_space s with
  | [] => Ok 0
  | c :: s' =>
      if c =? chr "-" then c_int (- digits_value 0 s')
      else if c =? chr "+" then c_int (digits_value 0 s')
      else c_int (digits_value 0 (c :: s'))
  end.

(** The row of a class. *)
Fixpoint fill_row (Sy : list symbol) (tab : list state) (sh : list (Z * Z)) (row : list Z) : res (list Z) :=
  match sh with
  | [] => Ok row
  | (p, D) :: sh =>
      c ← class_of tab D;
      s ← aget Sy p;
      i ← atoi (Name s);
      row ← aset row i c;
      fill_row Sy tab sh row
  end.

Definition table_body (Sy : list symbol) (tab : list state) (n : Z) (st : Z * list (list Z) * list bool)
  : res (Z * list (list Z) * list bool) :=
  let '(Classes, trans, final) := st in
  SP ← aget tab n;
  if negb (Class SP =? Classes) then Ok st
  else
    final ← (if Empty SP then aset final (Class SP) true else Ok final);
    row ← aget trans (Class SP);
    row ← fill_row Sy tab (ShList SP) row;
    trans ← aset trans (Class SP) row;
    Ok (Classes + 1, trans, final).

Definition fill_tables (Sy : list symbol) (tab : list state) (MaxPatIndex : Z) : res DFA :=
  let Ss := zlen tab in
  inputs ← c_int (MaxPatIndex + 1);
  if inputs <? 0 then Err ExitCall
  else
    let trans := replicate (Z.to_nat Ss) (replicate (Z.to_nat inputs) Ss) in
    let final := replicate (Z.to_nat (Ss + 1)) false in
    r ← for_up (table_body Sy tab) 0 Ss (0, trans, final);
    Ok (mkDFA Ss inputs r.1.2 r.2 Ss).

(** [init]: nothing of the last call is left. *)
Definition init_scanner (rxs : list Z) : scanner := mkScanner (rxs ++ [0]) 0 [] (-1) 0.

Definition init_tables : tables :=
  mkTables (replicate (Z.to_nat HASH_MAX) []) [] (replicate (Z.to_nat NN) []) [] [].

Definition regex2dfa (rxs : list Z) (MaxPatIndex : Z) : res DFA :=
  r ← Parse (init_scanner rxs) init_tables;
  let '(p, Q) := r in
  if Q =? -1 then Err ExitCall
  else
    f ← FormState (tabs p) Q;
    tab ← MergeStates f.2;
    fill_tables (Symbols f.1) tab MaxPatIndex.

End Automaton.
