(* ===== verification/RegexLang.v ===== *)
(** * Weighted languages

    The equations of regex2dfa.c are rewritten in place and may refer to each
    other in cycles.  A language is not enough to reason about them: from
    [q = or(q, r)] it does not follow what [q] is.  Here a word belongs to a language
    with a weight, which every alternative on the way to its first letter
    increases.  The rewriting of the code respects the weights exactly, and they
    are what the search through alternatives decreases. *)

From Stdlib Require Import ZArith Lia.
From stdpp Require Import base tactics option list numbers.
From S2P Require Import Prelude.

#[local] Open Scope nat_scope.

(** [X w n]: [w] is a word of [X] of weight at most [n]. *)
Section Languages.
Context {A : Type}.

Definition wlang : Type := list A -> nat -> Prop.

Definition weq (X Y : wlang) : Prop := forall w n, X w n <-> Y w n.
#[local] Infix "≡w" := weq (at level 70).

#[global] Instance weq_equiv : Equivalence weq.
Proof.
  split; [intros X w n; tauto | intros X Y H w n; specialize (H w n); tauto |].
  intros X Y Z H1 H2 w n. specialize (H1 w n); specialize (H2 w n); tauto.
Qed.

(** Weights are bounds. *)
Definition up (X : wlang) : Prop := forall w n m, n <= m -> X w n -> X w m.

(** ** Operations *)

Definition wsym (s : A) : wlang := fun w n => w = [s].
Definition wzero : wlang := fun w n => False.
Definition wone : wlang := fun w n => w = [].
Definition wor (X Y : wlang) : wlang := fun w n => exists m, n = S m /\ (X w m \/ Y w m).

(** Only the part before the first letter has a weight. *)
Definition wand (X Y : wlang) : wlang := fun w n =>
  (exists w1 w2 m, w = w1 ++ w2 /\ w1 <> [] /\ X w1 n /\ Y w2 m) \/
  (exists n1 n2, n1 + n2 <= n /\ X [] n1 /\ Y w n2).

Inductive wplus (X : wlang) : wlang :=
| plus_one w n : w <> [] -> X w n -> wplus X w n
| plus_more w1 w2 n m : w1 <> [] -> X w1 n -> wplus X w2 m -> wplus X (w1 ++ w2) n
| plus_empty n m : S n <= m -> X [] n -> wplus X [] m
| plus_skip w n1 n2 m : n1 + S n2 <= m -> X [] n1 -> wplus X w n2 -> wplus X w m.

Definition wopt (X : wlang) : wlang := wor wone X.
Definition wstar (X : wlang) : wlang := wor wone (wplus X).

#[global] Instance wor_proper : Proper (weq ==> weq ==> weq) wor.
Proof.
  intros X X' HX Y Y' HY w n. split; intros (m & -> & H); exists m; (split; [done |]);
    destruct H as [H|H]; [left | right | left | right]; firstorder.
Qed.

#[global] Instance wand_proper : Proper (weq ==> weq ==> weq) wand.
Proof.
  intros X X' HX Y Y' HY w n. unfold wand.
  split; (intros [(w1 & w2 & m & -> & Hw & H1 & H2)|(n1 & n2 & Hn & H1 & H2)]; [left; exists w1, w2, m | right; exists n1, n2]);
    firstorder.
Qed.

#[global] Instance wopt_proper : Proper (weq ==> weq) wopt.
Proof. intros X Y H. unfold wopt. by rewrite H. Qed.

Lemma wplus_mono (X Y : wlang) : X ≡w Y -> forall w n, wplus X w n -> wplus Y w n.
Proof.
  intros HX w n H. induction H as [w n Hw H|w1 w2 n m Hw H _ IH|n m Hn H|w n1 n2 m Hn H _ IH]; apply HX in H;
    [by apply plus_one | by eapply plus_more | by eapply plus_empty | by eapply plus_skip].
Qed.

#[global] Instance wplus_proper : Proper (weq ==> weq) wplus.
Proof. intros X Y H w n. split; apply wplus_mono; [done | by symmetry]. Qed.

#[global] Instance wstar_proper : Proper (weq ==> weq) wstar.
Proof. intros X Y H. unfold wstar. by rewrite H. Qed.

(** ** The weights are bounds in all languages *)
Lemma up_sym s : up (wsym s).
Proof. intros w n m _ H. exact H. Qed.

Lemma up_one : up wone.
Proof. intros w n m _ H. exact H. Qed.

Lemma up_zero : up wzero.
Proof. intros w n m _ []. Qed.

Lemma up_or X Y : up X -> up Y -> up (wor X Y).
Proof.
  intros HX HY w n m Hn (k & -> & H). exists (pred m). split; [lia |].
  destruct H as [H|H]; [left; apply (HX w k) | right; apply (HY w k)]; auto with lia.
Qed.

Lemma up_and X Y : up X -> up (wand X Y).
Proof.
  intros HX w n m Hn [(w1 & w2 & k & -> & Hw & H1 & H2)|(n1 & n2 & Hs & H1 & H2)]; [left | right].
  - exists w1, w2, k. eauto.
  - exists n1, n2. split; [lia | done].
Qed.

Lemma up_plus X : up X -> up (wplus X).
Proof.
  intros HX w n m Hn H. destruct H.
  - apply plus_one; eauto.
  - eapply plus_more; eauto.
  - eapply plus_empty; [| done]. lia.
  - eapply plus_skip; [| done ..]. lia.
Qed.

Lemma up_opt X : up X -> up (wopt X).
Proof. intros H. by apply up_or; [apply up_one |]. Qed.

Lemma up_star X : up X -> up (wstar X).
Proof. intros H. by apply up_or; [apply up_one | apply up_plus]. Qed.

(** ** The laws of the rewriting *)
Lemma wand_one Y : up Y -> wand wone Y ≡w Y.
Proof.
  intros HY w n. split.
  - intros [(w1 & w2 & m & _ & Hw & H1 & _)|(n1 & n2 & Hn & _ & H)]; [by destruct Hw |].
    apply (HY w n2); [lia | done].
  - intros H. right. exists 0, n. by repeat split.
Qed.

Lemma wand_zero Y : wand wzero Y ≡w wzero.
Proof. intros w n. split; [| intros []]. by intros [(w1 & w2 & m & _ & _ & [] & _)|(n1 & n2 & _ & [] & _)]. Qed.

Lemma wand_or X1 X2 Y : wand (wor X1 X2) Y ≡w wor (wand X1 Y) (wand X2 Y).
Proof.
  intros w n. split.
  - intros [(w1 & w2 & m & -> & Hw & (k & -> & [H|H]) & H2)|(n1 & n2 & Hn & (k & -> & [H|H]) & H2)].
    + exists k. split; [done |]. left. left. by exists w1, w2, m.
    + exists k. split; [done |]. right. left. by exists w1, w2, m.
    + exists (pred n). split; [lia |]. left. right. exists k, n2. split; [lia | done].
    + exists (pred n). split; [lia |]. right. right. exists k, n2. split; [lia | done].
  - intros (m & -> & [[(w1 & w2 & k & -> & Hw & H1 & H2)|(n1 & n2 & Hn & H1 & H2)]
                     |[(w1 & w2 & k & -> & Hw & H1 & H2)|(n1 & n2 & Hn & H1 & H2)]]).
    + left. exists w1, w2, k. repeat split; [done | | done]. exists m. by split; [| left].
    + right. exists (S n1), n2. repeat split; [lia | | done]. exists n1. by split; [| left].
    + left. exists w1, w2, k. repeat split; [done | | done]. exists m. by split; [| right].
    + right. exists (S n1), n2. repeat split; [lia | | done]. exists n1. by split; [| right].
Qed.

Lemma wand_and X1 X2 Y : wand (wand X1 X2) Y ≡w wand X1 (wand X2 Y).
Proof.
  intros w n. split.
  - intros [(w1 & w2 & m & -> & Hw & [(u1 & u2 & k & -> & Hu & H1 & H2)|(n1 & n2 & Hn & H1 & H2)] & H3)
           |(n1 & n2 & Hn & [(u1 & u2 & k & E & Hu & _)|(k1 & k2 & Hk & H1 & H2)] & H3)].
    + left. destruct (decide (u2 = [])) as [->|Hu2].
      * exists u1, w2, (k + m). rewrite app_nil_r. repeat split; [done .. |]. right. by exists k, m.
      * exists u1, (u2 ++ w2), k. rewrite <- app_assoc. repeat split; [done .. |]. left. by exists u2, w2, m.
    + right. exists n1, n2. repeat split; [done .. |]. left. by exists w1, w2, m.
    + by destruct u1.
    + right. exists k1, (k2 + n2). repeat split; [lia | done |]. right. by exists k2, n2.
  - intros [(w1 & w2 & m & -> & Hw & H1 & [(u1 & u2 & k & -> & Hu & H2 & H3)|(n1 & n2 & Hn & H2 & H3)])
           |(n1 & n2 & Hn & H1 & [(u1 & u2 & k & -> & Hu & H2 & H3)|(k1 & k2 & Hk & H2 & H3)])]; [left .. | right].
    + exists (w1 ++ u1), u2, k. rewrite app_assoc. repeat split; [| | done].
      * intros [? _]%app_eq_nil. done.
      * left. by exists w1, u1, m.
    + exists w1, w2, n2. repeat split; [done | | done]. left. exists w1, [], n1. by rewrite app_nil_r.
    + exists u1, u2, k. repeat split; [done | | done]. right. by exists n1, n2.
    + exists (n1 + k1), k2. repeat split; [lia | | done]. right. by exists n1, k1.
Qed.

Lemma wplus_unfold X : wplus X ≡w wand X (wstar X).
Proof.
  intros w n. split.
  - intros H. destruct H as [w n Hw H|w1 w2 n m Hw H1 H2|n m Hn H|w n1 n2 m Hn H1 H2].
    + left. exists w, [], 1. rewrite app_nil_r. repeat split; [done .. |]. exists 0. by split; [| left].
    + left. exists w1, w2, (S m). repeat split; [done .. |]. exists m. by split; [| right].
    + right. exists n, 1. repeat split; [lia | done |]. exists 0. by split; [| left].
    + right. exists n1, (S n2). repeat split; [lia | done |]. exists n2. by split; [| right].
  - intros [(w1 & w2 & m & -> & Hw & H1 & (k & -> & [->|H2]))|(n1 & n2 & Hn & H1 & (k & -> & [->|H2]))].
    + rewrite app_nil_r. by apply plus_one.
    + by eapply plus_more.
    + eapply plus_empty; [| done]. lia.
    + by eapply plus_skip.
Qed.

Lemma wand_opt X Y : up Y -> wand (wopt X) Y ≡w wor Y (wand X Y).
Proof. intros HY. unfold wopt. by rewrite wand_or, wand_one. Qed.

Lemma wand_star X Y : up Y -> wand (wstar X) Y ≡w wor Y (wand X (wand (wstar X) Y)).
Proof. intros HY. rewrite <- wand_and, <- wplus_unfold. by apply wand_opt. Qed.

Lemma wand_plus X Y : up Y -> wand (wplus X) Y ≡w wand X (wor Y (wand (wplus X) Y)).
Proof. intros HY. rewrite wplus_unfold at 1. rewrite wand_and. unfold wstar. by rewrite wand_or, wand_one. Qed.

(** ** The language without weights *)
Definition words (X : wlang) : list A -> Prop := fun w => exists n, X w n.

Lemma words_proper X Y w : X ≡w Y -> words X w <-> words Y w.
Proof. intros H. split; intros [n Hn]; exists n; by apply H. Qed.

Lemma words_or X Y w : words (wor X Y) w <-> words X w \/ words Y w.
Proof.
  split.
  - intros (n & m & -> & [H|H]); [left | right]; by exists m.
  - intros [[n H]|[n H]]; exists (S n), n; (split; [done |]); tauto.
Qed.

Lemma words_and X Y w : up X -> words (wand X Y) w <-> exists w1 w2, w = w1 ++ w2 /\ words X w1 /\ words Y w2.
Proof.
  intros HX. split.
  - intros (n & [(w1 & w2 & m & -> & Hw & H1 & H2)|(n1 & n2 & Hn & H1 & H2)]).
    + exists w1, w2. repeat split; [by exists n | by exists m].
    + exists [], w. repeat split; [by exists n1 | by exists n2].
  - intros (w1 & w2 & -> & [n H1] & [m H2]). destruct (decide (w1 = [])) as [->|Hw].
    + exists (n + m). right. by exists n, m.
    + exists n. left. by exists w1, w2, m.
Qed.

(** Repetitions. *)
Fixpoint power (X : list A -> Prop) (n : nat) (w : list A) : Prop :=
  match n with
  | O => w = []
  | S n => exists w1 w2, w = w1 ++ w2 /\ X w1 /\ power X n w2
  end.

Lemma words_plus X w : words (wplus X) w <-> exists n, power (words X) (S n) w.
Proof.
  split.
  - intros [n H]. induction H as [w n Hw H|w1 w2 n m Hw H _ [k IH]|n m Hn H|w n1 n2 m Hn H _ [k IH]].
    + exists 0, w, []. rewrite app_nil_r. repeat split. by exists n.
    + exists (S k), w1, w2. repeat split; [by exists n | done].
    + exists 0, [], []. repeat split. by exists n.
    + exists (S k), [], w. repeat split; [by exists n1 | done].
  - intros [n H]. revert w H. induction n as [|n IH]; intros w (w1 & w2 & -> & [m1 H1] & H2).
    + cbn in H2. subst w2. rewrite app_nil_r. destruct (decide (w1 = [])) as [->|Hw].
      * exists (S m1). by eapply plus_empty.
      * exists m1. by apply plus_one.
    + apply IH in H2 as [m2 H2]. destruct (decide (w1 = [])) as [->|Hw].
      * exists (m1 + S m2). by eapply plus_skip.
      * exists m1. by eapply plus_more.
Qed.

Lemma words_opt X w : words (wopt X) w <-> w = [] \/ words X w.
Proof. unfold wopt. rewrite words_or. split; (intros [H|H]; [left | by right]); [by destruct H | by exists 0]. Qed.

Lemma words_star X w : words (wstar X) w <-> exists n, power (words X) n w.
Proof.
  unfold wstar. rewrite words_or, words_plus. split.
  - intros [[n H]|[n H]]; [by exists 0 | by exists (S n)].
  - intros [[|n] H]; [left; by exists 0 | right; by exists n].
Qed.

Lemma words_sym s w : words (wsym s) w <-> w = [s].
Proof. split; [by intros [n H] | by exists 0]. Qed.

Lemma words_one w : words wone w <-> w = [].
Proof. split; [by intros [n H] | by exists 0]. Qed.

(** The first letter of a word. *)
Lemma words_and_sym s Y x w : words (wand (wsym s) Y) (x :: w) <-> x = s /\ words Y w.
Proof.
  rewrite words_and by apply up_sym. setoid_rewrite words_sym. split.
  - intros (w1 & w2 & E & -> & H). injection E as -> ->. done.
  - intros [-> H]. by exists [s], w.
Qed.

Lemma words_and_sym_nil s Y : ~ words (wand (wsym s) Y) [].
Proof.
  rewrite words_and by apply up_sym. intros (w1 & w2 & E & H & _). apply words_sym in H as ->. done.
Qed.
End Languages.

Arguments wlang A : clear implicits.
Infix "≡w" := weq (at level 70).
