(* ===== verification/RegexTables.v ===== *)
(** * The tables of regex2dfa.c: symbols, expressions and equations

    The search in a bucket compares arguments without looking at the tag: it is
    right because the hash values of different tags do not overlap.  Under the
    invariant [tinv], [MakeExp] finds the expression that is equal, or enters it.  [sem]
    gives a language to every class: what has been entered for a class, and its
    present value, denote that language. *)

From Stdlib Require Import ZArith Lia.
From stdpp Require Import base tactics option list numbers.
From S2P Require Import Prelude RegexLang Regex2dfa.

Open Scope Z_scope.

(** ** Hash values *)
Lemma DUP_bounds A B : 0 <= A < 512 -> 0 <= B < 512 -> exists d, DUP A B = Ok d /\ 0 <= d < 512.
Proof.
  intros HA HB. unfold DUP, NN. rewrite c_int_Ok by (unfold INT_MIN, INT_MAX; lia). res_cbn.
  assert (forall L, 0 <= L < 512 * 512 -> exists d, c_int (Z.quot L 512) = Ok d /\ 0 <= d < 512) as Hend.
  { intros L HL. rewrite Z.quot_div_nonneg by lia.
    assert (0 <= L / 512 < 512) by (split; [apply Z.div_pos | apply Z.div_lt_upper_bound]; lia).
    exists (L / 512). rewrite c_int_Ok; [done | unfold INT_MIN, INT_MAX; lia]. }
  destruct (Z.ltb_spec (A + B) 512) as [Hs|Hs]; res_cbn; apply Hend.
  - rewrite Z.quot_div_nonneg by nia. assert ((A + B) * (A + B + 1) / 2 <= 511 * 256) by (apply Z.div_le_upper_bound; nia).
    pose proof (Z.div_pos ((A + B) * (A + B + 1)) 2 ltac:(nia) ltac:(lia)). lia.
  - set (s := 2 * (512 - 1) - (A + B)). assert (0 <= s <= 510) by lia.
    rewrite Z.quot_div_nonneg by nia. assert (s * (s + 1) / 2 <= 511 * 255) by (apply Z.div_le_upper_bound; nia).
    pose proof (Z.div_pos (s * (s + 1)) 2 ltac:(nia) ltac:(lia)). lia.
Qed.

(** The buckets of an expression by its tag. *)
Definition hash_range (e : expr) (H : Z) : Prop :=
  match e with
  | ZeroX => H = 0
  | OneX => H = 1
  | PlusX _ => 2 <= H < 12
  | StarX _ => 12 <= H < 32
  | OptX _ => 32 <= H < 64
  | OrX _ _ => 64 <= H < 128
  | AndX _ _ => 128 <= H < 256
  | SymX _ => 256 <= H < 512
  end.

Lemma hash_range_512 e H : hash_range e H -> 0 <= H < 512.
Proof. destruct e; cbn; lia. Qed.

(** ** Well-formed tables *)
Definition in_tab (t : tables) (q : Z) : Prop := 0 <= q < zlen (EquTab t).

Definition args (e : expr) : list Z :=
  match e with
  | SymX _ | ZeroX | OneX => []
  | AndX a b | OrX a b => [a; b]
  | StarX a | PlusX a | OptX a => [a]
  end.

Definition valid (t : tables) (e : expr) : Prop :=
  match e with SymX p => 0 <= p < zlen (Symbols t) | _ => Forall (in_tab t) (args e) end.

(** [e] has been entered for the class [q]. *)
Definition hashed (t : tables) (e : expr) (q : Z) : Prop :=
  exists p E, aget (Exps t) p = Ok E /\ body E = e /\ Class_of E = q.

Definition value (t : tables) (q : Z) (e : expr) : Prop :=
  exists E, value_exp t q = Ok E /\ body E = e.

Record tinv (t : tables) : Prop := mkTinv {
  t_buckets : zlen (ExpHash t) = 512;
  t_syms : forall p s, aget (Symbols t) p = Ok s -> 0 <= SHash s < 256;
  t_equ : forall q v, aget (EquTab t) q = Ok v -> 0 <= EHash v < 512 /\ 0 <= Value v < zlen (Exps t);
  t_exp : forall p E, aget (Exps t) p = Ok E ->
    valid t (body E) /\ in_tab t (Class_of E) /\ exp_hash t (body E) = Ok (Hash_of E);
  t_chain : forall H chain p, aget (ExpHash t) H = Ok chain -> p ∈ chain ->
    exists E, aget (Exps t) p = Ok E /\ Hash_of E = H;
  t_entered : forall p E, aget (Exps t) p = Ok E -> exists chain, aget (ExpHash t) (Hash_of E) = Ok chain /\ p ∈ chain;
  t_unique : forall p p' E E', aget (Exps t) p = Ok E -> aget (Exps t) p' = Ok E' -> body E = body E' -> p = p'
}.

Lemma exp_hash_ok t e : tinv t -> valid t e -> exists H, exp_hash t e = Ok H /\ hash_range e H.
Proof.
  intros Ht Hv.
  assert (forall q, in_tab t q -> exists v, aget (EquTab t) q = Ok v /\ 0 <= EHash v < 512) as Hq.
  { intros q Hq. destruct (aget_some _ _ Hq) as [v Hx]. exists v. split; [done |]. by destruct (t_equ t Ht q v Hx). }
  assert (forall x b m, 0 <= x < b * m -> 0 < b -> 0 <= Z.quot x b < m) as Hd.
  { intros x b m Hx Hb. rewrite Z.quot_div_nonneg by lia. split; [apply Z.div_pos; lia | apply Z.div_lt_upper_bound; lia]. }
  destruct e as [p| | |a b|a b|a|a|a]; cbn in Hv |- *; try (eexists; by split).
  - destruct (aget_some _ _ Hv) as [s Hs]. rewrite Hs. res_cbn. eexists. split; [done |].
    pose proof (t_syms t Ht p s Hs). cbn. lia.
  - apply List.Forall_cons_iff in Hv as [(v & E1 & H1)%Hq Hv]. apply List.Forall_cons_iff in Hv as [(v' & E2 & H2)%Hq _].
    rewrite E1, E2. res_cbn. destruct (DUP_bounds _ _ H1 H2) as (d & -> & Hdd). res_cbn.
    eexists. split; [done |]. pose proof (Hd d 4 128 ltac:(lia) ltac:(lia)). cbn. lia.
  - apply List.Forall_cons_iff in Hv as [(v & E1 & H1)%Hq Hv]. apply List.Forall_cons_iff in Hv as [(v' & E2 & H2)%Hq _].
    rewrite E1, E2. res_cbn. destruct (DUP_bounds _ _ H1 H2) as (d & -> & Hdd). res_cbn.
    eexists. split; [done |]. pose proof (Hd d 8 64 ltac:(lia) ltac:(lia)). cbn. lia.
  - apply List.Forall_cons_iff in Hv as [(v & E1 & H1)%Hq _]. rewrite E1. res_cbn. eexists. split; [done |].
    pose proof (Hd (EHash v * 20) 512 20 ltac:(lia) ltac:(lia)). cbn. lia.
  - apply List.Forall_cons_iff in Hv as [(v & E1 & H1)%Hq _]. rewrite E1. res_cbn. eexists. split; [done |].
    pose proof (Hd (EHash v * 10) 512 10 ltac:(lia) ltac:(lia)). cbn. lia.
  - apply List.Forall_cons_iff in Hv as [(v & E1 & H1)%Hq _]. rewrite E1. res_cbn. eexists. split; [done |].
    pose proof (Hd (EHash v) 16 32 ltac:(lia) ltac:(lia)). cbn. lia.
Qed.

(** Expressions in the same bucket have the same tag; the arguments decide. *)
Lemma same_exp_ok e e' H : hash_range e H -> hash_range e' H -> same_exp e e' = Ok (bool_decide (e = e')).
Proof.
  intros H1 H2. destruct e, e'; cbn in H1, H2; try lia; cbn; try reflexivity.
  all: repeat match goal with |- context [?a =? ?b] => destruct (Z.eqb_spec a b) end; res_cbn; f_equal; symmetry;
    first [apply bool_decide_eq_true; congruence | apply bool_decide_eq_false; congruence].
Qed.

Lemma find_exp_ok t e H chain : tinv t -> valid t e -> exp_hash t e = Ok H -> aget (ExpHash t) H = Ok chain ->
  (exists p E, find_exp (Exps t) e chain = Ok (Some p) /\ aget (Exps t) p = Ok E /\ body E = e) \/
  (find_exp (Exps t) e chain = Ok None /\ forall q, ~ hashed t e q).
Proof.
  intros Ht Hv He Hc. destruct (exp_hash_ok t e Ht Hv) as (H' & He' & Hr). assert (H' = H) as -> by congruence.
  assert (forall p, p ∈ chain -> exists E, aget (Exps t) p = Ok E /\ hash_range (body E) H) as Hin.
  { intros p Hp. destruct (t_chain t Ht H chain p Hc Hp) as (E & HE & HH). exists E. split; [done |].
    destruct (t_exp t Ht p E HE) as (Hve & _ & Hhe). destruct (exp_hash_ok t (body E) Ht Hve) as (H2 & E2 & R2).
    congruence. }
  assert ((exists p E, find_exp (Exps t) e chain = Ok (Some p) /\ aget (Exps t) p = Ok E /\ body E = e) \/
    (find_exp (Exps t) e chain = Ok None /\ forall p E, p ∈ chain -> aget (Exps t) p = Ok E -> body E <> e)) as Hf.
  { clear Hc. induction chain as [|p chain IH].
    - right. split; [done |]. intros p E []%not_elem_of_nil.
    - destruct (Hin p) as (E & HE & HrE); [by left |]. cbn [find_exp]. rewrite HE. res_cbn.
      rewrite (same_exp_ok _ _ H Hr HrE). res_cbn. destruct (bool_decide_reflect (e = body E)) as [->|Hne].
      + left. by exists p, E.
      + destruct IH as [IH|[IH Hno]]; [intros p' Hp'; apply Hin; by right | by left |].
        right. split; [done |]. intros p' E' [->|Hp']%elem_of_cons HE'; [congruence | by apply (Hno p')]. }
  destruct Hf as [Hf|[Hf Hno]]; [by left |]. right. split; [done |].
  intros q (p & E & HE & Hb & _). destruct (t_entered t Ht p E HE) as (chain' & Hc' & Hp).
  destruct (t_exp t Ht p E HE) as (_ & _ & Hh). rewrite Hb in Hh.
  assert (Hash_of E = H) as EH by congruence. rewrite EH in Hc'. assert (chain' = chain) as -> by congruence.
  by apply (Hno p E).
Qed.

Lemma hashed_fun t e q q' : tinv t -> hashed t e q -> hashed t e q' -> q = q'.
Proof.
  intros Ht (p & E & HE & Hb & Hc) (p' & E' & HE' & Hb' & Hc').
  assert (p = p') as -> by (apply (t_unique t Ht p p' E E'); congruence). congruence.
Qed.

Lemma value_fun t q e e' : value t q e -> value t q e' -> e = e'.
Proof. intros (E & HE & <-) (E' & HE' & <-). congruence. Qed.

Lemma value_in_tab t q e : value t q e -> in_tab t q.
Proof.
  intros (E & Hx & _). unfold value_exp in Hx. apply bind_Ok_inv in Hx as (v & Hv & _). by apply (aget_range _ _ v).
Qed.

Lemma value_total t q : tinv t -> in_tab t q -> exists e, value t q e.
Proof.
  intros Ht Hq. destruct (aget_some _ _ Hq) as [v Hv]. destruct (t_equ t Ht q v Hv) as [_ Hp].
  destruct (aget_some _ _ Hp) as [E HE]. unfold value, value_exp. rewrite Hv. res_cbn. rewrite HE. eauto.
Qed.

Lemma value_valid t q e : tinv t -> value t q e -> in_tab t q /\ valid t e /\ exists c, hashed t e c.
Proof.
  intros Ht (E & HE & <-). unfold value_exp in HE. apply bind_Ok_inv in HE as (v & Hv & HE).
  split; [by apply (aget_range _ _ v) |]. split; [by apply (t_exp t Ht (Value v)) |]. by exists (Class_of E), (Value v), E.
Qed.

Lemma hashed_valid t e q : tinv t -> hashed t e q -> valid t e /\ in_tab t q.
Proof. intros Ht (p & E & HE & <- & <-). destruct (t_exp t Ht p E HE) as (? & ? & _). done. Qed.

(** ** Entering an expression *)

(** The tables with more equations: hash values do not change. *)
Lemma exp_hash_mono t t' e H :
  (forall p s, aget (Symbols t) p = Ok s -> aget (Symbols t') p = Ok s) ->
  (forall q v, aget (EquTab t) q = Ok v -> exists v', aget (EquTab t') q = Ok v' /\ EHash v' = EHash v) ->
  exp_hash t e = Ok H -> exp_hash t' e = Ok H.
Proof.
  intros HS HE. destruct e as [p| | |a b|a b|a|a|a]; cbn [exp_hash]; intros He; try done.
  - inv_bind He. by rewrite (HS _ _ Ha), bind_Ok.
  - inv_bind He. inv_bind He. destruct (HE _ _ Ha) as (v1 & -> & E1). destruct (HE _ _ Ha0) as (v2 & -> & E2).
    res_cbn. rewrite E1, E2. exact He.
  - inv_bind He. inv_bind He. destruct (HE _ _ Ha) as (v1 & -> & E1). destruct (HE _ _ Ha0) as (v2 & -> & E2).
    res_cbn. rewrite E1, E2. exact He.
  - inv_bind He. destruct (HE _ _ Ha) as (v1 & -> & E1). res_cbn. rewrite E1. exact He.
  - inv_bind He. destruct (HE _ _ Ha) as (v1 & -> & E1). res_cbn. rewrite E1. exact He.
  - inv_bind He. destruct (HE _ _ Ha) as (v1 & -> & E1). res_cbn. rewrite E1. exact He.
Qed.

Lemma valid_mono t t' e :
  zlen (Symbols t) <= zlen (Symbols t') -> zlen (EquTab t) <= zlen (EquTab t') -> valid t e -> valid t' e.
Proof.
  intros H1 H2. assert (forall q, in_tab t q -> in_tab t' q) by (unfold in_tab; lia).
  destruct e; cbn; try lia; intros Hv; eapply Forall_impl; eauto.
Qed.

(** The equations change, not their hash values. *)
Definition equ_ok (t : tables) (l : list equation) (n : Z) : Prop :=
  zlen (EquTab t) <= zlen l /\
  (forall q v, aget (EquTab t) q = Ok v -> exists v', aget l q = Ok v' /\ EHash v' = EHash v) /\
  (forall q v, aget l q = Ok v -> 0 <= EHash v < 512 /\ 0 <= Value v < n).

Lemma tinv_equ t l : tinv t -> equ_ok t l (zlen (Exps t)) -> tinv (mkTables (HashTab t) (Symbols t) (ExpHash t) (Exps t) l).
Proof.
  intros [] (Hl & Hh & Hv). split; cbn; try done.
  intros p E HE. destruct (t_exp0 p E HE) as (H1 & H2 & H3). split; [| split].
  - revert H1. by apply valid_mono.
  - unfold in_tab in *; cbn; lia.
  - revert H3. by apply exp_hash_mono.
Qed.

Lemma tinv_enter t e H Q chain l :
  tinv t -> valid t e -> exp_hash t e = Ok H -> aget (ExpHash t) H = Ok chain -> (forall q, ~ hashed t e q) ->
  equ_ok t l (zlen (Exps t) + 1) -> 0 <= Q < zlen l ->
  tinv (mkTables (HashTab t) (Symbols t) (<[Z.to_nat H := zlen (Exps t) :: chain]> (ExpHash t)) (Exps t ++ [mkExp e H Q]) l).
Proof.
  intros Ht Hv He Hc Hnew (Hl & Hh & Hvl) HQ.
  pose proof (aget_range _ _ _ Hc) as HHr. split; cbn.
  - unfold zlen. rewrite length_insert. apply (t_buckets t Ht).
  - apply (t_syms t Ht).
  - intros q v Hq. rewrite zlen_snoc. apply Hvl in Hq. lia.
  - intros p E [HE|[-> ->]]%aget_app_inv; cbn.
    + destruct (t_exp t Ht p E HE) as (H1 & H2 & H3). split; [| split].
      * revert H1. by apply valid_mono.
      * unfold in_tab in *; cbn; lia.
      * revert H3. by apply exp_hash_mono.
    + split; [| split]; [by apply (valid_mono t) | done | revert He; by apply exp_hash_mono].
  - intros H' chain' p Hc' Hp. destruct (decide (H = H')) as [<-|Hne].
    + rewrite aget_insert in Hc' by done. injection Hc' as <-. apply elem_of_cons in Hp as [->|Hp].
      * eexists. by rewrite aget_new.
      * destruct (t_chain t Ht H chain p Hc Hp) as (E & HE & HH). exists E. by rewrite (aget_app _ _ _ _ HE).
    + rewrite aget_insert_ne in Hc' by lia. destruct (t_chain t Ht H' chain' p Hc' Hp) as (E & HE & HH).
      exists E. by rewrite (aget_app _ _ _ _ HE).
  - intros p E [HE|[-> ->]]%aget_app_inv; cbn.
    + destruct (t_entered t Ht p E HE) as (chain' & Hc' & Hp). destruct (decide (H = Hash_of E)) as [->|Hne].
      * rewrite aget_insert by done. eexists. split; [done |]. assert (chain' = chain) as -> by congruence. by right.
      * rewrite aget_insert_ne by lia. by exists chain'.
    + rewrite aget_insert by done. eexists. split; [done | by left].
  - intros p p' E E' [HE|[-> ->]]%aget_app_inv [HE'|[-> ->]]%aget_app_inv Hb; cbn in *.
    + by apply (t_unique t Ht p p' E E').
    + exfalso. apply (Hnew (Class_of E)). by exists p, E.
    + exfalso. apply (Hnew (Class_of E')). by exists p', E'.
    + done.
Qed.

Lemma enter_exp_ok t E chain : aget (ExpHash t) (Hash_of E) = Ok chain ->
  enter_exp t E = Ok (mkTables (HashTab t) (Symbols t) (<[Z.to_nat (Hash_of E) := zlen (Exps t) :: chain]> (ExpHash t))
                        (Exps t ++ [E]) (EquTab t)).
Proof.
  intros Hc. unfold enter_exp. rewrite Hc. res_cbn. rewrite aset_Ok by (by apply (aget_range _ _ chain)). by res_cbn.
Qed.

(** Setting the value of a class. *)
Lemma set_value_ok t Q p v : aget (EquTab t) Q = Ok v ->
  set_value t Q p = Ok (mkTables (HashTab t) (Symbols t) (ExpHash t) (Exps t)
                          (<[Z.to_nat Q := mkEquation p (EHash v) (OnStack v)]> (EquTab t))).
Proof.
  intros Hv. unfold set_value. rewrite Hv. res_cbn. rewrite aset_Ok by (by apply (aget_range _ _ v)). by res_cbn.
Qed.

Lemma equ_ok_insert t Q v v' n : tinv t -> aget (EquTab t) Q = Ok v -> EHash v' = EHash v -> 0 <= Value v' < n ->
  zlen (Exps t) <= n -> equ_ok t (<[Z.to_nat Q := v']> (EquTab t)) n.
Proof.
  intros Ht Hv He Hn Hle. pose proof (aget_range _ _ _ Hv) as HQ. split; [| split].
  - by rewrite zlen_insert.
  - intros q w Hw. destruct (decide (Q = q)) as [<-|Hne].
    + rewrite aget_insert by done. eexists. split; [done |]. congruence.
    + rewrite aget_insert_ne by lia. eauto.
  - intros q w Hw. destruct (decide (Q = q)) as [<-|Hne].
    + rewrite aget_insert in Hw by done. injection Hw as <-. destruct (t_equ t Ht Q v Hv). rewrite He. lia.
    + rewrite aget_insert_ne in Hw by lia. destruct (t_equ t Ht q w Hw). lia.
Qed.

Lemma equ_ok_app t v n : tinv t -> 0 <= EHash v < 512 -> 0 <= Value v < n -> zlen (Exps t) <= n ->
  equ_ok t (EquTab t ++ [v]) n.
Proof.
  intros Ht He Hn Hle. split; [| split].
  - rewrite zlen_snoc. lia.
  - intros q w Hw. exists w. split; [by apply aget_app | done].
  - intros q w [Hw|[-> ->]]%aget_app_inv; [| done]. destruct (t_equ t Ht q w Hw). lia.
Qed.

(** ** [MakeExp] *)

(** The tables after a new expression got a new class. *)
Definition fresh (t : tables) (e : expr) (q : Z) (t' : tables) : Prop :=
  q = zlen (EquTab t) /\ Symbols t' = Symbols t /\ HashTab t' = HashTab t /\
  exists H, Exps t' = Exps t ++ [mkExp e H q] /\ EquTab t' = EquTab t ++ [mkEquation (zlen (Exps t)) H false].

Lemma MakeExp_new t e : tinv t -> valid t e -> exists t' q, MakeExp t (-1) e = Ok (t', q) /\ tinv t' /\
  ((t' = t /\ hashed t e q) \/ ((forall q, ~ hashed t e q) /\ fresh t e q t')).
Proof.
  intros Ht Hv. destruct (exp_hash_ok t e Ht Hv) as (H & He & Hr). pose proof (hash_range_512 e H Hr) as HH.
  destruct (aget_some (ExpHash t) H) as [chain Hc]; [by rewrite (t_buckets t Ht) |].
  unfold MakeExp. rewrite He. res_cbn. rewrite Hc. res_cbn.
  destruct (find_exp_ok t e H chain Ht Hv He Hc) as [(p & E & -> & HE & Hb)|[-> Hnew]]; res_cbn.
  - rewrite HE. res_cbn. exists t, (Class_of E). split; [done |]. split; [done |]. left. split; [done |]. by exists p, E.
  - rewrite (enter_exp_ok t (mkExp e H (zlen (EquTab t))) chain Hc). res_cbn. eexists _, _. split; [reflexivity |]. split.
    + cbn. apply (tinv_enter t e H (zlen (EquTab t)) chain); try done.
      * apply equ_ok_app; cbn; [done | done | pose proof (zlen_nonneg (Exps t)); lia | lia].
      * rewrite zlen_snoc. pose proof (zlen_nonneg (EquTab t)). lia.
    + right. split; [done |]. split; [done |]. cbn. do 2 (split; [done |]). by exists H.
Qed.

(** The tables after the class [Q] got [e] as its value: [e] was there, or it has been
    entered for [Q].  If it had been entered for [Q] before, nothing happens. *)
Definition revalued (t : tables) (Q : Z) (e : expr) (q : Z) (t' : tables) : Prop :=
  Symbols t' = Symbols t /\ HashTab t' = HashTab t /\
  ((hashed t e q /\ Exps t' = Exps t) \/
   ((forall q, ~ hashed t e q) /\ q = Q /\ exists H, Exps t' = Exps t ++ [mkExp e H Q])) /\
  ((hashed t e Q /\ t' = t) \/
   exists p E v, aget (Exps t') p = Ok E /\ body E = e /\ aget (EquTab t) Q = Ok v /\
     EquTab t' = <[Z.to_nat Q := mkEquation p (EHash v) (OnStack v)]> (EquTab t)).

Lemma MakeExp_at t Q e : tinv t -> valid t e -> in_tab t Q -> exists t' q, MakeExp t Q e = Ok (t', q) /\ tinv t' /\
  revalued t Q e q t'.
Proof.
  intros Ht Hv HQ. destruct (exp_hash_ok t e Ht Hv) as (H & He & Hr). pose proof (hash_range_512 e H Hr) as HH.
  destruct (aget_some (ExpHash t) H) as [chain Hc]; [by rewrite (t_buckets t Ht) |].
  destruct (aget_some _ _ HQ) as [v Hvq].
  unfold MakeExp. rewrite He. res_cbn. rewrite Hc. res_cbn. assert ((Q =? -1) = false) as -> by (unfold in_tab in HQ; lia).
  destruct (find_exp_ok t e H chain Ht Hv He Hc) as [(p & E & -> & HE & Hb)|[-> Hnew]]; res_cbn.
  - rewrite HE. res_cbn. cbn [negb andb]. destruct (Z.eqb_spec Q (Class_of E)) as [HQE|HQE]; cbn [negb]; res_cbn.
    + exists t, (Class_of E). split; [done |]. split; [done |]. do 2 (split; [done |]). split.
      * left. split; [by exists p, E | done].
      * left. split; [exists p, E; auto | done].
    + rewrite (set_value_ok t Q p v Hvq). res_cbn. eexists _, _. split; [reflexivity |]. split.
      * apply tinv_equ; [done |]. apply (equ_ok_insert t Q v); cbn; [done .. | | lia]. by apply (aget_range _ _ E).
      * do 2 (split; [done |]). split; [left; split; [by exists p, E | done] |]. right. by exists p, E, v.
  - rewrite (enter_exp_ok t (mkExp e H Q) chain Hc). res_cbn. cbn [Hash_of].
    erewrite set_value_ok by (cbn; exact Hvq). res_cbn. cbn [HashTab Symbols ExpHash Exps EquTab].
    eexists _, _. split; [reflexivity |]. split.
    + apply (tinv_enter t e H Q chain); try done.
      * apply (equ_ok_insert t Q v); cbn; [done .. | | lia]. pose proof (zlen_nonneg (Exps t)). lia.
      * by rewrite zlen_insert.
    + do 2 (split; [done |]). split; [right; split; [done |]; split; [done | by exists H] |].
      right. eexists (zlen (Exps t)), _, v. cbn. rewrite aget_new. by split.
Qed.

(** ** What changes *)
Lemma hashed_app t t' e0 q0 H : Exps t' = Exps t ++ [mkExp e0 H q0] ->
  forall e q, hashed t' e q <-> hashed t e q \/ (e = e0 /\ q = q0).
Proof.
  intros HE e q. unfold hashed. rewrite HE. split.
  - intros (p & E & [Hp|[-> ->]]%aget_app_inv & <- & <-); [left; eauto | by right].
  - intros [(p & E & Hp & <- & <-)|[-> ->]]; [exists p, E; split; [by apply aget_app | done] |].
    exists (zlen (Exps t)), (mkExp e0 H q0). by rewrite aget_new.
Qed.

Lemma hashed_same t t' e q : Exps t' = Exps t -> hashed t' e q <-> hashed t e q.
Proof. intros HE. unfold hashed. by rewrite HE. Qed.

(** The expressions are only added to. *)
Lemma value_app t t' l q e : Exps t' = Exps t ++ l ->
  (forall v, aget (EquTab t) q = Ok v -> exists v', aget (EquTab t') q = Ok v' /\ Value v' = Value v) ->
  value t q e -> value t' q e.
Proof.
  intros HE HV (E & Hx & <-). unfold value_exp in Hx. apply bind_Ok_inv in Hx as (v & Hv & Hx).
  destruct (HV v Hv) as (v' & Hv' & Evv). exists E. split; [| done]. unfold value_exp.
  rewrite Hv', bind_Ok, Evv, HE. by apply aget_app.
Qed.

Section Fresh.
Context (t : tables) (e : expr) (q : Z) (t' : tables) (Ht : tinv t) (Hf : fresh t e q t').

Lemma fresh_hashed e' q' : hashed t' e' q' <-> hashed t e' q' \/ (e' = e /\ q' = q).
Proof. destruct Hf as (_ & _ & _ & H & HE & _). by apply (hashed_app t t' e q H). Qed.

Lemma fresh_in_tab q' : in_tab t' q' <-> in_tab t q' \/ q' = q.
Proof.
  destruct Hf as (-> & _ & _ & H & _ & HQ). unfold in_tab. rewrite HQ, zlen_snoc. pose proof (zlen_nonneg (EquTab t)). lia.
Qed.

Lemma fresh_value_old q' e' : value t q' e' -> value t' q' e'.
Proof.
  destruct Hf as (_ & _ & _ & H & HE & HQ). apply (value_app t t' [mkExp e H q]); [done |].
  intros v Hv. exists v. split; [| done]. rewrite HQ. by apply aget_app.
Qed.

Lemma fresh_value_new : value t' q e.
Proof.
  destruct Hf as (-> & _ & _ & H & HE & HQ). unfold value, value_exp. rewrite HQ, aget_new. res_cbn. cbn.
  rewrite HE, aget_new. eauto.
Qed.

Lemma fresh_value q' e' : value t' q' e' -> value t q' e' \/ (q' = q /\ e' = e).
Proof.
  intros Hv. pose proof (value_in_tab t' q' e' Hv) as Hq. apply fresh_in_tab in Hq as [Hq| ->].
  - destruct (value_total t q' Ht Hq) as (e0 & He0). left.
    by rewrite (value_fun t' q' e' e0 Hv (fresh_value_old q' e0 He0)).
  - right. split; [done |]. apply (value_fun t' q); [done | apply fresh_value_new].
Qed.
End Fresh.

Section Revalued.
Context (t : tables) (Q : Z) (e : expr) (q : Z) (t' : tables) (Ht : tinv t) (HQ : in_tab t Q) (Hr : revalued t Q e q t').

Lemma revalued_tab : exists l, Exps t' = Exps t ++ l.
Proof. destruct Hr as (_ & _ & [[_ H]|(_ & _ & H & HE)] & _); [exists []; by rewrite app_nil_r | by eexists]. Qed.

Lemma revalued_hashed_old e' q' : hashed t e' q' -> hashed t' e' q'.
Proof.
  destruct Hr as (_ & _ & [[_ H]|(_ & _ & H & HE)] & _).
  - by apply hashed_same.
  - rewrite (hashed_app t t' e Q H HE). by left.
Qed.

Lemma revalued_hashed e' q' : hashed t' e' q' -> hashed t e' q' \/ (e' = e /\ q' = Q /\ q = Q).
Proof.
  destruct Hr as (_ & _ & [[_ H]|(_ & -> & H & HE)] & _).
  - rewrite (hashed_same t t' e' q' H). by left.
  - rewrite (hashed_app t t' e Q H HE). intros [|[-> ->]]; [by left | by right].
Qed.

Lemma revalued_in_tab q' : in_tab t' q' <-> in_tab t q'.
Proof.
  destruct Hr as (_ & _ & _ & [[_ ->]|(p & E & v & _ & _ & _ & Hl)]); [done |].
  unfold in_tab. by rewrite Hl, zlen_insert.
Qed.

Lemma revalued_value_old q' e' : q' <> Q -> value t q' e' -> value t' q' e'.
Proof.
  intros Hne. destruct revalued_tab as [l Hl]. apply (value_app t t' l); [done |].
  intros v Hv. exists v. split; [| done].
  destruct Hr as (_ & _ & _ & [[_ ->]|(p & E & v' & _ & _ & _ & Hl')]); [done |].
  rewrite Hl', aget_insert_ne; [done | unfold in_tab in HQ; lia | done].
Qed.

Lemma revalued_value_new : (hashed t e Q /\ t' = t) \/ value t' Q e.
Proof.
  destruct Hr as (_ & _ & _ & [?|(p & E & v & HE & <- & Hv & Hl)]); [by left | right].
  unfold value, value_exp. rewrite Hl, aget_insert by done. res_cbn. cbn. by eexists.
Qed.

Lemma revalued_value q' e' : value t' q' e' -> value t q' e' \/ (q' = Q /\ e' = e).
Proof.
  intros Hv. destruct (decide (q' = Q)) as [->|Hne].
  - destruct revalued_value_new as [[_ Et]|Hn].
    + left. by rewrite Et in Hv.
    + right. split; [done | by apply (value_fun t' Q)].
  - assert (in_tab t' q') as Hq%revalued_in_tab.
    { destruct Hv as (E & Hx & _). unfold value_exp in Hx. apply bind_Ok_inv in Hx as (v & Hv & _). by apply (aget_range _ _ v). }
    destruct (value_total t q' Ht Hq) as (e0 & He0). left.
    by rewrite (value_fun t' q' e' e0 Hv (revalued_value_old q' e0 Hne He0)).
Qed.
End Revalued.

(** ** The language of a class *)

(** The letters are the names of the symbols. *)
Definition nm (t : tables) (p : Z) : list Z := match aget (Symbols t) p with Ok s => Name s | Err _ => [] end.

(** A language for every class. *)
Abbreviation langs := (Z -> wlang (list Z)).

Definition den (t : tables) (W : langs) (e : expr) : wlang (list Z) :=
  match e with
  | SymX p => wsym (nm t p)
  | ZeroX => wzero
  | OneX => wone
  | AndX a b => wand (W a) (W b)
  | OrX a b => wor (W a) (W b)
  | StarX a => wstar (W a)
  | PlusX a => wplus (W a)
  | OptX a => wopt (W a)
  end.

Lemma nm_same t t' p : Symbols t' = Symbols t -> nm t' p = nm t p.
Proof. intros H. unfold nm. by rewrite H. Qed.

Record sem (t : tables) (W : langs) : Prop := mkSem {
  s_up : forall q, up (W q);
  s_hashed : forall e q, hashed t e q -> den t W e ≡w W q;
  s_value : forall q e, value t q e -> den t W e ≡w W q
}.

Lemma den_up t W e : (forall q, up (W q)) -> up (den t W e).
Proof.
  intros H. destruct e; cbn.
  - apply up_sym.
  - apply up_zero.
  - apply up_one.
  - by apply up_and.
  - by apply up_or.
  - by apply up_star.
  - by apply up_plus.
  - by apply up_opt.
Qed.

Lemma den_ext t t' W W' e : (forall p, nm t' p = nm t p) -> (forall a, a ∈ args e -> W' a = W a) -> den t' W' e = den t W e.
Proof. intros Hn H. destruct e; cbn in *; rewrite ?Hn; try done; f_equal; apply H; rewrite ?elem_of_cons; auto. Qed.

Lemma valid_args t e a : valid t e -> a ∈ args e -> in_tab t a.
Proof. destruct e; cbn; intros Hv Ha; try (by apply not_elem_of_nil in Ha); by apply (proj1 (list.Forall_forall _ _) Hv). Qed.

(** Classes keep their languages, what has been entered stays, and values stay
    but for the class [X]. *)
Record grows (X : Z) (t t' : tables) (W W' : langs) : Prop := mkGrows {
  g_syms : Symbols t' = Symbols t;
  g_in_tab : forall q, in_tab t q -> in_tab t' q;
  g_lang : forall q, in_tab t q -> W' q = W q;
  g_hashed : forall e q, hashed t e q -> hashed t' e q;
  g_value : forall q e, q <> X -> value t q e -> value t' q e
}.

Lemma grows_refl X t W : grows X t t W W.
Proof. by split. Qed.

Lemma grows_trans X t1 t2 t3 W1 W2 W3 : grows X t1 t2 W1 W2 -> grows X t2 t3 W2 W3 -> grows X t1 t3 W1 W3.
Proof.
  intros [] []. split; eauto; [congruence |]. intros q Hq. rewrite g_lang1; eauto.
Qed.

Lemma grows_valid X t t' W W' e : grows X t t' W W' -> zlen (EquTab t) <= zlen (EquTab t') -> valid t e -> valid t' e.
Proof. intros H Hl. apply valid_mono; [by rewrite (g_syms _ _ _ _ _ H) | done]. Qed.

Lemma new_sem t W e t' q : tinv t -> sem t W -> valid t e -> fresh t e q t' ->
  exists W', sem t' W' /\ grows (-1) t t' W W' /\ W' q ≡w den t' W' e.
Proof.
  intros Ht [Hu Hh Hv] Hve Hf. set (W' := fun x => if decide (x = q) then den t W e else W x).
  assert (forall x, in_tab t x -> W' x = W x) as HW.
  { intros x Hx. unfold W'. destruct (decide (x = q)) as [->|]; [| done].
    destruct Hf as (-> & _). unfold in_tab in Hx. lia. }
  assert (forall e', valid t e' -> den t' W' e' = den t W e') as Hd.
  { intros e' He'. apply den_ext; [intros p; apply nm_same; by destruct Hf as (_ & -> & _) |]. intros a Ha. apply HW. by apply (valid_args t e'). }
  assert (W' q = den t W e) as Eq by (unfold W'; by rewrite decide_True).
  exists W'. split; [| split].
  - split.
    + intros x. unfold W'. destruct (decide (x = q)); [by apply den_up | done].
    + intros e' q' [Hq|[-> ->]]%(fresh_hashed t e q t' Hf).
      * destruct (hashed_valid t e' q' Ht Hq). rewrite Hd, HW by done. by apply Hh.
      * by rewrite Hd, Eq by done.
    + intros q' e' [Hq|[-> ->]]%(fresh_value t e q t' Ht Hf).
      * destruct (value_valid t q' e' Ht Hq) as (? & ? & _). rewrite Hd, HW by done. by apply Hv.
      * by rewrite Hd, Eq by done.
  - split; [by destruct Hf as (_ & -> & _) | | done | |].
    + intros q' Hq'. apply (fresh_in_tab t e q t' Hf). by left.
    + intros e' q' H. apply (fresh_hashed t e q t' Hf). by left.
    + intros q' e' _. apply (fresh_value_old t e q t' Hf).
  - rewrite Eq. by rewrite Hd.
Qed.

(** [MakeExp(-1, e)] with languages. *)
Lemma MakeExp_new_sem t W e : tinv t -> sem t W -> valid t e -> exists t' q W',
  MakeExp t (-1) e = Ok (t', q) /\ tinv t' /\ sem t' W' /\ grows (-1) t t' W W' /\ in_tab t' q /\ hashed t' e q /\ W' q ≡w den t' W' e.
Proof.
  intros Ht Hs Hv. destruct (MakeExp_new t e Ht Hv) as (t' & q & E & Ht' & [[-> Hh]|[_ Hf]]).
  - exists t, q, W. do 4 (split; [done || apply grows_refl |]). split; [by apply (hashed_valid t e) |].
    split; [done |]. symmetry. by apply (s_hashed t W Hs).
  - destruct (new_sem t W e t' q Ht Hs Hv Hf) as (W' & Hs' & Hg & Hq).
    exists t', q, W'. do 4 (split; [done |]). split; [apply (fresh_in_tab t e q t' Hf); by right |].
    split; [| done]. apply (fresh_hashed t e q t' Hf). by right.
Qed.

(** [MakeExp(Q, e)] for an expression with the language of [Q]. *)
Lemma MakeExp_at_sem t W Q e : tinv t -> sem t W -> valid t e -> in_tab t Q -> den t W e ≡w W Q -> exists t' q,
  MakeExp t Q e = Ok (t', q) /\ tinv t' /\ sem t' W /\ grows Q t t' W W /\
  ((hashed t e Q /\ t' = t) \/ value t' Q e).
Proof.
  intros Ht [Hu Hh Hv] Hve HQ Hd. destruct (MakeExp_at t Q e Ht Hve HQ) as (t' & q & E & Ht' & Hr).
  exists t', q. split; [done |]. split; [done |].
  assert (forall e', den t' W e' = den t W e') as Hdt.
  { intros e'. apply den_ext; [| done]. intros p. apply nm_same. by destruct Hr as (-> & _). }
  split; [| split].
  - split; [done | |]; setoid_rewrite Hdt.
    + intros e' q' [H|(-> & -> & _)]%(revalued_hashed t Q e q t' Hr); [by apply Hh | done].
    + intros q' e' [H|[-> ->]]%(revalued_value t Q e q t' Ht HQ Hr); [by apply Hv | done].
  - split; [by destruct Hr as (-> & _) | | done | |].
    + intros q' Hq'. by apply (revalued_in_tab t Q e q t' Hr).
    + apply (revalued_hashed_old t Q e q t' Hr).
    + intros q' e'. apply (revalued_value_old t Q e q t' HQ Hr).
  - apply (revalued_value_new t Q e q t' HQ Hr).
Qed.

(** C31. Equal expressions share one class: [MakeExp] keeps the tables well formed, gives a class
    to the expression, loses no other, and returns the same class when it is called again. *)
Theorem MakeExp_shares t e : tinv t -> valid t e -> exists t' q, MakeExp t (-1) e = Ok (t', q) /\ tinv t' /\ hashed t' e q /\
  (forall e' q', hashed t' e' q' <-> hashed t e' q' \/ (e' = e /\ q' = q)) /\ MakeExp t' (-1) e = Ok (t', q).
Proof.
  intros Ht Hv. destruct (MakeExp_new t e Ht Hv) as (t' & q & E & Ht' & D). exists t', q. split; [done |]. split; [done |].
  assert (forall e' q', hashed t' e' q' <-> hashed t e' q' \/ (e' = e /\ q' = q)) as HH.
  { destruct D as [[-> Hq]|[_ Hf]]; [| by apply fresh_hashed]. intros e' q'. split; [by left | intros [?|[-> ->]]; done]. }
  assert (hashed t' e q) as Hh by (apply HH; by right). split; [done |]. split; [done |].
  destruct (MakeExp_new t' e Ht') as (t2 & q2 & E2 & _ & [[-> Hq2]|[Hno _]]); [by apply (hashed_valid t' e q) | | by destruct (Hno q)].
  by rewrite E2, (hashed_fun t' e q2 q Ht' Hq2 Hh).
Qed.

(** The empty tables. *)
Lemma tinv_init : tinv init_tables.
Proof.
  split; cbn; try (intros; exfalso; by eapply aget_nil); try done.
  intros H chain p ->%aget_replicate Hp. by apply not_elem_of_nil in Hp.
Qed.

Lemma MakeExp_shares_witness : exists t' q, MakeExp init_tables (-1) OneX = Ok (t', q) /\ tinv t' /\ hashed t' OneX q /\
  (forall e' q', hashed t' e' q' <-> hashed init_tables e' q' \/ (e' = OneX /\ q' = q)) /\ MakeExp t' (-1) OneX = Ok (t', q).
Proof. apply (MakeExp_shares init_tables OneX); [apply tinv_init | apply List.Forall_nil]. Defined.
