(* ===== verification/RegexScan.v ===== *)
(** * The scanner of regex2dfa.c

    [lexed l ts]: the characters [l] are the tokens [ts].  [at_tokens s ts]: the scanner is
    in front of them, and the array of characters has room for their words.  Then
    [LEX] returns the next token and is in front of the others. *)

From Stdlib Require Import ZArith Lia Ascii.
From stdpp Require Import base tactics option list numbers.
From S2P Require Import Prelude Regex2dfa.

Open Scope Z_scope.

(** A token with its word, which is empty but for [IdenT]. *)
Abbreviation token := (Lexical * list Z)%type.

Definition is_char (c : Z) : Prop := 0 < c < 256.

Inductive lexed : list Z -> list token -> Prop :=
| lexed_end : lexed [] []
| lexed_space c l ts : isspace c = true -> lexed l ts -> lexed (c :: l) ts
| lexed_char c L l ts : is_char c -> single c = Some L -> isspace c = false -> lexed l ts -> lexed (c :: l) ((L, []) :: ts)
| lexed_word w l ts : Forall (fun c => is_char c /\ c <> QUOTE) w -> lexed l ts -> lexed (QUOTE :: w ++ QUOTE :: l) ((IdenT, w) :: ts).

Lemma lexed_app l1 ts1 l2 ts2 : lexed l1 ts1 -> lexed l2 ts2 -> lexed (l1 ++ l2) (ts1 ++ ts2).
Proof.
  intros H1 H2. induction H1 as [|c l ts Hc _ IH|c L l ts Hc Hs Hn _ IH|w l ts Hw _ IH].
  - exact H2.
  - by apply lexed_space.
  - by apply lexed_char.
  - replace ((QUOTE :: w ++ QUOTE :: l) ++ l2) with (QUOTE :: w ++ QUOTE :: (l ++ l2)) by (cbn; by rewrite <- app_assoc).
    by apply lexed_word.
Qed.

Lemma lexed_chars l ts : lexed l ts -> Forall is_char l.
Proof.
  induction 1 as [|c l ts Hc _ IH|c L l ts Hc _ _ _ IH|w l ts Hw _ IH].
  - constructor.
  - constructor; [| done]. unfold isspace in Hc. unfold is_char. lia.
  - by constructor.
  - assert (is_char QUOTE) by done. constructor; [done |]. apply list.Forall_app. split; [| by constructor].
    eapply list.Forall_impl; [exact Hw |]. by intros c [].
Qed.

Fixpoint drop_spaces (l : list Z) : list Z :=
  match l with [] => [] | c :: l' => if isspace c then drop_spaces l' else l end.

Lemma lexed_drop_spaces l ts : lexed l ts -> lexed (drop_spaces l) ts.
Proof.
  induction 1 as [|c l ts Hc _ IH|c L l ts Hc Hs Hn H IH|w l ts Hw H IH]; cbn [drop_spaces].
  - constructor.
  - by rewrite Hc.
  - rewrite Hn. by apply lexed_char.
  - change (isspace QUOTE) with false. cbn. by apply lexed_word.
Qed.

(** ** The position of the scanner *)

(** The characters to come are [l]; the rest of the state is that of [s0]. *)
Record rest (s0 s : scanner) (l : list Z) : Prop := mkRest {
  r_str : searchstr s = searchstr s0;
  r_arr : ChArr s = ChArr s0;
  r_last : LastW s = LastW s0;
  r_errors : ERRORS s = ERRORS s0;
  r_pos : 0 <= currpos s;
  r_drop : drop (Z.to_nat (currpos s)) (searchstr s) = l ++ [0];
  r_chars : Forall is_char l
}.

Lemma rest_trans s0 s1 s2 l1 l2 : rest s0 s1 l1 -> rest s1 s2 l2 -> rest s0 s2 l2.
Proof. intros [] []. split; congruence. Qed.

Lemma rest_self s0 s l : rest s0 s l -> rest s s l.
Proof. intros []. by split. Qed.

Lemma GET_char s0 s c l : rest s0 s (c :: l) -> exists s', GET s = Ok (s', c) /\ rest s0 s' l.
Proof.
  intros [H1 H2 H3 H4 Hp Hd Hc]. apply List.Forall_cons_iff in Hc as [Hc Hl]. unfold GET, is_char in *.
  assert (searchstr s !! Z.to_nat (currpos s) = Some c) as Hx.
  { rewrite <- (Nat.add_0_r (Z.to_nat (currpos s))), <- lookup_drop, Hd. done. }
  rewrite (aget_lookup _ _ c Hp Hx). res_cbn. rewrite (proj2 (Z.eqb_neq c 0)) by lia.
  eexists. split; [reflexivity |]. split; cbn; try done; [lia |].
  replace (Z.to_nat (currpos s + 1)) with (Z.to_nat (currpos s) + 1)%nat by lia.
  rewrite <- drop_drop, Hd. done.
Qed.

Lemma GET_end s0 s : rest s0 s [] -> GET s = Ok (s, EOF).
Proof.
  intros [H1 H2 H3 H4 Hp Hd Hc]. unfold GET.
  assert (searchstr s !! Z.to_nat (currpos s) = Some 0) as Hx.
  { rewrite <- (Nat.add_0_r (Z.to_nat (currpos s))), <- lookup_drop, Hd. done. }
  by rewrite (aget_lookup _ _ 0 Hp Hx).
Qed.

Lemma rest_len s0 s l : rest s0 s l -> zlen l < zlen (searchstr s0).
Proof.
  intros [H1 _ _ _ Hp Hd _]. rewrite <- H1. apply (f_equal length) in Hd. rewrite length_drop, length_app in Hd.
  cbn in Hd. unfold zlen. lia.
Qed.

(** White space is skipped. *)
Lemma space_loop s0 s l : rest s0 s l -> zlen (searchstr s0) < 2 ^ 62 ->
  exists s' Ch, loop space_round fuel s = Ok (s', Ch) /\
    match drop_spaces l with [] => Ch = EOF /\ rest s0 s' [] | c :: l' => Ch = c /\ rest s0 s' l' end.
Proof.
  intros Hr Hlen. set (post := fun r : scanner * Z =>
    match drop_spaces l with [] => r.2 = EOF /\ rest s0 r.1 [] | c :: l' => r.2 = c /\ rest s0 r.1 l' end).
  destruct (loop_indexed space_round
    (fun n t => exists l1, rest s0 t l1 /\ drop_spaces l1 = drop_spaces l /\ n = zlen l1) post) with (p := fuel) (n := zlen l) (s := s)
    as ([s' Ch] & E & H).
  - intros n t (l1 & Ht & El & ->). split; [apply zlen_nonneg |]. unfold space_round, post. rewrite <- El.
    destruct l1 as [|c l1]; cbn [drop_spaces].
    + right. exists (t, EOF). rewrite (GET_end s0 t Ht). by res_cbn.
    + destruct (GET_char s0 t c l1 Ht) as (t' & -> & Ht'). res_cbn. cbn [fst snd].
      destruct (isspace c) eqn:Ec.
      * left. exists t', (zlen l1). split; [done |]. split; [exists l1 | rewrite zlen_cons; lia].
        split; [done | split; [| done]]. cbn in El. by rewrite Ec in El.
      * right. exists (t', c). done.
  - by exists l.
  - pose proof (rest_len s0 s l Hr). rewrite fuel_val. lia.
  - by exists s', Ch.
Qed.

(** The loop over the characters of a word. *)
Record in_word (s0 s : scanner) (w l : list Z) : Prop := mkInWord {
  w_rest : rest (mkScanner (searchstr s) (currpos s) (ChArr s) (LastW s) (ERRORS s)) s l;
  w_str : searchstr s = searchstr s0;
  w_arr : ChArr s = ChArr s0 ++ w;
  w_last : LastW s = LastW s0;
  w_errors : ERRORS s = ERRORS s0
}.

Lemma put_char_ok s c : zlen (ChArr s) < MAX_CHAR ->
  put_char s c = Ok (mkScanner (searchstr s) (currpos s) (ChArr s ++ [c]) (LastW s) (ERRORS s)).
Proof. intros H. unfold put_char. by rewrite (proj2 (Z.eqb_neq _ _)) by lia. Qed.

Lemma quote_loop s0 s w l : Forall (fun c => is_char c /\ c <> QUOTE) w -> rest s0 s (w ++ QUOTE :: l) ->
  zlen (ChArr s0) + zlen w < MAX_CHAR ->
  exists s1 Ch s2, GET s = Ok (s1, Ch) /\
    loop quote_round fuel (start_word s1, Ch) = Ok (s2, QUOTE) /\ in_word (start_word s0) s2 w l.
Proof.
  intros Hw Hr Hroom.
  assert (forall s w l, rest s0 s (w ++ QUOTE :: l) -> exists s1, GET s = Ok (s1, hd QUOTE w) /\
            rest s0 s1 (match w with [] => l | _ :: w => w ++ QUOTE :: l end)) as Hget.
  { intros t [|c v] k Ht; by apply GET_char. }
  destruct (Hget s w l Hr) as (s1 & E1 & H1). exists s1, (hd QUOTE w).
  set (post := fun r : scanner * Z => r.2 = QUOTE /\ in_word (start_word s0) r.1 w l).
  destruct (loop_indexed quote_round (fun n t => exists w1 w2, w = w1 ++ w2 /\ n = zlen w2 /\ t.2 = hd QUOTE w2 /\
     in_word (start_word s0) t.1 w1 (match w2 with [] => l | _ :: w2 => w2 ++ QUOTE :: l end))
     post) with (p := fuel) (n := zlen w) (s := (start_word s1, hd QUOTE w)) as ([s2 Ch] & E2 & H2).
  - intros n [t c] (w1 & w2 & Ew & -> & Ec & Ht). cbn [fst snd] in Ec, Ht. subst c. split; [apply zlen_nonneg |].
    unfold quote_round. destruct w2 as [|c w2]; cbn [hd].
    + right. rewrite Z.eqb_refl. cbn [negb andb]. exists (t, QUOTE). split; [done |]. split; [done |].
      by rewrite Ew, app_nil_r.
    + rewrite Ew in Hw, Hroom. apply list.Forall_app in Hw as [_ Hw]. apply List.Forall_cons_iff in Hw as [[Hc Hq] Hw].
      unfold is_char in Hc. rewrite (proj2 (Z.eqb_neq c QUOTE)) by done.
      rewrite (proj2 (Z.eqb_neq c EOF)) by (unfold EOF; lia). cbn [negb andb].
      destruct Ht as [Hrest Hs Ha Hl He]. cbn in Ha. rewrite zlen_app, zlen_cons in Hroom.
      pose proof (zlen_nonneg w2). rewrite put_char_ok by (rewrite Ha, zlen_app; lia). res_cbn.
      set (t1 := mkScanner (searchstr t) (currpos t) (ChArr t ++ [c]) (LastW t) (ERRORS t)).
      assert (rest t1 t1 (w2 ++ QUOTE :: l)) as Ht1 by (destruct Hrest; by split).
      assert (exists t2, GET t1 = Ok (t2, hd QUOTE w2) /\ rest t1 t2 (match w2 with [] => l | _ :: w2 => w2 ++ QUOTE :: l end))
        as (t2 & E3 & H3) by (destruct w2; by apply GET_char).
      rewrite E3. res_cbn. left. exists (t2, hd QUOTE w2), (zlen w2). split; [done |].
      split; [| rewrite zlen_cons; lia]. exists (w1 ++ [c]), w2. rewrite <- app_assoc. split; [exact Ew |]. split; [done |].
      split; [done |]. pose proof (rest_self _ _ _ H3) as H3'. destruct H3 as [G1 G2 G3 G4 _ _ _]. cbn in *.
      split; cbn; [by destruct H3'; split | congruence | | congruence | congruence].
      rewrite G2, Ha. by rewrite <- app_assoc.
  - exists [], w. split; [done |]. split; [done |]. split; [done |]. cbn.
    pose proof (rest_self _ _ _ H1) as H1'. destruct H1, H1'. split; cbn.
    + by split.
    + done.
    + by rewrite app_nil_r, r_arr0.
    + by rewrite r_arr0.
    + done.
  - pose proof (rest_len s0 s _ Hr) as Hl. unfold MAX_CHAR in Hroom. pose proof (zlen_nonneg (ChArr s0)).
    rewrite fuel_val. lia.
  - destruct H2 as [H2 H3]. cbn in H2, H3. subst Ch. by exists s2.
Qed.

(** ** Tokens *)
Lemma lexed_length l ts : lexed l ts -> (length ts <= length l)%nat.
Proof.
  induction 1 as [|c l ts _ _ IH|c L l ts _ _ _ _ IH|w l ts _ _ IH]; cbn; try lia. rewrite length_app. cbn. lia.
Qed.

Fixpoint room (ts : list token) : Z :=
  match ts with
  | [] => 0
  | (L, w) :: ts => (match L with IdenT => zlen w + 1 | _ => 0 end) + room ts
  end.

Lemma room_nonneg ts : 0 <= room ts.
Proof. induction ts as [|[L w] ts IH]; cbn [room]; [lia |]. pose proof (zlen_nonneg w). destruct L; lia. Qed.

Definition at_tokens (s : scanner) (ts : list token) : Prop :=
  exists l, rest s s l /\ lexed l ts /\ zlen (searchstr s) < 2 ^ 62 /\ zlen (ChArr s) + room ts <= MAX_CHAR.

Lemma until_nul_word w l : Forall (fun c => is_char c /\ c <> QUOTE) w -> until_nul (w ++ 0 :: l) = Ok w.
Proof.
  induction 1 as [|c w [Hc _] _ IH]; cbn [until_nul app].
  - by rewrite Z.eqb_refl.
  - unfold is_char in Hc. rewrite (proj2 (Z.eqb_neq c 0)) by lia. rewrite IH. by res_cbn.
Qed.

Lemma LEX_next s L w ts : at_tokens s ((L, w) :: ts) -> exists s', LEX s = Ok (s', L) /\ at_tokens s' ts /\
  ERRORS s' = ERRORS s /\ (L = IdenT -> last_word s' = Ok w).
Proof.
  intros (l & Hr & Hl & Hlen & Hroom). apply lexed_drop_spaces in Hl.
  destruct (space_loop s s l Hr Hlen) as (s1 & Ch & E & H). unfold LEX. rewrite E. res_cbn.
  inversion Hl as [|c l' ts' Hc Hl' E1 E2|c L' l' ts' Hc Hs Hsp Hl' E1 E2|w' l' ts' Hw Hl' E1 E2].
  - exfalso. clear -E1 Hc. revert E1. induction l as [|x l IH]; cbn [drop_spaces]; [done |].
    destruct (isspace x) eqn:Ex; [done |]. intros [= -> _]. congruence.
  - subst. rewrite <- E1 in H. destruct H as [-> H]. rewrite Hs. exists s1. split; [done |].
    assert (L <> IdenT) as HL.
    { intros ->. clear -Hs. unfold single in Hs. repeat case_match; discriminate. }
    split; [| split; [apply (r_errors _ _ _ H) | done]].
    exists l'. split; [by apply (rest_self s) |]. split; [done |]. rewrite (r_str _ _ _ H), (r_arr _ _ _ H).
    split; [done |]. cbn [room] in Hroom. by destruct L.
  - subst. rewrite <- E1 in H. destruct H as [-> H]. cbn [single].
    change (single QUOTE) with (@None Lexical). cbn beta iota. change (isalpha QUOTE || (QUOTE =? chr "_") || (QUOTE =? chr "$")) with false.
    rewrite Z.eqb_refl. cbn beta iota. cbn [room] in Hroom. pose proof (room_nonneg ts).
    destruct (quote_loop s s1 w l' Hw H) as (s2 & c2 & s3 & -> & E3 & [H1 H2 H3 H4 H5]); [lia |].
    res_cbn. cbn [fst snd]. rewrite E3. res_cbn. change (QUOTE =? EOF) with false. cbn beta iota. cbn in H3, H4, H5, H2.
    rewrite put_char_ok by (rewrite H3, zlen_app; lia). res_cbn. eexists. split; [done |].
    split; [| split; [done |]].
    + exists l'. split; [destruct H1; by split |]. split; [done |]. cbn. rewrite H2, H3. split; [done |].
      rewrite !zlen_app; change (zlen [0]) with 1. lia.
    + intros _. unfold last_word. cbn. rewrite H4, H3. pose proof (zlen_nonneg (ChArr s)).
      rewrite (proj2 (Z.ltb_ge _ _)) by lia. unfold zlen. rewrite Nat2Z.id, <- app_assoc, drop_app_length.
      by apply until_nul_word.
Qed.

Lemma LEX_end s : at_tokens s [] -> exists s', LEX s = Ok (s', EndT) /\ at_tokens s' [] /\ ERRORS s' = ERRORS s.
Proof.
  intros (l & Hr & Hl & Hlen & Hroom). apply lexed_drop_spaces in Hl.
  destruct (space_loop s s l Hr Hlen) as (s1 & Ch & E & H). unfold LEX. rewrite E. res_cbn.
  inversion Hl as [E1|c l' ts' Hc Hl' E1 E2| |].
  - rewrite <- E1 in H. destruct H as [-> H]. cbn. exists s1. split; [done |].
    split; [| apply (r_errors _ _ _ H)]. exists []. split; [by apply (rest_self s) |]. split; [constructor |].
    by rewrite (r_str _ _ _ H), (r_arr _ _ _ H).
  - exfalso. clear -E1 Hc. revert E1. induction l as [|x l IH]; cbn [drop_spaces]; [done |].
    destruct (isspace x) eqn:Ex; [done |]. intros [= -> _]. congruence.
Qed.
