(* ===== verification/RegexSymbols.v ===== *)
(** * Symbols of regex2dfa.c, and the tables while an expression is parsed

    The hash table of symbols gives every name one symbol.  While the parser runs,
    every class has been entered once, for its value ([plain]); [pinv] is what the
    parser needs to know about the tables. *)

From Stdlib Require Import ZArith Lia.
From stdpp Require Import base tactics option list numbers.
From S2P Require Import Prelude RegexLang Regex2dfa RegexTables.

Open Scope Z_scope.

(** ** Hash values of names *)

(** Names for which [Hash] does not overflow. *)
Definition word_ok (w : list Z) : Prop := Forall (fun c => 0 < c < 128) w /\ zlen w <= 20.

Lemma lxor_bound a b n : 0 <= n -> 0 <= a < 2 ^ n -> 0 <= b < 2 ^ n -> 0 <= Z.lxor a b < 2 ^ n.
Proof.
  intros Hn Ha Hb. assert (0 <= Z.lxor a b) as Hp by (apply Z.lxor_nonneg; lia). split; [done |].
  destruct (Z.eq_dec (Z.lxor a b) 0) as [->|Hne]; [lia |].
  apply Z.log2_lt_pow2; [lia |].
  pose proof (Z.log2_lxor a b ltac:(lia) ltac:(lia)).
  assert (Z.log2 a < n \/ a = 0) by (destruct (Z.eq_dec a 0); [by right | left; apply Z.log2_lt_pow2; lia]).
  assert (Z.log2 b < n \/ b = 0) by (destruct (Z.eq_dec b 0); [by right | left; apply Z.log2_lt_pow2; lia]).
  destruct (Z.eq_dec a 0) as [->|]; [rewrite Z.lxor_0_l in *; lia |].
  destruct (Z.eq_dec b 0) as [->|]; [rewrite Z.lxor_0_r in *; lia |]. lia.
Qed.

Lemma Hash_from_ok w : Forall (fun c => 0 < c < 128) w -> forall n H, 7 <= n -> n + zlen w <= 30 -> 0 <= H < 2 ^ n ->
  exists h, Hash_from H w = Ok h /\ 0 <= h < 256.
Proof.
  induction 1 as [|c w Hc Hw IH]; intros n H Hn Hl HH; cbn [Hash_from].
  - eexists. split; [done |]. change 255 with (Z.ones 8). rewrite Z.land_ones by lia. apply Z.mod_pos_bound. lia.
  - rewrite zlen_cons in Hl. pose proof (zlen_nonneg w). unfold Hash_step, schar.
    rewrite (proj2 (Z.ltb_ge H 0)) by lia. rewrite Z.shiftl_mul_pow2 by lia. change (2 ^ 1) with 2.
    assert (2 ^ (n + 1) <= 2 ^ 30) by (apply Z.pow_le_mono_r; lia). assert (2 ^ (n + 1) = 2 * 2 ^ n) as E2 by (rewrite Z.pow_add_r by lia; lia).
    rewrite c_int_Ok by (unfold INT_MIN, INT_MAX; lia). res_cbn. rewrite (proj2 (Z.ltb_lt c 128)) by lia.
    apply (IH (n + 1)); [lia | lia |]. apply lxor_bound; [lia | lia |].
    assert (2 ^ 7 <= 2 ^ n) by (apply Z.pow_le_mono_r; lia). lia.
Qed.

Lemma Hash_ok w : word_ok w -> exists h, Hash w = Ok h /\ 0 <= h < 256.
Proof. intros [Hc Hl]. by apply (Hash_from_ok w Hc 7); lia. Qed.

Lemma strcmp_refl s : strcmp s s = 0.
Proof. induction s as [|x s IH]; cbn; [done |]. by rewrite Z.ltb_irrefl. Qed.

Lemma strcmp_eq s t : strcmp s t = 0 -> s = t.
Proof.
  revert t. induction s as [|x s IH]; intros [|y t]; cbn; try done.
  destruct (Z.ltb_spec x y); [done |]. destruct (Z.ltb_spec y x); [done |]. intros H1. f_equal; [lia | auto].
Qed.

(** ** The hash table of symbols *)
Record sinv (t : tables) : Prop := mkSinv {
  y_tab : zlen (HashTab t) = 512;
  y_hash : forall p s, aget (Symbols t) p = Ok s -> Hash (Name s) = Ok (SHash s);
  y_chain : forall H chain p, aget (HashTab t) H = Ok chain -> p ∈ chain -> exists s, aget (Symbols t) p = Ok s;
  y_entered : forall p s, aget (Symbols t) p = Ok s -> exists chain, aget (HashTab t) (SHash s) = Ok chain /\ p ∈ chain;
  y_unique : forall p p' s s', aget (Symbols t) p = Ok s -> aget (Symbols t) p' = Ok s' -> Name s = Name s' -> p = p'
}.

Lemma find_symbol_ok Sy w chain : (forall p, p ∈ chain -> exists s, aget Sy p = Ok s) ->
  (exists p s, find_symbol Sy w chain = Ok (Some p) /\ aget Sy p = Ok s /\ Name s = w) \/
  (find_symbol Sy w chain = Ok None /\ forall p s, p ∈ chain -> aget Sy p = Ok s -> Name s <> w).
Proof.
  induction chain as [|p chain IH]; intros Hin.
  - right. split; [done |]. intros p s []%not_elem_of_nil.
  - destruct (Hin p) as [s Hs]; [by left |]. cbn [find_symbol]. rewrite Hs. res_cbn.
    destruct (Z.eqb_spec (strcmp (Name s) w) 0) as [E|E].
    + left. exists p, s. repeat split; [done |]. by apply strcmp_eq.
    + destruct IH as [IH|[IH Hno]]; [intros p' Hp; apply Hin; by right | by left |]. right. split; [done |].
      intros p' s' [->|Hp]%elem_of_cons Hs'; [| by apply (Hno p')]. assert (s' = s) as -> by congruence.
      intros <-. by rewrite strcmp_refl in E.
Qed.

(** The tables for a symbol: those there were, or one symbol more. *)
Definition with_symbol (t : tables) (p : Z) (t' : tables) : Prop :=
  ExpHash t' = ExpHash t /\ Exps t' = Exps t /\ EquTab t' = EquTab t /\
  (t' = t \/ exists s, Symbols t' = Symbols t ++ [s] /\ 0 <= SHash s < 256 /\ p = zlen (Symbols t)) /\ 0 <= p < zlen (Symbols t').

Lemma LookUp_ok t w : sinv t -> word_ok w -> exists t' p,
  LookUp t w = Ok (t', p) /\ sinv t' /\ with_symbol t p t' /\ nm t' p = w.
Proof.
  intros Ht Hw. destruct (Hash_ok w Hw) as (h & Eh & Hh). unfold LookUp. rewrite Eh. res_cbn.
  destruct (aget_some (HashTab t) h) as [chain Hc]; [rewrite (y_tab t Ht); lia |]. rewrite Hc. res_cbn.
  destruct (find_symbol_ok (Symbols t) w chain) as [(p & s & -> & Hs & Hn)|[-> Hno]]; [by intros p; apply (y_chain t Ht h) | |]; res_cbn.
  - exists t, p. split; [done |]. split; [done |]. split; [| by unfold nm; rewrite Hs].
    do 3 (split; [done |]). split; [by left | by apply (aget_range _ _ s)].
  - rewrite aset_Ok by (by apply (aget_range _ _ chain)). res_cbn. eexists _, _. split; [reflexivity |].
    assert (forall p s, aget (Symbols t) p = Ok s -> Name s <> w) as Hnew.
    { intros p s Hs Hn. destruct (y_entered t Ht p s Hs) as (chain' & Hc' & Hp). pose proof (y_hash t Ht p s Hs) as E.
      assert (SHash s = h) as Es by congruence. rewrite Es in Hc'. assert (chain' = chain) as -> by congruence.
      by apply (Hno p s). }
    split; [| split].
    + split; cbn.
      * rewrite zlen_insert. apply (y_tab t Ht).
      * intros p s [Hs|[-> ->]]%aget_app_inv; [by apply (y_hash t Ht p) | done].
      * intros H' chain' p Hc' Hp. destruct (decide (h = H')) as [<-|Hne].
        -- rewrite aget_insert in Hc' by (by apply (aget_range _ _ chain)). injection Hc' as <-.
           apply elem_of_cons in Hp as [->|Hp]; [eexists; apply aget_new |].
           destruct (y_chain t Ht h chain p Hc Hp) as [s Hs]. exists s. by apply aget_app.
        -- rewrite aget_insert_ne in Hc' by lia. destruct (y_chain t Ht H' chain' p Hc' Hp) as [s Hs]. exists s. by apply aget_app.
      * intros p s [Hs|[-> ->]]%aget_app_inv; cbn.
        -- destruct (y_entered t Ht p s Hs) as (chain' & Hc' & Hp). destruct (decide (h = SHash s)) as [->|Hne].
           ++ rewrite aget_insert by (by apply (aget_range _ _ chain)). eexists. split; [done |].
              assert (chain' = chain) as -> by congruence. by right.
           ++ rewrite aget_insert_ne by lia. by exists chain'.
        -- rewrite aget_insert by (by apply (aget_range _ _ chain)). eexists. split; [done | by left].
      * intros p p' s s' [Hs|[-> ->]]%aget_app_inv [Hs'|[-> ->]]%aget_app_inv Hn; cbn in *.
        -- by apply (y_unique t Ht p p' s s').
        -- by destruct (Hnew p s Hs).
        -- by destruct (Hnew p' s' Hs').
        -- done.
    + do 3 (split; [done |]). cbn. split; [right; by eexists |]. rewrite zlen_snoc. pose proof (zlen_nonneg (Symbols t)). lia.
    + unfold nm. cbn. by rewrite aget_new.
Qed.

(** ** The tables of the parser *)

(** Every class has been entered once, its arguments before it. *)
Record plain (t : tables) : Prop := mkPlain {
  l_class : forall q, in_tab t q -> exists e, value t q e /\ hashed t e q /\ (forall e', hashed t e' q -> e' = e) /\
    (forall a, a ∈ args e -> a < q) /\ e <> ZeroX /\ e <> OneX;
  l_stack : forall q v, aget (EquTab t) q = Ok v -> OnStack v = false
}.

(** The names that the text of an expression may have. *)
Class Names := mkNames {
  is_name : list Z -> Prop;
  is_name_word w : is_name w -> word_ok w
}.

Record pinv {N : Names} (t : tables) (W : langs) : Prop := mkPinv {
  p_tinv : tinv t;
  p_sem : sem t W;
  p_sinv : sinv t;
  p_plain : plain t;
  p_names : forall p s, aget (Symbols t) p = Ok s -> is_name (Name s)
}.

(** What happens to the tables while the parser runs. *)
Record pgrows (t t' : tables) (W W' : langs) : Prop := mkPgrows {
  pg_names : forall p, 0 <= p < zlen (Symbols t) -> nm t' p = nm t p;
  pg_syms : zlen (Symbols t) <= zlen (Symbols t');
  pg_in_tab : forall q, in_tab t q -> in_tab t' q;
  pg_lang : forall q, in_tab t q -> W' q = W q
}.

Lemma pgrows_refl t W : pgrows t t W W.
Proof. by split. Qed.

Lemma pgrows_trans t1 t2 t3 W1 W2 W3 : pgrows t1 t2 W1 W2 -> pgrows t2 t3 W2 W3 -> pgrows t1 t3 W1 W3.
Proof.
  intros [] []. split; eauto; [| lia |].
  - intros p Hp. rewrite pg_names1 by lia. auto.
  - intros q Hq. rewrite pg_lang1 by auto. auto.
Qed.

(** A symbol more. *)
Section With_symbol.
Context (t : tables) (p : Z) (t' : tables) (Hw : with_symbol t p t').

Lemma ws_symbols : exists l, Symbols t' = Symbols t ++ l.
Proof. destruct Hw as (_ & _ & _ & [->|(s & H & _)] & _); [exists []; by rewrite app_nil_r | by eexists]. Qed.

Lemma ws_names q : 0 <= q < zlen (Symbols t) -> nm t' q = nm t q.
Proof.
  intros Hq. destruct ws_symbols as [l Hl]. unfold nm. rewrite Hl. destruct (aget_some _ _ Hq) as [s Hs].
  by rewrite Hs, (aget_app _ l _ s Hs).
Qed.

Lemma ws_hashed e q : hashed t' e q <-> hashed t e q.
Proof. destruct Hw as (_ & H & _). by apply hashed_same. Qed.

Lemma ws_value q e : value t' q e <-> value t q e.
Proof. destruct Hw as (_ & H1 & H2 & _). unfold value, value_exp. by rewrite H1, H2. Qed.

Lemma ws_in_tab q : in_tab t' q <-> in_tab t q.
Proof. destruct Hw as (_ & _ & H & _). unfold in_tab. by rewrite H. Qed.

Lemma ws_tinv : tinv t -> tinv t'.
Proof.
  intros [Hb Hsy Hq He Hc Hn Hu]. destruct ws_symbols as [l Hl]. destruct Hw as (H1 & H2 & H3 & H4 & _).
  split; rewrite ?H1, ?H2, ?H3; try done.
  - intros q s Hs. destruct H4 as [E|(s0 & E & Hs0 & _)]; [rewrite E in Hs; eauto |]. rewrite E in Hs.
    apply aget_app_inv in Hs as [Hs|[-> ->]]; eauto.
  - intros q E HE. destruct (He q E HE) as (Hv & Hqc & Hh). split; [| split].
    + revert Hv. apply valid_mono; [rewrite Hl, zlen_app; pose proof (zlen_nonneg l); lia | by rewrite H3].
    + by apply ws_in_tab.
    + revert Hh. apply exp_hash_mono; [intros x s; rewrite Hl; apply aget_app |].
      intros x v Hv'. rewrite H3. by exists v.
Qed.

Lemma ws_den W e : valid t e -> den t' W e = den t W e.
Proof. intros Hv. destruct e; try done. cbn in *. by rewrite ws_names. Qed.

Lemma ws_sem W : tinv t -> sem t W -> sem t' W.
Proof.
  intros Ht [Hu Hh Hv]. split; [done | |].
  - intros e q H%ws_hashed. rewrite ws_den by (by apply (hashed_valid t e q)). auto.
  - intros q e H%ws_value. rewrite ws_den by (by apply (value_valid t q e)). auto.
Qed.

Lemma ws_plain : plain t -> plain t'.
Proof.
  intros [H1 H2]. destruct Hw as (_ & _ & E & _). split; [| by rewrite E].
  intros q Hq%ws_in_tab. destruct (H1 q Hq) as (e & Hv & Hh & Hu & Ha). exists e.
  rewrite ws_value, ws_hashed. do 2 (split; [done |]). split; [| done]. intros e' H%ws_hashed. auto.
Qed.
End With_symbol.

Lemma pinv_LookUp {N : Names} t W w : pinv t W -> is_name w -> exists t' p, LookUp t w = Ok (t', p) /\ pinv t' W /\
  pgrows t t' W W /\ 0 <= p < zlen (Symbols t') /\ nm t' p = w.
Proof.
  intros [Ht Hs Hy Hp Hnm] Hw. destruct (LookUp_ok t w Hy (is_name_word w Hw)) as (t' & p & E & Hy' & Hws & Hn). exists t', p.
  split; [done |]. split; [| split; [| split; [by destruct Hws as (_ & _ & _ & _ & H) | done]]].
  - split; [by apply (ws_tinv t p) | by apply (ws_sem t p) | done | by apply (ws_plain t p) |].
    destruct Hws as (_ & _ & _ & [->|(s0 & Es & _ & Ep)] & _); [done |]. rewrite Es. intros q s [Hq|[-> ->]]%aget_app_inv; [by apply (Hnm q) |].
    unfold nm in Hn. rewrite Es, Ep, aget_new in Hn. by rewrite Hn.
  - split; [by apply (ws_names t p) | | by intros q; apply (ws_in_tab t p) | done].
    destruct (ws_symbols t p t' Hws) as [l ->]. rewrite zlen_app. pose proof (zlen_nonneg l). lia.
Qed.

(** A new expression. *)
Lemma fresh_plain t e q t' : tinv t -> valid t e -> e <> ZeroX -> e <> OneX -> (forall q, ~ hashed t e q) ->
  fresh t e q t' -> plain t -> plain t'.
Proof.
  intros Ht Hv Hz Ho Hnew Hf [H1 H2]. split.
  - intros x Hx. apply (fresh_in_tab t e q t' Hf) in Hx as [Hx|Hx].
    + destruct (H1 x Hx) as (e1 & Hv1 & Hh1 & Hu & Ha). exists e1. split; [by apply (fresh_value_old t e q t' Hf) |].
      split; [apply (fresh_hashed t e q t' Hf); by left |]. split; [| done].
      intros e' [H|[-> ->]]%(fresh_hashed t e q t' Hf); [by apply Hu |]. destruct Hf as (-> & _). unfold in_tab in Hx. lia.
    + subst x. exists e. split; [by apply (fresh_value_new t e q t') |]. split; [apply (fresh_hashed t e q t' Hf); by right |].
      split; [| split; [| done]].
      * intros e' [H|[-> _]]%(fresh_hashed t e q t' Hf); [| done]. destruct (hashed_valid t e' q Ht H) as [_ Hq].
        destruct Hf as (-> & _). unfold in_tab in Hq. lia.
      * intros a Ha. pose proof (valid_args t e a Hv Ha) as Hq. destruct Hf as (-> & _). unfold in_tab in Hq. lia.
  - intros x v Hx. destruct Hf as (_ & _ & _ & H & _ & E). rewrite E in Hx.
    apply aget_app_inv in Hx as [Hx|[_ ->]]; [by apply (H2 x) | done].
Qed.

Lemma pinv_MakeExp {N : Names} t W e : pinv t W -> valid t e -> e <> ZeroX -> e <> OneX -> exists t' q W',
  MakeExp t (-1) e = Ok (t', q) /\ pinv t' W' /\ pgrows t t' W W' /\ in_tab t' q /\ W' q ≡w den t' W' e.
Proof.
  intros [Ht Hs Hy Hp Hnm] Hv Hz Ho. destruct (MakeExp_new t e Ht Hv) as (t' & q & E & Ht' & [[-> Hh]|[Hnew Hf]]).
  - exists t, q, W. split; [done |]. split; [by split |]. split; [apply pgrows_refl |].
    split; [by apply (hashed_valid t e) |]. symmetry. by apply (s_hashed t W Hs).
  - destruct (new_sem t W e t' q Ht Hs Hv Hf) as (W' & Hs' & Hg & Hq). exists t', q, W'. split; [done |].
    assert (Symbols t' = Symbols t /\ HashTab t' = HashTab t) as [Es Eh] by (by destruct Hf as (_ & ? & ? & _)).
    split; [split | split; [split | split]]; try done.
    + destruct Hy. split; rewrite ?Es, ?Eh; done.
    + by apply (fresh_plain t e q).
    + by rewrite Es.
    + intros p _. by apply nm_same.
    + by rewrite Es.
    + apply (g_in_tab _ _ _ _ _ Hg).
    + apply (g_lang _ _ _ _ _ Hg).
    + apply (fresh_in_tab t e q t' Hf). by right.
Qed.

(** The empty tables. *)
Lemma pinv_init {N : Names} : pinv init_tables (fun _ => wzero).
Proof.
  split; [apply tinv_init | split | split | split |]; cbn; try (intros; exfalso; by eapply aget_nil); try done.
  - intros q. apply up_zero.
  - intros e q (p & E & H & _). by apply aget_nil in H.
  - intros q e (E & H & _). unfold value_exp in H. apply bind_Ok_inv in H as (v & H & _). by apply aget_nil in H.
  - intros H chain p ->%aget_replicate Hp. by apply not_elem_of_nil in Hp.
  - intros q Hq. unfold in_tab in Hq. cbn in Hq. unfold zlen in Hq. cbn in Hq. lia.
Qed.
