(* ===== verification/RegexParse.v ===== *)
(** * The parser of regex2dfa.c

    [rx]: expressions, with the tokens that denote them ([toks]) and their languages
    ([wden]).  [parse_rx]: from the label EXP, in front of the tokens of [r], the parser
    gets to END behind them, with factors on the stack and in [RHS] whose product is
    the language of [r].  [Parse_correct] is the whole parser. *)

From Stdlib Require Import ZArith Lia Ascii.
From stdpp Require Import base tactics option list numbers.
From S2P Require Import Prelude RegexLang Regex2dfa RegexTables RegexScan RegexSymbols.

Open Scope Z_scope.

(** ** Expressions *)
Inductive rx :=
| RSym (w : list Z)
| RAnd (r s : rx)
| ROr (r s : rx)
| RStar (r : rx)
| RPlus (r : rx)
| ROpt (r : rx).

Fixpoint toks (r : rx) : list token :=
  match r with
  | RSym w => [(IdenT, w)]
  | RAnd r s => toks r ++ toks s
  | ROr r s => (LParT, []) :: toks r ++ (BarT, []) :: toks s ++ [(RParT, [])]
  | RStar r => (LParT, []) :: toks r ++ [(RParT, []); (StarT, [])]
  | RPlus r => (LParT, []) :: toks r ++ [(RParT, []); (PlusT, [])]
  | ROpt r => (LBrT, []) :: toks r ++ [(RBrT, [])]
  end.

Fixpoint wden (r : rx) : wlang (list Z) :=
  match r with
  | RSym w => wsym w
  | RAnd r s => wand (wden r) (wden s)
  | ROr r s => wor (wden r) (wden s)
  | RStar r => wstar (wden r)
  | RPlus r => wplus (wden r)
  | ROpt r => wopt (wden r)
  end.

Fixpoint rx_ok {N : Names} (r : rx) : Prop :=
  match r with
  | RSym w => is_name w
  | RAnd r s | ROr r s => rx_ok r /\ rx_ok s
  | RStar r | RPlus r | ROpt r => rx_ok r
  end.

(** The factors that are left on the stack, and the size of the stack it takes. *)
Fixpoint factors (r : rx) : Z :=
  match r with RAnd r s => factors r + 1 + factors s | _ => 0 end.

Fixpoint depth (r : rx) : Z :=
  match r with
  | RSym _ => 0
  | RAnd r s => Z.max (depth r) (factors r + 1 + depth s)
  | ROr r s => Z.max (1 + depth r) (2 + depth s)
  | RStar r | RPlus r | ROpt r => 1 + depth r
  end.

Lemma factors_nonneg r : 0 <= factors r.
Proof. induction r; cbn; lia. Qed.

Lemma depth_factors r : factors r <= depth r.
Proof.
  induction r as [w|r IHr s IHs|r IHr s IHs|r IHr|r IHr|r IHr]; cbn [factors depth]; try lia;
    pose proof (factors_nonneg r); try pose proof (factors_nonneg s); lia.
Qed.

(** ** One round of the parser *)
Lemma END_round p T x sp a : SP p = (T, x) :: sp -> Action T (Look p) = Ok a -> parse_round (END, p) = act a p.
Proof. intros H1 H2. unfold parse_round, at_END. cbn [fst snd]. rewrite H1. cbn [TOP]. res_cbn. rewrite H2. by res_cbn. Qed.

Lemma act_x p : act "x" p =
  (r ← POP (SP p); x ← MakeExp (tabs p) (-1) (AndX r.2 (RHS p)); Ok (inl (END, with_stack (with_exp p x) r.1))).
Proof. reflexivity. Qed.

Lemma act_v p : act "v" p =
  (r ← POP (SP p); x ← MakeExp (tabs p) (-1) (OrX r.2 (RHS p)); Ok (inl (END, with_stack (with_exp p x) r.1))).
Proof. reflexivity. Qed.

Lemma act_close p : act ")" p = (r ← POP (SP p); n ← shift END (with_stack p r.1); Ok (inl n)).
Proof. reflexivity. Qed.

Lemma act_star p : act "*" p = (x ← MakeExp (tabs p) (-1) (StarX (RHS p)); n ← shift END (with_exp p x); Ok (inl n)).
Proof. reflexivity. Qed.

Lemma act_plus p : act "+" p = (x ← MakeExp (tabs p) (-1) (PlusX (RHS p)); n ← shift END (with_exp p x); Ok (inl n)).
Proof. reflexivity. Qed.

Lemma act_bar p : act "|" p = (sp ← PUSH (SP p) OR (RHS p); n ← shift EXP (with_stack p sp); Ok (inl n)).
Proof. reflexivity. Qed.

Lemma act_and p : act "&" p = (sp ← PUSH (SP p) AND (RHS p); Ok (inl (EXP, with_stack p sp))).
Proof. reflexivity. Qed.

Lemma act_opt p : act "]" p = (n ← shift END p; p ← make_opt n.2; Ok (inl (END, p))).
Proof. reflexivity. Qed.

Lemma act_end p : act "." p = (r ← POP (SP p); Ok (inr (with_stack p r.1, RHS p))).
Proof. reflexivity. Qed.

#[local] Opaque act.

(** ** Several rounds of a loop *)
Section Runs.
Context {S R : Type} (step : S -> res (S + R)).

Inductive runs : nat -> S -> S -> Prop :=
| runs_0 s : runs 0 s s
| runs_S n s s' s'' : step s = Ok (inl s') -> runs n s' s'' -> runs (Datatypes.S n) s s''.

Lemma runs_app n m s1 s2 s3 : runs n s1 s2 -> runs m s2 s3 -> runs (n + m) s1 s3.
Proof. induction 1; [done |]. intros H2. cbn. eapply runs_S; eauto. Qed.

Lemma runs_1 s s' : step s = Ok (inl s') -> runs 1 s s'.
Proof. intros H. eapply runs_S; [done |]. apply runs_0. Qed.

Lemma loop_runs p n s s' r : runs n s s' -> step s' = Ok (inr r) -> Z.of_nat n < Zpos p -> loop step p s = Ok r.
Proof.
  intros H Hs Hn. destruct (loop_indexed step (fun k t => exists m, k = Z.of_nat m /\ runs m t s') (fun x => x = r))
    with (p := p) (n := Z.of_nat n) (s := s) as (x & E & ->); [| by exists n | done | done].
  intros k t (m & -> & Ht). split; [lia |]. inversion Ht as [|m' t1 t2 t3 H1 H2]; subst; [right; by exists r |].
  left. exists t2, (Z.of_nat m'). split; [done |]. split; [by exists m' | lia].
Qed.
End Runs.

Abbreviation pruns := (runs parse_round).

(** ** The look-ahead *)
Definition look (p : parser) (ts : list token) : Prop :=
  match ts with
  | [] => Look p = EndT /\ at_tokens (lexer p) []
  | (L, w) :: ts => Look p = L /\ (L = IdenT -> last_word (lexer p) = Ok w) /\ at_tokens (lexer p) ts
  end.

(** The parser with the same tables, stack and so on. *)
Definition moved (p p' : parser) : Prop :=
  tabs p' = tabs p /\ SP p' = SP p /\ ID p' = ID p /\ RHS p' = RHS p.

Lemma shift_ok l p ts : at_tokens (lexer p) ts -> exists p', shift l p = Ok (l, p') /\ moved p p' /\ look p' ts.
Proof.
  intros H. unfold shift. destruct ts as [|[L w] ts].
  - destruct (LEX_end _ H) as (s' & -> & H' & _). res_cbn. eexists. split; [done |]. by split.
  - destruct (LEX_next _ L w ts H) as (s' & -> & H' & _ & Hw). res_cbn. eexists. split; [done |]. by split.
Qed.

Lemma look_tokens p L w ts : look p ((L, w) :: ts) -> at_tokens (lexer p) ts.
Proof. by intros (_ & _ & H). Qed.

Lemma look_same p p' ts : lexer p' = lexer p -> Look p' = Look p -> look p ts -> look p' ts.
Proof. intros H1 H2. unfold look. destruct ts as [|[L w] ts]; by rewrite H1, H2. Qed.

(** The look-ahead of a list of tokens; behind a factor only some of them reduce. *)
Definition next_tok (ts : list token) : Lexical := match ts with [] => EndT | (L, _) :: _ => L end.

Lemma look_next p ts : look p ts -> Look p = next_tok ts.
Proof. by destruct ts as [|[L w] ts]; intros (H & _). Qed.

Definition closing (L : Lexical) : Prop := L = EndT \/ L = RParT \/ L = RBrT \/ L = BarT.
Definition opening (L : Lexical) : Prop := L = IdenT \/ L = LParT \/ L = LBrT.

Lemma toks_opening r ts : exists L w ts', toks r ++ ts = (L, w) :: ts' /\ opening L.
Proof.
  revert ts. induction r as [w|r IHr s IHs|r IHr s IHs|r IHr|r IHr|r IHr]; intros ts; cbn [toks app];
    try (eexists _, _, _; split; [done |]; unfold opening; tauto).
  rewrite <- app_assoc. apply IHr.
Qed.

(** ** Factors on the stack *)
Definition frames (qs : list Z) : stack := (fun q => (AND, q)) <$> qs.

Definition product (W : langs) (qs : list Z) (q : Z) : wlang (list Z) := foldl (fun X a => wand (W a) X) (W q) qs.

Lemma foldl_and (W : langs) qs X Y : foldl (fun X a => wand (W a) X) (wand X Y) qs ≡w wand (foldl (fun X a => wand (W a) X) X qs) Y.
Proof.
  revert X. induction qs as [|a qs IH]; intros X; cbn; [done |]. rewrite <- IH. clear IH.
  assert (forall X X', X ≡w X' -> foldl (fun X a => wand (W a) X) X qs ≡w foldl (fun X a => wand (W a) X) X' qs) as Hp.
  { clear. induction qs as [|b qs IH]; intros X X' H; cbn; [done |]. apply IH. by rewrite H. }
  apply Hp. by rewrite wand_and.
Qed.

Lemma foldl_proper (W W' : langs) qs X X' : (forall a, a ∈ qs -> W' a = W a) -> X ≡w X' ->
  foldl (fun X a => wand (W a) X) X qs ≡w foldl (fun X a => wand (W' a) X) X' qs.
Proof.
  revert X X'. induction qs as [|b qs IH]; intros X X' Hq H; cbn; [done |].
  apply IH; [intros a Ha; apply Hq; by right |]. rewrite (Hq b) by left. by rewrite H.
Qed.

Section Parser.
Context {N : Names}.

(** What is known of the parser at a label. *)
Definition at_state (p : parser) (W : langs) (ts : list token) (sp : stack) : Prop :=
  pinv (tabs p) W /\ look p ts /\ SP p = sp.

Lemma pinv_valid2 t a b : in_tab t a -> in_tab t b -> Forall (in_tab t) [a; b].
Proof. intros. constructor; [done |]. constructor; [done | constructor]. Qed.

Lemma pinv_valid1 t a : in_tab t a -> Forall (in_tab t) [a].
Proof. intros. constructor; [done | constructor]. Qed.

(** Reduction of the factors. *)
Lemma reduce_factors qs p W ts sp : at_state p W ts (frames qs ++ sp) -> closing (next_tok ts) ->
  in_tab (tabs p) (RHS p) -> Forall (in_tab (tabs p)) qs ->
  exists p' W', pruns (length qs) (END, p) (END, p') /\ at_state p' W' ts sp /\ pgrows (tabs p) (tabs p') W W' /\
    in_tab (tabs p') (RHS p') /\ W' (RHS p') ≡w product W qs (RHS p) /\ ID p' = ID p.
Proof.
  revert p W. induction qs as [|q qs IH]; intros p W (Hp & Hl & Hsp) Hc Hr Hq.
  - exists p, W. split; [apply runs_0 |]. split; [by split |]. split; [apply pgrows_refl |]. done.
  - apply List.Forall_cons_iff in Hq as [Hq1 Hq].
    assert (Action AND (Look p) = Ok "x"%char) as Ea.
    { rewrite (look_next p ts Hl). by destruct Hc as [-> | [-> | [-> | ->]]]. }
    assert (E : parse_round (END, p) = act "x" p) by (by apply (END_round p AND q (frames qs ++ sp))).
    rewrite act_x, Hsp in E. cbn [POP frames fmap list_fmap app] in E. revert E. res_cbn. intros E. cbn [fst snd] in E.
    destruct (pinv_MakeExp (tabs p) W (AndX q (RHS p)) Hp) as (t' & q' & W' & E' & Hp' & Hg & Hq' & HW); [by apply pinv_valid2 | done | done |].
    rewrite E' in E. revert E. res_cbn. intros E. set (p1 := with_stack (with_exp p (t', q')) (frames qs ++ sp)) in *.
    destruct (IH p1 W') as (p2 & W2 & R2 & H2 & G2 & I2 & L2 & D2).
    + split; [done |]. split; [| done]. by apply (look_same p).
    + done.
    + done.
    + eapply Forall_impl; [| exact Hq]. apply (pg_in_tab _ _ _ _ Hg).
    + exists p2, W2. split; [by eapply runs_S |]. split; [done |]. split; [by eapply pgrows_trans |]. split; [done |].
      split; [| done]. rewrite L2. unfold product. cbn. cbn in HW.
      rewrite (pg_lang _ _ _ _ Hg q), (pg_lang _ _ _ _ Hg (RHS p)) in HW by done. symmetry. apply foldl_proper; [| by symmetry].
      intros a Ha. apply (pg_lang _ _ _ _ Hg). by apply (proj1 (list.Forall_forall _ _) Hq).
Qed.

(** One round that makes an expression out of what is at hand. *)
Lemma make_round p W e : pinv (tabs p) W -> valid (tabs p) e -> e <> ZeroX -> e <> OneX ->
  exists r W', MakeExp (tabs p) (-1) e = Ok r /\ pinv r.1 W' /\ pgrows (tabs p) r.1 W W' /\ in_tab r.1 r.2 /\
    W' r.2 ≡w den r.1 W' e.
Proof.
  intros Hp Hv Hz Ho. destruct (pinv_MakeExp (tabs p) W e Hp Hv Hz Ho) as (t & q & W' & E & H). by exists (t, q), W'.
Qed.

(** ** Expressions *)

(** The parser got from EXP to END over the tokens of [r], in [n] rounds. *)
Definition parsed_as (r : rx) (p : parser) (W : langs) (ts : list token) (sp : stack) (n : nat) (p' : parser)
    (W' : langs) (qs : list Z) : Prop :=
  at_state p' W' ts (frames qs ++ sp) /\ pgrows (tabs p) (tabs p') W W' /\
    in_tab (tabs p') (RHS p') /\ Forall (in_tab (tabs p')) qs /\ product W' qs (RHS p') ≡w wden r /\
    zlen qs = factors r /\ (n + length qs + 2 <= 4 * length (toks r))%nat.

Definition parsed (r : rx) (p : parser) (W : langs) (ts : list token) (sp : stack) (n : nat) (p' : parser) : Prop :=
  exists W' qs, parsed_as r p W ts sp n p' W' qs.

(** Behind [r], the factors are reduced. *)
Lemma parsed_reduce r p W ts sp n p' : parsed r p W ts sp n p' -> closing (next_tok ts) ->
  exists m p2 W2, pruns m (END, p') (END, p2) /\ at_state p2 W2 ts sp /\ pgrows (tabs p) (tabs p2) W W2 /\
    in_tab (tabs p2) (RHS p2) /\ W2 (RHS p2) ≡w wden r /\ (n + m + 2 <= 4 * length (toks r))%nat.
Proof.
  intros (W' & qs & Hs & Hg & Hq & Hqs & HW & _ & Hn) Hc.
  destruct (reduce_factors qs p' W' ts sp Hs Hc Hq Hqs) as (p2 & W2 & R2 & H2 & G2 & I2 & L2 & _).
  exists (length qs), p2, W2. split; [done |]. split; [done |]. split; [by eapply pgrows_trans |]. split; [done |].
  split; [by rewrite L2 | done].
Qed.

(** A bracket: [open] pushes [T]. *)
Lemma open_round p W L T w ts sp : at_state p W ((L, w) :: ts) sp -> (L = LParT /\ T = PAR) \/ (L = LBrT /\ T = OPT) ->
  zlen sp < STACK_MAX ->
  exists p', parse_round (EXP, p) = Ok (inl (EXP, p')) /\ at_state p' W ts ((T, -1) :: sp) /\ tabs p' = tabs p.
Proof.
  intros (Hp & Hl & <-) HL Hroom. pose proof (look_tokens _ _ _ _ Hl) as Ht. destruct Hl as (HL' & _).
  destruct (shift_ok EXP (with_stack p ((T, -1) :: SP p)) ts Ht) as (p' & E & (M1 & M2 & _) & Hl').
  exists p'. split; [| split; [split; [by rewrite M1 | by split] | done]].
  unfold parse_round, at_EXP, PUSH. cbn [fst snd]. rewrite HL', (proj2 (Z.leb_gt _ _)) by done.
  destruct HL as [[-> ->]|[-> ->]]; res_cbn; rewrite E; by res_cbn.
Qed.

(** The token behind a bracket that repeats it. *)
Definition postfix (L : Lexical) (q : Z) : option expr :=
  match L with StarT => Some (StarX q) | PlusT => Some (PlusX q) | _ => None end.

Lemma postfix_round p W L w ts e : at_state p W ((L, w) :: ts) (SP p) -> SP p <> [] -> postfix L (RHS p) = Some e ->
  in_tab (tabs p) (RHS p) ->
  exists p' W', parse_round (END, p) = Ok (inl (END, p')) /\ at_state p' W' ts (SP p) /\
    pgrows (tabs p) (tabs p') W W' /\ in_tab (tabs p') (RHS p') /\ W' (RHS p') ≡w den (tabs p') W' e.
Proof.
  intros (Hp & Hl & _) Hne He Hq. pose proof (look_tokens _ _ _ _ Hl) as Ht. destruct Hl as (HL & _).
  assert (valid (tabs p) e /\ e <> ZeroX /\ e <> OneX) as (Hv & Hz & Ho).
  { destruct L; try discriminate; injection He as <-; (split; [by apply pinv_valid1 | done]). }
  destruct (make_round p W e Hp Hv Hz Ho) as ([t q] & W' & E & Hp' & Hg & Hq' & HW).
  destruct (shift_ok END (with_exp p (t, q)) ts Ht) as (p' & E' & (M1 & M2 & _ & M4) & Hl').
  exists p', W'. split; [| split; [split; [by rewrite M1 | by split] | rewrite M1, M4; done]].
  destruct (SP p) as [|[T x] sp] eqn:Hsp; [done |].
  destruct L; try discriminate; injection He as He; subst e.
  - rewrite (END_round p T x sp "+" Hsp), act_plus by (rewrite HL; by destruct T). rewrite E. res_cbn. rewrite E'. by res_cbn.
  - rewrite (END_round p T x sp "*" Hsp), act_star by (rewrite HL; by destruct T). rewrite E. res_cbn. rewrite E'. by res_cbn.
Qed.

(** [')'] behind a bracket. *)
Lemma close_round p W w ts sp : at_state p W ((RParT, w) :: ts) ((PAR, -1) :: sp) ->
  exists p', parse_round (END, p) = Ok (inl (END, p')) /\ at_state p' W ts sp /\ tabs p' = tabs p /\ RHS p' = RHS p.
Proof.
  intros (Hp & Hl & Hsp). pose proof (look_tokens _ _ _ _ Hl) as Ht. destruct Hl as (HL & _).
  destruct (shift_ok END (with_stack p sp) ts Ht) as (p' & E' & (M1 & M2 & _ & M4) & Hl').
  exists p'. split; [| split; [split; [by rewrite M1 | by split] | done]].
  rewrite (END_round p PAR (-1) sp ")" Hsp), act_close, Hsp by (by rewrite HL). cbn [POP]. res_cbn. cbn [fst snd]. rewrite E'. by res_cbn.
Qed.

(** ['|'] behind an alternative. *)
Lemma bar_round p W w ts sp : at_state p W ((BarT, w) :: ts) ((PAR, -1) :: sp) -> zlen sp + 1 < STACK_MAX ->
  exists p', parse_round (END, p) = Ok (inl (EXP, p')) /\ at_state p' W ts ((OR, RHS p) :: (PAR, -1) :: sp) /\ tabs p' = tabs p.
Proof.
  intros (Hp & Hl & Hsp) Hroom. pose proof (look_tokens _ _ _ _ Hl) as Ht. destruct Hl as (HL & _).
  destruct (shift_ok EXP (with_stack p ((OR, RHS p) :: SP p)) ts Ht) as (p' & E' & (M1 & M2 & _ & M4) & Hl').
  exists p'. split; [| split; [split; [by rewrite M1 | split; [done | by rewrite M2; cbn; rewrite Hsp]] | done]].
  rewrite (END_round p PAR (-1) sp "|" Hsp), act_bar by (by rewrite HL). unfold PUSH.
  rewrite (proj2 (Z.leb_gt _ _)) by (rewrite Hsp, zlen_cons; lia). res_cbn. rewrite E'. by res_cbn.
Qed.

(** The second alternative is complete. *)
Lemma or_round p W w ts sp q : at_state p W ((RParT, w) :: ts) ((OR, q) :: sp) -> in_tab (tabs p) q ->
  in_tab (tabs p) (RHS p) ->
  exists p' W', parse_round (END, p) = Ok (inl (END, p')) /\ at_state p' W' ((RParT, w) :: ts) sp /\
    pgrows (tabs p) (tabs p') W W' /\ in_tab (tabs p') (RHS p') /\ W' (RHS p') ≡w wor (W q) (W (RHS p)).
Proof.
  intros (Hp & Hl & Hsp) Hq Hr.
  destruct (make_round p W (OrX q (RHS p)) Hp) as ([t x] & W' & E & Hp' & Hg & Hx & HW); [by apply pinv_valid2 | done | done |].
  exists (with_stack (with_exp p (t, x)) sp), W'. split; [| split; [split; [done | split; [by apply (look_same p) | done]] | split; [done |]]].
  - rewrite (END_round p OR q sp "v" Hsp), act_v, Hsp by (by destruct Hl as (-> & _)). cbn [POP]. res_cbn. cbn [fst snd].
    rewrite E. by res_cbn.
  - split; [done |]. cbn in HW |- *. by rewrite (pg_lang _ _ _ _ Hg q), (pg_lang _ _ _ _ Hg (RHS p)) in HW by done.
Qed.

(** [']'] behind an option. *)
Lemma opt_round p W w ts sp : at_state p W ((RBrT, w) :: ts) ((OPT, -1) :: sp) -> in_tab (tabs p) (RHS p) ->
  exists p' W', parse_round (END, p) = Ok (inl (END, p')) /\ at_state p' W' ts sp /\
    pgrows (tabs p) (tabs p') W W' /\ in_tab (tabs p') (RHS p') /\ W' (RHS p') ≡w wopt (W (RHS p)).
Proof.
  intros (Hp & Hl & Hsp) Hr. pose proof (look_tokens _ _ _ _ Hl) as Ht. destruct Hl as (HL & _).
  destruct (shift_ok END p ts Ht) as (p1 & E' & (M1 & M2 & _ & M4) & Hl').
  destruct (make_round p1 W (OptX (RHS p1))) as ([t x] & W' & E & Hp' & Hg & Hx & HW);
    [by rewrite M1 | apply pinv_valid1; by rewrite M1, M4 | done | done |].
  exists (with_stack (with_exp p1 (t, x)) sp), W'. rewrite M1 in Hg. split; [| split; [split; [done | split; [by apply (look_same p1) | done]] | split; [done |]]].
  - rewrite (END_round p OPT (-1) sp "]" Hsp), act_opt by (by rewrite HL). rewrite E'. res_cbn. cbn [snd].
    unfold make_opt. rewrite M2, Hsp. cbn [POP]. res_cbn. rewrite E. by res_cbn.
  - split; [done |]. cbn in HW |- *. by rewrite M4, (pg_lang _ _ _ _ Hg (RHS p)) in HW by done.
Qed.

(** A factor is complete and another one begins. *)
Lemma and_round p W ts sp T x : at_state p W ts sp -> opening (next_tok ts) -> hd_error sp = Some (T, x) -> zlen sp < STACK_MAX ->
  parse_round (END, p) = Ok (inl (EXP, with_stack p ((AND, RHS p) :: sp))).
Proof.
  intros (Hp & Hl & Hsp) Ho Hh Hroom. destruct sp as [|[T' x'] sp]; [done |].
  rewrite (END_round p T' x' sp "&" Hsp), act_and.
  - unfold PUSH. rewrite Hsp, (proj2 (Z.leb_gt _ _)) by done. by res_cbn.
  - rewrite (look_next p ts Hl). destruct Ho as [-> | [-> | ->]]; by destruct T'.
Qed.

(** A symbol. *)
Lemma sym_round p W w ts sp : at_state p W ((IdenT, w) :: ts) sp -> is_name w ->
  exists p' W', parse_round (EXP, p) = Ok (inl (END, p')) /\ at_state p' W' ts sp /\
    pgrows (tabs p) (tabs p') W W' /\ in_tab (tabs p') (RHS p') /\ W' (RHS p') ≡w wsym w.
Proof.
  intros (Hp & Hl & Hsp) Hw. pose proof (look_tokens _ _ _ _ Hl) as Ht. destruct Hl as (HL & Hlast & _).
  destruct (pinv_LookUp (tabs p) W w Hp Hw) as (t1 & id & E1 & Hp1 & Hg1 & Hid & Hn).
  destruct (pinv_MakeExp t1 W (SymX id) Hp1 Hid) as (t2 & q & W' & E2 & Hp2 & Hg2 & Hq & HW); [done | done |].
  destruct (shift_ok END (with_exp p (t2, q)) ts Ht) as (p' & E' & (M1 & M2 & _ & M4) & Hl').
  exists p', W'. split; [| split; [split; [by rewrite M1 | split; [done | by rewrite M2]] | rewrite M1, M4]].
  - unfold parse_round, at_EXP. cbn [fst snd]. rewrite HL, (Hlast eq_refl). res_cbn. rewrite E1. res_cbn. cbn [fst snd].
    rewrite E2. res_cbn. rewrite E'. by res_cbn.
  - split; [by eapply pgrows_trans |]. split; [done |]. cbn in HW |- *. by rewrite (pg_names _ _ _ _ Hg2 id), Hn in HW by done.
Qed.

Lemma pruns_snoc n a b c : pruns n a b -> parse_round b = Ok (inl c) -> pruns (n + 1) a c.
Proof. intros H1 H2. eapply runs_app; [exact H1 | by apply runs_1]. Qed.

(** What is read of a complete factor. *)
Lemma parsed_one r p W p' W' ts sp n : at_state p' W' ts sp -> pgrows (tabs p) (tabs p') W W' -> in_tab (tabs p') (RHS p') ->
  W' (RHS p') ≡w wden r -> factors r = 0 -> (n + 2 <= 4 * length (toks r))%nat -> parsed r p W ts sp n p'.
Proof.
  intros Hs Hg Hq HW Hf Hn. exists W', []. split; [done |]. split; [done |]. split; [done |]. split; [constructor |].
  split; [done |]. split; [by rewrite Hf |]. cbn. lia.
Qed.

(** A repeated bracket, by its last token. *)
Lemma bracket_rounds r L e p W ts sp : 
  (forall q, postfix L q = Some (e q)) -> (forall t W' q X, W' q ≡w X -> den t W' (e q) ≡w match L with StarT => wstar X | _ => wplus X end) ->
  (exists p1, parse_round (EXP, p) = Ok (inl (EXP, p1)) /\ tabs p1 = tabs p /\
     exists n p2, pruns n (EXP, p1) (END, p2) /\ parsed r p1 W ((RParT, []) :: (L, []) :: ts) ((PAR, -1) :: sp) n p2) ->
  sp <> [] ->
  exists n p' W', pruns n (EXP, p) (END, p') /\ at_state p' W' ts sp /\ pgrows (tabs p) (tabs p') W W' /\
    in_tab (tabs p') (RHS p') /\ W' (RHS p') ≡w match L with StarT => wstar (wden r) | _ => wplus (wden r) end /\
    (n + 2 <= 4 * length (toks r) + 3)%nat.
Proof.
  intros HL He (p1 & E1 & T1 & n & p2 & R2 & H2) Hsp.
  destruct (parsed_reduce _ _ _ _ _ _ _ H2) as (m & p3 & W3 & R3 & S3 & G3 & Q3 & L3 & B3); [right; by left |].
  destruct (close_round p3 W3 [] ((L, []) :: ts) sp S3) as (p4 & E4 & S4 & T4 & Q4).
  assert (SP p4 = sp) as Es by (by destruct S4 as (_ & _ & ?)). rewrite <- Es in S4.
  destruct (postfix_round p4 W3 L [] ts (e (RHS p4)) S4) as (p5 & W5 & E5 & S5 & G5 & Q5 & L5); [by rewrite Es | by apply HL | by rewrite T4, Q4 |].
  exists (1 + n + m + 1 + 1)%nat, p5, W5. split; [| split; [by rewrite <- Es | split; [| split; [done | split; [| lia]]]]].
  - eapply pruns_snoc; [| exact E5]. eapply pruns_snoc; [| exact E4]. eapply runs_app; [| exact R3].
    eapply runs_S; [exact E1 | exact R2].
  - rewrite <- T1. eapply pgrows_trans; [exact G3 |]. by rewrite <- T4.
  - rewrite L5. apply He. by rewrite Q4, (pg_lang _ _ _ _ G5) by (by rewrite T4).
Qed.

(** ** The induction over expressions *)
Lemma frames_app a b : frames (a ++ b) = frames a ++ frames b.
Proof. apply fmap_app. Qed.

Lemma zlen_frames qs : zlen (frames qs) = zlen qs.
Proof. unfold zlen, frames. by rewrite length_fmap. Qed.

Lemma parsed_and r s p W ts sp n1 n2 p1 p2 p3 W1 qs1 :
  parsed_as r p W (toks s ++ ts) sp n1 p1 W1 qs1 -> tabs p2 = tabs p1 ->
  parsed s p2 W1 ts (frames (RHS p1 :: qs1) ++ sp) n2 p3 ->
  parsed (RAnd r s) p W ts sp (n1 + 1 + n2) p3.
Proof.
  intros (S1 & G1 & Q1 & F1 & L1 & N1 & B1) Ht (W2 & qs2 & S2 & G2 & Q2 & F2 & L2 & N2 & B2). rewrite Ht in G2.
  exists W2, (qs2 ++ RHS p1 :: qs1). split; [| split; [by eapply pgrows_trans | split; [done | split; [| split; [| split]]]]].
  - rewrite frames_app, <- app_assoc. exact S2.
  - apply list.Forall_app. split; [done |]. constructor; [by apply (pg_in_tab _ _ _ _ G2) |].
    apply (list.Forall_impl _ _ _ F1). apply (pg_in_tab _ _ _ _ G2).
  - cbn [wden]. unfold product. rewrite foldl_app. cbn [foldl]. rewrite foldl_and. apply wand_proper; [| exact L2].
    rewrite <- L1. unfold product. symmetry. apply foldl_proper.
    + intros a Ha. apply (pg_lang _ _ _ _ G2). by apply (proj1 (list.Forall_forall _ _) F1).
    + by rewrite (pg_lang _ _ _ _ G2).
  - rewrite zlen_app, zlen_cons. cbn [factors]. lia.
  - cbn [toks]. rewrite !length_app. cbn [length]. lia.
Qed.

Lemma parse_rx r : forall p W ts sp, rx_ok r -> at_state p W (toks r ++ ts) sp -> sp <> [] -> zlen sp + depth r <= STACK_MAX ->
  exists n p', pruns n (EXP, p) (END, p') /\ parsed r p W ts sp n p'.
Proof.
  induction r as [w|r IHr s IHs|r IHr s IHs|r IHr|r IHr|r IHr]; intros p W ts sp Hok Hs Hsp Hd; cbn [toks depth rx_ok] in *.
  - destruct (sym_round p W w ts sp Hs Hok) as (p' & W' & E & S' & G' & Q' & L').
    exists 1%nat, p'. split; [by apply runs_1 |]. apply (parsed_one _ _ _ _ W'); try done. cbn. lia.
  - destruct Hok as [Hr1 Hs1]. rewrite <- app_assoc in Hs. pose proof (factors_nonneg r).
    destruct (IHr p W _ sp Hr1 Hs Hsp ltac:(lia)) as (n1 & p1 & R1 & W1 & qs & P1).
    pose proof P1 as (S1 & G1 & Q1 & F1 & L1 & N1 & B1). pose proof (depth_factors s). pose proof (factors_nonneg s).
    assert (exists T x, hd_error (frames qs ++ sp) = Some (T, x)) as (T & x & Hh).
    { destruct qs as [|q qs]; [| eexists _, _; reflexivity]. destruct sp as [|[T x] sp]; [done | eexists _, _; reflexivity]. }
    assert (opening (next_tok (toks s ++ ts))) as Ho by (destruct (toks_opening s ts) as (L & w & ts' & -> & Ho); exact Ho).
    assert (parse_round (END, p1) = Ok (inl (EXP, with_stack p1 (frames (RHS p1 :: qs) ++ sp)))) as E2.
    { apply (and_round p1 W1 (toks s ++ ts) (frames qs ++ sp) T x); [done .. |]. rewrite zlen_app, zlen_frames. lia. }
    destruct (IHs (with_stack p1 (frames (RHS p1 :: qs) ++ sp)) W1 ts (frames (RHS p1 :: qs) ++ sp) Hs1) as (n2 & p3 & R3 & P3).
    + destruct S1 as (? & Hl & _). split; [done |]. split; [by apply (look_same p1) | done].
    + done.
    + rewrite zlen_app, zlen_frames, zlen_cons. lia.
    + exists (n1 + 1 + n2)%nat, p3. split; [eapply runs_app; [by eapply pruns_snoc | exact R3] |].
      exact (parsed_and r s p W ts sp n1 n2 p1 _ p3 W1 qs P1 eq_refl P3).
  - destruct Hok as [Hr1 Hs1]. cbn [app] in Hs. rewrite <- app_assoc in Hs. cbn [app] in Hs. rewrite <- app_assoc in Hs. cbn [app] in Hs.
    destruct (open_round p W LParT PAR [] _ sp Hs) as (p1 & E1 & S1 & T1); [by left | pose proof (depth_factors r); pose proof (factors_nonneg r); lia |].
    destruct (IHr p1 W _ _ Hr1 S1) as (n1 & p2 & R2 & P2); [done | rewrite zlen_cons; lia |].
    destruct (parsed_reduce _ _ _ _ _ _ _ P2) as (m2 & p3 & W3 & R3 & S3 & G3 & Q3 & L3 & B3); [right; right; by right |].
    destruct (bar_round p3 W3 [] _ sp S3) as (p4 & E4 & S4 & T4); [pose proof (depth_factors s); pose proof (factors_nonneg s); lia |].
    destruct (IHs p4 W3 _ _ Hs1 S4) as (n5 & p5 & R5 & P5); [done | rewrite !zlen_cons; lia |].
    destruct (parsed_reduce _ _ _ _ _ _ _ P5) as (m6 & p6 & W6 & R6 & S6 & G6 & Q6 & L6 & B6); [right; by left |]. rewrite T4 in G6.
    destruct (or_round p6 W6 [] ts _ (RHS p3) S6) as (p7 & W7 & E7 & S7 & G7 & Q7 & L7); [by apply (pg_in_tab _ _ _ _ G6) | done |].
    destruct (close_round p7 W7 [] ts sp S7) as (p8 & E8 & S8 & T8 & Q8).
    exists (1 + n1 + m2 + 1 + n5 + m6 + 1 + 1)%nat, p8. split.
    + eapply pruns_snoc; [| exact E8]. eapply pruns_snoc; [| exact E7]. eapply runs_app; [| exact R6].
      eapply runs_app; [| exact R5]. eapply pruns_snoc; [| exact E4]. eapply runs_app; [| exact R3]. by eapply runs_S.
    + apply (parsed_one _ _ _ _ W7); [done | | by rewrite T8, Q8 | | done |].
      * rewrite T8. eapply pgrows_trans; [| exact G7]. eapply pgrows_trans; [| exact G6]. by rewrite <- T1.
      * rewrite Q8, L7. cbn [wden]. rewrite (pg_lang _ _ _ _ G6) by done. by rewrite L3, L6.
      * cbn [toks length]. rewrite length_app. cbn [length]. rewrite length_app. cbn [length]. lia.
  - cbn [app] in Hs. rewrite <- app_assoc in Hs. cbn [app] in Hs.
    destruct (bracket_rounds r StarT StarX p W ts sp) as (n & p' & W' & R' & S' & G' & Q' & L' & B'); [done | intros t W' q X HX; cbn; by rewrite HX | | done |].
    + destruct (open_round p W LParT PAR [] _ sp Hs) as (p1 & E1 & S1 & T1); [by left | pose proof (depth_factors r); pose proof (factors_nonneg r); lia |].
      exists p1. split; [done |]. split; [done |]. apply (IHr p1 W _ _ Hok S1); [done | rewrite zlen_cons; lia].
    + exists n, p'. split; [done |]. apply (parsed_one _ _ _ _ W'); try done. cbn [toks length]. rewrite length_app. cbn [length]. lia.
  - cbn [app] in Hs. rewrite <- app_assoc in Hs. cbn [app] in Hs.
    destruct (bracket_rounds r PlusT PlusX p W ts sp) as (n & p' & W' & R' & S' & G' & Q' & L' & B'); [done | intros t W' q X HX; cbn; by rewrite HX | | done |].
    + destruct (open_round p W LParT PAR [] _ sp Hs) as (p1 & E1 & S1 & T1); [by left | pose proof (depth_factors r); pose proof (factors_nonneg r); lia |].
      exists p1. split; [done |]. split; [done |]. apply (IHr p1 W _ _ Hok S1); [done | rewrite zlen_cons; lia].
    + exists n, p'. split; [done |]. apply (parsed_one _ _ _ _ W'); try done. cbn [toks length]. rewrite length_app. cbn [length]. lia.
  - cbn [app] in Hs. rewrite <- app_assoc in Hs. cbn [app] in Hs.
    destruct (open_round p W LBrT OPT [] _ sp Hs) as (p1 & E1 & S1 & T1); [by right | pose proof (depth_factors r); pose proof (factors_nonneg r); lia |].
    destruct (IHr p1 W _ _ Hok S1) as (n1 & p2 & R2 & P2); [done | rewrite zlen_cons; lia |].
    destruct (parsed_reduce _ _ _ _ _ _ _ P2) as (m2 & p3 & W3 & R3 & S3 & G3 & Q3 & L3 & B3); [right; right; by left |].
    destruct (opt_round p3 W3 [] ts sp S3 Q3) as (p4 & W4 & E4 & S4 & G4 & Q4 & L4).
    exists (1 + n1 + m2 + 1)%nat, p4. split.
    + eapply pruns_snoc; [| exact E4]. eapply runs_app; [| exact R3]. by eapply runs_S.
    + apply (parsed_one _ _ _ _ W4); [done | | done | | done |].
      * eapply pgrows_trans; [| exact G4]. by rewrite <- T1.
      * rewrite L4. cbn [wden]. by rewrite L3.
      * cbn [toks length]. rewrite length_app. cbn [length]. lia.
Qed.

(** ** The whole parser *)
Lemma look_not_equal p ts : look p ts -> (forall w, (EqualT, w) ∉ ts) -> Look p <> EqualT.
Proof. intros Hl Hn E. rewrite (look_next p ts Hl) in E. destruct ts as [|[L w] ts]; [done |]. cbn in E. subst. apply (Hn w). by left. Qed.

Lemma toks_no_equal r w : (EqualT, w) ∉ toks r.
Proof.
  induction r as [v|r IHr s IHs|r IHr s IHs|r IHr|r IHr|r IHr]; cbn [toks]; intros H;
    repeat (first [apply elem_of_cons in H as [H|H]; [discriminate |] | apply elem_of_app in H as [H|H]; [by auto |] ]); auto;
    by apply not_elem_of_nil in H.
Qed.

(** From the label LHS to the first label END or EXP: as if the code had started
    at EXP with the mark of the rule on the stack. *)
Lemma start_round r s W : at_tokens s (toks r) -> rx_ok r -> pinv init_tables W -> 1 + depth r <= STACK_MAX ->
  exists n p', pruns n (LHS, mkParser s init_tables [] None 0 EndT) (END, p') /\
    exists p0 k, tabs p0 = init_tables /\ (n <= S k)%nat /\ parsed r p0 W [] [(RULE, -1)] k p'.
Proof.
  intros Hs Hok Hp Hd. destruct (toks_opening r []) as (L & w & ts & E & Ho). rewrite app_nil_r in E. rewrite E in Hs.
  destruct (LEX_next s L w ts Hs) as (s1 & E1 & H1 & _ & Hw).
  assert (forall id, exists n p', pruns n (EXP, mkParser s1 init_tables [(RULE, -1)] id 0 L) (END, p') /\
            parsed r (mkParser s1 init_tables [(RULE, -1)] id 0 L) W [] [(RULE, -1)] n p') as Hrun.
  { intros id. apply parse_rx; [done | | done | done]. rewrite app_nil_r, E. split; [done |]. split; [| done]. by split. }
  destruct (decide (L = IdenT)) as [->|HL].
  - assert (is_name w) as Hwok.
    { clear -E Hok. revert w ts E. induction r as [v|r IHr s IHs|r IHr s IHs|r IHr|r IHr|r IHr]; intros w ts E; try discriminate.
      - by injection E as <-.
      - cbn [toks rx_ok] in *. destruct Hok as [Hr _]. destruct (toks_opening r []) as (L & v & k & E' & _).
        rewrite app_nil_r in E'. rewrite E' in E. injection E as -> -> _. by apply (IHr Hr w k). }
    destruct (pinv_LookUp init_tables W w) as (t1 & id & E2 & Hp1' & _ & Hid & _); [done | done |].
    destruct (pinv_MakeExp t1 W (SymX id) Hp1' Hid) as (t2 & q & W2 & E3 & _); [done | done |].
    destruct (Hrun (Some id)) as (n & p' & R & P). set (p0 := mkParser s1 init_tables [(RULE, -1)] (Some id) 0 IdenT) in *.
    destruct (shift_ok END (with_exp p0 (t2, q)) ts H1) as (p1 & E4 & (M1 & M2 & M3 & M4) & Hl).
    assert (parse_round (EXP, p0) = Ok (inl (END, p1))) as E5.
    { unfold parse_round, at_EXP. cbn [fst snd p0 Look lexer tabs]. rewrite (Hw eq_refl). res_cbn. rewrite E2. res_cbn. cbn [fst snd].
      rewrite E3. res_cbn. fold p0. rewrite E4. by res_cbn. }
    exists n, p'. split; [| exists p0, n; split; [done | split; [lia | done]]]. inversion R as [|m a b c Ea Rb]; subst.
    rewrite E5 in Ea. injection Ea as <-. eapply runs_S; [| exact Rb].
    unfold parse_round, at_LHS. cbn [fst snd lexer tabs SP]. rewrite E1. res_cbn. rewrite (Hw eq_refl). res_cbn. rewrite E2. res_cbn.
    unfold shift in E4. cbn [with_exp lexer p0] in E4.
    destruct (LEX s1) as [[s2 L2]|f] eqn:E6; [| by revert E4; res_cbn]. revert E4. res_cbn. cbn [fst snd]. intros [= <-]. 
    assert (L2 <> EqualT) as HL2.
    { apply (look_not_equal _ ts Hl). intros v Hv. apply (toks_no_equal r v). rewrite E. by right. }
    unfold PUSH. change (STACK_MAX <=? zlen (@nil (StackTag * Z))) with false. res_cbn.
    destruct L2; try done; rewrite E3; by res_cbn.
  - destruct (Hrun None) as (n & p' & R & P). exists (Datatypes.S n), p'.
    assert (parse_round (LHS, mkParser s init_tables [] None 0 EndT) = Ok (inl (EXP, mkParser s1 init_tables [(RULE, -1)] None 0 L))) as E5.
    { unfold parse_round, at_LHS. cbn [fst snd lexer tabs SP]. rewrite E1. res_cbn. unfold PUSH.
      change (STACK_MAX <=? zlen (@nil (StackTag * Z))) with false. destruct L; try done; by res_cbn. }
    split; [by eapply runs_S |]. eexists _, n. split; [| split; [| exact P]]; [done | lia].
Qed.

Lemma parse_whole r s W : at_tokens s (toks r) -> rx_ok r -> pinv init_tables W -> 1 + depth r <= STACK_MAX ->
  exists p q W', Parse s init_tables = Ok (p, q) /\ pinv (tabs p) W' /\ in_tab (tabs p) q /\ W' q ≡w wden r.
Proof.
  intros Hs Hok Hp Hd. destruct (start_round r s W Hs Hok Hp Hd) as (n & p1 & R1 & p0 & k & T0 & Hk & P1).
  destruct (parsed_reduce _ _ _ _ _ _ _ P1) as (m & p2 & W2 & R2 & (I2 & Hl & Hsp) & G2 & Q2 & L2 & B2); [by left |].
  exists (with_stack p2 []), (RHS p2), W2. split; [| done].
  unfold Parse. apply (loop_runs _ _ (n + m) _ (END, p2)); [by eapply runs_app | |].
  - rewrite (END_round p2 RULE (-1) [] "." Hsp), act_end, Hsp by (by destruct Hl as (-> & _)). cbn [POP]. by res_cbn.
  - destruct Hs as (l & Hr & Hlex & Hlen & _). pose proof (lexed_length _ _ Hlex). pose proof (rest_len _ _ _ Hr).
    unfold zlen in *. rewrite fuel_val. lia.
Qed.
End Parser.


(** The names that are words for the scanner. *)
Definition word_names : Names := mkNames word_ok (fun w H => H).

