(* ===== verification/EvaltreeText.v ===== *)
(** * The search string of a tree

    [tree_text]: what [evaltree2searchstr] prints, and [tree_size]: the size of the buffer it
    computes.  The text fits into its buffer, and it is lexed into the tokens of an
    expression ([rx_of]) that matches what the tree stands for ([matches]). *)

From Stdlib Require Import ZArith Lia Ascii String.
From stdpp Require Import base tactics option list numbers.
From S2P Require Import Prelude RegexLang Regex2dfa RegexTables RegexScan RegexSymbols RegexParse Evaltree.

Open Scope Z_scope.

(** ** Trees *)

(** The trees the parser of CQP builds over [n] patterns; a repetition must not be
    [{0}] or [{0,0}]. *)
Fixpoint tree_ok (n : Z) (e : Evaltree) : Prop :=
  match e with
  | Null | MeetUnion | Tabular => False
  | Leaf k => 0 <= k < n
  | Node re_repeat l r min max => r = Null /\ tree_ok n l /\ 0 <= min /\ (max = repeat_inf \/ (min <= max /\ 0 < max))
  | Node _ l r min max => min = repeat_none /\ tree_ok n l /\ tree_ok n r
  end.

(** What a tree stands for: the sequences of pattern numbers that match it. *)
Fixpoint matches (e : Evaltree) (w : list Z) : Prop :=
  match e with
  | Leaf k => w = [k]
  | Node re_disj l r _ _ => matches l w \/ matches r w
  | Node re_repeat l _ min max => exists k, min <= Z.of_nat k /\ (max = repeat_inf \/ Z.of_nat k <= max) /\ power (matches l) k w
  | Node _ l r _ _ => exists w1 w2, w = w1 ++ w2 /\ matches l w1 /\ matches r w2
  | Null | MeetUnion | Tabular => False
  end.

(** ** Text and size *)
Definition copies (n : Z) (x : list Z) : list Z := mjoin (replicate (Z.to_nat n) x).

Definition repeat_text (t : list Z) (min max : Z) : list Z :=
  copies min (t ++ [32]) ++
  (if max =? repeat_inf then bytes "( " ++ t ++ bytes " )*"
   else copies (max - min) (91 :: t ++ [32]) ++ copies (max - min) [93]).

Definition repeat_size (n min max : Z) : Z :=
  min * (n + 1) + (if max =? repeat_inf then n + 5 else (max - min) * (n + 4)).

Fixpoint tree_text (e : Evaltree) : list Z :=
  match e with
  | Leaf k => bytes " " ++ [34] ++ print_int k ++ [34] ++ bytes " "
  | Node re_disj l r _ _ => bytes "( " ++ tree_text l ++ bytes " | " ++ tree_text r ++ bytes " )"
  | Node re_repeat l _ min max =>
      if (min =? 0) && (max =? repeat_inf) then bytes "( " ++ tree_text l ++ bytes " )*"
      else if (min =? 1) && (max =? repeat_inf) then bytes "( " ++ tree_text l ++ bytes " )+"
      else if (min =? 0) && (max =? 1) then bytes "[ " ++ tree_text l ++ bytes " ]"
      else repeat_text (tree_text l) min max
  | Node _ l r _ _ => tree_text l ++ bytes " " ++ tree_text r
  | Null | MeetUnion | Tabular => []
  end.

Fixpoint tree_size (e : Evaltree) : Z :=
  match e with
  | Leaf k => zlen (print_int k) + 5
  | Node re_disj l r _ _ => tree_size l + tree_size r + 7
  | Node re_repeat l _ min max =>
      if (min =? 0) && (max =? repeat_inf) then tree_size l + 5
      else if (min =? 1) && (max =? repeat_inf) then tree_size l + 5
      else if (min =? 0) && (max =? 1) then tree_size l + 4
      else repeat_size (tree_size l) min max
  | Node _ l r _ _ => tree_size l + tree_size r + 1
  | Null | MeetUnion | Tabular => 0
  end.

(** ** Numbers *)
Lemma digits_app n x acc : digits n x acc = digits n x [] ++ acc.
Proof.
  revert x acc. induction n as [|n IH]; intros x acc; cbn [digits]; [done |].
  destruct (x =? 0); [done |]. rewrite IH, (IH _ [_]), <- app_assoc. done.
Qed.

Lemma digits_spec n x : 0 <= x < 10 ^ Z.of_nat n ->
  Forall (fun c => 48 <= c <= 57) (digits n x []) /\ zlen (digits n x []) <= Z.of_nat n /\
  (forall m, x < 10 ^ m -> 0 <= m -> zlen (digits n x []) <= m) /\
  forall a s, digits_value a (digits n x [] ++ s) = digits_value (a * 10 ^ zlen (digits n x []) + x) s.
Proof.
  revert x. induction n as [|n IH]; intros x Hx; cbn [digits].
  - assert (x = 0) as -> by lia. split; [constructor |]. split; [done |]. split; [intros; rewrite zlen_nil; lia |]. intros a s. cbn [app]. f_equal. rewrite zlen_nil. lia.
  - destruct (Z.eqb_spec x 0) as [->|Hne].
    + split; [constructor |]. split; [rewrite zlen_nil; lia |]. split; [intros; rewrite zlen_nil; lia |]. intros a s. cbn [app]. f_equal. rewrite zlen_nil. lia.
    + rewrite digits_app. pose proof (Z.mod_pos_bound x 10). pose proof (Z.div_mod x 10).
      assert (0 <= x / 10 < 10 ^ Z.of_nat n) as Hd.
      { split; [apply Z.div_pos; lia |]. apply Z.div_lt_upper_bound; [lia |]. rewrite Nat2Z.inj_succ, Z.pow_succ_r in Hx; lia. }
      destruct (IH (x / 10) Hd) as (H1 & H2 & H3 & H4). rewrite zlen_snoc. split; [| split; [| split]].
      * apply list.Forall_app. split; [done |]. constructor; [lia | constructor].
      * lia.
      * intros m Hm Hm0. assert (m <> 0) by (intros ->; lia).
        specialize (H3 (m - 1)). replace (10 ^ m) with (10 * 10 ^ (m - 1)) in Hm by (rewrite <- Z.pow_succ_r by lia; f_equal; lia).
        assert (x / 10 < 10 ^ (m - 1)) by (apply Z.div_lt_upper_bound; lia). lia.
      * intros a s. rewrite <- app_assoc, H4. cbn [app digits_value]. unfold isdigit.
        rewrite !(proj2 (Z.leb_le _ _)) by lia. cbn. f_equal. rewrite Z.pow_add_r by (try lia; apply zlen_nonneg). lia.
Qed.

Lemma print_int_digits k : 0 <= k < 10 ^ 5 ->
  Forall (fun c => 48 <= c <= 57) (print_int k) /\ 1 <= zlen (print_int k) <= 5 /\ digits_value 0 (print_int k) = k.
Proof.
  intros Hk. unfold print_int. destruct (Z.eqb_spec k 0) as [->|Hne].
  - split; [repeat constructor; done |]. done.
  - rewrite (proj2 (Z.ltb_ge k 0)) by lia. destruct (digits_spec 10 k) as (H1 & H2 & H3 & H4); [lia |].
    split; [done |]. split; [split; [| apply H3; lia] |].
    + destruct (digits 10 k []) eqn:E; [| rewrite zlen_cons; pose proof (zlen_nonneg l); lia].
      specialize (H4 0 []). cbn [app digits_value] in H4. lia.
    + specialize (H4 0 []). rewrite app_nil_r in H4. cbn [digits_value] in H4. exact H4.
Qed.

Lemma print_int_word k : 0 <= k < 10 ^ 5 -> word_ok (print_int k) /\ Forall (fun c => is_char c /\ c <> QUOTE) (print_int k).
Proof.
  intros Hk. destruct (print_int_digits k Hk) as (H1 & H2 & _). split; [split; [| lia] |];
    (eapply list.Forall_impl; [exact H1 |]); unfold is_char, QUOTE; intros c Hc; lia.
Qed.

(** The number of a pattern is read back from its name. *)
Lemma atoi_print_int k : 0 <= k < 10 ^ 5 -> atoi (print_int k) = Ok k.
Proof.
  intros Hk. destruct (print_int_digits k Hk) as (H1 & H2 & H3). unfold atoi.
  destruct (print_int k) as [|c s] eqn:E; [unfold zlen in H2; cbn in H2; lia |]. apply List.Forall_cons_iff in H1 as [Hc _].
  assert (skip_space (c :: s) = c :: s) as ->.
  { cbn. unfold isspace. rewrite (proj2 (Z.eqb_neq c 32)), (proj2 (Z.leb_gt c 13)), andb_false_r by lia. done. }
  change (chr "-") with 45. change (chr "+") with 43. rewrite !(proj2 (Z.eqb_neq _ _)) by lia. rewrite H3.
  apply c_int_Ok. unfold INT_MIN, INT_MAX. lia.
Qed.

(** ** The text in its buffer *)
Lemma put_Ok size r c : zlen r < size -> put size r c = Ok (r ++ [c]).
Proof. intros H. unfold put. by rewrite (proj2 (Z.ltb_lt _ _)). Qed.

Lemma puts_Ok size text r : zlen r + zlen text <= size -> puts size r text = Ok (r ++ text).
Proof.
  revert r. induction text as [|c text IH]; intros r H; cbn [puts]; [by rewrite app_nil_r |].
  rewrite zlen_cons in H. pose proof (zlen_nonneg text). rewrite put_Ok by lia. res_cbn.
  rewrite IH by (rewrite zlen_snoc; lia). by rewrite <- app_assoc.
Qed.

Lemma sprintf_Ok size text : zlen text < size -> sprintf size text = Ok text.
Proof. intros H. unfold sprintf. by rewrite (proj2 (Z.ltb_lt _ _)). Qed.

Lemma copies_S n x : 0 <= n -> copies (n + 1) x = copies n x ++ x.
Proof.
  intros Hn. unfold copies. replace (Z.to_nat (n + 1)) with (S (Z.to_nat n)) by lia.
  rewrite replicate_S_end, join_app. cbn. by rewrite app_nil_r.
Qed.

Lemma zlen_copies n x : 0 <= n -> zlen (copies n x) = n * zlen x.
Proof.
  intros Hn. unfold copies. rewrite <- (Z2Nat.id n Hn) at 2. induction (Z.to_nat n) as [|k IH]; [done |].
  change (mjoin (replicate (S k) x)) with (x ++ mjoin (replicate k x)). rewrite zlen_app, IH. lia.
Qed.

(** A loop that writes the same text in every round. *)
Lemma copies_loop (body : Z -> list Z -> res (list Z)) size n x r0 :
  0 <= n -> zlen r0 + n * zlen x <= size ->
  (forall i r, zlen r + zlen x <= size -> body i r = Ok (r ++ x)) ->
  for_up body 0 n r0 = Ok (r0 ++ copies n x).
Proof.
  intros Hn Hs Hb. destruct (for_up_rule body (fun i r => r = r0 ++ copies i x) 0 n r0) as (r & -> & ->); [done | | | done].
  - intros i r Hi ->. eexists. split.
    + apply Hb. rewrite zlen_app, zlen_copies by lia. pose proof (zlen_nonneg x). nia.
    + by rewrite copies_S, app_assoc by lia.
  - by rewrite app_nil_r.
Qed.

Lemma c_malloc_size_Ok n : 0 <= n -> c_malloc_size n = Ok n.
Proof. intros H. unfold c_malloc_size. by rewrite (proj2 (Z.ltb_ge _ _)). Qed.

(** Every size is positive; those of the parts are smaller. *)
Lemma tree_size_text n e : tree_ok n e -> n <= 10 ^ 5 -> zlen (tree_text e) < tree_size e.
Proof.
  intros Hok Hn. induction e as [|op l IHl r IHr min max|k| |]; cbn [tree_ok tree_text tree_size] in *; try done.
  - destruct op.
    + destruct Hok as (_ & Hl & Hr). specialize (IHl Hl). specialize (IHr Hr). rewrite !zlen_app. change (zlen (bytes " ")) with 1. lia.
    + destruct Hok as (_ & Hl & Hr). specialize (IHl Hl). specialize (IHr Hr). rewrite !zlen_app. change (zlen (bytes " ")) with 1. lia.
    + destruct Hok as (_ & Hl & Hr). specialize (IHl Hl). specialize (IHr Hr). rewrite !zlen_app.
      change (zlen (bytes "( ")) with 2. change (zlen (bytes " | ")) with 3. change (zlen (bytes " )")) with 2. lia.
    + destruct Hok as (_ & Hl & Hmin & Hmax). specialize (IHl Hl).
      destruct ((min =? 0) && (max =? repeat_inf)).
      { rewrite !zlen_app. change (zlen (bytes "( ")) with 2. change (zlen (bytes " )*")) with 3. lia. }
      destruct ((min =? 1) && (max =? repeat_inf)).
      { rewrite !zlen_app. change (zlen (bytes "( ")) with 2. change (zlen (bytes " )+")) with 3. lia. }
      destruct ((min =? 0) && (max =? 1)).
      { rewrite !zlen_app. change (zlen (bytes "[ ")) with 2. change (zlen (bytes " ]")) with 2. lia. }
      unfold repeat_text, repeat_size. pose proof (zlen_nonneg (tree_text l)). destruct (Z.eqb_spec max repeat_inf) as [->|Hinf].
      * rewrite !zlen_app, zlen_copies, zlen_app by done. change (zlen (bytes "( ")) with 2. change (zlen (bytes " )*")) with 3.
        change (zlen [32]) with 1. nia.
      * destruct Hmax as [?|[Hmm H0]]; [done |]. rewrite !zlen_app, !zlen_copies, zlen_cons, !zlen_app by lia.
        change (zlen [32]) with 1. change (zlen [93]) with 1. nia.
  - rewrite !zlen_app. change (zlen (bytes " ")) with 1. change (zlen [34]) with 1. lia.
Qed.

Lemma tree_size_pos n e : tree_ok n e -> n <= 10 ^ 5 -> 0 < tree_size e.
Proof. intros H1 H2. pose proof (tree_size_text n e H1 H2). pose proof (zlen_nonneg (tree_text e)). lia. Qed.

(** The copies of a repetition. *)
Lemma zlen_repeat_text t min max : 0 <= min -> max = repeat_inf \/ min <= max ->
  zlen (repeat_text t min max) = min * (zlen t + 1) + (if max =? repeat_inf then zlen t + 5 else (max - min) * (zlen t + 3)).
Proof.
  intros Hmin Hmax. unfold repeat_text. destruct (Z.eqb_spec max repeat_inf) as [->|Hinf].
  - rewrite !zlen_app, zlen_copies, zlen_app by done. change (zlen [32]) with 1.
    change (zlen (bytes "( ")) with 2. change (zlen (bytes " )*")) with 3. lia.
  - destruct Hmax as [?|Hmm]; [done |]. rewrite !zlen_app, !zlen_copies, zlen_cons, !zlen_app by lia.
    change (zlen [32]) with 1. change (zlen [93]) with 1. lia.
Qed.

Lemma write_repeat_ok size t min max : 0 <= min -> max = repeat_inf \/ min <= max -> zlen (repeat_text t min max) < size ->
  write_repeat size (Some t) min (if max =? repeat_inf then repeat_inf else max - min) = Ok (repeat_text t min max).
Proof.
  intros Hmin Hmax Hsize. pose proof (zlen_nonneg t) as Ht. pose proof Hsize as Hs'. rewrite zlen_repeat_text in Hsize by done.
  unfold write_repeat, put_nul.
  rewrite (copies_loop _ size min (t ++ [32]) []); [| done | |]; cycle 1.
  { rewrite zlen_nil, zlen_app. change (zlen [32]) with 1. destruct (Z.eqb_spec max repeat_inf); [nia |]. destruct Hmax; [done | nia]. }
  { intros i r Hr. rewrite zlen_app in Hr. change (zlen [32]) with 1 in Hr. res_cbn. rewrite puts_Ok by lia. res_cbn.
    rewrite put_Ok by (rewrite zlen_app; lia). by rewrite <- app_assoc. }
  res_cbn. cbn [app]. unfold repeat_text in *.
  assert (zlen (copies min (t ++ [32])) = min * (zlen t + 1)) as Ec by (rewrite zlen_copies, zlen_app by done; done).
  destruct (Z.eqb_spec max repeat_inf) as [->|Hinf]; rewrite ?Z.eqb_refl.
  - rewrite puts_Ok by (rewrite Ec; change (zlen (bytes "( ")) with 2; lia). res_cbn.
    rewrite puts_Ok by (rewrite zlen_app, Ec; change (zlen (bytes "( ")) with 2; lia). res_cbn.
    rewrite puts_Ok by (rewrite !zlen_app, Ec; change (zlen (bytes "( ")) with 2; change (zlen (bytes " )*")) with 3; lia). res_cbn.
    rewrite <- !app_assoc. by rewrite (proj2 (Z.ltb_lt _ _)) by done.
  - destruct Hmax as [?|Hmm]; [done |]. assert (repeat_inf = -1) as Ei by done.
    rewrite (proj2 (Z.eqb_neq (max - min) repeat_inf)) by lia.
    rewrite (copies_loop _ size (max - min) (91 :: t ++ [32])); [| lia | |]; cycle 1.
    { rewrite Ec, zlen_cons, zlen_app. change (zlen [32]) with 1. nia. }
    { intros i r Hr. rewrite zlen_cons, zlen_app in Hr. change (zlen [32]) with 1 in Hr. rewrite put_Ok by lia. res_cbn.
      rewrite puts_Ok by (rewrite zlen_snoc; lia). res_cbn. rewrite put_Ok by (rewrite zlen_app, zlen_snoc; lia).
      by rewrite <- !app_assoc. }
    res_cbn. rewrite (copies_loop _ size (max - min) [93]); [| lia | |]; cycle 1.
    { rewrite !zlen_app, Ec, zlen_copies, zlen_cons, zlen_app by lia. change (zlen [32]) with 1. change (zlen [93]) with 1. nia. }
    { intros i r Hr. change (zlen [93]) with 1 in Hr. by rewrite put_Ok by lia. }
    res_cbn. rewrite <- !app_assoc. by rewrite (proj2 (Z.ltb_lt _ _)) by done.
Qed.

Lemma print_repeat_ok t len min max : zlen t < len -> 0 <= min -> max = repeat_inf \/ (min <= max /\ 0 < max) ->
  repeat_size len min max + 3 <= INT_MAX -> print_repeat (Some t) len min max = Ok (repeat_text t min max, repeat_size len min max).
Proof.
  intros Ht Hmin Hmax Hsize. pose proof (zlen_nonneg t). assert (INT_MIN <= 0) as Hint by done.
  assert (max = repeat_inf \/ min <= max) as Hmax' by tauto. pose proof (zlen_repeat_text t min max Hmin Hmax') as Hz.
  pose proof (write_repeat_ok (repeat_size len min max) t min max Hmin Hmax') as Hw.
  unfold print_repeat, repeat_size in *.
  destruct (Z.eqb_spec max repeat_inf) as [->|Hinf]; res_cbn; rewrite ?Z.eqb_refl.
  - rewrite (c_int_Ok (len + 1)) by nia. res_cbn. rewrite (c_int_Ok (min * (len + 1))) by nia. res_cbn.
    rewrite (c_int_Ok (min * (len + 1) + len)) by nia. res_cbn. rewrite (c_int_Ok (min * (len + 1) + len + 5)) by nia. res_cbn.
    rewrite c_malloc_size_Ok by nia. res_cbn. rewrite <- Z.add_assoc. rewrite Hw by nia. by res_cbn.
  - destruct Hmax as [?|[Hmm H0]]; [done |]. assert (repeat_inf = -1) as Ei by done.
    assert (1 <= min \/ 1 <= max - min) as Hone by lia.
    rewrite (c_int_Ok (max - min)) by nia. res_cbn. rewrite (proj2 (Z.eqb_neq (max - min) repeat_inf)) by lia.
    rewrite (c_int_Ok (len + 1)) by nia. res_cbn. rewrite (c_int_Ok (min * (len + 1))) by nia. res_cbn.
    rewrite (c_int_Ok (len + 4)) by nia. res_cbn. rewrite (c_int_Ok ((max - min) * (len + 4))) by nia. res_cbn.
    rewrite (c_int_Ok (min * (len + 1) + (max - min) * (len + 4))) by nia. res_cbn.
    rewrite c_malloc_size_Ok by nia. res_cbn. rewrite Hw by nia. by res_cbn.
Qed.

Lemma print_int_len k : 0 <= k < 10 ^ 5 -> 1 <= zlen (print_int k) <= 5.
Proof. intros H. by apply print_int_digits. Qed.

Lemma tree_size_node n op l r min max : tree_ok n (Node op l r min max) -> n <= 10 ^ 5 ->
  tree_size l <= tree_size (Node op l r min max) /\ (op <> re_repeat -> tree_size r <= tree_size (Node op l r min max)).
Proof.
  intros Hok Hn. assert (tree_ok n l) as Hl by (by destruct op; destruct Hok as (_ & ? & _)).
  pose proof (tree_size_pos n l Hl Hn). destruct op; cbn [tree_size tree_ok] in *.
  1-3: destruct Hok as (_ & _ & Hr); pose proof (tree_size_pos n r Hr Hn); split; [lia | intros; lia].
  split; [| done]. destruct Hok as (_ & _ & Hmin & Hmax).
  destruct ((min =? 0) && (max =? repeat_inf)); [lia |]. destruct ((min =? 1) && (max =? repeat_inf)); [lia |].
  destruct ((min =? 0) && (max =? 1)); [lia |]. unfold repeat_size. destruct (Z.eqb_spec max repeat_inf); [nia |].
  destruct Hmax as [?|Hmax]; [done |]. assert (1 <= min \/ 1 <= max - min) by lia. nia.
Qed.

(** The text of a tree is printed into a buffer that is large enough; the size
    is computed without overflow. *)
Lemma evaltree2searchstr_ok n e : tree_ok n e -> n <= 10 ^ 5 -> tree_size e + 3 <= INT_MAX ->
  evaltree2searchstr e = Ok (Some (tree_text e), tree_size e).
Proof.
  intros Hok Hn. assert (INT_MIN <= 0) as Hint by done.
  induction e as [|op l IHl r IHr min max|k| |]; intros Hsize; try done.
  - destruct (tree_size_node n op l r min max Hok Hn) as [Hsl Hsr].
    pose proof (tree_size_text n _ Hok Hn) as Htext.
    assert (tree_ok n l) as Hl by (by destruct op; destruct Hok as (_ & ? & _)).
    pose proof (tree_size_pos n l Hl Hn) as Hpl. cbn [evaltree2searchstr]. rewrite IHl by (done || lia).
    destruct op.
    1-3: destruct Hok as (-> & _ & Hr); specialize (Hsr ltac:(done)); rewrite IHr by (done || lia);
      pose proof (tree_size_pos n r Hr Hn); change (repeat_none =? repeat_none) with true; res_cbn; cbn [fst snd tree_size tree_text] in *;
      rewrite (c_int_Ok (tree_size l + tree_size r)) by lia; res_cbn; rewrite c_int_Ok by lia; res_cbn;
      rewrite c_malloc_size_Ok by lia; res_cbn; rewrite sprintf_Ok by done; by res_cbn.
    destruct Hok as (_ & _ & Hmin & Hmax). rewrite (proj2 (Z.eqb_neq min repeat_none)) by (unfold repeat_none; lia).
    cbn [negb]. res_cbn. cbn [fst snd tree_size tree_text] in *.
    destruct ((min =? 0) && (max =? repeat_inf)).
    { rewrite c_int_Ok by lia. res_cbn. rewrite c_malloc_size_Ok by lia. res_cbn. rewrite sprintf_Ok by done. by res_cbn. }
    destruct ((min =? 1) && (max =? repeat_inf)).
    { rewrite c_int_Ok by lia. res_cbn. rewrite c_malloc_size_Ok by lia. res_cbn. rewrite sprintf_Ok by done. by res_cbn. }
    destruct ((min =? 0) && (max =? 1)).
    { rewrite c_int_Ok by lia. res_cbn. rewrite c_malloc_size_Ok by lia. res_cbn. rewrite sprintf_Ok by done. by res_cbn. }
    rewrite print_repeat_ok; [by res_cbn | by apply (tree_size_text n) | done | done | done].
  - cbn [evaltree2searchstr tree_text tree_size tree_ok] in *. pose proof (print_int_len k ltac:(lia)).
    rewrite sprintf_Ok; [res_cbn; do 2 f_equal |]; rewrite !zlen_app; change (zlen (bytes " ")) with 1; change (zlen [34]) with 1; lia.
Qed.

(** ** The expression that is printed *)
Definition rx_then (l : rx) (t : option rx) : rx := match t with None => l | Some t => RAnd l t end.

(** [[l [l [l ]]]] *)
Fixpoint rx_opts (l : rx) (k : nat) : option rx :=
  match k with O => None | S k => Some (ROpt (rx_then l (rx_opts l k))) end.

Fixpoint rx_reps (l : rx) (k : nat) (t : option rx) : option rx :=
  match k with O => t | S k => Some (rx_then l (rx_reps l k t)) end.

Definition rx_repeat (l : rx) (min max : Z) : option rx :=
  rx_reps l (Z.to_nat min) (if max =? repeat_inf then Some (RStar l) else rx_opts l (Z.to_nat (max - min))).

Fixpoint rx_of (e : Evaltree) : rx :=
  match e with
  | Leaf k => RSym (print_int k)
  | Node re_disj l r _ _ => ROr (rx_of l) (rx_of r)
  | Node re_repeat l _ min max =>
      if (min =? 0) && (max =? repeat_inf) then RStar (rx_of l)
      else if (min =? 1) && (max =? repeat_inf) then RPlus (rx_of l)
      else if (min =? 0) && (max =? 1) then ROpt (rx_of l)
      else default (RSym []) (rx_repeat (rx_of l) min max)
  | Node _ l r _ _ => RAnd (rx_of l) (rx_of r)
  | Null | MeetUnion | Tabular => RSym []
  end.

Definition otoks (t : option rx) : list token := match t with None => [] | Some t => toks t end.

Lemma otoks_then l t : toks (rx_then l t) = toks l ++ otoks t.
Proof. destruct t; cbn; [done | by rewrite app_nil_r]. Qed.

Lemma otoks_opts l k : otoks (rx_opts l k) = mjoin (replicate k ((LBrT, []) :: toks l)) ++ replicate k (RBrT, []).
Proof.
  induction k as [|k IH]; [done |]. cbn [rx_opts otoks toks]. rewrite otoks_then, IH.
  change (mjoin (replicate (S k) ((LBrT, []) :: toks l))) with (((LBrT, []) :: toks l) ++ mjoin (replicate k ((LBrT, @nil Z) :: toks l))).
  rewrite replicate_S_end. cbn [app]. by rewrite <- !app_assoc.
Qed.

Lemma otoks_reps l k t : otoks (rx_reps l k t) = mjoin (replicate k (toks l)) ++ otoks t.
Proof.
  induction k as [|k IH]; [done |]. cbn [rx_reps otoks]. rewrite otoks_then, IH.
  change (mjoin (replicate (S k) (toks l))) with (toks l ++ mjoin (replicate k (toks l))). by rewrite <- app_assoc.
Qed.

Lemma lexed_char1 c L : is_char c -> single c = Some L -> isspace c = false -> lexed [c] [(L, [])].
Proof. intros. apply lexed_char; [done .. |]. constructor. Qed.

Lemma lexed_space1 : lexed [32] [].
Proof. apply lexed_space; [done | constructor]. Qed.

(** The text between the parts. *)
Lemma lexed_bytes : lexed (bytes " ") [] /\ lexed (bytes "( ") [(LParT, [])] /\ lexed (bytes " | ") [(BarT, [])] /\
  lexed (bytes " )") [(RParT, [])] /\ lexed (bytes " )*") [(RParT, []); (StarT, [])] /\
  lexed (bytes " )+") [(RParT, []); (PlusT, [])] /\ lexed (bytes "[ ") [(LBrT, [])] /\ lexed (bytes " ]") [(RBrT, [])].
Proof.
  repeat split; cbn; repeat first [apply lexed_end | apply lexed_space; [done |] | apply lexed_char; [done | done | done |]].
Qed.

Lemma lexed_copies n x ts : lexed x ts -> lexed (copies n x) (mjoin (replicate (Z.to_nat n) ts)).
Proof.
  intros H. unfold copies. induction (Z.to_nat n) as [|k IH]; [constructor |].
  change (mjoin (replicate (S k) x)) with (x ++ mjoin (replicate k x)).
  change (mjoin (replicate (S k) ts)) with (ts ++ mjoin (replicate k ts)). by apply lexed_app.
Qed.

Lemma mjoin_single {A} k (x : A) : mjoin (replicate k [x]) = replicate k x.
Proof. induction k as [|k IH]; [done |]. cbn. f_equal. exact IH. Qed.

Lemma repeat_some l min max : 0 <= min -> max = repeat_inf \/ (min <= max /\ 0 < max) -> exists t, rx_repeat l min max = Some t.
Proof.
  intros Hmin Hmax. unfold rx_repeat. destruct (Z.to_nat min) as [|k] eqn:Ek; [| by eexists]. cbn [rx_reps].
  destruct (Z.eqb_spec max repeat_inf); [by eexists |]. destruct Hmax as [?|[H1 H2]]; [done |].
  destruct (Z.to_nat (max - min)) eqn:Em; [lia | by eexists].
Qed.

Lemma lexed_repeat t l min max : lexed t (toks l) -> 0 <= min -> max = repeat_inf \/ (min <= max /\ 0 < max) ->
  lexed (repeat_text t min max) (toks (default (RSym []) (rx_repeat l min max))).
Proof.
  intros Ht Hmin Hmax. destruct (repeat_some l min max Hmin Hmax) as [r Hr]. rewrite Hr. cbn [default from_option id].
  change (toks r) with (otoks (Some r)). rewrite <- Hr. unfold rx_repeat, repeat_text. rewrite otoks_reps.
  destruct lexed_bytes as (_ & H1 & _ & _ & H2 & _). apply lexed_app.
  - apply lexed_copies. rewrite <- (app_nil_r (toks l)). apply lexed_app; [done | apply lexed_space1].
  - destruct (max =? repeat_inf).
    + cbn [otoks toks]. apply (lexed_app _ [(LParT, [])]); [done |]. by apply lexed_app.
    + rewrite otoks_opts, <- (mjoin_single _ (RBrT, [])). apply lexed_app; apply lexed_copies.
      * apply lexed_char; [done .. |]. rewrite <- (app_nil_r (toks l)). apply lexed_app; [done | apply lexed_space1].
      * by apply lexed_char1.
Qed.

(** The text is read as the expression. *)
Lemma lexed_tree n e : tree_ok n e -> n <= 10 ^ 5 -> lexed (tree_text e) (toks (rx_of e)).
Proof.
  intros Hok Hn. destruct lexed_bytes as (H1 & H2 & H3 & H4 & H5 & H6 & H7 & H8).
  induction e as [|op l IHl r IHr min max|k| |]; cbn [tree_ok tree_text rx_of] in *; try done.
  - destruct op.
    + destruct Hok as (_ & Hl & Hr). cbn [toks]. apply lexed_app; [auto |]. by apply (lexed_app _ []); auto.
    + destruct Hok as (_ & Hl & Hr). cbn [toks]. apply lexed_app; [auto |]. by apply (lexed_app _ []); auto.
    + destruct Hok as (_ & Hl & Hr). cbn [toks]. apply (lexed_app _ [(LParT, [])]); [done |]. apply lexed_app; [auto |].
      apply (lexed_app _ [(BarT, [])]); [done |]. apply lexed_app; auto.
    + destruct Hok as (_ & Hl & Hmin & Hmax). destruct ((min =? 0) && (max =? repeat_inf)).
      { cbn [toks]. apply (lexed_app _ [(LParT, [])]); [done |]. apply lexed_app; auto. }
      destruct ((min =? 1) && (max =? repeat_inf)).
      { cbn [toks]. apply (lexed_app _ [(LParT, [])]); [done |]. apply lexed_app; auto. }
      destruct ((min =? 0) && (max =? 1)).
      { cbn [toks]. apply (lexed_app _ [(LBrT, [])]); [done |]. apply lexed_app; auto. }
      apply lexed_repeat; auto.
  - apply (lexed_app _ []); [done |]. destruct (print_int_word k ltac:(lia)) as [_ Hw].
    change ([34] ++ print_int k ++ [34] ++ bytes " ") with (QUOTE :: print_int k ++ QUOTE :: bytes " "). by apply lexed_word.
Qed.

Lemma rx_ok_reps {N : Names} l k t : rx_ok l -> (forall r, t = Some r -> rx_ok r) -> forall r, rx_reps l k t = Some r -> rx_ok r.
Proof.
  intros Hl Ht. induction k as [|k IH]; cbn [rx_reps]; [done |]. intros r [= <-].
  destruct (rx_reps l k t) as [r|]; cbn; [split; [done | by apply IH] | done].
Qed.

Lemma rx_ok_opts {N : Names} l k : rx_ok l -> forall r, rx_opts l k = Some r -> rx_ok r.
Proof.
  intros Hl. induction k as [|k IH]; cbn [rx_opts]; [done |]. intros r [= <-]. cbn [rx_ok].
  destruct (rx_opts l k) as [r|]; cbn; [split; [done | by apply IH] | done].
Qed.

(** The names are the numbers of patterns. *)
Definition pattern_names (n : Z) (Hn : n <= 10 ^ 5) : Names.
Proof.
  apply (mkNames (fun w => exists k, 0 <= k < n /\ w = print_int k)).
  intros w (k & Hk & ->). apply print_int_word. lia.
Defined.

Lemma rx_ok_tree n e (Hn : n <= 10 ^ 5) : tree_ok n e -> rx_ok (N := pattern_names n Hn) (rx_of e).
Proof.
  intros Hok. induction e as [|op l IHl r IHr min max|k| |]; cbn [tree_ok rx_of] in *; try done.
  - destruct op.
    1-3: destruct Hok as (_ & Hl & Hr); cbn; auto.
    destruct Hok as (_ & Hl & Hmin & Hmax). repeat case_match; cbn; auto.
    destruct (repeat_some (rx_of l) min max Hmin Hmax) as [t Ht]. rewrite Ht. cbn.
    unfold rx_repeat in Ht. apply (rx_ok_reps (N := pattern_names n Hn)) in Ht; [done | auto |]. intros t' Ht'.
    destruct (max =? repeat_inf); [injection Ht' as <-; cbn; auto | by apply (rx_ok_opts (N := pattern_names n Hn)) in Ht'; auto].
  - exists k. split; [lia | done].
Qed.

(** ** The language of the expression *)
Definition image (M : list Z -> Prop) (v : list (list Z)) : Prop := exists w, v = print_int <$> w /\ M w.

Definition owords (t : option rx) (v : list (list Z)) : Prop := match t with None => v = [] | Some t => words (wden t) v end.

Lemma wden_up r : up (wden r).
Proof.
  induction r as [v|r IHr s IHs|r IHr s IHs|r IHr|r IHr|r IHr]; cbn;
    [apply up_sym | by apply up_and | by apply up_or | by apply up_star | by apply up_plus | by apply up_opt].
Qed.

Lemma words_then l t v : words (wden (rx_then l t)) v <-> exists v1 v2, v = v1 ++ v2 /\ words (wden l) v1 /\ owords t v2.
Proof.
  destruct t as [t|]; cbn.
  - apply words_and, wden_up.
  - split; [intros H; exists v, []; by rewrite app_nil_r | intros (v1 & v2 & -> & H & ->); by rewrite app_nil_r].
Qed.

Lemma power_add {A} (X : list A -> Prop) k j v : power X (k + j) v <-> exists v1 v2, v = v1 ++ v2 /\ power X k v1 /\ power X j v2.
Proof.
  revert v. induction k as [|k IH]; intros v; cbn [Nat.add power].
  - split; [intros H; by exists [], v | by intros (v1 & v2 & -> & -> & H)].
  - split.
    + intros (w1 & w2 & -> & H1 & H2). apply IH in H2 as (u1 & u2 & -> & H2 & H3). exists (w1 ++ u1), u2.
      rewrite app_assoc. split; [done |]. split; [by exists w1, u1 | done].
    + intros (v1 & v2 & -> & (w1 & w2 & -> & H1 & H2) & H3). exists w1, (w2 ++ v2). rewrite app_assoc.
      split; [done |]. split; [done |]. apply IH. by exists w2, v2.
Qed.

Lemma words_opts l k v : owords (rx_opts l k) v <-> exists j, (j <= k)%nat /\ power (words (wden l)) j v.
Proof.
  revert v. induction k as [|k IH]; intros v; cbn [rx_opts owords].
  - split; [by intros ->; exists 0%nat | intros (j & Hj & H); by replace j with 0%nat in H by lia].
  - cbn [wden]. rewrite words_opt, words_then. setoid_rewrite IH. split.
    + intros [->|(v1 & v2 & -> & H1 & j & Hj & H2)]; [by exists 0%nat; split; [lia |] |].
      exists (S j). split; [lia |]. by exists v1, v2.
    + intros (j & Hj & H). destruct j as [|j]; [by left | right]. destruct H as (v1 & v2 & -> & H1 & H2).
      exists v1, v2. split; [done |]. split; [done |]. exists j. split; [lia | done].
Qed.

Lemma words_reps l k t v : owords (rx_reps l k t) v <->
  exists v1 v2, v = v1 ++ v2 /\ power (words (wden l)) k v1 /\ owords t v2.
Proof.
  revert v. induction k as [|k IH]; intros v; cbn [rx_reps power].
  - split; [intros H; by exists [], v | by intros (v1 & v2 & -> & -> & H)].
  - cbn [owords]. rewrite words_then. setoid_rewrite IH. split.
    + intros (w1 & w2 & -> & H1 & v1 & v2 & -> & H2 & H3). exists (w1 ++ v1), v2. rewrite app_assoc.
      split; [done |]. split; [by exists w1, v1 | done].
    + intros (v1 & v2 & -> & (w1 & w2 & -> & H1 & H2) & H3). exists w1, (w2 ++ v2). rewrite app_assoc.
      split; [done |]. split; [done |]. by exists w2, v2.
Qed.

Lemma words_repeat l min max v : 0 <= min -> max = repeat_inf \/ (min <= max /\ 0 < max) ->
  words (wden (default (RSym []) (rx_repeat l min max))) v <->
  exists k, min <= Z.of_nat k /\ (max = repeat_inf \/ Z.of_nat k <= max) /\ power (words (wden l)) k v.
Proof.
  intros Hmin Hmax. destruct (repeat_some l min max Hmin Hmax) as [r Hr]. rewrite Hr. cbn [default from_option id].
  change (words (wden r) v) with (owords (Some r) v). rewrite <- Hr. unfold rx_repeat. rewrite words_reps.
  assert (forall v, owords (if max =? repeat_inf then Some (RStar l) else rx_opts l (Z.to_nat (max - min))) v <->
            exists j, (max = repeat_inf \/ Z.of_nat j <= max - min) /\ power (words (wden l)) j v) as Ht.
  { intros u. destruct (Z.eqb_spec max repeat_inf) as [Hi|Hi].
    - cbn [owords wden]. rewrite words_star. split; intros [j H]; exists j; [by split; [left |] | by destruct H].
    - destruct Hmax as [?|[H1 H2]]; [done |]. rewrite words_opts. split; intros (j & Hj & H); exists j; (split; [| done]); lia. }
  setoid_rewrite Ht. split.
  - intros (v1 & v2 & -> & H1 & j & Hj & H2). exists (Z.to_nat min + j)%nat. split; [lia |].
    split; [destruct Hj; [by left | right; lia] |]. apply power_add. by exists v1, v2.
  - intros (k & Hk & Hmx & H). replace k with (Z.to_nat min + (k - Z.to_nat min))%nat in H by lia.
    apply power_add in H as (v1 & v2 & -> & H1 & H2). exists v1, v2. split; [done |]. split; [done |].
    exists (k - Z.to_nat min)%nat. split; [| done]. destruct Hmx; [by left | right; lia].
Qed.

Lemma image_app M1 M2 v : (exists v1 v2, v = v1 ++ v2 /\ image M1 v1 /\ image M2 v2) <->
  image (fun w => exists w1 w2, w = w1 ++ w2 /\ M1 w1 /\ M2 w2) v.
Proof.
  split.
  - intros (v1 & v2 & -> & (w1 & -> & H1) & (w2 & -> & H2)). exists (w1 ++ w2). rewrite fmap_app. split; [done |]. by exists w1, w2.
  - intros (w & -> & w1 & w2 & -> & H1 & H2). exists (print_int <$> w1), (print_int <$> w2). rewrite fmap_app.
    split; [done |]. split; [by exists w1 | by exists w2].
Qed.

Lemma power_image M X k v : (forall v, X v <-> image M v) -> power X k v <-> image (power M k) v.
Proof.
  intros HX. revert v. induction k as [|k IH]; intros v; cbn [power].
  - split; [intros ->; by exists [] | by intros (w & -> & ->)].
  - rewrite <- image_app. setoid_rewrite IH. by setoid_rewrite HX.
Qed.

(** The language of the expression is what matches the tree, by the names. *)
Lemma wden_tree n e v : tree_ok n e -> words (wden (rx_of e)) v <-> image (matches e) v.
Proof.
  intros Hok. revert v. induction e as [|op l IHl r IHr min max|k| |]; intros v; cbn [tree_ok rx_of] in *; try done.
  - destruct op.
    1-2: destruct Hok as (_ & Hl & Hr); cbn [wden matches]; rewrite words_and by apply wden_up;
      rewrite <- image_app; setoid_rewrite (IHl Hl); by setoid_rewrite (IHr Hr).
    + destruct Hok as (_ & Hl & Hr). cbn [wden matches]. rewrite words_or, (IHl Hl), (IHr Hr). split.
      * intros [(w & -> & H)|(w & -> & H)]; exists w; tauto.
      * intros (w & -> & [H|H]); [left | right]; by exists w.
    + destruct Hok as (_ & Hl & Hmin & Hmax). cbn [matches].
      pose proof (fun k v => power_image (matches l) (words (wden (rx_of l))) k v (IHl Hl)) as Hpow.
      assert (forall P : nat -> Prop, (exists k, P k /\ power (words (wden (rx_of l))) k v) <->
                image (fun w => exists k, P k /\ power (matches l) k w) v) as Hex.
      { intros P. setoid_rewrite Hpow. split; [intros (k & HP & w & -> & H); exists w; split; [done |]; by exists k |].
        intros (w & -> & k & HP & H). exists k. split; [done | by exists w]. }
      assert (words (wden (rx_of (Node re_repeat l r min max))) v <->
        exists k, (min <= Z.of_nat k /\ (max = repeat_inf \/ Z.of_nat k <= max)) /\ power (words (wden (rx_of l))) k v) as Hw.
      { cbn [rx_of]. destruct ((min =? 0) && (max =? repeat_inf)) eqn:E1; bool_to_prop; subst.
        { cbn [wden]. rewrite words_star. split; intros [k H]; exists k; [| by destruct H]. split; [| done]. split; [lia | by left]. }
        destruct ((min =? 1) && (max =? repeat_inf)) eqn:E2; bool_to_prop; subst.
        { cbn [wden]. rewrite words_plus. split.
          - intros [k H]. exists (S k). split; [| done]. split; [lia | by left].
          - intros ([|k] & [Hk _] & H); [lia | by exists k]. }
        destruct ((min =? 0) && (max =? 1)) eqn:E3; bool_to_prop; subst.
        { cbn [wden]. rewrite words_opt. split.
          - intros [->|H]; [by exists 0%nat; split; [split; [lia | right; lia] |] |]. exists 1%nat.
            split; [split; [lia | right; lia] |]. exists v, []. by rewrite app_nil_r.
          - intros (k & [_ [Hi|Hk]] & H); [done |]. destruct k as [|[|k]]; [by left | | lia].
            destruct H as (v1 & v2 & -> & H1 & ->). rewrite app_nil_r. by right. }
        rewrite words_repeat by done. split; intros (k & H); exists k; tauto. }
      cbn [rx_of] in Hw. rewrite Hw, Hex. unfold image. split; intros (w & E & k & H); exists w; (split; [done |]); exists k; tauto.
  - cbn [wden matches]. rewrite words_sym. split; [intros ->; by exists [k] | by intros (w & -> & ->)].
Qed.

(** ** Properties *)

(** C24. For a tree whose repetitions have bounds in order and are not of zero times ({0} and {0,0}, see [evaltree2searchstr_repeat_zero]) the
    search string fits into the buffer whose size was computed for it, and
    denotes the sequences of patterns that match the tree. *)
Theorem evaltree2searchstr_correct n e : tree_ok n e -> n <= 10 ^ 5 -> tree_size e + 3 <= INT_MAX ->
  exists text length, evaltree2searchstr e = Ok (Some text, length) /\ zlen text < length /\
  exists r, lexed text (toks r) /\ forall v, words (wden r) v <-> exists w, v = print_int <$> w /\ matches e w.
Proof.
  intros Hok Hn Hsize. exists (tree_text e), (tree_size e).
  split; [by apply (evaltree2searchstr_ok n) |]. split; [by apply (tree_size_text n) |].
  exists (rx_of e). split; [by apply (lexed_tree n) |]. intros v. by apply (wden_tree n).
Qed.

(** The query [("a" | "b"){2,3} "c"+]. *)
Definition sample_tree : Evaltree :=
  Node re_od_concat (Node re_repeat (Node re_disj (Leaf 0) (Leaf 1) repeat_none repeat_none) Null 2 3)
    (Node re_repeat (Leaf 2) Null 1 repeat_inf) repeat_none repeat_none.

Lemma evaltree2searchstr_correct_witness : exists text length, evaltree2searchstr sample_tree = Ok (Some text, length) /\ zlen text < length /\
  exists r, lexed text (toks r) /\ forall v, words (wden r) v <-> exists w, v = print_int <$> w /\ matches sample_tree w.
Proof.
  apply (evaltree2searchstr_correct 3); [| lia | vm_compute; discriminate].
  cbn. unfold repeat_inf, repeat_none. repeat split; lia.
Defined.

(** A repetition of zero times ([{0}] or [{0,0}]) gets a buffer without room, and its
    terminating NUL is written behind it. *)
Theorem evaltree2searchstr_repeat_zero n l : tree_ok n l -> n <= 10 ^ 5 -> tree_size l + 4 <= INT_MAX ->
  evaltree2searchstr (Node re_repeat l Null 0 0) = Err OutOfBounds.
Proof.
  intros Hok Hn Hsize. pose proof (tree_size_pos n l Hok Hn). assert (INT_MIN <= 0) as Hint by done. assert (0 <= INT_MAX) by done.
  cbn [evaltree2searchstr]. rewrite (evaltree2searchstr_ok n l Hok Hn) by lia.
  change (0 =? repeat_none) with false. change (0 =? repeat_inf) with false. change (0 =? 1) with false. res_cbn. cbn [fst snd andb].
  unfold print_repeat. change (0 =? repeat_inf) with false. rewrite (c_int_Ok (0 - 0)) by lia. res_cbn.
  rewrite (c_int_Ok (tree_size l + 1)) by lia. res_cbn. change (0 - 0 =? repeat_inf) with false. rewrite (c_int_Ok (0 * _)) by lia. res_cbn.
  rewrite (c_int_Ok (tree_size l + 4)) by lia. res_cbn. change ((0 - 0) * (tree_size l + 4)) with 0.
  rewrite (c_int_Ok 0) by lia. res_cbn. change (0 * (tree_size l + 1) + 0) with 0. rewrite (c_int_Ok 0) by lia. reflexivity.
Qed.

Lemma evaltree2searchstr_repeat_zero_witness : evaltree2searchstr (Node re_repeat sample_tree Null 0 0) = Err OutOfBounds.
Proof.
  apply (evaltree2searchstr_repeat_zero 3); [| lia | vm_compute; discriminate].
  cbn. unfold repeat_inf, repeat_none. repeat split; lia.
Defined.
