(* ===== verification/RegexEval.v ===== *)
(** * One round of the evaluation in regex2dfa.c

    [rewrites q t t']: the value of the class [q] is replaced, as the code does before
    [goto EVALUATE], after the expressions it needs have been entered.  All that is
    proved of [FormState] follows from these rules; [evaluate_round_ok] says that the
    code obeys them, in whatever order the arguments of a call are evaluated. *)

From Stdlib Require Import ZArith Lia.
From stdpp Require Import base tactics option list numbers.
From S2P Require Import Prelude RegexLang Regex2dfa RegexTables.

Open Scope Z_scope.

(** [MakeExp(-1, e)] returned [q]. *)
Definition new1 (t : tables) (e : expr) (q : Z) (t' : tables) : Prop :=
  tinv t' /\ ((t' = t /\ hashed t e q) \/ ((forall q, ~ hashed t e q) /\ fresh t e q t')).

(** Two of them, in any order. *)
Definition new2 (t : tables) (e1 : expr) (q1 : Z) (e2 : expr) (q2 : Z) (t' : tables) : Prop :=
  exists t1, (new1 t e1 q1 t1 /\ new1 t1 e2 q2 t') \/ (new1 t e2 q2 t1 /\ new1 t1 e1 q1 t').

(** [MakeExp(q, e)]. *)
Definition at1 (t : tables) (q : Z) (e : expr) (t' : tables) : Prop :=
  tinv t' /\ exists r, revalued t q e r t'.

(** [EquTab[q].Value = EquTab[y].Value]. *)
Definition copied (t : tables) (q y : Z) (t' : tables) : Prop :=
  tinv t' /\ Symbols t' = Symbols t /\ HashTab t' = HashTab t /\ Exps t' = Exps t /\
  exists v v', aget (EquTab t) q = Ok v /\ aget (EquTab t) y = Ok v' /\
    EquTab t' = <[Z.to_nat q := mkEquation (Value v') (EHash v) (OnStack v)]> (EquTab t).

Inductive rewrites (q : Z) (t : tables) : tables -> Prop :=
| rw_opt a o t1 t2 : value t q (OptX a) -> new1 t OneX o t1 -> at1 t1 q (OrX o a) t2 -> rewrites q t t2
| rw_plus a s t1 t2 : value t q (PlusX a) -> new1 t (StarX a) s t1 -> at1 t1 q (AndX a s) t2 -> rewrites q t t2
| rw_star a o p t1 t2 : value t q (StarX a) -> new2 t OneX o (PlusX a) p t1 -> at1 t1 q (OrX o p) t2 -> rewrites q t t2
| rw_one x y t2 : value t q (AndX x y) -> value t x OneX -> copied t q y t2 -> rewrites q t t2
| rw_and_opt x y a c t1 t2 : value t q (AndX x y) -> value t x (OptX a) -> new1 t (AndX a y) c t1 ->
    at1 t1 q (OrX y c) t2 -> rewrites q t t2
| rw_and_plus x y a c t1 t2 : value t q (AndX x y) -> value t x (PlusX a) -> new1 t (OrX y q) c t1 ->
    at1 t1 q (AndX a c) t2 -> rewrites q t t2
| rw_and_star x y a c t1 t2 : value t q (AndX x y) -> value t x (StarX a) -> new1 t (AndX a q) c t1 ->
    at1 t1 q (OrX y c) t2 -> rewrites q t t2
| rw_and_or x y a b c d t1 t2 : value t q (AndX x y) -> value t x (OrX a b) -> new2 t (AndX a y) c (AndX b y) d t1 ->
    at1 t1 q (OrX c d) t2 -> rewrites q t t2
| rw_and_and x y a b c t1 t2 : value t q (AndX x y) -> value t x (AndX a b) -> new1 t (AndX b y) c t1 ->
    at1 t1 q (AndX a c) t2 -> rewrites q t t2.

(** The ways the evaluation of a class ends. *)
Inductive ends (q : Z) (w : walk) : walk -> Prop :=
| end_sym p o t b : value (wtab w) q (SymX p) -> new1 (wtab w) OneX o t -> AddBuf (Symbols t) p o (IBuf w) = Ok b ->
    ends q w (mkWalk t (XStack w) b (wEmpty w))
| end_one : value (wtab w) q OneX -> ends q w (mkWalk (wtab w) (XStack w) (IBuf w) true)
| end_zero : value (wtab w) q ZeroX -> ends q w w
| end_or a b st st' : value (wtab w) q (OrX a b) -> PushQ a (wtab w, XStack w) = Ok st -> PushQ b st = Ok st' ->
    ends q w (mkWalk st'.1 st'.2 (IBuf w) (wEmpty w))
| end_and_sym x y p b : value (wtab w) q (AndX x y) -> value (wtab w) x (SymX p) ->
    AddBuf (Symbols (wtab w)) p y (IBuf w) = Ok b -> ends q w (mkWalk (wtab w) (XStack w) b (wEmpty w))
| end_and_zero x y t : value (wtab w) q (AndX x y) -> value (wtab w) x ZeroX -> at1 (wtab w) q ZeroX t ->
    ends q w (with_tables w t).

(** ** The operations *)
Lemma MakeExp_new1 t e : tinv t -> valid t e -> exists t' q, MakeExp t (-1) e = Ok (t', q) /\ new1 t e q t'.
Proof. intros Ht Hv. destruct (MakeExp_new t e Ht Hv) as (t' & q & E & H1 & H2). by exists t', q. Qed.

Lemma MakeExp_at1 t q e : tinv t -> valid t e -> in_tab t q -> exists t' r, MakeExp t q e = Ok (t', r) /\ at1 t q e t'.
Proof. intros Ht Hv Hq. destruct (MakeExp_at t q e Ht Hv Hq) as (t' & r & E & H1 & H2). exists t', r. split; [done |]. split; [done | by exists r]. Qed.

Section New1.
Context (t : tables) (e : expr) (q : Z) (t' : tables) (Ht : tinv t) (Hn : new1 t e q t').

Lemma new1_hashed : hashed t' e q.
Proof. destruct Hn as (_ & [[-> H]|[_ H]]); [done |]. apply (fresh_hashed t e q t' H). by right. Qed.

Lemma new1_hashed_old e' q' : hashed t e' q' -> hashed t' e' q'.
Proof. destruct Hn as (_ & [[-> H]|[_ H]]); [done |]. intros Hh. apply (fresh_hashed t e q t' H). by left. Qed.

Lemma new1_in_tab_old q' : in_tab t q' -> in_tab t' q'.
Proof. destruct Hn as (_ & [[-> H]|[_ H]]); [done |]. intros Hq. apply (fresh_in_tab t e q t' H). by left. Qed.

Lemma new1_in_tab : in_tab t' q.
Proof. destruct Hn as (Ht' & _). by apply (hashed_valid t' e q Ht' new1_hashed). Qed.

Lemma new1_value q' e' : value t q' e' -> value t' q' e'.
Proof. destruct Hn as (_ & [[-> H]|[_ H]]); [done |]. apply (fresh_value_old t e q t' H). Qed.

Lemma new1_syms : Symbols t' = Symbols t.
Proof. by destruct Hn as (_ & [[-> H]|[_ (_ & H & _)]]). Qed.

Lemma new1_valid e' : valid t e' -> valid t' e'.
Proof.
  apply valid_mono; [by rewrite new1_syms |]. destruct Hn as (_ & [[-> H]|[_ H]]); [done |].
  destruct H as (_ & _ & _ & H & _ & ->). rewrite zlen_snoc. lia.
Qed.

(** The marks of the stack. *)
Lemma new1_stack q' v' : aget (EquTab t') q' = Ok v' ->
  (exists v, aget (EquTab t) q' = Ok v /\ OnStack v' = OnStack v) \/ (q' = q /\ ~ in_tab t q' /\ OnStack v' = false).
Proof.
  destruct Hn as (_ & [[-> H]|[_ H]]); [intros Hv; left; by exists v' |].
  destruct H as (-> & _ & _ & H & _ & ->). intros [Hv|[-> ->]]%aget_app_inv; [left; by exists v' | right].
  split; [done |]. split; [unfold in_tab; lia | done].
Qed.
End New1.

Section At1.
Context (t : tables) (q : Z) (e : expr) (t' : tables) (Ht : tinv t) (Hq : in_tab t q) (Ha : at1 t q e t').

Lemma at1_syms : Symbols t' = Symbols t.
Proof. by destruct Ha as (_ & r & H & _). Qed.

Lemma at1_in_tab q' : in_tab t' q' <-> in_tab t q'.
Proof. destruct Ha as (_ & r & H). apply (revalued_in_tab t q e r t' H). Qed.

Lemma at1_hashed_old e' q' : hashed t e' q' -> hashed t' e' q'.
Proof. destruct Ha as (_ & r & H). apply (revalued_hashed_old t q e r t' H). Qed.

Lemma at1_hashed e' q' : hashed t' e' q' -> hashed t e' q' \/ (e' = e /\ q' = q).
Proof. destruct Ha as (_ & r & H). intros [?|(? & ? & _)]%(revalued_hashed t q e r t' H); [by left | by right]. Qed.

Lemma at1_value_old q' e' : q' <> q -> value t q' e' -> value t' q' e'.
Proof. destruct Ha as (_ & r & H). apply (revalued_value_old t q e r t' Hq H). Qed.

Lemma at1_value_new : (hashed t e q /\ t' = t) \/ value t' q e.
Proof. destruct Ha as (_ & r & H). apply (revalued_value_new t q e r t' Hq H). Qed.

Lemma at1_value q' e' : value t' q' e' -> value t q' e' \/ (q' = q /\ e' = e).
Proof. destruct Ha as (_ & r & H). apply (revalued_value t q e r t' Ht Hq H). Qed.

Lemma at1_stack q' v' : aget (EquTab t') q' = Ok v' -> exists v, aget (EquTab t) q' = Ok v /\ OnStack v' = OnStack v.
Proof.
  destruct Ha as (_ & r & _ & _ & _ & [[_ ->]|(p & E & v & _ & _ & Hv & ->)]); [by exists v' |].
  pose proof (aget_range _ _ _ Hv) as Hr. destruct (decide (q = q')) as [<-|Hne].
  - rewrite aget_insert by done. intros [= <-]. by exists v.
  - rewrite aget_insert_ne by lia. intros H. by exists v'.
Qed.
End At1.

Section Copied.
Context (t : tables) (q y : Z) (t' : tables) (Ht : tinv t) (Hc : copied t q y t').

Lemma copied_hashed e' q' : hashed t' e' q' <-> hashed t e' q'.
Proof. destruct Hc as (_ & _ & _ & H & _). by apply hashed_same. Qed.

Lemma copied_in_tab q' : in_tab t' q' <-> in_tab t q'.
Proof. destruct Hc as (_ & _ & _ & _ & v & v' & _ & _ & H). unfold in_tab. by rewrite H, zlen_insert. Qed.

Lemma copied_value_old q' e' : q' <> q -> value t q' e' -> value t' q' e'.
Proof.
  intros Hne. destruct Hc as (_ & _ & _ & HE & v & v' & Hv & _ & HQ). pose proof (aget_range _ _ _ Hv).
  apply (value_app t t' []); [by rewrite app_nil_r |]. intros u Hu. exists u. by rewrite HQ, aget_insert_ne by lia.
Qed.

Lemma copied_value_new e : value t y e -> value t' q e.
Proof.
  intros (E & HE & <-). destruct Hc as (_ & _ & _ & HX & v & v' & Hv & Hv' & HQ).
  unfold value_exp in HE. rewrite Hv' in HE. revert HE. res_cbn. intros HE.
  unfold value, value_exp. rewrite HQ, aget_insert by (by apply (aget_range _ _ v)). res_cbn. cbn. rewrite HX, HE. by eexists.
Qed.

Lemma copied_y : in_tab t q /\ in_tab t y.
Proof. destruct Hc as (_ & _ & _ & _ & v & v' & Hv & Hv' & _). split; [by apply (aget_range _ _ v) | by apply (aget_range _ _ v')]. Qed.

Lemma copied_stack q' v' : aget (EquTab t') q' = Ok v' -> exists v, aget (EquTab t) q' = Ok v /\ OnStack v' = OnStack v.
Proof.
  destruct Hc as (_ & _ & _ & _ & v & u & Hv & _ & ->).
  pose proof (aget_range _ _ _ Hv) as Hr. destruct (decide (q = q')) as [<-|Hne].
  - rewrite aget_insert by done. intros [= <-]. by exists v.
  - rewrite aget_insert_ne by lia. intros H. by exists v'.
Qed.
End Copied.

Lemma copy_right_ok t q y : tinv t -> in_tab t q -> in_tab t y -> exists v' t',
  aget (EquTab t) y = Ok v' /\ set_value t q (Value v') = Ok t' /\ copied t q y t'.
Proof.
  intros Ht Hq Hy. destruct (aget_some _ _ Hq) as [v Hv]. destruct (aget_some _ _ Hy) as [v' Hv'].
  exists v'. rewrite (set_value_ok t q _ v Hv). eexists. split; [done |]. split; [done |]. split.
  - apply tinv_equ; [done |]. apply (equ_ok_insert t q v); cbn; [done .. | | done]. by destruct (t_equ t Ht y v' Hv').
  - do 3 (split; [done |]). by exists v, v'.
Qed.

Lemma both_ok left_first t e1 e2 : tinv t -> valid t e1 -> valid t e2 -> exists t' q1 q2,
  both left_first (fun t => MakeExp t (-1) e1) (fun t => MakeExp t (-1) e2) t = Ok (t', q1, q2) /\ tinv t' /\
  new2 t e1 q1 e2 q2 t'.
Proof.
  intros Ht H1 H2. unfold both. destruct left_first.
  - destruct (MakeExp_new1 t e1 Ht H1) as (t1 & q1 & E1 & N1). pose proof N1 as (Ht1 & _).
    destruct (MakeExp_new1 t1 e2 Ht1 (new1_valid t e1 q1 t1 N1 e2 H2)) as (t2 & q2 & E2 & N2). pose proof N2 as (Ht2 & _).
    exists t2, q1, q2. rewrite E1. res_cbn. cbn [fst snd]. rewrite E2. res_cbn. split; [done |]. split; [done |]. exists t1. by left.
  - destruct (MakeExp_new1 t e2 Ht H2) as (t1 & q2 & E1 & N1). pose proof N1 as (Ht1 & _).
    destruct (MakeExp_new1 t1 e1 Ht1 (new1_valid t e2 q2 t1 N1 e1 H1)) as (t2 & q1 & E2 & N2). pose proof N2 as (Ht2 & _).
    exists t2, q1, q2. rewrite E1. res_cbn. cbn [fst snd]. rewrite E2. res_cbn. split; [done |]. split; [done |]. exists t1. by right.
Qed.

Section New2.
Context (t : tables) (e1 : expr) (q1 : Z) (e2 : expr) (q2 : Z) (t' : tables) (Ht : tinv t) (Hn : new2 t e1 q1 e2 q2 t').

Lemma new2_hashed : hashed t' e1 q1 /\ hashed t' e2 q2.
Proof.
  destruct Hn as (t1 & [[N1 N2]|[N1 N2]]); split;
    first [by apply (new1_hashed _ _ _ _ N2) | apply (new1_hashed_old _ _ _ _ N2); by apply (new1_hashed _ _ _ _ N1)].
Qed.

Lemma new2_in_tab_old q' : in_tab t q' -> in_tab t' q'.
Proof. destruct Hn as (t1 & [[N1 N2]|[N1 N2]]); intros H; by apply (new1_in_tab_old _ _ _ _ N2), (new1_in_tab_old _ _ _ _ N1). Qed.
End New2.

(** ** The marks *)
Lemma set_stack_ok t q b v : aget (EquTab t) q = Ok v ->
  set_stack t q b = Ok (mkTables (HashTab t) (Symbols t) (ExpHash t) (Exps t)
                          (<[Z.to_nat q := mkEquation (Value v) (EHash v) b]> (EquTab t))).
Proof.
  intros Hv. unfold set_stack. rewrite Hv. res_cbn. rewrite aset_Ok by (by apply (aget_range _ _ v)). by res_cbn.
Qed.

(** Tables that differ in the marks. *)
Definition remarked (t t' : tables) : Prop :=
  tinv t' /\ HashTab t' = HashTab t /\ Symbols t' = Symbols t /\ Exps t' = Exps t /\
  zlen (EquTab t') = zlen (EquTab t) /\
  forall q v, aget (EquTab t) q = Ok v -> exists v', aget (EquTab t') q = Ok v' /\ Value v' = Value v.

Lemma remarked_refl t : tinv t -> remarked t t.
Proof. intros Ht. do 5 (split; [done |]). intros q v Hv. by exists v. Qed.

Lemma remarked_trans t1 t2 t3 : remarked t1 t2 -> remarked t2 t3 -> remarked t1 t3.
Proof.
  intros (_ & A1 & A2 & A3 & A4 & A5) (B0 & B1 & B2 & B3 & B4 & B5).
  split; [done |]. do 4 (split; [congruence |]). intros q v (v1 & H1 & E1)%A5. destruct (B5 q v1 H1) as (v2 & H2 & E2).
  exists v2. split; [done | congruence].
Qed.

Lemma remarked_value t t' q e : remarked t t' -> value t q e -> value t' q e.
Proof. intros (_ & _ & _ & HE & _ & Hv). apply (value_app t t' []); [by rewrite app_nil_r | auto]. Qed.

Lemma remarked_hashed t t' e q : remarked t t' -> hashed t' e q <-> hashed t e q.
Proof. intros (_ & _ & _ & HE & _). by apply hashed_same. Qed.

Lemma remarked_in_tab t t' q : remarked t t' -> in_tab t' q <-> in_tab t q.
Proof. intros (_ & _ & _ & _ & Hl & _). unfold in_tab. by rewrite Hl. Qed.

Lemma set_stack_remarked t q b : tinv t -> in_tab t q -> exists t', set_stack t q b = Ok t' /\ remarked t t' /\
  (exists v, aget (EquTab t') q = Ok v /\ OnStack v = b) /\
  forall x v, x <> q -> aget (EquTab t') x = Ok v <-> aget (EquTab t) x = Ok v.
Proof.
  intros Ht Hq. destruct (aget_some _ _ Hq) as [v Hv]. destruct (t_equ t Ht q v Hv) as [_ Hval].
  rewrite (set_stack_ok t q b v Hv). eexists. split; [done |]. split; [| split].
  - split; [| cbn; do 3 (split; [done |]); split; [by rewrite zlen_insert |]].
    + apply tinv_equ; [done |]. apply (equ_ok_insert t q v); cbn; [done .. | lia].
    + intros x u Hu. destruct (decide (q = x)) as [<-|Hne].
      * rewrite aget_insert by done. eexists. split; [done |]. cbn. congruence.
      * rewrite aget_insert_ne by (unfold in_tab in Hq; lia). by exists u.
  - cbn. rewrite aget_insert by done. by eexists.
  - intros x u Hne. cbn. by rewrite aget_insert_ne by (unfold in_tab in Hq; (lia || done)).
Qed.

(** The stack of classes, and the marks of its members. *)
Definition stack_ok (t : tables) (xs : list Z) : Prop :=
  NoDup xs /\ Forall (in_tab t) xs /\ forall q v, aget (EquTab t) q = Ok v -> (OnStack v = true <-> q ∈ xs).

Lemma PushQ_ok t xs q : tinv t -> stack_ok t xs -> in_tab t q -> exists t' xs', PushQ q (t, xs) = Ok (t', xs') /\
  remarked t t' /\ stack_ok t' xs' /\ (xs' = xs \/ xs' = xs ++ [q]) /\ q ∈ xs'.
Proof.
  intros Ht (Hd & Hf & Hm) Hq. destruct (aget_some _ _ Hq) as [v Hv]. unfold PushQ. rewrite Hv. res_cbn.
  destruct (OnStack v) eqn:Ev.
  - exists t, xs. split; [done |]. split; [by apply remarked_refl |]. split; [by split |]. split; [by left |]. by apply (Hm q v).
  - destruct (set_stack_remarked t q true Ht Hq) as (t' & -> & Hr & (v' & Hv' & Ev') & Ho). res_cbn.
    exists t', (xs ++ [q]). split; [done |]. split; [done |].
    assert (q ∉ xs) as Hnx by (intros Hx; apply (Hm q v Hv) in Hx; congruence).
    split; [split; [| split] | split; [by right |]].
    + apply list.NoDup_app. split; [done |]. split; [| by apply NoDup_singleton]. intros x Hx ->%list_elem_of_singleton. done.
    + apply list.Forall_app. split; [| constructor; [by apply (remarked_in_tab t) | constructor]].
      apply (list.Forall_impl _ _ _ Hf). intros x. by apply (remarked_in_tab t).
    + intros x u Hu. rewrite elem_of_app, list_elem_of_singleton. destruct (decide (x = q)) as [->|Hne].
      * assert (u = v') as -> by congruence. split; [by right | done].
      * apply Ho in Hu; [| done]. rewrite (Hm x u Hu). tauto.
    + apply elem_of_app. right. by apply list_elem_of_singleton.
Qed.

Lemma push_list_ok l t xs : tinv t -> stack_ok t xs -> Forall (in_tab t) l -> exists t' ys, push_list l (t, xs) = Ok (t', xs ++ ys) /\
  remarked t t' /\ stack_ok t' (xs ++ ys) /\ (forall q, q ∈ ys -> q ∈ l) /\ (forall q, q ∈ l -> q ∈ xs ++ ys).
Proof.
  revert t xs. induction l as [|q l IH]; intros t xs Ht Hs Hl.
  - exists t, []. rewrite app_nil_r. split; [done |]. split; [by apply remarked_refl |]. split; [done |].
    split; intros x H; by apply not_elem_of_nil in H.
  - apply List.Forall_cons_iff in Hl as [Hq Hl]. destruct (PushQ_ok t xs q Ht Hs Hq) as (t1 & xs1 & E1 & R1 & S1 & D1 & M1).
    destruct (IH t1 xs1) as (t2 & ys & E2 & R2 & S2 & I2 & M2); [by destruct R1 | done | |].
    { apply (list.Forall_impl _ _ _ Hl). intros x. by apply (remarked_in_tab t). }
    cbn [push_list]. rewrite E1. res_cbn. destruct D1 as [->| ->].
    + exists t2, ys. split; [done |]. split; [by eapply remarked_trans |]. split; [done |].
      split; [intros x Hx; right; by apply I2 |]. intros x [->|Hx]%elem_of_cons; [apply elem_of_app; by left | by apply M2].
    + exists t2, (q :: ys). rewrite <- app_assoc in E2, S2, M2. cbn [app] in E2, S2, M2. split; [done |]. split; [by eapply remarked_trans |].
      split; [done |]. split; [intros x [->|Hx]%elem_of_cons; [by left | right; by apply I2] |].
      intros x [->|Hx]%elem_of_cons; [apply elem_of_app; right; by left | by apply M2].
Qed.

(** The stack is emptied. *)
Lemma pop_loop p t xs : tinv t -> stack_ok t xs -> zlen xs < Zpos p -> exists t', loop pop_round p (t, xs) = Ok t' /\
  remarked t t' /\ stack_ok t' [].
Proof.
  intros Ht Hs Hp. destruct (loop_indexed pop_round (fun n st => n = zlen st.2 /\ remarked t st.1 /\ stack_ok st.1 st.2)
    (fun t' => remarked t t' /\ stack_ok t' [])) with (p := p) (n := zlen xs) (s := (t, xs)) as (t' & E & H); [| | done | by exists t'].
  - intros n [u ys] (-> & Hr & Hd & Hf & Hm). cbn [fst snd] in *. split; [apply zlen_nonneg |]. unfold pop_round. cbn [snd fst].
    destruct ys as [|y ys _] using rev_ind; [right; by exists u |]. left. rewrite zlen_snoc. pose proof (zlen_nonneg ys).
    rewrite (proj2 (Z.ltb_lt _ _)) by lia. unfold PopQ. rewrite zlen_snoc. replace (zlen ys + 1 - 1) with (zlen ys) by lia.
    rewrite aget_new. res_cbn. apply list.Forall_app in Hf as [Hf Hy]. apply List.Forall_cons_iff in Hy as [Hy _].
    destruct (set_stack_remarked u y false) as (u' & -> & R & (v & Hv & Ev) & Ho); [by destruct Hr | done |]. res_cbn.
    rewrite length_app. cbn [length]. replace (length ys + 1 - 1)%nat with (length ys) by lia. rewrite take_app_length.
    eexists _, (zlen ys). split; [done |]. split; [| lia]. split; [done |]. split; [by eapply remarked_trans |].
    apply list.NoDup_app in Hd as (Hd & Hny & _). split; [done |]. split.
    + apply (list.Forall_impl _ _ _ Hf). intros x. by apply (remarked_in_tab u).
    + cbn [fst]. intros x w Hw. destruct (decide (x = y)) as [->|Hne].
      * assert (w = v) as -> by congruence. rewrite Ev. split; [done |]. intros Hx. exfalso. apply (Hny y Hx). by left.
      * apply Ho in Hw; [| done]. rewrite (Hm x w Hw), elem_of_app, list_elem_of_singleton. tauto.
  - split; [done |]. split; [by apply remarked_refl | done].
Qed.

(** ** The round *)
Definition buf_ok (t : tables) (buf : list item) : Prop :=
  forall p Q, 0 <= p < zlen (Symbols t) -> exists b, AddBuf (Symbols t) p Q buf = Ok b.

Lemma value_Ok t q E : value_exp t q = Ok E -> value t q (body E).
Proof. intros H. by exists E. Qed.

Lemma value_exp_ok t q : tinv t -> in_tab t q -> exists E, value_exp t q = Ok E /\ value t q (body E) /\ valid t (body E).
Proof.
  intros Ht Hq. destruct (value_total t q Ht Hq) as (e & E & HE & <-). exists E. split; [done |]. split; [by apply value_Ok |].
  by apply (value_valid t q _ Ht), value_Ok.
Qed.

Lemma valid1 t a : in_tab t a -> Forall (in_tab t) [a].
Proof. intros H. constructor; [done | constructor]. Qed.

Lemma valid2 t a b : in_tab t a -> in_tab t b -> Forall (in_tab t) [a; b].
Proof. intros H1 H2. constructor; [done | by apply valid1]. Qed.

Section Round.
Context (left_first : bool) (q : Z) (w : walk).
Abbreviation t := (wtab w).
Hypothesis (Ht : tinv t) (Hq : in_tab t q) (Hb : buf_ok t (IBuf w)) (Hs : stack_ok t (XStack w)).

(** [MakeExp(-1, e)], then [MakeExp(q, e' c)]. *)
Lemma again_ok e (e' : Z -> expr) : valid t e -> (forall t1 c, new1 t e c t1 -> valid t1 (e' c)) ->
  exists c t1 t2, new1 t e c t1 /\ at1 t1 q (e' c) t2 /\
    again w (r ← MakeExp t (-1) e; MakeExp r.1 q (e' r.2)) = Ok (inl (with_tables w t2)).
Proof.
  intros Hv He'. destruct (MakeExp_new1 t e Ht Hv) as (t1 & c & E1 & N1). pose proof N1 as (Ht1 & _).
  destruct (MakeExp_at1 t1 q (e' c) Ht1 (He' t1 c N1)) as (t2 & r & E2 & A2); [by apply (new1_in_tab_old t e c t1 N1) |].
  exists c, t1, t2. split; [done |]. split; [done |]. unfold again. rewrite E1. res_cbn. cbn [fst snd]. rewrite E2. by res_cbn.
Qed.

Lemma again2_ok e1 e2 (e' : Z -> Z -> expr) : valid t e1 -> valid t e2 ->
  (forall t1 c d, new2 t e1 c e2 d t1 -> valid t1 (e' c d)) ->
  exists c d t1 t2, new2 t e1 c e2 d t1 /\ at1 t1 q (e' c d) t2 /\
    again w (r ← both left_first (fun t => MakeExp t (-1) e1) (fun t => MakeExp t (-1) e2) t; MakeExp r.1.1 q (e' r.1.2 r.2)) =
    Ok (inl (with_tables w t2)).
Proof.
  intros H1 H2 He'. destruct (both_ok left_first t e1 e2 Ht H1 H2) as (t1 & c & d & E1 & Ht1 & N1).
  destruct (MakeExp_at1 t1 q (e' c d) Ht1 (He' t1 c d N1)) as (t2 & r & E2 & A2); [by apply (new2_in_tab_old t e1 c e2 d t1 N1) |].
  exists c, d, t1, t2. split; [done |]. split; [done |]. unfold again. rewrite E1. res_cbn. cbn [fst snd]. rewrite E2. by res_cbn.
Qed.

Lemma evaluate_round_ok :
  (exists t', evaluate_round left_first q w = Ok (inl (with_tables w t')) /\ tinv t' /\ rewrites q t t') \/
  (exists w', evaluate_round left_first q w = Ok (inr w') /\ ends q w w').
Proof.
  destruct (value_exp_ok t q Ht Hq) as (E & HE & Hv & Hve). unfold evaluate_round. rewrite HE. res_cbn.
  destruct (body E) as [p| | |x y|a b|a|a|a] eqn:Eb; cbn in Hve.
  - right. destruct (MakeExp_new1 t OneX Ht) as (t1 & o & E1 & N1); [constructor |]. rewrite E1. res_cbn. cbn [fst snd].
    unfold shift_item. cbn. rewrite (new1_syms t OneX o t1 N1). destruct (Hb p o Hve) as [bf Hbf]. rewrite Hbf. res_cbn.
    eexists. split; [done |]. apply (end_sym q w p o); [done | done | by rewrite (new1_syms t OneX o t1 N1)].
  - right. eexists. split; [done |]. by apply end_zero.
  - right. eexists. split; [done |]. by apply end_one.
  - apply List.Forall_cons_iff in Hve as [Hx Hy]. apply List.Forall_cons_iff in Hy as [Hy _].
    destruct (value_exp_ok t x Ht Hx) as (E1 & HE1 & Hv1 & Hve1). rewrite HE1. res_cbn.
    destruct (body E1) as [p| | |a b|a b|a|a|a] eqn:Eb1; cbn in Hve1;
      try (apply List.Forall_cons_iff in Hve1 as [Ha Hb1]); try (apply List.Forall_cons_iff in Hb1 as [Hb1 _]).
    + right. unfold shift_item. destruct (Hb p y Hve1) as [bf Hbf]. rewrite Hbf. res_cbn. eexists. split; [done |].
      by apply (end_and_sym q w x y p).
    + right. destruct (MakeExp_at1 t q ZeroX Ht) as (t1 & r & E2 & A2); [constructor | done |]. rewrite E2. res_cbn.
      eexists. split; [done |]. by apply (end_and_zero q w x y).
    + left. destruct (copy_right_ok t q y Ht Hq Hy) as (v' & t' & E2 & E3 & C). rewrite E2. res_cbn. rewrite E3. res_cbn.
      exists t'. split; [done |]. split; [by destruct C |]. by apply (rw_one q t x y).
    + left. destruct (again_ok (AndX b y) (fun c => AndX a c)) as (c & t1 & t2 & N & A & ->); [by apply valid2 | |].
      { intros t1 c N. apply valid2; [by apply (new1_in_tab_old _ _ _ _ N) | by apply (new1_in_tab _ _ _ _ N)]. }
      exists t2. split; [done |]. split; [by destruct A |]. by apply (rw_and_and q t x y a b c t1).
    + left. destruct (again2_ok (AndX a y) (AndX b y) (fun c d => OrX c d)) as (c & d & t1 & t2 & N & A & ->); [by apply valid2 .. | |].
      { intros t1 c d N. destruct (new2_hashed _ _ _ _ _ _ N) as [H1 H2].
        assert (tinv t1) as Ht1 by (by destruct N as (? & [[_ [? _]]|[_ [? _]]])).
        apply valid2; [by apply (hashed_valid t1 _ _ Ht1 H1) | by apply (hashed_valid t1 _ _ Ht1 H2)]. }
      exists t2. split; [done |]. split; [by destruct A |]. by apply (rw_and_or q t x y a b c d t1).
    + left. destruct (again_ok (AndX a q) (fun c => OrX y c)) as (c & t1 & t2 & N & A & ->); [by apply valid2 | |].
      { intros t1 c N. apply valid2; [by apply (new1_in_tab_old _ _ _ _ N) | by apply (new1_in_tab _ _ _ _ N)]. }
      exists t2. split; [done |]. split; [by destruct A |]. by apply (rw_and_star q t x y a c t1).
    + left. destruct (again_ok (OrX y q) (fun c => AndX a c)) as (c & t1 & t2 & N & A & ->); [by apply valid2 | |].
      { intros t1 c N. apply valid2; [by apply (new1_in_tab_old _ _ _ _ N) | by apply (new1_in_tab _ _ _ _ N)]. }
      exists t2. split; [done |]. split; [by destruct A |]. by apply (rw_and_plus q t x y a c t1).
    + left. destruct (again_ok (AndX a y) (fun c => OrX y c)) as (c & t1 & t2 & N & A & ->); [by apply valid2 | |].
      { intros t1 c N. apply valid2; [by apply (new1_in_tab_old _ _ _ _ N) | by apply (new1_in_tab _ _ _ _ N)]. }
      exists t2. split; [done |]. split; [by destruct A |]. by apply (rw_and_opt q t x y a c t1).
  - right. apply List.Forall_cons_iff in Hve as [Ha Hb']. apply List.Forall_cons_iff in Hb' as [Hb' _].
    destruct (PushQ_ok t (XStack w) a Ht Hs Ha) as (t1 & xs1 & E1 & R1 & S1 & _).
    destruct (PushQ_ok t1 xs1 b) as (t2 & xs2 & E2 & R2 & S2 & _); [by destruct R1 | done | by apply (remarked_in_tab t) |].
    rewrite E1. res_cbn. rewrite E2. res_cbn. eexists. split; [done |]. by apply (end_or q w a b (t1, xs1) (t2, xs2)).
  - left. apply List.Forall_cons_iff in Hve as [Ha _].
    destruct (again2_ok OneX (PlusX a) (fun c d => OrX c d)) as (o & p & t1 & t2 & N & A & ->); [constructor | by apply valid1 | |].
    { intros t1 c d N. destruct (new2_hashed _ _ _ _ _ _ N) as [H1 H2].
      assert (tinv t1) as Ht1 by (by destruct N as (? & [[_ [? _]]|[_ [? _]]])).
      apply valid2; [by apply (hashed_valid t1 _ _ Ht1 H1) | by apply (hashed_valid t1 _ _ Ht1 H2)]. }
    exists t2. split; [done |]. split; [by destruct A |]. by apply (rw_star q t a o p t1).
  - left. apply List.Forall_cons_iff in Hve as [Ha _].
    destruct (again_ok (StarX a) (fun c => AndX a c)) as (c & t1 & t2 & N & A & ->); [by apply valid1 | |].
    { intros t1 c N. apply valid2; [by apply (new1_in_tab_old _ _ _ _ N) | by apply (new1_in_tab _ _ _ _ N)]. }
    exists t2. split; [done |]. split; [by destruct A |]. by apply (rw_plus q t a c t1).
  - left. apply List.Forall_cons_iff in Hve as [Ha _].
    destruct (again_ok OneX (fun c => OrX c a)) as (c & t1 & t2 & N & A & ->); [constructor | |].
    { intros t1 c N. apply valid2; [by apply (new1_in_tab _ _ _ _ N) | by apply (new1_in_tab_old _ _ _ _ N)]. }
    exists t2. split; [done |]. split; [by destruct A |]. by apply (rw_opt q t a c t1).
Qed.
End Round.
