(* ===== verification/RegexSem.v ===== *)
(** * Interpretations of the classes that evaluation respects

    An interpretation gives a value in some algebra to every class, such that the
    expressions entered for a class, and its present value, evaluate to it.  The
    laws of [alg_laws] are what the rewriting of regex2dfa.c assumes; under them every
    interpretation survives it ([rewrites_interp]).  The weighted languages are one
    algebra ([langs_alg]); the measures of the termination proof are another. *)

From Stdlib Require Import ZArith Lia.
From stdpp Require Import base tactics option list numbers.
From S2P Require Import Prelude RegexLang Regex2dfa RegexTables RegexEval.

Open Scope Z_scope.

Record algebra := mkAlgebra {
  car :> Type;
  aeq : car -> car -> Prop;
  good : car -> Prop;
  asym : list Z -> car;
  azero : car;
  aone : car;
  aand : car -> car -> car;
  aor : car -> car -> car;
  astar : car -> car;
  aplus : car -> car;
  aopt : car -> car
}.

Class alg_laws (A : algebra) : Prop := mkLaws {
  law_equiv :: Equivalence (aeq A);
  law_and_proper :: Proper (aeq A ==> aeq A ==> aeq A) (aand A);
  law_or_proper :: Proper (aeq A ==> aeq A ==> aeq A) (aor A);
  law_opt_proper :: Proper (aeq A ==> aeq A) (aopt A);
  law_plus_proper :: Proper (aeq A ==> aeq A) (aplus A);
  law_star_proper :: Proper (aeq A ==> aeq A) (astar A);
  law_opt x : aeq A (aopt A x) (aor A (aone A) x);
  law_plus x : aeq A (aplus A x) (aand A x (astar A x));
  law_star x : aeq A (astar A x) (aor A (aone A) (aplus A x));
  law_one y : good A y -> aeq A (aand A (aone A) y) y;
  law_and_opt x y : good A y -> aeq A (aand A (aopt A x) y) (aor A y (aand A x y));
  law_and_plus x y : good A y -> aeq A (aand A (aplus A x) y) (aand A x (aor A y (aand A (aplus A x) y)));
  law_and_star x y : good A y -> aeq A (aand A (astar A x) y) (aor A y (aand A x (aand A (astar A x) y)));
  law_and_or x1 x2 y : aeq A (aand A (aor A x1 x2) y) (aor A (aand A x1 y) (aand A x2 y));
  law_and_and x1 x2 y : aeq A (aand A (aand A x1 x2) y) (aand A x1 (aand A x2 y));
  good_sym s : good A (asym A s);
  good_zero : good A (azero A);
  good_one : good A (aone A);
  good_and x y : good A x -> good A y -> good A (aand A x y);
  good_or x y : good A x -> good A y -> good A (aor A x y);
  good_opt x : good A x -> good A (aopt A x);
  good_plus x : good A x -> good A (aplus A x);
  good_star x : good A x -> good A (astar A x)
}.

Section Interp.
Context {A : algebra} {HA : alg_laws A}.
#[local] Infix "≈" := (aeq A) (at level 70).

Definition aden (t : tables) (f : Z -> A) (e : expr) : A :=
  match e with
  | SymX p => asym A (nm t p)
  | ZeroX => azero A
  | OneX => aone A
  | AndX a b => aand A (f a) (f b)
  | OrX a b => aor A (f a) (f b)
  | StarX a => astar A (f a)
  | PlusX a => aplus A (f a)
  | OptX a => aopt A (f a)
  end.

Record interp (t : tables) (f : Z -> A) : Prop := mkInterp {
  i_good : forall q, good A (f q);
  i_hashed : forall e q, hashed t e q -> aden t f e ≈ f q;
  i_value : forall q e, value t q e -> aden t f e ≈ f q
}.

Definition extends (t : tables) (f f' : Z -> A) : Prop := forall q, in_tab t q -> f' q = f q.

Lemma aden_good t f e : (forall q, good A (f q)) -> good A (aden t f e).
Proof. intros H. destruct HA. destruct e; cbn; auto. Qed.

Lemma aden_ext t t' f f' e : Symbols t' = Symbols t -> valid t e -> extends t f f' -> aden t' f' e = aden t f e.
Proof.
  intros Hs Hv Hf. assert (forall a, a ∈ args e -> f' a = f a) as H by (intros a Ha; by apply Hf, (valid_args t e)).
  destruct e; cbn in *; rewrite ?(nm_same t t') by done; try done; f_equal; apply H; rewrite ?elem_of_cons; auto.
Qed.

Lemma extends_refl t f : extends t f f.
Proof. by intros q _. Qed.

Lemma extends_trans t1 t2 f1 f2 f3 : (forall q, in_tab t1 q -> in_tab t2 q) -> extends t1 f1 f2 -> extends t2 f2 f3 -> extends t1 f1 f3.
Proof. intros Ht H1 H2 q Hq. rewrite H2, H1; auto. Qed.

(** ** The steps of a round *)
Lemma new1_interp t f e q t' : tinv t -> interp t f -> valid t e -> new1 t e q t' ->
  exists f', interp t' f' /\ extends t f f' /\ f' q ≈ aden t' f' e.
Proof.
  intros Ht [Hg Hh Hv] Hve (Ht' & [[-> Hq]|[_ Hf]]).
  { exists f. split; [done |]. split; [apply extends_refl |]. symmetry. by apply Hh. }
  set (f' := fun x => if decide (x = q) then aden t f e else f x).
  assert (extends t f f') as Hx.
  { intros x Hx. unfold f'. destruct (decide (x = q)) as [->|]; [| done]. destruct Hf as (-> & _). unfold in_tab in Hx. lia. }
  assert (forall e', valid t e' -> aden t' f' e' = aden t f e') as Hd.
  { intros e' He'. apply aden_ext; [by destruct Hf as (_ & -> & _) | done ..]. }
  assert (f' q = aden t f e) as Eq by (unfold f'; by rewrite decide_True).
  exists f'. split; [split | split; [done |]].
  - intros x. unfold f'. destruct (decide (x = q)); [by apply aden_good | done].
  - intros e' q' [Hq|[-> ->]]%(fresh_hashed t e q t' Hf).
    + destruct (hashed_valid t e' q' Ht Hq). rewrite Hd, Hx by done. by apply Hh.
    + by rewrite Hd, Eq.
  - intros q' e' [Hq|[-> ->]]%(fresh_value t e q t' Ht Hf).
    + destruct (value_valid t q' e' Ht Hq) as (? & ? & _). rewrite Hd, Hx by done. by apply Hv.
    + by rewrite Hd, Eq.
  - by rewrite Eq, Hd.
Qed.

Lemma new2_interp t f e1 q1 e2 q2 t' : tinv t -> interp t f -> valid t e1 -> valid t e2 -> new2 t e1 q1 e2 q2 t' ->
  exists f', interp t' f' /\ extends t f f' /\ f' q1 ≈ aden t' f' e1 /\ f' q2 ≈ aden t' f' e2.
Proof.
  intros Ht Hi V1 V2 Hn.
  assert (forall e1 q1 e2 q2 t1, valid t e1 -> valid t e2 -> new1 t e1 q1 t1 -> new1 t1 e2 q2 t' ->
    exists f', interp t' f' /\ extends t f f' /\ f' q1 ≈ aden t' f' e1 /\ f' q2 ≈ aden t' f' e2) as H.
  { clear e1 q1 e2 q2 V1 V2 Hn. intros e1 q1 e2 q2 t1 V1 V2 N1 N2. pose proof N1 as (Ht1 & _).
    destruct (new1_interp t f e1 q1 t1 Ht Hi V1 N1) as (f1 & I1 & X1 & Q1).
    destruct (new1_interp t1 f1 e2 q2 t' Ht1 I1) as (f2 & I2 & X2 & Q2); [by apply (new1_valid t e1 q1) | done |].
    exists f2. split; [done |]. split; [eapply extends_trans; [apply (new1_in_tab_old t e1 q1 t1 N1) | done ..] |].
    split; [| done]. rewrite (X2 q1) by (by apply (new1_in_tab t e1 q1 t1)). rewrite Q1. symmetry.
    erewrite (aden_ext t1 t' f1 f2 e1); [done | by apply (new1_syms t1 e2 q2) | by apply (new1_valid t e1 q1) | done]. }
  destruct Hn as (t1 & [[N1 N2]|[N1 N2]]); [by apply (H e1 q1 e2 q2 t1) |].
  destruct (H e2 q2 e1 q1 t1 V2 V1 N1 N2) as (f' & ? & ? & ? & ?). by exists f'.
Qed.

Lemma at1_interp t f q e t' : tinv t -> in_tab t q -> interp t f -> aden t f e ≈ f q -> at1 t q e t' -> interp t' f.
Proof.
  intros Ht Hq [Hg Hh Hv] He Ha.
  assert (forall e', aden t' f e' = aden t f e') as Hd.
  { intros e'. destruct e' as [p| | |a b|a b|a|a|a]; try done. cbn. by rewrite (nm_same t t') by (by apply (at1_syms t q e)). }
  split; [done | |]; setoid_rewrite Hd.
  - intros e' q' [H|[-> ->]]%(at1_hashed t q e t' Ha); [by apply Hh | done].
  - intros q' e' [H|[-> ->]]%(at1_value t q e t' Ht Hq Ha); [by apply Hv | done].
Qed.

Lemma copied_interp t f q y t' : tinv t -> interp t f -> f q ≈ f y -> copied t q y t' -> interp t' f.
Proof.
  intros Ht [Hg Hh Hv] He Hc. pose proof Hc as (Ht' & HS & _).
  assert (forall e', aden t' f e' = aden t f e') as Hd.
  { intros e'. destruct e' as [p| | |a b|a b|a|a|a]; try done. cbn. by rewrite (nm_same t t'). }
  split; [done | |]; setoid_rewrite Hd.
  - intros e' q' H%(copied_hashed t q y t' Hc). by apply Hh.
  - intros q' e' H. destruct (decide (q' = q)) as [->|Hne].
    + destruct (copied_y t q y t' Hc) as [_ Hy]. destruct (value_total t y Ht Hy) as [e0 He0].
      rewrite (value_fun t' q e' e0 H) by (by apply (copied_value_new t q y)). rewrite He. by apply Hv.
    + pose proof (value_in_tab t' q' e' H) as Hq'%(copied_in_tab t q y t' Hc).
      destruct (value_total t q' Ht Hq') as [e0 He0].
      rewrite (value_fun t' q' e' e0 H) by (by apply (copied_value_old t q y)). by apply Hv.
Qed.

(** ** The rewriting *)
Lemma new1_at1_interp t f q e c e' t1 t2 : tinv t -> in_tab t q -> interp t f -> valid t e -> new1 t e c t1 -> at1 t1 q e' t2 ->
  (forall f', extends t f f' -> f' c ≈ aden t f e -> aden t1 f' e' ≈ f q) ->
  exists f', interp t2 f' /\ extends t f f'.
Proof.
  intros Ht Hq Hi Hv N A1 He. destruct (new1_interp t f e c t1 Ht Hi Hv N) as (f' & I' & X & Q). pose proof N as (Ht1 & _).
  rewrite (aden_ext t t1 f f' e) in Q by (first [by apply (new1_syms t e c) | done]).
  exists f'. split; [| done]. apply (at1_interp t1 f' q e'); [done | by apply (new1_in_tab_old t e c t1 N) | done | | done].
  rewrite (X q Hq). by apply He.
Qed.

Lemma new2_at1_interp t f q e1 e2 c d e' t1 t2 : tinv t -> in_tab t q -> interp t f -> valid t e1 -> valid t e2 ->
  new2 t e1 c e2 d t1 -> at1 t1 q e' t2 ->
  (forall f', extends t f f' -> f' c ≈ aden t f e1 -> f' d ≈ aden t f e2 -> aden t1 f' e' ≈ f q) ->
  exists f', interp t2 f' /\ extends t f f'.
Proof.
  intros Ht Hq Hi V1 V2 N A1 He. destruct (new2_interp t f e1 c e2 d t1 Ht Hi V1 V2 N) as (f' & I' & X & Q1 & Q2).
  assert (tinv t1 /\ Symbols t1 = Symbols t) as [Ht1 Hs].
  { destruct N as (t0 & [[(? & N1) (? & N2)]|[(? & N1) (? & N2)]]); (split; [done |]);
      (erewrite new1_syms by (by split)); (by erewrite new1_syms by (by split)). }
  rewrite (aden_ext t t1 f f' e1) in Q1 by done. rewrite (aden_ext t t1 f f' e2) in Q2 by done.
  exists f'. split; [| done]. apply (at1_interp t1 f' q e'); [done | by apply (new2_in_tab_old t e1 c e2 d t1 N) | done | | done].
  rewrite (X q Hq). by apply He.
Qed.

Theorem rewrites_interp q t t' f : tinv t -> rewrites q t t' -> interp t f -> exists f', interp t' f' /\ extends t f f'.
Proof.
  intros Ht Hr Hi. pose proof Hi as [Hg Hh Hval].
  assert (forall x e, value t x e -> in_tab t x /\ Forall (in_tab t) (args e) /\ f x ≈ aden t f e) as V.
  { intros x e Hx. destruct (value_valid t x e Ht Hx) as (H1 & H2 & _). split; [done |].
    split; [destruct e; cbn in *; (exact H2 || constructor) | symmetry; by apply Hval]. }
  destruct Hr as [a o t1 t2 V1 N1 A1|a s t1 t2 V1 N1 A1|a o p t1 t2 V1 N1 A1|x y t2 V1 V2 C|x y a c t1 t2 V1 V2 N1 A1
                 |x y a c t1 t2 V1 V2 N1 A1|x y a c t1 t2 V1 V2 N1 A1|x y a b c d t1 t2 V1 V2 N1 A1|x y a b c t1 t2 V1 V2 N1 A1];
    apply V in V1 as (Tq & Tx & E1);
    try (apply V in V2 as (_ & Ta & E2)); cbn [args aden] in *;
    repeat match goal with
    | H : Forall _ (_ :: _) |- _ => apply List.Forall_cons_iff in H as [? H]
    | H : Forall _ [] |- _ => clear H
    end.
  - eapply (new1_at1_interp t f q); [done .. | | exact N1 | exact A1 |]; [constructor |].
    intros f' X Q. cbn in *. rewrite Q, (X a) by done. rewrite E1. symmetry. apply law_opt.
  - eapply (new1_at1_interp t f q); [done .. | | exact N1 | exact A1 |]; [by apply valid1 |].
    intros f' X Q. cbn in *. rewrite Q, (X a) by done. rewrite E1. symmetry. apply law_plus.
  - eapply (new2_at1_interp t f q); [done .. | | | exact N1 | exact A1 |]; [constructor | by apply valid1 |].
    intros f' X Q1 Q2. cbn in *. rewrite Q1, Q2, E1. symmetry. apply law_star.
  - exists f. split; [| apply extends_refl]. apply (copied_interp t f q y); [done .. | | done]. rewrite E1, E2. by apply law_one.
  - eapply (new1_at1_interp t f q); [done .. | | exact N1 | exact A1 |]; [by apply valid2 |].
    intros f' X Q. cbn in *. rewrite Q, (X y) by done. rewrite E1, E2. symmetry. by apply law_and_opt.
  - eapply (new1_at1_interp t f q); [done .. | | exact N1 | exact A1 |]; [by apply valid2 |].
    intros f' X Q. cbn in *. rewrite Q, (X a) by done. rewrite E1, E2. symmetry. by apply law_and_plus.
  - eapply (new1_at1_interp t f q); [done .. | | exact N1 | exact A1 |]; [by apply valid2 |].
    intros f' X Q. cbn in *. rewrite Q, (X y) by done. rewrite E1, E2. symmetry. by apply law_and_star.
  - eapply (new2_at1_interp t f q); [done .. | | | exact N1 | exact A1 |]; [by apply valid2 .. |].
    intros f' X Q1 Q2. cbn in *. rewrite Q1, Q2, E1, E2. symmetry. apply law_and_or.
  - eapply (new1_at1_interp t f q); [done .. | | exact N1 | exact A1 |]; [by apply valid2 |].
    intros f' X Q. cbn in *. rewrite Q, (X a) by done. rewrite E1, E2. symmetry. apply law_and_and.
Qed.
End Interp.

(** ** The weighted languages *)
Definition langs_alg : algebra :=
  mkAlgebra (wlang (list Z)) weq up wsym wzero wone wand wor wstar wplus wopt.

#[export] Instance langs_laws : alg_laws langs_alg.
Proof.
  split; cbn; first [exact weq_equiv | exact wand_proper | exact wor_proper | exact wopt_proper | exact wplus_proper | exact wstar_proper
    | exact wplus_unfold | exact wand_one | exact wand_opt | exact wand_plus | exact wand_star | exact wand_or | exact wand_and
    | exact up_sym | exact up_zero | exact up_one | (intros x y Hx _; exact (up_and x y Hx)) | exact up_or | exact up_opt | exact up_plus
    | exact up_star | (intros x; reflexivity)].
Qed.

Lemma aden_langs t (W : langs) e : aden (A:=langs_alg) t W e = den t W e.
Proof. by destruct e. Qed.

Lemma sem_interp t W : sem t W <-> interp (A:=langs_alg) t W.
Proof. split; intros [H1 H2 H3]; (split; [done | |]); intros e q H; [apply (H2 e q H) | apply (H3 e q H) | apply (H2 e q H) | apply (H3 e q H)]. Qed.
