(* ===== verification/RegexBuf.v ===== *)
(** * The items of a state: [AddBuf] of regex2dfa.c

    The buffer is sorted by the names of the symbols and has one item for a
    symbol; the classes of an item are sorted.  [AddBuf_ok]: the class is among those
    of the symbol, nothing else changes. *)

From Stdlib Require Import ZArith Lia.
From stdpp Require Import base tactics option list numbers sorting.
From S2P Require Import Prelude RegexLang Regex2dfa RegexTables RegexSymbols.

Open Scope Z_scope.

(** ** The order of names *)
Lemma strcmp_cases s t : strcmp s t = -1 \/ strcmp s t = 0 \/ strcmp s t = 1.
Proof.
  revert t. induction s as [|x s IH]; intros [|y t]; cbn; auto.
  destruct (Z.ltb_spec x y); [by left |]. destruct (Z.ltb_spec y x); auto.
Qed.

Lemma strcmp_opp s t : strcmp t s = - strcmp s t.
Proof.
  revert t. induction s as [|x s IH]; intros [|y t]; cbn; try done.
  destruct (Z.ltb_spec x y), (Z.ltb_spec y x); try done; lia.
Qed.

Lemma strcmp_trans s t u : strcmp s t = -1 -> strcmp t u = -1 -> strcmp s u = -1.
Proof.
  revert t u. induction s as [|x s IH]; intros [|y t] [|z u]; cbn; try done.
  destruct (Z.ltb_spec x y), (Z.ltb_spec y x), (Z.ltb_spec y z), (Z.ltb_spec z y), (Z.ltb_spec x z), (Z.ltb_spec z x); try done; try lia.
  apply IH.
Qed.

(** ** Classes of an item *)
Lemma insert_class_elem Q l x : x ∈ insert_class Q l <-> x = Q \/ x ∈ l.
Proof.
  induction l as [|y l IH]; cbn; [by rewrite list_elem_of_singleton, elem_of_nil; tauto |].
  destruct (Z.eqb_spec y Q) as [->|Hne]; [rewrite !elem_of_cons; tauto |].
  destruct (Z.ltb_spec Q y); rewrite !elem_of_cons; [tauto |]. rewrite IH. tauto.
Qed.

Lemma insert_class_sorted Q l : StronglySorted Z.lt l -> StronglySorted Z.lt (insert_class Q l).
Proof.
  induction 1 as [|y l Hl IH Hy]; cbn; [constructor; constructor |].
  destruct (Z.eqb_spec y Q) as [->|Hne]; [by constructor |]. destruct (Z.ltb_spec Q y).
  - constructor; [by constructor |]. constructor; [done |]. eapply list.Forall_impl; [exact Hy |]. cbn. lia.
  - constructor; [done |]. apply list.Forall_forall. intros x [->|Hx]%insert_class_elem; [lia |].
    by apply (proj1 (list.Forall_forall _ _) Hy).
Qed.

(** ** The buffer *)
Section Buffer.
Context (t : tables).

Definition is_sym (p : Z) : Prop := 0 <= p < zlen (Symbols t).

Definition before (a b : item) : Prop := strcmp (nm t (LHS_of a)) (nm t (LHS_of b)) = -1.

Definition item_wf (it : item) : Prop := is_sym (LHS_of it) /\ Forall (in_tab t) (RHS_of it) /\ StronglySorted Z.lt (RHS_of it) /\ RHS_of it <> [].

Record buf_wf (buf : list item) : Prop := mkBufWf {
  b_items : Forall item_wf buf;
  b_sorted : StronglySorted before buf
}.

(** The class [Q] is among those of the symbol named [x]. *)
Definition has_item (buf : list item) (x : list Z) (Q : Z) : Prop :=
  exists it, it ∈ buf /\ nm t (LHS_of it) = x /\ Q ∈ RHS_of it.

Lemma nm_sym p : is_sym p -> exists s, aget (Symbols t) p = Ok s /\ Name s = nm t p.
Proof. intros Hp. destruct (aget_some _ _ Hp) as [s Hs]. exists s. unfold nm. by rewrite Hs. Qed.

(** [AddBuf] as a recursive function. *)
Fixpoint insert_item (p Q : Z) (buf : list item) : list item :=
  match buf with
  | [] => [mkItem p [Q]]
  | it :: rest =>
      let d := strcmp (nm t (LHS_of it)) (nm t p) in
      if d =? 0 then mkItem (LHS_of it) (insert_class Q (RHS_of it)) :: rest
      else if 0 <? d then mkItem p [Q] :: buf
      else it :: insert_item p Q rest
  end.

Lemma AddBuf_insert p Q buf : is_sym p -> Forall item_wf buf -> AddBuf (Symbols t) p Q buf = Ok (insert_item p Q buf).
Proof.
  intros Hp Hb. destruct (nm_sym p Hp) as (sy & Hsy & Hn). unfold AddBuf. rewrite Hsy. res_cbn. rewrite Hn. clear sy Hsy Hn.
  enough (exists i found, find_item (Symbols t) (nm t p) buf = Ok (i, found) /\
    let b := if (found : bool) then buf else insert_at i (mkItem p []) buf in
    exists IP, b !! i = Some IP /\ <[i := mkItem (LHS_of IP) (insert_class Q (RHS_of IP))]> b = insert_item p Q buf) as (i & f & -> & IP & H1 & H2).
  { res_cbn. assert (aget (if f then buf else insert_at i (mkItem p []) buf) (Z.of_nat i) = Ok IP) as H3.
    { apply aget_Ok. split; [lia | by rewrite Nat2Z.id]. }
    rewrite H3. res_cbn. rewrite aset_Ok by (by apply (aget_range _ _ IP)). rewrite Nat2Z.id. by rewrite H2. }
  induction buf as [|it rest IH]; cbn [find_item insert_item].
  { exists 0%nat, false. split; [done |]. cbn. by eexists. }
  apply List.Forall_cons_iff in Hb as [(Hs & _) Hb]. destruct (nm_sym _ Hs) as (s & -> & En). res_cbn. rewrite En.
  destruct (Z.eqb_spec (strcmp (nm t (LHS_of it)) (nm t p)) 0); [exists 0%nat, true; split; [done |]; by eexists |].
  destruct (Z.ltb_spec 0 (strcmp (nm t (LHS_of it)) (nm t p))); [exists 0%nat, false; split; [done |]; by eexists |].
  destruct (IH Hb) as (i & f & -> & IP & H1 & H2). res_cbn. exists (S i), f. split; [done |]. destruct f; exists IP; cbn.
  - split; [exact H1 |]. f_equal. exact H2.
  - split; [exact H1 |]. f_equal. exact H2.
Qed.

Lemma insert_item_has p Q buf x Q' : has_item (insert_item p Q buf) x Q' <-> has_item buf x Q' \/ (x = nm t p /\ Q' = Q).
Proof.
  induction buf as [|it rest IH]; cbn [insert_item].
  - split.
    + intros (it & ->%list_elem_of_singleton & <- & H). cbn in *. apply list_elem_of_singleton in H. by right.
    + intros [(it & []%not_elem_of_nil & _)|[-> ->]]. exists (mkItem p [Q]). split; [by left |]. split; [done | by left].
  - assert (forall it' rest', has_item (it' :: rest') x Q' <-> (nm t (LHS_of it') = x /\ Q' ∈ RHS_of it') \/ has_item rest' x Q') as Hc.
    { intros it' rest'. split.
      - intros (i & [->|Hi]%elem_of_cons & H); [by left | right; by exists i].
      - intros [H|(i & Hi & H)]; [exists it'; split; [by left | done] | exists i; split; [by right | done]]. }
    destruct (Z.eqb_spec (strcmp (nm t (LHS_of it)) (nm t p)) 0) as [E|E].
    { apply strcmp_eq in E. rewrite !Hc. cbn. rewrite insert_class_elem, E. intuition congruence. }
    destruct (Z.ltb_spec 0 (strcmp (nm t (LHS_of it)) (nm t p))).
    { rewrite !Hc. cbn. rewrite list_elem_of_singleton. intuition congruence. }
    rewrite !Hc, IH. tauto.
Qed.

Lemma insert_item_lhs p Q buf it : it ∈ insert_item p Q buf -> nm t (LHS_of it) = nm t p \/ it ∈ buf.
Proof.
  induction buf as [|i rest IH]; cbn [insert_item]; [intros ->%list_elem_of_singleton; by left |].
  destruct (Z.eqb_spec (strcmp (nm t (LHS_of i)) (nm t p)) 0) as [E|E].
  { apply strcmp_eq in E. intros [->|H]%elem_of_cons; [by left | right; by right]. }
  destruct (Z.ltb_spec 0 (strcmp (nm t (LHS_of i)) (nm t p))) as [L|L].
  { intros [->|H]%elem_of_cons; [by left | by right]. }
  intros [->|H]%elem_of_cons; [right; by left |]. destruct (IH H) as [?|?]; [by left | right; by right].
Qed.

Lemma insert_item_wf p Q buf : is_sym p -> in_tab t Q -> buf_wf buf -> buf_wf (insert_item p Q buf).
Proof.
  intros Hp HQ [Hi Hs]. assert (item_wf (mkItem p [Q])) as Hnew.
  { split; [done |]. cbn. split; [constructor; [done | constructor] |]. split; [constructor; constructor | done]. }
  induction buf as [|it rest IH]; cbn [insert_item]; [split; [constructor; [done | constructor] | constructor; constructor] |].
  apply List.Forall_cons_iff in Hi as [Hit Hi]. inversion Hs as [|? ? Hs' Hf]; subst.
  destruct (Z.eqb_spec (strcmp (nm t (LHS_of it)) (nm t p)) 0) as [E|E].
  { split; [constructor; [| done] | by constructor]. destruct Hit as (H1 & H2 & H3 & H4). split; [done |]. cbn. split; [| split].
    - apply list.Forall_forall. intros x [->|Hx]%insert_class_elem; [done |]. by apply (proj1 (list.Forall_forall _ _) H2).
    - by apply insert_class_sorted.
    - intros E'. assert (Q ∈ @nil Z) as []%not_elem_of_nil. rewrite <- E'. apply insert_class_elem. by left. }
  destruct (Z.ltb_spec 0 (strcmp (nm t (LHS_of it)) (nm t p))) as [L|L].
  { assert (before (mkItem p [Q]) it) as Hb.
    { unfold before. cbn. rewrite strcmp_opp. pose proof (strcmp_cases (nm t (LHS_of it)) (nm t p)). lia. }
    split; [constructor; [done | by constructor] |]. constructor; [done |]. constructor; [done |].
    eapply list.Forall_impl; [exact Hf |]. intros i. by apply strcmp_trans. }
  destruct (IH Hi Hs') as [I1 I2]. split; [by constructor |]. constructor; [done |].
  apply list.Forall_forall. intros i [Hn|Hr]%insert_item_lhs.
  - unfold before. rewrite Hn. pose proof (strcmp_cases (nm t (LHS_of it)) (nm t p)). lia.
  - by apply (proj1 (list.Forall_forall _ _) Hf).
Qed.

Lemma AddBuf_ok p Q buf : is_sym p -> in_tab t Q -> buf_wf buf -> exists b, AddBuf (Symbols t) p Q buf = Ok b /\ buf_wf b /\
  forall x Q', has_item b x Q' <-> has_item buf x Q' \/ (x = nm t p /\ Q' = Q).
Proof.
  intros Hp HQ Hb. exists (insert_item p Q buf). split; [by apply AddBuf_insert, b_items |].
  split; [by apply insert_item_wf | by apply insert_item_has].
Qed.
End Buffer.

(** The buffer in tables with more classes. *)
Lemma buf_wf_grows t t' buf : Symbols t' = Symbols t -> (forall q, in_tab t q -> in_tab t' q) -> buf_wf t buf -> buf_wf t' buf.
Proof.
  intros Hs Hq [H1 H2]. split.
  - eapply list.Forall_impl; [exact H1 |]. intros it (Hp & Hr & Hss). split; [unfold is_sym; by rewrite Hs |]. split; [| done].
    eapply list.Forall_impl; [exact Hr | exact Hq].
  - induction H2 as [|it b Hb IH Hf]; [constructor |]. apply List.Forall_cons_iff in H1 as [_ H1]. constructor; [by apply IH |].
    eapply list.Forall_impl; [exact Hf |]. intros i. unfold before. by rewrite !(nm_same t t').
Qed.

Lemma has_item_same t t' buf x Q : Symbols t' = Symbols t -> has_item t' buf x Q <-> has_item t buf x Q.
Proof. intros Hs. unfold has_item. by setoid_rewrite (nm_same t t' _ Hs). Qed.
