(* ===== verification/RegexWalk.v ===== *)
(** * The walk through the alternatives of a state in regex2dfa.c

    For the classes of a state the code collects whether the state accepts the empty
    word, and for every symbol the classes of what may follow.  [walk_inv]: what
    has been collected belongs to the language of the state, and a word of a class that
    has been evaluated is either collected or belongs, with a smaller weight, to
    another class on the stack.  When all classes on the stack have been evaluated,
    the language has been collected ([walk_done]). *)

From Stdlib Require Import ZArith Lia.
From stdpp Require Import base tactics option list numbers sorting.
From S2P Require Import Prelude RegexLang Regex2dfa RegexTables RegexEval RegexSem RegexBuf.

Open Scope Z_scope.

(** ** Tables that have grown, with the same marks *)
Record kept (t t' : tables) : Prop := mkKept {
  k_tinv : tinv t';
  k_syms : Symbols t' = Symbols t;
  k_in_tab : forall q, in_tab t q -> in_tab t' q;
  k_hashed : forall e q, hashed t e q -> hashed t' e q;
  k_marks : forall q v', aget (EquTab t') q = Ok v' ->
    (exists v, aget (EquTab t) q = Ok v /\ OnStack v' = OnStack v) \/ (~ in_tab t q /\ OnStack v' = false)
}.

Lemma kept_refl t : tinv t -> kept t t.
Proof. intros Ht. split; try done. intros q v Hv. left. by exists v. Qed.

Lemma kept_trans t1 t2 t3 : kept t1 t2 -> kept t2 t3 -> kept t1 t3.
Proof.
  intros [A1 A2 A3 A4 A5] [B1 B2 B3 B4 B5]. split; [done | congruence | auto | auto |].
  intros q v3 H3. destruct (B5 q v3 H3) as [(v2 & H2 & E2)|[Hn E]].
  - destruct (A5 q v2 H2) as [(v1 & H1 & E1)|[Hn E]]; [left; exists v1 | right]; (split; [done | congruence]).
  - right. split; [| done]. intros H. by apply Hn, A3.
Qed.

Lemma new1_kept t e q t' : new1 t e q t' -> kept t t'.
Proof.
  intros H. split; [by destruct H | by apply (new1_syms t e q) | apply (new1_in_tab_old t e q t' H) | apply (new1_hashed_old t e q t' H) |].
  intros x v Hv. destruct (new1_stack t e q t' H x v Hv) as [?|(? & ? & ?)]; [by left | by right].
Qed.

Lemma new2_kept t e1 q1 e2 q2 t' : new2 t e1 q1 e2 q2 t' -> kept t t'.
Proof. intros (t1 & [[H1 H2]|[H1 H2]]); (eapply kept_trans; eapply new1_kept; [exact H1 | exact H2]). Qed.

Lemma at1_kept t q e t' : at1 t q e t' -> kept t t'.
Proof.
  intros H. split; [by destruct H | by apply (at1_syms t q e) | intros x; by apply (at1_in_tab t q e t' H) | apply (at1_hashed_old t q e t' H) |].
  intros x v Hv. left. by apply (at1_stack t q e t' H).
Qed.

Lemma copied_kept t q y t' : copied t q y t' -> kept t t'.
Proof.
  intros H. split; [by destruct H | by destruct H as (_ & ? & _) | intros x; by apply (copied_in_tab t q y t' H)
    | intros e x; by apply (copied_hashed t q y t' H) |].
  intros x v Hv. left. by apply (copied_stack t q y t' H).
Qed.

Lemma rewrites_kept q t t' : rewrites q t t' -> kept t t'.
Proof.
  destruct 1; first [by eapply kept_trans; [eapply new1_kept | eapply at1_kept]
                    | by eapply kept_trans; [eapply new2_kept | eapply at1_kept] | by eapply copied_kept].
Qed.

Lemma kept_stack t t' xs : kept t t' -> stack_ok t xs -> stack_ok t' xs.
Proof.
  intros [A1 A2 A3 A4 A5] (Hd & Hf & Hm). split; [done |]. split; [eapply list.Forall_impl; [exact Hf | exact A3] |].
  intros q v' Hv. destruct (A5 q v' Hv) as [(v & H & ->)|[Hn ->]]; [by apply (Hm q v) |].
  split; [done |]. intros Hq. destruct Hn. by apply (proj1 (list.Forall_forall _ _) Hf).
Qed.

(** ** Tables with other marks *)
Lemma remarked_value_iff t t' q e : tinv t -> remarked t t' -> value t' q e <-> value t q e.
Proof.
  intros Ht Hr. split; [| by apply remarked_value]. intros H. pose proof (value_in_tab t' q e H) as Hq%(remarked_in_tab t t' q Hr).
  destruct (value_total t q Ht Hq) as [e0 He0]. by rewrite (value_fun t' q e e0 H (remarked_value t t' q e0 Hr He0)).
Qed.

Lemma remarked_interp {A : algebra} t t' (f : Z -> A) : tinv t -> remarked t t' -> interp t f -> interp t' f.
Proof.
  intros Ht Hr [Hg Hh Hv]. pose proof Hr as (_ & _ & HS & _).
  assert (forall e, aden t' f e = aden t f e) as Hd by (intros e; destruct e; try done; cbn; by rewrite (nm_same t t')).
  split; [done | |]; setoid_rewrite Hd.
  - intros e q H%(remarked_hashed t t' e q Hr). by apply Hh.
  - intros q e H%(remarked_value_iff t t' q e Ht Hr). by apply Hv.
Qed.

Lemma remarked_sem t t' W : tinv t -> remarked t t' -> sem t W -> sem t' W.
Proof. rewrite !sem_interp. apply remarked_interp. Qed.

Lemma PushQ_in_tab t xs st a : tinv t -> stack_ok t xs -> in_tab t a -> PushQ a (t, xs) = Ok st ->
  remarked t st.1 /\ stack_ok st.1 st.2 /\ (st.2 = xs \/ st.2 = xs ++ [a]) /\ a ∈ st.2.
Proof. intros Ht Hs Ha E. destruct (PushQ_ok t xs a Ht Hs Ha) as (t' & xs' & E' & H). rewrite E' in E. by injection E as <-. Qed.

(** The alternatives are pushed. *)
Lemma push2_ok t xs a b st st' : tinv t -> stack_ok t xs -> in_tab t a -> in_tab t b ->
  PushQ a (t, xs) = Ok st -> PushQ b st = Ok st' ->
  remarked t st'.1 /\ stack_ok st'.1 st'.2 /\ (exists l, st'.2 = xs ++ l /\ forall x, x ∈ l -> x = a \/ x = b) /\ a ∈ st'.2 /\ b ∈ st'.2.
Proof.
  intros Ht Hs Ha Hb E1 E2. destruct (PushQ_in_tab t xs st a Ht Hs Ha E1) as (R1 & S1 & D1 & M1).
  destruct st as [t1 xs1]. cbn in *. destruct (PushQ_in_tab t1 xs1 st' b) as (R2 & S2 & D2 & M2); [by destruct R1 | done | by apply (remarked_in_tab t) | done |].
  split; [by eapply remarked_trans |]. split; [done |]. split; [| split; [| done]].
  - assert (forall y (x : Z), x ∈ [y] -> x = y) as H1 by (intros y x; by rewrite list_elem_of_singleton).
    destruct D1 as [->| ->], D2 as [->| ->].
    + exists []. rewrite app_nil_r. split; [done |]. intros x []%not_elem_of_nil.
    + exists [b]. split; [done |]. intros x ->%H1. by right.
    + exists [a]. split; [done |]. intros x ->%H1. by left.
    + exists ([a] ++ [b]). rewrite app_assoc. split; [done |]. intros x [Hx|Hx]%elem_of_app; [left | right]; by apply H1.
  - destruct D2 as [->| ->]; [done |]. apply elem_of_app. by left.
Qed.

(** ** The invariant *)

(** The words collected. *)
Definition recorded (t : tables) (W : langs) (buf : list item) (emp : bool) (v : list (list Z)) : Prop :=
  match v with
  | [] => emp = true
  | x :: v => exists Q, has_item t buf x Q /\ words (W Q) v
  end.

Section Walk.
(** The tables, the languages and the classes of the state before the walk. *)
Context (t0 : tables) (W0 : langs) (U : list Z).
Hypothesis HU : Forall (in_tab t0) U.

Definition state_lang (v : list (list Z)) : Prop := exists q, q ∈ U /\ words (W0 q) v.

Record walk_inv (w : walk) (X : Z) (W : langs) : Prop := mkWalkInv {
  w_tinv : tinv (wtab w);
  w_sem : sem (wtab w) W;
  w_stack : stack_ok (wtab w) (XStack w);
  w_buf : buf_wf (wtab w) (IBuf w);
  w_X : 0 <= X <= zlen (XStack w);
  w_syms : Symbols (wtab w) = Symbols t0;
  w_in_tab : forall q, in_tab t0 q -> in_tab (wtab w) q;
  w_lang : forall q, in_tab t0 q -> W q = W0 q;
  w_start : forall q, q ∈ U -> q ∈ XStack w;
  w_sound : forall q v, q ∈ XStack w -> words (W q) v -> state_lang v;
  w_recorded : forall v, recorded (wtab w) W (IBuf w) (wEmpty w) v -> state_lang v;
  w_complete : forall i q, aget (XStack w) i = Ok q -> i < X -> forall v n, W q v n ->
    recorded (wtab w) W (IBuf w) (wEmpty w) v \/ exists q' m, q' ∈ XStack w /\ (m < n)%nat /\ W q' v m
}.

Lemma has_item_in_tab t buf x Q : buf_wf t buf -> has_item t buf x Q -> in_tab t Q.
Proof.
  intros [Hi _] (it & Hit & _ & HQ). destruct (proj1 (list.Forall_forall _ _) Hi it Hit) as (_ & H & _).
  by apply (proj1 (list.Forall_forall _ _) H).
Qed.

Lemma recorded_kept t t' W W' buf emp v : Symbols t' = Symbols t -> buf_wf t buf -> (forall q, in_tab t q -> W' q = W q) ->
  recorded t' W' buf emp v <-> recorded t W buf emp v.
Proof.
  intros Hs Hb Hw. destruct v as [|x v]; [done |]. cbn.
  split; intros (Q & H1 & H2).
  - apply (has_item_same t t') in H1; [| done]. exists Q. split; [done |]. by rewrite <- Hw by (by apply (has_item_in_tab t buf x)).
  - exists Q. split; [by apply (has_item_same t t') |]. by rewrite Hw by (by apply (has_item_in_tab t buf x)).
Qed.

(** Tables that grow, with languages that extend the old ones. *)
Lemma walk_inv_kept w X W t' W' : walk_inv w X W -> kept (wtab w) t' -> sem t' W' -> (forall q, in_tab (wtab w) q -> W' q = W q) ->
  walk_inv (with_tables w t') X W'.
Proof.
  intros [H1 H2 H3 H4 H5 H6 H7 H8 H9 H10 H11 H12] Hk Hs Hw. pose proof Hk as [K1 K2 K3 K4 K5].
  assert (forall v, recorded t' W' (IBuf w) (wEmpty w) v <-> recorded (wtab w) W (IBuf w) (wEmpty w) v) as Hr by (intros v; by apply recorded_kept).
  assert (forall q, q ∈ XStack w -> W' q = W q) as Hx by (intros q Hq; apply Hw; by apply (proj1 (list.Forall_forall _ _) (proj1 (proj2 H3)))).
  split; cbn [with_tables wtab XStack IBuf wEmpty]; try done.
  - by apply (kept_stack (wtab w)).
  - by apply (buf_wf_grows (wtab w)).
  - congruence.
  - intros q Hq. by apply K3, H7.
  - intros q Hq. rewrite Hw by auto. auto.
  - intros q v Hq. rewrite Hx by done. eauto.
  - intros v Hv%Hr. auto.
  - intros i q Hq Hi v n. pose proof Hq as [_ Hq']%aget_Ok. apply list_elem_of_lookup_2 in Hq'. rewrite Hx by done. intros Hv.
    destruct (H12 i q Hq Hi v n Hv) as [H|(q' & m & Ha & Hm & Hb)]; [left; by apply Hr | right].
    exists q', m. rewrite Hx by done. done.
Qed.

Lemma walk_inv_rewrites w X W q t' : walk_inv w X W -> rewrites q (wtab w) t' -> exists W', walk_inv (with_tables w t') X W'.
Proof.
  intros Hi Hr. pose proof Hi as [H1 H2 _ _ _ _ _ _ _ _ _ _].
  destruct (rewrites_interp (A:=langs_alg) q (wtab w) t' W H1 Hr) as (W' & Hs & Hx); [by apply sem_interp |].
  exists W'. apply (walk_inv_kept w X W); [done | by apply (rewrites_kept q) | by apply sem_interp | done].
Qed.

(** The class at [X] has been evaluated: what has been collected or pushed covers it. *)
Lemma walk_inv_next w X W w' q : walk_inv w X W -> aget (XStack w) X = Ok q ->
  remarked (wtab w) (wtab w') -> stack_ok (wtab w') (XStack w') -> (exists l, XStack w' = XStack w ++ l) ->
  buf_wf (wtab w') (IBuf w') ->
  (forall x v, x ∈ XStack w' -> words (W x) v -> state_lang v) ->
  (forall v, recorded (wtab w') W (IBuf w') (wEmpty w') v -> state_lang v) ->
  (forall v, recorded (wtab w) W (IBuf w) (wEmpty w) v -> recorded (wtab w') W (IBuf w') (wEmpty w') v) ->
  (forall v n, W q v n -> recorded (wtab w') W (IBuf w') (wEmpty w') v \/ exists q' m, q' ∈ XStack w' /\ (m < n)%nat /\ W q' v m) ->
  walk_inv w' (X + 1) W.
Proof.
  intros [H1 H2 H3 H4 H5 H6 H7 H8 H9 H10 H11 H12] HX Hr Hs [l Hl] Hb Hso Hrs Hmono Hq.
  pose proof (aget_range _ _ _ HX) as HXr. pose proof (zlen_nonneg l) as Hzl.
  split; try done.
  - by destruct Hr.
  - by apply (remarked_sem (wtab w)).
  - rewrite Hl, zlen_app. lia.
  - destruct Hr as (_ & _ & -> & _). done.
  - intros x Hx. by apply (remarked_in_tab (wtab w)), H7.
  - intros x Hx. rewrite Hl. apply elem_of_app. left. by apply H9.
  - intros i x Hx Hi. destruct (decide (i = X)) as [->|Hne].
    + rewrite Hl, (aget_app _ l X q HX) in Hx. injection Hx as <-. exact Hq.
    + assert (aget (XStack w) i = Ok x) as Hx'.
      { pose proof (aget_range _ _ _ Hx). destruct (aget_some (XStack w) i) as [y Hy]; [lia |].
        rewrite Hl, (aget_app _ l i y Hy) in Hx. by injection Hx as <-. }
      intros v n Hv. destruct (H12 i x Hx' ltac:(lia) v n Hv) as [H|(q' & m & Ha & Hm & Hbb)]; [left; by apply Hmono | right].
      exists q', m. split; [| done]. rewrite Hl. apply elem_of_app. by left.
Qed.

(** A word of the class that is recorded by [AddBuf]. *)
Lemma recorded_add t W buf emp p Q b : (forall x Q', has_item t b x Q' <-> has_item t buf x Q' \/ (x = nm t p /\ Q' = Q)) ->
  forall v, recorded t W b emp v <-> recorded t W buf emp v \/ exists v', v = nm t p :: v' /\ words (W Q) v'.
Proof.
  intros Hb [|x v]; cbn.
  - split; [by left |]. intros [H|(v' & E & _)]; done.
  - split.
    + intros (Q' & [H|[-> ->]]%Hb & Hw); [left; by exists Q' | right; by exists v].
    + intros [(Q' & H & Hw)|(v' & [= -> ->] & Hw)].
      * exists Q'. split; [apply Hb; by left | done].
      * exists Q. split; [apply Hb; by right | done].
Qed.

(** [AddBuf] for the class at [X]: its words are those of a symbol and a class. *)
Lemma walk_inv_shift w X W q p Q b : walk_inv w X W -> aget (XStack w) X = Ok q -> is_sym (wtab w) p -> in_tab (wtab w) Q ->
  W q ≡w wand (wsym (nm (wtab w) p)) (W Q) -> AddBuf (Symbols (wtab w)) p Q (IBuf w) = Ok b ->
  walk_inv (mkWalk (wtab w) (XStack w) b (wEmpty w)) (X + 1) W.
Proof.
  intros Hi HX Hp HQ HW Hb. pose proof Hi as [H1 H2 H3 H4 H5 H6 H7 H8 H9 H10 H11 H12].
  destruct (AddBuf_ok (wtab w) p Q (IBuf w) Hp HQ H4) as (b' & E & Hwf & Hit). assert (b' = b) as -> by congruence.
  pose proof (recorded_add (wtab w) W (IBuf w) (wEmpty w) p Q b Hit) as Hrec.
  pose proof HX as [_ Hq]%aget_Ok. apply list_elem_of_lookup_2 in Hq.
  apply (walk_inv_next w X W _ q); cbn [wtab XStack IBuf wEmpty]; try done.
  - by apply remarked_refl.
  - exists []. by rewrite app_nil_r.
  - intros v [H|(v' & -> & Hw)]%Hrec; [auto |]. apply (H10 q); [done |]. apply (words_proper _ _ _ HW). by apply words_and_sym.
  - intros v H. apply Hrec. by left.
  - intros v n Hv. left. apply Hrec. right. destruct v as [|x v].
    + exfalso. apply (words_and_sym_nil (nm (wtab w) p) (W Q)). exists n. by apply HW.
    + assert (words (wand (wsym (nm (wtab w) p)) (W Q)) (x :: v)) as [-> Hw]%words_and_sym by (exists n; by apply HW). by exists v.
Qed.

Lemma is_sym_value t q p : tinv t -> value t q (SymX p) -> is_sym t p.
Proof. intros Ht H. by destruct (value_valid t q _ Ht H) as (_ & H' & _). Qed.

Lemma value_args t q a b : tinv t -> value t q (AndX a b) \/ value t q (OrX a b) -> in_tab t a /\ in_tab t b.
Proof.
  intros Ht [H|H]; destruct (value_valid t q _ Ht H) as (_ & Hv & _); cbn in Hv;
    apply List.Forall_cons_iff in Hv as [? Hv]; by apply List.Forall_cons_iff in Hv as [? _].
Qed.

(** The end of an evaluation. *)
Lemma walk_inv_ends w X W w' q : walk_inv w X W -> aget (XStack w) X = Ok q -> ends q w w' ->
  exists W', walk_inv w' (X + 1) W'.
Proof.
  intros Hi HX He. pose proof Hi as [H1 H2 H3 H4 H5 H6 H7 H8 H9 H10 H11 H12].
  pose proof HX as [_ Hq]%aget_Ok. apply list_elem_of_lookup_2 in Hq.
  destruct He as [p o t b V N Hb|V|V|a b st st' V E1 E2|x y p b V1 V2 Hb|x y t V1 V2 A1].
  - pose proof (is_sym_value (wtab w) q p H1 V) as Hp.
    destruct (new1_interp (A:=langs_alg) (wtab w) W OneX o t H1) as (W' & Hs & Hx & Ho); [by apply sem_interp | constructor | done |].
    exists W'. pose proof (walk_inv_kept w X W t W' Hi (new1_kept _ _ _ _ N)) as Hi'.
    specialize (Hi' (proj2 (sem_interp t W') Hs) Hx).
    apply (walk_inv_shift (with_tables w t) X W' q p o); cbn [with_tables wtab XStack IBuf wEmpty]; try done.
    + unfold is_sym. by rewrite (new1_syms _ _ _ _ N).
    + by apply (new1_in_tab (wtab w) OneX o t).
    + cbn in Ho. rewrite Ho. rewrite (Hx q) by (by apply (value_in_tab (wtab w) q (SymX p))).
      rewrite <- (s_value _ _ H2 q _ V). cbn. rewrite (nm_same (wtab w) t) by (by apply (new1_syms _ _ _ _ N)).
      intros v n. split.
      * intros ->. left. by exists [nm (wtab w) p], [], 0%nat.
      * intros [(w1 & w2 & m & -> & _ & -> & ->)|(n1 & n2 & _ & E & _)]; done.
  - exists W. pose proof (s_value _ _ H2 q _ V) as HW. cbn in HW.
    assert (forall v, recorded (wtab w) W (IBuf w) true v <-> v = [] \/ recorded (wtab w) W (IBuf w) (wEmpty w) v) as Hr.
    { intros [|x v]; cbn; [tauto |]. split; [by right | by intros [?|?]]. }
    apply (walk_inv_next w X W _ q); cbn [wtab XStack IBuf wEmpty]; try done.
    + by apply remarked_refl.
    + exists []. by rewrite app_nil_r.
    + intros v [->|H]%Hr; [| auto]. apply (H10 q); [done |]. exists 0%nat. by apply HW.
    + intros v H. apply Hr. by right.
    + intros v n Hv%HW. left. apply Hr. by left.
  - exists W. pose proof (s_value _ _ H2 q _ V) as HW. cbn in HW. apply (walk_inv_next w X W _ q); try done.
    + by apply remarked_refl.
    + exists []. by rewrite app_nil_r.
    + by intros v n []%HW.
  - exists W. pose proof (s_value _ _ H2 q _ V) as HW. cbn in HW.
    destruct (value_args (wtab w) q a b H1 (or_intror V)) as [Ta Tb].
    destruct (push2_ok (wtab w) (XStack w) a b st st' H1 H3 Ta Tb E1 E2) as (R & S & (l & El & Hl) & Ma & Mb).
    assert (Symbols st'.1 = Symbols (wtab w)) as Hsy by (by destruct R as (_ & _ & ? & _)).
    assert (forall v, recorded st'.1 W (IBuf w) (wEmpty w) v <-> recorded (wtab w) W (IBuf w) (wEmpty w) v) as Hr by (intros v; by apply recorded_kept).
    apply (walk_inv_next w X W _ q); cbn [wtab XStack IBuf wEmpty]; try done.
    + by exists l.
    + apply (buf_wf_grows (wtab w)); [done | intros x; by apply remarked_in_tab | done].
    + intros x v Hx Hw. rewrite El in Hx. apply elem_of_app in Hx as [Hx|Hx]; [by apply (H10 x) |].
      apply (H10 q); [done |]. apply (words_proper _ _ _ HW). apply words_or. destruct (Hl x Hx) as [->| ->]; tauto.
    + intros v Hv%Hr. auto.
    + intros v Hv. by apply Hr.
    + intros v n (m & -> & [H|H])%HW; right; [exists a, m | exists b, m]; (split; [done | split; [lia | done]]).
  - exists W. pose proof (s_value _ _ H2 q _ V1) as HW. cbn in HW.
    destruct (value_args (wtab w) q x y H1 (or_introl V1)) as [Tx Ty].
    apply (walk_inv_shift w X W q p y); try done.
    + by apply (is_sym_value (wtab w) x).
    + rewrite <- HW. rewrite <- (s_value _ _ H2 x _ V2). done.
  - exists W. pose proof (s_value _ _ H2 q _ V1) as HW. cbn in HW.
    assert (W q ≡w wzero) as Hz by (rewrite <- HW, <- (s_value _ _ H2 x _ V2); apply wand_zero).
    assert (sem t W) as Hs.
    { apply sem_interp. apply (at1_interp (A:=langs_alg) (wtab w) W q ZeroX); [done | by apply (value_in_tab _ q (AndX x y)) | by apply sem_interp | | done].
      cbn. by rewrite Hz. }
    pose proof (walk_inv_kept w X W t W Hi (at1_kept _ _ _ _ A1) Hs (fun q _ => eq_refl)) as Hi'.
    apply (walk_inv_next (with_tables w t) X W _ q); cbn [with_tables wtab XStack IBuf wEmpty]; try done; try (by apply Hi').
    + apply remarked_refl. by destruct A1.
    + exists []. by rewrite app_nil_r.
    + by intros v n []%Hz.
Qed.

(** All classes have been evaluated. *)
Theorem walk_done w W : walk_inv w (zlen (XStack w)) W ->
  forall v, recorded (wtab w) W (IBuf w) (wEmpty w) v <-> state_lang v.
Proof.
  intros [H1 H2 H3 H4 H5 H6 H7 H8 H9 H10 H11 H12] v. split; [apply H11 |].
  enough (forall n q, q ∈ XStack w -> W q v n -> recorded (wtab w) W (IBuf w) (wEmpty w) v) as H.
  { intros (q & Hq & [n Hn]). apply (H n q); [by apply H9 |]. rewrite H8; [done |]. by apply (proj1 (list.Forall_forall _ _) HU). }
  intros n. induction (Nat.lt_wf_0 n) as [n _ IH]. intros q Hq Hw.
  apply list_elem_of_lookup in Hq as [i Hi]. assert (aget (XStack w) (Z.of_nat i) = Ok q) as Hi'.
  { apply aget_Ok. rewrite Nat2Z.id. split; [lia | done]. }
  pose proof (aget_range _ _ _ Hi') as Hrange. destruct (H12 _ q Hi' ltac:(lia) v n Hw) as [H|(q' & m & Hq' & Hm & Hv)]; [done |].
  by apply (IH m Hm q').
Qed.

(** The first state of the walk. *)
Lemma walk_inv_start t xs : tinv t0 -> sem t0 W0 -> remarked t0 t -> stack_ok t xs -> (forall q, q ∈ xs <-> q ∈ U) ->
  walk_inv (mkWalk t xs [] false) 0 W0.
Proof.
  intros Ht Hs Hr Hst Hx. split; cbn [wtab XStack IBuf wEmpty]; try done.
  - by destruct Hr.
  - by apply (remarked_sem t0).
  - split; constructor.
  - split; [lia | apply zlen_nonneg].
  - by destruct Hr as (_ & _ & ? & _).
  - intros q Hq. by apply (remarked_in_tab t0).
  - intros q Hq. by apply Hx.
  - intros q v Hq%Hx Hw. by exists q.
  - intros [|x v]; cbn; [done |]. intros (Q & (it & []%not_elem_of_nil & _) & _).
  - intros i q Hi. pose proof (aget_range _ _ _ Hi). lia.
Qed.
End Walk.
