(* ===== verification/RegexForm.v ===== *)
(** * The states of the automaton: [FormState] of regex2dfa.c

    A state stands for the union of the languages of its classes.  [form_inv]: the
    states whose turn has come have the transitions of that union ([state_done]).
    [form_step] is one round of the outer loop, after the walk. *)

From Stdlib Require Import ZArith Lia.
From stdpp Require Import base tactics option list numbers sorting.
From S2P Require Import Prelude RegexLang Regex2dfa RegexTables RegexEval RegexBuf RegexWalk.

Open Scope Z_scope.

(** ** The table of states *)
Lemma find_state_ok tab classes D :
  (exists i SP, find_state tab classes D = Some (D + i) /\ aget tab i = Ok SP /\ SList SP = classes) \/
  (find_state tab classes D = None /\ forall SP, SP ∈ tab -> SList SP <> classes).
Proof.
  revert D. induction tab as [|DP tab IH]; intros D; cbn [find_state].
  { right. split; [done |]. intros SP []%not_elem_of_nil. }
  destruct (decide (classes = SList DP)) as [->|Hne].
  { left. exists 0, DP. rewrite Z.add_0_r. done. }
  destruct (IH (D + 1)) as [(i & SP & -> & Hi & Hc)|[-> Hno]].
  - left. exists (i + 1), SP. split; [f_equal; lia |]. split; [| done]. apply aget_Ok. apply aget_Ok in Hi as [Hi Hx].
    split; [lia |]. by replace (Z.to_nat (i + 1)) with (S (Z.to_nat i)) by lia.
  - right. split; [done |]. intros SP [->|Hin]%elem_of_cons; [congruence | by apply Hno].
Qed.

(** A state more, or none. *)
Definition adds_state (tab : list state) (classes : list Z) (l : list state) : Prop :=
  l = [] \/ (l = [mkState (zlen tab) classes false []] /\ forall SP, SP ∈ tab -> SList SP <> classes).

Lemma AddState_ok tab classes : exists l SP, (AddState tab classes).1 = tab ++ l /\ adds_state tab classes l /\
  aget (tab ++ l) (AddState tab classes).2 = Ok SP /\ SList SP = classes.
Proof.
  unfold AddState. destruct (find_state_ok tab classes 0) as [(i & SP & -> & Hi & Hc)|[-> Hno]].
  - exists [], SP. rewrite app_nil_r. split; [done |]. split; [by left |]. split; [exact Hi | done].
  - eexists [_], _. split; [reflexivity |]. split; [right; split; [reflexivity | done] |]. cbn [snd]. rewrite aget_new. done.
Qed.

Record tab_wf (t : tables) (tab : list state) : Prop := mkTabWf {
  tw_class : forall i SP, aget tab i = Ok SP -> Class SP = i;
  tw_list : forall i SP, aget tab i = Ok SP -> Forall (in_tab t) (SList SP) /\ StronglySorted Z.lt (SList SP) /\ SList SP <> [];
  tw_unique : forall i j SP SP', aget tab i = Ok SP -> aget tab j = Ok SP' -> SList SP = SList SP' -> i = j
}.

Lemma adds_state_wf t tab classes l : tab_wf t tab -> adds_state tab classes l ->
  Forall (in_tab t) classes -> StronglySorted Z.lt classes -> classes <> [] -> tab_wf t (tab ++ l).
Proof.
  intros [H1 H2 H3] [->|[-> Hno]] Hf Hs Hn; [by rewrite app_nil_r |]. split.
  - intros i SP [H|[-> ->]]%aget_app_inv; [auto | done].
  - intros i SP [H|[-> ->]]%aget_app_inv; [eauto | done].
  - assert (forall i SP, aget tab i = Ok SP -> SList SP <> classes) as Hd.
    { intros i SP [_ H]%aget_Ok. by apply Hno, (list_elem_of_lookup_2 _ (Z.to_nat i)). }
    intros i j SP SP' [H|[-> ->]]%aget_app_inv [H'|[-> ->]]%aget_app_inv E; cbn in E; [by eapply H3 | | | done].
    + by destruct (Hd i SP H).
    + by destruct (Hd j SP' H').
Qed.

(** The transitions: the symbols of the items, and states with their classes. *)
Definition shifts_ok (tab : list state) (buf : list item) (sh : list (Z * Z)) : Prop :=
  Forall2 (fun it s => s.1 = LHS_of it /\ exists SP, aget tab s.2 = Ok SP /\ SList SP = RHS_of it) buf sh.

Lemma add_shifts_ok t buf : forall tab, buf_wf t buf -> tab_wf t tab -> exists l,
  (add_shifts buf tab).1 = tab ++ l /\ tab_wf t (tab ++ l) /\ shifts_ok (tab ++ l) buf (add_shifts buf tab).2.
Proof.
  induction buf as [|it buf IH]; intros tab [Hi Hs] Ht; cbn [add_shifts].
  { exists []. rewrite app_nil_r. split; [done |]. split; [done | constructor]. }
  apply List.Forall_cons_iff in Hi as [(_ & Hf & Hss & Hne) Hi]. inversion Hs as [|? ? Hs' _]; subst.
  destruct (AddState_ok tab (RHS_of it)) as (l1 & SP & E1 & Ha & Hg & Hl). destruct (AddState tab (RHS_of it)) as [tab1 D] eqn:EA.
  cbn [fst snd] in *. subst tab1. destruct (IH (tab ++ l1)) as (l2 & E2 & Ht2 & Hsh); [by split | by apply (adds_state_wf t tab (RHS_of it)) |].
  destruct (add_shifts buf (tab ++ l1)) as [tab2 sh] eqn:EB. cbn [fst snd] in *. subst tab2. rewrite <- app_assoc in *.
  exists (l1 ++ l2). split; [done |]. split; [done |]. constructor; [| done]. split; [done |]. cbn. exists SP. split; [| done].
  rewrite app_assoc. by apply aget_app.
Qed.

(** ** The language of a state *)
Definition slang (W : langs) (classes : list Z) (v : list (list Z)) : Prop := exists q, q ∈ classes /\ words (W q) v.

Record state_done (t : tables) (W : langs) (tab : list state) (SP : state) : Prop := mkStateDone {
  sd_empty : Empty SP = true <-> slang W (SList SP) [];
  sd_shift : forall x v, slang W (SList SP) (x :: v) <->
    exists p D SP', (p, D) ∈ ShList SP /\ nm t p = x /\ aget tab D = Ok SP' /\ slang W (SList SP') v;
  sd_syms : forall p D, (p, D) ∈ ShList SP -> is_sym t p /\ exists SP', aget tab D = Ok SP';
  sd_sorted : StronglySorted (fun a b => strcmp (nm t a.1) (nm t b.1) = -1) (ShList SP)
}.

Record form_inv (t0 : tables) (W0 : langs) (start : Z) (t : tables) (tab : list state) (n : Z) (W : langs) : Prop := mkFormInv {
  f_tinv : tinv t;
  f_sem : sem t W;
  f_stack : stack_ok t [];
  f_n : 0 <= n <= zlen tab;
  f_tab : tab_wf t tab;
  f_done : forall i SP, aget tab i = Ok SP -> i < n -> state_done t W tab SP;
  f_start : exists SP, aget tab 0 = Ok SP /\ SList SP = [start];
  f_syms : Symbols t = Symbols t0;
  f_in_tab : forall q, in_tab t0 q -> in_tab t q;
  f_lang : forall q, in_tab t0 q -> W q = W0 q
}.

Lemma slang_same (P : Z -> Prop) W W' classes v : (forall q, P q -> W' q = W q) -> Forall P classes ->
  slang W' classes v <-> slang W classes v.
Proof.
  intros Hw Hf. split; intros (q & Hq & H); (exists q; split; [done |]); [rewrite <- Hw | rewrite Hw]; try done;
    by apply (proj1 (list.Forall_forall _ _) Hf).
Qed.

(** More classes, more states, or other states of the same classes. *)
Lemma state_done_grows t t' W W' tab tab' SP : state_done t W tab SP -> Symbols t' = Symbols t ->
  (forall q, in_tab t q -> W' q = W q) -> tab_wf t tab ->
  (forall i SP, aget tab i = Ok SP -> exists SP', aget tab' i = Ok SP' /\ SList SP' = SList SP) ->
  (exists i, aget tab i = Ok SP) -> state_done t' W' tab' SP.
Proof.
  intros [H1 H2 H3 H4] Hs Hw Ht Htab [i Hi].
  assert (forall j SP v, aget tab j = Ok SP -> slang W' (SList SP) v <-> slang W (SList SP) v) as Hl.
  { intros j S v Hj. apply (slang_same (in_tab t)); [done |]. by apply (tw_list t tab Ht j). }
  split.
  - rewrite H1. by rewrite (Hl i SP).
  - intros x v. rewrite (Hl i SP), H2 by done. split.
    + intros (p & D & S & Hin & Hn & Hd & Hv). destruct (Htab D S Hd) as (S' & Hd' & El). exists p, D, S'.
      split; [done |]. split; [by rewrite (nm_same t t') |]. split; [done |]. rewrite El. by apply (Hl D S).
    + intros (p & D & S' & Hin & Hn & Hd' & Hv). destruct (H3 p D Hin) as [_ [S Hd]]. destruct (Htab D S Hd) as (S2 & Hd2 & El).
      assert (S2 = S') as -> by congruence. exists p, D, S. split; [done |]. split; [by rewrite <- (nm_same t t') |]. split; [done |].
      rewrite El in Hv. by apply (Hl D S).
  - intros p D Hin. destruct (H3 p D Hin) as [Hp [S Hd]]. unfold is_sym. rewrite Hs. split; [done |].
    destruct (Htab D S Hd) as (S' & Hd' & _). by exists S'.
  - clear -H4 Hs. induction H4 as [|a l Hl IH Hf]; constructor; [done |].
    eapply list.Forall_impl; [exact Hf |]. intros b. by rewrite !(nm_same t t').
Qed.

(** ** One round *)
Lemma shifts_sorted t tab buf sh : buf_wf t buf -> shifts_ok tab buf sh ->
  StronglySorted (fun a b : Z * Z => strcmp (nm t a.1) (nm t b.1) = -1) sh.
Proof.
  intros [_ Hs] Hf. induction Hf as [|it s buf sh [E _] Hf IH]; [constructor |]. inversion Hs as [|? ? Hs' Hb]; subst.
  constructor; [by apply IH |]. clear -E Hf Hb. induction Hf as [|it' s' buf sh [E' _] Hf IH]; [constructor |].
  apply List.Forall_cons_iff in Hb as [Hb1 Hb]. constructor; [| by apply IH]. unfold before in Hb1. by rewrite E, E'.
Qed.

Lemma shifts_items tab buf sh : shifts_ok tab buf sh ->
  (forall it, it ∈ buf -> exists D SP, (LHS_of it, D) ∈ sh /\ aget tab D = Ok SP /\ SList SP = RHS_of it) /\
  (forall p D, (p, D) ∈ sh -> exists it SP, it ∈ buf /\ p = LHS_of it /\ aget tab D = Ok SP /\ SList SP = RHS_of it).
Proof.
  intros Hf. split.
  - induction Hf as [|it [p D] buf sh [E (SP & Hg & Hl)] Hf IH]; [intros it []%not_elem_of_nil |]. cbn in *. subst p.
    intros it' [->|Hin]%elem_of_cons; [exists D, SP; split; [by left | done] |].
    destruct (IH it' Hin) as (D' & SP' & ? & ?). exists D', SP'. split; [by right | done].
  - induction Hf as [|it [p D] buf sh [E (SP & Hg & Hl)] Hf IH]; [intros p D []%not_elem_of_nil |]. cbn in *. subst p.
    intros p' D' [[= -> ->]|Hin]%elem_of_cons; [exists it, SP; split; [by left | done] |].
    destruct (IH p' D' Hin) as (it' & SP' & ? & ?). exists it', SP'. split; [by right | done].
Qed.

Section Step.
Context (t0 : tables) (W0 : langs) (start : Z).

Lemma form_step t tab n W SP w W' t' : form_inv t0 W0 start t tab n W -> aget tab n = Ok SP ->
  walk_inv t W (SList SP) w (zlen (XStack w)) W' -> remarked (wtab w) t' -> stack_ok t' [] ->
  exists tab1, tab1 = (add_shifts (IBuf w) tab).1 /\
  form_inv t0 W0 start t' (<[Z.to_nat n := mkState (Class SP) (SList SP) (wEmpty w) (add_shifts (IBuf w) tab).2]> tab1) (n + 1) W' /\
  exists SP1, aget tab1 n = Ok SP1 /\ SP1 = SP.
Proof.
  intros [F1 F2 F3 F4 F5 F6 F7 F8 F9 F10] Hn Hw Hr Hst. pose proof Hw as [G1 G2 G3 G4 G5 G6 G7 G8 G9 G10 G11 G12].
  pose proof (walk_done t W (SList SP) (proj1 (tw_list t tab F5 n SP Hn)) w W' Hw) as Hrec.
  pose proof (aget_range _ _ _ Hn) as Hnr. pose proof Hr as (R1 & _ & R3 & _).
  assert (Symbols t' = Symbols t) as Hsy by congruence.
  assert (forall q, in_tab t q -> in_tab t' q) as Hin by (intros q Hq; by apply (remarked_in_tab (wtab w)), G7).
  assert (tab_wf (wtab w) tab) as Hwf.
  { destruct F5 as [T1 T2 T3]. split; [done | | done]. intros i S Hi. destruct (T2 i S Hi) as (A1 & A2 & A3).
    split; [eapply list.Forall_impl; [exact A1 | exact G7] | done]. }
  destruct (add_shifts_ok (wtab w) (IBuf w) tab G4 Hwf) as (l & El & Hwf1 & Hsh).
  destruct (add_shifts (IBuf w) tab) as [tab1 sh]. cbn [fst snd] in *. subst tab1. exists (tab ++ l). split; [done |].
  pose proof (aget_app tab l n SP Hn) as Hn1. split; [| by exists SP].
  set (SP' := mkState (Class SP) (SList SP) (wEmpty w) sh). set (tab' := <[Z.to_nat n := SP']> (tab ++ l)).
  assert (0 <= n < zlen (tab ++ l)) as Hnr1 by (by apply (aget_range _ _ SP)).
  assert (aget tab' n = Ok SP') as Hn' by (by apply aget_insert).
  assert (forall i, i <> n -> aget tab' i = aget (tab ++ l) i) as Hne by (intros i Hi; apply aget_insert_ne; [lia | done]).
  assert (forall i S, aget (tab ++ l) i = Ok S -> exists S', aget tab' i = Ok S' /\ SList S' = SList S) as Hsame.
  { intros i S Hi. destruct (decide (i = n)) as [->|Hi']; [exists SP'; split; [done | cbn; congruence] | exists S; split; [by rewrite Hne | done]]. }
  assert (forall i S', aget tab' i = Ok S' -> exists S, aget (tab ++ l) i = Ok S /\ SList S = SList S' /\ Class S = Class S') as Hback.
  { intros i S' Hi. destruct (decide (i = n)) as [->|Hi']; [exists SP; split; [done |]; rewrite Hn' in Hi; by injection Hi as <- |].
    exists S'. rewrite <- Hne by done. done. }
  split; try done.
  - by apply (remarked_sem (wtab w)).
  - unfold tab'. rewrite zlen_insert. lia.
  - destruct Hwf1 as [T1 T2 T3]. split.
    + intros i S' (S & Hi & _ & <-)%Hback. eauto.
    + intros i S' (S & Hi & <- & _)%Hback. destruct (T2 i S Hi) as (A1 & A2 & A3). split; [| done].
      eapply list.Forall_impl; [exact A1 |]. intros q. by apply remarked_in_tab.
    + intros i j S1 S2 (S & Hi & <- & _)%Hback (S' & Hj & <- & _)%Hback. eauto.
  - intros i S Hi Hlt. destruct (decide (i = n)) as [->|Hi'].
    + rewrite Hn' in Hi. injection Hi as <-. destruct (shifts_items (tab ++ l) (IBuf w) sh Hsh) as [I1 I2].
      assert (forall v, slang W' (SList SP) v <-> slang W (SList SP) v) as Hl.
      { intros v. apply (slang_same (in_tab t)); [exact G8 |]. by apply (tw_list t tab F5 n). }
      split; cbn [SP' Empty SList ShList].
      * rewrite Hl. apply (Hrec []).
      * intros x v. rewrite Hl. rewrite <- (Hrec (x :: v)). cbn [recorded]. split.
        -- intros (Q & (it & Hit & Hx & HQ) & Hv). destruct (I1 it Hit) as (D & S & Hd & Hg & Es). destruct (Hsame D S Hg) as (S' & Hg' & Es').
           exists (LHS_of it), D, S'. split; [done |]. split; [by rewrite (nm_same (wtab w) t') |]. split; [done |].
           exists Q. split; [congruence | done].
        -- intros (p & D & S' & Hd & Hx & Hg' & Q & HQ & Hv). destruct (I2 p D Hd) as (it & S & Hit & -> & Hg & Es).
           destruct (Hsame D S Hg) as (S2 & Hg2 & E2). assert (S2 = S') as -> by congruence.
           exists Q. split; [| done]. exists it. split; [done |]. split; [by rewrite <- (nm_same (wtab w) t') | congruence].
      * intros p D Hd. destruct (I2 p D Hd) as (it & S & Hit & -> & Hg & Es). split.
        -- destruct G4 as [Hitems _]. destruct (proj1 (list.Forall_forall _ _) Hitems it Hit) as (Hp & _). unfold is_sym. by rewrite R3.
        -- destruct (Hsame D S Hg) as (S' & ? & _). by exists S'.
      * apply (shifts_sorted t' (tab ++ l) (IBuf w)); [| done].
        apply (buf_wf_grows (wtab w)); [done | intros q; by apply remarked_in_tab | done].
    + rewrite Hne in Hi by done. pose proof (aget_range _ _ _ Hi) as Hir.
      destruct (aget_some tab i) as [S2 Hi2]; [lia |]. assert (S2 = S) as -> by (rewrite (aget_app tab l i S2 Hi2) in Hi; congruence).
      apply (state_done_grows t t' W W' tab); [by apply (F6 i S Hi2); lia | done | exact G8 | done | | by exists i].
      intros j S1 Hj. apply (Hsame j S1). by apply aget_app.
  - destruct F7 as (S & Hs & Es). destruct (Hsame 0 S (aget_app tab l 0 S Hs)) as (S' & H1 & H2). exists S'. split; [done | congruence].
  - congruence.
  - intros q Hq. auto.
  - intros q Hq. rewrite G8 by auto. auto.
Qed.

(** The first state. *)
Lemma form_inv_start : tinv t0 -> sem t0 W0 -> stack_ok t0 [] -> in_tab t0 start ->
  form_inv t0 W0 start t0 (AddState [] [start]).1 0 W0.
Proof.
  intros Ht Hs Hst Hq.
  assert (forall (SP : state) i, aget [SP] i = Ok SP -> i = 0) as Hone.
  { intros SP i H%aget_range. change (zlen [SP]) with 1 in H. lia. }
  assert (forall (SP SP' : state) i, aget [SP] i = Ok SP' -> SP' = SP) as Heq.
  { intros SP SP' i [_ H]%aget_Ok. by apply list_lookup_singleton_Some in H as [_ <-]. }
  cbn. split; try done.
  - split.
    + intros i SP Hi. pose proof (Heq _ _ _ Hi) as ->. by rewrite (Hone _ _ Hi).
    + intros i SP ->%Heq. cbn. split; [by apply valid1 |]. split; [constructor; constructor | done].
    + intros i j SP SP' Hi Hj _. pose proof (Heq _ _ _ Hi) as ->. pose proof (Heq _ _ _ Hj) as ->. by rewrite (Hone _ _ Hi), (Hone _ _ Hj).
  - intros i SP Hi. pose proof (aget_range _ _ _ Hi). lia.
  - by eexists.
Qed.
End Step.
