(* ===== verification/RegexMerge.v ===== *)
(** * Equivalent states: [MergeStates] of regex2dfa.c

    Two states are merged when the pairs that their equivalence leads to are closed:
    both accept the empty word or neither, and they have transitions for the same
    symbols.  [MergeStates_correct]: states of the same class have the same language, and the
    classes are numbered in the order of their first states. *)

From Stdlib Require Import ZArith Lia.
From stdpp Require Import base tactics option list numbers.
From S2P Require Import Prelude Regex2dfa RegexTables.

Open Scope Z_scope.

(** ** Pairs in a range *)
Lemma NoDup_pairs_length (l : list (Z * Z)) n : NoDup l -> Forall (fun p => 0 <= p.1 < n /\ 0 <= p.2 < n) l -> zlen l <= n * n.
Proof.
  intros Hd Hf. set (f := fun p : Z * Z => p.1 * n + p.2).
  assert (NoDup (f <$> l)) as Hd'.
  { clear -Hd Hf f. induction Hd as [|p l Hn Hd IH]; [constructor |]. apply List.Forall_cons_iff in Hf as [Hp Hf].
    constructor; [| by apply IH]. intros (q & E & Hq)%list_elem_of_fmap. pose proof (proj1 (list.Forall_forall _ _) Hf q Hq) as Hqr. cbn in *.
    unfold f in E. assert (p = q) as ->; [| done]. destruct p as [a b], q as [c d]; cbn in *. assert (a = c) by nia. f_equal; nia. }
  assert (f <$> l ⊆+ seqZ 0 (n * n)) as Hs.
  { apply NoDup_submseteq; [done |]. intros x (q & -> & Hq)%list_elem_of_fmap. pose proof (proj1 (list.Forall_forall _ _) Hf q Hq) as Hqr. cbn in *.
    apply elem_of_seqZ. unfold f. nia. }
  apply submseteq_length in Hs. rewrite length_fmap, length_seqZ in Hs. unfold zlen. destruct (Z.le_gt_cases 0 (n * n)); nia.
Qed.

Lemma xor_swap_ok L R : xor_swap L R = (R, L).
Proof.
  unfold xor_swap. assert (Z.lxor R (Z.lxor L R) = L) as -> by (rewrite Z.lxor_comm, Z.lxor_assoc, Z.lxor_nilpotent; apply Z.lxor_0_r).
  f_equal. rewrite (Z.lxor_comm L R), Z.lxor_assoc, Z.lxor_nilpotent. apply Z.lxor_0_r.
Qed.

Section Merge.
(** The names of the symbols and the states as they were formed. *)
Context (name : Z -> list Z) (tab0 : list state).

(** The words accepted from a state. *)
Fixpoint saccept (n : Z) (v : list (list Z)) : Prop :=
  match v with
  | [] => exists SP, aget tab0 n = Ok SP /\ Empty SP = true
  | x :: v => exists SP p D, aget tab0 n = Ok SP /\ (p, D) ∈ ShList SP /\ name p = x /\ saccept D v
  end.

Definition same_lang (i j : Z) : Prop := forall v, saccept i v <-> saccept j v.

Lemma same_lang_refl i : same_lang i i.
Proof. by intros v. Qed.

Lemma same_lang_sym i j : same_lang i j -> same_lang j i.
Proof. intros H v. by rewrite (H v). Qed.

Lemma same_lang_trans i j k : same_lang i j -> same_lang j k -> same_lang i k.
Proof. intros H1 H2 v. by rewrite (H1 v), (H2 v). Qed.

(** Only the classes of the states change. *)
Definition same_states (tab : list state) : Prop :=
  zlen tab = zlen tab0 /\ forall i SP, aget tab i = Ok SP -> exists SP0, aget tab0 i = Ok SP0 /\
    SList SP = SList SP0 /\ Empty SP = Empty SP0 /\ ShList SP = ShList SP0.

Hypothesis shifts_in : forall i SP p D, aget tab0 i = Ok SP -> (p, D) ∈ ShList SP -> 0 <= D < zlen tab0.

Lemma set_state_class_ok tab n c : same_states tab -> 0 <= n < zlen tab0 -> exists tab', set_state_class tab n c = Ok tab' /\ same_states tab' /\
  forall i SP', aget tab' i = Ok SP' -> exists SP, aget tab i = Ok SP /\ Class SP' = if decide (i = n) then c else Class SP.
Proof.
  intros [Hl Hs] Hn. destruct (aget_some tab n) as [SP HSP]; [by rewrite Hl |]. unfold set_state_class. rewrite HSP. res_cbn.
  rewrite aset_Ok by (by rewrite Hl). eexists. split; [done |].
  assert (forall i SP', aget (<[Z.to_nat n:=mkState c (SList SP) (Empty SP) (ShList SP)]> tab) i = Ok SP' ->
    exists S, aget tab i = Ok S /\ SList SP' = SList S /\ Empty SP' = Empty S /\ ShList SP' = ShList S /\ Class SP' = if decide (i = n) then c else Class S) as H.
  { intros i SP'. destruct (decide (i = n)) as [->|Hne].
    - rewrite aget_insert by (by rewrite Hl). intros [= <-]. by exists SP.
    - rewrite aget_insert_ne by lia. intros H. by exists SP'. }
  split; [split; [by rewrite zlen_insert |] |].
  - intros i SP' (S & H1 & -> & -> & -> & _)%H. by apply Hs.
  - intros i SP' (S & H1 & _ & _ & _ & H2)%H. by exists S.
Qed.

Lemma class_of_ok tab n : same_states tab -> 0 <= n < zlen tab0 -> exists SP, aget tab n = Ok SP /\ class_of tab n = Ok (Class SP).
Proof. intros [Hl _] Hn. destruct (aget_some tab n) as [SP HSP]; [by rewrite Hl |]. exists SP. unfold class_of. rewrite HSP. by res_cbn. Qed.

(** The class of a state is a state with the same language, not behind it. *)
Definition classes_ok (tab : list state) : Prop :=
  same_states tab /\ forall i SP, aget tab i = Ok SP -> 0 <= Class SP <= i /\ same_lang (Class SP) i.

(** ** The pairs *)
Section Pairs.
Context (tab : list state) (Hc : classes_ok tab).

Definition pair_ok (p : Z * Z) : Prop := 0 <= p.1 < p.2 /\ p.2 < zlen tab0.

Definition joined (E : list (Z * Z)) (x y : Z) : Prop :=
  exists cx cy, class_of tab x = Ok cx /\ class_of tab y = Ok cy /\ (cx = cy \/ (cx, cy) ∈ E \/ (cy, cx) ∈ E).

Record pairs_ok (E : list (Z * Z)) : Prop := mkPairsOk { pr_nodup : NoDup E; pr_range : Forall pair_ok E }.

Lemma pairs_ok_length E : pairs_ok E -> zlen E <= zlen tab0 * zlen tab0.
Proof.
  intros [Hd Hf]. apply NoDup_pairs_length; [done |]. eapply list.Forall_impl; [exact Hf |]. intros [a b]. unfold pair_ok. cbn. lia.
Qed.

Lemma pairs_ok_snoc E p : pairs_ok E -> p ∉ E -> pair_ok p -> pairs_ok (E ++ [p]).
Proof.
  intros [Hd Hf] Hn Hp. split.
  - apply list.NoDup_app. split; [done |]. split; [| apply NoDup_singleton]. intros x Hx ->%list_elem_of_singleton. done.
  - apply list.Forall_app. split; [done |]. constructor; [done | constructor].
Qed.

Lemma joined_app E l x y : joined E x y -> joined (E ++ l) x y.
Proof. intros (cx & cy & H1 & H2 & H). exists cx, cy. rewrite !elem_of_app. tauto. Qed.

Lemma AddEquiv_ok x y E : pairs_ok E -> 0 <= x < zlen tab0 -> 0 <= y < zlen tab0 -> exists l, AddEquiv tab x y E = Ok (E ++ l) /\
  pairs_ok (E ++ l) /\ joined (E ++ l) x y.
Proof.
  intros HE Hx Hy. destruct Hc as [Hs Hcl]. destruct (class_of_ok tab x Hs Hx) as (SX & HX & EX). destruct (class_of_ok tab y Hs Hy) as (SY & HY & EY).
  pose proof (proj1 (Hcl x SX HX)) as RX. pose proof (proj1 (Hcl y SY HY)) as RY.
  unfold AddEquiv. rewrite EX, EY. res_cbn. destruct (Z.eqb_spec (Class SX) (Class SY)) as [E1|N1].
  { exists []. rewrite app_nil_r. split; [done |]. split; [done |]. exists (Class SX), (Class SY). auto. }
  assert (exists L R, (if Class SY <? Class SX then xor_swap (Class SX) (Class SY) else (Class SX, Class SY)) = (L, R) /\ L < R /\
    ((L = Class SX /\ R = Class SY) \/ (L = Class SY /\ R = Class SX))) as (L & R & -> & HLR & HD).
  { destruct (Z.ltb_spec (Class SY) (Class SX)); [rewrite xor_swap_ok; exists (Class SY), (Class SX); split; [done |]; split; [lia | by right] |].
    exists (Class SX), (Class SY). split; [done |]. split; [lia | by left]. }
  assert (pair_ok (L, R)) as Hp by (unfold pair_ok; cbn; lia).
  assert (forall E', (L, R) ∈ E' -> joined E' x y) as HJ.
  { intros E' Hin. exists (Class SX), (Class SY). split; [done |]. split; [done |]. right. destruct HD as [[-> ->]|[-> ->]]; [by left | by right]. }
  destruct (decide ((L, R) ∈ E)) as [Hin|Hni].
  - exists []. rewrite app_nil_r. split; [done |]. split; [done | by apply HJ].
  - exists [(L, R)]. split; [done |]. split; [by apply pairs_ok_snoc |]. apply HJ. apply elem_of_app. right. by left.
Qed.

Definition in_range (l : list (Z * Z)) : Prop := Forall (fun s => 0 <= s.2 < zlen tab0) l.

Lemma add_equivs_ok l : forall r E, pairs_ok E -> in_range l -> in_range r -> l.*1 = r.*1 -> exists k, add_equivs tab l r E = Ok (E ++ k) /\
  pairs_ok (E ++ k) /\ Forall2 (fun a b => a.1 = b.1 /\ joined (E ++ k) a.2 b.2) l r.
Proof.
  induction l as [|[p x] l IH]; intros [|[q y] r] E HE Hl Hr Heq; try discriminate; cbn [add_equivs].
  { exists []. rewrite app_nil_r. split; [done |]. split; [done | constructor]. }
  injection Heq as -> Heq. apply List.Forall_cons_iff in Hl as [Hx Hl]. apply List.Forall_cons_iff in Hr as [Hy Hr]. cbn in Hx, Hy.
  destruct (AddEquiv_ok x y E HE Hx Hy) as (k1 & -> & HE1 & J1). res_cbn.
  destruct (IH r (E ++ k1) HE1 Hl Hr Heq) as (k2 & -> & HE2 & J2). rewrite <- app_assoc in *. exists (k1 ++ k2). split; [done |]. split; [done |].
  constructor; [| done]. split; [done |]. cbn. rewrite app_assoc. by apply joined_app.
Qed.

(** A pair whose states agree, up to pairs that have been entered. *)
Definition agree (E : list (Z * Z)) (p : Z * Z) : Prop :=
  exists SL SR, aget tab0 p.1 = Ok SL /\ aget tab0 p.2 = Ok SR /\ Empty SL = Empty SR /\
    Forall2 (fun a b => a.1 = b.1 /\ joined E a.2 b.2) (ShList SL) (ShList SR).

Lemma agree_app E l p : agree E p -> agree (E ++ l) p.
Proof.
  intros (SL & SR & H1 & H2 & H3 & H4). exists SL, SR. do 3 (split; [done |]). eapply list.Forall2_impl; [exact H4 |].
  intros a b [? ?]. split; [done | by apply joined_app].
Qed.

(** The pairs are closed: their states have the same language. *)
Lemma agree_lang E : (forall p, p ∈ E -> agree E p) -> forall p, p ∈ E -> same_lang p.1 p.2.
Proof.
  intros Hag. destruct Hc as [Hs Hcl].
  assert (forall v, forall p, p ∈ E -> saccept p.1 v <-> saccept p.2 v) as H; [| intros p Hp v; by apply H].
  induction v as [|x v IH]; intros p Hp; destruct (Hag p Hp) as (SL & SR & HL & HR & HE & HF); cbn [saccept].
  { split; intros (S & HS & H); [exists SR | exists SL]; (split; [done | congruence]). }
  assert (forall a b, joined E a b -> saccept a v <-> saccept b v) as HJ.
  { intros a b (ca & cb & Ha & Hb & Hj). unfold class_of in Ha, Hb. apply bind_Ok_inv in Ha as (SA & HA & Ha). apply bind_Ok_inv in Hb as (SB & HB & Hb).
    injection Ha as <-. injection Hb as <-. destruct (Hcl a SA HA) as [_ LA]. destruct (Hcl b SB HB) as [_ LB]. rewrite <- (LA v), <- (LB v).
    destruct Hj as [->|[Hj|Hj]]; [done | apply (IH _ Hj) | symmetry; apply (IH _ Hj)]. }
  split.
  - intros (S & q & D & HS & Hin & Hn & Hv). assert (S = SL) as -> by congruence. apply list_elem_of_lookup in Hin as [i Hi].
    destruct (Forall2_lookup_l _ _ _ _ _ HF Hi) as ([q' D'] & Hi' & E1 & Hj). cbn in *. subst q'.
    exists SR, q, D'. split; [done |]. split; [by apply (list_elem_of_lookup_2 _ i) |]. split; [done |]. by apply (HJ D D').
  - intros (S & q & D & HS & Hin & Hn & Hv). assert (S = SR) as -> by congruence. apply list_elem_of_lookup in Hin as [i Hi].
    destruct (Forall2_lookup_r _ _ _ _ _ HF Hi) as ([q' D'] & Hi' & E1 & Hj). cbn in *. subst q'.
    exists SL, q, D'. split; [done |]. split; [by apply (list_elem_of_lookup_2 _ i) |]. split; [done |]. by apply (HJ D' D).
Qed.

Lemma shifts_range i SP : aget tab i = Ok SP -> in_range (ShList SP).
Proof.
  intros Hi. destruct Hc as [[_ Hs] _]. destruct (Hs i SP Hi) as (SP0 & H0 & _ & _ & ->). apply list.Forall_forall. intros [p D] Hin.
  by apply (shifts_in i SP0 p D).
Qed.

Lemma equiv_loop limit E : pairs_ok E -> zlen tab0 * zlen tab0 < Zpos limit -> exists r, loop (equiv_round tab) limit (0, E) = Ok r /\
  match r with None => True | Some E' => pairs_ok E' /\ forall p, p ∈ E' -> same_lang p.1 p.2 end.
Proof.
  intros HE Hlim. set (N := zlen tab0 * zlen tab0).
  destruct (loop_rule (equiv_round tab) (fun st => pairs_ok st.2 /\ 0 <= st.1 <= zlen st.2 /\ forall i p, 0 <= i < st.1 -> aget st.2 i = Ok p -> agree st.2 p)
    (fun r => match r with None => True | Some E' => pairs_ok E' /\ forall p, p ∈ E' -> same_lang p.1 p.2 end)
    (fun st => N - st.1)) with (p := limit) (s := (0, E)) as (r & Er & Hr); [| | cbn; lia | by exists r].
  2: { split; [done |]. cbn. pose proof (zlen_nonneg E). split; [lia |]. intros i p Hi. lia. }
  intros [n E1] (HE1 & Hn & Hag). cbn [fst snd] in *. pose proof (pairs_ok_length E1 HE1) as Hlen. fold N in Hlen. split; [lia |].
  unfold equiv_round. destruct (Z.ltb_spec n (zlen E1)) as [Hlt|Hge].
  2: { right. eexists. split; [done |]. split; [done |]. apply agree_lang. intros p Hp. apply list_elem_of_lookup in Hp as [i Hi].
       assert (aget E1 (Z.of_nat i) = Ok p) as Hi' by (apply aget_Ok; rewrite Nat2Z.id; split; [lia | done]).
       apply (Hag (Z.of_nat i)); [| done]. pose proof (aget_range _ _ _ Hi'). lia. }
  destruct (aget_some E1 n) as [p Hp]; [lia |]. rewrite Hp. res_cbn.
  assert (pair_ok p) as Hpr.
  { apply (proj1 (list.Forall_forall _ _) (pr_range E1 HE1)). apply aget_Ok in Hp as [_ Hp]. by apply (list_elem_of_lookup_2 _ (Z.to_nat n)). }
  destruct Hc as [[Hl Hs] Hcl]. unfold pair_ok in Hpr.
  destruct (aget_some tab p.1) as [QL HL]; [lia |]. destruct (aget_some tab p.2) as [QR HR]; [lia |]. rewrite HL, HR. res_cbn.
  destruct (negb (eqb (Empty QL) (Empty QR)) || negb (zlen (ShList QL) =? zlen (ShList QR))) eqn:Eb; [right; by eexists |].
  apply orb_false_iff in Eb as [Eb _]. apply negb_false_iff, eqb_prop in Eb.
  destruct (decide ((ShList QL).*1 = (ShList QR).*1)) as [Esy|]; [| right; by eexists].
  destruct (add_equivs_ok (ShList QL) (ShList QR) E1 HE1) as (k & -> & HE2 & HF); [by apply (shifts_range p.1) | by apply (shifts_range p.2) | done |].
  res_cbn. left. eexists. split; [done |]. split; [| cbn; lia]. cbn [fst snd]. split; [done |]. rewrite zlen_app. pose proof (zlen_nonneg k). split; [lia |].
  intros i p' Hi Hp'. destruct (decide (i = n)) as [->|Hne].
  - rewrite (aget_app _ k n p Hp) in Hp'. injection Hp' as <-. destruct (Hs _ _ HL) as (SL & H1 & _ & H2 & H3). destruct (Hs _ _ HR) as (SR & H4 & _ & H5 & H6).
    exists SL, SR. split; [done |]. split; [done |]. split; [congruence |]. by rewrite <- H3, <- H6.
  - destruct (aget_some E1 i) as [p2 Hp2]; [lia |]. rewrite (aget_app _ k i p2 Hp2) in Hp'. injection Hp' as <-. apply agree_app. apply (Hag i); [lia | done].
Qed.

Lemma partner_loop limit n : 0 <= n < zlen tab0 -> class_of tab n = Ok n -> zlen tab0 * zlen tab0 + zlen tab0 < Zpos limit ->
  exists r, loop (partner_round limit tab n) limit 0 = Ok r /\
  match r with None => True | Some E => pairs_ok E /\ forall p, p ∈ E -> same_lang p.1 p.2 end.
Proof.
  intros Hn Hcn Hlim.
  destruct (loop_rule (partner_round limit tab n) (fun S1 => 0 <= S1 <= n)
    (fun r => match r with None => True | Some E => pairs_ok E /\ forall p, p ∈ E -> same_lang p.1 p.2 end)
    (fun S1 => n - S1)) with (p := limit) (s := 0) as (r & Er & Hr); [| lia | nia | by exists r].
  intros S1 HS1. split; [lia |]. unfold partner_round. destruct (Z.ltb_spec S1 n) as [Hlt|]; [| right; by eexists].
  destruct (class_of_ok tab S1) as (SP & _ & ->); [apply Hc | lia |]. res_cbn.
  destruct (negb (Class SP =? S1)); [left; eexists; split; [done | lia] |].
  destruct (AddEquiv_ok n S1 []) as (k & -> & HE & _); [by split; constructor | lia .. |]. res_cbn.
  destruct (equiv_loop limit ([] ++ k) HE) as (r & -> & Hr); [nia |]. res_cbn. destruct r as [E|].
  - right. eexists. split; [done | exact Hr].
  - left. eexists. split; [done | lia].
Qed.
End Pairs.

(** ** Merging *)
Lemma merge_pairs_ok E : forall tab, classes_ok tab -> Forall pair_ok E -> (forall p, p ∈ E -> same_lang p.1 p.2) ->
  exists tab', merge_pairs E tab = Ok tab' /\ classes_ok tab'.
Proof.
  induction E as [|[l r] E IH]; intros tab Hc Hf Hl; cbn [merge_pairs]; [by exists tab |].
  apply List.Forall_cons_iff in Hf as [Hp Hf]. unfold pair_ok in Hp. cbn in Hp. pose proof Hc as [Hs Hcl].
  destruct (class_of_ok tab l) as (SP & HSP & ->); [done | lia |]. res_cbn.
  destruct (set_state_class_ok tab r (Class SP) Hs) as (tab1 & -> & Hs1 & Hcl1); [lia |]. res_cbn.
  apply IH; [| done | intros p Hp'; apply Hl; by right]. split; [done |].
  intros i S1 Hi. destruct (Hcl1 i S1 Hi) as (S0 & H0 & ->). destruct (decide (i = r)) as [->|]; [| by apply Hcl].
  destruct (Hcl l SP HSP) as [HR HL]. split; [lia |]. eapply same_lang_trans; [exact HL |]. apply (Hl (l, r)). by left.
Qed.

Context (limit : positive).
Hypothesis Hlim : zlen tab0 * zlen tab0 + zlen tab0 < Zpos limit.

Lemma merge_body_ok n tab : 0 <= n < zlen tab0 -> classes_ok tab -> exists tab', merge_body limit n tab = Ok tab' /\ classes_ok tab'.
Proof.
  intros Hn Hc. unfold merge_body. destruct (class_of_ok tab n) as (SP & HSP & Ec); [apply Hc | done |]. rewrite Ec. res_cbn.
  destruct (Z.eqb_spec (Class SP) n) as [E|]; cbn [negb]; [| by exists tab].
  destruct (partner_loop tab Hc limit n Hn) as (r & -> & Hr); [by rewrite Ec, E | done |]. res_cbn.
  destruct r as [P|]; [| by exists tab]. destruct Hr as [[_ Hr] Hl]. by apply merge_pairs_ok.
Qed.

(** ** Numbering *)

(** [K i]: the number given to the state [i]. *)
Record numbered (n k : Z) (K : Z -> Z) : Prop := mkNumbered {
  nb_range : forall i, 0 <= i < n -> 0 <= K i < k;
  nb_lang : forall i j, 0 <= i < n -> 0 <= j < n -> K i = K j -> same_lang i j;
  nb_first : forall c, 0 <= c < k -> exists i, 0 <= i < n /\ K i = c /\ forall j, 0 <= j < i -> K j < c;
  nb_count : 0 <= k <= n
}.

Lemma numbered_ext n k K K' : (forall i, 0 <= i < n -> K' i = K i) -> numbered n k K -> numbered n k K'.
Proof.
  intros He [H1 H2 H3 H4]. split; [| | | done].
  - intros i Hi. rewrite He by done. auto.
  - intros i j Hi Hj. rewrite !He by done. auto.
  - intros c Hc. destruct (H3 c Hc) as (i & Hi & E & Hf). exists i. split; [done |]. rewrite He by done. split; [done |].
    intros j Hj. rewrite He by lia. auto.
Qed.

Lemma numbered_new n k K : numbered n k K -> K n = k -> numbered (n + 1) (k + 1) K.
Proof.
  intros [H1 H2 H3 H4] Hn. split; [| | | lia].
  - intros i Hi. destruct (decide (i = n)) as [->|]; [lia |]. specialize (H1 i ltac:(lia)). lia.
  - intros i j Hi Hj E. destruct (decide (i = n)) as [->|], (decide (j = n)) as [->|].
    + apply same_lang_refl.
    + specialize (H1 j ltac:(lia)). lia.
    + specialize (H1 i ltac:(lia)). lia.
    + apply H2; [lia .. | done].
  - intros c Hc. destruct (decide (c = k)) as [->|].
    + exists n. split; [lia |]. split; [done |]. intros j Hj. by apply H1.
    + destruct (H3 c ltac:(lia)) as (i & Hi & E & Hf). exists i. split; [lia | done].
Qed.

Lemma numbered_old n k K c : numbered n k K -> 0 <= c < n -> same_lang c n -> K n = K c -> numbered (n + 1) k K.
Proof.
  intros [H1 H2 H3 H4] Hc Hl Hn. split; [| | | lia].
  - intros i Hi. destruct (decide (i = n)) as [->|]; [rewrite Hn |]; apply H1; lia.
  - intros i j Hi Hj E. destruct (decide (i = n)) as [->|], (decide (j = n)) as [->|].
    + apply same_lang_refl.
    + apply same_lang_trans with c; [by apply same_lang_sym | apply H2; [lia .. | congruence]].
    + apply same_lang_trans with c; [apply H2; [lia .. | congruence] | done].
    + apply H2; [lia .. | done].
  - intros d Hd. destruct (H3 d Hd) as (i & Hi & E & Hf). exists i. split; [lia | done].
Qed.

Definition num_inv (n : Z) (st : Z * list state) : Prop :=
  same_states st.2 /\ exists K, numbered n st.1 K /\
    (forall i SP, aget st.2 i = Ok SP -> i < n -> Class SP = K i) /\
    (forall i SP, aget st.2 i = Ok SP -> n <= i -> 0 <= Class SP <= i /\ same_lang (Class SP) i).

Lemma number_body_ok n st : 0 <= n < zlen tab0 -> num_inv n st -> exists st', number_body n st = Ok st' /\ num_inv (n + 1) st'.
Proof.
  intros Hn. destruct st as [k tab]. intros (Hs & K & Hnum & Hlo & Hhi). cbn [fst snd] in *. unfold number_body.
  destruct (class_of_ok tab n Hs Hn) as (SP & HSP & ->). res_cbn. destruct (Hhi n SP HSP) as [HR HL]; [lia |].
  destruct (Z.eqb_spec (Class SP) n) as [E|Ne].
  - destruct (set_state_class_ok tab n k Hs Hn) as (tab1 & -> & Hs1 & Hcl1). res_cbn. eexists. split; [done |]. split; [done |]. cbn [fst snd].
    exists (fun i => if decide (i = n) then k else K i). split; [| split].
    + apply numbered_new; [| by rewrite decide_True]. apply (numbered_ext n k K); [| done]. intros i Hi. rewrite decide_False; [done | lia].
    + intros i S1 Hi Hlt. destruct (Hcl1 i S1 Hi) as (S0 & H0 & ->). destruct (decide (i = n)); [done |]. apply Hlo; [done | lia].
    + intros i S1 Hi Hlt. destruct (Hcl1 i S1 Hi) as (S0 & H0 & ->). rewrite decide_False by lia. apply Hhi; [done | lia].
  - destruct (class_of_ok tab (Class SP) Hs) as (SC & HSC & ->); [lia |]. res_cbn.
    destruct (set_state_class_ok tab n (Class SC) Hs Hn) as (tab1 & -> & Hs1 & Hcl1). res_cbn. eexists. split; [done |]. split; [done |]. cbn [fst snd].
    assert (Class SC = K (Class SP)) as EC by (apply Hlo; [done | lia]).
    exists (fun i => if decide (i = n) then Class SC else K i). split; [| split].
    + apply (numbered_old n k _ (Class SP)); [| lia | done |].
      * apply (numbered_ext n k K); [| done]. intros i Hi. rewrite decide_False; [done | lia].
      * cbv beta. rewrite decide_True by done. rewrite decide_False by lia. done.
    + intros i S1 Hi Hlt. destruct (Hcl1 i S1 Hi) as (S0 & H0 & ->). destruct (decide (i = n)); [done |]. apply Hlo; [done | lia].
    + intros i S1 Hi Hlt. destruct (Hcl1 i S1 Hi) as (S0 & H0 & ->). rewrite decide_False by lia. apply Hhi; [done | lia].
Qed.

(** The states with the numbers of their classes. *)
Definition merged (tab : list state) : Prop :=
  same_states tab /\ exists k K, numbered (zlen tab0) k K /\ forall i SP, aget tab i = Ok SP -> Class SP = K i.

Lemma MergeStates_ok : (forall i SP, aget tab0 i = Ok SP -> Class SP = i) -> exists tab, MergeStates limit tab0 = Ok tab /\ merged tab.
Proof.
  intros H0. unfold MergeStates. pose proof (zlen_nonneg tab0) as Hz.
  destruct (for_up_rule (merge_body limit) (fun _ => classes_ok) 0 (zlen tab0) tab0) as (tab & -> & Hc); [done | | |].
  { intros i s Hi. by apply merge_body_ok. }
  { split; [split; [done |]; intros i SP Hi; by exists SP |]. intros i SP Hi. rewrite (H0 i SP Hi). pose proof (aget_range _ _ _ Hi).
    split; [lia | apply same_lang_refl]. }
  res_cbn. destruct Hc as [Hs Hcl]. pose proof (proj1 Hs) as Hlen. rewrite Hlen.
  destruct (for_up_rule number_body num_inv 0 (zlen tab0) (0, tab)) as ([k tab'] & -> & Hs' & K & Hnum & Hlo & _); [done | | |].
  { intros i s Hi. by apply number_body_ok. }
  { split; [done |]. exists (fun _ => 0). split; [split; cbn; intros; lia |]. split; [intros i SP Hi; pose proof (aget_range _ _ _ Hi); lia |]. auto. }
  res_cbn. exists tab'. split; [done |]. split; [done |]. exists k, K. split; [done |].
  intros i SP Hi. apply Hlo; [done |]. pose proof (aget_range _ _ _ Hi). destruct Hs' as [Hl' _]. cbn in Hl'. rewrite <- Hl'. cbn. lia.
Qed.
End Merge.

(** C16. MergeStates, for any table of states whose transitions stay inside: it ends within a
    number of rounds that is quadratic in the number of states, changes nothing but the classes of
    the states, states with the same class accept the same words, and the classes are
    numbered from 0 in the order of their first states. *)
Theorem MergeStates_correct name tab0 limit :
  (forall i SP p D, aget tab0 i = Ok SP -> (p, D) ∈ ShList SP -> 0 <= D < zlen tab0) ->
  (forall i SP, aget tab0 i = Ok SP -> Class SP = i) ->
  zlen tab0 * zlen tab0 + zlen tab0 < Zpos limit ->
  exists tab k, MergeStates limit tab0 = Ok tab /\ same_states tab0 tab /\ 0 <= k <= zlen tab0 /\
    (forall i SP, aget tab i = Ok SP -> 0 <= Class SP < k) /\
    (forall i j SP SP', aget tab i = Ok SP -> aget tab j = Ok SP' -> Class SP = Class SP' -> forall v, saccept name tab0 i v <-> saccept name tab0 j v) /\
    (forall c, 0 <= c < k -> exists i SP, aget tab i = Ok SP /\ Class SP = c /\ forall j SP', j < i -> aget tab j = Ok SP' -> Class SP' < c).
Proof.
  intros Hin Hcl Hlim. destruct (MergeStates_ok name tab0 Hin limit Hlim Hcl) as (tab & E & Hs & k & K & [N1 N2 N3 N4] & HK).
  assert (forall i SP, aget tab i = Ok SP -> 0 <= i < zlen tab0) as Hr by (intros i SP Hi; rewrite <- (proj1 Hs); by apply (aget_range _ _ SP)).
  exists tab, k. split; [done |]. split; [done |]. split; [done |]. split; [| split].
  - intros i SP Hi. rewrite (HK i SP Hi). eauto.
  - intros i j SP SP' Hi Hj. rewrite (HK i SP Hi), (HK j SP' Hj). intros Hk. apply N2; eauto.
  - intros c Hc. destruct (N3 c Hc) as (i & Hi & Ei & Hf). destruct (aget_some tab i) as [SP HSP]; [by rewrite (proj1 Hs) |].
    exists i, SP. split; [done |]. rewrite (HK i SP HSP). split; [done |]. intros j SP' Hj HSP'. rewrite (HK j SP' HSP'). apply Hf.
    pose proof (Hr j SP' HSP'). lia.
Qed.

(** Three states, the last two of which are equivalent. *)
Definition three_states : list state := [mkState 0 [] false [(0, 1); (1, 2)]; mkState 1 [] true [(0, 2)]; mkState 2 [] true [(0, 1)]].

Lemma MergeStates_correct_witness : exists tab k, MergeStates 100 three_states = Ok tab /\ same_states three_states tab /\ 0 <= k <= 3 /\
    (forall i SP, aget tab i = Ok SP -> 0 <= Class SP < k) /\
    (forall i j SP SP', aget tab i = Ok SP -> aget tab j = Ok SP' -> Class SP = Class SP' ->
       forall v, saccept (fun p => [p]) three_states i v <-> saccept (fun p => [p]) three_states j v) /\
    (forall c, 0 <= c < k -> exists i SP, aget tab i = Ok SP /\ Class SP = c /\ forall j SP', j < i -> aget tab j = Ok SP' -> Class SP' < c).
Proof.
  assert (forall i SP, aget three_states i = Ok SP -> (i = 0 \/ i = 1 \/ i = 2) /\ Class SP = i /\ forall s, s ∈ ShList SP -> 0 <= s.2 < 3) as H.
  { intros i SP Hi. pose proof (aget_range _ _ _ Hi) as Hr. change (zlen three_states) with 3 in Hr.
    assert (i = 0 \/ i = 1 \/ i = 2) as [->|[->| ->]] by lia; injection Hi as <-; (split; [lia |]); (split; [reflexivity |]);
      cbn [ShList]; intros s Hs; rewrite ?elem_of_cons, elem_of_nil in Hs; destruct_or!; subst; cbn; lia || done. }
  apply (MergeStates_correct (fun p => [p]) three_states 100).
  - intros i SP p D Hi Hin. destruct (H i SP Hi) as (_ & _ & Hs). apply (Hs _ Hin).
  - intros i SP Hi. apply (H i SP Hi).
  - vm_compute. reflexivity.
Defined.
