(* ===== verification/RegexDfa.v ===== *)
(** * The tables of the automaton of regex2dfa.c

    [fill_tables] gives every class of states a row with one target for every
    pattern, [E_State] where there is no transition.  [fill_tables_ok]: the automaton
    accepts from the number of a state what the state accepts. *)

From Stdlib Require Import ZArith Lia.
From stdpp Require Import base tactics option list numbers sorting.
From S2P Require Import Prelude Regex2dfa Evaltree RegexTables RegexSymbols EvaltreeText RegexMerge.

Open Scope Z_scope.

(** The runs of an automaton over patterns; a state that is not in the table accepts
    nothing. *)
Fixpoint dfa_accepts (d : DFA) (s : Z) (w : list Z) : bool :=
  match w with
  | [] => match aget (Final d) s with Ok b => b | Err _ => false end
  | a :: w =>
      match (row ← aget (TransTable d) s; aget row a) with
      | Ok s' => negb (s' =? E_State d) && dfa_accepts d s' w
      | Err _ => false
      end
  end.

(** The tables have the sizes that the numbers of states and patterns ask for; the error state does not accept. *)
Record dfa_tables (d : DFA) : Prop := {
  dt_inputs : 0 <= Max_Input d;
  dt_rows : zlen (TransTable d) = Max_States d;
  dt_row : forall s row, aget (TransTable d) s = Ok row -> zlen row = Max_Input d;
  dt_cell : forall s row p t, aget (TransTable d) s = Ok row -> aget row p = Ok t -> 0 <= t <= Max_States d;
  dt_final : zlen (Final d) = Max_States d + 1;
  dt_error : aget (Final d) (Max_States d) = Ok false
}.

Section Tables.
Context (t : tables) (tab0 tab : list state) (n k : Z) (K : Z -> Z).
Abbreviation name := (nm t).
Abbreviation Ss := (zlen tab0).

Hypothesis Hn : 0 <= n <= 10 ^ 5.
Hypothesis names : forall p, 0 <= p < zlen (Symbols t) -> exists i, 0 <= i < n /\ name p = print_int i.
Hypothesis shifts_in : forall i SP p D, aget tab0 i = Ok SP -> (p, D) ∈ ShList SP -> 0 <= p < zlen (Symbols t) /\ 0 <= D < Ss.
Hypothesis shifts_sorted : forall i SP, aget tab0 i = Ok SP -> StronglySorted (fun a b => strcmp (name a.1) (name b.1) = -1) (ShList SP).
Hypothesis Hs : same_states tab0 tab.
Hypothesis HK : numbered name tab0 Ss k K.
Hypothesis Hcl : forall i SP, aget tab i = Ok SP -> Class SP = K i.

(** The pattern of a symbol. *)
Definition pat (p : Z) : Z := match atoi (name p) with Ok i => i | Err _ => 0 end.

Lemma pat_ok p : 0 <= p < zlen (Symbols t) -> 0 <= pat p < n /\ name p = print_int (pat p) /\ atoi (name p) = Ok (pat p).
Proof. intros Hp. destruct (names p Hp) as (i & Hi & E). unfold pat. rewrite E, (atoi_print_int i) by lia. done. Qed.

Lemma print_int_inj i j : 0 <= i < n -> 0 <= j < n -> print_int i = print_int j -> i = j.
Proof. intros Hi Hj E. assert (Ok i = Ok j) as [= ->]; [| done]. rewrite <- (atoi_print_int i), <- (atoi_print_int j) by lia. by rewrite E. Qed.

Definition pats (sh : list (Z * Z)) : list Z := (fun s => pat s.1) <$> sh.

Lemma pats_nodup sh : StronglySorted (fun a b : Z * Z => strcmp (name a.1) (name b.1) = -1) sh -> (forall s, s ∈ sh -> 0 <= s.1 < zlen (Symbols t)) ->
  NoDup (pats sh).
Proof.
  induction 1 as [|s sh Hsh IH Hf]; intros Hr; [constructor |]. constructor; [| apply IH; intros x Hx; apply Hr; by right].
  intros (s' & E & Hin)%list_elem_of_fmap. pose proof (proj1 (list.Forall_forall _ _) Hf s' Hin) as Hlt. cbn in Hlt.
  destruct (pat_ok s.1) as (_ & E1 & _); [apply Hr; by left |]. destruct (pat_ok s'.1) as (_ & E2 & _); [apply Hr; by right |].
  assert (name s.1 = name s'.1) as E3 by congruence. by rewrite E3, strcmp_refl in Hlt.
Qed.

(** ** A row *)
Record row_ok (sh : list (Z * Z)) (old row : list Z) : Prop := mkRowOk {
  ro_len : zlen row = zlen old;
  ro_shift : forall p D, (p, D) ∈ sh -> aget row (pat p) = Ok (K D);
  ro_other : forall a, a ∉ pats sh -> aget row a = aget old a
}.

Lemma class_of_K D : 0 <= D < Ss -> class_of tab D = Ok (K D).
Proof. intros HD. destruct (class_of_ok tab0 tab D Hs HD) as (SP & H1 & ->). by rewrite (Hcl D SP H1). Qed.

Lemma fill_row_ok sh : forall old, (forall p D, (p, D) ∈ sh -> 0 <= p < zlen (Symbols t) /\ 0 <= D < Ss) -> NoDup (pats sh) -> zlen old = n ->
  exists row, fill_row (Symbols t) tab sh old = Ok row /\ row_ok sh old row.
Proof.
  induction sh as [|[p D] sh IH]; intros old Hr Hd Hl; cbn [fill_row].
  { exists old. split; [done |]. split; [done | | done]. intros p D []%not_elem_of_nil. }
  destruct (Hr p D) as [Hp HD]; [by left |]. rewrite (class_of_K D HD). res_cbn.
  destruct (aget_some _ _ Hp) as [s Es]. destruct (pat_ok p Hp) as (Hpr & _ & Ea).
  assert (name p = Name s) as En by (unfold nm; by rewrite Es). rewrite Es. res_cbn. rewrite <- En, Ea. res_cbn.
  rewrite aset_Ok by lia. res_cbn. inversion Hd as [|? ? Hni Hd']; subst.
  destruct (IH (<[Z.to_nat (pat p):=K D]> old)) as (row & E & [R1 R2 R3]); [intros q E' Hin; apply Hr; by right | done | by rewrite zlen_insert |].
  exists row. split; [done |]. rewrite zlen_insert in R1. split; [done | |].
  - intros q E' [[= -> ->]|Hin]%elem_of_cons; [| by apply R2]. rewrite R3 by done. apply aget_insert. lia.
  - intros a Ha. apply not_elem_of_cons in Ha as [Ha1 Ha2]. rewrite R3 by done. apply aget_insert_ne; [lia | done].
Qed.

(** ** The tables *)
Definition blank : list Z := replicate (Z.to_nat n) Ss.

Record filled (m : Z) (st : Z * list (list Z) * list bool) : Prop := mkFilled {
  fi_trans : zlen st.1.2 = Ss;
  fi_final : zlen st.2 = Ss + 1;
  fi_count : 0 <= st.1.1 <= m;
  fi_before : forall i, 0 <= i < m -> K i < st.1.1;
  fi_done : forall c, 0 <= c < st.1.1 -> exists i SP row, 0 <= i < Ss /\ aget tab0 i = Ok SP /\ K i = c /\
    aget st.2 c = Ok (Empty SP) /\ aget st.1.2 c = Ok row /\ row_ok (ShList SP) blank row;
  fi_rest : forall c, st.1.1 <= c < Ss -> aget st.1.2 c = Ok blank /\ aget st.2 c = Ok false;
  fi_error : aget st.2 Ss = Ok false
}.

Lemma zlen_blank : zlen blank = n.
Proof. unfold blank, zlen. rewrite length_replicate. lia. Qed.

Lemma table_body_ok m st : 0 <= m < Ss -> filled m st -> exists st', table_body (Symbols t) tab m st = Ok st' /\ filled (m + 1) st'.
Proof.
  intros Hm. destruct st as [[c trans] final]. intros [F1 F2 F3 F4 F5 F6 F7]. cbn [fst snd] in *.
  destruct (aget_some tab m) as [SP HSP]; [by rewrite (proj1 Hs) |]. unfold table_body. rewrite HSP. res_cbn. rewrite (Hcl m SP HSP).
  pose proof HK as [N1 N2 N3 N4].
  assert (K m <= c) as Hle.
  { destruct (Z.le_gt_cases (K m) c) as [|Hgt]; [done | exfalso]. destruct (N1 m Hm) as [_ Hk]. destruct (N3 c ltac:(lia)) as (i & Hi & E & Hf).
    destruct (Z.lt_trichotomy i m) as [H|[->|H]]; [specialize (F4 i ltac:(lia)); lia | lia | specialize (Hf m ltac:(lia)); lia]. }
  destruct (Z.eqb_spec (K m) c) as [E|Ne]; cbn [negb].
  2: { eexists. split; [done |]. split; cbn [fst snd]; try done; [lia |]. intros i Hi. destruct (decide (i = m)) as [->|]; [lia | apply F4; lia]. }
  destruct (proj2 Hs m SP HSP) as (SP0 & H0 & _ & He & Hsh). destruct (F6 c ltac:(lia)) as [Ft Ff]. rewrite E.
  destruct (fill_row_ok (ShList SP) blank) as (row & Er & Hrow).
  { rewrite Hsh. intros p D. by apply (shifts_in m SP0). }
  { rewrite Hsh. apply pats_nodup; [by apply (shifts_sorted m) |]. intros [p D] Hin. by destruct (shifts_in m SP0 p D H0 Hin). }
  { apply zlen_blank. }
  assert (exists final', (if Empty SP then aset final c true else Ok final) = Ok final' /\ zlen final' = zlen final /\ aget final' c = Ok (Empty SP) /\
    forall d, d <> c -> aget final' d = aget final d) as (final' & -> & L1 & L2 & L3).
  { destruct (Empty SP).
    - rewrite aset_Ok by lia. eexists. split; [done |]. split; [by rewrite zlen_insert |]. split; [apply aget_insert; lia |].
      intros d Hd. apply aget_insert_ne; [lia | done].
    - exists final. split; [done |]. split; [done |]. split; [done | done]. }
  res_cbn. rewrite Ft. res_cbn. rewrite Er. res_cbn. rewrite aset_Ok by lia. res_cbn. eexists. split; [done |]. rewrite Hsh in Hrow.
  split; cbn [fst snd].
  - by rewrite zlen_insert.
  - lia.
  - lia.
  - intros i Hi. destruct (decide (i = m)) as [->|]; [lia |]. specialize (F4 i ltac:(lia)). lia.
  - intros d Hd. destruct (decide (d = c)) as [->|Hne].
    + exists m, SP0, row. split; [done |]. split; [done |]. split; [done |]. split; [by rewrite L2, He |]. split; [apply aget_insert; lia | done].
    + destruct (F5 d ltac:(lia)) as (i & S & r & G1 & G2 & G3 & G4 & G5 & G6). exists i, S, r. do 3 (split; [done |]).
      split; [by rewrite L3 |]. split; [| done]. by rewrite aget_insert_ne by lia.
  - intros d Hd. destruct (F6 d ltac:(lia)) as [G1 G2]. rewrite aget_insert_ne by lia. rewrite L3 by lia. done.
  - by rewrite L3 by lia.
Qed.

Lemma aget_replicate_lt {A} (x : A) m i : 0 <= i < m -> aget (replicate (Z.to_nat m) x) i = Ok x.
Proof. intros Hi. apply aget_Ok. split; [lia |]. apply lookup_replicate_2. lia. Qed.

Lemma filled_tables c trans final : filled Ss (c, trans, final) -> dfa_tables (mkDFA Ss n trans final Ss).
Proof.
  intros [F1 F2 F3 F4 F5 F6 F7]. cbn [fst snd] in *. pose proof HK as [N1 N2 N3 N4].
  assert (forall s row, aget trans s = Ok row -> row = blank \/ exists j SP, aget tab0 j = Ok SP /\ row_ok (ShList SP) blank row) as Hrow.
  { intros s row Hs'. pose proof (aget_range _ _ _ Hs') as Hr. destruct (Z.lt_ge_cases s c) as [Hlt|Hge].
    - right. destruct (F5 s ltac:(lia)) as (j & SP & row' & _ & HSP & _ & _ & Hr' & Hok). exists j, SP. split; [done |]. congruence.
    - left. destruct (F6 s ltac:(lia)) as [Hb _]. congruence. }
  split; cbn [TransTable Max_States Max_Input Final]; try done; [lia | |].
  - intros s row Hs'. destruct (Hrow s row Hs') as [->|(j & SP & _ & [R1 _ _])]; [apply zlen_blank | by rewrite R1, zlen_blank].
  - intros s row p D Hs' Hp. pose proof (zlen_nonneg tab0). assert (forall a x, aget blank a = Ok x -> x = Ss) as Hblank by (intros a x; apply aget_replicate).
    destruct (Hrow s row Hs') as [->|(j & SP & HSP & [_ R2 R3])]; [rewrite (Hblank p D Hp); lia |]. destruct (decide (p ∈ pats (ShList SP))) as [Hin|Hout].
    + apply list_elem_of_fmap in Hin as ([q D'] & E & Hin). cbn in E. rewrite E, (R2 q D' Hin) in Hp. injection Hp as <-. destruct (shifts_in j SP q D' HSP Hin) as [_ HD]. pose proof (N1 D' HD). lia.
    + rewrite (R3 p Hout) in Hp. rewrite (Hblank p D Hp). lia.
Qed.

Lemma fill_tables_ok MaxPatIndex : n = MaxPatIndex + 1 -> exists d, fill_tables (Symbols t) tab MaxPatIndex = Ok d /\
  Max_States d = Ss /\ Max_Input d = n /\ E_State d = Ss /\ dfa_tables d /\
  forall w i, Forall (fun a => 0 <= a < n) w -> 0 <= i < Ss -> dfa_accepts d (K i) w = true <-> saccept name tab0 i (print_int <$> w).
Proof.
  intros En. unfold fill_tables. rewrite <- En, c_int_Ok by (unfold INT_MIN, INT_MAX; lia). res_cbn.
  rewrite (proj2 (Z.ltb_ge n 0)) by lia. rewrite (proj1 Hs). pose proof (zlen_nonneg tab0) as Hz.
  destruct (for_up_rule (table_body (Symbols t) tab) filled 0 Ss (0, replicate (Z.to_nat Ss) blank, replicate (Z.to_nat (Ss + 1)) false))
    as ([[c trans] final] & Er & F); [done | intros i s; apply table_body_ok | |].
  { split; cbn [fst snd]; try lia.
    - rewrite zlen_replicate. lia.
    - rewrite zlen_replicate. lia.
    - intros d Hd. rewrite !aget_replicate_lt by lia. done.
    - by apply aget_replicate_lt; lia. }
  fold blank. rewrite Er. res_cbn. eexists. split; [done |]. pose proof F as [F1 F2 F3 F4 F5 F6 _]. cbn [fst snd] in *. do 3 (split; [done |]). split; [by apply (filled_tables c) |].
  assert (forall i, 0 <= i < Ss -> exists j SP row, 0 <= j < Ss /\ aget tab0 j = Ok SP /\ same_lang name tab0 i j /\
    aget final (K i) = Ok (Empty SP) /\ aget trans (K i) = Ok row /\ row_ok (ShList SP) blank row) as HR.
  { intros i Hi. pose proof (F4 i Hi). destruct HK as [N1 N2 N3 N4]. pose proof (N1 i Hi).
    destruct (F5 (K i) ltac:(lia)) as (j & SP & row & G1 & G2 & G3 & G). exists j, SP, row. split; [done |]. split; [done |]. split; [| done].
    by apply N2. }
  induction w as [|a w IH]; intros i Hw Hi; destruct (HR i Hi) as (j & SP & row & Hj & HSP & Hl & Hf & Ht & [R1 R2 R3]);
    change (fmap print_int ?l) with (map print_int l); cbn [map dfa_accepts Final TransTable E_State].
  { rewrite Hf. rewrite (Hl []). cbn. rewrite HSP. split; [intros He; by exists SP | intros (S & [= <-] & He); done]. }
  apply List.Forall_cons_iff in Hw as [Ha Hw]. rewrite Ht. res_cbn. rewrite (Hl (print_int a :: map print_int w)). cbn [saccept].
  destruct (decide (a ∈ pats (ShList SP))) as [Hin|Hout].
  - apply list_elem_of_fmap in Hin as ([p D] & E & Hin). cbn in E. destruct (shifts_in j SP p D HSP Hin) as [Hp HD].
    pose proof (R2 p D Hin) as Ep. rewrite <- E in Ep. rewrite Ep. destruct HK as [N1 N2 N3 N4]. pose proof (N1 D HD).
    rewrite (proj2 (Z.eqb_neq (K D) Ss)) by lia. cbn [negb andb]. rewrite (IH D Hw HD). split.
    + intros Hv. exists SP, p, D. split; [done |]. split; [done |]. split; [| done]. destruct (pat_ok p Hp) as (_ & -> & _). by rewrite E.
    + intros (S & q & D' & HS & Hin' & Hq & Hv). assert (S = SP) as -> by congruence.
      destruct (shifts_in j SP q D' HSP Hin') as [Hq' HD']. destruct (pat_ok q Hq') as (Hqr & Eq & _).
      assert (pat q = a) as E2 by (apply print_int_inj; [done | done | congruence]).
      pose proof (R2 q D' Hin') as Eq'. rewrite E2 in Eq'. assert (K D = K D') as EK by congruence. by apply (N2 D D').
  - rewrite (R3 a Hout). unfold blank. rewrite aget_replicate_lt by done. rewrite Z.eqb_refl. cbn [negb andb]. split; [done |].
    intros (S & q & D' & HS & Hin' & Hq & Hv). assert (S = SP) as -> by congruence. destruct Hout.
    destruct (shifts_in j SP q D' HSP Hin') as [Hq' HD']. destruct (pat_ok q Hq') as (Hqr & Eq & _).
    assert (pat q = a) as E2 by (apply print_int_inj; [done | done | congruence]).
    apply list_elem_of_fmap. by exists (q, D').
Qed.
End Tables.
