(* ===== verification/RegexShape.v ===== *)
(** * The shape of the classes of regex2dfa.c

    Why the construction ends: [meas_alg] gives to every class two numbers that the
    rewriting keeps.  The first is the least weight of a word together with its
    length; the second is more than the first number of every continuation of the class.
    [shape]: which expressions the classes have been entered for, in terms of the
    [N0] classes of the parser and of these numbers.  A class is [flat] unless it has
    been entered as the product of the empty word and another one.

    The shape is kept: [shape_new] by [MakeExp] with a new class; [shape_at] and [shape_copied]
    by a new value of the class under evaluation; [shape_ends] when its evaluation ends. *)

From Stdlib Require Import ZArith Lia.
From stdpp Require Import base tactics option list numbers.
From S2P Require Import Prelude.
From S2P Require Import Regex2dfa.
From S2P Require Import RegexTables.
From S2P Require Import RegexEval.
From S2P Require Import RegexSem.

Open Scope Z_scope.

(** ** The measures *)
Abbreviation mea := (nat * nat)%type.

Definition m_or (x y : mea) : mea := (S (Nat.min x.1 y.1), Nat.max x.2 y.2).
Definition m_lift (l n : nat) : nat := match l with O => O | S _ => (l + n)%nat end.
Definition m_and (x y : mea) : mea := ((x.1 + y.1)%nat, Nat.max (m_lift x.2 y.1) y.2).
Definition m_plus (x : mea) : mea := (S x.1, m_lift x.2 1).
Definition m_star (x : mea) : mea := (1%nat, m_lift x.2 1).
Definition m_opt (x : mea) : mea := (1%nat, x.2).

Definition meas_alg : algebra :=
  mkAlgebra mea eq (fun _ => True) (fun _ => (1%nat, 1%nat)) (O, O) (O, O) m_and m_or m_star m_plus m_opt.

#[export] Instance meas_laws : alg_laws meas_alg.
Proof.
  split; [exact eq_equivalence | ..]; cbn; try solve_proper; try done;
    repeat match goal with |- forall _ : mea, _ => intros [? ?] end; intros;
    unfold m_and, m_or, m_star, m_plus, m_opt, m_lift; cbn [fst snd];
    f_equal; repeat case_match; subst; cbn in *; try lia; try done.
Qed.

(** ** Terminal values *)
Definition terminal (t : tables) (e : expr) : Prop :=
  match e with
  | SymX _ | OneX | OrX _ _ => True
  | AndX x _ => exists p, value t x (SymX p)
  | _ => False
  end.

Lemma terminal_mono t t' e : (forall x p, value t x (SymX p) -> value t' x (SymX p)) -> terminal t e -> terminal t' e.
Proof. intros H. destruct e; cbn; try done. intros [p Hp]. exists p. auto. Qed.

Section Shape.
(** The classes of the parser, and the bound on the second number. *)
Context (N0 : Z) (L0 : nat).

(** What the classes have been entered for, and their measures. *)
Section Kinds.
Context (ini : Z -> expr) (m : Z -> mea).

Definition nu (q : Z) : nat := (m q).1.
Definition lv (q : Z) : nat := (m q).2.

Definition flat (q : Z) : Prop := forall x y, ini q = AndX x y -> nu x <> O.
Definition alias (q u : Z) : Prop := exists x, ini q = AndX x u /\ nu x = O.
Definition shallow (q : Z) : Prop := flat q \/ exists u, alias q u /\ flat u.

(** The class may get the value [AndX x y] for a [y] of measure [k]. *)
Definition rem (k : nat) (s : Z) : Prop :=
  0 <= s < N0 \/ (exists a, 0 <= a < N0 /\ ini s = PlusX a) \/ exists x y, ini s = AndX x y /\ nu x <> O /\ (nu y <= k)%nat.
Definition spine (k : nat) (s : Z) : Prop := rem k s \/ exists u, alias s u /\ rem k u.

(** What a class that is not one of the parser's is entered for. *)
Definition kind_of (e : expr) : Prop :=
  match e with
  | OneX => True
  | StarX a | PlusX a => 0 <= a < N0
  | AndX x y => (1 <= nu y <= L0)%nat /\ shallow y
  | OrX z s => (1 <= nu z <= L0)%nat /\ (nu z <= nu s)%nat /\ spine (nu z) s
  | _ => False
  end.

Definition kind_orig (e : expr) : Prop :=
  (forall a, a ∈ args e -> 0 <= a < N0) /\ e <> ZeroX /\ e <> OneX /\
  match e with AndX x y => (1 <= nu y <= L0)%nat /\ shallow y | _ => True end.

Lemma rem_mono k k' s : (k <= k')%nat -> rem k s -> rem k' s.
Proof. intros Hk [H|[H|(x & y & H1 & H2 & H3)]]; [by left | right; by left | right; right; exists x, y; split; [done | split; [done | lia]]]. Qed.

Lemma spine_mono k k' s : (k <= k')%nat -> spine k s -> spine k' s.
Proof. intros Hk [H|(u & H1 & H2)]; [left | right; exists u; split; [done |]]; by apply (rem_mono k). Qed.
End Kinds.

Record shape (t : tables) (ini : Z -> expr) (m : Z -> mea) (Ev : list Z) (cur : Z) : Prop := mkShape {
  sh_tinv : tinv t;
  sh_meas : interp (A:=meas_alg) t m;
  sh_ini : forall q, in_tab t q -> hashed t (ini q) q;
  sh_args : forall q a, in_tab t q -> a ∈ args (ini q) -> 0 <= a < q;
  sh_kind : forall q, in_tab t q -> (0 <= q < N0 /\ kind_orig ini m (ini q)) \/ (N0 <= q /\ kind_of ini m (ini q));
  sh_orig : forall q, 0 <= q < N0 -> in_tab t q;
  sh_zero : forall q, ~ hashed t ZeroX q;
  sh_level : forall q, in_tab t q -> (lv m q <= L0)%nat;
  sh_pos : forall q, in_tab t q -> (nu m q = O -> ini q = OneX) /\ (nu m q <> O -> lv m q <> O);
  sh_right : forall q x y, in_tab t q -> ini q = AndX x y -> flat ini m y \/ y ∈ Ev \/ y = cur;
  sh_plain : forall q, in_tab t q -> q ∉ Ev -> q <> cur -> value t q (ini q) /\ forall e, hashed t e q -> e = ini q;
  sh_done : forall q, q ∈ Ev -> in_tab t q /\ exists e, value t q e /\ terminal t e;
  sh_deep : forall q u, in_tab t q -> alias ini m q u -> ~ flat ini m u -> forall e, hashed t e q -> e = ini q
}.

Section Facts.
Context (t : tables) (ini : Z -> expr) (m : Z -> mea) (Ev : list Z) (cur : Z) (Hsh : shape t ini m Ev cur).

Lemma sh_value q e : value t q e -> aden (A:=meas_alg) t m e = m q.
Proof. intros H. apply (i_value (A:=meas_alg) t m (sh_meas _ _ _ _ _ Hsh) q e H). Qed.

Lemma sh_hashed e q : hashed t e q -> aden (A:=meas_alg) t m e = m q.
Proof. intros H. apply (i_hashed (A:=meas_alg) t m (sh_meas _ _ _ _ _ Hsh) e q H). Qed.

Lemma sh_ini_meas q : in_tab t q -> aden (A:=meas_alg) t m (ini q) = m q.
Proof. intros H. by apply sh_hashed, (sh_ini _ _ _ _ _ Hsh). Qed.

Lemma sh_inj q q' : in_tab t q -> in_tab t q' -> ini q = ini q' -> q = q'.
Proof.
  intros H H' E. apply (hashed_fun t (ini q)); [apply Hsh | by apply (sh_ini _ _ _ _ _ Hsh) | rewrite E; by apply (sh_ini _ _ _ _ _ Hsh)].
Qed.

Lemma sh_arg_in_tab q a : in_tab t q -> a ∈ args (ini q) -> in_tab t a.
Proof. intros Hq Ha. pose proof (sh_args _ _ _ _ _ Hsh q a Hq Ha). unfold in_tab in *. lia. Qed.

(** A class has the first number 0 only if it is the class of the empty word. *)
Lemma sh_nu0 q : in_tab t q -> nu m q = O <-> ini q = OneX.
Proof.
  intros Hq. split; [by apply (sh_pos _ _ _ _ _ Hsh) |]. intros E. pose proof (sh_ini_meas q Hq) as H. rewrite E in H.
  unfold nu. by rewrite <- H.
Qed.

Lemma sh_orig_pos q : 0 <= q < N0 -> nu m q <> O.
Proof.
  intros Hq E. pose proof (sh_orig _ _ _ _ _ Hsh q Hq) as Ht. apply (sh_nu0 q Ht) in E.
  destruct (sh_kind _ _ _ _ _ Hsh q Ht) as [(_ & _ & _ & H & _)|[H _]]; [done | lia].
Qed.

(** Classes that are products of the empty word with two levels are not right arguments. *)
Lemma shallow_hashed e q : in_tab t q -> hashed t e q -> (forall x y, e = AndX x y -> nu m x <> O) -> shallow ini m q.
Proof.
  intros Hq He Hf. destruct (ini q) as [| | |x y| | | |] eqn:Ei; try (left; intros ? ? E; congruence).
  destruct (decide (nu m x = O)) as [E0|N]; [| left; intros x' y' E; congruence].
  assert (alias ini m q y) as Ha by (by exists x).
  destruct (ini y) as [| | |x1 y1| | | |] eqn:Ey; try (right; exists y; split; [done |]; intros ? ? E; congruence).
  destruct (decide (nu m x1 = O)) as [E1|N1]; [| right; exists y; split; [done |]; intros ? ? E; congruence].
  exfalso. assert (e = ini q) as ->.
  { apply (sh_deep _ _ _ _ _ Hsh q y); [done | done | | done]. intros Hfl. by apply (Hfl x1 y1). }
  by apply (Hf x y).
Qed.

Lemma right_hashed e q : in_tab t q -> hashed t e q -> (forall x y, e = AndX x y -> nu m x <> O) -> flat ini m q \/ q ∈ Ev \/ q = cur.
Proof.
  intros Hq He Hf. destruct (decide (q ∈ Ev)) as [|He']; [auto |]. destruct (decide (q = cur)) as [|Hc]; [auto |].
  destruct (sh_plain _ _ _ _ _ Hsh q Hq He' Hc) as [_ Hu]. left. intros x y E. apply (Hf x y). by rewrite (Hu e He).
Qed.
End Facts.
End Shape.

Section Steps.
Context (N0 : Z) (L0 : nat).

(** ** More classes *)
Definition ext (t : tables) (ini ini' : Z -> expr) (m m' : Z -> mea) : Prop :=
  forall q, in_tab t q -> ini' q = ini q /\ m' q = m q.

Lemma ext_refl t ini m : ext t ini ini m m.
Proof. by intros q _. Qed.

Lemma ext_trans t1 t2 i1 i2 i3 m1 m2 m3 : (forall q, in_tab t1 q -> in_tab t2 q) -> ext t1 i1 i2 m1 m2 -> ext t2 i2 i3 m2 m3 -> ext t1 i1 i3 m1 m3.
Proof. intros Ht H1 H2 q Hq. destruct (H1 q Hq) as [<- <-]. by apply H2, Ht. Qed.

Section Ext.
Context (t : tables) (ini ini' : Z -> expr) (m m' : Z -> mea) (He : ext t ini ini' m m').
Hypothesis (Hargs : forall q a, in_tab t q -> a ∈ args (ini q) -> in_tab t a).

Lemma ext_nu q : in_tab t q -> nu m' q = nu m q.
Proof. intros Hq. unfold nu. by destruct (He q Hq) as [_ ->]. Qed.

Lemma ext_and q x y : in_tab t q -> ini q = AndX x y -> ini' q = AndX x y /\ in_tab t x /\ in_tab t y /\ nu m' x = nu m x /\ nu m' y = nu m y.
Proof.
  intros Hq E. assert (in_tab t x /\ in_tab t y) as [Hx Hy].
  { split; apply (Hargs q); rewrite ?E; cbn; try done; [by left | right; by left]. }
  destruct (He q Hq) as [-> _]. by rewrite !ext_nu.
Qed.

Lemma ext_back q e : in_tab t q -> ini' q = e -> ini q = e.
Proof. intros Hq E. by destruct (He q Hq) as [<- _]. Qed.

Lemma ext_flat q : in_tab t q -> flat ini' m' q <-> flat ini m q.
Proof.
  intros Hq. split; intros H x y E.
  - destruct (ext_and q x y Hq E) as (E' & _ & _ & <- & _). by apply (H x y).
  - apply (ext_back q _ Hq) in E. destruct (ext_and q x y Hq E) as (_ & _ & _ & -> & _). by apply (H x y).
Qed.

Lemma ext_alias q u : in_tab t q -> alias ini' m' q u <-> alias ini m q u.
Proof.
  intros Hq. split; intros (x & E & H).
  - apply (ext_back q _ Hq) in E. destruct (ext_and q x u Hq E) as (_ & _ & _ & E1 & _). exists x. by rewrite <- E1.
  - destruct (ext_and q x u Hq E) as (E' & _ & _ & E1 & _). exists x. by rewrite E1.
Qed.

Lemma alias_in_tab q u : in_tab t q -> alias ini m q u -> in_tab t u.
Proof. intros Hq (x & E & _). apply (Hargs q); [done |]. rewrite E. right. by left. Qed.

Lemma ext_shallow q : in_tab t q -> shallow ini m q -> shallow ini' m' q.
Proof.
  intros Hq [H|(u & H1 & H2)]; [left; by apply ext_flat | right]. exists u. pose proof (alias_in_tab q u Hq H1).
  split; [by apply ext_alias | by apply ext_flat].
Qed.

Lemma ext_rem k s : in_tab t s -> rem N0 ini m k s -> rem N0 ini' m' k s.
Proof.
  intros Hs [H|[(a & Ha & E)|(x & y & E & H1 & H2)]]; [by left | right; left; exists a; split; [done |]; by destruct (He s Hs) as [-> _] |].
  right. right. exists x, y. by destruct (ext_and s x y Hs E) as (-> & _ & _ & -> & ->).
Qed.

Lemma ext_spine k s : in_tab t s -> spine N0 ini m k s -> spine N0 ini' m' k s.
Proof.
  intros Hs [H|(u & H1 & H2)]; [left; by apply ext_rem | right]. exists u. pose proof (alias_in_tab s u Hs H1).
  split; [by apply ext_alias | by apply ext_rem].
Qed.

Lemma ext_kind_of e : (forall a, a ∈ args e -> in_tab t a) -> kind_of N0 L0 ini m e -> kind_of N0 L0 ini' m' e.
Proof.
  destruct e as [p| | |x y|z s|a|a|a]; cbn; try done; intros Ha.
  - assert (in_tab t y) as Hy by (apply Ha; right; by left). rewrite ext_nu by done. intros [H1 H2]. split; [done | by apply ext_shallow].
  - assert (in_tab t z) as Hz by (apply Ha; by left). assert (in_tab t s) as Hs by (apply Ha; right; by left).
    rewrite !ext_nu by done. intros (H1 & H2 & H3). split; [done |]. split; [done | by apply ext_spine].
Qed.

Lemma ext_kind_orig e : (forall a, a ∈ args e -> in_tab t a) -> kind_orig N0 L0 ini m e -> kind_orig N0 L0 ini' m' e.
Proof.
  intros Ha (H1 & H2 & H3 & H4). split; [done |]. split; [done |]. split; [done |]. destruct e as [p| | |x y|z s|a|a|a]; try done.
  assert (in_tab t y) as Hy by (apply Ha; right; by left). rewrite ext_nu by done. destruct H4. split; [done | by apply ext_shallow].
Qed.

Lemma ext_aden e t' : Symbols t' = Symbols t -> (forall a, a ∈ args e -> in_tab t a) -> aden (A:=meas_alg) t' m' e = aden (A:=meas_alg) t m e.
Proof.
  intros Hs Ha. assert (forall a, a ∈ args e -> m' a = m a) as H by (intros a H; by destruct (He a (Ha a H)) as [_ ->]).
  destruct e; cbn in *; rewrite ?H; try done; rewrite ?elem_of_cons; auto.
Qed.
End Ext.

(** ** [MakeExp] without a class *)
Section New.
Context (t : tables) (ini : Z -> expr) (m : Z -> mea) (Ev : list Z) (cur : Z) (Hsh : shape N0 L0 t ini m Ev cur).
Context (e : expr) (c : Z) (t' : tables).

(** What a new class needs. *)
Record entry : Prop := mkEntry {
  en_valid : valid t e;
  en_kind : kind_of N0 L0 ini m e;
  en_level : ((aden (A:=meas_alg) t m e).2 <= L0)%nat;
  en_pos : ((aden (A:=meas_alg) t m e).1 = O -> e = OneX) /\ ((aden (A:=meas_alg) t m e).1 <> O -> (aden (A:=meas_alg) t m e).2 <> O);
  en_right : forall x y, e = AndX x y -> flat ini m y \/ y ∈ Ev \/ y = cur
}.

Lemma shape_new : entry -> cur < zlen (EquTab t) -> new1 t e c t' ->
  exists ini' m', shape N0 L0 t' ini' m' Ev cur /\ ext t ini ini' m m' /\ m' c = aden (A:=meas_alg) t m e.
Proof.
  intros [Hv Hk Hl Hp Hr] Hcur Hn. pose proof Hsh as [S1 S2 S3 S4 S5 S6 S7 S8 S9 S10 S11 S12 S13].
  destruct (new1_interp (A:=meas_alg) t m e c t' S1 S2 Hv Hn) as (m' & I' & X & Q). cbn in Q.
  destruct Hn as (Ht' & [[-> Hh]|[Hno Hf]]).
  { exists ini, m. split; [done |]. split; [apply ext_refl |]. symmetry. by apply (i_hashed (A:=meas_alg) t m S2). }
  pose proof Hf as (Ec & Hsy & _). set (ini' := fun q => if decide (q = c) then e else ini q).
  assert (forall q, in_tab t q -> q <> c) as Hne by (intros q Hq ->; unfold in_tab in Hq; lia).
  assert (ext t ini ini' m m') as Hx.
  { intros q Hq. split; [| by apply X]. unfold ini'. by rewrite decide_False by (by apply Hne). }
  assert (ini' c = e) as Hc by (unfold ini'; by rewrite decide_True).
  assert (forall a, a ∈ args e -> in_tab t a) as Hea by (intros a Ha; by apply (valid_args t e)).
  assert (forall q a, in_tab t q -> a ∈ args (ini q) -> in_tab t a) as Hargs by (intros q a; by apply (sh_arg_in_tab N0 L0 t ini m Ev cur Hsh)).
  assert (aden (A:=meas_alg) t' m' e = aden (A:=meas_alg) t m e) as Hd by (by apply (ext_aden t ini ini' m m' Hx)).
  rewrite Hd in Q. exists ini', m'. split; [| done].
  assert (forall q, in_tab t' q <-> in_tab t q \/ q = c) as Hin by (intros q; apply (fresh_in_tab t e c t' Hf)).
  assert (forall e' q, hashed t' e' q <-> hashed t e' q \/ (e' = e /\ q = c)) as Hha by (intros e' q; apply (fresh_hashed t e c t' Hf)).
  assert (N0 <= c) as HNc.
  { destruct (Z.le_gt_cases N0 c) as [|H]; [done |]. exfalso. apply (Hne c); [| done]. apply S6.
    rewrite Ec in *. pose proof (zlen_nonneg (EquTab t)). lia. }
  split; try done.
  - intros q [Hq| ->]%Hin; apply Hha; [left; destruct (Hx q Hq) as [-> _]; by apply S3 | by right].
  - intros q a [Hq| ->]%Hin; [destruct (Hx q Hq) as [-> _]; by apply S4 |]. rewrite Hc. intros Ha%Hea. unfold in_tab in Ha. lia.
  - intros q [Hq| ->]%Hin.
    + destruct (Hx q Hq) as [-> _]. destruct (S5 q Hq) as [[H1 H2]|[H1 H2]]; [left | right]; (split; [done |]);
        [apply (ext_kind_orig t ini ini' m m' Hx Hargs) | apply (ext_kind_of t ini ini' m m' Hx Hargs)]; eauto.
    + right. rewrite Hc. split; [done |]. by apply (ext_kind_of t ini ini' m m' Hx Hargs).
  - intros q Hq%S6. apply Hin. by left.
  - intros q [H|[E _]]%Hha; [by apply (S7 q) |]. rewrite <- E in Hk. done.
  - intros q [Hq| ->]%Hin; unfold lv; [destruct (Hx q Hq) as [_ ->]; by apply S8 | by rewrite Q].
  - intros q [Hq| ->]%Hin; unfold nu, lv; [destruct (Hx q Hq) as [-> ->]; by apply S9 | by rewrite Q, Hc].
  - intros q x y Hq E. assert (in_tab t y) as Hy.
    { apply Hin in Hq as [Hq| ->]; [destruct (Hx q Hq) as [E' _]; rewrite E' in E; apply (Hargs q); [done |] | apply Hea; rewrite Hc in E];
        rewrite E; right; by left. }
    rewrite (ext_flat t ini ini' m m' Hx Hargs y Hy).
    apply Hin in Hq as [Hq| ->]; [destruct (Hx q Hq) as [E' _]; rewrite E' in E; by apply (S10 q x) |]. rewrite Hc in E. by apply (Hr x).
  - intros q Hq He Hcu. apply Hin in Hq as [Hq| ->].
    + destruct (Hx q Hq) as [-> _]. destruct (S11 q Hq He Hcu) as [V U]. split; [by apply (fresh_value_old t e c t' Hf) |].
      intros e' [H|[_ E]]%Hha; [by apply U | by destruct (Hne q Hq)].
    + rewrite Hc. split; [apply (fresh_value_new t e c t' Hf) |]. intros e' [H|[E _]]%Hha; [| done].
      destruct (hashed_valid t e' c S1 H) as [_ Hcc]. by destruct (Hne c Hcc).
  - intros q Hq. destruct (S12 q Hq) as (Hq' & e' & V & T). split; [apply Hin; by left |]. exists e'.
    split; [by apply (fresh_value_old t e c t' Hf) |]. revert T. apply terminal_mono. intros x p. apply (fresh_value_old t e c t' Hf).
  - intros q u Hq Ha Hfl e' He'. apply Hin in Hq as [Hq| ->].
    + destruct (Hx q Hq) as [-> _]. apply (ext_alias t ini ini' m m' Hx Hargs q u Hq) in Ha. pose proof (alias_in_tab t ini m Hargs q u Hq Ha).
      apply Hha in He' as [H'|[_ E]]; [| by destruct (Hne q Hq)]. apply (S13 q u); [done .. | | done]. intros H2. apply Hfl. by apply (ext_flat t ini ini' m m' Hx Hargs).
    + rewrite Hc. apply Hha in He' as [H|[E _]]; [| done]. destruct (hashed_valid t e' c S1 H) as [_ Hcc]. by destruct (Hne c Hcc).
Qed.
End New.

(** ** New values of the class under evaluation *)
Section Cur.
Context (t : tables) (ini : Z -> expr) (m : Z -> mea) (Ev : list Z) (q : Z) (Hsh : shape N0 L0 t ini m Ev q).
Hypothesis (Hq : in_tab t q) (HEv : q ∉ Ev) (Hsym : forall p, ~ value t q (SymX p)).

Lemma shape_at e t' : at1 t q e t' -> aden (A:=meas_alg) t m e = m q -> e <> ZeroX ->
  (forall u, alias ini m q u -> flat ini m u) -> shape N0 L0 t' ini m Ev q.
Proof.
  intros Ha Hd Hz Hdeep. pose proof Hsh as [S1 S2 S3 S4 S5 S6 S7 S8 S9 S10 S11 S12 S13].
  pose proof (at1_in_tab t q e t' Ha) as Hin. pose proof (at1_hashed_old t q e t' Ha) as Hho.
  pose proof (at1_hashed t q e t' Ha) as Hhn. pose proof (at1_value_old t q e t' Hq Ha) as Hvo.
  split; try done.
  - by destruct Ha.
  - by apply (at1_interp (A:=meas_alg) t m q e).
  - intros x Hx%Hin. apply Hho, S3, Hx.
  - intros x a Hx%Hin. by apply S4.
  - intros x Hx%Hin. by apply S5.
  - intros x Hx. apply Hin. by apply S6.
  - intros x [H|[E _]]%Hhn; [by apply (S7 x) | by apply Hz].
  - intros x Hx%Hin. by apply S8.
  - intros x Hx%Hin. by apply S9.
  - intros x a b Hx%Hin. by apply S10.
  - intros x Hx He Hc. apply Hin in Hx. destruct (S11 x Hx He Hc) as [V U]. split; [by apply Hvo |].
    intros e' [H|[_ E]]%Hhn; [by apply U | done].
  - intros x Hx. destruct (S12 x Hx) as (Hx' & e' & V & T). split; [by apply Hin |]. exists e'.
    split; [apply Hvo; [by intros -> | done] |]. revert T. apply terminal_mono. intros y p Hy. apply Hvo; [| done]. intros ->. by apply (Hsym p).
  - intros x u Hx Ha' Hfl e' He'. apply Hin in Hx. apply Hhn in He' as [H|[_ ->]]; [by apply (S13 x u) |].
    destruct Hfl. by apply Hdeep.
Qed.

Lemma shape_copied y t' : copied t q y t' -> m y = m q -> shape N0 L0 t' ini m Ev q.
Proof.
  intros Hc Hm. pose proof Hsh as [S1 S2 S3 S4 S5 S6 S7 S8 S9 S10 S11 S12 S13].
  pose proof (copied_in_tab t q y t' Hc) as Hin. pose proof (copied_hashed t q y t' Hc) as Hh. pose proof (copied_value_old t q y t' Hc) as Hvo.
  split; try done.
  - by destruct Hc.
  - by apply (copied_interp (A:=meas_alg) t m q y).
  - intros x Hx%Hin. apply Hh, S3, Hx.
  - intros x a Hx%Hin. by apply S4.
  - intros x Hx%Hin. by apply S5.
  - intros x Hx. apply Hin. by apply S6.
  - intros x H%Hh. by apply (S7 x).
  - intros x Hx%Hin. by apply S8.
  - intros x Hx%Hin. by apply S9.
  - intros x a b Hx%Hin. by apply S10.
  - intros x Hx He Hcu. apply Hin in Hx. destruct (S11 x Hx He Hcu) as [V U]. split; [by apply Hvo |]. intros e' H%Hh. by apply U.
  - intros x Hx. destruct (S12 x Hx) as (Hx' & e' & V & T). split; [by apply Hin |]. exists e'.
    split; [apply Hvo; [by intros -> | done] |]. revert T. apply terminal_mono. intros z p Hz. apply Hvo; [| done]. intros ->. by apply (Hsym p).
  - intros x u Hx Ha Hfl e' He'%Hh. apply Hin in Hx. by apply (S13 x u).
Qed.
End Cur.

(** ** The start and the end of an evaluation *)
Lemma shape_cur t ini m Ev q : shape N0 L0 t ini m Ev (-1) -> shape N0 L0 t ini m Ev q.
Proof.
  intros [S1 S2 S3 S4 S5 S6 S7 S8 S9 S10 S11 S12 S13]. split; try done.
  - intros x a b Hx E. destruct (S10 x a b Hx E) as [H|[H|H]]; [by left | right; by left |].
    exfalso. assert (0 <= b < x) by (apply (S4 x); [done | rewrite E; right; by left]). lia.
  - intros x Hx He _. apply S11; [done .. |]. unfold in_tab in Hx. lia.
Qed.

Lemma shape_evaluated t ini m Ev q e : shape N0 L0 t ini m Ev q -> value t q e -> terminal t e -> shape N0 L0 t ini m (q :: Ev) (-1).
Proof.
  intros [S1 S2 S3 S4 S5 S6 S7 S8 S9 S10 S11 S12 S13] V T. split; try done.
  - intros x a b Hx E. destruct (S10 x a b Hx E) as [H|[H| ->]]; [by left | right; left; by right | right; left; by left].
  - intros x Hx He _. apply not_elem_of_cons in He as [Hne He]. by apply S11.
  - intros x [->|Hx]%elem_of_cons; [| by apply S12]. split; [by apply (value_in_tab t q e) | by exists e].
Qed.

Lemma shape_remarked t t' ini m Ev cur : shape N0 L0 t ini m Ev cur -> remarked t t' -> shape N0 L0 t' ini m Ev cur.
Proof.
  intros [S1 S2 S3 S4 S5 S6 S7 S8 S9 S10 S11 S12 S13] Hr.
  pose proof (remarked_in_tab t t') as Hin. pose proof (fun e q => remarked_hashed t t' e q Hr) as Hh.
  assert (forall x, in_tab t' x <-> in_tab t x) as Hin' by (intros x; by apply Hin).
  pose proof (fun q e => remarked_value t t' q e Hr) as Hv.
  split; try (by destruct Hr); try done.
  - destruct S2 as [I1 I2 I3]. pose proof Hr as (Ht' & _ & HS & _).
    assert (forall e, aden (A:=meas_alg) t' m e = aden (A:=meas_alg) t m e) as Hd by (intros e; by destruct e).
    split; [done | |]; setoid_rewrite Hd.
    + intros e q H%Hh. by apply I2.
    + intros q e H. pose proof (value_in_tab t' q e H) as Hq%Hin'. destruct (value_total t q S1 Hq) as [e0 He0].
      rewrite (value_fun t' q e e0 H (Hv q e0 He0)). by apply I3.
  - intros x Hx%Hin'. by apply Hh, S3.
  - intros x a Hx%Hin'. by apply S4.
  - intros x Hx%Hin'. by apply S5.
  - intros x Hx. apply Hin'. by apply S6.
  - intros x H%Hh. by apply (S7 x).
  - intros x Hx%Hin'. by apply S8.
  - intros x Hx%Hin'. by apply S9.
  - intros x a b Hx%Hin'. by apply S10.
  - intros x Hx%Hin' He Hc. destruct (S11 x Hx He Hc) as [V U]. split; [by apply Hv |]. intros e' H%Hh. by apply U.
  - intros x Hx. destruct (S12 x Hx) as (Hx' & e' & V & T). split; [by apply Hin' |]. exists e'. split; [by apply Hv |].
    revert T. apply terminal_mono. intros y p. apply Hv.
  - intros x u Hx%Hin' Ha Hfl e' He'%Hh. by apply (S13 x u).
Qed.
End Steps.
