(* ===== verification/RegexCount.v ===== *)
(** * The number of classes of regex2dfa.c is bounded, and evaluations end

    Under [shape] the number of classes depends only on the number of classes of the
    parser and on the bound of the measures ([classes_bounded]): the arguments of a
    class have smaller measures, but for chains that are no longer than two.

    The left argument of the value of the class under evaluation gets smaller with
    every round ([rank]); the class of the empty word as a left argument takes one
    round more.  [state_at n]: at most [n] rounds to come; [state_at_step]. *)

From Stdlib Require Import ZArith Lia.
From stdpp Require Import base tactics option list numbers sorting.
From S2P Require Import Prelude.
From S2P Require Import Regex2dfa.
From S2P Require Import RegexTables.
From S2P Require Import RegexEval.
From S2P Require Import RegexSem.
From S2P Require Import RegexShape.

Open Scope Z_scope.

(** ** Sets with at most so many members *)
Definition bounded (P : Z -> Prop) (B : nat) : Prop := forall l, NoDup l -> Forall P l -> (length l <= B)%nat.

Lemma bounded_sub (P Q : Z -> Prop) B C : (forall q, P q -> Q q) -> (B <= C)%nat -> bounded Q B -> bounded P C.
Proof. intros H HB HQ l Hd Hf. specialize (HQ l Hd (list.Forall_impl _ _ _ Hf H)). lia. Qed.

Lemma Forall_or_split (P Q : Z -> Prop) l : Forall (fun q => P q \/ Q q) l -> exists l1 l2, l ≡ₚ l1 ++ l2 /\ Forall P l1 /\ Forall Q l2.
Proof.
  induction 1 as [|q l H Hf (l1 & l2 & E & H1 & H2)]; [by exists [], [] |]. destruct H as [H|H].
  - exists (q :: l1), l2. split; [by rewrite E |]. split; [by constructor | done].
  - exists l1, (q :: l2). split; [rewrite E; apply Permutation_middle |]. split; [done | by constructor].
Qed.

Lemma bounded_or (P Q : Z -> Prop) B C : bounded P B -> bounded Q C -> bounded (fun q => P q \/ Q q) (B + C).
Proof.
  intros HP HQ l Hd Hf. destruct (Forall_or_split P Q l Hf) as (l1 & l2 & E & H1 & H2).
  rewrite E in Hd. apply list.NoDup_app in Hd as (D1 & _ & D2). rewrite E, length_app. specialize (HP l1 D1 H1). specialize (HQ l2 D2 H2). lia.
Qed.

Lemma bounded_range N : bounded (fun q => 0 <= q < N) (Z.to_nat N).
Proof.
  intros l Hd Hf. assert (l ⊆+ seqZ 0 N) as Hs.
  { apply NoDup_submseteq; [done |]. intros x Hx. apply elem_of_seqZ. pose proof (proj1 (list.Forall_forall _ _) Hf x Hx). cbn in *. lia. }
  apply submseteq_length in Hs. by rewrite length_seqZ in Hs.
Qed.

Lemma bounded_none (P : Z -> Prop) : (forall q, ~ P q) -> bounded P 0.
Proof. intros H [|q l] _ Hf; [done |]. apply List.Forall_cons_iff in Hf as [Hq _]. by destruct (H q). Qed.

Lemma bounded_one (P : Z -> Prop) : (forall q q', P q -> P q' -> q = q') -> bounded P 1.
Proof.
  intros H [|q [|q' l]] Hd Hf; cbn; [lia | lia |]. apply List.Forall_cons_iff in Hf as [Hq Hf]. apply List.Forall_cons_iff in Hf as [Hq' _].
  inversion Hd as [|? ? Hn _]; subst. destruct Hn. rewrite (H q q' Hq Hq'). by left.
Qed.

Lemma bounded_remove_dups (P : Z -> Prop) B l : bounded P B -> Forall P l -> (length (remove_dups l) <= B)%nat.
Proof.
  intros HB Hf. apply HB; [apply NoDup_remove_dups |]. apply list.Forall_forall. intros x Hx. rewrite elem_of_remove_dups in Hx. by apply (proj1 (list.Forall_forall _ _) Hf).
Qed.

(** Members that are determined by two others. *)
Lemma bounded_pair (P R S : Z -> Prop) (f : Z -> Z -> Z -> Prop) B C :
  (forall q, P q -> exists a b, R a /\ S b /\ f q a b) -> (forall q q' a b, P q -> P q' -> f q a b -> f q' a b -> q = q') ->
  bounded R B -> bounded S C -> bounded P (B * C).
Proof.
  intros Hex Hinj HR HS l Hd Hf.
  assert (exists ps, Forall2 (fun q p => P q /\ R p.1 /\ S p.2 /\ f q p.1 p.2) l ps) as [ps H2].
  { clear Hd. induction Hf as [|q l Hq Hf [ps IH]]; [by exists [] |]. destruct (Hex q Hq) as (a & b & H1 & H2 & H3).
    exists ((a, b) :: ps). by constructor. }
  assert (NoDup ps) as Hdp.
  { clear Hf. induction H2 as [|q p l ps (Hq & _ & _ & Hfq) H2 IH]; [constructor |]. inversion Hd as [|? ? Hn Hd']; subst.
    constructor; [| by apply IH]. intros Hin. apply list_elem_of_lookup in Hin as [i Hi].
    destruct (Forall2_lookup_r _ _ _ _ _ H2 Hi) as (q' & Hi' & Hq' & _ & _ & Hfq'). destruct Hn. rewrite (Hinj q q' p.1 p.2 Hq Hq' Hfq Hfq').
    by apply (list_elem_of_lookup_2 _ i). }
  assert (Forall R ps.*1 /\ Forall S ps.*2) as [H1 H3].
  { clear -H2. induction H2 as [|q p l ps (_ & Ha & Hb & _) H2 [I1 I2]]; [split; constructor |]. split; cbn; by constructor. }
  pose proof (bounded_remove_dups R B _ HR H1) as L1. pose proof (bounded_remove_dups S C _ HS H3) as L2.
  assert (ps ⊆+ list_prod (remove_dups ps.*1) (remove_dups ps.*2)) as Hs.
  { apply NoDup_submseteq; [done |]. intros [a b] Hin. apply list_elem_of_In, in_prod; apply list_elem_of_In, elem_of_remove_dups;
      apply list_elem_of_fmap; by exists (a, b). }
  apply submseteq_length in Hs. rewrite length_prod in Hs. rewrite (Forall2_length _ _ _ H2). nia.
Qed.

Lemma bounded_map (P R : Z -> Prop) (f : Z -> Z -> Prop) B :
  (forall q, P q -> exists a, R a /\ f q a) -> (forall q q' a, P q -> P q' -> f q a -> f q' a -> q = q') -> bounded R B -> bounded P B.
Proof.
  intros Hex Hinj HR. apply (bounded_sub P P (B * 1)); [done | lia |].
  apply (bounded_pair P R (fun b => b = 0) (fun q a _ => f q a)); [| | done | apply bounded_one; intros; congruence].
  - intros q Hq. destruct (Hex q Hq) as (a & H1 & H2). by exists a, 0.
  - intros q q' a _. apply Hinj.
Qed.

(** ** The bounds *)
Fixpoint nu_bound (N T n : nat) : nat :=
  (3 * (3 * N + 1 + match n with O => O | S n => T * nu_bound N T n + nu_bound N T n * (2 * (2 * N + T * nu_bound N T n)) end))%nat.

Fixpoint lv_bound (N L0 l : nat) : nat :=
  match l with
  | O => O
  | S l =>
      let T := lv_bound N L0 l in let M := nu_bound N T L0 in
      (3 * N + 1 + T * M + M + M * (2 * (2 * N + T * M)))%nat
  end.

Section Count.
Context (N0 : Z) (L0 : nat) (t : tables) (ini : Z -> expr) (m : Z -> mea) (Ev : list Z) (cur : Z).
Hypothesis Hsh : shape N0 L0 t ini m Ev cur.
Abbreviation N := (Z.to_nat N0).
Abbreviation nu := (nu m).
Abbreviation lv := (lv m).

Lemma ini_and q x y : in_tab t q -> ini q = AndX x y -> in_tab t x /\ in_tab t y /\ m q = m_and (m x) (m y).
Proof.
  intros Hq E. assert (forall a, a ∈ args (ini q) -> in_tab t a) as Ha by (intros a; by apply (sh_arg_in_tab N0 L0 t ini m Ev cur Hsh)).
  rewrite E in Ha. split; [apply Ha; by left |]. split; [apply Ha; right; by left |].
  pose proof (sh_ini_meas N0 L0 t ini m Ev cur Hsh q Hq) as H. by rewrite E in H.
Qed.

Lemma ini_or q x y : in_tab t q -> ini q = OrX x y -> in_tab t x /\ in_tab t y /\ m q = m_or (m x) (m y).
Proof.
  intros Hq E. assert (forall a, a ∈ args (ini q) -> in_tab t a) as Ha by (intros a; by apply (sh_arg_in_tab N0 L0 t ini m Ev cur Hsh)).
  rewrite E in Ha. split; [apply Ha; by left |]. split; [apply Ha; right; by left |].
  pose proof (sh_ini_meas N0 L0 t ini m Ev cur Hsh q Hq) as H. by rewrite E in H.
Qed.

(** The left argument of a product that is not empty has a smaller second number. *)
Lemma and_left q x y l : in_tab t q -> ini q = AndX x y -> nu x <> O -> (1 <= nu y)%nat -> (lv q < S l)%nat -> (lv x < l /\ nu y <= l)%nat.
Proof.
  intros Hq E Hx Hy Hl. destruct (ini_and q x y Hq E) as (Tx & Ty & Em). destruct (sh_pos _ _ _ _ _ _ _ Hsh x Tx) as [_ Hp]. specialize (Hp Hx).
  unfold RegexShape.lv, RegexShape.nu in *. rewrite Em in Hl. cbn in Hl. unfold m_lift in Hl. destruct ((m x).2); [done |]. lia.
Qed.

Lemma alias_meas q u : in_tab t q -> alias ini m q u -> in_tab t u /\ m q = m u.
Proof.
  intros Hq (x & E & H0). destruct (ini_and q x u Hq E) as (Tx & Tu & Em). split; [done |]. rewrite Em.
  apply (sh_nu0 N0 L0 t ini m Ev cur Hsh x Tx) in H0. pose proof (sh_ini_meas N0 L0 t ini m Ev cur Hsh x Tx) as Hm. rewrite H0 in Hm. cbn in Hm.
  rewrite <- Hm. unfold m_and. cbn. by destruct (m u).
Qed.

Lemma flat_dec q : flat ini m q \/ exists u, alias ini m q u.
Proof.
  destruct (ini q) as [| | |x y| | | |] eqn:Ei; try (left; intros ? ? E; congruence).
  destruct (decide (nu x = O)) as [E0|Hn]; [right; by exists y, x | left; intros ? ? E; congruence].
Qed.

(** Classes are determined by what they have been entered for. *)
Lemma bounded_ini_and (P R S : Z -> Prop) B C :
  (forall q, P q -> in_tab t q /\ exists x y, ini q = AndX x y /\ R x /\ S y) -> bounded R B -> bounded S C -> bounded P (B * C).
Proof.
  intros H. apply (bounded_pair P R S (fun q a b => in_tab t q /\ ini q = AndX a b)).
  - intros q Hq. destruct (H q Hq) as (Ht & x & y & E & HR & HS). by exists x, y.
  - intros q q' a b _ _ [T1 E1] [T2 E2]. apply (sh_inj N0 L0 t ini m Ev cur Hsh); [done .. | congruence].
Qed.

Lemma bounded_ini_or (P R S : Z -> Prop) B C :
  (forall q, P q -> in_tab t q /\ exists x y, ini q = OrX x y /\ R x /\ S y) -> bounded R B -> bounded S C -> bounded P (B * C).
Proof.
  intros H. apply (bounded_pair P R S (fun q a b => in_tab t q /\ ini q = OrX a b)).
  - intros q Hq. destruct (H q Hq) as (Ht & x & y & E & HR & HS). by exists x, y.
  - intros q q' a b _ _ [T1 E1] [T2 E2]. apply (sh_inj N0 L0 t ini m Ev cur Hsh); [done .. | congruence].
Qed.

Lemma bounded_alias (P S : Z -> Prop) C : (forall q, P q -> in_tab t q /\ exists u, alias ini m q u /\ S u) -> bounded S C -> bounded P C.
Proof.
  intros H. apply (bounded_map P S (fun q u => in_tab t q /\ alias ini m q u)).
  - intros q Hq. destruct (H q Hq) as (Ht & u & E & HS). by exists u.
  - intros q q' u _ _ [T1 (x1 & E1 & Z1)] [T2 (x2 & E2 & Z2)]. apply (sh_inj N0 L0 t ini m Ev cur Hsh); [done .. |]. rewrite E1, E2. f_equal.
    destruct (ini_and q x1 u T1 E1) as (I1 & _ & _). destruct (ini_and q' x2 u T2 E2) as (I2 & _ & _).
    apply (sh_inj N0 L0 t ini m Ev cur Hsh); [done .. |].
    apply (sh_nu0 N0 L0 t ini m Ev cur Hsh) in Z1; [| done]. apply (sh_nu0 N0 L0 t ini m Ev cur Hsh) in Z2; [| done]. congruence.
Qed.

Lemma bounded_plus : bounded (fun q => in_tab t q /\ exists a, 0 <= a < N0 /\ ini q = PlusX a) N.
Proof.
  apply (bounded_map _ (fun a => 0 <= a < N0) (fun q a => in_tab t q /\ ini q = PlusX a)).
  - intros q (Hq & a & Ha & E). by exists a.
  - intros q q' a _ _ [T1 E1] [T2 E2]. apply (sh_inj N0 L0 t ini m Ev cur Hsh); [done .. | congruence].
  - apply bounded_range.
Qed.

Lemma bounded_star : bounded (fun q => in_tab t q /\ exists a, 0 <= a < N0 /\ ini q = StarX a) N.
Proof.
  apply (bounded_map _ (fun a => 0 <= a < N0) (fun q a => in_tab t q /\ ini q = StarX a)).
  - intros q (Hq & a & Ha & E). by exists a.
  - intros q q' a _ _ [T1 E1] [T2 E2]. apply (sh_inj N0 L0 t ini m Ev cur Hsh); [done .. | congruence].
  - apply bounded_range.
Qed.

Lemma bounded_onex : bounded (fun q => in_tab t q /\ ini q = OneX) 1.
Proof. apply bounded_one. intros q q' [T1 E1] [T2 E2]. apply (sh_inj N0 L0 t ini m Ev cur Hsh); [done .. | congruence]. Qed.

Lemma bounded_orig_t : bounded (fun q => in_tab t q /\ 0 <= q < N0) N.
Proof. apply (bounded_sub _ (fun q => 0 <= q < N0) N); [by intros q [_ H] | lia | apply bounded_range]. Qed.

(** The classes by what they have been entered for. *)
Lemma kinds q : in_tab t q ->
  (((in_tab t q /\ 0 <= q < N0) \/ (in_tab t q /\ exists a, 0 <= a < N0 /\ ini q = StarX a) \/ (in_tab t q /\ exists a, 0 <= a < N0 /\ ini q = PlusX a)) \/
   (in_tab t q /\ ini q = OneX)) \/
  (exists x y, ini q = AndX x y /\ nu x <> O /\ (1 <= nu y <= L0)%nat) \/
  (exists u, alias ini m q u /\ (1 <= nu u <= L0)%nat /\ shallow ini m u) \/
  (exists z s, ini q = OrX z s /\ (1 <= nu z <= L0)%nat /\ (nu z <= nu s)%nat /\ spine N0 ini m (nu z) s).
Proof.
  intros Hq. destruct (sh_kind _ _ _ _ _ _ _ Hsh q Hq) as [[H _]|[_ H]]; [left; left; by left |].
  destruct (ini q) as [p| | |x y|z s|a|a|a] eqn:E; cbn in H; try done.
  - left; right; done.
  - destruct H as [Hy Hsw]. destruct (decide (nu x = O)) as [E0|Hn].
    + right. right. left. exists y. split; [by exists x | done].
    + right. left. by exists x, y.
  - right. right. right. by exists z, s.
  - left. left. right. left. split; [done |]. by exists a.
  - left. left. right. right. split; [done |]. by exists a.
Qed.

Lemma bounded_base : bounded (fun q => ((in_tab t q /\ 0 <= q < N0) \/ (in_tab t q /\ exists a, 0 <= a < N0 /\ ini q = StarX a) \/
  (in_tab t q /\ exists a, 0 <= a < N0 /\ ini q = PlusX a)) \/ (in_tab t q /\ ini q = OneX)) (3 * N + 1).
Proof.
  apply bounded_or; [| apply bounded_onex]. apply (bounded_sub _ _ (N + (N + N)) (3 * N) (fun q H => H)); [lia |].
  apply bounded_or; [apply bounded_orig_t |]. apply bounded_or; [apply bounded_star | apply bounded_plus].
Qed.

(** ** Induction on the second number *)
Section Level.
Context (l T : nat) (HT : bounded (fun q => in_tab t q /\ (lv q < l)%nat) T).

Definition below (n : nat) (q : Z) : Prop := in_tab t q /\ (lv q < S l)%nat /\ (nu q <= n)%nat.

Lemma bounded_spine n M : bounded (below n) M -> bounded (fun s => in_tab t s /\ (lv s < S l)%nat /\ spine N0 ini m n s) (2 * (2 * N + T * M)).
Proof.
  intros HM.
  assert (bounded (fun s => in_tab t s /\ (lv s < S l)%nat /\ rem N0 ini m n s) (2 * N + T * M)) as HB.
  { apply (bounded_sub _ (fun s => ((in_tab t s /\ 0 <= s < N0) \/ (in_tab t s /\ exists a, 0 <= a < N0 /\ ini s = PlusX a)) \/
      (in_tab t s /\ (lv s < S l)%nat /\ exists x y, ini s = AndX x y /\ nu x <> O /\ (nu y <= n)%nat)) (N + N + T * M)); [| lia |].
    - intros s (Hs & Hl & [H|[H|H]]); [left; by left | left; by right | right; done].
    - apply bounded_or; [apply bounded_or; [apply bounded_orig_t | apply bounded_plus] |].
      apply (bounded_ini_and _ (fun q => in_tab t q /\ (lv q < l)%nat) (below n)); [| done | done].
      intros q (Hq & Hl & x & y & E & Hx & Hy). split; [done |]. exists x, y. split; [done |]. destruct (ini_and q x y Hq E) as (Tx & Ty & Em).
      assert (1 <= nu y)%nat as Hy1.
      { destruct (sh_kind _ _ _ _ _ _ _ Hsh q Hq) as [[_ (_ & _ & _ & H)]|[_ H]]; rewrite E in H; destruct H; lia. }
      destruct (and_left q x y l Hq E Hx Hy1 Hl) as [Hlx _]. split; [done |]. split; [done |]. split; [| done].
      unfold RegexShape.lv in *. rewrite Em in Hl. cbn in Hl. lia. }
  apply (bounded_sub _ (fun s => (in_tab t s /\ (lv s < S l)%nat /\ rem N0 ini m n s) \/
    (in_tab t s /\ exists u, alias ini m s u /\ (in_tab t u /\ (lv u < S l)%nat /\ rem N0 ini m n u))) ((2 * N + T * M) + (2 * N + T * M))); [| lia |].
  - intros s (Hs & Hl & [H|(u & H1 & H2)]); [by left | right]. split; [done |]. exists u. split; [done |].
    destruct (alias_meas s u Hs H1) as [Hu Em]. split; [done |]. split; [| done]. unfold RegexShape.lv in *. by rewrite <- Em.
  - apply bounded_or; [done |]. by apply (bounded_alias _ (fun u => in_tab t u /\ (lv u < S l)%nat /\ rem N0 ini m n u)).
Qed.

(** Chains of products of the empty word are short. *)
Lemma bounded_chains n F : bounded (fun q => below n q /\ flat ini m q) F -> bounded (below n) (3 * F).
Proof.
  intros HF.
  assert (forall q u, below n q -> alias ini m q u -> below n u) as Hbu.
  { intros q u (Hq & Hl & Hn) Ha. destruct (alias_meas q u Hq Ha) as [Hu Em]. unfold below, RegexShape.lv, RegexShape.nu in *. by rewrite <- Em. }
  assert (bounded (fun q => below n q /\ exists u, alias ini m q u /\ flat ini m u) F) as HF1.
  { apply (bounded_alias _ (fun q => below n q /\ flat ini m q)); [| done]. intros q (Hq & u & H1 & H2). split; [apply Hq |].
    exists u. split; [done |]. split; [by apply (Hbu q) | done]. }
  apply (bounded_sub _ (fun q => (below n q /\ flat ini m q) \/ (below n q /\ exists u, alias ini m q u /\ flat ini m u) \/
    (below n q /\ exists u, alias ini m q u /\ exists v, alias ini m u v /\ flat ini m v)) (F + (F + F))); [| lia |].
  - intros q Hq. destruct (flat_dec q) as [H|[u Hu]]; [by left |]. pose proof Hq as (Tq & _).
    destruct (sh_kind _ _ _ _ _ _ _ Hsh q Tq) as [[_ (_ & _ & _ & H)]|[_ H]]; destruct Hu as (x & E & H0); rewrite E in H; destruct H as [_ Hsw];
      (destruct Hsw as [Hf|(v & Hv & Hf)]; right; [left | right]; (split; [done |]); exists u; (split; [by exists x |]); [done | by exists v]).
  - apply bounded_or; [done |]. apply bounded_or; [done |].
    apply (bounded_alias _ (fun q => below n q /\ exists u, alias ini m q u /\ flat ini m u)); [| done]. intros q (Hq & u & H1 & H2).
    split; [apply Hq |]. exists u. split; [done |]. split; [by apply (Hbu q) | done].
Qed.

Lemma below_bounded n : bounded (below n) (nu_bound N T n).
Proof.
  induction n as [|n IH].
  - apply (bounded_chains 0 (3 * N + 1 + 0)). eapply bounded_sub; [| | apply bounded_base]; [| lia].
    intros q [(Hq & Hl & Hn) Hf]. destruct (kinds q Hq) as [H|[(x & y & E & Hx & Hy)|[(u & (x & E & H0) & _)|(z & s & E & Hz & Hs & _)]]]; [done | exfalso ..].
    + destruct (ini_and q x y Hq E) as (_ & _ & Em). unfold RegexShape.nu in *. rewrite Em in Hn. cbn in Hn. lia.
    + by apply (Hf x u).
    + destruct (ini_or q z s Hq E) as (_ & _ & Em). unfold RegexShape.nu in *. rewrite Em in Hn. cbn in Hn. lia.
  - set (M := nu_bound N T n) in *. apply (bounded_chains (S n) (3 * N + 1 + (T * M + M * (2 * (2 * N + T * M))))).
    eapply bounded_sub; [| | apply bounded_or; [apply bounded_base | apply bounded_or;
      [apply (bounded_ini_and (fun q => below (S n) q /\ exists x y, ini q = AndX x y /\ nu x <> O /\ (1 <= nu y)%nat) (fun q => in_tab t q /\ (lv q < l)%nat) (below n)); [| exact HT | exact IH]
      | apply (bounded_ini_or (fun q => below (S n) q /\ exists z s, ini q = OrX z s /\ (1 <= nu z)%nat /\ (nu z <= nu s)%nat /\ spine N0 ini m (nu z) s)
          (below n) (fun s => in_tab t s /\ (lv s < S l)%nat /\ spine N0 ini m n s)); [| exact IH | apply bounded_spine; exact IH]]]]; [| lia | |].
    + intros q [Hb Hf]. pose proof Hb as (Hq & Hl & Hn).
      destruct (kinds q Hq) as [H|[(x & y & E & Hx & Hy)|[(u & (x & E & H0) & _)|(z & s & E & Hz & Hs & Hsp)]]]; [by left | | by destruct (Hf x u) |].
      * right. left. split; [done |]. exists x, y. split; [done |]. split; [done | lia].
      * right. right. split; [done |]. exists z, s. split; [done |]. split; [lia | done].
    + intros q [(Hq & Hl & Hn) (x & y & E & Hx & Hy)]. split; [done |]. exists x, y. split; [done |]. destruct (ini_and q x y Hq E) as (Tx & Ty & Em).
      destruct (and_left q x y l Hq E Hx Hy Hl) as [Hlx _]. split; [done |]. split; [done |].
      unfold RegexShape.lv, RegexShape.nu in *. rewrite Em in Hl, Hn. cbn in Hl, Hn. lia.
    + intros q [(Hq & Hl & Hn) (z & s & E & Hz & Hs & Hsp)]. split; [done |]. exists z, s. split; [done |]. destruct (ini_or q z s Hq E) as (Tz & Ts & Em).
      unfold below, RegexShape.lv, RegexShape.nu in *. rewrite Em in Hl, Hn. cbn in Hl, Hn. split; [split; [done | lia] |]. split; [done |].
      split; [lia |]. apply (spine_mono N0 ini m (m z).1); [lia | done].
Qed.

Lemma level_bounded : bounded (fun q => in_tab t q /\ (lv q < S l)%nat)
  (let M := nu_bound N T L0 in 3 * N + 1 + T * M + M + M * (2 * (2 * N + T * M))).
Proof.
  cbv zeta. set (M := nu_bound N T L0). pose proof (below_bounded L0) as HM. fold M in HM.
  apply (bounded_sub _ (fun q => (((in_tab t q /\ 0 <= q < N0) \/ (in_tab t q /\ exists a, 0 <= a < N0 /\ ini q = StarX a) \/
      (in_tab t q /\ exists a, 0 <= a < N0 /\ ini q = PlusX a)) \/ (in_tab t q /\ ini q = OneX)) \/
      ((in_tab t q /\ (lv q < S l)%nat) /\ exists x y, ini q = AndX x y /\ nu x <> O /\ (1 <= nu y <= L0)%nat) \/
      ((in_tab t q /\ (lv q < S l)%nat) /\ exists u, alias ini m q u /\ (nu u <= L0)%nat) \/
      ((in_tab t q /\ (lv q < S l)%nat) /\ exists z s, ini q = OrX z s /\ (1 <= nu z <= L0)%nat /\ spine N0 ini m (nu z) s))
      ((3 * N + 1) + (T * M + (M + M * (2 * (2 * N + T * M)))))); [| lia |].
  { intros q [Hq Hl]. destruct (kinds q Hq) as [H|[H|[(u & H1 & H2 & _)|(z & s & E & Hz & Hs & Hsp)]]].
    - by left.
    - right. by left.
    - right. right. left. split; [done |]. exists u. split; [done | lia].
    - right. right. right. split; [done |]. by exists z, s. }
  apply bounded_or; [apply bounded_base |]. apply bounded_or; [| apply bounded_or].
  - apply (bounded_ini_and _ (fun q => in_tab t q /\ (lv q < l)%nat) (below L0)); [| done | done].
    intros q [[Hq Hl] (x & y & E & Hx & Hy)]. split; [done |]. exists x, y. split; [done |]. destruct (ini_and q x y Hq E) as (Tx & Ty & Em).
    destruct (and_left q x y l Hq E Hx ltac:(lia) Hl) as [Hlx _]. split; [done |]. split; [done |].
    unfold RegexShape.lv, RegexShape.nu in *. rewrite Em in Hl. cbn in Hl. lia.
  - apply (bounded_alias _ (below L0)); [| done]. intros q [[Hq Hl] (u & Ha & Hu)]. split; [done |]. exists u. split; [done |].
    destruct (alias_meas q u Hq Ha) as [Tu Em]. split; [done |]. split; [| done]. unfold RegexShape.lv in *. by rewrite <- Em.
  - apply (bounded_ini_or _ (below L0) (fun s => in_tab t s /\ (lv s < S l)%nat /\ spine N0 ini m L0 s)); [| done | by apply bounded_spine].
    intros q [[Hq Hl] (z & s & E & Hz & Hsp)]. split; [done |]. exists z, s. split; [done |]. destruct (ini_or q z s Hq E) as (Tz & Ts & Em).
    unfold below, RegexShape.lv, RegexShape.nu in *. rewrite Em in Hl. cbn in Hl. split; [split; [done | lia] |]. split; [done |].
    split; [lia |]. apply (spine_mono N0 ini m (m z).1); [lia | done].
Qed.
End Level.

Lemma levels_bounded l : bounded (fun q => in_tab t q /\ (lv q < l)%nat) (lv_bound N L0 l).
Proof.
  induction l as [|l IH]; cbn [lv_bound]; [apply bounded_none; intros q [_ H]; lia |]. apply level_bounded. exact IH.
Qed.

Theorem classes_bounded : zlen (EquTab t) <= Z.of_nat (lv_bound N L0 (S L0)).
Proof.
  pose proof (levels_bounded (S L0)) as H. specialize (H (seqZ 0 (zlen (EquTab t)))). rewrite length_seqZ in H.
  assert (Z.to_nat (zlen (EquTab t)) <= lv_bound N L0 (S L0))%nat; [| unfold zlen in *; lia]. apply H; [apply NoDup_seqZ |].
  apply list.Forall_forall. intros q Hq%elem_of_seqZ. assert (in_tab t q) as Ht by (unfold in_tab; lia). split; [done |].
  pose proof (sh_level _ _ _ _ _ _ _ Hsh q Ht). lia.
Qed.
End Count.

Definition rank (e : expr) : Z :=
  match e with AndX x _ => 2 * x + 4 | PlusX a => 2 * a + 5 | OptX _ | StarX _ => 1 | _ => 0 end.

Section Rank.
(** The class under evaluation, and those that have been evaluated. *)
Context (N0 : Z) (L0 : nat) (Ev : list Z) (q : Z).

Section State.
Context (t : tables) (ini : Z -> expr) (m : Z -> mea).

(** A class that may be a right argument. *)
Definition right_ok (y : Z) : Prop := in_tab t y /\ (1 <= nu m y <= L0)%nat /\ shallow ini m y /\ (flat ini m y \/ y ∈ Ev \/ y = q).

(** A value of [q] whose left argument is below [b]. *)
Definition form (b : Z) (e : expr) : Prop :=
  match e with
  | SymX _ | OneX | OrX _ _ => True
  | ZeroX => False
  | OptX a | StarX a => 0 <= a < N0
  | PlusX a => 0 <= a < N0 /\ a < q /\ a < b /\ spine N0 ini m 0 q
  | AndX x y => nu m x <> O /\ 0 <= x < q /\ x <= b /\ right_ok y /\ spine N0 ini m (nu m y) q
  end.

(** What has been entered for [q] so far. *)
Record entered (b : Z) : Prop := mkEntered {
  et_and : forall a y, hashed t (AndX a y) q -> nu m a <> O -> b <= a;
  et_one : forall o c, hashed t (AndX o c) q -> nu m o = O -> c ∉ Ev /\ c <> q /\ forall x y, ini c = AndX x y -> b <= x;
  et_or : forall c d, ~ hashed t (OrX c d) q;
  et_sym : forall a y p, hashed t (AndX a y) q -> ~ value t a (SymX p)
}.

(** [q] before a round that goes on. *)
Record ready (b : Z) (e : expr) : Prop := mkReady {
  rd_shape : shape N0 L0 t ini m Ev q;
  rd_in : in_tab t q;
  rd_ev : q ∉ Ev;
  rd_shallow : shallow ini m q;
  rd_entered : entered b;
  rd_value : value t q e;
  rd_sym : forall p, e <> SymX p
}.

Inductive state_at (n : Z) : Prop :=
| at_end e : shape N0 L0 t ini m Ev q -> value t q e -> terminal t e -> 0 <= n -> state_at n
| at_copy x y : shape N0 L0 t ini m Ev q -> q ∉ Ev -> value t q (AndX x y) -> nu m x = O -> nu m y <> O -> y ∈ Ev -> 1 <= n -> state_at n
| at_form b e : ready b e -> form b e -> rank e <= n -> state_at n
| at_one b x y : ready b (AndX x y) -> nu m x = O -> in_tab t y -> nu m y <> O -> y ∉ Ev -> y <> q -> form b (ini y) ->
    1 + rank (ini y) <= n -> state_at n.
End State.

(** ** Facts *)
Section Facts.
Context (t : tables) (ini : Z -> expr) (m : Z -> mea) (Hsh : shape N0 L0 t ini m Ev q).

Lemma one_value x : in_tab t x -> nu m x = O -> x <> q -> value t x OneX.
Proof.
  intros Hx H0 Hne. destruct (decide (x ∈ Ev)) as [He|He].
  - destruct (sh_done _ _ _ _ _ _ _ Hsh x He) as (_ & e & V & T). pose proof (sh_value N0 L0 t ini m Ev q Hsh x e V) as Em.
    unfold nu in H0. rewrite <- Em in H0. destruct e as [p| | |a b|a b|a|a|a]; cbn in T, H0; try done.
    destruct T as [p Hp]. pose proof (sh_value N0 L0 t ini m Ev q Hsh a _ Hp) as Ea. cbn in Ea. rewrite <- Ea in H0. cbn in H0. lia.
  - destruct (sh_plain _ _ _ _ _ _ _ Hsh x Hx He Hne) as [V _]. apply (sh_nu0 N0 L0 t ini m Ev q Hsh x Hx) in H0. by rewrite H0 in V.
Qed.

Lemma nu_value x e : value t x e -> nu m x = (aden (A:=meas_alg) t m e).1.
Proof. intros V. unfold nu. by rewrite (sh_value N0 L0 t ini m Ev q Hsh x e V). Qed.

Lemma nu_pos_level x : in_tab t x -> nu m x <> O -> (m x).2 <> O.
Proof. intros Hx. by apply (sh_pos _ _ _ _ _ _ _ Hsh). Qed.

(** The value of a class that has been evaluated. *)
Lemma done_value x e : x ∈ Ev -> value t x e -> terminal t e.
Proof. intros Hx V. destruct (sh_done _ _ _ _ _ _ _ Hsh x Hx) as (_ & e' & V' & T). by rewrite (value_fun t x e e' V V'). Qed.

(** A value that is not terminal is what the class was entered for. *)
Lemma plain_value x e : x <> q -> value t x e -> ~ terminal t e -> ini x = e /\ x ∉ Ev.
Proof.
  intros Hne V T. destruct (decide (x ∈ Ev)) as [He|He]; [destruct T; by apply (done_value x) |].
  destruct (sh_plain _ _ _ _ _ _ _ Hsh x) as [V' _]; [by apply (value_in_tab t x e) | done | done |]. split; [by apply (value_fun t x) | done].
Qed.

(** The argument of an operator that the parser entered. *)
Lemma plain_arg x a : in_tab t x -> ini x = OptX a \/ ini x = StarX a \/ ini x = PlusX a -> 0 <= a < N0 /\ a < x /\ in_tab t a.
Proof.
  intros Hx E. assert (a ∈ args (ini x)) as Ha by (destruct E as [->|[->| ->]]; cbn; by left).
  pose proof (sh_args _ _ _ _ _ _ _ Hsh x a Hx Ha). pose proof (sh_arg_in_tab N0 L0 t ini m Ev q Hsh x a Hx Ha).
  destruct (sh_kind _ _ _ _ _ _ _ Hsh x Hx) as [[H1 (H2 & _)]|[H1 H2]].
  - specialize (H2 a Ha). split; [done | split; [lia | done]].
  - destruct E as [E|[E|E]]; rewrite E in H2; cbn in H2; [done | |]; (split; [done | split; [lia | done]]).
Qed.

Lemma and_args x y z : in_tab t x -> ini x = AndX y z -> 0 <= y < x /\ 0 <= z < x /\ in_tab t y /\ in_tab t z /\ (1 <= nu m z <= L0)%nat /\ shallow ini m z.
Proof.
  intros Hx E. assert (y ∈ args (ini x) /\ z ∈ args (ini x)) as [Hy Hz] by (rewrite E; cbn; split; [by left | right; by left]).
  split; [by apply (sh_args _ _ _ _ _ _ _ Hsh) |]. split; [by apply (sh_args _ _ _ _ _ _ _ Hsh) |].
  split; [by apply (sh_arg_in_tab N0 L0 t ini m Ev q Hsh x) |]. split; [by apply (sh_arg_in_tab N0 L0 t ini m Ev q Hsh x) |].
  destruct (sh_kind _ _ _ _ _ _ _ Hsh x Hx) as [[_ (_ & _ & _ & H)]|[_ H]]; by rewrite E in H.
Qed.

Lemma right_ok_hashed c e : in_tab t c -> hashed t e c -> (forall x y, e = AndX x y -> nu m x <> O) -> (1 <= nu m c <= L0)%nat -> right_ok t ini m c.
Proof.
  intros Hc He Hf Hn. split; [done |]. split; [done |].
  split; [by apply (shallow_hashed N0 L0 t ini m Ev q Hsh e) | by apply (right_hashed N0 L0 t ini m Ev q Hsh e)].
Qed.

(** What a product needs to be entered. *)
Lemma entry_and a y : in_tab t a -> right_ok t ini m y -> ((m_and (m a) (m y)).2 <= L0)%nat -> entry N0 L0 t ini m Ev q (AndX a y).
Proof.
  intros Ha (Hy & Hn & Hs & Hr) Hl. split; cbn.
  - by apply valid2.
  - done.
  - done.
  - pose proof (nu_pos_level y Hy ltac:(unfold nu in *; lia)). unfold nu in *. split; [lia |]. intros _. cbn. lia.
  - intros x' y' [= <- <-]. exact Hr.
Qed.
End Facts.

Lemma state_at_mono t ini m n n' : state_at t ini m n -> n <= n' -> state_at t ini m n'.
Proof.
  intros H Hn. destruct H as [e S V T Hp|x y S H1 V H2 H3 H4 Hp|b e R F Hr|b x y R H1 H2 H3 H4 H5 F Hr].
  - apply (at_end t ini m n' e); [done .. | lia].
  - apply (at_copy t ini m n' x y); [done .. | lia].
  - apply (at_form t ini m n' b e); [done .. | lia].
  - apply (at_one t ini m n' b x y); [done .. | lia].
Qed.

(** ** A new class during the evaluation *)
Section Mid.
Context (t : tables) (ini : Z -> expr) (m : Z -> mea).

Lemma new1_hashed_cur e c t1 e' : tinv t -> in_tab t q -> new1 t e c t1 -> hashed t1 e' q -> hashed t e' q.
Proof.
  intros Ht Hq (_ & [[-> _]|[_ Hf]]) H; [done |]. apply (fresh_hashed t e c t1 Hf) in H as [H|[_ ->]]; [done |].
  destruct Hf as (-> & _). unfold in_tab in Hq. lia.
Qed.

Lemma new1_value_old e c t1 x e' : tinv t -> in_tab t x -> new1 t e c t1 -> value t1 x e' -> value t x e'.
Proof.
  intros Ht Hx (_ & [[-> _]|[_ Hf]]) H; [done |]. apply (fresh_value t e c t1 Ht Hf) in H as [H|[-> _]]; [done |].
  destruct Hf as (-> & _). unfold in_tab in Hx. lia.
Qed.

Lemma ready_new b e0 e c t1 : ready t ini m b e0 -> entry N0 L0 t ini m Ev q e -> new1 t e c t1 ->
  exists ini' m', ready t1 ini' m' b e0 /\ ext t ini ini' m m' /\ m' c = aden (A:=meas_alg) t m e /\ in_tab t1 c /\ hashed t1 e c.
Proof.
  intros [R1 R2 R3 R4 [E1 E2 E3 E4] R6 R7] He Hn. pose proof (sh_tinv _ _ _ _ _ _ _ R1) as Ht.
  destruct (shape_new N0 L0 t ini m Ev q R1 e c t1 He) as (ini' & m' & S' & X & Q); [unfold in_tab in R2; lia | done |].
  exists ini', m'. pose proof (new1_in_tab_old t e c t1 Hn) as Hin.
  assert (forall x a, in_tab t x -> a ∈ args (ini x) -> in_tab t a) as Hargs by (intros x a; by apply (sh_arg_in_tab N0 L0 t ini m Ev q R1)).
  assert (forall e', hashed t1 e' q -> hashed t e' q) as Hh by (intros e'; by apply (new1_hashed_cur e c)).
  assert (forall a y, hashed t (AndX a y) q -> in_tab t a /\ in_tab t y) as Hay.
  { intros a y H. destruct (hashed_valid t _ q Ht H) as [Hv _]. cbn in Hv. apply List.Forall_cons_iff in Hv as [? Hv]. by apply List.Forall_cons_iff in Hv as [? _]. }
  split; [| split; [done | split; [done | split; [by apply (new1_in_tab t e c t1) | by apply (new1_hashed t e c t1)]]]].
  split; try done.
  - by apply Hin.
  - by apply (ext_shallow t ini ini' m m' X Hargs).
  - split.
    + intros a y H%Hh Hnu. destruct (Hay a y H) as [Ta _]. rewrite (ext_nu t ini ini' m m' X a Ta) in Hnu. by apply (E1 a y).
    + intros o d H%Hh Hnu. destruct (Hay o d H) as [To Td]. rewrite (ext_nu t ini ini' m m' X o To) in Hnu. destruct (X d Td) as [-> _]. by apply (E2 o d).
    + intros x y H%Hh. by apply (E3 x y).
    + intros a y p H%Hh V. destruct (Hay a y H) as [Ta _]. apply (E4 a y p H). by apply (new1_value_old e c t1).
  - by apply (new1_value t e c t1).
Qed.

Lemma ready_shape_value b e : ready t ini m b e -> forall p, ~ value t q (SymX p).
Proof. intros R p V. apply (rd_sym _ _ _ _ _ R p). by apply (value_fun t q); [apply R |]. Qed.

Lemma ready_alias b e u : ready t ini m b e -> alias ini m q u -> flat ini m u.
Proof.
  intros R (x & E & H0). destruct (rd_shallow _ _ _ _ _ R) as [H|(v & (x' & E' & _) & Hv)]; [by destruct (H x u) |].
  rewrite E in E'. by injection E' as _ ->.
Qed.

(** [q] becomes an alternative: the next round is the last one. *)
Lemma to_or b e c d t2 : ready t ini m b e -> at1 t q (OrX c d) t2 -> m_or (m c) (m d) = m q -> state_at t2 ini m 0.
Proof.
  intros R A1 Hm. pose proof R as [R1 R2 R3 R4 R5 R6 R7].
  assert (shape N0 L0 t2 ini m Ev q) as S2.
  { apply (shape_at N0 L0 t ini m Ev q R1 R2 R3 (ready_shape_value b e R) (OrX c d) t2 A1); [exact Hm | done |]. intros u. by apply (ready_alias b e). }
  apply (at_end t2 ini m 0 (OrX c d)); [done | | done | done].
  destruct (at1_value_new t q (OrX c d) t2 R2 A1) as [[H _]|H]; [by destruct (et_or _ _ _ _ R5 c d) | done].
Qed.

(** [q] becomes another product. *)
Lemma to_and b e a c t2 : ready t ini m b e -> at1 t q (AndX a c) t2 -> m_and (m a) (m c) = m q -> ~ hashed t (AndX a c) q ->
  shape N0 L0 t2 ini m Ev q /\ value t2 q (AndX a c) /\ in_tab t2 q /\
  (forall e', hashed t2 e' q -> hashed t e' q \/ e' = AndX a c) /\ (forall x e', x <> q -> value t2 x e' <-> value t x e') /\
  (forall x, in_tab t2 x <-> in_tab t x).
Proof.
  intros R A1 Hm Hno. pose proof R as [R1 R2 R3 R4 R5 R6 R7]. pose proof (sh_tinv _ _ _ _ _ _ _ R1) as Ht.
  assert (shape N0 L0 t2 ini m Ev q) as S2.
  { apply (shape_at N0 L0 t ini m Ev q R1 R2 R3 (ready_shape_value b e R) (AndX a c) t2 A1); [exact Hm | done |]. intros u. by apply (ready_alias b e). }
  split; [done |]. split; [destruct (at1_value_new t q (AndX a c) t2 R2 A1) as [[H _]|H]; done |].
  split; [by apply (at1_in_tab t q (AndX a c) t2 A1) |].
  split; [intros e' H; destruct (at1_hashed t q (AndX a c) t2 A1 e' q H) as [?|[? _]]; [by left | by right] |].
  split; [| apply (at1_in_tab t q (AndX a c) t2 A1)]. intros x e' Hne. split; [| by apply (at1_value_old t q (AndX a c) t2 R2 A1)].
  intros H. destruct (at1_value t q (AndX a c) t2 Ht R2 A1 x e' H) as [?|[? _]]; done.
Qed.

Lemma right_ok_same t2 y : (forall x, in_tab t2 x <-> in_tab t x) -> right_ok t ini m y -> right_ok t2 ini m y.
Proof. intros H (H1 & H2). split; [by apply H | done]. Qed.

(** The product after [to_and] when its left argument is a symbol. *)
Lemma to_sym b e a c t2 p : ready t ini m b e -> at1 t q (AndX a c) t2 -> m_and (m a) (m c) = m q -> value t a (SymX p) -> state_at t2 ini m 0.
Proof.
  intros R A1 Hm V. pose proof R as [R1 R2 R3 R4 R5 R6 R7].
  destruct (to_and b e a c t2 R A1 Hm) as (S2 & V2 & _ & _ & Hv & _); [intros H; by apply (et_sym _ _ _ _ R5 a c p) |].
  apply (at_end t2 ini m 0 (AndX a c)); [done | done | | done]. exists p. apply Hv; [| done]. intros ->.
  by apply (ready_shape_value b e R p).
Qed.

(** ... when it is another class below the bound. *)
Lemma to_left b e a c t2 : ready t ini m b e -> at1 t q (AndX a c) t2 -> m_and (m a) (m c) = m q -> nu m a <> O -> 0 <= a < q -> a < b ->
  right_ok t ini m c -> spine N0 ini m (nu m c) q -> state_at t2 ini m (2 * a + 4).
Proof.
  intros R A1 Hm Ha Haq Hab Hr Hsp. pose proof R as [R1 R2 R3 R4 [E1 E2 E3 E4] R6 R7].
  assert (in_tab t a) as Hta by (unfold in_tab in *; lia).
  destruct (value_total t a (sh_tinv _ _ _ _ _ _ _ R1) Hta) as [ea Va].
  assert ((exists p, ea = SymX p) \/ forall p, ~ value t a (SymX p)) as [[p ->]|Hns].
  { destruct ea as [p| | | | | | |]; try (left; by exists p); right; intros p V; by pose proof (value_fun t a _ _ V Va). }
  { apply (state_at_mono t2 ini m 0); [by apply (to_sym b e a c t2 p) | lia]. }
  destruct (to_and b e a c t2 R A1 Hm) as (S2 & V2 & T2 & Hh & Hv & Hin); [intros H; specialize (E1 a c H Ha); lia |].
  assert (a <> q) as Hne by lia.
  apply (at_form t2 ini m _ a (AndX a c)); [| | cbn; lia].
  - split; try done. split.
    + intros a' y H Hnu. destruct (Hh _ H) as [H'|[= -> ->]]; [specialize (E1 a' y H' Hnu); lia | lia].
    + intros o d H Hnu. destruct (Hh _ H) as [H'|[= -> ->]]; [| done]. destruct (E2 o d H' Hnu) as (G1 & G2 & G3).
      split; [done |]. split; [done |]. intros x y E. specialize (G3 x y E). lia.
    + intros x y H. destruct (Hh _ H) as [H'|H']; [by apply (E3 x y) | done].
    + intros a' y p H V. destruct (Hh _ H) as [H'|[= -> ->]].
      * apply (E4 a' y p H'). apply Hv; [| done]. intros ->. assert (SymX p = AndX a c) by (by apply (value_fun t2 q)). done.
      * apply (Hns p). by apply Hv.
  - cbn. split; [done |]. split; [done |]. split; [lia |]. split; [by apply (right_ok_same t2) | done].
Qed.

(** ... and when it is the class of the empty word, before a product. *)
Lemma to_one b e a c x y t2 : ready t ini m b e -> at1 t q (AndX a c) t2 -> m_and (m a) (m c) = m q -> in_tab t a -> nu m a = O -> in_tab t c -> hashed t (AndX x y) c ->
  nu m x <> O -> 0 <= x < q -> x < b -> right_ok t ini m y -> spine N0 ini m (nu m y) q -> nu m c <> O -> state_at t2 ini m (2 * x + 5).
Proof.
  intros R A1 Hm Ta Ha Tc Hc Hx Hxq Hxb Hr Hsp Hcn. pose proof R as [R1 R2 R3 R4 [E1 E2 E3 E4] R6 R7].
  assert (c <> q) as Hcq by (intros ->; specialize (E1 x y Hc Hx); lia).
  assert (a <> q) as Haq.
  { intros ->. pose proof (sh_hashed N0 L0 t ini m Ev q R1 _ c Hc). unfold nu in *. rewrite <- Hm in Ha. cbn in Ha. lia. }
  assert (c ∉ Ev -> ini c = AndX x y) as Hci by (intros H; symmetry; by apply (sh_plain _ _ _ _ _ _ _ R1 c Tc H Hcq)).
  destruct (to_and b e a c t2 R A1 Hm) as (S2 & V2 & T2 & Hh & Hv & Hin).
  { intros H. destruct (E2 a c H Ha) as (G1 & _ & G3). specialize (G3 x y (Hci G1)). lia. }
  destruct (decide (c ∈ Ev)) as [HcE|HcE]; [apply (at_copy t2 ini m _ a c); try done; lia |].
  specialize (Hci HcE). apply (at_one t2 ini m _ x a c); try done; rewrite ?Hci.
  - split; try done. split.
    + intros a' y' H Hnu. destruct (Hh _ H) as [H'|[= -> ->]]; [specialize (E1 a' y' H' Hnu); lia | done].
    + intros o d H Hnu. destruct (Hh _ H) as [H'|[= -> ->]].
      * destruct (E2 o d H' Hnu) as (G1 & G2 & G3). split; [done |]. split; [done |]. intros x' y' E. specialize (G3 x' y' E). lia.
      * split; [done |]. split; [done |]. rewrite Hci. intros x' y' [= -> ->]. lia.
    + intros z w H. destruct (Hh _ H) as [H'|H']; [by apply (E3 z w) | done].
    + intros a' y' p H V. destruct (Hh _ H) as [H'|[= -> ->]].
      * apply (E4 a' y' p H'). apply Hv; [| done]. intros ->. assert (SymX p = AndX a c) by (by apply (value_fun t2 q)). done.
      * apply Hv in V; [| done]. pose proof (one_value t ini m R1 a Ta Ha Haq) as V1. by pose proof (value_fun t a _ _ V V1).
  - by apply Hin.
  - cbn. split; [done |]. split; [done |]. split; [lia |]. split; [by apply (right_ok_same t2) | done].
  - cbn. lia.
Qed.
End Mid.
End Rank.
