(* ===== verification/RegexHalts.v ===== *)
(** * Every round of an evaluation brings its end nearer

    [state_at_step]: the rewriting of regex2dfa.c decreases the bound of [state_at];
    [state_at_start]: at first the bound is at most twice the number of the class and a
    constant. *)

From Stdlib Require Import ZArith Lia.
From stdpp Require Import base tactics option list numbers.
From S2P Require Import Prelude Regex2dfa RegexTables RegexEval RegexSem RegexShape RegexCount.

Open Scope Z_scope.

Section Halts.
Context (N0 : Z) (L0 : nat) (Ev : list Z) (q : Z).
Abbreviation state_at := (state_at N0 L0 Ev q).
Abbreviation ready := (ready N0 L0 Ev q).
Abbreviation form := (form N0 L0 Ev q).
Abbreviation right_ok := (right_ok L0 Ev q).
Abbreviation entry := (fun t ini m => entry N0 L0 t ini m Ev q).

(** The state after a round, with a smaller bound. *)
Definition next (t' : tables) (n : Z) : Prop := exists ini' m' n', state_at t' ini' m' n' /\ 0 <= n' < n.

Lemma next_intro t' ini' m' n' n : state_at t' ini' m' n' -> 0 <= n' < n -> next t' n.
Proof. intros H Hn. by exists ini', m', n'. Qed.

(** ** The rounds of a class that is not a product *)
Section Round.
Context (t : tables) (ini : Z -> expr) (m : Z -> mea) (b : Z) (e0 : expr) (R : ready t ini m b e0).

Lemma cur_in : in_tab t q.
Proof. exact (rd_in _ _ _ _ _ _ _ _ _ R). Qed.

Lemma cur_shape : shape N0 L0 t ini m Ev q.
Proof. exact (rd_shape _ _ _ _ _ _ _ _ _ R). Qed.

Lemma rd_meas : aden (A:=meas_alg) t m e0 = m q.
Proof. apply (sh_value N0 L0 t ini m Ev q cur_shape). exact (rd_value _ _ _ _ _ _ _ _ _ R). Qed.

Lemma rd_level : ((m q).2 <= L0)%nat.
Proof. destruct R as [S Hq _ _ _ _ _]. by apply (sh_level _ _ _ _ _ _ _ S q). Qed.

Lemma entry_one : entry t ini m OneX.
Proof. split; cbn; try done; lia. Qed.

Lemma orig_meas a : 0 <= a < N0 -> in_tab t a /\ (m a).1 <> O /\ (m a).2 <> O.
Proof.
  intros Ha. pose proof (rd_shape _ _ _ _ _ _ _ _ _ R) as S. pose proof (sh_orig _ _ _ _ _ _ _ S a Ha) as Ta. split; [done |].
  pose proof (sh_orig_pos N0 L0 t ini m Ev q S a Ha) as Hn. split; [exact Hn | by apply (sh_pos _ _ _ _ _ _ _ S)].
Qed.

Lemma entry_unary a : 0 <= a < N0 -> (m_lift (m a).2 1 <= L0)%nat -> entry t ini m (StarX a) /\ entry t ini m (PlusX a).
Proof.
  intros Ha Hl. destruct (orig_meas a Ha) as (Ta & Hn & Hlv). assert (m_lift (m a).2 1 <> O) by (unfold m_lift; destruct ((m a).2); lia).
  split; split; cbn; try done; first [by apply valid1 | by split].
Qed.

Lemma step_opt a o t1 t2 n : e0 = OptX a -> 0 <= a < N0 -> new1 t OneX o t1 -> at1 t1 q (OrX o a) t2 -> 1 <= n -> next t2 n.
Proof.
  intros He Ha N1 A1 Hn. destruct (ready_new N0 L0 Ev q t ini m b e0 OneX o t1 R entry_one N1) as (ini' & m' & R' & X & Q & _).
  apply (next_intro t2 ini' m' 0); [| lia]. apply (to_or N0 L0 Ev q t1 ini' m' b e0 o a t2 R' A1).
  destruct (X a) as [_ ->]; [by apply orig_meas |]. destruct (X q) as [_ ->]; [exact cur_in |]. rewrite Q. rewrite <- rd_meas, He. reflexivity.
Qed.

(** Two classes, in any order. *)
Lemma ready_new2 e1 c1 e2 c2 t1 : new2 t e1 c1 e2 c2 t1 -> entry t ini m e1 -> entry t ini m e2 ->
  (forall t' ini' m', ready t' ini' m' b e0 -> ext t ini ini' m m' -> (forall x, in_tab t x -> in_tab t' x) -> Symbols t' = Symbols t ->
     entry t' ini' m' e1 /\ entry t' ini' m' e2) ->
  exists ini' m', ready t1 ini' m' b e0 /\ ext t ini ini' m m' /\ m' c1 = aden (A:=meas_alg) t m e1 /\ m' c2 = aden (A:=meas_alg) t m e2.
Proof.
  intros Hn H1 H2 Hmid.
  assert (forall e1 c1 e2 c2 t0, new1 t e1 c1 t0 -> new1 t0 e2 c2 t1 -> entry t ini m e1 -> entry t ini m e2 ->
    (forall t' ini' m', ready t' ini' m' b e0 -> ext t ini ini' m m' -> (forall x, in_tab t x -> in_tab t' x) -> Symbols t' = Symbols t -> entry t' ini' m' e2) ->
    exists ini' m', ready t1 ini' m' b e0 /\ ext t ini ini' m m' /\ m' c1 = aden (A:=meas_alg) t m e1 /\ m' c2 = aden (A:=meas_alg) t m e2) as H.
  { clear e1 c1 e2 c2 Hn H1 H2 Hmid. intros e1 c1 e2 c2 t0 N1 N2 H1 H2 Hmid.
    destruct (ready_new N0 L0 Ev q t ini m b e0 e1 c1 t0 R H1 N1) as (i1 & m1 & R1 & X1 & Q1 & T1 & _).
    pose proof (new1_in_tab_old t e1 c1 t0 N1) as Hin. pose proof (new1_syms t e1 c1 t0 N1) as Hs.
    destruct (ready_new N0 L0 Ev q t0 i1 m1 b e0 e2 c2 t1 R1) as (i2 & m2 & R2 & X2 & Q2 & _); [by apply Hmid | done |].
    exists i2, m2. split; [done |]. split; [by apply (ext_trans t t0 ini i1 i2 m m1 m2) |]. split; [destruct (X2 c1 T1) as [_ ->]; done |].
    rewrite Q2. apply (ext_aden t ini i1 m m1 X1); [done |]. intros a Ha. apply (valid_args t e2); [apply H2 | done]. }
  destruct Hn as (t0 & [[N1 N2]|[N1 N2]]).
  - apply (H e1 c1 e2 c2 t0); try done. intros t' i' m' Hr Hx Hi Hs. by apply Hmid.
  - destruct (H e2 c2 e1 c1 t0) as (i & m' & ? & ? & ? & ?); try done; [intros t' i' m' Hr Hx Hi Hs; by apply Hmid |]. by exists i, m'.
Qed.

Lemma step_star a o p t1 t2 n : e0 = StarX a -> 0 <= a < N0 -> new2 t OneX o (PlusX a) p t1 -> at1 t1 q (OrX o p) t2 -> 1 <= n -> next t2 n.
Proof.
  intros He Ha N1 A1 Hn. pose proof rd_meas as Hm. rewrite He in Hm. cbn in Hm. pose proof rd_level as Hl. rewrite <- Hm in Hl. cbn in Hl.
  destruct (ready_new2 OneX o (PlusX a) p t1 N1 entry_one) as (ini' & m' & R' & X & Q1 & Q2); [by apply entry_unary | |].
  { intros t' i' m' R' X Hin Hs. split; [split; cbn; try done; lia |].
    destruct (X a) as [_ Ea]; [by apply orig_meas |]. destruct (orig_meas a Ha) as (Ta & Hna & Hla). rewrite <- Ea in Hl.
    assert (m_lift (m' a).2 1 <> O) by (rewrite Ea; unfold m_lift; destruct ((m a).2); lia).
    split; cbn; try done; [by apply valid1, Hin]. }
  apply (next_intro t2 ini' m' 0); [| lia]. apply (to_or N0 L0 Ev q t1 ini' m' b e0 o p t2 R' A1).
  destruct (X q) as [_ ->]; [exact cur_in |]. rewrite Q1, Q2, <- Hm. reflexivity.
Qed.

Lemma step_plus a s t1 t2 n : e0 = PlusX a -> form t ini m b e0 -> new1 t (StarX a) s t1 -> at1 t1 q (AndX a s) t2 -> rank e0 <= n -> next t2 n.
Proof.
  intros He Hf N1 A1 Hn. rewrite He in Hf, Hn. destruct Hf as (Ha & Haq & Hab & Hsp). cbn in Hn.
  pose proof rd_meas as Hm. rewrite He in Hm. cbn in Hm. pose proof rd_level as Hl. rewrite <- Hm in Hl. cbn in Hl.
  destruct (orig_meas a Ha) as (Ta & Hna & Hla).
  destruct (ready_new N0 L0 Ev q t ini m b e0 (StarX a) s t1 R) as (ini' & m' & R' & X & Q & Ts & Hs); [by apply entry_unary | done |].
  cbn in Q. destruct (X a Ta) as [_ Ea]. destruct (X q) as [_ Eq]; [exact cur_in |]. pose proof (rd_shape _ _ _ _ _ _ _ _ _ R') as S'.
  assert (m_lift (m a).2 1 <> O) as Hlift by (unfold m_lift; destruct ((m a).2); lia).
  apply (next_intro t2 ini' m' (2 * a + 4)); [| lia].
  apply (to_left N0 L0 Ev q t1 ini' m' b e0 a s t2 R' A1).
  - rewrite Ea, Eq, Q, <- Hm. unfold m_and, m_star, m_plus. cbn. f_equal; lia.
  - unfold nu. by rewrite Ea.
  - lia.
  - done.
  - apply (right_ok_hashed N0 L0 Ev q t1 ini' m' S' s (StarX a)); [done | done | done |]. unfold nu. rewrite Q. cbn. lia.
  - apply (spine_mono N0 ini' m' 0); [lia |].
    apply (ext_spine N0 t ini ini' m m' X); [intros x z; by apply (sh_arg_in_tab N0 L0 t ini m Ev q cur_shape) | exact cur_in | done].
Qed.

(** ** The rounds of a product *)
Section Product.
Context (x y : Z) (He : e0 = AndX x y) (Hf : form t ini m b e0).

Lemma product_form : nu m x <> O /\ 0 <= x < q /\ x <= b /\ right_ok t ini m y /\ spine N0 ini m (nu m y) q.
Proof. pose proof Hf as H. by rewrite He in H. Qed.

Lemma product_in_tab : in_tab t x /\ in_tab t y /\ x <> q.
Proof. destruct product_form as (_ & Hx & _ & (Hy & _) & _). pose proof cur_in. unfold in_tab in *. split; [lia |]. split; [done | lia]. Qed.

Lemma product_meas ex : value t x ex -> m_and (aden (A:=meas_alg) t m ex) (m y) = m q.
Proof. intros V. rewrite (sh_value N0 L0 t ini m Ev q cur_shape x ex V). pose proof rd_meas as H. by rewrite He in H. Qed.

Lemma ext_right_ok t1 ini' m' z : ext t ini ini' m m' -> (forall x, in_tab t x -> in_tab t1 x) -> right_ok t ini m z -> right_ok t1 ini' m' z.
Proof.
  intros X Hin (Hz & Hn & Hs & Hr).
  assert (forall x a, in_tab t x -> a ∈ args (ini x) -> in_tab t a) as Hargs by (intros w a; by apply (sh_arg_in_tab N0 L0 t ini m Ev q cur_shape)).
  split; [by apply Hin |]. split; [by rewrite (ext_nu t ini ini' m m' X z Hz) |]. split; [by apply (ext_shallow t ini ini' m m' X) |].
  by rewrite (ext_flat t ini ini' m m' X Hargs z Hz).
Qed.

Lemma ext_cur_spine ini' m' k : ext t ini ini' m m' -> spine N0 ini m k q -> spine N0 ini' m' k q.
Proof.
  intros X. apply (ext_spine N0 t ini ini' m m' X); [| exact cur_in]. intros w a. by apply (sh_arg_in_tab N0 L0 t ini m Ev q cur_shape).
Qed.

Lemma step_and_opt a c t1 t2 n : value t x (OptX a) -> new1 t (AndX a y) c t1 -> at1 t1 q (OrX y c) t2 -> rank e0 <= n -> next t2 n.
Proof.
  intros V N1 A1 Hn. destruct product_form as (Hx0 & Hx & Hxb & Hr & Hsp). destruct product_in_tab as (Tx & Ty & Hne).
  destruct (plain_value N0 L0 Ev q t ini m cur_shape x (OptX a) Hne V (fun H => H)) as [Ex _].
  destruct (plain_arg N0 L0 Ev q t ini m cur_shape x a Tx (or_introl Ex)) as (Ha & _ & Ta). destruct (orig_meas a Ha) as (_ & Hna & Hla).
  pose proof (product_meas _ V) as Hm. pose proof rd_level as Hl. rewrite <- Hm in Hl. cbn in Hm, Hl.
  destruct (ready_new N0 L0 Ev q t ini m b e0 (AndX a y) c t1 R) as (ini' & m' & R' & X & Q & _); [apply (entry_and N0 L0 Ev q t ini m cur_shape); try done; cbn; lia | done |].
  apply (next_intro t2 ini' m' 0); [| rewrite He in Hn; cbn in Hn; lia]. apply (to_or N0 L0 Ev q t1 ini' m' b e0 y c t2 R' A1).
  destruct (X y Ty) as [_ ->]. destruct (X q) as [_ ->]; [exact cur_in |]. rewrite Q, <- Hm. symmetry. by apply (law_and_opt (A:=meas_alg) (m a) (m y)).
Qed.

Lemma step_and_star a c t1 t2 n : value t x (StarX a) -> new1 t (AndX a q) c t1 -> at1 t1 q (OrX y c) t2 -> rank e0 <= n -> next t2 n.
Proof.
  intros V N1 A1 Hn. destruct product_form as (Hx0 & Hx & Hxb & Hr & Hsp). destruct product_in_tab as (Tx & Ty & Hne).
  destruct (plain_value N0 L0 Ev q t ini m cur_shape x (StarX a) Hne V (fun H => H)) as [Ex _].
  destruct (plain_arg N0 L0 Ev q t ini m cur_shape x a Tx (or_intror (or_introl Ex))) as (Ha & _ & Ta). destruct (orig_meas a Ha) as (_ & Hna & Hla).
  pose proof (product_meas _ V) as Hm. pose proof (law_and_star (A:=meas_alg) (m a) (m y) I) as Hlaw. cbn in Hm, Hlaw.
  pose proof rd_level as Hl. assert (m q = m_or (m y) (m_and (m a) (m q))) as Hq by (by rewrite <- Hm).
  assert ((m_and (m a) (m q)).2 <= L0)%nat as Hc by (rewrite Hq in Hl; cbn in Hl |- *; lia).
  assert (right_ok t ini m q) as Hrq.
  { split; [exact cur_in |]. split; [| split; [exact (rd_shallow _ _ _ _ _ _ _ _ _ R) | right; by right]].
    assert (nu m q = S (m y).1) as E by (unfold nu; rewrite <- Hm; cbn; lia). split; [lia |].
    cbn in Hc. unfold m_lift in Hc. unfold nu in *. destruct ((m a).2); lia. }
  destruct (ready_new N0 L0 Ev q t ini m b e0 (AndX a q) c t1 R) as (ini' & m' & R' & X & Q & _); [by apply (entry_and N0 L0 Ev q t ini m cur_shape) | done |].
  apply (next_intro t2 ini' m' 0); [| rewrite He in Hn; cbn in Hn; lia]. apply (to_or N0 L0 Ev q t1 ini' m' b e0 y c t2 R' A1).
  destruct (X y Ty) as [_ ->]. destruct (X q) as [_ ->]; [exact cur_in |]. by rewrite Q.
Qed.

Lemma step_and_plus a c t1 t2 n : value t x (PlusX a) -> new1 t (OrX y q) c t1 -> at1 t1 q (AndX a c) t2 -> rank e0 <= n -> next t2 n.
Proof.
  intros V N1 A1 Hn. destruct product_form as (Hx0 & Hx & Hxb & Hr & Hsp). destruct product_in_tab as (Tx & Ty & Hne).
  destruct (plain_value N0 L0 Ev q t ini m cur_shape x (PlusX a) Hne V (fun H => H)) as [Ex _].
  destruct (plain_arg N0 L0 Ev q t ini m cur_shape x a Tx (or_intror (or_intror Ex))) as (Ha & Hax & Ta). destruct (orig_meas a Ha) as (_ & Hna & Hla).
  pose proof (product_meas _ V) as Hm. pose proof (law_and_plus (A:=meas_alg) (m a) (m y) I) as Hlaw. cbn in Hm, Hlaw.
  pose proof rd_level as Hl. assert (m q = m_and (m a) (m_or (m y) (m q))) as Hq by (by rewrite <- Hm).
  pose proof Hr as (_ & Hny & _). pose proof (nu_pos_level N0 L0 Ev q t ini m cur_shape y Ty ltac:(lia)) as Hly.
  assert ((m q).1 = (S (m a).1 + (m y).1)%nat) as Enq by (rewrite <- Hm; cbn; lia).
  assert (entry t ini m (OrX y q)) as Hent.
  { split; cbn.
    - apply valid2; [done | exact cur_in].
    - split; [done |]. split; [unfold nu; lia | done].
    - rewrite Hq in Hl. cbn in Hl. lia.
    - split; [done | lia].
    - done. }
  destruct (ready_new N0 L0 Ev q t ini m b e0 (OrX y q) c t1 R Hent N1) as (ini' & m' & R' & X & Q & Tc & Hc). cbn in Q.
  destruct (X a Ta) as [_ Ea]. destruct (X q) as [_ Eq]; [exact cur_in |].
  assert ((m' c).1 = S (m y).1) as Enc by (rewrite Q; cbn; lia).
  apply (next_intro t2 ini' m' (2 * a + 4)); [| rewrite He in Hn; cbn in Hn; lia].
  apply (to_left N0 L0 Ev q t1 ini' m' b e0 a c t2 R' A1); [| unfold nu; by rewrite Ea | lia | lia | |].
  - rewrite Ea, Eq, Q. by symmetry.
  - apply (right_ok_hashed N0 L0 Ev q t1 ini' m' (rd_shape _ _ _ _ _ _ _ _ _ R') c (OrX y q)); [done | done | done |].
    unfold nu. rewrite Enc. split; [lia |]. rewrite Hq in Hl. cbn in Hl. unfold m_lift in Hl. destruct ((m a).2); [done |]. rewrite Enq in Hl. lia.
  - apply (spine_mono N0 ini' m' (nu m y)); [unfold nu; lia |]. by apply ext_cur_spine.
Qed.

Lemma step_and_or a d c c' t1 t2 n : value t x (OrX a d) -> new2 t (AndX a y) c (AndX d y) c' t1 -> at1 t1 q (OrX c c') t2 -> rank e0 <= n -> next t2 n.
Proof.
  intros V N1 A1 Hn. destruct product_form as (Hx0 & Hx & Hxb & Hr & Hsp). destruct product_in_tab as (Tx & Ty & Hne).
  pose proof (product_meas _ V) as Hm. pose proof (law_and_or (A:=meas_alg) (m a) (m d) (m y)) as Hlaw. cbn in Hm, Hlaw.
  pose proof rd_level as Hl. rewrite <- Hm, Hlaw in Hl.
  assert ((m_and (m a) (m y)).2 <= L0 /\ (m_and (m d) (m y)).2 <= L0)%nat as [La Ld] by (unfold m_or in Hl; cbn [snd] in Hl; lia).
  destruct (value_valid t x _ (sh_tinv _ _ _ _ _ _ _ cur_shape) V) as (_ & Hv & _). cbn in Hv.
  apply List.Forall_cons_iff in Hv as [Ta Hv]. apply List.Forall_cons_iff in Hv as [Td _].
  destruct (ready_new2 (AndX a y) c (AndX d y) c' t1 N1) as (ini' & m' & R' & X & Q1 & Q2).
  - by apply (entry_and N0 L0 Ev q t ini m cur_shape).
  - by apply (entry_and N0 L0 Ev q t ini m cur_shape).
  - intros t' i' m' R' X Hin _. destruct (X a Ta) as [_ Ea]. destruct (X d Td) as [_ Ed]. destruct (X y Ty) as [_ Ey].
    assert (right_ok t' i' m' y) as Hr' by (by apply ext_right_ok).
    split; apply (entry_and N0 L0 Ev q t' i' m' (rd_shape _ _ _ _ _ _ _ _ _ R')); [by apply Hin | done | by rewrite Ea, Ey | by apply Hin | done | by rewrite Ed, Ey].
  - apply (next_intro t2 ini' m' 0); [| rewrite He in Hn; cbn in Hn; lia]. apply (to_or N0 L0 Ev q t1 ini' m' b e0 c c' t2 R' A1).
    destruct (X q) as [_ ->]; [exact cur_in |]. rewrite Q1, Q2. cbn. by rewrite <- Hlaw.
Qed.

Lemma step_and_and a d c t1 t2 n : value t x (AndX a d) -> new1 t (AndX d y) c t1 -> at1 t1 q (AndX a c) t2 -> rank e0 <= n -> next t2 n.
Proof.
  intros V N1 A1 Hn. rewrite He in Hn. cbn in Hn. destruct product_form as (Hx0 & Hx & Hxb & Hr & Hsp). destruct product_in_tab as (Tx & Ty & Hne).
  pose proof (sh_tinv _ _ _ _ _ _ _ cur_shape) as Ht.
  pose proof (product_meas _ V) as Hm. pose proof (law_and_and (A:=meas_alg) (m a) (m d) (m y)) as Hlaw. cbn in Hm, Hlaw.
  pose proof rd_level as Hl. assert (m q = m_and (m a) (m_and (m d) (m y))) as Hq by (by rewrite <- Hm).
  destruct (value_valid t x _ Ht V) as (_ & Hv & _). cbn in Hv. apply List.Forall_cons_iff in Hv as [Ta Hv]. apply List.Forall_cons_iff in Hv as [Td _].
  assert ((m_and (m d) (m y)).2 <= L0)%nat as Ld by (rewrite Hq in Hl; unfold m_and at 1 in Hl; cbn [snd] in Hl; lia).
  destruct (ready_new N0 L0 Ev q t ini m b e0 (AndX d y) c t1 R) as (ini' & m' & R' & X & Q & Tc & Hc); [by apply (entry_and N0 L0 Ev q t ini m cur_shape) | done |].
  cbn in Q. destruct (X a Ta) as [_ Ea]. destruct (X q) as [_ Eq]; [exact cur_in |]. destruct (X d Td) as [_ Ed]. destruct (X y Ty) as [_ Ey].
  assert (m_and (m' a) (m' c) = m' q) as Hm' by (by rewrite Ea, Eq, Q).
  destruct (value_total t a Ht Ta) as [ea Va]. pose proof (new1_value t _ c t1 N1 a ea Va) as Va1.
  assert ((exists p, ea = SymX p) \/ forall p, ea <> SymX p) as [[p ->]|Hns] by (destruct ea; try (left; eexists; reflexivity); by right).
  { apply (next_intro t2 ini' m' 0); [| lia]. by apply (to_sym N0 L0 Ev q t1 ini' m' b e0 a c t2 p R' A1). }
  destruct (plain_value N0 L0 Ev q t ini m cur_shape x (AndX a d) Hne V) as [Ex _].
  { intros [p Hp]. apply (Hns p). by apply (value_fun t a). }
  destruct (and_args N0 L0 Ev q t ini m cur_shape x a d Tx Ex) as (Hax & Hdx & _ & _ & Hnd & _).
  pose proof Hr as (_ & Hny & _). assert ((m' c).1 = (m d).1 + (m y).1)%nat as Enc by (by rewrite Q). unfold nu in Hnd, Hny.
  destruct (decide (nu m a = O)) as [Ha0|Ha0].
  - apply (next_intro t2 ini' m' (2 * d + 5)); [| lia].
    apply (to_one N0 L0 Ev q t1 ini' m' b e0 a c d y t2 R' A1); try done; try lia.
    + by apply (new1_in_tab_old t _ c t1 N1).
    + unfold nu in *. by rewrite Ea.
    + unfold nu. rewrite Ed. lia.
    + apply ext_right_ok; [done | apply (new1_in_tab_old t _ c t1 N1) | done].
    + unfold nu. rewrite Ey. by apply ext_cur_spine.
    + unfold nu. lia.
  - apply (next_intro t2 ini' m' (2 * a + 4)); [| lia].
    apply (to_left N0 L0 Ev q t1 ini' m' b e0 a c t2 R' A1); [done | unfold nu in *; by rewrite Ea | lia | lia | |].
    + apply (right_ok_hashed N0 L0 Ev q t1 ini' m' (rd_shape _ _ _ _ _ _ _ _ _ R') c (AndX d y)); [done | done | intros x' y' [= <- <-]; unfold nu; rewrite Ed; lia |].
      unfold nu. rewrite Enc. split; [lia |]. pose proof (nu_pos_level N0 L0 Ev q t ini m cur_shape a Ta Ha0) as Hla. rewrite Hq in Hl. cbn in Hl.
      unfold m_lift in Hl at 1. destruct ((m a).2); [done |]. lia.
    + apply (spine_mono N0 ini' m' (nu m y)); [unfold nu; lia |]. by apply ext_cur_spine.
Qed.

Lemma step_and_one t2 n : value t x OneX -> copied t q y t2 -> next t2 n.
Proof.
  intros V _. exfalso. destruct product_form as (Hx0 & _). apply Hx0. by rewrite (nu_value N0 L0 Ev q t ini m cur_shape x OneX V).
Qed.
End Product.
End Round.

(** ** Copies *)
Section Copy.
Context (t : tables) (ini : Z -> expr) (m : Z -> mea) (x y : Z).
Hypothesis (Hsh : shape N0 L0 t ini m Ev q) (Hev : q ∉ Ev) (V : value t q (AndX x y)) (Hx : nu m x = O) (Hy : nu m y <> O).

Lemma copy_facts : value t x OneX /\ m y = m q /\ in_tab t y /\ forall p, ~ value t q (SymX p).
Proof.
  destruct (value_valid t q _ (sh_tinv _ _ _ _ _ _ _ Hsh) V) as (_ & Hv & _). cbn in Hv.
  apply List.Forall_cons_iff in Hv as [Tx Hv]. apply List.Forall_cons_iff in Hv as [Ty _].
  pose proof (sh_value N0 L0 t ini m Ev q Hsh q _ V) as Hm. cbn in Hm.
  assert (x <> q) as Hne by (intros ->; unfold nu in *; rewrite <- Hm in Hx; cbn in Hx; lia).
  pose proof (one_value N0 L0 Ev q t ini m Hsh x Tx Hx Hne) as V1. split; [done |]. split; [| split; [done |]].
  - pose proof (sh_value N0 L0 t ini m Ev q Hsh x _ V1) as E. cbn in E. rewrite <- E in Hm. rewrite <- Hm. unfold m_and. cbn. by destruct (m y).
  - intros p Vp. by pose proof (value_fun t q _ _ V Vp).
Qed.

Lemma copied_terminal t2 e : copied t q y t2 -> terminal t e -> terminal t2 e.
Proof.
  intros C. apply terminal_mono. intros z p Vz. apply (copied_value_old t q y t2 C); [| done]. intros ->. by apply (proj2 (proj2 (proj2 copy_facts)) p).
Qed.

Lemma step_copy_done t2 n : copied t q y t2 -> y ∈ Ev -> 1 <= n -> next t2 n.
Proof.
  intros C HyE Hn. destruct copy_facts as (_ & Em & Ty & Hns). destruct (sh_done _ _ _ _ _ _ _ Hsh y HyE) as (_ & e & Ve & T).
  apply (next_intro t2 ini m 0); [| lia]. apply (at_end N0 L0 Ev q t2 ini m 0 e); [| by apply (copied_value_new t q y) | by apply copied_terminal | lia].
  apply (shape_copied N0 L0 t ini m Ev q Hsh Hev Hns y t2 C Em).
Qed.

Lemma step_copy_plain b t2 n : ready t ini m b (AndX x y) -> copied t q y t2 -> y ∉ Ev -> y <> q -> form t ini m b (ini y) -> 1 + rank (ini y) <= n -> next t2 n.
Proof.
  intros R C HyE Hyq Hf Hn. destruct copy_facts as (_ & Em & Ty & Hns). destruct (sh_plain _ _ _ _ _ _ _ Hsh y Ty HyE Hyq) as [Vy _].
  pose proof (shape_copied N0 L0 t ini m Ev q Hsh Hev Hns y t2 C Em) as S2. pose proof (copied_value_new t q y t2 C (ini y) Vy) as V2.
  assert (0 <= rank (ini y)) as Hrk.
  { destruct (ini y); cbn in Hf |- *; lia. }
  apply (next_intro t2 ini m (rank (ini y))); [| lia].
  assert ((exists p, ini y = SymX p) \/ forall p, ini y <> SymX p) as [[p E]|Hs] by (destruct (ini y); try (left; eexists; reflexivity); by right).
  { apply (at_end N0 L0 Ev q t2 ini m _ (ini y)); [done | done | by rewrite E | done]. }
  pose proof R as [R1 R2 R3 R4 [E1 E2 E3 E4] R6 R7]. pose proof (fun e q' => copied_hashed t q y t2 C e q') as Hh.
  apply (at_form N0 L0 Ev q t2 ini m _ b (ini y)); [| | done].
  - split; try done; [by apply (copied_in_tab t q y t2 C) |]. split.
    + intros a z H%Hh. by apply (E1 a z).
    + intros o d H%Hh. by apply E2.
    + intros c d H%Hh. by apply (E3 c d).
    + intros a z p H%Hh Va. destruct (decide (a = q)) as [->|Hne]; [by destruct (Hs p); apply (value_fun t2 q) |].
      apply (E4 a z p H). pose proof (value_in_tab t2 a _ Va) as Ta%(copied_in_tab t q y t2 C).
      destruct (value_total t a (sh_tinv _ _ _ _ _ _ _ Hsh) Ta) as [ea Vea].
      by rewrite (value_fun t2 a _ _ Va (copied_value_old t q y t2 C a ea Hne Vea)).
  - destruct (ini y) as [ | | |x' y'| | | | ]; cbn in Hf |- *; try done. destruct Hf as (G1 & G2 & G3 & (G4 & G5) & G6).
    do 3 (split; [done |]). split; [| done]. split; [by apply (copied_in_tab t q y t2 C) | done].
Qed.
End Copy.

(** ** All rounds *)
Theorem state_at_step t ini m n t' : state_at t ini m n -> rewrites q t t' -> next t' n.
Proof.
  intros HS Hr. destruct HS as [e S V T Hn|x y S Hev V Hx Hy HyE Hn|b e R F Hn|b x y R Hx Ty Hy HyE Hyq F Hn].
  - exfalso. destruct Hr as [a o t1 t2 V1|a s t1 t2 V1|a o p t1 t2 V1|x y t2 V1 V2|x y a c t1 t2 V1 V2|x y a c t1 t2 V1 V2|x y a c t1 t2 V1 V2
      |x y a b c d t1 t2 V1 V2|x y a b c t1 t2 V1 V2]; rewrite (value_fun t q e _ V V1) in T; try done; destruct T as [p' T]; by pose proof (value_fun t x _ _ V2 T).
  - pose proof (copy_facts t ini m x y S V Hx Hy) as (V1 & _).
    destruct Hr as [a o t1 t2 W1|a s t1 t2 W1|a o p t1 t2 W1|x' y' t2 W1 W2 C|x' y' a c t1 t2 W1 W2|x' y' a c t1 t2 W1 W2|x' y' a c t1 t2 W1 W2
      |x' y' a b c d t1 t2 W1 W2|x' y' a b c t1 t2 W1 W2]; pose proof (value_fun t q _ _ V W1) as E; try done; injection E as <- <-;
      try (by pose proof (value_fun t x _ _ V1 W2)). by apply (step_copy_done t ini m x y).
  - pose proof (rd_value _ _ _ _ _ _ _ _ _ R) as V.
    destruct Hr as [a o t1 t2 W1|a s t1 t2 W1|a o p t1 t2 W1|x' y' t2 W1 W2 C|x' y' a c t1 t2 W1 W2|x' y' a c t1 t2 W1 W2|x' y' a c t1 t2 W1 W2
      |x' y' a b' c d t1 t2 W1 W2|x' y' a b' c t1 t2 W1 W2]; pose proof (value_fun t q _ _ V W1) as E; subst e.
    + by apply (step_opt t ini m b _ R a o t1).
    + by apply (step_plus t ini m b _ R a s t1).
    + by apply (step_star t ini m b _ R a o p t1).
    + by apply (step_and_one t ini m b _ R x' y').
    + by apply (step_and_opt t ini m b _ R x' y' eq_refl F a c t1).
    + by apply (step_and_plus t ini m b _ R x' y' eq_refl F a c t1).
    + by apply (step_and_star t ini m b _ R x' y' eq_refl F a c t1).
    + by apply (step_and_or t ini m b _ R x' y' eq_refl F a b' c d t1).
    + by apply (step_and_and t ini m b _ R x' y' eq_refl F a b' c t1).
  - pose proof (rd_value _ _ _ _ _ _ _ _ _ R) as V. pose proof (rd_shape _ _ _ _ _ _ _ _ _ R) as S.
    pose proof (copy_facts t ini m x y S V Hx Hy) as (V1 & _).
    destruct Hr as [a o t1 t2 W1|a s t1 t2 W1|a o p t1 t2 W1|x' y' t2 W1 W2 C|x' y' a c t1 t2 W1 W2|x' y' a c t1 t2 W1 W2|x' y' a c t1 t2 W1 W2
      |x' y' a b' c d t1 t2 W1 W2|x' y' a b' c t1 t2 W1 W2]; pose proof (value_fun t q _ _ V W1) as E; try done; injection E as <- <-;
      try (by pose proof (value_fun t x _ _ V1 W2)). apply (step_copy_plain t ini m x y S) with (b := b); try done. by destruct R.
Qed.

Lemma state_at_shape t ini m n : state_at t ini m n -> shape N0 L0 t ini m Ev q /\ 0 <= n.
Proof.
  intros [e S V T Hn|x y S Hev V Hx Hy HyE Hn|b e [S _ _ _ _ _ _] F Hn|b x y [S _ _ _ _ _ _] Hx Ty Hy HyE Hyq F Hn]; (split; [done |]); try lia.
  - destruct e; cbn in F, Hn; try lia; destruct F; lia.
  - destruct (ini y); cbn in F, Hn; try lia; destruct F; lia.
Qed.
End Halts.
