(* ===== verification/RegexTotal.v ===== *)
(** * The construction of the automaton ends, and its states are right

    [state_at_start]: a class that is not under evaluation gets there with a bound on
    the rounds to come; [shape_start]: the tables of the parser have a shape.

    [FormState_correct]: there is a bound on the rounds, which depends only on the tables of
    the parser, such that [FormState] returns, in whatever order arguments are
    evaluated; [regex2dfa_total]: so does [regex2dfa], and the automaton accepts the language
    of the expression. *)

From Stdlib Require Import ZArith Lia.
From stdpp Require Import base tactics option list numbers sorting.
From S2P Require Import Prelude.
From S2P Require Import Evaltree.
From S2P Require Import Regex2dfa.
From S2P Require Import RegexLang.
From S2P Require Import RegexTables.
From S2P Require Import RegexScan.
From S2P Require Import RegexSymbols.
From S2P Require Import RegexParse.
From S2P Require Import EvaltreeText.
From S2P Require Import RegexEval.
From S2P Require Import RegexSem.
From S2P Require Import RegexBuf.
From S2P Require Import RegexWalk.
From S2P Require Import RegexForm.
From S2P Require Import RegexMerge.
From S2P Require Import RegexDfa.
From S2P Require Import RegexShape.
From S2P Require Import RegexCount.
From S2P Require Import RegexHalts.

Open Scope Z_scope.

Section Start.
Context (N0 : Z) (L0 : nat) (t : tables) (ini : Z -> expr) (m : Z -> mea) (Ev : list Z) (q : Z).
Hypothesis (H0 : shape N0 L0 t ini m Ev (-1)) (Hq : in_tab t q).
Abbreviation state_at := (state_at N0 L0 Ev q t ini m).
Abbreviation form := (form N0 L0 Ev q t ini m).

Lemma start_cur : shape N0 L0 t ini m Ev q.
Proof. by apply shape_cur. Qed.

Section Plain.
Context (Hev : q ∉ Ev).

Lemma start_plain : value t q (ini q) /\ forall e, hashed t e q -> e = ini q.
Proof. apply (sh_plain _ _ _ _ _ _ _ H0 q Hq Hev). unfold in_tab in Hq. lia. Qed.

(** The start of a class that was not entered as an alternative. *)
Lemma start_form b : shallow ini m q -> form b (ini q) -> (forall c d, ini q <> OrX c d) ->
  (forall a y, ini q = AndX a y -> nu m a <> O /\ b <= a /\ forall p, ~ value t a (SymX p)) -> state_at (rank (ini q)).
Proof.
  intros Hs Hf Hor Hand. destruct start_plain as [V U].
  assert ((exists p, ini q = SymX p) \/ forall p, ini q <> SymX p) as [[p E]|Hns] by (destruct (ini q); try (left; eexists; reflexivity); by right).
  { apply (at_end N0 L0 Ev q t ini m _ (ini q)); [apply start_cur | done | by rewrite E | rewrite E; cbn; lia]. }
  apply (at_form N0 L0 Ev q t ini m _ b (ini q)); [| done | lia]. split; try done; [apply start_cur |]. split.
  - intros a y H%U. symmetry in H. by destruct (Hand a y H) as (_ & ? & _).
  - intros o c H%U Ho. symmetry in H. by destruct (Hand o c H) as (? & _).
  - intros c d H%U. by apply (Hor c d).
  - intros a y p H%U. symmetry in H. by apply (Hand a y H).
Qed.

Lemma flat_not_and : (forall x y, ini q <> AndX x y) -> shallow ini m q.
Proof. intros H. left. intros x y E. by destruct (H x y). Qed.

(** The parser's operands are entered before. *)
Lemma operand x a : in_tab t x -> ini x = OptX a \/ ini x = StarX a \/ ini x = PlusX a -> 0 <= a < N0 /\ a < x.
Proof. intros Hx E. by destruct (plain_arg N0 L0 Ev q t ini m start_cur x a Hx E) as (? & ? & _). Qed.

(** Plus: a class of the parser, or one that was entered for it. *)
Lemma rem_plus x a k : in_tab t x -> ini x = PlusX a -> rem N0 ini m k x.
Proof.
  intros Hx E. destruct (operand x a Hx) as [Ha _]; [auto |]. right. left. by exists a.
Qed.

Lemma start_product x y : ini q = AndX x y -> nu m x <> O -> exists n, state_at n /\ n <= 2 * q + 10.
Proof.
  intros E Hx. destruct start_plain as [V U]. destruct (and_args N0 L0 Ev q t ini m start_cur q x y Hq E) as (Hxq & Hyq & Tx & Ty & Hn & Hs).
  assert (shallow ini m q) as Hsq by (left; intros x' y' E'; rewrite E in E'; by injection E' as <- <-).
  destruct (value_total t x (sh_tinv _ _ _ _ _ _ _ H0) Tx) as [ex Vx].
  assert ((exists p, ex = SymX p) \/ forall p, ex <> SymX p) as [[p ->]|Hns] by (destruct ex; try (left; eexists; reflexivity); by right).
  { exists 0. split; [| lia]. apply (at_end N0 L0 Ev q t ini m 0 (ini q)); [apply start_cur | done | | lia]. rewrite E. by exists p. }
  exists (rank (ini q)). split; [| rewrite E; cbn; lia]. apply (start_form x); [done | | by rewrite E |].
  - rewrite E. cbn. split; [done |]. split; [done |]. split; [lia |]. split.
    + split; [done |]. split; [done |]. split; [done |]. by apply (sh_right _ _ _ _ _ _ _ start_cur q x y).
    + left. right. right. exists x, y. done.
  - rewrite E. intros a z [= <- <-]. split; [done |]. split; [lia |]. intros p Vp. apply (Hns p). by apply (value_fun t x).
Qed.

(** The value of the other class is taken over. *)
Lemma start_alias x u : ini q = AndX x u -> nu m x = O -> exists n, state_at n /\ n <= 2 * q + 10.
Proof.
  intros E Hx. destruct start_plain as [V U]. destruct (and_args N0 L0 Ev q t ini m start_cur q x u Hq E) as (Hxq & Huq & Tx & Tu & Hn & Hs). rewrite E in V, U.
  destruct (decide (u ∈ Ev)) as [HuE|HuE].
  { exists 1. split; [| lia]. apply (at_copy N0 L0 Ev q t ini m 1 x u); [apply start_cur | done | done | done | lia | done | lia]. }
  assert (flat ini m u) as Hfu.
  { destruct (sh_right _ _ _ _ _ _ _ H0 q x u Hq E) as [?|[?|?]]; [done | done | lia]. }
  assert (alias ini m q u) as Ha by (by exists x).
  assert (shallow ini m q) as Hsq by (right; by exists u).
  assert (exists b, form b (ini u) /\ (forall a y, ini u = AndX a y -> b <= a) /\ rank (ini u) <= 2 * q + 9) as (b & Hf & Hb & Hr).
  { destruct (ini u) as [p| | |a y|a c|a|a|a] eqn:Eu.
    - exists 0. split; [done |]. split; [done | cbn; lia].
    - exfalso. apply (sh_zero _ _ _ _ _ _ _ H0 u). rewrite <- Eu. by apply (sh_ini _ _ _ _ _ _ _ H0).
    - exists 0. split; [done |]. split; [done | cbn; lia].
    - destruct (and_args N0 L0 Ev q t ini m start_cur u a y Tu Eu) as (Hau & Hyu & Ta & Ty & Hny & Hsy). exists a. split; [| split; [intros a' y' [= <- <-]; lia | cbn; lia]].
      cbn. split; [by apply (Hfu a y) |]. split; [lia |]. split; [lia |]. split.
      + split; [done |]. split; [done |]. split; [done |]. by apply (sh_right _ _ _ _ _ _ _ start_cur u a y).
      + right. exists u. split; [done |]. right. right. exists a, y. split; [done |]. split; [by apply (Hfu a y) | done].
    - exists 0. split; [done |]. split; [done | cbn; lia].
    - exists 0. destruct (operand u a Tu) as [? ?]; [auto |]. split; [done |]. split; [done | cbn; lia].
    - exists q. destruct (operand u a Tu) as [? ?]; [auto |]. split; [| split; [done | cbn; lia]]. cbn. split; [done |]. split; [lia |]. split; [lia |].
      right. exists u. split; [done |]. by apply (rem_plus u a).
    - exists 0. destruct (operand u a Tu) as [? ?]; [auto |]. split; [done |]. split; [done | cbn; lia]. }
  exists (1 + rank (ini u)). split; [| lia]. apply (at_one N0 L0 Ev q t ini m _ b x u); try done; try lia.
  split; try done; [apply start_cur |]. split.
  - intros a y [= -> ->]%U Hna. done.
  - intros o c [= -> ->]%U _. split; [done |]. split; [lia | done].
  - by intros c d H%U.
  - intros a y p [= -> ->]%U Vp. assert (x <> q) as Hne by lia.
    by pose proof (value_fun t x _ _ (one_value N0 L0 Ev q t ini m start_cur x Tx Hx Hne) Vp).
Qed.
End Plain.

Theorem state_at_start : exists n, state_at n /\ n <= 2 * q + 10.
Proof.
  assert (0 <= q) as Hq0 by (unfold in_tab in Hq; lia).
  destruct (decide (q ∈ Ev)) as [He|He].
  { destruct (sh_done _ _ _ _ _ _ _ H0 q He) as (_ & e & V & T). exists 0. split; [| lia].
    apply (at_end N0 L0 Ev q t ini m 0 e); [apply start_cur | done | done | lia]. }
  destruct (start_plain He) as [V U].
  assert (terminal t (ini q) -> exists n, state_at n /\ n <= 2 * q + 10) as Hterm.
  { intros T. exists 0. split; [| lia]. apply (at_end N0 L0 Ev q t ini m 0 (ini q)); [apply start_cur | done | done | lia]. }
  assert (forall b, rank (ini q) <= 2 * q + 10 -> (forall x y, ini q <> AndX x y) -> form b (ini q) -> (forall c d, ini q <> OrX c d) ->
    exists n, state_at n /\ n <= 2 * q + 10) as Hform.
  { intros b Hr Hna Hf Hno. exists (rank (ini q)). split; [| done]. apply (start_form He b); [by apply flat_not_and | done | done |].
    intros a y E. by destruct (Hna a y). }
  destruct (ini q) as [p| | |x y|a c|a|a|a] eqn:E.
  - by apply Hterm.
  - exfalso. apply (sh_zero _ _ _ _ _ _ _ H0 q). rewrite <- E. by apply (sh_ini _ _ _ _ _ _ _ H0).
  - by apply Hterm.
  - destruct (decide (nu m x = O)) as [Hx|Hx]; [by apply (start_alias He x y) | by apply (start_product He x y)].
  - by apply Hterm.
  - destruct (operand q a Hq) as [? ?]; [auto |]. by apply (Hform 0); [cbn; lia | .. ].
  - destruct (operand q a Hq) as [? ?]; [auto |]. apply (Hform q); [cbn; lia | done | | done]. cbn. split; [done |]. split; [lia |]. split; [lia |].
    left. by apply (rem_plus q a).
  - destruct (operand q a Hq) as [? ?]; [auto |]. by apply (Hform 0); [cbn; lia | .. ].
Qed.
End Start.

(** ** The tables of the parser *)
Section Plain_tables.
Context (t : tables) (Ht : tinv t) (Hp : plain t).

Definition entry_of (q : Z) : expr := match value_exp t q with Ok E => body E | Err _ => OneX end.

Lemma entry_of_ok q : in_tab t q -> value t q (entry_of q) /\ hashed t (entry_of q) q /\ (forall e, hashed t e q -> e = entry_of q) /\
  (forall a, a ∈ args (entry_of q) -> 0 <= a < q /\ in_tab t a) /\ entry_of q <> ZeroX /\ entry_of q <> OneX.
Proof.
  intros Hq. destruct (l_class t Hp q Hq) as (e & V & Hh & Hu & Ha & Hz & Ho).
  assert (entry_of q = e) as ->. { destruct V as (E & EV & <-). unfold entry_of. by rewrite EV. }
  split; [done |]. split; [done |]. split; [done |]. split; [| done]. intros a Hin. destruct (value_valid t q e Ht V) as (_ & Hv & _).
  pose proof (valid_args t e a Hv Hin) as Hta. pose proof (Ha a Hin). unfold in_tab in *. split; [lia | done].
Qed.

Lemma aden_args (m m' : Z -> mea) e : (forall a, a ∈ args e -> m' a = m a) -> aden (A:=meas_alg) t m' e = aden (A:=meas_alg) t m e.
Proof. intros H. destruct e; cbn in *; rewrite ?H; try done; rewrite ?elem_of_cons; auto. Qed.

Lemma measure_upto n : exists m : Z -> mea, forall q, in_tab t q -> q < Z.of_nat n -> m q = aden (A:=meas_alg) t m (entry_of q).
Proof.
  induction n as [|n [m IH]]; [exists (fun _ => (O, O)); intros q Hq Hn; unfold in_tab in Hq; lia |].
  exists (fun q => if decide (q = Z.of_nat n) then aden (A:=meas_alg) t m (entry_of q) else m q). intros q Hq Hn.
  set (m' := fun q : Z => _). assert (aden (A:=meas_alg) t m' (entry_of q) = aden (A:=meas_alg) t m (entry_of q)) as ->.
  { apply aden_args. intros a Ha. destruct (entry_of_ok q Hq) as (_ & _ & _ & H & _). destruct (H a Ha). unfold m'. rewrite decide_False by lia. done. }
  unfold m'. destruct (decide (q = Z.of_nat n)); [done |]. apply IH; [done | lia].
Qed.

Lemma measure_ok : exists m : Z -> mea, forall q, in_tab t q -> m q = aden (A:=meas_alg) t m (entry_of q) /\ (m q).1 <> O /\ (m q).2 <> O.
Proof.
  destruct (measure_upto (Z.to_nat (zlen (EquTab t)))) as [m Hm]. exists m.
  assert (forall q, in_tab t q -> m q = aden (A:=meas_alg) t m (entry_of q)) as Hm'.
  { intros q Hq. apply Hm; [done |]. unfold in_tab in Hq. lia. }
  assert (forall n q, in_tab t q -> q < Z.of_nat n -> (m q).1 <> O /\ (m q).2 <> O) as Hpos.
  { induction n as [|n IH]; intros q Hq Hn; [unfold in_tab in Hq; lia |]. destruct (entry_of_ok q Hq) as (_ & _ & _ & Ha & Hz & Ho).
    assert (forall a, a ∈ args (entry_of q) -> (m a).1 <> O /\ (m a).2 <> O) as IH' by (intros a Hin; destruct (Ha a Hin) as [? Hta]; apply (IH a Hta); lia).
    rewrite (Hm' q Hq). destruct (entry_of q) as [p| | |x y|x y|x|x|x]; cbn in IH' |- *; try done.
    - destruct (IH' x) as [? ?]; [by left |]. destruct (IH' y) as [? ?]; [right; by left |]. lia.
    - destruct (IH' x) as [? ?]; [by left |]. lia.
    - destruct (IH' x) as [? ?]; [by left |]. unfold m_lift. destruct ((m x).2); lia.
    - destruct (IH' x) as [? ?]; [by left |]. unfold m_lift. destruct ((m x).2); lia.
    - destruct (IH' x) as [? ?]; [by left |]. lia. }
  intros q Hq. split; [by apply Hm' |]. apply (Hpos (Z.to_nat (q + 1)) q Hq). unfold in_tab in Hq. lia.
Qed.

Lemma measure_bound (m : Z -> mea) n : exists L, forall q, 0 <= q < Z.of_nat n -> ((m q).1 <= L /\ (m q).2 <= L)%nat.
Proof.
  induction n as [|n [L IH]]; [exists O; lia |]. exists (Nat.max L (Nat.max (m (Z.of_nat n)).1 (m (Z.of_nat n)).2)). intros q Hq.
  destruct (decide (q = Z.of_nat n)) as [->|Hne]; [lia |]. specialize (IH q ltac:(lia)). lia.
Qed.

Theorem shape_start : exists L0 ini m, shape (zlen (EquTab t)) L0 t ini m [] (-1).
Proof.
  destruct measure_ok as [m Hm]. destruct (measure_bound m (Z.to_nat (zlen (EquTab t)))) as [L HL].
  assert (forall q, in_tab t q -> ((m q).1 <= L /\ (m q).2 <= L)%nat) as HL' by (intros q Hq; apply HL; unfold in_tab in Hq; lia).
  assert (forall q, in_tab t q -> flat entry_of m q) as Hflat.
  { intros q Hq x y E. destruct (entry_of_ok q Hq) as (_ & _ & _ & Ha & _). rewrite E in Ha. destruct (Ha x) as [_ Tx]; [by left |].
    by destruct (Hm x Tx) as (_ & ? & _). }
  exists L, entry_of, m. split.
  - done.
  - split; [done | |].
    + intros e q Hh. destruct (hashed_valid t e q Ht Hh) as [_ Hq]. destruct (entry_of_ok q Hq) as (_ & _ & Hu & _).
      rewrite (Hu e Hh). symmetry. by apply Hm.
    + intros q e V. pose proof (value_in_tab t q e V) as Hq. destruct (entry_of_ok q Hq) as (V' & _).
      rewrite (value_fun t q e _ V V'). symmetry. by apply Hm.
  - intros q Hq. by apply entry_of_ok.
  - intros q a Hq Ha. by apply (entry_of_ok q Hq).
  - intros q Hq. left. destruct (entry_of_ok q Hq) as (_ & _ & _ & Ha & Hz & Ho). split; [exact Hq |]. split; [| split; [done | split; [done |]]].
    + intros a Hin. destruct (Ha a Hin) as [? Hta]. exact Hta.
    + destruct (entry_of q) as [p| | |x y|x y|x|x|x]; try done. destruct (Ha y) as [_ Ty]; [right; by left |].
      destruct (Hm y Ty) as (_ & Hn & _). destruct (HL' y Ty). unfold nu. split; [lia | left; by apply Hflat].
  - intros q Hq. exact Hq.
  - intros q Hh. destruct (hashed_valid t _ q Ht Hh) as [_ Hq]. destruct (entry_of_ok q Hq) as (_ & _ & Hu & _ & Hz & _). by apply Hz; symmetry; apply Hu.
  - intros q Hq. by apply HL'.
  - intros q Hq. destruct (Hm q Hq) as (_ & H1 & H2). unfold nu, lv. done.
  - intros q x y Hq E. left. apply Hflat. destruct (entry_of_ok q Hq) as (_ & _ & _ & Ha & _). apply Ha. rewrite E. right. by left.
  - intros q Hq _ _. destruct (entry_of_ok q Hq) as (V & _ & Hu & _). done.
  - intros q []%not_elem_of_nil.
  - intros q u Hq (x & E & Hx) Hfl. destruct (entry_of_ok q Hq) as (_ & _ & _ & Ha & _). destruct Hfl. apply Hflat. apply Ha. rewrite E. right. by left.
Qed.
End Plain_tables.

(** ** The number of states *)
Fixpoint sublists (n : nat) (i : Z) : list (list Z) :=
  match n with
  | O => [[]]
  | S n => ((i ::.) <$> sublists n (i + 1)) ++ sublists n (i + 1)
  end.

Lemma length_sublists n i : Z.of_nat (length (sublists n i)) = 2 ^ Z.of_nat n.
Proof.
  revert i. induction n as [|n IH]; intros i; [done |]. cbn [sublists]. rewrite length_app, length_fmap, Nat2Z.inj_add, IH, Nat2Z.inj_succ, Z.pow_succ_r by lia. lia.
Qed.

Lemma sublists_elem n : forall i k, StronglySorted Z.lt k -> Forall (fun q => i <= q < i + Z.of_nat n) k -> k ∈ sublists n i.
Proof.
  induction n as [|n IH]; intros i k Hs Hf; cbn [sublists].
  - destruct k as [|q k]; [by left |]. apply List.Forall_cons_iff in Hf as [Hq _]. lia.
  - apply elem_of_app. destruct k as [|q k]; [right; apply IH; constructor |]. apply List.Forall_cons_iff in Hf as [Hq Hf].
    inversion Hs as [|? ? Hs' Hlt]; subst.
    assert (Forall (fun x => i + 1 <= x < i + 1 + Z.of_nat n) k) as Hf'.
    { apply list.Forall_forall. intros x Hx. pose proof (proj1 (list.Forall_forall _ _) Hf x Hx). pose proof (proj1 (list.Forall_forall _ _) Hlt x Hx). cbn in *. lia. }
    destruct (decide (q = i)) as [->|Hne].
    + left. apply list_elem_of_fmap. exists k. split; [done |]. by apply IH.
    + right. apply IH; [done |]. constructor; [lia | done].
Qed.

Lemma states_bounded t tab B : tab_wf t tab -> zlen (EquTab t) <= Z.of_nat B -> zlen tab <= 2 ^ Z.of_nat B.
Proof.
  intros [T1 T2 T3] HB. rewrite <- (length_sublists B 0).
  assert ((SList <$> tab) ⊆+ sublists B 0) as Hs.
  { apply NoDup_submseteq.
    - apply NoDup_alt. intros i j l Hi Hj. rewrite list_lookup_fmap in Hi, Hj. apply fmap_Some in Hi as (SP & Hi & ->). apply fmap_Some in Hj as (SP' & Hj & E).
      assert (Z.of_nat i = Z.of_nat j); [| lia]. apply (T3 _ _ SP SP'); [| | done]; (apply aget_Ok; rewrite Nat2Z.id; split; [lia | done]).
    - intros l (SP & -> & Hin)%list_elem_of_fmap. apply list_elem_of_lookup in Hin as [i Hi].
      destruct (T2 (Z.of_nat i) SP) as (Hf & Hss & _); [apply aget_Ok; rewrite Nat2Z.id; split; [lia | done] |].
      apply sublists_elem; [done |]. eapply list.Forall_impl; [exact Hf |]. intros q. unfold in_tab. lia. }
  apply submseteq_length in Hs. rewrite length_fmap in Hs. unfold zlen. lia.
Qed.

Lemma stack_bounded t xs : stack_ok t xs -> zlen xs <= zlen (EquTab t).
Proof.
  intros (Hd & Hf & _). assert (xs ⊆+ seqZ 0 (zlen (EquTab t))) as Hs.
  { apply NoDup_submseteq; [done |]. intros x Hx. apply elem_of_seqZ. pose proof (proj1 (list.Forall_forall _ _) Hf x Hx) as Hin. unfold in_tab in Hin. lia. }
  apply submseteq_length in Hs. rewrite length_seqZ in Hs. unfold zlen in *. lia.
Qed.

(** ** The loops *)
Section Loops.
Context (N0 : Z) (L0 : nat) (left_first : bool) (limit : positive).
Abbreviation B := (lv_bound (Z.to_nat N0) L0 (S L0)).
Hypothesis Hlim : 2 * Z.of_nat B + 2 ^ Z.of_nat B + 20 < Zpos limit.

Lemma shape_size t ini m Ev cur : shape N0 L0 t ini m Ev cur -> zlen (EquTab t) <= Z.of_nat B.
Proof. apply classes_bounded. Qed.

Lemma no_zero_value t ini m Ev cur q : shape N0 L0 t ini m Ev cur -> ~ value t q ZeroX.
Proof.
  intros S V. destruct (value_valid t q _ (sh_tinv _ _ _ _ _ _ _ S) V) as (_ & _ & c & Hc). by apply (sh_zero _ _ _ _ _ _ _ S c).
Qed.

(** The end of an evaluation. *)
Lemma shape_ends t0 W0 U w X W w' q ini m Ev : shape N0 L0 (wtab w) ini m Ev q -> walk_inv t0 W0 U w X W -> ends q w w' ->
  exists ini' m', shape N0 L0 (wtab w') ini' m' (q :: Ev) (-1).
Proof.
  intros S Hi He. pose proof (sh_tinv _ _ _ _ _ _ _ S) as Ht.
  destruct He as [p o t b V N Hb|V|V|a b st st' V E1 E2|x y p b V1 V2 Hb|x y t V1 V2 A1]; cbn [wtab with_tables].
  - pose proof (shape_evaluated N0 L0 (wtab w) ini m Ev q _ S V I) as S'.
    destruct (shape_new N0 L0 (wtab w) ini m (q :: Ev) (-1) S' OneX o t) as (ini' & m' & S2 & _); [| pose proof (zlen_nonneg (EquTab (wtab w))); lia | done | by exists ini', m'].
    split; cbn; try done; lia.
  - exists ini, m. by apply (shape_evaluated N0 L0 (wtab w) ini m Ev q OneX).
  - by destruct (no_zero_value _ _ _ _ _ q S).
  - exists ini, m. destruct (value_args (wtab w) q a b Ht (or_intror V)) as [Ta Tb].
    destruct (push2_ok (wtab w) (XStack w) a b st st' Ht (w_stack _ _ _ _ _ _ Hi) Ta Tb E1 E2) as (R & _).
    apply (shape_remarked N0 L0 (wtab w)); [| done]. by apply (shape_evaluated N0 L0 (wtab w) ini m Ev q (OrX a b)).
  - exists ini, m. apply (shape_evaluated N0 L0 (wtab w) ini m Ev q (AndX x y)); [done | done |]. by exists p.
  - by destruct (no_zero_value _ _ _ _ _ x S).
Qed.

Lemma evaluate_ok t0 W0 U w X W ini m Ev q : shape N0 L0 (wtab w) ini m Ev (-1) -> walk_inv t0 W0 U w X W -> aget (XStack w) X = Ok q ->
  exists w', loop (evaluate_round left_first q) limit w = Ok w' /\
  exists ini' m' W', shape N0 L0 (wtab w') ini' m' (q :: Ev) (-1) /\ walk_inv t0 W0 U w' (X + 1) W'.
Proof.
  intros S Hi HX. assert (in_tab (wtab w) q) as Hq.
  { destruct (w_stack _ _ _ _ _ _ Hi) as (_ & Hf & _). apply (proj1 (list.Forall_forall _ _) Hf). apply aget_Ok in HX as [_ HX]. by apply (list_elem_of_lookup_2 _ (Z.to_nat X)). }
  destruct (state_at_start N0 L0 (wtab w) ini m Ev q S Hq) as (n & Hst & Hn).
  apply (loop_indexed (evaluate_round left_first q)
    (fun n w => exists ini m W, state_at N0 L0 Ev q (wtab w) ini m n /\ walk_inv t0 W0 U w X W /\ aget (XStack w) X = Ok q)
    (fun w' => exists ini' m' W', shape N0 L0 (wtab w') ini' m' (q :: Ev) (-1) /\ walk_inv t0 W0 U w' (X + 1) W')) with (n := n).
  2: { by exists ini, m, W. }
  2: { pose proof (shape_size _ _ _ _ _ S). unfold in_tab in Hq. pose proof (Z.pow_nonneg 2 (Z.of_nat B)). lia. }
  clear w W ini m n S Hi HX Hq Hst Hn. intros n w (ini & m & W & Hst & Hi & HX).
  destruct (state_at_shape N0 L0 Ev q (wtab w) ini m n Hst) as [S Hn]. split; [done |].
  assert (in_tab (wtab w) q) as Hq.
  { destruct (w_stack _ _ _ _ _ _ Hi) as (_ & Hf & _). apply (proj1 (list.Forall_forall _ _) Hf). apply aget_Ok in HX as [_ HX]. by apply (list_elem_of_lookup_2 _ (Z.to_nat X)). }
  destruct (evaluate_round_ok left_first q w) as [(t' & E & Ht' & Hr)|(w' & E & He)].
  - apply S.
  - done.
  - intros p Q Hp. eexists. apply AddBuf_insert; [exact Hp |]. apply Hi.
  - apply Hi.
  - left. destruct (state_at_step N0 L0 Ev q (wtab w) ini m n t' Hst Hr) as (ini' & m' & n' & Hst' & Hn').
    destruct (walk_inv_rewrites t0 W0 U w X W q t' Hi Hr) as (W' & Hi'). exists (with_tables w t'), n'. split; [done |]. split; [| lia].
    by exists ini', m', W'.
  - right. exists w'. split; [done |]. destruct (shape_ends t0 W0 U w X W w' q ini m Ev S Hi He) as (ini' & m' & S').
    destruct (walk_inv_ends t0 W0 U w X W w' q Hi HX He) as (W' & Hi'). by exists ini', m', W'.
Qed.

Lemma alternatives_ok t0 W0 U w W ini m Ev : shape N0 L0 (wtab w) ini m Ev (-1) -> walk_inv t0 W0 U w 0 W -> exists w', loop (walk_round left_first limit) limit (w, 0) = Ok w' /\
  exists ini' m' Ev' W', shape N0 L0 (wtab w') ini' m' Ev' (-1) /\ walk_inv t0 W0 U w' (zlen (XStack w')) W'.
Proof.
  intros S Hi.
  apply (loop_indexed (walk_round left_first limit)
    (fun n st => n = Z.of_nat B - st.2 /\ exists ini m Ev W, shape N0 L0 (wtab st.1) ini m Ev (-1) /\ walk_inv t0 W0 U st.1 st.2 W)
    (fun w' => exists ini' m' Ev' W', shape N0 L0 (wtab w') ini' m' Ev' (-1) /\ walk_inv t0 W0 U w' (zlen (XStack w')) W')) with (n := Z.of_nat B).
  2: { split; [cbn; lia |]. by exists ini, m, Ev, W. }
  2: { pose proof (Z.pow_nonneg 2 (Z.of_nat B)). lia. }
  clear w W ini m Ev S Hi. intros n [w X] (-> & ini & m & Ev & W & S & Hi). cbn [fst snd] in *.
  pose proof (shape_size _ _ _ _ _ S) as HB. pose proof (stack_bounded _ _ (w_stack _ _ _ _ _ _ Hi)) as Hxs. pose proof (w_X _ _ _ _ _ _ Hi) as HX.
  split; [lia |]. unfold walk_round. destruct (Z.ltb_spec X (zlen (XStack w))) as [Hlt|Hge].
  - left. destruct (aget_some (XStack w) X) as [q Hq]; [lia |]. rewrite Hq. res_cbn.
    destruct (evaluate_ok t0 W0 U w X W ini m Ev q S Hi Hq) as (w' & -> & ini' & m' & W' & S' & Hi'). res_cbn.
    eexists _, _. split; [done |]. split; [split; [reflexivity |]; by exists ini', m', (q :: Ev), W' | cbn; lia].
  - right. exists w. split; [done |]. exists ini, m, Ev, W. split; [done |]. by replace (zlen (XStack w)) with X by lia.
Qed.

(** One state. *)
Lemma form_round_ok t0 W0 start t tab n ini m Ev W : shape N0 L0 t ini m Ev (-1) -> form_inv t0 W0 start t tab n W -> n < zlen tab ->
  exists t' tab', form_round left_first limit (t, tab, n) = Ok (inl (t', tab', n + 1)) /\
  exists ini' m' Ev' W', shape N0 L0 t' ini' m' Ev' (-1) /\ form_inv t0 W0 start t' tab' (n + 1) W'.
Proof.
  intros S F Hn. pose proof F as [F1 F2 F3 F4 F5 F6 F7 F8 F9 F10]. unfold form_round. rewrite (proj2 (Z.ltb_lt _ _) Hn).
  destruct (aget_some tab n) as [SP HSP]; [lia |]. rewrite HSP. res_cbn.
  destruct (tw_list t tab F5 n SP HSP) as (HU & _ & _).
  destruct (push_list_ok (SList SP) t [] F1 F3 HU) as (t1 & ys & E1 & R1 & S1 & I1 & M1). rewrite E1. res_cbn. cbn [app fst snd] in *.
  assert (walk_inv t W (SList SP) (mkWalk t1 ys [] false) 0 W) as Hi.
  { apply walk_inv_start; [done .. |]. intros q. split; [apply I1 | apply M1]. }
  destruct (alternatives_ok t W (SList SP) (mkWalk t1 ys [] false) W ini m Ev) as (w & -> & ini' & m' & Ev' & W' & S' & Hw); [by apply (shape_remarked N0 L0 t) | done |].
  res_cbn. pose proof (stack_bounded _ _ (w_stack _ _ _ _ _ _ Hw)) as Hxs. pose proof (shape_size _ _ _ _ _ S') as HB.
  destruct (pop_loop limit (wtab w) (XStack w)) as (t' & -> & Rt & St); [apply S' | apply Hw | pose proof (Z.pow_nonneg 2 (Z.of_nat B)); lia |]. res_cbn.
  destruct (form_step t0 W0 start t tab n W SP w W' t' F HSP Hw Rt St) as (tab1 & Et & F' & SP1 & HSP1 & ->).
  destruct (add_shifts (IBuf w) tab) as [tab2 sh]. cbn [fst snd] in *. subst tab2. rewrite HSP1. res_cbn.
  rewrite aset_Ok by (by apply (aget_range _ _ SP)). res_cbn. eexists _, _. split; [done |].
  exists ini', m', Ev', W'. split; [by apply (shape_remarked N0 L0 (wtab w)) | done].
Qed.

Lemma FormState_loop t0 W0 start ini m : shape N0 L0 t0 ini m [] (-1) -> form_inv t0 W0 start t0 (AddState [] [start]).1 0 W0 ->
  exists t tab W, FormState left_first limit t0 start = Ok (t, tab) /\ form_inv t0 W0 start t tab (zlen tab) W /\ zlen tab <= 2 ^ Z.of_nat B.
Proof.
  intros S F. unfold FormState.
  destruct (loop_indexed (form_round left_first limit)
    (fun n st => n = 2 ^ Z.of_nat B - st.2 /\ exists ini m Ev W, shape N0 L0 st.1.1 ini m Ev (-1) /\ form_inv t0 W0 start st.1.1 st.1.2 st.2 W)
    (fun r => exists W, form_inv t0 W0 start r.1 r.2 (zlen r.2) W /\ zlen r.2 <= 2 ^ Z.of_nat B)) with (p := limit) (n := 2 ^ Z.of_nat B) (s := (t0, (AddState [] [start]).1, 0))
    as ([t tab] & E & W & F' & Hb).
  - intros n [[t tab] k] (-> & i & m' & Ev & W & S' & F'). cbn [fst snd] in *.
    pose proof (states_bounded t tab B (f_tab _ _ _ _ _ _ _ F') (shape_size _ _ _ _ _ S')) as Hb. pose proof (f_n _ _ _ _ _ _ _ F') as Hk.
    split; [lia |]. destruct (Z.lt_ge_cases k (zlen tab)) as [Hlt|Hge].
    + left. destruct (form_round_ok t0 W0 start t tab k i m' Ev W S' F' Hlt) as (t' & tab' & -> & i' & m2 & Ev' & W' & S2 & F2).
      eexists _, _. split; [done |]. split; [split; [reflexivity |]; by exists i', m2, Ev', W' | cbn; lia].
    + right. exists (t, tab). unfold form_round. rewrite (proj2 (Z.ltb_ge _ _) Hge). split; [done |]. exists W. cbn. split; [| done].
      by replace (zlen tab) with k by lia.
  - split; [cbn; lia |]. by exists ini, m, [], W0.
  - lia.
  - by exists t, tab, W.
Qed.
End Loops.

(** ** The whole construction *)

(** The bound on the rounds. *)
Definition form_limit (N0 : Z) (L0 : nat) : Z :=
  let B := Z.of_nat (lv_bound (Z.to_nat N0) L0 (S L0)) in 2 * B + 2 ^ B * 2 ^ B + 2 ^ B + 20.

(** The states accept the words of their classes. *)
Lemma saccept_slang t0 W0 start t tab W : form_inv t0 W0 start t tab (zlen tab) W ->
  forall v i SP, aget tab i = Ok SP -> saccept (nm t) tab i v <-> slang W (SList SP) v.
Proof.
  intros F. assert (forall i SP, aget tab i = Ok SP -> state_done t W tab SP) as D.
  { intros i SP Hi. pose proof (aget_range _ _ _ Hi). apply (f_done _ _ _ _ _ _ _ F i SP Hi). lia. }
  induction v as [|x v IH]; intros i SP Hi; cbn [saccept]; pose proof (D i SP Hi) as [D1 D2 D3 D4].
  - rewrite <- D1. split; [intros (S & HS & He) | intros He; by exists SP]. by assert (S = SP) as -> by congruence.
  - rewrite D2. split.
    + intros (S & p & E & HS & Hin & Hn & Hv). assert (S = SP) as -> by congruence. destruct (D3 p E Hin) as [_ [SP' HE]].
      exists p, E, SP'. split; [done |]. split; [done |]. split; [done |]. by apply (IH E SP').
    + intros (p & E & SP' & Hin & Hn & HE & Hv). exists SP, p, E. split; [done |]. split; [done |]. split; [done |]. by apply (IH E SP').
Qed.

Lemma number_first name tab0 n k K : numbered name tab0 n k K -> 0 < n -> K 0 = 0.
Proof.
  intros [H1 H2 H3 H4] Hn. pose proof (H1 0 ltac:(lia)) as Hk. destruct (H3 0 ltac:(lia)) as (i & Hi & E & Hf).
  destruct (decide (i = 0)) as [->|Hne]; [done |]. specialize (Hf 0 ltac:(lia)). lia.
Qed.

Lemma plain_stack t : plain t -> stack_ok t [].
Proof. intros P. split; [constructor |]. split; [constructor |]. intros q v Hv. rewrite (l_stack t P q v Hv). split; [done | by intros []%not_elem_of_nil]. Qed.

Section Automaton.
Context (n : Z) (Hn : n <= 10 ^ 5) (Hn0 : 0 <= n).
#[local] Instance the_names : Names := pattern_names n Hn.

(** From the tables of the parser to the automaton. *)
Lemma automaton_ok t0 W0 start : pinv t0 W0 -> in_tab t0 start -> exists limit0, forall left_first limit, limit0 <= Zpos limit ->
  exists f tab d, FormState left_first limit t0 start = Ok f /\ MergeStates limit f.2 = Ok tab /\ fill_tables (Symbols f.1) tab (n - 1) = Ok d /\
  Max_States d = zlen f.2 /\ 0 < Max_States d /\ Max_Input d = n /\ E_State d = Max_States d /\ dfa_tables d /\
  forall w, Forall (fun a => 0 <= a < n) w -> dfa_accepts d 0 w = true <-> words (W0 start) (print_int <$> w).
Proof.
  intros [P1 P2 P3 P4 P5] Hst. destruct (shape_start t0 P1 P4) as (L0 & ini & m & S). exists (form_limit (zlen (EquTab t0)) L0 + 1).
  intros left_first limit Hlim. unfold form_limit in Hlim. cbv zeta in Hlim.
  set (BB := Z.of_nat (lv_bound (Z.to_nat (zlen (EquTab t0))) L0 (Datatypes.S L0))) in *.
  assert (0 < 2 ^ BB) as Hpow by (apply Z.pow_pos_nonneg; lia).
  pose proof (plain_stack t0 P4) as Hstk.
  destruct (FormState_loop (zlen (EquTab t0)) L0 left_first limit) with (t0 := t0) (W0 := W0) (start := start) (ini := ini) (m := m) as (t & tab0 & W & E1 & F & Hb).
  { fold BB. nia. }
  { done. }
  { by apply form_inv_start. }
  fold BB in Hb. pose proof F as [F1 F2 F3 F4 F5 F6 F7 F8 F9 F10].
  assert (forall i SP p D, aget tab0 i = Ok SP -> (p, D) ∈ ShList SP -> 0 <= p < zlen (Symbols t) /\ 0 <= D < zlen tab0) as Hsh.
  { intros i SP p D Hi Hin. pose proof (aget_range _ _ _ Hi) as Hr. destruct (sd_syms _ _ _ _ (F6 i SP Hi ltac:(lia)) p D Hin) as [Hp [SP' HD]].
    split; [done | by apply (aget_range _ _ SP')]. }
  pose proof (zlen_nonneg tab0) as Hz.
  destruct (MergeStates_ok (nm t) tab0) with (limit := limit) as (tab & E2 & Hs & k & K & Hnum & HK); [intros i SP p D Hi Hin; by destruct (Hsh i SP p D Hi Hin) | nia | by apply F5 |].
  destruct (fill_tables_ok t tab0 tab n k K) with (MaxPatIndex := n - 1) as (d & E3 & D1 & D2 & D3 & D4 & Hacc); [lia | | done | | done | done | done | lia |].
  { intros p Hp. rewrite F8 in Hp. destruct (aget_some _ _ Hp) as [s Es]. destruct (P5 p s Es) as (i & Hi & En). exists i. split; [done |].
    unfold nm. by rewrite F8, Es. }
  { intros i SP Hi. pose proof (aget_range _ _ _ Hi). apply (sd_sorted _ _ _ _ (F6 i SP Hi ltac:(lia))). }
  destruct F7 as (SP0 & H0 & El). pose proof (aget_range _ _ _ H0) as Hr0.
  exists (t, tab0), tab, d. cbn [fst snd]. do 4 (split; [done |]). split; [lia |]. split; [done |]. split; [congruence |]. split; [done |].
  intros w Hw.
  assert (K 0 = 0) as HK0 by (apply (number_first _ _ _ _ _ Hnum); lia).
  replace (dfa_accepts d 0 w) with (dfa_accepts d (K 0) w) by (by rewrite HK0).
  rewrite (Hacc w 0 Hw Hr0). rewrite (saccept_slang t0 W0 start t tab0 W F (print_int <$> w) 0 SP0 H0). rewrite El. unfold slang.
  rewrite <- (F10 start Hst). split.
  - intros (q & ->%list_elem_of_singleton & Hv). done.
  - intros Hv. exists start. split; [by left | done].
Qed.

(** The text of an expression is lexed from the start. *)
Lemma init_at_tokens text ts : lexed text ts -> zlen text < 2 ^ 61 -> room ts <= MAX_CHAR -> at_tokens (init_scanner text) ts.
Proof.
  intros Hl Hz Hr. exists text. split; [| split; [done |]].
  - split; cbn; try done. by apply (lexed_chars text ts).
  - cbn. rewrite zlen_snoc. split; [lia |]. change (zlen (@nil Z)) with 0. lia.
Qed.

Theorem regex2dfa_total text r : lexed text (toks r) -> zlen text < 2 ^ 61 -> room (toks r) <= MAX_CHAR -> rx_ok r -> 1 + depth r <= STACK_MAX ->
  exists limit0, forall left_first limit, limit0 <= Zpos limit -> exists d, regex2dfa left_first limit text (n - 1) = Ok d /\
  0 < Max_States d /\ Max_Input d = n /\ E_State d = Max_States d /\ dfa_tables d /\
  forall w, Forall (fun a => 0 <= a < n) w -> dfa_accepts d 0 w = true <-> words (wden r) (print_int <$> w).
Proof.
  intros Hl Hz Hroom Hok Hd.
  destruct (parse_whole r (init_scanner text) (fun _ => wzero)) as (p & q & W & E & Hp & Hq & HW); [by apply init_at_tokens | done | apply pinv_init | done |].
  destruct (automaton_ok (tabs p) W q Hp Hq) as (limit0 & H). exists limit0. intros left_first limit Hlim.
  destruct (H left_first limit Hlim) as (f & tab & d & E1 & E2 & E3 & D1 & D0 & D2 & D3 & D4 & Hacc). exists d. unfold regex2dfa. rewrite E. res_cbn.
  assert ((q =? -1) = false) as -> by (unfold in_tab in Hq; lia). rewrite E1. res_cbn. rewrite E2. res_cbn. do 5 (split; [done |]).
  intros w Hw. rewrite (Hacc w Hw). by apply words_proper.
Qed.
End Automaton.

(** ** [FormState] on its own *)

(** C5. FormState comes to an end from every well-formed set of equations, in whatever
    order the arguments of calls are evaluated: a bound on the rounds of its loops that
    depends only on these equations is enough; the first state then accepts the
    language of the class it was called with. *)
Theorem FormState_correct {N : Names} t0 W0 start : pinv t0 W0 -> in_tab t0 start -> exists limit0, forall left_first limit, limit0 <= Zpos limit ->
  exists t tab, FormState left_first limit t0 start = Ok (t, tab) /\ forall v, saccept (nm t) tab 0 v <-> words (W0 start) v.
Proof.
  intros [P1 P2 P3 P4 P5] Hst. destruct (shape_start t0 P1 P4) as (L0 & ini & m & S). exists (form_limit (zlen (EquTab t0)) L0 + 1).
  intros left_first limit Hlim. unfold form_limit in Hlim. cbv zeta in Hlim.
  set (BB := Z.of_nat (lv_bound (Z.to_nat (zlen (EquTab t0))) L0 (Datatypes.S L0))) in *.
  assert (0 < 2 ^ BB) as Hpow by (apply Z.pow_pos_nonneg; lia).
  destruct (FormState_loop (zlen (EquTab t0)) L0 left_first limit) with (t0 := t0) (W0 := W0) (start := start) (ini := ini) (m := m) as (t & tab0 & W & E1 & F & Hb).
  { fold BB. nia. }
  { done. }
  { apply form_inv_start; try done. by apply plain_stack. }
  exists t, tab0. split; [done |]. intros v. destruct (f_start _ _ _ _ _ _ _ F) as (SP0 & H0 & El).
  rewrite (saccept_slang t0 W0 start t tab0 W F v 0 SP0 H0). unfold slang. rewrite El, <- (f_lang _ _ _ _ _ _ _ F start Hst). split.
  - by intros (q & ->%list_elem_of_singleton & Hv).
  - intros Hv. exists start. split; [by left | done].
Qed.

Lemma FormState_correct_witness : exists t0 W0 start, pinv (N := word_names) t0 W0 /\ exists limit0, forall left_first limit, limit0 <= Zpos limit ->
  exists t tab, FormState left_first limit t0 start = Ok (t, tab) /\ forall v, saccept (nm t) tab 0 v <-> words (W0 start) v.
Proof.
  destruct (pinv_LookUp (N := word_names) init_tables (fun _ => wzero) [97] pinv_init) as (t1 & p & _ & P1 & _ & Hp & _).
  { split; [constructor; [lia | constructor] | vm_compute; discriminate]. }
  destruct (pinv_MakeExp t1 _ (SymX p) P1 Hp) as (t2 & q & W2 & _ & P2 & _ & Hq & _); [discriminate | discriminate |].
  destruct (pinv_MakeExp t2 W2 (StarX q) P2) as (t3 & q3 & W3 & _ & P3 & _ & Hq3 & _); [constructor; [exact Hq | constructor] | discriminate | discriminate |].
  exists t3, W3, q3. split; [exact P3 |]. apply (FormState_correct t3 W3 q3 P3 Hq3).
Defined.
