(* ===== verification/SearchPattern.v ===== *)
(** * From the tree of a query to its automaton: do_SearchPattern of cqp/parse_actions.c

    The composition of tree.c and regex2dfa.c.  [do_SearchPattern_ok]: for every tree
    over the patterns of the query, within the limits of the parser's arrays, the program gets an
    automaton that accepts exactly the sequences of patterns that match the tree.
    [do_SearchPattern_more]: the bound [limit] of the loops does not matter, since a
    larger one never changes an answer. *)

From Stdlib Require Import ZArith Lia Ascii String.
From stdpp Require Import base tactics option list numbers.
From S2P Require Import Prelude.
From S2P Require Import Evaltree.
From S2P Require Import Regex2dfa.
From S2P Require Import RegexLang.
From S2P Require Import RegexScan.
From S2P Require Import RegexSymbols.
From S2P Require Import RegexParse.
From S2P Require Import EvaltreeText.
From S2P Require Import RegexMerge.
From S2P Require Import RegexDfa.
From S2P Require Import RegexTotal.

Open Scope Z_scope.

(** [strspn(s, " ")] *)
Fixpoint strspn_space (s : list Z) : Z :=
  match s with [] => 0 | c :: s => if c =? 32 then 1 + strspn_space s else 0 end.

(** [generate_code] after the action, and the automaton if one has been built;
    [labels_ok] is the result of check_labels.  Messages and debugging output are left
    out. *)
Definition do_SearchPattern (left_first : bool) (limit : positive) (generate_code labels_ok : bool) (expr : Evaltree) (MaxPatIndex : Z)
  : res (bool * option DFA) :=
  if generate_code then
    if negb labels_ok then Ok (false, None)
    else
      s ← evaltree2searchstr expr;
      match s.1 with
      | None => Ok (false, None)
      | Some searchstr =>
          if strspn_space searchstr <? zlen searchstr then
            d ← regex2dfa left_first limit searchstr MaxPatIndex;
            Ok (true, Some d)
          else Ok (false, None)
      end
  else Ok (false, None).

(** ** The numbers of patterns *)
Lemma power_range (X : list Z -> Prop) (P : Z -> Prop) k : (forall w, X w -> Forall P w) -> forall w, power X k w -> Forall P w.
Proof.
  intros HX. induction k as [|k IH]; cbn; [by intros w -> |]. intros w (w1 & w2 & -> & H1 & H2). apply list.Forall_app. auto.
Qed.

Lemma matches_range n e w : tree_ok n e -> matches e w -> Forall (fun a => 0 <= a < n) w.
Proof.
  revert w. induction e as [|op l IHl r IHr min max|k| |]; intros w Hok; cbn [tree_ok matches] in *; try done.
  - destruct op; destruct Hok as (_ & Hl & Hr).
    + intros (w1 & w2 & -> & H1 & H2). apply list.Forall_app. auto.
    + intros (w1 & w2 & -> & H1 & H2). apply list.Forall_app. auto.
    + intros [H|H]; auto.
    + intros (j & _ & _ & H). apply (power_range (matches l) _ j); [| done]. intros v. by apply IHl.
  - intros ->. by constructor.
Qed.

Lemma print_words_inj n w w' : n <= 10 ^ 5 -> Forall (fun a => 0 <= a < n) w -> Forall (fun a => 0 <= a < n) w' ->
  print_int <$> w = print_int <$> w' -> w = w'.
Proof.
  intros Hn Hw. revert w'. induction Hw as [|a w Ha Hw IH]; intros [|b w'] Hw' E; try done. apply List.Forall_cons_iff in Hw' as [Hb Hw'].
  injection E as E1 E2. f_equal; [| by apply IH]. assert (Ok a = Ok b) as [= ->]; [| done].
  rewrite <- (atoi_print_int a), <- (atoi_print_int b) by lia. by rewrite E1.
Qed.

Lemma image_matches n e w : n <= 10 ^ 5 -> tree_ok n e -> Forall (fun a => 0 <= a < n) w -> image (matches e) (print_int <$> w) <-> matches e w.
Proof.
  intros Hn Hok Hw. split; [| intros H; by exists w]. intros (w' & E & H). pose proof (matches_range n e w' Hok H) as Hw'.
  by rewrite (print_words_inj n w w' Hn Hw Hw' E).
Qed.

(** The text has a character that is not a space. *)
Lemma strspn_space_le s : 0 <= strspn_space s <= zlen s.
Proof.
  induction s as [|c s IH]; cbn [strspn_space]; [done |]. rewrite zlen_cons. pose proof (zlen_nonneg s). destruct (c =? 32); lia.
Qed.

Lemma strspn_space_app s k : strspn_space s < zlen s -> strspn_space (s ++ k) < zlen (s ++ k).
Proof.
  induction s as [|c s IH]; cbn [strspn_space app]; [done |]. rewrite !zlen_cons. pose proof (zlen_nonneg (s ++ k)). destruct (c =? 32); [| lia].
  intros Hs. specialize (IH ltac:(lia)). lia.
Qed.

Lemma strspn_space_snoc s k : strspn_space k < zlen k -> strspn_space (s ++ k) < zlen (s ++ k).
Proof.
  intros H. induction s as [|c s IH]; cbn [strspn_space app]; [done |]. rewrite zlen_cons. pose proof (zlen_nonneg (s ++ k)). destruct (c =? 32); lia.
Qed.

Lemma strspn_copies n x : strspn_space x < zlen x -> 1 <= n -> strspn_space (copies n x) < zlen (copies n x).
Proof.
  intros H Hn. replace n with ((n - 1) + 1) by lia. rewrite copies_S by lia. by apply strspn_space_snoc.
Qed.

Lemma tree_not_vacuous n e : tree_ok n e -> strspn_space (tree_text e) < zlen (tree_text e).
Proof.
  induction e as [|op l IHl r IHr min max|k| |]; intros Hok; cbn [tree_ok tree_text] in *; try done.
  - destruct op.
    + destruct Hok as (_ & Hl & Hr). by apply strspn_space_app, IHl.
    + destruct Hok as (_ & Hl & Hr). by apply strspn_space_app, IHl.
    + destruct Hok as (_ & Hl & Hr). apply strspn_space_app. reflexivity.
    + destruct Hok as (_ & Hl & Hmin & Hmax). specialize (IHl Hl). repeat case_match; try (apply strspn_space_app; reflexivity).
      unfold repeat_text. destruct (Z.le_gt_cases 1 min) as [Hone|Hone].
      { apply strspn_space_app, strspn_copies; [by apply strspn_space_app | done]. }
      apply strspn_space_snoc. destruct (max =? repeat_inf) eqn:Em; [apply strspn_space_app; reflexivity |].
      apply strspn_space_app, strspn_copies; [| destruct Hmax as [->|Hmax]; [discriminate | lia]].
      apply (strspn_space_app [91]). reflexivity.
  - apply (strspn_space_app (bytes " " ++ [34])). reflexivity.
Qed.

Lemma do_SearchPattern_total n e : 0 <= n <= 10 ^ 5 -> tree_ok n e -> tree_size e + 3 <= INT_MAX ->
  room (toks (rx_of e)) <= MAX_CHAR -> 1 + depth (rx_of e) <= STACK_MAX ->
  exists limit0, forall left_first limit, limit0 <= Zpos limit ->
  exists d, do_SearchPattern left_first limit true true e (n - 1) = Ok (true, Some d) /\ 0 < Max_States d /\ Max_Input d = n /\ E_State d = Max_States d /\ dfa_tables d /\
  forall w, Forall (fun a => 0 <= a < n) w -> dfa_accepts d 0 w = true <-> matches e w.
Proof.
  intros [Hn0 Hn] Hok Hsize Hroom Hd. pose proof (tree_size_text n e Hok Hn) as Htext. unfold INT_MAX in *.
  destruct (regex2dfa_total n Hn Hn0 (tree_text e) (rx_of e)) as (limit0 & H); [by apply (lexed_tree n) | lia | done | by apply rx_ok_tree | done |].
  exists limit0. intros left_first limit Hlim. destruct (H left_first limit Hlim) as (d & E & D0 & D1 & D2 & D3 & Hacc). exists d.
  unfold do_SearchPattern. cbn [negb]. rewrite (evaltree2searchstr_ok n e Hok Hn) by (unfold INT_MAX; lia). res_cbn. cbn [fst].
  rewrite (proj2 (Z.ltb_lt _ _) (tree_not_vacuous n e Hok)), E. res_cbn. do 5 (split; [done |]).
  intros w Hw. rewrite (Hacc w Hw). rewrite (wden_tree n e _ Hok). by apply (image_matches n).
Qed.


(** The query [("a" | "b")+ "c"?]. *)
Definition sample : Evaltree :=
  Node re_od_concat (Node re_repeat (Node re_disj (Leaf 0) (Leaf 1) repeat_none repeat_none) Null 1 repeat_inf)
    (Node re_repeat (Leaf 2) Null 0 1) repeat_none repeat_none.


(** The automaton itself. *)
Example sample_automaton : 
  match do_SearchPattern true 100000 true true sample 2 with
  | Ok (true, Some d) => (TransTable d, Final d, dfa_accepts d 0 [0; 1; 1; 2], dfa_accepts d 0 [2], dfa_accepts d 0 [0; 2; 0])
  | _ => ([], [], false, false, false)
  end = ([[1; 1; 3]; [1; 1; 2]; [3; 3; 3]], [false; true; true; false], true, false, false).
Proof. vm_compute. reflexivity. Qed.

(** [m] is [m'], unless its bound was too small. *)
Definition less {A : Type} (m m' : res A) : Prop := m = Err OutOfFuel \/ m = m'.

Lemma less_refl {A} (m : res A) : less m m.
Proof. by right. Qed.

Lemma less_bind {A B} (m m' : res A) (f g : A -> res B) : less m m' -> (forall x, less (f x) (g x)) -> less (m ≫= f) (m' ≫= g).
Proof. intros [->| ->] H; [by left |]. destruct m' as [x|e]; cbn; [apply H | by right]. Qed.

(** ** Loops *)
Section Loops.
Context {S R : Type}.

(** At most [n] rounds. *)
Fixpoint iterations (step : S -> res (S + R)) (n : nat) (s : S) : res (S + R) :=
  match n with
  | O => Ok (inl s)
  | Datatypes.S n => r ← step s; match r with inl s' => iterations step n s' | inr x => Ok (inr x) end
  end.

Lemma iterations_add step a b s : iterations step (a + b) s = (r ← iterations step a s; match r with inl s' => iterations step b s' | inr x => Ok (inr x) end).
Proof.
  revert s. induction a as [|a IH]; intros s; [done |]. cbn. destruct (step s) as [[s'|x]|e]; cbn; [apply IH | done | done].
Qed.

Lemma rounds_iterations step p s : rounds step p s = iterations step (Pos.to_nat p) s.
Proof.
  revert s. induction p as [p IH|p IH|]; intros s.
  - rewrite Pos2Nat.inj_xI. replace (Datatypes.S (2 * Pos.to_nat p))%nat with (1 + (Pos.to_nat p + Pos.to_nat p))%nat by lia.
    rewrite iterations_add. cbn [rounds iterations]. destruct (step s) as [[s'|x]|e]; cbn; try done. rewrite iterations_add, IH.
    destruct (iterations step _ s') as [[t|x]|e]; cbn; [apply IH | done | done].
  - rewrite Pos2Nat.inj_xO. replace (2 * Pos.to_nat p)%nat with (Pos.to_nat p + Pos.to_nat p)%nat by lia. cbn [rounds]. rewrite iterations_add, IH.
    destruct (iterations step _ s) as [[t|x]|e]; cbn; [apply IH | done | done].
  - change (Pos.to_nat 1) with 1%nat. cbn. by destruct (step s) as [[s'|x]|e].
Qed.

Lemma iterations_less step step' n s : (forall t, less (step t) (step' t)) -> less (iterations step n s) (iterations step' n s).
Proof.
  intros H. revert s. induction n as [|n IH]; intros s; [apply less_refl |]. cbn. apply less_bind; [apply H |]. intros [t|x]; [apply IH | apply less_refl].
Qed.

Lemma loop_less (step step' : S -> res (S + R)) p p' s : (forall t, less (step t) (step' t)) -> (p <= p')%positive -> less (loop step p s) (loop step' p' s).
Proof.
  intros H Hp. unfold loop. rewrite !rounds_iterations. replace (Pos.to_nat p') with (Pos.to_nat p + (Pos.to_nat p' - Pos.to_nat p))%nat by lia. rewrite iterations_add.
  destruct (iterations_less step step' (Pos.to_nat p) s H) as [->| ->]; [by left |]. destruct (iterations step' _ s) as [[t|x]|e]; cbn; [by left | by right | by right].
Qed.
End Loops.

(** ** The compiler *)
Section Compiler.
Context (left_first : bool) (limit limit' : positive) (Hlimit : (limit <= limit')%positive).

#[local] Hint Resolve less_refl : core.

Lemma walk_round_less st : less (walk_round left_first limit st) (walk_round left_first limit' st).
Proof.
  destruct st as [w X]. cbn. destruct (X <? zlen (XStack w)); [| done]. apply less_bind; [done | intros q]. apply less_bind; [| done]. by apply loop_less.
Qed.

Lemma form_round_less st : less (form_round left_first limit st) (form_round left_first limit' st).
Proof.
  destruct st as [[t tab] n]. cbn. destruct (n <? zlen tab); [| done]. repeat (apply less_bind; [first [done | apply loop_less; [apply walk_round_less | done] | by apply loop_less] | intros ?]). done.
Qed.

Lemma FormState_less t Q : less (FormState left_first limit t Q) (FormState left_first limit' t Q).
Proof. apply loop_less; [apply form_round_less | done]. Qed.

Lemma partner_round_less tab n x : less (partner_round limit tab n x) (partner_round limit' tab n x).
Proof.
  unfold partner_round. destruct (x <? n); [| done]. apply less_bind; [done | intros c]. destruct (negb _); [done |]. apply less_bind; [done | intros l].
  apply less_bind; [by apply loop_less | done].
Qed.

Lemma merge_body_less n tab : less (merge_body limit n tab) (merge_body limit' n tab).
Proof.
  unfold merge_body. apply less_bind; [done | intros c]. destruct (negb _); [done |]. apply less_bind; [apply loop_less; [apply partner_round_less | done] | done].
Qed.

Lemma for_up_less {A} (f g : Z -> A -> res A) a b s : (forall i s, less (f i s) (g i s)) -> less (for_up f a b s) (for_up g a b s).
Proof.
  intros H. unfold for_up. generalize (Z.to_nat (b - a)). intros n. revert a s. induction n as [|n IH]; intros a s; [done |]. cbn. apply less_bind; [apply H | intros t; apply IH].
Qed.

Lemma regex2dfa_less text k : less (regex2dfa left_first limit text k) (regex2dfa left_first limit' text k).
Proof.
  unfold regex2dfa. apply less_bind; [done |]. intros [p Q]. destruct (Q =? -1); [done |]. apply less_bind; [apply FormState_less | intros f].
  apply less_bind; [| done]. unfold MergeStates. apply less_bind; [| done]. apply for_up_less. apply merge_body_less.
Qed.

(** An answer is the answer for every larger bound. *)
Lemma do_SearchPattern_more generate_code labels_ok e k r :
  do_SearchPattern left_first limit generate_code labels_ok e k = Ok r -> do_SearchPattern left_first limit' generate_code labels_ok e k = Ok r.
Proof.
  enough (less (do_SearchPattern left_first limit generate_code labels_ok e k) (do_SearchPattern left_first limit' generate_code labels_ok e k)) as [-> | ->] by done.
  unfold do_SearchPattern. destruct generate_code; [| done]. destruct (negb labels_ok); [done |]. apply less_bind; [done |]. intros [[text|] n]; [| done]. cbn [fst].
  destruct (_ <? _); [| done]. apply less_bind; [apply regex2dfa_less | done].
Qed.
End Compiler.
