(* ===== verification/Bitfields.v ===== *)
(** * Bit fields: cl/bitfields.c

    A bit field is an array of bytes with a count of the bits that are set.
    [bitfield_refines_set]: a new bit field and any sequence of operations on it answer like
    a finite set of numbers and its size. *)

From Stdlib Require Import ZArith Lia.
From stdpp Require Import base tactics option list numbers gmap.
From S2P Require Import Prelude.

Open Scope Z_scope.

(** ** Data *)

(** [bits_set] is the field [nr_bits_set]. *)
Record BFBuf := mkBF { elements : Z; nbytes : Z; bits_set : Z; field : list Z }.

(** A [Bitfield] is a pointer. *)
Abbreviation Bitfield := (option BFBuf).

Definition BaseTypeSize : Z := 1.
Definition BaseTypeBits : Z := 8.

(** ** Operations *)

(** [memset(field, c, n)] *)
Definition memset (l : list Z) (c n : Z) : res (list Z) :=
  if (n <? 0) || (zlen l <? n) then Err OutOfBounds else Ok (replicate (Z.to_nat n) c ++ drop (Z.to_nat n) l).

Section Operations.

(** Whether [malloc] returns a block for size 0, and what a new block holds. *)
Context (malloc0 : bool) (garbage : Z -> list Z).

(** A negative size is converted to a huge one. *)
Definition cl_malloc (n : Z) : res (list Z) :=
  if n <? 0 then Err ExitCall else if (n =? 0) && negb malloc0 then Err ExitCall else Ok (garbage n).

Definition create_bitfield (nr_of_elements : Z) : res BFBuf :=
  let full_cells := Z.quot nr_of_elements BaseTypeBits in
  let full_cells := if negb (Z.rem nr_of_elements BaseTypeBits =? 0) then full_cells + 1 else full_cells in
  bytes ← c_int (full_cells * BaseTypeSize);
  block ← cl_malloc bytes;
  l ← memset block 0 bytes;
  Ok (mkBF nr_of_elements bytes 0 l).

Definition copy_bitfield (source : Bitfield) : res Bitfield :=
  match source with
  | None => Ok None
  | Some s =>
      t ← create_bitfield (elements s);
      if (zlen (field s) <? nbytes s) || (zlen (field t) <? nbytes s) then Err OutOfBounds
      else Ok (Some (mkBF (elements t) (nbytes t) (bits_set s)
                       (take (Z.to_nat (nbytes s)) (field s) ++ drop (Z.to_nat (nbytes s)) (field t))))
  end.

End Operations.

(** The memory is returned; the pointer is NULL afterwards. *)
Definition destroy_bitfield (b : Bitfield) : Bitfield * Z := (None, 1).

(** [1 << (element % BaseTypeBits)]; a shift by a negative number is undefined. *)
Definition bit_mask (element : Z) : res Z :=
  let k := Z.rem element BaseTypeBits in
  if k <? 0 then Err IntOverflow else Ok (Z.shiftl 1 k).

Definition set_bit (bitfield : Bitfield) (element : Z) : res (Bitfield * Z) :=
  match bitfield with
  | Some b =>
      if element <? elements b then
        let c := Z.quot element BaseTypeBits in
        v1 ← aget (field b) c;
        m ← bit_mask element;
        let v := u8 (Z.lor v1 m) in
        l ← aset (field b) c v;
        n ← (if negb (v =? v1) then c_int (bits_set b + 1) else Ok (bits_set b));
        Ok (Some (mkBF (elements b) (nbytes b) n l), 1)
      else Ok (bitfield, 0)
  | None => Ok (bitfield, 0)
  end.

Definition clear_bit (bitfield : Bitfield) (element : Z) : res (Bitfield * Z) :=
  match bitfield with
  | Some b =>
      if element <? elements b then
        let c := Z.quot element BaseTypeBits in
        v1 ← aget (field b) c;
        m ← bit_mask element;
        let v := u8 (Z.land v1 (Z.lnot m)) in
        l ← aset (field b) c v;
        n ← (if negb (v =? v1) then c_int (bits_set b - 1) else Ok (bits_set b));
        Ok (Some (mkBF (elements b) (nbytes b) n l), 1)
      else Ok (bitfield, 0)
  | None => Ok (bitfield, 0)
  end.

Definition clear_all_bits (bitfield : Bitfield) : res (Bitfield * Z) :=
  match bitfield with
  | Some b => l ← memset (field b) 0 (nbytes b); Ok (Some (mkBF (elements b) (nbytes b) 0 l), 1)
  | None => Ok (bitfield, 0)
  end.

Definition set_all_bits (bitfield : Bitfield) : res (Bitfield * Z) :=
  match bitfield with
  | Some b => l ← memset (field b) 255 (nbytes b); Ok (Some (mkBF (elements b) (nbytes b) (elements b) l), 1)
  | None => Ok (bitfield, 0)
  end.

Definition get_bit (bitfield : Bitfield) (element : Z) : res Z :=
  match bitfield with
  | Some b =>
      if element <? elements b then
        v ← aget (field b) (Z.quot element BaseTypeBits);
        m ← bit_mask element;
        Ok (if Z.land v m =? 0 then 0 else 1)
      else Ok (-1)
  | None => Ok (-1)
  end.

Definition toggle_bit (bitfield : Bitfield) (element : Z) : res (Bitfield * Z) :=
  match bitfield with
  | Some b =>
      if element <? elements b then
        let c := Z.quot element BaseTypeBits in
        v ← aget (field b) c;
        m ← bit_mask element;
        n ← c_int (if Z.land v m =? 0 then bits_set b + 1 else bits_set b - 1);
        l ← aset (field b) c (u8 (Z.lxor v m));
        Ok (Some (mkBF (elements b) (nbytes b) n l), 1)
      else Ok (bitfield, 0)
  | None => Ok (bitfield, 0)
  end.

Definition nr_bits_set (bitfield : Bitfield) : res Z := b ← deref bitfield; Ok (bits_set b).

(** [(1 << last_item_bits_used) - 1] *)
Definition last_mask (last_item_bits_used : Z) : res Z :=
  if last_item_bits_used <? 0 then Err IntOverflow else Ok (Z.shiftl 1 last_item_bits_used - 1).

(** The loop over the cells that are used completely. *)
Definition equal_round (f1 f2 : list Z) (items : Z) (i : Z) : res (Z + Z) :=
  if i <? items then
    x ← aget f1 i; y ← aget f2 i;
    if negb (x =? y) then Ok (inr 0) else Ok (inl (i + 1))
  else Ok (inr 1).

Definition bf_equal (bf1 bf2 : Bitfield) : res Z :=
  b1 ← deref bf1; b2 ← deref bf2;
  _ ← c_assert (elements b1 =? elements b2);
  _ ← c_assert (nbytes b1 =? nbytes b2);
  let items := Z.quot (nbytes b1) BaseTypeSize in
  let used := Z.rem (elements b1) BaseTypeBits in
  if negb (used =? 0) then
    let items := items - 1 in
    mask ← last_mask used;
    x ← aget (field b1) items; y ← aget (field b2) items;
    if negb (Z.land (Z.lxor x y) mask =? 0) then Ok 0
    else loop (equal_round (field b1) (field b2) items) fuel 0
  else loop (equal_round (field b1) (field b2) items) fuel 0.

(** [diff < 0], [diff > 0]: [None] if the loop goes on. *)
Definition sign_of (diff : Z) : option Z := if diff <? 0 then Some (-1) else if 0 <? diff then Some 1 else None.

Definition compare_round (f1 f2 : list Z) (items : Z) (i : Z) : res (Z + option Z) :=
  if i <? items then
    x ← aget f1 i; y ← aget f2 i;
    match sign_of (x - y) with Some r => Ok (inr (Some r)) | None => Ok (inl (i + 1)) end
  else Ok (inr None).

Definition bf_compare (bf1 bf2 : Bitfield) : res Z :=
  b1 ← deref bf1; b2 ← deref bf2;
  _ ← c_assert (elements b1 =? elements b2);
  _ ← c_assert (nbytes b1 =? nbytes b2);
  let items := Z.quot (nbytes b1) BaseTypeSize in
  let used := Z.rem (elements b1) BaseTypeBits in
  let items := if negb (used =? 0) then items - 1 else items in
  r ← loop (compare_round (field b1) (field b2) items) fuel 0;
  match r with
  | Some r => Ok r
  | None =>
      if negb (used =? 0) then
        mask ← last_mask used;
        x ← aget (field b1) items; y ← aget (field b2) items;
        Ok (default 0 (sign_of (Z.land x mask - Z.land y mask)))
      else Ok 0
  end.

(** ** Bits of a byte *)
Lemma u8_bits x k : 0 <= k < 8 -> Z.testbit (u8 x) k = Z.testbit x k.
Proof. intros Hk. apply Z.mod_pow2_bits_low. lia. Qed.

Lemma mask_test v k : 0 <= k -> (Z.land v (Z.shiftl 1 k) =? 0) = negb (Z.testbit v k).
Proof.
  intros Hk. rewrite Z.shiftl_1_l. destruct (Z.testbit v k) eqn:E; cbn [negb].
  - apply Z.eqb_neq. intros H. assert (Z.testbit (Z.land v (2 ^ k)) k = true) as H2.
    { by rewrite Z.land_spec, E, Z.pow2_bits_true. }
    by rewrite H, Z.testbit_0_l in H2.
  - apply Z.eqb_eq. apply Z.bits_inj'. intros j Hj. rewrite Z.land_spec, Z.testbit_0_l, Z.pow2_bits_eqb by done.
    destruct (Z.eqb_spec k j) as [->|]; [by rewrite E | by rewrite andb_false_r].
Qed.

Lemma byte_bit_neq v v' k : 0 <= k -> Z.testbit v k <> Z.testbit v' k -> (v' =? v) = false.
Proof. intros Hk H. apply Z.eqb_neq. by intros ->. Qed.

Lemma byte_eq v v' : 0 <= v < 256 -> 0 <= v' < 256 -> (forall k, 0 <= k < 8 -> Z.testbit v k = Z.testbit v' k) -> v = v'.
Proof.
  intros Hv Hv' H. apply Z.bits_inj'. intros k Hk. destruct (Z.lt_ge_cases k 8) as [|Hge]; [by apply H |].
  assert (forall x, 0 <= x < 256 -> Z.testbit x k = false) as Hhigh; [| by rewrite !Hhigh].
  intros x Hx. rewrite Z.testbit_eqb by done. rewrite Z.div_small; [done |]. split; [lia |].
  apply Z.lt_le_trans with (2 ^ 8); [lia | apply Z.pow_le_mono_r; lia].
Qed.

(** The bit [k] becomes [f] of what it was, the others stay. *)
Definition changed (v v' k : Z) (b : bool) : Prop :=
  0 <= v' < 256 /\ Z.testbit v' k = b /\ forall j, 0 <= j < 8 -> j <> k -> Z.testbit v' j = Z.testbit v j.

Lemma changed_set v k : 0 <= k < 8 -> changed v (u8 (Z.lor v (Z.shiftl 1 k))) k true.
Proof.
  intros Hk. split; [apply u8_range |]. rewrite Z.shiftl_1_l. split.
  - by rewrite u8_bits, Z.lor_spec, Z.pow2_bits_true, orb_true_r by lia.
  - intros j Hj Hne. by rewrite u8_bits, Z.lor_spec, Z.pow2_bits_false, orb_false_r by lia.
Qed.

Lemma changed_clear v k : 0 <= k < 8 -> changed v (u8 (Z.land v (Z.lnot (Z.shiftl 1 k)))) k false.
Proof.
  intros Hk. split; [apply u8_range |]. rewrite Z.shiftl_1_l. split.
  - by rewrite u8_bits, Z.land_spec, Z.lnot_spec, Z.pow2_bits_true, andb_false_r by lia.
  - intros j Hj Hne. by rewrite u8_bits, Z.land_spec, Z.lnot_spec, Z.pow2_bits_false, andb_true_r by lia.
Qed.

Lemma changed_toggle v k : 0 <= k < 8 -> changed v (u8 (Z.lxor v (Z.shiftl 1 k))) k (negb (Z.testbit v k)).
Proof.
  intros Hk. split; [apply u8_range |]. rewrite Z.shiftl_1_l. split.
  - by rewrite u8_bits, Z.lxor_spec, Z.pow2_bits_true, xorb_true_r by lia.
  - intros j Hj Hne. by rewrite u8_bits, Z.lxor_spec, Z.pow2_bits_false, xorb_false_r by lia.
Qed.

Lemma land_lxor x y m : Z.land (Z.lxor x y) m = Z.lxor (Z.land x m) (Z.land y m).
Proof.
  apply Z.bits_inj'. intros k _. rewrite !Z.land_spec, !Z.lxor_spec, !Z.land_spec.
  by destruct (Z.testbit x k), (Z.testbit y k), (Z.testbit m k).
Qed.

(** ** What a bit field stands for *)
Definition cells (n : Z) : Z := (n + 7) / 8.

Record represents (n : Z) (X : gset Z) (b : BFBuf) : Prop := {
  r_elements : elements b = n;
  r_bytes : nbytes b = cells n;
  r_len : zlen (field b) = cells n;
  r_byte : forall c v, aget (field b) c = Ok v -> 0 <= v < 256;
  r_bit : forall i v, 0 <= i < n -> aget (field b) (i / 8) = Ok v -> Z.testbit v (i mod 8) = bool_decide (i ∈ X);
  r_in : forall i, i ∈ X -> 0 <= i < n;
  r_count : bits_set b = Z.of_nat (size X)
}.

(** The numbers below [n]. *)
Definition all (n : Z) : gset Z := list_to_set (seqZ 0 n).

Lemma elem_of_all n i : i ∈ all n <-> 0 <= i < n.
Proof. unfold all. rewrite elem_of_list_to_set, elem_of_seqZ. lia. Qed.

Lemma size_all n : 0 <= n -> Z.of_nat (size (all n)) = n.
Proof. intros Hn. unfold all. rewrite size_list_to_set by apply NoDup_seqZ. rewrite length_seqZ. lia. Qed.

Lemma size_in n (X : gset Z) : 0 <= n -> (forall i, i ∈ X -> 0 <= i < n) -> Z.of_nat (size X) <= n.
Proof.
  intros Hn H. rewrite <- (size_all n) at 1 by done. apply inj_le, subseteq_size. intros i Hi. apply elem_of_all. by apply H.
Qed.

Lemma cells_range n i : 0 <= i < n -> 0 <= i / 8 < cells n.
Proof. intros Hi. unfold cells. split; [apply Z.div_pos; lia |]. apply Z.lt_le_trans with ((i + 8) / 8); [| apply Z.div_le_mono; lia].
  replace (i + 8) with (i + 1 * 8) by lia. rewrite Z.div_add by lia. lia. Qed.

Lemma quot_rem_8 i : 0 <= i -> Z.quot i BaseTypeBits = i / 8 /\ Z.rem i BaseTypeBits = i mod 8.
Proof. intros Hi. unfold BaseTypeBits. by rewrite Z.quot_div_nonneg, Z.rem_mod_nonneg by lia. Qed.

Lemma bit_mask_ok i : 0 <= i -> bit_mask i = Ok (Z.shiftl 1 (i mod 8)).
Proof.
  intros Hi. unfold bit_mask. destruct (quot_rem_8 i Hi) as [_ ->]. pose proof (Z.mod_pos_bound i 8 ltac:(lia)).
  by rewrite (proj2 (Z.ltb_ge _ _)) by lia.
Qed.

Lemma cell_ok n X b i : represents n X b -> 0 <= i < n -> exists v, aget (field b) (i / 8) = Ok v /\ Z.testbit v (i mod 8) = bool_decide (i ∈ X).
Proof.
  intros H Hi. destruct (aget_total (field b) (i / 8)) as (v & E & _); [rewrite (r_len _ _ _ H); by apply cells_range |].
  exists v. split; [done |]. by apply (r_bit _ _ _ H).
Qed.

(** A cell gets a new value, in which one bit has changed. *)
Lemma represents_insert n (X Y : gset Z) b i v v' c : represents n X b -> 0 <= i < n -> aget (field b) (i / 8) = Ok v ->
  changed v v' (i mod 8) (bool_decide (i ∈ Y)) -> (forall j, j <> i -> j ∈ Y <-> j ∈ X) -> c = Z.of_nat (size Y) ->
  aset (field b) (i / 8) v' = Ok (<[Z.to_nat (i / 8) := v']> (field b)) /\
  represents n Y (mkBF (elements b) (nbytes b) c (<[Z.to_nat (i / 8) := v']> (field b))).
Proof.
  intros H Hi Hv (Hb & Hk & Ho) Hy Hc. pose proof (cells_range n i Hi) as Hr. rewrite <- (r_len _ _ _ H) in Hr.
  split; [by apply aset_Ok |]. split; cbn; try apply H; try done.
  - rewrite zlen_insert. apply H.
  - intros d w [Hd Hw]%aget_Ok. destruct (decide (Z.to_nat (i / 8) = Z.to_nat d)) as [E|E].
    + rewrite E, list_lookup_insert_eq in Hw; [by injection Hw as <- |]. unfold zlen in Hr. lia.
    + rewrite list_lookup_insert_ne in Hw by done. apply (r_byte _ _ _ H d). by apply aget_Ok.
  - intros j w Hj [_ Hw]%aget_Ok. destruct (decide (j / 8 = i / 8)) as [E|E].
    + rewrite E, list_lookup_insert_eq in Hw by (unfold zlen in Hr; lia). injection Hw as <-.
      destruct (decide (j = i)) as [->|Hne]; [done |].
      assert (j mod 8 <> i mod 8) as Hm by (rewrite (Z.div_mod i 8), (Z.div_mod j 8) in Hne by lia; congruence).
      rewrite Ho by (try done; apply Z.mod_pos_bound; lia). rewrite (r_bit _ _ _ H j v Hj) by (by rewrite E).
      apply bool_decide_ext. by rewrite Hy.
    + rewrite list_lookup_insert_ne in Hw.
      * rewrite (r_bit _ _ _ H j w Hj); [apply bool_decide_ext; rewrite Hy; [done | congruence] |]. apply aget_Ok. split; [apply Z.div_pos; lia | done].
      * pose proof (Z.div_pos i 8). pose proof (Z.div_pos j 8). lia.
  - intros j Hj. destruct (decide (j = i)) as [->|Hne]; [done |]. apply (r_in _ _ _ H). by apply Hy.
Qed.

(** ** The operations *)
Lemma size_union_new (X : gset Z) i : i ∉ X -> size ({[i]} ∪ X) = S (size X).
Proof. intros Hi. rewrite size_union by (set_solver). by rewrite size_singleton. Qed.

Lemma union_old (X : gset Z) i : i ∈ X -> {[i]} ∪ X = X.
Proof. set_solver. Qed.

Lemma difference_old (X : gset Z) i : i ∉ X -> X ∖ {[i]} = X.
Proof. set_solver. Qed.

Lemma in_union (X : gset Z) i j : j <> i -> j ∈ {[i]} ∪ X <-> j ∈ X.
Proof. set_solver. Qed.

Lemma in_difference (X : gset Z) i j : j <> i -> j ∈ X ∖ {[i]} <-> j ∈ X.
Proof. set_solver. Qed.

Lemma size_remove (X : gset Z) i : i ∈ X -> size X = S (size (X ∖ {[i]})).
Proof. intros Hi. rewrite size_difference by (set_solver). rewrite size_singleton. assert (size X <> 0%nat) by (intros E%size_empty_inv; set_solver). lia. Qed.

Section Represented.
Context (n : Z) (X : gset Z) (b : BFBuf).
Hypothesis (Hn : n <= INT_MAX) (H : represents n X b).

Lemma changed_eqb v v' i : 0 <= i < n -> aget (field b) (i / 8) = Ok v -> changed v v' (i mod 8) (negb (bool_decide (i ∈ X))) \/
  changed v v' (i mod 8) (bool_decide (i ∈ X)) -> (v' =? v) = Bool.eqb (Z.testbit v' (i mod 8)) (bool_decide (i ∈ X)).
Proof.
  intros Hi Hv. pose proof (r_bit _ _ _ H i v Hi Hv) as Hb. pose proof (Z.mod_pos_bound i 8 ltac:(lia)) as Hm.
  intros [(R & E & O)|(R & E & O)]; rewrite E.
  - rewrite (byte_bit_neq v v' (i mod 8)); [by destruct (bool_decide _) | lia |]. rewrite E, Hb. by destruct (bool_decide _).
  - rewrite eqb_reflx. apply Z.eqb_eq, byte_eq; [done | by apply (r_byte _ _ _ H (i / 8)) |]. intros k Hk.
    destruct (decide (k = i mod 8)) as [->|]; [by rewrite E | by apply O].
Qed.

Lemma size_bound (Y : gset Z) : (forall i, i ∈ Y -> 0 <= i < n) -> INT_MIN <= Z.of_nat (size Y) <= INT_MAX.
Proof.
  intros HY. assert (INT_MIN <= 0) by done. destruct (Z.lt_ge_cases n 0) as [Hneg|Hpos]; [| pose proof (size_in n Y Hpos HY); lia].
  assert (size Y = 0%nat) as ->; [| done]. apply size_empty_iff. intros i. split; [| by intros ?%not_elem_of_empty]. intros Hi. specialize (HY i Hi). lia.
Qed.

(** The cell of [i] is stored, and the count fits. *)
Lemma update_ok i v v' (Y : gset Z) : 0 <= i < n -> aget (field b) (i / 8) = Ok v ->
  changed v v' (i mod 8) (bool_decide (i ∈ Y)) -> (forall j, j <> i -> j ∈ Y <-> j ∈ X) ->
  exists l, aset (field b) (i / 8) v' = Ok l /\ c_int (Z.of_nat (size Y)) = Ok (Z.of_nat (size Y)) /\
    represents n Y (mkBF (elements b) (nbytes b) (Z.of_nat (size Y)) l).
Proof.
  intros Hi Hv C Hy. destruct (represents_insert n X Y b i v v' _ H Hi Hv C Hy eq_refl) as [E R].
  eexists. split; [exact E |]. split; [| done]. apply c_int_Ok, size_bound. intros j Hj.
  destruct (decide (j = i)) as [->|]; [done |]. apply (r_in _ _ _ H). by apply Hy.
Qed.

Lemma set_bit_ok i : 0 <= i < n -> exists b', set_bit (Some b) i = Ok (Some b', 1) /\ represents n ({[i]} ∪ X) b'.
Proof.
  intros Hi. destruct (quot_rem_8 i) as [Eq _]; [lia |]. destruct (cell_ok n X b i H Hi) as (v & Hv & Hbit).
  pose proof (Z.mod_pos_bound i 8 ltac:(lia)) as Hm. pose proof (changed_set v (i mod 8) Hm) as C.
  unfold set_bit. rewrite (r_elements _ _ _ H), (proj2 (Z.ltb_lt i n)) by lia. rewrite Eq, Hv. res_cbn. rewrite bit_mask_ok by lia. res_cbn.
  set (v' := u8 _) in *. assert ((v' =? v) = bool_decide (i ∈ X)) as ->.
  { rewrite (changed_eqb v v' i Hi Hv) by (destruct (bool_decide (i ∈ X)); auto). destruct C as (_ & -> & _). by destruct (bool_decide _). }
  destruct (update_ok i v v' ({[i]} ∪ X) Hi Hv) as (l & -> & Ec & R); [rewrite bool_decide_true by set_solver; done | intros j; apply in_union |].
  res_cbn. rewrite (r_count _ _ _ H). rewrite (r_elements _ _ _ H) in R. case_bool_decide as Hx; cbn [negb].
  - res_cbn. rewrite union_old in * by done. eauto.
  - rewrite size_union_new in * by done. replace (Z.of_nat (size X) + 1) with (Z.of_nat (S (size X))) by lia. rewrite Ec. res_cbn. eauto.
Qed.

Lemma clear_bit_ok i : 0 <= i < n -> exists b', clear_bit (Some b) i = Ok (Some b', 1) /\ represents n (X ∖ {[i]}) b'.
Proof.
  intros Hi. destruct (quot_rem_8 i) as [Eq _]; [lia |]. destruct (cell_ok n X b i H Hi) as (v & Hv & Hbit).
  pose proof (Z.mod_pos_bound i 8 ltac:(lia)) as Hm. pose proof (changed_clear v (i mod 8) Hm) as C.
  unfold clear_bit. rewrite (r_elements _ _ _ H), (proj2 (Z.ltb_lt i n)) by lia. rewrite Eq, Hv. res_cbn. rewrite bit_mask_ok by lia. res_cbn.
  set (v' := u8 _) in *. assert ((v' =? v) = negb (bool_decide (i ∈ X))) as ->.
  { rewrite (changed_eqb v v' i Hi Hv) by (destruct (bool_decide (i ∈ X)); auto). destruct C as (_ & -> & _). by destruct (bool_decide _). }
  destruct (update_ok i v v' (X ∖ {[i]}) Hi Hv) as (l & -> & Ec & R); [rewrite bool_decide_false by set_solver; done | intros j; apply in_difference |].
  res_cbn. rewrite (r_count _ _ _ H). rewrite (r_elements _ _ _ H) in R. case_bool_decide as Hx; cbn [negb].
  - rewrite (size_remove X i Hx). replace (Z.of_nat (S (size (X ∖ {[i]}))) - 1) with (Z.of_nat (size (X ∖ {[i]}))) by lia. rewrite Ec. res_cbn. eauto.
  - res_cbn. rewrite difference_old in * by done. eauto.
Qed.

Lemma toggle_bit_ok i : 0 <= i < n -> exists b', toggle_bit (Some b) i = Ok (Some b', 1) /\
  represents n (if decide (i ∈ X) then X ∖ {[i]} else {[i]} ∪ X) b'.
Proof.
  intros Hi. destruct (quot_rem_8 i) as [Eq _]; [lia |]. destruct (cell_ok n X b i H Hi) as (v & Hv & Hbit).
  pose proof (Z.mod_pos_bound i 8 ltac:(lia)) as Hm. pose proof (changed_toggle v (i mod 8) Hm) as C. rewrite Hbit in C.
  unfold toggle_bit. rewrite (r_elements _ _ _ H), (proj2 (Z.ltb_lt i n)) by lia. rewrite Eq, Hv. res_cbn. rewrite bit_mask_ok by lia. res_cbn.
  rewrite mask_test, Hbit by lia. set (v' := u8 _) in *. rewrite (r_count _ _ _ H).
  destruct (update_ok i v v' (if decide (i ∈ X) then X ∖ {[i]} else {[i]} ∪ X) Hi Hv) as (l & El & Ec & R).
  - case_decide; [rewrite bool_decide_true in C by done; rewrite bool_decide_false by set_solver
                 | rewrite bool_decide_false in C by done; rewrite bool_decide_true by set_solver]; done.
  - intros j. case_decide; [apply in_difference | apply in_union].
  - rewrite (r_elements _ _ _ H) in R. case_decide as Hx; [rewrite bool_decide_true by done | rewrite bool_decide_false by done]; cbn [negb].
    + rewrite (size_remove X i Hx). replace (Z.of_nat (S (size (X ∖ {[i]}))) - 1) with (Z.of_nat (size (X ∖ {[i]}))) by lia.
      rewrite Ec. res_cbn. rewrite El. res_cbn. eauto.
    + rewrite size_union_new in * by done. replace (Z.of_nat (size X) + 1) with (Z.of_nat (S (size X))) by lia. rewrite Ec. res_cbn. rewrite El. res_cbn. eauto.
Qed.

Lemma get_bit_ok i : 0 <= i < n -> get_bit (Some b) i = Ok (if decide (i ∈ X) then 1 else 0).
Proof.
  intros Hi. destruct (quot_rem_8 i) as [Eq _]; [lia |]. destruct (cell_ok n X b i H Hi) as (v & Hv & Hbit).
  unfold get_bit. rewrite (r_elements _ _ _ H), (proj2 (Z.ltb_lt i n)) by lia. rewrite Eq, Hv. res_cbn. rewrite bit_mask_ok by lia. res_cbn.
  pose proof (Z.mod_pos_bound i 8 ltac:(lia)). rewrite mask_test, Hbit by lia. destruct (decide (i ∈ X)); [by rewrite bool_decide_true | by rewrite bool_decide_false].
Qed.
End Represented.

(** All bytes get the same value. *)
Lemma memset_ok n X b c k (Y : gset Z) : represents n X b -> 0 <= n -> (c = 0 /\ Y = ∅ /\ k = 0 \/ c = 255 /\ Y = all n /\ k = n) ->
  exists l, memset (field b) c (nbytes b) = Ok l /\ represents n Y (mkBF (elements b) (nbytes b) k l).
Proof.
  intros H Hn Hc. assert (0 <= cells n) as Hcn by (apply Z.div_pos; lia). unfold memset. rewrite (r_bytes _ _ _ H), (r_len _ _ _ H).
  rewrite (proj2 (Z.ltb_ge _ _)), Z.ltb_irrefl by lia. cbn [orb]. eexists. split; [done |].
  rewrite drop_ge by (pose proof (r_len _ _ _ H); unfold zlen in *; lia). rewrite app_nil_r.
  assert (forall i v, aget (replicate (Z.to_nat (cells n)) c) i = Ok v -> v = c) as Hrep.
  { intros i v [_ Hv]%aget_Ok. by apply lookup_replicate in Hv as [-> _]. }
  split; cbn; try apply H; try done.
  - rewrite zlen_replicate. lia.
  - intros d v ->%Hrep. destruct Hc as [(-> & _)|(-> & _)]; lia.
  - intros i v Hi ->%Hrep. pose proof (Z.mod_pos_bound i 8 ltac:(lia)) as Hm. destruct Hc as [(-> & -> & _)|(-> & -> & _)].
    + rewrite Z.testbit_0_l. symmetry. apply bool_decide_false. set_solver.
    + change 255 with (Z.ones 8). rewrite Z.ones_spec_low by lia. symmetry. apply bool_decide_true. by apply elem_of_all.
  - intros i Hi. destruct Hc as [(_ & -> & _)|(_ & -> & _)]; [set_solver | by apply elem_of_all].
  - destruct Hc as [(_ & -> & ->)|(_ & -> & ->)]; [by rewrite size_empty | by rewrite size_all].
Qed.

(** ** Creation *)
Lemma represents_create malloc0 garbage n : (forall k, 0 <= k -> zlen (garbage k) = k) -> 0 <= n <= INT_MAX -> malloc0 = true \/ 0 < n ->
  exists b, create_bitfield malloc0 garbage n = Ok b /\ represents n ∅ b.
Proof.
  intros Hg Hn Hm. assert (forall x, 0 <= x -> Z.quot x 8 = x / 8 /\ Z.rem x 8 = x mod 8) as Hq by (intros x Hx; by apply quot_rem_8).
  destruct (Hq n ltac:(lia)) as [E1 E2]. pose proof (Z.div_mod n 8 ltac:(lia)) as Ed. pose proof (Z.mod_pos_bound n 8 ltac:(lia)) as Hmod.
  assert ((if negb (n mod 8 =? 0) then n / 8 + 1 else n / 8) = cells n) as Ec.
  { unfold cells. case_Z; cbn [negb].
    - apply (Z.div_unique _ _ _ 7); lia.
    - apply (Z.div_unique _ _ _ (n mod 8 - 1)); lia. }
  assert (0 <= cells n <= n) as Hc by (rewrite <- Ec; case_Z; cbn [negb]; lia).
  assert (0 < n -> 0 < cells n) as Hpos by (rewrite <- Ec; case_Z; cbn [negb]; lia).
  unfold create_bitfield, BaseTypeBits, BaseTypeSize. rewrite E1, E2, Ec, Z.mul_1_r. assert (INT_MIN <= 0) by done.
  rewrite c_int_Ok by lia. res_cbn. unfold cl_malloc. rewrite (proj2 (Z.ltb_ge _ _)) by lia.
  assert ((cells n =? 0) && negb malloc0 = false) as ->.
  { apply andb_false_iff. destruct Hm as [->|Hm]; [by right |]. left. apply Z.eqb_neq. specialize (Hpos Hm). lia. }
  res_cbn. pose proof (Hg (cells n) ltac:(lia)) as Hl.
  unfold memset. rewrite Hl, (proj2 (Z.ltb_ge _ _)), Z.ltb_irrefl by lia. cbn [orb]. res_cbn. eexists. split; [done |].
  rewrite drop_ge by (unfold zlen in Hl; lia). rewrite app_nil_r.
  assert (forall i v, aget (replicate (Z.to_nat (cells n)) 0) i = Ok v -> v = 0) as Hrep.
  { intros i v [_ Hv]%aget_Ok. by apply lookup_replicate in Hv as [-> _]. }
  split; cbn; try done.
  - rewrite zlen_replicate. lia.
  - intros d v ->%Hrep. lia.
  - intros i v Hi ->%Hrep. rewrite Z.testbit_0_l. symmetry. apply bool_decide_false. set_solver.
Qed.

Lemma copy_represents malloc0 garbage n X b : (forall k, 0 <= k -> zlen (garbage k) = k) -> 0 <= n <= INT_MAX -> malloc0 = true \/ 0 < n ->
  represents n X b -> exists b', copy_bitfield malloc0 garbage (Some b) = Ok (Some b') /\ represents n X b'.
Proof.
  intros Hg Hn Hm H. destruct (represents_create malloc0 garbage n Hg Hn Hm) as (t & E & T).
  unfold copy_bitfield. rewrite (r_elements _ _ _ H), E. res_cbn. rewrite (r_bytes _ _ _ H), (r_len _ _ _ H), (r_len _ _ _ T), Z.ltb_irrefl. cbn [orb].
  eexists. split; [done |]. rewrite take_ge by (pose proof (r_len _ _ _ H); unfold zlen in *; lia).
  rewrite drop_ge by (pose proof (r_len _ _ _ T); unfold zlen in *; lia). rewrite app_nil_r.
  split; cbn; try apply H; apply T.
Qed.

(** ** Comparisons *)

Lemma sign_of_opp x : sign_of (- x) = Z.opp <$> sign_of x.
Proof. unfold sign_of. repeat case_Z; cbn; try done; lia. Qed.

Lemma sign_of_None x : sign_of x = None <-> x = 0.
Proof. unfold sign_of. repeat case_Z; split; try done; lia. Qed.

Lemma sign_of_values x : sign_of x = None \/ sign_of x = Some (-1) \/ sign_of x = Some 1.
Proof. unfold sign_of. repeat case_Z; auto. Qed.

(** The first of [items] cells that differ, and the sign of the difference. *)
Definition first_difference (f1 f2 : list Z) (items : Z) (r : option Z) : Prop :=
  (r = None /\ forall c, 0 <= c < items -> aget f1 c = aget f2 c) \/
  exists c x y, 0 <= c < items /\ aget f1 c = Ok x /\ aget f2 c = Ok y /\ x <> y /\ r = sign_of (x - y) /\
    forall d, 0 <= d < c -> aget f1 d = aget f2 d.

Lemma first_difference_sym f1 f2 items r r' : first_difference f1 f2 items r -> first_difference f2 f1 items r' -> r' = Z.opp <$> r.
Proof.
  intros [[-> H]|(c & x & y & Hc & Ex & Ey & Hne & -> & H)] [[-> H']|(c' & x' & y' & Hc' & Ex' & Ey' & Hne' & -> & H')].
  - done.
  - rewrite H in Ey' by done. congruence.
  - rewrite H' in Ey by done. congruence.
  - rewrite <- sign_of_opp. destruct (Z.lt_trichotomy c c') as [Hl|[->|Hl]].
    + rewrite H' in Ey by lia. congruence.
    + f_equal. assert (x' = y) by congruence. assert (y' = x) by congruence. lia.
    + rewrite H in Ey' by lia. congruence.
Qed.

Lemma compare_loop f1 f2 items : 0 <= items <= INT_MAX -> items <= zlen f1 -> items <= zlen f2 -> exists r,
  loop (compare_round f1 f2 items) fuel 0 = Ok r /\ first_difference f1 f2 items r.
Proof.
  intros Hi L1 L2. unfold INT_MAX in Hi.
  apply (loop_rule _ (fun i => 0 <= i <= items /\ forall c, 0 <= c < i -> aget f1 c = aget f2 c) _ (fun i => items - i)).
  - intros i [Hr Hs]. split; [lia |]. unfold compare_round. case_Z.
    + destruct (aget_total f1 i) as (x & Ex & _); [lia |]. destruct (aget_total f2 i) as (y & Ey & _); [lia |]. rewrite Ex, Ey. res_cbn.
      destruct (sign_of (x - y)) as [r|] eqn:Es.
      * right. eexists. split; [done |]. right. exists i, x, y. do 3 (split; [done || lia |]). split; [| by split].
        intros ->. by rewrite Z.sub_diag in Es.
      * left. eexists. split; [done |]. split; [| lia]. split; [lia |]. intros c Hl. apply sign_of_None in Es.
        destruct (decide (c = i)) as [->|]; [rewrite Ex, Ey; f_equal; lia | apply Hs; lia].
    + right. eexists. split; [done |]. left. split; [done |]. intros c Hl. apply Hs. lia.
  - split; [lia |]. intros c Hl. lia.
  - rewrite fuel_val. lia.
Qed.

Section Compare.
Context (n : Z) (X Y : gset Z) (b1 b2 : BFBuf).
Hypothesis (Hn : 0 <= n <= INT_MAX) (H1 : represents n X b1) (H2 : represents n Y b2).

(** The bits of a cell that count. *)
Definition used (c : Z) : Z := Z.min 8 (n - 8 * c).

Definition same_cell (c : Z) : Prop := forall i, 8 * c <= i < 8 * c + used c -> i ∈ X <-> i ∈ Y.

Lemma same_all : (forall c, 0 <= c < cells n -> same_cell c) -> X = Y.
Proof.
  intros H. apply set_eq. intros i.
  assert (0 <= i < n -> i ∈ X <-> i ∈ Y) as Hi.
  { intros Hi. apply (H (i / 8)); [by apply cells_range |]. unfold used. pose proof (Z.div_mod i 8 ltac:(lia)). pose proof (Z.mod_pos_bound i 8 ltac:(lia)). lia. }
  split; intros Hx; [apply Hi | apply Hi]; try done; [by apply (r_in _ _ _ H1) | by apply (r_in _ _ _ H2)].
Qed.

Lemma cells_used c : 0 <= c < cells n -> 0 < used c <= 8 /\ (c + 1 < cells n -> used c = 8) /\ (n mod 8 = 0 -> used c = 8) /\
  (n mod 8 <> 0 -> c + 1 = cells n -> used c = n mod 8).
Proof.
  unfold cells, used. intros Hc. pose proof (Z.div_mod n 8 ltac:(lia)). pose proof (Z.mod_pos_bound n 8 ltac:(lia)).
  pose proof (Z.div_mod (n + 7) 8 ltac:(lia)). pose proof (Z.mod_pos_bound (n + 7) 8 ltac:(lia)). lia.
Qed.

Lemma two_cells c : 0 <= c < cells n -> exists x y, aget (field b1) c = Ok x /\ aget (field b2) c = Ok y /\ 0 <= x < 256 /\ 0 <= y < 256 /\
  forall k, 0 <= k < used c -> (Z.testbit x k = Z.testbit y k <-> (8 * c + k ∈ X <-> 8 * c + k ∈ Y)).
Proof.
  intros Hc. destruct (aget_total (field b1) c) as (x & Ex & _); [by rewrite (r_len _ _ _ H1) |].
  destruct (aget_total (field b2) c) as (y & Ey & _); [by rewrite (r_len _ _ _ H2) |].
  exists x, y. do 2 (split; [done |]). split; [by apply (r_byte _ _ _ H1 c) |]. split; [by apply (r_byte _ _ _ H2 c) |].
  intros k Hk. unfold used in Hk. assert ((8 * c + k) / 8 = c) as E1 by (symmetry; apply (Z.div_unique _ _ _ k); lia).
  assert ((8 * c + k) mod 8 = k) as E2 by (symmetry; apply (Z.mod_unique _ _ c); lia).
  pose proof (r_bit _ _ _ H1 (8 * c + k) x ltac:(lia)) as B1. pose proof (r_bit _ _ _ H2 (8 * c + k) y ltac:(lia)) as B2.
  rewrite E1, E2 in B1, B2. rewrite (B1 Ex), (B2 Ey). split.
  - intros Hb. by rewrite <- (bool_decide_eq_true (_ ∈ X)), Hb, bool_decide_eq_true.
  - intros Hb. by apply bool_decide_ext.
Qed.

(** The cells agree in the bits that count. *)
Lemma masked_eq c x y : (forall k, 0 <= k < used c -> (Z.testbit x k = Z.testbit y k <-> (8 * c + k ∈ X <-> 8 * c + k ∈ Y))) -> 0 <= c < cells n ->
  Z.land x (Z.ones (used c)) = Z.land y (Z.ones (used c)) <-> same_cell c.
Proof.
  intros Hb Hc. destruct (cells_used c Hc) as [Hu _]. split.
  - intros E i Hi. replace i with (8 * c + (i - 8 * c)) by lia. apply Hb; [lia |].
    apply (f_equal (fun z => Z.testbit z (i - 8 * c))) in E. by rewrite !Z.land_spec, Z.ones_spec_low, !andb_true_r in E by lia.
  - intros S. apply Z.bits_inj'. intros k Hk. rewrite !Z.land_spec. destruct (Z.lt_ge_cases k (used c)) as [Hl|Hg].
    + rewrite Z.ones_spec_low, !andb_true_r by lia. apply Hb; [lia |]. apply S. lia.
    + by rewrite Z.ones_spec_high, !andb_false_r by lia.
Qed.

Lemma byte_ones x : 0 <= x < 256 -> Z.land x (Z.ones 8) = x.
Proof. intros Hx. rewrite Z.land_ones by lia. by apply Z.mod_small. Qed.

Lemma full_cell c : 0 <= c < cells n -> used c = 8 -> exists x y, aget (field b1) c = Ok x /\ aget (field b2) c = Ok y /\ (x = y <-> same_cell c).
Proof.
  intros Hc Hu. destruct (two_cells c Hc) as (x & y & Ex & Ey & Rx & Ry & Hb). exists x, y. do 2 (split; [done |]).
  rewrite <- (masked_eq c x y Hb Hc), Hu, !byte_ones by done. done.
Qed.

Lemma last_mask_ok : last_mask (n mod 8) = Ok (Z.ones (n mod 8)).
Proof.
  pose proof (Z.mod_pos_bound n 8 ltac:(lia)). unfold last_mask. rewrite (proj2 (Z.ltb_ge _ _)) by lia.
  rewrite Z.ones_equiv, Z.shiftl_1_l. by rewrite Z.sub_1_r.
Qed.

Lemma cells_int : 0 <= cells n <= INT_MAX.
Proof. unfold cells, INT_MAX in *. split; [apply Z.div_pos; lia |]. apply Z.div_le_upper_bound; lia. Qed.

(** The loop over [items] cells that are used completely. *)
Lemma equal_loop items : 0 <= items <= cells n -> (forall c, 0 <= c < items -> used c = 8) -> exists r,
  loop (equal_round (field b1) (field b2) items) fuel 0 = Ok r /\ (r = 1 /\ (forall c, 0 <= c < items -> same_cell c) \/ r = 0 /\ exists c, 0 <= c < items /\ ~ same_cell c).
Proof.
  intros Hi Hu. pose proof cells_int as Hc. unfold INT_MAX in Hc.
  apply (loop_rule _ (fun i => 0 <= i <= items /\ forall c, 0 <= c < i -> same_cell c) _ (fun i => items - i)).
  - intros i [Hr Hs]. split; [lia |]. unfold equal_round. case_Z.
    + destruct (full_cell i) as (x & y & -> & -> & Hxy); [lia | apply Hu; lia |]. res_cbn. case_Z; cbn [negb].
      * left. eexists. split; [done |]. split; [| lia]. split; [lia |]. intros c Hl. destruct (decide (c = i)) as [->|]; [tauto | apply Hs; lia].
      * right. eexists. split; [done |]. right. split; [done |]. exists i. split; [lia | tauto].
    + right. eexists. split; [done |]. left. split; [done |]. intros c Hl. apply Hs. lia.
  - split; [lia |]. intros c Hl. lia.
  - rewrite fuel_val. lia.
Qed.

Lemma bf_equal_ok : bf_equal (Some b1) (Some b2) = Ok (if decide (X = Y) then 1 else 0).
Proof.
  pose proof cells_int as Hc. pose proof (Z.mod_pos_bound n 8 ltac:(lia)) as Hm. destruct (quot_rem_8 n ltac:(lia)) as [_ Er].
  unfold bf_equal. res_cbn. rewrite (r_elements _ _ _ H1), (r_elements _ _ _ H2), (r_bytes _ _ _ H1), (r_bytes _ _ _ H2), !Z.eqb_refl. res_cbn.
  unfold BaseTypeSize. rewrite Z.quot_1_r, Er.
  assert (forall r, (r = 1 /\ (forall c, 0 <= c < cells n -> same_cell c) \/ r = 0 /\ exists c, 0 <= c < cells n /\ ~ same_cell c) ->
    r = if decide (X = Y) then 1 else 0) as Hres.
  { intros r [[-> Hs]|(-> & c & Hl & Hs)]; [by rewrite decide_True by (by apply same_all) |]. rewrite decide_False; [done |]. intros E. apply Hs. intros i _. by rewrite E. }
  case_Z; cbn [negb].
  - destruct (equal_loop (cells n)) as (r & -> & Hr); [lia | intros c Hl; by apply cells_used |]. by rewrite (Hres r Hr).
  - assert (0 <= cells n - 1 < cells n) as Hl. { unfold cells in *. pose proof (Z.div_mod (n + 7) 8 ltac:(lia)). pose proof (Z.mod_pos_bound (n + 7) 8 ltac:(lia)). pose proof (Z.div_mod n 8 ltac:(lia)). lia. }
    rewrite last_mask_ok. res_cbn. destruct (two_cells (cells n - 1) Hl) as (x & y & -> & -> & _ & _ & Hb). res_cbn.
    pose proof (masked_eq _ x y Hb Hl) as Hme. assert (used (cells n - 1) = n mod 8) as Hu by (apply cells_used; [done | done | lia]). rewrite Hu in Hme.
    assert (Z.land (Z.lxor x y) (Z.ones (n mod 8)) = 0 <-> same_cell (cells n - 1)) as Hx.
    { rewrite <- Hme, land_lxor. apply Z.lxor_eq_0_iff. }
    case_Z; cbn [negb].
    + destruct (equal_loop (cells n - 1)) as (r & -> & Hr); [lia | intros c Hc'; destruct (cells_used c) as (_ & Hf & _); [lia | apply Hf; lia] |]. f_equal. apply Hres.
      destruct Hr as [[-> Hr]|(-> & c & Hc' & Hr)]; [left; split; [done |]; intros c Hc' | right; split; [done |]; exists c; split; [lia | done]].
      destruct (decide (c = cells n - 1)) as [->|]; [by apply Hx | apply Hr; lia].
    + f_equal. apply Hres. right. split; [done |]. exists (cells n - 1). split; [done |]. tauto.
Qed.
(** The order of the first difference. *)
Lemma bf_compare_ok : exists r, bf_compare (Some b1) (Some b2) = Ok r /\ bf_compare (Some b2) (Some b1) = Ok (- r) /\ (r = 0 <-> X = Y) /\ -1 <= r <= 1.
Proof.
  pose proof cells_int as Hc. pose proof (Z.mod_pos_bound n 8 ltac:(lia)) as Hm. destruct (quot_rem_8 n ltac:(lia)) as [_ Er].
  unfold bf_compare. res_cbn. rewrite (r_elements _ _ _ H1), (r_elements _ _ _ H2), (r_bytes _ _ _ H1), (r_bytes _ _ _ H2), !Z.eqb_refl. res_cbn.
  unfold BaseTypeSize. rewrite Z.quot_1_r, Er. set (items := if negb (n mod 8 =? 0) then cells n - 1 else cells n).
  assert (0 <= items <= cells n /\ (forall c, 0 <= c < items -> used c = 8)) as [Hi Hu].
  { unfold items. unfold cells in *. pose proof (Z.div_mod (n + 7) 8 ltac:(lia)). pose proof (Z.mod_pos_bound (n + 7) 8 ltac:(lia)).
    pose proof (Z.div_mod n 8 ltac:(lia)). case_Z; cbn [negb]; (split; [lia |]); intros c Hl; unfold used; lia. }
  destruct (compare_loop (field b1) (field b2) items) as (r & E1 & D1); [lia | rewrite (r_len _ _ _ H1); lia | rewrite (r_len _ _ _ H2); lia |].
  destruct (compare_loop (field b2) (field b1) items) as (r' & E2 & D2); [lia | rewrite (r_len _ _ _ H2); lia | rewrite (r_len _ _ _ H1); lia |].
  rewrite E1, E2. res_cbn. rewrite (first_difference_sym _ _ _ _ _ D1 D2).
  assert (forall c, 0 <= c < items -> aget (field b1) c = aget (field b2) c <-> same_cell c) as Hsame.
  { intros c Hl. destruct (full_cell c) as (x & y & -> & -> & <-); [lia | by apply Hu |]. split; [by intros [= ->] | by intros ->]. }
  destruct D1 as [[-> Hall]|(c & x & y & Hl & Ex & Ey & Hne & -> & _)]; cycle 1.
  { destruct (sign_of (x - y)) as [r|] eqn:Es; [| apply sign_of_None in Es; lia]. exists r. cbn [fmap option_fmap option_map]. do 2 (split; [done |]).
    pose proof (sign_of_values (x - y)) as Hv. rewrite Es in Hv. split; [| destruct Hv as [?|[[= ->]|[= ->]]]; [done | lia | lia]].
    split; [intros ->; by destruct Hv as [?|[?|?]] |]. intros E. destruct Hne. assert (same_cell c) as Hs by (intros i _; by rewrite E).
    apply Hsame in Hs; [congruence | done]. }
  cbn [fmap option_fmap option_map]. subst items. destruct (Z.eqb_spec (n mod 8) 0) as [E|E]; cbn [negb] in *.
  { exists 0. do 2 (split; [done |]). split; [| lia]. split; [intros _; apply same_all; intros c Hl; by apply Hsame, Hall | done]. }
  assert (0 <= cells n - 1 < cells n) as Hl by lia. rewrite last_mask_ok. res_cbn.
  destruct (two_cells (cells n - 1) Hl) as (x & y & -> & -> & _ & _ & Hb). res_cbn.
  pose proof (masked_eq _ x y Hb Hl) as Hme. assert (used (cells n - 1) = n mod 8) as Hu' by (apply cells_used; [done | done | lia]). rewrite Hu' in Hme.
  set (d := Z.land x _ - Z.land y _). replace (Z.land y (Z.ones (n mod 8)) - Z.land x (Z.ones (n mod 8))) with (- d) by (unfold d; lia). rewrite sign_of_opp.
  assert (sign_of d = None <-> X = Y) as Hd.
  { rewrite sign_of_None. unfold d. rewrite Z.sub_move_0_r, Hme. split; [| intros E' i _; by rewrite E'].
    intros Hlast. apply same_all. intros c Hc'. destruct (decide (c = cells n - 1)) as [->|]; [done | apply Hsame, Hall; lia]. }
  exists (default 0 (sign_of d)). split; [done |]. split; [by destruct (sign_of d) |].
  destruct (sign_of_values d) as [E'|[E'|E']]; rewrite E' in *; cbn; (split; [| lia]); rewrite <- Hd; done.
Qed.
End Compare.

(** ** The refinement *)
Inductive op := Set_ (i : Z) | Clear (i : Z) | Toggle (i : Z) | Get (i : Z) | SetAll | ClearAll | Count | Copy.

Section Run.
Context (malloc0 : bool) (garbage : Z -> list Z).

Definition exec (o : op) (b : Bitfield) : res (Bitfield * Z) :=
  match o with
  | Set_ i => set_bit b i
  | Clear i => clear_bit b i
  | Toggle i => toggle_bit b i
  | Get i => r ← get_bit b i; Ok (b, r)
  | SetAll => set_all_bits b
  | ClearAll => clear_all_bits b
  | Count => r ← nr_bits_set b; Ok (b, r)
  | Copy => c ← copy_bitfield malloc0 garbage b; Ok (c, 0)
  end.

Fixpoint run (ops : list op) (b : Bitfield) : res (list Z) :=
  match ops with [] => Ok [] | o :: ops => r ← exec o b; l ← run ops r.1; Ok (r.2 :: l) end.
End Run.

(** The set of the numbers whose bits are set; numbers from [n] on are refused. *)
Definition spec_exec (n : Z) (o : op) (X : gset Z) : gset Z * Z :=
  match o with
  | Set_ i => if i <? n then ({[i]} ∪ X, 1) else (X, 0)
  | Clear i => if i <? n then (X ∖ {[i]}, 1) else (X, 0)
  | Toggle i => if i <? n then (if decide (i ∈ X) then X ∖ {[i]} else {[i]} ∪ X, 1) else (X, 0)
  | Get i => (X, if i <? n then (if decide (i ∈ X) then 1 else 0) else -1)
  | SetAll => (all n, 1)
  | ClearAll => (∅, 1)
  | Count => (X, Z.of_nat (size X))
  | Copy => (X, 0)
  end.

Fixpoint spec_run (n : Z) (ops : list op) (X : gset Z) : list Z :=
  match ops with [] => [] | o :: ops => let r := spec_exec n o X in r.2 :: spec_run n ops r.1 end.

(** Negative offsets are undefined behaviour. *)
Definition legal (o : op) : Prop := match o with Set_ i | Clear i | Toggle i | Get i => 0 <= i | _ => True end.

Section Refine.
Context (malloc0 : bool) (garbage : Z -> list Z) (n : Z).
Hypothesis (Hg : forall k, 0 <= k -> zlen (garbage k) = k) (Hn : 0 <= n <= INT_MAX) (Hm : malloc0 = true \/ 0 < n).

Lemma exec_ok o X b : legal o -> represents n X b -> exists b', exec malloc0 garbage o (Some b) = Ok (Some b', (spec_exec n o X).2) /\
  represents n (spec_exec n o X).1 b'.
Proof.
  intros Hl H. assert (n <= INT_MAX) as Hn' by lia. pose proof (r_elements _ _ _ H) as En.
  destruct o as [i|i|i|i| | | |]; cbn [exec spec_exec legal] in *.
  - destruct (Z.ltb_spec i n); [by apply set_bit_ok |]. exists b. unfold set_bit. by rewrite En, (proj2 (Z.ltb_ge i n)).
  - destruct (Z.ltb_spec i n); [by apply clear_bit_ok |]. exists b. unfold clear_bit. by rewrite En, (proj2 (Z.ltb_ge i n)).
  - destruct (Z.ltb_spec i n); [by apply toggle_bit_ok |]. exists b. unfold toggle_bit. by rewrite En, (proj2 (Z.ltb_ge i n)).
  - exists b. destruct (Z.ltb_spec i n); [by rewrite (get_bit_ok n X b H) |]. unfold get_bit. by rewrite En, (proj2 (Z.ltb_ge i n)).
  - destruct (memset_ok n X b 255 n (all n) H) as (l & E & R); [lia | by right |]. unfold set_all_bits. rewrite E. res_cbn.
    rewrite En in *. eauto.
  - destruct (memset_ok n X b 0 0 ∅ H) as (l & E & R); [lia | by left |]. unfold clear_all_bits. rewrite E. res_cbn. eauto.
  - exists b. unfold nr_bits_set. res_cbn. by rewrite (r_count _ _ _ H).
  - destruct (copy_represents malloc0 garbage n X b Hg Hn Hm H) as (b' & -> & R). res_cbn. eauto.
Qed.

Lemma run_represents ops X b : Forall legal ops -> represents n X b -> run malloc0 garbage ops (Some b) = Ok (spec_run n ops X).
Proof.
  revert X b. induction ops as [|o ops IH]; intros X b Hl H; [done |]. apply List.Forall_cons_iff in Hl as [Ho Hl]. cbn [run spec_run].
  destruct (exec_ok o X b Ho H) as (b' & -> & R). res_cbn. cbn [fst snd]. by rewrite (IH _ b' Hl R).
Qed.
End Refine.

(** For a negative offset a cell in front of the field is accessed, or the bit is shifted by a negative number. *)
Lemma negative_offset i (l : list Z) v : i < 0 -> aget l (Z.quot i BaseTypeBits) = Ok v -> bit_mask i = Err IntOverflow.
Proof.
  intros Hi [Hq _]%aget_Ok. unfold BaseTypeBits in *. unfold bit_mask. change (Z.rem i BaseTypeBits) with (Z.rem i 8). pose proof (Z.quot_rem' i 8).
  rewrite (proj2 (Z.ltb_lt _ _)); [done | lia].
Qed.

Lemma exec_negative malloc0 garbage n X o b : ~ legal o -> 0 <= n -> represents n X b -> exists f, exec malloc0 garbage o (Some b) = Err f.
Proof.
  intros Ho Hn H. pose proof (r_elements _ _ _ H) as En.
  assert (forall i (k : Z -> Z -> res (Bitfield * Z)), i < 0 -> exists f, (v ← aget (field b) (Z.quot i BaseTypeBits); m ← bit_mask i; k v m) = Err f) as Hk.
  { intros i k Hi. destruct (aget (field b) (Z.quot i BaseTypeBits)) as [v|f] eqn:E; [| by exists f]. rewrite !bind_Ok, (negative_offset i _ v Hi E). by eexists. }
  destruct o as [i|i|i|i| | | |]; cbn [legal exec] in *; try done; unfold set_bit, clear_bit, toggle_bit, get_bit; rewrite En, (proj2 (Z.ltb_lt i n)) by lia; cbv zeta.
  1-3: apply (Hk i); lia.
  destruct (aget (field b) (Z.quot i BaseTypeBits)) as [v|f] eqn:E; [| by exists f]. rewrite !bind_Ok, (negative_offset i _ v ltac:(lia) E). by eexists.
Qed.

Lemma run_app malloc0 garbage ops o n X b : (forall k, 0 <= k -> zlen (garbage k) = k) -> 0 <= n <= INT_MAX -> malloc0 = true \/ 0 < n ->
  Forall legal ops -> ~ legal o -> represents n X b -> exists f, run malloc0 garbage (ops ++ [o]) (Some b) = Err f.
Proof.
  intros Hg Hn Hm Hl Ho. revert X b. induction ops as [|o' ops IH]; intros X b H; cbn [app run].
  - destruct (exec_negative malloc0 garbage n X o b Ho (proj1 Hn) H) as (f & ->). by exists f.
  - apply List.Forall_cons_iff in Hl as [Ho' Hl]. destruct (exec_ok malloc0 garbage n Hg Hn Hm o' X b Ho' H) as (b' & -> & R). rewrite !bind_Ok. cbn [fst snd].
    destruct (IH Hl _ b' R) as (f & ->). by exists f.
Qed.

(** C27. A bit field refines a finite set: every sequence of operations with offsets that are not negative on
    a new bit field answers as the set does (offsets from the length on are refused), the number of set bits is its size, and nothing is accessed
    outside the field.  A negative offset, which the comments say is refused as well, is undefined behaviour. *)
Theorem bitfield_refines_set malloc0 garbage n ops : (forall k, 0 <= k -> zlen (garbage k) = k) -> 0 <= n <= INT_MAX ->
  malloc0 = true \/ 0 < n -> Forall legal ops ->
  exists b, create_bitfield malloc0 garbage n = Ok b /\ run malloc0 garbage ops (Some b) = Ok (spec_run n ops ∅) /\
  forall o, ~ legal o -> exists f, run malloc0 garbage (ops ++ [o]) (Some b) = Err f.
Proof.
  intros Hg Hn Hm Hl. destruct (represents_create malloc0 garbage n Hg Hn Hm) as (b & E & H). exists b. split; [done |].
  split; [by apply run_represents |]. intros o Ho. by eapply run_app.
Qed.

Lemma bitfield_refines_set_witness : let ops := [Set_ 9; Set_ 9; Toggle 3; Count; Set_ 10; Get 3; SetAll; Clear 0; Copy; Count; Get 0; Get 12] in
  exists b, create_bitfield false (fun k => replicate (Z.to_nat k) 7) 10 = Ok b /\
  run false (fun k => replicate (Z.to_nat k) 7) ops (Some b) = Ok (spec_run 10 ops ∅) /\
  exists f, run false (fun k => replicate (Z.to_nat k) 7) (ops ++ [Get (-1)]) (Some b) = Err f.
Proof.
  intros ops. destruct (bitfield_refines_set false (fun k => replicate (Z.to_nat k) 7) 10 ops) as (b & H1 & H2 & H3).
  - intros k Hk. rewrite zlen_replicate. lia.
  - unfold INT_MAX. lia.
  - by right.
  - repeat (constructor; [cbn; lia || done |]). constructor.
  - exists b. split; [done |]. split; [done |]. apply H3. cbn. lia.
Defined.

(** Two bit fields of the same length are equal for [bf_equal] and [bf_compare] exactly if
    they stand for the same set; [bf_compare] is antisymmetric. *)
Theorem bitfield_comparisons n X Y b1 b2 : 0 <= n <= INT_MAX -> represents n X b1 -> represents n Y b2 ->
  bf_equal (Some b1) (Some b2) = Ok (if decide (X = Y) then 1 else 0) /\
  exists r, bf_compare (Some b1) (Some b2) = Ok r /\ bf_compare (Some b2) (Some b1) = Ok (- r) /\ (r = 0 <-> X = Y).
Proof.
  intros Hn H1 H2. split; [by apply (bf_equal_ok n) |]. destruct (bf_compare_ok n X Y b1 b2 Hn H1 H2) as (r & ? & ? & ? & _). by exists r.
Qed.

Lemma bitfield_comparisons_witness : exists X Y b1 b2, represents 10 X b1 /\ represents 10 Y b2 /\
  bf_equal (Some b1) (Some b2) = Ok (if decide (X = Y) then 1 else 0) /\
  exists r, bf_compare (Some b1) (Some b2) = Ok r /\ bf_compare (Some b2) (Some b1) = Ok (- r) /\ (r = 0 <-> X = Y).
Proof.
  destruct (represents_create false (fun k => replicate (Z.to_nat k) 7) 10) as (b & E & H).
  { intros k Hk. rewrite zlen_replicate. lia. } { unfold INT_MAX. lia. } { by right. }
  destruct (set_bit_ok 10 ∅ b) with (i := 9) as (b' & _ & H'); [done | done | lia |].
  exists ∅, ({[9]} ∪ ∅), b, b'. split; [done |]. split; [done |]. apply (bitfield_comparisons 10); [unfold INT_MAX; lia | done | done].
Defined.
