(* ===== verification/Ranges.v ===== *)
(** * Query results: the set operations of cqp/ranges.c

    A query result is a list of ranges (pairs of corpus positions), with a target and a
    keyword position for every range if the arrays are there.  A range is marked
    for deletion by the start -1; [RReduce] removes what is marked.  [RangeSetop] changes its
    first argument, which is returned; the two arguments are different objects. *)

From Stdlib Require Import ZArith Lia.
From stdpp Require Import base tactics option list numbers.
From S2P Require Import Prelude.
From S2P Require Import Bitfields.

Open Scope Z_scope.

(** ** Data *)
Inductive CorpusType := UNDEF | SYSTEM | SUB | TEMP | ALL.

#[export] Instance CorpusType_eq_dec : EqDecision CorpusType.
Proof. solve_decision. Defined.

(** The fields [start] and [end]. *)
Record Range := mkRange { rstart : Z; rend : Z }.

#[export] Instance Range_eq_dec : EqDecision Range.
Proof. solve_decision. Defined.

(** What these functions use of a [CorpusList]; [csize] is the field [size]. *)
Record CorpusList := mkCL {
  ctype : CorpusType;
  saved : bool;
  needs_update : bool;
  range : option (list Range);
  csize : Z;
  sortidx : option (list Z);
  targets : option (list Z);
  keywords : option (list Z)
}.

Inductive RangeSetOp :=
| RUnion | RIntersection | RDiff | RMaximalMatches | RMinimalMatches | RLeftMaximalMatches | RNonOverlapping | RUniq | RReduce.

(** cqp/corpmanag.c *)
Definition touch_corpus (cp : CorpusList) : CorpusList :=
  if decide (ctype cp = SUB) then
    mkCL (ctype cp) false true (range cp) (csize cp) (sortidx cp) (targets cp) (keywords cp)
  else cp.

Definition with_range (cp : CorpusList) (l : list Range) : CorpusList :=
  mkCL (ctype cp) (saved cp) (needs_update cp) (Some l) (csize cp) (sortidx cp) (targets cp) (keywords cp).

(** [corpus->range[i]] *)
Definition get_range (cp : CorpusList) (i : Z) : res Range := l ← deref (range cp); aget l i.

Definition set_range (cp : CorpusList) (i : Z) (r : Range) : res CorpusList :=
  l ← deref (range cp); l ← aset l i r; Ok (with_range cp l).

(** [corpus->range[i].start = v] *)
Definition set_start (cp : CorpusList) (i v : Z) : res CorpusList :=
  r ← get_range cp i; set_range cp i (mkRange v (rend r)).

Section Setop.

(** Whether [malloc] and [realloc] return a block for size 0. *)
Context (malloc0 realloc0 : bool).

(** An array of [n] cells is allocated; a negative size is converted to a huge one. *)
Definition check_malloc (n : Z) : res unit :=
  if (n <? 0) || ((n =? 0) && negb malloc0) then Err ExitCall else Ok tt.

(** [realloc] to fewer cells. *)
Definition shrink_to {A} (a : option (list A)) (n : Z) : option (list A) :=
  if n =? 0 then (if realloc0 then Some [] else None) else take (Z.to_nat n) <$> a.

(** [if (a) a = cl_realloc(a, n);] *)
Definition shrink_if {A} (a : option (list A)) (n : Z) : option (list A) :=
  match a with None => None | Some _ => shrink_to a n end.

(** ** Reduce *)

(** [if (a) a[ins] = a[i];] *)
Definition move_cell (a : option (list Z)) (ins i : Z) : res (option (list Z)) :=
  match a with None => Ok None | Some l => v ← aget l i; l ← aset l ins v; Ok (Some l) end.

Definition move_hit (cp : CorpusList) (ins i : Z) : res CorpusList :=
  r ← get_range cp i;
  cp ← set_range cp ins r;
  t ← move_cell (targets cp) ins i;
  k ← move_cell (keywords cp) ins i;
  Ok (mkCL (ctype cp) (saved cp) (needs_update cp) (range cp) (csize cp) (sortidx cp) t k).

Definition reduce_body (i : Z) (st : CorpusList * Z) : res (CorpusList * Z) :=
  let '(cp, ins) := st in
  r ← get_range cp i;
  if (rstart r <? 0) || (rend r <? 0) then Ok st
  else cp ← (if negb (i =? ins) then move_hit cp ins i else Ok cp); Ok (cp, ins + 1).

Definition reduce (cp : CorpusList) : res CorpusList :=
  match range cp with
  | Some _ =>
      if 0 <? csize cp then
        st ← for_up reduce_body 0 (csize cp) (cp, 0);
        let '(cp, ins) := st in
        if negb (ins =? csize cp) then
          Ok (touch_corpus (mkCL (ctype cp) (saved cp) (needs_update cp) (shrink_to (range cp) ins) ins None
                (shrink_if (targets cp) ins) (shrink_if (keywords cp) ins)))
        else Ok cp
      else Ok cp
  | None => Ok cp
  end.

(** ** Union *)

(** The new arrays: the cells that have been written, of [cap]. *)
Record tmp_arrays := mkTmp { tmp : list Range; tmp_target : option (list Z); tmp_keyword : option (list Z) }.

Definition push {A} (cap : Z) (l : list A) (x : A) : res (list A) :=
  if zlen l <? cap then Ok (l ++ [x]) else Err OutOfBounds.

(** [if (dst) dst[ins] = src ? src[j] : -1;] *)
Definition push_cell (cap : Z) (dst : option (list Z)) (src : option (list Z)) (j : Z) : res (option (list Z)) :=
  match dst with
  | None => Ok None
  | Some l => v ← (match src with Some k => aget k j | None => Ok (-1) end); l ← push cap l v; Ok (Some l)
  end.

Definition rs_cp_range (cap : Z) (t : tmp_arrays) (corpus : CorpusList) (j : Z) : res tmp_arrays :=
  r ← get_range corpus j;
  rng ← push cap (tmp t) r;
  target ← push_cell cap (tmp_target t) (targets corpus) j;
  keyword ← push_cell cap (tmp_keyword t) (keywords corpus) j;
  Ok (mkTmp rng target keyword).

(** [restrictor == NULL || get_bit(restrictor, j)] *)
Definition allowed (restrictor : Bitfield) (j : Z) : res bool :=
  match restrictor with None => Ok true | Some _ => b ← get_bit restrictor j; Ok (negb (b =? 0)) end.

Definition count_body (restrictor : Bitfield) (i n : Z) : res Z :=
  b ← get_bit restrictor i; if negb (b =? 0) then c_int (n + 1) else Ok n.

Definition intervals_to_copy (restrictor : Bitfield) (corpus2 : CorpusList) : res Z :=
  match restrictor with
  | Some _ => for_up (count_body restrictor) 0 (csize corpus2) 0
  | None => Ok (csize corpus2)
  end.

(** Copying an item of the second list. *)
Definition copy_second (cap : Z) (corpus2 : CorpusList) (restrictor : Bitfield) (t : tmp_arrays) (j : Z) : res tmp_arrays :=
  a ← allowed restrictor j; if (a : bool) then rs_cp_range cap t corpus2 j else Ok t.

Definition union_round (corpus1 corpus2 : CorpusList) (restrictor : Bitfield) (cap : Z) (st : tmp_arrays * Z * Z)
  : res (tmp_arrays * Z * Z + tmp_arrays) :=
  let '(t, i, j) := st in
  let first := t ← rs_cp_range cap t corpus1 i; Ok (inl (t, i + 1, j)) in
  let second := t ← copy_second cap corpus2 restrictor t j; Ok (inl (t, i, j + 1)) in
  if negb ((i <? csize corpus1) || (j <? csize corpus2)) then Ok (inr t)
  else if csize corpus2 <=? j then first
  else if csize corpus1 <=? i then second
  else
    x ← get_range corpus1 i;
    y ← get_range corpus2 j;
    if rstart x <? rstart y then first
    else if rstart y <? rstart x then second
    else if rend x =? rend y then t ← rs_cp_range cap t corpus1 i; Ok (inl (t, i + 1, j + 1))
    else if rend x <? rend y then first
    else second.

(** An array that is allocated if one of the lists has it. *)
Definition new_array (a b : option (list Z)) (n : Z) : res (option (list Z)) :=
  match a, b with None, None => Ok None | _, _ => _ ← check_malloc n; Ok (Some []) end.

Definition setop_union (corpus1 : CorpusList) (corpus2 : option CorpusList) (restrictor : Bitfield) : res CorpusList :=
  match corpus2 with
  | None => Ok corpus1
  | Some corpus2 =>
      if csize corpus2 =? 0 then Ok corpus1
      else
        n ← intervals_to_copy restrictor corpus2;
        tmp_size ← c_int (csize corpus1 + n);
        _ ← check_malloc tmp_size;
        tt ← new_array (targets corpus1) (targets corpus2) tmp_size;
        tk ← new_array (keywords corpus1) (keywords corpus2) tmp_size;
        t ← loop (union_round corpus1 corpus2 restrictor tmp_size) fuel (mkTmp [] tt tk, 0, 0);
        let ins := zlen (tmp t) in
        _ ← c_assert (ins <=? tmp_size);
        let t := if ins <? tmp_size
                 then (shrink_to (Some (tmp t)) ins, shrink_if (tmp_target t) ins, shrink_if (tmp_keyword t) ins)
                 else (Some (tmp t), tmp_target t, tmp_keyword t) in
        Ok (touch_corpus (mkCL (ctype corpus1) (saved corpus1) (needs_update corpus1) t.1.1 ins (sortidx corpus1) t.1.2 t.2))
  end.

(** ** Intersection and difference *)

(** One round of the loops over both lists: [drop_smaller] for Intersection, where what is
    only in the first list is marked, [false] for Difference, where what is in both is. *)
Definition both_round (drop_smaller : bool) (corpus2 : option CorpusList) (st : CorpusList * Z * Z)
  : res (CorpusList * Z * Z + CorpusList * Z) :=
  let '(cp, i, j) := st in
  if i <? csize cp then
    c2 ← deref corpus2;
    if j <? csize c2 then
      x ← get_range cp i;
      y ← get_range c2 j;
      let smaller := cp ← (if drop_smaller then set_start cp i (-1) else Ok cp); Ok (inl (cp, i + 1, j)) in
      if rstart x <? rstart y then smaller
      else if rstart y <? rstart x then Ok (inl (cp, i, j + 1))
      else if rend x =? rend y then
        cp ← (if drop_smaller then Ok cp else set_start cp i (-1)); Ok (inl (cp, i + 1, j + 1))
      else if rend x <? rend y then smaller
      else Ok (inl (cp, i, j + 1))
    else Ok (inr (cp, i))
  else Ok (inr (cp, i)).

Definition mark_round (st : CorpusList * Z) : res (CorpusList * Z + CorpusList) :=
  let '(cp, i) := st in
  if i <? csize cp then cp ← set_start cp i (-1); Ok (inl (cp, i + 1)) else Ok (inr cp).

Definition setop_intersection (corpus1 : CorpusList) (corpus2 : option CorpusList) : res CorpusList :=
  r ← loop (both_round true corpus2) fuel (corpus1, 0, 0);
  cp ← loop mark_round fuel r;
  cp ← reduce cp;
  Ok (touch_corpus cp).

Definition setop_diff (corpus1 : CorpusList) (corpus2 : option CorpusList) : res CorpusList :=
  r ← loop (both_round false corpus2) fuel (corpus1, 0, 0);
  cp ← reduce r.1;
  Ok (touch_corpus cp).

(** ** Operations on one list *)

(** [for (i = 0; i < corpus1->size; i++) if (corpus1->range[i].start != -1) ...]: the inner
    loop starts behind [i]. *)
Definition scan_body (round : Z -> Z -> CorpusList * Z -> res (CorpusList * Z + CorpusList)) (i : Z) (cp : CorpusList) : res CorpusList :=
  r ← get_range cp i;
  if rstart r =? -1 then Ok cp else loop (round i (rstart r)) fuel (cp, i + 1).

Definition scan (round : Z -> Z -> CorpusList * Z -> res (CorpusList * Z + CorpusList)) (cp : CorpusList) : res CorpusList :=
  for_up (scan_body round) 0 (csize cp) cp.

(** The inner loops; [start] is the start of the range [i] before the loop. *)
Definition minimal_round (i start : Z) (st : CorpusList * Z) : res (CorpusList * Z + CorpusList) :=
  let '(cp, j) := st in
  if j <? csize cp then
    y ← get_range cp j; x ← get_range cp i;
    if rstart y <=? rend x then
      if rend y <=? rend x then cp ← set_start cp i (-1); Ok (inr cp)
      else cp ← (if start =? rstart y then set_start cp j (-1) else Ok cp); Ok (inl (cp, j + 1))
    else Ok (inr cp)
  else Ok (inr cp).

Definition maximal_round (i start : Z) (st : CorpusList * Z) : res (CorpusList * Z + CorpusList) :=
  let '(cp, j) := st in
  if j <? csize cp then
    y ← get_range cp j; x ← get_range cp i;
    if rstart y <=? rend x then
      cp ← (if rend y <=? rend x then set_start cp j (-1)
            else if start =? rstart y then set_start cp i (-1) else Ok cp);
      Ok (inl (cp, j + 1))
    else Ok (inr cp)
  else Ok (inr cp).

Definition same_start_round (i start : Z) (st : CorpusList * Z) : res (CorpusList * Z + CorpusList) :=
  let '(cp, j) := st in
  if j <? csize cp then
    y ← get_range cp j; x ← get_range cp i;
    if rstart y =? rstart x then cp ← set_start cp j (-1); Ok (inl (cp, j + 1)) else Ok (inr cp)
  else Ok (inr cp).

Definition same_end_round (i start : Z) (st : CorpusList * Z) : res (CorpusList * Z + CorpusList) :=
  let '(cp, j) := st in
  if j <? csize cp then
    y ← get_range cp j; x ← get_range cp i;
    if rstart y <=? rend x then
      cp ← (if rend y =? rend x then set_start cp j (-1) else Ok cp); Ok (inl (cp, j + 1))
    else Ok (inr cp)
  else Ok (inr cp).

Definition overlap_round (i start : Z) (st : CorpusList * Z) : res (CorpusList * Z + CorpusList) :=
  let '(cp, j) := st in
  if j <? csize cp then
    y ← get_range cp j; x ← get_range cp i;
    if rstart y <=? rend x then cp ← set_start cp j (-1); Ok (inl (cp, j + 1)) else Ok (inr cp)
  else Ok (inr cp).

Definition equal_range_round (i start : Z) (st : CorpusList * Z) : res (CorpusList * Z + CorpusList) :=
  let '(cp, j) := st in
  if j <? csize cp then
    x ← get_range cp i; y ← get_range cp j;
    if (rstart x =? rstart y) && (rend x =? rend y) then cp ← set_start cp j (-1); Ok (inl (cp, j + 1))
    else Ok (inr cp)
  else Ok (inr cp).

(** A scan, and what it has marked is removed. *)
Definition scan_reduce (round : Z -> Z -> CorpusList * Z -> res (CorpusList * Z + CorpusList)) (cp : CorpusList) : res CorpusList :=
  cp ← scan round cp; reduce cp.

Definition RangeSetop (corpus1 : CorpusList) (operation : RangeSetOp) (corpus2 : option CorpusList) (restrictor : Bitfield)
  : res (CorpusList * Z) :=
  cp ← match operation with
       | RUnion => setop_union corpus1 corpus2 restrictor
       | RIntersection => setop_intersection corpus1 corpus2
       | RDiff => setop_diff corpus1 corpus2
       | RMinimalMatches => cp ← scan_reduce minimal_round corpus1; Ok (touch_corpus cp)
       | RMaximalMatches => cp ← scan_reduce maximal_round corpus1; Ok (touch_corpus cp)
       | RLeftMaximalMatches =>
           cp ← scan_reduce same_start_round corpus1; cp ← scan_reduce same_end_round cp; Ok (touch_corpus cp)
       | RNonOverlapping => cp ← scan_reduce overlap_round corpus1; Ok (touch_corpus cp)
       | RUniq => cp ← scan_reduce equal_range_round corpus1; Ok (touch_corpus cp)
       | RReduce => reduce corpus1
       end;
  Ok (cp, 1).

End Setop.
