(* ===== verification/RangesMatch.v ===== *)
(** * Matching strategies: the operations of [RangeSetop] on one list

    The evaluation of a query finds too many matches; the strategies of CQP choose some of
    them.  [mark D l]: the ranges of [l] with the indices in [D] marked for deletion; [keep D]: the
    entries of a list that are not in [D].  [reduce_marked]: what [RReduce] leaves of a
    marked list.  [scan_rule]: the rule for the nested loops of cqp/ranges.c.
    [dominated]: when a scan leaves exactly the ranges that no other one is better than.
    [block_scan], [fair_scan]: the nested loops of these operations, in terms of a
    relation between the ranges.  [matching_strategies]: what each operation leaves. *)

From Stdlib Require Import ZArith Lia Sorted.
From stdpp Require Import base tactics option list numbers gmap.
From S2P Require Import Prelude.
From S2P Require Import Bitfields.
From S2P Require Import Ranges.

Open Scope Z_scope.

(** ** Well-formed query results *)

Definition ranges (cp : CorpusList) : list Range := default [] (range cp).

(** A range with its target and keyword. *)
Abbreviation hit := (Range * option Z * option Z)%type.

Definition hits (cp : CorpusList) : list hit :=
  imap (fun i r => (r, targets cp ≫= (.!! i), keywords cp ≫= (.!! i))) (ranges cp).

Record wf (cp : CorpusList) : Prop := {
  wf_size : csize cp = zlen (ranges cp);
  wf_int : csize cp <= INT_MAX;
  wf_targets : forall l, targets cp = Some l -> zlen l = csize cp;
  wf_keywords : forall l, keywords cp = Some l -> zlen l = csize cp;
  wf_pos : Forall (fun r => 0 <= rstart r <= rend r) (ranges cp)
}.

Lemma hits_ranges cp : (hits cp).*1.*1 = ranges cp.
Proof.
  unfold hits. generalize (ranges cp) (targets cp) (keywords cp). intros l t k. apply list_eq. intros i.
  rewrite !list_lookup_fmap, list_lookup_imap. by destruct (l !! i).
Qed.

Lemma zlen_hits cp : zlen (hits cp) = zlen (ranges cp).
Proof. unfold zlen, hits. by rewrite length_imap. Qed.

Lemma touch_ctype cp : ctype (touch_corpus cp) = ctype cp.
Proof. unfold touch_corpus. by case_decide. Qed.

Lemma touch_hits cp : hits (touch_corpus cp) = hits cp.
Proof. unfold touch_corpus. by case_decide. Qed.

Lemma touch_wf cp : wf cp -> wf (touch_corpus cp).
Proof. intros [? ? ? ? ?]. unfold touch_corpus. case_decide; by split. Qed.

(** ** Marks *)
Definition dead (r : Range) : Range := mkRange (-1) (rend r).

Definition mark (D : gset Z) (l : list Range) : list Range :=
  imap (fun i r => if decide (Z.of_nat i ∈ D) then dead r else r) l.

Lemma mark_empty l : mark ∅ l = l.
Proof.
  apply list_eq. intros i. unfold mark. rewrite list_lookup_imap. destruct (l !! i) as [r|]; [| done]. cbn. by rewrite decide_False by set_solver.
Qed.

Lemma zlen_mark D l : zlen (mark D l) = zlen l.
Proof. unfold zlen, mark. by rewrite length_imap. Qed.

Lemma aget_mark D l i r : aget l i = Ok r -> aget (mark D l) i = Ok (if decide (i ∈ D) then dead r else r).
Proof.
  intros [Hi Hr]%aget_Ok. apply aget_lookup; [done |]. unfold mark. rewrite list_lookup_imap, Hr. cbn. by rewrite Z2Nat.id.
Qed.

Lemma mark_insert D l i r : aget l i = Ok r -> <[Z.to_nat i := dead r]> (mark D l) = mark ({[i]} ∪ D) l.
Proof.
  intros [Hi Hr]%aget_Ok. apply list_eq. intros k. unfold mark. destruct (decide (k = Z.to_nat i)) as [->|Hne].
  - rewrite list_lookup_insert_eq by (rewrite length_imap; by apply lookup_lt_Some in Hr). rewrite list_lookup_imap, Hr. cbn.
    by rewrite decide_True by (rewrite Z2Nat.id by done; set_solver).
  - rewrite list_lookup_insert_ne, !list_lookup_imap by done. destruct (l !! k) as [x|]; [| done]. cbn. f_equal.
    apply decide_ext. set_unfold. split; [by right | intros [E|?]; [lia | done]].
Qed.

(** The list of a query result with the indices [D] marked. *)
Definition marked (cp : CorpusList) (D : gset Z) : CorpusList := with_range cp (mark D (ranges cp)).

Section Marked.
Context (cp : CorpusList).

Lemma get_marked D i r : aget (ranges cp) i = Ok r -> get_range (marked cp D) i = Ok (if decide (i ∈ D) then dead r else r).
Proof. intros H. unfold get_range, marked, with_range. cbn. res_cbn. by apply aget_mark. Qed.

Lemma set_marked D i r : aget (ranges cp) i = Ok r -> set_start (marked cp D) i (-1) = Ok (marked cp ({[i]} ∪ D)).
Proof.
  intros H. unfold set_start. rewrite (get_marked D i r H). res_cbn. unfold set_range, marked, with_range. cbn. res_cbn.
  assert (0 <= i < zlen (mark D (ranges cp))) as Hi by (rewrite zlen_mark; apply aget_Ok in H as [? H]; apply lookup_lt_Some in H; unfold zlen; lia).
  rewrite (aset_Ok _ _ _ Hi). res_cbn. rewrite <- (mark_insert D _ i r H). do 4 f_equal. by case_decide.
Qed.
End Marked.

(** ** What is kept *)
Fixpoint keep_from {A} (i : Z) (D : gset Z) (l : list A) : list A :=
  match l with [] => [] | x :: l => if decide (i ∈ D) then keep_from (i + 1) D l else x :: keep_from (i + 1) D l end.

Definition keep {A} (D : gset Z) (l : list A) : list A := keep_from 0 D l.

Lemma keep_from_app {A} (l k : list A) i D : keep_from i D (l ++ k) = keep_from i D l ++ keep_from (i + zlen l) D k.
Proof.
  revert i. induction l as [|x l IH]; intros i; cbn [keep_from app]; [by rewrite Z.add_0_r |]. rewrite IH, zlen_cons.
  replace (i + 1 + zlen l) with (i + (1 + zlen l)) by lia. by case_decide.
Qed.

Lemma keep_snoc {A} (l : list A) x D : keep D (l ++ [x]) = keep D l ++ (if decide (zlen l ∈ D) then [] else [x]).
Proof. unfold keep. rewrite keep_from_app, Z.add_0_l. cbn. by case_decide. Qed.

Lemma keep_sublist {A} (l : list A) i D : keep_from i D l `sublist_of` l.
Proof. revert i. induction l as [|x l IH]; intros i; cbn; [constructor |]. case_decide; [by apply sublist_cons | by constructor]. Qed.

Lemma keep_fmap {A B} (f : A -> B) l i D : keep_from i D (f <$> l) = f <$> keep_from i D l.
Proof. revert i. induction l as [|x l IH]; intros i; cbn; [done |]. case_decide; [apply IH | by rewrite fmap_cons, IH]. Qed.

Lemma succ_shift i k : i + Z.of_nat (S k) = i + 1 + Z.of_nat k.
Proof. lia. Qed.

Lemma elem_of_keep_from {A} (l : list A) D x i : x ∈ keep_from i D l <-> exists k : nat, l !! k = Some x /\ i + Z.of_nat k ∉ D.
Proof.
  revert i. induction l as [|y l IH]; intros i; cbn.
  - rewrite elem_of_nil. split; [done | by intros (k & H & _)].
  - assert ((exists k : nat, (y :: l) !! k = Some x /\ i + Z.of_nat k ∉ D) <-> (y = x /\ i ∉ D) \/ x ∈ keep_from (i + 1) D l) as ->.
    + rewrite IH. split.
      * intros ([|k] & H & Hd); [left; split; [by injection H | by rewrite Z.add_0_r in Hd] | right; exists k; split; [done |]].
        by rewrite <- succ_shift.
      * intros [[-> Hd]|(k & H & Hd)]; [exists 0%nat; by rewrite Z.add_0_r | exists (S k); split; [done |]]. by rewrite succ_shift.
    + case_decide as Hd; [naive_solver |]. rewrite elem_of_cons. naive_solver.
Qed.

Lemma elem_of_keep {A} (l : list A) D x : x ∈ keep D l <-> exists i, aget l i = Ok x /\ i ∉ D.
Proof.
  unfold keep. rewrite elem_of_keep_from. split.
  - intros (k & E & Hd). exists (Z.of_nat k). split; [by apply aget_nat | done].
  - intros (i & [Hi E]%aget_Ok & Hd). exists (Z.to_nat i). split; [done |]. by rewrite Z.add_0_l, Z2Nat.id.
Qed.

Lemma keep_length {A B} (l : list A) (k : list B) D : length l = length k -> length (keep D l) = length (keep D k).
Proof.
  intros H. unfold keep. generalize 0. revert k H. induction l as [|x l IH]; intros [|y k] H i; try done. injection H as H. cbn.
  case_decide; cbn; [by apply IH | f_equal; by apply IH].
Qed.

Lemma keep_le {A} (l : list A) D : zlen (keep D l) <= zlen l.
Proof. unfold zlen. apply inj_le, sublist_length, keep_sublist. Qed.

(** ** [RReduce]

    The array [a] after [i] rounds: what is kept of the first [i] entries, then the old cells. *)
Definition compact {A} (D : gset Z) (i : nat) (a : list A) : list A := keep D (take i a) ++ drop (length (keep D (take i a))) a.

Section Compact.
Context {A : Type} (D : gset Z) (a : list A) (i : nat) (x : A).
Hypothesis (Hx : a !! i = Some x).

Lemma take_snoc : take (S i) a = take i a ++ [x].
Proof. by apply take_S_r. Qed.

Lemma taken : length (take i a) = i.
Proof. apply lookup_lt_Some in Hx. rewrite length_take. lia. Qed.

Lemma zlen_taken : zlen (take i a) = Z.of_nat i.
Proof. unfold zlen. by rewrite taken. Qed.

Lemma compact_skip : Z.of_nat i ∈ D -> compact D (S i) a = compact D i a.
Proof. intros Hd. unfold compact. rewrite take_snoc, keep_snoc. rewrite zlen_taken, decide_True by done. by rewrite app_nil_r. Qed.

Lemma compact_get : aget (compact D i a) (Z.of_nat i) = Ok x.
Proof.
  apply aget_nat. unfold compact. set (k := keep D (take i a)). assert (length k <= i)%nat as Hk by (rewrite <- taken; apply sublist_length, keep_sublist).
  rewrite lookup_app_r, lookup_drop by done. by replace (length k + (i - length k))%nat with i by lia.
Qed.

Lemma compact_set : Z.of_nat i ∉ D -> aset (compact D i a) (zlen (keep D (take i a))) x = Ok (compact D (S i) a).
Proof.
  intros Hd. unfold compact. rewrite take_snoc, keep_snoc. rewrite zlen_taken, decide_False by done.
  set (k := keep D (take i a)). assert (length k <= i)%nat as Hk by (rewrite <- taken; apply sublist_length, keep_sublist).
  pose proof (lookup_lt_Some _ _ _ Hx) as Hl. destruct (drop (length k) a) as [|y t] eqn:E.
  { apply (f_equal length) in E. rewrite length_drop in E. cbn in E. lia. }
  rewrite (aset_middle k t y x) by done. f_equal. rewrite <- app_assoc. cbn. do 2 f_equal.
  rewrite length_app. transitivity (drop 1 (drop (length k) a)); [by rewrite E | by rewrite drop_drop].
Qed.

Lemma compact_same : Z.of_nat i ∉ D -> zlen (keep D (take i a)) = Z.of_nat i -> compact D (S i) a = compact D i a.
Proof.
  intros Hd E. pose proof (compact_set Hd) as H. rewrite E in H. apply aset_Ok_inv in H as [Hr ->].
  rewrite Nat2Z.id. apply list_insert_id. pose proof compact_get as [_ G]%aget_Ok. by rewrite Nat2Z.id in G.
Qed.
End Compact.

Definition live (D : gset Z) (i : Z) : bool := negb (bool_decide (i ∈ D)).

Section Reduce.
Context (malloc0 realloc0 : bool) (cp : CorpusList) (D : gset Z).
Hypothesis (W : wf cp).

(** The list after [i] rounds. *)
Definition reduced (i : nat) : CorpusList :=
  mkCL (ctype cp) (saved cp) (needs_update cp) (Some (compact D i (mark D (ranges cp)))) (csize cp) (sortidx cp)
    (compact D i <$> targets cp) (compact D i <$> keywords cp).

Definition kept (i : nat) : Z := zlen (keep D (take i (ranges cp))).

Lemma kept_same {A} (a : list A) i : zlen a = csize cp -> zlen (keep D (take i a)) = kept i.
Proof.
  intros E. unfold kept, zlen. f_equal. apply keep_length. rewrite !length_take. rewrite (wf_size _ W) in E. unfold zlen in E. lia.
Qed.

Lemma move_cell_ok (o : option (list Z)) i : (forall l, o = Some l -> zlen l = csize cp) -> Z.of_nat i < csize cp -> Z.of_nat i ∉ D ->
  move_cell (compact D i <$> o) (kept i) (Z.of_nat i) = Ok (compact D (S i) <$> o).
Proof.
  intros Ho Hi Hd. destruct o as [l|]; [| done]. specialize (Ho l eq_refl). cbn.
  destruct (lookup_lt_is_Some_2 l i) as [x Hx]; [unfold zlen in Ho; lia |].
  rewrite (compact_get D l i x Hx). res_cbn. rewrite <- (kept_same l i Ho), (compact_set D l i x Hx Hd). by res_cbn.
Qed.

Lemma cell_at {A} (a : list A) i : zlen a = csize cp -> Z.of_nat i < csize cp -> exists x, a !! i = Some x.
Proof. intros L Hi. apply lookup_lt_is_Some_2. unfold zlen in L. lia. Qed.

(** Nothing moves. *)
Lemma reduced_same i : (forall A (a : list A), zlen a = csize cp -> compact D (S i) a = compact D i a) -> reduced (S i) = reduced i.
Proof.
  intros H. unfold reduced. rewrite H by (by rewrite zlen_mark, (wf_size _ W)). f_equal.
  - destruct (targets cp) as [l|] eqn:E; [| done]. cbn. by rewrite H by (by apply (wf_targets _ W)).
  - destruct (keywords cp) as [l|] eqn:E; [| done]. cbn. by rewrite H by (by apply (wf_keywords _ W)).
Qed.

Lemma reduce_step i : Z.of_nat i < csize cp -> reduce_body (Z.of_nat i) (reduced i, kept i) = Ok (reduced (S i), kept (S i)).
Proof.
  intros Hi. destruct (lookup_lt_is_Some_2 (ranges cp) i) as [r Hr]; [rewrite (wf_size _ W) in Hi; unfold zlen in Hi; lia |].
  pose proof (aget_mark D (ranges cp) (Z.of_nat i) r (aget_nat _ _ _ Hr)) as [_ Hm]%aget_Ok. rewrite Nat2Z.id in Hm.
  assert (zlen (mark D (ranges cp)) = csize cp) as Lm by (by rewrite zlen_mark, (wf_size _ W)).
  pose proof (wf_pos _ W) as Hp. rewrite list.Forall_forall in Hp. specialize (Hp r (list_elem_of_lookup_2 _ _ _ Hr)).
  unfold reduce_body, get_range. cbn [range reduced]. res_cbn. rewrite (compact_get D _ i _ Hm). res_cbn.
  assert (kept (S i) = kept i + if decide (Z.of_nat i ∈ D) then 0 else 1) as Ek.
  { unfold kept. rewrite (take_snoc _ i r Hr), keep_snoc, zlen_app, (zlen_taken _ i r Hr). by case_decide. }
  rewrite Ek. case_decide as Hd.
  - cbn [rstart dead]. change (-1 <? 0) with true. cbn [orb]. rewrite Z.add_0_r, reduced_same; [done |].
    intros A a L. destruct (cell_at a i L Hi) as [x Hx]. by apply (compact_skip D a i x).
  - rewrite !(proj2 (Z.ltb_ge _ _)) by lia. cbn [orb]. destruct (Z.eqb_spec (Z.of_nat i) (kept i)) as [E|E]; cbn [negb].
    + res_cbn. rewrite reduced_same; [done |]. intros A a L. destruct (cell_at a i L Hi) as [x Hx].
      apply (compact_same D a i x Hx Hd). by rewrite kept_same.
    + unfold move_hit, get_range, set_range. cbn [range reduced]. res_cbn. rewrite (compact_get D _ i _ Hm). res_cbn.
      rewrite <- (kept_same (mark D (ranges cp)) i Lm), (compact_set D _ i _ Hm Hd), kept_same by done. res_cbn. unfold with_range.
      cbn [range ctype saved needs_update csize sortidx targets keywords reduced].
      rewrite (move_cell_ok _ i (wf_targets _ W) Hi Hd), (move_cell_ok _ i (wf_keywords _ W) Hi Hd). by res_cbn.
Qed.
Lemma compact_0 {A} (a : list A) : compact D 0 a = a.
Proof. done. Qed.

Lemma compact_all {A} (a : list A) n : length a = n -> compact D n a = keep D a ++ drop (length (keep D a)) a.
Proof. intros <-. unfold compact. by rewrite firstn_all. Qed.

(** What an array looks like after it has shrunk. *)
Lemma shrunk {A} (a : list A) k : zlen (keep D a) = k -> k <> 0 ->
  shrink_to realloc0 (Some (keep D a ++ drop (length (keep D a)) a)) k = Some (keep D a).
Proof.
  intros <- Hk. unfold shrink_to. rewrite (proj2 (Z.eqb_neq _ _)) by done. cbn. f_equal.
  unfold zlen. by rewrite Nat2Z.id, take_app_length.
Qed.

Lemma kept_all {A} (a : list A) : zlen a = csize cp -> zlen (keep D a) = kept (Z.to_nat (csize cp)).
Proof. intros E. rewrite <- (kept_same a) by done. do 2 f_equal. unfold zlen in E. rewrite firstn_all2; [done | lia]. Qed.

Lemma mark_keep : keep D (mark D (ranges cp)) = keep D (ranges cp).
Proof.
  unfold keep, mark. assert (forall i (l : list Range) k, (forall j, Z.of_nat j + i = Z.of_nat (k j)) ->
    keep_from i D (imap (fun j r => if decide (Z.of_nat (k j) ∈ D) then dead r else r) l) = keep_from i D l) as H.
  { intros i l. revert i. induction l as [|r l IH]; intros i k Hk; [done |]. cbn. rewrite <- (Hk 0%nat), Z.add_0_l.
    unfold compose. rewrite (IH (i + 1) (fun j => k (S j))) by (intros j; rewrite <- Hk; lia). by case_decide. }
  apply (H 0 _ (fun j => j)). lia.
Qed.

(** A column of the rows. *)
Lemma keep_column (o : option (list Z)) (f : hit -> option Z) : (forall l, o = Some l -> zlen l = csize cp) ->
  (forall (i : nat) h, hits cp !! i = Some h -> f h = o ≫= (.!! i)) ->
  forall (i : nat) h, keep D (hits cp) !! i = Some h -> f h = (keep D <$> o) ≫= (.!! i).
Proof.
  intros Ho Hf i h Hh. assert ((f <$> keep D (hits cp)) !! i = Some (f h)) as H by (by rewrite list_lookup_fmap, Hh).
  unfold keep in H. rewrite <- keep_fmap in H. destruct o as [l|].
  - assert (f <$> hits cp = Some <$> l) as E.
    { apply list_eq_same_length with (length l); [by rewrite length_fmap | rewrite length_fmap; pose proof (zlen_hits cp) as Z1; pose proof (wf_size _ W);
        specialize (Ho l eq_refl); unfold zlen in *; lia |].
      intros k x y _ Hx Hy. rewrite list_lookup_fmap in Hx. rewrite list_lookup_fmap in Hy. destruct (hits cp !! k) as [g|] eqn:G; [| done]. injection Hx as <-.
      rewrite (Hf k g G). cbn. destruct (l !! k); [by injection Hy as <- | done]. }
    rewrite E, keep_fmap, list_lookup_fmap in H. cbn. unfold keep. destruct (keep_from 0 D l !! i); [by injection H as <- | done].
  - cbn. assert (f h ∈ keep_from 0 D (f <$> hits cp)) as Hin by (by apply list_elem_of_lookup_2 in H).
    apply elem_of_keep in Hin as (k & [Hk Ek]%aget_Ok & _). rewrite list_lookup_fmap in Ek.
    destruct (hits cp !! Z.to_nat k) as [g|] eqn:G; [| done]. injection Ek as <-. by rewrite (Hf _ g G).
Qed.

Lemma keep_hits cp' : ranges cp' = keep D (ranges cp) -> targets cp' = keep D <$> targets cp -> keywords cp' = keep D <$> keywords cp ->
  hits cp' = keep D (hits cp).
Proof.
  intros Er Et Ek. assert ((keep D (hits cp)).*1.*1 = ranges cp') as E by (unfold keep in *; by rewrite Er, <- !keep_fmap, hits_ranges).
  assert (forall i h, hits cp !! i = Some h -> h = (h.1.1, targets cp ≫= (.!! i), keywords cp ≫= (.!! i))) as Hrow.
  { intros i h Hh. unfold hits in Hh. rewrite list_lookup_imap in Hh. destruct (ranges cp !! i); [by injection Hh as <- | done]. }
  apply list_eq_same_length with (length (keep D (hits cp))); [done | pose proof (f_equal length E) as L; rewrite !length_fmap in L; unfold hits at 1; by rewrite length_imap |].
  intros i x y _ Hx Hy. unfold hits in Hx. rewrite list_lookup_imap, <- E, !list_lookup_fmap, Hy in Hx. injection Hx as <-.
  rewrite Et, Ek. rewrite <- (keep_column (targets cp) (fun h => h.1.2) (wf_targets _ W)) with (i := i) (h := y); [| | done].
  - rewrite <- (keep_column (keywords cp) snd (wf_keywords _ W)) with (i := i) (h := y); [by destruct y as [[? ?] ?] | | done].
    intros k h Hh. by rewrite (Hrow k h Hh).
  - intros k h Hh. by rewrite (Hrow k h Hh).
Qed.

Lemma keep_wf cp' : ranges cp' = keep D (ranges cp) -> csize cp' = zlen (ranges cp') -> targets cp' = keep D <$> targets cp ->
  keywords cp' = keep D <$> keywords cp -> wf cp'.
Proof.
  intros Er Ec Et Ek. assert (forall o : option (list Z), (forall l, o = Some l -> zlen l = csize cp) -> forall l, keep D <$> o = Some l -> zlen l = csize cp') as Hcol.
  { intros o Ho l El. destruct o as [k|]; [| done]. injection El as <-. rewrite (kept_all k) by auto. rewrite Ec, Er. symmetry. apply kept_all. by rewrite (wf_size _ W). }
  split; [done | | rewrite Et; apply Hcol, W | rewrite Ek; apply Hcol, W |].
  - rewrite Ec, Er. pose proof (keep_le (ranges cp) D). pose proof (wf_int _ W). pose proof (wf_size _ W). lia.
  - rewrite Er. apply list.Forall_forall. intros r Hr. pose proof (wf_pos _ W) as Hp. rewrite list.Forall_forall in Hp. apply Hp.
    apply elem_of_keep in Hr as (i & [_ Hi]%aget_Ok & _). by apply list_elem_of_lookup_2 in Hi.
Qed.
Let n := Z.to_nat (csize cp).

Lemma kept_n : kept n = zlen (keep D (ranges cp)).
Proof. symmetry. apply kept_all. by rewrite (wf_size _ W). Qed.

Lemma compact_n {A} (a : list A) : zlen a = csize cp -> compact D n a = keep D a ++ drop (length (keep D a)) a.
Proof. intros La. apply compact_all. unfold n, zlen in *. lia. Qed.

Lemma marked_len : zlen (mark D (ranges cp)) = csize cp.
Proof. by rewrite zlen_mark, (wf_size _ W). Qed.

(** Nothing is removed. *)
Lemma reduced_full : kept n = csize cp -> wf (reduced n) /\ hits (reduced n) = keep D (hits cp).
Proof.
  intros Ec. assert (forall A (a : list A), zlen a = csize cp -> compact D n a = keep D a) as Hfull.
  { intros A a La. rewrite (compact_n a La), drop_ge, app_nil_r; [done |]. pose proof (kept_all a La) as Hk. fold n in Hk. unfold zlen in *. lia. }
  assert (forall o : option (list Z), (forall l, o = Some l -> zlen l = csize cp) -> compact D n <$> o = keep D <$> o) as Hcol.
  { intros [l|] Ho; [| done]. cbn. by rewrite Hfull by auto. }
  assert (ranges (reduced n) = keep D (ranges cp)) as Er by (unfold ranges at 1; cbn; by rewrite Hfull, mark_keep by apply marked_len).
  assert (targets (reduced n) = keep D <$> targets cp) as Et by (apply Hcol, W).
  assert (keywords (reduced n) = keep D <$> keywords cp) as Ew by (apply Hcol, W).
  split; [apply keep_wf; try done; rewrite Er, <- kept_n; by cbn | by apply keep_hits].
Qed.

(** The arrays shrink. *)
Definition shrunk_list : CorpusList :=
  mkCL (ctype cp) (saved cp) (needs_update cp) (shrink_to realloc0 (range (reduced n)) (kept n)) (kept n) None
    (shrink_if realloc0 (targets (reduced n)) (kept n)) (shrink_if realloc0 (keywords (reduced n)) (kept n)).

Lemma shrunk_empty : kept n = 0 -> wf shrunk_list /\ hits shrunk_list = keep D (hits cp).
Proof.
  intros Ez. pose proof kept_n as Ek.
  assert (keep D (ranges cp) = []) as E0 by (rewrite Ez in Ek; destruct (keep D (ranges cp)) as [|x l]; [done | rewrite zlen_cons in Ek; pose proof (zlen_nonneg l); lia]).
  assert (ranges shrunk_list = []) as Er.
  { unfold shrunk_list, ranges, shrink_to. cbn. rewrite (proj2 (Z.eqb_eq _ _)) by done. by destruct realloc0. }
  assert (forall (o : option (list Z)) l, shrink_if realloc0 (compact D n <$> o) (kept n) = Some l -> l = []) as Hs.
  { intros [k|] l; [| done]. cbn. unfold shrink_to. rewrite Ez. cbn. destruct realloc0; [by intros [= <-] | done]. }
  split.
  - split; cbn [csize shrunk_list].
    + by rewrite Ez, Er.
    + unfold INT_MAX. lia.
    + intros l ->%Hs. by rewrite Ez.
    + intros l ->%Hs. by rewrite Ez.
    + rewrite Er. constructor.
  - assert (hits shrunk_list = []) as -> by (unfold hits; by rewrite Er).
    assert (length (keep D (hits cp)) = length (keep D (ranges cp))) as L by (apply keep_length; pose proof (zlen_hits cp); unfold zlen in *; lia).
    rewrite E0 in L. by destruct (keep D (hits cp)).
Qed.

Lemma shrunk_some : kept n <> 0 -> wf shrunk_list /\ hits shrunk_list = keep D (hits cp).
Proof.
  intros Ez. assert (forall A (a : list A), zlen a = csize cp -> shrink_to realloc0 (Some (compact D n a)) (kept n) = Some (keep D a)) as Hs.
  { intros A a La. rewrite (compact_n a La). apply shrunk; [| done]. by rewrite (kept_all a La). }
  assert (forall o : option (list Z), (forall l, o = Some l -> zlen l = csize cp) -> shrink_if realloc0 (compact D n <$> o) (kept n) = keep D <$> o) as Hcol.
  { intros [l|] Ho; [| done]. change (shrink_to realloc0 (Some (compact D n l)) (kept n) = Some (keep D l)). auto. }
  assert (ranges shrunk_list = keep D (ranges cp)) as Er.
  { rewrite <- mark_keep. unfold ranges at 1. cbn [range shrunk_list reduced]. by rewrite (Hs _ _ marked_len). }
  assert (targets shrunk_list = keep D <$> targets cp) as Et by (apply Hcol, W).
  assert (keywords shrunk_list = keep D <$> keywords cp) as Ew by (apply Hcol, W).
  split; [apply keep_wf; try done; by rewrite Er, <- kept_n | by apply keep_hits].
Qed.

Lemma reduce_loop : for_up reduce_body 0 (csize cp) (marked cp D, 0) = Ok (reduced n, kept n).
Proof.
  pose proof (wf_size _ W). pose proof (zlen_nonneg (ranges cp)).
  destruct (for_up_rule reduce_body (fun i st => st = (reduced (Z.to_nat i), kept (Z.to_nat i))) 0 (csize cp) (marked cp D, 0)) as (st & -> & ->).
  - lia.
  - intros i st Hi ->. eexists. split; [| done]. pose proof (reduce_step (Z.to_nat i)) as H'. rewrite Z2Nat.id in H' by lia.
    rewrite H' by lia. by rewrite Z2Nat.inj_add, Nat.add_1_r by lia.
  - unfold marked, reduced, with_range. f_equal. f_equal; [by destruct (targets cp) | by destruct (keywords cp)].
  - done.
Qed.

(** [RReduce] on the marked list leaves the rows that are not marked. *)
Lemma reduce_marked : exists cp', reduce realloc0 (marked cp D) = Ok cp' /\ wf cp' /\ hits cp' = keep D (hits cp) /\ ctype cp' = ctype cp.
Proof.
  pose proof (wf_size _ W) as Hsize. unfold reduce. cbn [range csize marked with_range]. destruct (Z.ltb_spec 0 (csize cp)) as [Hpos|Hneg].
  - rewrite reduce_loop. res_cbn. cbn [csize reduced]. destruct (Z.eqb_spec (kept n) (csize cp)) as [Ec|Ec]; cbn [negb].
    + eexists. split; [done |]. destruct (reduced_full Ec). by split.
    + eexists. split; [done |]. fold (reduced n) shrunk_list. rewrite touch_ctype, touch_hits.
      destruct (Z.eq_dec (kept n) 0) as [E|E]; [destruct (shrunk_empty E) | destruct (shrunk_some E)]; (split; [by apply touch_wf | done]).
  - assert (ranges cp = []) as Er by (destruct (ranges cp); [done | rewrite zlen_cons in Hsize; pose proof (zlen_nonneg l); lia]).
    eexists. split; [done |]. split; [| split; [| done]].
    + destruct W as [W1 W2 W3 W4 W5]. rewrite Er in W1. unfold marked, with_range. rewrite Er. by split.
    + unfold hits, ranges, marked, with_range. cbn. fold (ranges cp). by rewrite Er.
Qed.
End Reduce.

(** ** Nested loops *)
Section Scan.
Context (cp : CorpusList) (round : Z -> Z -> CorpusList * Z -> res (CorpusList * Z + CorpusList)).
Hypothesis (W : wf cp).

(** The inner loop: every round goes on with the next index or leaves. *)
Lemma inner_rule i s (J : Z -> gset Z -> Prop) (Q : gset Z -> Prop) D : 0 <= i < csize cp ->
  (forall j D, i < j <= csize cp -> J j D ->
    (exists D', j < csize cp /\ round i s (marked cp D, j) = Ok (inl (marked cp D', j + 1)) /\ J (j + 1) D') \/
    (exists D', round i s (marked cp D, j) = Ok (inr (marked cp D')) /\ Q D')) ->
  J (i + 1) D -> exists D', loop (round i s) fuel (marked cp D, i + 1) = Ok (marked cp D') /\ Q D'.
Proof.
  intros Hi Hstep HJ. pose proof (wf_int _ W) as Hmax. unfold INT_MAX in Hmax.
  destruct (loop_rule (round i s) (fun st => i < st.2 <= csize cp /\ exists D, st.1 = marked cp D /\ J st.2 D)
    (fun r => exists D', r = marked cp D' /\ Q D') (fun st => csize cp - st.2)) with (p := fuel) (s := (marked cp D, i + 1)) as (r & E & D' & -> & HQ).
  - intros [c j]. cbn [fst snd]. intros [Hj (E & -> & HE)]. split; [lia |].
    destruct (Hstep j E Hj HE) as [(D' & Hl & -> & HD)|(D' & -> & HD)]; [left | right].
    + eexists. split; [done |]. cbn [fst snd]. split; [| lia]. split; [lia |]. by exists D'.
    + eexists. split; [done |]. by exists D'.
  - cbn [fst snd]. split; [lia |]. by exists D.
  - cbn [snd]. rewrite fuel_val. lia.
  - by exists D'.
Qed.

(** The outer loop, and [RReduce]. *)
Lemma scan_rule realloc0 (Inv : Z -> gset Z -> Prop) : Inv 0 ∅ ->
  (forall i D, 0 <= i < csize cp -> Inv i D -> i ∈ D -> Inv (i + 1) D) ->
  (forall i D r, 0 <= i < csize cp -> Inv i D -> i ∉ D -> aget (ranges cp) i = Ok r ->
    exists D', loop (round i (rstart r)) fuel (marked cp D, i + 1) = Ok (marked cp D') /\ Inv (i + 1) D') ->
  exists D cp', scan_reduce realloc0 round cp = Ok cp' /\ Inv (csize cp) D /\ wf cp' /\ hits cp' = keep D (hits cp) /\ ctype cp' = ctype cp.
Proof.
  intros H0 Hskip Hin. pose proof (wf_size _ W) as Hsize. unfold scan_reduce, scan. destruct (range cp) as [l|] eqn:El.
  - assert (marked cp ∅ = cp) as Em by (unfold marked; rewrite mark_empty; unfold ranges, with_range; rewrite El; destruct cp; cbn in *; by subst).
    destruct (for_up_rule (scan_body round) (fun i c => exists D, c = marked cp D /\ Inv i D) 0 (csize cp) cp) as (c & -> & D & -> & HD).
    + rewrite Hsize. apply zlen_nonneg.
    + intros i c Hi (D & -> & HD). destruct (aget_some (ranges cp) i) as [r Hr]; [lia |]. unfold scan_body.
      rewrite (get_marked cp D i r Hr). res_cbn. case_decide as Hd.
      * cbn. eexists. split; [done |]. exists D. split; [done |]. by apply Hskip.
      * pose proof (wf_pos _ W) as Hp. rewrite list.Forall_forall in Hp. assert (0 <= rstart r <= rend r) as Hr0.
        { apply Hp. apply aget_Ok in Hr as [_ Hr]. by apply list_elem_of_lookup_2 in Hr. }
        rewrite (proj2 (Z.eqb_neq _ _)) by lia. destruct (Hin i D r Hi HD Hd Hr) as (D' & -> & HD'). eexists. split; [done |]. by exists D'.
    + by exists ∅.
    + res_cbn. destruct (reduce_marked realloc0 cp D W) as (cp' & E & ? & ? & ?). by exists D, cp'.
  - assert (ranges cp = []) as Er by (unfold ranges; by rewrite El). rewrite Er in Hsize. unfold zlen in Hsize. cbn in Hsize.
    exists ∅, cp. rewrite Hsize. split; [unfold for_up; change (Z.to_nat (Z.of_nat 0 - 0)) with 0%nat; cbn [for_n]; res_cbn; unfold reduce; by rewrite El |]. split; [done |]. split; [done |]. split; [| done].
    unfold hits. by rewrite Er.
Qed.
End Scan.

(** ** Ranges that no other one is better than *)
Section Dominated.
Context (N : Z) (better : Z -> Z -> Prop) (m : Z -> Z).
Hypothesis (trans : forall i j k, better i j -> better j k -> better i k).
Hypothesis (measure : forall i j, 0 <= i < N -> 0 <= j < N -> better i j -> m i < m j) (m_pos : forall i, 0 <= i < N -> 0 <= m i).

(** Every deletion has a reason, and of two indices one of which is better one is deleted. *)
Record fair (D : gset Z) : Prop := {
  f_reason : forall j, j ∈ D -> 0 <= j < N /\ exists i, 0 <= i < N /\ better i j;
  f_pairs : forall i j, 0 <= i < N -> 0 <= j < N -> better i j -> i ∈ D \/ j ∈ D
}.

Lemma dominated D : fair D -> forall j, 0 <= j < N -> j ∈ D <-> exists i, 0 <= i < N /\ better i j.
Proof.
  intros F j Hj. split; [intros Hd; by apply (f_reason D F) |]. intros (i & Hi & Hb).
  remember (Z.to_nat (m i)) as k eqn:Ek. revert i Hi Hb Ek. induction (lt_wf k) as [k _ IH]. intros i Hi Hb ->.
  destruct (f_pairs D F i j Hi Hj Hb) as [Hd|]; [| done]. destruct (f_reason D F i Hd) as (_ & i' & Hi' & Hb').
  apply (IH (Z.to_nat (m i'))) with i'; [| done | by apply (trans _ i) | done].
  pose proof (measure i' i Hi' Hi Hb'). pose proof (m_pos i' Hi'). lia.
Qed.
End Dominated.

(** ** The order of ranges *)
Definition rlt (r s : Range) : Prop := rstart r < rstart s \/ (rstart r = rstart s /\ rend r < rend s).
Definition rle (r s : Range) : Prop := rlt r s \/ r = s.

(** [r] lies in [s]. *)
Definition inside (r s : Range) : Prop := rstart s <= rstart r /\ rend r <= rend s.

Lemma range_eq r s : rstart r = rstart s -> rend r = rend s -> r = s.
Proof. destruct r, s. cbn. by intros -> ->. Qed.

(** One range ends before the other starts. *)
Definition apart (r s : Range) : Prop := rend r < rstart s.

Lemma sorted_keep {A} (P : A -> A -> Prop) D l : (forall i j x y, i < j -> i ∉ D -> j ∉ D -> aget l i = Ok x -> aget l j = Ok y -> P x y) ->
  StronglySorted P (keep D l).
Proof.
  unfold keep. intros H.
  assert (forall (l' : list A) k, (forall i j x y, (i < j)%nat -> k + Z.of_nat i ∉ D -> k + Z.of_nat j ∉ D -> l' !! i = Some x -> l' !! j = Some y -> P x y) ->
    StronglySorted P (keep_from k D l')) as Hk.
  { induction l' as [|a l' IH]; intros k Hp; cbn; [constructor |].
    assert (StronglySorted P (keep_from (k + 1) D l')) as Htl.
    { apply IH. intros i j x y Hij Hi Hj. apply (Hp (S i) (S j)); [lia | by rewrite succ_shift | by rewrite succ_shift]. }
    case_decide as Hd; [done |]. constructor; [done |]. apply List.Forall_forall. intros y Hy%list_elem_of_In.
    apply elem_of_keep_from in Hy as (j & Ej & Hj). apply (Hp 0%nat (S j)); [lia | by rewrite Z.add_0_r | by rewrite succ_shift | done | done]. }
  apply Hk. intros i j x y Hij Hi Hj Ei Ej. apply (H (Z.of_nat i) (Z.of_nat j)); [lia | done | done | by apply aget_nat | by apply aget_nat].
Qed.

Section Strategy.
Context (realloc0 : bool) (cp : CorpusList).
Hypothesis (W : wf cp) (Hsort : StronglySorted rle (ranges cp)).

Let N := csize cp.

(** The range at an index. *)
Definition at_ (i : Z) : Range := match aget (ranges cp) i with Ok r => r | Err _ => mkRange 0 0 end.

Lemma at_ok i : 0 <= i < N -> aget (ranges cp) i = Ok (at_ i).
Proof. intros Hi. unfold at_. unfold N in Hi. rewrite (wf_size _ W) in Hi. by destruct (aget_some _ i Hi) as [r ->]. Qed.

Lemma at_pos i : 0 <= i < N -> 0 <= rstart (at_ i) <= rend (at_ i).
Proof.
  intros Hi. pose proof (wf_pos _ W) as Hp. rewrite list.Forall_forall in Hp. apply Hp.
  pose proof (at_ok i Hi) as [_ H]%aget_Ok. by apply list_elem_of_lookup_2 in H.
Qed.

Lemma at_le i j : 0 <= i < N -> 0 <= j < N -> i < j -> rstart (at_ i) < rstart (at_ j) \/ (rstart (at_ i) = rstart (at_ j) /\ rend (at_ i) <= rend (at_ j)).
Proof.
  intros Hi Hj Hij. destruct (proj1 (sorted_aget rle _) Hsort i j (at_ i) (at_ j) Hij) as [[|[]]|E]; [by apply at_ok | by apply at_ok | lia | lia |]. rewrite E. lia.
Qed.

Lemma at_start_le i j : 0 <= i < N -> 0 <= j < N -> i <= j -> rstart (at_ i) <= rstart (at_ j).
Proof. intros Hi Hj Hij. destruct (Z.eq_dec i j) as [->|]; [lia |]. pose proof (at_le i j Hi Hj). lia. Qed.

Lemma get_at D i : 0 <= i < N -> get_range (marked cp D) i = Ok (if decide (i ∈ D) then dead (at_ i) else at_ i).
Proof. intros Hi. by apply get_marked, at_ok. Qed.

Lemma set_at D i : 0 <= i < N -> set_start (marked cp D) i (-1) = Ok (marked cp ({[i]} ∪ D)).
Proof. intros Hi. by apply (set_marked cp D i (at_ i)), at_ok. Qed.

Lemma elem_of_ranges r : r ∈ ranges cp <-> exists i, 0 <= i < N /\ at_ i = r.
Proof.
  rewrite list_elem_of_lookup. split.
  - intros [i Hi]. exists (Z.of_nat i). assert (0 <= Z.of_nat i < N) as R by (unfold N; rewrite (wf_size _ W); apply lookup_lt_Some in Hi; unfold zlen; lia).
    split; [done |]. pose proof (at_ok _ R) as E. rewrite (aget_nat _ _ _ Hi) in E. by injection E.
  - intros (i & Hi & <-). exists (Z.to_nat i). by apply aget_Ok, at_ok.
Qed.

(** What is kept, in terms of the ranges. *)
Lemma kept_ranges cp' D : hits cp' = keep D (hits cp) -> ranges cp' = keep D (ranges cp).
Proof. intros E. rewrite <- (hits_ranges cp'), <- (hits_ranges cp), E. unfold keep. by rewrite !keep_fmap. Qed.

Lemma elem_of_kept cp' D r : hits cp' = keep D (hits cp) -> r ∈ ranges cp' <-> exists i, 0 <= i < N /\ i ∉ D /\ at_ i = r.
Proof.
  intros E. rewrite (kept_ranges cp' D E), elem_of_keep. split.
  - intros (i & Hi & Hd). assert (0 <= i < N) as R by (unfold N; rewrite (wf_size _ W); by apply (aget_range _ _ _ Hi)).
    exists i. do 2 (split; [done |]). rewrite (at_ok i R) in Hi. by injection Hi.
  - intros (i & Hi & Hd & <-). exists i. split; [by apply at_ok | done].
Qed.

(** The order of what is kept is strict if equal ranges are not kept twice. *)
Lemma kept_sorted cp' D : hits cp' = keep D (hits cp) -> (forall i j, 0 <= i < N -> 0 <= j < N -> i < j -> i ∉ D -> j ∉ D -> at_ i <> at_ j) ->
  StronglySorted rlt (ranges cp').
Proof.
  intros E Hne. rewrite (kept_ranges cp' D E). apply sorted_keep. intros i j x y Hij Hi Hj Ei Ej.
  assert (forall k z, aget (ranges cp) k = Ok z -> 0 <= k < N /\ z = at_ k) as Hat.
  { intros k z Hk. unfold N. rewrite (wf_size _ W). split; [by apply (aget_range _ _ _ Hk) |]. unfold at_. by rewrite Hk. }
  destruct (Hat i x Ei) as [Ri ->]. destruct (Hat j y Ej) as [Rj ->]. destruct (proj1 (sorted_aget rle _) Hsort i j _ _ Hij Ei Ej) as [|Heq]; [done |].
  by destruct (Hne i j Ri Rj Hij Hi Hj).
Qed.
(** ** Scans that delete a block of ranges behind [i]

    The inner loop deletes what is related to [i] and leaves at the first range that is not. *)
Section Block.
Context (round : Z -> Z -> CorpusList * Z -> res (CorpusList * Z + CorpusList)) (rel : Z -> Z -> Prop).
Context `{forall i j, Decision (rel i j)}.
Hypothesis (contiguous : forall i k j, 0 <= i -> i < k -> k < j -> j < N -> rel i j -> rel i k).
Hypothesis (round_ok : forall i j D, 0 <= i < j -> j <= N -> i ∉ D -> (forall k, j <= k -> k ∉ D) -> round i (rstart (at_ i)) (marked cp D, j) =
  if decide (j < N /\ rel i j) then Ok (inl (marked cp ({[j]} ∪ D), j + 1)) else Ok (inr (marked cp D))).

Record block_inv (k : Z) (D : gset Z) : Prop := {
  b_reason : forall j, j ∈ D -> j < N /\ exists i, 0 <= i < k /\ i < j /\ i ∉ D /\ rel i j;
  b_all : forall i j, 0 <= i < k -> i ∉ D -> i < j < N -> rel i j -> j ∈ D
}.

(** Behind a range that is kept, nothing has been deleted. *)
Lemma block_free i D : block_inv i D -> 0 <= i < N -> i ∉ D -> forall j, i <= j -> j ∉ D.
Proof.
  intros B Hi Hd j Hj Hin. destruct (b_reason i D B j Hin) as (Hn & i' & Hi' & _ & Hd' & Hr).
  destruct (Z.eq_dec i j) as [->|Hne]; [done |]. apply Hd. apply (b_all i D B i'); [done | done | lia |].
  apply (contiguous i' i j); [lia | lia | lia | done | done].
Qed.

Lemma block_inner i D : block_inv i D -> 0 <= i < N -> i ∉ D -> exists D',
  loop (round i (rstart (at_ i))) fuel (marked cp D, i + 1) = Ok (marked cp D') /\ block_inv (i + 1) D'.
Proof.
  intros B Hi Hd. pose proof (block_free i D B Hi Hd) as Hfree.
  apply (inner_rule cp round W i _ (fun j D' => forall b, b ∈ D' <-> b ∈ D \/ (i < b < j /\ rel i b))); [done | |].
  - intros j D' Hj HJ. assert (i ∉ D') as Hi' by (rewrite HJ; intros [?|[? _]]; [done | lia]).
    assert (forall k, j <= k -> k ∉ D') as Hf by (intros k Hk; rewrite HJ; intros [Hb|[? _]]; [by apply (Hfree k ltac:(lia)) | lia]).
    rewrite (round_ok i j D') by (done || lia).
    destruct (decide (j < N /\ rel i j)) as [[Hl Hr]|Hno].
    + left. eexists. split; [done |]. split; [done |]. intros b. rewrite elem_of_union, elem_of_singleton, HJ. split.
      * intros [->|[?|[? ?]]]; [right; split; [lia | done] | by left | right; split; [lia | done]].
      * intros [?|[? ?]]; [right; by left |]. destruct (Z.eq_dec b j) as [->|]; [by left | right; right; split; [lia | done]].
    + right. eexists. split; [done |]. assert (forall b, i < b < N -> rel i b -> b < j) as Hlt.
      { intros b Hb Hr. destruct (Z.lt_ge_cases b j) as [|Hge]; [done |]. destruct Hno. split; [lia |].
        destruct (Z.eq_dec j b) as [->|]; [done | by apply (contiguous i j b); lia || done]. }
      split.
      * intros b Hb. apply HJ in Hb as [Hb|[Hb Hr]].
        -- destruct (b_reason i D B b Hb) as (Hn & i' & Hi1 & Hl & Hd' & Hr). split; [done |]. exists i'. split; [lia |]. split; [done |].
           split; [| done]. rewrite HJ. intros [?|[? _]]; [done | lia].
        -- split; [lia |]. exists i. split; [lia |]. split; [lia |]. by split.
      * intros a b Ha Hna Hb Hr. rewrite HJ in Hna. apply HJ. destruct (Z.eq_dec a i) as [->|]; [right; split; [| done]; split; [lia | by apply Hlt] |].
        left. apply (b_all i D B a b); [lia | | lia | done]. intros ?. destruct Hna. by left.
  - intros b. split; [by left | intros [?|[? _]]; [done | lia]].
Qed.

Lemma block_scan : exists D cp', scan_reduce realloc0 round cp = Ok cp' /\ wf cp' /\ hits cp' = keep D (hits cp) /\ ctype cp' = ctype cp /\
  forall j, 0 <= j < N -> (j ∈ D <-> exists i, 0 <= i < j /\ i ∉ D /\ rel i j).
Proof.
  destruct (scan_rule cp round W realloc0 block_inv) as (D & cp' & E & B & W' & Eh & Ec).
  - split; [intros j Hj; set_solver | intros i j Hi; lia].
  - intros i D Hi B Hd. split.
    + intros j Hj. destruct (b_reason i D B j Hj) as (Hn & i' & ? & ?). split; [done |]. exists i'. split; [lia | done].
    + intros a b Ha Hna Hb. apply (b_all i D B a); [| done | done]. destruct (Z.eq_dec a i) as [->|]; [done | lia].
  - intros i D r Hi B Hd Hr. rewrite (at_ok i Hi) in Hr. injection Hr as <-. by apply block_inner.
  - exists D, cp'. do 4 (split; [done |]). intros j Hj. split.
    + intros Hd. destruct (b_reason _ D B j Hd) as (_ & i & Hi & Hl & Hn & Hr). exists i. split; [lia | done].
    + intros (i & Hi & Hn & Hr). apply (b_all _ D B i); [fold N; lia | done | lia | done].
Qed.

(** If the relation is an equivalence, exactly the first of each class is kept. *)
Lemma block_classes (D : gset Z) : (forall i j k, rel i j -> rel j k -> rel i k) ->
  (forall j, 0 <= j < N -> (j ∈ D <-> exists i, 0 <= i < j /\ i ∉ D /\ rel i j)) ->
  forall j, 0 <= j < N -> (j ∈ D <-> exists i, 0 <= i < j /\ rel i j).
Proof.
  intros Htr HD j Hj. rewrite (HD j Hj). split; [intros (i & ? & _ & ?); by exists i |]. intros (i & Hi & Hr).
  destruct (decide (i ∈ D)) as [Hd|]; [| by exists i]. apply HD in Hd as (i' & Hi' & Hn & Hr'); [| lia].
  exists i'. split; [lia |]. split; [done | by apply (Htr i' i j)].
Qed.
End Block.

(** ** Scans that compare all pairs that can be related *)
Section Fair.
Context (round : Z -> Z -> CorpusList * Z -> res (CorpusList * Z + CorpusList)) (better : Z -> Z -> Prop) (m : Z -> Z).
Hypothesis (trans : forall i j k, better i j -> better j k -> better i k).
Hypothesis (irrefl : forall i, ~ better i i).
Hypothesis (measure : forall i j, 0 <= i < N -> 0 <= j < N -> better i j -> m i < m j) (m_pos : forall i, 0 <= i < N -> 0 <= m i).

Definition reason (D : gset Z) : Prop := forall j, j ∈ D -> 0 <= j < N /\ exists i, 0 <= i < N /\ better i j.

Definition decided (i n : Z) (D : gset Z) : Prop := forall b, i < b < n -> better i b \/ better b i -> i ∈ D \/ b ∈ D.

(** One round deletes with reason, decides about [j], or leaves when all is decided. *)
Hypothesis (round_ok : forall i j D, 0 <= i < j -> j <= N -> reason D -> decided i j D ->
  (exists D', j < N /\ round i (rstart (at_ i)) (marked cp D, j) = Ok (inl (marked cp D', j + 1)) /\ D ⊆ D' /\ reason D' /\ decided i (j + 1) D') \/
  (exists D', round i (rstart (at_ i)) (marked cp D, j) = Ok (inr (marked cp D')) /\ D ⊆ D' /\ reason D' /\ decided i N D')).

Lemma fair_scan : exists D cp', scan_reduce realloc0 round cp = Ok cp' /\ wf cp' /\ hits cp' = keep D (hits cp) /\ ctype cp' = ctype cp /\
  forall j, 0 <= j < N -> (j ∈ D <-> exists i, 0 <= i < N /\ better i j).
Proof.
  destruct (scan_rule cp round W realloc0 (fun k D => reason D /\ forall a, 0 <= a < k -> decided a N D)) as (D & cp' & E & [HR HD] & W' & Eh & Ec).
  - split; [intros j Hj; set_solver | intros a Ha; lia].
  - intros i D Hi [HR HD] Hd. split; [done |]. intros a Ha. destruct (Z.eq_dec a i) as [->|]; [| apply HD; lia]. intros b Hb _. by left.
  - intros i D r Hi [HR HD] Hd Hr. rewrite (at_ok i Hi) in Hr. injection Hr as <-.
    destruct (inner_rule cp round W i (rstart (at_ i)) (fun j D' => D ⊆ D' /\ reason D' /\ decided i j D') (fun D' => D ⊆ D' /\ reason D' /\ decided i N D') D Hi)
      as (D' & E & Hsub & HR' & HN).
    + intros j D' Hj (Hs & HR' & HJ). destruct (round_ok i j D') as [(D2 & Hl & E & Hs2 & HR2 & HJ2)|(D2 & E & Hs2 & HR2 & HJ2)]; [lia | fold N in Hj; lia | done | done | |].
      * left. exists D2. do 2 (split; [done |]). split; [set_solver | done].
      * right. exists D2. split; [done |]. split; [set_solver | done].
    + split; [done |]. split; [done |]. intros b Hb. lia.
    + exists D'. split; [done |]. split; [done |]. intros a Ha. destruct (Z.eq_dec a i) as [->|]; [done |].
      intros b Hb Hbet. destruct (HD a ltac:(lia) b Hb Hbet); [left | right]; set_solver.
  - exists D, cp'. do 4 (split; [done |]). apply (dominated N better m trans measure m_pos). split; [done |].
    intros i j Hi Hj Hb. destruct (Z.lt_trichotomy i j) as [Hl|[->|Hl]].
    + apply (HD i); [done | lia | by left].
    + by destruct (irrefl j).
    + destruct (HD j) with (b := i); [done | lia | by right | by right | by left].
Qed.
End Fair.
(** ** The loops *)
Lemma read_both D i j : 0 <= i < N -> 0 <= j < N -> i ∉ D -> j ∉ D ->
  get_range (marked cp D) i = Ok (at_ i) /\ get_range (marked cp D) j = Ok (at_ j).
Proof. intros Hi Hj Di Dj. by rewrite !get_at, !decide_False. Qed.

Lemma marked_size D : csize (marked cp D) = N.
Proof. done. Qed.

Definition same (i j : Z) : Prop := at_ i = at_ j.
Definition same_start (i j : Z) : Prop := rstart (at_ i) = rstart (at_ j).
Definition overlaps (i j : Z) : Prop := rstart (at_ j) <= rend (at_ i).

Instance same_dec i j : Decision (same i j).
Proof. unfold same. apply _. Defined.
Instance same_start_dec i j : Decision (same_start i j).
Proof. unfold same_start. apply _. Defined.
Instance overlaps_dec i j : Decision (overlaps i j).
Proof. unfold overlaps. apply _. Defined.

Lemma uniq_scan : exists D cp', scan_reduce realloc0 equal_range_round cp = Ok cp' /\ wf cp' /\ hits cp' = keep D (hits cp) /\ ctype cp' = ctype cp /\
  forall j, 0 <= j < N -> (j ∈ D <-> exists i, 0 <= i < j /\ same i j).
Proof.
  destruct (block_scan equal_range_round same) as (D & cp' & E & W' & Eh & Ec & HD).
  - intros i k j H0 Hik Hkj Hj E. red in E |- *. pose proof (at_le i k ltac:(lia) ltac:(lia) Hik). pose proof (at_le k j ltac:(lia) ltac:(lia) Hkj). rewrite <- E in *.
    apply range_eq; lia.
  - intros i j D Hij Hj Hi Hf. unfold equal_range_round. rewrite marked_size. destruct (Z.ltb_spec j N) as [Hl|Hl]; cycle 1.
    { by rewrite decide_False by lia. }
    destruct (read_both D i j) as [-> ->]; [lia | lia | done | by apply Hf |]. res_cbn.
    destruct (decide (same i j)) as [E|E].
    + rewrite E, !Z.eqb_refl, decide_True by done. cbn [andb]. rewrite set_at by lia. by res_cbn.
    + rewrite decide_False by (by intros [_ ?]). destruct (Z.eqb_spec (rstart (at_ i)) (rstart (at_ j))); [| done].
      destruct (Z.eqb_spec (rend (at_ i)) (rend (at_ j))); [| done]. by destruct E; apply range_eq.
  - exists D, cp'. do 4 (split; [done |]). apply (block_classes same); [unfold same; intros ? ? ?; congruence | done].
Qed.

Lemma same_start_scan : exists D cp', scan_reduce realloc0 same_start_round cp = Ok cp' /\ wf cp' /\ hits cp' = keep D (hits cp) /\ ctype cp' = ctype cp /\
  forall j, 0 <= j < N -> (j ∈ D <-> exists i, 0 <= i < j /\ same_start i j).
Proof.
  destruct (block_scan same_start_round same_start) as (D & cp' & E & W' & Eh & Ec & HD).
  - intros i k j H0 Hik Hkj Hj E. red in E |- *. pose proof (at_le i k ltac:(lia) ltac:(lia) Hik). pose proof (at_le k j ltac:(lia) ltac:(lia) Hkj). lia.
  - intros i j D Hij Hj Hi Hf. unfold same_start_round. rewrite marked_size. destruct (Z.ltb_spec j N) as [Hl|Hl]; cycle 1.
    { by rewrite decide_False by lia. }
    destruct (read_both D i j) as [-> ->]; [lia | lia | done | by apply Hf |]. res_cbn. case_Z.
    + rewrite decide_True by done. rewrite set_at by lia. by res_cbn.
    + by rewrite decide_False by (intros [_ R]; red in R; lia).
  - exists D, cp'. do 4 (split; [done |]). apply (block_classes same_start); [unfold same_start; intros ? ? ?; congruence | done].
Qed.

Lemma overlap_scan : exists D cp', scan_reduce realloc0 overlap_round cp = Ok cp' /\ wf cp' /\ hits cp' = keep D (hits cp) /\ ctype cp' = ctype cp /\
  forall j, 0 <= j < N -> (j ∈ D <-> exists i, 0 <= i < j /\ i ∉ D /\ overlaps i j).
Proof.
  apply (block_scan overlap_round overlaps).
  - intros i k j H0 Hik Hkj Hj E. red in E |- *. pose proof (at_start_le k j). lia.
  - intros i j D Hij Hj Hi Hf. unfold overlap_round. rewrite marked_size. destruct (Z.ltb_spec j N) as [Hl|Hl]; cycle 1.
    { by rewrite decide_False by lia. }
    destruct (read_both D i j) as [-> ->]; [lia | lia | done | by apply Hf |]. res_cbn. case_Z.
    + rewrite decide_True by done. rewrite set_at by lia. by res_cbn.
    + by rewrite decide_False by (intros [_ R]; red in R; lia).
Qed.

(** A bound of the ends, for the measures. *)
Lemma at_bound : exists M, forall i, 0 <= i < N -> rend (at_ i) < M.
Proof.
  assert (forall l : list Range, exists M, forall r, r ∈ l -> rend r < M) as H.
  { induction l as [|r l [M IH]]; [exists 0; by intros r ?%not_elem_of_nil |]. exists (Z.max M (rend r + 1)).
    intros s [->|Hs]%elem_of_cons; [lia |]. specialize (IH s Hs). lia. }
  destruct (H (ranges cp)) as [M HM]. exists M. intros i Hi. apply HM. apply elem_of_ranges. by exists i.
Qed.

(** Marking keeps reasons and decisions. *)
Lemma reason_insert better D j : reason better D -> 0 <= j < N -> (exists i, 0 <= i < N /\ better i j) -> reason better ({[j]} ∪ D).
Proof. intros HR Hj Hb k [->%elem_of_singleton|Hk]%elem_of_union; [done | by apply HR]. Qed.

Lemma decided_mono better i n (D D' : gset Z) : D ⊆ D' -> decided better i n D -> decided better i n D'.
Proof. intros Hs HD b Hb Hbet. destruct (HD b Hb Hbet); [left | right]; by apply Hs. Qed.

Lemma decided_snoc better i j D : decided better i j D -> (better i j \/ better j i -> i ∈ D \/ j ∈ D) -> decided better i (j + 1) D.
Proof. intros HD Hj b Hb Hbet. destruct (Z.eq_dec b j) as [->|]; [by apply Hj | apply HD; [lia | done]]. Qed.

Lemma decided_rest better i j D : decided better i j D -> (forall b, j <= b < N -> ~ better i b /\ ~ better b i) -> decided better i N D.
Proof.
  intros HD Hno b Hb Hbet. destruct (Z.lt_ge_cases b j); [apply HD; [lia | done] |]. destruct (Hno b) as [H1 H2]; [lia |]. by destruct Hbet.
Qed.

Definition same_end_before (i j : Z) : Prop := i < j /\ rend (at_ i) = rend (at_ j).

Lemma same_end_scan : exists D cp', scan_reduce realloc0 same_end_round cp = Ok cp' /\ wf cp' /\ hits cp' = keep D (hits cp) /\ ctype cp' = ctype cp /\
  forall j, 0 <= j < N -> (j ∈ D <-> exists i, 0 <= i < N /\ same_end_before i j).
Proof.
  apply (fair_scan same_end_round same_end_before (fun i => i)).
  - intros i j k [? ?] [? ?]. split; [lia | congruence].
  - intros i [? _]. lia.
  - intros i j _ _ [? _]. done.
  - lia.
  - intros i j D Hij Hj HR HD. unfold same_end_round. rewrite marked_size. destruct (Z.ltb_spec j N) as [Hl|Hl]; cycle 1.
    { right. exists D. split; [done |]. split; [done |]. split; [done |]. by replace N with j by lia. }
    rewrite !get_at by lia. res_cbn. replace (rend (if decide (i ∈ D) then dead (at_ i) else at_ i)) with (rend (at_ i)) by (by case_decide).
    replace (rend (if decide (j ∈ D) then dead (at_ j) else at_ j)) with (rend (at_ j)) by (by case_decide).
    pose proof (at_pos i ltac:(lia)) as Pi. pose proof (at_pos j ltac:(lia)) as Pj.
    destruct (Z.leb_spec (rstart (if decide (j ∈ D) then dead (at_ j) else at_ j)) (rend (at_ i))) as [Hle|Hgt].
    + left. destruct (Z.eqb_spec (rend (at_ j)) (rend (at_ i))) as [Ee|Ee].
      * rewrite set_at by lia. res_cbn. eexists. split; [done |]. split; [done |]. split; [set_solver |]. split.
        -- apply reason_insert; [done | lia |]. exists i. split; [lia |]. split; [lia | done].
        -- apply decided_snoc; [apply (decided_mono _ _ _ D); [set_solver | done] |]. intros _. right. set_solver.
      * res_cbn. exists D. do 4 (split; [done |]). apply decided_snoc; [done |]. intros [[_ ?]|[? _]]; lia.
    + right. exists D. do 3 (split; [done |]). apply (decided_rest _ _ j); [done |]. intros b Hb.
      assert (rstart (at_ j) > rend (at_ i)) as Hs by (revert Hgt; case_decide; cbn; lia).
      pose proof (at_start_le j b ltac:(lia) ltac:(lia) ltac:(lia)). pose proof (at_pos b ltac:(lia)). unfold same_end_before. lia.
Qed.

Definition larger (i j : Z) : Prop := inside (at_ j) (at_ i) /\ (at_ i <> at_ j \/ i < j).
Definition smaller (i j : Z) : Prop := inside (at_ i) (at_ j) /\ (at_ i <> at_ j \/ j < i).

Lemma inside_trans r s t : inside r s -> inside s t -> inside r t.
Proof. unfold inside. lia. Qed.

Lemma inside_antisym r s : inside r s -> inside s r -> r = s.
Proof. unfold inside. intros ? ?. apply range_eq; lia. Qed.

Lemma inside_neq r s : inside r s -> r <> s -> rend r - rstart r < rend s - rstart s.
Proof.
  intros Hi Hne. assert (~ (rstart r = rstart s /\ rend r = rend s)) by (intros [? ?]; by apply Hne, range_eq). unfold inside in Hi. lia.
Qed.

Lemma larger_trans i j k : larger i j -> larger j k -> larger i k.
Proof.
  intros [I1 N1] [I2 N2]. split; [by apply (inside_trans _ (at_ j)) |]. destruct (decide (at_ i = at_ k)) as [E|]; [right | by left].
  assert (at_ i = at_ j) as E' by (apply inside_antisym; [by rewrite E | done]). destruct N1 as [|]; [done |]. destruct N2 as [[]|]; [congruence | lia].
Qed.

Lemma smaller_trans i j k : smaller i j -> smaller j k -> smaller i k.
Proof.
  intros [I1 N1] [I2 N2]. split; [by apply (inside_trans _ (at_ j)) |]. destruct (decide (at_ i = at_ k)) as [E|]; [right | by left].
  assert (at_ i = at_ j) as E' by (apply inside_antisym; [done | by rewrite E]). destruct N1 as [|]; [done |]. destruct N2 as [[]|]; [congruence | lia].
Qed.
(** Behind a range that starts after the end of [i] none can be related. *)
Lemma beyond (better : Z -> Z -> Prop) i j : 0 <= i < j -> rstart (at_ j) > rend (at_ i) ->
  (forall b, better i b \/ better b i -> inside (at_ b) (at_ i) \/ inside (at_ i) (at_ b)) ->
  forall b, j <= b < N -> ~ better i b /\ ~ better b i.
Proof.
  intros Hij Hs Hb b Hbn. pose proof (at_start_le j b ltac:(lia) ltac:(lia) ltac:(lia)). pose proof (at_pos b ltac:(lia)). pose proof (at_pos i ltac:(lia)).
  assert (~ inside (at_ b) (at_ i) /\ ~ inside (at_ i) (at_ b)) as [Ha Hc] by (unfold inside; lia).
  split; intros H'; destruct (Hb b ltac:(auto)); done.
Qed.

(** What the loops read: dead ranges start at -1. *)
Definition shown (D : gset Z) (i : Z) : Range := if decide (i ∈ D) then dead (at_ i) else at_ i.

Lemma shown_end D i : rend (shown D i) = rend (at_ i).
Proof. unfold shown. by case_decide. Qed.

Lemma shown_start D i : i ∈ D /\ rstart (shown D i) = -1 \/ i ∉ D /\ rstart (shown D i) = rstart (at_ i).
Proof. unfold shown. case_decide; auto. Qed.

Lemma maximal_scan : exists D cp', scan_reduce realloc0 maximal_round cp = Ok cp' /\ wf cp' /\ hits cp' = keep D (hits cp) /\ ctype cp' = ctype cp /\
  forall j, 0 <= j < N -> (j ∈ D <-> exists i, 0 <= i < N /\ larger i j).
Proof.
  destruct at_bound as [M HM].
  apply (fair_scan maximal_round larger (fun i => (M - (rend (at_ i) - rstart (at_ i))) * N + i)).
  - apply larger_trans.
  - intros i [_ [?|?]]; [done | lia].
  - intros i j Hi Hj [Hin Hd]. destruct (decide (at_ i = at_ j)) as [E|E]; [rewrite E; destruct Hd; [done | lia] |].
    pose proof (inside_neq _ _ Hin ltac:(congruence)). nia.
  - intros i Hi. pose proof (HM i Hi). pose proof (at_pos i Hi). nia.
  - intros i j D Hij Hj HR HD. unfold maximal_round. rewrite marked_size. destruct (Z.ltb_spec j N) as [Hl|Hl]; cycle 1.
    { right. exists D. split; [done |]. split; [done |]. split; [done |]. by replace N with j by lia. }
    rewrite !get_at by lia. fold (shown D i) (shown D j). res_cbn. rewrite !shown_end.
    pose proof (at_pos i ltac:(lia)) as Pi. pose proof (at_pos j ltac:(lia)) as Pj. pose proof (at_start_le i j ltac:(lia) ltac:(lia) ltac:(lia)) as Pij.
    destruct (Z.leb_spec (rstart (shown D j)) (rend (at_ i))) as [Hle|Hgt].
    + left. destruct (Z.leb_spec (rend (at_ j)) (rend (at_ i))) as [Ee|Ee]; [| destruct (Z.eqb_spec (rstart (at_ i)) (rstart (shown D j))) as [Es|Es]].
      * rewrite set_at by lia. res_cbn. eexists. split; [done |]. split; [done |]. split; [set_solver |]. split.
        -- apply reason_insert; [done | lia |]. exists i. split; [lia |]. split; [done | right; lia].
        -- apply decided_snoc; [apply (decided_mono _ _ _ D); [set_solver | done] |]. intros _. right. set_solver.
      * destruct (shown_start D j) as [[_ E]|[_ E]]; [lia |]. rewrite E in Es.
        rewrite set_at by lia. res_cbn. eexists. split; [done |]. split; [done |]. split; [set_solver |]. split.
        -- apply reason_insert; [done | lia |]. exists j. split; [lia |]. split; [unfold inside; lia | left; intros E'; rewrite E' in Ee; lia].
        -- apply decided_snoc; [apply (decided_mono _ _ _ D); [set_solver | done] |]. intros _. left. set_solver.
      * res_cbn. exists D. do 4 (split; [done |]). apply decided_snoc; [done |]. intros Hb.
        destruct (shown_start D j) as [[? _]|[_ E]]; [by right |]. rewrite E in Es. destruct Hb as [[Hb _]|[Hb _]]; unfold inside in Hb; lia.
    + right. exists D. do 3 (split; [done |]). apply (decided_rest _ _ j); [done |]. apply beyond; [done | | intros b [[? _]|[? _]]; auto].
      destruct (shown_start D j) as [[_ E]|[_ E]]; rewrite E in Hgt; lia.
Qed.

Lemma minimal_scan : exists D cp', scan_reduce realloc0 minimal_round cp = Ok cp' /\ wf cp' /\ hits cp' = keep D (hits cp) /\ ctype cp' = ctype cp /\
  forall j, 0 <= j < N -> (j ∈ D <-> exists i, 0 <= i < N /\ smaller i j).
Proof.
  apply (fair_scan minimal_round smaller (fun i => (rend (at_ i) - rstart (at_ i)) * N + (N - 1 - i))).
  - apply smaller_trans.
  - intros i [_ [?|?]]; [done | lia].
  - intros i j Hi Hj [Hin Hd]. destruct (decide (at_ i = at_ j)) as [E|E]; [rewrite E; destruct Hd; [done | lia] |].
    pose proof (inside_neq _ _ Hin ltac:(congruence)). nia.
  - intros i Hi. pose proof (at_pos i Hi). nia.
  - intros i j D Hij Hj HR HD. unfold minimal_round. rewrite marked_size. destruct (Z.ltb_spec j N) as [Hl|Hl]; cycle 1.
    { right. exists D. split; [done |]. split; [done |]. split; [done |]. by replace N with j by lia. }
    rewrite !get_at by lia. fold (shown D i) (shown D j). res_cbn. rewrite !shown_end.
    pose proof (at_pos i ltac:(lia)) as Pi. pose proof (at_pos j ltac:(lia)) as Pj. pose proof (at_start_le i j ltac:(lia) ltac:(lia) ltac:(lia)) as Pij.
    destruct (Z.leb_spec (rstart (shown D j)) (rend (at_ i))) as [Hle|Hgt].
    + destruct (Z.leb_spec (rend (at_ j)) (rend (at_ i))) as [Ee|Ee]; [| destruct (Z.eqb_spec (rstart (at_ i)) (rstart (shown D j))) as [Es|Es]].
      * right. rewrite set_at by lia. res_cbn. eexists. split; [done |]. split; [set_solver |]. split.
        -- apply reason_insert; [done | lia |]. exists j. split; [lia |]. split; [unfold inside; lia | right; lia].
        -- intros b _ _. left. set_solver.
      * left. destruct (shown_start D j) as [[_ E]|[_ E]]; [lia |]. rewrite E in Es.
        rewrite set_at by lia. res_cbn. eexists. split; [done |]. split; [done |]. split; [set_solver |]. split.
        -- apply reason_insert; [done | lia |]. exists i. split; [lia |]. split; [unfold inside; lia | left; intros E'; rewrite E' in Ee; lia].
        -- apply decided_snoc; [apply (decided_mono _ _ _ D); [set_solver | done] |]. intros _. right. set_solver.
      * left. res_cbn. exists D. do 4 (split; [done |]). apply decided_snoc; [done |]. intros Hb.
        destruct (shown_start D j) as [[? _]|[_ E]]; [by right |]. rewrite E in Es. destruct Hb as [[Hb _]|[Hb _]]; unfold inside in Hb; lia.
    + right. exists D. do 3 (split; [done |]). apply (decided_rest _ _ j); [done |]. apply beyond; [done | | intros b [[? _]|[? _]]; auto].
      destruct (shown_start D j) as [[_ E]|[_ E]]; rewrite E in Hgt; lia.
Qed.
(** ** What is kept, by values *)
Lemma first_index r : r ∈ ranges cp -> exists i, 0 <= i < N /\ at_ i = r /\ forall k, 0 <= k < i -> at_ k <> r.
Proof.
  intros (i & Hi & E)%elem_of_ranges. revert Hi E. induction (Z.lt_wf 0 i) as [i _ IH]. intros Hi E.
  destruct (decide (Exists (fun k => at_ k = r) (seqZ 0 i))) as [(n & Hn%elem_of_seqZ & En)%list.Exists_exists|Hno].
  - apply (IH n); [lia | lia | done].
  - exists i. do 2 (split; [done |]). intros k Hk Ek. apply Hno, list.Exists_exists. exists k. split; [apply elem_of_seqZ; lia | done].
Qed.

Lemma last_index r : r ∈ ranges cp -> exists i, 0 <= i < N /\ at_ i = r /\ forall k, i < k < N -> at_ k <> r.
Proof.
  intros (i & Hi & E)%elem_of_ranges. remember (N - i) as d eqn:Ed. revert i Ed Hi E. induction (Z.lt_wf 0 d) as [d _ IH]. intros i -> Hi E.
  destruct (decide (Exists (fun k => at_ k = r) (seqZ (i + 1) (N - i - 1)))) as [(n & Hn%elem_of_seqZ & En)%list.Exists_exists|Hno].
  - apply (IH (N - n)) with n; [lia | done | lia | done].
  - exists i. do 2 (split; [done |]). intros k Hk Ek. apply Hno, list.Exists_exists. exists k. split; [apply elem_of_seqZ; lia | done].
Qed.

Lemma in_ranges i : 0 <= i < N -> at_ i ∈ ranges cp.
Proof. intros Hi. apply elem_of_ranges. by exists i. Qed.

Section Kept.
Context (cp' : CorpusList) (D : gset Z).
Hypothesis (Eh : hits cp' = keep D (hits cp)).

Lemma uniq_kept : (forall j, 0 <= j < N -> (j ∈ D <-> exists i, 0 <= i < j /\ same i j)) ->
  StronglySorted rlt (ranges cp') /\ forall r, r ∈ ranges cp' <-> r ∈ ranges cp.
Proof.
  intros HD. split.
  - apply (kept_sorted cp' D Eh). intros i j Hi Hj Hij _ Hd E. apply Hd, HD; [done |]. exists i. by split; [lia |].
  - intros r. rewrite (elem_of_kept cp' D r Eh). split; [intros (i & Hi & _ & <-); by apply in_ranges |].
    intros (i & Hi & <- & Hfst)%first_index. exists i. split; [done |]. split; [| done]. rewrite HD by done. intros (k & Hk & E). by apply (Hfst k).
Qed.

Lemma same_start_kept : (forall j, 0 <= j < N -> (j ∈ D <-> exists i, 0 <= i < j /\ same_start i j)) ->
  StronglySorted rlt (ranges cp') /\
  forall r, r ∈ ranges cp' <-> r ∈ ranges cp /\ forall s, s ∈ ranges cp -> rstart s = rstart r -> rend r <= rend s.
Proof.
  intros HD. split.
  - apply (kept_sorted cp' D Eh). intros i j Hi Hj Hij _ Hd E. apply Hd, HD; [done |]. exists i. split; [lia |]. unfold same_start. by rewrite E.
  - intros r. rewrite (elem_of_kept cp' D r Eh). split.
    + intros (i & Hi & Hd & <-). split; [by apply in_ranges |]. intros s (k & Hk & <-)%elem_of_ranges Es.
      destruct (Z.lt_ge_cases k i) as [Hl|Hge]; [destruct Hd; apply HD; [done |]; exists k; split; [lia | done] |].
      destruct (Z.eq_dec k i) as [->|]; [lia |]. pose proof (at_le i k Hi Hk). lia.
    + intros [(i & Hi & <- & Hfst)%first_index Hs]. exists i. split; [done |]. split; [| done]. rewrite HD by done. intros (k & Hk & E).
      apply (Hfst k); [done |]. red in E. specialize (Hs (at_ k) (in_ranges k ltac:(lia)) E). pose proof (at_le k i ltac:(lia) Hi). apply range_eq; lia.
Qed.

Lemma same_end_kept : (forall j, 0 <= j < N -> (j ∈ D <-> exists i, 0 <= i < N /\ same_end_before i j)) ->
  StronglySorted rlt (ranges cp') /\
  forall r, r ∈ ranges cp' <-> r ∈ ranges cp /\ forall s, s ∈ ranges cp -> rend s = rend r -> rstart r <= rstart s.
Proof.
  intros HD. split.
  - apply (kept_sorted cp' D Eh). intros i j Hi Hj Hij _ Hd E. apply Hd, HD; [done |]. exists i. split; [done |]. split; [done |]. by rewrite E.
  - intros r. rewrite (elem_of_kept cp' D r Eh). split.
    + intros (i & Hi & Hd & <-). split; [by apply in_ranges |]. intros s (k & Hk & <-)%elem_of_ranges Es.
      destruct (Z.lt_ge_cases k i) as [Hl|Hge]; [destruct Hd; apply HD; [done |]; exists k; split; [lia | done] | by apply at_start_le].
    + intros [(i & Hi & <- & Hfst)%first_index Hs]. exists i. split; [done |]. split; [| done]. rewrite HD by done. intros (k & Hk & Hki & E).
      apply (Hfst k); [lia |]. specialize (Hs (at_ k) (in_ranges k Hk) E). pose proof (at_le k i Hk Hi). apply range_eq; lia.
Qed.

Lemma maximal_kept : (forall j, 0 <= j < N -> (j ∈ D <-> exists i, 0 <= i < N /\ larger i j)) ->
  StronglySorted rlt (ranges cp') /\
  forall r, r ∈ ranges cp' <-> r ∈ ranges cp /\ forall s, s ∈ ranges cp -> inside r s -> s = r.
Proof.
  intros HD. split.
  - apply (kept_sorted cp' D Eh). intros i j Hi Hj Hij _ Hd E. apply Hd, HD; [done |]. exists i. split; [done |]. split; [rewrite E; unfold inside; lia | by right].
  - intros r. rewrite (elem_of_kept cp' D r Eh). split.
    + intros (i & Hi & Hd & <-). split; [by apply in_ranges |]. intros s (k & Hk & <-)%elem_of_ranges Hin.
      destruct (decide (at_ k = at_ i)) as [|Hne]; [done |]. destruct Hd. apply HD; [done |]. exists k. split; [done |]. split; [done | by left].
    + intros [(i & Hi & <- & Hfst)%first_index Hs]. exists i. split; [done |]. split; [| done]. rewrite HD by done. intros (k & Hk & Hin & Hd).
      specialize (Hs (at_ k) (in_ranges k Hk) Hin). destruct Hd as [|Hki]; [done |]. by apply (Hfst k ltac:(lia)).
Qed.

Lemma minimal_kept : (forall j, 0 <= j < N -> (j ∈ D <-> exists i, 0 <= i < N /\ smaller i j)) ->
  StronglySorted rlt (ranges cp') /\
  forall r, r ∈ ranges cp' <-> r ∈ ranges cp /\ forall s, s ∈ ranges cp -> inside s r -> s = r.
Proof.
  intros HD. split.
  - apply (kept_sorted cp' D Eh). intros i j Hi Hj Hij Hd _ E. apply Hd, HD; [done |]. exists j. split; [done |]. split; [rewrite E; unfold inside; lia | by right].
  - intros r. rewrite (elem_of_kept cp' D r Eh). split.
    + intros (i & Hi & Hd & <-). split; [by apply in_ranges |]. intros s (k & Hk & <-)%elem_of_ranges Hin.
      destruct (decide (at_ k = at_ i)) as [|Hne]; [done |]. destruct Hd. apply HD; [done |]. exists k. split; [done |]. split; [done | by left].
    + intros [(i & Hi & <- & Hlst)%last_index Hs]. exists i. split; [done |]. split; [| done]. rewrite HD by done. intros (k & Hk & Hin & Hd).
      specialize (Hs (at_ k) (in_ranges k Hk) Hin). destruct Hd as [|Hki]; [done |]. by apply (Hlst k ltac:(lia)).
Qed.

Lemma overlap_kept : (forall j, 0 <= j < N -> (j ∈ D <-> exists i, 0 <= i < j /\ i ∉ D /\ overlaps i j)) ->
  StronglySorted rlt (ranges cp') /\
  forall r, r ∈ ranges cp' <-> r ∈ ranges cp /\ forall s, s ∈ ranges cp' -> rlt s r -> rend s < rstart r.
Proof.
  intros HD. split.
  - apply (kept_sorted cp' D Eh). intros i j Hi Hj Hij Hd Hd' E. apply Hd', HD; [done |]. exists i. split; [lia |]. split; [done |]. red. rewrite <- E. by apply at_pos.
  - intros r. rewrite (elem_of_kept cp' D r Eh). split.
    + intros (i & Hi & Hd & <-). split; [by apply in_ranges |]. intros s Hs Hlt. apply (elem_of_kept cp' D s Eh) in Hs as (k & Hk & Hdk & <-).
      destruct (Z.lt_ge_cases (rend (at_ k)) (rstart (at_ i))) as [|Hge]; [done |]. destruct Hd. apply HD; [done |]. exists k. split; [| by split].
      destruct (Z.lt_ge_cases k i) as [|Hki]; [lia |]. destruct (Z.eq_dec k i) as [->|]; [destruct Hlt as [|[_ ?]]; lia |]. pose proof (at_le i k Hi Hk). destruct Hlt; lia.
    + intros [(i & Hi & <- & Hfst)%first_index Hs]. exists i. split; [done |]. split; [| done]. rewrite HD by done. intros (k & Hk & Hdk & Ho). red in Ho.
      assert (at_ k ∈ ranges cp') as Hin by (apply (elem_of_kept cp' D _ Eh); exists k; split; [lia | done]).
      pose proof (at_le k i ltac:(lia) Hi). assert (~ rlt (at_ k) (at_ i)) as Hn by (intros Hl; specialize (Hs (at_ k) Hin Hl); lia).
      apply (Hfst k ltac:(lia)). unfold rlt in Hn. apply range_eq; lia.
Qed.
End Kept.
End Strategy.

(** ** The operations *)

(** The ranges of [X] that an operation leaves; [K] is its result. *)
Definition chosen (op : RangeSetOp) (X K : list Range) (r : Range) : Prop :=
  match op with
  | RMaximalMatches => forall s, s ∈ X -> inside r s -> s = r
  | RMinimalMatches => forall s, s ∈ X -> inside s r -> s = r
  | RLeftMaximalMatches =>
      (forall s, s ∈ X -> rstart s = rstart r -> rend r <= rend s) /\
      forall s, s ∈ X -> (forall t, t ∈ X -> rstart t = rstart s -> rend s <= rend t) -> rend s = rend r -> rstart r <= rstart s
  | RNonOverlapping => forall s, s ∈ K -> rlt s r -> rend s < rstart r
  | RUniq => True
  | _ => False
  end.

Definition on_one_list (op : RangeSetOp) : Prop :=
  match op with RUnion | RIntersection | RDiff | RReduce => False | _ => True end.

Lemma rlt_sorted l : StronglySorted rlt l -> StronglySorted rle l.
Proof.
  intros H. apply sorted_aget. intros i j x y Hij Hi Hj. left. by apply (proj1 (sorted_aget rlt l) H i j).
Qed.

Lemma keep_sub D cp cp' : hits cp' = keep D (hits cp) -> hits cp' `sublist_of` hits cp.
Proof. intros ->. apply keep_sublist. Qed.

(** The result of a scan, after [touch_corpus]. *)
Lemma strategy_result malloc0 realloc0 cp op : wf cp -> StronglySorted rle (ranges cp) -> on_one_list op ->
  exists cp', RangeSetop malloc0 realloc0 cp op None None = Ok (touch_corpus cp', 1) /\ wf cp' /\ hits cp' `sublist_of` hits cp /\
    StronglySorted rlt (ranges cp') /\ forall r, r ∈ ranges cp' <-> r ∈ ranges cp /\ chosen op (ranges cp) (ranges cp') r.
Proof.
  intros W Hs Hop. unfold RangeSetop. destruct op; try done; cbv beta iota.
  - destruct (maximal_scan realloc0 cp W Hs) as (D & cp' & -> & W' & Eh & _ & HD). res_cbn. exists cp'. do 2 (split; [done |]).
    split; [by apply (keep_sub D) | by apply (maximal_kept cp W Hs cp' D Eh)].
  - destruct (minimal_scan realloc0 cp W Hs) as (D & cp' & -> & W' & Eh & _ & HD). res_cbn. exists cp'. do 2 (split; [done |]).
    split; [by apply (keep_sub D) | by apply (minimal_kept cp W Hs cp' D Eh)].
  - destruct (same_start_scan realloc0 cp W Hs) as (D1 & cp1 & -> & W1 & Eh1 & _ & HD1). res_cbn.
    destruct (same_start_kept cp W Hs cp1 D1 Eh1 HD1) as [S1 K1]. apply rlt_sorted in S1 as Hs1.
    destruct (same_end_scan realloc0 cp1 W1 Hs1) as (D & cp' & -> & W' & Eh & _ & HD). res_cbn. exists cp'. do 2 (split; [done |]).
    destruct (same_end_kept cp1 W1 Hs1 cp' D Eh HD) as [S2 K2].
    split; [transitivity (hits cp1); [by apply (keep_sub D) | by apply (keep_sub D1)] |]. split; [done |]. intros r. rewrite K2, K1. cbn [chosen]. split.
    + intros [[Hr Hf] Hl]. split; [done |]. split; [done |]. intros s Hin Hfs. apply Hl, K1. by split.
    + intros (Hr & Hf & Hl). split; [by split |]. intros s Hin. apply K1 in Hin as [Hin Hfs]. by apply Hl.
  - destruct (overlap_scan realloc0 cp W Hs) as (D & cp' & -> & W' & Eh & _ & HD). res_cbn. exists cp'. do 2 (split; [done |]).
    split; [by apply (keep_sub D) | by apply (overlap_kept cp W Hs cp' D Eh)].
  - destruct (uniq_scan realloc0 cp W Hs) as (D & cp' & -> & W' & Eh & _ & HD). res_cbn. exists cp'. do 2 (split; [done |]).
    split; [by apply (keep_sub D) |]. destruct (uniq_kept cp W Hs cp' D Eh HD) as [S1 K1]. split; [done |]. intros r. rewrite K1. cbn. tauto.
Qed.

Lemma touch_ranges cp : ranges (touch_corpus cp) = ranges cp.
Proof. unfold touch_corpus. by case_decide. Qed.

(** C8. The matching strategies: on a query result in ascending order (of two ranges with the same start the
    shorter one first) [RangeSetop] leaves the ranges that
    lie in no other one (RMaximalMatches, for longest), contain no other one (RMinimalMatches, for shortest), are the shortest
    with their start and then the longest with their end (RLeftMaximalMatches, for standard), or do not overlap
    with a range that was kept before (RNonOverlapping); duplicates are removed, the order and the targets
    and keywords of the ranges that are left stay.  RLeftMaximalMatches keeps ranges that overlap
    ([standard_keeps_overlaps]): it does what the comment in its own case says, not what the comment in front of the three
    strategies says. *)
Theorem matching_strategies malloc0 realloc0 cp op : wf cp -> StronglySorted rle (ranges cp) -> on_one_list op ->
  exists cp', RangeSetop malloc0 realloc0 cp op None None = Ok (cp', 1) /\ wf cp' /\ hits cp' `sublist_of` hits cp /\
    StronglySorted rlt (ranges cp') /\ forall r, r ∈ ranges cp' <-> r ∈ ranges cp /\ chosen op (ranges cp) (ranges cp') r.
Proof.
  intros W Hs Hop. destruct (strategy_result malloc0 realloc0 cp op W Hs Hop) as (cp' & E & W' & Hsub & Hst & HK).
  exists (touch_corpus cp'). rewrite touch_hits, touch_ranges. split; [done |]. split; [by apply touch_wf | done].
Qed.

(** Overlapping ranges with different starts and ends stay. *)
Example standard_keeps_overlaps : (fun r => ranges r.1) <$>
  RangeSetop true true (mkCL TEMP false false (Some [mkRange 1 3; mkRange 2 5]) 2 None None None) RLeftMaximalMatches None None = Ok [mkRange 1 3; mkRange 2 5].
Proof. vm_compute. reflexivity. Qed.

(** A query result with targets. *)
Definition sample_result : CorpusList :=
  mkCL TEMP false false (Some [mkRange 1 3; mkRange 1 5; mkRange 2 5; mkRange 2 5; mkRange 7 7]) 5 None (Some [1; 2; 3; 4; 5]) None.

Lemma sample_wf : wf sample_result /\ StronglySorted rle (ranges sample_result).
Proof.
  split.
  - split; cbn; try done; [by intros l [= <-] | repeat (constructor; [cbn; lia |]); constructor].
  - unfold sample_result, ranges, rle, rlt; cbn. repeat (constructor; [| repeat (constructor; [cbn; lia || (by right) |]); constructor]). constructor.
Qed.

Lemma matching_strategies_witness :
  exists cp', RangeSetop true true sample_result RLeftMaximalMatches None None = Ok (cp', 1) /\ wf cp' /\ hits cp' `sublist_of` hits sample_result /\
    StronglySorted rlt (ranges cp') /\ forall r, r ∈ ranges cp' <-> r ∈ ranges sample_result /\ chosen RLeftMaximalMatches (ranges sample_result) (ranges cp') r.
Proof. apply matching_strategies; [apply sample_wf | apply sample_wf | done]. Defined.

Example sample_strategies :
  (fun op => (fun r => ranges r.1) <$> RangeSetop true true sample_result op None None) <$> [RMaximalMatches; RMinimalMatches; RLeftMaximalMatches; RNonOverlapping; RUniq] =
  [Ok [mkRange 1 5; mkRange 7 7]; Ok [mkRange 1 3; mkRange 2 5; mkRange 7 7]; Ok [mkRange 1 3; mkRange 2 5; mkRange 7 7]; Ok [mkRange 1 3; mkRange 7 7];
   Ok [mkRange 1 3; mkRange 1 5; mkRange 2 5; mkRange 7 7]].
Proof. vm_compute. reflexivity. Qed.
