(* ===== verification/RangesSets.v ===== *)
(** * Set operations on query results

    Intersection and difference of sorted query results are filters of the first list
    ([both_loop]); the union is a merge, which takes the targets and keywords of a range from the
    first list if it is there ([union_loop]).  [rangesetop_sets] is the theorem. *)

From Stdlib Require Import ZArith Lia Sorted.
From stdpp Require Import base tactics option list numbers gmap.
From S2P Require Import Prelude.
From S2P Require Import Bitfields.
From S2P Require Import Ranges.
From S2P Require Import RangesMatch.

Open Scope Z_scope.

Lemma rlt_trans r s t : rlt r s -> rlt s t -> rlt r t.
Proof. unfold rlt. lia. Qed.

Lemma rlt_irrefl r : ~ rlt r r.
Proof. unfold rlt. lia. Qed.

Lemma keep_filter {A} (P : A -> Prop) `{forall x, Decision (P x)} D l : (forall i x, aget l i = Ok x -> (i ∉ D <-> P x)) -> keep D l = filter P l.
Proof.
  unfold keep. intros HD. assert (forall k, (forall i x, l !! i = Some x -> (k + Z.of_nat i ∉ D <-> P x)) -> keep_from k D l = filter P l) as Hk.
  { clear HD. induction l as [|x l IH]; intros k HD; [done |]. cbn [keep_from]. rewrite filter_cons. pose proof (HD 0%nat x eq_refl) as Hx. rewrite Z.add_0_r in Hx.
    rewrite (IH (k + 1)) by (intros i y Hy; rewrite <- (HD (S i) y Hy), succ_shift; done). repeat case_decide; tauto. }
  apply Hk. intros i x Hx. apply (HD (Z.of_nat i)). by apply aget_nat.
Qed.

(** The comparisons of two ranges in the code. *)
Lemma compare_ranges {A} x y (a b c d e : A) :
  (if rstart x <? rstart y then a else if rstart y <? rstart x then b else if rend x =? rend y then c else if rend x <? rend y then d else e) =
  if decide (x = y) then c else if decide (rlt x y) then (if rstart x <? rstart y then a else d) else (if rstart y <? rstart x then b else e).
Proof.
  destruct (decide (x = y)) as [->|Hne]; [by rewrite !Z.ltb_irrefl, Z.eqb_refl |].
  assert (~ (rstart x = rstart y /\ rend x = rend y)) as Hn by (intros [? ?]; by apply Hne, range_eq).
  unfold rlt. destruct (decide _) as [Hl|Hl]; repeat case_Z; try done; lia.
Qed.

Lemma not_rlt_ne x y : x <> y -> ~ rlt x y -> rlt y x.
Proof.
  intros Hne Hn. assert (~ (rstart x = rstart y /\ rend x = rend y)) by (intros [? ?]; by apply Hne, range_eq). unfold rlt in *. lia.
Qed.

(** ** The numbers in a set *)
Section Taken.
Context (S : gset Z).

Definition taken_before (j : Z) : Z := Z.of_nat (length (filter (.∈ S) (seqZ 0 j))).

Lemma taken_succ j : 0 <= j -> taken_before (j + 1) = taken_before j + if decide (j ∈ S) then 1 else 0.
Proof.
  intros Hj. unfold taken_before. rewrite seqZ_app, filter_app, length_app by lia. rewrite Z.add_0_l, (seqZ_cons j 1), (seqZ_nil _ (Z.pred 1)) by lia.
  rewrite filter_cons, filter_nil. case_decide; cbn [length]; lia.
Qed.

Lemma taken_mono j j' : 0 <= j <= j' -> taken_before j <= taken_before j'.
Proof.
  intros Hj. replace j' with (j + (j' - j)) by lia. unfold taken_before. rewrite seqZ_app, filter_app, length_app by lia. lia.
Qed.
End Taken.

Lemma sorted_snoc (l : list Range) x : StronglySorted rlt l -> (forall y, y ∈ l -> rlt y x) -> StronglySorted rlt (l ++ [x]).
Proof.
  induction 1 as [|y l Hs IH Hf]; intros Hx; cbn; [repeat constructor |]. constructor; [apply IH; intros z Hz; apply Hx; by right |].
  apply List.Forall_app. split; [done |]. constructor; [apply Hx; by left | constructor].
Qed.

Section TwoLists.
Context (c1 c2 : CorpusList).
Hypothesis (W1 : wf c1) (W2 : wf c2) (S1 : StronglySorted rlt (ranges c1)) (S2 : StronglySorted rlt (ranges c2)).

Let N1 := csize c1.
Let N2 := csize c2.

Lemma at_lt c i j : wf c -> StronglySorted rlt (ranges c) -> 0 <= i -> i < j -> j < csize c -> rlt (at_ c i) (at_ c j).
Proof. intros W S Hi Hij Hj. apply (proj1 (sorted_aget rlt _) S i j); [done | apply (at_ok c W); lia | apply (at_ok c W); lia]. Qed.

Lemma get_any c j : wf c -> 0 <= j < csize c -> get_range c j = Ok (at_ c j).
Proof.
  intros W Hj. pose proof (at_ok c W j Hj) as E. unfold get_range, ranges in *. destruct (range c) as [l|]; [by res_cbn |].
  by apply aget_nil in E.
Qed.

Lemma get_second j : 0 <= j < N2 -> get_range c2 j = Ok (at_ c2 j).
Proof. by apply get_any. Qed.

(** Where the two lists stand: what is before [j] in the second is before [i] in the first. *)
Definition abreast (i j : Z) : Prop := forall i' j', i <= i' < N1 -> 0 <= j' < j -> rlt (at_ c2 j') (at_ c1 i').

Lemma abreast_not_in i j : abreast i j -> 0 <= i < N1 -> 0 <= j <= N2 -> (j < N2 -> rlt (at_ c1 i) (at_ c2 j)) -> at_ c1 i ∉ ranges c2.
Proof.
  intros A Hi Hj Hl (k & Hk & E)%(elem_of_ranges c2 W2). fold N2 in Hk. destruct (Z.lt_ge_cases k j) as [|Hge].
  - pose proof (A i k ltac:(lia) ltac:(lia)) as HA. rewrite E in HA. by apply rlt_irrefl in HA.
  - assert (rlt (at_ c1 i) (at_ c2 k)) as HA; [| rewrite E in HA; by apply rlt_irrefl in HA].
    destruct (Z.eq_dec k j) as [->|]; [apply Hl; lia |]. eapply rlt_trans; [apply Hl; lia | apply at_lt; [done | done | lia | lia | apply Hk]].
Qed.

Lemma abreast_next i j : abreast i j -> 0 <= i -> abreast (i + 1) j.
Proof. intros A Hi i' j' Hi' Hj'. apply A; lia. Qed.

Lemma abreast_second i j : abreast i j -> 0 <= i < N1 -> rle (at_ c2 j) (at_ c1 i) -> abreast (i + 1) (j + 1).
Proof.
  intros A Hi Hle i' j' Hi' Hj'. destruct (Z.eq_dec j' j) as [->|]; [| apply A; lia].
  assert (rlt (at_ c1 i) (at_ c1 i')) as H by (apply at_lt; [done | done | lia | lia | apply Hi']).
  destruct Hle as [Hle| ->]; [by eapply rlt_trans | done].
Qed.

Lemma abreast_skip i j : abreast i j -> 0 <= i < N1 -> rlt (at_ c2 j) (at_ c1 i) -> abreast i (j + 1).
Proof.
  intros A Hi Hl i' j' Hi' Hj'. destruct (Z.eq_dec j' j) as [->|]; [| apply A; lia].
  destruct (Z.eq_dec i' i) as [->|]; [done |]. eapply rlt_trans; [exact Hl |]. apply at_lt; [done | done | lia | lia | apply Hi'].
Qed.

(** ** Intersection and difference *)

(** The marks after [i] ranges: those that are not in the second list (Intersection), or
    those that are (Difference). *)
Definition goes (drop : bool) (r : Range) : Prop := if drop then r ∉ ranges c2 else r ∈ ranges c2.

Definition marked_to (drop : bool) (i : Z) (D : gset Z) : Prop := forall k, k ∈ D <-> 0 <= k < i /\ goes drop (at_ c1 k).

Lemma marked_to_keep drop i D : marked_to drop i D -> ~ goes drop (at_ c1 i) -> marked_to drop (i + 1) D.
Proof.
  intros M Hg k. rewrite (M k). split; [intros [? ?]; split; [lia | done] |]. intros [Hk Hgk]. destruct (Z.eq_dec k i) as [->|]; [done | split; [lia | done]].
Qed.

Lemma marked_to_mark drop i D : 0 <= i -> marked_to drop i D -> goes drop (at_ c1 i) -> marked_to drop (i + 1) ({[i]} ∪ D).
Proof.
  intros Hi M Hg k. rewrite elem_of_union, elem_of_singleton, (M k). split.
  - intros [->|[? ?]]; split; [lia | done | lia | done].
  - intros [Hk Hgk]. destruct (Z.eq_dec k i) as [->|]; [by left | right; split; [lia | done]].
Qed.

Lemma both_step drop D i j : 0 <= i < N1 -> 0 <= j < N2 -> marked_to drop i D -> abreast i j -> exists D' i' j',
  both_round drop (Some c2) (marked c1 D, i, j) = Ok (inl (marked c1 D', i', j')) /\ i <= i' <= N1 /\ j <= j' <= N2 /\ i + j < i' + j' /\
  marked_to drop i' D' /\ abreast i' j'.
Proof.
  intros Hi Hj M A. assert (i ∉ D) as Hd by (intros [? _]%M; lia). unfold both_round. rewrite (marked_size c1). fold N1. rewrite (proj2 (Z.ltb_lt i N1)) by lia. res_cbn.
  fold N2. rewrite (proj2 (Z.ltb_lt j N2)) by lia. rewrite (get_at c1 W1), decide_False, get_second by done. res_cbn.
  rewrite (compare_ranges (at_ c1 i) (at_ c2 j)). destruct (decide (at_ c1 i = at_ c2 j)) as [E|E]; [| destruct (decide (rlt (at_ c1 i) (at_ c2 j))) as [Hl|Hl]].
  - assert (at_ c1 i ∈ ranges c2) as Hin by (rewrite E; by apply in_ranges). pose proof (abreast_second i j A Hi (or_intror (eq_sym E))) as A'.
    destruct drop; res_cbn.
    + exists D, (i + 1), (j + 1). split; [done |]. do 3 (split; [lia |]). split; [| done]. apply marked_to_keep; [done | by intros []].
    + rewrite (set_at c1 W1) by done. res_cbn. exists ({[i]} ∪ D), (i + 1), (j + 1). split; [done |]. do 3 (split; [lia |]). split; [| done]. apply marked_to_mark; [lia | done | done].
  - assert (at_ c1 i ∉ ranges c2) as Hnin by (apply (abreast_not_in i j); [done | done | lia | done]). pose proof (abreast_next i j A ltac:(lia)) as A'.
    exists (if drop then {[i]} ∪ D else D), (i + 1), j. split.
    + destruct drop; [rewrite (set_at c1 W1) by done |]; res_cbn; by destruct (rstart _ <? rstart _).
    + do 3 (split; [lia |]). split; [| done]. destruct drop; [apply marked_to_mark; [lia | done | done] | by apply marked_to_keep].
  - assert (rlt (at_ c2 j) (at_ c1 i)) as Hg.
    { by apply not_rlt_ne. }
    exists D, i, (j + 1). split; [by destruct (rstart _ <? rstart _) |]. do 3 (split; [lia |]). split; [done | by apply abreast_skip].
Qed.

Lemma both_loop drop : marked c1 ∅ = c1 -> exists D i, loop (both_round drop (Some c2)) fuel (c1, 0, 0) = Ok (marked c1 D, i) /\ 0 <= i <= N1 /\
  marked_to drop i D /\ forall k, i <= k < N1 -> at_ c1 k ∉ ranges c2.
Proof.
  intros Em. pose proof (wf_size _ W1) as Z1. pose proof (wf_size _ W2) as Z2. pose proof (zlen_nonneg (ranges c1)) as P1. pose proof (zlen_nonneg (ranges c2)) as P2.
  pose proof (wf_int _ W1) as I1. pose proof (wf_int _ W2) as I2. fold N1 in I1, Z1. fold N2 in I2, Z2. unfold INT_MAX in I1, I2.
  destruct (loop_rule (both_round drop (Some c2))
    (fun st => exists D i j, st = (marked c1 D, i, j) /\ 0 <= i <= N1 /\ 0 <= j <= N2 /\ marked_to drop i D /\ abreast i j)
    (fun r => exists D i, r = (marked c1 D, i) /\ 0 <= i <= N1 /\ marked_to drop i D /\ forall k, i <= k < N1 -> at_ c1 k ∉ ranges c2)
    (fun st => N1 + N2 - st.1.2 - st.2)) with (p := fuel) (s := (c1, 0, 0)) as (r & E & D & i & -> & Hr).
  - intros st (D & i & j & -> & Hi & Hj & M & A). cbn [fst snd]. split; [lia |].
    destruct (Z.lt_ge_cases i N1) as [Hl|Hl]; [destruct (Z.lt_ge_cases j N2) as [Hl'|Hl'] |].
    + left. destruct (both_step drop D i j) as (D' & i' & j' & E & Hi' & Hj' & Hlt & M' & A'); [lia | lia | done | done |].
      eexists. split; [exact E |]. cbn [fst snd]. split; [| lia]. exists D', i', j'. split; [done |]. split; [lia |]. split; [lia | done].
    + right. exists (marked c1 D, i). split.
      * unfold both_round. rewrite (marked_size c1). fold N1. rewrite (proj2 (Z.ltb_lt i N1)) by lia. res_cbn. fold N2. by rewrite (proj2 (Z.ltb_ge j N2)) by lia.
      * exists D, i. split; [done |]. split; [done |]. split; [done |]. intros k Hk. apply (abreast_not_in k j); [| lia | lia | lia].
        intros i' j' Hi' Hj'. apply A; lia.
    + right. exists (marked c1 D, i). split; [unfold both_round; rewrite (marked_size c1); fold N1; by rewrite (proj2 (Z.ltb_ge i N1)) by lia |].
      exists D, i. split; [done |]. split; [done |]. split; [done |]. intros k Hk. lia.
  - exists ∅, 0, 0. rewrite Em. split; [done |]. split; [lia |]. split; [lia |]. split; [intros k; split; [set_solver | lia] | intros ? ? ? ?; lia].
  - cbn [fst snd]. rewrite fuel_val. lia.
  - by exists D, i.
Qed.
(** The rest of the first list is marked. *)
Lemma mark_rest D i : 0 <= i <= N1 -> loop mark_round fuel (marked c1 D, i) = Ok (marked c1 (D ∪ list_to_set (seqZ i (N1 - i)))).
Proof.
  intros Hi. pose proof (wf_int _ W1) as I1. fold N1 in I1. unfold INT_MAX in I1.
  destruct (loop_rule mark_round (fun st => exists E k, st = (marked c1 E, k) /\ i <= k <= N1 /\ forall x, x ∈ E <-> x ∈ D \/ i <= x < k)
    (fun r => r = marked c1 (D ∪ list_to_set (seqZ i (N1 - i)))) (fun st => N1 - st.2)) with (p := fuel) (s := (marked c1 D, i)) as (r & -> & ->).
  - intros st (E & k & -> & Hk & HE). cbn [snd]. split; [lia |]. unfold mark_round. rewrite (marked_size c1). fold N1. case_Z.
    + left. rewrite (set_at c1 W1) by (fold N1; lia). res_cbn. eexists. split; [done |]. cbn [snd]. split; [| lia].
      eexists _, _. split; [done |]. split; [lia |]. intros x. rewrite elem_of_union, elem_of_singleton, HE. destruct (Z.eq_dec x k); intuition lia.
    + right. eexists. split; [done |]. f_equal. apply set_eq. intros x. rewrite HE, elem_of_union, elem_of_list_to_set, elem_of_seqZ. intuition lia.
  - exists D, i. split; [done |]. split; [lia |]. intros x. intuition lia.
  - cbn [snd]. rewrite fuel_val. lia.
  - done.
Qed.

Lemma in_list c r : wf c -> r ∈ ranges c -> exists i, 0 <= i < csize c /\ at_ c i = r.
Proof. intros W Hr. by apply (elem_of_ranges c W). Qed.

(** A hit by its index. *)
Lemma hit_range c i h : wf c -> aget (hits c) i = Ok h -> 0 <= i < csize c /\ h.1.1 = at_ c i.
Proof.
  intros W Hh. pose proof (aget_range _ _ _ Hh) as Hi. rewrite zlen_hits, <- (wf_size _ W) in Hi. split; [done |].
  pose proof (at_ok c W i Hi) as [_ E]%aget_Ok. apply aget_Ok in Hh as [_ Hh]. rewrite <- (hits_ranges c), !list_lookup_fmap, Hh in E. by injection E.
Qed.

Lemma filter_result realloc0 D (P : Range -> Prop) `{forall r, Decision (P r)} : (forall k, 0 <= k < N1 -> (k ∉ D <-> P (at_ c1 k))) ->
  exists cp', reduce realloc0 (marked c1 D) = Ok cp' /\ wf cp' /\ hits cp' = filter (fun h => P h.1.1) (hits c1) /\ ctype cp' = ctype c1.
Proof.
  intros HD. destruct (reduce_marked realloc0 c1 D W1) as (cp' & E & W' & Eh & Ec). exists cp'. do 2 (split; [done |]). split; [| done].
  rewrite Eh. apply (keep_filter (fun h : hit => P h.1.1)). intros i h Hh. destruct (hit_range c1 i h W1 Hh) as [Hi ->]. by apply HD.
Qed.

Lemma setop_intersection_ok realloc0 : marked c1 ∅ = c1 -> exists cp', setop_intersection realloc0 c1 (Some c2) = Ok cp' /\ wf cp' /\
  hits cp' = filter (fun h => h.1.1 ∈ ranges c2) (hits c1).
Proof.
  intros Em. destruct (both_loop true Em) as (D & i & E & Hi & M & Hrest). unfold setop_intersection. rewrite E. res_cbn. rewrite mark_rest by done. res_cbn.
  destruct (filter_result realloc0 (D ∪ list_to_set (seqZ i (N1 - i))) (fun r => r ∈ ranges c2)) as (cp' & -> & W' & Eh & _).
  - intros k Hk. rewrite not_elem_of_union, elem_of_list_to_set, elem_of_seqZ. unfold marked_to, goes in M. rewrite M.
    destruct (Z.lt_ge_cases k i) as [Hl|Hl].
    + destruct (decide (at_ c1 k ∈ ranges c2)); split; [done | | | done].
      * intros _. split; [by intros [_ []] | lia].
      * intros [[] _]. by split; [lia |].
    + split; [intros [_ []]; lia |]. intros Hin. destruct (Hrest k ltac:(lia) Hin).
  - res_cbn. exists (touch_corpus cp'). split; [done |]. rewrite touch_hits. split; [by apply touch_wf | done].
Qed.

Lemma setop_diff_ok realloc0 : marked c1 ∅ = c1 -> exists cp', setop_diff realloc0 c1 (Some c2) = Ok cp' /\ wf cp' /\
  hits cp' = filter (fun h => h.1.1 ∉ ranges c2) (hits c1).
Proof.
  intros Em. destruct (both_loop false Em) as (D & i & E & Hi & M & Hrest). unfold setop_diff. rewrite E. res_cbn. cbn [fst].
  destruct (filter_result realloc0 D (fun r => r ∉ ranges c2)) as (cp' & -> & W' & Eh & _).
  - intros k Hk. unfold marked_to, goes in M. rewrite M. destruct (Z.lt_ge_cases k i) as [Hl|Hl].
    + split; [intros H Hin; apply H; split; [lia | done] | intros Hn [_ ?]; done].
    + split; [intros _; apply Hrest; lia | intros _ [? _]; lia].
  - res_cbn. exists (touch_corpus cp'). split; [done |]. rewrite touch_hits. split; [by apply touch_wf | done].
Qed.
(** ** Union *)

(** A row of the result: the target and the keyword are -1 if the list has none. *)
Definition row (c : CorpusList) (i : Z) : Range * Z * Z :=
  (at_ c i, default (-1) (targets c ≫= (.!! Z.to_nat i)), default (-1) (keywords c ≫= (.!! Z.to_nat i))).

Context (S : gset Z) (restrictor : Bitfield) (cap : Z) (ft fk : bool).

(** The ranges of the second list that are taken. *)
Hypothesis (Hrest : forall j, 0 <= j < N2 -> allowed restrictor j = Ok (bool_decide (j ∈ S))).

Hypothesis (Hcap : cap = N1 + taken_before S N2).

Definition arrays (O : list (Range * Z * Z)) : tmp_arrays :=
  mkTmp O.*1.*1 (if ft then Some O.*1.*2 else None) (if fk then Some O.*2 else None).

Lemma push_cell_ok (b : bool) (l : list Z) (src : option (list Z)) c i : 0 <= i < csize c -> (forall k, src = Some k -> zlen k = csize c) -> zlen l < cap ->
  push_cell cap (if b then Some l else None) src i = Ok (if b then Some (l ++ [default (-1) (src ≫= (.!! Z.to_nat i))]) else None).
Proof.
  intros Hi Hs Hl. destruct b; [| done]. unfold push_cell, push. destruct src as [k|].
  - destruct (aget_some k i) as [v Hv]; [rewrite (Hs k eq_refl); lia |]. rewrite Hv. res_cbn. rewrite (proj2 (Z.ltb_lt _ _)) by done. res_cbn.
    apply aget_Ok in Hv as [_ Hv]. cbn. by rewrite Hv.
  - res_cbn. rewrite (proj2 (Z.ltb_lt _ _)) by done. by res_cbn.
Qed.

Lemma copy_row O c i : wf c -> 0 <= i < csize c -> zlen O < cap -> rs_cp_range cap (arrays O) c i = Ok (arrays (O ++ [row c i])).
Proof.
  intros W Hi Hl. unfold rs_cp_range. rewrite get_any by done. res_cbn. assert (forall A (f : Range * Z * Z -> A), zlen (f <$> O) = zlen O) as Hz by (intros; unfold zlen; by rewrite length_fmap).
  unfold push. cbn [tmp tmp_target tmp_keyword arrays]. rewrite (proj2 (Z.ltb_lt _ _)) by (unfold zlen; by rewrite !length_fmap). res_cbn.
  rewrite (push_cell_ok ft) with (c := c) by (done || apply W || (unfold zlen; by rewrite !length_fmap)). res_cbn.
  rewrite (push_cell_ok fk) with (c := c) by (done || apply W || (unfold zlen; by rewrite !length_fmap)). res_cbn.
  unfold arrays. rewrite !fmap_app. by destruct ft, fk.
Qed.

(** What has been copied when the loop is at [i] and [j]. *)
Record merged (i j : Z) (O : list (Range * Z * Z)) : Prop := {
  m_in : forall h, h ∈ O <-> (exists k, 0 <= k < i /\ h = row c1 k) \/ (exists k, 0 <= k < j /\ k ∈ S /\ at_ c2 k ∉ ranges c1 /\ h = row c2 k);
  m_len : zlen O <= i + taken_before S j;
  m_sorted : StronglySorted rlt O.*1.*1;
  m_first : forall h k, h ∈ O -> i <= k < N1 -> rlt h.1.1 (at_ c1 k);
  m_second : forall h k, h ∈ O -> j <= k < N2 -> rlt h.1.1 (at_ c2 k)
}.

(** A new row behind the others. *)
Lemma merged_snoc O i j i' j' h : merged i j O -> i <= i' -> j <= j' -> zlen O + 1 <= i' + taken_before S j' ->
  (forall y, y ∈ O -> rlt y.1.1 h.1.1) -> (forall k, i' <= k < N1 -> rlt h.1.1 (at_ c1 k)) -> (forall k, j' <= k < N2 -> rlt h.1.1 (at_ c2 k)) ->
  (forall g, g ∈ O \/ g = h <-> (exists k, 0 <= k < i' /\ g = row c1 k) \/ (exists k, 0 <= k < j' /\ k ∈ S /\ at_ c2 k ∉ ranges c1 /\ g = row c2 k)) ->
  merged i' j' (O ++ [h]).
Proof.
  intros [M1 M2 M3 M4 M5] Hi Hj Hlen Hy H1 H2 Hin. split.
  - intros g. rewrite elem_of_app, list_elem_of_singleton. apply Hin.
  - rewrite zlen_snoc. lia.
  - rewrite !fmap_app. apply sorted_snoc; [done |]. intros r (x & -> & (y & -> & Hin')%list_elem_of_fmap)%list_elem_of_fmap. by apply Hy.
  - intros g k [Hg| ->%list_elem_of_singleton]%elem_of_app Hk; [apply M4; [done | lia] | by apply H1].
  - intros g k [Hg| ->%list_elem_of_singleton]%elem_of_app Hk; [apply M5; [done | lia] | by apply H2].
Qed.

Lemma row_range c k : (row c k).1.1 = at_ c k.
Proof. done. Qed.

Lemma merged_first O i j : merged i j O -> 0 <= i < N1 -> 0 <= j <= N2 -> (j < N2 -> rlt (at_ c1 i) (at_ c2 j)) -> merged (i + 1) j (O ++ [row c1 i]).
Proof.
  intros M Hi Hj Hl. apply (merged_snoc O i j); try done; try lia.
  - pose proof (m_len _ _ _ M). lia.
  - intros y Hy. apply (m_first _ _ _ M); [done | lia].
  - intros k Hk. apply at_lt; [done | done | lia | lia | apply Hk].
  - intros k Hk. rewrite row_range. destruct (Z.eq_dec k j) as [->|]; [apply Hl; lia |]. eapply rlt_trans; [apply Hl; lia |]. apply at_lt; [done | done | lia | lia | apply Hk].
  - intros g. rewrite (m_in _ _ _ M). split.
    + intros [[(k & Hk & ->)|?]| ->]; [left; exists k; split; [lia | done] | by right | left; exists i; split; [lia | done]].
    + intros [(k & Hk & ->)|?]; [| left; by right]. destruct (Z.eq_dec k i) as [->|]; [by right | left; left; exists k; split; [lia | done]].
Qed.

Lemma merged_equal O i j : merged i j O -> 0 <= i < N1 -> 0 <= j < N2 -> at_ c1 i = at_ c2 j -> merged (i + 1) (j + 1) (O ++ [row c1 i]).
Proof.
  intros M Hi Hj E. apply (merged_snoc O i j); try done; try lia.
  - pose proof (m_len _ _ _ M). pose proof (taken_mono S j (j + 1)). lia.
  - intros y Hy. apply (m_first _ _ _ M); [done | lia].
  - intros k Hk. apply at_lt; [done | done | lia | lia | apply Hk].
  - intros k Hk. rewrite row_range, E. apply at_lt; [done | done | lia | lia | apply Hk].
  - intros g. rewrite (m_in _ _ _ M). split.
    + intros [[(k & Hk & ->)|(k & Hk & ?)]| ->]; [left; exists k; split; [lia | done] | right; exists k; split; [lia | done] | left; exists i; split; [lia | done]].
    + intros [(k & Hk & ->)|(k & Hk & Hks & Hn & ->)].
      * destruct (Z.eq_dec k i) as [->|]; [by right | left; left; exists k; split; [lia | done]].
      * destruct (Z.eq_dec k j) as [->|]; [| left; right; exists k; split; [lia | done]]. destruct Hn. rewrite <- E. by apply in_ranges.
Qed.

Lemma merged_second O i j : merged i j O -> 0 <= i <= N1 -> 0 <= j < N2 -> (i < N1 -> rlt (at_ c2 j) (at_ c1 i)) ->
  merged i (j + 1) (if decide (j ∈ S) then O ++ [row c2 j] else O).
Proof.
  intros M Hi Hj Hl. assert (forall k, i <= k < N1 -> rlt (at_ c2 j) (at_ c1 k)) as Hlt.
  { intros k Hk. destruct (Z.eq_dec k i) as [->|]; [apply Hl; lia |]. eapply rlt_trans; [apply Hl; lia |]. apply at_lt; [done | done | lia | lia | apply Hk]. }
  assert (at_ c2 j ∉ ranges c1) as Hn.
  { intros (k & Hk & E)%(in_list c1 _ W1). destruct (Z.lt_ge_cases k i).
    - assert (rlt (row c1 k).1.1 (at_ c2 j)) as HA by (apply (m_second _ _ _ M); [apply (m_in _ _ _ M); left; exists k; split; [lia | done] | lia]).
      rewrite row_range, E in HA. by apply rlt_irrefl in HA.
    - pose proof (Hlt k ltac:(fold N1 in Hk; lia)) as HA. rewrite E in HA. by apply rlt_irrefl in HA. }
  pose proof (m_len _ _ _ M) as Hlen. pose proof (taken_succ S j ltac:(lia)) as Ht. case_decide as Hjs.
  - apply (merged_snoc O i j); try done; try lia.
    + intros y Hy. apply (m_second _ _ _ M); [done | lia].
    + intros k Hk. rewrite row_range. apply at_lt; [done | done | lia | lia | apply Hk].
    + intros g. rewrite (m_in _ _ _ M). split.
      * intros [[?|(k & Hk & ?)]| ->]; [by left | right; exists k; split; [lia | done] | right; exists j; split; [lia | done]].
      * intros [?|(k & Hk & Hks & Hkn & ->)]; [left; by left |]. destruct (Z.eq_dec k j) as [->|]; [by right | left; right; exists k; split; [lia | done]].
  - destruct M as [M1 M2 M3 M4 M5]. split; [| lia | done | done | intros h k Hh Hk; apply M5; [done | lia]].
    intros g. rewrite M1. split; (intros [?|(k & Hk & Hks & ?)]; [by left | right; exists k]); [split; [lia | done] |].
    split; [| done]. destruct (Z.eq_dec k j) as [->|]; [done | lia].
Qed.
Lemma copy_second_ok O j : 0 <= j < N2 -> (j ∈ S -> zlen O < cap) ->
  copy_second cap c2 restrictor (arrays O) j = Ok (arrays (if decide (j ∈ S) then O ++ [row c2 j] else O)).
Proof.
  intros Hj Hl. unfold copy_second. rewrite Hrest by done. res_cbn. case_decide as Hs; [rewrite bool_decide_eq_true_2 by done | by rewrite bool_decide_eq_false_2 by done].
  apply copy_row; [done | done | by apply Hl].
Qed.

Lemma room O i j : merged i j O -> 0 <= i <= N1 -> 0 <= j <= N2 -> (i < N1 -> zlen O < cap) /\ (j < N2 -> j ∈ S -> zlen O < cap).
Proof.
  intros M Hi Hj. pose proof (m_len _ _ _ M) as Hl. pose proof (taken_mono S j N2 Hj). split; [lia |]. intros Hj' Hs.
  pose proof (taken_succ S j ltac:(lia)) as Ht. rewrite decide_True in Ht by done. pose proof (taken_mono S (j + 1) N2). lia.
Qed.

(** One round of the union. *)
Lemma union_step O i j : merged i j O -> 0 <= i <= N1 -> 0 <= j <= N2 -> i < N1 \/ j < N2 -> exists O' i' j',
  union_round c1 c2 restrictor cap (arrays O, i, j) = Ok (inl (arrays O', i', j')) /\ i <= i' <= N1 /\ j <= j' <= N2 /\ i + j < i' + j' /\ merged i' j' O'.
Proof.
  intros M Hi Hj Hor. destruct (room O i j M Hi Hj) as [R1 R2]. unfold union_round. fold N1 N2.
  assert ((i <? N1) || (j <? N2) = true) as -> by (destruct (Z.ltb_spec i N1), (Z.ltb_spec j N2); done || lia). cbn [negb].
  assert (i < N1 -> (j < N2 -> rlt (at_ c1 i) (at_ c2 j)) -> exists O' i' j',
    (t ← rs_cp_range cap (arrays O) c1 i; Ok (inl (t, i + 1, j))) = Ok (inl (arrays O', i', j') : tmp_arrays * Z * Z + tmp_arrays) /\
    i <= i' <= N1 /\ j <= j' <= N2 /\ i + j < i' + j' /\ merged i' j' O') as First.
  { intros Hl Hlt. rewrite copy_row by (done || lia || by apply R1). res_cbn. eexists _, _, _. split; [done |]. do 3 (split; [lia |]). apply merged_first; done || lia. }
  assert (j < N2 -> (i < N1 -> rlt (at_ c2 j) (at_ c1 i)) -> exists O' i' j',
    (t ← copy_second cap c2 restrictor (arrays O) j; Ok (inl (t, i, j + 1))) = Ok (inl (arrays O', i', j') : tmp_arrays * Z * Z + tmp_arrays) /\
    i <= i' <= N1 /\ j <= j' <= N2 /\ i + j < i' + j' /\ merged i' j' O') as Second.
  { intros Hl Hlt. rewrite copy_second_ok by (lia || by apply R2). res_cbn. eexists _, _, _. split; [done |]. do 3 (split; [lia |]). apply merged_second; done || lia. }
  case_Z; [apply First; lia |]. case_Z; [apply Second; lia |].
  rewrite get_any by (done || (fold N1; lia)). res_cbn. rewrite get_any by (done || (fold N2; lia)). res_cbn.
  rewrite compare_ranges. case_decide as E; [| case_decide as Hl].
  - rewrite copy_row by (done || (fold N1; lia) || (apply R1; lia)). res_cbn. eexists _, _, _. split; [done |]. do 3 (split; [lia |]). apply merged_equal; [done | lia | lia | done].
  - destruct (rstart _ <? rstart _); apply First; done || lia.
  - assert (rlt (at_ c2 j) (at_ c1 i)) by (by apply not_rlt_ne). destruct (rstart _ <? rstart _); apply Second; done || lia.
Qed.

Lemma merged_start : merged 0 0 [].
Proof.
  split.
  - intros h. rewrite elem_of_nil. split; [done |]. intros [(k & Hk & _)|(k & Hk & _)]; lia.
  - done.
  - constructor.
  - by intros h k ?%elem_of_nil.
  - by intros h k ?%elem_of_nil.
Qed.

Lemma union_loop : exists O, loop (union_round c1 c2 restrictor cap) fuel (arrays [], 0, 0) = Ok (arrays O) /\ merged N1 N2 O.
Proof.
  pose proof (wf_size _ W1) as Z1. pose proof (wf_size _ W2) as Z2. pose proof (zlen_nonneg (ranges c1)) as P1. pose proof (zlen_nonneg (ranges c2)) as P2.
  pose proof (wf_int _ W1) as I1. pose proof (wf_int _ W2) as I2. fold N1 in I1, Z1. fold N2 in I2, Z2. unfold INT_MAX in I1, I2.
  destruct (loop_rule (union_round c1 c2 restrictor cap)
    (fun st => exists O i j, st = (arrays O, i, j) /\ 0 <= i <= N1 /\ 0 <= j <= N2 /\ merged i j O)
    (fun r => exists O, r = arrays O /\ merged N1 N2 O) (fun st => N1 + N2 - st.1.2 - st.2)) with (p := fuel) (s := (arrays [], 0, 0)) as (r & E & O & -> & M).
  - intros st (O & i & j & -> & Hi & Hj & M). cbn [fst snd]. split; [lia |]. destruct (decide (i < N1 \/ j < N2)) as [Hor|Hno].
    + left. destruct (union_step O i j M Hi Hj Hor) as (O' & i' & j' & E & Hi' & Hj' & Hlt & M'). eexists. split; [exact E |]. cbn [fst snd].
      split; [| lia]. exists O', i', j'. split; [done |]. split; [lia |]. split; [lia | done].
    + right. exists (arrays O). assert (i = N1) as -> by lia. assert (j = N2) as -> by lia. split; [| by exists O].
      unfold union_round. fold N1 N2. by rewrite !Z.ltb_irrefl.
  - exists [], 0, 0. split; [done |]. split; [lia |]. split; [lia | apply merged_start].
  - cbn [fst snd]. rewrite fuel_val. lia.
  - by exists O.
Qed.
End TwoLists.

(** ** The union *)

(** [selects restrictor S n]: the bits of the restrictor that are set are [S]. *)
Definition selects (restrictor : Bitfield) (S : gset Z) (n : Z) : Prop :=
  match restrictor with None => forall j, 0 <= j < n -> j ∈ S | Some b => exists m, n <= m /\ represents m S b end.

Section Union.
Context (malloc0 realloc0 : bool) (c1 c2 : CorpusList) (restrictor : Bitfield) (S : gset Z).
Hypothesis (W1 : wf c1) (W2 : wf c2) (S1 : StronglySorted rlt (ranges c1)) (S2 : StronglySorted rlt (ranges c2)).
Hypothesis (Hsel : selects restrictor S (csize c2)).

Lemma size_nonneg c : wf c -> 0 <= csize c.
Proof. intros W. rewrite (wf_size _ W). apply zlen_nonneg. Qed.

Lemma selects_bit j : 0 <= j < csize c2 -> allowed restrictor j = Ok (bool_decide (j ∈ S)).
Proof.
  intros Hj. unfold allowed. unfold selects in Hsel. destruct restrictor as [b|].
  - destruct Hsel as (m & Hm & R). rewrite (get_bit_ok m S b R) by lia. res_cbn. case_decide; [by rewrite bool_decide_true | by rewrite bool_decide_false].
  - by rewrite bool_decide_true by (by apply Hsel).
Qed.

Lemma taken_bounds n : 0 <= n -> 0 <= taken_before S n <= n.
Proof.
  intros Hn. unfold taken_before. pose proof (length_filter (.∈ S) (seqZ 0 n)) as H. rewrite length_seqZ in H. lia.
Qed.

Lemma taken_all n : 0 <= n -> (forall j, 0 <= j < n -> j ∈ S) -> taken_before S n = n.
Proof.
  revert n. apply (natlike_ind (fun n => _ -> taken_before S n = n)); [done |]. intros n Hn IH H.
  rewrite <- Z.add_1_r, taken_succ, IH by (done || intros j Hj; apply H; lia). rewrite decide_True; [lia | apply H; lia].
Qed.

Lemma intervals_to_copy_ok : intervals_to_copy restrictor c2 = Ok (taken_before S (csize c2)).
Proof.
  pose proof (size_nonneg c2 W2) as P2. pose proof (wf_int _ W2) as I2. unfold intervals_to_copy. unfold selects in Hsel. destruct restrictor as [b|].
  - destruct Hsel as (m & Hm & R). destruct (for_up_rule (count_body (Some b)) (fun i n => 0 <= i /\ n = taken_before S i) 0 (csize c2) 0) as (n & -> & _ & ->); [done | | done | done].
    intros i n Hi [Hp ->]. unfold count_body. rewrite (get_bit_ok m S b R) by lia. res_cbn. pose proof (taken_succ S i Hp) as Ht. pose proof (taken_bounds (i + 1) ltac:(lia)) as Hb.
    destruct (decide (i ∈ S)); cbn [negb Z.eqb].
    + rewrite c_int_Ok by (unfold INT_MAX, INT_MIN in *; lia). eexists. split; [done |]. lia.
    + eexists. split; [done |]. lia.
  - by rewrite taken_all.
Qed.

(** A missing target or keyword is -1. *)
Definition flat (h : hit) : Range * Z * Z := (h.1.1, default (-1) h.1.2, default (-1) h.2).

Lemma row_flat c k h : wf c -> aget (hits c) k = Ok h -> row c k = flat h.
Proof.
  intros W Hh. destruct (hit_range c k h W Hh) as [Hk E]. unfold row, flat. rewrite <- E. apply aget_Ok in Hh as [_ Hh]. unfold hits in Hh. rewrite list_lookup_imap in Hh.
  destruct (ranges c !! Z.to_nat k); [| done]. by injection Hh as <-.
Qed.

Lemma hit_some c k : wf c -> 0 <= k < csize c -> exists h, aget (hits c) k = Ok h.
Proof. intros W Hk. apply aget_some. rewrite zlen_hits. rewrite <- (wf_size _ W). lia. Qed.

Lemma at_hit c k h : wf c -> aget (hits c) k = Ok h -> at_ c k = h.1.1.
Proof. intros W Hh. symmetry. by apply hit_range. Qed.

(** What the union has. *)
Definition in_union (g : Range * Z * Z) : Prop :=
  (exists h, h ∈ hits c1 /\ g = flat h) \/ (exists j h, aget (hits c2) j = Ok h /\ j ∈ S /\ h.1.1 ∉ ranges c1 /\ g = flat h).

Lemma merged_union O g : merged c1 c2 S (csize c1) (csize c2) O -> g ∈ O <-> in_union g.
Proof.
  intros M. rewrite (m_in _ _ _ _ _ _ M). unfold in_union. split.
  - intros [(k & Hk & ->)|(k & Hk & Hs & Hn & ->)].
    + destruct (hit_some c1 k W1 Hk) as [h Hh]. left. exists h. split; [| by apply row_flat]. apply aget_Ok in Hh as [_ Hh]. by eapply list_elem_of_lookup_2.
    + destruct (hit_some c2 k W2 Hk) as [h Hh]. right. exists k, h. rewrite <- (at_hit c2 k h W2 Hh). repeat (split; [done |]). by apply row_flat.
  - intros [(h & [k Hk]%list_elem_of_lookup & ->)|(k & h & Hh & Hs & Hn & ->)].
    + apply aget_nat in Hk. left. exists (Z.of_nat k). split; [by apply (hit_range c1 _ h W1) | symmetry; by apply row_flat].
    + right. exists k. split; [by apply (hit_range c2 k h W2) |]. split; [done |]. rewrite (at_hit c2 k h W2 Hh). split; [done |]. symmetry. by apply row_flat.
Qed.

(** A list with the rows [O]; there may be no arrays if there are no rows. *)
Definition holds_rows (cp : CorpusList) (O : list (Range * Z * Z)) : Prop :=
  csize cp = zlen O /\ ranges cp = O.*1.*1 /\ (targets cp = Some O.*1.*2 \/ targets cp = None /\ forall g, g ∈ O -> g.1.2 = -1) /\
  (keywords cp = Some O.*2 \/ keywords cp = None /\ forall g, g ∈ O -> g.2 = -1).

Lemma holds_hits cp O : holds_rows cp O -> flat <$> hits cp = O.
Proof.
  intros (_ & Hr & Ht & Hk). apply list_eq. intros i. unfold hits. rewrite Hr, list_lookup_fmap, list_lookup_imap, !list_lookup_fmap.
  destruct (O !! i) as [[[r t] k]|] eqn:E; [| done]. cbn. unfold flat. cbn [fst snd]. do 2 f_equal; [f_equal |].
  - destruct Ht as [->|[-> H]]; cbn; [by rewrite !list_lookup_fmap, E | symmetry; apply (H (r, t, k)); by eapply list_elem_of_lookup_2].
  - destruct Hk as [->|[-> H]]; cbn; [by rewrite !list_lookup_fmap, E | symmetry; apply (H (r, t, k)); by eapply list_elem_of_lookup_2].
Qed.

Lemma holds_wf cp O : holds_rows cp O -> zlen O <= INT_MAX -> (forall g, g ∈ O -> 0 <= rstart g.1.1 <= rend g.1.1) -> wf cp.
Proof.
  intros (Hs & Hr & Ht & Hk) Hi Hp. assert (forall A (f : Range * Z * Z -> A), zlen (f <$> O) = zlen O) as Hz by (intros; unfold zlen; by rewrite length_fmap).
  split.
  - rewrite Hs, Hr. unfold zlen. by rewrite !length_fmap.
  - by rewrite Hs.
  - intros l Hl. destruct Ht as [Ht|[Ht _]]; rewrite Ht in Hl; [| done]. injection Hl as <-. rewrite Hs. unfold zlen. by rewrite !length_fmap.
  - intros l Hl. destruct Hk as [Hk|[Hk _]]; rewrite Hk in Hl; [| done]. injection Hl as <-. rewrite Hs. unfold zlen. by rewrite !length_fmap.
  - rewrite Hr. apply list.Forall_forall. intros r (x & -> & (g & -> & Hg)%list_elem_of_fmap)%list_elem_of_fmap. by apply Hp.
Qed.

Lemma take_rows {A} (f : Range * Z * Z -> A) O : take (Z.to_nat (zlen O)) (f <$> O) = f <$> O.
Proof. apply take_ge. rewrite length_fmap. unfold zlen. lia. Qed.

Lemma hit_target c h : h ∈ hits c -> targets c = None -> h.1.2 = None.
Proof. intros [i Hi]%list_elem_of_lookup Ht. unfold hits in Hi. rewrite list_lookup_imap, Ht in Hi. destruct (ranges c !! i); [| done]. by injection Hi as <-. Qed.

Lemma hit_keyword c h : h ∈ hits c -> keywords c = None -> h.2 = None.
Proof. intros [i Hi]%list_elem_of_lookup Ht. unfold hits in Hi. rewrite list_lookup_imap, Ht in Hi. destruct (ranges c !! i); [| done]. by injection Hi as <-. Qed.

Lemma union_from g : in_union g -> exists c h, (c = c1 \/ c = c2) /\ h ∈ hits c /\ g = flat h.
Proof.
  intros [(h & Hh & ->)|(j & h & Hh & _ & _ & ->)]; [exists c1, h; tauto |]. exists c2, h. split; [tauto |]. split; [| done].
  apply aget_Ok in Hh as [_ Hh]. by eapply list_elem_of_lookup_2.
Qed.

(** The arrays of the result after the cells that are not used have been given back. *)
Lemma shrunk_cells (b : bool) (col : Range * Z * Z -> Z) O n : (b = false -> forall g, g ∈ O -> col g = -1) -> zlen O <= n ->
  let a := if zlen O <? n then shrink_if realloc0 (if b then Some (col <$> O) else None) (zlen O) else (if b then Some (col <$> O) else None) in
  a = Some (col <$> O) \/ a = None /\ forall g, g ∈ O -> col g = -1.
Proof.
  intros Hb Hn. cbv zeta. case_Z; [| by destruct b; [left | right; split; [| apply Hb]]].
  destruct b; cbn; [| right; split; [done | by apply Hb]]. unfold shrink_to. case_Z.
  - destruct O; [| rewrite zlen_cons in *; pose proof (zlen_nonneg O); lia]. destruct realloc0; [by left | right; split; [done | by intros g ?%elem_of_nil]].
  - left. cbn. by rewrite take_rows.
Qed.

Lemma shrunk_ranges O n : default [] (if zlen O <? n then shrink_to realloc0 (Some ((fun g : Range * Z * Z => g.1.1) <$> O)) (zlen O) else Some ((fun g => g.1.1) <$> O)) = (fun g => g.1.1) <$> O.
Proof.
  destruct (zlen O <? n); [| done]. unfold shrink_to. case_Z.
  - destruct O; [by destruct realloc0 | rewrite zlen_cons in *; pose proof (zlen_nonneg O); lia].
  - cbn. by rewrite take_rows.
Qed.

Definition has (a b : option (list Z)) : bool := match a, b with None, None => false | _, _ => true end.

Lemma new_array_ok a b n : check_malloc malloc0 n = Ok tt -> new_array malloc0 a b n = Ok (if has a b then Some [] else None).
Proof. intros H. unfold new_array. destruct a, b; try done; rewrite H; by res_cbn. Qed.

Lemma has_false a b : has a b = false -> a = None /\ b = None.
Proof. by destruct a, b. Qed.

Lemma no_targets (O : list (Range * Z * Z)) : (forall g, g ∈ O -> in_union g) -> has (targets c1) (targets c2) = false -> forall g, g ∈ O -> g.1.2 = -1.
Proof.
  intros Hin [E1 E2]%has_false g (c & h & Hc & Hh & ->)%Hin%union_from. cbn. rewrite (hit_target c h Hh); [done | by destruct Hc as [-> | ->]].
Qed.

Lemma no_keywords (O : list (Range * Z * Z)) : (forall g, g ∈ O -> in_union g) -> has (keywords c1) (keywords c2) = false -> forall g, g ∈ O -> g.2 = -1.
Proof.
  intros Hin [E1 E2]%has_false g (c & h & Hc & Hh & ->)%Hin%union_from. cbn. rewrite (hit_keyword c h Hh); [done | by destruct Hc as [-> | ->]].
Qed.

Lemma union_positions g : in_union g -> 0 <= rstart g.1.1 <= rend g.1.1.
Proof.
  intros (c & h & Hc & [i Hi]%list_elem_of_lookup & ->)%union_from. assert (wf c) as W by (by destruct Hc as [-> | ->]).
  apply aget_nat in Hi. destruct (hit_range c _ h W Hi) as [Hi' E]. cbn. rewrite E. by apply at_pos.
Qed.

Lemma setop_union_ok : csize c1 + csize c2 <= INT_MAX -> malloc0 = true \/ 0 < csize c1 + taken_before S (csize c2) ->
  exists cp', setop_union malloc0 realloc0 c1 (Some c2) restrictor = Ok cp' /\ wf cp' /\ StronglySorted rlt (ranges cp') /\
    forall g, g ∈ flat <$> hits cp' <-> in_union g.
Proof.
  intros Hmax Hm. pose proof (size_nonneg c1 W1) as P1. pose proof (size_nonneg c2 W2) as P2. pose proof (taken_bounds (csize c2) P2) as Hb.
  unfold setop_union. case_Z.
  { exists c1. split; [done |]. split; [done |]. split; [done |]. intros g. unfold in_union. rewrite list_elem_of_fmap. split.
    - intros (h & -> & Hh). left. by exists h.
    - intros [(h & Hh & ->)|(j & h & Hh & _)]; [by exists h |]. apply (hit_range c2 j h W2) in Hh as [? _]. lia. }
  rewrite intervals_to_copy_ok. res_cbn. set (cap := csize c1 + taken_before S (csize c2)) in *.
  rewrite c_int_Ok by (unfold INT_MIN, INT_MAX in *; lia). res_cbn.
  assert (check_malloc malloc0 cap = Ok tt) as Ec.
  { unfold check_malloc. destruct (Z.ltb_spec cap 0); [lia |]. destruct Hm as [->|Hm]; [by rewrite andb_false_r |]. by destruct (Z.eqb_spec cap 0); [lia |]. }
  rewrite Ec. res_cbn. rewrite !new_array_ok by done. res_cbn.
  set (ft := has (targets c1) (targets c2)). set (fk := has (keywords c1) (keywords c2)).
  destruct (union_loop c1 c2 W1 W2 S1 S2 S restrictor cap ft fk selects_bit eq_refl) as (O & El & M). unfold arrays in El at 1. cbn [fmap list_fmap] in El. rewrite El. res_cbn.
  pose proof (m_len _ _ _ _ _ _ M) as Hlen. fold cap in Hlen. assert (zlen (tmp (arrays ft fk O)) = zlen O) as Ez by (unfold arrays, zlen; cbn; by rewrite !length_fmap).
  rewrite Ez, (proj2 (Z.leb_le _ _)) by done. unfold c_assert. res_cbn.
  set (cp := mkCL _ _ _ _ _ _ _ _). exists (touch_corpus cp). split; [done |]. rewrite touch_hits, touch_ranges.
  assert (forall g, g ∈ O -> in_union g) as Hin by (intros g; by apply merged_union).
  assert (holds_rows cp O) as Hh.
  { pose proof (shrunk_cells ft (fun g => g.1.2) O cap (no_targets O Hin) Hlen) as Ht. pose proof (shrunk_cells fk (fun g => g.2) O cap (no_keywords O Hin) Hlen) as Hk.
    pose proof (shrunk_ranges O cap) as Hr. unfold holds_rows, ranges, cp, arrays. cbn [csize range targets keywords tmp tmp_target tmp_keyword].
    cbv zeta in Ht, Hk. rewrite <- !list_fmap_compose. unfold compose. destruct (zlen O <? cap); cbn [fst snd]; (split; [done |]); (split; [exact Hr |]); by split. }
  split; [apply touch_wf; apply (holds_wf cp O Hh); [lia | intros g Hg; by apply union_positions, Hin] |].
  split; [destruct Hh as (_ & -> & _); apply M |].
  intros g. rewrite (holds_hits cp O) by done. by apply merged_union.
Qed.

End Union.

(** A query result without an array of ranges. *)
Lemma no_ranges realloc0 c1 c2 : wf c1 -> range c1 = None ->
  setop_intersection realloc0 c1 c2 = Ok (touch_corpus c1) /\ setop_diff realloc0 c1 c2 = Ok (touch_corpus c1) /\ hits c1 = [].
Proof.
  intros W E. assert (csize c1 = 0) as Ez by (rewrite (wf_size _ W); unfold ranges; by rewrite E).
  assert (forall b, both_round b c2 (c1, 0, 0) = Ok (inr (c1, 0))) as Eb by (intros b; unfold both_round; by rewrite Ez).
  assert (mark_round (c1, 0) = Ok (inr c1)) as Em by (unfold mark_round; by rewrite Ez).
  assert (reduce realloc0 c1 = Ok c1) as Er by (unfold reduce; by rewrite E).
  unfold setop_intersection, setop_diff. split; [| split; [| unfold hits, ranges; by rewrite E]].
  - rewrite (loop_exit _ _ _ _ (Eb true)). res_cbn. rewrite (loop_exit _ _ _ _ Em). res_cbn. rewrite Er. by res_cbn.
  - rewrite (loop_exit _ _ _ _ (Eb false)). res_cbn. cbn [fst]. rewrite Er. by res_cbn.
Qed.

Lemma marked_none c : range c <> None -> marked c ∅ = c.
Proof. intros H. unfold marked, with_range, ranges. rewrite mark_empty. destruct c as [? ? ? [l|] ? ? ? ?]; done. Qed.


(** Two lists, one with targets and one with keywords. *)
Definition sample_first : CorpusList := mkCL TEMP false false (Some [mkRange 1 3; mkRange 1 5; mkRange 7 7]) 3 None (Some [1; 2; 3]) None.
Definition sample_second : CorpusList := mkCL TEMP false false (Some [mkRange 0 3; mkRange 1 5; mkRange 2 2; mkRange 9 9]) 4 None None (Some [4; 5; 6; 7]).

Lemma sample_lists : wf sample_first /\ wf sample_second /\ StronglySorted rlt (ranges sample_first) /\ StronglySorted rlt (ranges sample_second).
Proof.
  split; [| split; [| split]].
  - split; cbn; try done; [by intros l [= <-] | repeat (constructor; [cbn; lia |]); constructor].
  - split; cbn; try done; [by intros l [= <-] | repeat (constructor; [cbn; lia |]); constructor].
  - unfold ranges, sample_first, rlt; cbn. repeat (constructor; [| repeat (constructor; [cbn; lia |]); constructor]). constructor.
  - unfold ranges, sample_second, rlt; cbn. repeat (constructor; [| repeat (constructor; [cbn; lia |]); constructor]). constructor.
Qed.


Example sample_sets :
  (fun op => (fun r => flat <$> hits r.1) <$> RangeSetop true true sample_first op (Some sample_second) None) <$> [RUnion; RIntersection; RDiff] =
  [Ok [(mkRange 0 3, -1, 4); (mkRange 1 3, 1, -1); (mkRange 1 5, 2, -1); (mkRange 2 2, -1, 6); (mkRange 7 7, 3, -1); (mkRange 9 9, -1, 7)];
   Ok [(mkRange 1 5, 2, -1)]; Ok [(mkRange 1 3, 1, -1); (mkRange 7 7, 3, -1)]].
Proof. vm_compute. reflexivity. Qed.
