(* ===== verification/Symtab.v ===== *)
(** * Labels of queries: cqp/symtab.c

    A symbol table maps the names of labels, in two name spaces, to indices of reference
    tables; every state of the simulation of an automaton has a reference table of its own
    with the corpus positions of the labels.  A pointer into a list of labels is the rest of
    the list.  [symbol_table_refines_map], [check_labels_exact]. *)

From Stdlib Require Import ZArith Lia Ascii String.
From stdpp Require Import base tactics option list numbers gmap.
From S2P Require Import Prelude.

Open Scope Z_scope.

(** ** Data *)
Definition LAB_DEFINED : Z := 1.
Definition LAB_USED : Z := 2.
Definition LAB_SPECIAL : Z := 4.
Definition LAB_RDAT : Z := 8.

Record label_entry := mkLabel { flags : Z; name : list Z; ref : Z }.

#[export] Instance label_entry_eq_dec : EqDecision label_entry.
Proof. solve_decision. Defined.

Record symbol_table := mkSymtab { user : list label_entry; rdat : list label_entry; next_index : Z }.

(** [FieldType] of cqp/corpmanag.h. *)
Inductive FieldType := MatchField | MatchEndField | TargetField | KeywordField | NoField.

#[export] Instance FieldType_eq_dec : EqDecision FieldType.
Proof. solve_decision. Defined.

(** The bytes of a string constant. *)
Definition chars (s : string) : list Z := (fun c => Z.of_N (N_of_ascii c)) <$> list_ascii_of_string s.

(** [strcasecmp(a, b) == 0] in the C locale. *)
Definition lower (c : Z) : Z := if (65 <=? c) && (c <=? 90) then c + 32 else c.
Definition strcaseeq (a b : list Z) : bool := bool_decide (lower <$> a = lower <$> b).

(** cqp/corpmanag.c *)
Definition field_name_to_type (name : list Z) : FieldType :=
  if strcaseeq name (chars "nofield") then NoField
  else if strcaseeq name (chars "keyword") then KeywordField
  else if strcaseeq name (chars "target") || strcaseeq name (chars "collocate") then TargetField
  else if strcaseeq name (chars "match") then MatchField
  else if strcaseeq name (chars "matchend") then MatchEndField
  else NoField.

(** ** Symbol tables *)
Definition new_symbol_table : symbol_table := mkSymtab [] [] 0.

(** [x & y], as a condition. *)
Definition has_flag (x y : Z) : bool := negb (Z.land x y =? 0).

Definition namespace (st : symbol_table) (fl : Z) : list label_entry := if has_flag fl LAB_RDAT then rdat st else user st.

Fixpoint find_entry (l : list label_entry) (s : list Z) : option label_entry :=
  match l with [] => None | e :: l => if decide (name e = s) then Some e else find_entry l s end.

Definition findlabel (st : symbol_table) (s : list Z) (fl : Z) : option label_entry := find_entry (namespace st fl) s.

Definition set_namespace (st : symbol_table) (fl : Z) (l : list label_entry) : symbol_table :=
  if has_flag fl LAB_RDAT then mkSymtab (user st) l (next_index st) else mkSymtab l (rdat st) (next_index st).

(** [l->flags |= flags] for the entry that was found. *)
Fixpoint add_flags (s : list Z) (fl : Z) (l : list label_entry) : list label_entry :=
  match l with
  | [] => []
  | e :: l => if decide (name e = s) then mkLabel (Z.lor (flags e) fl) (name e) (ref e) :: l else e :: add_flags s fl l
  end.

Definition with_flags (e : label_entry) (fl : Z) : label_entry := mkLabel (Z.lor (flags e) fl) (name e) (ref e).

Definition labellookup (st : symbol_table) (s : list Z) (fl : Z) (create : bool) : res (symbol_table * option label_entry) :=
  match findlabel st s fl with
  | Some e => Ok (set_namespace st fl (add_flags s fl (namespace st fl)), Some (with_flags e fl))
  | None =>
      let user_namespace := negb (has_flag fl LAB_RDAT) in
      let this_label := user_namespace && bool_decide (s = chars "_") in
      if create || this_label then
        let is_special := this_label || negb (bool_decide (field_name_to_type s = NoField)) in
        let fl' := if is_special then Z.lor fl LAB_SPECIAL else fl in
        r ← (if this_label then Ok (-1, next_index st) else n ← c_int (next_index st + 1); Ok (next_index st, n));
        let e := mkLabel fl' s r.1 in
        let st := mkSymtab (user st) (rdat st) r.2 in
        Ok (set_namespace st fl (e :: namespace st fl), Some e)
      else Ok (st, None)
  end.

(** One label of the loop of [check_labels]. *)
Definition check_label (result : Z) (l : label_entry) : Z :=
  if negb (has_flag (flags l) LAB_SPECIAL) then
    let result := if negb (has_flag (flags l) LAB_USED) then 0 else result in
    if negb (has_flag (flags l) LAB_DEFINED) then result + 1 else result
  else result.

Definition check_labels (st : symbol_table) : Z := foldl check_label 1 (user st).

(** The rest of the list that starts with a label that has all flags. *)
Fixpoint first_with (fl : Z) (l : list label_entry) : list label_entry :=
  match l with [] => [] | e :: l' => if Z.land (flags e) fl =? fl then l else first_with fl l' end.

Definition symbol_table_iterator (prev : list label_entry) (fl : Z) : list label_entry :=
  match prev with [] => [] | _ :: l => first_with fl l end.

Definition symbol_table_new_iterator (st : option symbol_table) (fl : Z) : list label_entry :=
  match st with
  | Some st =>
      let lab := namespace st fl in
      match lab with e :: _ => if negb (Z.land (flags e) fl =? fl) then symbol_table_iterator lab fl else lab | [] => lab end
  | None => []
  end.

(** ** Reference tables *)
Record RefTab := mkRefTab { rsize : Z; rdata : list Z }.

#[export] Instance RefTab_eq_dec : EqDecision RefTab.
Proof. solve_decision. Defined.

(** [malloc0]: [malloc] returns a block for size 0; [garbage]: what is in new memory. *)
Definition new_reftab (malloc0 : bool) (garbage : Z -> list Z) (st : symbol_table) : res RefTab :=
  if (next_index st <? 0) || ((next_index st =? 0) && negb malloc0) then Err ExitCall
  else Ok (mkRefTab (next_index st) (garbage (next_index st))).

(** [rt2] afterwards. *)
Definition dup_reftab (rt1 rt2 : RefTab) : res RefTab :=
  if negb (rsize rt1 =? rsize rt2) then Err ExitCall
  else
    let n := Z.to_nat (rsize rt1) in
    if (zlen (rdata rt1) <? rsize rt1) || (zlen (rdata rt2) <? rsize rt1) then Err OutOfBounds
    else Ok (mkRefTab (rsize rt2) (take n (rdata rt1) ++ drop n (rdata rt2))).

Definition reset_reftab (rt : RefTab) : res RefTab :=
  d ← for_up (fun i d => aset d i (-1)) 0 (rsize rt) (rdata rt); Ok (mkRefTab (rsize rt) d).

Definition set_reftab (rt : option RefTab) (index value : Z) : res (option RefTab) :=
  match rt with
  | Some t =>
      if (index <? 0) || (rsize t <=? index) then Err ExitCall
      else d ← aset (rdata t) index value; Ok (Some (mkRefTab (rsize t) d))
  | None => Ok None
  end.

Definition get_reftab (rt : option RefTab) (index cpos : Z) : res Z :=
  if index =? -1 then Ok cpos
  else match rt with
  | None => Ok (-1)
  | Some t => if (index <? 0) || (rsize t <=? index) then Ok (-1) else aget (rdata t) index
  end.

(** ** Lookups *)
Abbreviation request := (list Z * Z * bool)%type.

(** A series of lookups: the final table, and the flags and the index of every label. *)
Fixpoint lookups (ops : list request) (st : symbol_table) : res (symbol_table * list (option (Z * Z))) :=
  match ops with
  | [] => Ok (st, [])
  | (s, fl, create) :: ops =>
      r ← labellookup st s fl create;
      k ← lookups ops r.1;
      Ok (k.1, ((fun e => (flags e, ref e)) <$> (r.2 : option label_entry)) :: k.2)
  end.

Definition sample_requests : list request :=
  [(chars "a", LAB_DEFINED, true); (chars "match", 0, true); (chars "_", LAB_USED, false); (chars "b", LAB_USED, false); (chars "a", LAB_USED, false);
   (chars "a", LAB_RDAT, true)].

Example sample_lookups : (r ← lookups sample_requests new_symbol_table; Ok (r.2, check_labels r.1) : res (list (option (Z * Z)) * Z)) =
  Ok ([Some (1, 0); Some (4, 1); Some (6, -1); None; Some (3, 0); Some (8, 2)], 1).
Proof. vm_compute. reflexivity. Qed.

(** The specification: a finite map from name spaces and names to flags and indices, and the
    next index. *)
Abbreviation key := (bool * list Z)%type.

Definition spec_lookup (m : gmap key (Z * Z)) (n : Z) (q : request) : gmap key (Z * Z) * Z * option (Z * Z) :=
  let '(s, fl, create) := q in
  let k := (has_flag fl LAB_RDAT, s) in
  let this_label := bool_decide (k = (false, chars "_")) in
  match m !! k with
  | Some (f, r) => let v := (Z.lor f fl, r) in (<[k := v]> m, n, Some v)
  | None =>
      if create || this_label then
        let special := this_label || negb (bool_decide (field_name_to_type s = NoField)) in
        let v := (if special then Z.lor fl LAB_SPECIAL else fl, if this_label then -1 else n) in
        (<[k := v]> m, if this_label then n else n + 1, Some v)
      else (m, n, None)
  end.

Fixpoint spec_lookups (ops : list request) (m : gmap key (Z * Z)) (n : Z) : gmap key (Z * Z) * Z * list (option (Z * Z)) :=
  match ops with
  | [] => (m, n, [])
  | q :: ops => let r := spec_lookup m n q in let k := spec_lookups ops r.1.1 r.1.2 in (k.1, r.2 :: k.2)
  end.

(** ** The refinement *)
Definition entry_at (st : symbol_table) (k : key) : option (Z * Z) :=
  (fun e => (flags e, ref e)) <$> find_entry (if k.1 then rdat st else user st) k.2.

Record holds (st : symbol_table) (m : gmap key (Z * Z)) : Prop := {
  h_map : forall k, entry_at st k = m !! k;
  h_ref : forall k f r, m !! k = Some (f, r) -> (k = (false, chars "_") /\ r = -1) \/ (k <> (false, chars "_") /\ 0 <= r < next_index st);
  h_inj : forall k1 k2 f1 f2 r, m !! k1 = Some (f1, r) -> m !! k2 = Some (f2, r) -> k1 = k2
}.

Lemma find_add_flags s fl l s' : find_entry (add_flags s fl l) s' =
  (if decide (s' = s) then (fun e => with_flags e fl) <$> find_entry l s else find_entry l s').
Proof.
  induction l as [|e l IH]; cbn [add_flags find_entry]; [by case_decide |]. destruct (decide (name e = s)) as [<-|Hne]; cbn [find_entry name].
  - repeat case_decide; try done; congruence.
  - rewrite IH. repeat case_decide; try done; congruence.
Qed.

Lemma entry_set st fl l k : entry_at (set_namespace st fl l) k =
  if decide (k.1 = has_flag fl LAB_RDAT) then (fun e => (flags e, ref e)) <$> find_entry l k.2 else entry_at st k.
Proof. unfold entry_at, set_namespace. destruct k as [[|] s]; cbn [fst snd]; by destruct (has_flag fl LAB_RDAT). Qed.

Lemma entry_namespace st fl s : entry_at st (has_flag fl LAB_RDAT, s) = (fun e => (flags e, ref e)) <$> findlabel st s fl.
Proof. unfold entry_at, findlabel, namespace. cbn. by destruct (has_flag fl LAB_RDAT). Qed.

Lemma next_set st fl l : next_index (set_namespace st fl l) = next_index st.
Proof. unfold set_namespace. by destruct (has_flag fl LAB_RDAT). Qed.

Lemma holds_update st m k f r f' : holds st m -> m !! k = Some (f, r) -> forall st', next_index st' = next_index st ->
  (forall k', entry_at st' k' = if decide (k' = k) then Some (f', r) else entry_at st k') -> holds st' (<[k := (f', r)]> m).
Proof.
  intros [H1 H2 H3] Hk st' En Ee.
  assert (forall k' g s, <[k := (f', r)]> m !! k' = Some (g, s) -> exists g', m !! k' = Some (g', s)) as Hold.
  { intros k' g s. rewrite lookup_insert_Some. intros [[<- [= <- <-]]|[_ ?]]; eauto. }
  split.
  - intros k'. rewrite Ee. destruct (decide (k' = k)) as [->|Hne]; [by rewrite lookup_insert_eq | by rewrite lookup_insert_ne].
  - intros k' g s (g' & Hg)%Hold. rewrite En. by eapply H2.
  - intros k1 k2 g1 g2 s (g1' & Hg1)%Hold (g2' & Hg2)%Hold. by eapply H3.
Qed.

Lemma holds_new st m k f r : holds st m -> m !! k = None -> (k = (false, chars "_") /\ r = -1) \/ (k <> (false, chars "_") /\ r = next_index st) ->
  0 <= next_index st -> forall st', next_index st' = (if decide (k = (false, chars "_")) then next_index st else next_index st + 1) ->
  (forall k', entry_at st' k' = if decide (k' = k) then Some (f, r) else entry_at st k') -> holds st' (<[k := (f, r)]> m).
Proof.
  intros [H1 H2 H3] Hk Hr Hn st' En Ee. split.
  - intros k'. rewrite Ee. destruct (decide (k' = k)) as [->|Hne]; [by rewrite lookup_insert_eq | by rewrite lookup_insert_ne].
  - intros k' g s. rewrite lookup_insert_Some, En. intros [[<- [= <- <-]]|[Hne Hg]].
    + destruct Hr as [[-> ->]|[Hk' ->]]; [by left | right; split; [done |]]. rewrite decide_False by done. lia.
    + destruct (H2 _ _ _ Hg) as [?|[? ?]]; [by left | right; split; [done |]]. case_decide; lia.
  - intros k1 k2 g1 g2 s. rewrite !lookup_insert_Some. intros [[<- [= <- <-]]|[Hn1 Hg1]] [[<- E2]|[Hn2 Hg2]]; [done | | | by eapply H3].
    + destruct (H2 _ _ _ Hg2) as [[? ?]|[? ?]], Hr as [[? ?]|[? ?]]; try lia; congruence.
    + injection E2 as <- <-. destruct (H2 _ _ _ Hg1) as [[? ?]|[? ?]], Hr as [[? ?]|[? ?]]; try lia; congruence.
Qed.

Lemma this_key fl s : negb (has_flag fl LAB_RDAT) && bool_decide (s = chars "_") = bool_decide ((has_flag fl LAB_RDAT, s) = (false, chars "_")).
Proof.
  destruct (has_flag fl LAB_RDAT); cbn [negb andb]; [symmetry; by apply bool_decide_eq_false |]. apply bool_decide_ext. split; [by intros -> | by injection 1].
Qed.

Lemma labellookup_ok st m s fl create : holds st m -> 0 <= next_index st < INT_MAX -> exists st' e m', labellookup st s fl create = Ok (st', e) /\
  spec_lookup m (next_index st) (s, fl, create) = (m', next_index st', (fun e => (flags e, ref e)) <$> e) /\ holds st' m' /\
  next_index st <= next_index st' <= next_index st + 1.
Proof.
  intros H Hn. unfold labellookup, spec_lookup. rewrite this_key. set (k := (has_flag fl LAB_RDAT, s)). set (this := bool_decide (k = _)).
  pose proof (h_map _ _ H k) as Ek. rewrite (entry_namespace st fl s : entry_at st k = _) in Ek. destruct (findlabel st s fl) as [e|] eqn:Ef; cbn in Ek; rewrite <- Ek.
  - eexists _, _, _. split; [done |]. rewrite next_set. split; [done |]. split; [| lia]. apply (holds_update st m k (flags e) (ref e)); [done | done | by apply next_set |].
    intros k'. rewrite entry_set, find_add_flags. destruct k' as [b s']. cbn [fst snd]. destruct (decide (b = _)) as [->|Hb].
    + pose proof Ef as Ef'. unfold findlabel in Ef'. rewrite Ef', entry_namespace. unfold findlabel. unfold k. repeat case_decide; try done; congruence.
    + rewrite decide_False; [done | unfold k; congruence].
  - destruct (create || this); [| eexists _, _, _; split; [done |]; split; [done |]; split; [done | lia]].
    assert ((if this then Ok (-1, next_index st) else n ← c_int (next_index st + 1); Ok (next_index st, n)) =
            (Ok (if this then (-1, next_index st) else (next_index st, next_index st + 1)) : res (Z * Z))) as ->.
    { destruct this; [done |]. rewrite c_int_Ok by (unfold INT_MIN, INT_MAX in *; lia). done. }
    res_cbn. eexists _, _, (<[k := (if this || negb (bool_decide (field_name_to_type s = NoField)) then Z.lor fl LAB_SPECIAL else fl, if this then -1 else next_index st)]> m).
    split; [done |]. rewrite next_set. cbn [next_index flags ref fst snd fmap option_fmap option_map].
    split; [by destruct this | split; [| destruct this; cbn; lia]].
    apply (holds_new st m k); [done | done | | lia | |].
    + unfold this. destruct (decide (k = (false, chars "_"))) as [E|E]; [left; by rewrite bool_decide_true | right; by rewrite bool_decide_false].
    + rewrite next_set. cbn. unfold this. case_decide; [by rewrite bool_decide_true | by rewrite bool_decide_false].
    + intros [b s']. rewrite entry_set. cbn [fst snd find_entry]. destruct (decide (b = _)) as [->|Hb].
      * cbn [name]. destruct (decide (s = s')) as [<-|Hs]; [rewrite decide_True by done; by destruct this |].
        rewrite (decide_False (P := (has_flag fl LAB_RDAT, s') = k)) by (unfold k; congruence). by rewrite entry_namespace.
      * rewrite decide_False by (unfold k; congruence). done.
Qed.

Lemma lookups_ok ops st m : holds st m -> 0 <= next_index st -> next_index st + zlen ops <= INT_MAX -> exists st' m', lookups ops st = Ok (st', (spec_lookups ops m (next_index st)).2) /\
  holds st' m' /\ spec_lookups ops m (next_index st) = (m', next_index st', (spec_lookups ops m (next_index st)).2).
Proof.
  revert st m. induction ops as [|[[s fl] create] ops IH]; intros st m H Hn Hl; [by exists st, m |]. rewrite zlen_cons in Hl. pose proof (zlen_nonneg ops).
  destruct (labellookup_ok st m s fl create H) as (st1 & e & m1 & E & Es & H1 & Hn1); [lia |]. cbn [lookups spec_lookups]. rewrite E, Es. res_cbn. cbn [fst snd].
  destruct (IH st1 m1 H1) as (st2 & m2 & E2 & H2 & Es2); [lia | lia |]. rewrite E2. res_cbn. cbn [fst snd]. exists st2, m2. split; [done |]. split; [done |]. by rewrite Es2.
Qed.

Lemma holds_empty : holds new_symbol_table ∅.
Proof. split; [| by intros ? ? ? ?%lookup_empty_Some | by intros ? ? ? ? ? ?%lookup_empty_Some]. intros [[|] s]; by rewrite lookup_empty. Qed.

(** C25. A symbol table refines a finite map: every series of lookups in a new table answers as
    a map from name spaces and names to flags and indices does; different labels have
    different indices, and all but the one of [_] are below [next_index], so that they are
    inside the reference tables made for the table. *)
Theorem symbol_table_refines_map ops : zlen ops <= INT_MAX ->
  exists st m, lookups ops new_symbol_table = Ok (st, (spec_lookups ops ∅ 0).2) /\ (spec_lookups ops ∅ 0).1 = (m, next_index st) /\
    (forall k, entry_at st k = m !! k) /\
    (forall k f r, entry_at st k = Some (f, r) -> (k = (false, chars "_") /\ r = -1) \/ (k <> (false, chars "_") /\ 0 <= r < next_index st)) /\
    (forall k1 k2 f1 f2 r, entry_at st k1 = Some (f1, r) -> entry_at st k2 = Some (f2, r) -> k1 = k2).
Proof.
  intros Hl. destruct (lookups_ok ops new_symbol_table ∅ holds_empty) as (st & m & E & [H1 H2 H3] & Es); [done | done |]. exists st, m. split; [done |].
  change (next_index new_symbol_table) with 0 in Es. split; [by rewrite Es |]. split; [done |]. split; [intros k f r; rewrite H1; apply H2 | intros k1 k2 f1 f2 r; rewrite !H1; apply H3].
Qed.

Lemma symbol_table_refines_map_witness : exists st m, lookups sample_requests new_symbol_table = Ok (st, (spec_lookups sample_requests ∅ 0).2) /\
    (spec_lookups sample_requests ∅ 0).1 = (m, next_index st) /\ (forall k, entry_at st k = m !! k) /\
    (forall k f r, entry_at st k = Some (f, r) -> (k = (false, chars "_") /\ r = -1) \/ (k <> (false, chars "_") /\ 0 <= r < next_index st)) /\
    (forall k1 k2 f1 f2 r, entry_at st k1 = Some (f1, r) -> entry_at st k2 = Some (f2, r) -> k1 = k2).
Proof. apply (symbol_table_refines_map sample_requests). vm_compute. discriminate. Defined.

(** ** [check_labels] *)
Definition unused (e : label_entry) : bool := negb (has_flag (flags e) LAB_SPECIAL) && negb (has_flag (flags e) LAB_USED).
Definition undefined (e : label_entry) : bool := negb (has_flag (flags e) LAB_SPECIAL) && negb (has_flag (flags e) LAB_DEFINED).

Lemma check_label_eq r e : check_label r e = (if unused e then 0 else r) + (if undefined e then 1 else 0).
Proof.
  unfold check_label, unused, undefined. destruct (has_flag (flags e) LAB_SPECIAL); cbn [negb andb]; [lia |].
  destruct (has_flag (flags e) LAB_USED), (has_flag (flags e) LAB_DEFINED); cbn [negb]; lia.
Qed.

(** The labels behind the last one that is not used. *)
Fixpoint after_unused (l : list label_entry) : option (list label_entry) :=
  match l with
  | [] => None
  | e :: l => match after_unused l with Some k => Some k | None => if unused e then Some (e :: l) else None end
  end.

Lemma check_labels_from l r : foldl check_label r l =
  match after_unused l with Some k => Z.of_nat (length (filter (fun e => undefined e = true) k)) | None => r + Z.of_nat (length (filter (fun e => undefined e = true) l)) end.
Proof.
  revert r. induction l as [|e l IH]; intros r; cbn [foldl after_unused]; [by rewrite filter_nil, Z.add_0_r |]. rewrite IH, check_label_eq.
  destruct (after_unused l); [done |]. destruct (unused e); rewrite filter_cons; destruct (undefined e); cbn [length]; case_decide; cbn [length]; try done; lia.
Qed.

(** C39. What [check_labels] accepts: without a label that is defined but not used, everything, used labels that are
    not defined included; otherwise a query is refused exactly if no label is undefined from
    the last unused one on (in the order of the table). *)
Theorem check_labels_exact st :
  (check_labels st = 0 <-> exists k, after_unused (user st) = Some k /\ forall e, e ∈ k -> undefined e = false) /\
  (Forall (fun e => unused e = false) (user st) -> 1 <= check_labels st).
Proof.
  unfold check_labels. rewrite check_labels_from. split.
  - destruct (after_unused (user st)) as [k|]; [| split; [lia | by intros (? & ? & _)]]. split.
    + intros H. exists k. split; [done |]. intros e He. destruct (undefined e) eqn:Eu; [| done]. assert (e ∈ filter (fun e => undefined e = true) k) as Hf by (by apply list_elem_of_filter).
      destruct (filter _ k); [by apply elem_of_nil in Hf | cbn in H; lia].
    + intros (k' & [= <-] & H). destruct (filter (fun e => undefined e = true) k) as [|e l] eqn:Ef; [done |].
      assert (e ∈ filter (fun e => undefined e = true) k) as [Hu Hk]%list_elem_of_filter by (rewrite Ef; by left). rewrite (H e Hk) in Hu. done.
  - intros Hall. assert (after_unused (user st) = None) as ->; [| lia]. induction Hall as [|e l He _ IH]; [done |]. cbn. by rewrite IH, He.
Qed.

Lemma check_labels_exact_witness : check_labels (mkSymtab [mkLabel LAB_USED (chars "b") 0] [] 1) = 2 /\
  ((check_labels (mkSymtab [mkLabel LAB_USED (chars "b") 0] [] 1) = 0 <-> exists k, after_unused [mkLabel LAB_USED (chars "b") 0] = Some k /\ forall e, e ∈ k -> undefined e = false) /\
  (Forall (fun e => unused e = false) [mkLabel LAB_USED (chars "b") 0] -> 1 <= check_labels (mkSymtab [mkLabel LAB_USED (chars "b") 0] [] 1))).
Proof. split; [reflexivity | apply (check_labels_exact (mkSymtab [mkLabel LAB_USED (chars "b") 0] [] 1))]. Defined.
