(* ===== verification/Eval.v ===== *)
(** * Evaluation of patterns: cqp/eval.c, first part

    The conditions of a query are trees ([Constraint]); [eval_bool] evaluates one at a corpus
    position, with the reference table of a state of the automaton, which labels that are
    deleted after use change.  [EvaluationIsRunning] is cleared after errors.  Messages and
    debugging output are left out.

    What the conditions ask the corpus is the class [Access]: the access functions of
    cl/cdaccess.c, regular expressions on strings (cl/regopt.c, which calls PCRE), and the functions of
    cqp/builtins.c and of dynamic attributes. *)

From Stdlib Require Import ZArith Lia.
From stdpp Require Import base tactics option list numbers.
From S2P Require Import Prelude.
From S2P Require Import CDA.
From S2P Require Import Bitfields.
From S2P Require Import Ranges.
From S2P Require Import Symtab.

Open Scope Z_scope.

(** ** Data *)
Inductive b_ops := b_and | b_or | b_implies | b_not | cmp_gt | cmp_lt | cmp_get | cmp_let | cmp_eq | cmp_neq | cmp_ex.

#[export] Instance b_ops_eq_dec : EqDecision b_ops.
Proof. solve_decision. Defined.

Inductive target_nature := IsNotTarget | IsTarget | IsKeyword.

#[export] Instance target_nature_eq_dec : EqDecision target_nature.
Proof. solve_decision. Defined.

(** [Attr]: attributes; [Rx]: compiled regular expressions; [Fl]: the type [double]. *)
Section Data.
Context {Attr Rx Fl : Type}.

(** The constants of [string_leaf] nodes, with [pat_type]: a string, a regular
    expression, or the number of a type in the lexicon. *)
Inductive leaf_value := NORMAL (sconst : list Z) | REGEXP (sconst : list Z) (rx : Rx) | CID (cidconst : Z).

(** The union [c_tree]. *)
Inductive Constraint :=
| bnode (op_id : b_ops) (left right : option Constraint)
| cnode (val : Z)
| func (predef : Z) (dynattr : option Attr) (args : list Constraint) (nr_args : Z)
| sbound (strucattr : Attr) (is_closing : bool)
| pa_ref (label : option label_entry) (attr : option Attr) (delete : bool)
| sa_ref (label : option label_entry) (attr : Attr) (delete : bool)
| string_leaf (canon : Z) (ctype : leaf_value)
| int_leaf (iconst : Z)
| float_leaf (fconst : Fl)
| id_list (attr : Attr) (label : option label_entry) (negated : bool) (nr_items : Z) (items : list Z) (delete : bool)
| var_ref (varName : list Z).

(** The results of leaves and functions (cl/cl.h); a string may be NULL. *)
Inductive DynCallResult :=
| ATTAT_NONE | ATTAT_POS (intres : Z) | ATTAT_STRING (charres : option (list Z)) | ATTAT_INT (intres : Z) | ATTAT_VAR | ATTAT_FLOAT (floatres : Fl)
| ATTAT_PAREF (attr : Attr) (token_id : Z).

(** The union [_avs]: a column of the automaton. *)
Inductive AVStructure :=
| MatchAll (label : option label_entry) (is_target : target_nature) (lookahead : bool)
| Pattern (label : option label_entry) (constraint : option Constraint) (is_target : target_nature) (lookahead : bool)
| Tag (is_closing : bool) (attr : Attr) (constraint : option (list Z)) (rx : option Rx) (negated : bool) (right_boundary : option label_entry)
| Anchor (is_closing : bool) (field : FieldType).
End Data.

Arguments leaf_value : clear implicits.
Arguments Constraint : clear implicits.
Arguments DynCallResult : clear implicits.
Arguments AVStructure : clear implicits.

(** What conditions ask.  A boolean beside a result says whether [cl_errno] is [CDA_OK]
    afterwards; otherwise it is the error number.  [None] is failure or NULL. *)
Class Access (Attr Rx Fl : Type) := {
  cpos2id : Attr -> Z -> Z * bool;                        (* cl_cpos2id *)
  cpos2str : Attr -> Z -> option (list Z) * bool;         (* cl_cpos2str *)
  id2str : Attr -> Z -> option (list Z) * bool;           (* cl_id2str *)
  cpos2struc2cpos : Attr -> Z -> option (Z * Z) * Z;      (* cl_cpos2struc2cpos *)
  cpos2struc : Attr -> Z -> Z;                            (* cl_cpos2struc *)
  struc2cpos : Attr -> Z -> option (Z * Z);               (* cl_struc2cpos *)
  struc2str : Attr -> Z -> option (list Z);               (* cl_struc2str *)
  cpos2struc2str : Attr -> Z -> option (list Z) * Z;      (* cl_cpos2struc2str *)
  cpos2struc_oldstyle : Attr -> Z -> option Z;            (* cl_cpos2struc_oldstyle *)
  max_struc_oldstyle : Attr -> option Z;                  (* cl_max_struc_oldstyle *)
  regex_match : Rx -> list Z -> bool;                     (* cl_regex_match *)
  fl_is_zero : Fl -> bool;
  fl_lt : Fl -> Fl -> bool;
  fl_le : Fl -> Fl -> bool;
  fl_eq : Fl -> Fl -> bool;
  call_predefined_function : Z -> list (DynCallResult Attr Fl) -> option (DynCallResult Attr Fl);
  call_dynamic_attribute : Attr -> list (DynCallResult Attr Fl) -> option (DynCallResult Attr Fl)
}.

(** ** The state of an evaluation: the reference table (which may be NULL), and
    [EvaluationIsRunning]. *)
Record est := mkEst { rt : option RefTab; running : bool }.

Definition ev (A : Type) : Type := est -> res (A * est).

#[export] Instance ev_ret : MRet ev := fun A a s => Ok (a, s).
#[export] Instance ev_bind : MBind ev := fun A B k m s => match m s with Ok (a, s') => k a s' | Err f => Err f end.

Definition fault_ {A} (f : fault) : ev A := fun s => Err f.
Definition lift_ {A} (r : res A) : ev A := fun s => a ← r; Ok (a, s).

(** [EvaluationIsRunning = 0; return v;] *)
Definition stop {A} (v : A) : ev A := fun s => Ok (v, mkEst (rt s) false).

Definition read_label (l : label_entry) (corppos : Z) : ev Z := fun s => v ← get_reftab (rt s) (ref l) corppos; Ok (v, s).
Definition write_label (l : label_entry) (v : Z) : ev unit := fun s => t ← set_reftab (rt s) (ref l) v; Ok (tt, mkEst t (running s)).

(** ** Leaves *)
Section Eval.
Context {Attr Rx Fl : Type} `{EqDecision Attr} `{!Access Attr Rx Fl}.

Definition get_label_referenced_position (label : option label_entry) (corppos : Z) : ev Z :=
  match label with Some l => read_label l corppos | None => mret (-1) end.

(** Reading a label that is deleted after use. *)
Definition use_label (l : label_entry) (delete : bool) (corppos : Z) : ev Z :=
  v ← read_label l corppos;
  _ ← (if delete then write_label l (-1) else mret tt);
  mret v.

(** The value of a leaf, or [None] if the function returns [False]. *)
Fixpoint get_leaf_value (ctptr : Constraint Attr Rx Fl) (corppos : Z) (deliver_strings : bool) : ev (option (DynCallResult Attr Fl)) :=
  match ctptr with
  | func predef dynattr args nr_args =>
      if 0 <? nr_args then
        r ← (fix params (p : list (Constraint Attr Rx Fl)) (pos : Z) (fargs : list (DynCallResult Attr Fl)) : ev (option (list (DynCallResult Attr Fl)) * Z) :=
               match p with
               | c :: p =>
                   if pos <? nr_args then
                     v ← get_leaf_value c corppos true;
                     match v with None => mret (None, pos + 1) | Some v => params p (pos + 1) (fargs ++ [v]) end
                   else mret (Some fargs, pos)
               | [] => mret (Some fargs, pos)
               end) args 0 [];
        match r with
        | (Some fargs, pos) =>
            _ ← lift_ (c_assert (pos =? nr_args));
            if 0 <=? predef then
              match call_predefined_function predef fargs with Some v => mret (Some v) | None => stop None end
            else
              a ← lift_ (match dynattr with Some a => Ok a | None => Err AssertFail end);
              mret (call_dynamic_attribute a fargs)
        | (None, _) => mret None
        end
      else mret None
  | pa_ref label attr delete =>
      match attr with
      | None =>
          l ← lift_ (match label with Some l => Ok l | None => Err AssertFail end);
          v ← use_label l delete corppos;
          mret (Some (ATTAT_POS v))
      | Some a =>
          referenced_position ← (match label with None => mret corppos | Some l => use_label l delete corppos end);
          if match label with Some _ => referenced_position <? 0 | None => false end then mret (Some ATTAT_NONE)
          else if deliver_strings then
            mret (let r := cpos2str a referenced_position in if r.2 then Some (ATTAT_STRING r.1) else None)
          else
            mret (let r := cpos2id a referenced_position in if r.2 then Some (ATTAT_PAREF a r.1) else None)
      end
  | sa_ref label attr delete =>
      match label with
      | None =>
          mret (match cpos2struc2cpos attr corppos with
                | (Some (struc_start, struc_end), _) =>
                    Some (ATTAT_INT ((if corppos =? struc_start then 1 else 0) + (if corppos =? struc_end then 2 else 0) +
                                     (if (struc_start <=? corppos) && (corppos <=? struc_end) then 4 else 0)))
                | (None, e) => if negb (e =? CDA_ESTRUC) then None else Some (ATTAT_INT 0)
                end)
      | Some l =>
          referenced_position ← use_label l delete corppos;
          if referenced_position <? 0 then mret (Some ATTAT_NONE)
          else
            mret (let r := cpos2struc2str attr referenced_position in
                  if r.2 =? CDA_EPOSORNG then Some ATTAT_NONE else if r.2 =? CDA_OK then Some (ATTAT_STRING r.1) else None)
      end
  | string_leaf _ (CID cidconst) => mret (Some (ATTAT_INT cidconst))
  | string_leaf _ (NORMAL s) | string_leaf _ (REGEXP s _) => mret (Some (ATTAT_STRING (Some s)))
  | float_leaf _ => fault_ AssertFail        (* the case leaves the switch *)
  | int_leaf i => mret (Some (ATTAT_INT i))
  | _ => stop None
  end.

(** ** Comparisons *)
Definition cmp_op (op_id : b_ops) : bool := match op_id with b_and | b_or | b_implies | b_not => false | _ => true end.

(** [[existence]]: the value of [cmp_ex]; [None] is an illegal type. *)
Definition existence (lhs : DynCallResult Attr Fl) : option bool :=
  match lhs with
  | ATTAT_STRING s => Some (match s with Some _ => true | None => false end)
  | ATTAT_PAREF _ token_id => Some (0 <=? token_id)
  | ATTAT_FLOAT f => Some (negb (fl_is_zero f))
  | ATTAT_INT i => Some (negb (i =? 0))
  | ATTAT_POS i => Some (0 <=? i)
  | ATTAT_NONE => Some false
  | ATTAT_VAR => None
  end.

(** Equality of what must be comparable for equality only. *)
Definition only_eq (op_id : b_ops) (same : bool) : option bool :=
  match op_id with cmp_eq => Some same | cmp_neq => Some (negb same) | _ => None end.

Definition int_compare (op_id : b_ops) (x y : Z) : option bool :=
  match op_id with
  | cmp_gt => Some (y <? x)
  | cmp_lt => Some (x <? y)
  | cmp_get => Some (y <=? x)
  | cmp_let => Some (x <=? y)
  | cmp_eq => Some (x =? y)
  | cmp_neq => Some (negb (x =? y))
  | _ => None
  end.

Definition float_compare (op_id : b_ops) (x y : Fl) : option bool :=
  match op_id with
  | cmp_gt => Some (fl_lt y x)
  | cmp_lt => Some (fl_lt x y)
  | cmp_get => Some (fl_le y x)
  | cmp_let => Some (fl_le x y)
  | cmp_eq => Some (fl_eq x y)
  | cmp_neq => Some (negb (fl_eq x y))
  | _ => None
  end.

Definition pos_to_int (d : DynCallResult Attr Fl) : DynCallResult Attr Fl := match d with ATTAT_POS i => ATTAT_INT i | _ => d end.

(** The string of an operand that is a string or a type: [None] in the second place is an
    error that ends the query. *)
Definition operand_string (d : DynCallResult Attr Fl) : option (option (list Z)) :=
  match d with
  | ATTAT_PAREF a i => match id2str a i with (Some s, true) => Some (Some s) | _ => None end
  | ATTAT_STRING s => Some s
  | _ => None
  end.

Definition STREQ (a b : list Z) : bool := bool_decide (a = b).

(** Strings: the right one may be a regular expression.  Every operator but = is "different". *)
Definition string_compare (op_id : b_ops) (right : Constraint Attr Rx Fl) (ls rs : list Z) : option bool :=
  let eq b := match op_id with cmp_eq => b | _ => negb b end in
  match right with
  | string_leaf _ (REGEXP _ rx) => if STREQ rs [46; 42] then Some (eq true) else Some (eq (regex_match rx ls))
  | string_leaf _ (CID _) => None
  | _ => Some (eq (STREQ ls rs))
  end.

Definition compare_operands (op_id : b_ops) (right : Constraint Attr Rx Fl) (l r : DynCallResult Attr Fl) : res (option bool) :=
  match operand_string l with
  | None => Ok None
  | Some ls =>
      match operand_string r with
      | None => Ok None
      | Some rs => match ls, rs with Some ls, Some rs => Ok (string_compare op_id right ls rs) | _, _ => Err AssertFail end
      end
  end.

(** The comparison of two values; [None] is an error. *)
Definition compare_values (op_id : b_ops) (right : Constraint Attr Rx Fl) (lhs rhs : DynCallResult Attr Fl) : res (option bool) :=
  match pos_to_int lhs, pos_to_int rhs with
  | ATTAT_NONE, _ | _, ATTAT_NONE => Ok (Some false)
  | ATTAT_PAREF _ i, ATTAT_INT j => Ok (only_eq op_id (i =? j))
  | ATTAT_PAREF a i, ATTAT_PAREF b j =>
      if decide (a = b) then Ok (only_eq op_id (i =? j))
      else
        match op_id with
        | cmp_eq | cmp_neq => ls ← deref (id2str a i).1; rs ← deref (id2str b j).1; Ok (only_eq op_id (STREQ ls rs))
        | _ => Ok None
        end
  | ATTAT_PAREF a i, ATTAT_STRING s => compare_operands op_id right (ATTAT_PAREF a i) (ATTAT_STRING s)
  | ATTAT_STRING s, ATTAT_STRING t => compare_operands op_id right (ATTAT_STRING s) (ATTAT_STRING t)
  | ATTAT_STRING s, ATTAT_PAREF a i => compare_operands op_id right (ATTAT_STRING s) (ATTAT_PAREF a i)
  | ATTAT_INT x, ATTAT_INT y => Ok (int_compare op_id x y)
  | ATTAT_FLOAT x, ATTAT_FLOAT y => Ok (float_compare op_id x y)
  | ATTAT_VAR, ATTAT_VAR => Err AssertFail
  | _, _ => Ok None
  end.

(** An answer, or an error that ends the query. *)
Definition answer (r : option bool) : ev bool := match r with Some b => mret b | None => stop false end.

Definition lhs_ok (c : Constraint Attr Rx Fl) : bool := match c with func _ _ _ _ | pa_ref _ _ _ | sa_ref _ _ _ => true | _ => false end.
Definition rhs_ok (c : Constraint Attr Rx Fl) : bool :=
  match c with func _ _ _ _ | pa_ref _ _ _ | sa_ref _ _ _ | int_leaf _ | float_leaf _ | string_leaf _ _ => true | _ => false end.

(** The relational operators. *)
Definition eval_comparison (op_id : b_ops) (left right : option (Constraint Attr Rx Fl)) (corppos : Z) : ev bool :=
  l ← lift_ (match left with Some l => Ok l | None => Err AssertFail end);
  _ ← lift_ (match op_id, right with cmp_ex, _ | _, Some _ => Ok tt | _, None => Err AssertFail end);
  if negb (lhs_ok l) then stop false
  else
    lhs ← get_leaf_value l corppos false;
    match lhs with
    | None => mret false
    | Some lhs =>
        match op_id, right with
        | cmp_ex, _ => answer (existence lhs)
        | _, None => fault_ AssertFail
        | _, Some r =>
            if negb (rhs_ok r) then stop false
            else
              rhs ← get_leaf_value r corppos false;
              match rhs with
              | None => mret false
              | Some rhs => v ← lift_ (compare_values op_id r lhs rhs); answer v
              end
        end
    end.

(** The key of a search, and the item it is compared with. *)
Definition intcompare (key : Z) (items : list Z) (i : Z) : res Z := x ← aget items i; c_int (key - x).

(** ** Conditions *)
Fixpoint eval_node (ctptr : Constraint Attr Rx Fl) (corppos : Z) : ev bool :=
  match ctptr with
  | bnode b_and x y =>
      match x, y with
      | Some l, Some r => v ← eval_node l corppos; if (v : bool) then eval_node r corppos else mret false
      | _, _ => fault_ AssertFail
      end
  | bnode b_or x y =>
      match x, y with
      | Some l, Some r => v ← eval_node l corppos; if (v : bool) then mret true else eval_node r corppos
      | _, _ => fault_ AssertFail
      end
  | bnode b_implies x y =>
      match x, y with
      | Some l, Some r => v ← eval_node l corppos; if (v : bool) then eval_node r corppos else mret true
      | _, _ => fault_ AssertFail
      end
  | bnode b_not x y =>
      match x with
      | None => mret true
      | Some l => match y with None => v ← eval_node l corppos; mret (negb v) | Some _ => fault_ AssertFail end
      end
  | bnode op_id x y => eval_comparison op_id x y corppos
  | cnode val => mret (negb (val =? 0))
  | id_list attr label negated nr_items items delete =>
      referenced_corppos ← (match label with Some l => use_label l delete corppos | None => mret corppos end);
      res ← (if nr_items <=? 0 then mret false
             else
               let id := (cpos2id attr referenced_corppos).1 in
               if 0 <=? id then o ← lift_ (bsearch (intcompare id items) nr_items); mret (match o with Some _ => true | None => false end)
               else mret false);
      mret (if (negated : bool) then negb res else (res : bool))
  | sbound _ _ => fault_ AssertFail
  | _ => stop false
  end.

(** A missing condition holds. *)
Definition eval_bool (ctptr : option (Constraint Attr Rx Fl)) (corppos : Z) : ev bool :=
  match ctptr with Some c => eval_node c corppos | None => mret true end.

(** ** Columns of the automaton *)

(** What is tested of the annotation of a region. *)
Definition tag_value_ok (constraint : list Z) (rx : option Rx) (negated : bool) (val : option (list Z)) : bool :=
  let result := match val with
                | Some v => match rx with Some r => regex_match r v | None => bool_decide (constraint = v) end
                | None => false
                end in
  if negated then negb result else result.

(** The corpus position of an anchor of the range [rp]. *)
Definition anchor_position (corpus : CorpusList) (rp : Z) (field : FieldType) : res Z :=
  match field with
  | MatchField => r ← get_range corpus rp; Ok (rstart r)
  | MatchEndField => r ← get_range corpus rp; Ok (rend r)
  | TargetField => match targets corpus with Some l => aget l rp | None => Err AssertFail end
  | KeywordField => match keywords corpus with Some l => aget l rp | None => Err AssertFail end
  | NoField => Err AssertFail
  end.

(** [set_reftab] for a table that is not NULL. *)
Definition put_label (t : RefTab) (l : label_entry) (v : Z) : res RefTab :=
  t' ← set_reftab (Some t) (ref l) v; deref t'.

(** [if (label != NULL) set_reftab(...)] *)
Definition put_opt (t : RefTab) (l : option label_entry) (v : Z) : res RefTab :=
  match l with Some l => put_label t l v | None => Ok t end.

(** The answer, both tables and [EvaluationIsRunning]; [query_corpus] and [rp] are fields of the
    environment. *)
Definition eval_constraint (strict_regions : bool) (query_corpus : CorpusList) (rp : Z) (avs : AVStructure Attr Rx Fl) (corppos : Z)
  (labelrefs target_labelrefs : RefTab) (is_running : bool) : res (bool * RefTab * RefTab * bool) :=
  match avs with
  | Tag is_closing attr constraint rx negated right_boundary =>
      let struc := cpos2struc attr corppos in
      if struc <? 0 then Ok (false, labelrefs, target_labelrefs, is_running)
      else
        b ← deref (struc2cpos attr struc);
        let '(start, end_) := b in
        result ← (if negb is_closing then
                    let result := corppos =? start in
                    Ok (match constraint with Some c => if result then tag_value_ok c rx negated (struc2str attr struc) else false | None => result end)
                  else
                    let result := corppos =? end_ in
                    match right_boundary with
                    | Some l =>
                        if strict_regions then
                          rbound ← get_reftab (Some labelrefs) (ref l) (-1);
                          Ok (if (rbound <? 0) || negb (corppos =? rbound) then false else result)
                        else Ok result
                    | None => Ok result
                    end);
        if (result : bool) then
          t ← dup_reftab labelrefs target_labelrefs;
          t ← (if strict_regions then put_opt t right_boundary (if negb is_closing then end_ else -1) else Ok t);
          Ok (true, labelrefs, t, is_running)
        else Ok (false, labelrefs, target_labelrefs, is_running)
  | Anchor _ field =>
      anchor ← anchor_position query_corpus rp field;
      if (0 <=? anchor) && (anchor =? corppos) then t ← dup_reftab labelrefs target_labelrefs; Ok (true, labelrefs, t, is_running)
      else Ok (false, labelrefs, target_labelrefs, is_running)
  | Pattern label constraint _ _ =>
      r ← eval_bool constraint corppos (mkEst (Some labelrefs) is_running);
      labelrefs ← deref (rt r.2);
      if (r.1 : bool) then
        t ← dup_reftab labelrefs target_labelrefs;
        t ← put_opt t label corppos;
        Ok (true, labelrefs, t, running r.2)
      else Ok (false, labelrefs, target_labelrefs, running r.2)
  | MatchAll label _ _ =>
      t ← dup_reftab labelrefs target_labelrefs;
      t ← put_opt t label corppos;
      Ok (true, labelrefs, t, is_running)
  end.
End Eval.
