(* ===== verification/EvalSample.v ===== *)
(** * A sample corpus

    The class [Access] for a corpus of one positional attribute, whose words have one letter, and one attribute of
    regions without annotation; conditions on it. *)

From Stdlib Require Import ZArith Lia.
From stdpp Require Import base tactics option list numbers.
From S2P Require Import Prelude.
From S2P Require Import CDA.
From S2P Require Import Symtab.
From S2P Require Import Eval.

Open Scope Z_scope.

(** The tokens, as ids of one-letter words, and the regions. *)
Section Corpus.
Context (tokens : list Z) (regions : list (Z * Z)).

Definition region_of (p : Z) : option (nat * (Z * Z)) := list_find (fun r => r.1 <= p <= r.2) regions.

Definition token_at (p : Z) : Z * bool := match aget tokens p with Ok i => (Z.min i INT_MAX, true) | Err _ => (-1, false) end.

#[export] Instance sample_access : Access bool Empty_set Empty_set := {
  cpos2id a p := if a then (-1, false) else token_at p;
  cpos2str a p := if a then (None, false) else let r := token_at p in (if r.2 then Some [97 + r.1] else None, r.2);
  id2str a i := if a then (None, false) else (Some [97 + i], true);
  cpos2struc2cpos a p := if a then match region_of p with Some (_, r) => (Some r, CDA_OK) | None => (None, CDA_ESTRUC) end else (None, CDA_EATTTYPE);
  cpos2struc a p := if a then match region_of p with Some (i, _) => Z.of_nat i | None => CDA_ESTRUC end else CDA_EATTTYPE;
  struc2cpos a i := if a then regions !! Z.to_nat i else None;
  struc2str a i := None;
  cpos2struc2str a p := (None, CDA_ENODATA);
  cpos2struc_oldstyle a p := if a then (fun x => Z.of_nat x.1) <$> region_of p else None;
  max_struc_oldstyle a := if a then Some (zlen regions) else None;
  regex_match rx := match rx with end;
  fl_is_zero f := match f with end;
  fl_lt f := match f with end;
  fl_le f := match f with end;
  fl_eq f := match f with end;
  call_predefined_function _ _ := None;
  call_dynamic_attribute _ _ := None
}.
End Corpus.

(** [[word = "..."]] for the type [i], and tags. *)
Definition word_is (i : Z) : AVStructure bool Empty_set Empty_set :=
  Pattern None (Some (bnode cmp_eq (Some (pa_ref None (Some false) false)) (Some (string_leaf 0 (CID i))))) IsNotTarget false.
