(* ===== verification/EvalConditions.v ===== *)
(** * Conditions on the token itself

    Conditions without labels, functions and numbers ([plain]): comparisons of a positional
    attribute with strings, regular expressions and lists of types, whether the token is
    inside a region, and their boolean combinations.  [eval_plain]: [eval_bool] returns the truth value [holds] of such a condition, changes
    no label and does not end the query.  What it needs of the corpus is the class
    [AccessLaws]. *)

From Stdlib Require Import ZArith Lia Sorted.
From stdpp Require Import base tactics option list numbers sorting.
From S2P Require Import Prelude.
From S2P Require Import CDA.
From S2P Require Import Symtab.
From S2P Require Import Eval.
From S2P Require Import EvalSample.

Open Scope Z_scope.

(** The number of the type of a token is an int that is not negative, and has a string; if it cannot be
    read, the number returned is negative. *)
Class AccessLaws (Attr Rx Fl : Type) `{!Access Attr Rx Fl} := {
  cpos2id_valid a p i : cpos2id a p = (i, true) -> 0 <= i <= INT_MAX /\ exists w, id2str a i = (Some w, true);
  cpos2id_error a p i : cpos2id a p = (i, false) -> i < 0
}.

Section Conditions.
Context {Attr Rx Fl : Type} `{EqDecision Attr} `{!Access Attr Rx Fl}.

(** ** The truth value *)

(** The type of a token and its string. *)
Definition token_of (a : Attr) (cpos : Z) : option (Z * list Z) :=
  let r := cpos2id a cpos in if r.2 then (fun w => (r.1, w)) <$> (id2str a r.1).1 else None.

Definition leaf_test (pat : leaf_value Rx) (id : Z) (w : list Z) : bool :=
  match pat with
  | CID i => id =? i
  | NORMAL s => bool_decide (w = s)
  | REGEXP s rx => bool_decide (s = [46; 42]) || regex_match rx w
  end.

Definition inside (attr : Attr) (cpos : Z) : bool :=
  match (cpos2struc2cpos attr cpos).1 with
  | Some (s, e) => (cpos =? s) || (cpos =? e) || ((s <=? cpos) && (cpos <=? e))
  | None => false
  end.

(** What [bsearch] needs of the items of a list of types (cqp/variables.c sorts them). *)
Definition sorted_items (nr_items : Z) (items : list Z) : Prop :=
  nr_items <= zlen items /\ nr_items <= INT_MAX /\ let l := take (Z.to_nat nr_items) items in StronglySorted Z.le l /\ Forall (fun x => 0 <= x <= INT_MAX) l.

#[global] Instance sorted_items_dec nr_items items : Decision (sorted_items nr_items items).
Proof. unfold sorted_items. apply _. Defined.

Fixpoint plain (c : Constraint Attr Rx Fl) : bool :=
  match c with
  | bnode (b_and | b_or | b_implies) (Some x) (Some y) => plain x && plain y
  | bnode b_not (Some x) None => plain x
  | bnode (cmp_eq | cmp_neq) (Some (pa_ref None (Some _) _)) (Some (string_leaf _ _)) => true
  | bnode cmp_ex (Some (sa_ref None _ _)) _ => true
  | cnode _ => true
  | id_list _ None _ nr_items items _ => bool_decide (sorted_items nr_items items)
  | _ => false
  end.

Fixpoint holds (c : Constraint Attr Rx Fl) (cpos : Z) : bool :=
  match c with
  | bnode b_and (Some x) (Some y) => holds x cpos && holds y cpos
  | bnode b_or (Some x) (Some y) => holds x cpos || holds y cpos
  | bnode b_implies (Some x) (Some y) => negb (holds x cpos) || holds y cpos
  | bnode b_not (Some x) None => negb (holds x cpos)
  | bnode cmp_eq (Some (pa_ref None (Some a) _)) (Some (string_leaf _ pat)) =>
      match token_of a cpos with Some (id, w) => leaf_test pat id w | None => false end
  | bnode cmp_neq (Some (pa_ref None (Some a) _)) (Some (string_leaf _ pat)) =>
      match token_of a cpos with Some (id, w) => negb (leaf_test pat id w) | None => false end
  | bnode cmp_ex (Some (sa_ref None attr _)) _ => inside attr cpos
  | cnode val => negb (val =? 0)
  | id_list a None negated nr_items items _ =>
      xorb negated (match token_of a cpos with Some (id, _) => bool_decide (id ∈ take (Z.to_nat nr_items) items) | None => false end)
  | _ => false
  end.

(** ** The evaluation *)
Context `{!AccessLaws Attr Rx Fl}.

Lemma token_of_id a cpos : (exists i w, cpos2id a cpos = (i, true) /\ 0 <= i <= INT_MAX /\ id2str a i = (Some w, true) /\ token_of a cpos = Some (i, w)) \/
  (exists i, cpos2id a cpos = (i, false) /\ i < 0 /\ token_of a cpos = None).
Proof.
  unfold token_of. destruct (cpos2id a cpos) as [i [|]] eqn:E; cbn.
  - destruct (cpos2id_valid _ _ _ E) as (Hi & w & Ew). left. exists i, w. by rewrite Ew.
  - right. exists i. split; [done |]. split; [by eapply cpos2id_error | done].
Qed.

Lemma leaf_answer (op : b_ops) canon pat a i w : op = cmp_eq \/ op = cmp_neq -> id2str a i = (Some w, true) ->
  exists v, (match pat with CID j => ATTAT_INT j | NORMAL s | REGEXP s _ => ATTAT_STRING (Some s) end) = v /\
  compare_values op (string_leaf canon pat) (ATTAT_PAREF a i) v = Ok (Some (match op with cmp_eq => leaf_test pat i w | _ => negb (leaf_test pat i w) end)).
Proof.
  intros Hop E. eexists. split; [done |]. destruct Hop as [-> | ->]; destruct pat as [s|s rx|j]; cbn -[regex_match]; unfold compare_operands, operand_string; rewrite ?E; try done;
    cbn -[regex_match]; unfold STREQ; by destruct (bool_decide (s = [46; 42])).
Qed.

Lemma eval_leaf op a del canon pat cpos st : op = cmp_eq \/ op = cmp_neq ->
  eval_comparison op (Some (pa_ref None (Some a) del)) (Some (string_leaf canon pat)) cpos st =
  Ok (match token_of a cpos with Some (id, w) => match op with cmp_eq => leaf_test pat id w | _ => negb (leaf_test pat id w) end | None => false end, st).
Proof.
  intros Hop. destruct (token_of_id a cpos) as [(i & w & Ei & _ & Ew & ->)|(i & Ei & _ & ->)].
  - destruct (leaf_answer op canon pat a i w Hop Ew) as (v & Ev & Hv).
    unfold eval_comparison. destruct Hop as [-> | ->]; cbv [mbind ev_bind mret ev_ret lift_]; cbn -[compare_values leaf_test]; cbv [mbind ev_bind mret ev_ret lift_]; rewrite Ei; cbn -[compare_values leaf_test];
      destruct pat; cbn -[compare_values leaf_test]; rewrite Ev, Hv; done.
  - unfold eval_comparison. destruct Hop as [-> | ->]; cbv [mbind ev_bind mret ev_ret lift_]; cbn; cbv [mbind ev_bind mret ev_ret lift_]; by rewrite Ei.
Qed.

Lemma eval_inside attr del y cpos st : eval_comparison cmp_ex (Some (sa_ref None attr del)) y cpos st = Ok (inside attr cpos, st).
Proof.
  unfold eval_comparison, inside. cbv [mbind ev_bind mret ev_ret lift_]. cbn. cbv [mbind ev_bind mret ev_ret lift_].
  destruct (cpos2struc2cpos attr cpos) as [[[s e]|] err]; cbn.
  - do 3 f_equal. destruct (cpos =? s), (cpos =? e), ((s <=? cpos) && (cpos <=? e)); done.
  - by destruct (negb (err =? CDA_ESTRUC)).
Qed.

Lemma items_found id nr_items items : 0 <= id <= INT_MAX -> 0 < nr_items -> sorted_items nr_items items ->
  exists o, bsearch (intcompare id items) nr_items = Ok o /\ match o with Some _ => true | None => false end = bool_decide (id ∈ take (Z.to_nat nr_items) items).
Proof.
  intros Hid Hn (Hlen & Hint & Hs & Hf). set (l := take (Z.to_nat nr_items) items) in *. assert (zlen l = nr_items) as El by (unfold l, zlen in *; rewrite length_take; lia).
  assert (forall i, 0 <= i < nr_items -> exists x, aget l i = Ok x /\ aget items i = Ok x /\ 0 <= x <= INT_MAX) as Hget.
  { intros i Hi. destruct (aget_some l i) as [x Hx]; [lia |]. exists x. split; [done |]. pose proof Hx as [_ Hl]%aget_Ok. split; [| exact (proj1 (Forall_lookup _ _) Hf _ _ Hl)].
    apply lookup_take_Some in Hl as [Hl _]. apply aget_nat in Hl. by rewrite Z2Nat.id in Hl by lia. }
  destruct (bsearch_ok (intcompare id items) nr_items (fun i => aget l i = Ok id)) as (o & E & Ho).
  - unfold INT_MAX in Hint. lia.
  - intros i Hi. destruct (Hget i Hi) as (x & Hx & Hx' & Hb). unfold intcompare. rewrite Hx'. exists (id - x). split; [by apply c_int_Ok; unfold INT_MIN, INT_MAX in *; lia |].
    assert (forall j k y z, 0 <= j < k -> k < nr_items -> aget l j = Ok y -> aget l k = Ok z -> y <= z) as Hle.
    { intros j k y z Hjk Hk Hy Hz. by apply (proj1 (sorted_aget Z.le l) Hs j k); try lia. }
    split; [intros E; rewrite Hx; f_equal; lia |]. split; intros Hc j Hj Ej; (destruct (decide (i = j)) as [->|Hne]; [rewrite Hx in Ej; injection Ej; lia |]).
    + pose proof (Hle i j x id ltac:(lia) ltac:(lia) Hx Ej). lia.
    + pose proof (Hle j i id x ltac:(lia) ltac:(lia) Ej Hx). lia.
  - exists o. split; [done |]. symmetry. destruct o as [i|].
    + destruct Ho as [_ [_ Hi]%aget_Ok]. apply bool_decide_eq_true. by eapply list_elem_of_lookup_2.
    + apply bool_decide_eq_false. intros [i Hi]%list_elem_of_lookup. pose proof (lookup_lt_Some _ _ _ Hi). apply (Ho (Z.of_nat i)); [unfold zlen in El; lia | by apply aget_nat].
Qed.

Lemma eval_items attr del negated nr_items items cpos st : sorted_items nr_items items ->
  eval_node (id_list attr None negated nr_items items del) cpos st = Ok (holds (id_list attr None negated nr_items items del) cpos, st).
Proof.
  intros Hs. cbn [eval_node holds]. cbv [mbind ev_bind mret ev_ret lift_]. cbn [mbind res_bind].
  destruct (token_of_id attr cpos) as [(i & w & -> & Hi & _ & ->)|(i & -> & Hi & ->)]; cbn [fst].
  - rewrite (proj2 (Z.leb_le 0 i)) by lia. destruct (Z.leb_spec nr_items 0) as [Hn|Hn].
    + replace (Z.to_nat nr_items) with 0%nat by lia. by destruct negated.
    + destruct (items_found i nr_items items Hi Hn Hs) as (o & -> & E). cbn [mbind res_bind]. rewrite <- E. by destruct negated, o.
  - rewrite (proj2 (Z.leb_gt 0 i)) by done. destruct (nr_items <=? 0); by destruct negated.
Qed.

(** A label-free condition has its truth value, and nothing else happens. *)
Lemma eval_plain c cpos st : plain c = true -> eval_node c cpos st = Ok (holds c cpos, st).
Proof.
  revert c. fix IH 1. intros c Hc. destruct c as [op x y|v| | | | | | | |a l neg n items del|]; try done.
  - destruct op; try done.
    1-3: destruct x as [x|], y as [y|]; try done; cbn [plain] in Hc; apply andb_prop in Hc as [Hx Hy]; cbn [eval_node holds];
      cbv [mbind ev_bind mret ev_ret]; rewrite (IH x Hx); destruct (holds x cpos); cbn; by rewrite ?(IH y Hy).
    + destruct x as [x|], y as [y|]; try done. cbn [plain] in Hc. cbn [eval_node holds]. cbv [mbind ev_bind mret ev_ret]. by rewrite (IH x Hc).
    + destruct x as [[| | | |l [b|] del| | | | | |]|]; try done; destruct l; try done. destruct y as [[]|]; try done. apply eval_leaf. by left.
    + destruct x as [[| | | |l [b|] del| | | | | |]|]; try done; destruct l; try done. destruct y as [[]|]; try done. apply eval_leaf. by right.
    + destruct x as [[| | | | |l attr del| | | | |]|]; try done. destruct l; [done |]. apply eval_inside.
  - destruct l; [done |]. apply eval_items. cbn [plain] in Hc. by apply bool_decide_eq_true in Hc.
Qed.


End Conditions.

(** ** The laws on the sample *)
#[export] Instance sample_laws tokens regions : @AccessLaws bool Empty_set Empty_set (sample_access (map Z.abs tokens) regions).
Proof.
  split; cbn; intros [|] p i; try done; unfold token_at; try (intros [= <-]; lia); destruct (aget (map Z.abs tokens) p) as [j|e] eqn:E; intros [= <-]; [| lia].
  split; [| by eexists]. apply aget_Ok in E as [_ E]. apply list_lookup_fmap_Some in E as (k & -> & _). unfold INT_MAX. lia.
Qed.

(** C21. Conditions on the token itself ([plain]): for every condition that is built from comparisons (= and !=) of
    positional attributes with strings, regular expressions or types, membership in sorted lists of types, tests whether
    the token is inside a region, integer constants, and boolean connectives, without labels, [eval_bool] returns its truth
    value; it changes no label, it does not end the query, no assertion fails, and the binary search in a list of
    types stays inside the list.  Comparisons of two attributes, function calls, bare attributes and other relations are not covered. *)
Theorem eval_bool_plain {Attr Rx Fl : Type} `{EqDecision Attr} `{!Access Attr Rx Fl} `{!AccessLaws Attr Rx Fl} (c : Constraint Attr Rx Fl) cpos t :
  plain c = true -> eval_bool (Some c) cpos (mkEst t true) = Ok (holds c cpos, mkEst t true).
Proof. apply eval_plain. Qed.

(** ["a" => inside a region] for the third token of [a b a] with one region: the condition is false. *)
Definition sample_condition : Constraint bool Empty_set Empty_set :=
  bnode b_implies (Some (bnode cmp_eq (Some (pa_ref None (Some false) false)) (Some (string_leaf 0 (NORMAL [97])))))
    (Some (bnode cmp_ex (Some (sa_ref None true false)) None)).

Lemma eval_bool_plain_witness : let access := sample_access (map Z.abs [0; 1; 0]) [(0, 1)] in plain sample_condition = true /\
  eval_bool (Some sample_condition) 2 (mkEst None true) = Ok (holds sample_condition 2, mkEst None true) /\ (holds sample_condition 0, holds sample_condition 2) = (true, false).
Proof.
  intros access. split; [reflexivity |]. split; [| vm_compute; reflexivity].
  apply (@eval_bool_plain bool Empty_set Empty_set _ access (sample_laws [0; 1; 0] [(0, 1)])). reflexivity.
Defined.
