(* ===== verification/Simulate.v ===== *)
(** * Simulation of an automaton on the corpus: cqp/eval.c, second part

    [simulate] runs the automaton of a query from every corpus position of a match list.  The
    automaton is deterministic over the alphabet of patterns, but several patterns may hold at a
    position: all states that can be reached run in parallel.  [state_vector] holds the corpus
    position of every active state (-1: not active), [reftab_vector] its labels.

    [rt]s of the target states are overwritten before they are read, and the vectors are reset for every match, so
    that what they contain before is a parameter.  The interrupt hook, which is called after
    20000 transitions, and the progress bar are left out. *)

From Stdlib Require Import ZArith Lia.
From stdpp Require Import base tactics option list numbers.
From S2P Require Import Prelude.
From S2P Require Import Regex2dfa.
From S2P Require Import Matchlist.
From S2P Require Import Bitfields.
From S2P Require Import Ranges.
From S2P Require Import Symtab.
From S2P Require Import Eval.

Open Scope Z_scope.

(** ** The environment of a query *)
Inductive matching_strategy := traditional | shortest_match | standard_match | longest_match.

#[export] Instance matching_strategy_eq_dec : EqDecision matching_strategy.
Proof. solve_decision. Defined.

Inductive spacet := word | structure.

(** What is used of a [Context]. *)
Record ctxtsp (Attr : Type) := mkContext { space : spacet; attrib : option Attr; size : Z }.
Arguments mkContext {Attr}.
Arguments space {Attr}.
Arguments attrib {Attr}.
Arguments size {Attr}.

(** [mother_size] is a field of [query_corpus]. *)
Record EvalEnvironment (Attr Rx Fl : Type) := mkEnv {
  query_corpus : CorpusList;
  mother_size : Z;
  labels : option symbol_table;
  patternlist : list (AVStructure Attr Rx Fl);
  gconstraint : option (Constraint Attr Rx Fl);
  dfa : DFA;
  has_target_indicator : bool;
  target_label : option label_entry;
  has_keyword_indicator : bool;
  keyword_label : option label_entry;
  match_label : option label_entry;
  matchend_label : option label_entry;
  search_context : ctxtsp Attr;
  strategy : matching_strategy            (* the field [matching_strategy] *)
}.

Arguments query_corpus {Attr Rx Fl}.
Arguments mother_size {Attr Rx Fl}.
Arguments labels {Attr Rx Fl}.
Arguments patternlist {Attr Rx Fl}.
Arguments gconstraint {Attr Rx Fl}.
Arguments dfa {Attr Rx Fl}.
Arguments has_target_indicator {Attr Rx Fl}.
Arguments target_label {Attr Rx Fl}.
Arguments has_keyword_indicator {Attr Rx Fl}.
Arguments keyword_label {Attr Rx Fl}.
Arguments match_label {Attr Rx Fl}.
Arguments matchend_label {Attr Rx Fl}.
Arguments search_context {Attr Rx Fl}.
Arguments strategy {Attr Rx Fl}.

Section Simulate.
Context {Attr Rx Fl : Type} `{EqDecision Attr} `{!Access Attr Rx Fl}.

(** ** Boundaries: cqp/ranges.c *)

(** The bounds of the context of a position, or [None] if the function returns 0. *)
Definition calculate_ranges (mother_size : Z) (cpos : Z) (spc : ctxtsp Attr) : res (option (Z * Z)) :=
  match space spc with
  | word =>
      let d := size spc in
      if d <? 0 then Ok None
      else
        _ ← c_assert (0 <? mother_size);
        l ← c_int (cpos - d);
        r ← c_int (mother_size - 1 - cpos);
        r ← c_int (cpos + Z.min d r);
        Ok (Some (Z.max 0 l, r))
  | structure =>
      d ← c_int (size spc - 1);
      if d <? 0 then Ok None
      else
        a ← (match attrib spc with Some a => Ok a | None => Err AssertFail end);
        match (cpos2struc2cpos a cpos).1, cpos2struc_oldstyle a cpos with
        | Some _, Some rng_n =>
            r1 ← c_int (rng_n - d);
            match struc2cpos a (Z.max 0 r1), max_struc_oldstyle a with
            | Some (nrng_s, _), Some nr_rngs =>
                r2 ← c_int (rng_n + d);
                match struc2cpos a (Z.min (nr_rngs - 1) r2) with
                | Some (_, nrng_e) => Ok (Some (nrng_s, nrng_e))
                | None => Ok None
                end
            | _, _ => Ok None
            end
        | _, _ => Ok None
        end
  end.

Definition calculate_rightboundary (mother_size : Z) (cpos : Z) (spc : ctxtsp Attr) : res Z :=
  r ← calculate_ranges mother_size cpos spc; Ok (match r with Some b => b.2 | None => -1 end).

Definition calculate_leftboundary (mother_size : Z) (cpos : Z) (spc : ctxtsp Attr) : res Z :=
  r ← calculate_ranges mother_size cpos spc; Ok (match r with Some b => b.1 | None => -1 end).

(** ** Columns *)
Abbreviation column := (AVStructure Attr Rx Fl).

Definition is_lookahead (condition : column) : bool :=
  match condition with MatchAll _ _ lookahead | Pattern _ _ _ lookahead => lookahead | _ => false end.

Definition is_zero_width (condition : column) : bool :=
  match condition with Tag _ _ _ _ _ _ | Anchor _ _ => true | _ => is_lookahead condition end.

Definition is_closing (condition : column) : bool :=
  match condition with Tag c _ _ _ _ _ | Anchor c _ => c | _ => false end.

Definition label_of (condition : column) : option label_entry :=
  match condition with MatchAll l _ _ | Pattern l _ _ _ => l | _ => None end.

Definition target_of (condition : column) : target_nature :=
  match condition with MatchAll _ t _ | Pattern _ _ t _ => t | _ => IsNotTarget end.

Context (strict_regions : bool) (env : EvalEnvironment Attr Rx Fl).

Abbreviation table := (dfa env).

(** [label->ref] for a label that may be NULL. *)
Definition set_special (t : RefTab) (l : option label_entry) (v : Z) : res RefTab := l ← deref l; put_label t l v.

(** ** The state of the simulation *)
Record sim := mkSim {
  state_vector : list Z;
  target_vector : list Z;
  reftab_vector : list RefTab;
  reftab_target_vector : list RefTab;
  running_states : Z;
  winner : Z;
  my_target : Z;
  my_keyword : Z;
  is_running : bool               (* EvaluationIsRunning *)
}.

Definition longest : bool := bool_decide (strategy env = longest_match).

(** [(winner < 0) || (matching_strategy == longest_match)] *)
Definition searching (s : sim) : bool := (winner s <? 0) || longest.

(** ** A transition *)

(** The labels of the region boundaries that are active. *)
Definition region_flags : Z := Z.lor LAB_RDAT (Z.lor LAB_DEFINED LAB_USED).

Definition region_round (t : RefTab) (effective_cpos : Z) (st : list label_entry * bool) : res (list label_entry * bool + bool) :=
  match st.1 with
  | [] => Ok (inr st.2)
  | rbound_label :: _ =>
      rbound ← get_reftab (Some t) (ref rbound_label) (-1);
      Ok (inl (symbol_table_iterator st.1 region_flags, if (0 <=? rbound) && (rbound <? effective_cpos) then false else st.2))
  end.

Definition strict_regions_ok (t : RefTab) (effective_cpos : Z) : res bool :=
  if strict_regions then loop (region_round t effective_cpos) fuel (symbol_table_new_iterator (labels env) region_flags, true) else Ok true.

(** The first transition of the match list's own pattern is not evaluated again; the
    others are left to other match lists. *)
Definition first_transition (condition : column) (valid : bool) (effective_cpos : Z) (srt trt : RefTab) : res (bool * RefTab) :=
  if valid then
    t ← dup_reftab srt trt;
    t ← put_opt t (label_of condition) effective_cpos;
    t ← (match condition with
         | Tag false attr _ _ _ (Some right_boundary) =>
             if strict_regions then
               match (cpos2struc2cpos attr effective_cpos).1 with Some (_, end_) => put_label t right_boundary end_ | None => Ok t end
             else Ok t
         | _ => Ok t
         end);
    Ok (true, t)
  else Ok (false, trt).

Definition mark_target (condition : column) (t : RefTab) (effective_cpos : Z) : res RefTab :=
  match target_of condition with
  | IsTarget => set_special t (target_label env) effective_cpos
  | IsKeyword => set_special t (keyword_label env) effective_cpos
  | IsNotTarget => Ok t
  end.

(** Whether a final state has been reached where the global constraint holds. *)
Definition check_winner (target_state matchend_cpos : Z) (t : RefTab) (is_running : bool) : res (bool * RefTab * bool) :=
  final ← aget (Final table) target_state;
  if (final : bool) then
    match gconstraint env with
    | None => Ok (true, t, is_running)
    | Some g =>
        t ← set_special t (matchend_label env) matchend_cpos;
        r ← eval_bool (Some g) (-1) (mkEst (Some t) is_running);
        t ← deref (rt r.2);
        t ← set_special t (matchend_label env) (-1);
        Ok (r.1, t, running r.2)
    end
  else Ok (false, t, is_running).

(** [start_transition] is negative if all transitions are evaluated. *)
Definition transition (rp start_state start_transition boundary : Z) (first_transition_traversed : bool) (state cpos p : Z) (s : sim) : res sim :=
  row ← aget (TransTable table) state;
  target_state ← aget row p;
  if target_state =? E_State table then Ok s
  else
    condition ← aget (patternlist env) p;
    let zero_width_pattern := is_zero_width condition in
    let effective_cpos := if is_closing condition then cpos - 1 else cpos in
    srt ← aget (reftab_vector s) state;
    strict_ok ← strict_regions_ok srt effective_cpos;
    if ((effective_cpos <=? boundary) || (is_lookahead condition && (effective_cpos =? boundary + 1))) && strict_ok then
      trt ← aget (reftab_target_vector s) target_state;
      r ← (if (state =? start_state) && (0 <=? start_transition) && negb first_transition_traversed then
             v ← first_transition condition (start_transition =? p) effective_cpos srt trt;
             Ok (v.1, srt, v.2, is_running s)
           else eval_constraint strict_regions (query_corpus env) rp condition effective_cpos srt trt (is_running s));
      let '(transition_valid, srt, t, is_run) := r in
      rv ← aset (reftab_vector s) state srt;
      if (transition_valid : bool) then
        t ← mark_target condition t effective_cpos;
        let last := if zero_width_pattern then cpos - 1 else cpos in
        w ← check_winner target_state last t is_run;
        let '(this_is_a_winner, t, is_run) := w in
        rtv ← aset (reftab_target_vector s) target_state t;
        target ← (if (this_is_a_winner : bool) && has_target_indicator env then l ← deref (target_label env); get_reftab (Some t) (ref l) (-1) else Ok (my_target s));
        keyword ← (if this_is_a_winner && has_keyword_indicator env then l ← deref (keyword_label env); get_reftab (Some t) (ref l) (-1) else Ok (my_keyword s));
        tv ← (if negb this_is_a_winner || longest then
                next ← (if zero_width_pattern then Ok cpos else c_int (cpos + 1));
                aset (target_vector s) target_state next
              else Ok (target_vector s));
        Ok (mkSim (state_vector s) tv rv rtv (running_states s) (if (this_is_a_winner : bool) then last else winner s) target keyword is_run)
      else
        rtv ← aset (reftab_target_vector s) target_state t;
        Ok (mkSim (state_vector s) (target_vector s) rv rtv (running_states s) (winner s) (my_target s) (my_keyword s) is_run)
    else Ok s.

(** ** A cycle: all transitions of all active states *)
Definition with_running (s : sim) (n : Z) : sim :=
  mkSim (state_vector s) (target_vector s) (reftab_vector s) (reftab_target_vector s) n (winner s) (my_target s) (my_keyword s) (is_running s).

Definition input_round (rp start_state start_transition boundary : Z) (first_transition_traversed : bool) (state cpos p : Z) (s : sim) : res sim :=
  if searching s then transition rp start_state start_transition boundary first_transition_traversed state cpos p s else Ok s.

Definition state_round (rp start_state start_transition boundary : Z) (first_transition_traversed : bool) (state : Z) (s : sim) : res sim :=
  if searching s && (0 <? running_states s) then
    cpos ← aget (state_vector s) state;
    if 0 <=? cpos then
      for_up (input_round rp start_state start_transition boundary first_transition_traversed state cpos) 0 (Max_Input table)
        (with_running s (running_states s - 1))
    else Ok s
  else Ok s.

Definition clear_round (i : Z) (l : list Z) : res (list Z) := aset l i (-1).

Definition count_running (tv : list Z) : res Z :=
  for_up (fun state n => v ← aget tv state; Ok (if 0 <=? v then n + 1 else n)) 0 (Max_States table) 0.

(** [for (state = 0; ...) if (state_vector[state] != target_vector[state]) break;] and whether
    the end was reached. *)
Definition same_round (sv tv : list Z) (state : Z) : res (Z + bool) :=
  if state <? Max_States table then
    x ← aget sv state; y ← aget tv state; Ok (if negb (x =? y) then inr false else inl (state + 1))
  else Ok (inr true).

Definition cycle (rp start_state start_transition boundary : Z) (st : sim * bool) : res (sim * bool + sim) :=
  let '(s, first_transition_traversed) := st in
  if searching s && (0 <? running_states s) then
    tv ← for_up clear_round 0 (Max_States table) (target_vector s);
    s ← for_up (state_round rp start_state start_transition boundary first_transition_traversed) 0 (Max_States table)
          (mkSim (state_vector s) tv (reftab_vector s) (reftab_target_vector s) (running_states s) (winner s) (my_target s) (my_keyword s) (is_running s));
    s ← (if searching s then
           n ← count_running (target_vector s);
           Ok (mkSim (target_vector s) (state_vector s) (reftab_target_vector s) (reftab_vector s) n (winner s) (my_target s) (my_keyword s) (is_running s))
         else Ok s);
    stuck ← loop (same_round (state_vector s) (target_vector s)) fuel 0;
    Ok (inl (if (stuck : bool)
             then mkSim (state_vector s) (target_vector s) (reftab_vector s) (reftab_target_vector s) 0 (winner s) (my_target s) (my_keyword s) false
             else s, true))
  else Ok (inr s).

(** ** One corpus position *)
Definition reset_round (state : Z) (v : list Z * list RefTab) : res (list Z * list RefTab) :=
  sv ← aset v.1 state (-1);
  t ← aget v.2 state;
  t ← reset_reftab t;
  rv ← aset v.2 state t;
  Ok (sv, rv).

(** The vectors, [winner], [my_target], [my_keyword], [EvaluationIsRunning]. *)
Definition simulate_from (rounds : positive) (rp start_state start_offset start_transition boundary pos : Z) (s : sim) : res sim :=
  v ← for_up reset_round 0 (Max_States table) (state_vector s, reftab_vector s);
  first ← c_int (pos + start_offset);
  sv ← aset v.1 start_state first;
  t ← aget v.2 start_state;
  t ← set_special t (match_label env) first;
  rv ← aset v.2 start_state t;
  loop (cycle rp start_state start_transition boundary) rounds
    (mkSim sv (target_vector s) rv (reftab_target_vector s) 1 (-1) (-1) (-1) (is_running s), false).

(** ** The match list *)
Record outer := mkOuter {
  starts : list Z;
  ends_ : list Z;
  target_positions_ : option (list Z);
  keyword_positions_ : option (list Z);
  cut : Z;
  range_nr : Z;                (* rp *)
  index : Z;                   (* i *)
  vectors : sim
}.

Definition running_ (o : outer) : bool := is_running (vectors o).

(** [if (a) a[i] = (start[i] >= 0) ? v : -1;] *)
Definition set_field (a : option (list Z)) (i start v : Z) : res (option (list Z)) :=
  match a with None => Ok None | Some l => l ← aset l i (if 0 <=? start then v else -1); Ok (Some l) end.

Definition match_round (rounds : positive) (start_state start_offset start_transition : Z) (tabsize : Z) (o : outer) : res (outer + outer) :=
  if (index o <? tabsize) && negb (cut o =? 0) && running_ o then
    pos ← aget (starts o) (index o);
    before ← (if csize (query_corpus env) <=? range_nr o then Ok true else r ← get_range (query_corpus env) (range_nr o); Ok (pos <? rstart r));
    if (before : bool) then
      l ← aset (starts o) (index o) (-1);
      Ok (inl (mkOuter l (ends_ o) (target_positions_ o) (keyword_positions_ o) (cut o) (range_nr o) (index o + 1) (vectors o)))
    else
      r ← get_range (query_corpus env) (range_nr o);
      if rend r <? pos then
        Ok (inl (mkOuter (starts o) (ends_ o) (target_positions_ o) (keyword_positions_ o) (cut o) (range_nr o + 1) (index o) (vectors o)))
      else
        b1 ← calculate_rightboundary (mother_size env) pos (search_context env);
        let boundary := Z.min b1 (rend r) in
        m ← (if boundary =? -1 then
               l ← aset (starts o) (index o) (-1); Ok (l, ends_ o, cut o, (-1, -1), vectors o)
             else
               s ← simulate_from rounds (range_nr o) start_state start_offset start_transition boundary pos (vectors o);
               if (0 <=? winner s) && (pos <=? winner s) then
                 e ← aset (ends_ o) (index o) (winner s);
                 Ok (starts o, e, if 0 <? cut o then cut o - 1 else cut o, (my_target s, my_keyword s), s)
               else l ← aset (starts o) (index o) (-1); Ok (l, ends_ o, cut o, (my_target s, my_keyword s), s));
        let '(l, e, c, marks, s) := m in
        start ← aget l (index o);
        t ← set_field (target_positions_ o) (index o) start marks.1;
        k ← set_field (keyword_positions_ o) (index o) start marks.2;
        Ok (inl (mkOuter l e t k c (range_nr o) (index o + 1) s))
  else Ok (inr o).

(** The match list, [*cut] and [EvaluationIsRunning]. *)
Definition simulate (rounds : positive) (matchlist : Matchlist) (cut0 start_state start_offset : Z) (vectors0 : sim) (start_transition : Z)
  : res (Matchlist * Z * bool) :=
  _ ← c_assert (0 <? csize (query_corpus env));
  _ ← (match range (query_corpus env) with Some _ => Ok tt | None => Err AssertFail end);
  l ← (match start matchlist with Some l => Ok l | None => Err AssertFail end);
  e ← (match ends matchlist with Some e => Ok e | None => Err AssertFail end);
  final ← aget (Final table) 0;
  _ ← c_assert (negb final && negb (E_State table =? 0));
  o ← loop (match_round rounds start_state start_offset start_transition (tabsize matchlist)) fuel
        (mkOuter l e (target_positions matchlist) (keyword_positions matchlist) cut0 0 0 vectors0);
  l ← for_up clear_round (index o) (tabsize matchlist) (starts o);
  Ok (mkML (Some l) (Some (ends_ o)) (target_positions_ o) (keyword_positions_ o) (tabsize matchlist) (matches_whole_corpus matchlist) (is_inverted matchlist),
      cut o, running_ o).
End Simulate.
