(* ===== verification/SimulateTokens.v ===== *)
(** * Queries over tokens: one step of the simulation

    If no column is a tag, an anchor or a lookahead constraint, and no condition depends on
    labels, all active states are at the same corpus position.  The vectors then stand for sets of
    states ([stands]); [transition_ok], [inputs_ok], [states_ok] and [cycle_ok] say how they
    change. *)

From Stdlib Require Import ZArith Lia.
From stdpp Require Import base tactics option list numbers.
From S2P Require Import Prelude.
From S2P Require Import Regex2dfa.
From S2P Require Import Matchlist.
From S2P Require Import Bitfields.
From S2P Require Import Ranges.
From S2P Require Import Symtab.
From S2P Require Import Eval.
From S2P Require Import Simulate.

Open Scope Z_scope.

(** ** Reference tables of the same size *)
Section Tables.
Context (nl : Z).

Definition ok_tab (t : RefTab) : Prop := rsize t = nl /\ zlen (rdata t) = nl.

Definition ok_label (l : label_entry) : Prop := 0 <= ref l < nl.

Lemma dup_ok t1 t2 : ok_tab t1 -> ok_tab t2 -> dup_reftab t1 t2 = Ok t1.
Proof.
  intros [E1 L1] [E2 L2]. pose proof (zlen_nonneg (rdata t1)). unfold dup_reftab. rewrite E1, E2, Z.eqb_refl, L1, L2, Z.ltb_irrefl. cbn [negb orb].
  assert (Z.to_nat nl = length (rdata t1)) as N1 by (unfold zlen in *; lia). assert (Z.to_nat nl = length (rdata t2)) as N2 by (unfold zlen in *; lia).
  rewrite N1 at 1. rewrite firstn_all, N2, drop_all, app_nil_r. destruct t1; cbn in *; congruence.
Qed.

Lemma put_ok t l v : ok_tab t -> ok_label l -> exists t', put_label t l v = Ok t' /\ ok_tab t'.
Proof.
  intros [E L] Hl. unfold ok_label in Hl. unfold put_label, set_reftab. rewrite E. destruct (Z.ltb_spec (ref l) 0), (Z.leb_spec nl (ref l)); try lia. cbn [orb].
  rewrite aset_Ok by lia. res_cbn. eexists. split; [done |]. split; [done | cbn; by rewrite zlen_insert].
Qed.

Lemma put_opt_ok t l v : ok_tab t -> (forall e, l = Some e -> ok_label e) -> exists t', put_opt t l v = Ok t' /\ ok_tab t'.
Proof. intros Ht Hl. destruct l as [e|]; [by apply put_ok, Hl | by exists t]. Qed.

Lemma reset_ok t : ok_tab t -> exists t', reset_reftab t = Ok t' /\ ok_tab t'.
Proof.
  intros [E L]. pose proof (zlen_nonneg (rdata t)). unfold reset_reftab. rewrite E.
  destruct (for_up_rule (fun i d => aset d i (-1)) (fun _ d => zlen d = nl) 0 nl (rdata t)) as (d & -> & Hd); [lia | | done |].
  - intros i d Hi Hd. rewrite aset_Ok by lia. eexists. split; [done |]. by rewrite zlen_insert.
  - res_cbn. by eexists.
Qed.

Lemma get_ok t l c : ok_tab t -> ok_label l -> exists v, get_reftab (Some t) (ref l) c = Ok v.
Proof.
  intros [E L] Hl. unfold ok_label in Hl. unfold get_reftab. destruct (Z.eqb_spec (ref l) (-1)); [lia |]. rewrite E.
  destruct (Z.ltb_spec (ref l) 0), (Z.leb_spec nl (ref l)); try lia. cbn [orb]. apply aget_some. lia.
Qed.
End Tables.

(** ** The automaton as a function *)
Record dfa_ok (d : DFA) : Prop := {
  dfa_states : 0 < Max_States d <= INT_MAX;
  dfa_inputs : 0 <= Max_Input d;
  dfa_error : E_State d = Max_States d;
  dfa_rows : zlen (TransTable d) = Max_States d;
  dfa_row : forall s row, aget (TransTable d) s = Ok row -> zlen row = Max_Input d;
  dfa_cell : forall s row p t, aget (TransTable d) s = Ok row -> aget row p = Ok t -> 0 <= t <= Max_States d;
  dfa_final : Max_States d <= zlen (Final d) <= Max_States d + 1;
  dfa_error_final : aget (Final d) (Max_States d) <> Ok true;
  dfa_start : aget (Final d) 0 = Ok false
}.

Definition next (d : DFA) (s p : Z) : Z :=
  match (row ← aget (TransTable d) s; aget row p) with Ok t => t | Err _ => E_State d end.

Definition final (d : DFA) (s : Z) : bool := match aget (Final d) s with Ok b => b | Err _ => false end.

Section Dfa.
Context (d : DFA).
Hypothesis (D : dfa_ok d).

Lemma next_ok s p : 0 <= s < Max_States d -> 0 <= p < Max_Input d -> exists row, aget (TransTable d) s = Ok row /\ aget row p = Ok (next d s p).
Proof.
  intros Hs Hp. destruct (aget_some (TransTable d) s) as [row Hrow]; [rewrite (dfa_rows _ D); lia |]. exists row. split; [done |].
  unfold next. rewrite Hrow. res_cbn. destruct (aget_some row p) as [t Ht]; [rewrite (dfa_row _ D s row Hrow); lia |]. by rewrite Ht.
Qed.

Lemma next_range s p : 0 <= s < Max_States d -> 0 <= p < Max_Input d -> 0 <= next d s p <= Max_States d.
Proof. intros Hs Hp. destruct (next_ok s p Hs Hp) as (row & Hrow & Ht). by apply (dfa_cell _ D s row p). Qed.

Lemma final_ok s : 0 <= s < Max_States d -> aget (Final d) s = Ok (final d s).
Proof. intros Hs. unfold final. destruct (aget_some (Final d) s) as [b ->]; [pose proof (dfa_final _ D); lia | done]. Qed.
End Dfa.

(** ** Queries over tokens *)
Section Tokens.
Context {Attr Rx Fl : Type} `{EqDecision Attr} `{!Access Attr Rx Fl}.
Context (strict_regions : bool) (env : EvalEnvironment Attr Rx Fl) (nl : Z) (hold : Z -> Z -> bool).
Abbreviation d := (dfa env).
Abbreviation ok_label := (ok_label nl).
Abbreviation ok_tab := (ok_tab nl).

(** A column that consumes a token and does not depend on labels: whether it holds at a corpus
    position is [h]. *)
Definition token_column (c : AVStructure Attr Rx Fl) (h : Z -> bool) : Prop :=
  (forall e, label_of c = Some e -> ok_label e) /\
  match c with
  | Pattern _ b _ lookahead => lookahead = false /\
      forall cpos t, 0 <= cpos -> ok_tab t -> eval_bool b cpos (mkEst (Some t) true) = Ok (h cpos, mkEst (Some t) true)
  | MatchAll _ _ lookahead => lookahead = false /\ forall cpos, h cpos = true
  | _ => False
  end.

Record token_query : Prop := {
  tq_dfa : dfa_ok d;
  tq_regions : strict_regions = true -> symbol_table_new_iterator (labels env) region_flags = [];
  tq_columns : forall p, 0 <= p < Max_Input d -> exists c, aget (patternlist env) p = Ok c /\ token_column c (hold p) /\
    (target_of c = IsTarget -> exists e, target_label env = Some e) /\ (target_of c = IsKeyword -> exists e, keyword_label env = Some e);
  tq_constraint : gconstraint env = None;
  tq_target : has_target_indicator env = true -> exists e, target_label env = Some e;
  tq_keyword : has_keyword_indicator env = true -> exists e, keyword_label env = Some e;
  tq_target_ok : forall e, target_label env = Some e -> ok_label e;
  tq_keyword_ok : forall e, keyword_label env = Some e -> ok_label e;
  tq_match : exists e, match_label env = Some e /\ ok_label e
}.
Hypothesis (Q : token_query).

Abbreviation N := (Max_States d).

Record sim_ok (s : sim) : Prop := {
  so_state : zlen (state_vector s) = N;
  so_target : zlen (target_vector s) = N;
  so_tabs : zlen (reftab_vector s) = N /\ Forall ok_tab (reftab_vector s);
  so_target_tabs : zlen (reftab_target_vector s) = N /\ Forall ok_tab (reftab_target_vector s);
  so_running : is_running s = true
}.

Lemma tab_at l i : zlen l = N /\ Forall ok_tab l -> 0 <= i < N -> exists t, aget l i = Ok t /\ ok_tab t.
Proof.
  intros [L F] Hi. destruct (aget_some l i) as [t Ht]; [lia |]. exists t. split; [done |]. apply aget_Ok in Ht as [_ Ht].
  rewrite list.Forall_forall in F. apply F. by eapply list_elem_of_lookup_2.
Qed.

Lemma tab_set l i t : zlen l = N /\ Forall ok_tab l -> 0 <= i < N -> ok_tab t -> exists l', aset l i t = Ok l' /\ zlen l' = N /\ Forall ok_tab l'.
Proof.
  intros [L F] Hi Ht. rewrite aset_Ok by lia. eexists. split; [done |]. rewrite zlen_insert. split; [done |]. by apply Forall_insert.
Qed.

Section Step.
Context (rp start_state start_transition boundary : Z) (traversed : bool).

(** Whether the first transition is taken without a test, and whether a transition is taken. *)
Definition skips (state : Z) : bool := (state =? start_state) && (0 <=? start_transition) && negb traversed.

Definition takes (state cpos p : Z) : bool :=
  negb (next d state p =? N) && (cpos <=? boundary) && (if skips state then start_transition =? p else hold p cpos).

Lemma no_regions t cpos : strict_regions_ok strict_regions env t cpos = Ok true.
Proof.
  unfold strict_regions_ok. pose proof (tq_regions Q) as R. destruct strict_regions; [| done]. rewrite R by done. by apply loop_exit.
Qed.

(** Columns over tokens. *)
Lemma column_facts c h : token_column c h -> is_zero_width c = false /\ is_closing c = false /\ is_lookahead c = false.
Proof. intros [_ H]. destruct c as [l t la|l b t la|? ? ? ? ? ?|? ?]; try done; destruct H as [-> _]; done. Qed.

Lemma eval_column c h cpos srt trt : token_column c h -> 0 <= cpos -> ok_tab srt -> ok_tab trt -> exists t,
  eval_constraint strict_regions (query_corpus env) rp c cpos srt trt true = Ok (h cpos, srt, t, true) /\ ok_tab t.
Proof.
  intros [Hl Hc] Hp Hs Ht. destruct c as [l g la|l b g la|? ? ? ? ? ?|? ?]; try done; cbn [eval_constraint label_of] in *; destruct Hc as [-> Hh].
  - rewrite (dup_ok nl) by done. res_cbn. destruct (put_opt_ok nl srt l cpos Hs Hl) as (t & -> & Ht'). res_cbn. rewrite Hh. by exists t.
  - rewrite (Hh cpos srt Hp Hs). res_cbn. cbn [snd rt fst running]. res_cbn. destruct (h cpos); [| by exists trt].
    rewrite (dup_ok nl) by done. res_cbn. destruct (put_opt_ok nl srt l cpos Hs Hl) as (t & -> & Ht'). res_cbn. by exists t.
Qed.

Lemma first_column c h v cpos srt trt : token_column c h -> ok_tab srt -> ok_tab trt -> exists t,
  first_transition strict_regions c v cpos srt trt = Ok (v, t) /\ ok_tab t.
Proof.
  intros [Hl Hc] Hs Ht. unfold first_transition. destruct v; [| by exists trt]. rewrite (dup_ok nl) by done. res_cbn.
  destruct (put_opt_ok nl srt (label_of c) cpos Hs Hl) as (t & -> & Ht'). res_cbn. exists t. by destruct c.
Qed.

Lemma mark_ok c t cpos : (target_of c = IsTarget -> exists e, target_label env = Some e) -> (target_of c = IsKeyword -> exists e, keyword_label env = Some e) ->
  ok_tab t -> exists t', mark_target env c t cpos = Ok t' /\ ok_tab t'.
Proof.
  intros H1 H2 Ht. unfold mark_target, set_special. destruct (target_of c); [by exists t | |].
  - destruct (H1 eq_refl) as [e He]. rewrite He. res_cbn. apply put_ok; [done | by apply (tq_target_ok Q)].
  - destruct (H2 eq_refl) as [e He]. rewrite He. res_cbn. apply put_ok; [done | by apply (tq_keyword_ok Q)].
Qed.

(** What is read off the table of a winner. *)
Lemma marked_position (b : bool) l t v : (b = true -> exists e, l = Some e) -> (forall e, l = Some e -> ok_label e) -> ok_tab t ->
  exists r, (if b then l ← deref l; get_reftab (Some t) (ref l) (-1) else Ok v) = Ok r.
Proof.
  intros Hb Hl Ht. destruct b; [| by exists v]. destruct (Hb eq_refl) as [e ->]. res_cbn. apply (get_ok nl); [done | by apply Hl].
Qed.

Lemma transition_ok s state cpos p : sim_ok s -> 0 <= state < N -> 0 <= p < Max_Input d -> 0 <= cpos < INT_MAX -> exists s',
  transition strict_regions env rp start_state start_transition boundary traversed state cpos p s = Ok s' /\ sim_ok s' /\
  state_vector s' = state_vector s /\ running_states s' = running_states s /\
  winner s' = (if takes state cpos p && final d (next d state p) then cpos else winner s) /\
  target_vector s' = (if takes state cpos p && (negb (final d (next d state p)) || longest env)
                      then <[Z.to_nat (next d state p) := cpos + 1]> (target_vector s) else target_vector s).
Proof.
  intros S Hst Hp Hc. pose proof (tq_dfa Q) as D. destruct (next_ok d D state p Hst Hp) as (row & Hrow & Ht). pose proof (next_range d D state p Hst Hp) as Hn.
  unfold transition, takes. rewrite Hrow. res_cbn. rewrite Ht. res_cbn. rewrite (dfa_error _ D). destruct (Z.eqb_spec (next d state p) N) as [_|Hne]; [by exists s |]. cbn [negb andb].
  set (tgt := next d state p) in *. destruct (tq_columns Q p Hp) as (c & Ec & Hcol & H1 & H2). rewrite Ec. res_cbn. destruct (column_facts c (hold p) Hcol) as (-> & -> & ->).
  destruct (tab_at _ state (so_tabs _ S) Hst) as (srt & Esrt & Hsrt). rewrite Esrt. res_cbn. rewrite no_regions. res_cbn. cbn [andb orb]. rewrite orb_false_r, andb_true_r.
  destruct (cpos <=? boundary); [| by exists s]. cbn [andb]. destruct (tab_at _ tgt (so_target_tabs _ S)) as (trt & Etrt & Htrt); [lia |]. rewrite Etrt. res_cbn.
  assert (exists t, (if (state =? start_state) && (0 <=? start_transition) && negb traversed then
             v ← first_transition strict_regions c (start_transition =? p) cpos srt trt; Ok (v.1, srt, v.2, is_running s)
           else eval_constraint strict_regions (query_corpus env) rp c cpos srt trt (is_running s)) =
    Ok ((if skips state then start_transition =? p else hold p cpos), srt, t, true) /\ ok_tab t) as (t & -> & Htab).
  { rewrite (so_running _ S). fold (skips state). destruct (skips state).
    - destruct (first_column c (hold p) (start_transition =? p) cpos srt trt Hcol Hsrt Htrt) as (t & -> & Htab). res_cbn. by exists t.
    - apply eval_column; done || lia. }
  res_cbn. destruct (tab_set _ state srt (so_tabs _ S) Hst Hsrt) as (rv & -> & Hrv). res_cbn. destruct (if skips state then _ else _); cbn [andb].
  - destruct (mark_ok c t cpos H1 H2 Htab) as (t' & -> & Ht'). res_cbn. unfold check_winner. rewrite (final_ok d D) by lia. res_cbn. rewrite (tq_constraint Q).
    assert ((if final d tgt then Ok (true, t', true) else Ok (false, t', true)) = Ok (final d tgt, t', true)) as -> by (by destruct (final d tgt)). res_cbn.
    destruct (tab_set _ tgt t' (so_target_tabs _ S)) as (rtv & -> & Hrtv); [lia | done |]. res_cbn.
    destruct (marked_position (final d tgt && has_target_indicator env) (target_label env) t' (my_target s)) as (r1 & ->);
      [intros [_ ?]%andb_prop; by apply (tq_target Q) | apply (tq_target_ok Q) | done |]. res_cbn.
    destruct (marked_position (final d tgt && has_keyword_indicator env) (keyword_label env) t' (my_keyword s)) as (r2 & ->);
      [intros [_ ?]%andb_prop; by apply (tq_keyword Q) | apply (tq_keyword_ok Q) | done |]. res_cbn.
    destruct (negb (final d tgt) || longest env).
    + rewrite c_int_Ok by (unfold INT_MIN, INT_MAX in *; lia). res_cbn. rewrite aset_Ok by (rewrite (so_target _ S); lia). res_cbn.
      eexists. split; [done |]. split; [| done]. split; cbn; try done; [apply S | rewrite zlen_insert; apply S].
    + res_cbn. eexists. split; [done |]. split; [| done]. split; cbn; try done; apply S.
  - destruct (tab_set _ tgt t (so_target_tabs _ S)) as (rtv & -> & Hrtv); [lia | done |]. res_cbn.
    eexists. split; [done |]. split; [| done]. split; cbn; try done; apply S.
Qed.

(** ** The transitions of a state *)

(** The vector stands for the set [X] of states at the position [v]. *)
Definition stands (tv : list Z) (X : Z -> Prop) (v : Z) : Prop :=
  forall t x, aget tv t = Ok x -> (x = v /\ X t) \/ (x = -1 /\ ~ X t).

(** What has been done when the states [X] have been reached from the position [c]; [w0] is the
    winner before. *)
Record progress (c w0 : Z) (X : Z -> Prop) (s : sim) : Prop := {
  pg_ok : sim_ok s;
  pg_cells : forall t x, aget (target_vector s) t = Ok x -> x = c + 1 \/ x = -1;
  pg_found : ((exists t, X t /\ final d t = true) /\ winner s = c /\ (longest env = true -> stands (target_vector s) X (c + 1))) \/
    ((forall t, X t -> final d t = false) /\ winner s = w0 /\ stands (target_vector s) X (c + 1))
}.

Lemma stands_ext tv X Y v : stands tv X v -> (forall t, X t <-> Y t) -> stands tv Y v.
Proof. intros H E t x Hx. rewrite <- (E t). by apply H. Qed.

Lemma progress_ext c w0 X Y s : progress c w0 X s -> (forall t, X t <-> Y t) -> progress c w0 Y s.
Proof.
  intros [H1 H2 H3] E. split; [done | done |]. destruct H3 as [((t & Ht & Hf) & Hw & Hs)|(Hf & Hw & Hs)]; [left | right].
  - split; [exists t; by rewrite <- E | split; [done | intros L; apply (stands_ext _ X); auto]].
  - split; [intros t; rewrite <- E; apply Hf | split; [done | by apply (stands_ext _ X)]].
Qed.

Lemma stands_add tv X v t : stands tv X v -> 0 <= t < zlen tv -> stands (<[Z.to_nat t := v]> tv) (fun u => X u \/ u = t) v.
Proof.
  intros H Ht u x. intros Hx. pose proof (aget_range _ _ _ Hx) as Hu. rewrite zlen_insert in Hu. destruct (decide (u = t)) as [->|Hne].
  - rewrite aget_insert in Hx by done. injection Hx as <-. left. split; [done | by right].
  - rewrite aget_insert_ne in Hx by (done || lia). destruct (H u x Hx) as [[-> Hxu]|[-> Hxu]]; [left; split; [done | by left] | right].
    split; [done |]. by intros [?|?].
Qed.

(** Once a winner has been found, the search for the shortest match is over. *)
Lemma progress_stop c w0 X Y s : progress c w0 X s -> searching env s = false -> w0 < 0 \/ longest env = true -> (forall t, X t -> Y t) -> progress c w0 Y s.
Proof.
  intros [H1 H2 H3] Hs Hw HXY. unfold searching in Hs. apply orb_false_elim in Hs as [Hn Hl]. apply Z.ltb_ge in Hn. destruct Hw as [Hw|Hw]; [| congruence].
  split; [done | done |]. destruct H3 as [((t & Ht & Hf) & E & Hst)|(_ & E & _)]; [| lia]. left. split; [exists t; auto | split; [done | congruence]].
Qed.

Section State.
Context (state c w0 : Z).
Hypothesis (Hst : 0 <= state < N) (Hc : 0 <= c < INT_MAX) (Hw0 : w0 < 0 \/ longest env = true).

Definition targets_to (q t : Z) : Prop := exists p, 0 <= p < q /\ takes state c p = true /\ next d state p = t.

Lemma input_ok X s p : progress c w0 (fun t => X t \/ targets_to p t) s -> 0 <= p < Max_Input d -> exists s',
  input_round strict_regions env rp start_state start_transition boundary traversed state c p s = Ok s' /\
  progress c w0 (fun t => X t \/ targets_to (p + 1) t) s' /\ state_vector s' = state_vector s /\ running_states s' = running_states s.
Proof.
  intros P Hp. unfold input_round. destruct (searching env s) eqn:Es; cycle 1.
  { exists s. split; [done |]. split; [| done]. eapply progress_stop; [exact P | done | done |]. intros t [?|(q & Hq & ?)]; [by left | right; exists q; split; [lia | done]]. }
  destruct (transition_ok s state c p (pg_ok _ _ _ _ P) Hst Hp Hc) as (s' & E & S' & Ev & Er & Ew & Et). exists s'. split; [done |]. split; [| done].
  pose proof (next_range d (tq_dfa Q) state p Hst Hp) as Hn. pose proof (so_target _ (pg_ok _ _ _ _ P)) as Ln. destruct (takes state c p) eqn:Etk; cbn [andb] in *.
  - assert (next d state p <> N) as Hne by (intros E'; unfold takes in Etk; rewrite E', Z.eqb_refl in Etk; done).
    apply (progress_ext _ _ (fun t => (X t \/ targets_to p t) \/ t = next d state p)).
    2: { intros t. split.
      - intros [[?|(q & Hq & ?)]| ->]; [by left | right; exists q; split; [lia | done] | right; exists p; split; [lia | done]].
      - intros [?|(q & Hq & Htk & <-)]; [by do 2 left |]. destruct (Z.eq_dec q p) as [->|]; [by right | left; right; exists q; split; [lia | done]]. }
    set (t := next d state p) in *. destruct P as [P1 P2 P3]. split; [done | |].
    + intros u x. rewrite Et. destruct (negb (final d t) || longest env); [| by apply P2]. intros Hx. destruct (decide (u = t)) as [->|Hu].
      * rewrite aget_insert in Hx by lia. injection Hx as <-. by left.
      * rewrite aget_insert_ne in Hx by (try done; apply aget_range in Hx; rewrite zlen_insert in Hx; lia). by apply P2 in Hx.
    + rewrite Ew, Et. destruct (final d t) eqn:Ef; cbn [negb orb].
      * left. split; [exists t; split; [by right | done] |]. split; [done |]. intros L. rewrite L. apply stands_add; [| lia].
        destruct P3 as [(_ & _ & Hs)|(_ & _ & Hs)]; [by apply Hs | done].
      * destruct P3 as [((u & Hu & Hf) & Hw & Hs)|(Hf & Hw & Hs)]; [left | right].
        -- split; [exists u; split; [by left | done] |]. split; [done |]. intros L. apply stands_add; [by apply Hs | lia].
        -- split; [by intros u [?| ->]; [apply Hf |] |]. split; [done |]. apply stands_add; [done | lia].
  - apply (progress_ext _ _ (fun t => X t \/ targets_to p t)).
    2: { intros t. split; (intros [?|(q & Hq & Htk & ?)]; [by left | right; exists q; split; [| done]]); [lia |].
         destruct (Z.eq_dec q p) as [->|]; [congruence | lia]. }
    destruct P as [P1 P2 P3]. split; [done | by rewrite Et | by rewrite Ew, Et].
Qed.

Lemma inputs_ok X s : progress c w0 X s -> exists s',
  for_up (input_round strict_regions env rp start_state start_transition boundary traversed state c) 0 (Max_Input d) s = Ok s' /\
  progress c w0 (fun t => X t \/ targets_to (Max_Input d) t) s' /\ state_vector s' = state_vector s /\ running_states s' = running_states s.
Proof.
  intros P. destruct (for_up_rule (input_round strict_regions env rp start_state start_transition boundary traversed state c)
    (fun p s' => progress c w0 (fun t => X t \/ targets_to p t) s' /\ state_vector s' = state_vector s /\ running_states s' = running_states s) 0 (Max_Input d) s)
    as (s' & E & P' & Ev & Er); [apply (tq_dfa Q) | | | by exists s'].
  - intros p s1 Hp (P1 & Ev & Er). destruct (input_ok X s1 p P1 Hp) as (s2 & E & P2 & Ev2 & Er2). exists s2. by rewrite Ev2, Er2.
  - split; [| done]. apply (progress_ext _ _ X); [done |]. intros t. split; [by left |]. intros [?|(p & Hp & _)]; [done | lia].
Qed.
End State.

(** ** The transitions of all states *)

(** The active states from [i] on. *)
Definition active (i : Z) (sv : list Z) : Z := Z.of_nat (length (filter (fun x => 0 <= x) (drop (Z.to_nat i) sv))).

Lemma active_next i sv v : 0 <= i -> aget sv i = Ok v -> active i sv = (if decide (0 <= v) then 1 else 0) + active (i + 1) sv.
Proof.
  intros Hi [_ Hv]%aget_Ok. unfold active. rewrite (drop_S sv v (Z.to_nat i)) by done. rewrite filter_cons. replace (Z.to_nat (i + 1)) with (Datatypes.S (Z.to_nat i)) by lia.
  case_decide; cbn [length]; lia.
Qed.

Lemma active_nonneg i sv : 0 <= active i sv.
Proof. unfold active. lia. Qed.

Lemma active_pos sv : 0 < active 0 sv <-> exists t x, aget sv t = Ok x /\ 0 <= x.
Proof.
  unfold active. rewrite drop_0. split.
  - intros H. destruct (filter (fun x => 0 <= x) sv) as [|x l] eqn:E; [done |]. assert (x ∈ filter (fun x => 0 <= x) sv) as [Hx Hin]%list_elem_of_filter by (rewrite E; by left).
    apply list_elem_of_lookup in Hin as [i Hi]. exists (Z.of_nat i), x. split; [by apply aget_nat | done].
  - intros (t & x & [_ Ht]%aget_Ok & Hx). apply list_elem_of_lookup_2 in Ht. assert (x ∈ filter (fun x => 0 <= x) sv) as Hin by (by apply list_elem_of_filter).
    destruct (filter (fun x => 0 <= x) sv); [by apply elem_of_nil in Hin | cbn; lia].
Qed.

Section States.
Context (A : Z -> Prop) (sv : list Z) (c w0 : Z).
Hypothesis (HA : stands sv A c) (Hlen : zlen sv = N) (Hc : 0 <= c < INT_MAX) (Hw0 : w0 < 0 \/ longest env = true).

(** The states that are reached from those of [A] below [i]. *)
Definition successors (i t : Z) : Prop := exists st, 0 <= st < i /\ A st /\ targets_to st c (Max_Input d) t.

Lemma successors_next i t : 0 <= i -> successors (i + 1) t <-> successors i t \/ (A i /\ targets_to i c (Max_Input d) t).
Proof.
  intros Hi. split.
  - intros (st & Hst & Ha & Ht). destruct (Z.eq_dec st i) as [->|]; [by right | left; exists st; split; [lia | done]].
  - intros [(st & Hst & ?)|[Ha Ht]]; [exists st; split; [lia | done] | exists i; split; [lia | done]].
Qed.

Lemma state_ok i s : 0 <= i < N -> progress c w0 (successors i) s -> state_vector s = sv -> (searching env s = true -> running_states s = active i sv) ->
  exists s', state_round strict_regions env rp start_state start_transition boundary traversed i s = Ok s' /\ progress c w0 (successors (i + 1)) s' /\
    state_vector s' = sv /\ (searching env s' = true -> running_states s' = active (i + 1) sv).
Proof.
  intros Hi P Ev Er. unfold state_round. destruct (searching env s) eqn:Es; cbn [andb]; cycle 1.
  { exists s. split; [done |]. split; [| split; [done | congruence]]. eapply progress_stop; [exact P | done | done |]. intros t (st & Hst & ?). exists st. split; [lia | done]. }
  destruct (aget_some sv i) as [v Hv]; [lia |]. pose proof (active_next i sv v ltac:(lia) Hv) as Ha. pose proof (active_nonneg (i + 1) sv) as Hpos. specialize (Er eq_refl).
  assert (v < 0 -> progress c w0 (successors (i + 1)) s) as Hskip.
  { intros Hneg. apply (progress_ext _ _ (successors i)); [done |]. intros t. rewrite successors_next by lia. split; [by left |]. intros [?|[Hai _]]; [done |].
    destruct (HA i v Hv) as [[-> _]|[_ ?]]; [lia | done]. }
  destruct (Z.ltb_spec 0 (running_states s)); cycle 1.
  { rewrite Er in *. exists s. assert (v < 0) by (case_decide; lia). split; [done |]. split; [by apply Hskip |]. split; [done |]. intros _. rewrite decide_False in Ha by lia. lia. }
  rewrite Ev, Hv. res_cbn. destruct (Z.leb_spec 0 v) as [Hv0|Hv0]; cycle 1.
  { exists s. rewrite decide_False in Ha by lia. split; [done |]. split; [by apply Hskip |]. split; [done |]. intros _. lia. }
  destruct (HA i v Hv) as [[-> Hai]|[-> _]]; [| lia]. rewrite decide_True in Ha by done.
  assert (progress c w0 (successors i) (with_running s (running_states s - 1))) as P' by (destruct P as [[P1 P2 P3 P4 P5] P6 P7]; by split).
  destruct (inputs_ok i c w0 Hi Hc Hw0 (successors i) _ P') as (s' & -> & P'' & Ev' & Er'). exists s'. split; [done |]. split; [| split; [by rewrite Ev' | intros _; rewrite Er'; cbn; lia]].
  apply (progress_ext _ _ _ _ _ P''). intros t. rewrite successors_next by lia. intuition.
Qed.

Lemma states_ok s : progress c w0 (fun _ => False) s -> state_vector s = sv -> running_states s = active 0 sv ->
  exists s', for_up (state_round strict_regions env rp start_state start_transition boundary traversed) 0 N s = Ok s' /\ progress c w0 (successors N) s' /\ state_vector s' = sv.
Proof.
  intros P Ev Er. destruct (for_up_rule (state_round strict_regions env rp start_state start_transition boundary traversed)
    (fun i s => progress c w0 (successors i) s /\ state_vector s = sv /\ (searching env s = true -> running_states s = active i sv)) 0 N s) as (s' & E & P' & Ev' & _).
  - rewrite <- Hlen. apply zlen_nonneg.
  - intros i s1 Hi (P1 & Ev1 & Er1). by apply state_ok.
  - split; [| done]. apply (progress_ext _ _ (fun _ => False)); [done |]. intros t. split; [done | intros (st & Hst & _); lia].
  - by exists s'.
Qed.

End States.

(** ** A cycle *)
Lemma clear_ok tv : zlen tv = N -> for_up clear_round 0 N tv = Ok (replicate (Z.to_nat N) (-1)).
Proof.
  intros Ht. pose proof (zlen_nonneg tv). destruct (for_up_rule clear_round (fun i l => 0 <= i /\ l = replicate (Z.to_nat i) (-1) ++ drop (Z.to_nat i) tv) 0 N tv) as (l & E & _ & ->); [lia | | done |].
  - intros i l Hi [_ ->]. unfold clear_round. assert (i = zlen (replicate (Z.to_nat i) (-1))) as E by (rewrite zlen_replicate; lia).
    destruct (drop (Z.to_nat i) tv) as [|x t] eqn:Ed; [apply (f_equal length) in Ed; rewrite length_drop in Ed; cbn in Ed; unfold zlen in *; lia |].
    rewrite (aset_middle _ t x (-1) i) by done. eexists. split; [done |]. split; [lia |]. replace (Z.to_nat (i + 1)) with (Z.to_nat i + 1)%nat by lia.
    rewrite replicate_add, <- app_assoc. cbn. do 2 f_equal. rewrite <- drop_drop, Ed. done.
  - rewrite E. rewrite drop_ge by (unfold zlen in *; lia). by rewrite app_nil_r.
Qed.

Lemma count_ok tv : zlen tv = N -> count_running env tv = Ok (active 0 tv).
Proof.
  intros Ht. pose proof (zlen_nonneg tv). unfold count_running. destruct (for_up_rule (fun state n => v ← aget tv state; Ok (if 0 <=? v then n + 1 else n))
    (fun i n => 0 <= i /\ n + active i tv = active 0 tv) 0 N 0) as (n & -> & _ & En); [lia | | done |].
  - intros i n Hi [_ En]. destruct (aget_some tv i) as [v Hv]; [lia |]. rewrite Hv. res_cbn. eexists. split; [done |]. split; [lia |].
    rewrite (active_next i tv v) in En by (done || lia). case_Z; case_decide; lia.
  - f_equal. assert (active N tv = 0); [| lia]. unfold active. rewrite drop_ge by (unfold zlen in *; lia). done.
Qed.

Lemma differ_ok sv' tv t x y : zlen sv' = N -> zlen tv = N -> aget sv' t = Ok x -> aget tv t = Ok y -> x <> y -> loop (same_round env sv' tv) fuel 0 = Ok false.
Proof.
  intros L1 L2 Hx Hy Hne. pose proof (aget_range _ _ _ Hx) as Ht. pose proof (dfa_states _ (tq_dfa Q)) as Hmax. unfold INT_MAX in Hmax.
  destruct (loop_rule (same_round env sv' tv) (fun i => 0 <= i <= t) (fun b => b = false) (fun i => N - i)) with (p := fuel) (s := 0) as (b & -> & ->); [| lia | rewrite fuel_val; lia | done].
  intros i Hi. split; [lia |]. unfold same_round. destruct (Z.ltb_spec i N); [| lia]. destruct (aget_some sv' i) as [u Hu]; [lia |]. destruct (aget_some tv i) as [v Hv]; [lia |].
  rewrite Hu, Hv. res_cbn. case_Z; cbn [negb].
  - left. eexists. split; [done |]. destruct (Z.eq_dec i t) as [->|]; [congruence | lia].
  - right. by eexists.
Qed.


(** The active states are [X], at the position [c]. *)
Definition live (s : sim) (X : Z -> Prop) (c : Z) : Prop := stands (state_vector s) X c /\ running_states s = active 0 (state_vector s).

Lemma differ_side sv tv c t : zlen sv = N -> zlen tv = N -> aget sv t = Ok c -> 0 <= c -> (forall t x, aget tv t = Ok x -> x = c + 1 \/ x = -1) ->
  loop (same_round env sv tv) fuel 0 = Ok false /\ loop (same_round env tv sv) fuel 0 = Ok false.
Proof.
  intros L1 L2 Ht Hc H. pose proof (aget_range _ _ _ Ht). destruct (aget_some tv t) as [y Hy]; [lia |]. assert (c <> y) by (destruct (H t y Hy); lia).
  split; [by apply (differ_ok sv tv t c y) | apply (differ_ok tv sv t y c); congruence].
Qed.

Lemma cycle_ok s A c : sim_ok s -> live s A c -> 0 <= c < INT_MAX -> winner s < 0 \/ longest env = true -> 0 < running_states s -> exists s',
  cycle strict_regions env rp start_state start_transition boundary (s, traversed) = Ok (inl (s', true)) /\ sim_ok s' /\
  (((exists t, successors A c N t /\ final d t = true) /\ winner s' = c /\ (longest env = true -> live s' (successors A c N) (c + 1))) \/
   ((forall t, successors A c N t -> final d t = false) /\ winner s' = winner s /\ live s' (successors A c N) (c + 1))).
Proof.
  intros S [HA Er] Hc Hw Hrun. unfold cycle. assert (searching env s = true) as -> by (unfold searching; destruct Hw as [?| ->]; [by rewrite (proj2 (Z.ltb_lt _ _)) | apply orb_true_r]).
  rewrite (proj2 (Z.ltb_lt _ _)) by done. cbn [andb]. rewrite clear_ok by apply S. res_cbn. set (s0 := mkSim _ _ _ _ _ _ _ _ _).
  pose proof (dfa_states _ (tq_dfa Q)) as HN. assert (0 <= N) as HN0 by lia.
  assert (progress c (winner s) (fun _ => False) s0) as P0.
  { split.
    - destruct S as [S1 S2 S3 S4 S5]. split; cbn; try done. rewrite zlen_replicate. lia.
    - intros t x [_ Hx]%aget_Ok. cbn in Hx. apply lookup_replicate in Hx as [-> _]. by right.
    - right. split; [done |]. split; [done |]. intros t x [_ Hx]%aget_Ok. cbn in Hx. apply lookup_replicate in Hx as [-> _]. right. split; [done | by intros []]. }
  destruct (states_ok A (state_vector s) c (winner s) HA (so_state _ S) Hc Hw s0 P0 eq_refl Er) as (s1 & -> & [P1 P2 P3] & Ev). res_cbn.
  rewrite Er in Hrun. apply active_pos in Hrun as (t & x & Ht & Hx). assert (x = c) as -> by (destruct (HA t x Ht) as [[? _]|[? _]]; [done | lia]).
  destruct (differ_side (state_vector s1) (target_vector s1) c t) as [D1 D2]; [apply P1 | apply P1 | by rewrite Ev | lia | done |].
  destruct (searching env s1) eqn:Es.
  - rewrite count_ok by apply P1. res_cbn. cbn [state_vector target_vector]. rewrite D2. res_cbn. eexists. split; [done |]. split.
    + destruct P1 as [S1 S2 S3 S4 S5]. by split.
    + unfold live. cbn [state_vector winner running_states]. destruct P3 as [(Hf & E & Hs)|(Hf & E & Hs)]; [left | right].
      * split; [done |]. split; [done |]. intros L. split; [by apply Hs | done].
      * by repeat split.
  - res_cbn. rewrite D1. res_cbn. exists s1. split; [done |]. split; [done |]. unfold searching in Es. apply orb_false_elim in Es as [Hn Hl]. apply Z.ltb_ge in Hn.
    destruct P3 as [(Hf & E & Hs)|(Hf & E & _)]; [| destruct Hw; [lia | congruence]]. left. split; [done |]. split; [done | congruence].
Qed.
End Step.
End Tokens.
