(* ===== verification/SimulateRun.v ===== *)
(** * Queries over tokens: the simulation from one corpus position

    [simulate_from_ok]: the winner is the end of the shortest match that starts at the position
    or, for the strategy [longest_match], of the longest one; the simulation ends. *)

From Stdlib Require Import ZArith Lia.
From stdpp Require Import base tactics option list numbers.
From S2P Require Import Prelude.
From S2P Require Import Regex2dfa.
From S2P Require Import RegexDfa.
From S2P Require Import Matchlist.
From S2P Require Import Bitfields.
From S2P Require Import Ranges.
From S2P Require Import Symtab.
From S2P Require Import Eval.
From S2P Require Import Simulate.
From S2P Require Import SimulateTokens.

Open Scope Z_scope.

(** ** Words and states *)
Section Words.
Context (d : DFA).
Hypothesis (D : dfa_ok d).

Lemma next_error p : next d (Max_States d) p = Max_States d.
Proof. unfold next. rewrite aget_oob by (rewrite (dfa_rows _ D); lia). res_cbn. apply D. Qed.

Lemma fold_error w : foldl (next d) (Max_States d) w = Max_States d.
Proof. induction w as [|p w IH]; [done |]. cbn. by rewrite next_error. Qed.

Lemma final_error : final d (Max_States d) = false.
Proof. unfold final. pose proof (dfa_error_final _ D). destruct (aget (Final d) (Max_States d)) as [[|]|]; done. Qed.

(** The automaton accepts a word if it leads to a final state. *)
Lemma accepts_fold s w : dfa_accepts d s w = final d (foldl (next d) s w).
Proof.
  revert s. induction w as [|p w IH]; intros s; cbn [dfa_accepts foldl]; [done |]. destruct (row ← aget (TransTable d) s; aget row p) as [t|] eqn:E.
  - assert (next d s p = t) as -> by (unfold next; by rewrite E). rewrite IH, (dfa_error _ D). destruct (Z.eqb_spec t (Max_States d)) as [->|]; [| done].
    cbn. by rewrite fold_error, final_error.
  - assert (next d s p = Max_States d) as -> by (unfold next; rewrite E; apply D). by rewrite fold_error, final_error.
Qed.
End Words.

Section Run.
Context {Attr Rx Fl : Type} `{EqDecision Attr} `{!Access Attr Rx Fl}.
Context (strict_regions : bool) (env : EvalEnvironment Attr Rx Fl) (nl : Z) (hold : Z -> Z -> bool).
Abbreviation d := (dfa env).
Abbreviation N := (Max_States d).
Hypothesis (Q : token_query strict_regions env nl hold).

Context (rp start_transition boundary pos : Z).
Hypothesis (Hpos : 0 <= pos) (Hbound : pos + 1 < INT_MAX /\ boundary + 1 < INT_MAX).

(** ** Spans *)

(** Whether the column [p] is taken for the token [i] of a match. *)
Definition test (i : nat) (p : Z) : Prop :=
  if (bool_decide (i = 0%nat)) && (0 <=? start_transition) then start_transition = p else hold p (pos + Z.of_nat i) = true.

Definition valid (w : list Z) : Prop := forall i p, w !! i = Some p -> 0 <= p < Max_Input d /\ test i p /\ pos + Z.of_nat i <= boundary.

(** The tokens from [pos] to [e] match. *)
Definition spans (e : Z) : Prop := exists w, pos <= e /\ zlen w = e - pos + 1 /\ valid w /\ dfa_accepts d 0 w = true.

(** The states after [k] tokens. *)
Definition reach (k : nat) (t : Z) : Prop := exists w, length w = k /\ valid w /\ foldl (next d) 0 w = t /\ 0 <= t < N.

Lemma valid_snoc w p : valid (w ++ [p]) <-> valid w /\ 0 <= p < Max_Input d /\ test (length w) p /\ pos + Z.of_nat (length w) <= boundary.
Proof.
  split.
  - intros H. split.
    + intros i q Hi. apply H. by apply lookup_app_l_Some.
    + apply H. apply list_lookup_middle. done.
  - intros [H1 H2] i q Hi. apply lookup_app_Some in Hi as [Hi|[Hge Hi]]; [by apply H1 |]. apply list_lookup_singleton_Some in Hi as [Hi <-].
    replace i with (length w) by lia. done.
Qed.

Lemma start_range : 0 <= 0 < N.
Proof. pose proof (dfa_states _ (tq_dfa _ _ _ _ Q)). lia. Qed.

Lemma reach_0 t : reach 0 t <-> t = 0.
Proof.
  split.
  - intros (w & Hw & _ & <- & _). by apply nil_length_inv in Hw as ->.
  - intros ->. exists []. split; [done |]. split; [intros i p; by rewrite lookup_nil |]. split; [done | apply start_range].
Qed.

Lemma reach_S k t : reach (Datatypes.S k) t <-> successors env hold 0 start_transition boundary (bool_decide (k <> 0%nat)) (reach k) (pos + Z.of_nat k) N t.
Proof.
  pose proof (tq_dfa _ _ _ _ Q) as D. split.
  - intros (w & Hw & Hv & Ht & Htn). destruct w as [|p w' _] using rev_ind; [done |]. rewrite length_app in Hw. cbn in Hw. assert (length w' = k) as <- by lia.
    apply valid_snoc in Hv as (Hv & Hp & Htest & Hb). rewrite foldl_snoc in Ht. set (st := foldl (next d) 0 w') in *.
    assert (0 <= st < N) as Hst.
    { unfold st in *. clear -Ht Htn D. destruct (Z.lt_ge_cases (foldl (next d) 0 w') N) as [Hlt|Hge].
      - split; [| done]. destruct (Z.lt_ge_cases (foldl (next d) 0 w') 0) as [Hneg|]; [| done]. exfalso. revert Ht. unfold next at 1. rewrite aget_oob by lia. res_cbn. rewrite (dfa_error _ D). lia.
      - exfalso. revert Ht. unfold next at 1. rewrite aget_oob by (rewrite (dfa_rows _ D); lia). res_cbn. rewrite (dfa_error _ D). lia. }
    exists st. split; [done |]. split; [by exists w' |]. exists p. split; [done |]. split; [| done]. unfold takes. rewrite Ht.
    destruct (Z.eqb_spec t N); [lia |]. rewrite (proj2 (Z.leb_le _ _)) by done. cbn [negb andb]. unfold skips, test in *.
    destruct w' as [|q w'']; cbn [length] in *.
    + change st with 0. rewrite Z.eqb_refl. cbn [andb]. rewrite bool_decide_false, andb_true_r by lia. rewrite bool_decide_true in Htest by done. cbn [andb] in Htest.
      destruct (0 <=? start_transition); [by apply Z.eqb_eq | done].
    + rewrite bool_decide_true, andb_false_r by done. rewrite bool_decide_false in Htest by done. done.
  - intros (st & Hst & (w & Hw & Hv & Hf & Hstn) & p & Hp & Htk & Ht). exists (w ++ [p]). split; [rewrite length_app; cbn; lia |].
    unfold takes in Htk. apply andb_prop in Htk as [[Hn Hb]%andb_prop Htest]. apply Z.leb_le in Hb. apply negb_true_iff, Z.eqb_neq in Hn.
    split; [| split; [by rewrite foldl_snoc, Hf | pose proof (next_range d D st p Hst Hp); lia]].
    apply valid_snoc. split; [done |]. split; [done |]. rewrite Hw. split; [| done]. unfold test. unfold skips in Htest. destruct k as [|k].
    + apply nil_length_inv in Hw as ->. cbn in Hf. subst st. rewrite Z.eqb_refl in Htest. rewrite bool_decide_false in Htest by lia. rewrite bool_decide_true by done.
      cbn [andb negb] in *. rewrite andb_true_r in Htest. destruct (0 <=? start_transition); [by apply Z.eqb_eq in Htest | done].
    + rewrite bool_decide_true, andb_false_r in Htest by done. by rewrite bool_decide_false.
Qed.

(** Matches of [k] tokens. *)
Definition accepts (k : nat) : Prop := exists t, reach k t /\ final d t = true.

Lemma accepts_spans k : (1 <= k)%nat -> accepts k <-> spans (pos + Z.of_nat k - 1).
Proof.
  intros Hk. pose proof (tq_dfa _ _ _ _ Q) as D. split.
  - intros (t & (w & Hw & Hv & Hf & _) & Ht). exists w. split; [lia |]. split; [unfold zlen; lia |]. split; [done |]. rewrite (accepts_fold d D), Hf. done.
  - intros (w & _ & Hw & Hv & Ha). rewrite (accepts_fold d D) in Ha. exists (foldl (next d) 0 w). split; [| done]. exists w. split; [unfold zlen in Hw; lia |]. split; [done |]. split; [done |].
    unfold final in Ha. destruct (aget (Final d) _) as [b|] eqn:E; [| done]. subst b. pose proof (aget_range _ _ _ E). pose proof (dfa_final _ D).
    destruct (decide (foldl (next d) 0 w = N)) as [E'|]; [rewrite E' in E; by apply (dfa_error_final _ D) in E | lia].
Qed.

Lemma spans_accepts e : spans e -> exists k, (1 <= k)%nat /\ accepts k /\ e = pos + Z.of_nat k - 1.
Proof.
  intros H. pose proof H as (w & Hle & _). exists (Z.to_nat (e - pos + 1)). split; [lia |]. assert (e = pos + Z.of_nat (Z.to_nat (e - pos + 1)) - 1) as E by lia.
  split; [| done]. apply accepts_spans; [lia | by rewrite <- E].
Qed.

Lemma not_accepts_0 : ~ accepts 0.
Proof.
  intros (t & ->%reach_0 & Hf). pose proof (dfa_start _ (tq_dfa _ _ _ _ Q)) as E. unfold final in Hf. by rewrite E in Hf.
Qed.

Lemma reach_bound k t : reach (Datatypes.S k) t -> pos + Z.of_nat k <= boundary.
Proof. intros (w & Hw & Hv & _). destruct (lookup_lt_is_Some_2 w k) as [p Hp]; [lia |]. by apply (Hv k p). Qed.

Lemma reach_mono k j t : reach j t -> (k <= j)%nat -> exists u, reach k u.
Proof.
  intros Hj Hle. revert t Hj. induction Hle as [|j Hle IH]; intros t Hj; [by exists t |]. apply reach_S in Hj as (st & _ & Hst & _). by eapply IH.
Qed.

(** ** The loop *)

(** What is known of the winner when the matches of up to [k] tokens have been seen. *)
Definition best (k : nat) (w : Z) : Prop :=
  (w = -1 /\ forall j, (j <= k)%nat -> ~ accepts j) \/
  (longest env = true /\ exists j, (1 <= j <= k)%nat /\ w = pos + Z.of_nat j - 1 /\ accepts j /\ forall i, (j < i <= k)%nat -> ~ accepts i).

Definition over (w : Z) : Prop := exists j, (1 <= j)%nat /\ longest env = false /\ w = pos + Z.of_nat j - 1 /\ accepts j /\ forall i, (i < j)%nat -> ~ accepts i.

(** The state at the start of a round; [n] bounds the rounds to come. *)
Definition run_inv (n : Z) (st : sim * bool) : Prop := sim_ok env nl st.1 /\
  ((exists k, st.2 = bool_decide (k <> 0%nat) /\ live st.1 (reach k) (pos + Z.of_nat k) /\ best k (winner st.1) /\
      Z.of_nat k <= Z.max 0 (boundary - pos + 1) + 1 /\ n = Z.max 0 (boundary - pos + 1) + 3 - Z.of_nat k) \/
   (over (winner st.1) /\ n = 0)).

Definition run_result (s : sim) : Prop := sim_ok env nl s /\ ((exists k, best k (winner s) /\ forall j, (k < j)%nat -> ~ accepts j) \/ over (winner s)).

Lemma best_neg k w : best k w -> w < 0 \/ longest env = true.
Proof. intros [[-> _]|[? _]]; [left; lia | by right]. Qed.

Lemma run_live k n s : run_inv n (s, bool_decide (k <> 0%nat)) -> live s (reach k) (pos + Z.of_nat k) -> best k (winner s) ->
  Z.of_nat k <= Z.max 0 (boundary - pos + 1) + 1 -> n = Z.max 0 (boundary - pos + 1) + 3 - Z.of_nat k ->
  (exists s' n', cycle strict_regions env rp 0 start_transition boundary (s, bool_decide (k <> 0%nat)) = Ok (inl s') /\ run_inv n' s' /\ n' < n) \/
  (exists r, cycle strict_regions env rp 0 start_transition boundary (s, bool_decide (k <> 0%nat)) = Ok (inr r) /\ run_result r).
Proof.
  intros [S _] L B Hk Hn. cbn [fst] in S. pose proof L as [Lst Lr]. destruct (Z.lt_ge_cases 0 (running_states s)) as [Hrun|Hrun]; cycle 1.
  { right. exists s. split; [unfold cycle; rewrite (proj2 (Z.ltb_ge _ _)), andb_false_r by done; done |]. split; [done |]. left. exists k. split; [done |].
    intros j Hj (t & Ht & _). destruct (reach_mono k j t Ht) as [u Hu]; [lia |]. pose proof Hu as (_ & _ & _ & _ & Hun). destruct (aget_some (state_vector s) u) as [x Hx]; [by rewrite (so_state _ _ _ S) |].
    destruct (Lst u x Hx) as [[-> _]|[_ ?]]; [| done]. assert (0 < active 0 (state_vector s)); [| lia]. apply active_pos. eexists _, _. split; [exact Hx | lia]. }
  left. assert (0 <= pos + Z.of_nat k < INT_MAX) as Hc.
  { split; [lia |]. assert (exists u, reach k u) as [u Hu].
    { rewrite Lr in Hrun. apply active_pos in Hrun as (u & x & Hx & Hx0). exists u. destruct (Lst u x Hx) as [[_ ?]|[-> _]]; [done | lia]. }
    destruct k as [|k]; [lia |]. apply reach_bound in Hu. lia. }
  destruct (cycle_ok strict_regions env nl hold Q rp 0 start_transition boundary (bool_decide (k <> 0%nat)) s (reach k) (pos + Z.of_nat k) S L Hc (best_neg _ _ B) Hrun)
    as (s' & E & S' & Hcase).
  assert (forall t, successors env hold 0 start_transition boundary (bool_decide (k <> 0%nat)) (reach k) (pos + Z.of_nat k) N t <-> reach (Datatypes.S k) t) as Hsucc by (intros t; by rewrite reach_S).
  assert (forall s1, live s1 (successors env hold 0 start_transition boundary (bool_decide (k <> 0%nat)) (reach k) (pos + Z.of_nat k) N) (pos + Z.of_nat k + 1) ->
    live s1 (reach (Datatypes.S k)) (pos + Z.of_nat (Datatypes.S k))) as Hlive.
  { intros s1 [H1 H2]. split; [| done]. replace (pos + Z.of_nat (Datatypes.S k)) with (pos + Z.of_nat k + 1) by lia. by eapply stands_ext. }
  assert (Z.of_nat (Datatypes.S k) <= Z.max 0 (boundary - pos + 1) + 1 \/ Z.of_nat k = Z.max 0 (boundary - pos + 1) + 1) as Hk' by lia.
  assert (Z.of_nat k <= Z.max 0 (boundary - pos + 1)) as Hk2.
  { destruct k as [|k]; [lia |]. rewrite Lr in Hrun. apply active_pos in Hrun as (u & x & Hx & Hx0). destruct (Lst u x Hx) as [[_ Hu%reach_bound]|[-> _]]; lia. }
  eexists (s', true). destruct Hcase as [((t & Ht & Hf) & Hw & Hl)|(Hf & Hw & Hl)].
  - assert (accepts (Datatypes.S k)) as Ha by (exists t; by rewrite <- Hsucc). destruct (longest env) eqn:El.
    + exists (n - 1). split; [exact E |]. split; [| lia]. split; [done |]. left. exists (Datatypes.S k). cbn [fst snd]. split; [done |]. split; [by apply Hlive, Hl |].
      split; [| lia]. right. split; [done |]. exists (Datatypes.S k). split; [lia |]. split; [lia |]. split; [done |]. intros i ?. lia.
    + exists 0. split; [exact E |]. split; [| lia]. split; [done |]. right. split; [| done]. exists (Datatypes.S k). split; [lia |]. split; [done |]. cbn [fst]. split; [lia |]. split; [done |].
      destruct B as [[_ B]|[? _]]; [intros i Hi; apply B; lia | congruence].
  - exists (n - 1). split; [exact E |]. split; [| lia]. split; [done |]. left. exists (Datatypes.S k). cbn [fst snd]. split; [done |]. split; [by apply Hlive |].
    split; [| lia]. assert (~ accepts (Datatypes.S k)) as Hna by (intros (t & Ht & Hft); rewrite <- Hsucc in Ht; rewrite (Hf t Ht) in Hft; done).
    rewrite Hw. destruct B as [[-> B]|[El (j & Hj & -> & Haj & Hno)]]; [left | right].
    + split; [done |]. intros j Hj. destruct (decide (j = Datatypes.S k)) as [->|]; [done | apply B; lia].
    + split; [done |]. exists j. split; [lia |]. split; [done |]. split; [done |]. intros i Hi. destruct (decide (i = Datatypes.S k)) as [->|]; [done | apply Hno; lia].
Qed.

(** ** From a position *)

(** The end of the match that is chosen, or -1. *)
Definition chosen_end (w : Z) : Prop :=
  (w = -1 /\ forall e, ~ spans e) \/ (spans w /\ forall e, spans e -> if longest env then e <= w else w <= e).

Lemma reset_loop s : sim_ok env nl s -> exists v, for_up reset_round 0 N (state_vector s, reftab_vector s) = Ok v /\
  v.1 = replicate (Z.to_nat N) (-1) /\ zlen v.2 = N /\ Forall (ok_tab nl) v.2.
Proof.
  intros S. pose proof start_range as HN. pose proof (so_state _ _ _ S) as L. destruct (for_up_rule reset_round
    (fun i v => 0 <= i /\ v.1 = replicate (Z.to_nat i) (-1) ++ drop (Z.to_nat i) (state_vector s) /\ zlen v.2 = N /\ Forall (ok_tab nl) v.2) 0 N (state_vector s, reftab_vector s))
    as ([sv rv] & E & _ & E1 & H2); [lia | | split; [done |]; split; [done | apply S] |].
  - intros i [sv rv] Hi (_ & Esv & H2). cbn [fst snd] in *. subst sv. unfold reset_round. cbn [fst snd].
    assert (i = zlen (replicate (Z.to_nat i) (-1))) as Ez by (rewrite zlen_replicate; lia).
    destruct (drop (Z.to_nat i) (state_vector s)) as [|x t] eqn:Ed; [apply (f_equal length) in Ed; rewrite length_drop in Ed; cbn in Ed; unfold zlen in *; lia |].
    rewrite (aset_middle _ t x (-1) i) by done. res_cbn. destruct (tab_at env nl _ i H2 ltac:(lia)) as (tab & Et & Ht). rewrite Et. res_cbn.
    destruct (reset_ok nl tab Ht) as (tab' & -> & Ht'). res_cbn. destruct (tab_set env nl _ i tab' H2 ltac:(lia) Ht') as (rv' & -> & H2'). res_cbn.
    eexists. split; [done |]. cbn [fst snd]. split; [lia |]. split; [| done]. replace (Z.to_nat (i + 1)) with (Z.to_nat i + 1)%nat by lia.
    rewrite replicate_add, <- app_assoc. cbn. do 2 f_equal. rewrite <- drop_drop, Ed. done.
  - exists (sv, rv). rewrite E. split; [done |]. cbn [fst snd] in *. split; [| done]. rewrite E1, drop_ge by (unfold zlen in L; lia). by rewrite app_nil_r.
Qed.

Lemma start_live : stands (<[Z.to_nat 0 := pos]> (replicate (Z.to_nat N) (-1))) (reach 0) pos.
Proof.
  intros t x Hx. pose proof (aget_range _ _ _ Hx) as Ht. rewrite zlen_insert, zlen_replicate in Ht. pose proof start_range. destruct (decide (t = 0)) as [->|Hne].
  - rewrite aget_insert in Hx by (rewrite zlen_replicate; lia). injection Hx as <-. left. split; [done | by apply reach_0].
  - rewrite aget_insert_ne in Hx by lia. apply aget_Ok in Hx as [_ Hx]. apply lookup_replicate in Hx as [-> _]. right. split; [done |]. by rewrite reach_0.
Qed.

Lemma start_active : active 0 (<[Z.to_nat 0 := pos]> (replicate (Z.to_nat N) (-1))) = 1.
Proof.
  pose proof start_range as HN. destruct (Z.to_nat N) as [|n] eqn:E; [lia |]. unfold active. change (<[Z.to_nat 0 := pos]> (replicate (Datatypes.S n) (-1))) with (pos :: replicate n (-1)).
  rewrite drop_0, filter_cons, decide_True by done. cbn [length].
  assert (filter (fun x => 0 <= x) (replicate n (-1)) = []) as ->; [| done]. clear E. induction n as [|n IH]; [done |]. cbn [replicate]. by rewrite filter_cons, decide_False by lia.
Qed.

Lemma simulate_from_ok rounds s : sim_ok env nl s -> Z.max 0 (boundary - pos + 1) + 3 < Zpos rounds -> exists s',
  simulate_from strict_regions env rounds rp 0 0 start_transition boundary pos s = Ok s' /\ sim_ok env nl s' /\ chosen_end (winner s').
Proof.
  intros S Hr. unfold simulate_from. destruct (reset_loop s S) as ([sv rv] & -> & E1 & H2). cbn [fst snd] in *. subst sv. res_cbn. cbn [fst snd].
  rewrite c_int_Ok by (unfold INT_MIN, INT_MAX in *; lia). res_cbn. rewrite Z.add_0_r. pose proof start_range as HN.
  rewrite aset_Ok by (rewrite zlen_replicate; lia). res_cbn. destruct (tab_at env nl rv 0 H2 HN) as (t & -> & Ht). res_cbn.
  destruct (tq_match _ _ _ _ Q) as (e & Em & He). unfold set_special. rewrite Em. res_cbn. destruct (put_ok nl t e pos Ht He) as (t' & -> & Ht'). res_cbn.
  destruct (tab_set env nl rv 0 t' H2 HN Ht') as (rv' & -> & H2'). res_cbn.
  set (s0 := mkSim _ _ _ _ _ _ _ _ _). assert (sim_ok env nl s0) as S0.
  { destruct S as [S1 S2 S3 S4 S5]. split; cbn; try done. rewrite zlen_insert, zlen_replicate. lia. }
  destruct (loop_indexed (cycle strict_regions env rp 0 start_transition boundary) run_inv run_result) with (p := rounds) (n := Z.max 0 (boundary - pos + 1) + 3) (s := (s0, false)) as (s' & E & S' & Hres).
  - intros n [s1 b] I. pose proof I as [S1 [(k & Eb & L & B & Hk & En)|[O ->]]]; cbn [fst snd] in *.
    + split; [lia |]. rewrite Eb in *. by apply (run_live k n s1).
    + split; [lia |]. right. exists s1. destruct O as (j & Hj & El & Ew & Ha & Hno). split; [| split; [done |]; right; by exists j].
      unfold cycle, searching. rewrite El, Ew, (proj2 (Z.ltb_ge _ _)) by lia. done.
  - split; [done |]. left. exists 0%nat. cbn [fst snd]. split; [done |]. split; [| split; [| lia]].
    + rewrite Z.add_0_r. split; [apply start_live | symmetry; apply start_active].
    + left. split; [done |]. intros j Hj. assert (j = 0%nat) as -> by lia. apply not_accepts_0.
  - done.
  - exists s'. split; [done |]. split; [done |]. destruct Hres as [(k & B & Hno)|(j & Hj & El & Ew & Ha & Hno)].
    + destruct B as [[Ew B]|[El (j & Hj & Ew & Ha & Hbest)]].
      * left. split; [done |]. intros f (i & Hi & Hai & _)%spans_accepts. destruct (decide (i <= k)%nat); [by eapply B | by eapply Hno; [| done]; lia].
      * right. rewrite Ew. split; [apply accepts_spans; [lia | done] |]. intros f (i & Hi & Hai & ->)%spans_accepts. rewrite El.
        destruct (decide (i <= j)%nat); [lia |]. exfalso. destruct (decide (i <= k)%nat); [by apply (Hbest i); [lia |] | by apply (Hno i); [lia |]].
    + right. rewrite Ew. split; [by apply accepts_spans |]. intros f (i & Hi & Hai & ->)%spans_accepts. rewrite El. destruct (decide (i < j)%nat); [by destruct (Hno i) | lia].
Qed.
End Run.
