(* ===== verification/SimulateList.v ===== *)
(** * Queries over tokens: the simulation of a match list

    [simulate_ok]: for every position of the match list, the match that starts there and is
    inside its range of the query corpus, with the end that the matching strategy asks
    for; the other positions are deleted. *)

From Stdlib Require Import ZArith Lia Sorted.
From stdpp Require Import base tactics option list numbers.
From S2P Require Import Prelude.
From S2P Require Import Regex2dfa.
From S2P Require Import RegexDfa.
From S2P Require Import Matchlist.
From S2P Require Import Bitfields.
From S2P Require Import Ranges.
From S2P Require Import RangesMatch.
From S2P Require Import Symtab.
From S2P Require Import Eval.
From S2P Require Import Simulate.
From S2P Require Import SimulateTokens.
From S2P Require Import SimulateRun.

Open Scope Z_scope.

Section SimulateList.
Context {Attr Rx Fl : Type} `{EqDecision Attr} `{!Access Attr Rx Fl}.
Context (strict_regions : bool) (env : EvalEnvironment Attr Rx Fl) (nl : Z) (hold : Z -> Z -> bool).
Abbreviation d := (dfa env).
Abbreviation corpus := (query_corpus env).
Hypothesis (Q : token_query strict_regions env nl hold).

(** The query corpus; [bnd] is the boundary of the context of a position. *)
Context (bnd : Z -> Z).
Hypothesis (W : wf corpus) (Hsize : 0 < csize corpus) (Hapart : StronglySorted apart (ranges corpus)).
Hypothesis (Hend : forall r, r ∈ ranges corpus -> rend r + 1 < INT_MAX).
Hypothesis (Hbnd : forall pos r, r ∈ ranges corpus -> rstart r <= pos <= rend r -> calculate_rightboundary (mother_size env) pos (search_context env) = Ok (bnd pos)).

Context (start_transition : Z).

(** The tokens from [pos] to [e] match, inside a range and the context. *)
Definition matched (pos e : Z) : Prop :=
  exists r, r ∈ ranges corpus /\ rstart r <= pos <= rend r /\ spans env hold start_transition (Z.min (bnd pos) (rend r)) pos e.

(** The match that the strategy chooses for [pos], or -1. *)
Definition best_match (pos w : Z) : Prop :=
  (w = -1 /\ forall e, ~ matched pos e) \/ (matched pos w /\ forall e, matched pos e -> if longest env then e <= w else w <= e).

Lemma spans_ge boundary pos e : spans env hold start_transition boundary pos e -> pos <= e /\ pos <= boundary.
Proof.
  intros (w & Hle & Hw & Hv & _). split; [done |]. destruct w as [|p w]; [unfold zlen in Hw; cbn in Hw; lia |]. destruct (Hv 0%nat p eq_refl) as (_ & _ & ?). lia.
Qed.

Lemma matched_ge pos e : matched pos e -> 0 <= pos <= e.
Proof.
  intros (r & Hr & Hp & [? _]%spans_ge). pose proof (wf_pos _ W) as P. rewrite list.Forall_forall in P. apply P in Hr. lia.
Qed.

(** The range of a position. *)
Lemma apart_unique r s pos : r ∈ ranges corpus -> s ∈ ranges corpus -> rstart r <= pos <= rend r -> rstart s <= pos <= rend s -> r = s.
Proof.
  intros (i & Hi & <-)%(elem_of_ranges _ W) (j & Hj & <-)%(elem_of_ranges _ W) H1 H2.
  pose proof (proj1 (sorted_aget apart (ranges corpus)) Hapart) as HS. destruct (Z.lt_total i j) as [Hlt|[->|Hlt]]; [| done |].
  - pose proof (HS i j _ _ ltac:(lia) (at_ok _ W i Hi) (at_ok _ W j Hj)) as A. unfold apart in A. lia.
  - pose proof (HS j i _ _ ltac:(lia) (at_ok _ W j Hj) (at_ok _ W i Hi)) as A. unfold apart in A. lia.
Qed.

Lemma chosen_best r pos w : r ∈ ranges corpus -> rstart r <= pos <= rend r -> chosen_end env hold start_transition (Z.min (bnd pos) (rend r)) pos w -> best_match pos w.
Proof.
  intros Hr Hp Hc. assert (forall e, matched pos e <-> spans env hold start_transition (Z.min (bnd pos) (rend r)) pos e) as E.
  { intros e. split; [| intros ?; by exists r]. intros (s & Hs & Hps & Hsp). by rewrite (apart_unique r s pos). }
  destruct Hc as [[-> H]|[H1 H2]]; [left | right].
  - split; [done |]. intros e. rewrite E. apply H.
  - split; [by apply E |]. intros e. rewrite E. apply H2.
Qed.

(** ** The loop *)
Context (l0 : list Z) (cut0 : Z).
Hypothesis (Hsorted : StronglySorted Z.le l0) (Hcut : cut0 <> 0) (Hlen : zlen l0 <= INT_MAX).

(** The number of matches. *)
Definition found (ws : list Z) : Z := Z.of_nat (length (filter (fun w => 0 <= w) ws)).

(** Whether the match of the position [j] is kept: there is one, and fewer than [cut0] before. *)
Definition kept (ws : list Z) (j : nat) (w : Z) : Prop := 0 <= w /\ (0 < cut0 -> found (take j ws) < cut0).

#[global] Instance kept_dec ws j w : Decision (kept ws j w).
Proof. unfold kept. apply _. Defined.

(** The result for the positions of [ws]. *)
Definition results (ws l e : list Z) : Prop := forall (j : nat) pos w, l0 !! j = Some pos -> ws !! j = Some w ->
  best_match pos w /\ l !! j = Some (if decide (kept ws j w) then pos else -1) /\ (kept ws j w -> e !! j = Some w).

Record loop_inv (tabsize : Z) (o : outer) : Prop := {
  li_index : 0 <= index o <= tabsize;
  li_range : 0 <= range_nr o <= csize corpus;
  li_starts : tabsize <= zlen (starts o);
  li_ends : tabsize <= zlen (ends_ o);
  li_targets : forall a, target_positions_ o = Some a -> tabsize <= zlen a;
  li_keywords : forall a, keyword_positions_ o = Some a -> tabsize <= zlen a;
  li_sim : sim_ok env nl (vectors o);
  li_rest : forall j pos, index o <= Z.of_nat j -> l0 !! j = Some pos -> starts o !! j = Some pos;
  li_before : forall k j pos, 0 <= k < range_nr o -> index o <= Z.of_nat j -> l0 !! j = Some pos -> rend (at_ corpus k) < pos;
  li_done : exists ws, zlen ws = index o /\ results ws (starts o) (ends_ o) /\ cut o = (if 0 <? cut0 then cut0 - found ws else cut0) /\ (0 < cut0 -> found ws <= cut0)
}.

Lemma found_snoc ws w : found (ws ++ [w]) = found ws + if decide (0 <= w) then 1 else 0.
Proof. unfold found. rewrite list.filter_app, length_app, filter_cons, filter_nil. case_decide; cbn; lia. Qed.

Lemma found_nonneg ws : 0 <= found ws.
Proof. unfold found. lia. Qed.

Lemma best_dec pos w : best_match pos w -> 0 <= pos -> 0 <= w \/ w = -1.
Proof. intros [[-> _]|[Hm _]] Hp; [by right | left]. apply matched_ge in Hm. lia. Qed.

(** The next position. *)
Lemma results_snoc ws l e pos w (l' e' : list Z) : results ws l e -> l0 !! length ws = Some pos -> best_match pos w ->
  (forall j : nat, (j < length ws)%nat -> l' !! j = l !! j /\ e' !! j = e !! j) ->
  l' !! length ws = Some (if decide (kept ws (length ws) w) then pos else -1) -> (kept ws (length ws) w -> e' !! length ws = Some w) ->
  results (ws ++ [w]) l' e'.
Proof.
  intros R Hp B Hold Hl He j pos' w' Hj Hw. apply lookup_app_Some in Hw as [Hw|[Hge Hw]].
  - pose proof (lookup_lt_Some _ _ _ Hw) as Hlt. destruct (Hold j Hlt) as [-> ->]. destruct (R j pos' w' Hj Hw) as (R1 & R2 & R3).
    assert (kept (ws ++ [w]) j w' <-> kept ws j w') as E by (unfold kept; rewrite take_app_le by lia; done).
    split; [done |]. split; [rewrite R2; f_equal; by apply decide_ext | by rewrite E].
  - apply list_lookup_singleton_Some in Hw as [Hz <-]. assert (j = length ws) as -> by lia. rewrite Hp in Hj. injection Hj as <-.
    assert (kept (ws ++ [w]) (length ws) w <-> kept ws (length ws) w) as E.
    { unfold kept. rewrite take_app_le by lia. done. }
    split; [done |]. split; [rewrite Hl; f_equal; by apply decide_ext | by rewrite E].
Qed.

(** One position is done: [w] is its match. *)
Lemma advance ts o pos w sts es c t k v : loop_inv ts o -> zlen l0 = ts -> index o < ts -> cut o <> 0 -> l0 !! Z.to_nat (index o) = Some pos -> 0 <= pos -> best_match pos w ->
  sim_ok env nl v ->
  (0 <= w -> sts = starts o /\ es = <[Z.to_nat (index o) := w]> (ends_ o) /\ c = if 0 <? cut o then cut o - 1 else cut o) ->
  (w = -1 -> sts = <[Z.to_nat (index o) := -1]> (starts o) /\ es = ends_ o /\ c = cut o) ->
  (forall a, t = Some a -> ts <= zlen a) -> (forall a, k = Some a -> ts <= zlen a) ->
  loop_inv ts (mkOuter sts es t k c (range_nr o) (index o + 1) v).
Proof.
  intros I Hts Hi Hc Hp Hp0 B Sv Hw Hn Ht Hk. destruct I as [I1 I2 I3 I4 I5 I6 I7 I8 I9 (ws & Ews & R & Ec & Ef)].
  assert (length ws = Z.to_nat (index o)) as Elen by (unfold zlen in Ews; lia).
  assert (0 <= w \/ w = -1) as Hcase by (by eapply best_dec).
  assert (kept ws (length ws) w <-> 0 <= w) as Hkept.
  { unfold kept. split; [by intros [? _] |]. intros ?. split; [done |]. intros Hc0. rewrite firstn_all. rewrite (proj2 (Z.ltb_lt _ _)) in Ec by done. specialize (Ef Hc0). lia. }
  assert (forall j : nat, (Z.to_nat (index o) < j)%nat -> sts !! j = starts o !! j) as Hrest.
  { intros j Hj. destruct Hcase as [H|H]; [by destruct (Hw H) as [-> _] | destruct (Hn H) as [-> _]]. by rewrite list_lookup_insert_ne by lia. }
  assert (results (ws ++ [w]) sts es) as R'.
  { apply (results_snoc ws (starts o) (ends_ o) pos); [done | by rewrite Elen | done | | |].
    - intros j Hj. destruct Hcase as [H|H]; [destruct (Hw H) as (-> & -> & _) | destruct (Hn H) as (-> & -> & _)]; (split; [| ]); try done; by rewrite list_lookup_insert_ne by lia.
    - rewrite Elen. case_decide as Hd; rewrite <- Elen, Hkept in Hd.
      + destruct (Hw Hd) as (-> & _ & _). apply I8; [lia | done].
      + destruct Hcase as [H|H]; [done |]. destruct (Hn H) as (-> & _ & _). apply list_lookup_insert_eq. unfold zlen in I3. lia.
    - rewrite Hkept. intros H. destruct (Hw H) as (_ & -> & _). rewrite Elen. apply list_lookup_insert_eq. unfold zlen in I4. lia. }
  split; cbn [index range_nr starts ends_ target_positions_ keyword_positions_ vectors cut]; try done.
  - lia.
  - destruct Hcase as [H|H]; [destruct (Hw H) as [-> _] | destruct (Hn H) as [-> _]]; by rewrite ?zlen_insert.
  - destruct Hcase as [H|H]; [destruct (Hw H) as (_ & -> & _) | destruct (Hn H) as (_ & -> & _)]; by rewrite ?zlen_insert.
  - intros j q Hj Hq. rewrite Hrest by lia. apply I8; [lia | done].
  - intros q j x Hq Hj. apply I9; [done | lia].
  - exists (ws ++ [w]). rewrite zlen_snoc. split; [lia |]. split; [done |]. rewrite found_snoc.
    destruct Hcase as [H|H]; [destruct (Hw H) as (_ & _ & ->); rewrite decide_True by done | destruct (Hn H) as (_ & _ & ->); rewrite decide_False by lia].
    + rewrite Ec. destruct (Z.ltb_spec 0 cut0) as [H0|H0]; [specialize (Ef H0); rewrite (proj2 (Z.ltb_lt 0 _)) by lia; lia | rewrite (proj2 (Z.ltb_ge 0 cut0)) by lia; lia].
    + rewrite Ec. split; [destruct (0 <? cut0); lia | intros H0; specialize (Ef H0); lia].
Qed.

Lemma l0_le (i j : nat) x y : l0 !! i = Some x -> l0 !! j = Some y -> (i <= j)%nat -> x <= y.
Proof.
  intros Hi Hj Hle. destruct (decide (i = j)) as [->|]; [simplify_eq; lia |].
  apply (proj1 (sorted_aget Z.le l0) Hsorted (Z.of_nat i) (Z.of_nat j)); [lia | by apply aget_nat | by apply aget_nat].
Qed.

Lemma set_field_ok a i start v ts : (forall l, a = Some l -> ts <= zlen l) -> 0 <= i < ts -> exists a', set_field a i start v = Ok a' /\ forall l, a' = Some l -> ts <= zlen l.
Proof.
  intros Ha Hi. unfold set_field. destruct a as [l|]; [| by exists None]. rewrite aset_Ok by (specialize (Ha l eq_refl); lia). res_cbn. eexists. split; [done |].
  intros k [= <-]. rewrite zlen_insert. by apply Ha.
Qed.

(** No range has the position. *)
Lemma unmatched pos : (forall r, r ∈ ranges corpus -> ~ (rstart r <= pos <= rend r)) -> best_match pos (-1).
Proof. intros H. left. split; [done |]. intros e (r & Hr & Hp & _). by apply (H r). Qed.

Lemma at_range k : 0 <= k < csize corpus -> get_range corpus k = Ok (at_ corpus k) /\ at_ corpus k ∈ ranges corpus.
Proof.
  intros Hk. pose proof (at_ok _ W k Hk) as E. split; [| apply aget_Ok in E as [_ E]; by eapply list_elem_of_lookup_2].
  unfold get_range, ranges in *. destruct (range corpus) as [l|]; [by res_cbn | by apply aget_nil in E].
Qed.

Context (rounds : positive).
Hypothesis (Hrounds : INT_MAX + 3 < Zpos rounds) (Hpositive : Forall (fun pos => 0 <= pos) l0).

Lemma round_ok ts o : loop_inv ts o -> zlen l0 = ts -> index o < ts -> cut o <> 0 -> exists o',
  match_round strict_regions env rounds 0 0 start_transition ts o = Ok (inl o') /\ loop_inv ts o' /\
  (ts - index o') + (csize corpus - range_nr o') < (ts - index o) + (csize corpus - range_nr o).
Proof.
  intros I Hts Hi Hc. pose proof I as [I1 I2 I3 I4 I5 I6 I7 I8 I9 I10]. unfold match_round, running_. rewrite (proj2 (Z.ltb_lt _ _)) by done. rewrite (proj2 (Z.eqb_neq _ _)) by done. rewrite (so_running _ _ _ I7). cbn [negb andb].
  destruct (l0 !! Z.to_nat (index o)) as [pos|] eqn:Hp; [| apply lookup_ge_None in Hp; unfold zlen in Hts; lia].
  assert (0 <= pos) as Hp0 by (rewrite list.Forall_forall in Hpositive; apply Hpositive; by eapply list_elem_of_lookup_2).
  rewrite (aget_lookup _ _ pos) by (lia || (apply I8; [lia | done])). res_cbn.
  assert (forall r, r ∈ ranges corpus -> rstart r <= pos <= rend r -> exists k, range_nr o <= k < csize corpus /\ at_ corpus k = r) as Hin.
  { intros r (k & Hk & <-)%(elem_of_ranges _ W) Hr. exists k. split; [| done]. split; [| apply Hk]. apply Z.nlt_ge. intros Hlt.
    pose proof (I9 k (Z.to_nat (index o)) pos ltac:(lia) ltac:(lia) Hp). lia. }
  destruct (Z.leb_spec (csize corpus) (range_nr o)) as [Hge|Hlt].
  { res_cbn. rewrite aset_Ok by lia. res_cbn. eexists. split; [done |]. cbn [index range_nr]. split; [| lia].
    apply (advance ts o pos (-1)); try done; try lia. apply unmatched. intros r Hr Hpr. destruct (Hin r Hr Hpr) as (k & Hk & _). lia. }
  destruct (at_range (range_nr o) ltac:(lia)) as [Er Hr]. rewrite Er. res_cbn. destruct (Z.ltb_spec pos (rstart (at_ corpus (range_nr o)))) as [Hbefore|Hafter].
  { rewrite aset_Ok by lia. res_cbn. eexists. split; [done |]. cbn [index range_nr]. split; [| lia].
    apply (advance ts o pos (-1)); try done; try lia. apply unmatched. intros r Hr' Hpr. destruct (Hin r Hr' Hpr) as (k & Hk & <-).
    destruct (Z.eq_dec k (range_nr o)) as [->|]; [lia |]. pose proof (proj1 (sorted_aget apart (ranges corpus)) Hapart (range_nr o) k _ _ ltac:(lia) (at_ok _ W (range_nr o) ltac:(lia)) (at_ok _ W k ltac:(lia))) as A. pose proof (at_pos _ W (range_nr o) ltac:(lia)). unfold apart in A. lia. }
  destruct (Z.ltb_spec (rend (at_ corpus (range_nr o))) pos) as [Hpast|Hwithin].
  { eexists. split; [done |]. cbn [index range_nr]. split; [| lia]. split; cbn [index range_nr starts ends_ target_positions_ keyword_positions_ vectors cut]; try done; [lia |].
    intros k j x Hk Hj Hx. destruct (Z.eq_dec k (range_nr o)) as [->|]; [| apply (I9 k j); done || lia]. pose proof (l0_le (Z.to_nat (index o)) j pos x Hp Hx ltac:(lia)). lia. }
  rewrite (Hbnd pos _ Hr) by lia. res_cbn. set (boundary := Z.min (bnd pos) (rend (at_ corpus (range_nr o)))). pose proof (Hend _ Hr) as He.
  assert (forall w, chosen_end env hold start_transition boundary pos w -> best_match pos w) as Hbest by (intros w; apply chosen_best; [done | lia]).
  destruct (Z.eqb_spec boundary (-1)) as [Eb|Nb].
  { rewrite aset_Ok by lia. res_cbn. rewrite aget_insert by lia. res_cbn.
    cbn [fst snd]. destruct (set_field_ok (target_positions_ o) (index o) (-1) (-1) ts I5 ltac:(lia)) as (t & -> & Ht). res_cbn.
    destruct (set_field_ok (keyword_positions_ o) (index o) (-1) (-1) ts I6 ltac:(lia)) as (k & -> & Hk). res_cbn.
    eexists. split; [done |]. cbn [index range_nr]. split; [| lia]. apply (advance ts o pos (-1)); try done; try lia.
    apply Hbest. left. split; [done |]. intros e [? ?]%spans_ge. lia. }
  destruct (simulate_from_ok strict_regions env nl hold Q (range_nr o) start_transition boundary pos Hp0 ltac:(lia) rounds (vectors o) I7 ltac:(lia)) as (s & -> & Ss & Hch). res_cbn.
  pose proof (Hbest _ Hch) as B. destruct (best_dec _ _ B Hp0) as [Hw|Hw].
  - assert (pos <= winner s) by (destruct B as [[? _]|[Hm _]]; [lia | apply matched_ge in Hm; lia]). rewrite (proj2 (Z.leb_le 0 _)), (proj2 (Z.leb_le pos _)) by done. cbn [andb].
    rewrite aset_Ok by lia. res_cbn. rewrite (aget_lookup _ _ pos) by (lia || (apply I8; [lia | done])). res_cbn.
    cbn [fst snd]. destruct (set_field_ok (target_positions_ o) (index o) pos (my_target s) ts I5 ltac:(lia)) as (t & -> & Ht). res_cbn.
    destruct (set_field_ok (keyword_positions_ o) (index o) pos (my_keyword s) ts I6 ltac:(lia)) as (k & -> & Hk). res_cbn.
    eexists. split; [done |]. cbn [index range_nr]. split; [| lia]. apply (advance ts o pos (winner s)); try done; try lia.
  - rewrite Hw. cbn [Z.leb Z.compare andb]. rewrite aset_Ok by lia. res_cbn. rewrite aget_insert by lia. res_cbn.
    cbn [fst snd]. destruct (set_field_ok (target_positions_ o) (index o) (-1) (my_target s) ts I5 ltac:(lia)) as (t & -> & Ht). res_cbn.
    destruct (set_field_ok (keyword_positions_ o) (index o) (-1) (my_keyword s) ts I6 ltac:(lia)) as (k & -> & Hk). res_cbn.
    eexists. split; [done |]. cbn [index range_nr]. split; [| lia]. apply (advance ts o pos (-1)); try done; try lia. by rewrite Hw in B.
Qed.

Lemma round_stops ts o : index o = ts \/ cut o = 0 -> match_round strict_regions env rounds 0 0 start_transition ts o = Ok (inr o).
Proof.
  intros [E|E]; unfold match_round; rewrite E; [by rewrite Z.ltb_irrefl | by rewrite andb_false_r].
Qed.

(** A match list before the simulation: [l0] in the first cells of its array. *)
Record initial_list (m : Matchlist) (l e : list Z) : Prop := {
  il_start : start m = Some l;
  il_prefix : exists rest, l = l0 ++ rest;
  il_ends : ends m = Some e;
  il_size : tabsize m = zlen l0;
  il_ends_size : zlen l0 <= zlen e;
  il_targets : forall a, target_positions m = Some a -> zlen l0 <= zlen a;
  il_keywords : forall a, keyword_positions m = Some a -> zlen l0 <= zlen a
}.

(** A match list after it. *)
Record simulated (m m' : Matchlist) (ws l e : list Z) : Prop := {
  sd_start : start m' = Some l /\ zlen l0 <= zlen l;
  sd_ends : ends m' = Some e /\ zlen l0 <= zlen e;
  sd_size : tabsize m' = tabsize m;
  sd_plain : is_inverted m' = is_inverted m;
  sd_targets : (target_positions m' = None <-> target_positions m = None) /\ forall a, target_positions m' = Some a -> zlen l0 <= zlen a;
  sd_keywords : (keyword_positions m' = None <-> keyword_positions m = None) /\ forall a, keyword_positions m' = Some a -> zlen l0 <= zlen a;
  sd_results : zlen ws <= zlen l0 /\ results ws l e;
  sd_rest : forall j, (length ws <= j < length l0)%nat -> l !! j = Some (-1);
  sd_cut : zlen ws < zlen l0 -> 0 < cut0 /\ found ws = cut0
}.

Lemma clear_rest lo hi l : 0 <= lo <= hi -> hi <= zlen l -> exists l', for_up clear_round lo hi l = Ok l' /\ zlen l' = zlen l /\
  (forall j : nat, Z.of_nat j < lo -> l' !! j = l !! j) /\ forall j : nat, lo <= Z.of_nat j < hi -> l' !! j = Some (-1).
Proof.
  intros Hlo Hhi. destruct (for_up_rule clear_round (fun i l' => lo <= i /\ zlen l' = zlen l /\ (forall j : nat, Z.of_nat j < lo -> l' !! j = l !! j) /\
    forall j : nat, lo <= Z.of_nat j < i -> l' !! j = Some (-1)) lo hi l) as (l' & -> & _ & H1 & H2 & H3); [lia | | | by exists l'].
  - intros i l' Hi (_ & H1 & H2 & H3). unfold clear_round. rewrite aset_Ok by lia. eexists. split; [done |]. split; [lia |]. split; [by rewrite zlen_insert |]. split.
    + intros j Hj. rewrite list_lookup_insert_ne by lia. by apply H2.
    + intros j Hj. destruct (decide (Z.to_nat i = j)) as [<-|Hne]; [apply list_lookup_insert_eq; unfold zlen in *; lia |]. rewrite list_lookup_insert_ne by done. apply H3. lia.
  - split; [lia |]. split; [done |]. split; [done |]. intros j Hj. lia.
Qed.

(** The arrays of targets stay, with other contents. *)
Definition same_fields (m : Matchlist) (o : outer) : Prop :=
  (target_positions_ o = None <-> target_positions m = None) /\ (keyword_positions_ o = None <-> keyword_positions m = None).

Lemma round_fields m ts o o' : match_round strict_regions env rounds 0 0 start_transition ts o = Ok (inl o') -> same_fields m o -> same_fields m o'.
Proof.
  assert (forall a i x v a', set_field a i x v = Ok a' -> (a' = None <-> a = None)) as Hf.
  { intros a i x v a'. unfold set_field. destruct a as [l|]; [| by intros [= <-]]. destruct (aset l i _); [| done]. res_cbn. by intros [= <-]. }
  unfold match_round. intros E [H1 H2]. destruct (_ && _); [| done]. repeat (apply bind_Ok_inv in E as (? & ? & E)). case_match.
  - apply bind_Ok_inv in E as (? & _ & E). by injection E as <-.
  - apply bind_Ok_inv in E as (? & _ & E). case_match; [by injection E as <- |]. repeat (apply bind_Ok_inv in E as (? & ? & E)).
    destruct x3 as [[[[? ?] ?] ?] ?]. repeat (apply bind_Ok_inv in E as (? & ? & E)). injection E as <-. unfold same_fields. cbn.
    split; [rewrite <- H1 | rewrite <- H2]; by eapply Hf.
Qed.

Lemma simulate_ok m i0 e0 v : initial_list m i0 e0 -> sim_ok env nl v -> exists m' c ws l e,
  simulate strict_regions env rounds m cut0 0 0 v start_transition = Ok (m', c, true) /\ simulated m m' ws l e.
Proof.
  intros [M1 [junk Hjunk] M2 M3 M4 M5 M6] Sv. pose proof (tq_dfa _ _ _ _ Q) as D. unfold simulate. rewrite (proj2 (Z.ltb_lt _ _)) by done. res_cbn.
  assert (exists rs, range corpus = Some rs) as [rs ->].
  { pose proof (wf_size _ W) as E. unfold ranges in E. destruct (range corpus) as [rs|]; [by exists rs | cbn in E; unfold zlen in E; cbn in E; lia]. }
  res_cbn. rewrite M1, M2. res_cbn. rewrite (dfa_start _ D). res_cbn. rewrite (dfa_error _ D). pose proof (dfa_states _ D) as HN. rewrite (proj2 (Z.eqb_neq _ _)) by lia. unfold c_assert at 1. cbn [negb andb]. res_cbn.
  rewrite M3. pose proof (size_pos := zlen_nonneg l0). pose proof (wf_int _ W) as Hint. unfold INT_MAX in Hint, Hlen.
  set (ts := zlen l0) in *. set (o0 := mkOuter _ _ _ _ _ _ _ _).
  assert (loop_inv ts o0) as I0.
  { split; cbn; try done; try lia.
    { rewrite Hjunk, zlen_app. pose proof (zlen_nonneg junk). lia. }
    { intros j pos _ Hj. rewrite Hjunk. by apply lookup_app_l_Some. }
    exists []. split; [done |]. split; [intros j ? ? _ Hj; by rewrite lookup_nil in Hj |].
    unfold found. cbn. split; [destruct (0 <? cut0); lia | lia]. }
  destruct (loop_rule (match_round strict_regions env rounds 0 0 start_transition ts) (fun o => loop_inv ts o /\ same_fields m o)
    (fun o => loop_inv ts o /\ same_fields m o /\ (index o = ts \/ cut o = 0)) (fun o => (ts - index o) + (csize corpus - range_nr o))) with (p := fuel) (s := o0) as (o & -> & I & Hfields & Hstop).
  - intros o [I Hf]. split; [pose proof (li_index _ _ I); pose proof (li_range _ _ I); lia |]. destruct (decide (index o = ts \/ cut o = 0)) as [Hstop|Hgo].
    + right. exists o. by rewrite round_stops.
    + left. pose proof (li_index _ _ I). destruct (round_ok ts o I eq_refl ltac:(lia) ltac:(lia)) as (o' & E & I' & Hm). exists o'. split; [done |]. split; [split; [done | by eapply round_fields] | done].
  - split; [done | split; done].
  - rewrite fuel_val. cbn. lia.
  - res_cbn. destruct I as [I1 I2 I3 I4 I5 I6 I7 I8 I9 (ws & Ews & R & Ec & Ef)]. destruct (clear_rest (index o) ts (starts o)) as (l & El & L1 & L2 & L3); [lia | lia |].
    rewrite El. res_cbn. unfold running_. rewrite (so_running _ _ _ I7). eexists _, (cut o), ws, l, (ends_ o). split; [done |].
    assert (length ws = Z.to_nat (index o)) as Elen by (unfold zlen in Ews; lia).
    split; cbn; try done; try (split; [by apply Hfields | done]); rewrite ?L1; try done.
    + split; [unfold ts in *; lia |]. intros j pos w Hj Hw. pose proof (lookup_lt_Some _ _ _ Hw). destruct (R j pos w Hj Hw) as (R1 & R2 & R3). split; [done |]. split; [| done].
      rewrite L2 by lia. done.
    + intros j Hj. apply L3. unfold ts, zlen in *. lia.
    + fold ts. rewrite Ews. intros Hlt. destruct Hstop as [?|Hz]; [lia |]. rewrite Hz in Ec. destruct (Z.ltb_spec 0 cut0); lia.
Qed.
End SimulateList.
