(* ===== verification/SimulateMatches.v ===== *)
(** * Queries over tokens: the matches of a match list

    [plain_query]: what a query over tokens is, in terms of its columns.  [simulate_matches] states
    [simulate_ok] for such a query; the witness is the query of the sample.

    [sample_matches]: the matches of a query on the sample corpus; [zero_width_cycle]: a query over tags for which the
    simulation does not end. *)

From Stdlib Require Import ZArith Lia Sorted.
From stdpp Require Import base tactics option list numbers sets.
From S2P Require Import Prelude.
From S2P Require Import Matchlist.
From S2P Require Import Regex2dfa.
From S2P Require Import RegexDfa.
From S2P Require Import Bitfields.
From S2P Require Import Ranges.
From S2P Require Import RangesMatch.
From S2P Require Import Symtab.
From S2P Require Import Eval.
From S2P Require Import EvalSample.
From S2P Require Import EvalConditions.
From S2P Require Import Simulate.
From S2P Require Import SimulateTokens.
From S2P Require Import SimulateRun.
From S2P Require Import SimulateList.

Open Scope Z_scope.

Definition tag (closing : bool) : AVStructure bool Empty_set Empty_set := Tag closing true None None false None.

Definition match_entry : label_entry := mkLabel LAB_SPECIAL ([109; 97; 116; 99; 104]) 0.

Definition sample_env (n : Z) (d : DFA) (columns : list (AVStructure bool Empty_set Empty_set)) (s : matching_strategy) : EvalEnvironment bool Empty_set Empty_set :=
  mkEnv _ _ _ (mkCL SYSTEM false false (Some [mkRange 0 (n - 1)]) 1 None None None) n (Some (mkSymtab [match_entry] [] 1)) columns None d
    false None false None (Some match_entry) None (mkContext word None 50) s.

(** Vectors for [k] states. *)
Definition fresh (k : nat) : sim :=
  mkSim (replicate k 0) (replicate k 0) (replicate k (mkRefTab 1 [0])) (replicate k (mkRefTab 1 [0])) 0 0 0 0 true.

Definition initial (l : list Z) : Matchlist := mkML (Some l) (Some l) None None (zlen l) false false.

(** [("a" | "b")+ "c"?], as SearchPattern compiles it. *)
Definition sample_dfa : DFA := mkDFA 3 3 [[1; 1; 3]; [1; 1; 2]; [3; 3; 3]] [false; true; true] 3.

Definition run_sample (s : matching_strategy) : res (list Z * list Z) :=
  let access := sample_access [0; 1; 2; 2; 1; 0] [] in
  r ← simulate false (sample_env 6 sample_dfa [word_is 0; word_is 1; word_is 2] s) 1000 (initial [0; 5]) (-1) 0 0 (fresh 3) 0;
  Ok (default [] (start r.1.1), default [] (ends r.1.1)).

Example sample_matches : (run_sample longest_match, run_sample shortest_match) = (Ok ([0; 5], [2; 5]), Ok ([0; 5], [0; 5])).
Proof. vm_compute. reflexivity. Qed.

(** [(<s> <s>)+ "c"] *)
Definition tag_dfa : DFA := mkDFA 4 3 [[1; 4; 4]; [4; 2; 4]; [1; 4; 3]; [4; 4; 4]] [false; false; false; true] 4.

Definition tag_env : EvalEnvironment bool Empty_set Empty_set := sample_env 3 tag_dfa [tag false; tag false; word_is 2] standard_match.

(** The simulation of this query at the start of a region that does not start with [c]: the tags lead from a state
    to the other one and back at the same position.  The states are never the same as those of the cycle before, which
    is what the program looks for to leave such a loop. *)
Lemma zero_width_cycle rounds : let access := sample_access [0; 1; 2] [(0, 2)] in
  simulate_from false tag_env rounds 0 0 0 0 2 0 (fresh 4) = Err OutOfFuel.
Proof.
  intros access. set (next := cycle false tag_env 0 0 0 2). set (s0 := (mkSim [0; -1; -1; -1] [0; 0; 0; 0] (mkRefTab 1 [0] :: replicate 3 (mkRefTab 1 [-1])) (replicate 4 (mkRefTab 1 [0])) 1 (-1) (-1) (-1) true, false)).
  set (after := fun s => match next s with Ok (inl s') => s' | _ => s end).
  assert (next s0 = Ok (inl (after s0))) as E0 by (vm_compute; reflexivity). assert (next (after s0) = Ok (inl (after (after s0)))) as E1 by (vm_compute; reflexivity).
  assert (next (after (after s0)) = Ok (inl (after (after (after s0))))) as E2 by (vm_compute; reflexivity).
  assert (next (after (after (after s0))) = Ok (inl (after (after s0)))) as E3 by (vm_compute; reflexivity).
  assert (simulate_from false tag_env rounds 0 0 0 0 2 0 (fresh 4) = loop next rounds s0) as -> by reflexivity.
  generalize (after s0) (after (after s0)) (after (after (after s0))) E0 E1 E2 E3. intros s1 s2 s3 F0 F1 F2 F3.
  apply (loop_diverges next (fun s => s = s0 \/ s = s1 \/ s = s2 \/ s = s3)); [| by left].
  intros s [->|[->|[->| ->]]]; eexists; (split; [eassumption | tauto]).
Qed.

(** ** Columns *)
Section Columns.
Context {Attr Rx Fl : Type} `{EqDecision Attr} `{!Access Attr Rx Fl} `{!AccessLaws Attr Rx Fl}.

(** A column over a token whose condition has no labels. *)
Definition plain_column (c : AVStructure Attr Rx Fl) : bool :=
  match c with
  | MatchAll _ _ lookahead => negb lookahead
  | Pattern _ constraint _ lookahead => negb lookahead && match constraint with Some b => plain b | None => true end
  | _ => false
  end.

(** Whether it holds at a corpus position. *)
Definition column_holds (c : AVStructure Attr Rx Fl) (cpos : Z) : bool :=
  match c with Pattern _ (Some b) _ _ => holds b cpos | _ => true end.

Lemma plain_token_column nl c : plain_column c = true -> (forall e, label_of c = Some e -> ok_label nl e) -> token_column nl c (column_holds c).
Proof.
  intros Hc Hl. split; [done |]. destruct c as [l t la|l [b|] t la|? ? ? ? ? ?|? ?]; try done; cbn in Hc.
  - split; [by destruct la | done].
  - apply andb_prop in Hc as [Hla Hb]. split; [by destruct la |]. intros cpos u _ _. by apply eval_plain.
  - split; [by destruct la | done].
Qed.

(** ** Queries *)
Record plain_query (env : EvalEnvironment Attr Rx Fl) (nl : Z) : Prop := {
  pq_dfa : dfa_ok (dfa env);
  pq_columns : zlen (patternlist env) = Max_Input (dfa env);
  pq_column : forall p c, aget (patternlist env) p = Ok c -> plain_column c = true /\ (forall e, label_of c = Some e -> ok_label nl e) /\
    (target_of c = IsTarget -> has_target_indicator env = true) /\ (target_of c = IsKeyword -> has_keyword_indicator env = true);
  pq_constraint : gconstraint env = None;
  pq_regions : symbol_table_new_iterator (labels env) region_flags = [];
  pq_target : has_target_indicator env = true -> exists e, target_label env = Some e;
  pq_keyword : has_keyword_indicator env = true -> exists e, keyword_label env = Some e;
  pq_target_ok : forall e, target_label env = Some e -> ok_label nl e;
  pq_keyword_ok : forall e, keyword_label env = Some e -> ok_label nl e;
  pq_match : exists e, match_label env = Some e /\ ok_label nl e
}.

(** Whether the column [p] holds at a corpus position. *)
Definition holds_at (env : EvalEnvironment Attr Rx Fl) (p cpos : Z) : bool :=
  match aget (patternlist env) p with Ok c => column_holds c cpos | Err _ => false end.

Lemma plain_token_query strict_regions env nl : plain_query env nl -> token_query strict_regions env nl (holds_at env).
Proof.
  intros [D Hlen Hcol Hg Hr Ht Hk Hto Hko Hm]. split; try done. intros p Hp. destruct (aget_some (patternlist env) p) as [c Hc]; [lia |].
  destruct (Hcol p c Hc) as (H1 & H2 & H3 & H4). exists c. split; [done |]. split; [| split; [intros ?; by apply Ht, H3 | intros ?; by apply Hk, H4]].
  unfold holds_at. rewrite Hc. by apply plain_token_column.
Qed.
End Columns.

(** C6. The matches of a match list, for a query over tokens (its columns are conditions on the token itself or
    match everything: no tags, anchors, lookahead constraints or references to labels, and no global constraint; with tags the simulation need
    not end, see [zero_width_cycle]): from every position of the
    list that is in a range of the query corpus, the simulation finds the end of the longest match
    (for the strategy longest_match) or of the shortest one that the automaton accepts
    inside the range and the context, or that there is no match; positions without a match are deleted, and those
    after the first [cut] matches.  The first column, which has been evaluated before, is not tested again.  The
    simulation ends after at most as many cycles as there are tokens in the context, and none of its array accesses or assertions fails. *)
Theorem simulate_matches {Attr Rx Fl : Type} `{EqDecision Attr} `{!Access Attr Rx Fl} `{!AccessLaws Attr Rx Fl} strict_regions
  (env : EvalEnvironment Attr Rx Fl) nl bnd start_transition l0 i0 e0 cut0 rounds m v :
  plain_query env nl -> wf (query_corpus env) -> 0 < csize (query_corpus env) -> StronglySorted apart (ranges (query_corpus env)) ->
  (forall r, r ∈ ranges (query_corpus env) -> rend r + 1 < INT_MAX) ->
  (forall pos r, r ∈ ranges (query_corpus env) -> rstart r <= pos <= rend r -> calculate_rightboundary (mother_size env) pos (search_context env) = Ok (bnd pos)) ->
  StronglySorted Z.le l0 -> cut0 <> 0 -> zlen l0 <= INT_MAX -> INT_MAX + 3 < Zpos rounds -> Forall (fun pos => 0 <= pos) l0 ->
  initial_list l0 m i0 e0 -> sim_ok env nl v -> exists m' c ws l e,
  simulate strict_regions env rounds m cut0 0 0 v start_transition = Ok (m', c, true) /\
  simulated env (holds_at env) bnd start_transition l0 cut0 m m' ws l e.
Proof.
  intros Q W Hs Ha He Hb Hl Hc Hn Hr Hp M S. by eapply (simulate_ok strict_regions env nl _ (plain_token_query _ _ _ Q)).
Qed.

(** ** The sample *)
Definition sample_columns : list (AVStructure bool Empty_set Empty_set) := [word_is 0; word_is 1; word_is 2].

Lemma sample_dfa_ok : dfa_ok sample_dfa.
Proof.
  assert (forall s row, aget (TransTable sample_dfa) s = Ok row -> row ∈ TransTable sample_dfa) as Hin.
  { intros s row [_ E]%aget_Ok. by eapply list_elem_of_lookup_2. }
  split; try done.
  - intros s row Hrow%Hin. cbn in Hrow. set_unfold. by destruct Hrow as [->|[->|[->|[]]]].
  - intros s row p t Hrow%Hin [_ Et%list_elem_of_lookup_2]%aget_Ok. cbn in *. set_unfold. destruct Hrow as [->|[->|[->|[]]]]; set_unfold; lia.
Qed.

Lemma sample_query tokens regions n s d : let access := sample_access (map Z.abs tokens) regions in dfa_ok d -> Max_Input d = 3 -> plain_query (sample_env n d sample_columns s) 1.
Proof.
  intros access D En. split; try done; cbn.
  - intros p c [_ Ec%list_elem_of_lookup_2]%aget_Ok. unfold sample_columns in Ec. set_unfold. by destruct Ec as [->|[->|[->|[]]]].
  - exists match_entry. by repeat split.
Qed.

Lemma fresh_ok {Rx Fl : Type} (env : EvalEnvironment bool Rx Fl) k : Max_States (dfa env) = Z.of_nat k -> sim_ok env 1 (fresh k).
Proof. intros E. split; cbn; rewrite ?zlen_replicate, ?E; try done; (split; [done |]); by apply Forall_replicate. Qed.

Lemma simulate_matches_witness : let access := sample_access (map Z.abs [0; 1; 2; 2; 1; 0]) [] in
  let env := sample_env 6 sample_dfa sample_columns longest_match in exists m' c ws l e,
  simulate false env fuel (initial [0; 5]) (-1) 0 0 (fresh 3) 0 = Ok (m', c, true) /\
  simulated env (holds_at env) (fun _ => 5) 0 [0; 5] (-1) (initial [0; 5]) m' ws l e.
Proof.
  intros access env. assert (ranges (query_corpus env) = [mkRange 0 5]) as Er by reflexivity.
  apply (@simulate_matches bool Empty_set Empty_set _ access (sample_laws [0; 1; 2; 2; 1; 0] []) false env 1 (fun _ => 5) 0 [0; 5] [0; 5] [0; 5] (-1) fuel (initial [0; 5]) (fresh 3)).
  - exact (sample_query [0; 1; 2; 2; 1; 0] [] 6 longest_match sample_dfa sample_dfa_ok eq_refl).
  - split; cbn; try done. repeat constructor; cbn; lia.
  - reflexivity.
  - rewrite Er. repeat constructor.
  - rewrite Er. intros r ->%list_elem_of_singleton. reflexivity.
  - rewrite Er. intros pos r ->%list_elem_of_singleton Hp. cbn [rstart rend] in Hp. assert (pos = 0 \/ pos = 1 \/ pos = 2 \/ pos = 3 \/ pos = 4 \/ pos = 5) as Hc by lia.
    by destruct Hc as [->|[->|[->|[->|[-> | ->]]]]].
  - repeat constructor; lia.
  - lia.
  - by vm_compute.
  - rewrite fuel_val. reflexivity.
  - repeat constructor; lia.
  - split; try done. by exists [].
  - by apply fresh_ok.
Defined.
