(* ===== verification/InitialMatches.v ===== *)
(** * The first matches of a query: cqp/eval.c, third part

    Before an automaton is simulated, the positions where a column of it may match first are
    collected ([matchfirstpattern]): for a condition on tokens [calculate_initial_matchlist_1] asks the index
    of the corpus and combines match lists with [Setop]; where it cannot, it evaluates the condition at every
    position.  What is asked is the class [Index]: the functions of cl/cdaccess.c that go
    from strings and types to positions.  Debugging output and the block that is compiled
    out ("THIS IS CURRENTLY DISABLED") are left out. *)

From Stdlib Require Import ZArith Lia.
From stdpp Require Import base tactics option list numbers.
From S2P Require Import Prelude.
From S2P Require Import Matchlist.
From S2P Require Import Bitfields.
From S2P Require Import Ranges.
From S2P Require Import Symtab.
From S2P Require Import Eval.

Open Scope Z_scope.

(** Lists may be NULL; their sizes are returned beside them. *)
Class Index (Attr Rx : Type) := {
  default_attribute : option Attr;                              (* the attribute DEFAULT_ATT_NAME of the query's corpus *)
  str2id : Attr -> list Z -> Z * bool;                          (* cl_str2id, and whether cl_errno is CDA_OK *)
  idlist2cpos : Attr -> list Z -> option (list Z) * Z;          (* cl_idlist2cpos_oldstyle, sorted, without a restrictor *)
  id2cpos : Attr -> Z -> list Z -> Z -> option (list Z) * Z;    (* cl_id2cpos_oldstyle with a restrictor list and its size *)
  regex2id : Attr -> list Z -> Z -> option (list Z) * Z;        (* cl_regex2id *)
  max_cpos : Attr -> Z;                                         (* cl_max_cpos *)
  max_id : Attr -> Z;                                           (* cl_max_id *)
  max_struc : Attr -> Z                                         (* cl_max_struc *)
}.

(** [matchlist->start = ...;] and so on. *)
Definition with_start (m : Matchlist) (l : option (list Z)) : Matchlist :=
  mkML l (ends m) (target_positions m) (keyword_positions m) (tabsize m) (matches_whole_corpus m) (is_inverted m).

Definition found_positions (m : Matchlist) (l : option (list Z)) (n : Z) (whole : bool) : Matchlist :=
  mkML l (ends m) (target_positions m) (keyword_positions m) n whole (is_inverted m).

(** A list of positions without ends: [start], [end], [tabsize], [matches_whole_corpus], [is_inverted]. *)
Definition plain_list (m : Matchlist) (l : option (list Z)) (n : Z) : Matchlist :=
  mkML l None (target_positions m) (keyword_positions m) n false false.

Section Initial.
Context {Attr Rx Fl : Type} `{EqDecision Attr} `{!Access Attr Rx Fl} `{!Index Attr Rx}.

(** See Matchlist for the memory; [corpus_size] is the size of the query's corpus. *)
Context (malloc0 : bool) (garbage : Z -> list Z) (realloc0 : option (list Z)) (corpus_size : option Z).

(** The field [mother_size] of the query's corpus. *)
Context (mother_size : Z).

Abbreviation Setop m op := (Setop garbage realloc0 corpus_size m op).

(** ** Positions from the index *)
Definition get_corpus_positions (attribute : Attr) (wordform : list Z) (m : Matchlist) : res Matchlist :=
  _ ← (match start m with None => Ok tt | Some _ => Err AssertFail end);
  let r := str2id attribute wordform in
  if (0 <=? r.1) && r.2 then let p := idlist2cpos attribute [r.1] in Ok (found_positions m p.1 p.2 false) else Ok m.

(** [for (i = 0; i < size; i++) start[i] = i;] *)
Definition whole_corpus (m : Matchlist) (size : Z) : res Matchlist :=
  if size <? 0 then Err ExitCall
  else l ← for_up (fun i l => aset l i i) 0 size (garbage size); Ok (found_positions m (Some l) size true).

(** The restrictor list is given, but not used ([restrictor_list] of cl_idlist2cpos_oldstyle). *)
Definition get_matched_corpus_positions (attribute : option Attr) (regstr : list Z) (canonicalize : Z) (m : Matchlist) : res Matchlist :=
  _ ← (match start m with None => Ok tt | Some _ => Err AssertFail end);
  let m := set_inverted m false in
  a ← (match (match attribute with Some a => Some a | None => default_attribute end) with Some a => Ok a | None => Err AssertFail end);
  if bool_decide (regstr = [46; 42]) then whole_corpus m (max_cpos a)
  else
    let '(word_ids, nr_of_words) := regex2id a regstr canonicalize in
    if nr_of_words =? max_id a then whole_corpus m (max_cpos a)
    else
      match word_ids with
      | Some ids =>
          if 0 <? nr_of_words then let p := idlist2cpos a (take (Z.to_nat nr_of_words) ids) in Ok (found_positions m p.1 p.2 (matches_whole_corpus m))
          else Ok (found_positions m (start m) 0 false)
      | None => Ok (found_positions m (start m) 0 false)
      end.

(** ** Positions outside the ranges of the query's corpus *)

(** [i], [rp] and [del]. *)
Definition offrange_round (corpus : CorpusList) (st : Z * Z * Z * Matchlist) : res (Z * Z * Z * Matchlist + Z * Matchlist) :=
  let '(i, rp, del, m) := st in
  if i <? tabsize m then
    before ← (if csize corpus <=? rp then Ok true else x ← oget (start m) i; r ← get_range corpus rp; Ok (x <? rstart r));
    if (before : bool) then
      s ← oset (start m) i (-1);
      e ← (match ends m with Some _ => oset (ends m) i (-1) | None => Ok None end);
      Ok (inl (i + 1, rp, del + 1, mkML s e (target_positions m) (keyword_positions m) (tabsize m) (matches_whole_corpus m) (is_inverted m)))
    else
      x ← oget (start m) i; r ← get_range corpus rp;
      if rend r <? x then Ok (inl (i, rp + 1, del, m)) else Ok (inl (i + 1, rp, del, m))
  else Ok (inr (del, m)).

Definition mark_offrange_cells (m : Matchlist) (corpus : CorpusList) : res (Z * Matchlist) :=
  _ ← c_assert (0 <? mother_size);
  all ← (if csize corpus =? 1 then r ← get_range corpus 0; Ok ((rstart r =? 0) && (rend r =? mother_size - 1)) else Ok false);
  if (all : bool) then Ok (0, m) else loop (offrange_round corpus) fuel (0, 0, 0, m).

(** [if (mark_offrange_cells(...)) if (!Setop(matchlist, Reduce, NULL)) return False;] *)
Definition reduce_offrange (m : Matchlist) (corpus : CorpusList) : res (bool * Matchlist) :=
  r ← mark_offrange_cells m corpus;
  if negb (r.1 =? 0) then s ← Setop r.2 Reduce init_matchlist; Ok (negb (s.1.1 =? 0), s.1.2) else Ok (true, r.2).

(** ** Conditions that are evaluated at every position of a list *)

(** [inr]: the list, [EvaluationIsRunning], and whether the loop was left before its end. *)
Definition filter_round (c : Constraint Attr Rx Fl) (n : Z) (st : Z * option (list Z) * bool)
  : res (Z * option (list Z) * bool + option (list Z) * bool * bool) :=
  let '(i, l, is_running) := st in
  if i <? n then
    if negb is_running then Ok (inr (l, is_running, true))
    else
      x ← oget l i;
      if 0 <=? x then
        r ← eval_bool (Some c) x (mkEst None is_running);
        l ← (if negb r.1 then oset l i (-1) else Ok l);
        Ok (inl (i + 1, l, running r.2))
      else Ok (inl (i + 1, l, is_running))
  else Ok (inr (l, is_running, false)).

(** The answer, the match list and [EvaluationIsRunning]. *)
Abbreviation outcome := (bool * Matchlist * bool)%type.

(** "this is just a ridiculous dummy implementation": all positions of the query's corpus. *)
Definition scan_corpus (c : Constraint Attr Rx Fl) (corpus : CorpusList) (m : Matchlist) (is_running : bool) : res outcome :=
  r ← Setop m Complement init_matchlist;
  if r.1.1 =? 0 then Ok (false, r.1.2, is_running)
  else
    o ← mark_offrange_cells r.1.2 corpus;
    let m := o.2 in
    f ← loop (filter_round c (tabsize m)) fuel (0, start m, is_running);
    let '(l, is_running, stopped) := f in
    if (stopped : bool) then Ok (false, free_matchlist m, is_running)
    else
      r ← Setop (with_start m l) Reduce init_matchlist;
      Ok (negb (r.1.1 =? 0), r.1.2, is_running).

(** ** Conditions *)

(** The list of a comparison with a constant.  An attribute that is NULL is replaced by the default, refused by
    an assertion, or makes the access function fail. *)
Definition leaf_positions (attr : option Attr) (canon : Z) (pat : leaf_value Rx) (corpus : CorpusList) (m : Matchlist) : res Matchlist :=
  match pat, attr with
  | REGEXP s _, _ => get_matched_corpus_positions attr s canon m
  | NORMAL s, Some a => get_corpus_positions a s m
  | NORMAL s, None => Err AssertFail
  | CID i, Some a =>
      let flat := match range corpus with Some l => l ≫= (fun r => [rstart r; rend r]) | None => [] end in
      let p := id2cpos a i flat (csize corpus) in
      Ok (plain_list m p.1 p.2)
  | CID i, None => Ok (plain_list m None (tabsize m))
  end.

Definition leaf_matches (op : b_ops) (attr : option Attr) (canon : Z) (pat : leaf_value Rx) (corpus : CorpusList) (m : Matchlist) (is_running : bool) : res outcome :=
  let all := match pat with REGEXP s _ => bool_decide (s = [46; 42]) | _ => false end in
  if all && bool_decide (op = cmp_neq) then Ok (true, free_matchlist m, is_running)
  else
    m ← leaf_positions attr (if all then 0 else canon) pat corpus m;
    r ← reduce_offrange m corpus;
    if negb (r.1 : bool) then Ok (false, r.2, is_running)
    else if negb all && bool_decide (op = cmp_neq) then
      s ← Setop r.2 Complement init_matchlist; Ok (negb (s.1.1 =? 0), s.1.2, is_running)
    else Ok (true, r.2, is_running).

(** The relational operators. *)
Definition comparison_matches (c : Constraint Attr Rx Fl) (op : b_ops) (left right : option (Constraint Attr Rx Fl)) (corpus : CorpusList) (m : Matchlist)
  (is_running : bool) : res outcome :=
  _ ← (match left, op, right with Some _, cmp_ex, _ | Some _, _, Some _ => Ok tt | _, _, _ => Err AssertFail end);
  match left with
  | Some (func _ _ _ _) | Some (sa_ref _ _ _) => scan_corpus c corpus m is_running
  | Some (pa_ref (Some _) _ _) => Ok (false, m, is_running)                 (* an error message *)
  | Some (pa_ref None attr _) =>
      match right with
      | Some (string_leaf canon pat) => leaf_matches op attr canon pat corpus m is_running
      | _ => scan_corpus c corpus m is_running
      end
  | _ => Err AssertFail                                                      (* a message, and the assertion at the end *)
  end.

(** Lists of the numbers of types; the message about a label reads a field that the node does not have. *)
Definition idlist_matches (a : Attr) (label : option label_entry) (negated : bool) (nr_items : Z) (items : list Z) (corpus : CorpusList) (m : Matchlist)
  (is_running : bool) : res outcome :=
  match label with
  | Some _ => Err OutOfBounds
  | None =>
      let m := if 0 <? nr_items then let p := idlist2cpos a (take (Z.to_nat nr_items) items) in plain_list m p.1 p.2 else plain_list m None 0 in
      c ← (if negated then s ← Setop m Complement init_matchlist; Ok (negb (s.1.1 =? 0), s.1.2) else Ok (true, m));
      if negb (c.1 : bool) then Ok (false, c.2, is_running)
      else r ← reduce_offrange c.2 corpus; Ok (r.1, r.2, is_running)
  end.

(** [if (left.is_inverted) if (!Setop(&left, Complement, NULL)) return False;] *)
Definition plain_matches (m : Matchlist) : res (bool * Matchlist) :=
  if is_inverted m then s ← Setop m Complement init_matchlist; Ok (negb (s.1.1 =? 0), s.1.2) else Ok (true, m).

Fixpoint calculate_initial_matchlist_1 (ctptr : Constraint Attr Rx Fl) (matchlist : Matchlist) (corpus : CorpusList) (is_running : bool) : res outcome :=
  match ctptr with
  | bnode b_and x y =>
      match x, y with
      | Some l, Some r =>
          k ← calculate_initial_matchlist_1 l init_matchlist corpus is_running;
          let '(ok, left_, is_running) := k in
          if (ok : bool) then
            f ← loop (filter_round r (tabsize left_)) fuel (0, start left_, is_running);
            let '(s, is_running, _) := f in
            d ← Setop (with_start left_ s) Reduce init_matchlist;
            let left_ := d.1.2 in
            if d.1.1 =? 0 then Ok (false, matchlist, is_running)
            else Ok (true, mkML (start left_) (ends left_) (target_positions matchlist) (keyword_positions matchlist) (tabsize left_) false (is_inverted matchlist), is_running)
          else Ok (false, free_matchlist matchlist, is_running)
      | _, _ => Err AssertFail
      end
  | bnode b_or x y =>
      match x, y with
      | Some l, Some r =>
          k ← calculate_initial_matchlist_1 l init_matchlist corpus is_running;
          let '(ok1, left_, is_running) := k in
          if negb ok1 then Ok (false, free_matchlist matchlist, is_running)
          else
            k ← calculate_initial_matchlist_1 r init_matchlist corpus is_running;
            let '(ok2, right_, is_running) := k in
            if negb ok2 then Ok (false, free_matchlist matchlist, is_running)
            else
              p ← plain_matches left_;
              if negb (p.1 : bool) then Ok (false, matchlist, is_running)
              else
                q ← plain_matches right_;
                if negb (q.1 : bool) then Ok (false, matchlist, is_running)
                else
                  u ← Setop p.2 Union q.2;
                  let left_ := u.1.2 in
                  if u.1.1 =? 0 then Ok (false, matchlist, is_running)
                  else
                    Ok (true, mkML (start left_) (ends left_) (target_positions matchlist) (keyword_positions matchlist) (tabsize left_) (matches_whole_corpus left_) false,
                        is_running)
      | _, _ => Err AssertFail
      end
  | bnode b_implies _ _ => scan_corpus ctptr corpus matchlist is_running
  | bnode b_not x _ =>
      match x with
      | Some l =>
          k ← calculate_initial_matchlist_1 l matchlist corpus is_running;
          let '(ok, m, is_running) := k in
          if (ok : bool) then
            s ← Setop m Complement init_matchlist;
            if s.1.1 =? 0 then Ok (false, s.1.2, is_running) else r ← reduce_offrange s.1.2 corpus; Ok (r.1, r.2, is_running)
          else Ok (false, free_matchlist m, is_running)
      | None => Err AssertFail
      end
  | bnode op x y => comparison_matches ctptr op x y corpus matchlist is_running
  | cnode val =>
      if val =? 0 then Ok (true, plain_list matchlist None 0, is_running)
      else Err OutOfBounds                         (* [ctptr->node.left_] of a node without this field *)
  | id_list a label negated nr_items items _ => idlist_matches a label negated nr_items items corpus matchlist is_running
  | _ => Ok (false, matchlist, is_running)
  end.

(** A missing condition: [True], and the list stays as it is. *)
Definition calculate_initial_matchlist (ctptr : option (Constraint Attr Rx Fl)) (matchlist : Matchlist) (corpus : CorpusList) (is_running : bool) : res outcome :=
  k ← (match ctptr with Some c => calculate_initial_matchlist_1 c matchlist corpus is_running | None => Ok (true, matchlist, is_running) end);
  let '(ok, m, is_running) := k in
  if (ok : bool) then
    p ← (if is_inverted m then s ← Setop (set_inverted m false) Complement init_matchlist; Ok (negb (s.1.1 =? 0), s.1.2) else Ok (true, m));
    if (p.1 : bool) then r ← reduce_offrange p.2 corpus; Ok (r.1, r.2, is_running) else Ok (false, p.2, is_running)
  else Ok (false, m, is_running).

(** ** Columns *)

(** The regions whose annotation matches: [bf], [nr_ok]. *)
Definition region_bits (attr : Attr) (constraint : list Z) (rx : option Rx) (negated : bool) (i : Z) (st : Bitfield * Z) : res (Bitfield * Z) :=
  let '(bf, nr_ok) := st in
  let ok := match struc2str attr i with
            | Some v => xorb negated (match rx with Some r => regex_match r v | None => bool_decide (constraint = v) end)
            | None => false
            end in
  if (ok : bool) then b ← set_bit bf i; n ← c_int (nr_ok + 1); Ok (b.1, n) else Ok st.

(** [inr]: the array, or an error of cl_struc2cpos. *)
Definition region_starts (attr : Attr) (is_closing : bool) (bf : Bitfield) (n : Z) (st : Z * Z * list Z) : res (Z * Z * list Z + option (list Z)) :=
  let '(i, k, l) := st in
  if i <? n then
    b ← get_bit bf i;
    if negb (b =? 0) then
      match struc2cpos attr i with
      | None => Ok (inr None)
      | Some (s, e) =>
          x ← (if is_closing then c_int (e + 1) else Ok s);
          l ← aset l k x;
          Ok (inl (i + 1, k + 1, l))
      end
    else Ok (inl (i + 1, k, l))
  else Ok (inr (Some l)).

Definition tag_matches (is_closing : bool) (attr : Attr) (constraint : option (list Z)) (rx : option Rx) (negated : bool) (m : Matchlist) (is_running : bool) : res (bool * Matchlist) :=
  let empty := mkML (start m) (ends m) (target_positions m) (keyword_positions m) 0 (matches_whole_corpus m) (is_inverted m) in
  let nr_strucs := max_struc attr in
  if nr_strucs <=? 0 then Ok (true, empty)
  else
    bf ← create_bitfield malloc0 garbage nr_strucs;
    b ← (match constraint with
         | Some c => z ← clear_all_bits (Some bf); if is_running then for_up (region_bits attr c rx negated) 0 nr_strucs (z.1, 0) else Ok (z.1, 0)
         | None => z ← set_all_bits (Some bf); Ok (z.1, nr_strucs)
         end);
    let nr_ok := b.2 in
    if nr_ok <=? 0 then Ok (true, empty)
    else
      r ← loop (region_starts attr is_closing b.1 nr_strucs) fuel (0, 0, garbage nr_ok);
      match r with
      | Some l => Ok (true, mkML (Some l) None (target_positions m) (keyword_positions m) nr_ok false (is_inverted m))
      | None => Ok (false, mkML None None (target_positions m) (keyword_positions m) (tabsize m) false (is_inverted m))
      end.

(** The positions of an anchor. *)
Definition anchor_round (corpus : CorpusList) (is_closing : bool) (field : FieldType) (i : Z) (l : list Z) : res (list Z) :=
  cpos ← anchor_position corpus i field;
  cpos ← (if is_closing && (0 <=? cpos) then c_int (cpos + 1) else Ok cpos);
  aset l i cpos.

Definition anchor_matches (is_closing : bool) (field : FieldType) (m : Matchlist) (corpus : CorpusList) : res (bool * Matchlist) :=
  if (csize corpus =? 0) || bool_decide (range corpus = None) then Ok (false, m)
  else if bool_decide (field = TargetField) && bool_decide (targets corpus = None) then Ok (false, m)
  else if bool_decide (field = KeywordField) && bool_decide (keywords corpus = None) then Ok (false, m)
  else if csize corpus <? 0 then Err ExitCall
  else
    l ← for_up (anchor_round corpus is_closing field) 0 (csize corpus) (garbage (csize corpus));
    s ← Setop (mkML (Some l) None (target_positions m) (keyword_positions m) (csize corpus) false (is_inverted m)) Reduce init_matchlist;
    Ok (negb (s.1.1 =? 0), s.1.2).

(** The column of a first transition. *)
Definition matchfirstpattern (pattern : AVStructure Attr Rx Fl) (matchlist : Matchlist) (corpus : CorpusList) (is_running : bool) : res outcome :=
  match pattern with
  | Tag is_closing attr constraint rx negated _ =>
      r ← tag_matches is_closing attr constraint rx negated matchlist is_running; Ok (r.1, r.2, is_running)
  | Anchor is_closing field => r ← anchor_matches is_closing field matchlist corpus; Ok (r.1, r.2, is_running)
  | Pattern _ constraint _ _ => calculate_initial_matchlist constraint matchlist corpus is_running
  | MatchAll _ _ _ => m ← get_matched_corpus_positions None [46; 42] 0 matchlist; Ok (true, m, is_running)
  end.
End Initial.
