(* ===== verification/InitialSets.v ===== *)
(** * The first matches of a condition

    [has_positions]: a match list holds the positions of a list, in order; what [Setop],
    [mark_offrange_cells] and the loops that evaluate conditions do to it.

    [IndexLaws]: what the index of a corpus of [N] tokens promises.  [initial_ok]: for conditions
    on the token itself [calculate_initial_matchlist] finds exactly the positions of the query's corpus
    where the condition holds. *)

From Stdlib Require Import ZArith Lia Sorted.
From stdpp Require Import base tactics option sets list numbers sorting.
From S2P Require Import Prelude.
From S2P Require Import Matchlist.
From S2P Require Import MatchlistRows.
From S2P Require Import MatchlistHalts.
From S2P Require Import MatchlistSets.
From S2P Require Import Bitfields.
From S2P Require Import Ranges.
From S2P Require Import RangesMatch.
From S2P Require Import Symtab.
From S2P Require Import Eval.
From S2P Require Import EvalConditions.
From S2P Require Import InitialMatches.

Open Scope Z_scope.

(** A position that is kept if [P] holds. *)
Definition sel (P : Z -> bool) (x : Z) : Z := if P x then x else -1.

(** The cells before [i] are replaced. *)
Definition partly (g : Z -> Z) (i : Z) (a : list Z) : list Z := (g <$> take (Z.to_nat i) a) ++ drop (Z.to_nat i) a.

Lemma partly_get g i a j : 0 <= i <= j -> aget (partly g i a) j = aget a j.
Proof.
  intros Hij. unfold partly. unfold aget. destruct (Z.ltb_spec j 0); [lia |]. destruct (decide (i <= zlen a)) as [Hi|Hi].
  - rewrite lookup_app_r by (rewrite length_fmap, length_take; unfold zlen in Hi; lia). rewrite length_fmap, length_take, lookup_drop.
    replace (Z.to_nat i + (Z.to_nat j - Z.to_nat i `min` length a))%nat with (Z.to_nat j) by (unfold zlen in Hi; lia). done.
  - rewrite !lookup_ge_None_2; [done | unfold zlen in Hi; lia | rewrite length_app, length_fmap, length_take, length_drop; unfold zlen in Hi; lia].
Qed.

Lemma partly_next g i a x : 0 <= i -> aget a i = Ok x -> partly g (i + 1) a = <[Z.to_nat i := g x]> (partly g i a).
Proof.
  intros Hi [_ Hx]%aget_Ok. unfold partly. replace (Z.to_nat (i + 1)) with (S (Z.to_nat i)) by lia. pose proof (lookup_lt_Some _ _ _ Hx).
  rewrite (take_S_r a _ x Hx), (drop_S a x _ Hx), fmap_app, <- app_assoc. rewrite insert_app_r_alt by (rewrite length_fmap, length_take; lia).
  rewrite length_fmap, length_take. replace (Z.to_nat i - Z.to_nat i `min` length a)%nat with 0%nat by lia. done.
Qed.

Lemma partly_same g i a x : 0 <= i -> aget a i = Ok x -> g x = x -> partly g (i + 1) a = partly g i a.
Proof.
  intros Hi Hx Hg. rewrite (partly_next g i a x Hi Hx), Hg. apply list_insert_id. pose proof (partly_get g i a i ltac:(lia)) as E. rewrite Hx in E. by apply aget_Ok in E as [_ E].
Qed.

Lemma partly_length g i a : zlen (partly g i a) = zlen a.
Proof. unfold partly, zlen. rewrite length_app, length_fmap, length_take, length_drop. lia. Qed.

Lemma partly_0 g a : partly g 0 a = a.
Proof. done. Qed.

(** The first [tabsize] positions with [P]; the others are deleted. *)
Definition marking (m : Matchlist) (g : Z -> Z) : Matchlist :=
  with_start m (partly g (tabsize m) <$> start m).

Section Positions.
Context (garbage : Z -> list Z) (realloc0 : option (list Z)) (N : Z).
Hypothesis (Hgarbage : forall n, 0 <= n -> zlen (garbage n) = n) (HN : 0 <= N /\ 2 * N <= INT_MAX) (Hrealloc : sized 0 realloc0).

Abbreviation Setop m op := (Setop garbage realloc0 (Some N) m op).

Definition has_positions (m : Matchlist) (l : list Z) : Prop := exists rows, initial N m rows /\ r_start <$> rows = l /\ is_inverted m = false /\ exact m.

Lemma hp_sorted m l : has_positions m l -> StronglySorted Z.lt l /\ Forall (fun p => 0 <= p < N) l /\ zlen l <= N.
Proof.
  intros (rows & I & <- & _). pose proof I as (_ & _ & Ho & Hf). split; [by apply ordered_false |]. split; [by apply Forall_fmap |].
  pose proof (initial_count N m rows (proj1 HN) I). unfold zlen in *. by rewrite length_fmap.
Qed.

Lemma hp_array m l : has_positions m l -> tabsize m = zlen l /\ ends m = None /\ ((start m = None /\ l = []) \/ exists rest, start m = Some (l ++ rest)).
Proof.
  intros (rows & ([Hn Hr] & He & _) & <- & _ & _). split; [rewrite Hn; unfold zlen; by rewrite length_fmap |]. split; [done |].
  destruct Hr as [[-> (Hs & _)]|(rest & Hs & _)]; [by left | right]. exists (r_start <$> rest). by rewrite Hs, fmap_app.
Qed.

Lemma hp_start m l : has_positions m l -> (start m = None /\ l = []) \/ start m = Some l.
Proof.
  intros H. destruct (hp_array m l H) as (Hn & _ & [?|(rest & Hs)]); [by left | right]. destruct H as (_ & _ & _ & _ & [Hx _]). specialize (Hx _ Hs).
  rewrite zlen_app, Hn in Hx. rewrite (zlen_0_nil rest) in Hs by lia. by rewrite app_nil_r in Hs.
Qed.

Lemma hp_new m l : start m = Some l -> ends m = None -> target_positions m = None -> keyword_positions m = None -> tabsize m = zlen l -> is_inverted m = false ->
  StronglySorted Z.lt l -> Forall (fun p => 0 <= p < N) l -> has_positions m l.
Proof.
  intros H1 H2 H3 H4 H5 H6 Hs Hf. exists (position_row <$> l). split; [| split; [apply position_rows_start | split; [done |]]].
  2: { unfold exact, arrays. rewrite H1, H2, H3, H4, H5. split; [by apply sized_Some | done]. }
  split; [by apply repr_positions |]. split; [done |]. split; [by rewrite ordered_false, position_rows_start | by apply Forall_fmap].
Qed.

Lemma hp_empty m : start m = None -> ends m = None -> target_positions m = None -> keyword_positions m = None -> tabsize m = 0 -> is_inverted m = false -> has_positions m [].
Proof.
  intros H1 H2 H3 H4 H5 H6. exists []. split; [| split; [done | split; [done | unfold exact, arrays; by rewrite H1, H2, H3, H4]]]. split; [split; [done | left; by repeat split] |]. split; [done |]. split; constructor.
Qed.

Lemma hp_fields m l w : has_positions m l -> has_positions (mkML (start m) (ends m) None None (tabsize m) w false) l.
Proof.
  intros (rows & ([Hn Hr] & He & Ho) & Hl & _ & Hx). exists rows. split; [| split; [done | split; [done | unfold exact, arrays; by split_and!; try apply Hx]]]. split; [| done]. split; [done |].
  destruct Hr as [[-> (Hs & _)]|(rest & Hs & _)]; [left; by repeat split | right]. exists rest. cbn. rewrite He. by repeat split.
Qed.

(** ** Setop *)
Lemma init_exact : exact init_matchlist.
Proof. by repeat split. Qed.

Lemma hp_complement m l : has_positions m l -> exists m', Setop m Complement init_matchlist = Ok (1, m', init_matchlist) /\
  has_positions m' (filter (fun p => p ∉ l) (seqZ 0 N)).
Proof.
  intros (rows & I & <- & Hinv & Hx). destruct (setop_complement_ok garbage N m rows Hgarbage ltac:(lia) I Hinv) as (m' & E & I' & V).
  assert (Setop m Complement init_matchlist = Ok (1, m', init_matchlist)) as ES by (unfold Matchlist.Setop; cbn [Setop_at]; rewrite E; by res_cbn).
  exists m'. split; [done |]. exists (compl_rows N rows). split; [done |]. split; [unfold compl_rows; by rewrite position_rows_start |]. split; [done |].
  exact (Setop_exact garbage realloc0 (Some N) Hgarbage Hrealloc _ _ _ _ Hx init_exact ES).
Qed.

Lemma hp_union m1 m2 l1 l2 : has_positions m1 l1 -> has_positions m2 l2 -> exists m l, Setop m1 Union m2 = Ok (1, m, m2) /\
  has_positions m l /\ forall p, p ∈ l <-> p ∈ l1 \/ p ∈ l2.
Proof.
  intros (rows1 & I1 & <- & V1 & X1) (rows2 & I2 & <- & V2 & X2).
  assert (exists m rows, Setop m1 Union m2 = Ok (1, m, m2) /\ initial N m rows /\ is_inverted m = false /\ forall p, p ∈ r_start <$> rows <-> p ∈ r_start <$> rows1 \/ p ∈ r_start <$> rows2) as (m & rows & E & I & V & Hp);
    [| exists m, (r_start <$> rows); split; [done |]; split; [| done]; exists rows; split; [done |]; split; [done |]; split; [done |];
       exact (Setop_exact garbage realloc0 (Some N) Hgarbage Hrealloc _ _ _ _ X1 X2 E)].
  unfold Matchlist.Setop. cbn [Setop_at]. destruct (start m2) as [s2|] eqn:E2; cycle 1.
  { rewrite V2. exists m1, rows1. do 3 (split; [done |]). intros p. rewrite (no_start N m2 rows2 I2 E2). set_solver. }
  destruct (start m1) as [s1|] eqn:E1; cycle 1.
  { rewrite V1. destruct (setop_identity_ok m2 rows2 (proj1 I2)) as (m & -> & Hr & Hc & Hinv). res_cbn. exists m, rows2. split; [done |].
    split; [| split; [by rewrite Hinv | intros p; rewrite (no_start N m1 rows1 I1 E1); set_solver]]. split; [done |]. split; [| apply I2].
    unfold cols_of in Hc. injection Hc as Hc _ _. rewrite (proj1 (proj2 I2)) in Hc. by destruct (ends m). }
  rewrite V1, V2. cbn [andb]. res_cbn. destruct (union_merge_computes garbage realloc0 N Hgarbage HN m1 m2 rows1 rows2 I1 I2) as (m & -> & [rows I] & V & Hp). res_cbn.
  exists m, rows. do 3 (split; [done |]). intros p. specialize (Hp p). rewrite (xorb_matches N m rows false p I V), xorb_false_l in Hp.
  rewrite <- (bool_decide_eq_true (p ∈ r_start <$> rows)), Hp, orb_true_iff, !bool_decide_eq_true. done.
Qed.

(** Rows with other starts. *)
Definition restart (g : Z -> Z) (r : row) : row := Row (g (r_start r)) (r_end r) (r_target r) (r_keyword r).

Lemma marking_repr m rows g : repr m rows -> repr (marking m g) (restart g <$> rows).
Proof.
  intros [Hn Hr]. unfold marking, with_start. split; [cbn; rewrite Hn; unfold zlen; by rewrite length_fmap |].
  destruct Hr as [[-> (H1 & H2 & H3 & H4)]|(rest & H1 & H2 & H3 & H4)].
  - left. split; [done |]. unfold freed. cbn. by rewrite H1.
  - right. exists rest. assert (cols_of (mkML (partly g (tabsize m) <$> start m) (ends m) (target_positions m) (keyword_positions m)
      (tabsize m) (matches_whole_corpus m) (is_inverted m)) = cols_of m) as -> by done.
    assert (forall f : row -> Z, (forall r, f (restart g r) = f r) -> f <$> ((restart g <$> rows) ++ rest) = f <$> (rows ++ rest)) as Hf.
    { intros f Ef. rewrite !fmap_app. f_equal. rewrite <- list_fmap_compose. apply list_fmap_ext. intros i r _. apply Ef. }
    unfold columns, column in *. cbn. rewrite H1, Hn. unfold partly. cbn. split; [| rewrite !Hf by done; done].
    unfold zlen. rewrite Nat2Z.id, !fmap_app, take_app_length', drop_app_length' by (by rewrite length_fmap). f_equal. f_equal.
    rewrite <- !list_fmap_compose. done.
Qed.

Lemma restart_live (P : Z -> bool) rows : Forall (fun r => 0 <= r_start r) rows -> MatchlistRows.live (restart (sel P) <$> rows) = filter (fun r => P (r_start r) = true) rows.
Proof.
  induction 1 as [|r rows Hr _ IH]; [done |]. rewrite fmap_cons, live_cons, filter_cons, IH. unfold restart, sel. cbn [r_start]. destruct (P (r_start r)) eqn:E.
  - rewrite !decide_True by (done || lia). f_equal. by destruct r.
  - rewrite !decide_False by (done || tauto). done.
Qed.

Lemma filter_starts (P : Z -> bool) (rows : list row) : r_start <$> filter (fun r => P (r_start r) = true) rows = filter (fun p => P p = true) (r_start <$> rows).
Proof. induction rows as [|r rows IH]; [done |]. rewrite fmap_cons, !filter_cons. by destruct (decide _); rewrite ?fmap_cons, IH. Qed.

Lemma marking_exact m g : exact m -> exact (marking m g).
Proof.
  intros (H1 & H2 & H3 & H4). unfold exact, arrays, marking. cbn. split; [| done]. intros l' Hl. apply fmap_Some in Hl as (l & Hs & ->). rewrite partly_length. by apply H1.
Qed.

(** Deleted positions are removed. *)
Lemma hp_reduce m l P : has_positions m l -> exists m', Setop (marking m (sel P)) Reduce init_matchlist = Ok (1, m', init_matchlist) /\
  has_positions m' (filter (fun p => P p = true) l).
Proof.
  intros (rows & I & <- & V & Hx). pose proof I as (Hr & He & Ho & Hf). assert (exact (marking m (sel P))) as Hxm by (by apply marking_exact).
  destruct (setop_reduce_ok garbage realloc0 (marking m (sel P)) (restart (sel P) <$> rows)) as (m' & E & Hr' & ((Hw & _) & _) & Hp & Hi); [by apply marking_repr |].
  assert (Setop (marking m (sel P)) Reduce init_matchlist = Ok (1, m', init_matchlist)) as ES by (unfold Matchlist.Setop; cbn [Setop_at]; rewrite E; by res_cbn).
  rewrite restart_live in * by (eapply Forall_impl; [exact Hf | intros; cbn in *; lia]). exists m'. split; [done |].
  exists (filter (fun r => P (r_start r) = true) rows). split; [| split; [apply filter_starts | split; [| exact (Setop_exact garbage realloc0 (Some N) Hgarbage Hrealloc _ _ _ _ Hxm init_exact ES)]]].
  - split; [done |]. split; [cbn in Hw; rewrite He in Hw; destruct (ends m'); [by discriminate Hw | done] |]. split.
    + rewrite ordered_false, filter_starts. by apply sorted_filter, ordered_false.
    + rewrite Forall_forall in *. intros r [_ Hr0]%list_elem_of_filter. by apply Hf.
  - unfold zlen in *. rewrite length_fmap in *. pose proof (length_filter (fun r => P (r_start r) = true) rows) as Hle.
    destruct (decide (length (filter (fun r => P (r_start r) = true) rows) = length rows)) as [Eq|Ne]; [rewrite Hi by lia; done | apply Hp; lia].
Qed.

Lemma marking_id m l g : has_positions m l -> (forall p, p ∈ l -> g p = p) -> marking m g = m.
Proof.
  intros H Hg. destruct (hp_array m l H) as (Hn & _ & Hs). unfold marking, with_start. destruct m as [s e t k n w v]. cbn in *. f_equal.
  destruct Hs as [[-> _]|(rest & ->)]; [done |]. unfold partly. cbn. rewrite Hn. unfold zlen. rewrite Nat2Z.id, take_app_length, drop_app_length. do 2 f_equal.
  rewrite <- (list_fmap_id l) at 2. apply Forall_fmap_ext_1, list.Forall_forall. done.
Qed.

Lemma filter_every (P : Z -> bool) (l : list Z) : (forall p, p ∈ l -> P p = true) -> filter (fun p => P p = true) l = l.
Proof.
  induction l as [|x l IH]; intros H; [done |]. rewrite filter_cons, decide_True by (apply H; left). f_equal. apply IH. intros p Hp. apply H. by right.
Qed.

(** ** Positions in the ranges of the query's corpus *)
Section Ranges.
Context (corpus : CorpusList).
Hypothesis (W : wf corpus) (Hapart : StronglySorted apart (ranges corpus)) (Hpos : 0 < N).

Definition in_corpus (p : Z) : bool := bool_decide (Exists (fun r => rstart r <= p <= rend r) (ranges corpus)).

Lemma inside_true p : in_corpus p = true <-> exists r, r ∈ ranges corpus /\ rstart r <= p <= rend r.
Proof. unfold in_corpus. by rewrite bool_decide_eq_true, list.Exists_exists. Qed.

Lemma inside_at p : in_corpus p = true <-> exists k, 0 <= k < csize corpus /\ rstart (at_ corpus k) <= p <= rend (at_ corpus k).
Proof.
  rewrite inside_true. split; [intros (r & (k & Hk & <-)%(elem_of_ranges _ W) & Hr) | intros (k & Hk & Hr)]; [by exists k |].
  exists (at_ corpus k). split; [| done]. apply (elem_of_ranges _ W). by exists k.
Qed.

Lemma get_range_at k : 0 <= k < csize corpus -> get_range corpus k = Ok (at_ corpus k).
Proof.
  intros Hk. pose proof (at_ok _ W k Hk) as E. unfold get_range, ranges in *. destruct (range corpus) as [a|]; [by res_cbn | by apply aget_nil in E].
Qed.

Lemma at_apart i j : 0 <= i -> i < j -> j < csize corpus -> rend (at_ corpus i) < rstart (at_ corpus j).
Proof. intros Hi Hij Hj. apply (proj1 (sorted_aget apart (ranges corpus)) Hapart i j); [lia | apply at_ok; done || lia | apply at_ok; done || lia]. Qed.

(** The list after [i] positions, of which [del] have been deleted. *)
Definition offrange_inv (m : Matchlist) (l : list Z) (a : list Z) (st : Z * Z * Z * Matchlist) : Prop :=
  let '(i, rp, del, m1) := st in
  0 <= i <= zlen l /\ 0 <= rp <= csize corpus /\ 0 <= del <= i /\ m1 = with_start m (Some (partly (sel in_corpus) i a)) /\
  (del = 0 <-> forall (j : nat) p, Z.of_nat j < i -> l !! j = Some p -> in_corpus p = true) /\
  forall k (j : nat) p, 0 <= k < rp -> i <= Z.of_nat j -> l !! j = Some p -> rend (at_ corpus k) < p.

Lemma offrange_step m l rest st : has_positions m l -> start m = Some (l ++ rest) -> offrange_inv m l (l ++ rest) st ->
  let '(i, rp, del, m1) := st in
  (exists i' rp' del' m', offrange_round corpus st = Ok (inl (i', rp', del', m')) /\ offrange_inv m l (l ++ rest) (i', rp', del', m') /\
    (zlen l - i') + (csize corpus - rp') < (zlen l - i) + (csize corpus - rp)) \/
  (i = zlen l /\ offrange_round corpus st = Ok (inr (del, m1))).
Proof.
  destruct st as [[[i rp] del] m1]. intros H Hs (Hi & Hrp & Hdel & -> & Hd & Hbefore). destruct (hp_array m l H) as (Hn & He & _). destruct (hp_sorted m l H) as (Hsort & Hrange & _).
  unfold offrange_round. cbn [tabsize with_start start ends]. rewrite Hn. destruct (Z.ltb_spec i (zlen l)) as [Hlt|Hge]; [left | right; split; [lia | done]].
  destruct (aget_some l i) as [p Hp]; [lia |]. pose proof (aget_app l rest i p Hp) as Hp'. pose proof Hp as [_ Hpl]%aget_Ok.
  unfold oget. cbn. rewrite partly_get by lia. rewrite Hp'. cbn.
  assert (forall j q, i <= Z.of_nat j -> l !! j = Some q -> p <= q) as Hge.
  { intros j q Hj Hq. destruct (decide (Z.to_nat i = j)) as [<-|Hne]; [rewrite Hpl in Hq; by injection Hq as -> |].
    pose proof (proj1 (sorted_aget Z.lt l) Hsort i (Z.of_nat j) p q ltac:(lia) Hp (aget_nat _ _ _ Hq)). cbn in *. lia. }
  assert (forall k, 0 <= k < csize corpus -> rp <= k \/ rend (at_ corpus k) < p) as Hpast.
  { intros k Hk. destruct (Z.le_gt_cases rp k) as [|Hk2]; [by left | right]. apply (Hbefore k (Z.to_nat i)); [lia | lia | done]. }
  assert (0 <= i + 1 <= zlen l) as Hi1 by lia.
  destruct (csize corpus <=? rp) eqn:Ec; [apply Z.leb_le in Ec | apply Z.leb_gt in Ec].
  { cbn. unfold oset. cbn. rewrite aset_Ok by (rewrite partly_length, zlen_app; pose proof (zlen_nonneg rest); lia). cbn. rewrite He. cbn.
    assert (in_corpus p = false) as Hno.
    { apply not_true_is_false. intros (k & Hk & Hr)%inside_at. destruct (Hpast k Hk); lia. }
    eexists (i + 1), rp, (del + 1), _. split; [reflexivity |]. split; [| lia]. split; [done |]. split; [done |]. split; [lia |]. split; [| split].
    - unfold with_start. cbn. rewrite (partly_next _ i _ p) by (done || lia). assert (sel in_corpus p = -1) as -> by (unfold sel; by rewrite Hno). by rewrite He, Hn.
    - split; [lia |]. intros Hall. specialize (Hall (Z.to_nat i) p ltac:(lia) Hpl). congruence.
    - intros k j q Hk Hj Hq. apply (Hbefore k j); [done | lia | done]. }
  rewrite (get_range_at rp) by lia. cbn. pose proof (at_pos _ W rp ltac:(lia)) as Hrpos. destruct (Z.ltb_spec p (rstart (at_ corpus rp))) as [Hb|Hb].
  { unfold oset. cbn. rewrite aset_Ok by (rewrite partly_length, zlen_app; pose proof (zlen_nonneg rest); lia). cbn. rewrite He. cbn.
    assert (in_corpus p = false) as Hno.
    { apply not_true_is_false. intros (k & Hk & Hr)%inside_at. destruct (Hpast k Hk) as [Hle|]; [| lia]. destruct (decide (k = rp)) as [->|Hne]; [lia |].
      pose proof (at_apart rp k ltac:(lia) ltac:(lia) ltac:(lia)). lia. }
    eexists (i + 1), rp, (del + 1), _. split; [reflexivity |]. split; [| lia]. split; [done |]. split; [done |]. split; [lia |]. split; [| split].
    - unfold with_start. cbn. rewrite (partly_next _ i _ p) by (done || lia). assert (sel in_corpus p = -1) as -> by (unfold sel; by rewrite Hno). by rewrite He, Hn.
    - split; [lia |]. intros Hall. specialize (Hall (Z.to_nat i) p ltac:(lia) Hpl). congruence.
    - intros k j q Hk Hj Hq. apply (Hbefore k j); [done | lia | done]. }
  destruct (Z.ltb_spec (rend (at_ corpus rp)) p) as [Hafter|Hin].
  { eexists i, (rp + 1), del, _. split; [reflexivity |]. split; [| lia]. split; [done |]. split; [lia |]. split; [lia |]. split; [done |]. split; [done |].
    intros k j q Hk Hj Hq. destruct (decide (k = rp)) as [->|]; [pose proof (Hge j q Hj Hq); lia | apply (Hbefore k j); [lia | done | done]]. }
  assert (in_corpus p = true) as Hyes by (apply inside_at; exists rp; lia).
  eexists (i + 1), rp, del, _. split; [reflexivity |]. split; [| lia]. split; [done |]. split; [done |]. split; [lia |]. split; [| split].
  - rewrite (partly_same _ i _ p); [done | lia | done | unfold sel; by rewrite Hyes].
  - rewrite Hd. split; intros Hall j q Hj Hq; [| apply (Hall j); [lia | done]]. destruct (decide (j = Z.to_nat i)) as [->|]; [rewrite Hpl in Hq; injection Hq as <-; done | apply (Hall j); [lia | done]].
  - intros k j q Hk Hj Hq. apply (Hbefore k j); [done | lia | done].
Qed.

Lemma offrange_ok m l : has_positions m l -> exists del, mark_offrange_cells N m corpus = Ok (del, marking m (sel in_corpus)) /\ (del = 0 <-> forall p, p ∈ l -> in_corpus p = true).
Proof.
  intros H. destruct (hp_array m l H) as (Hn & He & Hs). destruct (hp_sorted m l H) as (_ & Hf & Hle). unfold mark_offrange_cells. unfold c_assert. rewrite (proj2 (Z.ltb_lt 0 N)) by done. cbn [mbind res_bind].
  pose proof (wf_int _ W) as Hint. unfold INT_MAX in Hint, HN.
  assert (exists all : bool, (if csize corpus =? 1 then r ← get_range corpus 0; Ok ((rstart r =? 0) && (rend r =? N - 1)) else Ok false) = Ok all /\ (all = true -> forall p, 0 <= p < N -> in_corpus p = true)) as (all & -> & Hall).
  { destruct (Z.eqb_spec (csize corpus) 1) as [E1|]; [| by exists false]. rewrite get_range_at by lia. cbn. eexists. split; [done |]. intros [H1 H2]%andb_prop p Hp.
    apply Z.eqb_eq in H1, H2. apply inside_at. exists 0. lia. }
  cbn [mbind res_bind]. destruct all.
  { exists 0. assert (forall p, p ∈ l -> in_corpus p = true) as Hin.
    { intros p Hp. rewrite list.Forall_forall in Hf. apply Hall; [done |]. by apply Hf. }
    rewrite (marking_id m l); [split; [done | tauto] | done |]. intros p Hp. unfold sel. by rewrite Hin. }
  clear Hall. destruct Hs as [[Hs ->]|(rest & Hs)].
  - exists 0. split; [| split; [intros _ p Hp; by apply elem_of_nil in Hp | done]]. unfold marking. rewrite Hs. cbn. apply loop_exit. unfold offrange_round. rewrite Hn. cbn.
    do 2 f_equal. f_equal. destruct m. cbn in Hs. by rewrite Hs.
  - destruct (loop_rule (offrange_round corpus) (offrange_inv m l (l ++ rest)) (fun r => r.2 = marking m (sel in_corpus) /\ (r.1 = 0 <-> forall p, p ∈ l -> in_corpus p = true))
      (fun st => (zlen l - st.1.1.1) + (csize corpus - st.1.1.2))) with (p := fuel) (s := (0, 0, 0, m)) as ([del m'] & -> & E1 & E2).
    + intros st I. pose proof (offrange_step m l rest st H Hs I) as Hstep. destruct st as [[[i rp] del] m1]. pose proof I as (Hi & Hrp & _ & Em & Hd & _). cbn [fst snd].
      split; [lia |]. destruct Hstep as [(i' & rp' & del' & m' & E & I' & Hm)|[-> E]]; [left; by exists (i', rp', del', m') | right].
      exists (del, m1). split; [done |]. split.
      * cbn [snd]. rewrite Em. unfold marking. by rewrite Hs, Hn.
      * cbn [fst]. rewrite Hd. split; intros Hall.
        -- intros p [j Hj]%list_elem_of_lookup. apply (Hall j); [| done]. apply lookup_lt_Some in Hj. unfold zlen. lia.
        -- intros j p _ Hj. apply Hall. by eapply list_elem_of_lookup_2.
    + pose proof (zlen_nonneg l). pose proof (wf_size _ W). pose proof (zlen_nonneg (ranges corpus)). split; [lia |]. split; [lia |]. split; [lia |]. split; [| split; [split; [intros _ j p; lia | done] | intros k; lia]].
      rewrite partly_0, <- Hs. by destruct m.
    + cbn [fst snd]. rewrite fuel_val. lia.
    + exists del. cbn [fst snd] in *. by rewrite E1.
Qed.

(** The positions of the query's corpus. *)
Lemma hp_offrange m l : has_positions m l -> exists m', reduce_offrange garbage realloc0 (Some N) N m corpus = Ok (true, m') /\ has_positions m' (filter (fun p => in_corpus p = true) l).
Proof.
  intros H. unfold reduce_offrange. destruct (offrange_ok m l H) as (del & -> & Hd). cbn [mbind res_bind fst snd]. destruct (Z.eqb_spec del 0) as [Ez|Nz]; cbn [negb].
  - exists m. assert (forall p, p ∈ l -> in_corpus p = true) as Hall by tauto. rewrite (marking_id m l) by (done || (intros p Hp; unfold sel; by rewrite Hall)). split; [done |]. by rewrite filter_every.
  - destruct (hp_reduce m l in_corpus H) as (m' & -> & H'). cbn. by exists m'.
Qed.
End Ranges.
End Positions.

(** ** Loops that evaluate a condition *)
Section Filter.
Context {Attr Rx Fl : Type} `{EqDecision Attr} `{!Access Attr Rx Fl}.

Definition keep (P : Z -> bool) (x : Z) : Z := if 0 <=? x then sel P x else x.

Lemma filter_loop (c : Constraint Attr Rx Fl) P a n : 0 <= n <= zlen a -> n <= INT_MAX ->
  (forall i x, 0 <= i < n -> aget a i = Ok x -> 0 <= x -> eval_bool (Some c) x (mkEst None true) = Ok (P x, mkEst None true)) ->
  loop (filter_round c n) fuel (0, Some a, true) = Ok (Some (partly (keep P) n a), true, false).
Proof.
  intros Hn Hint He. destruct (loop_rule (filter_round c n) (fun st => exists i, 0 <= i <= n /\ st = (i, Some (partly (keep P) i a), true))
    (fun r => r = (Some (partly (keep P) n a), true, false)) (fun st => n - st.1.1)) with (p := fuel) (s := (0, Some a, true)) as (r & -> & ->); [| | | done].
  - intros st (i & Hi & ->). cbn [fst]. split; [lia |]. unfold filter_round. destruct (Z.ltb_spec i n) as [Hlt|Hge]; [left | right].
    + cbn [negb]. destruct (aget_some a i) as [x Hx]; [lia |]. unfold oget. cbn [deref mbind res_bind]. rewrite partly_get by lia. rewrite Hx. cbn [mbind res_bind].
      destruct (0 <=? x) eqn:Ex.
      * rewrite (He i x) by (done || lia || (by apply Z.leb_le)). cbn [mbind res_bind fst snd running]. eexists (i + 1, Some (partly (keep P) (i + 1) a), true). split; [| split; [exists (i + 1); split; [lia | done] | cbn; lia]].
        destruct (P x) eqn:EP; cbn [negb].
        -- cbn. rewrite (partly_same _ i a x); [done | lia | done | unfold keep, sel; by rewrite Ex, EP].
        -- unfold oset. cbn [deref mbind res_bind]. rewrite aset_Ok by (rewrite partly_length; lia). cbn. rewrite (partly_next _ i a x) by (done || lia). assert (keep P x = -1) as -> by (unfold keep, sel; by rewrite Ex, EP). done.
      * eexists. split; [reflexivity |]. split; [| cbn; lia]. exists (i + 1). split; [lia |]. rewrite (partly_same _ i a x); [done | lia | done | unfold keep; by rewrite Ex].
    + replace i with n by lia. eexists. split; done.
  - exists 0. split; [lia |]. by rewrite partly_0.
  - cbn. rewrite fuel_val. unfold INT_MAX in Hint. lia.
Qed.

Lemma partly_compose f g n a : partly g n (partly f n a) = partly (fun x => g (f x)) n a.
Proof.
  unfold partly. set (k := Z.to_nat n). assert (length (f <$> take k a) = (k `min` length a)%nat) as E by (by rewrite length_fmap, length_take).
  destruct (decide (k <= length a)%nat) as [Hk|Hk].
  - rewrite take_app_length', drop_app_length' by lia. f_equal. by rewrite <- list_fmap_compose.
  - rewrite (drop_ge a) by lia. rewrite app_nil_r. rewrite take_ge, drop_ge by lia. rewrite !app_nil_r. by rewrite <- list_fmap_compose.
Qed.

Lemma partly_ext f g n a : (forall i x, 0 <= i < n -> aget a i = Ok x -> f x = g x) -> partly f n a = partly g n a.
Proof.
  intros H. unfold partly. f_equal. apply list_fmap_ext. intros i x Hx. apply lookup_take_Some in Hx as [Hx Hi]. apply (H (Z.of_nat i)); [lia | by apply aget_nat].
Qed.
End Filter.

(** ** The index of a corpus of [N] tokens *)

(** [compiled s canon rx]: what the pattern compiler makes of a string. *)
Class IndexLaws (Attr Rx Fl : Type) `{!Access Attr Rx Fl} `{!Index Attr Rx} (N : Z) (positional : Attr -> bool) (compiled : list Z -> Z -> Rx -> Prop) := {
  il_default : exists a, default_attribute = Some a /\ positional a = true;
  il_size a : positional a = true -> max_cpos a = N;
  il_token a p : positional a = true -> 0 <= p < N -> exists i w, cpos2id a p = (i, true) /\ 0 <= i < max_id a /\ id2str a i = (Some w, true);
  il_string a s i : positional a = true -> 0 <= i < max_id a -> id2str a i = (Some s, true) -> str2id a s = (i, true);
  il_string_inv a s i : positional a = true -> str2id a s = (i, true) -> 0 <= i -> i < max_id a /\ id2str a i = (Some s, true);
  il_idlist a ids : positional a = true -> Forall (fun i => 0 <= i < max_id a) ids -> NoDup ids -> exists l,
    idlist2cpos a ids = (if zlen l =? 0 then None else Some l, zlen l) /\ StronglySorted Z.lt l /\
    forall p, p ∈ l <-> 0 <= p < N /\ (cpos2id a p).1 ∈ ids;
  il_positions a i rs : positional a = true -> 0 <= i < max_id a -> 0 < zlen rs -> StronglySorted apart rs -> exists l b,
    id2cpos a i (rs ≫= (fun r => [rstart r; rend r])) (zlen rs) = (if (b : bool) then Some l else None, zlen l) /\ (b = false -> l = []) /\ StronglySorted Z.lt l /\
    forall p, p ∈ l <-> 0 <= p < N /\ (cpos2id a p).1 = i /\ Exists (fun r => rstart r <= p <= rend r) rs;
  il_regex a s canon rx : positional a = true -> compiled s canon rx -> exists ids,
    (regex2id a s canon = (Some ids, zlen ids) \/ (regex2id a s canon = (None, 0) /\ ids = [])) /\ NoDup ids /\
    forall i, i ∈ ids <-> 0 <= i < max_id a /\ exists w, id2str a i = (Some w, true) /\ regex_match rx w = true
}.

Section InitialSets.
Context {Attr Rx Fl : Type} `{EqDecision Attr} `{!Access Attr Rx Fl} `{!AccessLaws Attr Rx Fl} `{!Index Attr Rx}.
Context (N : Z) (positional : Attr -> bool) (compiled : list Z -> Z -> Rx -> Prop) `{!IndexLaws Attr Rx Fl N positional compiled}.
Context (garbage : Z -> list Z) (realloc0 : option (list Z)).
Hypothesis (Hgarbage : forall n, 0 <= n -> zlen (garbage n) = n) (HN : 0 <= N /\ 2 * N <= INT_MAX) (Hrealloc : sized 0 realloc0).
Context (corpus : CorpusList).
Hypothesis (W : wf corpus) (Hapart : StronglySorted apart (ranges corpus)) (Hpos : 0 < N) (Hsize : 0 < csize corpus).

Abbreviation Setop m op := (Setop garbage realloc0 (Some N) m op).
Abbreviation has_positions := (has_positions N).
Abbreviation in_corpus := (in_corpus corpus).

(** The list holds the positions of the query's corpus with [P] (and perhaps others outside). *)
Definition finds (m : Matchlist) (P : Z -> bool) : Prop := exists l, has_positions m l /\ forall p, 0 <= p < N -> in_corpus p = true -> p ∈ l <-> P p = true.

(** Conditions that can be looked up. *)
Fixpoint indexed (c : Constraint Attr Rx Fl) : Prop :=
  match c with
  | bnode b_and (Some x) (Some y) => indexed x /\ plain y = true
  | bnode b_or (Some x) (Some y) => indexed x /\ indexed y
  | bnode b_implies (Some x) (Some y) => plain x = true /\ plain y = true
  | bnode b_not (Some x) None => indexed x
  | bnode (cmp_eq | cmp_neq) (Some (pa_ref None (Some a) _)) (Some (string_leaf canon pat)) =>
      positional a = true /\ match pat with NORMAL _ => True | REGEXP s rx => s = [46; 42] \/ compiled s canon rx | CID i => 0 <= i < max_id a end
  | bnode cmp_ex (Some (sa_ref None _ _)) _ => True
  | cnode val => val = 0
  | id_list a None _ nr_items items _ => positional a = true /\ sorted_items nr_items items /\ let ids := take (Z.to_nat nr_items) items in Forall (fun i => 0 <= i < max_id a) ids /\ NoDup ids
  | _ => False
  end.

Lemma indexed_plain c : indexed c -> plain c = true.
Proof.
  revert c. fix IH 1. intros c. destruct c as [op x y|v| | | | | | | |a l neg n items del|]; try done.
  - destruct op; try done.
    + destruct x as [x|], y as [y|]; try done. cbn. intros [Hx ->]. by rewrite (IH x Hx).
    + destruct x as [x|], y as [y|]; try done. cbn. intros [Hx Hy]. by rewrite (IH x Hx), (IH y Hy).
    + destruct x as [x|], y as [y|]; try done. cbn. by intros [-> ->].
    + destruct x as [x|], y as [y|]; try done. cbn. apply IH.
    + destruct x as [[| | | |l [b|] del| | | | | |]|]; try done; destruct l; try done. by destruct y as [[]|].
    + destruct x as [[| | | |l [b|] del| | | | | |]|]; try done; destruct l; try done. by destruct y as [[]|].
    + destruct x as [[| | | | |l attr del| | | | |]|]; try done. by destruct l.
  - destruct l; [done |]. intros (_ & Hs & _). by apply bool_decide_eq_true.
Qed.

(** ** Lists from the index *)
Lemma hp_option m l (b : bool) : start m = (if b then Some l else None) -> (b = false -> l = []) -> ends m = None -> target_positions m = None -> keyword_positions m = None ->
  tabsize m = zlen l -> is_inverted m = false -> StronglySorted Z.lt l -> Forall (fun p => 0 <= p < N) l -> has_positions m l.
Proof.
  intros Hs Hb He Ht Hk Hn Hv Hso Hf. destruct b; [by apply hp_new |]. rewrite Hb in * by done. by apply hp_empty.
Qed.

Lemma finds_ext m P Q : finds m P -> (forall p, 0 <= p < N -> in_corpus p = true -> P p = Q p) -> finds m Q.
Proof. intros (l & H & Hl) E. exists l. split; [done |]. intros p Hp Hi. by rewrite <- E, Hl. Qed.

Lemma whole_corpus_ok m : ends m = None -> target_positions m = None -> keyword_positions m = None -> is_inverted m = false ->
  exists m', whole_corpus garbage m N = Ok m' /\ has_positions m' (seqZ 0 N).
Proof.
  intros He Ht Hk Hv. unfold whole_corpus. rewrite (proj2 (Z.ltb_ge N 0)) by lia. rewrite fill_loop by (rewrite ?Hgarbage; lia). cbn [mbind res_bind].
  eexists. split; [reflexivity |]. apply hp_new; try done.
  - cbn. unfold zlen. rewrite length_seqZ. lia.
  - apply seqZ_sorted.
  - apply list.Forall_forall. intros p Hp%elem_of_seqZ. lia.
Qed.

Lemma token_readable a p : positional a = true -> 0 <= p < N -> exists i w, cpos2id a p = (i, true) /\ 0 <= i < max_id a /\ id2str a i = (Some w, true) /\ token_of a p = Some (i, w).
Proof.
  intros Ha Hp. destruct (il_token a p Ha Hp) as (i & w & E & Hi & Ew). exists i, w. unfold token_of. rewrite E. cbn. by rewrite Ew.
Qed.

(** The positions of a list of types. *)
Lemma idlist_found a ids m whole : positional a = true -> Forall (fun i => 0 <= i < max_id a) ids -> NoDup ids -> ends m = None -> target_positions m = None -> keyword_positions m = None -> is_inverted m = false ->
  let r := idlist2cpos a ids in exists l, has_positions (found_positions m r.1 r.2 whole) l /\ forall p, p ∈ l <-> 0 <= p < N /\ (cpos2id a p).1 ∈ ids.
Proof.
  intros Ha Hv Hd He Ht Hk Hi. destruct (il_idlist a ids Ha Hv Hd) as (l & -> & Hs & Hl). cbn [fst snd]. exists l. split; [| done].
  apply (hp_option _ l (negb (zlen l =? 0))); try done; cbn.
  - by destruct (zlen l =? 0).
  - intros Hz%negb_false_iff%Z.eqb_eq. by apply zlen_0_nil.
  - apply list.Forall_forall. intros p Hp. by apply Hl.
Qed.

(** Whether the token is the constant of a comparison. *)
Definition token_is (a : Attr) (pat : leaf_value Rx) (p : Z) : bool := match token_of a p with Some (id, w) => leaf_test pat id w | None => false end.

Lemma ids_found (a : Attr) (pat : leaf_value Rx) (ids l : list Z) : positional a = true -> (forall p, p ∈ l <-> 0 <= p < N /\ (cpos2id a p).1 ∈ ids) ->
  (forall i w, 0 <= i < max_id a -> id2str a i = (Some w, true) -> i ∈ ids <-> leaf_test pat i w = true) -> forall p, 0 <= p < N -> p ∈ l <-> token_is a pat p = true.
Proof.
  intros Ha Hl Hids p Hp. rewrite Hl. unfold token_is. destruct (token_readable a p Ha Hp) as (i & w & E & Hi & Ew & ->). rewrite E. cbn [fst]. rewrite (Hids i w Hi Ew). tauto.
Qed.

Lemma whole_found (a : Attr) (pat : leaf_value Rx) : positional a = true -> (forall i w, 0 <= i < max_id a -> id2str a i = (Some w, true) -> leaf_test pat i w = true) ->
  forall p, 0 <= p < N -> p ∈ seqZ 0 N <-> token_is a pat p = true.
Proof.
  intros Ha Hall p Hp. unfold token_is. destruct (token_readable a p Ha Hp) as (i & w & E & Hi & Ew & ->). rewrite (Hall i w Hi Ew), elem_of_seqZ. split; [done | lia].
Qed.

Lemma regex_found a s canon rx : positional a = true -> s = [46; 42] \/ compiled s canon rx ->
  exists m l, get_matched_corpus_positions garbage (Some a) s (if bool_decide (s = [46; 42]) then 0 else canon) init_matchlist = Ok m /\ has_positions m l /\
    forall p, 0 <= p < N -> p ∈ l <-> token_is a (REGEXP s rx) p = true.
Proof.
  intros Ha Hs. unfold get_matched_corpus_positions. cbn [start init_matchlist mbind res_bind]. case_bool_decide as Hall.
  { rewrite (il_size a Ha). destruct (whole_corpus_ok (set_inverted init_matchlist false)) as (m & -> & Hm); try done. exists m, (seqZ 0 N). split; [done |]. split; [done |].
    apply whole_found; [done |]. intros i w _ _. cbn -[regex_match]. by rewrite bool_decide_true. }
  destruct Hs as [|Hc]; [done |]. destruct (il_regex a s canon rx Ha Hc) as (ids & Er & Hd & Hids).
  assert (forall i w, 0 <= i < max_id a -> id2str a i = (Some w, true) -> i ∈ ids <-> leaf_test (REGEXP s rx) i w = true) as Htest.
  { intros i w Hi Ew. rewrite Hids. cbn -[regex_match]. rewrite bool_decide_false by done. cbn [orb]. split; [intros (_ & w' & Ew' & Hm); congruence | intros Hm; split; [done | by exists w]]. }
  assert (Forall (fun i => 0 <= i < max_id a) ids) as Hv by (apply list.Forall_forall; intros i Hi; by apply Hids).
  assert (exists wi, regex2id a s canon = (wi, zlen ids) /\ (wi = Some ids \/ (wi = None /\ ids = []))) as (wi & -> & Hwi).
  { destruct Er as [->|[-> ->]]; eexists; (split; [reflexivity |]); [by left | by right]. }
  destruct (Z.eqb_spec (zlen ids) (max_id a)) as [Emax|Nmax].
  { rewrite (il_size a Ha). destruct (whole_corpus_ok (set_inverted init_matchlist false)) as (m & -> & Hm); try done. exists m, (seqZ 0 N). split; [done |]. split; [done |].
    apply whole_found; [done |]. intros i w Hi Ew. apply (Htest i w Hi Ew).
    assert (ids ≡ₚ seqZ 0 (max_id a)) as ->; [| apply elem_of_seqZ; lia]. apply submseteq_length_Permutation.
    - apply NoDup_submseteq; [done |]. intros j Hj. apply Hids in Hj as [Hj _]. apply elem_of_seqZ. lia.
    - rewrite length_seqZ. unfold zlen in Emax. lia. }
  destruct Hwi as [->|[-> ->]].
  - destruct (Z.ltb_spec 0 (zlen ids)) as [Hlt|Hge].
    + unfold zlen. rewrite Nat2Z.id, firstn_all. destruct (idlist_found a ids (set_inverted init_matchlist false) false Ha Hv Hd) as (l & Hm & Hl); try done.
      eexists _, l. split; [reflexivity |]. split; [exact Hm |]. by apply (ids_found a _ ids).
    + eexists _, []. split; [reflexivity |]. split; [by apply hp_empty |]. assert (ids = []) as -> by (apply zlen_0_nil; pose proof (zlen_nonneg ids); lia).
      apply (ids_found a _ []); [done | | done]. intros p. set_solver.
  - eexists _, []. split; [reflexivity |]. split; [by apply hp_empty |]. apply (ids_found a _ []); [done | | done]. intros p. set_solver.
Qed.

Lemma string_found a s : positional a = true -> exists m l, get_corpus_positions a s init_matchlist = Ok m /\ has_positions m l /\
  forall p, 0 <= p < N -> p ∈ l <-> token_is a (NORMAL s) p = true.
Proof.
  intros Ha. unfold get_corpus_positions. cbn [start init_matchlist mbind res_bind]. destruct (str2id a s) as [i b] eqn:E. cbn [fst snd].
  assert (forall j w, 0 <= j < max_id a -> id2str a j = (Some w, true) -> w = s -> j = i /\ b = true) as Huniq.
  { intros j w Hj Ew ->. pose proof (il_string a s j Ha Hj Ew) as E'. rewrite E in E'. by injection E' as -> ->. }
  destruct ((0 <=? i) && b) eqn:Ev.
  - apply andb_prop in Ev as [Hi%Z.leb_le Hb]. assert (b = true) as -> by done. destruct (il_string_inv a s i Ha E Hi) as [Hmax Ew].
    destruct (idlist_found a [i] init_matchlist false Ha) as (l & Hm & Hl); try done; [repeat constructor; lia | repeat constructor; apply not_elem_of_nil |].
    eexists _, l. split; [reflexivity |]. split; [exact Hm |]. apply (ids_found a _ [i]); [done | done |]. intros j w Hj Ej. cbn [leaf_test]. rewrite list_elem_of_singleton, bool_decide_eq_true.
    split; [intros ->; congruence | intros ->; by eapply Huniq].
  - eexists _, []. split; [reflexivity |]. split; [by apply hp_empty |]. apply (ids_found a _ []); [done | intros p; set_solver |]. intros j w Hj Ej. cbn [leaf_test].
    rewrite bool_decide_eq_true. split; [by intros ?%elem_of_nil |]. intros ->. destruct (Huniq j s Hj Ej eq_refl) as [-> ->]. rewrite (proj2 (Z.leb_le 0 i)) in Ev by lia. done.
Qed.

Lemma leaf_found a canon pat : positional a = true -> match pat with NORMAL _ => True | REGEXP s rx => s = [46; 42] \/ compiled s canon rx | CID i => 0 <= i < max_id a end ->
  let all := match pat with REGEXP s _ => bool_decide (s = [46; 42]) | _ => false end in
  exists m, leaf_positions garbage (Some a) (if all then 0 else canon) pat corpus init_matchlist = Ok m /\ finds m (token_is a pat).
Proof.
  intros Ha Hpat all. destruct pat as [s|s rx|i]; cbn [leaf_positions].
  - destruct (string_found a s Ha) as (m & l & E & Hm & Hl). exists m. split; [done |]. exists l. split; [done |]. intros p Hp _. by apply Hl.
  - destruct (regex_found a s canon rx Ha Hpat) as (m & l & E & Hm & Hl). exists m. split; [done |]. exists l. split; [done |]. intros p Hp _. by apply Hl.
  - assert (exists rs, range corpus = Some rs /\ ranges corpus = rs) as (rs & Er & Ers).
    { unfold ranges. destruct (range corpus) as [rs|] eqn:Er; [by exists rs |]. pose proof (wf_size _ W) as Ez. unfold ranges in Ez. rewrite Er in Ez. cbn in Ez. unfold zlen in Ez. cbn in Ez. lia. }
    rewrite Er. pose proof (wf_size _ W) as Ez. rewrite Ers in Ez. rewrite Ez.
    destruct (il_positions a i rs Ha Hpat) as (l & b & -> & Hb & Hs & Hl); [lia | by rewrite <- Ers |]. cbn [fst snd]. eexists. split; [reflexivity |]. exists l. split.
    + apply (hp_option _ l b); try done. apply list.Forall_forall. intros p Hp. by apply Hl.
    + intros p Hp Hin. rewrite Hl. unfold token_is. destruct (token_readable a p Ha Hp) as (j & w & E & Hj & Ew & ->). rewrite E. cbn [fst leaf_test]. rewrite Z.eqb_eq.
      apply bool_decide_eq_true in Hin. rewrite Ers in Hin. tauto.
Qed.

(** ** Conditions that are evaluated *)
Lemma filter_marked c m l Q : plain c = true -> has_positions m l -> let m1 := marking m (sel Q) in exists s,
  loop (filter_round c (tabsize m1)) fuel (0, start m1, true) = Ok (s, true, false) /\ with_start m1 s = marking m (sel (fun p => Q p && holds c p)).
Proof.
  intros Hc H m1. destruct (hp_array N m l H) as (Hn & _ & Hs). destruct (hp_sorted N HN m l H) as (_ & Hf & Hle). unfold m1, marking, with_start. cbn [tabsize start].
  destruct Hs as [[Hs ->]|(rest & Hs)]; rewrite Hs; cbn [fmap option_fmap option_map].
  - exists None. split; [| done]. apply loop_exit. unfold filter_round. by rewrite Hn.
  - eexists. split.
    + apply filter_loop with (P := holds c); [rewrite partly_length, Hn, zlen_app; pose proof (zlen_nonneg rest); pose proof (zlen_nonneg l); lia | lia |].
      intros i x _ _ _. by apply eval_plain.
    + cbn. do 2 f_equal. rewrite partly_compose. apply partly_ext. intros i x Hi Hx. rewrite Hn in Hi. destruct (aget_some l i Hi) as [y Hy].
      rewrite (aget_app l rest i y Hy) in Hx. injection Hx as <-. apply aget_Ok in Hy as [_ Hy]. pose proof (proj1 (Forall_lookup _ _) Hf _ _ Hy). cbn in *.
      unfold keep, sel. destruct (Q y); cbn; [by rewrite (proj2 (Z.leb_le 0 y)) by lia | done].
Qed.

Lemma scan_steps c m0 m m1 m' del s i1 i2 : Setop m0 Complement init_matchlist = Ok (1, m, i1) -> mark_offrange_cells N m corpus = Ok (del, m1) ->
  loop (filter_round c (tabsize m1)) fuel (0, start m1, true) = Ok (s, true, false) -> Setop (with_start m1 s) Reduce init_matchlist = Ok (1, m', i2) ->
  scan_corpus garbage realloc0 (Some N) N c corpus m0 true = Ok (true, m', true).
Proof.
  intros E1 E2 E3 E4. unfold scan_corpus. rewrite E1. res_cbn. cbn [fst snd]. change (1 =? 0) with false. cbv iota. rewrite E2. res_cbn. cbn [fst snd]. rewrite E3. res_cbn. by rewrite E4.
Qed.

Lemma scan_found c : plain c = true -> exists m, scan_corpus garbage realloc0 (Some N) N c corpus init_matchlist true = Ok (true, m, true) /\ finds m (holds c).
Proof.
  intros Hc. destruct (hp_complement garbage realloc0 N Hgarbage HN Hrealloc init_matchlist []) as (m & E1 & Hm); [by apply hp_empty |].
  destruct (offrange_ok N HN corpus W Hapart Hpos m _ Hm) as (del & E2 & _). destruct (filter_marked c m _ in_corpus Hc Hm) as (s & E3 & Es).
  destruct (hp_reduce garbage realloc0 N Hgarbage HN Hrealloc m _ (fun p => in_corpus p && holds c p) Hm) as (m' & E4 & Hm'). rewrite <- Es in E4.
  exists m'. split; [exact (scan_steps _ _ _ _ _ _ _ _ _ E1 E2 E3 E4) |].
  eexists. split; [exact Hm' |]. intros p Hp Hin. rewrite !list_elem_of_filter, elem_of_seqZ, Hin. cbn [andb]. split; [tauto |]. intros. repeat split; try lia; [done | apply not_elem_of_nil].
Qed.

(** ** Operations on the lists of conditions *)
Lemma finds_reduce m P : finds m P -> exists m', reduce_offrange garbage realloc0 (Some N) N m corpus = Ok (true, m') /\ finds m' P.
Proof.
  intros (l & H & Hl). destruct (hp_offrange garbage realloc0 N Hgarbage HN Hrealloc corpus W Hapart Hpos m l H) as (m' & E & H'). exists m'. split; [done |]. eexists. split; [exact H' |].
  intros p Hp Hin. rewrite list_elem_of_filter, (Hl p Hp Hin), Hin. tauto.
Qed.

Lemma finds_complement m P : finds m P -> exists m', Setop m Complement init_matchlist = Ok (1, m', init_matchlist) /\ finds m' (fun p => negb (P p)).
Proof.
  intros (l & H & Hl). destruct (hp_complement garbage realloc0 N Hgarbage HN Hrealloc m l H) as (m' & E & H'). exists m'. split; [done |]. eexists. split; [exact H' |].
  intros p Hp Hin. rewrite list_elem_of_filter, elem_of_seqZ, (Hl p Hp Hin). destruct (P p); cbn; intuition (congruence || lia).
Qed.

Lemma finds_union m1 m2 P Q : finds m1 P -> finds m2 Q -> exists m, Setop m1 Union m2 = Ok (1, m, m2) /\ finds m (fun p => P p || Q p).
Proof.
  intros (l1 & H1 & Hl1) (l2 & H2 & Hl2). destruct (hp_union garbage realloc0 N Hgarbage HN Hrealloc m1 m2 l1 l2 H1 H2) as (m & l & E & H & Hl). exists m. split; [done |]. exists l. split; [done |].
  intros p Hp Hin. by rewrite Hl, (Hl1 p Hp Hin), (Hl2 p Hp Hin), orb_true_iff.
Qed.

Lemma finds_filter c m P : plain c = true -> finds m P -> exists s m', loop (filter_round c (tabsize m)) fuel (0, start m, true) = Ok (s, true, false) /\
  Setop (with_start m s) Reduce init_matchlist = Ok (1, m', init_matchlist) /\ finds m' (fun p => P p && holds c p).
Proof.
  intros Hc (l & H & Hl). destruct (filter_marked c m l (fun _ => true) Hc H) as (s & E & Es). rewrite (marking_id N m l (sel (fun _ => true)) H) in E, Es by done.
  destruct (hp_reduce garbage realloc0 N Hgarbage HN Hrealloc m l (holds c) H) as (m' & E' & H'). exists s, m'. split; [done |]. split; [rewrite Es; exact E' |]. eexists. split; [exact H' |].
  intros p Hp Hin. rewrite list_elem_of_filter, (Hl p Hp Hin). destruct (P p), (holds c p); cbn; intuition congruence.
Qed.

Lemma finds_fields m P w : finds m P -> finds (mkML (start m) (ends m) None None (tabsize m) w false) P.
Proof. intros (l & H & Hl). exists l. split; [by apply hp_fields | done]. Qed.

Lemma finds_upright m P : finds m P -> is_inverted m = false.
Proof. by intros (l & (rows & _ & _ & H & _) & _). Qed.

Lemma finds_none m : ends m = None -> target_positions m = None -> keyword_positions m = None -> start m = None -> tabsize m = 0 -> is_inverted m = false -> finds m (fun _ => false).
Proof. intros. exists []. split; [by apply hp_empty |]. intros p _ _. split; [by intros ?%elem_of_nil | done]. Qed.

Lemma leaf_matches_found op a del canon pat : op = cmp_eq \/ op = cmp_neq -> positional a = true ->
  match pat with NORMAL _ => True | REGEXP s rx => s = [46; 42] \/ compiled s canon rx | CID i => 0 <= i < max_id a end ->
  exists m, leaf_matches garbage realloc0 (Some N) N op (Some a) canon pat corpus init_matchlist true = Ok (true, m, true) /\
  finds m (holds (bnode op (Some (pa_ref None (Some a) del)) (Some (string_leaf canon pat)))).
Proof.
  intros Hop Ha Hpat. unfold leaf_matches. set (all := match pat with REGEXP s _ => bool_decide (s = [46; 42]) | _ => false end).
  assert (forall p, 0 <= p < N -> holds (bnode op (Some (pa_ref None (Some a) del)) (Some (string_leaf canon pat))) p = if bool_decide (op = cmp_neq) then negb (token_is a pat p) else token_is a pat p) as Hh.
  { intros p Hp. unfold token_is. destruct (token_readable a p Ha Hp) as (i & w & _ & _ & _ & E). destruct Hop as [-> | ->]; cbn -[leaf_test]; by rewrite E. }
  assert (all = true -> forall p, 0 <= p < N -> token_is a pat p = true) as Hall.
  { intros E p Hp. unfold token_is. destruct (token_readable a p Ha Hp) as (i & w & _ & _ & _ & ->). unfold all in E. destruct pat; try done. cbn -[regex_match]. by rewrite E. }
  destruct (all && bool_decide (op = cmp_neq)) eqn:Ex.
  - apply andb_prop in Ex as [E1 E2]. eexists. split; [reflexivity |]. eapply finds_ext; [by apply finds_none |]. intros p Hp _. by rewrite Hh, E2, Hall.
  - destruct (leaf_found a canon pat Ha Hpat) as (m & E & Hm). unfold all. rewrite E. res_cbn. destruct (finds_reduce m _ Hm) as (m1 & -> & Hm1). res_cbn. cbn [fst snd negb].
    fold all. destruct all; cbn [negb andb] in *.
    + exists m1. split; [done |]. eapply finds_ext; [exact Hm1 |]. intros p Hp _. by rewrite Hh, Ex.
    + destruct (bool_decide (op = cmp_neq)) eqn:Eop.
      * destruct (finds_complement m1 _ Hm1) as (m2 & -> & Hm2). res_cbn. exists m2. split; [done |]. eapply finds_ext; [exact Hm2 |]. intros p Hp _. by rewrite Hh.
      * exists m1. split; [done |]. eapply finds_ext; [exact Hm1 |]. intros p Hp _. by rewrite Hh.
Qed.

Lemma idlist_matches_found a negated nr_items items del : positional a = true ->
  (let ids := take (Z.to_nat nr_items) items in Forall (fun i => 0 <= i < max_id a) ids /\ NoDup ids) ->
  exists m, idlist_matches garbage realloc0 (Some N) N a None negated nr_items items corpus init_matchlist true = Ok (true, m, true) /\
  finds m (holds (id_list a None negated nr_items items del)).
Proof.
  intros Ha [Hv Hd]. unfold idlist_matches. set (Q := fun p => match token_of a p with Some (id, _) => bool_decide (id ∈ take (Z.to_nat nr_items) items) | None => false end).
  set (m0 := if 0 <? nr_items then _ else _). assert (finds m0 Q) as Hm0.
  { unfold m0. destruct (Z.ltb_spec 0 nr_items) as [Hn|Hn].
    - destruct (idlist_found a _ init_matchlist false Ha Hv Hd) as (l & Hm & Hl); try done. exists l. split; [exact Hm |]. intros p Hp _. rewrite Hl. unfold Q.
      destruct (token_readable a p Ha Hp) as (i & w & E & _ & _ & ->). rewrite E. cbn [fst]. rewrite bool_decide_eq_true. tauto.
    - eapply finds_ext; [by apply finds_none |]. intros p Hp _. unfold Q. destruct (token_readable a p Ha Hp) as (i & w & E & _ & _ & ->).
      replace (Z.to_nat nr_items) with 0%nat by lia. done. }
  clearbody m0. assert (exists m1, (if negated then s ← Setop m0 Complement init_matchlist; Ok (negb (s.1.1 =? 0), s.1.2) else Ok (true, m0)) = Ok (true, m1) /\ finds m1 (fun p => xorb negated (Q p))) as (m1 & -> & Hm1).
  { destruct negated.
    - destruct (finds_complement m0 _ Hm0) as (m1 & -> & Hm1). res_cbn. exists m1. split; [done |]. eapply finds_ext; [exact Hm1 |]. done.
    - exists m0. split; [done |]. eapply finds_ext; [exact Hm0 |]. intros p _ _. by rewrite xorb_false_l. }
  res_cbn. cbn [fst snd negb]. destruct (finds_reduce m1 _ Hm1) as (m2 & -> & Hm2). res_cbn. exists m2. split; [done |]. done.
Qed.

Abbreviation first_matches c m r := (calculate_initial_matchlist_1 garbage realloc0 (Some N) N c m corpus r).

Lemma and_found x y m1 : plain y = true -> first_matches x init_matchlist true = Ok (true, m1, true) -> finds m1 (holds x) ->
  exists m, first_matches (bnode b_and (Some x) (Some y)) init_matchlist true = Ok (true, m, true) /\ finds m (fun p => holds x p && holds y p).
Proof.
  intros Hy E Hm1. cbn [calculate_initial_matchlist_1]. rewrite E. res_cbn. destruct (finds_filter y m1 _ Hy Hm1) as (s & m2 & E1 & E2 & Hm2).
  rewrite E1. res_cbn. rewrite E2. res_cbn. cbn [fst snd]. change (1 =? 0) with false. cbv iota. eexists. split; [reflexivity |]. by apply finds_fields.
Qed.

Lemma or_found x y m1 m2 : first_matches x init_matchlist true = Ok (true, m1, true) -> finds m1 (holds x) ->
  first_matches y init_matchlist true = Ok (true, m2, true) -> finds m2 (holds y) ->
  exists m, first_matches (bnode b_or (Some x) (Some y)) init_matchlist true = Ok (true, m, true) /\ finds m (fun p => holds x p || holds y p).
Proof.
  intros E1 Hm1 E2 Hm2. cbn [calculate_initial_matchlist_1]. rewrite E1. res_cbn. cbn [negb]. rewrite E2. res_cbn. cbn [negb].
  unfold plain_matches. rewrite (finds_upright _ _ Hm1), (finds_upright _ _ Hm2). res_cbn. cbn [fst snd negb].
  destruct (finds_union m1 m2 _ _ Hm1 Hm2) as (m & E & Hm). rewrite E. res_cbn. cbn [fst snd]. change (1 =? 0) with false. cbv iota. eexists. split; [reflexivity |]. by apply finds_fields.
Qed.

Lemma not_found x m1 : first_matches x init_matchlist true = Ok (true, m1, true) -> finds m1 (holds x) ->
  exists m, first_matches (bnode b_not (Some x) None) init_matchlist true = Ok (true, m, true) /\ finds m (fun p => negb (holds x p)).
Proof.
  intros E Hm1. cbn [calculate_initial_matchlist_1]. rewrite E. res_cbn. destruct (finds_complement m1 _ Hm1) as (m2 & E2 & Hm2). rewrite E2. res_cbn. cbn [fst snd].
  change (1 =? 0) with false. cbv iota. destruct (finds_reduce m2 _ Hm2) as (m3 & -> & Hm3). res_cbn. by exists m3.
Qed.

Lemma initial_found c : indexed c -> exists m, first_matches c init_matchlist true = Ok (true, m, true) /\ finds m (holds c).
Proof.
  revert c. fix IH 1. intros c Hc. pose proof (indexed_plain c Hc) as Hp. destruct c as [op x y|v| | | | | | | |a l neg n items del|]; try done.
  - destruct op; try done.
    + destruct x as [x|], y as [y|]; try done. destruct Hc as [Hx Hy]. destruct (IH x Hx) as (m1 & E1 & H1). exact (and_found x y m1 Hy E1 H1).
    + destruct x as [x|], y as [y|]; try done. destruct Hc as [Hx Hy]. destruct (IH x Hx) as (m1 & E1 & H1). destruct (IH y Hy) as (m2 & E2 & H2). exact (or_found x y m1 m2 E1 H1 E2 H2).
    + exact (scan_found _ Hp).
    + destruct x as [x|], y as [y|]; try done. destruct (IH x Hc) as (m1 & E1 & H1). exact (not_found x m1 E1 H1).
    + destruct x as [[| | | |l [b|] del| | | | | |]|]; try done; destruct l; try done. destruct y as [[]|]; try done. destruct Hc as [Ha Hpat]. exact (leaf_matches_found _ _ _ _ _ (or_introl eq_refl) Ha Hpat).
    + destruct x as [[| | | |l [b|] del| | | | | |]|]; try done; destruct l; try done. destruct y as [[]|]; try done. destruct Hc as [Ha Hpat]. exact (leaf_matches_found _ _ _ _ _ (or_intror eq_refl) Ha Hpat).
    + destruct x as [[| | | | |l attr del| | | | |]|]; try done. exact (scan_found _ Hp).
  - cbn [indexed] in Hc. rewrite Hc. eexists. split; [reflexivity |]. by apply finds_none.
  - destruct l; [done |]. destruct Hc as (Ha & _ & Hv). exact (idlist_matches_found a neg n items del Ha Hv).
Qed.

(** The positions of the query's corpus where the condition holds. *)
Lemma initial_ok c : indexed c -> exists m l, calculate_initial_matchlist garbage realloc0 (Some N) N (Some c) init_matchlist corpus true = Ok (true, m, true) /\
  has_positions m l /\ forall p, p ∈ l <-> 0 <= p < N /\ in_corpus p = true /\ holds c p = true.
Proof.
  intros Hc. destruct (initial_found c Hc) as (m & E & l & H & Hl). unfold calculate_initial_matchlist. rewrite E. res_cbn. rewrite (finds_upright m (holds c)) by (by exists l). res_cbn. cbn [fst snd].
  destruct (hp_offrange garbage realloc0 N Hgarbage HN Hrealloc corpus W Hapart Hpos m l H) as (m' & -> & H'). res_cbn. exists m'. eexists. split; [reflexivity |]. split; [exact H' |].
  intros p. rewrite list_elem_of_filter. split.
  - intros [Hin Hp]. destruct (hp_sorted N HN m l H) as (_ & Hf & _). rewrite list.Forall_forall in Hf. pose proof (Hf p Hp). cbn in *. repeat split; try lia; [done |]. by apply Hl.
  - intros (Hp & Hin & Hh). split; [done |]. by apply Hl.
Qed.
End InitialSets.
