(* ===== verification/InitialMatchlist.v ===== *)
(** * The first matches of a condition: what [calculate_initial_matchlist] finds

    An index for the sample corpus of EvalSample, and the theorem on the match list of a
    condition. *)

From Stdlib Require Import ZArith Lia Sorted.
From stdpp Require Import base tactics option sets list numbers.
From S2P Require Import Prelude.
From S2P Require Import CDA.
From S2P Require Import Matchlist.
From S2P Require Import MatchlistRows.
From S2P Require Import MatchlistSets.
From S2P Require Import Ranges.
From S2P Require Import RangesMatch.
From S2P Require Import Symtab.
From S2P Require Import Eval.
From S2P Require Import EvalSample.
From S2P Require Import EvalConditions.
From S2P Require Import InitialMatches.
From S2P Require Import InitialSets.

Open Scope Z_scope.

(** ** An index of the sample corpus, for [types] words *)
Section Sample.
Context (tokens : list Z) (types : Z) (regions : list (Z * Z)).
#[local] Existing Instance sample_access.

Fixpoint in_pairs (flat : list Z) (p : Z) : bool :=
  match flat with s :: e :: flat => ((s <=? p) && (p <=? e)) || in_pairs flat p | _ => false end.

Definition positions (P : Z -> bool) : option (list Z) * Z :=
  let l := filter (fun p => P p = true) (seqZ 0 (zlen tokens)) in (if zlen l =? 0 then None else Some l, zlen l).

#[export] Instance sample_index : Index bool Empty_set := {
  default_attribute := Some false;
  str2id a s := match s with [x] => if (97 <=? x) && (x <? 97 + types) then (x - 97, true) else (-1, false) | _ => (-1, false) end;
  idlist2cpos a ids := positions (fun p => bool_decide ((token_at tokens p).1 ∈ ids));
  id2cpos a i flat n := positions (fun p => ((token_at tokens p).1 =? i) && in_pairs flat p);
  regex2id a s canon := (None, 0);
  max_cpos a := zlen tokens;
  max_id a := types;
  max_struc a := if a then zlen regions else 0
}.

Lemma in_pairs_ok rs p : in_pairs (rs ≫= (fun r => [rstart r; rend r])) p = true <-> Exists (fun r => rstart r <= p <= rend r) rs.
Proof.
  induction rs as [|r rs IH]; cbn; [by rewrite Exists_nil |]. rewrite orb_true_iff, IH, Exists_cons, andb_true_iff, !Z.leb_le. tauto.
Qed.

Lemma positions_ok P : exists l, positions P = (if zlen l =? 0 then None else Some l, zlen l) /\ StronglySorted Z.lt l /\ forall p, p ∈ l <-> 0 <= p < zlen tokens /\ P p = true.
Proof.
  eexists. split; [reflexivity |]. split; [apply sorted_filter, seqZ_sorted |]. intros p. rewrite list_elem_of_filter, elem_of_seqZ. intuition lia.
Qed.

Lemma sample_index_laws : Forall (fun i => 0 <= i < types) tokens ->
  @IndexLaws bool Empty_set Empty_set (sample_access tokens regions) sample_index (zlen tokens) negb (fun _ _ _ => False).
Proof.
  intros Ht. split.
  - by exists false.
  - done.
  - intros [|] p Ha Hp; [done |]. cbn. unfold token_at. destruct (aget_some tokens p) as [i E]; [done |]. rewrite E. exists (Z.min i INT_MAX), [97 + Z.min i INT_MAX].
    split; [done |]. split; [| done]. apply aget_Ok in E as [_ E]. pose proof (proj1 (Forall_lookup _ _) Ht _ _ E). unfold INT_MAX. cbn in *. lia.
  - intros [|] s i Ha Hi E; [done |]. change (0 <= i < types) in Hi. injection E as <-. cbn [str2id sample_index]. rewrite (proj2 (Z.leb_le 97 (97 + i))), (proj2 (Z.ltb_lt (97 + i) (97 + types))) by lia. cbn [andb]. f_equal. lia.
  - intros [|] s i Ha; [done |]. cbn. destruct s as [|x [|y s]]; try done. destruct ((97 <=? x) && (x <? 97 + types)) eqn:E; [| done]. intros [= <-] _.
    apply andb_prop in E as [H1%Z.leb_le H2%Z.ltb_lt]. split; [lia |]. do 3 f_equal. lia.
  - intros [|] ids Ha Hv _; [done |]. cbn. destruct (positions_ok (fun p => bool_decide ((token_at tokens p).1 ∈ ids))) as (l & -> & Hs & Hl). exists l. split; [done |]. split; [done |].
    intros p. by rewrite Hl, bool_decide_eq_true.
  - intros [|] i rs Ha Hi _ _; [done |]. cbn [id2cpos sample_index]. destruct (positions_ok (fun p => ((token_at tokens p).1 =? i) && in_pairs (rs ≫= (fun r => [rstart r; rend r])) p)) as (l & -> & Hs & Hl).
    exists l, (negb (zlen l =? 0)). split; [by destruct (zlen l =? 0) |]. split; [intros Hz%negb_false_iff%Z.eqb_eq; by apply zlen_0_nil |]. split; [done |].
    intros p. rewrite Hl, andb_true_iff, Z.eqb_eq, in_pairs_ok. done.
  - intros a s canon [].
Qed.
End Sample.

(** C7. The first matches of a condition: for every condition that is built from comparisons of
    positional attributes with strings, regular expressions, types or sorted lists of types, tests whether the
    token is inside a region, and boolean connectives (the second part of a conjunction and both parts of an implication may be any
    [plain] condition, whatever the index knows of it), [calculate_initial_matchlist] succeeds on an
    empty match list, and the list it returns holds, in order, exactly the positions of the query's corpus where
    [eval_bool] returns true; [eval_bool] returns an answer for every position.  No assertion fails, and nothing outside an array is read or
    written.  Other conditions (comparisons of two attributes, function calls, labels, constants that are true) are not covered. *)
Theorem calculate_initial_matchlist_exact {Attr Rx Fl : Type} `{EqDecision Attr} `{!Access Attr Rx Fl} `{!AccessLaws Attr Rx Fl} `{!Index Attr Rx}
  (N : Z) (positional : Attr -> bool) (compiled : list Z -> Z -> Rx -> Prop) `{!IndexLaws Attr Rx Fl N positional compiled}
  (garbage : Z -> list Z) (realloc0 : option (list Z)) (corpus : CorpusList) (c : Constraint Attr Rx Fl) :
  (forall n, 0 <= n -> zlen (garbage n) = n) -> (forall l, realloc0 = Some l -> zlen l = 0) -> 0 < N /\ 2 * N <= INT_MAX -> wf corpus -> StronglySorted apart (ranges corpus) -> 0 < csize corpus ->
  indexed positional compiled c -> let st := mkEst None true in
  (forall p, eval_bool (Some c) p st = Ok (holds c p, st)) /\
  exists m l, calculate_initial_matchlist garbage realloc0 (Some N) N (Some c) init_matchlist corpus true = Ok (true, m, true) /\
    has_positions N m l /\ forall p, p ∈ l <-> 0 <= p < N /\ in_corpus corpus p = true /\ eval_bool (Some c) p st = Ok (true, st).
Proof.
  intros Hg Hr HN W Ha Hs Hc st. assert (forall p, eval_bool (Some c) p st = Ok (holds c p, st)) as E by (intros p; by apply eval_plain, (indexed_plain positional compiled)).
  split; [done |]. destruct (initial_ok N positional compiled garbage realloc0 Hg ltac:(lia) Hr corpus W Ha ltac:(lia) Hs c Hc) as (m & l & Em & H & Hl).
  exists m, l. split; [done |]. split; [done |]. intros p. rewrite Hl, E. split; intros (Hp & Hi & Hh); (split; [done |]); (split; [done |]); [by rewrite Hh | by injection Hh].
Qed.

(** [(b | inside a region) & !(a)] on the first three and the last two tokens of [a b a b b a], with one region: the positions 1 and 4. *)
Definition sample_conjunction : Constraint bool Empty_set Empty_set :=
  let word s := Some (bnode cmp_eq (Some (pa_ref None (Some false) false)) (Some (string_leaf 0 (NORMAL s)))) in
  bnode b_and (Some (bnode b_or (word [98]) (Some (bnode cmp_ex (Some (sa_ref None true false)) None)))) (Some (bnode b_not (word [97]) None)).

Definition sample_corpus : CorpusList := mkCL SUB false false (Some [mkRange 0 2; mkRange 4 5]) 2 None None None.

Lemma calculate_initial_matchlist_exact_witness : let access := sample_access (map Z.abs [0; 1; 0; 1; 1; 0]) [(0, 1)] in
  let index := sample_index [0; 1; 0; 1; 1; 0] 2 [(0, 1)] in let st := mkEst None true in exists m l,
  calculate_initial_matchlist (fun n => repeat 7 (Z.to_nat n)) None (Some 6) 6 (Some sample_conjunction) init_matchlist sample_corpus true = Ok (true, m, true) /\
  has_positions 6 m l /\ (forall p, p ∈ l <-> 0 <= p < 6 /\ in_corpus sample_corpus p = true /\ eval_bool (Some sample_conjunction) p st = Ok (true, st)) /\
  filter (fun p => in_corpus sample_corpus p && holds sample_conjunction p = true) (seqZ 0 6) = [1; 4].
Proof.
  intros access index st. destruct (@calculate_initial_matchlist_exact bool Empty_set Empty_set _ access (sample_laws [0; 1; 0; 1; 1; 0] [(0, 1)]) index 6 negb (fun _ _ _ => False)
    (sample_index_laws [0; 1; 0; 1; 1; 0] 2 [(0, 1)] ltac:(repeat constructor; lia)) (fun n => repeat 7 (Z.to_nat n)) None sample_corpus sample_conjunction) as (_ & m & l & H1 & H2 & H3).
  - intros n Hn. unfold zlen. rewrite repeat_length. lia.
  - done.
  - unfold INT_MAX. lia.
  - split; try done. cbn. repeat constructor; cbn; lia.
  - repeat constructor; unfold apart; cbn; lia.
  - cbn. lia.
  - cbn. tauto.
  - exists m, l. split; [done |]. split; [done |]. split; [done |]. vm_compute. reflexivity.
Defined.
