(* ===== verification/Query.v ===== *)
(** * Running a query: cqp/eval.c, fourth part, and [do_StandardQuery] of cqp/parse_actions.c

    [simulate_dfa] runs the automaton of a query: for every transition from its first state it
    collects the first matches, simulates the automaton from there, and unites the results; the
    matches then have to satisfy the constraints on aligned corpora, and become the ranges of the query's
    corpus.  [do_StandardQuery] applies the matching strategy and the cut.

    The environment 0 is [env], the others are a list ([eep] is its length).  The vectors of
    the simulation are parameters, since what a simulation leaves in them is overwritten before it is read (see
    Simulate): [vectors e p] is what they contain before the simulation number [p] of
    environment [e].  The progress bar, debugging output and messages are left out. *)

From Stdlib Require Import ZArith Lia String.
From stdpp Require Import base tactics option list numbers.
From S2P Require Import Prelude.
From S2P Require Import Regex2dfa.
From S2P Require Import Matchlist.
From S2P Require Import Bitfields.
From S2P Require Import Ranges.
From S2P Require Import Symtab.
From S2P Require Import Eval.
From S2P Require Import Simulate.
From S2P Require Import InitialMatches.

Open Scope Z_scope.

(** cl_cpos2alg, and the target region of cl_alg2cpos unless it fails. *)
Class AlignAccess (Attr : Type) := {
  cpos2alg : Attr -> Z -> Z;
  alg2cpos : Attr -> Z -> option (Z * Z)
}.

(** The environment of a constraint on an aligned corpus. *)
Record AlignedEnvironment (Attr Rx Fl : Type) := mkAligned {
  environment : EvalEnvironment Attr Rx Fl;
  aligned : Attr;
  negated : Z
}.
Arguments mkAligned {Attr Rx Fl}.
Arguments environment {Attr Rx Fl}.
Arguments aligned {Attr Rx Fl}.
Arguments negated {Attr Rx Fl}.

(** ** Results as ranges of a corpus *)

(** [rp], [mp]. *)
Definition keep_round (m : Matchlist) (st : CorpusList * Z * Z) : res (CorpusList * Z * Z + CorpusList) :=
  let '(cp, rp, mp) := st in
  if rp <? csize cp then
    if mp <? tabsize m then
      x ← oget (start m) mp; r ← get_range cp rp;
      if rstart r <=? x then
        out ← (if rend r <? x then Ok true else e ← oget (ends m) mp; Ok (rend r <? e));
        cp ← (if (out : bool) then set_start cp rp (-1) else Ok cp);
        Ok (inl (cp, rp + 1, mp))
      else Ok (inl (cp, rp, mp + 1))
    else cp ← set_start cp rp (-1); Ok (inl (cp, rp + 1, mp))
  else Ok (inr cp).

Definition range_round (m : Matchlist) (i : Z) (l : list Range) : res (list Range) :=
  x ← oget (start m) i; y ← oget (ends m) i; aset l i (mkRange x y).

Section Query.
Context {Attr Rx Fl : Type} `{EqDecision Attr} `{!Access Attr Rx Fl} `{!Index Attr Rx} `{!AlignAccess Attr}.

(** Memory: see Matchlist and Ranges.  [corpus_size] is what [Setop] reads with cl_max_cpos. *)
Context (malloc0 realloc0 : bool) (garbage : Z -> list Z) (corpus_size : option Z).
Context (strict_regions : bool) (rounds : positive) (vectors : nat -> Z -> sim).

Abbreviation Setop m op m2 := (Setop garbage (if realloc0 then Some [] else None) corpus_size m op m2).

(** The corpus; the arrays of targets and keywords move into it. *)
Definition set_corpus_matchlists (cp : CorpusList) (m : Matchlist) (keep_old_ranges : bool) : res CorpusList :=
  if keep_old_ranges then
    cp ← loop (keep_round m) fuel (mkCL (ctype cp) (saved cp) (needs_update cp) (range cp) (csize cp) None (targets cp) (keywords cp), 0, 0);
    r ← RangeSetop malloc0 realloc0 cp RReduce None None; Ok r.1
  else
    l ← (if 0 <? tabsize m then
           l ← for_up (range_round m) 0 (tabsize m) ((fun v => mkRange v v) <$> garbage (tabsize m)); Ok (Some l)
         else Ok None);
    Ok (mkCL (ctype cp) (saved cp) (needs_update cp) l (tabsize m) None (target_positions m) (keyword_positions m)).

(** [EvaluationIsRunning] is not a part of the vectors. *)
Definition start_vectors (v : sim) (is_run : bool) : sim :=
  mkSim (Simulate.state_vector v) (target_vector v) (reftab_vector v) (reftab_target_vector v) (running_states v) (winner v) (my_target v) (my_keyword v) is_run.

(** ** Constraints on aligned corpora *)

(** The aligned text of the region of a position. *)
Definition aligned_region (a : Attr) (x : Z) : option (Z * Z) := let alg := cpos2alg a x in if alg <? 0 then None else alg2cpos a alg.

(** The constraint for one match. *)
Definition constraint_round (e : nat) (al : AlignedEnvironment Attr Rx Fl) (mlp : Z) (st : Matchlist * bool) : res (Matchlist * bool) :=
  let '(ml, is_run) := st in
  let no_match ml is_run := l ← oset (start ml) mlp (-1); Ok (with_start ml l, is_run) in
  x ← oget (start ml) mlp;
  if x =? -1 then Ok st
  else
    match aligned_region (aligned al) x with
    | None => no_match ml is_run
    | Some (as_, _) =>
        y ← oget (ends ml) mlp;
        match aligned_region (aligned al) y with
        | None => no_match ml is_run
        | Some (_, ae) =>
            if (ae <? as_) || (ae <? 0) || (as_ <? 0) then no_match ml is_run
            else
              n ← c_int (ae - as_ + 1);
              stop ← c_int (ae + 1);
              l ← for_up (fun i l => aset l (i - as_) i) as_ stop (garbage n);
              s ← simulate strict_regions (environment al) rounds (mkML (Some l) (Some l) None None n false false) 1 0 0 (start_vectors (vectors e mlp) is_run) (-1);
              if negb (s.1.2 =? negated al) then no_match ml s.2 else Ok (ml, s.2)
        end
    end.

Fixpoint constraint_rounds (e : nat) (l : list (AlignedEnvironment Attr Rx Fl)) (st : Matchlist * bool) : res (Matchlist * bool) :=
  match l with
  | [] => Ok st
  | al :: l => st ← for_up (constraint_round e al) 0 (tabsize st.1) st; constraint_rounds (S e) l st
  end.

Definition check_alignment_constraints (alignments : list (AlignedEnvironment Attr Rx Fl)) (ml : Matchlist) (is_run : bool) : res (Matchlist * bool) :=
  match alignments with [] => Ok (ml, is_run) | _ => constraint_rounds 1 alignments (ml, true) end.

(** ** The simulation from all first transitions *)
Context (env : EvalEnvironment Attr Rx Fl) (alignments : list (AlignedEnvironment Attr Rx Fl)).

Abbreviation table := (dfa env).

Definition first_target (p : Z) : res Z := row ← aget (TransTable table) 0; aget row p.

Definition count_transitions : res Z :=
  for_up (fun p n => t ← first_target p; Ok (if negb (t =? E_State table) then n + 1 else n)) 0 (Max_Input table) 0.

(** [reset_reftab] for all tables of both vectors. *)
Definition reset_tabs (i : Z) (v : sim) : res sim :=
  t ← aget (reftab_vector v) i; t ← reset_reftab t; rv ← aset (reftab_vector v) i t;
  u ← aget (reftab_target_vector v) i; u ← reset_reftab u; rtv ← aset (reftab_target_vector v) i u;
  Ok (mkSim (Simulate.state_vector v) (target_vector v) rv rtv (running_states v) (winner v) (my_target v) (my_keyword v) (is_running v)).

(** An array of -1. *)
Definition no_positions (n : Z) : res (option (list Z)) :=
  l ← for_up (fun i l => aset l i (-1)) 0 n (garbage n); Ok (Some l).

(** The match list of one transition, and the union of all before; [deterministic]: there is only one. *)
Definition transition_round (cut : Z) (deterministic : bool) (p : Z) (st : Matchlist * Matchlist * bool) : res (Matchlist * Matchlist * bool) :=
  let '(m, total, is_run) := st in
  if is_run then
    state ← first_target p;
    if state =? E_State table then Ok st
    else
      v ← (match labels env with
           | Some _ => for_up reset_tabs 0 (Max_States table) (start_vectors (vectors 0 p) is_run)
           | None => Ok (start_vectors (vectors 0 p) is_run)
           end);
      pattern ← aget (patternlist env) p;
      k ← matchfirstpattern malloc0 garbage (if realloc0 then Some [] else None) corpus_size (mother_size env) pattern m (query_corpus env) is_run;
      let '(ok, m, is_run) := k in
      st ← (if (ok : bool) then
              if 0 <? tabsize m then
                s ← deref (start m);
                e ← copy_array (Some s) (tabsize m);
                t ← (if has_target_indicator env then no_positions (tabsize m) else Ok (target_positions m));
                w ← (if has_keyword_indicator env then no_positions (tabsize m) else Ok (keyword_positions m));
                let maxresult := if (cut <=? 0) || negb (bool_decide (alignments = [])) then -1 else cut in
                r ← simulate strict_regions env rounds (mkML (start m) e t w (tabsize m) (matches_whole_corpus m) (is_inverted m)) maxresult 0 0 (start_vectors v is_run) p;
                m ← Setop r.1.1 Reduce init_matchlist;
                let m := m.1.2 in
                u ← (if deterministic then Ok (total, m) else u ← Setop total Union m; Ok (u.1.2, u.2));
                Ok (u.2, u.1, r.2)
              else Ok (m, total, is_run)
            else Ok (m, total, false));
      let '(m, total, is_run) := st in
      Ok (if deterministic then m else free_matchlist m, total, is_run)
  else Ok st.

(** [query_corpus] afterwards. *)
Definition simulate_dfa (cut : Z) (keep_old_ranges : bool) : res CorpusList :=
  trans_count ← count_transitions;
  let deterministic := trans_count =? 1 in
  final ← aget (Final table) 0;
  if (final : bool) then set_corpus_matchlists (query_corpus env) init_matchlist false
  else if csize (query_corpus env) =? 0 then Ok (query_corpus env)
  else
    st ← for_up (transition_round cut deterministic) 0 (Max_Input table) (init_matchlist, init_matchlist, true);
    let '(m, total, is_run) := st in
    a ← check_alignment_constraints alignments (if deterministic then m else total) is_run;
    s ← Setop a.1 Reduce init_matchlist;
    set_corpus_matchlists (query_corpus env) s.1.2 keep_old_ranges.

Definition cqp_run_query (hard_cut cut : Z) (keep_old_ranges : bool) : res CorpusList :=
  simulate_dfa (if (0 <? hard_cut) && (hard_cut <? cut) then hard_cut else cut) keep_old_ranges.
End Query.

(** ** Removing lines of a result: cqp/ranges.c *)
Inductive lines_mode := ALL_LINES | SELECTED_LINES | UNSELECTED_LINES.

#[export] Instance lines_mode_eq_dec : EqDecision lines_mode.
Proof. solve_decision. Defined.

Definition delete_line (intervals : Bitfield) (mode : lines_mode) (i : Z) (st : CorpusList * Z) : res (CorpusList * Z) :=
  let '(cp, modified) := st in
  bit ← get_bit intervals i;
  if (bool_decide (mode = SELECTED_LINES) && negb (bit =? 0)) || (bool_decide (mode = UNSELECTED_LINES) && (bit =? 0)) then
    cp ← set_range cp i (mkRange (-1) (-1)); Ok (cp, modified + 1)
  else Ok st.

(** The corpus and the result; a subcorpus is not saved ([auto_save]). *)
Definition delete_intervals (malloc0 realloc0 : bool) (cp : CorpusList) (intervals : Bitfield) (mode : lines_mode) : res (CorpusList * Z) :=
  if negb (bool_decide (ctype cp = SUB) || bool_decide (ctype cp = TEMP)) || (csize cp <=? 0) then Ok (cp, 0)
  else
    b ← deref intervals;
    _ ← c_assert (elements b =? csize cp);
    st ← (if bool_decide (mode = ALL_LINES) then Ok (cp, csize cp) else for_up (delete_line intervals mode) 0 (csize cp) (cp, 0));
    let '(cp, modified) := st in
    if negb (modified =? 0) then
      cp ← (if modified =? csize cp then Ok (mkCL (ctype cp) (saved cp) (needs_update cp) None 0 None None None)
            else r ← RangeSetop malloc0 realloc0 (mkCL (ctype cp) (saved cp) (needs_update cp) (range cp) (csize cp) None (targets cp) (keywords cp)) RReduce None None; Ok r.1);
      Ok (touch_corpus cp, 1)
    else Ok (cp, 1).

(** ** The query *)

Definition find_matching_strategy (s : list Z) : option matching_strategy :=
  if strcaseeq s (chars "traditional"%string) then Some traditional
  else if strcaseeq s (chars "shortest"%string) then Some shortest_match
  else if strcaseeq s (chars "standard"%string) then Some standard_match
  else if strcaseeq s (chars "longest"%string) then Some longest_match
  else None.

Definition with_strategy {Attr Rx Fl : Type} (env : EvalEnvironment Attr Rx Fl) (s : matching_strategy) : EvalEnvironment Attr Rx Fl :=
  mkEnv Attr Rx Fl (query_corpus env) (mother_size env) (labels env) (patternlist env) (gconstraint env) (dfa env) (has_target_indicator env) (target_label env)
    (has_keyword_indicator env) (keyword_label env) (match_label env) (matchend_label env) (search_context env) s.

Section StandardQuery.
Context {Attr Rx Fl : Type} `{EqDecision Attr} `{!Access Attr Rx Fl} `{!Index Attr Rx} `{!AlignAccess Attr}.
Context (malloc0 realloc0 : bool) (garbage : Z -> list Z) (corpus_size : option Z).
Context (strict_regions : bool) (rounds : positive) (vectors : nat -> Z -> sim).

(** The selected ranges. *)
Definition apply_strategy (res_ : CorpusList) (s : matching_strategy) : res CorpusList :=
  match s with
  | shortest_match => r ← RangeSetop malloc0 realloc0 res_ RMinimalMatches None None; Ok r.1
  | standard_match => r ← RangeSetop malloc0 realloc0 res_ RLeftMaximalMatches None None; Ok r.1
  | longest_match => r ← RangeSetop malloc0 realloc0 res_ RMaximalMatches None None; Ok r.1
  | traditional => Ok res_
  end.

(** The first [cut_value] ranges. *)
Definition apply_cut (res_ : CorpusList) (cut_value : Z) : res CorpusList :=
  if (0 <? cut_value) && (cut_value <? csize res_) then
    lines ← create_bitfield malloc0 garbage (csize res_);
    lines ← for_up (fun i b => r ← set_bit b i; Ok r.1) 0 cut_value (Some lines);
    r ← delete_intervals malloc0 realloc0 res_ lines UNSELECTED_LINES; Ok r.1
  else Ok res_.

(** [eep >= 0] if the environment 0 is there; [current_type] is the type of [current_corpus]. *)
Definition do_StandardQuery (parseonly generate_code has_evaltree : bool) (current_type : CorpusType) (hard_cut : Z)
  (env : EvalEnvironment Attr Rx Fl) (alignments : list (AlignedEnvironment Attr Rx Fl)) (cut_value keep_flag : Z) (modifier : option (list Z)) : res (option CorpusList) :=
  let '(generate_code, env) :=
    match modifier with
    | None => (generate_code, env)
    | Some s => match find_matching_strategy s with Some code => (generate_code, with_strategy env code) | None => (false, env) end
    end in
  if parseonly || negb generate_code || negb has_evaltree then Ok None
  else
    let keep_flag := if (keep_flag =? 1) && negb (bool_decide (current_type = SUB)) then 0 else keep_flag in
    r ← cqp_run_query malloc0 realloc0 garbage corpus_size strict_regions rounds vectors env alignments hard_cut cut_value (negb (keep_flag =? 0));
    r ← apply_strategy r (strategy env);
    r ← apply_cut r cut_value;
    Ok (Some r).
End StandardQuery.
