(* ===== verification/QueryRun.v ===== *)
(** * A query over tokens: from the first matches to the matches

    [rows_of]: a match list whose arrays have [tabsize] cells is a list of rows.  [has_spans]: the list holds pairs of
    a start and an end, in order; what the simulation, [Reduce] and [Union] make of it.

    [candidates]: the match list of one first column after the simulation holds the matches
    that the simulation finds from the positions where this column holds.  [simulate_dfa_ok]: the union over all
    first columns becomes the list of ranges. *)

From Stdlib Require Import ZArith Lia Sorted.
From stdpp Require Import base tactics option sets list numbers.
From S2P Require Import Prelude.
From S2P Require Import Regex2dfa.
From S2P Require Import RegexDfa.
From S2P Require Import Matchlist.
From S2P Require Import MatchlistSets.
From S2P Require Import Bitfields.
From S2P Require Import Ranges.
From S2P Require Import RangesMatch.
From S2P Require Import Symtab.
From S2P Require Import Eval.
From S2P Require Import EvalConditions.
From S2P Require Import Simulate.
From S2P Require Import SimulateTokens.
From S2P Require Import SimulateRun.
From S2P Require Import SimulateList.
From S2P Require Import SimulateMatches.
From S2P Require Import InitialMatches.
From S2P Require Import InitialSets.
From S2P Require Import Query.
From S2P Require Import MatchlistRows.

Open Scope Z_scope.

(** ** The sizes stay the same in a simulation *)
Section Simulated.
Context {Attr Rx Fl : Type} `{EqDecision Attr} `{!Access Attr Rx Fl}.
Context (strict_regions : bool) (env : EvalEnvironment Attr Rx Fl) (rounds : positive).

Definition sizes (n : Z) (o : outer) : Prop := zlen (starts o) = n /\ zlen (ends_ o) = n /\ sized n (target_positions_ o) /\ sized n (keyword_positions_ o).

Lemma set_field_sized n a i x v : sized n a -> gives (sized n) (set_field a i x v).
Proof.
  intros Ha. unfold set_field. destruct a as [l|]; [| by apply gives_Ok]. eapply gives_bind; [apply gives_aset_size; by apply Ha |]. intros l' Hl. by apply gives_Ok, sized_Some.
Qed.

Lemma match_round_sizes n start_state start_offset start_transition ts o : sizes n o ->
  gives (fun r => match r with inl o' => sizes n o' | inr o' => sizes n o' end) (match_round strict_regions env rounds start_state start_offset start_transition ts o).
Proof.
  intros (H1 & H2 & H3 & H4). unfold match_round. destruct (_ && _); [| by apply gives_Ok]. gives_skip. gives_skip. case_match.
  - eapply gives_bind; [by apply (gives_aset_size n) |]. intros l Hl. by apply gives_Ok.
  - gives_skip. case_match; [by apply gives_Ok |]. gives_skip. eapply gives_bind with (P := fun r => zlen r.1.1.1.1 = n /\ zlen r.1.1.1.2 = n).
    + case_match; [eapply gives_bind; [by apply (gives_aset_size n) |]; intros l Hl; by apply gives_Ok |]. gives_skip. case_match.
      * eapply gives_bind; [by apply (gives_aset_size n) |]. intros e He. by apply gives_Ok.
      * eapply gives_bind; [by apply (gives_aset_size n) |]. intros l Hl. by apply gives_Ok.
    + intros [[[[l e] c] marks] s] [Hl He]. gives_skip. eapply gives_bind; [by apply set_field_sized |]. intros t Ht. eapply gives_bind; [by apply set_field_sized |].
      intros k Hk. by apply gives_Ok.
Qed.

Lemma simulate_exact m cut0 start_state start_offset v start_transition : exact m ->
  gives (fun r => exact r.1.1) (simulate strict_regions env rounds m cut0 start_state start_offset v start_transition).
Proof.
  intros (H1 & H2 & H3 & H4). unfold simulate. gives_skip. gives_skip. eapply gives_bind with (P := fun l => zlen l = tabsize m).
  { destruct (start m); [apply gives_Ok; by apply H1 | apply gives_Err]. }
  intros l Hl. eapply gives_bind with (P := fun l => zlen l = tabsize m). { destruct (ends m); [apply gives_Ok; by apply H2 | apply gives_Err]. }
  intros e He. gives_skip. gives_skip. eapply gives_bind; [apply (gives_loop _ (sizes (tabsize m)) (sizes (tabsize m))); [intros o; apply match_round_sizes | done] |].
  intros o (O1 & O2 & O3 & O4). eapply gives_bind; [apply (gives_for_up _ (fun l => zlen l = tabsize m)); [intros i k; apply gives_aset_size | done] |].
  intros l' Hl'. apply gives_Ok. split; [by apply sized_Some |]. split; [by apply sized_Some | done].
Qed.
End Simulated.

(** ** Rows *)
Definition cell (a : option (list Z)) (j : nat) : Z := match a with Some l => l !!! j | None => 0 end.

Definition rows_of (m : Matchlist) : list row :=
  (fun j => Row (cell (start m) j) (cell (ends m) j) (cell (target_positions m) j) (cell (keyword_positions m) j)) <$> seq 0 (Z.to_nat (tabsize m)).

Lemma cells_of a n : sized n a -> (cell a <$> seq 0 (Z.to_nat n)) = default (cell a <$> seq 0 (Z.to_nat n)) a.
Proof.
  intros Ha. destruct a as [l|]; [| done]. cbn. apply list_eq. intros j. rewrite list_lookup_fmap. specialize (Ha l eq_refl). unfold zlen in Ha.
  destruct (decide (j < length l)%nat) as [Hj|Hj].
  - rewrite lookup_seq_lt by lia. cbn. symmetry. by apply list_lookup_lookup_total_lt.
  - rewrite lookup_seq_ge by lia. by rewrite lookup_ge_None_2 by lia.
Qed.

Lemma rows_of_column m (f : row -> Z) a n : sized n a -> n = tabsize m -> (forall j, f (Row (cell (start m) j) (cell (ends m) j) (cell (target_positions m) j) (cell (keyword_positions m) j)) = cell a j) ->
  a = column (is_some a) f (rows_of m).
Proof.
  intros Ha -> Hf. unfold rows_of, column. rewrite <- list_fmap_compose. rewrite (list_fmap_ext _ (cell a)) by (intros i x _; apply Hf).
  rewrite (cells_of a (tabsize m) Ha). by destruct a.
Qed.

Lemma rows_of_size m : 0 <= tabsize m -> zlen (rows_of m) = tabsize m.
Proof. intros Hn. unfold zlen, rows_of. rewrite length_fmap, length_seq. lia. Qed.

Lemma rows_of_repr m s : exact m -> start m = Some s -> repr m (rows_of m).
Proof.
  intros (H1 & H2 & H3 & H4) Hs. pose proof (H1 s Hs) as Hn. pose proof (zlen_nonneg s). split; [by rewrite rows_of_size by lia |]. right. exists [].
  rewrite app_nil_r. split; [| split; [| split]].
  - pose proof (rows_of_column m r_start _ _ H1 eq_refl ltac:(done)) as E. rewrite Hs in E at 2. rewrite Hs at 1. rewrite Hs in E. exact E.
  - by apply (rows_of_column m r_end _ _ H2).
  - by apply (rows_of_column m r_target _ _ H3).
  - by apply (rows_of_column m r_keyword _ _ H4).
Qed.

Lemma rows_of_at m j r : rows_of m !! j = Some r -> r = Row (cell (start m) j) (cell (ends m) j) (cell (target_positions m) j) (cell (keyword_positions m) j) /\ (j < Z.to_nat (tabsize m))%nat.
Proof. unfold rows_of. intros (k & -> & Hk)%list_lookup_fmap_Some. apply lookup_seq in Hk as [-> Hk]. split; [done | lia]. Qed.

(** ** Lists of spans *)
Section Spans.
Context (garbage : Z -> list Z) (realloc0 : option (list Z)) (corpus_size : option Z).
Hypothesis (Hgarbage : forall n, 0 <= n -> zlen (garbage n) = n) (Hrealloc : sized 0 realloc0).

Abbreviation Setop m op := (Setop garbage realloc0 corpus_size m op).

(** If there are starts, there are ends. *)
Definition closed (m : Matchlist) : Prop := start m = None \/ is_some (ends m) = true.

Definition has_spans (m : Matchlist) (ps : list (Z * Z)) : Prop := exists rows, repr m rows /\ key true <$> rows = ps /\ ordered true rows /\
  Forall (fun r => 0 <= r_start r) rows /\ is_inverted m = false /\ exact m /\ (ps = [] \/ is_some (ends m) = true).

Lemma spans_sorted m ps : has_spans m ps -> StronglySorted klt ps /\ Forall (fun p => 0 <= p.1) ps /\ tabsize m = zlen ps.
Proof.
  intros (rows & [Hn _] & <- & Ho & Hf & _). split; [done |]. split; [by apply Forall_fmap |]. rewrite Hn. unfold zlen. by rewrite length_fmap.
Qed.

Lemma live_all rows : Forall (fun r => 0 <= r_start r) rows -> live rows = rows.
Proof. induction 1 as [|r rows Hr _ IH]; [done |]. by rewrite live_cons, decide_True, IH by lia. Qed.

Lemma init_spans : has_spans init_matchlist [] /\ closed init_matchlist.
Proof.
  split; [| by left]. exists []. split; [split; [done | left; by repeat split] |]. split; [done |]. split; [constructor |]. split; [constructor |]. split; [done |]. split; [apply init_exact | by left].
Qed.

(** Rows that are there have ends. *)
Lemma shown m c rows : repr m rows -> cols_of m = c \/ freed m -> has_end c = true -> (rows = [] \/ is_some (ends m) = true) /\ closed m.
Proof.
  intros [_ Hr] [Hc|(Hs & _)] He.
  - subst c. cbn in He. split; [by right | by right].
  - split; [| by left]. destruct Hr as [[-> _]|(rest & Hs' & _)]; [by left | by rewrite Hs in Hs'].
Qed.

(** What [Reduce] leaves. *)
Lemma spans_reduce m rows : exact m -> repr m rows -> is_inverted m = false -> is_some (ends m) = true -> ordered true (live rows) ->
  Forall (fun r => -1 <= r_start r) rows -> exists m', Setop m Reduce init_matchlist = Ok (1, m', init_matchlist) /\ has_spans m' (key true <$> live rows) /\ closed m'.
Proof.
  intros Hx Hr Hv He Ho Hf. destruct (setop_reduce_ok garbage realloc0 m rows Hr) as (m' & E & Hr' & [_ Hc] & Hp & Hi).
  assert (Setop m Reduce init_matchlist = Ok (1, m', init_matchlist)) as ES by (unfold Matchlist.Setop; cbn [Setop_at]; rewrite E; by res_cbn).
  pose proof (Setop_exact garbage realloc0 corpus_size Hgarbage Hrealloc _ _ _ _ Hx init_exact ES) as Hx'. cbn [fst snd] in Hx'.
  destruct (shown m' (cols_of m) (live rows) Hr' Hc He) as [He' Hcl]. exists m'. split; [done |]. split; [| done].
  exists (live rows). split; [done |]. split; [done |]. split; [done |]. split; [| split; [| split; [done |]]].
  - rewrite !list.Forall_forall in *. intros r [Hr0 Hin]%list_elem_of_filter. specialize (Hf r Hin). cbn in Hf. lia.
  - pose proof (live_length rows). destruct (decide (zlen (live rows) = zlen rows)) as [Eq|Ne]; [by rewrite Hi | by apply Hp; lia].
  - destruct He' as [->|He']; [by left | by right].
Qed.

Lemma spans_no_start m ps : has_spans m ps -> start m = None -> ps = [].
Proof. intros (rows & [_ Hr] & <- & _) Hs. destruct Hr as [[-> _]|(rest & Hs' & _)]; [done | by rewrite Hs in Hs']. Qed.

Lemma spans_union m1 m2 ps1 ps2 : has_spans m1 ps1 -> closed m1 -> has_spans m2 ps2 -> closed m2 -> zlen ps1 + zlen ps2 <= INT_MAX ->
  exists m ps, Setop m1 Union m2 = Ok (1, m, m2) /\ has_spans m ps /\ closed m /\ (forall x, x ∈ ps <-> x ∈ ps1 \/ x ∈ ps2) /\ zlen ps <= zlen ps1 + zlen ps2.
Proof.
  intros S1 C1 S2 C2 Hn. destruct S1 as (rows1 & R1 & Hk1 & O1 & F1 & V1 & X1 & E1) eqn:ES1. destruct S2 as (rows2 & R2 & Hk2 & O2 & F2 & V2 & X2 & E2) eqn:ES2. clear ES1 ES2.
  assert (exists m rows, Setop m1 Union m2 = Ok (1, m, m2) /\ repr m rows /\ ordered true rows /\ Forall (fun r => 0 <= r_start r) rows /\ is_inverted m = false /\
    (rows = [] \/ is_some (ends m) = true) /\ closed m /\ (forall x, x ∈ key true <$> rows <-> x ∈ ps1 \/ x ∈ ps2) /\ zlen rows <= zlen ps1 + zlen ps2) as (m & rows & E & R & O & F & V & Hend & C & Hx & Hl).
  { unfold Matchlist.Setop. cbn [Setop_at]. pose proof (zlen_nonneg ps1). pose proof (zlen_nonneg ps2). destruct (start m2) as [s2|] eqn:Es2; cycle 1.
    { rewrite V2. assert (ps2 = []) as -> by (by apply (spans_no_start m2)). exists m1, rows1. do 5 (split; [done |]). split; [destruct E1 as [E1|]; [left; rewrite E1 in Hk1; by destruct rows1 | by right] |].
      split; [done |]. rewrite Hk1. split; [set_solver |]. rewrite <- Hk1. unfold zlen. rewrite length_fmap. lia. }
    destruct (start m1) as [s1|] eqn:Es1; cycle 1.
    { rewrite V1. assert (ps1 = []) as -> by (by apply (spans_no_start m1)). destruct (setop_identity_ok m2 rows2 R2) as (m & -> & Hr & Hc & Hinv). res_cbn. exists m, rows2. split; [done |].
      do 3 (split; [done |]). split; [by rewrite Hinv |]. assert (is_some (ends m) = is_some (ends m2)) as Ee by (unfold cols_of in Hc; by injection Hc).
      destruct C2 as [C2|C2]; [congruence |]. split; [right; by rewrite Ee |]. split; [right; by rewrite Ee |]. rewrite Hk2. split; [set_solver |]. rewrite <- Hk2. unfold zlen. rewrite length_fmap. lia. }
    rewrite V1, V2. cbn [andb]. res_cbn. destruct C1 as [C1|C1]; [congruence |]. destruct C2 as [C2|C2]; [congruence |].
    assert (zlen rows1 + zlen rows2 <= INT_MAX) as Hn' by (rewrite <- Hk1, <- Hk2 in Hn; unfold zlen in *; rewrite !length_fmap in Hn; lia).
    destruct (union_merge_ok garbage realloc0 Hgarbage m1 m2 rows1 rows2 R1 R2 _ eq_refl Hn') as (m & -> & Hr & [_ Hc] & _ & Hinv). res_cbn.
    assert (has_end (both (cols_of m1) (cols_of m2)) = true) as He by (cbn; by rewrite C1, C2). unfold union_rows in Hr. rewrite He, !live_all in Hr by done.
    destruct (shown m _ _ Hr Hc He) as [Hend C]. exists m, (merge true rows1 rows2). split; [done |]. split; [done |]. split; [by apply merge_ordered |]. split; [| split; [done |]; split; [done |]; split; [done |]; split].
    - rewrite !list.Forall_forall in *. intros r [Hr0|Hr0]%merge_rows; auto.
    - intros x. by rewrite merge_elem, Hk1, Hk2.
    - pose proof (merge_length true rows1 rows2). rewrite <- Hk1, <- Hk2. unfold zlen in *. rewrite !length_fmap. lia. }
  exists m, (key true <$> rows). split; [done |]. split; [| split; [done |]; split; [done |]; unfold zlen in *; by rewrite length_fmap].
  exists rows. do 5 (split; [done |]). split; [exact (Setop_exact garbage realloc0 corpus_size Hgarbage Hrealloc _ _ _ _ X1 X2 E) |]. destruct Hend as [->|Hend]; [by left | by right].
Qed.

Lemma spans_again m ps : has_spans m ps -> exists m', Setop m Reduce init_matchlist = Ok (1, m', init_matchlist) /\ has_spans m' ps.
Proof.
  intros (rows & Hr & Hk & Ho & Hf & Hv & Hx & He). destruct (setop_reduce_ok garbage realloc0 m rows Hr) as (m' & E & Hr' & [_ Hc] & _ & Hi). rewrite live_all in * by done.
  assert (Setop m Reduce init_matchlist = Ok (1, m', init_matchlist)) as ES by (unfold Matchlist.Setop; cbn [Setop_at]; rewrite E; by res_cbn).
  exists m'. split; [done |]. exists rows. do 4 (split; [done |]). split; [by rewrite Hi |].
  split; [exact (Setop_exact garbage realloc0 corpus_size Hgarbage Hrealloc _ _ _ _ Hx init_exact ES) |]. destruct He as [He|He]; [by left |].
  destruct (shown m' _ _ Hr' Hc He) as [[->|He'] _]; [left; by rewrite <- Hk | by right].
Qed.

Lemma spans_arrays m ps : has_spans m ps -> ps <> [] -> start m = Some ps.*1 /\ ends m = Some ps.*2.
Proof.
  intros (rows & [Hn Hr] & <- & _ & _ & _ & Hx & He) Hne. destruct Hr as [[-> _]|(rest & H1 & H2 & _)]; [done |].
  assert (rest = []) as ->. { apply zlen_0_nil. pose proof (proj1 Hx _ H1) as Hl. rewrite Hn in Hl. unfold zlen in *. rewrite length_fmap, length_app in Hl. lia. }
  rewrite app_nil_r in *. destruct He as [He|He]; [done |]. rewrite H1, H2. unfold cols_of, column. cbn. rewrite He. split; f_equal; rewrite <- list_fmap_compose; by apply list_fmap_ext.
Qed.

(** ** Ranges *)
Definition to_range (p : Z * Z) : Range := mkRange p.1 p.2.

Lemma fill_list {A} (body : Z -> list A -> res (list A)) (t g : list A) : zlen g = zlen t -> (forall i l x, aget t i = Ok x -> body i l = aset l i x) -> for_up body 0 (zlen t) g = Ok t.
Proof.
  intros Hg Hb. destruct (for_up_rule body (fun i l => 0 <= i /\ l = take (Z.to_nat i) t ++ drop (Z.to_nat i) g) 0 (zlen t) g) as (l & -> & _ & ->); [apply zlen_nonneg | | done |].
  - intros i l Hi [_ ->]. destruct (aget_some t i Hi) as [x Ex]. rewrite (Hb i _ x Ex). apply aget_Ok in Ex as [_ Ex]. destruct (lookup_lt_is_Some_2 g (Z.to_nat i)) as [y Ey]; [unfold zlen in *; lia |].
    rewrite (drop_S g y) by done. rewrite aset_middle by (unfold zlen in *; rewrite length_take; lia). eexists. split; [done |]. split; [lia |].
    replace (Z.to_nat (i + 1)) with (S (Z.to_nat i)) by lia. rewrite (take_S_r t _ x Ex). by rewrite <- app_assoc.
  - f_equal. unfold zlen in *. rewrite Nat2Z.id, firstn_all, drop_ge by lia. by rewrite app_nil_r.
Qed.

(** The ranges of a corpus after [set_corpus_matchlists]. *)
Lemma set_corpus_ok malloc0 realloc1 cp m ps : has_spans m ps -> Forall (fun p => 0 <= p.1 <= p.2) ps -> zlen ps <= INT_MAX ->
  exists cp', set_corpus_matchlists malloc0 realloc1 garbage cp m false = Ok cp' /\ wf cp' /\ ranges cp' = to_range <$> ps /\ ctype cp' = ctype cp.
Proof.
  intros S Hp Hl. destruct (spans_sorted m ps S) as (_ & _ & Hn). pose proof (zlen_nonneg ps). unfold set_corpus_matchlists. rewrite Hn.
  pose proof S as (_ & _ & _ & _ & _ & _ & (_ & _ & X3 & X4) & _). rewrite Hn in X3, X4.
  assert (exists l, (if 0 <? zlen ps then l ← for_up (range_round m) 0 (zlen ps) ((fun v => mkRange v v) <$> garbage (zlen ps)); Ok (Some l) else Ok None) = Ok l /\ default [] l = to_range <$> ps) as (l & -> & Hr).
  { destruct (Z.ltb_spec 0 (zlen ps)) as [Hlt|Hge]; cycle 1. { exists None. split; [done |]. by rewrite (zlen_0_nil ps) by lia. }
    destruct (spans_arrays m ps S) as [Hs He]; [by intros -> |]. exists (Some (to_range <$> ps)). split; [| done].
    assert (zlen ps = zlen (to_range <$> ps)) as Ez by (unfold zlen; by rewrite length_fmap). rewrite Ez. rewrite (fill_list (range_round m) (to_range <$> ps)); [done | |].
    - unfold zlen at 1. rewrite length_fmap. apply Hgarbage. lia.
    - intros i k x [Hi Hx]%aget_Ok. apply list_lookup_fmap_Some in Hx as (y & -> & Hy). unfold range_round. rewrite Hs, He. unfold oget. cbn [deref]. rewrite !bind_Ok.
      assert (forall f : Z * Z -> Z, aget (f <$> ps) i = Ok (f y)) as Hget by (intros f; apply aget_Ok; split; [lia |]; rewrite list_lookup_fmap, Hy; done).
      rewrite !Hget. by rewrite !bind_Ok. }
  res_cbn. eexists. split; [reflexivity |]. split; [| by split].
  split; unfold ranges; cbn [range csize targets keywords]; rewrite ?Hr; try done; [unfold zlen; by rewrite length_fmap | apply Forall_fmap; exact Hp].
Qed.
End Spans.

(** ** Lists some of whose cells are deleted *)
Lemma masked_sorted l0 l : Forall2 (fun x y : Z => y = x \/ y = -1) l0 l -> StronglySorted Z.lt l0 -> StronglySorted Z.lt (filter (fun x => x <> -1) l).
Proof.
  induction 1 as [|x y l0 l Hxy H IH]; intros Hs; [constructor |]. apply StronglySorted_inv in Hs as [Hs Hx]. rewrite filter_cons. destruct (decide (y <> -1)) as [Hy|Hy]; [| by apply IH].
  destruct Hxy as [->|]; [| done]. constructor; [by apply IH |]. apply list.Forall_forall. intros z [Hz1 Hz]%list_elem_of_filter.
  apply list_elem_of_lookup in Hz as [j Hj]. destruct (Forall2_lookup_r _ _ _ _ _ H Hj) as (w & Hw & [->| ->]).
  - rewrite list.Forall_forall in Hx. apply Hx. by eapply list_elem_of_lookup_2.
  - done.
Qed.

Lemma sorted_le l : StronglySorted Z.lt l -> StronglySorted Z.le l.
Proof. intros H. apply sorted_aget. intros i j x y Hij Hi Hj. apply Z.lt_le_incl. by apply (proj1 (sorted_aget Z.lt l) H i j). Qed.

Lemma ordered_starts rows : StronglySorted Z.lt (r_start <$> rows) -> ordered true rows.
Proof.
  induction rows as [|r rows IH]; intros H; [constructor |]. rewrite fmap_cons in H. apply StronglySorted_inv in H as [Hs Hr]. unfold ordered. rewrite fmap_cons. constructor; [by apply IH |].
  apply list.Forall_forall. intros k (t & -> & Ht)%list_elem_of_fmap. left. cbn. apply (proj1 (list.Forall_forall _ _) Hr), list_elem_of_fmap. by exists t.
Qed.

Lemma starts_of_live rows : r_start <$> live rows = filter (fun x => x <> -1) (r_start <$> rows).
Proof. induction rows as [|r rows IH]; [done |]. rewrite live_cons, fmap_cons, filter_cons. case_decide; by rewrite ?fmap_cons, IH. Qed.

(** ** Matches *)
Section Matches.
Context {Attr Rx Fl : Type} `{!Access Attr Rx Fl}.
Context (env : EvalEnvironment Attr Rx Fl) (bnd : Z -> Z).
Abbreviation d := (dfa env).
Abbreviation hold := (holds_at env).
Abbreviation matched p := (SimulateList.matched env hold bnd p).

(** The automaton has a transition from its first state for the column. *)
Definition is_first (p : Z) : bool := negb (next d 0 p =? E_State d).


(** The tokens of the range are accepted by the automaton. *)
Definition is_match (r : Range) : Prop := matched (-1) (rstart r) (rend r).

Lemma spans_first boundary s e : spans env hold (-1) boundary s e <->
  exists p, 0 <= p < Max_Input d /\ is_first p = true /\ hold p s = true /\ spans env hold p boundary s e.
Proof.
  split.
  - intros (w & Hle & Hw & Hv & Ha). destruct w as [|p w]; [unfold zlen in Hw; cbn in Hw; lia |]. destruct (Hv 0%nat p eq_refl) as (Hp & Ht & _). exists p. split; [done |].
    split; [| split; [unfold test in Ht; cbn in Ht; by rewrite Z.add_0_r in Ht |]].
    + cbn [dfa_accepts] in Ha. unfold is_first, next. destruct (row ← aget (TransTable d) 0; aget row p) as [t|] eqn:E; [by apply andb_prop in Ha as [Ha _] | done].
    + exists (p :: w). do 2 (split; [done |]). split; [| done]. intros i q Hi. destruct (Hv i q Hi) as (H1 & H2 & H3). split; [done |]. split; [| done]. unfold test in *. destruct i as [|i]; [| done].
      cbn in *. rewrite (proj2 (Z.leb_le 0 p)) by lia. by injection Hi.
  - intros (p & Hp & _ & Hh & w & Hle & Hw & Hv & Ha). exists w. do 2 (split; [done |]). split; [| done]. intros i q Hi. destruct (Hv i q Hi) as (H1 & H2 & H3). split; [done |]. split; [| done].
    unfold test in *. destruct i as [|i]; [| done]. cbn in *. rewrite (proj2 (Z.leb_le 0 p)) in H2 by lia. rewrite Z.add_0_r. congruence.
Qed.

Lemma matched_first s e : matched (-1) s e <-> exists p, 0 <= p < Max_Input d /\ is_first p = true /\ hold p s = true /\ matched p s e.
Proof.
  split.
  - intros (r & Hr & Hs & (p & H1 & H2 & H3 & H4)%spans_first). exists p. do 3 (split; [done |]). by exists r.
  - intros (p & H1 & H2 & H3 & r & Hr & Hs & H4). exists r. do 2 (split; [done |]). apply spans_first. by exists p.
Qed.
End Matches.

Section QueryRun.
Context {Attr Rx Fl : Type} `{EqDecision Attr} `{!Access Attr Rx Fl} `{!AccessLaws Attr Rx Fl} `{!Index Attr Rx} `{!AlignAccess Attr}.
Context (positional : Attr -> bool) (compiled : list Z -> Z -> Rx -> Prop).
Context (env : EvalEnvironment Attr Rx Fl) (nl : Z) (bnd : Z -> Z).
Abbreviation d := (dfa env).
Abbreviation corpus := (query_corpus env).
Abbreviation N := (mother_size env).
Context `{!IndexLaws Attr Rx Fl N positional compiled}.
Context (malloc0 realloc0 : bool) (garbage : Z -> list Z) (strict_regions : bool) (rounds : positive) (vectors : nat -> Z -> sim).
Abbreviation no_memory := (if realloc0 then Some [] else None).
Hypothesis (Hgarbage : forall n, 0 <= n -> zlen (garbage n) = n).
Hypothesis (HN : 0 < N /\ 2 * N <= INT_MAX) (Hsum : Max_Input d * N <= INT_MAX).
Hypothesis (Q : plain_query env nl).
Hypothesis (W : wf corpus) (Hsize : 0 < csize corpus) (Hapart : StronglySorted apart (ranges corpus)) (Hend : forall r, r ∈ ranges corpus -> rend r < N).
Hypothesis (Hbnd : forall pos r, r ∈ ranges corpus -> rstart r <= pos <= rend r -> calculate_rightboundary N pos (search_context env) = Ok (bnd pos)).
Hypothesis (Hrounds : INT_MAX + 3 < Zpos rounds) (Hvectors : forall p, sim_ok env nl (start_vectors (vectors 0%nat p) true)).

Abbreviation hold := (holds_at env).
Abbreviation matched p := (matched env hold bnd p).
Abbreviation best_match p := (best_match env hold bnd p).
Abbreviation in_corpus := (in_corpus corpus).
Abbreviation is_first := (is_first env).
Abbreviation is_match := (is_match env bnd).

(** The first column is one that can be looked up. *)
Definition first_column (c : AVStructure Attr Rx Fl) : Prop :=
  match c with Pattern _ (Some b) _ _ => indexed positional compiled b | MatchAll _ _ _ => True | _ => False end.

Hypothesis (Hfirst : forall p c, 0 <= p < Max_Input d -> next d 0 p <> E_State d -> aget (patternlist env) p = Ok c -> first_column c).

Lemma no_memory_sized : sized 0 no_memory.
Proof. intros l. by destruct realloc0; intros [= <-]. Qed.

Abbreviation first_list c m := (matchfirstpattern malloc0 garbage no_memory (Some N) N c m corpus true).

Lemma first_list_ok c : first_column c -> exists m l, first_list c init_matchlist = Ok (true, m, true) /\ has_positions N m l /\
  forall q, 0 <= q < N -> in_corpus q = true -> q ∈ l <-> column_holds c q = true.
Proof.
  intros Hc. destruct c as [l t la|l [b|] t la|? ? ? ? ? ?|? ?]; try done; cbn [matchfirstpattern].
  - unfold get_matched_corpus_positions. cbn [start init_matchlist mbind res_bind]. destruct (il_default (Fl := Fl) (positional := positional)) as (a & -> & Ha). cbn [mbind res_bind].
    rewrite bool_decide_true by done. rewrite (il_size a Ha). destruct (whole_corpus_ok N garbage Hgarbage ltac:(lia) ltac:(lia) (set_inverted init_matchlist false)) as (m & -> & Hm); try done.
    cbn [mbind res_bind]. exists m, (seqZ 0 N). split; [done |]. split; [done |]. intros q Hq _. cbn. rewrite elem_of_seqZ. split; [done | lia].
  - destruct (initial_ok N positional compiled garbage no_memory Hgarbage ltac:(lia) no_memory_sized corpus W Hapart ltac:(lia) Hsize b Hc) as (m & k & -> & Hm & Hk).
    exists m, k. split; [done |]. split; [done |]. intros q Hq Hin. rewrite Hk. cbn. tauto.
Qed.

(** ** The matches from the positions of one list *)

(** The match that the simulation with the first column [p] finds. *)
Definition candidate (p : Z) (x : Z * Z) : Prop := hold p x.1 = true /\ matched p x.1 x.2 /\ best_match p x.1 x.2.

Lemma simulated_spans p l0 m m' ws l e : StronglySorted Z.lt l0 -> Forall (fun q => 0 <= q < N) l0 -> tabsize m = zlen l0 -> exact m' ->
  simulated env hold bnd p l0 (-1) m m' ws l e -> repr m' (rows_of m') /\ ordered true (live (rows_of m')) /\ Forall (fun r => -1 <= r_start r) (rows_of m') /\
  forall x, x ∈ key true <$> live (rows_of m') <-> x.1 ∈ l0 /\ matched p x.1 x.2 /\ best_match p x.1 x.2.
Proof.
  intros Hs Hf Hn Hx [[S1 S1'] [S2 S2'] S3 _ _ _ [S4 S5] _ S6]. rewrite Hn in S3. pose proof Hx as (X1 & X2 & _). specialize (X1 _ S1). specialize (X2 _ S2). rewrite S3 in X1, X2.
  assert (zlen ws = zlen l0) as Hws by (destruct (Z.lt_ge_cases (zlen ws) (zlen l0)) as [Hlt|]; [destruct (S6 Hlt); lia | lia]). clear S6.
  assert (forall (j : nat) pos, l0 !! j = Some pos -> exists w, ws !! j = Some w /\ best_match p pos w /\ l !! j = Some (if decide (0 <= w) then pos else -1) /\ (0 <= w -> e !! j = Some w)) as Hj.
  { intros j pos Hj. destruct (lookup_lt_is_Some_2 ws j) as [w Hw]; [apply lookup_lt_Some in Hj; unfold zlen in Hws; lia |]. exists w. split; [done |].
    destruct (S5 j pos w Hj Hw) as (H1 & H2 & H3). assert (kept (-1) ws j w <-> 0 <= w) as Hk by (unfold kept; intuition lia). split; [done |].
    rewrite H2. rewrite (decide_ext _ (0 <= w)) by done. split; [done |]. intros Hw0. by apply H3, Hk. }
  assert (r_start <$> rows_of m' = l) as Estart.
  { pose proof (rows_of_repr m' l Hx S1) as [_ Hr]. pose proof (rows_of_column m' r_start (start m') _ (proj1 Hx) eq_refl ltac:(done)) as E. rewrite S1 in E. by injection E. }
  assert (Forall2 (fun x y : Z => y = x \/ y = -1) l0 l) as Hmask.
  { apply Forall2_same_length_lookup_2; [unfold zlen in *; lia |]. intros j x y Hx0 Hy. destruct (Hj j x Hx0) as (w & _ & _ & El & _). rewrite El in Hy. injection Hy as <-. case_decide; [by left | by right]. }
  split; [by eapply rows_of_repr |]. split; [| split].
  - apply ordered_starts. rewrite starts_of_live, Estart. by eapply masked_sorted.
  - apply list.Forall_forall. intros r Hr. assert (r_start r ∈ l) as Hin by (rewrite <- Estart; by apply list_elem_of_fmap_2). apply list_elem_of_lookup in Hin as [j Hl].
    destruct (Forall2_lookup_r _ _ _ _ _ Hmask Hl) as (x & Hx0 & [->| ->]); [| lia]. pose proof (proj1 (Forall_lookup _ _) Hf _ _ Hx0). cbn in *. lia.
  - intros [x y]. cbn [fst snd]. split.
    + intros (r & Er & Hr)%list_elem_of_fmap. apply list_elem_of_filter in Hr as [Hr0 Hr]. apply list_elem_of_lookup in Hr as [j Hr]. apply rows_of_at in Hr as [-> Hlt]. cbn in Er, Hr0.
      rewrite S1, S2 in *. cbn in Er, Hr0. rewrite S3 in Hlt. destruct (lookup_lt_is_Some_2 l0 j) as [pos Hpos]; [unfold zlen in Hlt; lia |]. destruct (Hj j pos Hpos) as (w & _ & Hb & El & Ee).
      rewrite (list_lookup_total_correct _ _ _ El) in *. destruct (decide (0 <= w)) as [Hw|Hw]; [| lia]. rewrite (list_lookup_total_correct _ _ _ (Ee Hw)) in Er. injection Er as -> ->.
      split; [by eapply list_elem_of_lookup_2 |]. split; [| done]. destruct Hb as [[-> _]|[Hb _]]; [lia | done].
    + intros (Hin & Hm & Hb). apply list_elem_of_lookup in Hin as [j Hpos]. destruct (Hj j x Hpos) as (w & _ & Hb' & El & Ee).
      assert (w = y) as ->.
      { destruct Hb' as [[_ Hno]|[Hm' Hbest']]; [by apply Hno in Hm |]. destruct Hb as [[_ Hno]|[_ Hbest]]; [by apply Hno in Hm |]. specialize (Hbest w Hm'). specialize (Hbest' y Hm). destruct (longest env); lia. }
      pose proof (proj1 (Forall_lookup _ _) Hf _ _ Hpos) as Hrange. cbn in Hrange. assert (0 <= y) as Hy by (pose proof (matched_ge env hold bnd W p x y Hm); lia).
      rewrite decide_True in El by done. apply list_elem_of_fmap. exists (Row (cell (start m') j) (cell (ends m') j) (cell (target_positions m') j) (cell (keyword_positions m') j)).
      rewrite S1, S2. cbn. rewrite (list_lookup_total_correct _ _ _ El), (list_lookup_total_correct _ _ _ (Ee Hy)). split; [done |]. apply list_elem_of_filter. split; [cbn; lia |].
      unfold rows_of. apply list_elem_of_fmap. exists j. rewrite S1, S2. cbn. rewrite (list_lookup_total_correct _ _ _ El), (list_lookup_total_correct _ _ _ (Ee Hy)). split; [done |].
      apply elem_of_seq. rewrite S3. apply lookup_lt_Some in Hpos. unfold zlen. lia.
Qed.

(** ** One first column *)
Context (alignments : list (AlignedEnvironment Attr Rx Fl)) (cut : Z).
Hypothesis (Hcut : cut <= 0).

Abbreviation Setop m op := (Setop garbage no_memory (Some N) m op).
Abbreviation round det := (transition_round malloc0 realloc0 garbage (Some N) strict_regions rounds vectors env alignments cut det).

Lemma first_target_next p : 0 <= p < Max_Input d -> first_target env p = Ok (next d 0 p).
Proof.
  intros Hp. pose proof (pq_dfa _ _ Q) as D. pose proof (dfa_states _ D). unfold first_target, next. destruct (aget_some (TransTable d) 0) as [row Hrow]; [rewrite (dfa_rows _ D); lia |].
  rewrite Hrow. res_cbn. destruct (aget_some row p) as [t ->]; [by rewrite (dfa_row _ D 0 row Hrow) | done].
Qed.

Lemma reset_vectors_ok v : sim_ok env nl v -> exists v', for_up reset_tabs 0 (Max_States d) v = Ok v' /\ sim_ok env nl v'.
Proof.
  intros S. pose proof (dfa_states _ (pq_dfa _ _ Q)). destruct (for_up_rule reset_tabs (fun _ v => sim_ok env nl v) 0 (Max_States d) v) as (v' & E & S'); [lia | | done | by exists v'].
  intros i u Hi [H1 H2 H3 H4 H5]. unfold reset_tabs. destruct (tab_at env nl _ i H3 Hi) as (t & -> & Ht). res_cbn. destruct (reset_ok nl t Ht) as (t' & -> & Ht'). res_cbn.
  destruct (tab_set env nl _ i t' H3 Hi Ht') as (rv & -> & Hrv). res_cbn. destruct (tab_at env nl _ i H4 Hi) as (u0 & -> & Hu). res_cbn. destruct (reset_ok nl u0 Hu) as (u' & -> & Hu'). res_cbn.
  destruct (tab_set env nl _ i u' H4 Hi Hu') as (rtv & -> & Hrtv). res_cbn. eexists. split; [reflexivity |]. by split.
Qed.

Lemma start_vectors_ok v : sim_ok env nl v -> sim_ok env nl (start_vectors v true).
Proof. by intros []. Qed.

Lemma no_positions_ok n : 0 <= n -> exists l, no_positions garbage n = Ok (Some l) /\ zlen l = n.
Proof.
  intros Hn. unfold no_positions. destruct (for_up_rule (fun i l => aset l i (-1)) (fun _ l => zlen l = n) 0 n (garbage n)) as (l & -> & Hl); [done | | by apply Hgarbage | by exists l].
  intros i l Hi Hl. rewrite aset_Ok by lia. eexists. split; [done |]. by rewrite zlen_insert.
Qed.

Lemma marks_ok (needed : bool) a n : sized n a -> 0 <= n -> exists b, (if needed then no_positions garbage n else Ok a) = Ok b /\ sized n b.
Proof. intros Ha Hn. destruct needed; [| by exists a]. destruct (no_positions_ok n Hn) as (l & -> & Hl). exists (Some l). split; [done | by apply sized_Some]. Qed.

(** The list of the positions where the column [p] may match first becomes the list of the matches. *)
Lemma simulated_column p m l v : has_positions N m l -> 0 < zlen l -> sim_ok env nl v -> exists s e t w m' c m2 qs,
  start m = Some s /\ copy_array (Some s) (tabsize m) = Ok e /\
  (if has_target_indicator env then no_positions garbage (tabsize m) else Ok (target_positions m)) = Ok t /\
  (if has_keyword_indicator env then no_positions garbage (tabsize m) else Ok (keyword_positions m)) = Ok w /\
  simulate strict_regions env rounds (mkML (start m) e t w (tabsize m) (matches_whole_corpus m) (is_inverted m)) (-1) 0 0 v p = Ok (m', c, true) /\
  Setop m' Reduce init_matchlist = Ok (1, m2, init_matchlist) /\ has_spans m2 qs /\ closed m2 /\ zlen qs <= N /\
  forall x, x ∈ qs <-> x.1 ∈ l /\ matched p x.1 x.2 /\ best_match p x.1 x.2.
Proof.
  intros Hm Hl Sv. destruct (hp_start N m l Hm) as [[_ ->]|Hs]; [done |]. destruct (hp_array N m l Hm) as (Hn & _). destruct (hp_sorted N ltac:(lia) m l Hm) as (Hsort & Hf & Hle).
  pose proof Hm as (_ & _ & _ & Hv & (_ & _ & X3 & X4)). exists l, (Some l).
  destruct (marks_ok (has_target_indicator env) _ _ X3 ltac:(lia)) as (t & Et & Ht). destruct (marks_ok (has_keyword_indicator env) _ _ X4 ltac:(lia)) as (w & Ew & Hw).
  exists t, w. set (m1 := mkML _ _ _ _ _ _ _).
  assert (exact m1) as Hx1 by (split; [cbn; rewrite Hs; by apply sized_Some |]; split; [by apply sized_Some |]; done).
  assert (StronglySorted Z.le l) as Hsle by (by apply sorted_le). unfold INT_MAX in HN.
  destruct (simulate_ok strict_regions env nl hold (plain_token_query strict_regions env nl Q) bnd W Hsize Hapart ltac:(intros r Hr; specialize (Hend r Hr); unfold INT_MAX; lia) Hbnd p l (-1)
    Hsle ltac:(lia) ltac:(unfold INT_MAX; lia) rounds Hrounds) with (m := m1) (i0 := l) (e0 := l) (v := v) as (m' & c & ws & l' & e' & E & Sm); [| | done |].
  { apply list.Forall_forall. intros q Hq. apply (proj1 (list.Forall_forall _ _) Hf q Hq). }
  { split; cbn; try done; [by exists []; rewrite app_nil_r | | ]; intros a Ea; rewrite <- Hn; [rewrite (Ht a Ea) | rewrite (Hw a Ea)]; lia. }
  assert (exact m') as Hx' by exact (simulate_exact strict_regions env rounds m1 (-1) 0 0 v p Hx1 _ E).
  destruct (simulated_spans p l m1 m' ws l' e' Hsort Hf Hn Hx' Sm) as (Hr & Ho & Hge & Hq).
  assert (is_inverted m' = false) as Hv' by (rewrite (sd_plain _ _ _ _ _ _ _ _ _ _ _ Sm); exact Hv).
  assert (is_some (ends m') = true) as He' by (by rewrite (proj1 (sd_ends _ _ _ _ _ _ _ _ _ _ _ Sm))).
  destruct (spans_reduce garbage no_memory (Some N) Hgarbage no_memory_sized m' _ Hx' Hr Hv' He' Ho Hge) as (m2 & E2 & Hs2 & Hc2).
  exists m', c, m2, (key true <$> live (rows_of m')). split; [done |]. split; [rewrite Hn; cbn; rewrite (proj2 (Z.ltb_ge _ 0)), Z.ltb_irrefl by lia; unfold zlen; by rewrite Nat2Z.id, firstn_all |].
  do 6 (split; [done |]). split; [| done]. pose proof (live_length (rows_of m')) as Hlen. rewrite <- (proj1 Hr), (sd_size _ _ _ _ _ _ _ _ _ _ _ Sm) in Hlen. cbn in Hlen.
  unfold zlen in *. rewrite length_fmap. lia.
Qed.

Lemma matched_in_corpus p s e : matched p s e -> 0 <= s < N /\ in_corpus s = true.
Proof.
  intros M. destruct (matched_ge env hold bnd W p s e M). destruct M as (r & Hr & Hs & _). specialize (Hend r Hr). split; [lia |]. apply inside_true. by exists r.
Qed.

Lemma hold_column p c q : aget (patternlist env) p = Ok c -> hold p q = column_holds c q.
Proof. intros E. unfold holds_at. by rewrite E. Qed.

(** One round: the matches of the column [p], and what is united with them. *)
Lemma transition_round_ok det p total ps : 0 <= p < Max_Input d -> next d 0 p <> E_State d -> has_spans total ps -> closed total -> zlen ps <= p * N ->
  exists m qs total' ps', round det p (init_matchlist, total, true) = Ok (if det then m else init_matchlist, total', true) /\
    has_spans m qs /\ zlen qs <= N /\ (forall x, x ∈ qs <-> candidate p x) /\ has_spans total' ps' /\ closed total' /\ zlen ps' <= (p + 1) * N /\
    forall x, x ∈ ps' <-> x ∈ ps \/ (det = false /\ candidate p x).
Proof.
  intros Hp Hne Ht Hc Hl. unfold transition_round. rewrite (first_target_next p Hp). res_cbn. rewrite (proj2 (Z.eqb_neq _ _)) by done.
  assert (exists v, (match labels env with Some _ => for_up reset_tabs 0 (Max_States d) (start_vectors (vectors 0 p) true) | None => Ok (start_vectors (vectors 0 p) true) end) = Ok v /\ sim_ok env nl v) as (v & -> & Sv).
  { destruct (labels env); [by apply reset_vectors_ok | by eexists]. }
  res_cbn. destruct (aget_some (patternlist env) p) as [c Ecol]; [by rewrite (pq_columns _ _ Q) |]. rewrite Ecol. res_cbn.
  destruct (first_list_ok c (Hfirst p c Hp Hne Ecol)) as (m & l & -> & Hm & Hin). res_cbn. destruct (hp_array N m l Hm) as (Hn & _). pose proof (zlen_nonneg l).
  assert (forall x, candidate p x <-> x.1 ∈ l /\ matched p x.1 x.2 /\ best_match p x.1 x.2) as Hcand.
  { intros x. unfold candidate. rewrite (hold_column p c) by done. split; intros (H1 & H2 & H3); (split; [| done]); destruct (matched_in_corpus p _ _ H2); by apply Hin. }
  destruct (Z.ltb_spec 0 (tabsize m)) as [Hlt|Hge].
  - destruct (simulated_column p m l (start_vectors v true) Hm ltac:(lia) (start_vectors_ok v Sv)) as (s & e & t & w & m' & c' & m2 & qs & Es & Ee & Et & Ew & E & E2 & Hs2 & Hc2 & Hq & Hx).
    rewrite Es in *. res_cbn. rewrite Ee. res_cbn. rewrite Et. res_cbn. rewrite Ew. res_cbn. rewrite (proj2 (Z.leb_le cut 0)) by done. cbn [orb]. rewrite E. res_cbn. cbn [fst snd]. rewrite E2. res_cbn. cbn [fst snd].
    destruct det.
    + res_cbn. exists m2, qs, total, ps. do 3 (split; [done |]). split; [intros x; by rewrite Hx, Hcand |]. do 2 (split; [done |]). split; [lia |]. intros x. split; [by left | by intros [?|[? _]]].
    + destruct (spans_union garbage no_memory (Some N) Hgarbage no_memory_sized total m2 ps qs Ht Hc Hs2 Hc2) as (u & us & Eu & Hu & Hcu & Hxu & Hlu); [nia |]. rewrite Eu. res_cbn.
      exists m2, qs, u, us. do 3 (split; [done |]). split; [intros x; by rewrite Hx, Hcand |]. do 2 (split; [done |]). split; [lia |]. intros x. rewrite Hxu, Hx, Hcand. tauto.
  - res_cbn. assert (l = []) as -> by (apply zlen_0_nil; lia). exists m, [], total, ps. split; [done |]. assert (forall x, ~ candidate p x) as Hno by (intros x [Hx _]%Hcand; by apply elem_of_nil in Hx).
    split; [| split; [rewrite zlen_nil; lia |]; split; [intros x; split; [by intros ?%elem_of_nil | by intros ?%Hno] |]].
    + destruct Hm as (rows & (Hr & _) & Hrows & Hv & Hx). apply fmap_nil_inv in Hrows. subst rows. exists []. split; [done |]. split; [done |]. split; [constructor |]. split; [constructor |]. split; [done |]. split; [done | by left].
    + do 2 (split; [done |]). split; [lia |]. intros x. split; [by left | intros [?|[_ Hx]]; [done | by apply Hno in Hx]].
Qed.

(** ** All first columns *)
Definition some_candidate (n : Z) (x : Z * Z) : Prop := exists p, 0 <= p < n /\ is_first p = true /\ candidate p x.

Lemma seqZ_snoc i : 0 <= i -> seqZ 0 (i + 1) = seqZ 0 i ++ [i].
Proof. intros Hi. rewrite (seqZ_app 0 i 1) by lia. by rewrite (seqZ_cons (0 + i) 1) by lia. Qed.

Lemma transitions_counted : count_transitions env = Ok (zlen (filter (fun p => is_first p = true) (seqZ 0 (Max_Input d)))).
Proof.
  pose proof (dfa_inputs _ (pq_dfa _ _ Q)). unfold count_transitions.
  destruct (for_up_rule (fun p n => t ← first_target env p; Ok (if negb (t =? E_State d) then n + 1 else n))
    (fun i n => 0 <= i /\ n = zlen (filter (fun p => is_first p = true) (seqZ 0 i))) 0 (Max_Input d) 0) as (n & -> & _ & ->); [done | | done | done].
  intros i n Hi [_ ->]. rewrite first_target_next by lia. res_cbn. eexists. split; [reflexivity |]. split; [lia |].
  rewrite seqZ_snoc, list.filter_app, filter_cons, filter_nil by lia. change (negb (next d 0 i =? E_State d)) with (is_first i). rewrite zlen_app. destruct (is_first i) eqn:E.
  - rewrite decide_True by done. change (zlen [i]) with 1. lia.
  - rewrite decide_False by done. change (zlen (@nil Z)) with 0. lia.
Qed.

Lemma single_first : zlen (filter (fun p => is_first p = true) (seqZ 0 (Max_Input d))) = 1 ->
  exists p0, 0 <= p0 < Max_Input d /\ is_first p0 = true /\ forall p, 0 <= p < Max_Input d -> is_first p = true -> p = p0.
Proof.
  intros Hl. destruct (filter _ _) as [|p0 [|q l]] eqn:E; [done | | rewrite !zlen_cons in Hl; pose proof (zlen_nonneg l); lia]. exists p0.
  assert (forall p, p ∈ [p0] <-> is_first p = true /\ 0 <= p < Max_Input d) as Hp by (intros p; rewrite <- E, list_elem_of_filter, elem_of_seqZ; intuition lia).
  destruct (proj1 (Hp p0) ltac:(left)) as [H1 H2]. split; [done |]. split; [done |]. intros p H3 H4. apply list_elem_of_singleton, Hp. done.
Qed.

Lemma round_skip det p st : 0 <= p < Max_Input d -> is_first p = false -> st.2 = true -> round det p st = Ok st.
Proof.
  destruct st as [[m total] r]. intros Hp Hf Hr. cbn in Hr. subst r. unfold transition_round. rewrite (first_target_next p Hp). res_cbn. apply negb_false_iff in Hf. by rewrite Hf.
Qed.

Lemma all_transitions_ok (det : bool) : det = (zlen (filter (fun p => is_first p = true) (seqZ 0 (Max_Input d))) =? 1) ->
  exists m total ps, for_up (round det) 0 (Max_Input d) (init_matchlist, init_matchlist, true) = Ok (m, total, true) /\
  has_spans (if det then m else total) ps /\ zlen ps <= INT_MAX /\ forall x, x ∈ ps <-> some_candidate (Max_Input d) x.
Proof.
  intros Hdet. pose proof (dfa_inputs _ (pq_dfa _ _ Q)) as Hin. assert (forall x, ~ some_candidate 0 x) as H0 by (intros x (p & ? & _); lia).
  assert (forall i x, some_candidate (i + 1) x <-> some_candidate i x \/ (0 <= i /\ is_first i = true /\ candidate i x)) as Hnext.
  { intros i x. split.
    - intros (p & Hp & Hf & Hc). destruct (decide (p = i)) as [->|]; [right; split; [lia | done] | left; exists p; split; [lia | done]].
    - intros [(p & Hp & Hf)|(Hi & Hf)]; [exists p; split; [lia | done] | exists i; split; [lia | done]]. }
  destruct (zlen _ =? 1) eqn:E; subst det.
  - apply Z.eqb_eq in E. destruct (single_first E) as (p0 & Hp0 & Hf0 & Huniq).
    destruct (for_up_rule (round true) (fun i st => st.2 = true /\ (i <= p0 -> st.1 = (init_matchlist, init_matchlist)) /\
      (p0 < i -> exists qs, has_spans st.1.1 qs /\ zlen qs <= N /\ forall x, x ∈ qs <-> candidate p0 x)) 0 (Max_Input d) (init_matchlist, init_matchlist, true))
      as ([[m total] r] & -> & Hr & _ & Hm); [done | | split; [done |]; split; [done | lia] |].
    + intros i [[m total] r] Hi (Hr & Hm1 & Hm2). cbn in Hr, Hm1, Hm2. subst r. destruct (is_first i) eqn:Ei; cycle 1.
      { eexists. split; [by apply round_skip |]. cbn. split; [done |]. split; [intros; apply Hm1; lia |]. intros Hlt. apply Hm2. destruct (decide (i = p0)); [congruence | lia]. }
      assert (i = p0) as -> by (apply Huniq; done || lia). injection (Hm1 ltac:(lia)) as -> ->. destruct init_spans as [S0 C0].
      destruct (transition_round_ok true p0 init_matchlist [] ltac:(lia) (proj1 (Z.eqb_neq _ _) (proj1 (negb_true_iff _) Hf0)) S0 C0 ltac:(rewrite zlen_nil; lia)) as (m' & qs & total' & ps' & E1 & Hs & Hl & Hq & _).
      eexists. split; [exact E1 |]. cbn. split; [done |]. split; [lia |]. intros _. by exists qs.
    + cbn in Hr, Hm. subst r. destruct (Hm ltac:(lia)) as (qs & Hs & Hl & Hq). exists m, total, qs. split; [done |]. split; [done |]. split; [lia |].
      intros x. rewrite Hq. split; [intros Hx; by exists p0 | intros (p & Hp & Hf & Hx)]. by rewrite <- (Huniq p Hp Hf).
  - destruct init_spans as [S0 C0]. destruct (for_up_rule (round false) (fun i st => st.2 = true /\ st.1.1 = init_matchlist /\
      exists ps, has_spans st.1.2 ps /\ closed st.1.2 /\ zlen ps <= i * N /\ forall x, x ∈ ps <-> some_candidate i x) 0 (Max_Input d) (init_matchlist, init_matchlist, true))
      as ([[m total] r] & -> & Hr & _ & ps & Hs & _ & Hl & Hx); [done | | |].
    + intros i [[m total] r] Hi (Hr & Hm & ps & Hs & Hc & Hl & Hx). cbn in Hr, Hm, Hs, Hc. subst r m. destruct (is_first i) eqn:Ei; cycle 1.
      { eexists. split; [by apply round_skip |]. cbn. split; [done |]. split; [done |]. exists ps. do 2 (split; [done |]). split; [lia |]. intros x. rewrite Hnext, Hx. split; [by left | intros [?|(_ & ? & _)]; [done | congruence]]. }
      destruct (transition_round_ok false i total ps ltac:(lia) (proj1 (Z.eqb_neq _ _) (proj1 (negb_true_iff _) Ei)) Hs Hc Hl) as (m' & qs & total' & ps' & E1 & _ & _ & _ & Hs' & Hc' & Hl' & Hx').
      eexists. split; [exact E1 |]. cbn. split; [done |]. split; [done |]. exists ps'. do 3 (split; [done |]). intros x. rewrite Hx', Hnext, Hx. intuition lia.
    + cbn. split; [done |]. split; [done |]. exists []. split; [done |]. split; [done |]. split; [rewrite zlen_nil; lia |]. intros x. split; [by intros ?%elem_of_nil | by intros ?%H0].
    + cbn in Hr, Hs. subst r. exists m, total, ps. split; [done |]. split; [done |]. split; [lia | done].
Qed.

(** ** The query *)
Hypothesis (Halign : alignments = []).

Lemma ps_ranges ps : StronglySorted klt ps -> StronglySorted rlt (to_range <$> ps).
Proof.
  induction ps as [|x ps IH]; intros Hs; [constructor |]. apply StronglySorted_inv in Hs as [Hs Hx]. rewrite fmap_cons. constructor; [by apply IH |].
  apply list.Forall_forall. intros r (y & -> & Hy)%list_elem_of_fmap. exact (proj1 (list.Forall_forall _ _) Hx y Hy).
Qed.

(** All the matches that the simulation finds. *)
Definition found_match (r : Range) : Prop := some_candidate (Max_Input d) (rstart r, rend r).

Lemma simulate_dfa_ok : exists cp, simulate_dfa malloc0 realloc0 garbage (Some N) strict_regions rounds vectors env alignments cut false = Ok cp /\
  wf cp /\ StronglySorted rlt (ranges cp) /\ ctype cp = ctype corpus /\ forall r, r ∈ ranges cp <-> found_match r.
Proof.
  unfold simulate_dfa. rewrite transitions_counted. res_cbn. rewrite (dfa_start _ (pq_dfa _ _ Q)). res_cbn. rewrite (proj2 (Z.eqb_neq _ 0)) by lia.
  destruct (all_transitions_ok _ eq_refl) as (m & total & ps & E & Hs & Hl & Hx). rewrite E. res_cbn. rewrite Halign. cbn [check_alignment_constraints]. res_cbn. cbn [fst snd].
  destruct (spans_again garbage no_memory (Some N) Hgarbage no_memory_sized _ ps Hs) as (m' & -> & Hs'). res_cbn. cbn [fst snd].
  destruct (set_corpus_ok garbage Hgarbage malloc0 realloc0 corpus m' ps Hs') as (cp & -> & Hw & Hr & Ht); [| done |].
  - apply list.Forall_forall. intros x Hin%Hx. destruct Hin as (p & _ & _ & _ & Hm & _). exact (matched_ge env hold bnd W p _ _ Hm).
  - exists cp. split; [done |]. split; [done |]. rewrite Hr. split; [apply ps_ranges; by apply (spans_sorted m' ps) |]. split; [done |].
    intros r. unfold found_match. rewrite <- Hx. split; [intros ([x y] & -> & Hin)%list_elem_of_fmap; exact Hin | intros Hin; apply list_elem_of_fmap; exists (rstart r, rend r); by destruct r].
Qed.

(** ** Matches that are found *)

(** The simulation finds a match if there is one. *)
Lemma best_exists p s e : matched p s e -> exists w, matched p s w /\ best_match p s w /\ if longest env then e <= w else w <= e.
Proof.
  intros M. pose proof M as (r & Hr & Hs & _). destruct (matched_in_corpus p s e M) as [Hrange _]. pose proof (Hend r Hr). unfold INT_MAX in HN, Hrounds.
  destruct (simulate_from_ok strict_regions env nl hold (plain_token_query strict_regions env nl Q) 0 p (Z.min (bnd s) (rend r)) s ltac:(lia) ltac:(unfold INT_MAX; lia) rounds _ (Hvectors 0)) as (v & _ & _ & Hc); [lia |].
  pose proof (chosen_best env hold bnd W Hapart p r s _ Hr Hs Hc) as [[_ Hno]|[Hm Hb]]; [by apply Hno in M |]. exists (winner v). split; [done |]. split; [by right | by apply Hb].
Qed.

Lemma found_is_match r : found_match r -> is_match r.
Proof. intros (p & Hp & Hf & Hh & Hm & _). apply matched_first. by exists p. Qed.

(** For every match one with the same start is found, not shorter or not longer. *)
Lemma match_found r : is_match r -> exists t, found_match t /\ rstart t = rstart r /\ if longest env then rend r <= rend t else rend t <= rend r.
Proof.
  intros (p & Hp & Hf & Hh & Hm)%matched_first. destruct (best_exists p _ _ Hm) as (w & Hw & Hb & Hl). exists (mkRange (rstart r) w). split; [by exists p | done].
Qed.

(** ** What the strategies select *)
Definition shortest_at (r : Range) : Prop := is_match r /\ forall t, is_match t -> rstart t = rstart r -> rend r <= rend t.

(** The shortest match that starts with a token that the column [p] matches. *)
Definition first_shortest (p : Z) (r : Range) : Prop :=
  0 <= p < Max_Input d /\ hold p (rstart r) = true /\ matched p (rstart r) (rend r) /\ forall e, matched p (rstart r) e -> rend r <= e.

Definition result (s : matching_strategy) (r : Range) : Prop :=
  match s with
  | longest_match => is_match r /\ forall t, is_match t -> RangesMatch.inside r t -> t = r
  | shortest_match => is_match r /\ forall t, is_match t -> RangesMatch.inside t r -> t = r
  | standard_match => shortest_at r /\ forall t, shortest_at t -> rend t = rend r -> rstart r <= rstart t
  | traditional => exists p, is_first p = true /\ first_shortest p r
  end.

Lemma chosen_longest (X : list Range) r : (forall t, t ∈ X <-> found_match t) -> longest env = true -> r ∈ X /\ chosen RMaximalMatches X X r <-> result longest_match r.
Proof.
  intros HX Hl. cbn [chosen result]. split.
  - intros [Hr%HX Hmax]. split; [by apply found_is_match |]. intros t Ht [H1 H2]. destruct (match_found t Ht) as (u & Hu & H3 & H4). rewrite Hl in H4.
    assert (u = r) as -> by (apply Hmax; [by apply HX | split; lia]). apply range_eq; lia.
  - intros [Hr Hmax]. destruct (match_found r Hr) as (u & Hu & H3 & H4). rewrite Hl in H4. assert (u = r) as -> by (apply Hmax; [by apply found_is_match | split; lia]).
    split; [by apply HX |]. intros t Ht%HX. by apply Hmax, found_is_match.
Qed.

Lemma chosen_shortest (X : list Range) r : (forall t, t ∈ X <-> found_match t) -> longest env = false -> r ∈ X /\ chosen RMinimalMatches X X r <-> result shortest_match r.
Proof.
  intros HX Hl. cbn [chosen result]. split.
  - intros [Hr%HX Hmin]. split; [by apply found_is_match |]. intros t Ht [H1 H2]. destruct (match_found t Ht) as (u & Hu & H3 & H4). rewrite Hl in H4.
    assert (u = r) as -> by (apply Hmin; [by apply HX | split; lia]). apply range_eq; lia.
  - intros [Hr Hmin]. destruct (match_found r Hr) as (u & Hu & H3 & H4). rewrite Hl in H4. assert (u = r) as -> by (apply Hmin; [by apply found_is_match | split; lia]).
    split; [by apply HX |]. intros t Ht%HX. by apply Hmin, found_is_match.
Qed.

Lemma shortest_found (X : list Range) r : (forall t, t ∈ X <-> found_match t) -> longest env = false -> r ∈ X /\ (forall t, t ∈ X -> rstart t = rstart r -> rend r <= rend t) <-> shortest_at r.
Proof.
  intros HX Hl. split.
  - intros [Hr%HX Hs]. split; [by apply found_is_match |]. intros t Ht Es. destruct (match_found t Ht) as (u & Hu%HX & H3 & H4). rewrite Hl in H4. specialize (Hs u Hu). lia.
  - intros [Hr Hs]. destruct (match_found r Hr) as (u & Hu & H3 & H4). rewrite Hl in H4. pose proof (Hs u (found_is_match u Hu) H3). assert (u = r) as -> by (apply range_eq; lia).
    split; [by apply HX |]. intros t Ht%HX. by apply Hs, found_is_match.
Qed.

Lemma chosen_standard (X : list Range) r : (forall t, t ∈ X <-> found_match t) -> longest env = false -> r ∈ X /\ chosen RLeftMaximalMatches X X r <-> result standard_match r.
Proof.
  intros HX Hl. cbn [chosen result]. rewrite <- (shortest_found X r HX Hl). split.
  - intros (Hr & Hs & Hleft). split; [by split |]. intros t [Ht Hts]%(shortest_found X t HX Hl). by apply Hleft.
  - intros [[Hr Hs] Hleft]. do 2 (split; [done |]). intros t Ht Hts. apply Hleft, (shortest_found X t HX Hl). by split.
Qed.

Lemma found_traditional r : longest env = false -> found_match r <-> result traditional r.
Proof.
  intros Hl. split.
  - intros (p & Hp & Hf & Hh & Hm & Hb). exists p. split; [done |]. do 3 (split; [done |]). intros e He. destruct Hb as [[_ Hno]|[_ Hb]]; [by apply Hno in He |]. specialize (Hb e He). by rewrite Hl in Hb.
  - intros (p & Hf & Hp & Hh & Hm & Hb). exists p. do 4 (split; [done |]). right. split; [done |]. by rewrite Hl.
Qed.
End QueryRun.
