(* ===== verification/QueryResults.v ===== *)
(** * The result of a query over tokens

    [do_StandardQuery_correct]: the ranges that a query returns, for every matching strategy, in terms of the matches
    that the automaton accepts.  The witness runs the query of the sample. *)

From Stdlib Require Import ZArith Lia Sorted.
From stdpp Require Import base tactics option sets list numbers.
From S2P Require Import Prelude.
From S2P Require Import Regex2dfa.
From S2P Require Import RegexDfa.
From S2P Require Import Matchlist.
From S2P Require Import MatchlistSets.
From S2P Require Import Bitfields.
From S2P Require Import Ranges.
From S2P Require Import RangesMatch.
From S2P Require Import Symtab.
From S2P Require Import Eval.
From S2P Require Import EvalSample.
From S2P Require Import EvalConditions.
From S2P Require Import Simulate.
From S2P Require Import SimulateTokens.
From S2P Require Import SimulateRun.
From S2P Require Import SimulateList.
From S2P Require Import SimulateMatches.
From S2P Require Import InitialMatches.
From S2P Require Import InitialSets.
From S2P Require Import InitialMatchlist.
From S2P Require Import Query.
From S2P Require Import QueryRun.

Open Scope Z_scope.

Section Results.
Context {Attr Rx Fl : Type} `{EqDecision Attr} `{!Access Attr Rx Fl} `{!AccessLaws Attr Rx Fl} `{!Index Attr Rx} `{!AlignAccess Attr}.

(** A query over tokens on a corpus with an index; [bnd] is the right boundary of the context of a position. *)
Record runnable (positional : Attr -> bool) (compiled : list Z -> Z -> Rx -> Prop) (env : EvalEnvironment Attr Rx Fl) (nl : Z) (bnd : Z -> Z) : Prop := {
  ru_query : plain_query env nl;
  ru_first : forall p c, 0 <= p < Max_Input (dfa env) -> next (dfa env) 0 p <> E_State (dfa env) -> aget (patternlist env) p = Ok c -> first_column positional compiled c;
  ru_tokens : 0 < mother_size env /\ 2 * mother_size env <= INT_MAX;
  ru_sum : Max_Input (dfa env) * mother_size env <= INT_MAX;
  ru_corpus : wf (query_corpus env) /\ 0 < csize (query_corpus env);
  ru_apart : StronglySorted apart (ranges (query_corpus env));
  ru_end : forall r, r ∈ ranges (query_corpus env) -> rend r < mother_size env;
  ru_context : forall pos r, r ∈ ranges (query_corpus env) -> rstart r <= pos <= rend r -> calculate_rightboundary (mother_size env) pos (search_context env) = Ok (bnd pos)
}.

Lemma runnable_strategy positional compiled env nl bnd s : runnable positional compiled env nl bnd -> runnable positional compiled (with_strategy env s) nl bnd.
Proof. intros [[] ? ? ? ? ? ? ?]. by split. Qed.

(** The strategy of the query, or the one that is embedded in it. *)
Definition query_strategy (env : EvalEnvironment Attr Rx Fl) (modifier : option (list Z)) : option matching_strategy :=
  match modifier with None => Some (strategy env) | Some t => find_matching_strategy t end.

Context (malloc0 realloc0 : bool) (garbage : Z -> list Z) (strict_regions : bool) (rounds : positive) (vectors : nat -> Z -> sim).

Lemma run_result positional compiled env nl bnd `{!IndexLaws Attr Rx Fl (mother_size env) positional compiled} cut :
  (forall n, 0 <= n -> zlen (garbage n) = n) -> INT_MAX + 3 < Zpos rounds -> (forall p, sim_ok env nl (start_vectors (vectors 0%nat p) true)) ->
  runnable positional compiled env nl bnd -> cut <= 0 ->
  exists cp cp', simulate_dfa malloc0 realloc0 garbage (Some (mother_size env)) strict_regions rounds vectors env [] cut false = Ok cp /\
    apply_strategy malloc0 realloc0 cp (strategy env) = Ok cp' /\ wf cp' /\ StronglySorted rlt (ranges cp') /\ forall r, r ∈ ranges cp' <-> result env bnd (strategy env) r.
Proof.
  intros Hg Hrounds Hv [Q Hf HN Hsum [W Hs] Ha He Hb] Hcut.
  destruct (simulate_dfa_ok positional compiled env nl bnd malloc0 realloc0 garbage strict_regions rounds vectors Hg HN Hsum Q W Hs Ha He Hb Hrounds Hv Hf [] cut Hcut eq_refl)
    as (cp & E & Wc & Sc & _ & Hc). exists cp.
  assert (forall op, on_one_list op -> (forall r, r ∈ ranges cp /\ chosen op (ranges cp) (ranges cp) r <-> result env bnd (strategy env) r) -> op <> RNonOverlapping ->
    exists cp', (r ← RangeSetop malloc0 realloc0 cp op None None; Ok r.1) = Ok cp' /\ wf cp' /\ StronglySorted rlt (ranges cp') /\ forall r, r ∈ ranges cp' <-> result env bnd (strategy env) r) as Hop.
  { intros op Ho Hr Hno. destruct (strategy_result malloc0 realloc0 cp op Wc (rlt_sorted _ Sc) Ho) as (cp' & Eop & W' & _ & S' & K'). rewrite Eop. res_cbn. eexists. split; [reflexivity |].
    cbn [fst]. rewrite touch_ranges. split; [by apply touch_wf |]. split; [done |]. intros r. rewrite K', <- Hr. by destruct op. }
  assert (forall s, strategy env = s -> s <> longest_match -> longest env = false) as Hshort by (intros s Es Hne; unfold longest; by rewrite bool_decide_false by congruence).
  unfold apply_strategy. destruct (strategy env) eqn:Es.
  - exists cp. do 4 (split; [done |]). intros r. rewrite Hc. eapply found_traditional; exact (Hshort _ eq_refl ltac:(done)).
  - destruct (Hop RMinimalMatches I) as (cp' & H1 & H2); [| done | by exists cp']. intros r. eapply (chosen_shortest env nl bnd strict_regions rounds vectors); try done. exact (Hshort _ eq_refl ltac:(done)).
  - destruct (Hop RLeftMaximalMatches I) as (cp' & H1 & H2); [| done | by exists cp']. intros r. eapply (chosen_standard env nl bnd strict_regions rounds vectors); try done. exact (Hshort _ eq_refl ltac:(done)).
  - destruct (Hop RMaximalMatches I) as (cp' & H1 & H2); [| done | by exists cp']. intros r. eapply (chosen_longest env nl bnd strict_regions rounds vectors); try done. unfold longest. by rewrite bool_decide_true.
Qed.
End Results.

Lemma standard_query_ok {Attr Rx Fl : Type} `{EqDecision Attr} `{!Access Attr Rx Fl} `{!AccessLaws Attr Rx Fl} `{!Index Attr Rx} `{!AlignAccess Attr}
  (positional : Attr -> bool) (compiled : list Z -> Z -> Rx -> Prop) (env : EvalEnvironment Attr Rx Fl) (nl : Z) (bnd : Z -> Z)
  `{!IndexLaws Attr Rx Fl (mother_size env) positional compiled} malloc0 realloc0 garbage strict_regions rounds vectors current_type hard_cut cut_value modifier s :
  (forall n, 0 <= n -> zlen (garbage n) = n) -> INT_MAX + 3 < Zpos rounds -> (forall p, sim_ok env nl (start_vectors (vectors 0%nat p) true)) ->
  runnable positional compiled env nl bnd -> cut_value <= 0 -> query_strategy env modifier = Some s ->
  exists cp, do_StandardQuery malloc0 realloc0 garbage (Some (mother_size env)) strict_regions rounds vectors false true true current_type hard_cut env [] cut_value 0 modifier = Ok (Some cp) /\
    wf cp /\ StronglySorted rlt (ranges cp) /\ forall r, r ∈ ranges cp <-> result env bnd s r.
Proof.
  intros Hg Hrounds Hv Hrun Hcut Hs. unfold do_StandardQuery.
  assert (match modifier with None => (true, env) | Some s => match find_matching_strategy s with Some code => (true, with_strategy env code) | None => (false, env) end end = (true, with_strategy env s)) as ->.
  { unfold query_strategy in Hs. destruct modifier as [t|]; [by rewrite Hs | injection Hs as <-; by destruct env]. }
  cbn [orb negb Z.eqb andb]. unfold cqp_run_query.
  assert (((0 <? hard_cut) && (hard_cut <? cut_value)) = false) as -> by (destruct (Z.ltb_spec 0 hard_cut), (Z.ltb_spec hard_cut cut_value); lia || done).
  destruct (run_result malloc0 realloc0 garbage strict_regions rounds vectors positional compiled (with_strategy env s) nl bnd cut_value Hg Hrounds) as (cp & cp' & E1 & E2 & W' & S' & K');
    [intros p; destruct (Hv p); by split | by apply runnable_strategy | done |].
  cbn [with_strategy mother_size] in E1. rewrite E1. res_cbn. rewrite E2. res_cbn. unfold apply_cut. rewrite (proj2 (Z.ltb_ge 0 cut_value) Hcut). cbn [andb]. res_cbn.
  exists cp'. done.
Qed.

(** C3. The result of a query over tokens, from the tables of its automaton to the list of ranges: for a query whose first
    columns can be looked up in the index, without a cut, on a corpus of disjoint ranges,
    [do_StandardQuery] succeeds, and the ranges it returns are, in order and without duplicates,
    - for longest: exactly the matches that lie in no other match,
    - for shortest: exactly the matches that contain no other match,
    - for standard: of the matches that are the shortest from their start, those with the first start for their end,
    - for traditional: for each first column, the shortest match from every position where it holds,
    where a match is a range of tokens that the automaton accepts, inside a range
    of the corpus and the context.  The strategy may be embedded in the query.  All loops end, no assertion fails
    and no array is left. *)
Theorem do_StandardQuery_correct {Attr Rx Fl : Type} `{EqDecision Attr} `{!Access Attr Rx Fl} `{!AccessLaws Attr Rx Fl} `{!Index Attr Rx} `{!AlignAccess Attr}
  (positional : Attr -> bool) (compiled : list Z -> Z -> Rx -> Prop) (env : EvalEnvironment Attr Rx Fl) (nl : Z) (bnd : Z -> Z)
  `{!IndexLaws Attr Rx Fl (mother_size env) positional compiled} malloc0 realloc0 garbage strict_regions rounds vectors current_type hard_cut cut_value modifier s :
  (forall n, 0 <= n -> zlen (garbage n) = n) -> INT_MAX + 3 < Zpos rounds -> (forall p, sim_ok env nl (start_vectors (vectors 0%nat p) true)) ->
  runnable positional compiled env nl bnd -> cut_value <= 0 -> query_strategy env modifier = Some s ->
  exists cp, do_StandardQuery malloc0 realloc0 garbage (Some (mother_size env)) strict_regions rounds vectors false true true current_type hard_cut env [] cut_value 0 modifier = Ok (Some cp) /\
    wf cp /\ StronglySorted rlt (ranges cp) /\ forall r, r ∈ ranges cp <-> result env bnd s r.
Proof. by eapply standard_query_ok. Qed.

(** ** The sample: [("a" | "b")+ "c"?] on [a b c c b a] *)
#[export] Instance sample_alignments : AlignAccess bool := { cpos2alg a p := -1; alg2cpos a i := None }.

Definition run_sample (modifier : option (list Z)) : res (option CorpusList) :=
  let access := sample_access (map Z.abs [0; 1; 2; 2; 1; 0]) [] in let index := sample_index [0; 1; 2; 2; 1; 0] 3 [] in
  do_StandardQuery false false (fun n => repeat 7 (Z.to_nat n)) (Some 6) false fuel (fun _ _ => fresh 3) false true true SYSTEM 0
    (sample_env 6 sample_dfa sample_columns standard_match) [] 0 0 modifier.

(** longest, shortest, traditional, and standard (the strategy of the environment). *)
Example sample_results : (fun m => (fun r => from_option ranges [] r) <$> run_sample m) <$>
    [Some [76; 111; 110; 103; 101; 115; 116]; Some [115; 104; 111; 114; 116; 101; 115; 116]; Some [116; 114; 97; 100; 105; 116; 105; 111; 110; 97; 108]; None] =
  [Ok [mkRange 0 2; mkRange 4 5]; Ok [mkRange 0 0; mkRange 1 1; mkRange 4 4; mkRange 5 5]; Ok [mkRange 0 0; mkRange 1 1; mkRange 4 4; mkRange 5 5];
   Ok [mkRange 0 0; mkRange 1 1; mkRange 4 4; mkRange 5 5]].
Proof. vm_compute. reflexivity. Qed.

Lemma sample_runnable : let access := sample_access (map Z.abs [0; 1; 2; 2; 1; 0]) [] in let index := sample_index [0; 1; 2; 2; 1; 0] 3 [] in
  forall d, dfa_ok d -> Max_Input d = 3 -> runnable negb (fun _ _ _ => False) (sample_env 6 d sample_columns standard_match) 1 (fun _ => 5).
Proof.
  intros access index d D En. split.
  - by apply (sample_query [0; 1; 2; 2; 1; 0] [] 6 standard_match).
  - intros p c _ _ [_ Ec%list_elem_of_lookup_2]%aget_Ok. cbn in Ec. unfold sample_columns in Ec. set_unfold. destruct Ec as [->|[->|[->|[]]]]; cbn; split; done || lia.
  - cbn. unfold INT_MAX. lia.
  - cbn. rewrite En. unfold INT_MAX. lia.
  - split; [| cbn; lia]. split; cbn; try done. repeat constructor; cbn; lia.
  - cbn. repeat constructor.
  - intros r Hr. apply list_elem_of_singleton in Hr as ->. cbn. lia.
  - intros pos r Hr Hp. apply list_elem_of_singleton in Hr as ->. cbn [rstart rend] in Hp. assert (pos = 0 \/ pos = 1 \/ pos = 2 \/ pos = 3 \/ pos = 4 \/ pos = 5) as Hc by lia.
    by destruct Hc as [->|[->|[->|[->|[-> | ->]]]]].
Qed.

Lemma do_StandardQuery_correct_witness : let access := sample_access (map Z.abs [0; 1; 2; 2; 1; 0]) [] in let index := sample_index [0; 1; 2; 2; 1; 0] 3 [] in
  exists cp, run_sample (Some [76; 111; 110; 103; 101; 115; 116]) = Ok (Some cp) /\ wf cp /\ StronglySorted rlt (ranges cp) /\
    forall r, r ∈ ranges cp <-> result (sample_env 6 sample_dfa sample_columns standard_match) (fun _ => 5) longest_match r.
Proof.
  intros access index.
  apply (@do_StandardQuery_correct bool Empty_set Empty_set _ access (sample_laws [0; 1; 2; 2; 1; 0] []) index sample_alignments negb (fun _ _ _ => False)
    (sample_env 6 sample_dfa sample_columns standard_match) 1 (fun _ => 5) (sample_index_laws [0; 1; 2; 2; 1; 0] 3 [] ltac:(repeat constructor; lia))).
  - intros n Hn. unfold zlen. rewrite repeat_length. lia.
  - rewrite fuel_val. reflexivity.
  - intros p. by apply (fresh_ok (sample_env 6 sample_dfa sample_columns standard_match) 3).
  - apply sample_runnable; [apply sample_dfa_ok | done].
  - lia.
  - reflexivity.
Defined.
