(* ===== verification/Queries.v ===== *)
(** * Queries, from the tree of the parser to the ranges of the result

    [query_correct] composes [do_SearchPattern], which compiles the tree of a query into an automaton, with
    [do_StandardQuery], which runs it: the result is described in terms of the sequences of patterns that match
    the tree. *)

From Stdlib Require Import ZArith Lia Sorted.
From stdpp Require Import base tactics option sets list numbers.
From S2P Require Import Prelude.
From S2P Require Import Evaltree.
From S2P Require Import Regex2dfa.
From S2P Require Import RegexScan.
From S2P Require Import RegexParse.
From S2P Require Import EvaltreeText.
From S2P Require Import RegexDfa.
From S2P Require Import SearchPattern.
From S2P Require Import Ranges.
From S2P Require Import RangesMatch.
From S2P Require Import Symtab.
From S2P Require Import Eval.
From S2P Require Import EvalSample.
From S2P Require Import EvalConditions.
From S2P Require Import Simulate.
From S2P Require Import SimulateTokens.
From S2P Require Import SimulateRun.
From S2P Require Import SimulateList.
From S2P Require Import SimulateMatches.
From S2P Require Import InitialMatches.
From S2P Require Import InitialSets.
From S2P Require Import InitialMatchlist.
From S2P Require Import Query.
From S2P Require Import QueryRun.
From S2P Require Import QueryResults.

Open Scope Z_scope.

Section Queries.
Context {Attr Rx Fl : Type} `{EqDecision Attr} `{!Access Attr Rx Fl} `{!AccessLaws Attr Rx Fl} `{!Index Attr Rx} `{!AlignAccess Attr}.

Definition with_dfa (env : EvalEnvironment Attr Rx Fl) (d : DFA) : EvalEnvironment Attr Rx Fl :=
  mkEnv Attr Rx Fl (query_corpus env) (mother_size env) (labels env) (patternlist env) (gconstraint env) d (has_target_indicator env) (target_label env)
    (has_keyword_indicator env) (keyword_label env) (match_label env) (matchend_label env) (search_context env) (strategy env).

(** Everything but the automaton is as it should be. *)
Definition query_over (positional : Attr -> bool) (compiled : list Z -> Z -> Rx -> Prop) (n : Z) (env : EvalEnvironment Attr Rx Fl) (nl : Z) (bnd : Z -> Z) : Prop :=
  forall d, dfa_ok d -> Max_Input d = n -> runnable positional compiled (with_dfa env d) nl bnd.

(** The tokens of the range are matched by a sequence of columns that begins with [p] and matches the tree. *)
Definition column_match (env : EvalEnvironment Attr Rx Fl) (bnd : Z -> Z) (e : Evaltree) (p : Z) (r : Range) : Prop :=
  exists q w, q ∈ ranges (query_corpus env) /\ rstart q <= rstart r <= rend q /\ zlen (p :: w) = rend r - rstart r + 1 /\ matches e (p :: w) /\
  forall (i : nat) c, (p :: w) !! i = Some c -> holds_at env c (rstart r + Z.of_nat i) = true /\ rstart r + Z.of_nat i <= Z.min (bnd (rstart r)) (rend q).

(** The result of the strategies, for the matches [M p] that begin with the column [p]. *)
Definition selected (M : Z -> Range -> Prop) (s : matching_strategy) (r : Range) : Prop :=
  let m r := exists p, M p r in
  let shortest r := m r /\ forall t, m t -> rstart t = rstart r -> rend r <= rend t in
  match s with
  | longest_match => m r /\ forall t, m t -> RangesMatch.inside r t -> t = r
  | shortest_match => m r /\ forall t, m t -> RangesMatch.inside t r -> t = r
  | standard_match => shortest r /\ forall t, shortest t -> rend t = rend r -> rstart r <= rstart t
  | traditional => exists p, M p r /\ forall t, M p t -> rstart t = rstart r -> rend r <= rend t
  end.

(** ** The automaton of a tree *)
Lemma compiled_dfa_ok d e n : 0 < Max_States d <= INT_MAX -> Max_Input d = n -> E_State d = Max_States d -> dfa_tables d ->
  (forall w, Forall (fun a => 0 <= a < n) w -> dfa_accepts d 0 w = true <-> matches e w) -> ~ matches e [] -> dfa_ok d.
Proof.
  intros Hs _ He [T1 T2 T3 T4 T5 T6] Ha Hno. split; try done; [lia | by rewrite T6 |].
  destruct (aget_some (Final d) 0) as [b Eb]; [lia |]. rewrite Eb. destruct b; [| done]. destruct Hno. apply Ha; [constructor |]. cbn [dfa_accepts]. by rewrite Eb.
Qed.

Section Tree.
Context (env : EvalEnvironment Attr Rx Fl) (bnd : Z -> Z) (e : Evaltree) (d : DFA).
Hypothesis (Htree : tree_ok (Max_Input d) e).
Hypothesis (Hacc : forall w, Forall (fun a => 0 <= a < Max_Input d) w -> dfa_accepts d 0 w = true <-> matches e w).

Abbreviation env' := (with_dfa env d).

Lemma accepts_first p w : dfa_accepts d 0 (p :: w) = true -> is_first env' p = true.
Proof.
  intros Ha. cbn [dfa_accepts] in Ha. unfold is_first, next. cbn [dfa with_dfa]. destruct (row ← aget (TransTable d) 0; aget row p) as [t|] eqn:E; [by apply andb_prop in Ha as [Ha _] | done].
Qed.

Lemma column_match_ok p r : column_match env bnd e p r <->
  0 <= p < Max_Input d /\ is_first env' p = true /\ holds_at env p (rstart r) = true /\ matched env' (holds_at env) bnd p (rstart r) (rend r).
Proof.
  split.
  - intros (q & w & Hq & Hr & Hl & Hm & Hw). pose proof (matches_range _ _ _ Htree Hm) as Hrange. pose proof (proj1 (Forall_cons_1 _ _ _ Hrange)) as Hp. split; [done |].
    apply (Hacc _ Hrange) in Hm. split; [by apply (accepts_first p w) |]. split; [destruct (Hw 0%nat p eq_refl) as [H0 _]; by rewrite Z.add_0_r in H0 |].
    exists q. do 2 (split; [done |]). exists (p :: w). rewrite zlen_cons in *. pose proof (zlen_nonneg w). split; [lia |]. split; [lia |]. split; [| done].
    intros i c Hi. destruct (Hw i c Hi) as [Hh Hb]. split; [exact (proj1 (Forall_lookup _ _) Hrange _ _ Hi) |]. split; [| done]. unfold test. destruct i as [|i]; [| done]. cbn.
    rewrite (proj2 (Z.leb_le 0 p)) by lia. by injection Hi.
  - intros (Hp & _ & Hh & q & Hq & Hr & w & Hle & Hl & Hv & Ha). destruct w as [|p' w]; [unfold zlen in Hl; cbn in Hl; lia |].
    destruct (Hv 0%nat p' eq_refl) as (_ & Ht & _). unfold test in Ht. rewrite bool_decide_true, (proj2 (Z.leb_le 0 p)) in Ht by (done || lia). cbn [andb] in Ht. subst p'.
    exists q, w. do 3 (split; [done |]). split.
    + apply Hacc; [| done]. apply list.Forall_forall. intros c (i & Hi)%list_elem_of_lookup. by destruct (Hv i c Hi).
    + intros i c Hi. destruct (Hv i c Hi) as (_ & Ht & Hb). split; [| done]. unfold test in Ht. destruct i as [|i]; [| done]. injection Hi as <-. by rewrite Z.add_0_r.
Qed.

Lemma is_match_tree r : is_match env' bnd r <-> exists p, column_match env bnd e p r.
Proof.
  unfold is_match. rewrite matched_first. split; intros (p & H); exists p; by apply column_match_ok.
Qed.

Lemma result_tree s r : result env' bnd s r <-> selected (column_match env bnd e) s r.
Proof.
  pose proof is_match_tree as Hm. assert (forall t, shortest_at env' bnd t <-> (exists p, column_match env bnd e p t) /\ forall u, (exists p, column_match env bnd e p u) -> rstart u = rstart t -> rend t <= rend u) as Hs.
  { intros t. unfold shortest_at. rewrite Hm. by setoid_rewrite Hm. }
  destruct s; cbn [result selected].
  - split; intros (p & H); exists p.
    + destruct H as (Hf & Hp & Hh & Hma & Hb). split; [by apply column_match_ok |]. intros t (_ & _ & _ & Ht)%column_match_ok Es. rewrite Es in Ht. by apply Hb.
    + destruct H as [(Hp & Hf & Hh & Hma)%column_match_ok Hb]. split; [done |]. do 3 (split; [done |]). intros x Hx. apply (Hb (mkRange (rstart r) x)); [| done]. by apply column_match_ok.
  - rewrite Hm. by setoid_rewrite Hm.
  - rewrite Hs. by setoid_rewrite Hs.
  - rewrite Hm. by setoid_rewrite Hm.
Qed.
End Tree.
End Queries.

(** C2. Queries: a query over tokens, whose columns can be looked up in the index ([query_over]), whose tree fits into the buffers of the compiler and does not match the empty sequence is
    compiled into an automaton, and if its states can be counted by an int, running it (without a cut) on a corpus of disjoint ranges
    returns, in order and without duplicates, exactly the ranges that the matching strategy selects from the
    matches of the query: the ranges of tokens, inside a range of the corpus and the context, that are matched by
    a sequence of columns that matches the tree.  The longest strategy selects the matches that lie in no
    other one, the shortest those that contain no other one, the standard strategy the longest of those with the same end
    among the shortest from their start, the traditional one the shortest from every start and first column.  Both
    parts end, and neither fails. *)
Theorem query_correct {Attr Rx Fl : Type} `{EqDecision Attr} `{!Access Attr Rx Fl} `{!AccessLaws Attr Rx Fl} `{!Index Attr Rx} `{!AlignAccess Attr}
  (positional : Attr -> bool) (compiled : list Z -> Z -> Rx -> Prop) (env : EvalEnvironment Attr Rx Fl) (nl : Z) (bnd : Z -> Z)
  `{!IndexLaws Attr Rx Fl (mother_size env) positional compiled} malloc0 realloc0 garbage strict_regions rounds current_type hard_cut cut_value modifier s n e :
  0 <= n <= 10 ^ 5 -> tree_ok n e -> tree_size e + 3 <= INT_MAX -> room (toks (rx_of e)) <= MAX_CHAR -> 1 + depth (rx_of e) <= STACK_MAX -> ~ matches e [] ->
  query_over positional compiled n env nl bnd -> query_strategy env modifier = Some s -> cut_value <= 0 ->
  (forall n, 0 <= n -> zlen (garbage n) = n) -> INT_MAX + 3 < Zpos rounds ->
  exists limit0, forall left_first limit, limit0 <= Zpos limit -> exists d,
  do_SearchPattern left_first limit true true e (n - 1) = Ok (true, Some d) /\
  forall vectors, Max_States d <= INT_MAX -> (forall p, sim_ok (with_dfa env d) nl (start_vectors (vectors 0%nat p) true)) ->
  exists cp, do_StandardQuery malloc0 realloc0 garbage (Some (mother_size env)) strict_regions rounds vectors false true true current_type hard_cut (with_dfa env d) [] cut_value 0 modifier
      = Ok (Some cp) /\
    wf cp /\ StronglySorted rlt (ranges cp) /\ forall r, r ∈ ranges cp <-> selected (column_match env bnd e) s r.
Proof.
  intros Hn Htree Hsize Hroom Hdepth Hempty Hover Hs Hcut Hg Hr. destruct (do_SearchPattern_total n e Hn Htree Hsize Hroom Hdepth) as (limit0 & H).
  exists limit0. intros left_first limit Hlim. destruct (H left_first limit Hlim) as (d & E & D0 & D1 & D2 & D3 & Hacc). exists d. split; [done |]. intros vectors Hint Hv.
  assert (dfa_ok d) as D by (by eapply compiled_dfa_ok). subst n.
  destruct (standard_query_ok positional compiled (with_dfa env d) nl bnd malloc0 realloc0 garbage strict_regions rounds vectors current_type hard_cut cut_value modifier s
    Hg Hr Hv (Hover d D eq_refl) Hcut Hs) as (cp & E1 & W & S & Hres).
  exists cp. split; [done |]. split; [done |]. split; [done |]. intros r. rewrite Hres. by apply result_tree.
Qed.

Lemma sample_not_empty : ~ matches sample [].
Proof.
  cbn. intros (w1 & w2 & Ew & (k & Hk & _ & Hp) & _). symmetry in Ew. apply app_nil in Ew as [-> _]. destruct k as [|k]; [done |].
  destruct Hp as (v1 & v2 & Ev & [->| ->] & _); discriminate Ev.
Qed.

(** The automaton of the sample, whatever the bound. *)
Definition compiled_sample : DFA := mkDFA 3 3 [[1; 1; 3]; [1; 1; 2]; [3; 3; 3]] [false; true; true; false] 3.

Lemma sample_compiled limit : (100000 <= limit)%positive -> do_SearchPattern true limit true true sample (3 - 1) = Ok (true, Some compiled_sample).
Proof. intros Hl. apply (do_SearchPattern_more true 100000 limit Hl). vm_compute. reflexivity. Qed.

(** [("a" | "b")+ "c"?] on [a b c c b a], with the longest strategy. *)
Lemma query_correct_witness : let access := sample_access (map Z.abs [0; 1; 2; 2; 1; 0]) [] in let index := sample_index [0; 1; 2; 2; 1; 0] 3 [] in
  let env := sample_env 6 sample_dfa sample_columns standard_match in
  exists cp, do_StandardQuery false false (fun n => repeat 7 (Z.to_nat n)) (Some 6) false fuel (fun _ _ => fresh 3) false true true SYSTEM 0 (with_dfa env compiled_sample) [] 0 0
      (Some [76; 111; 110; 103; 101; 115; 116]) = Ok (Some cp) /\
    wf cp /\ StronglySorted rlt (ranges cp) /\ forall r, r ∈ ranges cp <-> selected (column_match env (fun _ => 5) sample) longest_match r.
Proof.
  intros access index env.
  destruct (@query_correct bool Empty_set Empty_set _ access (sample_laws [0; 1; 2; 2; 1; 0] []) index sample_alignments negb (fun _ _ _ => False)
    env 1 (fun _ => 5) (sample_index_laws [0; 1; 2; 2; 1; 0] 3 [] ltac:(repeat constructor; lia)) false false (fun n => repeat 7 (Z.to_nat n)) false fuel SYSTEM 0 0
    (Some [76; 111; 110; 103; 101; 115; 116]) longest_match 3 sample) as (limit0 & H).
  - lia.
  - cbn. unfold repeat_inf, repeat_none. split; [done |]. split; split; try done; split; [split; [done | split; lia] | split; [lia | by left] | lia |].
    split; [lia | right; lia].
  - vm_compute. discriminate.
  - vm_compute. discriminate.
  - vm_compute. discriminate.
  - apply sample_not_empty.
  - intros d D En. by apply sample_runnable.
  - reflexivity.
  - lia.
  - intros n Hn. unfold zlen. rewrite repeat_length. lia.
  - rewrite fuel_val. reflexivity.
  - destruct (H true (Z.to_pos (Z.max 100000 limit0)) ltac:(lia)) as (d & E & Hd). rewrite sample_compiled in E by lia. injection E as <-.
    apply Hd; [vm_compute; discriminate | intros p; by apply (fresh_ok (with_dfa env compiled_sample) 3)].
Defined.
